(* ===== verification/_CoqProject ===== *)
-Q . S2P
Prelude.v
KrDep.v
KData.v
KDataRing.v
KDataIO.v
KDataQueue.v
KDataSpec.v
KDataProps.v
KDataConc.v
KCtrl.v
KCtrlQueue.v
KCtrlSpec.v
KCtrlProps.v
KCtrlConc.v
KSocket.v
LibKring.v
KSocketProps.v
Avl.v
AvlZip.v
AvlHeap.v
AvlInsert.v
AvlProps.v
Shuttle.v
ShuttleProps.v
DList.v
DListProps.v
ItQueue.v
ItQueueLayout.v
ItQueueOps.v
ItQueueSpec.v
ItQueueRun.v
ItQueueProps.v
Rope.v
Conn.v
ConnProps.v
Packet.v
PacketRecv.v
PacketSend.v
PacketProps.v
ConnState.v
ConnStateProps.v
Passthru.v
Influx.v
InfluxProps.v
Broker.v
BrokerKeep.v
BrokerProps.v
Proxy.v
ProxyRun.v
ProxyProps.v
Tcp.v
TcpFlow.v
TcpProps.v
TcpFrames.v
Sniff.v
SniffProps.v
DnsProps.v
Vpt.v
VptStack.v
VptProps.v
VptMatch.v
Certs.v
EventLoop.v
EventLoopProps.v
Tender.v
VptPairs.v
Streams.v
StreamsProps.v
HttpRsp.v
HttpRspProps.v
HttpTypes.v
HttpMessages.v
HttpProps.v
Fetch.v
FetchProps.v
Report.v
System.v
Log.v
Background.v
Ident.v
