(* ===== verification/Prelude.v ===== *)
(** * netp: a verification development

    ** The program

    netp sees, copies and filters network traffic.  A kernel module, kring, gives
    kernel and user space rings of shared pages.  A second module, shuttle, joins
    two network devices, forwards frames between them, copies every frame into a
    data ring and takes commands from a control ring.  The user programs (sniffer,
    TLS proxy, broker, fetch client) are built on a thread library, genf, and read
    and write the rings through libkring.

    - Data rings (kring/kdata.h, kdata.c, libdata.c).  2048 pages, a descriptor per
      page with a bit for the writer, a skip mark and a bit per reader.  A writer
      takes the next page no reader holds, fills it and publishes it; each of the
      six readers follows the write head at its own pace.
    - Control rings (kring/kctrl.h, kctrl.c, libctrl.c).  A queue of messages for
      one reader: writers take pages from a free list and push them on a stack, the
      reader turns the stack into a list and returns pages to the free list.
    - Ring sets and sockets (kring/attribute.c, socket.c, krkern.h).  Rings are made
      by name; a process reaches them through a socket that binds to a ring, is
      given a reader or writer id, and maps the memory.
    - Shuttle (shuttle/attribute.c, avl.c, avl.h).  The links between devices, the
      AVL tree of blocked connections, the frame handler and the commands.
    - genf, the thread library: doubly linked lists (list.h), queues of messages
      between threads (itq.cc), packets made of pieces in a rope and sent on a
      connection or by way of a queue (packet.cc, packet.h), connections with and
      without TLS, write buffers and child processes (connection.cc, tls.cc,
      lookup.cc, inet.cc, process.cc), the event loops (select.cc, signal.cc), the log
      (thread.h, thread.cc) and the pid file (background.cc).
    - Broker (broker/main.cc, main.h).  Clients publish packets and ask for kinds of
      packets; the broker keeps the last ones, logs, and writes rows for a database
      from descriptions of packets.
    - TLS proxy (tlsproxy/proxy.cc, proxy.h, listen.h, main.cc).  Accepts a client's
      connection, opens one to the server, and copies between them while parsers
      listen; makes a certificate for each host.
    - Sniffer and protocol handlers (sniff/sniff.cc, parse/handler.cc, tcp.cc,
      udp.cc, decrypted.cc).  Takes frames from the rings, follows connections, feeds
      parsers, and commands redirects from DNS answers.
    - Trees and patterns (parse/node.cc, parse.h, pattern.h).  The parsers push and
      pop nodes of a tree; patterns are matched as it grows.
    - HTTP parsers (parse/ident.rl, httpreq.rl, httprsp.rl, gzip.cc, brotli.cc,
      blockexec.cc, report.cc).  An identifier recognises HTTP, parsers of requests and
      responses build trees and hand bodies on, through decompressors and a splitter;
      reports keep what was parsed and where it failed.
    - Fetch client (parse/connection.cc, fetch.h).  Requests sent one at a time on a
      connection that parses the responses.

    Frames go from shuttle through a data ring to the sniffer and its handlers; what
    the proxy decrypts goes through a data ring to the same handlers; what they find
    goes as packets to the broker, and as commands through a control ring to shuttle.

    ** Files

    - [Prelude]: outcomes of C code ([res]: [Ok], [Ub] for undefined behaviour,
      [Spin] for an exhausted loop), machine integers, arrays, little-endian words,
      hint databases and tactics, list lemmas.
    - [KrDep], [KData], [KDataIO]: krdep.h, kdata.h and the writers of libdata.c and
      kdata.c, one definition per function.  The shared memory is explicit:
      [kdata_control] has the heads, the reader records, the descriptors; a page is
      its bytes.
    - [KDataRing]: the ownership invariant [ring_inv] and what each function of
      kdata.h does under it.  [KDataQueue]: messages in pages, the queue of each
      reader.  [KDataSpec]: the broadcast queue the ring implements and what happens
      when writers skip.  [KDataProps]: the theorems.
    - [KDataConc]: the same functions one access to shared memory at a time, one
      writer and six readers interleaved in any way.  A reader that is denied all other
      slots within one call takes its own again: [lap_breaks_exclusion] is what follows,
      and [no_lap], under which exclusion is proved, leaves such runs out.
    - [KCtrl], [KCtrlQueue], [KCtrlSpec], [KCtrlProps]: the control ring in the same
      way; its specification is a bounded FIFO queue with reservations.  [KCtrlProps] has
      the wait queues of writers without a page ([wait_step]).  [KCtrlConc]:
      one access at a time, with one writer and with several.
    - [KSocket], [LibKring], [KSocketProps]: ring sets, sockets, ids, mapping, opening
      from the kernel and from user space down to the handlers of socket.c, run one after
      the other; [alloc_step] is the allocation of an id one access at a time.
    - [Avl]: avl.c store by store on a heap of elements, and the functions of
      [avl_declare].  [AvlZip]: its loops as functions on trees with a hole.
      [AvlHeap], [AvlInsert]: the heap refines them.  [AvlProps]: the theorems.
    - [Shuttle], [ShuttleProps]: attribute.c of shuttle over the models of the rings
      and of the tree.
    - [DList], [DListProps]: list.h link by link.
    - [ItQueue]: itq.cc on blocks, headers and writer records.  [ItQueueLayout],
      [ItQueueOps], [ItQueueSpec], [ItQueueRun], [ItQueueProps]: where messages lie in
      the blocks, what each operation does, the queue they implement, runs, theorems.
    - [Rope]: the rope library's interface.  [Conn], [ConnProps]: SelectFd, reading,
      writing, write buffers.  [ConnState], [ConnStateProps]: the life of a connection,
      handshakes, host names, the sets of select.  [EventLoop], [EventLoopProps]: the
      loops around it.
    - [Packet], [PacketRecv], [PacketSend], [PacketProps], [Passthru]: packets made,
      sent, parsed from any fragments, and handed to another thread.
    - [Influx], [InfluxProps]: descriptions of packets and rows for the database.
      [Broker], [BrokerKeep], [BrokerProps]: the broker.
    - [Proxy], [ProxyRun], [ProxyProps]: a connection through the proxy.  [Certs]: the
      contexts, keys and serial numbers its threads share.
    - [Tcp], [TcpFlow], [TcpProps], [TcpFrames]: the handlers of frames, the invariant
      of connections, the theorems, frames in several pages.  [Sniff], [SniffProps],
      [DnsProps]: the loops over rings, decrypted streams, redirects.
    - [Vpt], [VptStack], [VptProps], [VptMatch]: the tree of a parse, its stack, the
      barriers, and patterns.  [VptPairs]: the pairs of requests and responses.
      [Tender]: the search for tenders in a page.
    - [Fetch], [FetchProps]: the fetch client's connection, over the machines of
      requests and responses.
    - [Streams], [StreamsProps]: consumers of bytes, the splitter, gzip, brotli, the
      blocks of bodies.  [HttpRsp]: the machines of requests and responses with their
      actions and [receive].  [HttpRspProps]: the calls they make, packet by packet,
      are those of a run on the whole stream.  [HttpTypes]: types of what they keep.
      [HttpMessages]: messages and how they are framed.  [HttpProps]: the theorems.
      [Ident]: the identifier, and the way of responses from TCP packets to the parser
      of bodies.
    - [Report]: reports of parses.
    - [System]: sockets, processes and namespaces as changes of a table of descriptors.
      [Log]: the stream of the log and the threads that share it.  [Background]: programs
      that are started together and their pid file.

    ** Interfaces

    Code outside the repository, or generated by a build, is an argument.  Where more
    than one function of it is used it is a class with the laws the code relies on:
    [RopeLib] (the rope library), [BstSetLib], [StructMapLib], [HalfDictLib],
    [DecrDictLib], [KeySetLib] (containers of aapl), [MainGen] (the generated readers
    of the broker), [Parsers], [DecrParsers], [HttpParsers] (the parsers, with
    instances of [Parsers] by the identifier of [Ident] and of [HttpParsers] by the
    machines of [HttpRsp]), [Zlib] and [BrotliLib] with
    [ZlibLaws] and [BrotliLaws] (the decompressors), [NewFd] (the descriptors the kernel
    gives).  [Consumer] is what a stream is handed to and [Relay] what a stage between two
    consumers promises, with instances for the splitter and the decompressors; [Machine]
    with its laws is a parser of requests or responses, [World] the tree and the source of
    requests it calls, [Parts] where it sends bodies.  [WriteFuncs] is what a write buffer needs of the thing it writes to, with
    instances for connections and for processes; [LoopThread] and [LoopLaws] are what an event
    loop needs of its thread, with an instance for a main thread.  The instances in the
    development show that the laws can hold.  Other arguments are the bytes of a socket
    buffer and its headers as the kernel gives them, the answers of the network stack
    ([kcall]s record what is asked of it), of sockets and of OpenSSL, in the order the
    calls are made ([Peer], [Round]), whether [sscanf] matched, the allocator [new].

    ** What the theorems show

    - Rings.  Sequences of entering, writing and reading a data ring return what a
      broadcast queue returns; the search for a page ends at the first free one; contents
      survive, cut as the code cuts them; in every interleaving in which no reader is
      denied all other slots within a call the page the writer fills
      is not one a reader has and a page being read does not change.  The control ring
      refines a FIFO queue, and with one writer is one in every interleaving; which readers
      wake writers that sleep.  Ids are exclusive, for operations one after the other and
      for allocations on one ring at the same time.
    - Shuttle.  The tree keeps order, balance and all stored fields; search is correct
      and logarithmic; a connection is blocked if and only if that was commanded; frames
      are handled once.
    - Lists and queues.  Runs refine sequences; the queue between threads gives messages
      in order and its memory back.
    - Connections and packets.  What is written to a buffer arrives in order; packets
      arrive as they were made whatever the fragments, field by field; a connection is
      established only after verification; name checks.
    - Event loops.  Rounds handle signals, timers and descriptors once; runs of a timer
      are an interval apart.
    - Broker.  In every state each client has been sent what it asked for, in order; the
      handlers return; descriptions and rows are those of reference definitions.
    - Proxy.  What was written to an end is what was read from the other, with the
      response for a refused certificate behind it; the handlers
      return while the connection to the server has not failed; certificates, keys and numbers are distinct in every interleaving.
    - Handlers and sniffer.  What is known of a connection depends on its packets only;
      a frame or decrypted bytes written to a ring reach the parser of the connection;
      an address is redirected once.
    - Trees.  A document is built as parsed by every parse that returns; a barrier contains the pops of a broken
      part; matching is that of a reference definition for the DNS pattern; pairs are a
      queue; the tenders of a page are read back.
    - Fetch client.  Requests are sent in order, one at a time.
    - HTTP.  The identifier decides as the lines it knows say, and a TCP connection is
      taken for HTTP accordingly; responses cut into packets in any way are delivered
      uncompressed and whole, also from the packets of a TCP connection; the parser of responses keeps to its types and is undefined only where that is said; reports have the tree of
      the parse and the place of a failure.
    - System.  Descriptors are kept or closed on every path; statements of the log are whole in
      every interleaving; one program owns the pid file while none that wrote it ends, unless
      the file named a process that had ended.

    The theorems on errors state where the code goes wrong, on an input for which it does:
    they are the code's behaviour as it is.

    What the theorems on good runs assume of the environment: packets that are followed by
    TCP are captured whole; a TLS write of a block of the proxy goes through whole or not at
    all, as it does when it fits a record; a TLS read of a sending end does not have to write first; content is
    what the decompressors accept.

    A theorem that an operation returns is that its result is [Ok], so it excludes
    undefined behaviour and loops that do not end.

    ** Fuel and bounds

    A loop that is not structural has a number of turns.  The number is a constant
    where the code bounds it: 7 for the search for a page (six readers hold at most
    six pages), 1 for a compare-and-swap loop run alone, 2050 for turning a stack of
    at most 2048 pages, the number of pages plus one for cutting a buffer; an
    argument with a lower bound where it depends on data: twice the size of a tree
    plus two, or 2 log2(n+1) + 2 for searching it, the length plus one for a list, the
    blocks plus two for releasing a message, the scheduled reads and writes plus two for
    the loops on a connection, the fields plus one for a description, the bytes plus one
    for the items of a packet, the barrier for clearing a stack, the descriptors and
    messages to come plus one for a round of the event loop, the decompressed bytes plus
    one for a decompressor, the depth of a tree for its dump, the bytes for a dump of
    them in the log.  The theorems show that
    these are enough.  Packets are below 2 GiB and frames below 2^30 bytes, where the
    code counts in an int; a theorem that needs a smaller bound has it as a hypothesis.

    ** Not modelled

    Module registration and the freeing of ring sets at module exit, device
    callbacks that only call the kernel, the wait queues of data rings (a wait is its
    condition), failing memory allocation.  In genf: the resolver behind name lookup, creating
    threads, socket options and addresses; in tlsproxy: the OpenSSL calls that load and
    sign certificates, the service thread; in broker: the HTTP request to the database,
    start-up; in sniff: capture with pcap and start-up; in parse: the parsers of JSON and
    HTML, the identifier of files, loading modules.  The .lm files are Colm programs; of
    the .rl files, which are Ragel programs, the machines of ident.rl, httpreq.rl and
    httprsp.rl are translated by hand, state by state, the others are not. *)

From Stdlib Require Export ZArith Lia Bool.
From stdpp Require Export prelude list_numbers gmap.

#[global] Open Scope Z_scope.

(** ** Outcomes of C code

    [Ok a] is a normal result.  [Ub] is what the C standard leaves undefined
    and the code must therefore never reach: an index outside an array, a null
    dereference.  [Spin] is reached when a loop has used up the fuel its model
    was given; a theorem that an operation returns is a theorem that its result
    is [Ok], so neither [Ub] nor [Spin] can hide in it. *)
Inductive res (A : Type) : Type :=
| Ok (a : A)
| Ub
| Spin.
Arguments Ok {A} _.
Arguments Ub {A}.
Arguments Spin {A}.

#[global] Instance res_ret : MRet res := @Ok.
#[global] Instance res_bind : MBind res := λ A B f m,
  match m with Ok a => f a | Ub => Ub | Spin => Spin end.
#[global] Instance res_fmap : FMap res := λ A B f m,
  match m with Ok a => Ok (f a) | Ub => Ub | Spin => Spin end.

Definition is_ok {A} (m : res A) : bool :=
  match m with Ok _ => true | _ => false end.

(** [if (x)] and [!x] of C on an integer. *)
Definition ctrue (z : Z) : bool := negb (z =? 0).

(** ** Machine integers: a w-bit integer is a [Z] kept in range by wrapping. *)
Definition wrapu (w : Z) (z : Z) : Z := z mod 2 ^ w.
Definition wraps (w : Z) (z : Z) : Z :=
  (z + 2 ^ (w - 1)) mod 2 ^ w - 2 ^ (w - 1).
Abbreviation u8 := (wrapu 8).
Abbreviation u16 := (wrapu 16).
Abbreviation u32 := (wrapu 32).
Abbreviation u64 := (wrapu 64).
Abbreviation i8 := (wraps 8).
Abbreviation i32 := (wraps 32).
Abbreviation i64 := (wraps 64).

(** ** Arrays indexed by a C integer; out of range is [Ub]. *)
Definition aget {A} (l : list A) (i : Z) : res A :=
  if decide (0 ≤ i) then
    match l !! Z.to_nat i with Some x => Ok x | None => Ub end
  else Ub.

Definition aset {A} (l : list A) (i : Z) (x : A) : res (list A) :=
  if decide (0 ≤ i < Z.of_nat (length l)) then Ok (<[Z.to_nat i := x]> l)
  else Ub.

(** Dereferencing a pointer that may be null. *)
Definition deref {A} (o : option A) : res A :=
  match o with Some x => Ok x | None => Ub end.

(** ** Bytes in memory *)

(** Little-endian bytes of the low [n] bytes of [v], and back. *)
Fixpoint le_bytes (n : nat) (v : Z) : list Z :=
  match n with
  | O => []
  | S n => v mod 256 :: le_bytes n (v / 256)
  end.

Fixpoint le_val (bs : list Z) : Z :=
  match bs with
  | [] => 0
  | b :: bs => b + 256 * le_val bs
  end.

Definition is_byte (b : Z) : Prop := 0 ≤ b < 256.

(** Copying [bs] into a buffer at an offset, and reading [n] bytes from one;
    both are [Ub] past the end of the buffer. *)
Definition mem_store (m : list Z) (off : nat) (bs : list Z) : res (list Z) :=
  if decide (off + length bs ≤ length m)%nat then
    Ok (take off m ++ bs ++ drop (off + length bs) m)
  else Ub.

Definition mem_load (m : list Z) (off n : nat) : res (list Z) :=
  if decide (off + n ≤ length m)%nat then Ok (take n (drop off m)) else Ub.

(** ** C strings *)

(** The bytes before the terminator; the whole list when there is none. *)
Fixpoint cstr (s : list Z) : list Z :=
  match s with
  | [] => []
  | c :: s => if c =? 0 then [] else c :: cstr s
  end.

(** strncpy( dest, src, n ): at most [n] characters, padded with zeros. *)
Definition strncpy (src : list Z) (n : nat) : list Z :=
  let s := take n (cstr src) in s ++ replicate (n - length s) 0.

(** strcmp( a, b ) == 0 *)
Definition streq (a b : list Z) : bool := bool_decide (cstr a = cstr b).

(** * Generic lemmas and automation *)

Create HintDb netp.

Lemma bind_Ok {A B} (a : A) (f : A → res B) : mbind f (Ok a) = f a.
Proof. reflexivity. Qed.

Lemma bind_Ok_inv {A B} (m : res A) (f : A → res B) b :
  mbind f m = Ok b → ∃ a, m = Ok a ∧ f a = Ok b.
Proof. destruct m; cbn; try discriminate; eauto. Qed.

(** Splits every [mbind _ _ = Ok _] hypothesis into its steps. *)
Ltac inv_res :=
  repeat match goal with
  | H : mbind _ _ = Ok _ |- _ =>
      let a := fresh "a" in let E := fresh "E" in
      apply bind_Ok_inv in H as (a & E & H)
  | H : mret _ = Ok _ |- _ => injection H as H
  | H : Ok _ = Ok _ |- _ => injection H as H
  | H : (_, _) = (_, _) |- _ => injection H as ? ?
  | x : (_ * _)%type |- _ => destruct x
  end; subst.

(** Runs one bind whose first computation is known. *)
Ltac step_with H := rewrite H, bind_Ok.

Lemma ctrue_false z : ctrue z = false ↔ z = 0.
Proof. unfold ctrue. rewrite negb_false_iff, Z.eqb_eq. done. Qed.

Lemma ctrue_true z : ctrue z = true ↔ z ≠ 0.
Proof. unfold ctrue. rewrite negb_true_iff, Z.eqb_neq. done. Qed.

Lemma wrapu_small w z : 0 ≤ z < 2 ^ w → wrapu w z = z.
Proof. intros. unfold wrapu. by rewrite Z.mod_small. Qed.

Lemma wrapu_range w z : 0 ≤ w → 0 ≤ wrapu w z < 2 ^ w.
Proof. intros. apply Z.mod_pos_bound. apply Z.pow_pos_nonneg; lia. Qed.

Lemma wraps_small w z : 0 < w → - 2 ^ (w - 1) ≤ z < 2 ^ (w - 1) → wraps w z = z.
Proof.
  intros Hw Hz. unfold wraps.
  assert (2 ^ w = 2 * 2 ^ (w - 1)) as E by (rewrite <- Z.pow_succ_r; [f_equal|]; lia).
  rewrite Z.mod_small; lia.
Qed.

Lemma NoDup_perm {A} (l1 l2 : list A) : l1 ≡ₚ l2 → NoDup l1 → NoDup l2.
Proof. by intros ->. Qed.

Section Arrays.
Context {A : Type}.
Implicit Types (l : list A) (x y : A).

Lemma aget_lookup l i x : 0 ≤ i → l !! Z.to_nat i = Some x → aget l i = Ok x.
Proof. intros Hi E. unfold aget. rewrite decide_True by done. by rewrite E. Qed.

Lemma aget_Ok l i x : aget l i = Ok x ↔ 0 ≤ i ∧ l !! Z.to_nat i = Some x.
Proof.
  unfold aget. case_decide; [|split; [done|lia]].
  destruct (l !! Z.to_nat i) eqn:E; split; intros; naive_solver.
Qed.

Lemma aget_Ok_range l i x : aget l i = Ok x → 0 ≤ i < Z.of_nat (length l).
Proof. intros [Hi E]%aget_Ok. apply lookup_lt_Some in E. lia. Qed.

Lemma aget_in_range l i : 0 ≤ i < Z.of_nat (length l) → ∃ x, aget l i = Ok x.
Proof.
  intros Hi. destruct (lookup_lt_is_Some_2 l (Z.to_nat i)) as [x E]; [lia|].
  exists x. apply aget_lookup; [lia|done].
Qed.

Lemma aset_in_range l i x :
  0 ≤ i < Z.of_nat (length l) → aset l i x = Ok (<[Z.to_nat i := x]> l).
Proof. intros. unfold aset. by rewrite decide_True. Qed.

Lemma aset_Ok l i x l' :
  aset l i x = Ok l' ↔ 0 ≤ i < Z.of_nat (length l) ∧ l' = <[Z.to_nat i := x]> l.
Proof. unfold aset. case_decide; naive_solver. Qed.

Lemma aset_length l i x l' : aset l i x = Ok l' → length l' = length l.
Proof. intros [_ ->]%aset_Ok. apply length_insert. Qed.

Lemma aget_insert_eq l i x :
  0 ≤ i < Z.of_nat (length l) → aget (<[Z.to_nat i := x]> l) i = Ok x.
Proof.
  intros. apply aget_lookup; [lia|]. rewrite list_lookup_insert_eq; [done|lia].
Qed.

Lemma aget_insert_ne l i j x :
  0 ≤ i → i ≠ j → aget (<[Z.to_nat i := x]> l) j = aget l j.
Proof.
  intros Hi Hij. unfold aget. case_decide; [|done].
  rewrite list_lookup_insert_ne; [done|lia].
Qed.

Lemma aget_insert l i j x :
  0 ≤ i < Z.of_nat (length l) →
  aget (<[Z.to_nat i := x]> l) j = if decide (i = j) then Ok x else aget l j.
Proof.
  intros. case_decide; subst; [by apply aget_insert_eq|]. by apply aget_insert_ne; [lia|].
Qed.
End Arrays.

#[export] Hint Resolve aget_insert_eq aset_in_range : netp.

(** ** Little-endian bytes *)

Lemma le_bytes_length n v : length (le_bytes n v) = n.
Proof. revert v. induction n; intros; simpl; congruence. Qed.

Lemma le_val_bytes n v : le_val (le_bytes n v) = v mod 2 ^ (8 * Z.of_nat n).
Proof.
  revert v. induction n as [|n IH]; intros v.
  - simpl. by rewrite Z.mod_1_r.
  - cbn [le_bytes le_val]. rewrite IH.
    replace (8 * Z.of_nat (S n)) with (8 + 8 * Z.of_nat n) by lia.
    rewrite Z.pow_add_r by lia. change (2 ^ 8) with 256.
    rewrite Z.rem_mul_r; lia.
Qed.

Lemma le_bytes_byte n v : Forall is_byte (le_bytes n v).
Proof.
  revert v. induction n; intros v; cbn [le_bytes]; constructor; [|done].
  apply Z.mod_pos_bound. lia.
Qed.

(** ** Buffers *)

Lemma mem_store_Ok m off bs m' :
  mem_store m off bs = Ok m' →
  (off + length bs ≤ length m)%nat ∧
  m' = take off m ++ bs ++ drop (off + length bs) m.
Proof. unfold mem_store. case_decide; naive_solver. Qed.

Lemma mem_store_length m off bs m' :
  mem_store m off bs = Ok m' → length m' = length m.
Proof.
  intros [H ->]%mem_store_Ok. rewrite !length_app, length_take, length_drop. lia.
Qed.

Lemma mem_store_fits m off bs :
  (off + length bs ≤ length m)%nat →
  mem_store m off bs = Ok (take off m ++ bs ++ drop (off + length bs) m).
Proof. intros. unfold mem_store. by rewrite decide_True. Qed.

Lemma mem_load_store_eq m off bs m' :
  mem_store m off bs = Ok m' → mem_load m' off (length bs) = Ok bs.
Proof.
  intros H. pose proof (mem_store_length _ _ _ _ H) as L.
  apply mem_store_Ok in H as [H ->]. unfold mem_load.
  rewrite decide_True by lia. f_equal.
  rewrite drop_app_length' by (rewrite length_take; lia).
  by rewrite take_app_length.
Qed.

Lemma mem_load_store_before m off bs m' o n :
  mem_store m off bs = Ok m' → (o + n ≤ off)%nat → mem_load m' o n = mem_load m o n.
Proof.
  intros H Ho. pose proof (mem_store_length _ _ _ _ H) as L.
  apply mem_store_Ok in H as [H ->]. unfold mem_load. rewrite L.
  case_decide; [|done]. f_equal.
  rewrite drop_app_le by (rewrite length_take; lia).
  rewrite take_app_le by (rewrite length_drop, length_take; lia).
  rewrite <- (take_drop off m) at 2.
  rewrite drop_app_le by (rewrite length_take; lia).
  rewrite take_app_le; [done|rewrite length_drop, length_take; lia].
Qed.

Lemma mem_load_store_after m off bs m' o n :
  mem_store m off bs = Ok m' → (off + length bs ≤ o)%nat → mem_load m' o n = mem_load m o n.
Proof.
  intros H Ho. pose proof (mem_store_length _ _ _ _ H) as L.
  apply mem_store_Ok in H as [H ->]. unfold mem_load. rewrite L.
  case_decide; [|done]. f_equal. f_equal.
  rewrite app_assoc.
  rewrite drop_app_ge by (rewrite length_app, length_take; lia).
  rewrite drop_drop. f_equal. rewrite length_app, length_take. lia.
Qed.

(** ** C strings *)

Lemma cstr_no_nul s : 0 ∉ cstr s.
Proof.
  induction s as [|c s IH]; cbn; [set_solver|].
  destruct (Z.eqb_spec c 0); set_solver.
Qed.

Lemma cstr_app_nul s t : 0 ∉ s → cstr (s ++ 0 :: t) = s.
Proof.
  induction s as [|c s IH]; intros H; cbn; [done|].
  destruct (Z.eqb_spec c 0) as [->|]; [set_solver|]. f_equal. apply IH. set_solver.
Qed.

Lemma strncpy_length src n : length (strncpy src n) = n.
Proof. unfold strncpy. rewrite length_app, length_replicate, length_take. lia. Qed.
