(* ===== verification/KrDep.v ===== *)
(** * kring/krdep.h: what every part of kring shares

    Page size, the enumerations of the API, the page memory of a ring and the
    [kring_user] handle through which the kernel and user space run the same
    inline code.  A pointer into a ring is the number of the ring in its set and
    a page number ([page_ptr]); the arrays [u->control] and [u->data] are the
    lists of the rings they were mapped to. *)

From S2P Require Import Prelude.

Definition KRING_PAGE_SIZE : Z := 4096.
Definition KRING_RING_ID_ALL : Z := -1.

(** enum KRING_PROTO, KRING_TYPE and KRING_MODE; plain ints, since they cross
    the system call boundary unchecked. *)
Definition KRING_PACKETS : Z := 1.
Definition KRING_DECRYPTED : Z := 2.
Definition KRING_PLAIN : Z := 3.
Definition KRING_DATA : Z := 1.
Definition KRING_CTRL : Z := 2.
Definition KRING_READ : Z := 1.
Definition KRING_WRITE : Z := 2.

(** struct kring_page: [char d[KRING_PAGE_SIZE]]. *)
Abbreviation kring_page := (list Z).

Definition zero_page : kring_page := replicate (Z.to_nat KRING_PAGE_SIZE) 0.

Definition page_ok (p : kring_page) : Prop :=
  length p = Z.to_nat KRING_PAGE_SIZE ∧ Forall is_byte p.

(** A pointer to a page of a ring: [&u->data[ctrl].page[off]] or [u->pd[off].m]. *)
Record page_ptr := PagePtr { pp_ring : Z; pp_off : Z }.

#[global] Instance page_ptr_eq_dec : EqDecision page_ptr.
Proof. solve_decision. Defined.

(** struct kring_user.  [u_control] and [u_data] hold, for each element of the
    two arrays, the ring it maps; [u_pd] is the ring whose page table the
    kernel reads. *)
Record kring_user := KringUser {
  u_socket : Z;
  u_ring_id : Z;
  u_nrings : Z;
  u_writer_id : Z;
  u_reader_id : Z;
  u_mode : Z;
  u_control : list Z;
  u_data : list Z;
  u_pd : option Z;
  u_krerr : Z;
  u_errno : Z;
}.

(** kdata_func_error / kctrl_func_error *)
Definition func_error (u : kring_user) (ke ee : Z) : kring_user :=
  KringUser (u_socket u) (u_ring_id u) (u_nrings u) (u_writer_id u) (u_reader_id u)
    (u_mode u) (u_control u) (u_data u) (u_pd u) ke ee.

(** struct kring_kern (krkern.h): the kernel's handle on a ring; [kk_ringset] is
    the position of the ring set in the module's list. *)
Record kring_kern := KringKern {
  kk_name : list Z;
  kk_ringset : Z;
  kk_ring_id : Z;
  kk_writer_id : Z;
  kk_user : kring_user;
}.
