(* ===== verification/KData.v ===== *)
(** * kring/kdata.h: the data ring

    The inline code shared by kernel and user space, one definition per
    function, in the order of the header.  A descriptor is the 16-bit word the
    header defines: bit 0 writer-owned, bit 1 skipped, bits 2..7 one per reader.
    Compare-and-swap returns the value before the swap, as
    [__sync_val_compare_and_swap] does; run sequentially it always succeeds, and
    [KDataConc] runs the same code one atomic access at a time. *)

From S2P Require Import Prelude KrDep.

(** ** Constants *)

Definition KDATA : Z := 25.
Definition KDATA_NPAGES : Z := 2048.
Definition KRING_PGOFF_CTRL : Z := 0.
Definition KRING_PGOFF_DATA : Z := 1.
Definition KDATA_MAX_RINGS_PER_SET : Z := 32.
Definition KRING_PGOFF_ID_SHIFT : Z := 0.
Definition KRING_PGOFF_ID_MASK : Z := 0x1f.
Definition KRING_PGOFF_REGION_SHIFT : Z := 5.
Definition KRING_PGOFF_REGION_MASK : Z := 0x20.
Definition KDATA_RING_ID_ALL : Z := -1.
Definition KDATA_DSC_READER_SHIFT : Z := 2.
Definition KDATA_DSC_WRITER_OWNED : Z := 0x01.
Definition KDATA_DSC_SKIPPED : Z := 0x02.
Definition KDATA_DSC_READER_OWNED : Z := 0xfc.
Definition KDATA_DSC_READER_BIT (id : Z) : Z :=
  Z.shiftl 1 (KDATA_DSC_READER_SHIFT + id).
Definition KDATA_DIR_CLIENT : Z := 1.
Definition KDATA_DIR_SERVER : Z := 2.
Definition KDATA_DIR_INSIDE : Z := 1.
Definition KDATA_DIR_OUTSIDE : Z := 2.
Definition KRING_NLEN : Z := 32.
Definition KDATA_READERS : Z := 6.
Definition KDATA_WRITERS : Z := 6.
Definition KR_OPT_WRITER_ID : Z := 1.
Definition KR_OPT_READER_ID : Z := 2.
Definition KR_OPT_RING_N : Z := 3.

(** ** Shared control structures *)

Record kdata_shared_head := SharedHead {
  head_whead : Z;
  head_wresv : Z;
  head_produced : Z;
}.

Record kdata_shared_writer := SharedWriter {
  writer_whead : Z;
  writer_wresv : Z;
  writer_wbar : Z;
}.

Record kdata_shared_reader := SharedReader {
  reader_rhead : Z;
  reader_skips : Z;
  reader_entered : Z;
  reader_consumed : Z;
}.

(** struct kdata_control; an element of [descriptor] is its one field, [desc]. *)
Record kdata_control := KdataControl {
  head : kdata_shared_head;
  writer : list kdata_shared_writer;
  reader : list kdata_shared_reader;
  descriptor : list Z;
}.

(** sizeof on the LP64 ABI the code is built for: 8-byte longs and pointers,
    4-byte ints, every field at a multiple of its size. *)
Definition sizeof_shared_head : Z := 24.
Definition sizeof_shared_writer : Z := 24.
Definition sizeof_shared_reader : Z := 32.
Definition sizeof_shared_desc : Z := 2.
Definition sizeof_packet_header : nat := 8.
Definition sizeof_decrypted_header : nat := 80.
Definition sizeof_plain_header : nat := 4.

Definition KDATA_CTRL_SZ : Z :=
  sizeof_shared_head + sizeof_shared_writer * KDATA_WRITERS +
  sizeof_shared_reader * KDATA_READERS + sizeof_shared_desc * KDATA_NPAGES.
Definition KDATA_CTRL_OFF_HEAD : Z := 0.
Definition KDATA_CTRL_OFF_WRITER : Z := KDATA_CTRL_OFF_HEAD + sizeof_shared_head.
Definition KDATA_CTRL_OFF_READER : Z :=
  KDATA_CTRL_OFF_WRITER + sizeof_shared_writer * KDATA_WRITERS.
Definition KDATA_CTRL_OFF_DESC : Z :=
  KDATA_CTRL_OFF_READER + sizeof_shared_reader * KDATA_READERS.
Definition KDATA_DATA_SZ : Z := KRING_PAGE_SIZE * KDATA_NPAGES.

(** The shared memory of one ring: its control region and its pages; the rings
    of a ring set, by number. *)
Record kdata_ring := KdataRing {
  kr_control : kdata_control;
  kr_page : list kring_page;
}.

Abbreviation kdata_mem := (list kdata_ring).

(** ** What a reader is handed *)

Record kdata_packet := KdataPacket {
  packet_dir : Z; packet_len : Z; packet_caplen : Z;
  packet_bytes : page_ptr * nat;
}.

Record kdata_decrypted := KdataDecrypted {
  decrypted_id : Z; decrypted_type : Z;
  decrypted_host : page_ptr * nat;
  decrypted_bytes : page_ptr * nat;
  decrypted_len : Z;
}.

Record kdata_plain := KdataPlain {
  plain_len : Z;
  plain_bytes : page_ptr * nat;
}.

Definition kdata_packet_max_data : Z := KRING_PAGE_SIZE - Z.of_nat sizeof_packet_header.
Definition kdata_decrypted_max_data : Z :=
  KRING_PAGE_SIZE - Z.of_nat sizeof_decrypted_header.
Definition kdata_plain_max_data : Z := KRING_PAGE_SIZE - Z.of_nat sizeof_plain_header.

(** ** Field updates *)

Definition set_head (c : kdata_control) (h : kdata_shared_head) : kdata_control :=
  KdataControl h (writer c) (reader c) (descriptor c).
Definition set_readers (c : kdata_control) (rs : list kdata_shared_reader) : kdata_control :=
  KdataControl (head c) (writer c) rs (descriptor c).
Definition set_descriptor (c : kdata_control) (ds : list Z) : kdata_control :=
  KdataControl (head c) (writer c) (reader c) ds.
Definition set_whead (h : kdata_shared_head) (v : Z) : kdata_shared_head :=
  SharedHead v (head_wresv h) (head_produced h).
Definition set_wresv (h : kdata_shared_head) (v : Z) : kdata_shared_head :=
  SharedHead (head_whead h) v (head_produced h).
Definition set_produced (h : kdata_shared_head) (v : Z) : kdata_shared_head :=
  SharedHead (head_whead h) (head_wresv h) v.
Definition set_rhead (r : kdata_shared_reader) (v : Z) : kdata_shared_reader :=
  SharedReader v (reader_skips r) (reader_entered r) (reader_consumed r).
Definition set_skips (r : kdata_shared_reader) (v : Z) : kdata_shared_reader :=
  SharedReader (reader_rhead r) v (reader_entered r) (reader_consumed r).
Definition set_entered (r : kdata_shared_reader) (v : Z) : kdata_shared_reader :=
  SharedReader (reader_rhead r) (reader_skips r) v (reader_consumed r).
Definition set_consumed (r : kdata_shared_reader) (v : Z) : kdata_shared_reader :=
  SharedReader (reader_rhead r) (reader_skips r) (reader_entered r) v.

(** [control->reader[id].field = v] *)
Definition upd_reader (c : kdata_control) (id : Z)
    (f : kdata_shared_reader → kdata_shared_reader) : res kdata_control :=
  r ← aget (reader c) id;
  rs ← aset (reader c) id (f r);
  Ok (set_readers c rs).

(** [kdata_control(u->control)[ctrl]]: the control of the ring mapped there. *)
Definition user_ring (u : kring_user) (m : kdata_mem) (ctrl : Z) : res (Z * kdata_ring) :=
  i ← aget (u_control u) ctrl;
  r ← aget m i;
  Ok (i, r).

Definition put_control (m : kdata_mem) (i : Z) (c : kdata_control) : res kdata_mem :=
  r ← aget m i;
  aset m i (KdataRing c (kr_page r)).

(** ** The functions of the header *)

(** The loop of [kdata_skips] over the rings [ring], [ring]+1, ... *)
Fixpoint kdata_skips_loop (u : kring_user) (m : kdata_mem) (n : nat) (ring skips : Z) : res Z :=
  match n with
  | O => Ok skips
  | S n =>
      '(_, r) ← user_ring u m ring;
      rd ← aget (reader (kr_control r)) (u_reader_id u);
      kdata_skips_loop u m n (ring + 1) (u64 (skips + reader_skips rd))
  end.

Definition kdata_skips (u : kring_user) (m : kdata_mem) : res Z :=
  if negb (u_ring_id u =? KDATA_RING_ID_ALL) then
    '(_, r) ← user_ring u m 0;
    rd ← aget (reader (kr_control r)) (u_reader_id u);
    Ok (reader_skips rd)
  else kdata_skips_loop u m (Z.to_nat (u_nrings u)) 0 0.

Definition kdata_avail_impl (c : kdata_control) (reader_id : Z) : res bool :=
  r ← aget (reader c) reader_id;
  Ok (negb (reader_rhead r =? head_whead (head c))).

Definition kdata_read_desc (c : kdata_control) (off : Z) : res Z :=
  aget (descriptor c) off.

Definition kdata_write_back (c : kdata_control) (off oldval newval : Z)
    : res (Z * kdata_control) :=
  d ← aget (descriptor c) off;
  if d =? oldval then
    ds ← aset (descriptor c) off newval;
    Ok (d, set_descriptor c ds)
  else Ok (d, c).

Definition kdata_wresv_write_back (c : kdata_control) (oldval newval : Z)
    : Z * kdata_control :=
  let v := head_wresv (head c) in
  if v =? oldval then (v, set_head c (set_wresv (head c) newval)) else (v, c).

Definition kdata_whead_write_back (c : kdata_control) (oldval newval : Z)
    : Z * kdata_control :=
  let v := head_whead (head c) in
  if v =? oldval then (v, set_head c (set_whead (head c) newval)) else (v, c).

Definition kdata_page_data (u : kring_user) (ctrl off : Z) : res page_ptr :=
  if u_socket u <? 0 then
    r ← deref (u_pd u); Ok (PagePtr r off)
  else
    r ← aget (u_data u) ctrl; Ok (PagePtr r off).

(** The index of the first of the rings [ctrl], [ctrl]+1, ... with data. *)
Fixpoint kdata_first_avail (u : kring_user) (m : kdata_mem) (n : nat) (ctrl : Z)
    : res (option Z) :=
  match n with
  | O => Ok None
  | S n =>
      '(_, r) ← user_ring u m ctrl;
      a ← kdata_avail_impl (kr_control r) (u_reader_id u);
      if (a : bool) then Ok (Some ctrl) else kdata_first_avail u m n (ctrl + 1)
  end.

Definition kdata_avail (u : kring_user) (m : kdata_mem) : res bool :=
  if negb (u_ring_id u =? KDATA_RING_ID_ALL) then
    '(_, r) ← user_ring u m 0;
    kdata_avail_impl (kr_control r) (u_reader_id u)
  else
    o ← kdata_first_avail u m (Z.to_nat (u_nrings u)) 0;
    Ok (match o with Some _ => true | None => false end).

Definition kdata_next (off : Z) : Z :=
  let off := u64 (off + 1) in
  if KDATA_NPAGES <=? off then 0 else off.

Definition kdata_prev (off : Z) : Z :=
  if off =? 0 then KDATA_NPAGES - 1 else u64 (off - 1).

Fixpoint kdata_advance_rhead (fuel : nat) (c : kdata_control) (reader_id rhead : Z)
    : res (Z * kdata_control) :=
  match fuel with
  | O => Spin
  | S fuel =>
      let rhead := kdata_next rhead in
      desc ← kdata_read_desc c rhead;
      if negb (ctrue (Z.land desc KDATA_DSC_WRITER_OWNED)) then
        let newval := u16 (Z.lor desc (KDATA_DSC_READER_BIT reader_id)) in
        '(before, c) ← kdata_write_back c rhead desc newval;
        if before =? desc then Ok (rhead, c)
        else kdata_advance_rhead fuel c reader_id rhead
      else kdata_advance_rhead fuel c reader_id rhead
  end.

(** [newval] of [kdata_reader_release]. *)
Definition release_value (reader_id desc : Z) : Z :=
  let newval := u16 (Z.land desc (Z.lnot (KDATA_DSC_READER_BIT reader_id))) in
  if ctrue (Z.land desc KDATA_DSC_SKIPPED) then
    if negb (ctrue (Z.land newval KDATA_DSC_READER_OWNED))
    then u16 (Z.land newval (Z.lnot KDATA_DSC_SKIPPED))
    else newval
  else newval.

Fixpoint kdata_reader_release (fuel : nat) (reader_id : Z) (c : kdata_control) (prev : Z)
    : res kdata_control :=
  match fuel with
  | O => Spin
  | S fuel =>
      desc ← kdata_read_desc c prev;
      let newval := release_value reader_id desc in
      '(before, c) ← kdata_write_back c prev desc newval;
      if negb (before =? desc) then kdata_reader_release fuel reader_id c prev
      else
        (* [&control->reader->consumed]: the counter of reader 0. *)
        upd_reader c 0 (λ r, set_consumed r (u64 (reader_consumed r + 1)))
  end.

Definition kdata_select_ctrl (u : kring_user) (m : kdata_mem) : res Z :=
  if negb (u_ring_id u =? KDATA_RING_ID_ALL) then Ok 0
  else
    o ← kdata_first_avail u m (Z.to_nat (u_nrings u)) 0;
    Ok (match o with Some ctrl => ctrl | None => -1 end).

(** What [kdata_next_generic] does to the control it selected. *)
Definition kdata_next_control (fuel : nat) (c : kdata_control) (reader_id : Z)
    : res (Z * kdata_control) :=
  rd ← aget (reader c) reader_id;
  let prev := reader_rhead rd in
  '(rhead, c) ← kdata_advance_rhead fuel c reader_id prev;
  c ← upd_reader c reader_id (λ r, set_rhead r rhead);
  rd ← aget (reader c) reader_id;
  c ← (if ctrue (reader_entered rd)
       then kdata_reader_release fuel reader_id c prev else Ok c);
  c ← upd_reader c reader_id (λ r, set_entered r 1);
  Ok (rhead, c).

Definition kdata_next_generic (fuel : nat) (u : kring_user) (m : kdata_mem)
    : res (page_ptr * kdata_mem) :=
  ctrl ← kdata_select_ctrl u m;
  '(i, r) ← user_ring u m ctrl;
  '(rhead, c) ← kdata_next_control fuel (kr_control r) (u_reader_id u);
  m ← put_control m i c;
  p ← kdata_page_data u ctrl rhead;
  Ok (p, m).

(** ** Page contents *)

Definition page_at (m : kdata_mem) (p : page_ptr) : res kring_page :=
  r ← aget m (pp_ring p);
  aget (kr_page r) (pp_off p).

(** Loading [n] bytes at offset [o] of the page, and storing some there. *)
Definition page_load (m : kdata_mem) (p : page_ptr) (o n : nat) : res (list Z) :=
  pg ← page_at m p;
  mem_load pg o n.

Definition page_store (m : kdata_mem) (p : page_ptr) (o : nat) (bs : list Z) : res kdata_mem :=
  r ← aget m (pp_ring p);
  pg ← aget (kr_page r) (pp_off p);
  pg ← mem_store pg o bs;
  pgs ← aset (kr_page r) (pp_off p) pg;
  aset m (pp_ring p) (KdataRing (kr_control r) pgs).

(** Fields of the page headers: [int len] at 0 in all three; [char dir] at 4;
    [long id] at 8, [char type] at 16 and [char host[63]] at 17. *)
Definition load_int (m : kdata_mem) (p : page_ptr) (o : nat) : res Z :=
  bs ← page_load m p o 4; Ok (i32 (le_val bs)).
Definition load_long (m : kdata_mem) (p : page_ptr) (o : nat) : res Z :=
  bs ← page_load m p o 8; Ok (i64 (le_val bs)).
Definition load_char (m : kdata_mem) (p : page_ptr) (o : nat) : res Z :=
  bs ← page_load m p o 1; Ok (i8 (le_val bs)).

Definition kdata_next_packet (fuel : nat) (u : kring_user) (m : kdata_mem)
    : res (kdata_packet * kdata_mem) :=
  '(h, m) ← kdata_next_generic fuel u m;
  len ← load_int m h 0;
  dir ← load_char m h 4;
  let caplen := if len <=? kdata_packet_max_data then len else kdata_packet_max_data in
  Ok (KdataPacket dir len caplen (h, sizeof_packet_header), m).

Definition kdata_next_decrypted (fuel : nat) (u : kring_user) (m : kdata_mem)
    : res (kdata_decrypted * kdata_mem) :=
  '(h, m) ← kdata_next_generic fuel u m;
  len ← load_int m h 0;
  id ← load_long m h 8;
  type ← load_char m h 16;
  Ok (KdataDecrypted id (u8 type) (h, 17%nat) (h, sizeof_decrypted_header) len, m).

Definition kdata_next_plain (fuel : nat) (u : kring_user) (m : kdata_mem)
    : res (kdata_plain * kdata_mem) :=
  '(h, m) ← kdata_next_generic fuel u m;
  len ← load_int m h 0;
  Ok (KdataPlain len (h, sizeof_plain_header), m).

(** ** Writing *)

(** [for ( id = 0; id < KDATA_READERS; id++ )]: count a skip for every reader
    whose bit is set; [n] readers from [id] on. *)
Fixpoint register_skips (n : nat) (id : Z) (c : kdata_control) (desc : Z) : res kdata_control :=
  match n with
  | O => Ok c
  | S n =>
      c ← (if ctrue (Z.land desc (KDATA_DSC_READER_BIT id))
           then upd_reader c id (λ r, set_skips r (u64 (reader_skips r + 1)))
           else Ok c);
      register_skips n (id + 1) c desc
  end.

(** From the label [retry]; [whead] is the slot under inspection. *)
Fixpoint kdata_find_retry (fuel : nat) (c : kdata_control) (whead : Z)
    : res (Z * kdata_control) :=
  match fuel with
  | O => Spin
  | S fuel =>
      desc ← kdata_read_desc c whead;
      if ctrue (Z.land desc KDATA_DSC_READER_OWNED) ||
         ctrue (Z.land desc KDATA_DSC_SKIPPED) then
        c ← register_skips (Z.to_nat KDATA_READERS) 0 c desc;
        '(before, c) ← kdata_write_back c whead desc (Z.lor desc KDATA_DSC_SKIPPED);
        if negb (before =? desc) then kdata_find_retry fuel c whead
        else kdata_find_retry fuel c (kdata_next whead)
      else if ctrue (Z.land desc KDATA_DSC_WRITER_OWNED) then
        kdata_find_retry fuel c (kdata_next whead)
      else
        let newval := u16 (Z.lor desc KDATA_DSC_WRITER_OWNED) in
        '(before, c) ← kdata_write_back c whead desc newval;
        if negb (before =? desc) then kdata_find_retry fuel c whead
        else Ok (whead, c)
  end.

Definition kdata_find_write_loc (fuel : nat) (c : kdata_control) : res (Z * kdata_control) :=
  kdata_find_retry fuel c (kdata_next (head_whead (head c))).

Definition kdata_write_FIRST (fuel : nat) (u : kring_user) (m : kdata_mem)
    : res (page_ptr * kdata_mem) :=
  '(i, r) ← user_ring u m 0;
  '(whead, c) ← kdata_find_write_loc fuel (kr_control r);
  m ← put_control m i (set_head c (set_wresv (head c) whead));
  p ← kdata_page_data u 0 whead;
  Ok (p, m).

Definition kdata_writer_release (c : kdata_control) (whead : Z) : res (Z * kdata_control) :=
  desc ← kdata_read_desc c whead;
  let newval := u16 (Z.land desc (Z.lnot KDATA_DSC_WRITER_OWNED)) in
  '(before, c) ← kdata_write_back c whead desc newval;
  if negb (before =? desc) then Ok (-1, c) else Ok (0, c).

Definition kdata_write_SECOND (u : kring_user) (m : kdata_mem) : res kdata_mem :=
  '(i, r) ← user_ring u m 0;
  let c := kr_control r in
  '(_, c) ← kdata_writer_release c (head_wresv (head c));
  put_control m i (set_head c (set_whead (head c) (head_wresv (head c)))).

(** The largest [wresv], and the largest [whead], of the writers. *)
Definition highest_wresv (ws : list kdata_shared_writer) : Z :=
  fold_left (λ hi w, if hi <? writer_wresv w then writer_wresv w else hi) ws 0.
Definition highest_whead (ws : list kdata_shared_writer) (whead : Z) : Z :=
  fold_left (λ hi w, if hi <? writer_whead w then writer_whead w else hi) ws whead.

(** The smallest non-zero [wbar]. *)
Definition lowest_wbar (ws : list kdata_shared_writer) (wbar : Z) : Z :=
  fold_left (λ lo w, if negb (writer_wbar w =? 0)
                     then if writer_wbar w <? lo then writer_wbar w else lo
                     else lo) ws wbar.

(** [KDATA_WRITERS] elements are read. *)
Definition writers_of (c : kdata_control) : res (list kdata_shared_writer) :=
  if decide (KDATA_WRITERS ≤ Z.of_nat (length (writer c)))
  then Ok (take (Z.to_nat KDATA_WRITERS) (writer c)) else Ub.

Fixpoint kdata_update_wresv_again (fuel : nat) (c : kdata_control) : res kdata_control :=
  match fuel with
  | O => Spin
  | S fuel =>
      let wresv := head_wresv (head c) in
      ws ← writers_of c;
      let '(before, c) := kdata_wresv_write_back c wresv (highest_wresv ws) in
      if negb (before =? wresv) then kdata_update_wresv_again fuel c else Ok c
  end.

Definition kdata_update_wresv (fuel : nat) (u : kring_user) (m : kdata_mem) : res kdata_mem :=
  '(i, r) ← user_ring u m 0;
  c ← kdata_update_wresv_again fuel (kr_control r);
  put_control m i c.

(** [whead] and [wbar] live across the retry. *)
Fixpoint kdata_update_whead_retry (fuel : nat) (c : kdata_control) (whead wbar : Z)
    : res kdata_control :=
  match fuel with
  | O => Spin
  | S fuel =>
      let orig := head_whead (head c) in
      ws ← writers_of c;
      let whead := highest_whead ws whead in
      let wbar := lowest_wbar ws wbar in
      let whead := if wbar <? whead then wbar else whead in
      let '(before, c) := kdata_whead_write_back c orig whead in
      if negb (before =? orig) then kdata_update_whead_retry fuel c whead wbar else Ok c
  end.

Definition kdata_update_whead (fuel : nat) (u : kring_user) (m : kdata_mem) : res kdata_mem :=
  '(i, r) ← user_ring u m 0;
  c ← kdata_update_whead_retry fuel (kr_control r) 0 (2 ^ 64 - 1);
  put_control m i c.

Definition kdata_prep_enter (c : kdata_control) (reader_id : Z) : res (Z * kdata_control) :=
  let rhead := head_whead (head c) in
  c ← upd_reader c reader_id (λ _, SharedReader rhead 0 0 (head_produced (head c)));
  Ok (0, c).
