(* ===== verification/KDataRing.v ===== *)
(** * The data ring, run sequentially: ownership, termination, refinement

    [ring_inv held wown c] says which reader holds which slot ([held]) and which
    slot the writer has claimed ([wown]).  Writing finds the first slot after
    the write head that nobody holds, within [KDATA_READERS + 1] steps; reading
    hands every reader its own copy of the sequence of pages written
    ([reader_queue]). *)

From S2P Require Import Prelude KrDep KData.

(** ** Descriptor bits *)

Lemma ctrue_land_pow2 d n : 0 ≤ n → ctrue (Z.land d (2 ^ n)) = Z.testbit d n.
Proof.
  intros Hn. destruct (Z.testbit d n) eqn:E.
  - apply ctrue_true. intros E0. apply (f_equal (λ z, Z.testbit z n)) in E0.
    rewrite Z.land_spec, E, Z.pow2_bits_true, Z.bits_0 in E0 by done. discriminate.
  - apply ctrue_false. apply Z.bits_inj'. intros k Hk.
    rewrite Z.land_spec, Z.bits_0. rewrite Z.pow2_bits_eqb by done.
    destruct (Z.eqb_spec n k) as [->|]; [by rewrite E|]. by rewrite andb_false_r.
Qed.

Lemma reader_bit_pow2 id : 0 ≤ id → KDATA_DSC_READER_BIT id = 2 ^ (2 + id).
Proof. intros. unfold KDATA_DSC_READER_BIT, KDATA_DSC_READER_SHIFT. rewrite Z.shiftl_1_l. done. Qed.

Lemma ctrue_reader_bit d id :
  0 ≤ id → ctrue (Z.land d (KDATA_DSC_READER_BIT id)) = Z.testbit d (2 + id).
Proof. intros. rewrite reader_bit_pow2 by done. apply ctrue_land_pow2. lia. Qed.

Lemma ctrue_writer_bit d : ctrue (Z.land d KDATA_DSC_WRITER_OWNED) = Z.testbit d 0.
Proof. change KDATA_DSC_WRITER_OWNED with (2 ^ 0). by apply ctrue_land_pow2. Qed.

Lemma ctrue_skipped_bit d : ctrue (Z.land d KDATA_DSC_SKIPPED) = Z.testbit d 1.
Proof. change KDATA_DSC_SKIPPED with (2 ^ 1). by apply ctrue_land_pow2. Qed.

Lemma reader_owned_bits k :
  0 ≤ k → Z.testbit KDATA_DSC_READER_OWNED k = (2 <=? k) && (k <? 8).
Proof.
  intros Hk. destruct (Z_lt_ge_dec k 8).
  - assert (k = 0 ∨ k = 1 ∨ k = 2 ∨ k = 3 ∨ k = 4 ∨ k = 5 ∨ k = 6 ∨ k = 7) as D by lia.
    by repeat destruct D as [->|D]; subst.
  - rewrite Z.bits_above_log2; [|done|].
    + symmetry. apply andb_false_intro2. apply Z.ltb_ge. lia.
    + change (Z.log2 KDATA_DSC_READER_OWNED) with 7. lia.
Qed.

(** [desc & KDATA_DSC_READER_OWNED] is true exactly when one of the six reader
    bits is set. *)
Lemma ctrue_reader_owned d :
  ctrue (Z.land d KDATA_DSC_READER_OWNED) = true ↔
  ∃ id, 0 ≤ id < KDATA_READERS ∧ Z.testbit d (2 + id) = true.
Proof.
  unfold KDATA_READERS. rewrite ctrue_true. split.
  - intros Hne.
    destruct (existsb (λ id, Z.testbit d (2 + id)) [0; 1; 2; 3; 4; 5]) eqn:X.
    { apply existsb_exists in X as (id & Hin & Hb). exists id. simpl in Hin. split; [lia|done]. }
    exfalso. apply Hne. apply Z.bits_inj'. intros k Hk. rewrite Z.land_spec, Z.bits_0, reader_owned_bits by done.
    destruct (Z.leb_spec 2 k), (Z.ltb_spec k 8); simpl; rewrite ?andb_false_r; try done.
    rewrite andb_true_r. apply not_true_is_false. intros E.
    apply not_true_iff_false in X. apply X, existsb_exists.
    exists (k - 2). split; [simpl; lia|]. by replace (2 + (k - 2)) with k by lia.
  - intros (id & Hid & E) E0. apply (f_equal (λ z, Z.testbit z (2 + id))) in E0.
    rewrite Z.land_spec, E, reader_owned_bits, Z.bits_0 in E0 by lia.
    destruct (Z.leb_spec 2 (2 + id)), (Z.ltb_spec (2 + id) 8); (lia || discriminate).
Qed.

(** A descriptor uses its low eight bits. *)
Definition desc_word (d : Z) : Prop := 0 ≤ d < 256.

Lemma desc_word_testbit d : desc_word d ↔ 0 ≤ d ∧ ∀ k, 8 ≤ k → Z.testbit d k = false.
Proof.
  unfold desc_word. split.
  - intros [H1 H2]. split; [done|]. intros k Hk.
    destruct (Z.eq_dec d 0) as [->|]; [apply Z.bits_0|].
    apply Z.bits_above_log2; [done|].
    enough (Z.log2 d < 8) by lia. apply Z.log2_lt_pow2; [lia|]. done.
  - intros [H1 H2]. split; [done|]. destruct (Z_lt_ge_dec d 256); [done|].
    exfalso. pose proof (Z.bit_log2 d ltac:(lia)) as B.
    rewrite H2 in B; [discriminate|]. apply Z.log2_le_pow2; lia.
Qed.

Lemma desc_word_u16 d : desc_word d → u16 d = d.
Proof. unfold desc_word. intros. apply wrapu_small. lia. Qed.

Lemma desc_word_lor d n : desc_word d → 0 ≤ n < 8 → desc_word (Z.lor d (2 ^ n)).
Proof.
  rewrite !desc_word_testbit. intros [H1 H2] Hn. split.
  - apply Z.lor_nonneg. split; [done|]. apply Z.pow_nonneg. lia.
  - intros k Hk. rewrite Z.lor_spec, H2, Z.pow2_bits_false by lia. done.
Qed.

Lemma desc_word_land_lnot d x : desc_word d → 0 ≤ x → desc_word (Z.land d (Z.lnot x)).
Proof.
  rewrite !desc_word_testbit. intros [H1 H2] Hx. split.
  - apply Z.land_nonneg. by left.
  - intros k Hk. rewrite Z.land_spec, H2 by lia. done.
Qed.

(** Setting and clearing one bit, read bit by bit. *)
Lemma testbit_set d n k :
  0 ≤ n → 0 ≤ k → Z.testbit (Z.lor d (2 ^ n)) k = Z.testbit d k || (n =? k).
Proof. intros. rewrite Z.lor_spec, Z.pow2_bits_eqb by done. done. Qed.

Lemma testbit_clear d n k :
  0 ≤ n → 0 ≤ k → Z.testbit (Z.land d (Z.lnot (2 ^ n))) k = Z.testbit d k && negb (n =? k).
Proof. intros. rewrite Z.land_spec, Z.lnot_spec, Z.pow2_bits_eqb by done. done. Qed.

(** ** Slots in cyclic order *)

Lemma kdata_next_mod off :
  0 ≤ off < KDATA_NPAGES → kdata_next off = (off + 1) mod KDATA_NPAGES.
Proof.
  unfold kdata_next, KDATA_NPAGES. intros. rewrite wrapu_small by lia.
  destruct (Z.leb_spec 2048 (off + 1)).
  - replace off with 2047 by lia. done.
  - rewrite Z.mod_small; lia.
Qed.

Lemma kdata_next_range off : 0 ≤ off < KDATA_NPAGES → 0 ≤ kdata_next off < KDATA_NPAGES.
Proof. intros. rewrite kdata_next_mod by done. apply Z.mod_pos_bound. done. Qed.

Lemma kdata_prev_mod off :
  0 ≤ off < KDATA_NPAGES → kdata_prev off = (off - 1) mod KDATA_NPAGES.
Proof.
  unfold kdata_prev, KDATA_NPAGES. intros.
  destruct (Z.eqb_spec off 0) as [->|]; [done|].
  rewrite wrapu_small, Z.mod_small by lia. done.
Qed.

(** [cyc w k]: the slot [k] places after [w]. *)
Definition cyc (w k : Z) : Z := (w + k) mod KDATA_NPAGES.

Lemma cyc_range w k : 0 ≤ cyc w k < KDATA_NPAGES.
Proof. apply Z.mod_pos_bound. done. Qed.

Lemma cyc_next w k : kdata_next (cyc w k) = cyc w (k + 1).
Proof.
  rewrite kdata_next_mod by apply cyc_range. unfold cyc.
  rewrite Zplus_mod_idemp_l. f_equal. lia.
Qed.

Lemma cyc_0 w : 0 ≤ w < KDATA_NPAGES → cyc w 0 = w.
Proof. intros. unfold cyc. rewrite Z.add_0_r. by apply Z.mod_small. Qed.

Lemma cyc_cyc w i j : cyc (cyc w i) j = cyc w (i + j).
Proof. unfold cyc. rewrite Zplus_mod_idemp_l. f_equal. lia. Qed.

Lemma cyc_inj w i j :
  0 ≤ i < KDATA_NPAGES → 0 ≤ j < KDATA_NPAGES → cyc w i = cyc w j → i = j.
Proof.
  unfold cyc, KDATA_NPAGES. intros Hi Hj E.
  pose proof (Z.div_mod (w + i) 2048 ltac:(lia)).
  pose proof (Z.div_mod (w + j) 2048 ltac:(lia)). lia.
Qed.

#[export] Hint Resolve cyc_range kdata_next_range : netp.

(** ** The ownership invariant

    [holds] contains [(id, s)] when reader [id] has its bit set on slot [s];
    [wown] is the slot a writer has claimed and not yet released. *)

Definition slot_held (holds : gset (Z * Z)) (s : Z) : Prop :=
  s ∈ (set_map snd holds : gset Z).

#[global] Instance slot_held_dec holds s : Decision (slot_held holds s).
Proof. unfold slot_held. apply _. Defined.

Record desc_ok (holds : gset (Z * Z)) (wown : option Z) (off d : Z) : Prop := {
  do_word : desc_word d;
  do_reader : ∀ id, 0 ≤ id < KDATA_READERS →
    Z.testbit d (2 + id) = true ↔ (id, off) ∈ holds;
  do_writer : Z.testbit d 0 = true ↔ wown = Some off;
  do_excl : wown = Some off → ¬ slot_held holds off;
  do_skip : Z.testbit d 1 = true → slot_held holds off;
}.

Definition reader_wf (r : kdata_shared_reader) : Prop :=
  0 ≤ reader_rhead r < KDATA_NPAGES ∧ 0 ≤ reader_skips r < 2 ^ 64.

Record ring_inv (holds : gset (Z * Z)) (wown : option Z) (c : kdata_control) : Prop := {
  ri_ndesc : length (descriptor c) = Z.to_nat KDATA_NPAGES;
  ri_nreader : length (reader c) = Z.to_nat KDATA_READERS;
  ri_whead : 0 ≤ head_whead (head c) < KDATA_NPAGES;
  ri_readers : Forall reader_wf (reader c);
  ri_ids : ∀ id s, (id, s) ∈ holds → 0 ≤ id < KDATA_READERS;
  ri_desc : ∀ off d, aget (descriptor c) off = Ok d → desc_ok holds wown off d;
}.

(** Between operations a reader holds the slot at its read head, and only if it
    has entered. *)
Definition quiet (holds : gset (Z * Z)) (c : kdata_control) : Prop :=
  ∀ id s, (id, s) ∈ holds →
    ∃ rd, aget (reader c) id = Ok rd ∧ reader_rhead rd = s ∧ reader_entered rd ≠ 0.

Lemma slot_held_iff holds s : slot_held holds s ↔ ∃ id, (id, s) ∈ holds.
Proof.
  unfold slot_held. rewrite elem_of_map. split.
  - intros ([id s'] & -> & H). eauto.
  - intros [id H]. by exists (id, s).
Qed.

(** A slot nobody holds and nobody writes has descriptor 0. *)
Lemma desc_free holds off d : desc_ok holds None off d → ¬ slot_held holds off → d = 0.
Proof.
  intros H Hn. apply Z.bits_inj'. intros k Hk. rewrite Z.bits_0.
  apply not_true_is_false. intros B.
  assert (k = 0 ∨ k = 1 ∨ 2 ≤ k < 8 ∨ 8 ≤ k) as [-> | [-> | [Hk2 | Hk2]]] by lia.
  - apply (do_writer _ _ _ _ H) in B. discriminate.
  - by apply Hn, (do_skip _ _ _ _ H).
  - apply Hn, slot_held_iff. exists (k - 2).
    apply (do_reader _ _ _ _ H); [unfold KDATA_READERS; lia|].
    by replace (2 + (k - 2)) with k by lia.
  - pose proof (do_word _ _ _ _ H) as W. apply desc_word_testbit in W as [_ W].
    rewrite W in B by done. discriminate.
Qed.

Lemma desc_held_test holds wown off d :
  desc_ok holds wown off d → (∀ id s, (id, s) ∈ holds → 0 ≤ id < KDATA_READERS) →
  slot_held holds off →
  ctrue (Z.land d KDATA_DSC_READER_OWNED) = true.
Proof.
  intros H Hid [id Hh]%slot_held_iff. apply ctrue_reader_owned. exists id.
  split; [by eapply Hid|]. apply (do_reader _ _ _ _ H); eauto.
Qed.

(** Changing one descriptor, with the ownership it stands for. *)
Lemma ring_inv_set_desc holds wown holds' wown' c off d :
  ring_inv holds wown c →
  0 ≤ off < KDATA_NPAGES →
  (∀ id s, s ≠ off → (id, s) ∈ holds' ↔ (id, s) ∈ holds) →
  (∀ s, s ≠ off → wown' = Some s ↔ wown = Some s) →
  (∀ id s, (id, s) ∈ holds' → 0 ≤ id < KDATA_READERS) →
  desc_ok holds' wown' off d →
  ring_inv holds' wown' (set_descriptor c (<[Z.to_nat off := d]> (descriptor c))).
Proof.
  intros [Hnd Hnr Hw Hr Hi Hd] Hoff Hh Hwo Hid Hok.
  split; cbn [set_descriptor descriptor reader head writer]; try done.
  - by rewrite length_insert.
  - intros o d' E. rewrite aget_insert in E by (unfold KDATA_NPAGES in *; lia).
    case_decide; [by simplify_eq|].
    destruct (Hd _ _ E) as [W R Wr X S].
    assert (slot_held holds' o ↔ slot_held holds o) as Ho.
    { rewrite !slot_held_iff. split; intros [id ?]; exists id; apply Hh; done. }
    split; try done.
    + intros id ?. rewrite R, Hh; done.
    + rewrite Wr, Hwo; done.
    + intros. rewrite Ho. apply X. by apply Hwo.
    + rewrite Ho. done.
Qed.

Lemma write_back_ok c off d nd :
  aget (descriptor c) off = Ok d →
  kdata_write_back c off d nd =
    Ok (d, set_descriptor c (<[Z.to_nat off := nd]> (descriptor c))).
Proof.
  intros E. unfold kdata_write_back. rewrite E, bind_Ok, Z.eqb_refl.
  rewrite aset_in_range by (by eapply aget_Ok_range). done.
Qed.

Lemma ring_inv_desc_at holds wown c off :
  ring_inv holds wown c → 0 ≤ off < KDATA_NPAGES →
  ∃ d, aget (descriptor c) off = Ok d ∧ desc_ok holds wown off d.
Proof.
  intros H Hoff. destruct (aget_in_range (descriptor c) off) as [d E].
  { rewrite (ri_ndesc _ _ _ H). unfold KDATA_NPAGES in *. lia. }
  exists d. split; [done|]. by apply (ri_desc _ _ _ H).
Qed.

Lemma ring_inv_reader_at holds wown c id :
  ring_inv holds wown c → 0 ≤ id < KDATA_READERS →
  ∃ rd, aget (reader c) id = Ok rd ∧ reader_wf rd.
Proof.
  intros H Hid. destruct (aget_in_range (reader c) id) as [rd E].
  { rewrite (ri_nreader _ _ _ H). unfold KDATA_READERS in *. lia. }
  exists rd. split; [done|]. apply aget_Ok in E as [_ E].
  eapply Forall_lookup_1; [apply (ri_readers _ _ _ H)|done].
Qed.

(** ** Changes of the reader table *)

Lemma upd_reader_ok c id rd f :
  aget (reader c) id = Ok rd →
  upd_reader c id f = Ok (set_readers c (<[Z.to_nat id := f rd]> (reader c))).
Proof.
  intros E. unfold upd_reader. step_with E.
  rewrite aset_in_range by (by eapply aget_Ok_range). done.
Qed.

(** The invariant depends on the readers only through [reader_wf]. *)
Lemma ring_inv_set_readers holds wown c rs :
  ring_inv holds wown c → length rs = length (reader c) → Forall reader_wf rs →
  ring_inv holds wown (set_readers c rs).
Proof. intros [] L F. split; cbn; try done. by rewrite L. Qed.

Lemma ring_inv_set_head holds wown c h :
  ring_inv holds wown c → 0 ≤ head_whead h < KDATA_NPAGES →
  ring_inv holds wown (set_head c h).
Proof. intros [] L. by split. Qed.

(** Charging one skip to each reader whose bit is set in [desc]. *)
Definition bump_skip (desc : Z) (i : Z) (r : kdata_shared_reader) : kdata_shared_reader :=
  if Z.testbit desc (2 + i) then set_skips r (u64 (reader_skips r + 1)) else r.

Lemma register_skips_gen n c desc pre suf :
  reader c = pre ++ suf → length suf = n →
  register_skips n (Z.of_nat (length pre)) c desc =
    Ok (set_readers c (pre ++ imap (λ i, bump_skip desc (Z.of_nat (length pre + i))) suf)).
Proof.
  revert c pre suf. induction n as [|n IH]; intros c pre suf E L.
  - destruct suf; [|done]. simpl. rewrite <- E. by destruct c.
  - destruct suf as [|r suf]; [done|]. injection L as L. cbn [register_skips].
    rewrite ctrue_reader_bit by lia.
    assert (aget (reader c) (Z.of_nat (length pre)) = Ok r) as Er.
    { apply aget_lookup; [lia|]. rewrite E, Nat2Z.id, lookup_app_r, Nat.sub_diag by lia. done. }
    set (r' := bump_skip desc (Z.of_nat (length pre)) r).
    assert (∃ c', (if Z.testbit desc (2 + Z.of_nat (length pre))
              then upd_reader c (Z.of_nat (length pre)) (λ r, set_skips r (u64 (reader_skips r + 1)))
              else Ok c) = Ok c' ∧ c' = set_readers c ((pre ++ [r']) ++ suf)) as (c' & -> & ->).
    { subst r'. unfold bump_skip. destruct (Z.testbit _ _); eexists; split; try reflexivity.
      - erewrite upd_reader_ok by done. f_equal. f_equal. rewrite E, Nat2Z.id.
        rewrite insert_app_r_alt, Nat.sub_diag by lia. rewrite <- app_assoc. done.
      - rewrite <- app_assoc. simpl. rewrite <- E. by destruct c. }
    rewrite bind_Ok.
    replace (Z.of_nat (length pre) + 1) with (Z.of_nat (length (pre ++ [r'])))
      by (rewrite length_app; simpl; lia).
    rewrite (IH _ (pre ++ [r']) suf) by done.
    f_equal. unfold set_readers. cbn. f_equal. rewrite <- app_assoc. cbn. f_equal.
    unfold r'. rewrite Nat.add_0_r. f_equal.
    apply imap_ext. intros i x _. cbn. f_equal. rewrite length_app. simpl. lia.
Qed.

Lemma register_skips_ok c desc :
  length (reader c) = Z.to_nat KDATA_READERS →
  register_skips (Z.to_nat KDATA_READERS) 0 c desc =
    Ok (set_readers c (imap (λ i, bump_skip desc (Z.of_nat i)) (reader c))).
Proof.
  intros L. pose proof (register_skips_gen (Z.to_nat KDATA_READERS) c desc [] (reader c) eq_refl L) as H.
  done.
Qed.

(** ** Finding a slot to write *)

(** Pigeonhole: with fewer held slots than slots there is a free one among the
    next [size holds + 1]; the first of them is [cyc w k]. *)
Lemma not_all_held holds w n :
  (size holds < n)%nat → Z.of_nat n ≤ KDATA_NPAGES →
  ¬ (∀ j, 0 ≤ j < Z.of_nat n → slot_held holds (cyc w j)).
Proof.
  intros Hs Hn Hall.
  set (l := map (cyc w) (seqZ 0 (Z.of_nat n))).
  assert (NoDup l) as Hnd.
  { apply NoDup_fmap_2_strong; [|apply NoDup_seqZ].
    intros i j Hi%elem_of_seqZ Hj%elem_of_seqZ. apply cyc_inj; lia. }
  assert (l ⊆+ map snd (elements holds)) as Hsub%submseteq_length.
  { apply NoDup_submseteq; [done|]. intros s [j [-> Hj%elem_of_seqZ]]%list_elem_of_fmap.
    assert (slot_held holds (cyc w j)) as (p & -> & Hp)%elem_of_map by (apply Hall; lia).
    apply list_elem_of_fmap. exists p. split; [done|]. by apply elem_of_elements. }
  unfold l in Hsub. rewrite !length_map, length_seqZ in Hsub. unfold size, set_size in Hs. simpl in Hs. lia.
Qed.

Lemma first_free_slot holds w n :
  ¬ (∀ j, 0 ≤ j < Z.of_nat n → slot_held holds (cyc w j)) →
  ∃ k, 0 ≤ k < Z.of_nat n ∧ ¬ slot_held holds (cyc w k) ∧
       ∀ j, 0 ≤ j < k → slot_held holds (cyc w j).
Proof.
  induction n as [|n IH]; intros Hn; [exfalso; apply Hn; lia|].
  destruct (decide (Forall (λ j, slot_held holds (cyc w j)) (seqZ 0 (Z.of_nat n)))) as [F|F].
  - rewrite Forall_forall in F. exists (Z.of_nat n).
    assert (∀ j, 0 ≤ j < Z.of_nat n → slot_held holds (cyc w j)) as F'.
    { intros j Hj. apply F, elem_of_seqZ. lia. }
    split; [lia|]. split; [|done]. intros Hh. apply Hn. intros j Hj.
    destruct (decide (j = Z.of_nat n)); [by subst|]. apply F'. lia.
  - destruct IH as (k & Hk & H1 & H2).
    { intros F'. apply F, Forall_forall. intros j Hj%elem_of_seqZ. apply F'. lia. }
    exists k. split; [lia|]. done.
Qed.

(** The state after [n] held slots from [s] have been passed over and the slot
    after them claimed. *)
Definition passed (s n o : Z) : Prop := ∃ j, 0 ≤ j < n ∧ o = cyc s j.

(** How many of the [n] slots from [s] reader [id] holds. *)
Fixpoint skip_count (holds : gset (Z * Z)) (s : Z) (n : nat) (id : Z) : Z :=
  match n with
  | O => 0
  | S n => (if decide ((id, s) ∈ holds) then 1 else 0) + skip_count holds (kdata_next s) n id
  end.

Record found (holds : gset (Z * Z)) (c : kdata_control) (s : Z) (n : nat) (c' : kdata_control) : Prop := {
  fd_inv : ring_inv holds (Some (cyc s (Z.of_nat n))) c';
  fd_head : head c' = head c;
  fd_writer : writer c' = writer c;
  fd_claimed : aget (descriptor c') (cyc s (Z.of_nat n)) = Ok KDATA_DSC_WRITER_OWNED;
  fd_passed : ∀ o d, passed s (Z.of_nat n) o → aget (descriptor c) o = Ok d →
    aget (descriptor c') o = Ok (Z.lor d KDATA_DSC_SKIPPED);
  fd_other : ∀ o, ¬ passed s (Z.of_nat n) o → o ≠ cyc s (Z.of_nat n) →
    aget (descriptor c') o = aget (descriptor c) o;
  fd_readers : ∀ id rd, aget (reader c) id = Ok rd →
    aget (reader c') id = Ok (set_skips rd (u64 (reader_skips rd + skip_count holds s n id)));
}.

Lemma find_claims holds c s d fuel :
  ring_inv holds None c → 0 ≤ s < KDATA_NPAGES → ¬ slot_held holds s →
  aget (descriptor c) s = Ok d →
  kdata_find_retry (S fuel) c s =
    Ok (s, set_descriptor c (<[Z.to_nat s := KDATA_DSC_WRITER_OWNED]> (descriptor c))) ∧
  ring_inv holds (Some s)
    (set_descriptor c (<[Z.to_nat s := KDATA_DSC_WRITER_OWNED]> (descriptor c))).
Proof.
  intros Hinv Hs Hfree E.
  assert (d = 0) as -> by (eapply desc_free; [by apply (ri_desc _ _ _ Hinv)|done]).
  split.
  - cbn [kdata_find_retry]. unfold kdata_read_desc. step_with E. cbn.
    erewrite write_back_ok by done. done.
  - apply (ring_inv_set_desc holds None); try done.
    + intros o ?. split; [congruence|done].
    + apply (ri_ids _ _ _ Hinv).
    + split; try done.
      * intros id Hid. split; intros H; [|exfalso; apply Hfree, slot_held_iff; eauto].
        exfalso. revert H. unfold KDATA_DSC_WRITER_OWNED.
        change 1 with (2 ^ 0). rewrite Z.pow2_bits_false by lia. done.
Qed.

(** Counting skips. *)
Lemma bump_skips_inv holds wown c d :
  ring_inv holds wown c →
  ring_inv holds wown (set_readers c (imap (λ i, bump_skip d (Z.of_nat i)) (reader c))).
Proof.
  intros Hinv. apply ring_inv_set_readers; [done|by rewrite length_imap|].
  apply Forall_lookup. intros i r Hi. rewrite list_lookup_imap in Hi.
  apply fmap_Some in Hi as (r0 & E0 & ->).
  pose proof (Forall_lookup_1 _ _ _ _ (ri_readers _ _ _ Hinv) E0) as [? ?].
  unfold bump_skip. destruct (Z.testbit _ _); [|done].
  split; cbn; [done|]. apply wrapu_range. lia.
Qed.

(** Marking a held slot as skipped. *)
Lemma skip_mark_inv holds c s d :
  ring_inv holds None c → 0 ≤ s < KDATA_NPAGES → slot_held holds s →
  aget (descriptor c) s = Ok d →
  ring_inv holds None
    (set_descriptor c (<[Z.to_nat s := Z.lor d KDATA_DSC_SKIPPED]> (descriptor c))).
Proof.
  intros Hinv Hs Hheld E. pose proof (ri_desc _ _ _ Hinv _ _ E) as [W R Wr X S].
  apply (ring_inv_set_desc holds None holds None c); try done; [apply (ri_ids _ _ _ Hinv)|].
  change KDATA_DSC_SKIPPED with (2 ^ 1). split; try done.
  + apply desc_word_lor; [done|lia].
  + intros id Hid. rewrite testbit_set by lia.
    destruct (Z.eqb_spec 1 (2 + id)); [lia|]. rewrite orb_false_r. by apply R.
  + rewrite testbit_set by lia. cbn. by rewrite orb_false_r.
Qed.

Lemma find_skips holds c s d fuel :
  ring_inv holds None c → 0 ≤ s < KDATA_NPAGES → slot_held holds s →
  aget (descriptor c) s = Ok d →
  let c' := set_descriptor
      (set_readers c (imap (λ i, bump_skip d (Z.of_nat i)) (reader c)))
      (<[Z.to_nat s := Z.lor d KDATA_DSC_SKIPPED]> (descriptor c)) in
  kdata_find_retry (S fuel) c s = kdata_find_retry fuel c' (kdata_next s) ∧
  ring_inv holds None c'.
Proof.
  intros Hinv Hs Hheld E c'.
  pose proof (ri_desc _ _ _ Hinv _ _ E) as Hd.
  set (cr := set_readers c (imap (λ i, bump_skip d (Z.of_nat i)) (reader c))).
  split.
  - cbn [kdata_find_retry]. unfold kdata_read_desc. step_with E.
    rewrite (desc_held_test _ _ _ _ Hd (ri_ids _ _ _ Hinv) Hheld). cbn [orb].
    rewrite register_skips_ok by apply (ri_nreader _ _ _ Hinv). rewrite bind_Ok.
    erewrite write_back_ok by exact E. rewrite bind_Ok, Z.eqb_refl. done.
  - apply (skip_mark_inv holds cr s d); try done. by apply bump_skips_inv.
Qed.

Lemma bump_skip_readers holds c s d id rd :
  ring_inv holds None c → aget (descriptor c) s = Ok d → aget (reader c) id = Ok rd →
  aget (imap (λ i, bump_skip d (Z.of_nat i)) (reader c)) id =
    Ok (set_skips rd (u64 (reader_skips rd + if decide ((id, s) ∈ holds) then 1 else 0))).
Proof.
  intros Hinv E Er. pose proof (aget_Ok_range _ _ _ Er) as Hid.
  rewrite (ri_nreader _ _ _ Hinv) in Hid.
  destruct (ring_inv_reader_at _ _ _ id Hinv ltac:(unfold KDATA_READERS in *; lia)) as (rd' & Er' & _ & Hsk).
  rewrite Er in Er'. injection Er' as <-.
  apply aget_Ok in Er as [Hid0 Er]. apply aget_lookup; [done|].
  rewrite list_lookup_imap, Er. cbn. f_equal. unfold bump_skip. rewrite Z2Nat.id by done.
  pose proof (do_reader _ _ _ _ (ri_desc _ _ _ Hinv _ _ E) id ltac:(unfold KDATA_READERS in *; lia)) as R.
  destruct (Z.testbit d (2 + id)); case_decide as Hh; [done|by destruct Hh; apply R|by apply R in Hh|].
  rewrite Z.add_0_r, wrapu_small by done. by destruct rd.
Qed.

Lemma set_skips_twice rd a b :
  set_skips (set_skips rd (u64 (reader_skips rd + a))) (u64 (u64 (reader_skips rd + a) + b)) =
  set_skips rd (u64 (reader_skips rd + (a + b))).
Proof.
  unfold set_skips, wrapu. cbn. f_equal. rewrite Zplus_mod_idemp_l. f_equal. lia.
Qed.

(** Base case: the slot is free. *)
Lemma found_here holds c s d fuel :
  ring_inv holds None c → 0 ≤ s < KDATA_NPAGES → ¬ slot_held holds s →
  aget (descriptor c) s = Ok d →
  ∃ c', kdata_find_retry (S fuel) c s = Ok (s, c') ∧ found holds c s 0 c'.
Proof.
  intros Hinv Hs Hfree E.
  destruct (find_claims holds c s d fuel Hinv Hs Hfree E) as [-> Hinv'].
  eexists. split; [done|].
  assert (0 ≤ s < Z.of_nat (length (descriptor c))) as Hs' by by eapply aget_Ok_range.
  split; cbn [Z.of_nat]; rewrite ?cyc_0 by done; try done; cbn [set_descriptor descriptor reader].
  - by apply aget_insert_eq.
  - intros o ? (j & ? & _). lia.
  - intros o _ Ho. rewrite aget_insert by done. by rewrite decide_False.
  - intros id rd Er. rewrite Er. cbn [skip_count]. f_equal. rewrite Z.add_0_r.
    apply aget_Ok in Er as [_ Er].
    pose proof (Forall_lookup_1 _ _ _ _ (ri_readers _ _ _ Hinv) Er) as [_ ?].
    rewrite wrapu_small by done. by destruct rd.
Qed.

Lemma cyc_kdata_next s j : 0 ≤ s < KDATA_NPAGES → cyc (kdata_next s) j = cyc s (j + 1).
Proof.
  intros Hs. rewrite <- (cyc_0 s Hs) at 1. rewrite cyc_next, cyc_cyc. f_equal. lia.
Qed.

Lemma passed_S s n o :
  0 ≤ s < KDATA_NPAGES → 0 ≤ n →
  passed s (n + 1) o ↔ o = s ∨ passed (kdata_next s) n o.
Proof.
  intros Hs Hn. unfold passed. split.
  - intros (j & Hj & ->). destruct (decide (j = 0)) as [->|]; [left; by apply cyc_0|].
    right. exists (j - 1). rewrite cyc_kdata_next by done. split; [lia|]. f_equal. lia.
  - intros [->|(j & Hj & ->)]; [exists 0; rewrite cyc_0 by done; lia|].
    exists (j + 1). rewrite cyc_kdata_next by done. split; [lia|done].
Qed.

Lemma not_passed_again s n :
  0 ≤ s < KDATA_NPAGES → 0 ≤ n < KDATA_NPAGES - 1 → ¬ passed (kdata_next s) n s.
Proof.
  intros Hs Hn (j & Hj & Ej). rewrite cyc_kdata_next in Ej by done.
  rewrite <- (cyc_0 s Hs) in Ej at 1. apply cyc_inj in Ej; lia.
Qed.

(** Inductive case: a held slot is marked and charged, and the search goes on. *)
Lemma found_after_skip holds c s d n c' :
  ring_inv holds None c → 0 ≤ s < KDATA_NPAGES → Z.of_nat n < KDATA_NPAGES - 1 →
  aget (descriptor c) s = Ok d →
  let c1 := set_descriptor
      (set_readers c (imap (λ i, bump_skip d (Z.of_nat i)) (reader c)))
      (<[Z.to_nat s := Z.lor d KDATA_DSC_SKIPPED]> (descriptor c)) in
  found holds c1 (kdata_next s) n c' → found holds c s (S n) c'.
Proof.
  intros Hinv Hs Hn E c1 [Finv Fh Fw Fc Fp Fo Fr].
  rewrite cyc_kdata_next in * by done.
  replace (Z.of_nat n + 1) with (Z.of_nat (S n)) in * by lia.
  assert (0 ≤ s < Z.of_nat (length (descriptor c))) as Hs' by by eapply aget_Ok_range.
  pose proof (not_passed_again s (Z.of_nat n) Hs ltac:(lia)) as Hns.
  assert (s ≠ cyc s (Z.of_nat (S n))) as Hne.
  { intros Ej. rewrite <- (cyc_0 s Hs) in Ej at 1. apply cyc_inj in Ej; lia. }
  assert (∀ o, o ≠ s → aget (descriptor c1) o = aget (descriptor c) o) as Hc1.
  { intros o Ho. unfold c1. cbn [set_descriptor descriptor]. by apply aget_insert_ne; [lia|]. }
  split; try done.
  - intros o d' Ho Ed. replace (Z.of_nat (S n)) with (Z.of_nat n + 1) in Ho by lia.
    apply passed_S in Ho as [->|Ho]; [| |done|lia].
    + rewrite E in Ed. injection Ed as <-. rewrite Fo by done. by apply aget_insert_eq.
    + apply Fp; [done|]. rewrite Hc1; congruence.
  - intros o Ho Hc. replace (Z.of_nat (S n)) with (Z.of_nat n + 1) in Ho by lia.
    rewrite passed_S in Ho by (done || lia). rewrite Fo by tauto. apply Hc1. tauto.
  - intros id rd Er. cbn [skip_count].
    rewrite (Fr id _ (bump_skip_readers holds c s d id rd Hinv E Er)).
    f_equal. apply set_skips_twice.
Qed.

(** Passing over [n] held slots costs [n] rounds. *)
Lemma find_retry_found holds n : ∀ c s fuel,
  ring_inv holds None c → 0 ≤ s < KDATA_NPAGES → Z.of_nat n < KDATA_NPAGES →
  (∀ j, 0 ≤ j < Z.of_nat n → slot_held holds (cyc s j)) →
  ¬ slot_held holds (cyc s (Z.of_nat n)) → (n < fuel)%nat →
  ∃ c', kdata_find_retry fuel c s = Ok (cyc s (Z.of_nat n), c') ∧ found holds c s n c'.
Proof.
  induction n as [|n IH]; intros c s fuel Hinv Hs Hn Hheld Hfree Hfuel;
    destruct fuel as [|fuel]; try lia;
    destruct (ring_inv_desc_at _ _ _ s Hinv Hs) as (d & E & Hd).
  - cbn [Z.of_nat] in *. rewrite cyc_0 in * by done. by eapply found_here.
  - assert (slot_held holds s) as Hh by (rewrite <- (cyc_0 s) by done; apply Hheld; lia).
    destruct (find_skips holds c s d fuel Hinv Hs Hh E) as [-> Hinv'].
    edestruct (IH _ (kdata_next s) fuel Hinv') as (c' & -> & F);
      rewrite ?cyc_kdata_next by done; try lia.
    + by apply kdata_next_range.
    + intros j Hj. rewrite cyc_kdata_next by done. apply Hheld. lia.
    + by replace (Z.of_nat n + 1) with (Z.of_nat (S n)) by lia.
    + exists c'. split; [do 2 f_equal; f_equal; lia|].
      eapply found_after_skip; (done || lia).
Qed.

(** The search from the write head, in as many rounds as there are held slots,
    and one more. *)
Lemma find_write_loc_found holds c fuel :
  ring_inv holds None c → Z.of_nat (size holds) < KDATA_NPAGES → (size holds < fuel)%nat →
  ∃ n c', (n ≤ size holds)%nat ∧
    kdata_find_write_loc fuel c = Ok (cyc (head_whead (head c)) (Z.of_nat n + 1), c') ∧
    found holds c (kdata_next (head_whead (head c))) n c' ∧
    (∀ j, 1 ≤ j ≤ Z.of_nat n → slot_held holds (cyc (head_whead (head c)) j)) ∧
    ¬ slot_held holds (cyc (head_whead (head c)) (Z.of_nat n + 1)).
Proof.
  intros Hinv Hsz Hfuel. set (w := head_whead (head c)).
  assert (0 ≤ w < KDATA_NPAGES) as Hw by apply (ri_whead _ _ _ Hinv).
  destruct (first_free_slot holds (kdata_next w) (S (size holds))) as (k & Hk & Hf & Hh).
  { apply not_all_held; lia. }
  destruct (find_retry_found holds (Z.to_nat k) c (kdata_next w) fuel) as (c' & E & F);
    rewrite ?Z2Nat.id by lia; try done; try lia.
  { by apply kdata_next_range. }
  exists (Z.to_nat k), c'. rewrite Z2Nat.id in * by lia.
  rewrite cyc_kdata_next in * by done.
  split; [lia|]. split; [by unfold kdata_find_write_loc|]. split; [done|]. split; [|done].
  intros j Hj. specialize (Hh (j - 1) ltac:(lia)). rewrite cyc_kdata_next in Hh by done.
  by replace (j - 1 + 1) with j in Hh by lia.
Qed.

Lemma aget_fn {A} (l : list A) i x y : aget l i = Ok x → aget l i = Ok y → x = y.
Proof. congruence. Qed.

(** Between operations there are at most [KDATA_READERS] held slots. *)
Lemma quiet_size holds wown c :
  ring_inv holds wown c → quiet holds c → (size holds ≤ Z.to_nat KDATA_READERS)%nat.
Proof.
  intros Hinv Hq. unfold size, set_size. cbn.
  rewrite <- (length_map fst (elements holds)).
  replace (Z.to_nat KDATA_READERS) with (length (seqZ 0 KDATA_READERS)) by done.
  apply submseteq_length, NoDup_submseteq.
  - apply NoDup_fmap_2_strong; [|apply NoDup_elements].
    intros [i s] [j t] Hi%elem_of_elements Hj%elem_of_elements E. cbn in E. subst j.
    destruct (Hq _ _ Hi) as (r1 & E1 & <- & _), (Hq _ _ Hj) as (r2 & E2 & <- & _).
    by rewrite (aget_fn _ _ _ _ E1 E2).
  - intros id ([i s] & -> & Hi%elem_of_elements)%list_elem_of_fmap.
    apply elem_of_seqZ. apply (ri_ids _ _ _ Hinv) in Hi. cbn. lia.
Qed.

(** ** Writing *)

Lemma writer_release_ok holds c s :
  ring_inv holds (Some s) c → 0 ≤ s < KDATA_NPAGES →
  let c' := set_descriptor c (<[Z.to_nat s := 0]> (descriptor c)) in
  kdata_writer_release c s = Ok (0, c') ∧ ring_inv holds None c'.
Proof.
  intros Hinv Hs c'.
  destruct (ring_inv_desc_at _ _ _ s Hinv Hs) as (d & E & Hd).
  pose proof (do_excl _ _ _ _ Hd eq_refl) as Hfree.
  assert (d = 1) as ->.
  { apply Z.bits_inj'. intros k Hk. change 1 with (2 ^ 0). rewrite Z.pow2_bits_eqb by done.
    destruct (Z.eqb_spec 0 k) as [<-|]; [by apply (do_writer _ _ _ _ Hd)|].
    apply not_true_is_false. intros B.
    assert (k = 1 ∨ 2 ≤ k < 8 ∨ 8 ≤ k) as [-> | [Hk2 | Hk2]] by lia.
    - by apply Hfree, (do_skip _ _ _ _ Hd).
    - apply Hfree, slot_held_iff. exists (k - 2).
      apply (do_reader _ _ _ _ Hd); [unfold KDATA_READERS; lia|].
      by replace (2 + (k - 2)) with k by lia.
    - pose proof (do_word _ _ _ _ Hd) as [_ W]%desc_word_testbit. by rewrite W in B. }
  split.
  - unfold kdata_writer_release, kdata_read_desc. step_with E.
    erewrite write_back_ok by done. done.
  - apply (ring_inv_set_desc holds (Some s)); try done.
    + intros o ?. split; [done|congruence].
    + apply (ri_ids _ _ _ Hinv).
    + split; try done. intros id Hid. rewrite Z.bits_0. split; [done|].
      intros. exfalso. apply Hfree, slot_held_iff. eauto.
Qed.

(** ** Reading *)

Lemma release_value_bits id d k :
  desc_word d → 0 ≤ id < KDATA_READERS → 0 ≤ k →
  desc_word (release_value id d) ∧
  Z.testbit (release_value id d) k =
    (Z.testbit d k && negb (2 + id =? k)) &&
    (negb (k =? 1) ||
     ctrue (Z.land (Z.land d (Z.lnot (2 ^ (2 + id)))) KDATA_DSC_READER_OWNED)).
Proof.
  intros W Hid Hk. unfold release_value. rewrite reader_bit_pow2 by lia.
  assert (desc_word (Z.land d (Z.lnot (2 ^ (2 + id))))) as W1.
  { apply desc_word_land_lnot; [done|]. apply Z.pow_nonneg. lia. }
  rewrite desc_word_u16 by done.
  rewrite ctrue_skipped_bit.
  destruct (Z.testbit d 1) eqn:B1.
  - destruct (ctrue (Z.land _ KDATA_DSC_READER_OWNED)) eqn:B2; cbn [negb].
    + split; [done|]. rewrite orb_true_r, andb_true_r. apply testbit_clear; lia.
    + assert (desc_word (Z.land (Z.land d (Z.lnot (2 ^ (2 + id)))) (Z.lnot KDATA_DSC_SKIPPED))) as W2
        by (by apply desc_word_land_lnot).
      rewrite desc_word_u16 by done. split; [done|].
      change KDATA_DSC_SKIPPED with (2 ^ 1).
      rewrite !testbit_clear by lia. rewrite orb_false_r. by rewrite (Z.eqb_sym 1 k).
  - split; [done|]. rewrite testbit_clear by lia.
    destruct (Z.eqb_spec k 1) as [->|]; [by rewrite B1|]. by rewrite andb_true_r.
Qed.

Lemma holds_remove (holds : gset (Z * Z)) id s id' o :
  (id', o) ∈ holds ∖ {[(id, s)]} ↔ (id', o) ∈ holds ∧ ¬ (id' = id ∧ o = s).
Proof. set_unfold. naive_solver. Qed.

Lemma reader_release_desc holds wown id prev d :
  desc_ok holds wown prev d → 0 ≤ id < KDATA_READERS → 
  (∀ i s, (i, s) ∈ holds → 0 ≤ i < KDATA_READERS) →
  desc_ok (holds ∖ {[(id, prev)]}) wown prev (release_value id d).
Proof.
  intros [W R Wr X S] Hid Hids. split.
  - by destruct (release_value_bits id d 0 W Hid ltac:(lia)).
  - intros i Hi. destruct (release_value_bits id d (2 + i) W Hid ltac:(lia)) as [_ ->].
    destruct (Z.eqb_spec (2 + i) 1); [lia|]. cbn [negb orb]. rewrite andb_true_r, andb_true_iff.
    rewrite holds_remove, R by done. rewrite negb_true_iff, Z.eqb_neq.
    split; intros [? ?]; (split; [done|lia]).
  - destruct (release_value_bits id d 0 W Hid ltac:(lia)) as [_ ->].
    destruct (Z.eqb_spec (2 + id) 0); [lia|]. cbn. by rewrite !andb_true_r.
  - intros E [i [Hi _]%holds_remove]%slot_held_iff. apply (X E), slot_held_iff. eauto.
  - destruct (release_value_bits id d 1 W Hid ltac:(lia)) as [_ ->]. cbn.
    rewrite !andb_true_iff, ctrue_reader_owned. intros [_ (i & Hi & B)].
    rewrite testbit_clear, andb_true_iff, negb_true_iff, Z.eqb_neq in B by lia.
    apply slot_held_iff. exists i. apply holds_remove. rewrite <- R by done.
    split; [tauto|lia].
Qed.

(** Readers that differ only in the [consumed] statistics. *)
Definition rd_eqv (r r' : kdata_shared_reader) : Prop :=
  reader_rhead r' = reader_rhead r ∧ reader_entered r' = reader_entered r ∧
  reader_skips r' = reader_skips r.

#[global] Instance rd_eqv_equivalence : Equivalence rd_eqv.
Proof. split; unfold rd_eqv; repeat intro; naive_solver congruence. Qed.

#[global] Instance set_entered_proper : Proper (rd_eqv ==> eq ==> rd_eqv) set_entered.
Proof. intros r r' (?&?&?) ? ? ->. done. Qed.

Lemma aget_eqv l l' i r :
  Forall2 rd_eqv l l' → aget l i = Ok r → ∃ r', aget l' i = Ok r' ∧ rd_eqv r r'.
Proof.
  intros F [Hi E]%aget_Ok. destruct (Forall2_lookup_l _ _ _ _ _ F E) as (r' & E' & ?).
  exists r'. split; [|done]. by apply aget_lookup.
Qed.

Lemma release_slot_inv holds wown c id prev d :
  ring_inv holds wown c → 0 ≤ id < KDATA_READERS → 0 ≤ prev < KDATA_NPAGES →
  aget (descriptor c) prev = Ok d →
  ring_inv (holds ∖ {[(id, prev)]}) wown
    (set_descriptor c (<[Z.to_nat prev := release_value id d]> (descriptor c))).
Proof.
  intros Hinv Hid Hp E. apply (ring_inv_set_desc holds wown); try done.
  - intros i s Hs. rewrite holds_remove. naive_solver.
  - intros i s [Hi _]%holds_remove. by apply (ri_ids _ _ _ Hinv) in Hi.
  - apply reader_release_desc; [by apply (ri_desc _ _ _ Hinv)|done|apply (ri_ids _ _ _ Hinv)].
Qed.

(** Giving a slot back clears one bit, and the skipped bit with the last. *)
Lemma reader_release_ok holds wown c id prev fuel :
  ring_inv holds wown c → 0 ≤ id < KDATA_READERS → 0 ≤ prev < KDATA_NPAGES →
  ∃ c', kdata_reader_release (S fuel) id c prev = Ok c' ∧
    ring_inv (holds ∖ {[(id, prev)]}) wown c' ∧
    head c' = head c ∧ Forall2 rd_eqv (reader c) (reader c').
Proof.
  intros Hinv Hid Hp.
  destruct (ring_inv_desc_at _ _ _ prev Hinv Hp) as (d & E & Hd).
  destruct (ring_inv_reader_at _ _ _ 0 Hinv ltac:(done)) as (rd0 & E0 & Wf0).
  cbn [kdata_reader_release]. unfold kdata_read_desc. step_with E.
  erewrite write_back_ok by done. rewrite bind_Ok, Z.eqb_refl. cbn [negb].
  erewrite upd_reader_ok by exact E0. eexists. split; [done|]. split; [|split; [done|]].
  - apply ring_inv_set_readers; cbn [set_descriptor reader]; [|apply length_insert|].
    + by apply release_slot_inv.
    + by apply Forall_insert; [apply (ri_readers _ _ _ Hinv)|].
  - cbn [set_readers set_descriptor reader]. apply aget_Ok in E0 as [_ E0].
    rewrite <- (list_insert_id _ _ _ E0) at 1. by apply Forall2_insert.
Qed.

Lemma holds_add (holds : gset (Z * Z)) id s id' o :
  (id', o) ∈ {[(id, s)]} ∪ holds ↔ (id' = id ∧ o = s) ∨ (id', o) ∈ holds.
Proof. set_unfold. naive_solver. Qed.

(** Taking a slot that no writer owns. *)
Lemma take_slot_inv holds wown c id s d :
  ring_inv holds wown c → 0 ≤ id < KDATA_READERS → 0 ≤ s < KDATA_NPAGES →
  wown ≠ Some s → aget (descriptor c) s = Ok d →
  let d' := u16 (Z.lor d (KDATA_DSC_READER_BIT id)) in
  ring_inv ({[(id, s)]} ∪ holds) wown (set_descriptor c (<[Z.to_nat s := d']> (descriptor c))).
Proof.
  intros Hinv Hid Hs Hw E d'.
  destruct (ri_desc _ _ _ Hinv _ _ E) as [W R Wr X S].
  assert (desc_word (Z.lor d (2 ^ (2 + id)))) as W'
    by (apply desc_word_lor; unfold KDATA_READERS in *; (done || lia)).
  unfold d'. rewrite reader_bit_pow2, desc_word_u16 by (done || lia).
  apply (ring_inv_set_desc holds wown); try done.
  - intros i o Ho. rewrite holds_add. naive_solver.
  - intros i o [[-> ->]|Hi]%holds_add; [done|]. by apply (ri_ids _ _ _ Hinv) in Hi.
  - split; try done.
    + intros i Hi. rewrite testbit_set by lia. rewrite holds_add, orb_true_iff, Z.eqb_eq, R by done.
      split; intros [?|?]; (by auto || (left; lia) || (right; lia) || (destruct_and?; subst; auto)).
    + rewrite testbit_set by lia. destruct (Z.eqb_spec (2 + id) 0); [lia|]. by rewrite orb_false_r.
    + intros _. apply slot_held_iff. exists id. apply holds_add. by left.
Qed.

Lemma advance_rhead_ok holds c id rhead fuel :
  ring_inv holds None c → 0 ≤ id < KDATA_READERS → 0 ≤ rhead < KDATA_NPAGES →
  ∃ d, aget (descriptor c) (kdata_next rhead) = Ok d ∧
  let c' := set_descriptor c (<[Z.to_nat (kdata_next rhead) :=
      u16 (Z.lor d (KDATA_DSC_READER_BIT id))]> (descriptor c)) in
  kdata_advance_rhead (S fuel) c id rhead = Ok (kdata_next rhead, c') ∧
  ring_inv ({[(id, kdata_next rhead)]} ∪ holds) None c'.
Proof.
  intros Hinv Hid Hr. pose proof (kdata_next_range _ Hr) as Hn.
  destruct (ring_inv_desc_at _ _ _ _ Hinv Hn) as (d & E & Hd).
  exists d. split; [done|]. split; [|by apply take_slot_inv].
  cbn [kdata_advance_rhead]. unfold kdata_read_desc. step_with E.
  rewrite ctrue_writer_bit.
  destruct (Z.testbit d 0) eqn:B; [apply (do_writer _ _ _ _ Hd) in B; done|]. cbn [negb].
  erewrite write_back_ok by done. rewrite bind_Ok, Z.eqb_refl. done.
Qed.

(** What reader [id] holds between operations. *)
Definition reader_view (holds : gset (Z * Z)) (id : Z) (rd : kdata_shared_reader) : Prop :=
  ∀ s, (id, s) ∈ holds ↔ reader_entered rd ≠ 0 ∧ s = reader_rhead rd.

(** [kdata_next_generic] on the control it selected: the reader moves to the
    next slot, takes it, and gives the slot it held back.  [rd'] differs from
    [rd] only in its head, its entered flag and, for reader 0, its counter. *)
Record advanced (holds : gset (Z * Z)) (c : kdata_control) (id : Z)
    (rd : kdata_shared_reader) (c' : kdata_control) : Prop := {
  ad_inv : ring_inv ({[(id, kdata_next (reader_rhead rd))]} ∪
                     (holds ∖ {[(id, reader_rhead rd)]})) None c';
  ad_head : head c' = head c;
  ad_readers : Forall2 rd_eqv
    (<[Z.to_nat id := set_entered (set_rhead rd (kdata_next (reader_rhead rd))) 1]> (reader c))
    (reader c');
}.

Lemma kdata_next_ne s : 0 ≤ s < KDATA_NPAGES → kdata_next s ≠ s.
Proof.
  intros Hs E. rewrite <- (cyc_0 s Hs) in E at 1. rewrite cyc_next in E.
  rewrite <- (cyc_0 s Hs) in E at 2. apply cyc_inj in E; unfold KDATA_NPAGES; lia.
Qed.

(** The two ways of closing [kdata_next_control]: [upd_reader ... entered = 1]
    on a state whose invariant is known. *)
Lemma enter_ok holds c id rd :
  ring_inv holds None c → aget (reader c) id = Ok rd →
  let c' := set_readers c (<[Z.to_nat id := set_entered rd 1]> (reader c)) in
  upd_reader c id (λ r, set_entered r 1) = Ok c' ∧ ring_inv holds None c'.
Proof.
  intros Hinv E c'. split; [by erewrite upd_reader_ok|].
  apply ring_inv_set_readers; [done|apply length_insert|].
  apply Forall_insert; [apply (ri_readers _ _ _ Hinv)|].
  apply aget_Ok in E as [_ E]. by pose proof (Forall_lookup_1 _ _ _ _ (ri_readers _ _ _ Hinv) E).
Qed.

Lemma move_rhead_ok holds c id rd s :
  ring_inv holds None c → aget (reader c) id = Ok rd → 0 ≤ s < KDATA_NPAGES →
  let c' := set_readers c (<[Z.to_nat id := set_rhead rd s]> (reader c)) in
  upd_reader c id (λ r, set_rhead r s) = Ok c' ∧ ring_inv holds None c'.
Proof.
  intros Hinv E Hs c'. split; [by erewrite upd_reader_ok|].
  apply ring_inv_set_readers; [done|apply length_insert|].
  apply Forall_insert; [apply (ri_readers _ _ _ Hinv)|].
  apply aget_Ok in E as [_ E].
  by destruct (Forall_lookup_1 _ _ _ _ (ri_readers _ _ _ Hinv) E).
Qed.

Lemma next_control_ok holds c id rd fuel :
  ring_inv holds None c → aget (reader c) id = Ok rd → reader_view holds id rd →
  ∃ c', kdata_next_control (S fuel) c id = Ok (kdata_next (reader_rhead rd), c') ∧
        advanced holds c id rd c'.
Proof.
  intros Hinv E Hv. pose proof (aget_Ok_range _ _ _ E) as Hid'.
  assert (0 ≤ id < KDATA_READERS) as Hid by (rewrite (ri_nreader _ _ _ Hinv) in Hid'; done).
  destruct (ring_inv_reader_at _ _ _ id Hinv Hid) as (? & E' & [Hr _]).
  rewrite E in E'. injection E' as <-. set (prev := reader_rhead rd) in *.
  pose proof (kdata_next_range _ Hr) as Hn. pose proof (kdata_next_ne _ Hr) as Hne.
  destruct (advance_rhead_ok holds c id prev fuel Hinv Hid Hr) as (d & Ed & Ea & Ia).
  destruct (move_rhead_ok _ _ id rd (kdata_next prev) Ia E Hn) as [Em Im].
  set (c2 := set_readers _ _) in *.
  assert (aget (reader c2) id = Ok (set_rhead rd (kdata_next prev))) as E2
    by by apply aget_insert_eq.
  unfold kdata_next_control. step_with E. fold prev. step_with Ea. step_with Em. step_with E2.
  cbn [set_rhead reader_entered].
  assert (∃ c3, (if ctrue (reader_entered rd) then kdata_reader_release (S fuel) id c2 prev
                 else Ok c2) = Ok c3 ∧
            ring_inv ({[(id, kdata_next prev)]} ∪ holds ∖ {[(id, prev)]}) None c3 ∧
            head c3 = head c ∧ Forall2 rd_eqv (reader c2) (reader c3))
    as (c3 & -> & I3 & H3 & F3).
  { destruct (ctrue (reader_entered rd)) eqn:Be.
    - replace ({[(id, kdata_next prev)]} ∪ holds ∖ {[(id, prev)]})
        with (({[(id, kdata_next prev)]} ∪ holds) ∖ {[(id, prev)]}) by set_solver.
      destruct (reader_release_ok _ None c2 id prev fuel Im Hid Hr) as (c3 & ? & ? & ? & ?).
      by exists c3.
    - apply ctrue_false in Be. exists c2. replace (holds ∖ {[(id, prev)]}) with holds; [done|].
      assert ((id, prev) ∉ holds) by (intros X; apply Hv in X; tauto). set_solver. }
  rewrite bind_Ok. destruct (aget_eqv _ _ _ _ F3 E2) as (rd3 & E3 & Q3).
  destruct (enter_ok _ c3 id rd3 I3 E3) as [-> Ie].
  eexists. split; [done|]. split; [done..|]. cbn [set_readers reader].
  rewrite <- (list_insert_insert_eq (reader c) (Z.to_nat id) _ (set_rhead rd (kdata_next prev))).
  apply Forall2_insert; [done|]. by rewrite <- Q3.
Qed.
