(* ===== verification/KDataIO.v ===== *)
(** * Writing messages into a data ring

    The writers of libdata.c (user space) and kdata.c (kernel).  A writer takes a
    slot with [kdata_write_FIRST], fills the page it was given, and publishes it
    with [kdata_write_SECOND].  [send( u->socket, ... )] and
    [wake_up_interruptible_all] wake the readers and change no shared memory;
    they do not appear below. *)

From S2P Require Import Prelude KrDep KData.

(** memcpy( dest, data, len ) from a buffer of [length data] bytes. *)
Definition buf_prefix (data : list Z) (len : Z) : res (list Z) :=
  if decide (0 ≤ len ≤ Z.of_nat (length data)) then Ok (take (Z.to_nat len) data) else Ub.

(** The stores of [kdata_write_decrypted] through [h]. *)
Definition fill_decrypted (id type : Z) (remoteHost : option (list Z)) (data : list Z) (len : Z)
    (h : page_ptr) (m : kdata_mem) : res kdata_mem :=
  m ← page_store m h 0 (le_bytes 4 len);
  m ← page_store m h 8 (le_bytes 8 id);
  m ← page_store m h 16 (le_bytes 1 type);
  m ← (match remoteHost with
       | None => page_store m h 17 [0]
       | Some host =>
           m ← page_store m h 17 (strncpy host 63);
           page_store m h (17 + 62) [0]
       end);
  bytes ← buf_prefix data len;
  page_store m h sizeof_decrypted_header bytes.

Definition kdata_write_decrypted (fuel : nat) (u : kring_user) (m : kdata_mem)
    (id type : Z) (remoteHost : option (list Z)) (data : list Z) (len : Z)
    : res (Z * kdata_mem) :=
  let len := if kdata_decrypted_max_data <? len then kdata_decrypted_max_data else len in
  '(h, m) ← kdata_write_FIRST fuel u m;
  m ← fill_decrypted id type remoteHost data len h m;
  m ← kdata_write_SECOND u m;
  Ok (0, m).

(** The stores of [kdata_write_plain] through [h]. *)
Definition fill_plain (data : list Z) (len : Z) (h : page_ptr) (m : kdata_mem) : res kdata_mem :=
  m ← page_store m h 0 (le_bytes 4 len);
  bytes ← buf_prefix data len;
  page_store m h sizeof_plain_header bytes.

Definition kdata_write_plain (fuel : nat) (u : kring_user) (m : kdata_mem)
    (data : list Z) (len : Z) : res (Z * kdata_mem) :=
  let len := if kdata_plain_max_data <? len then kdata_plain_max_data else len in
  '(h, m) ← kdata_write_FIRST fuel u m;
  m ← fill_plain data len h m;
  m ← kdata_write_SECOND u m;
  Ok (0, m).

(** recv( u->socket, buf, 1, 1 ): its result and the errno it leaves. *)
Definition EINTR : Z := 4.
Definition kdata_read_wait (recv : Z * Z) : Z :=
  let '(ret, errno) := recv in
  if (ret =? -1) && (errno =? EINTR) then 0 else ret.

(** ** The kernel writer *)

Section Kwrite.
(** A socket buffer of the kernel: [skb->len], and [skb_copy_bits], which copies
    [len] bytes from [offset] on. *)
Context {skb : Type} (skb_len : skb → Z) (skb_copy_bits : skb → Z → Z → list Z).

(** The stores of [kdata_write_single] through [h]. *)
Definition fill_packet (dir : Z) (s : skb) (offset write len : Z)
    (h : page_ptr) (m : kdata_mem) : res kdata_mem :=
  m ← page_store m h 0 (le_bytes 4 len);
  m ← page_store m h 4 (le_bytes 1 dir);
  page_store m h sizeof_packet_header (skb_copy_bits s offset write).

Definition kdata_write_single (fuel : nat) (kring : kring_kern) (m : kdata_mem) (dir : Z)
    (s : skb) (offset write len : Z) : res kdata_mem :=
  '(h, m) ← kdata_write_FIRST fuel (kk_user kring) m;
  m ← fill_packet dir s offset write len h m;
  m ← kdata_write_SECOND (kk_user kring) m;
  r ← aget m (kk_ring_id kring);
  let c := kr_control r in
  put_control m (kk_ring_id kring)
    (set_head c (set_produced (head c) (u64 (head_produced (head c) + 1)))).

(** The loop of [kdata_kwrite], from [offset] on. *)
Fixpoint kdata_kwrite_loop (n : nat) (fuel : nat) (kring : kring_kern) (m : kdata_mem)
    (dir : Z) (s : skb) (offset : Z) : res kdata_mem :=
  match n with
  | O => Spin
  | S n =>
      let len := i32 (skb_len s - offset) in
      if len <=? 0 then Ok m
      else
        let write := if kdata_packet_max_data <? len then kdata_packet_max_data else len in
        m ← kdata_write_single fuel kring m dir s offset write len;
        kdata_kwrite_loop n fuel kring m dir s (i32 (offset + write))
  end.

Definition kdata_kwrite (n fuel : nat) (kring : kring_kern) (m : kdata_mem)
    (dir : Z) (s : skb) : res kdata_mem :=
  kdata_kwrite_loop n fuel kring m dir s 0.
End Kwrite.

Definition kdata_init_control (c : kdata_control) : kdata_control :=
  let h := set_wresv (head c) (kdata_prev 0) in
  set_head c (set_whead h (head_wresv h)).

(** A control region as [kring_alloc_shared_memory] leaves it: all zero. *)
Definition zero_control : kdata_control :=
  KdataControl (SharedHead 0 0 0)
    (replicate (Z.to_nat KDATA_WRITERS) (SharedWriter 0 0 0))
    (replicate (Z.to_nat KDATA_READERS) (SharedReader 0 0 0 0))
    (replicate (Z.to_nat KDATA_NPAGES) 0).

Definition fresh_kdata_ring : kdata_ring :=
  KdataRing (kdata_init_control zero_control)
    (replicate (Z.to_nat KDATA_NPAGES) zero_page).
