(* ===== verification/KDataQueue.v ===== *)
(** * The data ring as a queue per reader

    A complete write ([kdata_write_FIRST], stores, [kdata_write_SECOND]) appends
    one page to the queue of every reader; [kdata_next_generic] pops the queue of
    the reader that calls it and of no other.  The contents survive the trip for
    each of the three message kinds. *)

From S2P Require Import Prelude KrDep KData KDataRing KDataIO.

(** ** Memory updates as functions *)

Definition stored (pg : kring_page) (o : nat) (bs : list Z) : kring_page :=
  take o pg ++ bs ++ drop (o + length bs) pg.

Lemma stored_length pg o bs :
  (o + length bs ≤ length pg)%nat → length (stored pg o bs) = length pg.
Proof. intros. unfold stored. rewrite !length_app, length_take, length_drop. lia. Qed.

Lemma stored_store pg o bs :
  (o + length bs ≤ length pg)%nat → mem_store pg o bs = Ok (stored pg o bs).
Proof. apply mem_store_fits. Qed.

Lemma put_control_ok (m : kdata_mem) i r c :
  aget m i = Ok r → put_control m i c = Ok (<[Z.to_nat i := KdataRing c (kr_page r)]> m).
Proof.
  intros E. unfold put_control. step_with E. apply aset_in_range. by eapply aget_Ok_range.
Qed.

Lemma aget_put (m : kdata_mem) i r r' :
  aget m i = Ok r → aget (<[Z.to_nat i := r']> m) i = Ok r'.
Proof. intros E. apply aget_insert_eq. by eapply aget_Ok_range. Qed.

(** [m] with page [s] of ring [i], which is [r], replaced. *)
Definition with_page (m : kdata_mem) (i s : Z) (r : kdata_ring) (pg : kring_page) : kdata_mem :=
  <[Z.to_nat i := KdataRing (kr_control r) (<[Z.to_nat s := pg]> (kr_page r))]> m.

Lemma page_store_ok m i r s pg o bs :
  aget m i = Ok r → aget (kr_page r) s = Ok pg → (o + length bs ≤ length pg)%nat →
  page_store m (PagePtr i s) o bs = Ok (with_page m i s r (stored pg o bs)).
Proof.
  intros E Ep L. unfold page_store. cbn [pp_ring pp_off]. step_with E. step_with Ep.
  rewrite stored_store, bind_Ok by done.
  rewrite aset_in_range by (by eapply aget_Ok_range). rewrite bind_Ok.
  apply aset_in_range. by eapply aget_Ok_range.
Qed.

(** A store after a store to the same page. *)
Lemma page_store_again m i r s pg pg' o bs :
  aget m i = Ok r → aget (kr_page r) s = Ok pg → (o + length bs ≤ length pg')%nat →
  page_store (with_page m i s r pg') (PagePtr i s) o bs =
    Ok (with_page m i s r (stored pg' o bs)).
Proof.
  intros E Ep L. pose proof (aget_Ok_range _ _ _ Ep).
  erewrite page_store_ok; [|by eapply aget_put|by apply aget_insert_eq|done].
  unfold with_page. cbn [kr_control kr_page]. by rewrite !list_insert_insert_eq.
Qed.

(** A handle through which [ctrl] reaches ring [i], control and pages alike:
    what [kdata_map_enter] and [kring_kopen] establish. *)
Definition maps_ring (u : kring_user) (ctrl i : Z) : Prop :=
  aget (u_control u) ctrl = Ok i ∧ ∀ off, kdata_page_data u ctrl off = Ok (PagePtr i off).

Lemma user_ring_ok u m ctrl i r :
  maps_ring u ctrl i → aget m i = Ok r → user_ring u m ctrl = Ok (i, r).
Proof. intros [E _] Er. unfold user_ring. step_with E. by step_with Er. Qed.

(** ** One complete write *)

(** Ring [r'] is [r] after the page [F pg] was published in the first slot
    nobody holds, [n] held slots having been passed over. *)
Record published (holds : gset (Z * Z)) (r : kdata_ring) (n : nat)
    (F : kring_page → kring_page) (r' : kdata_ring) : Prop := {
  pub_inv : ring_inv holds None (kr_control r');
  pub_whead : head_whead (head (kr_control r')) =
    cyc (head_whead (head (kr_control r))) (Z.of_nat n + 1);
  pub_produced : head_produced (head (kr_control r')) = head_produced (head (kr_control r));
  pub_page : ∃ pg, aget (kr_page r) (head_whead (head (kr_control r'))) = Ok pg ∧
    kr_page r' = <[Z.to_nat (head_whead (head (kr_control r'))) := F pg]> (kr_page r);
  pub_free : ¬ slot_held holds (head_whead (head (kr_control r')));
  pub_passed : ∀ j, 1 ≤ j ≤ Z.of_nat n →
    slot_held holds (cyc (head_whead (head (kr_control r))) j);
  pub_readers : ∀ id rd, aget (reader (kr_control r)) id = Ok rd →
    aget (reader (kr_control r')) id = Ok (set_skips rd (u64 (reader_skips rd +
      skip_count holds (kdata_next (head_whead (head (kr_control r)))) n id)));
}.

(** What is required of the code that fills a page: it stores to the page it was
    given, and to nothing else. *)
Definition fills (body : page_ptr → kdata_mem → res kdata_mem)
    (F : kring_page → kring_page) : Prop :=
  ∀ m i s r pg, aget m i = Ok r → aget (kr_page r) s = Ok pg → page_ok pg →
    body (PagePtr i s) m = Ok (with_page m i s r (F pg)).

(** The pages of a ring are all there. *)
Definition pages_ok (r : kdata_ring) : Prop :=
  length (kr_page r) = Z.to_nat KDATA_NPAGES ∧ Forall page_ok (kr_page r).

Lemma pages_ok_at r s : pages_ok r → 0 ≤ s < KDATA_NPAGES →
  ∃ pg, aget (kr_page r) s = Ok pg ∧ page_ok pg.
Proof.
  intros [L F] Hs. destruct (aget_in_range (kr_page r) s) as [pg E].
  { rewrite L. unfold KDATA_NPAGES in *. lia. }
  exists pg. split; [done|]. apply aget_Ok in E as [_ E]. by eapply Forall_lookup_1.
Qed.

Lemma write_first_ok holds u m i r fuel :
  maps_ring u 0 i → aget m i = Ok r → ring_inv holds None (kr_control r) →
  Z.of_nat (size holds) < KDATA_NPAGES → (size holds < fuel)%nat →
  ∃ n c', let w := head_whead (head (kr_control r)) in
    let s := cyc w (Z.of_nat n + 1) in
    (n ≤ size holds)%nat ∧ found holds (kr_control r) (kdata_next w) n c' ∧
    (∀ j, 1 ≤ j ≤ Z.of_nat n → slot_held holds (cyc w j)) ∧ ¬ slot_held holds s ∧
    kdata_write_FIRST fuel u m = Ok (PagePtr i s,
      <[Z.to_nat i := KdataRing (set_head c' (set_wresv (head c') s)) (kr_page r)]> m).
Proof.
  intros Hu E Hinv Hsz Hf.
  destruct (find_write_loc_found _ _ _ Hinv Hsz Hf) as (n & c' & Hn & Ef & F & Hp & Hfree).
  exists n, c'. cbn zeta. split; [done|]. split; [done|]. split; [done|]. split; [done|].
  unfold kdata_write_FIRST. erewrite user_ring_ok by done. rewrite bind_Ok. step_with Ef.
  erewrite put_control_ok by done. rewrite bind_Ok. by rewrite (proj2 Hu), bind_Ok.
Qed.

Lemma write_second_ok holds u m i c s pgs r0 :
  maps_ring u 0 i → aget m i = Ok r0 → ring_inv holds (Some s) c →
  0 ≤ s < KDATA_NPAGES → head_wresv (head c) = s →
  ∃ c', let m' := <[Z.to_nat i := KdataRing c pgs]> m in
    kdata_write_SECOND u m' = Ok (<[Z.to_nat i := KdataRing c' pgs]> m) ∧
    ring_inv holds None c' ∧ head c' = set_whead (head c) s ∧ reader c' = reader c.
Proof.
  intros Hu E Hinv Hs Hr.
  destruct (writer_release_ok _ _ _ Hinv Hs) as [Er Ir]. set (c1 := set_descriptor _ _) in *.
  exists (set_head c1 (set_whead (head c1) s)). cbn zeta.
  split; [|split; [|done]]; [|by apply ring_inv_set_head].
  unfold kdata_write_SECOND. erewrite user_ring_ok; [|done|by eapply aget_put].
  rewrite bind_Ok. cbn [kr_control]. rewrite Hr. step_with Er.
  erewrite put_control_ok by (by eapply aget_put). cbn [kr_page].
  rewrite list_insert_insert_eq. do 3 f_equal. cbn. by rewrite Hr.
Qed.

(** FIRST, fill, SECOND. *)
Lemma write_published holds u m i r fuel body F :
  maps_ring u 0 i → aget m i = Ok r → ring_inv holds None (kr_control r) → pages_ok r →
  Z.of_nat (size holds) < KDATA_NPAGES → (size holds < fuel)%nat → fills body F →
  ∃ n r', ('(h, m) ← kdata_write_FIRST fuel u m;
           m ← body h m;
           kdata_write_SECOND u m) = Ok (<[Z.to_nat i := r']> m) ∧
    published holds r n F r' ∧ (n ≤ size holds)%nat.
Proof.
  intros Hu E Hinv Hpg Hsz Hf Hfill.
  destruct (write_first_ok holds u m i r fuel Hu E Hinv Hsz Hf)
    as (n & c1 & Hn & [Finv Fh _ _ _ _ Fr] & Hp & Hfree & Ef).
  set (w := head_whead (head (kr_control r))) in *.
  assert (0 ≤ w < KDATA_NPAGES) as Hw by apply (ri_whead _ _ _ Hinv).
  rewrite cyc_kdata_next in Finv by done.
  set (s := cyc w (Z.of_nat n + 1)) in *. assert (0 ≤ s < KDATA_NPAGES) as Hs by apply cyc_range.
  set (c2 := set_head c1 (set_wresv (head c1) s)) in *.
  assert (ring_inv holds (Some s) c2) as I2
    by (apply ring_inv_set_head; [done|cbn; rewrite Fh; apply Hw]).
  destruct (pages_ok_at r s Hpg Hs) as (pg & Epg & Wpg).
  destruct (write_second_ok holds u m i c2 s (<[Z.to_nat s := F pg]> (kr_page r)) r Hu E I2 Hs eq_refl)
    as (c3 & E3 & I3 & H3 & R3).
  exists n, (KdataRing c3 (<[Z.to_nat s := F pg]> (kr_page r))).
  assert (head_whead (head c3) = s) as W3 by by rewrite H3.
  split; [|split; [|done]].
  - step_with Ef. erewrite Hfill; [|by eapply aget_put|done|done].
    rewrite bind_Ok. unfold with_page. cbn [kr_control kr_page].
    by rewrite list_insert_insert_eq.
  - split; cbn [kr_control kr_page]; rewrite ?W3; try done; [|by eauto|].
    + rewrite H3. cbn. by rewrite Fh.
    + rewrite R3. exact Fr.
Qed.

(** ** What a reader has still to read *)

Definition lag (c : kdata_control) (rhead : Z) : Z :=
  (head_whead (head c) - rhead) mod KDATA_NPAGES.

(** The pages after [rhead], up to and including the write head. *)
Definition queue_from (r : kdata_ring) (rhead : Z) : list kring_page :=
  omap (λ j, kr_page r !! Z.to_nat (cyc rhead j)) (seqZ 1 (lag (kr_control r) rhead)).

(** The queue of reader [id] in ring [r]. *)
Definition reader_queue (r : kdata_ring) (id : Z) : list kring_page :=
  match aget (reader (kr_control r)) id with
  | Ok rd => queue_from r (reader_rhead rd)
  | _ => []
  end.

Lemma lag_range c rhead : 0 ≤ lag c rhead < KDATA_NPAGES.
Proof. apply Z.mod_pos_bound. done. Qed.

(** The write head is [lag] places after the read head. *)
Lemma whead_lag c rhead :
  0 ≤ head_whead (head c) < KDATA_NPAGES → cyc rhead (lag c rhead) = head_whead (head c).
Proof.
  intros Hw. unfold cyc, lag. rewrite Zplus_mod_idemp_r.
  replace (rhead + (head_whead (head c) - rhead)) with (head_whead (head c)) by lia.
  by apply Z.mod_small.
Qed.

Lemma lag_unique c rhead k :
  0 ≤ head_whead (head c) < KDATA_NPAGES → 0 ≤ k < KDATA_NPAGES →
  cyc rhead k = head_whead (head c) → lag c rhead = k.
Proof.
  intros Hw Hk E. apply (cyc_inj rhead); [apply lag_range|done|].
  by rewrite whead_lag, E.
Qed.

Lemma lag_0 c rhead :
  0 ≤ head_whead (head c) < KDATA_NPAGES → 0 ≤ rhead < KDATA_NPAGES →
  lag c rhead = 0 ↔ rhead = head_whead (head c).
Proof.
  intros Hw Hr. split; intros E.
  - rewrite <- (whead_lag c rhead Hw), E. by rewrite cyc_0.
  - apply lag_unique; [done|done|]. by rewrite cyc_0.
Qed.

(** A publication adds, for a reader that is not about to be lapped, the [n]
    passed-over pages as they are and then the new page. *)
Lemma queue_from_publish holds r n F r' rhead :
  published holds r n F r' → ring_inv holds None (kr_control r) → pages_ok r →
  0 ≤ rhead < KDATA_NPAGES →
  lag (kr_control r) rhead + Z.of_nat n + 1 < KDATA_NPAGES →
  let w := head_whead (head (kr_control r)) in
  ∃ pg, kr_page r !! Z.to_nat (cyc w (Z.of_nat n + 1)) = Some pg ∧
  queue_from r' rhead =
    queue_from r rhead ++
    omap (λ j, kr_page r !! Z.to_nat (cyc w j)) (seqZ 1 (Z.of_nat n)) ++ [F pg].
Proof.
  intros P Hinv Hpg Hr Hlag w. destruct P as [PI PW _ (pg & Epg & PP) _ _ _].
  assert (0 ≤ w < KDATA_NPAGES) as Hw by apply (ri_whead _ _ _ Hinv).
  set (l := lag (kr_control r) rhead) in *. pose proof (lag_range (kr_control r) rhead) as Hl. fold l in Hl.
  assert (∀ j, cyc w j = cyc rhead (l + j)) as Hcyc.
  { intros j. unfold w. rewrite <- (whead_lag (kr_control r) rhead) by done. by rewrite cyc_cyc. }
  rewrite PW in *. fold w in PW, PP, Epg. apply aget_Ok in Epg as [_ Epg].
  exists pg. split; [done|]. unfold queue_from.
  assert (lag (kr_control r') rhead = l + (Z.of_nat n + 1)) as ->.
  { apply lag_unique; [apply (ri_whead _ _ _ PI)|lia|]. by rewrite PW, <- Hcyc. }
  assert (∀ j, 0 ≤ j < l + (Z.of_nat n + 1) →
    kr_page r' !! Z.to_nat (cyc rhead j) = kr_page r !! Z.to_nat (cyc rhead j)) as Hsame.
  { intros j Hj. rewrite PP, list_lookup_insert_ne; [done|]. rewrite Hcyc.
    intros E. apply Z2Nat.inj in E; [|apply cyc_range..]. apply cyc_inj in E; lia. }
  fold l. rewrite seqZ_app, omap_app by lia. f_equal.
  - apply list_omap_ext, Forall2_same_length_lookup. split; [done|].
    intros i x y Hx Hy. rewrite Hx in Hy. injection Hy as <-.
    apply lookup_seqZ in Hx as [-> Hi]. apply Hsame. lia.
  - rewrite seqZ_app, omap_app by lia. f_equal.
    + apply list_omap_ext, Forall2_same_length_lookup. rewrite !length_seqZ. split; [done|].
      intros i x y [-> Hi]%lookup_seqZ [-> _]%lookup_seqZ. rewrite Hcyc, <- Hsame by lia.
      do 3 f_equal. lia.
    + assert (kr_page r' !! Z.to_nat (cyc rhead (1 + l + Z.of_nat n)) = Some (F pg)) as E1.
      { replace (1 + l + Z.of_nat n) with (l + (Z.of_nat n + 1)) by lia.
        rewrite <- Hcyc, PP, list_lookup_insert_eq; [done|]. by eapply lookup_lt_Some. }
      rewrite seqZ_cons by lia. cbn [omap list_omap]. rewrite E1. by rewrite seqZ_nil by lia.
Qed.

(** Moving the read head one slot on takes the first page off the queue. *)
Lemma queue_from_pop r rhead :
  0 ≤ head_whead (head (kr_control r)) < KDATA_NPAGES → pages_ok r →
  0 ≤ rhead < KDATA_NPAGES → rhead ≠ head_whead (head (kr_control r)) →
  ∃ pg, aget (kr_page r) (kdata_next rhead) = Ok pg ∧
    queue_from r rhead = pg :: queue_from r (kdata_next rhead).
Proof.
  intros Hw Hpg Hr Hne. set (c := kr_control r) in *.
  destruct (pages_ok_at r (kdata_next rhead) Hpg (kdata_next_range _ Hr)) as (pg & E & _).
  exists pg. split; [done|].
  pose proof (lag_range c rhead) as Hl.
  assert (lag c rhead ≠ 0) as Hl0 by by rewrite lag_0.
  assert (lag c (kdata_next rhead) = lag c rhead - 1) as Hl1.
  { apply lag_unique; [done|lia|]. rewrite cyc_kdata_next by done.
    replace (lag c rhead - 1 + 1) with (lag c rhead) by lia. by apply whead_lag. }
  unfold queue_from. fold c. rewrite Hl1, (seqZ_cons 1) by lia. cbn [omap list_omap].
  assert (kr_page r !! Z.to_nat (cyc rhead 1) = Some pg) as E1.
  { rewrite <- (cyc_0 rhead Hr) in E. rewrite cyc_next in E. by apply aget_Ok in E as [_ E]. }
  rewrite E1. f_equal. apply list_omap_ext, Forall2_same_length_lookup. rewrite !length_seqZ.
  split; [lia|]. intros i x y [-> Hi]%lookup_seqZ [-> _]%lookup_seqZ.
  rewrite cyc_kdata_next by done. do 3 f_equal. lia.
Qed.

(** ** A ring between operations *)

Record ring_state (holds : gset (Z * Z)) (r : kdata_ring) : Prop := {
  rs_inv : ring_inv holds None (kr_control r);
  rs_quiet : quiet holds (kr_control r);
  rs_pages : pages_ok r;
}.

Lemma ring_state_size holds r :
  ring_state holds r → (size holds ≤ 6)%nat ∧ Z.of_nat (size holds) < KDATA_NPAGES.
Proof.
  intros [I Q _]. pose proof (quiet_size _ _ _ I Q) as H.
  change (Z.to_nat KDATA_READERS) with 6%nat in H. unfold KDATA_NPAGES. lia.
Qed.

Lemma published_readers_inv holds r n F r' id rd' :
  published holds r n F r' → ring_inv holds None (kr_control r) →
  aget (reader (kr_control r')) id = Ok rd' →
  ∃ rd, aget (reader (kr_control r)) id = Ok rd ∧ reader_rhead rd' = reader_rhead rd ∧
        reader_entered rd' = reader_entered rd.
Proof.
  intros P I E. pose proof (aget_Ok_range _ _ _ E) as Hid.
  rewrite (ri_nreader _ _ _ (pub_inv _ _ _ _ _ P)) in Hid.
  destruct (ring_inv_reader_at _ _ _ id I ltac:(done)) as (rd & Er & _).
  exists rd. split; [done|]. rewrite (pub_readers _ _ _ _ _ P _ _ Er) in E. by injection E as <-.
Qed.

Lemma published_state holds r n F r' :
  ring_state holds r → published holds r n F r' → (∀ pg, page_ok pg → page_ok (F pg)) →
  ring_state holds r'.
Proof.
  intros [I Q P] Pub HF. destruct (pub_page _ _ _ _ _ Pub) as (pg & Epg & Ep).
  split; [apply (pub_inv _ _ _ _ _ Pub)|..].
  - intros id s Hs. destruct (Q id s Hs) as (rd & Er & Hr & He).
    eexists. rewrite (pub_readers _ _ _ _ _ Pub _ _ Er). done.
  - destruct P as [L Fo]. split; rewrite Ep; [by rewrite length_insert|].
    apply Forall_insert; [done|]. apply HF. apply aget_Ok in Epg as [_ Epg].
    by eapply Forall_lookup_1.
Qed.

Lemma advanced_other holds c id rd c' i r' :
  advanced holds c id rd c' → aget (reader c) id = Ok rd → i ≠ id →
  aget (reader c') i = Ok r' → ∃ r, aget (reader c) i = Ok r ∧ rd_eqv r r'.
Proof.
  intros A E Hi E'. pose proof (aget_Ok_range _ _ _ E) as Hid.
  destruct (aget_eqv (reader c') (<[Z.to_nat id := set_entered (set_rhead rd (kdata_next (reader_rhead rd))) 1]> (reader c)) i r')
    as (r & Er & Qr); [|done|].
  { apply Forall2_flip. eapply Forall2_impl; [apply (ad_readers _ _ _ _ _ A)|].
    intros x y Hxy. exact (symmetry Hxy). }
  exists r. rewrite aget_insert_ne in Er by lia. split; [done|]. exact (symmetry Qr).
Qed.

Lemma advanced_self holds c id rd c' :
  advanced holds c id rd c' → aget (reader c) id = Ok rd →
  ∃ rd', aget (reader c') id = Ok rd' ∧ reader_rhead rd' = kdata_next (reader_rhead rd) ∧
    reader_entered rd' = 1 ∧ reader_skips rd' = reader_skips rd.
Proof.
  intros A E.
  pose proof (aget_insert_eq (reader c) id (set_entered (set_rhead rd (kdata_next (reader_rhead rd))) 1)
    (aget_Ok_range _ _ _ E)) as X.
  destruct (aget_eqv _ _ id _ (ad_readers _ _ _ _ _ A) X) as (rd' & E' & H1 & H2 & H3).
  by exists rd'.
Qed.

Lemma advanced_state holds r id rd c' :
  ring_state holds r → aget (reader (kr_control r)) id = Ok rd → reader_view holds id rd →
  advanced holds (kr_control r) id rd c' →
  ring_state ({[(id, kdata_next (reader_rhead rd))]} ∪ (holds ∖ {[(id, reader_rhead rd)]}))
    (KdataRing c' (kr_page r)).
Proof.
  intros [I Q P] E V A. split; [apply (ad_inv _ _ _ _ _ A)| |done].
  intros i s [[-> ->]|[Hs Hne]%holds_remove]%holds_add; cbn [kr_control].
  - destruct (advanced_self _ _ _ _ _ A E) as (rd' & E' & ? & He & _).
    exists rd'. rewrite He. done.
  - destruct (decide (i = id)) as [->|Hi]; [exfalso; apply V in Hs; tauto|].
    destruct (Q i s Hs) as (r0 & E0 & Hr & He).
    destruct (aget_eqv _ _ i r0 (ad_readers _ _ _ _ _ A)) as (r' & E' & Hr' & He' & _).
    { rewrite aget_insert_ne; [done| |done]. pose proof (aget_Ok_range _ _ _ E). lia. }
    exists r'. by rewrite Hr', He'.
Qed.

(** ** Reading one page *)

Lemma next_generic_ok holds u m ctrl i r rd fuel :
  kdata_select_ctrl u m = Ok ctrl → maps_ring u ctrl i → aget m i = Ok r →
  ring_state holds r → aget (reader (kr_control r)) (u_reader_id u) = Ok rd →
  reader_view holds (u_reader_id u) rd →
  ∃ c', kdata_next_generic (S fuel) u m =
      Ok (PagePtr i (kdata_next (reader_rhead rd)), <[Z.to_nat i := KdataRing c' (kr_page r)]> m) ∧
    advanced holds (kr_control r) (u_reader_id u) rd c'.
Proof.
  intros Hsel Hu E S Er V.
  destruct (next_control_ok holds _ _ rd fuel (rs_inv _ _ S) Er V) as (c' & Ec & A).
  exists c'. split; [|done]. unfold kdata_next_generic. step_with Hsel.
  erewrite user_ring_ok by done. rewrite bind_Ok. step_with Ec.
  erewrite put_control_ok by done. rewrite bind_Ok. by rewrite (proj2 Hu), bind_Ok.
Qed.

(** Queues do not see the change of another reader's state. *)
Lemma reader_queue_other holds r id rd c' i :
  advanced holds (kr_control r) id rd c' → aget (reader (kr_control r)) id = Ok rd →
  ring_inv holds None (kr_control r) →
  i ≠ id → reader_queue (KdataRing c' (kr_page r)) i = reader_queue r i.
Proof.
  intros A E I Hi. unfold reader_queue. cbn [kr_control].
  assert (∀ rh, queue_from (KdataRing c' (kr_page r)) rh = queue_from r rh) as Hq.
  { intros rh. unfold queue_from, lag. cbn [kr_control kr_page]. by rewrite (ad_head _ _ _ _ _ A). }
  destruct (aget (reader c') i) as [r'| |] eqn:E'.
  - destruct (advanced_other _ _ _ _ _ _ _ A E Hi E') as (r0 & -> & -> & _). apply Hq.
  - destruct (aget (reader (kr_control r)) i) as [r0| |] eqn:E0; try done.
    pose proof (aget_Ok_range _ _ _ E0) as H. rewrite (ri_nreader _ _ _ I) in H.
    destruct (ring_inv_reader_at _ _ _ i (ad_inv _ _ _ _ _ A) H) as (? & X & _). congruence.
  - destruct (aget (reader (kr_control r)) i) as [r0| |] eqn:E0; try done.
    pose proof (aget_Ok_range _ _ _ E0) as H. rewrite (ri_nreader _ _ _ I) in H.
    destruct (ring_inv_reader_at _ _ _ i (ad_inv _ _ _ _ _ A) H) as (? & X & _). congruence.
Qed.

(** The state in which reader [id] is about to pop [pg]. *)
Lemma pop_page holds u m ctrl i r rd pg q fuel :
  kdata_select_ctrl u m = Ok ctrl → maps_ring u ctrl i → aget m i = Ok r →
  ring_state holds r → aget (reader (kr_control r)) (u_reader_id u) = Ok rd →
  reader_view holds (u_reader_id u) rd → reader_queue r (u_reader_id u) = pg :: q →
  ∃ r', kdata_next_generic (S fuel) u m =
      Ok (PagePtr i (kdata_next (reader_rhead rd)), <[Z.to_nat i := r']> m) ∧
    aget (kr_page r') (kdata_next (reader_rhead rd)) = Ok pg ∧
    reader_queue r' (u_reader_id u) = q ∧
    (∀ id, id ≠ u_reader_id u → reader_queue r' id = reader_queue r id) ∧
    kr_page r' = kr_page r ∧
    (∀ id ro, id ≠ u_reader_id u → aget (reader (kr_control r)) id = Ok ro →
      ∃ ro', aget (reader (kr_control r')) id = Ok ro' ∧ rd_eqv ro ro') ∧
    ∃ rd', aget (reader (kr_control r')) (u_reader_id u) = Ok rd' ∧
      let holds' := {[(u_reader_id u, kdata_next (reader_rhead rd))]} ∪
                    (holds ∖ {[(u_reader_id u, reader_rhead rd)]}) in
      ring_state holds' r' ∧ reader_view holds' (u_reader_id u) rd'.
Proof.
  intros Hsel Hu E S Er V Hq.
  destruct (next_generic_ok holds u m ctrl i r rd fuel Hsel Hu E S Er V) as (c' & En & A).
  exists (KdataRing c' (kr_page r)). split; [done|].
  pose proof (ri_whead _ _ _ (rs_inv _ _ S)) as Hw.
  destruct (advanced_self _ _ _ _ _ A Er) as (rd' & Er' & Hr' & He' & _).
  unfold reader_queue in Hq. rewrite Er in Hq.
  assert (0 ≤ reader_rhead rd < KDATA_NPAGES) as Hr.
  { apply aget_Ok in Er as [_ Er]. by destruct (Forall_lookup_1 _ _ _ _ (ri_readers _ _ _ (rs_inv _ _ S)) Er). }
  destruct (queue_from_pop r (reader_rhead rd) Hw (rs_pages _ _ S) Hr) as (pg' & Epg & Eq).
  { intros X. apply (lag_0 _ _ Hw Hr) in X. unfold queue_from in Hq. by rewrite X in Hq. }
  rewrite Eq in Hq. injection Hq as -> <-. split; [done|].
  split; [|split; [|split; [done|split]]].
  - unfold reader_queue. cbn [kr_control]. rewrite Er', Hr'.
    unfold queue_from, lag. cbn [kr_control kr_page]. by rewrite (ad_head _ _ _ _ _ A).
  - intros id Hid. by eapply reader_queue_other; [..|apply (rs_inv _ _ S)|].
  - intros id ro Hid Eo. apply (aget_eqv _ _ _ _ (ad_readers _ _ _ _ _ A)).
    rewrite aget_insert_ne; [done| |done]. pose proof (aget_Ok_range _ _ _ Er). lia.
  - exists rd'. split; [done|]. cbn zeta. split; [by apply advanced_state|].
    intros s. rewrite holds_add, holds_remove, Hr', He'.
    split; [|intros [_ ->]; by left].
    intros [[_ ->]|[Hh Hn]]; [done|]. destruct Hn. split; [done|]. by apply V.
Qed.

(** A publication as each reader sees it. *)
Lemma published_queue holds r n F r' id rd :
  published holds r n F r' → ring_state holds r → aget (reader (kr_control r)) id = Ok rd →
  lag (kr_control r) (reader_rhead rd) + Z.of_nat n + 1 < KDATA_NPAGES →
  let w := head_whead (head (kr_control r)) in
  ∃ pg, page_ok pg ∧ reader_queue r' id =
    reader_queue r id ++
    omap (λ j, kr_page r !! Z.to_nat (cyc w j)) (seqZ 1 (Z.of_nat n)) ++ [F pg].
Proof.
  intros Pub [I Q P] Er Hlag w. unfold reader_queue.
  rewrite Er, (pub_readers _ _ _ _ _ Pub _ _ Er). cbn [set_skips reader_rhead].
  assert (0 ≤ reader_rhead rd < KDATA_NPAGES) as Hr.
  { apply aget_Ok in Er as [_ Er]. by destruct (Forall_lookup_1 _ _ _ _ (ri_readers _ _ _ I) Er). }
  destruct (queue_from_publish holds r n F r' _ Pub I P Hr Hlag) as (pg & Epg & Eq).
  exists pg. split; [|done]. destruct P as [_ P]. by eapply Forall_lookup_1.
Qed.

(** ** What the fillers leave in the page *)

Lemma is_byte_stored pg o bs :
  page_ok pg → Forall is_byte bs → (o + length bs ≤ length pg)%nat → page_ok (stored pg o bs).
Proof.
  intros [L F] Fb Hl. split; [by rewrite stored_length|]. unfold stored.
  rewrite !Forall_app. split; [by apply Forall_take|]. split; [done|by apply Forall_drop].
Qed.

Definition plain_page (data : list Z) (len : Z) (pg : kring_page) : kring_page :=
  stored (stored pg 0 (le_bytes 4 len)) sizeof_plain_header (take (Z.to_nat len) data).

Definition packet_page (dir len : Z) (bs : list Z) (pg : kring_page) : kring_page :=
  stored (stored (stored pg 0 (le_bytes 4 len)) 4 (le_bytes 1 dir)) sizeof_packet_header bs.

Definition decrypted_page (id type : Z) (host : option (list Z)) (data : list Z) (len : Z)
    (pg : kring_page) : kring_page :=
  let pg := stored (stored (stored pg 0 (le_bytes 4 len)) 8 (le_bytes 8 id)) 16 (le_bytes 1 type) in
  let pg := match host with
            | None => stored pg 17 [0]
            | Some h => stored (stored pg 17 (strncpy h 63)) (17 + 62) [0]
            end in
  stored pg sizeof_decrypted_header (take (Z.to_nat len) data).

(** Side conditions of a store: lengths of what is stored and of the page. *)
Ltac fits := repeat first [rewrite stored_length | rewrite le_bytes_length |
  rewrite strncpy_length | rewrite length_take | progress cbn [length]];
  unfold page_ok, kdata_plain_max_data, kdata_packet_max_data, kdata_decrypted_max_data in *;
  unfold sizeof_plain_header, sizeof_packet_header, sizeof_decrypted_header, KRING_PAGE_SIZE in *;
  lia.

Lemma buf_prefix_ok data len :
  0 ≤ len ≤ Z.of_nat (length data) → buf_prefix data len = Ok (take (Z.to_nat len) data).
Proof. intros. unfold buf_prefix. by rewrite decide_True. Qed.

Lemma fill_plain_fills data len :
  0 ≤ len ≤ kdata_plain_max_data → len ≤ Z.of_nat (length data) →
  fills (fill_plain data len) (plain_page data len).
Proof.
  intros H1 H2 m i s r pg E Ep [L _]. unfold fill_plain, plain_page.
  erewrite page_store_ok by (done || fits). rewrite bind_Ok.
  rewrite buf_prefix_ok, bind_Ok by lia.
  erewrite page_store_again by (done || fits). done.
Qed.

Lemma fill_decrypted_fills id type host data len :
  0 ≤ len ≤ kdata_decrypted_max_data → len ≤ Z.of_nat (length data) →
  fills (fill_decrypted id type host data len) (decrypted_page id type host data len).
Proof.
  intros H1 H2 m i s r pg E Ep [L _]. unfold fill_decrypted, decrypted_page.
  erewrite page_store_ok by (done || fits). rewrite bind_Ok.
  do 2 (erewrite page_store_again by (done || fits); rewrite bind_Ok).
  rewrite buf_prefix_ok by lia.
  destruct host as [h|];
    repeat (erewrite page_store_again by (done || fits); rewrite ?bind_Ok); done.
Qed.

Lemma fill_packet_fills {skb} (copy : skb → Z → Z → list Z) dir s offset write len :
  Z.of_nat (length (copy s offset write)) ≤ kdata_packet_max_data →
  fills (fill_packet copy dir s offset write len) (packet_page dir len (copy s offset write)).
Proof.
  intros H1 m i t r pg E Ep [L _]. unfold fill_packet, packet_page.
  erewrite page_store_ok by (done || fits). rewrite bind_Ok.
  erewrite page_store_again by (done || fits). rewrite bind_Ok.
  erewrite page_store_again by (done || fits). done.
Qed.

Lemma byte_0 : is_byte 0.
Proof. unfold is_byte. lia. Qed.

Lemma strncpy_bytes s n : Forall is_byte s → Forall is_byte (strncpy s n).
Proof.
  intros F. unfold strncpy. apply Forall_app. split.
  - apply Forall_take. induction F; cbn; [constructor|].
    destruct (Z.eqb_spec x 0); by constructor.
  - apply Forall_replicate, byte_0.
Qed.

#[export] Hint Resolve le_bytes_byte byte_0 strncpy_bytes Forall_take : netp.

Ltac solve_page := repeat first [apply is_byte_stored | apply Forall_take | apply le_bytes_byte |
  apply strncpy_bytes | apply Forall_cons; split | apply Forall_nil_2 | apply byte_0 | done | fits].

Lemma plain_page_ok data len pg :
  0 ≤ len ≤ kdata_plain_max_data → Forall is_byte data → page_ok pg →
  page_ok (plain_page data len pg).
Proof. intros Hl Hd Hp. pose proof (proj1 Hp). unfold plain_page. solve_page. Qed.

Lemma packet_page_ok dir len bs pg :
  Z.of_nat (length bs) ≤ kdata_packet_max_data → Forall is_byte bs → page_ok pg →
  page_ok (packet_page dir len bs pg).
Proof. intros Hl Hd Hp. pose proof (proj1 Hp). unfold packet_page. solve_page. Qed.

Lemma decrypted_page_ok id type host data len pg :
  0 ≤ len ≤ kdata_decrypted_max_data → Forall is_byte data →
  (∀ h, host = Some h → Forall is_byte h) → page_ok pg →
  page_ok (decrypted_page id type host data len pg).
Proof.
  intros Hl Hd Hh Hp. pose proof (proj1 Hp). unfold decrypted_page.
  destruct host as [h|]; [specialize (Hh h eq_refl)|]; solve_page.
Qed.

(** ** Reading back what was stored *)

Lemma load_stored_eq pg o bs n :
  (o + length bs ≤ length pg)%nat → n = length bs → mem_load (stored pg o bs) o n = Ok bs.
Proof. intros H ->. eapply mem_load_store_eq. by apply stored_store. Qed.

Lemma load_stored_before pg o bs p n :
  (o + length bs ≤ length pg)%nat → (p + n ≤ o)%nat →
  mem_load (stored pg o bs) p n = mem_load pg p n.
Proof. intros H Hp. eapply mem_load_store_before; [by apply stored_store|done]. Qed.

Lemma load_stored_after pg o bs p n :
  (o + length bs ≤ length pg)%nat → (o + length bs ≤ p)%nat →
  mem_load (stored pg o bs) p n = mem_load pg p n.
Proof. intros H Hp. eapply mem_load_store_after; [by apply stored_store|done]. Qed.

(** Steps back through the stores to the one that wrote the bytes loaded. *)
Ltac load_back := repeat first
  [ rewrite load_stored_eq by fits
  | rewrite load_stored_before by fits
  | rewrite load_stored_after by fits ].

Lemma i32_le_val len : - 2 ^ 31 ≤ len < 2 ^ 31 → i32 (le_val (le_bytes 4 len)) = len.
Proof.
  intros H. rewrite le_val_bytes. change (8 * Z.of_nat 4) with 32. unfold wraps.
  rewrite Zplus_mod_idemp_l. rewrite Z.mod_small; lia.
Qed.

Lemma i64_le_val v : - 2 ^ 63 ≤ v < 2 ^ 63 → i64 (le_val (le_bytes 8 v)) = v.
Proof.
  intros H. rewrite le_val_bytes. change (8 * Z.of_nat 8) with 64. unfold wraps.
  rewrite Zplus_mod_idemp_l. rewrite Z.mod_small; lia.
Qed.

Lemma i8_le_val v : i8 (le_val (le_bytes 1 v)) = i8 v.
Proof.
  rewrite le_val_bytes. change (8 * Z.of_nat 1) with 8. unfold wraps.
  by rewrite Zplus_mod_idemp_l.
Qed.

(** The message in a page, as [kdata_next_plain] and its caller read it. *)
Definition plain_of (pg : kring_page) : res (list Z) :=
  bs ← mem_load pg 0 4;
  mem_load pg sizeof_plain_header (Z.to_nat (i32 (le_val bs))).

(** As [kdata_next_packet]: length, direction and the captured bytes. *)
Definition packet_of (pg : kring_page) : res (Z * Z * list Z) :=
  bs ← mem_load pg 0 4;
  let len := i32 (le_val bs) in
  ds ← mem_load pg 4 1;
  let caplen := if len <=? kdata_packet_max_data then len else kdata_packet_max_data in
  bytes ← mem_load pg sizeof_packet_header (Z.to_nat caplen);
  Ok (len, i8 (le_val ds), bytes).

(** As [kdata_next_decrypted]: id, type, host as a C string, and the bytes. *)
Definition decrypted_of (pg : kring_page) : res (Z * Z * list Z * list Z) :=
  bs ← mem_load pg 0 4;
  ids ← mem_load pg 8 8;
  ts ← mem_load pg 16 1;
  hs ← mem_load pg 17 63;
  bytes ← mem_load pg sizeof_decrypted_header (Z.to_nat (i32 (le_val bs)));
  Ok (i64 (le_val ids), u8 (i8 (le_val ts)), cstr hs, bytes).

Lemma plain_of_page data len pg :
  0 ≤ len ≤ kdata_plain_max_data → len ≤ Z.of_nat (length data) → page_ok pg →
  plain_of (plain_page data len pg) = Ok (take (Z.to_nat len) data).
Proof.
  intros Hl Hd [L _]. unfold plain_of, plain_page. load_back. rewrite bind_Ok.
  rewrite i32_le_val by fits. load_back. done.
Qed.

Lemma packet_of_page dir len bs pg :
  0 ≤ len < 2 ^ 31 → Z.of_nat (length bs) = Z.min len kdata_packet_max_data → page_ok pg →
  packet_of (packet_page dir len bs pg) = Ok (len, i8 dir, bs).
Proof.
  intros Hl Hd [L _]. unfold packet_of, packet_page. load_back. rewrite bind_Ok.
  rewrite i32_le_val by lia. load_back. rewrite bind_Ok, i8_le_val.
  destruct (Z.leb_spec len kdata_packet_max_data); load_back; done.
Qed.

(** Overwriting the last byte of what was just stored. *)
Lemma stored_last pg o bs k x :
  (o + length bs ≤ length pg)%nat → length bs = S k →
  stored (stored pg o bs) (o + k) [x] = stored pg o (take k bs ++ [x]).
Proof.
  intros H Hk. unfold stored.
  assert (length (take k bs ++ [x]) = length bs) as -> by
    (rewrite length_app, length_take; cbn; lia).
  rewrite (take_app_ge (take o pg)) by (rewrite length_take; lia).
  rewrite (drop_app_ge (take o pg)) by (rewrite length_take; cbn; lia).
  rewrite length_take. cbn [length].
  replace (o + k - o `min` length pg)%nat with k by lia.
  replace (o + k + 1 - o `min` length pg)%nat with (length bs) by lia.
  rewrite (take_app_le bs), (drop_app_length bs) by lia.
  by rewrite <- !app_assoc.
Qed.

(** The host name a reader sees: cut to 62 characters. *)
Definition host_seen (host : option (list Z)) : list Z :=
  match host with Some h => take 62 (cstr h) | None => [] end.

Lemma cstr_host h : ∃ t z, (take 62 (strncpy h 63) ++ [0] = t ++ (0 :: z)) ∧ (0 ∉ t) ∧
  t = take 62 (cstr h).
Proof.
  unfold strncpy. pose proof (cstr_no_nul h) as N.
  destruct (le_lt_dec 62 (length (cstr h))) as [L|L].
  - rewrite take_app_le by (rewrite length_take; lia). rewrite take_take.
    eexists _, []. split_and!; [done| |done].
    intros (i & E & _)%elem_of_take. by apply N, (list_elem_of_lookup_2 _ _ _ E).
  - rewrite (take_ge (cstr h) 63), (take_ge (cstr h) 62) by lia.
    rewrite take_app_ge by lia. rewrite take_replicate.
    replace ((62 - length (cstr h)) `min` (63 - length (cstr h)))%nat
      with (S (61 - length (cstr h))) by lia.
    cbn [replicate]. rewrite <- app_assoc. cbn [app]. eauto.
Qed.

Lemma load_stored_more pg o bs n :
  (o + n ≤ length pg)%nat → (length bs ≤ n)%nat →
  ∃ rest, mem_load (stored pg o bs) o n = Ok (bs ++ rest).
Proof.
  intros H Hn. exists (take (n - length bs) (drop (o + length bs) pg)).
  unfold mem_load. rewrite decide_True by (rewrite stored_length; lia). f_equal.
  unfold stored. rewrite drop_app_ge by (rewrite length_take; lia).
  rewrite length_take. replace (o - o `min` length pg)%nat with 0%nat by lia.
  by rewrite drop_0, take_app_ge by lia.
Qed.

(** The host field as [kdata_write_decrypted] leaves it. *)
Definition host_field (host : option (list Z)) : list Z :=
  match host with Some h => take 62 (strncpy h 63) ++ [0] | None => [0] end.

Lemma host_field_length host : (0 < length (host_field host) ≤ 63)%nat.
Proof.
  destruct host; cbn; [rewrite length_app, length_take, strncpy_length; cbn|]; lia.
Qed.

Lemma host_field_cstr host rest : cstr (host_field host ++ rest) = host_seen host.
Proof.
  destruct host as [h|]; cbn [host_field host_seen]; [|done].
  destruct (cstr_host h) as (t & z & -> & N & <-). rewrite <- app_assoc. by apply cstr_app_nul.
Qed.

Lemma decrypted_page_eq id type host data len pg :
  page_ok pg →
  decrypted_page id type host data len pg =
  stored (stored (stored (stored (stored pg 0 (le_bytes 4 len)) 8 (le_bytes 8 id))
    16 (le_bytes 1 type)) 17 (host_field host)) sizeof_decrypted_header (take (Z.to_nat len) data).
Proof.
  intros [L _]. unfold decrypted_page, host_field. destruct host as [h|]; [|done].
  by rewrite stored_last by fits.
Qed.

Lemma u8_i8 x : 0 ≤ x < 256 → u8 (i8 x) = x.
Proof.
  intros H. unfold wraps, wrapu. change (2 ^ (8 - 1)) with 128. change (2 ^ 8) with 256.
  rewrite Zminus_mod_idemp_l. replace (x + 128 - 128) with x by lia. by apply Z.mod_small.
Qed.

Lemma decrypted_of_page id type host data len pg :
  0 ≤ len ≤ kdata_decrypted_max_data → len ≤ Z.of_nat (length data) → page_ok pg →
  - 2 ^ 63 ≤ id < 2 ^ 63 → 0 ≤ type < 256 →
  decrypted_of (decrypted_page id type host data len pg) =
    Ok (id, type, host_seen host, take (Z.to_nat len) data).
Proof.
  intros Hl Hd P Hid Ht. rewrite decrypted_page_eq by done. destruct P as [L _].
  pose proof (host_field_length host) as LH. unfold decrypted_of.
  set (P := stored _ sizeof_decrypted_header _).
  assert (mem_load P 0 4 = Ok (le_bytes 4 len)) as -> by (subst P; by load_back).
  assert (mem_load P 8 8 = Ok (le_bytes 8 id)) as -> by (subst P; by load_back).
  assert (mem_load P 16 1 = Ok (le_bytes 1 type)) as -> by (subst P; by load_back).
  assert (∃ rest, mem_load P 17 63 = Ok (host_field host ++ rest)) as [rest ->].
  { subst P. rewrite load_stored_before by fits. apply load_stored_more; fits. }
  rewrite !bind_Ok, i32_le_val by fits. subst P. load_back. rewrite bind_Ok.
  by rewrite i64_le_val, i8_le_val, u8_i8, host_field_cstr by lia.
Qed.
