(* ===== verification/KDataSpec.v ===== *)
(** * The data ring against its specification

    The specification is a broadcast queue: a map from the readers that have
    entered to the pages each has still to read.  Publishing appends to every
    queue, reading pops one, entering adds an empty one.  [rep] relates a ring to
    such a map; the operations of kdata.h and of the writers preserve it as long
    as no reader falls 2047 pages behind, which is when writers start to skip.
    The last part says what happens then. *)

From S2P Require Import Prelude KrDep KData KDataRing KDataIO KDataQueue.

Abbreviation queues A := (gmap Z (list A)).

(** Ring [r] holds, for every reader entered, the pages [q] says. *)
Record rep (q : queues kring_page) (holds : gset (Z * Z)) (r : kdata_ring) : Prop := {
  rep_state : ring_state holds r;
  rep_queue : ∀ id ps, q !! id = Some ps →
    ∃ rd, aget (reader (kr_control r)) id = Ok rd ∧ reader_view holds id rd ∧
          reader_queue r id = ps;
  rep_holds : ∀ id s, (id, s) ∈ holds → is_Some (q !! id);
}.

(** No reader is [NPAGES - k] pages behind: [k] more writes do not reach the
    page any reader is on. *)
Definition room {A} (q : queues A) (k : Z) : Prop :=
  ∀ id ps, q !! id = Some ps → Z.of_nat (length ps) + k < KDATA_NPAGES.

#[global] Instance room_dec {A} (q : queues A) k : Decision (room q k).
Proof.
  destruct (decide (map_Forall (λ _ ps, Z.of_nat (length ps) + k < KDATA_NPAGES) q)) as [H|H];
    [left|right]; [exact H|]. intros X. apply H. exact X.
Defined.

(** ** Lengths *)

Lemma queue_from_length r rh :
  pages_ok r → Z.of_nat (length (queue_from r rh)) = lag (kr_control r) rh.
Proof.
  intros P. pose proof (lag_range (kr_control r) rh) as L. unfold queue_from.
  assert (∀ k : Z, ∀ n, length (omap (λ j, kr_page r !! Z.to_nat (cyc rh j)) (seqZ k (Z.of_nat n))) = n) as H.
  { intros k n. revert k. induction n as [|n IH]; intros k; [done|].
    rewrite seqZ_cons by lia. cbn [omap list_omap].
    destruct (pages_ok_at r (cyc rh k) P (cyc_range _ _)) as (pg & [_ ->]%aget_Ok & _).
    cbn [length]. f_equal. replace (Z.pred (Z.of_nat (S n))) with (Z.of_nat n) by lia. apply IH. }
  rewrite <- (Z2Nat.id (lag _ _)) by lia. by rewrite H.
Qed.

Lemma rep_reader q holds r id ps :
  rep q holds r → q !! id = Some ps →
  ∃ rd, aget (reader (kr_control r)) id = Ok rd ∧ reader_view holds id rd ∧
        reader_queue r id = ps ∧ Z.of_nat (length ps) = lag (kr_control r) (reader_rhead rd) ∧
        0 ≤ reader_rhead rd < KDATA_NPAGES.
Proof.
  intros [S Q _] E. destruct (Q _ _ E) as (rd & Er & V & Eq). exists rd.
  split_and!; [done|done|done|..].
  - rewrite <- Eq. unfold reader_queue. rewrite Er. apply queue_from_length, S.
  - apply aget_Ok in Er as [_ Er]. eapply Forall_lookup_1 in Er; [|apply (rs_inv _ _ S)]. apply Er.
  - apply aget_Ok in Er as [_ Er]. eapply Forall_lookup_1 in Er; [|apply (rs_inv _ _ S)]. apply Er.
Qed.

(** With room for one more page the next slot is free. *)
Lemma room_free q holds r :
  rep q holds r → room q 1 → ¬ slot_held holds (cyc (head_whead (head (kr_control r))) 1).
Proof.
  intros R Hroom. rewrite slot_held_iff. intros [id Hs].
  destruct (rep_holds _ _ _ R _ _ Hs) as [ps E].
  destruct (rep_reader _ _ _ _ _ R E) as (rd & Er & V & _ & L & Hr).
  apply V in Hs as [_ Es]. specialize (Hroom _ _ E).
  pose proof (ri_whead _ _ _ (rs_inv _ _ (rep_state _ _ _ R))) as Hw.
  pose proof (lag_range (kr_control r) (reader_rhead rd)).
  assert (cyc (reader_rhead rd) (lag (kr_control r) (reader_rhead rd) + 1) = cyc (reader_rhead rd) 0) as X.
  { rewrite <- cyc_cyc, whead_lag, cyc_0 by done. done. }
  apply cyc_inj in X; lia.
Qed.

Lemma published_no_skip q holds r n F r' :
  rep q holds r → room q 1 → published holds r n F r' → n = 0%nat.
Proof.
  intros R Hroom P. destruct n as [|n]; [done|].
  destruct (room_free _ _ _ R Hroom). apply (pub_passed _ _ _ _ _ P). lia.
Qed.

(** ** The operations preserve the representation *)

(** What follows a complete write. *)
Lemma write_then {A} fuel u m body (k : kdata_mem → res A) m' :
  ('(h, m) ← kdata_write_FIRST fuel u m; m ← body h m; kdata_write_SECOND u m) = Ok m' →
  ('(h, m) ← kdata_write_FIRST fuel u m; m ← body h m; m ← kdata_write_SECOND u m; k m) = k m'.
Proof.
  intros H. destruct (kdata_write_FIRST fuel u m) as [[h m1]| |]; [|done|done]. cbn in H |- *.
  destruct (body h m1) as [m2| |]; [|done|done]. cbn in H |- *. by rewrite H.
Qed.

(** A complete write appends one page to every queue. *)
Lemma rep_write q holds u m i r fuel body F :
  maps_ring u 0 i → aget m i = Ok r → rep q holds r → room q 1 → (6 < fuel)%nat →
  fills body F → (∀ pg, page_ok pg → page_ok (F pg)) →
  ∃ r' pg, ('(h, m) ← kdata_write_FIRST fuel u m;
            m ← body h m;
            kdata_write_SECOND u m) = Ok (<[Z.to_nat i := r']> m) ∧
    page_ok pg ∧ rep ((λ ps, ps ++ [F pg]) <$> q) holds r' ∧
    head_produced (head (kr_control r')) = head_produced (head (kr_control r)).
Proof.
  intros Hu E R Hroom Hf HF Hpg. pose proof (rep_state _ _ _ R) as S.
  destruct (ring_state_size _ _ S) as [Hs1 Hs2].
  destruct (write_published holds u m i r fuel body F Hu E (rs_inv _ _ S) (rs_pages _ _ S)
    Hs2 ltac:(lia) HF) as (n & r' & Ew & P & _).
  pose proof (published_no_skip _ _ _ _ _ _ R Hroom P) as ->.
  destruct (pub_page _ _ _ _ _ P) as (pg & Epg & EP).
  exists r', pg. split; [done|]. apply aget_Ok in Epg as [_ Epg].
  assert (page_ok pg) as Hok by (eapply Forall_lookup_1; [apply (rs_pages _ _ S)|done]).
  split; [done|]. split; [|apply (pub_produced _ _ _ _ _ P)].
  split; [by eapply published_state| |].
  - intros id ps'. rewrite lookup_fmap. destruct (q !! id) as [ps|] eqn:Eq; [|done].
    intros [= <-]. destruct (rep_reader _ _ _ _ _ R Eq) as (rd & Er & V & Eps & L & _).
    specialize (Hroom _ _ Eq).
    eexists. split; [by apply (pub_readers _ _ _ _ _ P)|]. split; [done|].
    unfold reader_queue in Eps |- *. rewrite Er in Eps.
    rewrite (pub_readers _ _ _ _ _ P _ _ Er). cbn [set_skips reader_rhead].
    assert (0 ≤ reader_rhead rd < KDATA_NPAGES) as Hr.
    { apply aget_Ok in Er as [_ Er]. by destruct (Forall_lookup_1 _ _ _ _ (ri_readers _ _ _ (rs_inv _ _ S)) Er). }
    destruct (queue_from_publish holds r 0 F r' _ P (rs_inv _ _ S) (rs_pages _ _ S) Hr)
      as (pg' & Epg' & ->); [lia|].
    rewrite (pub_whead _ _ _ _ _ P) in Epg. cbn [Z.of_nat] in *. rewrite Epg' in Epg.
    injection Epg as ->. by rewrite Eps, seqZ_nil by lia.
  - intros id s Hs. rewrite lookup_fmap. destruct (rep_holds _ _ _ R _ _ Hs) as [ps ->]. done.
Qed.

(** Another reader's move leaves a reader's view of its holds alone. *)
Lemma reader_view_other holds id rd rd' i s s' :
  reader_view holds id rd → rd_eqv rd rd' → id ≠ i →
  reader_view ({[(i, s')]} ∪ (holds ∖ {[(i, s)]})) id rd'.
Proof.
  intros V (E1 & E2 & _) Hi o. rewrite E1, E2, holds_add, holds_remove, <- (V o). naive_solver.
Qed.

(** Reading pops the queue of the reader, and hands out the page it held. *)
Lemma rep_next q holds u m ctrl i r fuel pg ps :
  kdata_select_ctrl u m = Ok ctrl → maps_ring u ctrl i → aget m i = Ok r →
  rep q holds r → q !! u_reader_id u = Some (pg :: ps) →
  ∃ r' s holds', kdata_next_generic (S fuel) u m = Ok (PagePtr i s, <[Z.to_nat i := r']> m) ∧
    aget (kr_page r') s = Ok pg ∧ (u_reader_id u, s) ∈ holds' ∧
    rep (<[u_reader_id u := ps]> q) holds' r'.
Proof.
  intros Hsel Hu E R Eq. destruct (rep_reader _ _ _ _ _ R Eq) as (rd & Er & V & Eps & _ & Hr).
  destruct (pop_page holds u m ctrl i r rd pg ps fuel Hsel Hu E (rep_state _ _ _ R) Er V Eps)
    as (r' & En & Epg & Eq1 & Eq2 & EP & Ho & rd' & Er' & S' & V').
  eexists r', _, _. split; [done|]. split; [done|].
  split; [apply elem_of_union_l; by apply elem_of_singleton_2|]. split; [done|..].
  - intros id ps'. destruct (decide (id = u_reader_id u)) as [->|Hid].
    + rewrite lookup_insert_eq. intros [= <-]. by exists rd'.
    + rewrite lookup_insert_ne by done. intros Eo.
      destruct (rep_reader _ _ _ _ _ R Eo) as (ro & Ero & Vo & Eqo & _).
      destruct (Ho _ _ Hid Ero) as (ro' & Ero' & Q). exists ro'. split; [done|].
      split; [by eapply reader_view_other|]. by rewrite Eq2.
  - intros id s. rewrite holds_add, holds_remove. destruct (decide (id = u_reader_id u)) as [->|Hid].
    + intros _. by rewrite lookup_insert_eq.
    + rewrite lookup_insert_ne by done. intros [[? _]|[Hs _]]; [done|]. by eapply rep_holds.
Qed.

(** Entering: the reader starts at the write head with nothing to read. *)
Lemma rep_enter q holds r id :
  rep q holds r → q !! id = None → 0 ≤ id < KDATA_READERS →
  ∃ c', kdata_prep_enter (kr_control r) id = Ok (0, c') ∧
    rep (<[id := []]> q) holds (KdataRing c' (kr_page r)).
Proof.
  intros R Eq Hid. destruct (rep_state _ _ _ R) as [I Q P].
  destruct (ring_inv_reader_at _ _ _ id I Hid) as (rd & Er & _).
  unfold kdata_prep_enter. rewrite (upd_reader_ok _ _ _ _ Er), bind_Ok. eexists. split; [done|].
  set (rd' := SharedReader _ _ _ _).
  set (c' := set_readers _ _). pose proof (ri_whead _ _ _ I) as Hw.
  pose proof (aget_Ok_range _ _ _ Er) as Hrange.
  assert (∀ j rh, queue_from (KdataRing c' (kr_page r)) rh = queue_from r rh ∧
    (j ≠ id → aget (reader c') j = aget (reader (kr_control r)) j)) as Hsame.
  { intros j rh. split; [done|]. intros Hj. subst c'. cbn [set_readers reader].
    apply aget_insert_ne; [lia|done]. }
  assert (∀ s, (id, s) ∉ holds) as Hnone.
  { intros s Hs. destruct (rep_holds _ _ _ R _ _ Hs) as [? X]. congruence. }
  assert (aget (reader c') id = Ok rd') as Er' by by apply aget_insert_eq.
  split; [split; cbn [kr_control]| |].
  - apply ring_inv_set_readers; [done|by rewrite length_insert|].
    apply Forall_insert; [apply I|]. split; cbn; [done|]. lia.
  - intros j s Hs. destruct (Q j s Hs) as (rj & Ej & X). exists rj.
    rewrite (proj2 (Hsame j 0)); [done|]. intros ->. by eapply Hnone.
  - done.
  - intros j ps. destruct (decide (j = id)) as [->|Hj].
    + rewrite lookup_insert_eq. intros [= <-]. exists rd'. split; [done|]. split.
      * intros s. cbn [rd' reader_entered]. split; [|tauto]. intros Hs. by destruct (Hnone s).
      * unfold reader_queue. cbn [kr_control]. rewrite Er'. unfold queue_from.
        replace (lag _ _) with 0; [done|]. symmetry. by apply lag_0.
    + rewrite lookup_insert_ne by done. intros Ej.
      destruct (rep_queue _ _ _ R _ _ Ej) as (rj & Erj & V & Eps). exists rj.
      unfold reader_queue in *. cbn [kr_control]. rewrite (proj2 (Hsame j 0)), Erj by done.
      rewrite Erj in Eps. done.
  - intros j s Hs. destruct (decide (j = id)) as [->|Hj]; [by rewrite lookup_insert_eq|].
    rewrite lookup_insert_ne by done. by eapply rep_holds.
Qed.

(** A ring as it is created, before any reader has entered. *)
Lemma rep_fresh : rep ∅ ∅ fresh_kdata_ring.
Proof.
  split; [split| |].
  - split; try done.
    + by apply Forall_replicate.
    + intros off d [_ E]%aget_Ok. cbn -[replicate] in E. apply lookup_replicate in E as [-> _].
      split; try done; intros; rewrite Z.bits_0; set_solver.
  - intros id s H. set_solver.
  - split; [done|]. apply Forall_replicate. split; [done|]. apply Forall_replicate. done.
  - intros id ps H. by rewrite lookup_empty in H.
  - intros id s H. set_solver.
Qed.

(** ** Whole runs with plain messages *)

(** The specification: a queue of messages per reader.  [None] where it makes no
    promise: a reader enters twice or reads past the end of its queue, a message
    does not fit a page, or some reader has fallen too far behind. *)
Module Broadcast.

Inductive op :=
  | Enter (id : Z)
  | Write (data : list Z)
  | Next (id : Z).

Definition fits_page (data : list Z) : Prop :=
  Z.of_nat (length data) ≤ kdata_plain_max_data ∧ Forall is_byte data.

#[global] Instance is_byte_dec b : Decision (is_byte b).
Proof. unfold is_byte. apply _. Defined.

#[global] Instance fits_page_dec data : Decision (fits_page data).
Proof. unfold fits_page. apply _. Defined.

Definition step (q : queues (list Z)) (o : op) : option (queues (list Z) * list (list Z)) :=
  match o with
  | Enter id =>
      if decide (0 ≤ id < KDATA_READERS ∧ q !! id = None) then Some (<[id := []]> q, []) else None
  | Write data =>
      if decide (fits_page data ∧ room q 1) then Some ((λ ps, ps ++ [data]) <$> q, []) else None
  | Next id =>
      match q !! id with
      | Some (data :: ps) => Some (<[id := ps]> q, [data])
      | _ => None
      end
  end.

Fixpoint run (q : queues (list Z)) (os : list op) : option (queues (list Z) * list (list Z)) :=
  match os with
  | [] => Some (q, [])
  | o :: os =>
      '(q, out) ← step q o;
      '(q, outs) ← run q os;
      Some (q, out ++ outs)
  end.

End Broadcast.

(** The implementation, run through a writer's handle and a handle per reader. *)
Section Run.
Context (W : kring_user) (R : Z → kring_user) (i : Z).

(** kdata_next_plain and the bytes it points to, as a client reads them. *)
Definition read_plain (u : kring_user) (m : kdata_mem) : res (list Z * kdata_mem) :=
  '(p, m) ← kdata_next_plain 1 u m;
  bs ← page_load m (fst (plain_bytes p)) (snd (plain_bytes p)) (Z.to_nat (plain_len p));
  Ok (bs, m).

Definition impl_step (m : kdata_mem) (o : Broadcast.op) : res (kdata_mem * list (list Z)) :=
  match o with
  | Broadcast.Enter id =>
      '(_, r) ← user_ring (R id) m 0;
      '(_, c) ← kdata_prep_enter (kr_control r) id;
      m ← put_control m i c;
      Ok (m, [])
  | Broadcast.Write data =>
      '(_, m) ← kdata_write_plain 7 W m data (Z.of_nat (length data));
      Ok (m, [])
  | Broadcast.Next id =>
      '(data, m) ← read_plain (R id) m;
      Ok (m, [data])
  end.

Fixpoint impl_run (m : kdata_mem) (os : list Broadcast.op) : res (kdata_mem * list (list Z)) :=
  match os with
  | [] => Ok (m, [])
  | o :: os =>
      '(m, out) ← impl_step m o;
      '(m, outs) ← impl_run m os;
      Ok (m, out ++ outs)
  end.

Hypothesis W_maps : maps_ring W 0 i.
Hypothesis R_maps : ∀ id, maps_ring (R id) 0 i.
Hypothesis R_id : ∀ id, u_reader_id (R id) = id.
Hypothesis R_one : ∀ id, u_ring_id (R id) ≠ KDATA_RING_ID_ALL.

(** Pages [pgs] carry the messages [ms]. *)
Definition carry (q : queues (list Z)) (qp : queues kring_page) : Prop :=
  ∀ id, option_Forall2 (Forall2 (λ data pg, plain_of pg = Ok data)) (q !! id) (qp !! id).

Definition mem_rep (q : queues (list Z)) (m : kdata_mem) : Prop :=
  ∃ r qp holds, aget m i = Ok r ∧ rep qp holds r ∧ carry q qp.

Lemma carry_room q qp k : carry q qp → room q k → room qp k.
Proof.
  intros C Hr id ps E. specialize (C id). rewrite E in C. inversion C as [ms ? F Em|]; subst.
  rewrite <- (Forall2_length _ _ _ F). eauto.
Qed.

Lemma carry_insert q qp id ms ps :
  carry q qp → Forall2 (λ data pg, plain_of pg = Ok data) ms ps →
  carry (<[id := ms]> q) (<[id := ps]> qp).
Proof.
  intros C F j. destruct (decide (j = id)) as [->|Hj].
  - rewrite !lookup_insert_eq. by constructor.
  - rewrite !lookup_insert_ne by done. apply C.
Qed.

Lemma carry_append q qp data pg :
  carry q qp → plain_of pg = Ok data →
  carry ((λ ms, ms ++ [data]) <$> q) ((λ ps, ps ++ [pg]) <$> qp).
Proof.
  intros C E j. rewrite !lookup_fmap. specialize (C j).
  inversion C; cbn; constructor. apply Forall2_app; [done|]. by repeat constructor.
Qed.

Lemma write_plain_ok q holds m r data :
  aget m i = Ok r → rep q holds r → room q 1 → Broadcast.fits_page data →
  ∃ r' pg, kdata_write_plain 7 W m data (Z.of_nat (length data)) = Ok (0, <[Z.to_nat i := r']> m) ∧
    plain_of pg = Ok data ∧ rep ((λ ps, ps ++ [pg]) <$> q) holds r'.
Proof.
  intros E Rp Hroom [Hl Hb].
  destruct (rep_write q holds W m i r 7 _ _ W_maps E Rp Hroom ltac:(lia)
    (fill_plain_fills data (Z.of_nat (length data)) ltac:(lia) ltac:(lia)))
    as (r' & pg & Ew & Hpg & R' & _).
  { intros pg. apply plain_page_ok; [lia|done]. }
  exists r', (plain_page data (Z.of_nat (length data)) pg). split_and!; [| |done].
  - unfold kdata_write_plain. destruct (Z.ltb_spec kdata_plain_max_data (Z.of_nat (length data))); [lia|].
    by rewrite (write_then _ _ _ _ _ _ Ew).
  - rewrite plain_of_page by (done || lia). by rewrite Nat2Z.id, take_ge.
Qed.

Lemma read_plain_ok q holds m r id pg ps data :
  aget m i = Ok r → rep q holds r → q !! id = Some (pg :: ps) → plain_of pg = Ok data →
  ∃ r' holds', read_plain (R id) m = Ok (data, <[Z.to_nat i := r']> m) ∧
    rep (<[id := ps]> q) holds' r'.
Proof.
  intros E Rp Eq Ed.
  assert (kdata_select_ctrl (R id) m = Ok 0) as Hsel.
  { unfold kdata_select_ctrl. destruct (Z.eqb_spec (u_ring_id (R id)) KDATA_RING_ID_ALL); [|done].
    by destruct (R_one id). }
  destruct (rep_next q holds (R id) m 0 i r 0 pg ps Hsel (R_maps id) E Rp) as (r' & s & holds' & En & Es & _ & R').
  { by rewrite R_id. }
  rewrite R_id in R'. exists r', holds'. split; [|done].
  unfold read_plain, kdata_next_plain. step_with En.
  assert (page_at (<[Z.to_nat i := r']> m) (PagePtr i s) = Ok pg) as Ep.
  { unfold page_at. cbn [pp_ring pp_off]. by step_with (aget_put _ _ _ r' E). }
  unfold plain_of in Ed. unfold load_int, page_load. step_with Ep.
  destruct (mem_load pg 0 4) as [bs| |] eqn:E4; [|done|done]. cbn in Ed |- *.
  step_with Ep. by rewrite Ed.
Qed.

Lemma impl_step_refines q m o q' out :
  mem_rep q m → Broadcast.step q o = Some (q', out) →
  ∃ m', impl_step m o = Ok (m', out) ∧ mem_rep q' m'.
Proof.
  intros (r & qp & holds & E & Rp & C) Hs. destruct o as [id|data|id]; cbn in Hs.
  - case_decide as H; [|done]. destruct H as [Hid Hn]. simplify_eq.
    assert (qp !! id = None) as Hn' by (specialize (C id); rewrite Hn in C; by inversion C).
    destruct (rep_enter _ _ _ id Rp Hn' Hid) as (c' & Ec & R').
    eexists. split.
    + cbn. erewrite user_ring_ok by done. rewrite bind_Ok. step_with Ec.
      erewrite put_control_ok by done. by rewrite bind_Ok.
    + eexists _, _, _. split; [by eapply aget_put|]. split; [done|]. by apply carry_insert.
  - case_decide as H; [|done]. destruct H as [Hf Hroom]. simplify_eq.
    destruct (write_plain_ok qp holds m r data E Rp (carry_room _ _ _ C Hroom) Hf)
      as (r' & pg & Ew & Epg & R').
    eexists. split; [cbn; by step_with Ew|]. eexists _, _, _.
    split; [by eapply aget_put|]. split; [done|]. by apply carry_append.
  - destruct (q !! id) as [[|data ms]|] eqn:Eq; simplify_eq.
    pose proof (C id) as Cid. rewrite Eq in Cid. inversion Cid as [? qs F Em Ep|]; subst.
    inversion F as [|? pg ? ps Hd F']; subst.
    destruct (read_plain_ok qp holds m r id pg ps data E Rp ltac:(done) Hd) as (r' & holds' & Er & R').
    eexists. split; [cbn; by step_with Er|]. eexists _, _, _.
    split; [by eapply aget_put|]. split; [done|]. by apply carry_insert.
Qed.

Lemma impl_run_refines os : ∀ q m q' outs,
  mem_rep q m → Broadcast.run q os = Some (q', outs) →
  ∃ m', impl_run m os = Ok (m', outs) ∧ mem_rep q' m'.
Proof.
  induction os as [|o os IH]; intros q m q' outs Hm Hr; cbn in Hr.
  - simplify_eq. by exists m.
  - destruct (Broadcast.step q o) as [[q1 out]|] eqn:Es; [|done]. cbn in Hr.
    destruct (Broadcast.run q1 os) as [[q2 outs']|] eqn:Er; [|done]. cbn in Hr. simplify_eq.
    destruct (impl_step_refines _ _ _ _ _ Hm Es) as (m1 & E1 & H1).
    destruct (IH _ _ _ _ H1 Er) as (m2 & E2 & H2).
    exists m2. split; [|done]. cbn. step_with E1. by step_with E2.
Qed.

End Run.

(** ** Writes in general, skipping included *)

(** What a write of page contents described by [content] does to ring [r]: the
    first slot after the write head that no reader holds receives the message,
    every held slot before it is passed over and counted against its holders,
    and no other page changes. *)
Record wrote {A} (content : kring_page → res A) (msg : A) (holds : gset (Z * Z))
    (r : kdata_ring) (n : nat) (r' : kdata_ring) : Prop := {
  wr_state : ring_state holds r';
  wr_whead : head_whead (head (kr_control r')) =
    cyc (head_whead (head (kr_control r))) (Z.of_nat n + 1);
  wr_free : ¬ slot_held holds (head_whead (head (kr_control r')));
  wr_passed : ∀ j, 1 ≤ j ≤ Z.of_nat n →
    slot_held holds (cyc (head_whead (head (kr_control r))) j);
  wr_page : ∃ pg, aget (kr_page r') (head_whead (head (kr_control r'))) = Ok pg ∧
    content pg = Ok msg;
  wr_others : ∀ s, s ≠ head_whead (head (kr_control r')) →
    aget (kr_page r') s = aget (kr_page r) s;
  wr_readers : ∀ id rd, aget (reader (kr_control r)) id = Ok rd →
    aget (reader (kr_control r')) id = Ok (set_skips rd (u64 (reader_skips rd +
      skip_count holds (kdata_next (head_whead (head (kr_control r)))) n id)));
}.

Lemma published_wrote {A} (content : kring_page → res A) msg holds r n F r' :
  ring_state holds r → published holds r n F r' →
  (∀ pg, page_ok pg → page_ok (F pg) ∧ content (F pg) = Ok msg) →
  wrote content msg holds r n r'.
Proof.
  intros S P HF. destruct (pub_page _ _ _ _ _ P) as (pg & Epg & EP).
  pose proof (aget_Ok_range _ _ _ Epg) as Hr.
  assert (page_ok pg) as Hok.
  { apply aget_Ok in Epg as [_ Epg]. eapply Forall_lookup_1; [apply (rs_pages _ _ S)|done]. }
  split; try apply P.
  - eapply published_state; [done|done|]. intros p Hp. by apply HF.
  - eexists. split; [|by apply HF]. rewrite EP. by apply aget_insert_eq.
  - intros s Hs. rewrite EP. apply aget_insert_ne; [lia|done].
Qed.

(** A write whose filler puts [msg] in the page. *)
Lemma write_wrote {A B} (content : kring_page → res A) msg holds u m i r fuel body F
    (k : kdata_mem → res B) :
  maps_ring u 0 i → aget m i = Ok r → ring_state holds r → (6 < fuel)%nat → fills body F →
  (∀ pg, page_ok pg → page_ok (F pg) ∧ content (F pg) = Ok msg) →
  ∃ n r', ('(h, m) ← kdata_write_FIRST fuel u m; m ← body h m; m ← kdata_write_SECOND u m; k m)
      = k (<[Z.to_nat i := r']> m) ∧ (n ≤ 6)%nat ∧ wrote content msg holds r n r' ∧
      head_produced (head (kr_control r')) = head_produced (head (kr_control r)).
Proof.
  intros Hu E S Hf HF Hc. destruct (ring_state_size _ _ S) as [Hs1 Hs2].
  destruct (write_published holds u m i r fuel body F Hu E (rs_inv _ _ S) (rs_pages _ _ S)
    Hs2 ltac:(lia) HF) as (n & r' & Ew & P & Hn).
  exists n, r'. split_and!; [by apply write_then|lia|by eapply published_wrote|apply P].
Qed.

(** ** Packets from the kernel *)

Lemma rep_set_produced q holds r v :
  rep q holds r →
  rep q holds (KdataRing (set_head (kr_control r) (set_produced (head (kr_control r)) v)) (kr_page r)).
Proof.
  intros [[I Q P] Hq Hh]. split; [split| |done]; cbn [kr_control kr_page]; [|done|done|done].
  by apply ring_inv_set_head; [|apply (ri_whead _ _ _ I)].
Qed.

Section Packets.
(** [skb_copy_bits] copies from the bytes of the buffer, which are [skb->len]
    many. *)
Context {skb : Type} (skb_len : skb → Z) (skb_copy_bits : skb → Z → Z → list Z).
Context (skb_bytes : skb → list Z).
Hypothesis skb_len_ok : ∀ s, skb_len s = Z.of_nat (length (skb_bytes s)).
Hypothesis skb_copy_ok : ∀ s o n, 0 ≤ o → 0 ≤ n → o + n ≤ skb_len s →
  skb_copy_bits s o n = take (Z.to_nat n) (drop (Z.to_nat o) (skb_bytes s)).

(** The pages [kdata_kwrite] makes of [bs]: each has what was left to send and
    the bytes that fit. *)
Fixpoint fragments (n : nat) (bs : list Z) : list (Z * list Z) :=
  match n, bs with
  | O, _ | _, [] => []
  | S n, _ => (Z.of_nat (length bs), take (Z.to_nat kdata_packet_max_data) bs) ::
              fragments n (drop (Z.to_nat kdata_packet_max_data) bs)
  end.

Lemma fragments_whole n : ∀ bs,
  Z.of_nat (length bs) ≤ Z.of_nat n * kdata_packet_max_data →
  concat (snd <$> fragments n bs) = bs.
Proof.
  induction n as [|n IH]; intros bs H.
  - destruct bs; [done|]. cbn [length] in H. lia.
  - destruct bs as [|b bs]; [done|]. cbn [fragments]. cbn [fmap list_fmap snd concat].
    rewrite IH; [apply take_drop|]. rewrite length_drop. 
    change (Z.to_nat kdata_packet_max_data) with 4088%nat. unfold kdata_packet_max_data in *.
    change (KRING_PAGE_SIZE - Z.of_nat sizeof_packet_header) with 4088 in *. lia.
Qed.

Context (kring : kring_kern) (i : Z).
Hypothesis kring_maps : maps_ring (kk_user kring) 0 i.
Hypothesis kring_ring : kk_ring_id kring = i.

Definition frag_content (dir : Z) (pg : kring_page) (f : Z * list Z) : Prop :=
  packet_of pg = Ok (f.1, i8 dir, f.2).

Lemma write_single_ok q holds m r dir s o n len :
  aget m i = Ok r → rep q holds r → room q 1 → Forall is_byte (skb_bytes s) →
  0 ≤ o → 0 ≤ n ≤ kdata_packet_max_data → o + n ≤ skb_len s → n = Z.min len kdata_packet_max_data →
  0 ≤ len < 2 ^ 31 →
  ∃ r' pg, kdata_write_single skb_copy_bits 7 kring m dir s o n len = Ok (<[Z.to_nat i := r']> m) ∧
    frag_content dir pg (len, take (Z.to_nat n) (drop (Z.to_nat o) (skb_bytes s))) ∧
    rep ((λ ps, ps ++ [pg]) <$> q) holds r' ∧
    head_produced (head (kr_control r')) = u64 (head_produced (head (kr_control r)) + 1).
Proof.
  intros E Rp Hroom Hby Ho Hn Hlen Hmin Hl.
  assert (Z.of_nat (length (skb_copy_bits s o n)) = n) as Lc.
  { rewrite skb_copy_ok, length_take, length_drop by lia. rewrite skb_len_ok in Hlen. lia. }
  assert (Forall is_byte (skb_copy_bits s o n)) as Fc.
  { rewrite skb_copy_ok by lia. by apply Forall_take, Forall_drop. }
  destruct (rep_write q holds (kk_user kring) m i r 7 _ _ kring_maps E Rp Hroom ltac:(lia)
    (fill_packet_fills skb_copy_bits dir s o n len ltac:(lia))) as (r' & pg & Ew & Hpg & R' & Hp).
  { intros pg Hpg. apply packet_page_ok; [lia|done|done]. }
  eexists _, (packet_page dir len (skb_copy_bits s o n) pg). split; [|split; [|split]].
  - unfold kdata_write_single. rewrite (write_then _ _ _ _ _ _ Ew), kring_ring.
    step_with (aget_put _ _ _ r' E). erewrite put_control_ok by (by eapply aget_put).
    by rewrite list_insert_insert_eq.
  - unfold frag_content. rewrite packet_of_page by (done || lia). by rewrite skb_copy_ok by lia.
  - by apply rep_set_produced.
  - cbn. by rewrite Hp.
Qed.

Lemma room_le {A} (q : queues A) k k' : k' ≤ k → room q k → room q k'.
Proof. intros H Hr id ps E. specialize (Hr _ _ E). lia. Qed.

Lemma room_append {A} (q : queues A) x k :
  room q (k + 1) → room ((λ ps, ps ++ [x]) <$> q) k.
Proof.
  intros Hr id ps'. rewrite lookup_fmap. destruct (q !! id) as [ps|] eqn:E; [|done].
  intros [= <-]. specialize (Hr _ _ E). rewrite length_app. cbn. lia.
Qed.

Lemma append_append {A} (q : queues A) x xs :
  (λ ps, ps ++ xs) <$> ((λ ps, ps ++ [x]) <$> q) = (λ ps, ps ++ x :: xs) <$> q.
Proof.
  rewrite <- map_fmap_compose. apply map_fmap_ext. intros id ps _. cbn.
  by rewrite <- app_assoc.
Qed.

Lemma fragments_cons n bs :
  bs ≠ [] → fragments (S n) bs =
    (Z.of_nat (length bs), take (Z.to_nat kdata_packet_max_data) bs) ::
    fragments n (drop (Z.to_nat kdata_packet_max_data) bs).
Proof. by destruct bs. Qed.

Lemma i32_small x : - 2 ^ 31 ≤ x < 2 ^ 31 → i32 x = x.
Proof. intros H. apply wraps_small; lia. Qed.

Lemma append_nil {A} (q : queues A) : (λ ps, ps ++ []) <$> q = q.
Proof.
  rewrite <- (map_fmap_id q) at 2. apply map_fmap_ext. intros id ps _. apply app_nil_r.
Qed.

(** What is left of the buffer at [o]. *)
Definition rest_of (s : skb) (o : Z) : list Z := drop (Z.to_nat o) (skb_bytes s).

Lemma rest_length s o : 0 ≤ o ≤ skb_len s → Z.of_nat (length (rest_of s o)) = skb_len s - o.
Proof. intros H. unfold rest_of. rewrite length_drop. pose proof (skb_len_ok s). lia. Qed.

Lemma rest_next s o w :
  0 ≤ o ≤ skb_len s → w = Z.min (skb_len s - o) kdata_packet_max_data →
  rest_of s (o + w) = drop (Z.to_nat kdata_packet_max_data) (rest_of s o) ∧
  take (Z.to_nat w) (rest_of s o) = take (Z.to_nat kdata_packet_max_data) (rest_of s o).
Proof.
  intros Ho Hw. pose proof (rest_length s o Ho) as L. pose proof (skb_len_ok s).
  assert (kdata_packet_max_data = 4088) as Hmax by done.
  unfold rest_of at 1 2. rewrite drop_drop.
  destruct (decide (skb_len s - o ≤ kdata_packet_max_data)).
  - rewrite !drop_ge, !take_ge by lia. done.
  - split; f_equal; lia.
Qed.

Lemma kwrite_loop_S n fuel m dir s o :
  kdata_kwrite_loop skb_len skb_copy_bits (S n) fuel kring m dir s o =
  let len := i32 (skb_len s - o) in
  if len <=? 0 then Ok m
  else
    let write := if kdata_packet_max_data <? len then kdata_packet_max_data else len in
    m ← kdata_write_single skb_copy_bits fuel kring m dir s o write len;
    kdata_kwrite_loop skb_len skb_copy_bits n fuel kring m dir s (i32 (o + write)).
Proof. done. Qed.

Lemma kwrite_loop_ok n : ∀ q holds m r dir s o,
  aget m i = Ok r → rep q holds r → Forall is_byte (skb_bytes s) → 0 ≤ o ≤ skb_len s → skb_len s < 2 ^ 30 →
  Z.of_nat (length (rest_of s o)) ≤ Z.of_nat n * kdata_packet_max_data →
  room q (Z.of_nat (length (fragments n (rest_of s o)))) →
  ∃ r' pgs, kdata_kwrite_loop skb_len skb_copy_bits (S n) 7 kring m dir s o =
      Ok (<[Z.to_nat i := r']> m) ∧
    Forall2 (frag_content dir) pgs (fragments n (rest_of s o)) ∧
    rep ((λ ps, ps ++ pgs) <$> q) holds r'.
Proof.
  assert (kdata_packet_max_data = 4088) as Hmax by done.
  induction n as [|n IH]; intros q holds m r dir s o E Rp Hby Ho Hs Hn Hroom;
    pose proof (rest_length s o Ho) as L; rewrite kwrite_loop_S; cbn zeta; rewrite i32_small by lia;
    destruct (Z.leb_spec (skb_len s - o) 0); try lia.
  1-2: exists r, []; rewrite (nil_length_inv (rest_of s o)) by lia;
    rewrite append_nil, list_insert_id by (by apply aget_Ok in E as [_ E]); by split_and!.
  assert (rest_of s o ≠ []) as Hbs by (intros X; rewrite X in L; cbn in L; lia).
  rewrite fragments_cons in Hroom |- * by done. cbn [length] in Hroom.
  set (w := if kdata_packet_max_data <? skb_len s - o then kdata_packet_max_data else skb_len s - o).
  assert (w = Z.min (skb_len s - o) kdata_packet_max_data) as Hw.
  { subst w. destruct (Z.ltb_spec kdata_packet_max_data (skb_len s - o)); lia. }
  clearbody w.
  destruct (write_single_ok q holds m r dir s o w (skb_len s - o) E Rp) as (r1 & pg & E1 & C1 & R1 & _);
    [eapply room_le; [|done]; lia|done|lia..|].
  rewrite E1, bind_Ok, i32_small by lia. destruct (rest_next s o w Ho Hw) as [Erest Etake].
  destruct (IH _ holds (<[Z.to_nat i := r1]> m) r1 dir s (o + w) (aget_put _ _ _ r1 E) R1)
    as (r2 & pgs & E2 & F2 & R2); [done|lia|done|..]; rewrite Erest in *.
  { rewrite length_drop. lia. }
  { apply room_append. eapply room_le; [|done]. lia. }
  exists r2, (pg :: pgs). rewrite list_insert_insert_eq in E2.
  split_and!; [done| |by rewrite append_append in R2].
  constructor; [|done]. rewrite L, <- Etake. exact C1.
Qed.

End Packets.
