(* ===== verification/KDataProps.v ===== *)
(** * The data ring: what its users can rely on

    The theorems about kdata.h, libdata.c and kdata.c, stated for the operations
    as their callers use them, each with a concrete instance. *)

From S2P Require Import Prelude KrDep KData KDataRing KDataIO KDataQueue KDataSpec.

(** A handle on ring [i] as [kdata_open] makes it for one ring: control and data
    areas of the one ring mapped. *)
Definition handle (i rid : Z) : kring_user :=
  KringUser 3 i 1 0 rid 1 [i] [i] None 0 0.

Lemma handle_maps i rid : maps_ring (handle i rid) 0 i.
Proof. split; [done|]. intros off. done. Qed.

(** C1: A run of entering, writing and reading on a fresh ring, in any order and
    by any of the six readers, returns what the broadcast queue returns: every
    reader gets every message written since it entered, whole, once and in order,
    provided no reader falls 2047 messages behind. *)
Theorem data_ring_refines_broadcast (W : kring_user) (R : Z → kring_user) i m os q outs :
  maps_ring W 0 i → (∀ id, maps_ring (R id) 0 i) → (∀ id, u_reader_id (R id) = id) →
  (∀ id, u_ring_id (R id) ≠ KDATA_RING_ID_ALL) →
  aget m i = Ok fresh_kdata_ring → Broadcast.run ∅ os = Some (q, outs) →
  ∃ m', impl_run W R i m os = Ok (m', outs).
Proof.
  intros HW HR Hid H1 E Hr.
  destruct (impl_run_refines W R i HW HR Hid H1 os ∅ m q outs) as (m' & Em & _); [|done|by exists m'].
  exists fresh_kdata_ring, ∅, ∅. split; [done|]. split; [apply rep_fresh|].
  intros id. rewrite !lookup_empty. constructor.
Qed.

Lemma data_ring_refines_broadcast_witness :
  ∃ m', impl_run (handle 0 0) (handle 0) 0 [fresh_kdata_ring]
    [Broadcast.Enter 0; Broadcast.Write [1; 2]; Broadcast.Enter 3; Broadcast.Write [3];
     Broadcast.Next 3; Broadcast.Next 0; Broadcast.Next 0] = Ok (m', [[3]; [1; 2]; [3]]).
Proof.
  eapply (data_ring_refines_broadcast (handle 0 0) (handle 0) 0 [fresh_kdata_ring] _
    {[0 := []; 3 := []]}); try done.
Defined.

(** Looking for a slot to write always ends, at the first slot after the
    write head that no reader holds; that slot is marked writer-owned, the held
    slots before it are marked skipped and one skip is counted for each holder,
    and nothing else changes. *)
Theorem find_write_loc_first_free holds r fuel :
  ring_state holds r → (6 < fuel)%nat →
  ∃ n c', let w := head_whead (head (kr_control r)) in
    (n ≤ 6)%nat ∧
    kdata_find_write_loc fuel (kr_control r) = Ok (cyc w (Z.of_nat n + 1), c') ∧
    found holds (kr_control r) (kdata_next w) n c' ∧
    (∀ j, 1 ≤ j ≤ Z.of_nat n → slot_held holds (cyc w j)) ∧
    ¬ slot_held holds (cyc w (Z.of_nat n + 1)).
Proof.
  intros S Hf. destruct (ring_state_size _ _ S) as [H6 Hn].
  destruct (find_write_loc_found holds (kr_control r) fuel (rs_inv _ _ S) Hn ltac:(lia))
    as (n & c' & Hle & E & F & Hp & Hfree).
  exists n, c'. cbn zeta. split_and!; try done. lia.
Qed.

Lemma find_write_loc_first_free_witness :
  ∃ n c', let w := head_whead (head (kr_control fresh_kdata_ring)) in
    (n ≤ 6)%nat ∧
    kdata_find_write_loc 7 (kr_control fresh_kdata_ring) = Ok (cyc w (Z.of_nat n + 1), c') ∧
    found ∅ (kr_control fresh_kdata_ring) (kdata_next w) n c' ∧
    (∀ j, 1 ≤ j ≤ Z.of_nat n → slot_held ∅ (cyc w j)) ∧
    ¬ slot_held ∅ (cyc w (Z.of_nat n + 1)).
Proof.
  apply (find_write_loc_first_free ∅ fresh_kdata_ring 7); [apply rep_fresh|lia].
Defined.

(** [kdata_write_plain] puts the message, cut to the page, in a page no
    reader holds, and touches no other page. *)
Theorem write_plain_wrote holds u m i r fuel data len :
  maps_ring u 0 i → aget m i = Ok r → ring_state holds r → (6 < fuel)%nat →
  0 ≤ len ≤ Z.of_nat (length data) → Forall is_byte data →
  ∃ n r', kdata_write_plain fuel u m data len = Ok (0, <[Z.to_nat i := r']> m) ∧ (n ≤ 6)%nat ∧
    wrote plain_of (take (Z.to_nat (Z.min len kdata_plain_max_data)) data) holds r n r'.
Proof.
  intros Hu E S Hf Hl Hb. unfold kdata_write_plain.
  set (l := if _ <? _ then _ else _).
  assert (l = Z.min len kdata_plain_max_data) as El.
  { subst l. destruct (Z.ltb_spec kdata_plain_max_data len); lia. }
  clearbody l. subst l. assert (kdata_plain_max_data = 4092) as Hmax by done.
  destruct (write_wrote plain_of (take (Z.to_nat (Z.min len kdata_plain_max_data)) data)
    holds u m i r fuel _ _ (λ m, Ok (0, m)) Hu E S Hf
    (fill_plain_fills data (Z.min len kdata_plain_max_data) ltac:(lia) ltac:(lia)))
    as (n & r' & Ew & Hn & Hw & _); [|by exists n, r'].
  intros pg Hpg. split; [by apply plain_page_ok; [lia|..]|]. by apply plain_of_page; [lia|lia|].
Qed.

(** Ten bytes into a fresh ring. *)
Lemma write_plain_wrote_witness :
  ∃ n r', kdata_write_plain 7 (handle 0 0) [fresh_kdata_ring] (replicate 10 7) 10 =
      Ok (0, [r']) ∧ (n ≤ 6)%nat ∧
    wrote plain_of (replicate 10 7) ∅ fresh_kdata_ring n r'.
Proof.
  apply (write_plain_wrote ∅ (handle 0 0) [fresh_kdata_ring] 0 fresh_kdata_ring 7);
    [apply handle_maps|done|apply rep_fresh|lia|done|]. apply Forall_replicate. done.
Defined.

(** [kdata_write_decrypted] likewise: what a reader sees in the page is the
    id, the type, the host name cut to 62 characters (empty when there is none)
    and the data cut to what a page holds. *)
Theorem write_decrypted_wrote holds u m i r fuel id type host data len :
  maps_ring u 0 i → aget m i = Ok r → ring_state holds r → (6 < fuel)%nat →
  0 ≤ len ≤ Z.of_nat (length data) → Forall is_byte data →
  (∀ h, host = Some h → Forall is_byte h) → - 2 ^ 63 ≤ id < 2 ^ 63 → 0 ≤ type < 256 →
  ∃ n r', kdata_write_decrypted fuel u m id type host data len =
      Ok (0, <[Z.to_nat i := r']> m) ∧ (n ≤ 6)%nat ∧
    wrote decrypted_of (id, type, host_seen host,
      take (Z.to_nat (Z.min len kdata_decrypted_max_data)) data) holds r n r'.
Proof.
  intros Hu E S Hf Hl Hb Hh Hid Ht. unfold kdata_write_decrypted.
  set (l := if _ <? _ then _ else _).
  assert (l = Z.min len kdata_decrypted_max_data) as El.
  { subst l. destruct (Z.ltb_spec kdata_decrypted_max_data len); lia. }
  clearbody l. subst l. assert (kdata_decrypted_max_data = 4016) as Hmax by done.
  set (l := Z.min len kdata_decrypted_max_data) in *.
  destruct (write_wrote decrypted_of (id, type, host_seen host, take (Z.to_nat l) data)
    holds u m i r fuel _ _ (λ m, Ok (0, m)) Hu E S Hf
    (fill_decrypted_fills id type host data l ltac:(lia) ltac:(lia)))
    as (n & r' & Ew & Hn & Hw & _); [|by exists n, r'].
  intros pg Hpg. split; [by apply decrypted_page_ok; [lia|..]|].
  by apply decrypted_of_page; [lia|lia|..].
Qed.

Lemma write_decrypted_wrote_witness :
  ∃ n r', kdata_write_decrypted 7 (handle 0 0) [fresh_kdata_ring] 5 2 (Some [97; 46; 98; 0; 7])
      [1; 2; 3] 2 = Ok (0, [r']) ∧ (n ≤ 6)%nat ∧
    wrote decrypted_of (5, 2, [97; 46; 98], [1; 2]) ∅ fresh_kdata_ring n r'.
Proof.
  apply (write_decrypted_wrote ∅ (handle 0 0) [fresh_kdata_ring] 0 fresh_kdata_ring 7 5 2
    (Some [97; 46; 98; 0; 7]) [1; 2; 3] 2);
    [apply handle_maps|done|apply rep_fresh|lia|done| | |lia|lia].
  - repeat constructor; unfold is_byte; lia.
  - intros h [= <-]. repeat constructor; unfold is_byte; lia.
Defined.

(** [kdata_kwrite] cuts a socket buffer into pages of at most 4088 bytes, in
    order: every reader receives the fragments of the buffer, each marked with
    the number of bytes left and the direction, and together they are the
    buffer. *)
Theorem kwrite_delivers_fragments {skb} (skb_len : skb → Z) (skb_copy_bits : skb → Z → Z → list Z)
    (skb_bytes : skb → list Z) kring i q holds m r dir s n :
  (∀ s, skb_len s = Z.of_nat (length (skb_bytes s))) → Forall is_byte (skb_bytes s) →
  (∀ s o n, 0 ≤ o → 0 ≤ n → o + n ≤ skb_len s →
    skb_copy_bits s o n = take (Z.to_nat n) (drop (Z.to_nat o) (skb_bytes s))) →
  maps_ring (kk_user kring) 0 i → kk_ring_id kring = i → aget m i = Ok r → rep q holds r →
  skb_len s < 2 ^ 30 → skb_len s ≤ Z.of_nat n * kdata_packet_max_data →
  room q (Z.of_nat (length (fragments n (skb_bytes s)))) →
  ∃ r' pgs, kdata_kwrite skb_len skb_copy_bits (S n) 7 kring m dir s = Ok (<[Z.to_nat i := r']> m) ∧
    rep ((λ ps, ps ++ pgs) <$> q) holds r' ∧
    Forall2 (λ pg f, packet_of pg = Ok (f.1, i8 dir, f.2)) pgs (fragments n (skb_bytes s)) ∧
    concat (snd <$> fragments n (skb_bytes s)) = skb_bytes s.
Proof.
  intros Hlen Hb Hcopy Hu Hi E Rp Hs Hn Hroom.
  destruct (kwrite_loop_ok skb_len skb_copy_bits skb_bytes Hlen Hcopy kring i Hu Hi
    n q holds m r dir s 0 E Rp Hb) as (r' & pgs & Ek & F & R').
  all: unfold rest_of; rewrite ?drop_0, <- ?Hlen; try done; try (pose proof (Hlen s); lia).
  exists r', pgs. unfold rest_of in F. rewrite drop_0 in F. split_and!; [done|done|exact F|].
  apply fragments_whole. by rewrite <- Hlen.
Qed.

(** Buffers of nines; 5000 of them take two pages of the kernel's ring. *)
Lemma kwrite_delivers_fragments_witness :
  let kring := KringKern [] 0 0 0 (KringUser (-1) 0 1 0 0 1 [0] [] (Some 0) 0 0) in
  let bytes := λ k : nat, replicate k 9 in
  ∃ r' pgs, kdata_kwrite Z.of_nat (λ k o n, take (Z.to_nat n) (drop (Z.to_nat o) (bytes k)))
      3 7 kring [fresh_kdata_ring] 1 5000%nat = Ok [r'] ∧
    rep ((λ ps, ps ++ pgs) <$> ∅) ∅ r' ∧
    Forall2 (λ pg f, packet_of pg = Ok (f.1, i8 1, f.2)) pgs (fragments 2 (bytes 5000%nat)) ∧
    concat (snd <$> fragments 2 (bytes 5000%nat)) = bytes 5000%nat.
Proof.
  intros kring bytes.
  apply (kwrite_delivers_fragments Z.of_nat (λ k o n, take (Z.to_nat n) (drop (Z.to_nat o) (bytes k)))
    bytes kring 0 ∅ ∅ [fresh_kdata_ring] fresh_kdata_ring 1 5000%nat 2); try done.
  - intros k. subst bytes. cbn. by rewrite length_replicate.
  - by apply Forall_replicate.
  - apply rep_fresh.
Defined.

(** [kdata_next_generic] hands the reader the oldest page it has not read, and
    takes it off its own queue and off no other reader's. *)
Theorem next_generic_pops q holds u m i r fuel pg ps :
  u_ring_id u ≠ KDATA_RING_ID_ALL → maps_ring u 0 i → aget m i = Ok r → rep q holds r →
  q !! u_reader_id u = Some (pg :: ps) →
  ∃ r' s holds', kdata_next_generic (S fuel) u m = Ok (PagePtr i s, <[Z.to_nat i := r']> m) ∧
    aget (kr_page r') s = Ok pg ∧ (u_reader_id u, s) ∈ holds' ∧
    rep (<[u_reader_id u := ps]> q) holds' r'.
Proof.
  intros H1 Hu E R Eq.
  destruct (rep_next q holds u m 0 i r fuel pg ps) as (r' & s & holds' & En & Ep & Hh & R'); try done.
  { unfold kdata_select_ctrl. by destruct (Z.eqb_spec (u_ring_id u) KDATA_RING_ID_ALL). }
  by exists r', s, holds'.
Qed.

(** After reader 2 enters a fresh ring and 42 is written, reader 2 reads the page
    that carries 42. *)
Lemma next_generic_pops_witness :
  ∃ m r pg r' s, plain_of pg = Ok [42] ∧ aget m 0 = Ok r ∧
    kdata_next_generic 1 (handle 0 2) m = Ok (PagePtr 0 s, <[0%nat := r']> m) ∧
    aget (kr_page r') s = Ok pg.
Proof.
  destruct (impl_run_refines (handle 0 0) (handle 0) 0 (handle_maps 0 0) (handle_maps 0)
    (λ _, eq_refl) (λ _ H, ltac:(discriminate H))
    [Broadcast.Enter 2; Broadcast.Write [42]] ∅ [fresh_kdata_ring] {[2 := [[42]]]} [])
    as (m & _ & r & qp & holds & Er & R & C); [|by vm_compute|].
  { exists fresh_kdata_ring, ∅, ∅. split_and!; [done|apply rep_fresh|]. intros id.
    rewrite !lookup_empty. constructor. }
  specialize (C 2). rewrite lookup_singleton_eq in C. inversion C as [? ps F E1 Ep|]. subst.
  inversion F as [|? pg ? ps' Hpg F']. subst. inversion F'. subst.
  destruct (next_generic_pops qp holds (handle 0 2) m 0 r 0 pg []) as (r' & s & h' & En & Es & _);
    try done.
  by exists m, r, pg, r', s.
Defined.

(** What a reader sees of a write that had to skip.  The pages passed over
    keep their old contents, and a reader that has not fallen behind by a whole
    ring is handed each of them again before the new message: the skipped mark
    that [kdata_find_write_loc] leaves is not consulted by
    [kdata_advance_rhead]. *)
Theorem skipped_pages_redelivered holds u m i r fuel data len id rd :
  maps_ring u 0 i → aget m i = Ok r → ring_state holds r → (6 < fuel)%nat →
  0 ≤ len ≤ kdata_plain_max_data → len ≤ Z.of_nat (length data) → Forall is_byte data →
  aget (reader (kr_control r)) id = Ok rd →
  lag (kr_control r) (reader_rhead rd) + 7 < KDATA_NPAGES →
  ∃ n r' pg, let w := head_whead (head (kr_control r)) in
    kdata_write_plain fuel u m data len = Ok (0, <[Z.to_nat i := r']> m) ∧
    (∀ j, 1 ≤ j ≤ Z.of_nat n → slot_held holds (cyc w j)) ∧
    reader_queue r' id = reader_queue r id ++
      omap (λ j, kr_page r !! Z.to_nat (cyc w j)) (seqZ 1 (Z.of_nat n)) ++ [pg] ∧
    plain_of pg = Ok (take (Z.to_nat len) data).
Proof.
  intros Hu E S Hf Hl Hd Hb Er Hlag. destruct (ring_state_size _ _ S) as [H6 Hsz].
  destruct (write_published holds u m i r fuel _ _ Hu E (rs_inv _ _ S) (rs_pages _ _ S)
    Hsz ltac:(lia) (fill_plain_fills data len Hl Hd)) as (n & r' & Ew & P & Hn).
  destruct (published_queue holds r n _ r' id rd P S Er) as (pg & Hpg & Eq); [lia|].
  exists n, r', (plain_page data len pg). cbn zeta. split_and!.
  - unfold kdata_write_plain. destruct (Z.ltb_spec kdata_plain_max_data len); [lia|].
    by rewrite (write_then _ _ _ _ _ _ Ew).
  - apply (pub_passed _ _ _ _ _ P).
  - exact Eq.
  - by apply plain_of_page.
Qed.

(** A ring the writer is about to lap: reader 0 is still on page 5, reader 1 has
    read up to the write head, page 4. *)
Definition lapped_control : kdata_control :=
  KdataControl (SharedHead 4 4 0) (writer zero_control)
    (<[0%nat := SharedReader 5 0 1 0]> (<[1%nat := SharedReader 4 0 1 0]> (reader zero_control)))
    (<[5%nat := 4]> (<[4%nat := 8]> (descriptor zero_control))).
Definition lapped_ring : kdata_ring := KdataRing lapped_control (kr_page fresh_kdata_ring).

Lemma lapped_state : ring_state {[(0, 5); (1, 4)]} lapped_ring.
Proof.
  destruct (rep_state _ _ _ rep_fresh) as [I _ P].
  assert (ring_inv ∅ None (KdataControl (SharedHead 4 4 0) (writer zero_control)
    (<[0%nat := SharedReader 5 0 1 0]> (<[1%nat := SharedReader 4 0 1 0]> (reader zero_control)))
    (descriptor zero_control))) as I0.
  { refine (ring_inv_set_readers _ _ (set_head (kr_control fresh_kdata_ring) (SharedHead 4 4 0)) _
      (ring_inv_set_head _ _ _ _ I _) _ _); [done|done|].
    repeat apply Forall_cons_2; try apply Forall_nil_2; by split; cbn. }
  split; [|..|done].
  - rewrite <- (union_empty_r_L {[(0, 5); (1, 4)]}), <- (assoc_L (∪)).
    refine (take_slot_inv _ None _ 0 5 0 (take_slot_inv ∅ None _ 1 4 0 I0 _ _ _ _) _ _ _ _); done.
  - intros id s [[= -> ->]%elem_of_singleton|[= -> ->]%elem_of_singleton]%elem_of_union;
      eexists; split; done || done.
Qed.

(** The write goes to page 6; reader 1, at the write head before, now has the old
    page 5 to read before it. *)
Lemma skipped_pages_redelivered_witness :
  ∃ n r' pg, let w := head_whead (head (kr_control lapped_ring)) in
    kdata_write_plain 7 (handle 0 0) [lapped_ring] [1; 2] 2 = Ok (0, [r']) ∧
    (∀ j, 1 ≤ j ≤ Z.of_nat n → slot_held {[(0, 5); (1, 4)]} (cyc w j)) ∧
    reader_queue r' 1 = reader_queue lapped_ring 1 ++
      omap (λ j, kr_page lapped_ring !! Z.to_nat (cyc w j)) (seqZ 1 (Z.of_nat n)) ++ [pg] ∧
    plain_of pg = Ok [1; 2].
Proof.
  apply (skipped_pages_redelivered {[(0, 5); (1, 4)]} (handle 0 0) [lapped_ring] 0 lapped_ring 7
    [1; 2] 2 1 (SharedReader 4 0 1 0)); try done; [apply lapped_state|lia|].
  repeat constructor; done.
Defined.

(** Run on that ring: after the write the first page reader 1 is handed is page 5,
    which nobody has written since the ring was made. *)
Example stale_page_delivered :
  ('(_, m) ← kdata_write_plain 7 (handle 0 0) [lapped_ring] [1; 2] 2;
   '(p, m) ← kdata_next_generic 1 (handle 0 1) m;
   '(p', _) ← kdata_next_generic 1 (handle 0 1) m;
   Ok (p, p')) = Ok (PagePtr 0 5, PagePtr 0 6).
Proof. vm_compute. reflexivity. Qed.

(** ** Readers of several rings *)

(** Ring [ctrl] of the handle is mapped and well-formed, and the reader's queue in
    it is [ps]. *)
Definition has_queue (u : kring_user) (m : kdata_mem) (ctrl : Z) (ps : list kring_page) : Prop :=
  ∃ i r q holds, user_ring u m ctrl = Ok (i, r) ∧ rep q holds r ∧ q !! u_reader_id u = Some ps.

Lemma avail_impl_queue q holds r id ps :
  rep q holds r → q !! id = Some ps →
  kdata_avail_impl (kr_control r) id = Ok (bool_decide (ps ≠ [])).
Proof.
  intros R E. destruct (rep_reader _ _ _ _ _ R E) as (rd & Er & _ & _ & L & Hr).
  unfold kdata_avail_impl. step_with Er. f_equal.
  pose proof (lag_0 (kr_control r) (reader_rhead rd) (ri_whead _ _ _ (rs_inv _ _ (rep_state _ _ _ R))) Hr) as X.
  rewrite <- L in X. destruct (Z.eqb_spec (reader_rhead rd) (head_whead (head (kr_control r)))) as [H|H].
  - apply X in H. destruct ps; [done|]. cbn in H. lia.
  - destruct ps; [|done]. destruct H. by apply X.
Qed.

(** The first index from [k] on whose queue is not empty. *)
Fixpoint first_nonempty {A} (k : Z) (qs : list (list A)) : option Z :=
  match qs with
  | [] => None
  | [] :: qs => first_nonempty (k + 1) qs
  | (_ :: _) :: _ => Some k
  end.

Lemma first_avail_ok u m qs : ∀ k,
  (∀ j ps, qs !! j = Some ps → has_queue u m (k + Z.of_nat j) ps) →
  kdata_first_avail u m (length qs) k = Ok (first_nonempty k qs).
Proof.
  induction qs as [|ps qs IH]; intros k H; [done|]. cbn [length kdata_first_avail].
  destruct (H 0%nat ps eq_refl) as (i & r & q & holds & Eu & R & Eq).
  rewrite Z.add_0_r in Eu. rewrite Eu, bind_Ok, (avail_impl_queue _ _ _ _ _ R Eq), bind_Ok.
  destruct ps as [|pg ps]; cbn [bool_decide]; [|done]. cbn [first_nonempty].
  apply IH. intros j ps Ej. replace (k + 1 + Z.of_nat j) with (k + Z.of_nat (S j)) by lia.
  by apply H.
Qed.

(** A handle on all rings reads from the first ring that has something for it,
    and [kdata_avail] says whether there is such a ring. *)
Theorem select_first_nonempty u m qs :
  u_ring_id u = KDATA_RING_ID_ALL → u_nrings u = Z.of_nat (length qs) →
  (∀ j ps, qs !! j = Some ps → has_queue u m (Z.of_nat j) ps) →
  kdata_select_ctrl u m = Ok (default (-1) (first_nonempty 0 qs)) ∧
  kdata_avail u m = Ok (bool_decide (is_Some (first_nonempty 0 qs))).
Proof.
  intros Ha Hn Hq. unfold kdata_select_ctrl, kdata_avail. rewrite Ha, Hn, Nat2Z.id. cbn [Z.eqb].
  rewrite (first_avail_ok u m qs 0) by exact Hq. rewrite !bind_Ok.
  by destruct (first_nonempty 0 qs).
Qed.

(** A handle on two fresh rings that reader 1 has entered: nothing to read. *)
Definition entered_ring (id : Z) : kdata_ring :=
  match kdata_prep_enter (kr_control fresh_kdata_ring) id with
  | Ok (_, c) => KdataRing c (kr_page fresh_kdata_ring)
  | _ => fresh_kdata_ring
  end.

Lemma entered_rep id : 0 ≤ id < KDATA_READERS → rep {[id := []]} ∅ (entered_ring id).
Proof.
  intros Hid. destruct (rep_enter ∅ ∅ fresh_kdata_ring id rep_fresh eq_refl Hid) as (c & E & R).
  unfold entered_ring. rewrite E. exact R.
Qed.

Lemma select_first_nonempty_witness :
  let u := KringUser 3 KDATA_RING_ID_ALL 2 0 1 2 [0; 1] [0; 1] None 0 0 in
  let m := [entered_ring 1; entered_ring 1] in
  kdata_select_ctrl u m = Ok (-1) ∧ kdata_avail u m = Ok false.
Proof.
  intros u m. apply (select_first_nonempty u m [[]; []]); [done|done|].
  intros [|[|j]] ps H; [| |done]; injection H as <-.
  - eexists 0, _, _, _. split; [done|]. split; [by apply entered_rep|done].
  - eexists 1, _, _, _. split; [done|]. split; [by apply entered_rep|done].
Defined.

(** Releasing a slot clears the reader's bit and, with the last reader's bit,
    the skipped mark; the counter it increments is that of reader 0, whichever
    reader releases. *)
Theorem reader_release_effect holds c id s d rd0 fuel :
  ring_inv holds None c → 0 ≤ id < KDATA_READERS → (id, s) ∈ holds →
  aget (descriptor c) s = Ok d → aget (reader c) 0 = Ok rd0 →
  ∃ c' d', kdata_reader_release (S fuel) id c s = Ok c' ∧
    ring_inv (holds ∖ {[(id, s)]}) None c' ∧
    aget (descriptor c') s = Ok d' ∧ Z.testbit d' (2 + id) = false ∧
    (¬ slot_held (holds ∖ {[(id, s)]}) s → d' = 0) ∧
    reader c' = <[0%nat := set_consumed rd0 (u64 (reader_consumed rd0 + 1))]> (reader c).
Proof.
  intros I Hid Hs Ed E0. pose proof (aget_Ok_range _ _ _ Ed) as Hr.
  rewrite (ri_ndesc _ _ _ I) in Hr. change (Z.of_nat (Z.to_nat KDATA_NPAGES)) with KDATA_NPAGES in Hr.
  destruct (reader_release_ok holds None c id s fuel I Hid Hr) as (c' & E & I' & _ & _).
  destruct (ring_inv_desc_at _ _ _ s I' Hr) as (d' & Ed' & Dok).
  exists c', d'. split_and!; try done.
  - apply not_true_is_false. intros X. apply (do_reader _ _ _ _ Dok id Hid), holds_remove in X. tauto.
  - by apply desc_free.
  - cbn [kdata_reader_release] in E. unfold kdata_read_desc in E. rewrite Ed, bind_Ok in E.
    rewrite (write_back_ok _ _ _ _ Ed), bind_Ok, Z.eqb_refl in E. cbn [negb] in E.
    rewrite (upd_reader_ok _ 0 rd0) in E by done. injection E as <-. done.
Qed.

(** Reader 1 gives back page 4 of the ring above. *)
Lemma reader_release_effect_witness :
  ∃ c' d', kdata_reader_release 1 1 lapped_control 4 = Ok c' ∧
    ring_inv ({[(0, 5); (1, 4)]} ∖ {[(1, 4)]}) None c' ∧
    aget (descriptor c') 4 = Ok d' ∧ Z.testbit d' (2 + 1) = false ∧
    (¬ slot_held ({[(0, 5); (1, 4)]} ∖ {[(1, 4)]}) 4 → d' = 0) ∧
    reader c' = <[0%nat := SharedReader 5 0 1 1]> (reader lapped_control).
Proof.
  apply (reader_release_effect {[(0, 5); (1, 4)]} lapped_control 1 4 8 (SharedReader 5 0 1 0) 0);
    [apply lapped_state|done| |done|done]. set_solver.
Defined.
