(* ===== verification/KDataConc.v ===== *)
(** * The data ring under concurrent access

    One writer and six readers run at the same time, each step one access to a
    word of the control that another thread writes: a load, a store, or an
    atomic operation.  (The writer's loads of its own [whead] and [wresv] go with
    the access that follows.)  The program counters below are the points of
    [kdata_find_write_loc], [kdata_write_FIRST], [kdata_write_SECOND],
    [kdata_prep_enter] and [kdata_next_generic] between two such accesses, with
    the local variables live there.

    A reader that is denied every slot but the one it is on comes back to that
    slot: [kdata_advance_rhead] does not stop there.  It takes the page it has a
    second time and then releases it, and goes on reading a page that is no
    longer marked as its own ([lap_breaks_exclusion]).  The safety theorems are
    about the runs in which that does not happen ([nstep]).  On them [conc_inv]
    says that the descriptors name exactly the slots the threads hold; from it no
    page is written while it is read, and the compare-and-swap whose failure
    [kdata_write_SECOND] ignores never fails. *)

From S2P Require Import Prelude KrDep KData KDataIO KDataRing KDataQueue KDataSpec KDataProps.

(** ** Threads *)

Inductive wpc :=
  | WIdle
  | WRead (s : Z)              (* about to load the descriptor of slot [s] *)
  | WTest (s d : Z)            (* has loaded [d] *)
  | WCount (s d id : Z)        (* at the head of the loop over the readers *)
  | WBump (s d id v : Z)       (* has loaded the skips [v] of reader [id] *)
  | WSkip (s d : Z)            (* has counted the skips, about to swap in the mark *)
  | WClaim (s : Z)             (* owns [s], about to store [wresv] *)
  | WFill (s : Z)              (* fills page [s] *)
  | WRelease (s : Z)           (* about to load the descriptor of [wresv] *)
  | WSwap (s d : Z)            (* about to swap out the writer's bit *)
  | WHead (s : Z).             (* about to store [whead] *)

(** [prev] is the slot the reader was on when it began. *)
Inductive rpc :=
  | RIdle
  | RPrepHead (h : Z)          (* prepares to enter: has loaded [whead] *)
  | RPrepSkips                 (* about to store [skips] *)
  | RPrepEntered               (* about to store [entered] *)
  | RPrepLoad                  (* about to load [produced] *)
  | RPrepConsumed (v : Z)      (* about to store [consumed] *)
  | RRead (prev s : Z)         (* about to load the descriptor of [s] *)
  | RTest (prev s d : Z)       (* has loaded [d] *)
  | RStore (prev s : Z)        (* has taken [s], about to store [rhead] *)
  | RCheck (prev s : Z)        (* about to load [entered] *)
  | RRelease (prev s : Z)      (* about to load the descriptor of [prev] *)
  | RSwap (prev s d : Z)       (* about to swap out its bit *)
  | RCount (s : Z)             (* about to count *)
  | REnter (s : Z).            (* about to store [entered] *)

Record conc := Conc {
  cc_control : kdata_control;
  cc_page : list kring_page;
  cc_writer : wpc;
  cc_reader : gmap Z rpc;
}.

(** The slots a reader whose shared state is [rd] has taken and not given back. *)
Definition rheld (rd : kdata_shared_reader) (p : rpc) : list Z :=
  let on s := if ctrue (reader_entered rd) then [s] else [] in
  match p with
  | RIdle => on (reader_rhead rd)
  | RPrepHead _ | RPrepSkips | RPrepEntered | RPrepLoad | RPrepConsumed _ => on (reader_rhead rd)
  | RRead prev _ | RTest prev _ _ => on prev
  | RStore prev s | RCheck prev s => on prev ++ [s]
  | RRelease prev s | RSwap prev s _ => [prev; s]
  | RCount s | REnter s => [s]
  end.

(** The slot the writer owns. *)
Definition wowned (p : wpc) : option Z :=
  match p with
  | WClaim s | WFill s | WRelease s | WSwap s _ => Some s
  | _ => None
  end.

(** ** Steps *)

(** One step of the writer, on the control, the pages and its program counter. *)
Inductive wstep : kdata_control → list kring_page → wpc → kdata_control → list kring_page → wpc → Prop :=
  | w_begin c pg :
      wstep c pg WIdle c pg (WRead (kdata_next (head_whead (head c))))
  | w_read c pg s d :
      kdata_read_desc c s = Ok d → wstep c pg (WRead s) c pg (WTest s d)
  | w_held c pg s d :
      ctrue (Z.land d KDATA_DSC_READER_OWNED) || ctrue (Z.land d KDATA_DSC_SKIPPED) = true →
      wstep c pg (WTest s d) c pg (WCount s d 0)
  | w_absent c pg s d id :
      id < KDATA_READERS → ctrue (Z.land d (KDATA_DSC_READER_BIT id)) = false →
      wstep c pg (WCount s d id) c pg (WCount s d (id + 1))
  | w_present c pg s d id rd :
      id < KDATA_READERS → ctrue (Z.land d (KDATA_DSC_READER_BIT id)) = true →
      aget (reader c) id = Ok rd →
      wstep c pg (WCount s d id) c pg (WBump s d id (reader_skips rd))
  | w_bump c pg s d id v c' :
      upd_reader c id (λ r, set_skips r (u64 (v + 1))) = Ok c' →
      wstep c pg (WBump s d id v) c' pg (WCount s d (id + 1))
  | w_counted c pg s d id :
      ¬ id < KDATA_READERS → wstep c pg (WCount s d id) c pg (WSkip s d)
  | w_skip c pg s d before c' :
      kdata_write_back c s d (Z.lor d KDATA_DSC_SKIPPED) = Ok (before, c') →
      wstep c pg (WSkip s d) c' pg (if negb (before =? d) then WRead s else WRead (kdata_next s))
  | w_other c pg s d :
      ctrue (Z.land d KDATA_DSC_READER_OWNED) || ctrue (Z.land d KDATA_DSC_SKIPPED) = false →
      ctrue (Z.land d KDATA_DSC_WRITER_OWNED) = true →
      wstep c pg (WTest s d) c pg (WRead (kdata_next s))
  | w_claim c pg s d before c' :
      ctrue (Z.land d KDATA_DSC_READER_OWNED) || ctrue (Z.land d KDATA_DSC_SKIPPED) = false →
      ctrue (Z.land d KDATA_DSC_WRITER_OWNED) = false →
      kdata_write_back c s d (u16 (Z.lor d KDATA_DSC_WRITER_OWNED)) = Ok (before, c') →
      wstep c pg (WTest s d) c' pg (if negb (before =? d) then WRead s else WClaim s)
  | w_resv c pg s :
      wstep c pg (WClaim s) (set_head c (set_wresv (head c) s)) pg (WFill s)
  | w_store c pg s p p' :
      aget pg s = Ok p → page_ok p' →
      wstep c pg (WFill s) c (<[Z.to_nat s := p']> pg) (WFill s)
  | w_filled c pg s :
      wstep c pg (WFill s) c pg (WRelease s)
  | w_rel c pg s d :
      kdata_read_desc c (head_wresv (head c)) = Ok d →
      wstep c pg (WRelease s) c pg (WSwap (head_wresv (head c)) d)
  | w_swap c pg s d before c' :
      kdata_write_back c s d (u16 (Z.land d (Z.lnot KDATA_DSC_WRITER_OWNED))) = Ok (before, c') →
      wstep c pg (WSwap s d) c' pg (WHead s)
  | w_head c pg s :
      wstep c pg (WHead s) (set_head c (set_whead (head c) (head_wresv (head c)))) pg WIdle.

(** One step of reader [id].  A reader prepares to enter when its id is fresh. *)
Inductive rstep (id : Z) : kdata_control → rpc → kdata_control → rpc → Prop :=
  | r_prep c rd :
      aget (reader c) id = Ok rd → reader_entered rd = 0 →
      rstep id c RIdle c (RPrepHead (head_whead (head c)))
  | r_prep_head c h c' :
      upd_reader c id (λ r, set_rhead r h) = Ok c' → rstep id c (RPrepHead h) c' RPrepSkips
  | r_prep_skips c c' :
      upd_reader c id (λ r, set_skips r 0) = Ok c' → rstep id c RPrepSkips c' RPrepEntered
  | r_prep_entered c c' :
      upd_reader c id (λ r, set_entered r 0) = Ok c' → rstep id c RPrepEntered c' RPrepLoad
  | r_prep_load c :
      rstep id c RPrepLoad c (RPrepConsumed (head_produced (head c)))
  | r_prep_consumed c v c' :
      upd_reader c id (λ r, set_consumed r v) = Ok c' → rstep id c (RPrepConsumed v) c' RIdle
  | r_begin c rd :
      aget (reader c) id = Ok rd →
      rstep id c RIdle c (RRead (reader_rhead rd) (kdata_next (reader_rhead rd)))
  | r_read c prev s d :
      kdata_read_desc c s = Ok d → rstep id c (RRead prev s) c (RTest prev s d)
  | r_owned c prev s d :
      ctrue (Z.land d KDATA_DSC_WRITER_OWNED) = true →
      rstep id c (RTest prev s d) c (RRead prev (kdata_next s))
  | r_take c prev s d before c' :
      ctrue (Z.land d KDATA_DSC_WRITER_OWNED) = false →
      kdata_write_back c s d (u16 (Z.lor d (KDATA_DSC_READER_BIT id))) = Ok (before, c') →
      rstep id c (RTest prev s d) c' (if before =? d then RStore prev s else RRead prev (kdata_next s))
  | r_store c prev s c' :
      upd_reader c id (λ r, set_rhead r s) = Ok c' → rstep id c (RStore prev s) c' (RCheck prev s)
  | r_check c prev s rd :
      aget (reader c) id = Ok rd →
      rstep id c (RCheck prev s) c (if ctrue (reader_entered rd) then RRelease prev s else REnter s)
  | r_rel c prev s d :
      kdata_read_desc c prev = Ok d → rstep id c (RRelease prev s) c (RSwap prev s d)
  | r_swap c prev s d before c' :
      kdata_write_back c prev d (release_value id d) = Ok (before, c') →
      rstep id c (RSwap prev s d) c' (if negb (before =? d) then RRelease prev s else RCount s)
  | r_count c s c' :
      upd_reader c 0 (λ r, set_consumed r (u64 (reader_consumed r + 1))) = Ok c' →
      rstep id c (RCount s) c' (REnter s)
  | r_enter c s c' :
      upd_reader c id (λ r, set_entered r 1) = Ok c' → rstep id c (REnter s) c' RIdle.

Inductive cstep : conc → conc → Prop :=
  | step_writer st c pg w :
      wstep (cc_control st) (cc_page st) (cc_writer st) c pg w →
      cstep st (Conc c pg w (cc_reader st))
  | step_reader st id p c p' :
      cc_reader st !! id = Some p → rstep id (cc_control st) p c p' →
      cstep st (Conc c (cc_page st) (cc_writer st) (<[id := p']> (cc_reader st))).

(** No reader that has a page has come all the way round to it again. *)
Definition no_lap (st : conc) : Prop :=
  ∀ id rd prev s, cc_reader st !! id = Some (RRead prev s) →
    aget (reader (cc_control st)) id = Ok rd → reader_entered rd ≠ 0 → s ≠ prev.

Definition nstep (st st' : conc) : Prop := cstep st st' ∧ no_lap st'.

(** A fresh ring, the writer and the readers outside. *)
Definition conc_init : conc :=
  Conc (kr_control fresh_kdata_ring) (kr_page fresh_kdata_ring) WIdle
    (set_to_map (λ id, (id, RIdle)) (list_to_set (seqZ 0 KDATA_READERS) : gset Z)).

(** ** The invariant *)

(** What the shared state of a reader and its program counter agree on. *)
Definition rpc_ok (rd : kdata_shared_reader) (p : rpc) : Prop :=
  match p with
  | RIdle => True
  | RPrepHead h => 0 ≤ h < KDATA_NPAGES ∧ reader_entered rd = 0
  | RPrepSkips | RPrepEntered | RPrepLoad | RPrepConsumed _ => reader_entered rd = 0
  | RRead prev s | RTest prev s _ | RStore prev s =>
      prev = reader_rhead rd ∧ 0 ≤ s < KDATA_NPAGES ∧ (reader_entered rd ≠ 0 → s ≠ prev)
  | RCheck prev s =>
      s = reader_rhead rd ∧ 0 ≤ prev < KDATA_NPAGES ∧ (reader_entered rd ≠ 0 → s ≠ prev)
  | RRelease prev s | RSwap prev s _ =>
      s = reader_rhead rd ∧ 0 ≤ prev < KDATA_NPAGES ∧ s ≠ prev ∧ reader_entered rd ≠ 0
  | RCount s | REnter s => s = reader_rhead rd
  end.

Definition wpc_ok (c : kdata_control) (p : wpc) : Prop :=
  match p with
  | WIdle => True
  | WRead s | WTest s _ | WClaim s => 0 ≤ s < KDATA_NPAGES
  | WCount s d _ | WBump s d _ _ | WSkip s d => 0 ≤ s < KDATA_NPAGES ∧
      ctrue (Z.land d KDATA_DSC_READER_OWNED) || ctrue (Z.land d KDATA_DSC_SKIPPED) = true
  | WFill s | WRelease s | WHead s => 0 ≤ s < KDATA_NPAGES ∧ head_wresv (head c) = s
  | WSwap s d => 0 ≤ s < KDATA_NPAGES ∧ head_wresv (head c) = s ∧ aget (descriptor c) s = Ok d
  end.

(** The holds are those of the program counters. *)
Definition holds_of (c : kdata_control) (rs : gmap Z rpc) (holds : gset (Z * Z)) : Prop :=
  ∀ id s, (id, s) ∈ holds ↔
    ∃ p rd, rs !! id = Some p ∧ aget (reader c) id = Ok rd ∧ s ∈ rheld rd p.

Record conc_inv (holds : gset (Z * Z)) (st : conc) : Prop := {
  cv_ring : ring_inv holds (wowned (cc_writer st)) (cc_control st);
  cv_holds : holds_of (cc_control st) (cc_reader st) holds;
  cv_writer : wpc_ok (cc_control st) (cc_writer st);
  cv_reader : ∀ id p, cc_reader st !! id = Some p → 0 ≤ id < KDATA_READERS ∧
    ∃ rd, aget (reader (cc_control st)) id = Ok rd ∧ rpc_ok rd p;
}.

(** The position of a reader, which only its own steps change. *)
Definition same_pos (r r' : kdata_shared_reader) : Prop :=
  reader_rhead r' = reader_rhead r ∧ reader_entered r' = reader_entered r.

Lemma same_pos_refl r : same_pos r r.
Proof. done. Qed.

Lemma same_pos_at l l' i r : Forall2 same_pos l l' → aget l i = Ok r → ∃ r', aget l' i = Ok r' ∧ same_pos r r'.
Proof.
  intros F [Hi E]%aget_Ok. destruct (Forall2_lookup_l _ _ _ _ _ F E) as (r' & E' & Q).
  exists r'. split; [by apply aget_lookup|done].
Qed.

Lemma same_pos_at_r l l' i r' : Forall2 same_pos l l' → aget l' i = Ok r' → ∃ r, aget l i = Ok r ∧ same_pos r r'.
Proof.
  intros F [Hi E]%aget_Ok. destruct (Forall2_lookup_r _ _ _ _ _ F E) as (r & E' & Q).
  exists r. split; [by apply aget_lookup|done].
Qed.

Lemma rheld_pos r r' p : same_pos r r' → rheld r' p = rheld r p.
Proof. intros [E1 E2]. destruct p; cbn; by rewrite ?E1, ?E2. Qed.

Lemma rpc_ok_pos r r' p : same_pos r r' → rpc_ok r p → rpc_ok r' p.
Proof. intros [E1 E2]. destruct p; cbn; by rewrite ?E1, ?E2. Qed.

(** A change of control that moves no reader. *)
Lemma holds_of_pos c c' rs holds :
  Forall2 same_pos (reader c) (reader c') → holds_of c rs holds → holds_of c' rs holds.
Proof.
  intros F H id s. rewrite (H id s). split; intros (p & rd & Ep & Er & Hs).
  - destruct (same_pos_at _ _ _ _ F Er) as (rd' & Er' & Q). exists p, rd'.
    by rewrite (rheld_pos _ _ _ Q).
  - destruct (same_pos_at_r _ _ _ _ F Er) as (rd' & Er' & Q). exists p, rd'.
    by rewrite <- (rheld_pos _ _ _ Q).
Qed.

Lemma readers_ok_pos c c' (rs : gmap Z rpc) :
  Forall2 same_pos (reader c) (reader c') →
  (∀ id p, rs !! id = Some p → 0 ≤ id < KDATA_READERS ∧ ∃ rd, aget (reader c) id = Ok rd ∧ rpc_ok rd p) →
  (∀ id p, rs !! id = Some p → 0 ≤ id < KDATA_READERS ∧ ∃ rd, aget (reader c') id = Ok rd ∧ rpc_ok rd p).
Proof.
  intros F H id p E. destruct (H id p E) as (Hid & rd & Er & Hok). split; [done|].
  destruct (same_pos_at _ _ _ _ F Er) as (rd' & Er' & Q). exists rd'. split; [done|].
  by eapply rpc_ok_pos.
Qed.

Lemma pos_refl (l : list kdata_shared_reader) : Forall2 same_pos l l.
Proof. by apply Forall_Forall2_diag, Forall_true. Qed.

(** A compare-and-swap either finds the value expected and stores, or does
    nothing. *)
Lemma write_back_cases c s d nd before c' :
  kdata_write_back c s d nd = Ok (before, c') →
  (before = d ∧ aget (descriptor c) s = Ok d ∧
   c' = set_descriptor c (<[Z.to_nat s := nd]> (descriptor c))) ∨
  (before ≠ d ∧ c' = c).
Proof.
  unfold kdata_write_back. intros H. apply bind_Ok_inv in H as (x & Ex & H).
  destruct (Z.eqb_spec x d) as [->|].
  - apply bind_Ok_inv in H as (ds & [_ ->]%aset_Ok & H). injection H as <- <-. by left.
  - injection H as <- <-. by right.
Qed.

(** A step of the writer that moves no reader keeps the invariant if it keeps
    the ring's. *)
Lemma inv_writer holds st c pg w :
  conc_inv holds st → Forall2 same_pos (reader (cc_control st)) (reader c) →
  ring_inv holds (wowned w) c → wpc_ok c w → conc_inv holds (Conc c pg w (cc_reader st)).
Proof.
  intros [R H W O] F R' W'. split; cbn; [done|by eapply holds_of_pos|done|by eapply readers_ok_pos].
Qed.

(** A change of one reader's record that moves no reader. *)
Lemma insert_pos (l : list kdata_shared_reader) i r r' :
  aget l i = Ok r → same_pos r r' → Forall2 same_pos l (<[Z.to_nat i := r']> l).
Proof.
  intros [_ X]%aget_Ok Q. rewrite <- (list_insert_id _ _ _ X) at 1.
  by apply Forall2_insert; [apply pos_refl|].
Qed.

Lemma set_reader_inv holds wown c i r :
  ring_inv holds wown c → reader_wf r →
  ring_inv holds wown (set_readers c (<[Z.to_nat i := r]> (reader c))).
Proof.
  intros R W. apply ring_inv_set_readers; [done|by rewrite length_insert|].
  by apply Forall_insert; [apply (ri_readers _ _ _ R)|].
Qed.

(** The store of [skips += 1]. *)
Lemma bump_inv holds wown c id v c' :
  ring_inv holds wown c → upd_reader c id (λ r, set_skips r (u64 v)) = Ok c' →
  ring_inv holds wown c' ∧ Forall2 same_pos (reader c) (reader c').
Proof.
  intros R H. pose proof H as H'. unfold upd_reader in H'. apply bind_Ok_inv in H' as (r & E & _).
  rewrite (upd_reader_ok _ _ _ _ E) in H. injection H as <-.
  pose proof E as [_ X]%aget_Ok. pose proof (Forall_lookup_1 _ _ _ _ (ri_readers _ _ _ R) X) as [W _].
  split; [|by eapply insert_pos]. apply set_reader_inv; [done|]. split; [done|]. by apply wrapu_range.
Qed.

Lemma held_by_bits holds wown c s d :
  ring_inv holds wown c → aget (descriptor c) s = Ok d →
  ctrue (Z.land d KDATA_DSC_READER_OWNED) || ctrue (Z.land d KDATA_DSC_SKIPPED) = true ↔
  slot_held holds s.
Proof.
  intros I E. pose proof (ri_desc _ _ _ I _ _ E) as D. rewrite orb_true_iff. split.
  - intros [H|H].
    + apply ctrue_reader_owned in H as (id & Hid & B). apply slot_held_iff. exists id.
      by apply (do_reader _ _ _ _ D).
    + rewrite ctrue_skipped_bit in H. by apply (do_skip _ _ _ _ D).
  - intros H. left. by eapply desc_held_test; [|apply (ri_ids _ _ _ I)|].
Qed.

Lemma owned_by_bit holds wown c s d :
  ring_inv holds wown c → aget (descriptor c) s = Ok d →
  ctrue (Z.land d KDATA_DSC_WRITER_OWNED) = true ↔ wown = Some s.
Proof. intros I E. rewrite ctrue_writer_bit. apply (do_writer _ _ _ _ (ri_desc _ _ _ I _ _ E)). Qed.

(** ** Preservation *)

Lemma claim_inv holds c s d :
  ring_inv holds None c → 0 ≤ s < KDATA_NPAGES → aget (descriptor c) s = Ok d →
  ctrue (Z.land d KDATA_DSC_READER_OWNED) || ctrue (Z.land d KDATA_DSC_SKIPPED) = false →
  ring_inv holds (Some s)
    (set_descriptor c (<[Z.to_nat s := u16 (Z.lor d KDATA_DSC_WRITER_OWNED)]> (descriptor c))).
Proof.
  intros R Hs E Hb.
  assert (¬ slot_held holds s) as Hfree.
  { intros X. apply (held_by_bits _ _ _ _ _ R E) in X. congruence. }
  assert (d = 0) as -> by (eapply desc_free; [by apply (ri_desc _ _ _ R)|done]).
  apply (find_claims holds c s 0 0 R Hs Hfree E).
Qed.

(** The swap of [kdata_writer_release] on the slot the writer owns. *)
Lemma release_swap holds c s d before c' :
  ring_inv holds (Some s) c → 0 ≤ s < KDATA_NPAGES → aget (descriptor c) s = Ok d →
  kdata_write_back c s d (u16 (Z.land d (Z.lnot KDATA_DSC_WRITER_OWNED))) = Ok (before, c') →
  before = d ∧ ring_inv holds None c' ∧ head c' = head c ∧ reader c' = reader c.
Proof.
  intros R Hs E Hw. destruct (writer_release_ok holds c s R Hs) as [Er Ir].
  unfold kdata_writer_release, kdata_read_desc in Er. rewrite E, bind_Ok, Hw, bind_Ok in Er.
  destruct (Z.eqb_spec before d); cbn [negb] in Er; [|done]. injection Er as ->. done.
Qed.

Lemma writer_step_inv holds c0 pg0 w0 rs c pg w :
  conc_inv holds (Conc c0 pg0 w0 rs) → wstep c0 pg0 w0 c pg w → conc_inv holds (Conc c pg w rs).
Proof.
  intros I H. pose proof I as [R _ W _]. pose proof (ri_whead _ _ _ R) as Hw.
  pose proof (λ c pg w, inv_writer holds _ c pg w I) as IW.
  cbn [cc_control cc_page cc_writer cc_reader] in *.
  pose proof (pos_refl (reader c0)) as P.
  inversion H as [? ? E0|? ? s d Hr E0|? ? s d Hb E0|? ? s d id Hi Hb E0|
    ? ? s d id rd Hi Hb Hr E0|? ? s d id v c1 Hu E0|? ? s d id Hi E0|? ? s d bf c1 Hs E0|? ? s d Hb Hb' E0|
    ? ? s d bf c1 Hb Hb' Hs E0|? ? s E0|? ? s x x' Hx Hx' E0|? ? s E0|? ? s d Hr E0|
    ? ? s d bf c1 Hs E0|? ? s E0]; subst; cbn [wowned wpc_ok] in R, W.
  - apply IW; [done|done|by apply kdata_next_range].
  - by apply IW.
  - by apply IW.
  - by apply IW.
  - by apply IW.
  - destruct (bump_inv _ _ _ _ _ _ R Hu) as [R' P']. by apply IW.
  - by apply IW.
  - destruct W as [Hs0 Hb]. apply write_back_cases in Hs as [(-> & E & ->)|[Hne ->]].
    + rewrite Z.eqb_refl. apply IW; [done| |by apply kdata_next_range].
      apply skip_mark_inv; [done|done| |done]. by eapply held_by_bits.
    + rewrite (proj2 (Z.eqb_neq bf d)) by done. by apply IW.
  - apply IW; [done|done|by apply kdata_next_range].
  - apply write_back_cases in Hs as [(-> & E & ->)|[Hne ->]].
    + rewrite Z.eqb_refl. apply IW; [done|by apply claim_inv|done].
    + rewrite (proj2 (Z.eqb_neq bf d)) by done. by apply IW.
  - apply IW; [done|by apply ring_inv_set_head|done].
  - by apply IW.
  - by apply IW.
  - destruct W as [Hs0 <-]. by apply IW.
  - destruct W as (Hs0 & Hresv & E). destruct (release_swap _ _ _ _ _ _ R Hs0 E Hs) as (_ & R' & Hh & Hr).
    apply IW; [by rewrite Hr|done|]. cbn. by rewrite Hh.
  - destruct W as [Hs0 Hresv]. apply IW; [done| |done].
    apply ring_inv_set_head; [done|]. cbn. by rewrite Hresv.
Qed.

(** A step of reader [id]: the ring's invariant with the holds that follow from
    its new program counter. *)
Lemma inv_reader holds c0 pg w rs id p c p' rd' holds' :
  conc_inv holds (Conc c0 pg w rs) → rs !! id = Some p →
  ring_inv holds' (wowned w) c → head c = head c0 →
  (∀ s, wowned w = Some s → aget (descriptor c) s = aget (descriptor c0) s) →
  (∀ j rj, j ≠ id → aget (reader c0) j = Ok rj → ∃ rj', aget (reader c) j = Ok rj' ∧ same_pos rj rj') →
  aget (reader c) id = Ok rd' → rpc_ok rd' p' →
  (∀ j s, (j, s) ∈ holds' ↔ if decide (j = id) then s ∈ rheld rd' p' else (j, s) ∈ holds) →
  conc_inv holds' (Conc c pg w (<[id := p']> rs)).
Proof.
  intros [R H W O] Ep R' Hh Hd Hj Erd Hok Hholds. cbn [cc_control cc_page cc_writer cc_reader] in *.
  split; cbn [cc_control cc_page cc_writer cc_reader]; [done|..].
  - intros j s. rewrite Hholds. case_decide as Hji.
    + subst j. split.
      * intros Hs. exists p', rd'. by rewrite lookup_insert_eq.
      * intros (p0 & rd0 & E1 & E2 & Hs). rewrite lookup_insert_eq in E1.
        injection E1 as <-. rewrite Erd in E2. by injection E2 as <-.
    + rewrite (H j s), lookup_insert_ne by done. split; intros (p0 & rd0 & E1 & E2 & Hs).
      * destruct (Hj _ _ Hji E2) as (rj & E3 & Q). exists p0, rj. by rewrite (rheld_pos _ _ _ Q).
      * destruct (O _ _ E1) as (_ & rj & E3 & _). destruct (Hj _ _ Hji E3) as (rj' & E4 & Q).
        rewrite E4 in E2. injection E2 as ->. exists p0, rj. by rewrite <- (rheld_pos _ _ _ Q).
  - destruct w as [| | | | | | | | |s d|]; cbn [wpc_ok wowned] in *; rewrite ?Hh; try done.
    destruct W as (W1 & W2 & W3). by rewrite Hd.
  - intros j p0 [[<- <-]|[Hne E]]%lookup_insert_Some.
    + split; [by apply (O id p)|]. by exists rd'.
    + destruct (O _ _ E) as (Hidj & rj & E3 & Hokj). split; [done|].
      destruct (Hj j rj (not_eq_sym Hne) E3) as (rj' & E4 & Q). exists rj'. split; [done|].
      by eapply rpc_ok_pos.
Qed.

(** The other readers when reader [id]'s record is replaced. *)
Lemma others_insert c id rd x :
  aget (reader c) id = Ok rd →
  ∀ j rj, j ≠ id → aget (reader c) j = Ok rj →
  ∃ rj', aget (<[Z.to_nat id := x]> (reader c)) j = Ok rj' ∧ same_pos rj rj'.
Proof.
  intros E j rj Hj Ej. exists rj. split; [|done]. pose proof (aget_Ok_range _ _ _ E).
  rewrite aget_insert_ne; [done|lia|done].
Qed.

Lemma others_same c id :
  ∀ j rj, j ≠ id → aget (reader c) j = Ok rj → ∃ rj', aget (reader c) j = Ok rj' ∧ same_pos rj rj'.
Proof. intros j rj _ E. by exists rj. Qed.

(** The holds do not change when the reader's own do not. *)
Lemma holds_same holds c pg w rs id p rd rd' p' :
  conc_inv holds (Conc c pg w rs) → rs !! id = Some p → aget (reader c) id = Ok rd →
  (∀ s, s ∈ rheld rd' p' ↔ s ∈ rheld rd p) →
  ∀ j s, (j, s) ∈ holds ↔ if decide (j = id) then s ∈ rheld rd' p' else (j, s) ∈ holds.
Proof.
  intros I Ep Er Hs j s. case_decide as Hj; [|done]. subst j. rewrite Hs.
  rewrite (cv_holds _ _ I id s). cbn. split.
  - intros (p0 & rd0 & E1 & E2 & X). rewrite Ep in E1. injection E1 as <-. rewrite Er in E2.
    by injection E2 as <-.
  - intros X. eauto.
Qed.

Lemma holds_self holds c pg w rs id p rd s :
  conc_inv holds (Conc c pg w rs) → rs !! id = Some p → aget (reader c) id = Ok rd →
  (id, s) ∈ holds ↔ s ∈ rheld rd p.
Proof.
  intros I Ep Er. rewrite (holds_same holds c pg w rs id p rd rd p I Ep Er (λ _, iff_refl _) id s).
  by rewrite decide_True.
Qed.

(** Storing to a slot's descriptor when the writer owns another. *)
Lemma desc_elsewhere c s x t :
  aget (descriptor c) s = Ok x → t ≠ s → ∀ v,
  aget (descriptor (set_descriptor c (<[Z.to_nat s := v]> (descriptor c)))) t = aget (descriptor c) t.
Proof.
  intros E Hne v. pose proof (aget_Ok_range _ _ _ E). cbn. rewrite aget_insert_ne; [done|lia|congruence].
Qed.

Lemma take_step_inv holds c0 pg w rs id prev s d rd :
  conc_inv holds (Conc c0 pg w rs) → rs !! id = Some (RTest prev s d) →
  0 ≤ id < KDATA_READERS → aget (reader c0) id = Ok rd → rpc_ok rd (RTest prev s d) →
  ctrue (Z.land d KDATA_DSC_WRITER_OWNED) = false → aget (descriptor c0) s = Ok d →
  conc_inv ({[(id, s)]} ∪ holds)
    (Conc (set_descriptor c0 (<[Z.to_nat s := u16 (Z.lor d (KDATA_DSC_READER_BIT id))]> (descriptor c0)))
       pg w (<[id := RStore prev s]> rs)).
Proof.
  intros I Ep Hid Er Hok Hb E. pose proof (cv_ring _ _ I) as R. cbn in R.
  assert (wowned w ≠ Some s) as Hw.
  { intros X. apply (owned_by_bit _ _ _ _ _ R E) in X. congruence. }
  destruct Hok as (Hp & Hs & Hne).
  eapply (inv_reader holds c0 pg w rs id _ _ _ rd); [exact I|exact Ep| |done| |exact (others_same c0 id)|exact Er|done|].
  - by apply take_slot_inv.
  - intros t Ht. eapply desc_elsewhere; [exact E|]. congruence.
  - intros j t. rewrite holds_add. case_decide as Hj.
    + subst j. rewrite (holds_self _ _ _ _ _ _ _ _ _ I Ep Er). cbn [rheld]. set_solver.
    + naive_solver.
Qed.

Lemma swap_step_inv holds c0 pg w rs id prev s d rd :
  conc_inv holds (Conc c0 pg w rs) → rs !! id = Some (RSwap prev s d) →
  0 ≤ id < KDATA_READERS → aget (reader c0) id = Ok rd → rpc_ok rd (RSwap prev s d) →
  aget (descriptor c0) prev = Ok d →
  conc_inv (holds ∖ {[(id, prev)]})
    (Conc (set_descriptor c0 (<[Z.to_nat prev := release_value id d]> (descriptor c0)))
       pg w (<[id := RCount s]> rs)).
Proof.
  intros I Ep Hid Er Hok E. pose proof (cv_ring _ _ I) as R. cbn in R.
  destruct Hok as (Hs & Hp & Hne & He).
  assert ((id, prev) ∈ holds) as Hh.
  { rewrite (holds_self _ _ _ _ _ _ _ _ _ I Ep Er). cbn [rheld]. set_solver. }
  eapply (inv_reader holds c0 pg w rs id _ _ _ rd); [exact I|exact Ep| |done| |exact (others_same c0 id)|exact Er|done|].
  - by apply release_slot_inv.
  - intros t Ht. eapply desc_elsewhere; [exact E|]. intros ->.
    apply (do_excl _ _ _ _ (ri_desc _ _ _ R _ _ E)); [done|]. apply slot_held_iff. eauto.
  - intros j t. rewrite holds_remove. case_decide as Hj.
    + subst j. rewrite (holds_self _ _ _ _ _ _ _ _ _ I Ep Er). cbn [rheld]. set_solver.
    + naive_solver.
Qed.

(** Steps of a reader that change no descriptor: on its own record, or on none
    that matters. *)
Lemma pos_step_inv holds c0 pg w rs id p p' rd c rd' :
  conc_inv holds (Conc c0 pg w rs) → rs !! id = Some p → aget (reader c0) id = Ok rd →
  ring_inv holds (wowned w) c → head c = head c0 → descriptor c = descriptor c0 →
  (∀ j rj, j ≠ id → aget (reader c0) j = Ok rj → ∃ rj', aget (reader c) j = Ok rj' ∧ same_pos rj rj') →
  aget (reader c) id = Ok rd' → rpc_ok rd' p' → (∀ s, s ∈ rheld rd' p' ↔ s ∈ rheld rd p) →
  conc_inv holds (Conc c pg w (<[id := p']> rs)).
Proof.
  intros I Ep Er R' Hh Hd Hj Erd Hok Hs.
  eapply (inv_reader holds c0 pg w rs id p c p' rd'); try done.
  - intros s _. by rewrite Hd.
  - by eapply holds_same.
Qed.

Lemma same_step_inv holds c pg w rs id p p' rd :
  conc_inv holds (Conc c pg w rs) → rs !! id = Some p → aget (reader c) id = Ok rd →
  rpc_ok rd p' → (∀ s, s ∈ rheld rd p' ↔ s ∈ rheld rd p) →
  conc_inv holds (Conc c pg w (<[id := p']> rs)).
Proof.
  intros I Ep Er Hok Hs. eapply (pos_step_inv holds c pg w rs id p p' rd c rd); try done.
  - apply (cv_ring _ _ I).
  - apply others_same.
Qed.

Lemma move_step_inv holds c pg w rs id p p' rd rd' :
  conc_inv holds (Conc c pg w rs) → rs !! id = Some p → aget (reader c) id = Ok rd →
  rpc_ok rd' p' → reader_wf rd' → (∀ s, s ∈ rheld rd' p' ↔ s ∈ rheld rd p) →
  conc_inv holds (Conc (set_readers c (<[Z.to_nat id := rd']> (reader c))) pg w (<[id := p']> rs)).
Proof.
  intros I Ep Er Hok Wf Hs. pose proof (cv_ring _ _ I) as R. cbn in R.
  pose proof (aget_Ok_range _ _ _ Er) as Hr.
  eapply (pos_step_inv holds c pg w rs id p p' rd _ rd'); try done.
  - by apply set_reader_inv.
  - exact (others_insert c id rd rd' Er).
  - by apply aget_insert_eq.
Qed.

(** The counter of reader 0. *)
Lemma count_step_inv holds c pg w rs id s rd r0 v :
  conc_inv holds (Conc c pg w rs) → rs !! id = Some (RCount s) → aget (reader c) id = Ok rd →
  aget (reader c) 0 = Ok r0 → reader_wf r0 → rpc_ok rd (RCount s) →
  conc_inv holds (Conc (set_readers c (<[Z.to_nat 0 := set_consumed r0 v]> (reader c))) pg w
    (<[id := REnter s]> rs)).
Proof.
  intros I Ep Er E0 Wf Hok. pose proof (cv_ring _ _ I) as R. cbn in R.
  assert (Forall2 same_pos (reader c) (<[Z.to_nat 0 := set_consumed r0 v]> (reader c))) as F
    by by eapply insert_pos.
  destruct (same_pos_at _ _ _ _ F Er) as (rd' & Er' & Q).
  eapply (pos_step_inv holds c pg w rs id _ (REnter s) rd _ rd'); try done.
  - apply ring_inv_set_readers; [done|by rewrite length_insert|].
    by apply Forall_insert; [apply (ri_readers _ _ _ R)|].
  - intros j rj _ Ej. apply (same_pos_at _ _ _ _ F Ej).
  - by apply (rpc_ok_pos _ _ (RCount s) Q).
Qed.

(** The steps of [kdata_prep_enter]: the reader holds nothing and does not after. *)
Lemma prep_step_inv holds c pg w rs id p p' rd f c' :
  conc_inv holds (Conc c pg w rs) → rs !! id = Some p → aget (reader c) id = Ok rd →
  upd_reader c id f = Ok c' → rpc_ok (f rd) p' → reader_wf (f rd) →
  rheld rd p = [] → rheld (f rd) p' = [] → conc_inv holds (Conc c' pg w (<[id := p']> rs)).
Proof.
  intros I Ep Er Hu Hok Wf H H'. rewrite (upd_reader_ok _ _ _ _ Er) in Hu. injection Hu as <-.
  eapply move_step_inv; try done. intros s. by rewrite H, H'.
Qed.

(** The steps of [kdata_advance_rhead] that go on to the next slot. *)
Lemma advance_step_inv holds c pg w rs id prev s d rd :
  conc_inv holds (Conc c pg w rs) → rs !! id = Some (RTest prev s d) → aget (reader c) id = Ok rd →
  rpc_ok rd (RTest prev s d) → (reader_entered rd ≠ 0 → kdata_next s ≠ prev) →
  conc_inv holds (Conc c pg w (<[id := RRead prev (kdata_next s)]> rs)).
Proof.
  intros I Ep Er (Hp & Hs & _) Hl. eapply same_step_inv; [done|done|done| |done].
  split; [done|]. split; [by apply kdata_next_range|done].
Qed.

Lemma idle_step_inv holds c pg w rs id rd p' :
  conc_inv holds (Conc c pg w rs) → rs !! id = Some RIdle → aget (reader c) id = Ok rd →
  reader_wf rd → p' = RRead (reader_rhead rd) (kdata_next (reader_rhead rd)) ∨
    p' = RPrepHead (head_whead (head c)) ∧ reader_entered rd = 0 →
  conc_inv holds (Conc c pg w (<[id := p']> rs)).
Proof.
  intros I Ep Er [Hrh _] [->|[-> He]]; (eapply same_step_inv; [done|done|done| |done]).
  - split; [done|]. split; [by apply kdata_next_range|]. intros _. by apply kdata_next_ne.
  - split; [|done]. apply (ri_whead _ _ _ (cv_ring _ _ I)).
Qed.

Lemma reader_step_inv holds c0 pg w rs id p c p' :
  conc_inv holds (Conc c0 pg w rs) → rs !! id = Some p → rstep id c0 p c p' →
  no_lap (Conc c pg w (<[id := p']> rs)) →
  ∃ holds', conc_inv holds' (Conc c pg w (<[id := p']> rs)).
Proof.
  intros I Ep H Hl. pose proof (cv_ring _ _ I) as R. cbn in R.
  destruct (cv_reader _ _ I id p Ep) as (Hid & rd & Er & Hok). cbn [cc_control] in Er.
  assert (reader_wf rd) as Wf
    by (pose proof Er as [_ X]%aget_Ok; by eapply (Forall_lookup_1 _ _ _ _ (ri_readers _ _ _ R))).
  pose proof Wf as [Hrh Hsk]. pose proof (ri_whead _ _ _ R) as Hwh.
  assert (∀ prev s, c = c0 → p' = RRead prev s → reader_entered rd ≠ 0 → s ≠ prev) as Hl'.
  { intros prev s -> -> He. by apply (Hl id rd); [apply lookup_insert_eq|..]. }
  inversion H as [? rd0 E0 Een|? h c1 Hu|? c1 Hu|? c1 Hu|?|? v c1 Hu|? rd0 E0|? prev s d Hr|? prev s d Hb|
    ? prev s d bf c1 Hb Hcas|
    ? prev s c1 Hu|? prev s rd0 E0|? prev s d Hr|? prev s d bf c1 Hcas|? s c1 Hu|? s c1 Hu]; subst;
    try (rewrite Er in E0; injection E0 as <-); cbn [rpc_ok] in Hok.
  - exists holds. eapply idle_step_inv; eauto.
  - exists holds. destruct Hok as [Hh He]. eapply prep_step_inv; try done; cbn; by rewrite He.
  - exists holds. eapply prep_step_inv; try done; cbn; by rewrite Hok.
  - exists holds. eapply prep_step_inv; try done; cbn; by rewrite Hok.
  - exists holds. by eapply same_step_inv.
  - exists holds. eapply prep_step_inv; try done; cbn; by rewrite Hok.
  - exists holds. eapply idle_step_inv; eauto.
  - exists holds. by eapply same_step_inv.
  - exists holds. eapply advance_step_inv; eauto.
  - apply write_back_cases in Hcas as [(-> & E & ->)|[Hne ->]].
    + rewrite Z.eqb_refl. eexists. by eapply take_step_inv.
    + rewrite (proj2 (Z.eqb_neq bf d)) in * by done. exists holds. eapply advance_step_inv; eauto.
  - rewrite (upd_reader_ok _ _ _ _ Er) in Hu. injection Hu as <-. destruct Hok as (-> & Hs & Hne).
    exists holds. by eapply move_step_inv.
  - destruct Hok as (-> & Hp & Hne). exists holds. destruct (ctrue (reader_entered rd)) eqn:Een.
    + rewrite ctrue_true in Een. eapply same_step_inv; [done|done|done|cbn; tauto|]. cbn.
      by rewrite (proj2 (ctrue_true _) Een).
    + eapply same_step_inv; [done|done|done|done|]. cbn. by rewrite Een.
  - exists holds. by eapply same_step_inv.
  - apply write_back_cases in Hcas as [(-> & E & ->)|[Hne ->]].
    + rewrite Z.eqb_refl. eexists. by eapply swap_step_inv.
    + rewrite (proj2 (Z.eqb_neq bf d)) by done. exists holds. by eapply same_step_inv.
  - destruct (ring_inv_reader_at _ _ _ 0 R ltac:(done)) as (r0 & E0 & Wf0).
    rewrite (upd_reader_ok _ _ _ _ E0) in Hu. injection Hu as <-. exists holds.
    by eapply count_step_inv.
  - rewrite (upd_reader_ok _ _ _ _ Er) in Hu. injection Hu as <-. exists holds.
    eapply move_step_inv; [done|done|done|done|done|]. cbn. by rewrite Hok.
Qed.

Lemma conc_step_inv holds st st' : conc_inv holds st → nstep st st' → ∃ holds', conc_inv holds' st'.
Proof.
  intros I [H Hl]. destruct H as [[c0 pg0 w0 rs] c pg w Hw|[c0 pg0 w0 rs] id p c p' Ep Hr]; cbn in *.
  - exists holds. by eapply writer_step_inv.
  - by eapply reader_step_inv.
Qed.

Lemma conc_init_inv : conc_inv ∅ conc_init.
Proof.
  destruct (rep_state _ _ _ rep_fresh) as [I _ _]. 
  assert (∀ id p, cc_reader conc_init !! id = Some p → 0 ≤ id < KDATA_READERS ∧ p = RIdle) as Hrs.
  { intros id p E. unfold conc_init in E. cbn [cc_reader] in E.
    apply lookup_set_to_map in E as (x & Hx & E); [|done]. injection E as -> <-.
    apply elem_of_list_to_set, elem_of_seqZ in Hx. split; [lia|done]. }
  assert (∀ id, 0 ≤ id < KDATA_READERS →
    aget (reader (cc_control conc_init)) id = Ok (SharedReader 0 0 0 0)) as Hrd.
  { intros id Hid. apply aget_lookup; [lia|]. apply lookup_replicate. split; [done|].
    unfold KDATA_READERS in Hid. change (Z.to_nat KDATA_READERS) with 6%nat. lia. }
  split; [exact I| |done|].
  - intros id s. split; [set_solver|]. intros (p & rd & E & Er & Hs).
    destruct (Hrs _ _ E) as [Hid ->]. rewrite (Hrd id Hid) in Er. injection Er as <-.
    cbn in Hs. set_solver.
  - intros id p E. destruct (Hrs _ _ E) as [Hid ->]. split; [done|]. eexists. split; [by apply Hrd|done].
Qed.

Lemma reachable_inv st : rtc nstep conc_init st → ∃ holds, conc_inv holds st.
Proof.
  apply (rtc_ind_r (λ st, ∃ holds, conc_inv holds st) conc_init); [exists ∅; apply conc_init_inv|].
  intros y z _ Hs [holds I]. by eapply conc_step_inv.
Qed.

(** ** What follows *)

Lemma owned_not_held holds st s id p rd :
  conc_inv holds st → wowned (cc_writer st) = Some s → cc_reader st !! id = Some p →
  aget (reader (cc_control st)) id = Ok rd → s ∉ rheld rd p.
Proof.
  intros I Hw Ep Er Hs. pose proof (cv_ring _ _ I) as R. rewrite Hw in R.
  assert ((id, s) ∈ holds) as Hh by (apply (cv_holds _ _ I); eauto).
  assert (0 ≤ s < KDATA_NPAGES) as Hr.
  { pose proof (cv_writer _ _ I) as W. destruct (cc_writer st); cbn in *; try done;
      injection Hw as ->; tauto. }
  destruct (ring_inv_desc_at _ _ _ s R Hr) as (d & E & D).
  apply (do_excl _ _ _ _ D eq_refl), slot_held_iff. eauto.
Qed.

(** ** Runs *)

Definition lapped (p : rpc) : bool :=
  match p with RRead prev s => s =? prev | _ => false end.

Definition lap_free (rs : gmap Z rpc) : Prop := map_Forall (λ _ p, lapped p = false) rs.

Lemma lap_free_insert rs id p : lapped p = false → lap_free rs → lap_free (<[id := p]> rs).
Proof. intros. by apply map_Forall_insert_2. Qed.

Lemma lap_free_no_lap c pg w rs : lap_free rs → no_lap (Conc c pg w rs).
Proof. intros H id rd prev s E _ _. apply (H id) in E. cbn in E. lia. Qed.

Lemma nstep_writer c pg w rs c' pg' w' :
  wstep c pg w c' pg' w' → lap_free rs → nstep (Conc c pg w rs) (Conc c' pg' w' rs).
Proof. intros H L. split; [by apply (step_writer (Conc c pg w rs))|by apply lap_free_no_lap]. Qed.

Lemma nstep_reader c pg w rs id p c' p' :
  rstep id c p c' p' → rs !! id = Some p → lapped p' = false → lap_free rs →
  nstep (Conc c pg w rs) (Conc c' pg w (<[id := p']> rs)).
Proof.
  intros H E L Ls. split; [by eapply (step_reader (Conc c pg w rs))|].
  by apply lap_free_no_lap, lap_free_insert.
Qed.

(** The steps of one reader, from a state in which its program counter is named. *)
Inductive rsteps (id : Z) : kdata_control → rpc → kdata_control → rpc → Prop :=
  | rs_refl c p : rsteps id c p c p
  | rs_cons c p c1 p1 c2 p2 :
      rstep id c p c1 p1 → lapped p1 = false → rsteps id c1 p1 c2 p2 → rsteps id c p c2 p2.

Lemma rsteps_run id c pg w rs p c' p' :
  rsteps id c p c' p' → rs !! id = Some p → lap_free rs →
  rtc nstep (Conc c pg w rs) (Conc c' pg w (<[id := p']> rs)).
Proof.
  intros H. revert rs. induction H as [c p|c p c1 p1 c2 p2 Hs Hl _ IH]; intros rs E L.
  - by rewrite insert_id.
  - eapply rtc_l; [by eapply nstep_reader|].
    rewrite <- (insert_insert_eq rs id p2 p1). apply IH; [apply lookup_insert_eq|by apply lap_free_insert].
Qed.

Inductive wsteps : kdata_control → list kring_page → wpc → kdata_control → list kring_page → wpc → Prop :=
  | ws_refl c pg w : wsteps c pg w c pg w
  | ws_cons c pg w c1 pg1 w1 c2 pg2 w2 :
      wstep c pg w c1 pg1 w1 → wsteps c1 pg1 w1 c2 pg2 w2 → wsteps c pg w c2 pg2 w2.

Lemma wsteps_run c pg w rs c' pg' w' :
  wsteps c pg w c' pg' w' → lap_free rs → rtc nstep (Conc c pg w rs) (Conc c' pg' w' rs).
Proof. intros H L. induction H; [apply rtc_refl|]. eapply rtc_l; [by apply nstep_writer|done]. Qed.

(** The loop of the writer over the readers, run on its own, is [register_skips]. *)
Lemma counts_register_skips n id c pg s d c' :
  Z.of_nat n + id = KDATA_READERS → register_skips n id c d = Ok c' →
  wsteps c pg (WCount s d id) c' pg (WSkip s d).
Proof.
  revert id c. induction n as [|n IH]; intros id c Hn H; cbn [register_skips] in H.
  - injection H as ->. eapply ws_cons; [|apply ws_refl]. apply w_counted. lia.
  - apply bind_Ok_inv in H as (c1 & Hc & H). specialize (IH (id + 1) c1 ltac:(lia) H).
    destruct (ctrue _) eqn:Hb.
    + pose proof Hc as Hc'. unfold upd_reader in Hc'. apply bind_Ok_inv in Hc' as (rd & Er & _).
      eapply ws_cons; [apply (w_present _ _ _ _ _ rd); [lia|done|done]|].
      eapply ws_cons; [|exact IH]. apply w_bump. rewrite (upd_reader_ok _ _ _ _ Er) in Hc. by rewrite (upd_reader_ok _ _ _ _ Er).
    + injection Hc as <-. eapply ws_cons; [|exact IH]. apply w_absent; [lia|done].
Qed.

(** The stores of a reader that prepares to enter, run on their own, are
    [kdata_prep_enter]. *)
Lemma prepares_prep_enter id c rd ret c' :
  aget (reader c) id = Ok rd → reader_entered rd = 0 → kdata_prep_enter c id = Ok (ret, c') →
  rsteps id c RIdle c' RIdle.
Proof.
  intros Er He H. pose proof (aget_Ok_range _ _ _ Er) as Hr. unfold kdata_prep_enter in H.
  rewrite (upd_reader_ok _ _ _ _ Er), bind_Ok in H. injection H as _ <-.
  eapply rs_cons; [by eapply r_prep|done|].
  eapply rs_cons; [apply r_prep_head; by apply upd_reader_ok|done|].
  eapply rs_cons; [apply r_prep_skips, upd_reader_ok; by apply aget_insert_eq|done|].
  cbn [set_readers reader]. rewrite list_insert_insert_eq.
  eapply rs_cons; [apply r_prep_entered, upd_reader_ok; by apply aget_insert_eq|done|].
  cbn [set_readers reader]. rewrite list_insert_insert_eq.
  eapply rs_cons; [apply r_prep_load|done|].
  eapply rs_cons; [apply r_prep_consumed, upd_reader_ok; by apply aget_insert_eq|done|].
  cbn [set_readers reader]. rewrite list_insert_insert_eq. apply rs_refl.
Qed.

(** A run: reader 2 prepares to enter, the writer writes slot 0, the reader takes
    it, and before the reader has stored its head the writer owns slot 1 and is
    about to release it. *)
Definition swap_in (c : kdata_control) (s d : Z) : kdata_control :=
  set_descriptor c (<[Z.to_nat s := d]> (descriptor c)).

Definition reserve (c : kdata_control) (s : Z) : kdata_control :=
  let c := swap_in c s KDATA_DSC_WRITER_OWNED in set_head c (set_wresv (head c) s).

Definition publish (c : kdata_control) (s : Z) : kdata_control :=
  let c := swap_in c s 0 in set_head c (set_whead (head c) (head_wresv (head c))).

(** The writer goes from idle to the release of a slot it finds free. *)
Lemma writer_reserves c pg s :
  kdata_next (head_whead (head c)) = s → aget (descriptor c) s = Ok 0 →
  wsteps c pg WIdle (reserve c s) pg (WSwap s 1).
Proof.
  intros Hs E0.
  eapply ws_cons; [apply w_begin|]. rewrite Hs.
  eapply ws_cons; [by apply (w_read _ _ _ 0)|].
  eapply ws_cons; [apply (w_claim _ _ _ _ 0 (swap_in c s 1)); [done|done|by apply write_back_ok]|].
  eapply ws_cons; [apply w_resv|]. eapply ws_cons; [apply w_filled|].
  eapply ws_cons; [|apply ws_refl]. apply (w_rel (reserve c s) pg s 1). cbn.
  by apply aget_insert_eq, (aget_Ok_range _ _ _ E0).
Qed.

Lemma writer_publishes c pg s :
  aget (descriptor c) s = Ok 0 → wsteps (reserve c s) pg (WSwap s 1) (publish (reserve c s) s) pg WIdle.
Proof.
  intros E0. eapply ws_cons; [|eapply ws_cons; [apply w_head|apply ws_refl]].
  apply (w_swap _ _ _ _ 1 (swap_in (reserve c s) s 0)), write_back_ok.
  by apply aget_insert_eq, (aget_Ok_range _ _ _ E0).
Qed.

(** A reader takes the slot after its head. *)
Lemma reader_loads c id rd s d :
  aget (reader c) id = Ok rd → 0 ≤ reader_rhead rd < KDATA_NPAGES →
  kdata_next (reader_rhead rd) = s → aget (descriptor c) s = Ok d →
  rsteps id c RIdle c (RTest (reader_rhead rd) s d).
Proof.
  intros Er Hr Hs E. pose proof (kdata_next_ne _ Hr) as Hne. rewrite Hs in Hne.
  eapply rs_cons; [by apply r_begin|cbn; lia|]. rewrite Hs.
  eapply rs_cons; [by apply r_read|done|apply rs_refl].
Qed.

Lemma reader_takes c id prev s d :
  aget (descriptor c) s = Ok d → ctrue (Z.land d KDATA_DSC_WRITER_OWNED) = false →
  rsteps id c (RTest prev s d) (swap_in c s (u16 (Z.lor d (KDATA_DSC_READER_BIT id)))) (RStore prev s).
Proof.
  intros E Hb. eapply rs_cons; [eapply r_take; [done|by apply write_back_ok]| |];
    rewrite Z.eqb_refl; [done|apply rs_refl].
Qed.

Definition demo_entered : kdata_control := kr_control (entered_ring 2).

Definition demo_published : kdata_control := publish (reserve demo_entered 0) 0.

Definition demo_control : kdata_control := reserve (swap_in demo_published 0 16) 1.

Definition demo_conc : conc :=
  Conc demo_control (kr_page fresh_kdata_ring) (WSwap 1 1)
    (<[2 := RStore 2047 0]> (<[2 := RTest 2047 0 0]> (<[2 := RIdle]> (cc_reader conc_init)))).

Lemma init_lap_free : lap_free (cc_reader conc_init).
Proof. intros id p E. apply lookup_set_to_map in E as (x & _ & E); [|done]. by injection E as _ <-. Qed.

Lemma demo_publishes :
  rtc nstep conc_init (Conc demo_published (kr_page fresh_kdata_ring) WIdle
    (<[2 := RTest 2047 0 0]> (<[2 := RIdle]> (cc_reader conc_init)))).
Proof.
  pose (pg := kr_page fresh_kdata_ring). pose (rs := <[2 := RIdle]> (cc_reader conc_init)).
  pose proof init_lap_free as L0. assert (lap_free rs) as L1 by by apply lap_free_insert.
  transitivity (Conc demo_entered pg WIdle rs).
  { apply (rsteps_run 2 _ _ _ _ RIdle); [|by vm_compute|exact L0].
    apply (prepares_prep_enter 2 _ (SharedReader 0 0 0 0) 0); by vm_compute. }
  transitivity (Conc (reserve demo_entered 0) pg (WSwap 0 1) rs);
    [apply wsteps_run; [apply writer_reserves; by vm_compute|exact L1]|].
  transitivity (Conc demo_published pg WIdle rs);
    [apply wsteps_run; [apply writer_publishes; by vm_compute|exact L1]|].
  apply (rsteps_run 2 _ _ _ _ RIdle); [|by vm_compute|exact L1].
  apply (reader_loads demo_published 2 (SharedReader 2047 0 0 0) 0 0); by vm_compute.
Qed.

Lemma demo_reachable : rtc nstep conc_init demo_conc.
Proof.
  pose (pg := kr_page fresh_kdata_ring).
  pose (rs := <[2 := RTest 2047 0 0]> (<[2 := RIdle]> (cc_reader conc_init))).
  assert (lap_free rs) as L by (apply lap_free_insert, lap_free_insert, init_lap_free; done).
  etransitivity; [exact demo_publishes|].
  transitivity (Conc (swap_in demo_published 0 16) pg WIdle (<[2 := RStore 2047 0]> rs)).
  { apply (rsteps_run 2 _ _ _ _ (RTest 2047 0 0)); [|by apply lookup_insert_eq|exact L].
    apply (reader_takes demo_published 2 2047 0 0); by vm_compute. }
  apply wsteps_run; [apply writer_reserves; by vm_compute|by apply lap_free_insert].
Qed.

Lemma demo_reader : cc_reader demo_conc !! 2 = Some (RStore 2047 0).
Proof. apply lookup_insert_eq. Qed.

(** C2: Whatever the interleaving, as long as no reader that has a page is denied
    every other slot within one call, the slot the writer owns, from its claim to
    its release, is not one any reader has. *)
Theorem writer_reader_exclusion st s id p rd :
  rtc nstep conc_init st → wowned (cc_writer st) = Some s → cc_reader st !! id = Some p →
  aget (reader (cc_control st)) id = Ok rd → s ∉ rheld rd p.
Proof. intros [holds I]%reachable_inv. by apply (owned_not_held holds). Qed.

Lemma writer_reader_exclusion_witness : 1 ∉ rheld (SharedReader 2047 0 0 0) (RStore 2047 0).
Proof.
  apply (writer_reader_exclusion demo_conc 1 2); [apply demo_reachable|done|apply demo_reader|by vm_compute].
Defined.

(** C26: In the same runs, no step changes the contents of a page a reader has. *)
Theorem read_page_stable st st' id p rd s :
  rtc nstep conc_init st → cstep st st' → cc_reader st !! id = Some p →
  aget (reader (cc_control st)) id = Ok rd → s ∈ rheld rd p →
  aget (cc_page st') s = aget (cc_page st) s.
Proof.
  intros [holds I]%reachable_inv H Ep Er Hs.
  pose proof (λ t E, owned_not_held holds st t id p rd I E Ep Er) as X.
  destruct H as [st c pg w Hw|st]; [|done]. cbn [cc_page].
  destruct st as [c0 pg0 w0 rs]. cbn in *.
  inversion Hw as [| | | | | | | | | | |? ? t x x' Hx Hx'| | | |]; try done. subst.
  assert (t ≠ s) as Hne by (intros ->; by apply (X s)).
  pose proof (aget_Ok_range _ _ _ Hx). rewrite aget_insert_ne; [done|lia|done].
Qed.

(** The step is the writer's release. *)
Lemma read_page_stable_witness :
  ∃ st', cstep demo_conc st' ∧ aget (cc_page st') 0 = aget (cc_page demo_conc) 0.
Proof.
  assert (cstep demo_conc (Conc (swap_in demo_control 1 0) (kr_page fresh_kdata_ring) (WHead 1)
    (cc_reader demo_conc))) as Hs.
  { apply (step_writer (Conc _ _ _ _)), (w_swap _ _ _ _ 1), write_back_ok. by vm_compute. }
  eexists. split; [exact Hs|].
  apply (read_page_stable demo_conc _ 2 (RStore 2047 0) (SharedReader 2047 0 0 0) 0);
    [apply demo_reachable|exact Hs|apply demo_reader|by vm_compute|by left].
Defined.

(** The compare-and-swap of [kdata_writer_release], whose result
    [kdata_write_SECOND] does not look at, always succeeds. *)
Theorem release_never_fails st s d :
  rtc nstep conc_init st → cc_writer st = WSwap s d →
  ∃ c', kdata_write_back (cc_control st) s d (u16 (Z.land d (Z.lnot KDATA_DSC_WRITER_OWNED))) = Ok (d, c') ∧
    aget (descriptor c') s = Ok 0.
Proof.
  intros [holds I]%reachable_inv Ew. pose proof (cv_ring _ _ I) as R. pose proof (cv_writer _ _ I) as W.
  rewrite Ew in R, W. cbn in R, W. destruct W as (Hs & _ & E).
  destruct (writer_release_ok holds _ s R Hs) as [Er _]. unfold kdata_writer_release, kdata_read_desc in Er.
  rewrite E, bind_Ok, (write_back_ok _ _ _ _ E), bind_Ok, Z.eqb_refl in Er. cbn [negb] in Er.
  injection Er as Er. eexists. split; [by apply write_back_ok|]. rewrite Er. cbn.
  apply aget_insert_eq. by eapply aget_Ok_range.
Qed.

Lemma release_never_fails_witness :
  ∃ c', kdata_write_back demo_control 1 1 (u16 (Z.land 1 (Z.lnot KDATA_DSC_WRITER_OWNED))) = Ok (1, c') ∧
    aget (descriptor c') 1 = Ok 0.
Proof. apply (release_never_fails demo_conc 1 1); [apply demo_reachable|done]. Defined.

(** ** Two writers

    [wresv] is one word for the whole ring.  When the first phases of two writers
    both come before their second phases, the first to finish publishes the
    other's slot, still unfilled, and its own slot, 0 here, stays marked as owned
    by a writer. *)
Definition two_writers (r : kdata_ring) : res (page_ptr * page_ptr * Z * list Z) :=
  let u := handle 0 0 in
  '(ha, m) ← kdata_write_FIRST 1 u [r];
  '(hb, m) ← kdata_write_FIRST 2 u m;
  m ← kdata_write_SECOND u m;
  r ← aget m 0;
  let c := kr_control r in
  m ← kdata_write_SECOND u m;
  r' ← aget m 0;
  Ok (ha, hb, head_whead (head c), take 2 (descriptor (kr_control r'))).

Example two_writers_lose_slot :
  two_writers (KdataRing (kr_control fresh_kdata_ring) []) = Ok (PagePtr 0 0, PagePtr 0 1, 1, [1; 0]).
Proof. by vm_compute. Qed.

(** ** Two readers on one page

    Readers 2 and 3 both want page 0, the last one written.  Reader 3 takes it
    between reader 2's load of the descriptor and its compare-and-swap, which
    fails; [kdata_advance_rhead] then moves reader 2 on to slot 1, past the write
    head: reader 2 never sees page 0. *)
Definition both_entered : kdata_control :=
  match kdata_prep_enter demo_entered 3 with Ok (_, c) => c | _ => demo_entered end.

Definition missed_control : kdata_control := publish (reserve both_entered 0) 0.

Definition missed_conc : conc :=
  Conc (swap_in missed_control 0 32) (kr_page fresh_kdata_ring) WIdle
    (<[2 := RRead 2047 1]> (<[3 := RStore 2047 0]> (<[3 := RTest 2047 0 0]>
      (<[2 := RTest 2047 0 0]> (<[3 := RIdle]> (<[2 := RIdle]> (cc_reader conc_init))))))).

Lemma missed_reachable : rtc nstep conc_init missed_conc.
Proof.
  pose (pg := kr_page fresh_kdata_ring). pose (c := missed_control).
  pose (rs1 := <[2 := RIdle]> (cc_reader conc_init)). pose (rs2 := <[3 := RIdle]> rs1).
  pose (rs3 := <[2 := RTest 2047 0 0]> rs2). pose (rs4 := <[3 := RTest 2047 0 0]> rs3).
  pose (rs5 := <[3 := RStore 2047 0]> rs4).
  pose proof init_lap_free as L0.
  assert (lap_free rs1) as L1 by by apply lap_free_insert.
  assert (lap_free rs2) as L2 by by apply lap_free_insert.
  assert (lap_free rs3) as L3 by by apply lap_free_insert.
  assert (lap_free rs4) as L4 by by apply lap_free_insert.
  assert (lap_free rs5) as L5 by by apply lap_free_insert.
  transitivity (Conc demo_entered pg WIdle rs1).
  { apply (rsteps_run 2 _ _ _ _ RIdle); [|by vm_compute|exact L0].
    apply (prepares_prep_enter 2 _ (SharedReader 0 0 0 0) 0); by vm_compute. }
  transitivity (Conc both_entered pg WIdle rs2).
  { apply (rsteps_run 3 _ _ _ _ RIdle); [|by vm_compute|exact L1].
    apply (prepares_prep_enter 3 _ (SharedReader 0 0 0 0) 0); by vm_compute. }
  transitivity (Conc (reserve both_entered 0) pg (WSwap 0 1) rs2);
    [apply wsteps_run; [apply writer_reserves; by vm_compute|exact L2]|].
  transitivity (Conc c pg WIdle rs2);
    [apply wsteps_run; [apply writer_publishes; by vm_compute|exact L2]|].
  transitivity (Conc c pg WIdle rs3).
  { apply (rsteps_run 2 _ _ _ _ RIdle); [|by vm_compute|exact L2].
    apply (reader_loads c 2 (SharedReader 2047 0 0 0) 0 0); by vm_compute. }
  transitivity (Conc c pg WIdle rs4).
  { apply (rsteps_run 3 _ _ _ _ RIdle); [|by vm_compute|exact L3].
    apply (reader_loads c 3 (SharedReader 2047 0 0 0) 0 0); by vm_compute. }
  transitivity (Conc (swap_in c 0 32) pg WIdle rs5).
  { apply (rsteps_run 3 _ _ _ _ (RTest 2047 0 0)); [|by vm_compute|exact L4].
    apply (reader_takes c 3 2047 0 0); by vm_compute. }
  apply rtc_once, (nstep_reader _ _ _ _ 2 (RTest 2047 0 0)); [|by vm_compute|done|exact L5].
  apply (r_take 2 (swap_in c 0 32) 2047 0 0 32 (swap_in c 0 32)); [done|by vm_compute].
Qed.

Example contended_reader_skips : rtc nstep conc_init missed_conc ∧
  cc_reader missed_conc !! 2 = Some (RRead 2047 1) ∧ head_whead (head (cc_control missed_conc)) = 0.
Proof. split_and!; [apply missed_reachable|apply lookup_insert_eq|done]. Qed.

(** ** A reader that comes round

    A reader has slot [s], every other slot is free and the writer is about to
    write the slot after it.  At each slot the reader loads the descriptor while
    the writer owns the slot, and moves on.  After 2047 denials it is at [s]
    again, takes it, releases it as the slot it was on before, and returns it to
    its caller: the writer may now claim [s]. *)

Lemma cstep_at c pg w rs id p c' p' :
  rstep id c p c' p' → cstep (Conc c pg w (<[id := p]> rs)) (Conc c' pg w (<[id := p']> rs)).
Proof.
  intros H. pose proof (step_reader (Conc c pg w (<[id := p]> rs)) id p c' p') as X. cbn in X.
  rewrite insert_insert_eq in X. apply X; [apply lookup_insert_eq|done].
Qed.

Lemma wsteps_at c pg w rs c' pg' w' :
  wsteps c pg w c' pg' w' → rtc cstep (Conc c pg w rs) (Conc c' pg' w' rs).
Proof.
  intros H. induction H as [|c pg w c1 pg1 w1 c2 pg2 w2 H _ IH]; [apply rtc_refl|].
  eapply rtc_l; [by apply (step_writer (Conc c pg w rs))|done].
Qed.

(** The control with another head. *)
Lemma publish_reserve c s :
  aget (descriptor c) s = Ok 0 →
  publish (reserve c s) s = set_head c (SharedHead s s (head_produced (head c))).
Proof.
  intros [_ E]%aget_Ok. unfold publish, reserve, swap_in. cbn. rewrite list_insert_insert_eq.
  rewrite (list_insert_id (descriptor c) _ _ E). by destruct c.
Qed.

Lemma reader_denied c pg rs id prev t :
  kdata_next (head_whead (head c)) = t → aget (descriptor c) t = Ok 0 →
  rtc cstep (Conc c pg WIdle (<[id := RRead prev t]> rs))
    (Conc (set_head c (SharedHead t t (head_produced (head c)))) pg WIdle
       (<[id := RRead prev (kdata_next t)]> rs)).
Proof.
  intros Ht E. rewrite <- publish_reserve by done.
  etransitivity; [by apply wsteps_at, (writer_reserves _ _ t)|].
  eapply rtc_l; [apply cstep_at, (r_read id _ prev t 1), aget_insert_eq; by eapply aget_Ok_range|].
  eapply rtc_l; [by apply cstep_at, r_owned|].
  by apply wsteps_at, writer_publishes.
Qed.

Lemma reader_bit_alone id :
  0 ≤ id < KDATA_READERS → let b := KDATA_DSC_READER_BIT id in
  ctrue (Z.land b KDATA_DSC_WRITER_OWNED) = false ∧ u16 (Z.lor b b) = b ∧ release_value id b = 0.
Proof.
  unfold KDATA_READERS. intros H.
  assert (id = 0 ∨ id = 1 ∨ id = 2 ∨ id = 3 ∨ id = 4 ∨ id = 5) as X by lia.
  by destruct X as [->|[->|[->|[->|[->| ->]]]]].
Qed.

(** The last two steps of [kdata_next_generic] after a release. *)
Lemma count_enters c pg w rs id rd s :
  aget (reader c) id = Ok rd →
  ∃ c' rd', rtc cstep (Conc c pg w (<[id := RCount s]> rs)) (Conc c' pg w (<[id := RIdle]> rs)) ∧
    head c' = head c ∧ descriptor c' = descriptor c ∧ aget (reader c') id = Ok rd' ∧
    reader_rhead rd' = reader_rhead rd ∧ reader_entered rd' = 1.
Proof.
  intros Er. pose proof (aget_Ok_range _ _ _ Er) as Hr.
  destruct (aget_in_range (reader c) 0) as [r0 E0]; [lia|].
  set (r1 := set_consumed r0 (u64 (reader_consumed r0 + 1))).
  assert (Forall2 same_pos (reader c) (<[Z.to_nat 0 := r1]> (reader c))) as F by by eapply insert_pos.
  destruct (same_pos_at _ _ _ _ F Er) as (rd1 & E1 & [Q1 _]).
  eexists _, (set_entered rd1 1). split.
  { eapply rtc_l; [by eapply cstep_at, r_count, upd_reader_ok|].
    eapply rtc_l; [by eapply cstep_at, r_enter, upd_reader_ok|]. apply rtc_refl. }
  split_and!; try done. apply aget_insert_eq. by apply aget_Ok_range in E1.
Qed.

Section Lap.

Variables (c0 : kdata_control) (pg : list kring_page) (rs : gmap Z rpc) (id s : Z).

Hypothesis s_range : 0 ≤ s < KDATA_NPAGES.
Hypothesis at_s : head_whead (head c0) = s.
Hypothesis others_free : ∀ t, 0 ≤ t < KDATA_NPAGES → t ≠ s → aget (descriptor c0) t = Ok 0.

Lemma reader_goes_round n :
  Z.of_nat n < KDATA_NPAGES → ∃ h, head_whead h = cyc s (Z.of_nat n) ∧
  rtc cstep (Conc c0 pg WIdle (<[id := RRead s (kdata_next s)]> rs))
    (Conc (set_head c0 h) pg WIdle (<[id := RRead s (cyc s (Z.of_nat n + 1))]> rs)).
Proof.
  induction n as [|n IH]; intros Hn.
  - exists (head c0). rewrite cyc_0, <- cyc_next, cyc_0 by done. split; [done|]. by destruct c0.
  - destruct IH as (h & Hh & IH); [lia|]. replace (Z.of_nat (S n)) with (Z.of_nat n + 1) by lia.
    exists (SharedHead (cyc s (Z.of_nat n + 1)) (cyc s (Z.of_nat n + 1)) (head_produced h)).
    split; [done|]. etransitivity; [exact IH|]. rewrite <- (cyc_next _ (Z.of_nat n + 1)).
    apply (reader_denied (set_head c0 h)); [cbn; by rewrite Hh, cyc_next|].
    apply others_free; [apply cyc_range|]. intros X. rewrite <- (cyc_0 s s_range) in X at 2.
    apply cyc_inj in X; lia.
Qed.

(** Its own steps once it is back. *)
Lemma reader_drops_own h rd :
  0 ≤ id < KDATA_READERS → aget (reader c0) id = Ok rd → reader_rhead rd = s → reader_entered rd ≠ 0 →
  aget (descriptor c0) s = Ok (KDATA_DSC_READER_BIT id) →
  ∃ c rd', rtc cstep (Conc (set_head c0 h) pg WIdle (<[id := RRead s s]> rs))
      (Conc c pg WIdle (<[id := RIdle]> rs)) ∧
    head c = h ∧ descriptor c = <[Z.to_nat s := 0]> (descriptor c0) ∧
    aget (reader c) id = Ok rd' ∧ reader_rhead rd' = s ∧ reader_entered rd' ≠ 0.
Proof.
  clear s_range at_s others_free.
  intros Hid Er Hrh He Ed. set (b := KDATA_DSC_READER_BIT id) in *.
  assert (ctrue (Z.land b KDATA_DSC_WRITER_OWNED) = false ∧ u16 (Z.lor b b) = b ∧ release_value id b = 0)
    as (B1 & B2 & B3) by (apply reader_bit_alone, Hid).
  pose proof (aget_Ok_range _ _ _ Ed) as Hs. pose proof Ed as [_ X]%aget_Ok.
  assert (swap_in (set_head c0 h) s b = set_head c0 h) as Es.
  { unfold swap_in. cbn. rewrite list_insert_id by done. by destruct c0. }
  set (c1 := set_descriptor (set_readers c0 (<[Z.to_nat id := set_rhead rd s]> (reader c0)))
    (<[Z.to_nat s := 0]> (descriptor c0))).
  destruct (count_enters (set_head c1 h) pg WIdle rs id (set_rhead rd s) s) as (c & rd' & Hr & H).
  { by apply aget_insert_eq, (aget_Ok_range _ _ _ Er). }
  exists c, rd'. cbn in H. split; [|intuition congruence].
  eapply rtc_l; [by apply cstep_at, r_read|].
  eapply rtc_l; [apply cstep_at; eapply r_take; [done|by apply write_back_ok]|].
  rewrite Z.eqb_refl. fold b. rewrite B2. change (set_descriptor _ _) with (swap_in (set_head c0 h) s b).
  rewrite Es.
  eapply rtc_l; [by apply cstep_at, r_store, upd_reader_ok|].
  eapply rtc_l; [apply cstep_at, r_check; by apply aget_insert_eq, (aget_Ok_range _ _ _ Er)|].
  cbn [set_rhead reader_entered]. rewrite (proj2 (ctrue_true _) He).
  eapply rtc_l; [by apply cstep_at, r_rel|].
  eapply rtc_l; [apply cstep_at; eapply r_swap; by apply write_back_ok|].
  rewrite Z.eqb_refl, B3. exact Hr.
Qed.

End Lap.

(** C39: A reader that has slot [s] while the other slots are free and the writer
    is about to go on from [s] can be denied every other slot by the writer alone,
    come back to [s], and release it while it goes on reading it: there is a run in
    which the writer then owns the slot the reader has. *)
Theorem lap_breaks_exclusion c pg rs id s rd :
  0 ≤ s < KDATA_NPAGES → head_whead (head c) = s →
  (∀ t, 0 ≤ t < KDATA_NPAGES → t ≠ s → aget (descriptor c) t = Ok 0) →
  0 ≤ id < KDATA_READERS → rs !! id = Some RIdle →
  aget (reader c) id = Ok rd → reader_rhead rd = s → reader_entered rd ≠ 0 →
  aget (descriptor c) s = Ok (KDATA_DSC_READER_BIT id) →
  ∃ st rd', rtc cstep (Conc c pg WIdle rs) st ∧ wowned (cc_writer st) = Some s ∧
    cc_reader st !! id = Some RIdle ∧ aget (reader (cc_control st)) id = Ok rd' ∧ s ∈ rheld rd' RIdle.
Proof.
  intros Hs Hh Hfree Hid Hp Er Hrh He Ed. pose proof (aget_Ok_range _ _ _ Ed) as Hd.
  destruct (reader_goes_round c pg rs id s Hs Hh Hfree (Z.to_nat (KDATA_NPAGES - 1))) as (h & Hwh & R1);
    [done|].
  assert (cyc s (Z.of_nat (Z.to_nat (KDATA_NPAGES - 1)) + 1) = s) as Ec.
  { change (Z.of_nat _ + 1) with (1 * KDATA_NPAGES). unfold cyc. rewrite Z.mod_add by done.
    by apply Z.mod_small. }
  rewrite Ec in R1.
  destruct (reader_drops_own c pg rs id s h rd Hid Er Hrh He Ed) as (c1 & rd' & R2 & Hh1 & Hd1 & Er1 & Hr1 & He1).
  assert (aget (descriptor c1) s = Ok 0) as E0 by (rewrite Hd1; by apply aget_insert_eq).
  exists (Conc (reserve c1 s) pg (WSwap s 1) (<[id := RIdle]> rs)), rd'. split_and!.
  - eapply rtc_l; [apply (step_reader (Conc c pg WIdle rs) id RIdle); [done|by apply r_begin]|].
    cbn [cc_page cc_writer cc_reader]. rewrite Hrh. etransitivity; [exact R1|]. etransitivity; [exact R2|].
    apply wsteps_at, writer_reserves; [|done]. by rewrite Hh1, Hwh, cyc_next.
  - done.
  - apply lookup_insert_eq.
  - done.
  - cbn. rewrite (proj2 (ctrue_true _) He1), Hr1. by left.
Qed.

(** Reader 2 of the run above once its call has returned page 0. *)
Definition lap_control : kdata_control :=
  set_readers (swap_in demo_published 0 16)
    (<[Z.to_nat 2 := SharedReader 0 0 1 0]> (reader demo_published)).

Definition lap_readers : gmap Z rpc :=
  <[2 := RIdle]> (<[2 := RTest 2047 0 0]> (<[2 := RIdle]> (cc_reader conc_init))).

Lemma lap_reachable : rtc nstep conc_init (Conc lap_control (kr_page fresh_kdata_ring) WIdle lap_readers).
Proof.
  pose (pg := kr_page fresh_kdata_ring). pose (rs := <[2 := RIdle]> (cc_reader conc_init)).
  pose proof init_lap_free as L0. assert (lap_free rs) as L1 by by apply lap_free_insert.
  etransitivity; [exact demo_publishes|].
  apply (rsteps_run 2 _ _ _ _ (RTest 2047 0 0)); [|by apply lookup_insert_eq|by apply lap_free_insert].
  eapply rs_cons; [apply (r_take 2 demo_published 2047 0 0 0 (swap_in demo_published 0 16)); by vm_compute|done|].
  eapply rs_cons; [apply (r_store 2 _ 2047 0 (set_readers (swap_in demo_published 0 16)
    (<[Z.to_nat 2 := SharedReader 0 0 0 0]> (reader demo_published)))); by vm_compute|done|].
  eapply rs_cons; [apply (r_check 2 _ 2047 0 (SharedReader 0 0 0 0)); by vm_compute|done|].
  eapply rs_cons; [apply (r_enter 2 _ 0 lap_control); by vm_compute|done|apply rs_refl].
Qed.

Lemma lap_breaks_exclusion_witness :
  ∃ st rd', rtc cstep conc_init st ∧ wowned (cc_writer st) = Some 0 ∧
    cc_reader st !! 2 = Some RIdle ∧ aget (reader (cc_control st)) 2 = Ok rd' ∧ 0 ∈ rheld rd' RIdle.
Proof.
  destruct (lap_breaks_exclusion lap_control (kr_page fresh_kdata_ring) lap_readers 2 0 (SharedReader 0 0 1 0))
    as (st & rd' & R & H); try (by vm_compute).
  - intros t Ht Hne. assert (descriptor lap_control = 16 :: replicate 2047 0) as -> by by vm_compute.
    unfold KDATA_NPAGES in Ht. apply aget_lookup; [lia|].
    replace (Z.to_nat t) with (S (Z.to_nat (t - 1))) by lia. apply lookup_replicate. split; [done|lia].
  - exists st, rd'. split; [|exact H]. etransitivity; [|exact R].
    apply (rtc_subrel nstep); [intros x y Hxy; apply Hxy|exact lap_reachable].
Defined.
