(* ===== verification/KCtrl.v ===== *)
(** * kring/kctrl.h, libctrl.c, kctrl.c: the control ring

    A control ring is a queue of pages made of three linked lists over one array
    of [next] fields: the free list, the forward list that starts at [head], and
    the stack that writers push to.  The reader turns the stack around before it
    reads.  One definition per function of kctrl.h, then the writers and readers
    of libctrl.c and kctrl.c, then the initialisation. *)

From S2P Require Import Prelude KrDep KData KDataIO.

(** ** Constants *)

Definition KCTRL : Z := 20.
Definition KCTRL_NPAGES : Z := 2048.
Definition KCTRL_INDEX (off : Z) : Z := Z.land off 0x7ff.
Definition KCTRL_NULL : Z := KCTRL_NPAGES.
Definition KCTRL_MAX_RINGS_PER_SET : Z := 32.
Definition KCTRL_PGOFF_ID_SHIFT : Z := 0.
Definition KCTRL_PGOFF_ID_MASK : Z := 0x1f.
Definition KCTRL_PGOFF_REGION_SHIFT : Z := 5.
Definition KCTRL_PGOFF_REGION_MASK : Z := 0x20.
Definition KCTRL_RING_ID_ALL : Z := -1.
Definition KCTRL_NLEN : Z := 32.
Definition KCTRL_WRITERS : Z := 6.
Definition KCTRL_READERS : Z := 1.

(** ** Shared structures *)

Record kctrl_shared_head := CtrlHead {
  ch_head : Z;
  ch_tail : Z;
  ch_free : Z;
  ch_stack : Z;
}.

(** struct kctrl_control: [ctrl_writer] has the [wloc] of each writer,
    [ctrl_next] the [next] of each descriptor; the reader area holds one unused
    character. *)
Record kctrl_control := KctrlControl {
  ctrl_head : kctrl_shared_head;
  ctrl_writer : list Z;
  ctrl_next : list Z;
}.

(** sizeof on LP64: four, one and one unsigned longs, and a char. *)
Definition sizeof_ctrl_head : Z := 32.
Definition sizeof_ctrl_writer : Z := 8.
Definition sizeof_ctrl_reader : Z := 1.
Definition sizeof_ctrl_desc : Z := 8.

Definition KCTRL_CTRL_SZ : Z :=
  sizeof_ctrl_head + sizeof_ctrl_writer * KCTRL_WRITERS +
  sizeof_ctrl_reader * KCTRL_READERS + sizeof_ctrl_desc * KCTRL_NPAGES.
Definition KCTRL_CTRL_OFF_HEAD : Z := 0.
Definition KCTRL_CTRL_OFF_WRITER : Z := KCTRL_CTRL_OFF_HEAD + sizeof_ctrl_head.
Definition KCTRL_CTRL_OFF_READER : Z :=
  KCTRL_CTRL_OFF_WRITER + sizeof_ctrl_writer * KCTRL_WRITERS.
Definition KCTRL_CTRL_OFF_DESC : Z :=
  KCTRL_CTRL_OFF_READER + sizeof_ctrl_reader * KCTRL_READERS.
Definition KCTRL_DATA_SZ : Z := KRING_PAGE_SIZE * KCTRL_NPAGES.

Record kctrl_ring := KctrlRing {
  cr_control : kctrl_control;
  cr_page : list kring_page;
}.

Abbreviation kctrl_mem := (list kctrl_ring).

(** The page headers have the layout of the data ring's. *)
Definition kctrl_packet_max_data : Z := KRING_PAGE_SIZE - Z.of_nat sizeof_packet_header.
Definition kctrl_decrypted_max_data : Z :=
  KRING_PAGE_SIZE - Z.of_nat sizeof_decrypted_header.
Definition kctrl_plain_max_data : Z := KRING_PAGE_SIZE - Z.of_nat sizeof_plain_header.

(** ** Field access *)

Definition set_ch_head (c : kctrl_control) (v : Z) : kctrl_control :=
  let h := ctrl_head c in
  KctrlControl (CtrlHead v (ch_tail h) (ch_free h) (ch_stack h)) (ctrl_writer c) (ctrl_next c).
Definition set_ch_tail (c : kctrl_control) (v : Z) : kctrl_control :=
  let h := ctrl_head c in
  KctrlControl (CtrlHead (ch_head h) v (ch_free h) (ch_stack h)) (ctrl_writer c) (ctrl_next c).
Definition set_ch_free (c : kctrl_control) (v : Z) : kctrl_control :=
  let h := ctrl_head c in
  KctrlControl (CtrlHead (ch_head h) (ch_tail h) v (ch_stack h)) (ctrl_writer c) (ctrl_next c).
Definition set_ch_stack (c : kctrl_control) (v : Z) : kctrl_control :=
  let h := ctrl_head c in
  KctrlControl (CtrlHead (ch_head h) (ch_tail h) (ch_free h) v) (ctrl_writer c) (ctrl_next c).

(** [control->descriptor[ KCTRL_INDEX(off) ].next] *)
Definition get_next (c : kctrl_control) (off : Z) : res Z :=
  aget (ctrl_next c) (KCTRL_INDEX off).
Definition set_next (c : kctrl_control) (off v : Z) : res kctrl_control :=
  ns ← aset (ctrl_next c) (KCTRL_INDEX off) v;
  Ok (KctrlControl (ctrl_head c) (ctrl_writer c) ns).

Definition get_wloc (c : kctrl_control) (id : Z) : res Z := aget (ctrl_writer c) id.
Definition set_wloc (c : kctrl_control) (id v : Z) : res kctrl_control :=
  ws ← aset (ctrl_writer c) id v;
  Ok (KctrlControl (ctrl_head c) ws (ctrl_next c)).

(** __sync_val_compare_and_swap on [head->free] and [head->stack]. *)
Definition cas_free (c : kctrl_control) (old new : Z) : Z * kctrl_control :=
  let v := ch_free (ctrl_head c) in
  if v =? old then (v, set_ch_free c new) else (v, c).
Definition cas_stack (c : kctrl_control) (old new : Z) : Z * kctrl_control :=
  let v := ch_stack (ctrl_head c) in
  if v =? old then (v, set_ch_stack c new) else (v, c).

(** [kctrl_control(u->control)]: the one control a handle uses. *)
Definition ctrl_ring (u : kring_user) (m : kctrl_mem) : res (Z * kctrl_ring) :=
  i ← aget (u_control u) 0;
  r ← aget m i;
  Ok (i, r).

Definition put_ctrl (m : kctrl_mem) (i : Z) (c : kctrl_control) : res kctrl_mem :=
  r ← aget m i;
  aset m i (KctrlRing c (cr_page r)).

(** ** The functions of the header, on the control they work on *)

Definition kctrl_page_data (u : kring_user) (off : Z) : res page_ptr :=
  if u_socket u <? 0 then
    r ← deref (u_pd u); Ok (PagePtr r (KCTRL_INDEX off))
  else
    r ← aget (u_data u) 0; Ok (PagePtr r (KCTRL_INDEX off)).

Definition kctrl_avail_impl (c : kctrl_control) : res bool :=
  n ← get_next c (ch_head (ctrl_head c));
  if negb (n =? KCTRL_NULL) then Ok true
  else
    s ← get_next c (ch_stack (ctrl_head c));
    Ok (negb (s =? KCTRL_NULL)).

Definition kctrl_avail (u : kring_user) (m : kctrl_mem) : res bool :=
  '(_, r) ← ctrl_ring u m;
  kctrl_avail_impl (cr_control r).

Fixpoint kctrl_push_to_free_list (fuel : nat) (c : kctrl_control) (head : Z) : res kctrl_control :=
  match fuel with
  | O => Spin
  | S fuel =>
      let free := ch_free (ctrl_head c) in
      c ← set_next c head free;
      let '(before, c) := cas_free c free head in
      if negb (before =? free) then kctrl_push_to_free_list fuel c head else Ok c
  end.

(** The loop of [kctrl_reverse_stack]; [prev] and [stack] are its variables. *)
Fixpoint reverse_loop (fuel : nat) (c : kctrl_control) (prev stack : Z) : res kctrl_control :=
  match fuel with
  | O => Spin
  | S fuel =>
      if stack =? KCTRL_NULL then Ok c
      else
        next ← get_next c stack;
        c ← set_next c stack prev;
        reverse_loop fuel c stack next
  end.

Definition kctrl_reverse_stack (fuel : nat) (c : kctrl_control) : res kctrl_control :=
  reverse_loop fuel c KCTRL_NULL (ch_stack (ctrl_head c)).

(** What [kctrl_next_generic] does to the control. *)
Definition kctrl_next_control (fuel : nat) (c : kctrl_control) : res kctrl_control :=
  c ← kctrl_reverse_stack fuel c;
  let head := ch_head (ctrl_head c) in
  next ← get_next c (ch_head (ctrl_head c));
  kctrl_push_to_free_list fuel (set_ch_head c next) head.

Definition kctrl_next_generic (fuel : nat) (u : kring_user) (m : kctrl_mem)
    : res (page_ptr * kctrl_mem) :=
  '(i, r) ← ctrl_ring u m;
  c ← kctrl_next_control fuel (cr_control r);
  m ← put_ctrl m i c;
  p ← kctrl_page_data u (ch_head (ctrl_head c));
  Ok (p, m).

(** [descriptor[free]] is indexed without [KCTRL_INDEX] when it is read. *)
Fixpoint kctrl_allocate (fuel : nat) (c : kctrl_control) (writer_id : Z)
    : res (Z * kctrl_control) :=
  match fuel with
  | O => Spin
  | S fuel =>
      let free := ch_free (ctrl_head c) in
      if free =? KCTRL_NULL then Ok (KCTRL_NULL, c)
      else
        next ← aget (ctrl_next c) free;
        let '(before, c) := cas_free c free next in
        if negb (before =? free) then kctrl_allocate fuel c writer_id
        else
          c ← set_wloc c writer_id free;
          c ← set_next c free KCTRL_NULL;
          Ok (free, c)
  end.

Definition kctrl_write_FIRST (fuel : nat) (u : kring_user) (m : kctrl_mem)
    : res (option page_ptr * kctrl_mem) :=
  '(i, r) ← ctrl_ring u m;
  '(free, c) ← kctrl_allocate fuel (cr_control r) (u_writer_id u);
  m ← put_ctrl m i c;
  if free =? KCTRL_NULL then Ok (None, m)
  else
    p ← kctrl_page_data u free;
    Ok (Some p, m).

Fixpoint kctrl_push_new (fuel : nat) (c : kctrl_control) (writer_id : Z) : res kctrl_control :=
  match fuel with
  | O => Spin
  | S fuel =>
      let stack := ch_stack (ctrl_head c) in
      wloc ← get_wloc c writer_id;
      c ← set_next c wloc stack;
      wloc ← get_wloc c writer_id;
      let '(before, c) := cas_stack c stack wloc in
      if negb (before =? stack) then kctrl_push_new fuel c writer_id else Ok c
  end.

Definition kctrl_write_SECOND (fuel : nat) (u : kring_user) (m : kctrl_mem) : res kctrl_mem :=
  '(i, r) ← ctrl_ring u m;
  c ← kctrl_push_new fuel (cr_control r) (u_writer_id u);
  put_ctrl m i c.

(** ** Pages *)

Definition cpage_at (m : kctrl_mem) (p : page_ptr) : res kring_page :=
  r ← aget m (pp_ring p);
  aget (cr_page r) (pp_off p).

Definition cpage_load (m : kctrl_mem) (p : page_ptr) (o n : nat) : res (list Z) :=
  pg ← cpage_at m p;
  mem_load pg o n.

Definition cpage_store (m : kctrl_mem) (p : page_ptr) (o : nat) (bs : list Z) : res kctrl_mem :=
  r ← aget m (pp_ring p);
  pg ← aget (cr_page r) (pp_off p);
  pg ← mem_store pg o bs;
  pgs ← aset (cr_page r) (pp_off p) pg;
  aset m (pp_ring p) (KctrlRing (cr_control r) pgs).

Definition cload_int (m : kctrl_mem) (p : page_ptr) (o : nat) : res Z :=
  bs ← cpage_load m p o 4; Ok (i32 (le_val bs)).
Definition cload_long (m : kctrl_mem) (p : page_ptr) (o : nat) : res Z :=
  bs ← cpage_load m p o 8; Ok (i64 (le_val bs)).
Definition cload_char (m : kctrl_mem) (p : page_ptr) (o : nat) : res Z :=
  bs ← cpage_load m p o 1; Ok (i8 (le_val bs)).

(** ** libctrl.c and kctrl.c *)

(** The body of [kctrl_write_decrypted] is compiled out. *)
Definition kctrl_write_decrypted (m : kctrl_mem) : res (Z * kctrl_mem) := Ok (0, m).

(** The stores of [kctrl_write_plain] through [h]. *)
Definition cfill_plain (data : list Z) (len : Z) (h : page_ptr) (m : kctrl_mem) : res kctrl_mem :=
  m ← cpage_store m h 0 (le_bytes 4 len);
  bytes ← buf_prefix data len;
  cpage_store m h sizeof_plain_header bytes.

(** The loop of [kctrl_write_plain]: without a free page the writer sleeps in
    [recv]; [recv m] is the memory when it wakes, after what the others did.
    (Whether it wakes is a matter of the wait queues: [wait_step] in [KCtrlProps].) *)
Fixpoint kctrl_write_wait (tries fuel : nat) (u : kring_user) (recv : kctrl_mem → kctrl_mem)
    (m : kctrl_mem) : res (page_ptr * kctrl_mem) :=
  match tries with
  | O => Spin
  | S tries =>
      '(h, m) ← kctrl_write_FIRST fuel u m;
      match h with
      | Some h => Ok (h, m)
      | None => kctrl_write_wait tries fuel u recv (recv m)
      end
  end.

Definition kctrl_write_plain (tries fuel : nat) (u : kring_user) (recv : kctrl_mem → kctrl_mem)
    (m : kctrl_mem) (data : list Z) (len : Z) : res (Z * kctrl_mem) :=
  let len := if kctrl_plain_max_data <? len then kctrl_plain_max_data else len in
  '(h, m) ← kctrl_write_wait tries fuel u recv m;
  m ← cfill_plain data len h m;
  m ← kctrl_write_SECOND fuel u m;
  Ok (0, m).

Definition kctrl_read_wait (recv : Z * Z) : Z :=
  let '(ret, errno) := recv in
  if (ret =? -1) && (errno =? EINTR) then 0 else ret.

Definition kctrl_next_packet (fuel : nat) (u : kring_user) (m : kctrl_mem)
    : res (kdata_packet * kctrl_mem) :=
  '(h, m) ← kctrl_next_generic fuel u m;
  len ← cload_int m h 0;
  dir ← cload_char m h 4;
  let caplen := if len <=? kctrl_packet_max_data then len else kctrl_packet_max_data in
  Ok (KdataPacket dir len caplen (h, sizeof_packet_header), m).

Definition kctrl_next_decrypted (fuel : nat) (u : kring_user) (m : kctrl_mem)
    : res (kdata_decrypted * kctrl_mem) :=
  '(h, m) ← kctrl_next_generic fuel u m;
  len ← cload_int m h 0;
  id ← cload_long m h 8;
  type ← cload_char m h 16;
  Ok (KdataDecrypted id (u8 type) (h, 17%nat) (h, sizeof_decrypted_header) len, m).

Definition kctrl_next_plain (fuel : nat) (u : kring_user) (m : kctrl_mem)
    : res (kdata_plain * kctrl_mem) :=
  '(h, m) ← kctrl_next_generic fuel u m;
  len ← cload_int m h 0;
  Ok (KdataPlain len (h, sizeof_plain_header), m).

Definition kctrl_kavail (kring : kring_kern) (m : kctrl_mem) : res bool :=
  kctrl_avail (kk_user kring) m.

Definition kctrl_knext_plain (fuel : nat) (kring : kring_kern) (m : kctrl_mem)
    : res (kdata_plain * kctrl_mem) :=
  '(h, m) ← kctrl_next_generic fuel (kk_user kring) m;
  len ← cload_int m h 0;
  Ok (KdataPlain len (h, sizeof_plain_header), m).

(** [for ( i = 1; i < KCTRL_NPAGES - 1; i++ )]: [n] stores from [i] on. *)
Fixpoint link_free (n : nat) (i : Z) (ns : list Z) : res (list Z) :=
  match n with
  | O => Ok ns
  | S n =>
      ns ← aset ns i (i + 1);
      link_free n (i + 1) ns
  end.

Definition kctrl_init_control (c : kctrl_control) : res kctrl_control :=
  let c := set_ch_stack (set_ch_tail (set_ch_head c 0) 0) 0 in
  ns ← aset (ctrl_next c) 0 KCTRL_NULL;
  let c := set_ch_free (KctrlControl (ctrl_head c) (ctrl_writer c) ns) 1 in
  ns ← link_free (Z.to_nat (KCTRL_NPAGES - 2)) 1 (ctrl_next c);
  ns ← aset ns (KCTRL_NPAGES - 1) KCTRL_NULL;
  Ok (KctrlControl (ctrl_head c) (ctrl_writer c) ns).

(** A control region as it is allocated: all zero. *)
Definition zero_ctrl : kctrl_control :=
  KctrlControl (CtrlHead 0 0 0 0) (replicate (Z.to_nat KCTRL_WRITERS) 0)
    (replicate (Z.to_nat KCTRL_NPAGES) 0).
