(* ===== verification/KCtrlQueue.v ===== *)
(** * The control ring as a first-in first-out queue of pages

    [ctrl_inv] describes the three lists of a control ring and says that they
    and the pages writers are filling make up the ring.  The forward list and the
    stack share their last page; reversing the stack makes the whole queue one
    forward list. *)

From S2P Require Import Prelude KrDep KData KDataIO KDataRing KDataQueue KCtrl.

(** ** Linked lists in the [next] array *)

Definition in_ring (p : Z) : Prop := 0 ≤ p < KCTRL_NPAGES.

(** From [x], following [next], come the pages [l] and then [y]. *)
Fixpoint seg (ns : list Z) (x : Z) (l : list Z) (y : Z) : Prop :=
  match l with
  | [] => x = y
  | p :: l => x = p ∧ in_ring p ∧ ∃ n, aget ns p = Ok n ∧ seg ns n l y
  end.

(** A list that ends. *)
Definition chain (ns : list Z) (x : Z) (l : list Z) : Prop := seg ns x l KCTRL_NULL.

Lemma index_in_ring p : in_ring p → KCTRL_INDEX p = p.
Proof.
  intros H. unfold KCTRL_INDEX. change 0x7ff with (Z.ones 11). rewrite Z.land_ones by lia.
  apply Z.mod_small. exact H.
Qed.

Lemma seg_app ns l1 : ∀ x l2 y, seg ns x (l1 ++ l2) y ↔ ∃ z, seg ns x l1 z ∧ seg ns z l2 y.
Proof.
  induction l1 as [|p l1 IH]; intros x l2 y; cbn.
  - split; [intros; by exists x|]. intros (z & -> & ?). done.
  - split.
    + intros (-> & Hp & n & En & (z & ? & ?)%IH). exists z. split; [|done]. eauto.
    + intros (z & (-> & Hp & n & En & S1) & S2). split; [done|]. split; [done|].
      exists n. split; [done|]. apply IH. eauto.
Qed.

Lemma seg_start ns x p l y : seg ns x (p :: l) y → x = p ∧ in_ring p.
Proof. intros (-> & H & _). done. Qed.

Lemma seg_in_ring ns l : ∀ x y, seg ns x l y → Forall in_ring l.
Proof. induction l as [|p l IH]; intros x y; [done|]. intros (_ & H & n & _ & S). constructor; eauto. Qed.

Lemma seg_agree ns ns' l : ∀ x y,
  seg ns x l y → (∀ p, p ∈ l → aget ns' p = aget ns p) → seg ns' x l y.
Proof.
  induction l as [|p l IH]; intros x y; [done|]. intros (-> & Hp & n & En & S) A.
  split; [done|]. split; [done|]. exists n. split; [by rewrite A by left|].
  apply IH; [done|]. intros q Hq. apply A. by right.
Qed.

(** The last page of a list points past it. *)
Lemma seg_last ns l d x y : seg ns x l y → l ≠ [] → seg ns (List.last l d) [List.last l d] y.
Proof.
  intros S Hl. destruct (exists_last Hl) as (l' & p & ->).
  apply seg_app in S as (z & _ & S). rewrite List.last_last.
  by destruct S as (-> & S).
Qed.

(** Writing outside a list leaves it. *)
Lemma seg_insert ns p v l : ∀ x y,
  seg ns x l y → p ∉ l → in_ring p → seg (<[Z.to_nat p := v]> ns) x l y.
Proof.
  induction l as [|q l IH]; intros x y; [done|]. intros (-> & Hq & n & En & S) Hp Hr.
  apply not_elem_of_cons in Hp as [Hne Hp]. split; [done|]. split; [done|]. exists n.
  split; [|by apply IH]. rewrite aget_insert_ne; [done| |done]. apply Hr.
Qed.

(** Putting a page in front. *)
Lemma seg_push ns p l x y :
  seg ns x l y → in_ring p → p ∉ l → length ns = Z.to_nat KCTRL_NPAGES →
  seg (<[Z.to_nat p := x]> ns) p (p :: l) y.
Proof.
  intros S Hp Hn L. split; [done|]. split; [done|]. exists x. split; [|by apply seg_insert].
  apply aget_insert_eq. rewrite L. unfold in_ring in Hp. unfold KCTRL_NPAGES in *. lia.
Qed.

Lemma get_next_ok c p n : in_ring p → aget (ctrl_next c) p = Ok n → get_next c p = Ok n.
Proof. intros H E. unfold get_next. by rewrite index_in_ring. Qed.

Definition with_next (c : kctrl_control) (ns : list Z) : kctrl_control :=
  KctrlControl (ctrl_head c) (ctrl_writer c) ns.

Lemma set_next_ok c p v :
  in_ring p → length (ctrl_next c) = Z.to_nat KCTRL_NPAGES →
  set_next c p v = Ok (with_next c (<[Z.to_nat p := v]> (ctrl_next c))).
Proof.
  intros H L. unfold set_next. rewrite index_in_ring, aset_in_range, bind_Ok by
    (rewrite ?L; unfold in_ring, KCTRL_NPAGES in *; lia || done). done.
Qed.

(** ** Reversing *)

Lemma last_cons (p d : Z) l : List.last (p :: l) d = List.last l p.
Proof.
  revert p d. induction l as [|q l IH]; intros p d; [done|].
  change (List.last (q :: l) d = List.last (q :: l) p). by rewrite !IH.
Qed.

Lemma reverse_loop_ok l : ∀ fuel c prev x r,
  chain (ctrl_next c) x l → chain (ctrl_next c) prev r → NoDup (l ++ r) →
  length (ctrl_next c) = Z.to_nat KCTRL_NPAGES → (length l < fuel)%nat →
  ∃ ns, reverse_loop fuel c prev x = Ok (with_next c ns) ∧
    length ns = Z.to_nat KCTRL_NPAGES ∧
    chain ns (List.last l prev) (reverse l ++ r) ∧
    (∀ p, p ∉ l → aget ns p = aget (ctrl_next c) p).
Proof.
  induction l as [|p l IH]; intros fuel c prev x r Cl Cr ND L Hf.
  - destruct fuel; [cbn in Hf; lia|]. cbn in Cl. subst x. exists (ctrl_next c). cbn.
    split_and!; try done. by destruct c.
  - destruct fuel as [|fuel]; [cbn in Hf; lia|].
    destruct Cl as (-> & Hp & n & En & Cl). rewrite <- app_comm_cons in ND.
    apply NoDup_cons in ND as [Hnp ND]. apply not_elem_of_app in Hnp as [Hpl Hpr].
    cbn [reverse_loop]. destruct (Z.eqb_spec p KCTRL_NULL) as [->|_]; [unfold in_ring, KCTRL_NULL in Hp; lia|].
    rewrite (get_next_ok c p n Hp En), bind_Ok, (set_next_ok c p prev Hp L), bind_Ok.
    destruct (IH fuel (with_next c (<[Z.to_nat p := prev]> (ctrl_next c))) p n (p :: r))
      as (ns & E & Ln & C & O).
    + by apply seg_insert.
    + by apply seg_push.
    + apply NoDup_app in ND as (N1 & N2 & N3). apply NoDup_app. split; [done|]. split; [set_solver|]. by constructor.
    + cbn. by rewrite length_insert.
    + cbn in Hf. lia.
    + exists ns. split_and!; [done|done|..].
      * rewrite reverse_cons, <- app_assoc. cbn [app].
        by rewrite last_cons.
      * intros q [Hq Hq']%not_elem_of_cons. rewrite O by done. cbn.
        apply aget_insert_ne; [apply Hp|done].
Qed.

Lemma last_app_cons (l : list Z) p l' d : List.last (l ++ p :: l') d = List.last (p :: l') d.
Proof.
  revert d. induction l as [|q l IH]; intros d; [done|].
  change ((q :: l) ++ p :: l') with (q :: (l ++ p :: l')).
  by rewrite last_cons, IH, !last_cons.
Qed.

(** ** The state of a control ring *)

(** The forward list is [front] and then [join], the stack [stk] and then [join];
    [fly] are the pages writers have taken and not pushed. *)
Record ctrl_inv (front : list Z) (join : Z) (stk free fly : list Z) (c : kctrl_control) : Prop := {
  ci_len : length (ctrl_next c) = Z.to_nat KCTRL_NPAGES;
  ci_writers : length (ctrl_writer c) = Z.to_nat KCTRL_WRITERS;
  ci_fwd : chain (ctrl_next c) (ch_head (ctrl_head c)) (front ++ [join]);
  ci_stk : chain (ctrl_next c) (ch_stack (ctrl_head c)) (stk ++ [join]);
  ci_free : chain (ctrl_next c) (ch_free (ctrl_head c)) free;
  ci_all : front ++ [join] ++ stk ++ free ++ fly ≡ₚ seqZ 0 KCTRL_NPAGES;
}.

(** The reader is on page [held]; [q] are the pages still to be read, in order. *)
Definition ctrl_rep (held : Z) (q free fly : list Z) (c : kctrl_control) : Prop :=
  ∃ front join stk, ctrl_inv front join stk free fly c ∧
    front ++ join :: reverse stk = held :: q.

Lemma ci_nodup front join stk free fly c :
  ctrl_inv front join stk free fly c → NoDup (front ++ [join] ++ stk ++ free ++ fly).
Proof. intros I. rewrite (ci_all _ _ _ _ _ _ I). apply NoDup_seqZ. Qed.

Lemma ci_range front join stk free fly c p :
  ctrl_inv front join stk free fly c → p ∈ front ++ [join] ++ stk ++ free ++ fly → in_ring p.
Proof. intros I. rewrite (ci_all _ _ _ _ _ _ I), elem_of_seqZ. unfold in_ring. lia. Qed.

(** A page [p] in one copy among lists leaves the others without it. *)
Lemma apart_from front (join : Z) stk p rest :
  NoDup (front ++ [join] ++ stk ++ p :: rest) →
  (p ∉ front ++ [join]) ∧ (p ∉ stk ++ [join]) ∧ (p ∉ rest).
Proof.
  intros ND. rewrite !(app_assoc _ _ (p :: rest)) in ND. rewrite !app_assoc in ND.
  rewrite <- Permutation_middle in ND. apply NoDup_cons in ND as [Hp _].
  rewrite !not_elem_of_app in *. tauto.
Qed.

(** The pages of the ring: the one held, those queued, free, or being filled. *)
Lemma ctrl_rep_all held q free fly c :
  ctrl_rep held q free fly c → held :: q ++ free ++ fly ≡ₚ seqZ 0 KCTRL_NPAGES.
Proof.
  intros (front & join & stk & I & E). rewrite <- (ci_all _ _ _ _ _ _ I), app_comm_cons, <- E.
  rewrite (reverse_Permutation stk). by rewrite <- !app_assoc.
Qed.

Lemma ctrl_rep_nodup held q free fly c :
  ctrl_rep held q free fly c → NoDup (held :: q ++ free ++ fly).
Proof. intros R. rewrite (ctrl_rep_all _ _ _ _ _ R). apply NoDup_seqZ. Qed.

Lemma ctrl_rep_in_ring held q free fly c p :
  ctrl_rep held q free fly c → p ∈ held :: q ++ free ++ fly → in_ring p.
Proof. intros R. rewrite (ctrl_rep_all _ _ _ _ _ R), elem_of_seqZ. unfold in_ring. lia. Qed.

(** ** Operations *)

Lemma ctrl_avail_ok held q free fly c :
  ctrl_rep held q free fly c → kctrl_avail_impl c = Ok (bool_decide (q ≠ [])).
Proof.
  intros (front & join & stk & I & E). pose proof I as [_ _ Cf Cs _ _]. unfold kctrl_avail_impl.
  destruct front as [|h front].
  - destruct Cf as (Eh & Hj & n & En & ->). rewrite Eh, (get_next_ok _ _ _ Hj En), bind_Ok.
    cbn [Z.eqb negb]. rewrite Z.eqb_refl. cbn [negb].
    destruct stk as [|s stk]; cbn [app] in Cs.
    + destruct Cs as (Es & _). rewrite Es, (get_next_ok _ _ _ Hj En), bind_Ok.
      cbn in E. simplify_eq. done.
    + destruct Cs as (Es & Hs & k & Ek & S). rewrite Es, (get_next_ok _ _ _ Hs Ek), bind_Ok.
      assert (k ≠ KCTRL_NULL) as Hk.
      { destruct stk; apply seg_start in S as [-> Hr]; unfold in_ring, KCTRL_NULL in *; lia. }
      rewrite (proj2 (Z.eqb_neq _ _) Hk). cbn [app] in E. injection E as _ <-.
      rewrite bool_decide_eq_true_2; [done|]. rewrite reverse_cons. by destruct (reverse stk).
  - destruct Cf as (Eh & Hh & n & En & S). rewrite Eh, (get_next_ok _ _ _ Hh En), bind_Ok.
    assert (n ≠ KCTRL_NULL) as Hn.
    { destruct front; apply seg_start in S as [-> Hr]; unfold in_ring, KCTRL_NULL in *; lia. }
    rewrite (proj2 (Z.eqb_neq _ _) Hn). cbn [negb]. injection E as _ <-.
    rewrite bool_decide_eq_true_2; [done|]. by destruct front.
Qed.

(** Reversing the stack: the queue becomes the forward list. *)
Lemma reverse_stack_ok held q free fly c fuel :
  ctrl_rep held q free fly c → (length q + 1 < fuel)%nat →
  ∃ ns, kctrl_reverse_stack fuel c = Ok (with_next c ns) ∧
    chain ns (ch_head (ctrl_head c)) (held :: q) ∧
    chain ns (ch_free (ctrl_head c)) free ∧
    chain ns (ch_stack (ctrl_head c)) [List.last q held] ∧
    length ns = Z.to_nat KCTRL_NPAGES.
Proof.
  intros (front & join & stk & I & E) Hf. pose proof (ci_nodup _ _ _ _ _ _ I) as ND.
  pose proof I as [L _ Cf Cs Cr _].
  assert (length (stk ++ [join]) ≤ length q + 1)%nat as Hle.
  { apply (f_equal length) in E. rewrite !length_app in *. cbn in *. rewrite length_reverse in E. lia. }
  destruct (reverse_loop_ok (stk ++ [join]) fuel c KCTRL_NULL (ch_stack (ctrl_head c)) [])
    as (ns & Er & Ln & Cn & O); [done|done| |done|lia|].
  { rewrite app_nil_r. apply NoDup_app in ND as (_ & _ & ND). cbn in ND.
    apply NoDup_app. apply NoDup_cons in ND as [Hj ND]. apply NoDup_app in ND as (ND & _ & _).
    split; [done|]. split; [set_solver|apply NoDup_singleton]. }
  exists ns. unfold kctrl_reverse_stack. split; [done|].
  rewrite app_nil_r, reverse_app, List.last_last in Cn. cbn [reverse] in Cn.
  assert (∀ p, p ∈ front ++ free → p ∉ stk ++ [join]) as Hout.
  { intros p Hp. clear -ND Hp. rewrite !NoDup_app in ND. set_solver. }
  assert (chain ns (ch_head (ctrl_head c)) (held :: q)) as Ch.
  { rewrite <- E. apply seg_app in Cf as (z & Cf & Cj). apply seg_start in Cj as [-> _].
    apply seg_app. exists join. split; [|exact Cn].
    eapply seg_agree; [exact Cf|]. intros p Hp. apply O, Hout. set_solver. }
  split_and!; [done| | |done].
  - eapply seg_agree; [exact Cr|]. intros p Hp. apply O, Hout. set_solver.
  - replace (ch_stack (ctrl_head c)) with (List.last q held).
    { rewrite <- (last_cons held held q). by eapply seg_last. }
    rewrite <- (last_cons held held q), <- E, last_app_cons, last_cons.
    destruct stk as [|s stk]; apply seg_start in Cs as [-> _]; [done|].
    by rewrite reverse_cons, List.last_last.
Qed.

(** A ring whose stack has been reversed. *)
Lemma ctrl_rep_straight held q free fly c :
  length (ctrl_next c) = Z.to_nat KCTRL_NPAGES → length (ctrl_writer c) = Z.to_nat KCTRL_WRITERS →
  chain (ctrl_next c) (ch_head (ctrl_head c)) (held :: q) →
  chain (ctrl_next c) (ch_stack (ctrl_head c)) [List.last q held] →
  chain (ctrl_next c) (ch_free (ctrl_head c)) free →
  held :: q ++ free ++ fly ≡ₚ seqZ 0 KCTRL_NPAGES →
  ctrl_rep held q free fly c.
Proof.
  intros L W Ch Cs Cf P. destruct (exists_last (l := held :: q)) as (front & join & E); [done|].
  assert (List.last q held = join) as Ej.
  { rewrite <- (last_cons held held q), E. apply List.last_last. }
  exists front, join, []. split; [|by rewrite E].
  split; cbn [app]; try done; [by rewrite <- E|by rewrite <- Ej|].
  rewrite <- P, (app_comm_cons q (free ++ fly) held), E, <- app_assoc. done.
Qed.

Ltac ctrl_simpl := cbn [with_next set_ch_free set_ch_head set_ch_stack set_ch_tail ctrl_head
  ctrl_next ctrl_writer ch_head ch_free ch_stack ch_tail].

Lemma cas_free_ok c v new : ch_free (ctrl_head c) = v → cas_free c v new = (v, set_ch_free c new).
Proof. intros <-. unfold cas_free. by rewrite Z.eqb_refl. Qed.

Lemma cas_stack_ok c v new :
  ch_stack (ctrl_head c) = v → cas_stack c v new = (v, set_ch_stack c new).
Proof. intros <-. unfold cas_stack. by rewrite Z.eqb_refl. Qed.

(** Reading: the head moves to the oldest page queued, and the page held before
    goes to the free list. *)
Lemma ctrl_next_ok held p q free fly c fuel :
  ctrl_rep held (p :: q) free fly c → (length q + 2 < fuel)%nat →
  ∃ c', kctrl_next_control fuel c = Ok c' ∧ ch_head (ctrl_head c') = p ∧
    ctrl_rep p q (held :: free) fly c' ∧ ctrl_writer c' = ctrl_writer c.
Proof.
  intros R Hf. pose proof (ctrl_rep_all _ _ _ _ _ R) as All.
  pose proof (ctrl_rep_nodup _ _ _ _ _ R) as ND.
  assert (length (ctrl_writer c) = Z.to_nat KCTRL_WRITERS) as LW
    by (destruct R as (? & ? & ? & I & _); apply I).
  destruct (reverse_stack_ok _ _ _ _ _ fuel R) as (ns & Er & Ch & Cf & Cs & Ln); [cbn; lia|].
  destruct Ch as (Eh & Hh & n & En & Ch).
  unfold kctrl_next_control. step_with Er. cbn [with_next ctrl_head]. rewrite Eh.
  erewrite get_next_ok; [|done|exact En]. rewrite bind_Ok.
  destruct fuel as [|fuel]; [lia|]. cbn [kctrl_push_to_free_list].
  rewrite set_next_ok by done. rewrite bind_Ok, cas_free_ok by done. rewrite Z.eqb_refl. cbn [negb].
  eexists. split; [done|]. ctrl_simpl.
  pose proof (seg_start _ _ _ _ _ Ch) as [-> Hp]. split; [done|]. split; [|done].
  apply NoDup_cons in ND as [Hnh ND]. rewrite last_cons in Cs.
  assert ((held ∉ (p :: q)) ∧ (held ∉ free)) as [Hn1 Hn2] by set_solver.
  apply ctrl_rep_straight; ctrl_simpl; try done.
  - by rewrite length_insert.
  - by apply seg_insert.
  - apply seg_insert; [exact Cs| |done]. rewrite list_elem_of_singleton. intros ->. apply Hn1.
    rewrite <- (last_cons p p q). destruct (exists_last (l := p :: q)) as (l' & x & ->); [done|].
    rewrite List.last_last. apply elem_of_app. right. by apply list_elem_of_singleton.
  - by apply seg_push.
  - rewrite <- All. cbn [app]. rewrite <- (Permutation_middle q (free ++ fly) held).
    apply Permutation_swap.
Qed.

(** Taking a free page. *)
Lemma ctrl_allocate_ok held q p free fly c id fuel :
  ctrl_rep held q (p :: free) fly c → 0 ≤ id < KCTRL_WRITERS → (0 < fuel)%nat →
  ∃ c', kctrl_allocate fuel c id = Ok (p, c') ∧ ctrl_rep held q free (p :: fly) c' ∧
    ctrl_writer c' = <[Z.to_nat id := p]> (ctrl_writer c).
Proof.
  intros (front & join & stk & I & E) Hid Hf. pose proof (ci_nodup _ _ _ _ _ _ I) as ND.
  pose proof I as [L W Cf Cs (Ef & Hp & n & En & Cr) All].
  destruct fuel as [|fuel]; [lia|]. cbn [kctrl_allocate]. rewrite Ef.
  destruct (Z.eqb_spec p KCTRL_NULL) as [->|_]; [unfold in_ring, KCTRL_NULL in Hp; lia|].
  step_with En. rewrite cas_free_ok by done. rewrite Z.eqb_refl. cbn [negb].
  unfold set_wloc. rewrite aset_in_range by (cbn; rewrite W; unfold KCTRL_WRITERS in *; lia).
  rewrite !bind_Ok, set_next_ok by done. rewrite bind_Ok. eexists. split; [done|].
  split; [|done]. exists front, join, stk. split; [|done].
  apply apart_from in ND as (N1 & N2 & [N3 _]%not_elem_of_app).
  split; ctrl_simpl; [by rewrite length_insert|by rewrite length_insert|by apply seg_insert..|].
  rewrite <- All. cbn [app]. by rewrite (Permutation_middle free fly p).
Qed.

Lemma ctrl_allocate_full held q fly c id fuel :
  ctrl_rep held q [] fly c → (0 < fuel)%nat → kctrl_allocate fuel c id = Ok (KCTRL_NULL, c).
Proof.
  intros (front & join & stk & I & E) Hf. destruct fuel as [|fuel]; [lia|].
  pose proof (ci_free _ _ _ _ _ _ I) as Ef. cbn in Ef. cbn [kctrl_allocate].
  by rewrite Ef, Z.eqb_refl.
Qed.

(** Pushing a filled page: it goes to the end of the queue. *)
Lemma ctrl_push_ok held q free p fly c id fuel :
  ctrl_rep held q free (p :: fly) c → aget (ctrl_writer c) id = Ok p → (0 < fuel)%nat →
  ∃ c', kctrl_push_new fuel c id = Ok c' ∧ ctrl_rep held (q ++ [p]) free fly c' ∧
    ctrl_writer c' = ctrl_writer c.
Proof.
  intros (front & join & stk & I & E) Ew Hf. pose proof (ci_nodup _ _ _ _ _ _ I) as ND.
  assert (in_ring p) as Hp by (eapply ci_range; [done|set_solver]).
  pose proof I as [L W Cf Cs Cr All].
  destruct fuel as [|fuel]; [lia|]. cbn [kctrl_push_new]. unfold get_wloc.
  rewrite Ew, bind_Ok, set_next_ok, bind_Ok by done. cbn [with_next ctrl_writer].
  rewrite Ew, bind_Ok, cas_stack_ok by done. rewrite Z.eqb_refl. cbn [negb].
  eexists. split; [done|]. split; [|done]. exists front, join, (p :: stk).
  rewrite <- (Permutation_middle free fly p) in ND.
  apply apart_from in ND as (N1 & N2 & [N3 _]%not_elem_of_app).
  split.
  - split; ctrl_simpl; [by rewrite length_insert|done|by apply seg_insert|by apply seg_push|by apply seg_insert|].
    rewrite <- All. cbn. apply Permutation_app_head, Permutation_skip.
    rewrite (app_assoc stk free (p :: fly)), <- Permutation_middle. by rewrite app_assoc.
  - rewrite reverse_cons, app_comm_cons, app_assoc. by rewrite E.
Qed.

Lemma ctrl_rep_fly held q free fly fly' c :
  fly ≡ₚ fly' → ctrl_rep held q free fly c → ctrl_rep held q free fly' c.
Proof.
  intros P (front & join & stk & [L W Cf Cs Cr All] & E). exists front, join, stk.
  split; [|done]. split; try done. by rewrite <- P.
Qed.

(** ** A new ring *)

Lemma seg_seqZ ns n : ∀ a,
  0 ≤ a → a + Z.of_nat n ≤ KCTRL_NPAGES →
  (∀ i, a ≤ i < a + Z.of_nat n → aget ns i = Ok (i + 1)) →
  seg ns a (seqZ a (Z.of_nat n)) (a + Z.of_nat n).
Proof.
  induction n as [|n IH]; intros a Ha Hn H.
  - rewrite seqZ_nil by lia. cbn [seg]. lia.
  - rewrite seqZ_cons by lia. split; [done|]. split; [unfold in_ring; lia|].
    exists (a + 1). split; [apply H; lia|].
    replace (a + Z.of_nat (S n)) with (a + 1 + Z.of_nat n) by lia.
    replace (Z.succ a) with (a + 1) by lia. replace (Z.pred (Z.of_nat (S n))) with (Z.of_nat n) by lia.
    apply IH; [lia|lia|]. intros i Hi. apply H. lia.
Qed.

Definition fresh_ctrl : kctrl_control :=
  KctrlControl (CtrlHead 0 0 1 0) (replicate (Z.to_nat KCTRL_WRITERS) 0)
    (KCTRL_NULL :: seqZ 2 (KCTRL_NPAGES - 1)).

Lemma init_control_fresh : kctrl_init_control zero_ctrl = Ok fresh_ctrl.
Proof. vm_compute. reflexivity. Qed.

Lemma fresh_ctrl_next i : 1 ≤ i < KCTRL_NPAGES → aget (ctrl_next fresh_ctrl) i = Ok (i + 1).
Proof.
  intros Hi. apply aget_lookup; [lia|]. cbn [fresh_ctrl ctrl_next].
  replace (Z.to_nat i) with (S (Z.to_nat (i - 1))) by lia. cbn [lookup list_lookup].
  apply lookup_seqZ. unfold KCTRL_NPAGES in *. lia.
Qed.

Lemma ctrl_rep_fresh : ctrl_rep 0 [] (seqZ 1 (KCTRL_NPAGES - 1)) [] fresh_ctrl.
Proof.
  assert (chain (ctrl_next fresh_ctrl) 0 [0]) as C0.
  { split; [done|]. split; [done|]. exists KCTRL_NULL. done. }
  apply ctrl_rep_straight; [|done|exact C0|exact C0|..].
  - cbn [fresh_ctrl ctrl_next length]. rewrite length_seqZ. done.
  - apply (seg_seqZ (ctrl_next fresh_ctrl) 2047 1); [lia|done|].
    intros i Hi. apply fresh_ctrl_next. unfold KCTRL_NPAGES. lia.
  - rewrite app_nil_r, (seqZ_cons 0) by done. done.
Qed.
