(* ===== verification/KCtrlSpec.v ===== *)
(** * The control ring against its specification

    The specification is a bounded first-in first-out queue with writers that
    reserve a place before they commit a message and a reader that keeps the
    message it read last.  [crep] relates a ring to such a queue; the runs of the
    implementation return what the specification returns, for any interleaving of
    the operations of six writers and the reader. *)

From S2P Require Import Prelude KrDep KData KDataIO KDataRing KDataQueue KDataSpec KCtrl KCtrlQueue.

Module Fifo.

(** [cur]: the message the reader is on; [queue]: those it has not read; [open]:
    the writers that have reserved a place. *)
Record state := State {
  cur : option (list Z);
  queue : list (list Z);
  open : gset Z;
}.

Inductive op :=
  | Reserve (w : Z)
  | Commit (w : Z) (data : list Z)
  | Next
  | Reread
  | Avail.

Inductive out :=
  | OReserved (b : bool)
  | OMessage (data : list Z)
  | OAvail (b : bool)
  | ODone.

#[global] Instance out_eq_dec : EqDecision out.
Proof. solve_decision. Defined.

Definition capacity : Z := KCTRL_NPAGES - 1.

(** Places taken. *)
Definition used (s : state) : Z := Z.of_nat (length (queue s)) + Z.of_nat (size (open s)).

Definition init : state := State None [] ∅.

Definition step (s : state) (o : op) : option (state * out) :=
  match o with
  | Reserve w =>
      if decide (0 ≤ w < KCTRL_WRITERS ∧ w ∉ open s) then
        if decide (used s < capacity)
        then Some (State (cur s) (queue s) ({[w]} ∪ open s), OReserved true)
        else Some (s, OReserved false)
      else None
  | Commit w data =>
      if decide (w ∈ open s ∧ Broadcast.fits_page data)
      then Some (State (cur s) (queue s ++ [data]) (open s ∖ {[w]}), ODone)
      else None
  | Next =>
      match queue s with
      | data :: q => Some (State (Some data) q (open s), OMessage data)
      | [] => None
      end
  | Reread =>
      match cur s with
      | Some data => Some (s, OMessage data)
      | None => None
      end
  | Avail => Some (s, OAvail (bool_decide (queue s ≠ [])))
  end.

Fixpoint run (s : state) (os : list op) : option (state * list out) :=
  match os with
  | [] => Some (s, [])
  | o :: os =>
      '(s, out) ← step s o;
      '(s, outs) ← run s os;
      Some (s, out :: outs)
  end.

End Fifo.

Section Run.
(** Handles of the writers and of the reader on ring [i]. *)
Context (W : Z → kring_user) (R : kring_user) (i : Z).

(** The memory, the page each writer is filling, and the message the reader has. *)
Record cstate := CState {
  cs_mem : kctrl_mem;
  cs_open : gmap Z page_ptr;
  cs_cur : option kdata_plain;
}.

Definition read_message (m : kctrl_mem) (p : kdata_plain) : res (list Z) :=
  cpage_load m (fst (plain_bytes p)) (snd (plain_bytes p)) (Z.to_nat (plain_len p)).

(** [kctrl_write_plain] in its two parts, and the reader's calls.  2050 steps
    suffice for the reversal of any stack. *)
Definition cimpl_step (s : cstate) (o : Fifo.op) : res (cstate * Fifo.out) :=
  match o with
  | Fifo.Reserve w =>
      '(h, m) ← kctrl_write_FIRST 1 (W w) (cs_mem s);
      match h with
      | Some h => Ok (CState m (<[w := h]> (cs_open s)) (cs_cur s), Fifo.OReserved true)
      | None => Ok (CState m (cs_open s) (cs_cur s), Fifo.OReserved false)
      end
  | Fifo.Commit w data =>
      h ← deref (cs_open s !! w);
      m ← cfill_plain data (Z.of_nat (length data)) h (cs_mem s);
      m ← kctrl_write_SECOND 1 (W w) m;
      Ok (CState m (delete w (cs_open s)) (cs_cur s), Fifo.ODone)
  | Fifo.Next =>
      '(p, m) ← kctrl_next_plain 2050 R (cs_mem s);
      data ← read_message m p;
      Ok (CState m (cs_open s) (Some p), Fifo.OMessage data)
  | Fifo.Reread =>
      p ← deref (cs_cur s);
      data ← read_message (cs_mem s) p;
      Ok (s, Fifo.OMessage data)
  | Fifo.Avail =>
      b ← kctrl_avail R (cs_mem s);
      Ok (s, Fifo.OAvail b)
  end.

Fixpoint cimpl_run (s : cstate) (os : list Fifo.op) : res (cstate * list Fifo.out) :=
  match os with
  | [] => Ok (s, [])
  | o :: os =>
      '(s, out) ← cimpl_step s o;
      '(s, outs) ← cimpl_run s os;
      Ok (s, out :: outs)
  end.

(** [control] and [data] of the handle are those of ring [i]. *)
Definition maps_ctrl (u : kring_user) : Prop :=
  aget (u_control u) 0 = Ok i ∧
  ∀ off, kctrl_page_data u off = Ok (PagePtr i (KCTRL_INDEX off)).

Hypothesis W_maps : ∀ w, maps_ctrl (W w).
Hypothesis W_id : ∀ w, u_writer_id (W w) = w.
Hypothesis R_maps : maps_ctrl R.

(** What the pages hold. *)
Definition cpages_ok (r : kctrl_ring) : Prop :=
  length (cr_page r) = Z.to_nat KCTRL_NPAGES ∧ Forall page_ok (cr_page r).

Definition page_msg (r : kctrl_ring) (p : Z) (data : list Z) : Prop :=
  ∃ pg, aget (cr_page r) p = Ok pg ∧ plain_of pg = Ok data.

(** Ring [i] of the implementation's state represents [a]; [fm] has the page of
    every open writer. *)
Record crep (a : Fifo.state) (s : cstate) (r : kctrl_ring) (held : Z) (q free : list Z)
    (fm : gmap Z Z) : Prop := {
  cp_ring : aget (cs_mem s) i = Ok r;
  cp_pages : cpages_ok r;
  cp_rep : ctrl_rep held q free ((map_to_list fm).*2) (cr_control r);
  cp_queue : Forall2 (page_msg r) q (Fifo.queue a);
  cp_cur : ∀ data, Fifo.cur a = Some data →
    ∃ p, cs_cur s = Some p ∧ page_msg r held data ∧
      plain_bytes p = (PagePtr i held, sizeof_plain_header) ∧
      Z.to_nat (plain_len p) = length data;
  cp_open : Fifo.open a = dom fm;
  cp_wloc : ∀ w p, fm !! w = Some p →
    0 ≤ w < KCTRL_WRITERS ∧ aget (ctrl_writer (cr_control r)) w = Ok p ∧ cs_open s !! w = Some (PagePtr i p);
}.

(** *** Handles *)

Lemma ctrl_ring_ok u m r : maps_ctrl u → aget m i = Ok r → ctrl_ring u m = Ok (i, r).
Proof. intros [E _] Er. unfold ctrl_ring. step_with E. by step_with Er. Qed.

Lemma put_ctrl_ok (m : kctrl_mem) r c :
  aget m i = Ok r → put_ctrl m i c = Ok (<[Z.to_nat i := KctrlRing c (cr_page r)]> m).
Proof.
  intros E. unfold put_ctrl. step_with E. apply aset_in_range. by eapply aget_Ok_range.
Qed.

Lemma cget_put (m : kctrl_mem) r r' : aget m i = Ok r → aget (<[Z.to_nat i := r']> m) i = Ok r'.
Proof. intros E. apply aget_insert_eq. by eapply aget_Ok_range. Qed.

(** *** Pages *)

Lemma cpage_store_ok m c pgs p pg o bs r0 :
  aget m i = Ok r0 → aget pgs p = Ok pg → (o + length bs ≤ length pg)%nat →
  cpage_store (<[Z.to_nat i := KctrlRing c pgs]> m) (PagePtr i p) o bs =
    Ok (<[Z.to_nat i := KctrlRing c (<[Z.to_nat p := stored pg o bs]> pgs)]> m).
Proof.
  intros E Ep L. unfold cpage_store. cbn [pp_ring pp_off]. step_with (cget_put _ _ (KctrlRing c pgs) E).
  cbn [cr_page cr_control]. step_with Ep. rewrite stored_store, bind_Ok by done.
  rewrite aset_in_range, bind_Ok by (by eapply aget_Ok_range).
  rewrite aset_in_range by (by eapply aget_Ok_range, cget_put). by rewrite list_insert_insert_eq.
Qed.

Lemma cfill_plain_ok m r p pg data len :
  aget m i = Ok r → aget (cr_page r) p = Ok pg → page_ok pg →
  0 ≤ len ≤ kdata_plain_max_data → len ≤ Z.of_nat (length data) →
  cfill_plain data len (PagePtr i p) m =
    Ok (<[Z.to_nat i := KctrlRing (cr_control r)
           (<[Z.to_nat p := plain_page data len pg]> (cr_page r))]> m).
Proof.
  intros E Ep [L _] Hl Hd. unfold cfill_plain.
  rewrite <- (list_insert_id m (Z.to_nat i) r) at 1 by (by apply aget_Ok in E as [_ E]).
  destruct r as [c pgs]. cbn [cr_page cr_control] in *.
  pose proof (aget_Ok_range _ _ _ Ep).
  erewrite cpage_store_ok; [|done|done|fits]. rewrite bind_Ok, buf_prefix_ok, bind_Ok by fits.
  erewrite cpage_store_ok; [|done|by apply aget_insert_eq|fits].
  unfold plain_page. by rewrite list_insert_insert_eq.
Qed.

Lemma cpages_at r p : cpages_ok r → in_ring p → ∃ pg, aget (cr_page r) p = Ok pg ∧ page_ok pg.
Proof.
  intros [L F] Hp. destruct (aget_in_range (cr_page r) p) as [pg E].
  { rewrite L. unfold in_ring, KCTRL_NPAGES in *. lia. }
  exists pg. split; [done|]. apply aget_Ok in E as [_ E]. by eapply Forall_lookup_1.
Qed.

(** Another page, or another control, leaves a page's message. *)
Lemma page_msg_insert r c p pg p' data :
  page_msg r p' data → in_ring p → p ≠ p' →
  page_msg (KctrlRing c (<[Z.to_nat p := pg]> (cr_page r))) p' data.
Proof.
  intros (pg' & E & M) Hp Hne. exists pg'. split; [|done]. cbn.
  rewrite aget_insert_ne; [done|apply Hp|done].
Qed.

Lemma plain_of_load pg data :
  plain_of pg = Ok data → ∃ len, mem_load pg 0 4 = Ok len ∧
    length data = Z.to_nat (i32 (le_val len)) ∧ mem_load pg sizeof_plain_header (length data) = Ok data.
Proof.
  unfold plain_of. intros H. apply bind_Ok_inv in H as (len & E1 & E2). exists len.
  assert (length data = Z.to_nat (i32 (le_val len))) as L.
  { unfold mem_load in E2. case_decide; [|done]. injection E2 as <-.
    rewrite length_take, length_drop. lia. }
  split; [done|]. split; [done|]. by rewrite L.
Qed.

Lemma read_message_ok m r held data p :
  aget m i = Ok r → page_msg r held data →
  plain_bytes p = (PagePtr i held, sizeof_plain_header) → Z.to_nat (plain_len p) = length data →
  read_message m p = Ok data.
Proof.
  intros E (pg & Ep & (len & _ & _ & M)%plain_of_load) Eb El.
  unfold read_message, cpage_load, cpage_at. rewrite Eb, El. cbn [fst snd pp_ring pp_off].
  rewrite E, bind_Ok, Ep, bind_Ok. exact M.
Qed.

(** *** The operations *)

Lemma free_count a s r held q free fm :
  crep a s r held q free fm → Z.of_nat (length free) = Fifo.capacity - Fifo.used a.
Proof.
  intros C. pose proof (ctrl_rep_all _ _ _ _ _ (cp_rep _ _ _ _ _ _ _ C)) as P.
  apply Permutation_length in P. rewrite length_seqZ in P. cbn [length] in P.
  rewrite !length_app, length_fmap, length_map_to_list in P.
  unfold Fifo.capacity, Fifo.used. rewrite (cp_open _ _ _ _ _ _ _ C), size_dom.
  rewrite <- (Forall2_length _ _ _ (cp_queue _ _ _ _ _ _ _ C)). unfold KCTRL_NPAGES in *. lia.
Qed.

Lemma reserve_refines a s r held q free fm w :
  crep a s r held q free fm → 0 ≤ w < KCTRL_WRITERS → w ∉ Fifo.open a →
  Fifo.used a < Fifo.capacity →
  ∃ s' r' free' fm', cimpl_step s (Fifo.Reserve w) = Ok (s', Fifo.OReserved true) ∧
    crep (Fifo.State (Fifo.cur a) (Fifo.queue a) ({[w]} ∪ Fifo.open a)) s' r' held q free' fm'.
Proof.
  intros C Hw Ho Hu. pose proof (free_count _ _ _ _ _ _ _ C) as Hc.
  destruct C as [Er Pg Rp Q Cu O WL]. destruct free as [|p free]; [cbn in Hc; lia|].
  destruct (ctrl_allocate_ok _ _ _ _ _ _ w 1 Rp Hw ltac:(lia)) as (c' & Ea & R' & EW).
  assert (fm !! w = None) as Hfm by (apply not_elem_of_dom; by rewrite <- O).
  assert (in_ring p) as Hp.
  { eapply ctrl_rep_in_ring; [exact Rp|]. rewrite elem_of_cons, !elem_of_app, elem_of_cons. tauto. }
  eexists _, (KctrlRing c' (cr_page r)), free, (<[w := p]> fm). split.
  - cbn. unfold kctrl_write_FIRST. rewrite (ctrl_ring_ok _ _ r (W_maps w) Er), bind_Ok, W_id.
    rewrite Ea, bind_Ok, (put_ctrl_ok _ r) by done. rewrite bind_Ok.
    rewrite (proj2 (Z.eqb_neq p KCTRL_NULL)) by (unfold in_ring, KCTRL_NULL in *; lia).
    rewrite (proj2 (W_maps w)), index_in_ring, !bind_Ok by done. reflexivity.
  - split; cbn [cr_control cr_page cs_mem cs_open cs_cur Fifo.cur Fifo.queue Fifo.open]; try done.
    + by eapply cget_put.
    + eapply ctrl_rep_fly; [|exact R']. by rewrite map_to_list_insert.
    + by rewrite dom_insert_L, O.
    + intros w' p'. rewrite EW. destruct (decide (w' = w)) as [->|Hne].
      * rewrite !lookup_insert_eq. intros [= <-]. split; [done|]. split; [|done].
        apply aget_insert_eq. destruct Rp as (? & ? & ? & I & _).
        rewrite (ci_writers _ _ _ _ _ _ I). unfold KCTRL_WRITERS in *. lia.
      * rewrite !lookup_insert_ne by done. intros H. destruct (WL _ _ H) as (H1 & H2 & H3).
        split; [done|]. split; [|done]. rewrite aget_insert_ne; [done|lia|done].
Qed.

Lemma reserve_full_refines a s r held q free fm w :
  crep a s r held q free fm → 0 ≤ w < KCTRL_WRITERS → ¬ Fifo.used a < Fifo.capacity →
  ∃ s' r', cimpl_step s (Fifo.Reserve w) = Ok (s', Fifo.OReserved false) ∧
    crep a s' r' held q free fm.
Proof.
  intros C Hw Hu. pose proof (free_count _ _ _ _ _ _ _ C) as Hc.
  destruct C as [Er Pg Rp Q Cu O WL]. destruct free as [|p free]; [|cbn in Hc; lia].
  pose proof (ctrl_allocate_full _ _ _ _ w 1 Rp ltac:(lia)) as Ea.
  eexists _, (KctrlRing (cr_control r) (cr_page r)). split.
  - cbn. unfold kctrl_write_FIRST. rewrite (ctrl_ring_ok _ _ r (W_maps w) Er), bind_Ok, W_id.
    rewrite Ea, bind_Ok, (put_ctrl_ok _ r) by done. rewrite bind_Ok. by rewrite Z.eqb_refl.
  - split; cbn [cr_control cr_page cs_mem cs_open cs_cur]; try done. by eapply cget_put.
Qed.

(** The pages of the open writers are neither held nor queued. *)
Lemma open_apart held q free (fm : gmap Z Z) w p c :
  ctrl_rep held q free ((map_to_list fm).*2) c → fm !! w = Some p →
  in_ring p ∧ p ≠ held ∧ p ∉ q.
Proof.
  intros Rp E. pose proof (ctrl_rep_nodup _ _ _ _ _ Rp) as ND.
  assert (p ∈ (map_to_list fm).*2) as Hin.
  { apply list_elem_of_fmap. exists (w, p). split; [done|]. by apply elem_of_map_to_list. }
  split.
  - eapply ctrl_rep_in_ring; [exact Rp|]. rewrite elem_of_cons, !elem_of_app. tauto.
  - apply NoDup_cons in ND as [H1 H2]. apply NoDup_app in H2 as (_ & H2 & _).
    rewrite !not_elem_of_app in H1. split; [intros ->; tauto|].
    intros X. apply (H2 p X), elem_of_app. by right.
Qed.

Lemma commit_refines a s r held q free fm w data :
  crep a s r held q free fm → w ∈ Fifo.open a → Broadcast.fits_page data →
  ∃ s' r' q', cimpl_step s (Fifo.Commit w data) = Ok (s', Fifo.ODone) ∧
    crep (Fifo.State (Fifo.cur a) (Fifo.queue a ++ [data]) (Fifo.open a ∖ {[w]})) s' r' held q' free
      (delete w fm).
Proof.
  intros [Er Pg Rp Q Cu O WL] Ho [Hl Hb]. rewrite O in Ho. apply elem_of_dom in Ho as [p Ep].
  destruct (WL _ _ Ep) as (Hw & Ewl & Eop). destruct (open_apart _ _ _ _ _ _ _ Rp Ep) as (Hp & Hph & Hpq).
  destruct (cpages_at r p Pg Hp) as (pg & Epg & Pok).
  set (pg' := plain_page data (Z.of_nat (length data)) pg).
  assert (page_ok pg') as Pok' by (apply plain_page_ok; [lia|done|done]).
  destruct (ctrl_push_ok held q free p ((map_to_list (delete w fm)).*2) (cr_control r) w 1)
    as (c' & Ec & R' & EW); [|done|lia|].
  { eapply ctrl_rep_fly; [|exact Rp]. by rewrite <- (map_to_list_delete fm w p). }
  set (r' := KctrlRing c' (<[Z.to_nat p := pg']> (cr_page r))).
  assert (∀ x d, page_msg r x d → p ≠ x → page_msg r' x d) as Hmsg
    by (intros; by apply page_msg_insert).
  eexists _, r', (q ++ [p]). split.
  - cbn. rewrite Eop. cbn [deref]. rewrite bind_Ok, (cfill_plain_ok _ r p pg) by (done || lia). rewrite bind_Ok.
    unfold kctrl_write_SECOND. erewrite ctrl_ring_ok; [|done|by eapply cget_put].
    rewrite bind_Ok, W_id. cbn [cr_control]. rewrite Ec, bind_Ok. erewrite put_ctrl_ok by (by eapply cget_put).
    cbn [cr_page]. by rewrite list_insert_insert_eq, bind_Ok.
  - split; cbn [cr_control cr_page cs_mem cs_open cs_cur Fifo.cur Fifo.queue Fifo.open]; try done.
    + by eapply cget_put.
    + destruct Pg as [L F]. split; cbn; [by rewrite length_insert|by apply Forall_insert].
    + apply Forall2_app.
      * apply Forall2_same_length_lookup. split; [by eapply Forall2_length|].
        intros k x d Hx Hd. apply Hmsg; [by eapply Forall2_lookup_lr|].
        intros ->. by apply Hpq, (list_elem_of_lookup_2 _ k).
      * constructor; [|done]. exists pg'. split.
        -- cbn. apply aget_insert_eq. by eapply aget_Ok_range.
        -- subst pg'. rewrite plain_of_page by (done || lia). by rewrite Nat2Z.id, take_ge.
    + intros d Hd. destruct (Cu d Hd) as (p0 & E1 & E2 & E3). exists p0. split; [done|].
      split; [|done]. by apply Hmsg.
    + by rewrite dom_delete_L, O.
    + intros w' p'. rewrite lookup_delete_Some. intros [Hne H].
      destruct (WL _ _ H) as (H1 & H2 & H3). subst r'. cbn [cr_control].
      by rewrite EW, lookup_delete_ne.
Qed.

Lemma next_refines a s r held q free fm data ms :
  crep a s r held q free fm → Fifo.queue a = data :: ms →
  ∃ s' r' held' q' free', cimpl_step s Fifo.Next = Ok (s', Fifo.OMessage data) ∧
    crep (Fifo.State (Some data) ms (Fifo.open a)) s' r' held' q' free' fm.
Proof.
  intros [Er Pg Rp Q Cu O WL] Eq. rewrite Eq in Q. inversion Q as [|p ? q' ? Hp Q']; subst.
  assert (length q' + 2 < 2050)%nat as Hlen.
  { pose proof (Permutation_length (ctrl_rep_all _ _ _ _ _ Rp)) as L. rewrite length_seqZ in L.
    cbn [length] in L. rewrite length_app in L. cbn [length] in L. unfold KCTRL_NPAGES in L. lia. }
  assert (in_ring p) as Hring
    by (eapply ctrl_rep_in_ring; [exact Rp|]; right; left).
  destruct (ctrl_next_ok _ _ _ _ _ _ 2050 Rp Hlen) as (c' & Ec & Eh & R' & EW).
  set (r' := KctrlRing c' (cr_page r)).
  destruct Hp as (pg & Epg & Hpl). pose proof Hpl as (len & E4 & Hl & Ed)%plain_of_load.
  pose proof (cget_put _ _ r' Er) as Er'.
  set (pl := KdataPlain (i32 (le_val len)) (PagePtr i p, sizeof_plain_header)).
  assert (kctrl_next_plain 2050 R (cs_mem s) = Ok (pl, <[Z.to_nat i := r']> (cs_mem s))) as En.
  { unfold kctrl_next_plain, kctrl_next_generic. rewrite (ctrl_ring_ok _ _ r R_maps Er), bind_Ok.
    rewrite Ec, bind_Ok, (put_ctrl_ok _ r), bind_Ok by done.
    rewrite (proj2 R_maps), Eh, index_in_ring, !bind_Ok by done.
    unfold cload_int, cpage_load, cpage_at. cbn [pp_ring pp_off]. fold r'.
    rewrite Er', !bind_Ok. cbn [r' cr_page]. rewrite Epg, !bind_Ok, E4, !bind_Ok. done. }
  exists (CState (<[Z.to_nat i := r']> (cs_mem s)) (cs_open s) (Some pl)), r', p, q', (held :: free).
  assert (page_msg r' p data) as M by by exists pg.
  split.
  - cbn [cimpl_step]. rewrite En, bind_Ok, (read_message_ok _ r' p data) by done. by rewrite bind_Ok.
  - split; cbn [cs_mem cs_open cs_cur Fifo.cur Fifo.queue Fifo.open]; try done.
    + intros d [= <-]. by exists pl.
    + intros w p' H. destruct (WL _ _ H) as (H1 & H2 & H3). subst r'. cbn [cr_control].
      by rewrite EW.
Qed.

Lemma cimpl_step_refines a s r held q free fm o a' out :
  crep a s r held q free fm → Fifo.step a o = Some (a', out) →
  ∃ s' r' held' q' free' fm', cimpl_step s o = Ok (s', out) ∧ crep a' s' r' held' q' free' fm'.
Proof.
  intros C Hs. destruct o as [w|w data| | |]; cbn [Fifo.step] in Hs.
  - case_decide as H1; [|done]. destruct H1 as [Hw Ho].
    case_decide as Hu; injection Hs as <- <-.
    + destruct (reserve_refines _ _ _ _ _ _ _ w C Hw Ho Hu) as (? & ? & ? & ? & ? & ?). naive_solver.
    + destruct (reserve_full_refines _ _ _ _ _ _ _ w C Hw Hu) as (? & ? & ? & ?). naive_solver.
  - case_decide as H1; [|done]. destruct H1 as [Ho Hf]. injection Hs as <- <-.
    destruct (commit_refines _ _ _ _ _ _ _ w data C Ho Hf) as (? & ? & ? & ? & ?). naive_solver.
  - destruct (Fifo.queue a) as [|data ms] eqn:Eq; [done|]. injection Hs as <- <-.
    destruct (next_refines _ _ _ _ _ _ _ data ms C Eq) as (? & ? & ? & ? & ? & ? & ?). naive_solver.
  - destruct (Fifo.cur a) as [data|] eqn:Eq; [|done]. injection Hs as <- <-.
    destruct (cp_cur _ _ _ _ _ _ _ C data Eq) as (p & Ep & M & Eb & El).
    exists s, r, held, q, free, fm. split; [|done]. cbn [cimpl_step]. rewrite Ep. cbn [deref].
    by rewrite bind_Ok, (read_message_ok _ r held data) by (done || apply C).
  - injection Hs as <- <-. exists s, r, held, q, free, fm. split; [|done]. cbn [cimpl_step].
    unfold kctrl_avail. rewrite (ctrl_ring_ok _ _ r R_maps) by apply C.
    rewrite !bind_Ok, (ctrl_avail_ok _ _ _ _ _ (cp_rep _ _ _ _ _ _ _ C)), bind_Ok.
    pose proof (cp_queue _ _ _ _ _ _ _ C) as Q. by inversion Q.
Qed.

Lemma cimpl_run_refines os : ∀ a s r held q free fm a' outs,
  crep a s r held q free fm → Fifo.run a os = Some (a', outs) →
  ∃ s' r' held' q' free' fm', cimpl_run s os = Ok (s', outs) ∧ crep a' s' r' held' q' free' fm'.
Proof.
  induction os as [|o os IH]; intros a s r held q free fm a' outs C Hr; cbn [Fifo.run] in Hr.
  - injection Hr as <- <-. by exists s, r, held, q, free, fm.
  - destruct (Fifo.step a o) as [[a1 out]|] eqn:Es; [|done]. cbn in Hr.
    destruct (Fifo.run a1 os) as [[a2 outs']|] eqn:Er; [|done]. cbn in Hr. injection Hr as <- <-.
    destruct (cimpl_step_refines _ _ _ _ _ _ _ _ _ _ C Es) as (s1 & r1 & h1 & q1 & f1 & m1 & E1 & C1).
    destruct (IH _ _ _ _ _ _ _ _ _ C1 Er) as (s2 & r2 & h2 & q2 & f2 & m2 & E2 & C2).
    exists s2, r2, h2, q2, f2, m2. split; [|done]. cbn [cimpl_run]. rewrite E1, bind_Ok.
    by rewrite E2, bind_Ok.
Qed.

(** A ring as it is created. *)
Definition fresh_kctrl_ring : kctrl_ring :=
  KctrlRing fresh_ctrl (replicate (Z.to_nat KCTRL_NPAGES) zero_page).

Lemma crep_fresh m :
  aget m i = Ok fresh_kctrl_ring →
  crep Fifo.init (CState m ∅ None) fresh_kctrl_ring 0 [] (seqZ 1 (KCTRL_NPAGES - 1)) ∅.
Proof.
  intros E. split; try done.
  - split; [done|]. apply Forall_replicate. split; [done|]. apply Forall_replicate. done.
  - rewrite map_to_list_empty. apply ctrl_rep_fresh.
Qed.

End Run.
