(* ===== verification/KCtrlProps.v ===== *)
(** * The control ring: what its users can rely on

    The theorems about kctrl.h, libctrl.c and kctrl.c, stated for the operations
    as their callers use them, each with a concrete instance. *)

From S2P Require Import Prelude KrDep KData KDataIO KDataRing KDataQueue KDataSpec KDataProps.
From S2P Require Import KCtrl KCtrlQueue KCtrlSpec.

(** A handle of writer [w] on control ring [i], as [kring_open] makes it. *)
Definition chandle (i w : Z) : kring_user :=
  KringUser 3 i 1 w 0 1 [i] [i] None 0 0.

Lemma chandle_maps i w : maps_ctrl i (chandle i w).
Proof. split; [done|]. intros off. done. Qed.

(** C3: On a fresh control ring, any interleaving of six writers reserving and
    committing messages and of the reader reading, reading again and asking
    whether there is more returns what a bounded queue returns: messages come out
    whole, once and in the order of the commits, the message read last stays
    readable until the next one is read, and a reservation fails exactly when
    the 2047 places are taken. *)
Theorem ctrl_ring_refines_fifo (W : Z → kring_user) (R : kring_user) i m os a outs :
  (∀ w, maps_ctrl i (W w)) → (∀ w, u_writer_id (W w) = w) → maps_ctrl i R →
  aget m i = Ok fresh_kctrl_ring → Fifo.run Fifo.init os = Some (a, outs) →
  ∃ s, cimpl_run W R (CState m ∅ None) os = Ok (s, outs).
Proof.
  intros HW Hid HR E Hr.
  destruct (cimpl_run_refines W R i HW Hid HR os _ _ _ _ _ _ _ _ _ (crep_fresh i m E) Hr)
    as (s & _ & _ & _ & _ & _ & Es & _).
  by exists s.
Qed.

(** Writers 1 and 4 reserve in one order and commit in the other. *)
Lemma ctrl_ring_refines_fifo_witness :
  ∃ s, cimpl_run (chandle 0) (chandle 0 0) (CState [fresh_kctrl_ring] ∅ None)
    [Fifo.Reserve 1; Fifo.Reserve 4; Fifo.Avail; Fifo.Commit 4 [7; 8]; Fifo.Commit 1 [9];
     Fifo.Next; Fifo.Reserve 4; Fifo.Reread; Fifo.Next; Fifo.Avail] =
    Ok (s, [Fifo.OReserved true; Fifo.OReserved true; Fifo.OAvail false; Fifo.ODone; Fifo.ODone;
            Fifo.OMessage [7; 8]; Fifo.OReserved true; Fifo.OMessage [7; 8]; Fifo.OMessage [9];
            Fifo.OAvail false]).
Proof.
  eapply (ctrl_ring_refines_fifo (chandle 0) (chandle 0 0) 0).
  - intros w. apply chandle_maps.
  - done.
  - apply chandle_maps.
  - done.
  - vm_compute. reflexivity.
Defined.

(** [kctrl_reverse_stack] ends, and makes one forward list from [head] of the
    page the reader is on and the queued pages in the order they were pushed; the
    free list is not touched and the stack is left with the newest page. *)
Theorem reverse_stack_straightens held q free fly c fuel :
  ctrl_rep held q free fly c → (length q + 1 < fuel)%nat →
  ∃ c', kctrl_reverse_stack fuel c = Ok c' ∧
    chain (ctrl_next c') (ch_head (ctrl_head c')) (held :: q) ∧
    chain (ctrl_next c') (ch_free (ctrl_head c')) free ∧
    chain (ctrl_next c') (ch_stack (ctrl_head c')) [List.last q held] ∧
    ctrl_rep held q free fly c'.
Proof.
  intros R Hf. destruct (reverse_stack_ok _ _ _ _ _ _ R Hf) as (ns & E & C1 & C2 & C3 & L).
  exists (with_next c ns). split_and!; try done.
  apply ctrl_rep_straight; try done; [|by apply (ctrl_rep_all _ _ _ _ c)].
  destruct R as (? & ? & ? & I & _). apply I.
Qed.

(** Two pushes on a fresh ring. *)
Definition two_pushed : kctrl_control :=
  match
    ('(_, c) ← kctrl_allocate 1 fresh_ctrl 0;
     c ← kctrl_push_new 1 c 0;
     '(_, c) ← kctrl_allocate 1 c 3;
     kctrl_push_new 1 c 3)
  with
  | Ok c => c
  | _ => fresh_ctrl
  end.

Lemma two_pushed_rep : ctrl_rep 0 [1; 2] (seqZ 3 2045) [] two_pushed.
Proof.
  pose proof ctrl_rep_fresh as R0. unfold KCTRL_NPAGES in R0.
  rewrite (seqZ_cons 1), (seqZ_cons (Z.succ 1)) in R0 by lia.
  change (Z.succ 1) with 2 in R0. change (Z.succ 2) with 3 in R0.
  change (Z.pred (Z.pred (2048 - 1))) with 2045 in R0.
  destruct (ctrl_allocate_ok _ _ _ _ _ _ 0 1 R0 ltac:(done) ltac:(lia)) as (c1 & E1 & R1 & W1).
  destruct (ctrl_push_ok _ _ _ _ _ c1 0 1 R1) as (c2 & E2 & R2 & W2); [by rewrite W1|lia|].
  destruct (ctrl_allocate_ok _ _ _ _ _ _ 3 1 R2 ltac:(done) ltac:(lia)) as (c3 & E3 & R3 & W3).
  destruct (ctrl_push_ok _ _ _ _ _ c3 3 1 R3) as (c4 & E4 & R4 & W4); [by rewrite W3, W2, W1|lia|].
  unfold two_pushed. rewrite E1, bind_Ok, E2, bind_Ok, E3, bind_Ok, E4. exact R4.
Qed.

Lemma reverse_stack_straightens_witness :
  ∃ c', kctrl_reverse_stack 4 two_pushed = Ok c' ∧
    chain (ctrl_next c') (ch_head (ctrl_head c')) [0; 1; 2] ∧
    chain (ctrl_next c') (ch_free (ctrl_head c')) (seqZ 3 2045) ∧
    chain (ctrl_next c') (ch_stack (ctrl_head c')) [2] ∧
    ctrl_rep 0 [1; 2] (seqZ 3 2045) [] c'.
Proof.
  apply (reverse_stack_straightens 0 [1; 2] (seqZ 3 2045) [] two_pushed 4); [apply two_pushed_rep|].
  cbn. lia.
Defined.

(** Reading an empty control ring, which [kctrl_next_generic] does not check,
    frees the page the reader is on and leaves [head] null: the pointer returned
    is then to page 0, and the invariant of the ring is lost. *)
Theorem next_on_empty held free fly c fuel :
  ctrl_rep held [] free fly c → (1 < fuel)%nat →
  ∃ c', kctrl_next_control fuel c = Ok c' ∧ ch_head (ctrl_head c') = KCTRL_NULL ∧
    chain (ctrl_next c') (ch_free (ctrl_head c')) (held :: free) ∧
    KCTRL_INDEX (ch_head (ctrl_head c')) = 0 ∧
    ∀ held' q' free' fly', ¬ ctrl_rep held' q' free' fly' c'.
Proof.
  intros R Hf. pose proof (ctrl_rep_nodup _ _ _ _ _ R) as ND.
  destruct (reverse_stack_ok _ _ _ _ _ fuel R) as (ns & Er & Ch & Cf & Cs & Ln); [cbn; lia|].
  destruct Ch as (Eh & Hh & n & En & Ch). cbn in Ch. subst n.
  unfold kctrl_next_control. step_with Er. cbn [with_next ctrl_head]. rewrite Eh.
  erewrite get_next_ok; [|done|exact En]. rewrite bind_Ok.
  destruct fuel as [|fuel]; [lia|]. cbn [kctrl_push_to_free_list].
  rewrite set_next_ok by done. rewrite bind_Ok, cas_free_ok by done. rewrite Z.eqb_refl. cbn [negb].
  eexists. split; [done|]. ctrl_simpl. split; [done|]. split; [|split; [done|]].
  - apply seg_push; [done|done| |done]. cbn in ND. apply NoDup_cons in ND as [H _].
    by apply not_elem_of_app in H as [H _].
  - intros held' q' free' fly' (front & join & stk & I & _).
    pose proof (ci_fwd _ _ _ _ _ _ I) as X. cbn [ctrl_head ch_head] in X.
    destruct front; apply seg_start in X as [E H]; cbn in E; unfold in_ring, KCTRL_NULL in *; lia.
Qed.

Lemma next_on_empty_witness :
  ∃ c', kctrl_next_control 3 fresh_ctrl = Ok c' ∧ ch_head (ctrl_head c') = KCTRL_NULL ∧
    chain (ctrl_next c') (ch_free (ctrl_head c')) (0 :: seqZ 1 (KCTRL_NPAGES - 1)) ∧
    KCTRL_INDEX (ch_head (ctrl_head c')) = 0 ∧
    ∀ held' q' free' fly', ¬ ctrl_rep held' q' free' fly' c'.
Proof.
  apply (next_on_empty 0 (seqZ 1 (KCTRL_NPAGES - 1)) [] fresh_ctrl 3); [apply ctrl_rep_fresh|lia].
Defined.

(** ** Writing a message, with the wait for a free page *)

(** Ring [i] of [m] is in the state described, with open writers' pages [fly]. *)
Definition ctrl_state (m : kctrl_mem) (i held : Z) (q free fly : list Z) (r : kctrl_ring) : Prop :=
  aget m i = Ok r ∧ cpages_ok r ∧ ctrl_rep held q free fly (cr_control r).

Lemma write_first_page m i held q p free fly r u :
  maps_ctrl i u → 0 ≤ u_writer_id u < KCTRL_WRITERS → ctrl_state m i held q (p :: free) fly r →
  ∃ c', kctrl_write_FIRST 1 u m = Ok (Some (PagePtr i p), <[Z.to_nat i := KctrlRing c' (cr_page r)]> m) ∧
    ctrl_rep held q free (p :: fly) c' ∧ aget (ctrl_writer c') (u_writer_id u) = Ok p.
Proof.
  intros Hu Hid (E & Pg & R).
  assert (in_ring p) as Hp.
  { eapply ctrl_rep_in_ring; [exact R|]. rewrite elem_of_cons, !elem_of_app, elem_of_cons. tauto. }
  destruct (ctrl_allocate_ok _ _ _ _ _ _ (u_writer_id u) 1 R Hid ltac:(lia)) as (c' & Ea & R' & EW).
  exists c'. split_and!; [|done|].
  - unfold kctrl_write_FIRST. rewrite (ctrl_ring_ok i _ _ r Hu E), bind_Ok, Ea, bind_Ok.
    rewrite (put_ctrl_ok i _ r), bind_Ok by done.
    rewrite (proj2 (Z.eqb_neq p KCTRL_NULL)) by (unfold in_ring, KCTRL_NULL in *; lia).
    by rewrite (proj2 Hu), index_in_ring, bind_Ok.
  - rewrite EW. apply aget_insert_eq. destruct R as (? & ? & ? & I & _).
    rewrite (ci_writers _ _ _ _ _ _ I). unfold KCTRL_WRITERS in *. lia.
Qed.

Lemma write_first_full m i held q fly r u :
  maps_ctrl i u → ctrl_state m i held q [] fly r → kctrl_write_FIRST 1 u m = Ok (None, m).
Proof.
  intros Hu (E & Pg & R). unfold kctrl_write_FIRST. rewrite (ctrl_ring_ok i _ _ r Hu E), bind_Ok.
  rewrite (ctrl_allocate_full _ _ _ _ _ 1 R), bind_Ok, (put_ctrl_ok i _ r), bind_Ok by (done || lia).
  rewrite Z.eqb_refl. destruct r as [c pgs]. cbn [cr_control cr_page]. rewrite list_insert_id; [done|].
  by apply aget_Ok in E as [_ E].
Qed.

(** [kctrl_write_plain] appends the message, cut to the page, to the queue.
    Without a free page it sleeps in [recv], and completes once it wakes to a
    ring in which the reader has returned a page; while it sleeps it has changed
    nothing. *)
Theorem write_plain_appends u i recv m m1 held q fly r held1 q1 p free1 r1 data len tries :
  maps_ctrl i u → 0 ≤ u_writer_id u < KCTRL_WRITERS →
  0 ≤ len ≤ Z.of_nat (length data) → Forall is_byte data →
  ctrl_state m1 i held1 q1 (p :: free1) fly r1 →
  (m = m1 ∨ ctrl_state m i held q [] fly r ∧ recv m = m1) →
  ∃ r', kctrl_write_plain (S (S tries)) 1 u recv m data len = Ok (0, <[Z.to_nat i := r']> m1) ∧
    ctrl_rep held1 (q1 ++ [p]) free1 fly (cr_control r') ∧
    page_msg r' p (take (Z.to_nat (Z.min len kctrl_plain_max_data)) data) ∧
    ∀ p', p' ≠ p → aget (cr_page r') p' = aget (cr_page r1) p'.
Proof.
  intros Hu Hid Hl Hb S1 Hm. set (l := Z.min len kctrl_plain_max_data).
  destruct (write_first_page m1 i held1 q1 p free1 fly r1 u Hu Hid S1) as (c1 & Ef & R1 & EW).
  destruct S1 as (E1 & Pg & R0).
  assert (kctrl_write_wait (S (S tries)) 1 u recv m =
    Ok (PagePtr i p, <[Z.to_nat i := KctrlRing c1 (cr_page r1)]> m1)) as Ewait.
  { cbn [kctrl_write_wait]. destruct Hm as [->|[S0 Hrecv]]; [by rewrite Ef, bind_Ok|].
    by rewrite (write_first_full _ _ _ _ _ _ _ Hu S0), bind_Ok, Hrecv, Ef, bind_Ok. }
  assert (in_ring p) as Hp.
  { eapply ctrl_rep_in_ring; [exact R0|]. rewrite elem_of_cons, !elem_of_app, elem_of_cons. tauto. }
  destruct (cpages_at r1 p Pg Hp) as (pg & Epg & Pok).
  destruct (ctrl_push_ok _ _ _ _ _ c1 _ 1 R1 EW ltac:(lia)) as (c2 & E2 & R2 & _).
  assert (kctrl_plain_max_data = kdata_plain_max_data) as Hmax by done.
  assert (0 ≤ kctrl_plain_max_data) as H0 by done.
  exists (KctrlRing c2 (<[Z.to_nat p := plain_page data l pg]> (cr_page r1))).
  split_and!; [|done|..].
  - unfold kctrl_write_plain.
    replace (if kctrl_plain_max_data <? len then kctrl_plain_max_data else len) with l
      by (subst l; destruct (Z.ltb_spec kctrl_plain_max_data len); lia).
    rewrite Ewait, bind_Ok.
    rewrite (cfill_plain_ok i _ (KctrlRing c1 (cr_page r1)) p pg); [|by eapply cget_put|done|done|lia|lia].
    rewrite bind_Ok. unfold kctrl_write_SECOND.
    erewrite ctrl_ring_ok; [|done|by eapply cget_put, cget_put]. rewrite bind_Ok. cbn [cr_control].
    rewrite E2, bind_Ok. erewrite put_ctrl_ok by (by eapply cget_put, cget_put).
    cbn [cr_page]. by rewrite !list_insert_insert_eq, bind_Ok.
  - exists (plain_page data l pg). cbn [cr_page]. split.
    + apply aget_insert_eq. by eapply aget_Ok_range.
    + apply plain_of_page; [lia|lia|done].
  - intros p' Hne. cbn [cr_page]. apply aget_insert_ne; [apply Hp|done].
Qed.

(** On a fresh ring: page 1 is the first free one. *)
Lemma write_plain_appends_witness :
  ∃ r', kctrl_write_plain 2 1 (chandle 0 2) (λ m, m) [fresh_kctrl_ring] [5; 6] 2 = Ok (0, [r']) ∧
    ctrl_rep 0 [1] (seqZ 2 2046) [] (cr_control r') ∧ page_msg r' 1 [5; 6] ∧
    ∀ p', p' ≠ 1 → aget (cr_page r') p' = aget (cr_page fresh_kctrl_ring) p'.
Proof.
  apply (write_plain_appends (chandle 0 2) 0 (λ m, m) [fresh_kctrl_ring] [fresh_kctrl_ring]
    0 [] [] fresh_kctrl_ring 0 [] 1 (seqZ 2 2046) fresh_kctrl_ring [5; 6] 2 0).
  - apply chandle_maps.
  - done.
  - done.
  - repeat constructor; done.
  - destruct (crep_fresh 0 [fresh_kctrl_ring] eq_refl) as [E P R _ _ _ _].
    split_and!; [done|done|]. rewrite map_to_list_empty in R.
    rewrite (seqZ_cons 1) in R by (unfold KCTRL_NPAGES; lia). exact R.
  - by left.
Defined.

(** ** Waiting for a page

    [write_plain_appends] says what [kctrl_write_plain] does once [recv] returns.
    Here is when it does.  [recv] ends in [kctrl_wait], which sleeps on the wait
    queue of the ring set until [head->free] is not null; the readers of libctrl.c
    wake that queue with [send] after each message, the kernel's
    [kctrl_knext_plain] wakes the queue of the ring, on which nobody sleeps.  Each
    step is one of the functions, by a reader or by one of any number of writers;
    no signals come. *)

Inductive twait :=
  | TFirst                     (* about to call [kctrl_write_FIRST] *)
  | TTest                      (* in [recv], about to test [head->free] *)
  | TAsleep                    (* asleep on [ringset->waitqueue] *)
  | TFill (h : page_ptr)       (* has a page *)
  | TSecond.                   (* about to call [kctrl_write_SECOND] *)

Record waiting := Waiting {
  wt_mem : kctrl_mem;
  wt_writer : gmap Z twait;
  wt_wakes : bool;             (* the reader is about to wake a wait queue *)
}.

(** [head->free] of ring [i]. *)
Definition head_free (i : Z) (m : kctrl_mem) : res Z :=
  r ← aget m i; Ok (ch_free (ctrl_head (cr_control r))).

Definition woken (p : twait) : twait := match p with TAsleep => TTest | _ => p end.

Section Waiting.
Context (kernel : bool) (i : Z) (W : Z → kring_user) (R : kring_user).
Hypothesis writers_map : ∀ w, maps_ctrl i (W w).

Definition wt_at (st : waiting) (m : kctrl_mem) (w : Z) (p : twait) : waiting :=
  Waiting m (<[w := p]> (wt_writer st)) (wt_wakes st).

Inductive wait_step : waiting → waiting → Prop :=
  | t_page st w fuel h m : wt_writer st !! w = Some TFirst →
      kctrl_write_FIRST fuel (W w) (wt_mem st) = Ok (Some h, m) → wait_step st (wt_at st m w (TFill h))
  | t_full st w fuel m : wt_writer st !! w = Some TFirst →
      kctrl_write_FIRST fuel (W w) (wt_mem st) = Ok (None, m) → wait_step st (wt_at st m w TTest)
  | t_return st w f : wt_writer st !! w = Some TTest → head_free i (wt_mem st) = Ok f → f ≠ KCTRL_NULL →
      wait_step st (wt_at st (wt_mem st) w TFirst)
  | t_sleep st w : wt_writer st !! w = Some TTest → head_free i (wt_mem st) = Ok KCTRL_NULL →
      wait_step st (wt_at st (wt_mem st) w TAsleep)
  | t_fill st w h data len m : wt_writer st !! w = Some (TFill h) →
      cfill_plain data len h (wt_mem st) = Ok m → wait_step st (wt_at st m w TSecond)
  | t_second st w fuel m : wt_writer st !! w = Some TSecond →
      kctrl_write_SECOND fuel (W w) (wt_mem st) = Ok m → wait_step st (wt_at st m w TFirst)
  | t_next st fuel h m : wt_wakes st = false →
      kctrl_next_generic fuel R (wt_mem st) = Ok (h, m) → wait_step st (Waiting m (wt_writer st) true)
  | t_wake st : wt_wakes st = true →
      wait_step st (Waiting (wt_mem st) (if kernel then wt_writer st else woken <$> wt_writer st) false).

Lemma put_head_free m j c m' : put_ctrl m j c = Ok m' → head_free j m' = Ok (ch_free (ctrl_head c)).
Proof.
  unfold put_ctrl, head_free. intros H. apply bind_Ok_inv in H as (r & E & [_ ->]%aset_Ok).
  rewrite aget_insert_eq by (by eapply aget_Ok_range). done.
Qed.

Lemma writer_ring w m j r : ctrl_ring (W w) m = Ok (j, r) → j = i ∧ head_free i m = Ok (ch_free (ctrl_head (cr_control r))).
Proof.
  destruct (writers_map w) as [E _]. unfold ctrl_ring, head_free. rewrite E, bind_Ok. intros H.
  apply bind_Ok_inv in H as (r' & Er & H). injection H as <- <-. by rewrite Er.
Qed.

Lemma page_store_free m h o bs m' : cpage_store m h o bs = Ok m' → head_free i m' = head_free i m.
Proof.
  unfold cpage_store, head_free. intros H. apply bind_Ok_inv in H as (r & E & H). apply bind_Ok_inv in H as (pg & _ & H).
  apply bind_Ok_inv in H as (pg' & _ & H). apply bind_Ok_inv in H as (pgs & _ & [L ->]%aset_Ok).
  destruct (decide (i = pp_ring h)) as [->|N]; [by rewrite aget_insert_eq, E|]. rewrite aget_insert_ne; [done|lia|done].
Qed.

Lemma fill_free data len h m m' : cfill_plain data len h m = Ok m' → head_free i m' = head_free i m.
Proof.
  unfold cfill_plain. intros H. apply bind_Ok_inv in H as (m1 & E1 & H). apply bind_Ok_inv in H as (bs & _ & E2).
  by rewrite (page_store_free _ _ _ _ _ E2), (page_store_free _ _ _ _ _ E1).
Qed.

Lemma push_new_free fuel w : ∀ c c', kctrl_push_new fuel c w = Ok c' → ch_free (ctrl_head c') = ch_free (ctrl_head c).
Proof.
  induction fuel as [|fuel IH]; intros c c' H; [done|]. cbn [kctrl_push_new] in H.
  apply bind_Ok_inv in H as (wl & _ & H). apply bind_Ok_inv in H as (c1 & E1 & H). apply bind_Ok_inv in H as (wl' & _ & H).
  assert (ch_free (ctrl_head c1) = ch_free (ctrl_head c)) as Ec.
  { unfold set_next in E1. apply bind_Ok_inv in E1 as (ns & _ & E1). by injection E1 as <-. }
  unfold cas_stack in H. destruct (_ =? _) in H.
  - destruct (negb _) in H; [apply IH in H|injection H as <-]; rewrite <- Ec; [by rewrite H|done].
  - destruct (negb _) in H; [apply IH in H|injection H as <-]; by rewrite <- Ec.
Qed.

(** With no page free the functions of a writer leave it so. *)
Lemma second_free fuel w m m' : kctrl_write_SECOND fuel (W w) m = Ok m' → head_free i m' = head_free i m.
Proof.
  unfold kctrl_write_SECOND. intros H. apply bind_Ok_inv in H as ([j r] & E & H). destruct (writer_ring _ _ _ _ E) as [-> Ef].
  apply bind_Ok_inv in H as (c & Ec & H). by rewrite (put_head_free _ _ _ _ H), (push_new_free _ _ _ _ Ec), Ef.
Qed.

Lemma first_free_null fuel w m h m' : head_free i m = Ok KCTRL_NULL → kctrl_write_FIRST fuel (W w) m = Ok (h, m') →
  head_free i m' = Ok KCTRL_NULL.
Proof.
  unfold kctrl_write_FIRST. intros N H. apply bind_Ok_inv in H as ([j r] & E & H). destruct (writer_ring _ _ _ _ E) as [-> Ef].
  rewrite N in Ef. injection Ef as Ef. apply bind_Ok_inv in H as ([f c] & Ec & H). apply bind_Ok_inv in H as (m1 & Em & H).
  destruct fuel as [|fuel]; [done|]. cbn [kctrl_allocate] in Ec. rewrite <- Ef in Ec. injection Ec as <- <-.
  rewrite Z.eqb_refl in H. injection H as _ <-. by rewrite (put_head_free _ _ _ _ Em), <- Ef.
Qed.

(** Nobody sleeps while there is a page, unless the reader is about to wake them. *)
Definition no_lost_wake (st : waiting) : Prop :=
  ∀ w, wt_writer st !! w = Some TAsleep → head_free i (wt_mem st) = Ok KCTRL_NULL ∨ wt_wakes st = true.

Lemma at_no_lost st m w p : no_lost_wake st → p ≠ TAsleep →
  (head_free i (wt_mem st) = Ok KCTRL_NULL → head_free i m = Ok KCTRL_NULL) → no_lost_wake (wt_at st m w p).
Proof.
  intros I N F v. cbn. intros [[_ ->]|[_ E]]%lookup_insert_Some; [done|]. destruct (I v E) as [X|X]; [left; auto|by right].
Qed.

Lemma wait_step_no_lost st st' : kernel = false → no_lost_wake st → wait_step st st' → no_lost_wake st'.
Proof.
  intros K I H. destruct H as [st w fuel h m E F|st w fuel m E F|st w f E F N|st w E F|st w h data len m E F|st w fuel m E F|
    st fuel h m E F|st E].
  - apply at_no_lost; [done|done|]. intros N. by eapply first_free_null.
  - apply at_no_lost; [done|done|]. intros N. by eapply first_free_null.
  - by apply at_no_lost.
  - intros v. cbn. intros _. by left.
  - apply at_no_lost; [done|done|]. by rewrite (fill_free _ _ _ _ _ F).
  - apply at_no_lost; [done|done|]. by rewrite (second_free _ _ _ _ F).
  - intros v _. by right.
  - rewrite K. intros v. cbn. rewrite lookup_fmap. by destruct (wt_writer st !! v) as [[]|].
Qed.

Lemma kernel_sleeps w st st' : kernel = true → wt_writer st !! w = Some TAsleep → wait_step st st' → wt_writer st' !! w = Some TAsleep.
Proof.
  intros K S H. destruct H as [st v fuel h m E F|st v fuel m E F|st v f E F N|st v E F|st v h data len m E F|st v fuel m E F|
    st fuel h m E F|st E]; cbn; rewrite ?K; try done;
    (destruct (decide (v = w)) as [->|]; [congruence|by rewrite lookup_insert_ne]).
Qed.

End Waiting.

(** C29: Writers that sleep for a page.  A reader of libctrl.c wakes them: whatever the
    interleaving, a writer is asleep only while no page is free, or until the reader's
    next step, which wakes it.  The kernel's reader does not: a writer that has gone to
    sleep is asleep for ever, whatever pages are freed. *)
Theorem sleeping_writers_woken kernel i W R st0 st w : (∀ w, maps_ctrl i (W w)) →
  map_Forall (λ _ p, p ≠ TAsleep) (wt_writer st0) → rtc (wait_step kernel i W R) st0 st → wt_writer st !! w = Some TAsleep →
  if kernel then ∀ st', rtc (wait_step kernel i W R) st st' → wt_writer st' !! w = Some TAsleep
  else head_free i (wt_mem st) = Ok KCTRL_NULL ∨
    wt_wakes st = true ∧ ∃ st', wait_step kernel i W R st st' ∧ wt_writer st' !! w = Some TTest.
Proof.
  intros HW A Run S. destruct kernel.
  - intros st' Run'. clear Run. revert S. induction Run' as [|x y z H _ IH]; [done|]. intros S. apply IH. by eapply kernel_sleeps.
  - assert (no_lost_wake i st) as I.
    { revert Run. clear S. apply (rtc_ind_r (λ st, no_lost_wake i st)); [|intros; by eapply wait_step_no_lost].
      intros v E. by destruct (A v TAsleep E). }
    destruct (I w S) as [|E]; [by left|]. right. split; [done|]. eexists. split; [by apply t_wake|].
    cbn. by rewrite lookup_fmap, S.
Qed.

(** A ring with one message in it whose other pages are all with writers. *)
Definition full_ring : kctrl_mem :=
  match (r ← ('(_, m) ← kctrl_write_FIRST 1 (chandle 0 0) [KctrlRing (cr_control fresh_kctrl_ring) []];
               kctrl_write_SECOND 1 (chandle 0 0) m); aget r 0) with
  | Ok r => [KctrlRing (set_ch_free (cr_control r) KCTRL_NULL) []]
  | _ => []
  end.

Definition freed_ring : kctrl_mem :=
  match kctrl_next_generic 10 (chandle 0 0) full_ring with Ok (_, m) => m | _ => [] end.

(** Writer 1 goes to sleep, the kernel's reader takes the message and frees the page
    it was on, and writer 1 sleeps on. *)
Lemma sleeping_writers_woken_witness : ∃ st st', rtc (wait_step true 0 (chandle 0) (chandle 0 0)) (Waiting full_ring {[1 := TFirst]} false) st ∧
  rtc (wait_step true 0 (chandle 0) (chandle 0 0)) st st' ∧ head_free 0 (wt_mem st') = Ok 0 ∧ wt_writer st' !! 1 = Some TAsleep.
Proof.
  pose (wr := <[1 := TAsleep]> (<[1 := TTest]> {[1 := TFirst]} : gmap Z twait)).
  pose (st := Waiting full_ring wr false). pose (st' := Waiting freed_ring wr false).
  assert (rtc (wait_step true 0 (chandle 0) (chandle 0 0)) (Waiting full_ring {[1 := TFirst]} false) st) as Run.
  { eapply rtc_l; [apply (t_full _ _ _ _ _ 1 1 full_ring); [reflexivity|by vm_compute]|].
    eapply rtc_l; [apply (t_sleep _ _ _ _ _ 1); [reflexivity|by vm_compute]|]. apply rtc_refl. }
  assert (rtc (wait_step true 0 (chandle 0) (chandle 0 0)) st st') as Run'.
  { eapply rtc_l; [apply (t_next _ _ _ _ st 10 (PagePtr 0 1) freed_ring); [done|by vm_compute]|].
    eapply rtc_l; [by apply t_wake|]. apply rtc_refl. }
  exists st, st'. split_and!; [done|done|by vm_compute|].
  refine (sleeping_writers_woken true 0 (chandle 0) (chandle 0 0) _ st 1 (chandle_maps 0) _ Run eq_refl st' Run').
  by apply map_Forall_singleton.
Defined.
