(* ===== verification/KCtrlConc.v ===== *)
(** * The control ring under concurrent access

    Writers and the reader run at the same time, each step one access to the shared
    control: a load or store of a word, or a compare-and-swap.  The program counters are
    the points of [kctrl_allocate], [kctrl_push_new], [kctrl_avail_impl],
    [kctrl_reverse_stack], [kctrl_next_generic] and [kctrl_push_to_free_list] between two
    such accesses, with the local variables live there.  With one writer the ring is a
    first-in first-out queue in every interleaving; with several, a page can be given to
    two of them. *)

From S2P Require Import Prelude KrDep KData KDataIO KDataRing KDataQueue KCtrl KCtrlQueue.

(** ** Threads *)

(** A writer of message [m]; [p] is the page it has. *)
Inductive kwpc :=
  | KIdle
  | KLoad (m : Z)              (* about to load [head->free] *)
  | KNext (m free : Z)         (* about to load the next of [free] *)
  | KSwap (m free next : Z)    (* about to swap [next] for [free] *)
  | KWloc (m p : Z)            (* about to store [wloc] *)
  | KClear (m p : Z)           (* about to clear the next of [p] *)
  | KFill (m p : Z)            (* about to fill the page *)
  | PLoad (m p : Z)            (* about to load [head->stack] *)
  | PLink (m p stack : Z)      (* about to store [stack] in the next of [p] *)
  | PSwap (m p stack : Z).     (* about to swap [p] for [stack] *)

Inductive krpc :=
  | QIdle                      (* about to load the next of [head->head] *)
  | QAvail                     (* about to load [head->stack] *)
  | QTest (stack : Z)          (* about to load its next *)
  | QStack                     (* has found a message, about to load [head->stack] *)
  | QLoop (prev stack : Z)     (* at the test of the loop *)
  | QLink (prev stack next : Z) (* about to store [prev] in the next of [stack] *)
  | QHead                      (* about to load [head->head] *)
  | QNext (head : Z)           (* about to load its next *)
  | QSet (head next : Z)       (* about to store [head->head] *)
  | QFree (head : Z)           (* about to load [head->free] *)
  | QTie (head free : Z)       (* about to store [free] in the next of [head] *)
  | QPut (head free : Z).      (* about to swap [head] for [free] *)

(** [kc_page]: the message in each page.  [kc_sent], [kc_got]: the messages pushed by
    writers and those the reader was given. *)
Record kconc := KConc {
  kc_ctrl : kctrl_control;
  kc_page : gmap Z Z;
  kc_writer : gmap Z kwpc;
  kc_reader : krpc;
  kc_sent : list Z;
  kc_got : list Z;
}.

Definition writer_at (st : kconc) (id : Z) : kwpc := default KIdle (kc_writer st !! id).

(** A step of writer [id]; when it is idle it begins to write [m]. *)
Definition kw_step (id m : Z) (st : kconc) : res kconc :=
  let c := kc_ctrl st in
  let to c pc := Ok (KConc c (kc_page st) (<[id := pc]> (kc_writer st)) (kc_reader st) (kc_sent st) (kc_got st)) in
  match writer_at st id with
  | KIdle => to c (KLoad m)
  | KLoad m => let free := ch_free (ctrl_head c) in if free =? KCTRL_NULL then to c KIdle else to c (KNext m free)
  | KNext m free => next ← aget (ctrl_next c) free; to c (KSwap m free next)
  | KSwap m free next =>
      let '(before, c) := cas_free c free next in
      if negb (before =? free) then to c (KLoad m) else to c (KWloc m free)
  | KWloc m p => c ← set_wloc c id p; to c (KClear m p)
  | KClear m p => c ← set_next c p KCTRL_NULL; to c (KFill m p)
  | KFill m p => Ok (KConc c (<[p := m]> (kc_page st)) (<[id := PLoad m p]> (kc_writer st)) (kc_reader st) (kc_sent st) (kc_got st))
  | PLoad m p => to c (PLink m p (ch_stack (ctrl_head c)))
  | PLink m p stack => wloc ← get_wloc c id; c ← set_next c wloc stack; to c (PSwap m p stack)
  | PSwap m p stack =>
      wloc ← get_wloc c id;
      let '(before, c) := cas_stack c stack wloc in
      if negb (before =? stack) then to c (PLoad m p)
      else Ok (KConc c (kc_page st) (<[id := KIdle]> (kc_writer st)) (kc_reader st) (kc_sent st ++ [m]) (kc_got st))
  end.

(** A step of the reader, who looks whether there is a message and takes it. *)
Definition kr_step (st : kconc) : res kconc :=
  let c := kc_ctrl st in
  let to c pc := Ok (KConc c (kc_page st) (kc_writer st) pc (kc_sent st) (kc_got st)) in
  match kc_reader st with
  | QIdle => next ← get_next c (ch_head (ctrl_head c)); to c (if negb (next =? KCTRL_NULL) then QStack else QAvail)
  | QAvail => to c (QTest (ch_stack (ctrl_head c)))
  | QTest stack => next ← get_next c stack; to c (if negb (next =? KCTRL_NULL) then QStack else QIdle)
  | QStack => to c (QLoop KCTRL_NULL (ch_stack (ctrl_head c)))
  | QLoop prev stack =>
      if stack =? KCTRL_NULL then to c QHead
      else next ← get_next c stack; to c (QLink prev stack next)
  | QLink prev stack next => c ← set_next c stack prev; to c (QLoop stack next)
  | QHead => to c (QNext (ch_head (ctrl_head c)))
  | QNext head => next ← get_next c (ch_head (ctrl_head c)); to c (QSet head next)
  | QSet head next => to (set_ch_head c next) (QFree head)
  | QFree head => to c (QTie head (ch_free (ctrl_head c)))
  | QTie head free => c ← set_next c head free; to c (QPut head free)
  | QPut head free =>
      let '(before, c) := cas_free c free head in
      if negb (before =? free) then to c (QFree head)
      else
        got ← deref (kc_page st !! KCTRL_INDEX (ch_head (ctrl_head c)));
        Ok (KConc c (kc_page st) (kc_writer st) QIdle (kc_sent st) (kc_got st ++ [got]))
  end.

Inductive Turn := Wr (id m : Z) | Rd.

Definition kc_step (st : kconc) (t : Turn) : res kconc :=
  match t with Wr id m => kw_step id m st | Rd => kr_step st end.

Fixpoint kc_run (st : kconc) (ts : list Turn) : res kconc :=
  match ts with
  | [] => Ok st
  | t :: ts => st ← kc_step st t; kc_run st ts
  end.

Definition kc_start : kconc := KConc fresh_ctrl ∅ ∅ QIdle [] [].

(** The page a writer has taken. *)
Definition wpage (pc : kwpc) : option Z :=
  match pc with
  | KWloc _ p | KClear _ p | KFill _ p | PLoad _ p | PLink _ p _ | PSwap _ p _ => Some p
  | _ => None
  end.

(** ** Several writers *)

(** Writer 0 is about to take page 1, which is first in the free list and followed by 2.
    Writer 1 takes pages 1 and 2 and sends the first, writer 2 sends another message, and the
    reader gives page 1 back: it is first in the list again, followed by another page.
    Writer 0 takes it and puts page 2, which writer 1 is filling, at the head of the list,
    where writer 2 finds it. *)
Definition aba_turns : list Turn :=
  replicate 3 (Wr 0 70) ++                   (* about to swap *)
  replicate 10 (Wr 1 71) ++                  (* sends page 1 *)
  replicate 6 (Wr 1 72) ++                   (* has page 2 *)
  replicate 15 Rd ++                         (* takes page 1, frees page 0 *)
  replicate 10 (Wr 2 73) ++                  (* sends page 0 *)
  replicate 15 Rd ++                         (* takes page 0, frees page 1 *)
  [Wr 0 70] ++
  replicate 5 (Wr 2 74).

Definition aba_end : res kconc := kc_run kc_start aba_turns.

(** Two writers come to fill the same page, and the free list is lost. *)
Theorem two_writers_one_page : ∃ st, kc_run kc_start aba_turns = Ok st ∧
  wpage (writer_at st 1) = Some 2 ∧ wpage (writer_at st 2) = Some 2 ∧ ch_free (ctrl_head (kc_ctrl st)) = KCTRL_NULL.
Proof.
  assert (T : match kc_run kc_start aba_turns with
    | Ok st => bool_decide (wpage (writer_at st 1) = Some 2 ∧ wpage (writer_at st 2) = Some 2 ∧ ch_free (ctrl_head (kc_ctrl st)) = KCTRL_NULL)
    | _ => false end = true) by (by vm_compute).
  destruct (kc_run kc_start aba_turns) as [st| |]; [|done..]. exists st. split; [done|]. by apply bool_decide_eq_true in T.
Qed.

(** ** One writer *)

Definition NPAGES : list Z := seqZ 0 KCTRL_NPAGES.

Definition rpage (pc : krpc) : option Z :=
  match pc with QFree h | QTie h _ | QPut h _ => Some h | _ => None end.

(** The forward list and the stack, as the reader is in the middle of reversing the part of
    the stack that was there when it began: [done] is reversed, [todo] is not, [above] came
    later.  There is a message. *)
Definition reversing (c : kctrl_control) (prev s : Z) (front : list Z) (join : Z) (stk : list Z) : Prop :=
  ∃ above done todo, stk = above ++ reverse done ++ todo ∧ (front ≠ [] ∨ done ≠ [] ∨ todo ≠ []) ∧
    chain (ctrl_next c) (ch_head (ctrl_head c)) (front ++ [join]) ∧
    chain (ctrl_next c) s (todo ++ [join]) ∧ chain (ctrl_next c) prev done ∧
    seg (ctrl_next c) (ch_stack (ctrl_head c)) above (List.last done s).

Definition straight (c : kctrl_control) (front : list Z) (join : Z) (stk : list Z) : Prop :=
  chain (ctrl_next c) (ch_head (ctrl_head c)) (front ++ [join]) ∧ chain (ctrl_next c) (ch_stack (ctrl_head c)) (stk ++ [join]).

(** What holds at each point of the reader. *)
Definition reader_ok (c : kctrl_control) (pc : krpc) (front : list Z) (join : Z) (stk : list Z) : Prop :=
  match pc with
  | QIdle | QAvail | QFree _ | QTie _ _ => straight c front join stk
  | QTest s => straight c front join stk ∧ s ∈ stk ++ [join]
  | QStack => straight c front join stk ∧ (front ≠ [] ∨ stk ≠ [])
  | QLoop prev s => if s =? KCTRL_NULL then straight c front join stk ∧ front ≠ [] else reversing c prev s front join stk
  | QLink prev s n => reversing c prev s front join stk ∧ aget (ctrl_next c) s = Ok n
  | QHead => straight c front join stk ∧ front ≠ []
  | QNext h => straight c front join stk ∧ front ≠ [] ∧ h = ch_head (ctrl_head c)
  | QSet h n => straight c front join stk ∧ front ≠ [] ∧ h = ch_head (ctrl_head c) ∧ aget (ctrl_next c) h = Ok n
  | QPut h f => straight c front join stk ∧ aget (ctrl_next c) h = Ok f
  end.

(** What holds at each point of the writer. *)
Definition writer_ok (c : kctrl_control) (pages : gmap Z Z) (id : Z) (pc : kwpc) (free : list Z) : Prop :=
  match pc with
  | KIdle | KLoad _ | KWloc _ _ => True
  | KNext _ f => f ∈ free
  | KSwap _ f n => f ∈ free ∧ aget (ctrl_next c) f = Ok n
  | KClear _ p | KFill _ p => aget (ctrl_writer c) id = Ok p
  | PLoad m p | PLink m p _ => aget (ctrl_writer c) id = Ok p ∧ pages !! p = Some m
  | PSwap m p s => aget (ctrl_writer c) id = Ok p ∧ pages !! p = Some m ∧ aget (ctrl_next c) p = Ok s
  end.

(** The messages in the queue: all of it before the reader returns, all but the page the
    reader has been given otherwise. *)
Definition pending (pc : krpc) (q : list Z) : list Z := match rpage pc with Some _ => q | None => tail q end.

Definition opt_list (o : option Z) : list Z := match o with Some p => [p] | None => [] end.

Record kc_inv (id : Z) (front : list Z) (join : Z) (stk free : list Z) (st : kconc) : Prop := KcInv {
  kv_len : length (ctrl_next (kc_ctrl st)) = Z.to_nat KCTRL_NPAGES;
  kv_writers : length (ctrl_writer (kc_ctrl st)) = Z.to_nat KCTRL_WRITERS;
  kv_free : chain (ctrl_next (kc_ctrl st)) (ch_free (ctrl_head (kc_ctrl st))) free;
  kv_all : front ++ [join] ++ stk ++ free ++ opt_list (wpage (writer_at st id)) ++ opt_list (rpage (kc_reader st)) ≡ₚ NPAGES;
  kv_reader : reader_ok (kc_ctrl st) (kc_reader st) front join stk;
  kv_writer : writer_ok (kc_ctrl st) (kc_page st) id (writer_at st id) free;
  kv_fifo : ∃ ms, Forall2 (λ p m, kc_page st !! p = Some m) (pending (kc_reader st) (front ++ join :: reverse stk)) ms ∧ kc_got st ++ ms = kc_sent st;
}.

Lemma writer_at_insert c pg w id pc r s g : writer_at (KConc c pg (<[id := pc]> w) r s g) id = pc.
Proof. unfold writer_at. cbn. by rewrite lookup_insert_eq. Qed.

(** *** The reader's lists and the steps of the writer *)

Lemma reader_ok_ext c c' pc front join stk : ctrl_next c' = ctrl_next c → ch_head (ctrl_head c') = ch_head (ctrl_head c) → ch_stack (ctrl_head c') = ch_stack (ctrl_head c) →
  reader_ok c pc front join stk → reader_ok c' pc front join stk.
Proof.
  intros En Eh Es. assert (St : straight c front join stk → straight c' front join stk) by (unfold straight; by rewrite En, Eh, Es).
  assert (Rv : ∀ prev s, reversing c prev s front join stk → reversing c' prev s front join stk) by (intros prev s; unfold reversing; by rewrite En, Eh, Es).
  destruct pc as [| |s| |prev s|prev s n| |h|h n|h|h f|h f]; cbn; rewrite ?En, ?Eh; try case_match; naive_solver.
Qed.

Lemma straight_insert c p v front join stk : p ∉ front ++ [join] ++ stk → in_ring p → straight c front join stk →
  straight (with_next c (<[Z.to_nat p := v]> (ctrl_next c))) front join stk.
Proof. intros N Hp [A B]. split; apply seg_insert; try done; set_solver. Qed.

Lemma reversing_insert c p v prev s front join stk : p ∉ front ++ [join] ++ stk → in_ring p → reversing c prev s front join stk →
  reversing (with_next c (<[Z.to_nat p := v]> (ctrl_next c))) prev s front join stk.
Proof.
  intros N Hp (above & dn & todo & -> & P & A & B & C & D). exists above, dn, todo. split; [done|]. split; [done|].
  split_and!; apply seg_insert; try done; set_solver.
Qed.

Lemma reversing_at c prev s front join stk : reversing c prev s front join stk → s ∈ front ++ [join] ++ stk ∧ in_ring s.
Proof.
  intros (above & dn & todo & -> & _ & _ & B & _ & _). destruct todo as [|x todo]; cbn in B; destruct B as (-> & R & _); split; try done; set_solver.
Qed.

Lemma straight_head c front join stk : straight c front join stk → front ≠ [] → ∃ h rest n, front = h :: rest ∧ ch_head (ctrl_head c) = h ∧ in_ring h ∧ aget (ctrl_next c) h = Ok n ∧
  chain (ctrl_next c) n (rest ++ [join]).
Proof. intros [A _] N. destruct front as [|h rest]; [done|]. destruct A as (E & R & n & En & S). by exists h, rest, n. Qed.

(** Writing the next of a page that is not in the queue, and not the one the reader gives back. *)
Lemma reader_ok_insert c p v pc front join stk : p ∉ front ++ [join] ++ stk → rpage pc ≠ Some p → in_ring p → reader_ok c pc front join stk →
  reader_ok (with_next c (<[Z.to_nat p := v]> (ctrl_next c))) pc front join stk.
Proof.
  intros N Nr Hp. pose proof (straight_insert c p v front join stk N Hp) as Si. pose proof (λ prev s, reversing_insert c p v prev s front join stk N Hp) as Ri.
  assert (Ag : ∀ q n, q ≠ p → aget (ctrl_next c) q = Ok n → aget (<[Z.to_nat p := v]> (ctrl_next c)) q = Ok n).
  { intros q n Ne E. rewrite aget_insert_ne; [done|apply Hp|done]. }
  destruct pc as [| |s| |prev s|prev s n| |h|h n|h|h f|h f]; cbn; try case_match; try (by auto); try (intros []; split; by auto).
  - intros [R E]. split; [auto|]. apply Ag; [|done]. intros ->. by apply reversing_at in R as [R _].
  - intros (S & F & -> & E). split_and!; [auto|done|done|]. apply Ag; [|done]. intros Eh.
    destruct (straight_head _ _ _ _ S F) as (h & rest & n' & -> & E2 & _). set_solver.
  - intros [S E]. split; [auto|]. apply Ag; [|done]. intros ->. by apply Nr.
Qed.

(** Pushing on the stack. *)
Lemma reader_ok_push c p pc front join stk : in_ring p → aget (ctrl_next c) p = Ok (ch_stack (ctrl_head c)) → reader_ok c pc front join stk →
  reader_ok (set_ch_stack c p) pc front join (p :: stk).
Proof.
  intros Hp En. assert (Si : straight c front join stk → straight (set_ch_stack c p) front join (p :: stk)).
  { intros [A B]. split; [done|]. cbn. split; [done|]. split; [done|]. by eexists. }
  assert (Ri : ∀ prev s, reversing c prev s front join stk → reversing (set_ch_stack c p) prev s front join (p :: stk)).
  { intros prev s (above & dn & todo & -> & P & A & B & C & D). exists (p :: above), dn, todo. split; [done|]. split_and!; try done. cbn. split; [done|]. split; [done|]. by eexists. }
  destruct pc as [| |s| |prev s|prev s n| |h|h n|h|h f|h f]; cbn; try case_match; try naive_solver.
  intros [S I]. split; [auto|]. by right.
Qed.

(** *** The writer's facts and the steps of the reader *)

Lemma writer_ok_ext c c' pages id pc free : ctrl_next c' = ctrl_next c → ctrl_writer c' = ctrl_writer c → writer_ok c pages id pc free → writer_ok c' pages id pc free.
Proof. intros En Ew. destruct pc; cbn; by rewrite ?En, ?Ew. Qed.

Lemma writer_ok_insert c q v pages id pc free : q ∉ free ++ opt_list (wpage pc) → in_ring q → writer_ok c pages id pc free →
  writer_ok (with_next c (<[Z.to_nat q := v]> (ctrl_next c))) pages id pc free.
Proof.
  intros N Hq. assert (Ag : ∀ p n, p ≠ q → aget (ctrl_next c) p = Ok n → aget (<[Z.to_nat q := v]> (ctrl_next c)) p = Ok n).
  { intros p n Ne E. rewrite aget_insert_ne; [done|apply Hq|done]. }
  destruct pc; cbn in *; try done.
  - intros [I E]. split; [done|]. apply Ag; [set_solver|done].
  - intros (A & B & E). split_and!; [done|done|]. apply Ag; [set_solver|done].
Qed.

Lemma writer_ok_more c pages id pc free h : writer_ok c pages id pc free → writer_ok c pages id pc (h :: free).
Proof. destruct pc; cbn; set_solver. Qed.

(** *** Pages *)

Lemma inv_nodup id front join stk free st : kc_inv id front join stk free st →
  NoDup (front ++ [join] ++ stk ++ free ++ opt_list (wpage (writer_at st id)) ++ opt_list (rpage (kc_reader st))).
Proof. intros I. rewrite (kv_all _ _ _ _ _ _ I). apply NoDup_seqZ. Qed.

Lemma inv_ring id front join stk free st p : kc_inv id front join stk free st →
  p ∈ front ++ [join] ++ stk ++ free ++ opt_list (wpage (writer_at st id)) ++ opt_list (rpage (kc_reader st)) → in_ring p.
Proof. intros I. rewrite (kv_all _ _ _ _ _ _ I). unfold NPAGES. rewrite elem_of_seqZ. unfold in_ring. lia. Qed.

(** Elements of a list without duplicates are in one part of it. *)
Lemma nodup_parts (a b : list Z) : NoDup (a ++ b) → NoDup a ∧ NoDup b ∧ ∀ x, x ∈ a → x ∉ b.
Proof. rewrite NoDup_app. naive_solver. Qed.

(** The page of the writer is in no list. *)
Lemma writer_page id front join stk free st p : kc_inv id front join stk free st → wpage (writer_at st id) = Some p →
  in_ring p ∧ (p ∉ front ++ [join] ++ stk) ∧ (p ∉ free) ∧ rpage (kc_reader st) ≠ Some p.
Proof.
  intros I E. pose proof (inv_nodup _ _ _ _ _ _ I) as ND. rewrite E in ND. split; [eapply inv_ring; [done|]; rewrite E; set_solver|].
  rewrite (app_assoc [join]), (app_assoc front) in ND. apply nodup_parts in ND as (_ & ND & D1). apply nodup_parts in ND as (_ & ND & D2). apply nodup_parts in ND as (_ & _ & D3).
  split_and!; [set_solver|set_solver|]. intros Er. rewrite Er in D3. set_solver.
Qed.

(** The page the reader gives back is in no list either. *)
Lemma reader_page id front join stk free st h : kc_inv id front join stk free st → rpage (kc_reader st) = Some h →
  in_ring h ∧ (h ∉ front ++ [join] ++ stk) ∧ (h ∉ free ++ opt_list (wpage (writer_at st id))).
Proof.
  intros I E. pose proof (inv_nodup _ _ _ _ _ _ I) as ND. rewrite E in ND. split; [eapply inv_ring; [done|]; rewrite E; set_solver|].
  rewrite (app_assoc [join]), (app_assoc front), (app_assoc free) in ND. apply nodup_parts in ND as (_ & ND & D1). apply nodup_parts in ND as (_ & _ & D2).
  split; set_solver.
Qed.

(** A page of the queue is not free, nor the writer's. *)
Lemma queue_page id front join stk free st q : kc_inv id front join stk free st → q ∈ front ++ [join] ++ stk →
  in_ring q ∧ (q ∉ free ++ opt_list (wpage (writer_at st id))).
Proof.
  intros I Q. pose proof (inv_nodup _ _ _ _ _ _ I) as ND. split; [eapply inv_ring; [done|]; set_solver|].
  rewrite (app_assoc [join]), (app_assoc front) in ND. apply nodup_parts in ND as (_ & _ & D). set_solver.
Qed.

(** A writer that only moves on. *)
Lemma writer_moves id front join stk free st pc : kc_inv id front join stk free st → wpage pc = wpage (writer_at st id) → writer_ok (kc_ctrl st) (kc_page st) id pc free →
  kc_inv id front join stk free (KConc (kc_ctrl st) (kc_page st) (<[id := pc]> (kc_writer st)) (kc_reader st) (kc_sent st) (kc_got st)).
Proof. intros [L W F A R Wr Fi] Ep O. split; cbn; rewrite ?writer_at_insert, ?Ep; done. Qed.

(** A writer that stores the next of its page. *)
Lemma writer_stores id front join stk free st p v pc : kc_inv id front join stk free st → wpage (writer_at st id) = Some p → wpage pc = Some p →
  let c := with_next (kc_ctrl st) (<[Z.to_nat p := v]> (ctrl_next (kc_ctrl st))) in
  writer_ok c (kc_page st) id pc free →
  kc_inv id front join stk free (KConc c (kc_page st) (<[id := pc]> (kc_writer st)) (kc_reader st) (kc_sent st) (kc_got st)).
Proof.
  intros I E Ep c O. destruct (writer_page _ _ _ _ _ _ _ I E) as (Hp & N1 & N2 & N3). destruct I as [L W F A R Wr Fi]. rewrite E in A.
  split; cbn; rewrite ?writer_at_insert, ?Ep; try done.
  - by rewrite length_insert.
  - by apply seg_insert.
  - by apply reader_ok_insert.
Qed.

Lemma seg_get ns x l y p : seg ns x l y → p ∈ l → in_ring p ∧ ∃ n, aget ns p = Ok n.
Proof.
  revert x. induction l as [|q l IH]; intros x; [by intros _ ?%not_elem_of_nil|]. intros (-> & R & n & En & S) [->|I]%elem_of_cons; eauto.
Qed.

Lemma tail_snoc (l k : list Z) : l ≠ [] → tail (l ++ k) = tail l ++ k.
Proof. by destruct l. Qed.

Lemma in_tail (l : list Z) x : x ∈ tail l → x ∈ l.
Proof. destruct l; [done|]. by right. Qed.

Lemma Forall2_on {A B} (P Q : A → B → Prop) l k : Forall2 P l k → (∀ x y, x ∈ l → P x y → Q x y) → Forall2 Q l k.
Proof. induction 1 as [|x y l k Pxy F IH]; intros H; constructor; [apply H; [by left|done]|]. apply IH. intros; apply H; [by right|done]. Qed.

(** The writer takes the first page of the free list. *)
Lemma writer_takes id front join stk free st m f n : kc_inv id front join stk free st → writer_at st id = KSwap m f n → ch_free (ctrl_head (kc_ctrl st)) = f →
  ∃ free', kc_inv id front join stk free' (KConc (set_ch_free (kc_ctrl st) n) (kc_page st) (<[id := KWloc m f]> (kc_writer st)) (kc_reader st) (kc_sent st) (kc_got st)).
Proof.
  intros [L W F A R Wr Fi] E Ef. rewrite E in Wr, A. destruct Wr as [If En]. destruct free as [|x free]; [by apply not_elem_of_nil in If|].
  destruct F as (Ex & _ & n' & En' & S). assert (x = f) as -> by congruence. assert (n' = n) as -> by congruence. exists free.
  split; cbn; rewrite ?writer_at_insert; try done; try (by eapply reader_ok_ext; [| | |exact R]).
  rewrite <- A. cbn. do 3 f_equiv. by rewrite <- Permutation_middle.
Qed.

(** The writer pushes its page. *)
Lemma writer_pushes id front join stk free st m p : kc_inv id front join stk free st → writer_at st id = PSwap m p (ch_stack (ctrl_head (kc_ctrl st))) →
  kc_inv id front join (p :: stk) free (KConc (set_ch_stack (kc_ctrl st) p) (kc_page st) (<[id := KIdle]> (kc_writer st)) (kc_reader st) (kc_sent st ++ [m]) (kc_got st)).
Proof.
  intros I E. destruct (writer_page _ _ _ _ _ _ p I ltac:(by rewrite E)) as (Hp & _). destruct I as [L W F A R Wr (ms & Fm & Fg)]. rewrite E in Wr, A. destruct Wr as (Ew & Em & En).
  split; cbn -[reverse]; rewrite ?writer_at_insert; try done.
  - rewrite <- A. cbn. do 2 f_equiv. rewrite (app_assoc stk free (p :: _)), <- Permutation_middle. by rewrite app_assoc.
  - by apply reader_ok_push.
  - exists (ms ++ [m]). rewrite <- Fg, app_assoc. split; [|done]. rewrite reverse_cons, app_comm_cons, app_assoc.
    unfold pending in *. destruct (rpage (kc_reader st)); [|rewrite tail_snoc by (by destruct front)]; (apply Forall2_app; [done|by repeat constructor]).
Qed.

Lemma kw_inv id m front join stk free st : 0 ≤ id < KCTRL_WRITERS → kc_inv id front join stk free st →
  ∃ st' stk' free', kw_step id m st = Ok st' ∧ kc_inv id front join stk' free' st'.
Proof.
  intros Hid I. pose proof (kv_writer _ _ _ _ _ _ I) as Wr. pose proof (kv_len _ _ _ _ _ _ I) as L. pose proof (kv_writers _ _ _ _ _ _ I) as Lw. unfold kw_step.
  destruct (writer_at st id) as [|m'|m' f|m' f n|m' p|m' p|m' p|m' p|m' p s|m' p s] eqn:E; cbn in Wr.
  - eexists _, stk, free. split; [done|]. apply writer_moves; rewrite ?E; done.
  - case_match; (eexists _, stk, free; split; [done|]; apply writer_moves; rewrite ?E; try done).
    pose proof (kv_free _ _ _ _ _ _ I) as F. destruct free as [|x free]; [cbn in F; lia|]. destruct F as [-> _]. by left.
  - destruct (seg_get _ _ _ _ _ (kv_free _ _ _ _ _ _ I) Wr) as (_ & n & En). rewrite En, bind_Ok. eexists _, stk, free. split; [done|]. apply writer_moves; rewrite ?E; done.
  - unfold cas_free. destruct (Z.eqb_spec (ch_free (ctrl_head (kc_ctrl st))) f) as [Ef|Ne].
    + rewrite Ef, Z.eqb_refl. cbn. destruct (writer_takes _ _ _ _ _ _ m' f n I E Ef) as [free' I']. eexists _, stk, free'. split; [done|exact I'].
    + rewrite (proj2 (Z.eqb_neq _ _)) by done. cbn. eexists _, stk, free. split; [done|]. apply writer_moves; rewrite ?E; done.
  - unfold set_wloc. rewrite aset_in_range, !bind_Ok by (rewrite Lw; unfold KCTRL_WRITERS in *; lia). eexists _, stk, free. split; [done|].
    destruct I as [_ _ F A R _ Fi]. split; cbn; rewrite ?writer_at_insert; try done; try (by rewrite length_insert); try (by rewrite E in A); try (by eapply reader_ok_ext; [| | |exact R]).
    apply aget_insert_eq. rewrite Lw. unfold KCTRL_WRITERS in *. lia.
  - destruct (writer_page _ _ _ _ _ _ p I ltac:(by rewrite E)) as (Hp & _). rewrite set_next_ok, bind_Ok by done. eexists _, stk, free. split; [done|].
    apply (writer_stores _ _ _ _ _ _ p); rewrite ?E; done.
  - eexists _, stk, free. split; [done|]. destruct (writer_page _ _ _ _ _ _ p I ltac:(by rewrite E)) as (Hp & N1 & _). destruct I as [_ _ F A R _ (ms & Fm & Fg)].
    split; cbn -[reverse]; rewrite ?writer_at_insert; try done; [by rewrite E in A| |].
    + split; [done|]. by rewrite lookup_insert_eq.
    + exists ms. split; [|done]. eapply Forall2_on; [exact Fm|].
      intros q x Hq Hx. rewrite lookup_insert_ne; [done|]. intros ->. apply N1. unfold pending in Hq.
      assert (q ∈ front ++ join :: reverse stk) by (destruct (rpage (kc_reader st)); [done|by apply in_tail]). set_solver.
  - eexists _, stk, free. split; [done|]. apply writer_moves; rewrite ?E; done.
  - destruct Wr as [Ew Em]. unfold get_wloc. rewrite Ew, bind_Ok. destruct (writer_page _ _ _ _ _ _ p I ltac:(by rewrite E)) as (Hp & _).
    rewrite set_next_ok, bind_Ok by done. eexists _, stk, free. split; [done|]. apply (writer_stores _ _ _ _ _ _ p); rewrite ?E; try done.
    cbn. split_and!; [done|done|]. apply aget_insert_eq. rewrite L. unfold in_ring in Hp. lia.
  - destruct Wr as (Ew & Em & En). unfold get_wloc. rewrite Ew, bind_Ok. unfold cas_stack. destruct (Z.eqb_spec (ch_stack (ctrl_head (kc_ctrl st))) s) as [Es|Ne].
    + rewrite Es, Z.eqb_refl. cbn. eexists _, (p :: stk), free. split; [done|]. apply writer_pushes; [done|]. by rewrite Es.
    + rewrite (proj2 (Z.eqb_neq _ _)) by done. cbn. eexists _, stk, free. split; [done|]. apply writer_moves; rewrite ?E; done.
Qed.

(** *** The reader *)

(** A reader that only moves on. *)
Lemma reader_moves id front join stk free st pc : kc_inv id front join stk free st → rpage pc = rpage (kc_reader st) → reader_ok (kc_ctrl st) pc front join stk →
  kc_inv id front join stk free (KConc (kc_ctrl st) (kc_page st) (kc_writer st) pc (kc_sent st) (kc_got st)).
Proof. intros [L W F A R Wr Fi] Ep O. split; try done; unfold pending in *; cbn -[reverse]; by rewrite Ep. Qed.

Lemma straight_top c front join stk : straight c front join stk → ch_stack (ctrl_head c) ∈ stk ++ [join] ∧ in_ring (ch_stack (ctrl_head c)).
Proof. intros [_ S]. destruct stk as [|x stk]; destruct S as (-> & R & _); split; try done; by left. Qed.

Lemma straight_join c front join stk : straight c front join stk → aget (ctrl_next c) join = Ok KCTRL_NULL ∧ in_ring join.
Proof. intros [S _]. apply seg_app in S as (z & _ & (_ & R & n & En & E)). cbn in E. by subst n. Qed.

(** The step of the loop that finds more to reverse. *)
Lemma reverse_more id front join stk free st prev x n above dn todo : kc_inv id front join stk free st → kc_reader st = QLink prev x n →
  stk = above ++ reverse dn ++ x :: todo →
  chain (ctrl_next (kc_ctrl st)) (ch_head (ctrl_head (kc_ctrl st))) (front ++ [join]) → chain (ctrl_next (kc_ctrl st)) n (todo ++ [join]) →
  chain (ctrl_next (kc_ctrl st)) prev dn → seg (ctrl_next (kc_ctrl st)) (ch_stack (ctrl_head (kc_ctrl st))) above (List.last dn x) →
  reader_ok (with_next (kc_ctrl st) (<[Z.to_nat x := prev]> (ctrl_next (kc_ctrl st)))) (QLoop x n) front join stk.
Proof.
  intros I E Es Sf St Sp Sa. pose proof (inv_nodup _ _ _ _ _ _ I) as ND. destruct (queue_page _ _ _ _ _ _ x I) as [Hx _]; [rewrite Es; set_solver|].
  rewrite (app_assoc [join]), (app_assoc front) in ND. apply nodup_parts in ND as (ND & _). rewrite Es in ND.
  assert (N : (x ∉ front ++ [join]) ∧ (x ∉ above) ∧ (x ∉ dn) ∧ (x ∉ todo)).
  { rewrite app_assoc in ND. apply nodup_parts in ND as (_ & ND & D1). apply nodup_parts in ND as (_ & ND & D2). apply nodup_parts in ND as (_ & ND & D3). apply NoDup_cons in ND as [D4 _].
    split_and!; [|intros Hi; apply (D2 x Hi)|intros Hi; apply (D3 x)|done]; [|apply elem_of_app; right; by left|by apply elem_of_reverse|by left].
    intros Hi. apply (D1 x Hi), elem_of_app. right. apply elem_of_app. right. by left. }
  destruct N as (N1 & N2 & N3 & N4). cbn. destruct (Z.eqb_spec n KCTRL_NULL) as [->|Nn].
  { destruct todo; destruct St as (Z & R & _); rewrite <- Z in R; unfold in_ring, KCTRL_NULL in R; lia. }
  exists above, (x :: dn), todo. split_and!; [by rewrite Es, reverse_cons, <- !app_assoc|auto|by apply seg_insert|apply seg_insert; [done| |done]; rewrite not_elem_of_app in N1 |- *; naive_solver|apply seg_push; [done|done|done|apply I]|].
  rewrite last_cons. by apply seg_insert.
Qed.

(** The step of the loop that reverses the last page: the queue is one forward list up to
    the page that was on top when the reader began. *)
Lemma reverse_last id front join stk free st prev n above dn : kc_inv id front join stk free st → kc_reader st = QLink prev join n →
  stk = above ++ reverse dn → front ≠ [] ∨ dn ≠ [] → n = KCTRL_NULL →
  chain (ctrl_next (kc_ctrl st)) (ch_head (ctrl_head (kc_ctrl st))) (front ++ [join]) →
  chain (ctrl_next (kc_ctrl st)) prev dn → seg (ctrl_next (kc_ctrl st)) (ch_stack (ctrl_head (kc_ctrl st))) above (List.last dn join) →
  ∃ init, join :: dn = init ++ [List.last dn join] ∧
    reader_ok (with_next (kc_ctrl st) (<[Z.to_nat join := prev]> (ctrl_next (kc_ctrl st)))) (QLoop join n) (front ++ init) (List.last dn join) above.
Proof.
  intros I E Es P -> Sf Sp Sa. pose proof (inv_nodup _ _ _ _ _ _ I) as ND. destruct (queue_page _ _ _ _ _ _ join I) as [Hj _]; [set_solver|].
  rewrite (app_assoc [join]), (app_assoc front) in ND. apply nodup_parts in ND as (ND & _). rewrite Es in ND.
  apply nodup_parts in ND as (_ & ND & D1). apply NoDup_cons in ND as [D2 _]. apply not_elem_of_app in D2 as [Na Nd]. rewrite elem_of_reverse in Nd.
  assert (Nf : join ∉ front) by (intros F; apply (D1 _ F); by left).
  destruct (exists_last (l := join :: dn) ltac:(done)) as (init & x & Ei). assert (List.last dn join = x) as Ex.
  { rewrite <- (last_cons join 0 dn), Ei. apply List.last_last. }
  exists init. rewrite Ex. split; [done|]. cbn [reader_ok]. rewrite Z.eqb_refl. unfold straight. cbn [with_next ctrl_next ctrl_head].
  assert (Sj : chain (<[Z.to_nat join := prev]> (ctrl_next (kc_ctrl st))) join (join :: dn)) by (apply seg_push; [done|done|done|apply I]).
  split_and!.
  - rewrite <- app_assoc, <- Ei. apply seg_app in Sf as (z & Sf & Sz). apply seg_start in Sz as [-> _]. apply seg_app. exists join. split; [by apply seg_insert|done].
  - apply seg_app. exists x. split; [rewrite Ex in Sa; by apply seg_insert|]. rewrite Ei in Sj. apply seg_app in Sj as (z & _ & Sj). pose proof Sj as [-> _]%seg_start. done.
  - destruct P as [P|P]; [by destruct front|]. destruct init; [|by destruct front]. destruct dn; [done|]. cbn in Ei. by injection Ei.
Qed.

Lemma reader_stores id front join stk free st p v pc front' join' stk' : kc_inv id front join stk free st → p ∈ front ++ [join] ++ stk → rpage (kc_reader st) = None → rpage pc = None →
  front' ++ join' :: reverse stk' = front ++ join :: reverse stk →
  let c := with_next (kc_ctrl st) (<[Z.to_nat p := v]> (ctrl_next (kc_ctrl st))) in
  reader_ok c pc front' join' stk' →
  kc_inv id front' join' stk' free (KConc c (kc_page st) (kc_writer st) pc (kc_sent st) (kc_got st)).
Proof.
  intros I Hp Er Ep Eq c O. destruct (queue_page _ _ _ _ _ _ p I Hp) as [Hr N]. destruct I as [L W F A R Wr Fi].
  split; cbn -[reverse]; try done.
  - by rewrite length_insert.
  - apply seg_insert; [done| |done]. set_solver.
  - assert (P : front' ++ [join'] ++ stk' ≡ₚ front ++ [join] ++ stk).
    { transitivity (front' ++ join' :: reverse stk'); [by rewrite reverse_Permutation|]. rewrite Eq. by rewrite reverse_Permutation. }
    rewrite Ep. rewrite Er in A. change (join' :: stk' ++ ?r) with ([join'] ++ stk' ++ r).
    rewrite (app_assoc [join'] stk'), (app_assoc front'), P, <- !app_assoc. done.
  - by apply writer_ok_insert.
  - unfold pending in *. rewrite Ep, Eq. by rewrite Er in Fi.
Qed.

(** The reader moves the head on. *)
Lemma reader_sets id front join stk free st h n : kc_inv id front join stk free st → kc_reader st = QSet h n →
  ∃ front', kc_inv id front' join stk free (KConc (set_ch_head (kc_ctrl st) n) (kc_page st) (kc_writer st) (QFree h) (kc_sent st) (kc_got st)).
Proof.
  intros [L W F A R Wr Fi] E. rewrite E in *. destruct R as (S & Nf & Eh & En). destruct (straight_head _ _ _ _ S Nf) as (h' & rest & n' & -> & Eh' & _ & En' & Sr).
  assert (h' = h) as -> by congruence. assert (n' = n) as -> by congruence. exists rest. split; try done.
  - rewrite <- A. cbn -[reverse]. rewrite app_nil_r, (Permutation_app_comm (opt_list _) [h]). cbn [app].
    rewrite (app_assoc stk free (h :: _)), <- (Permutation_middle (stk ++ free) _ h), (perm_swap h join), <- app_assoc, <- (Permutation_middle rest _ h). done.
  - cbn -[reverse]. by split; [|apply S].
Qed.

(** The reader stores the next of the page it gives back. *)
Lemma reader_ties id front join stk free st h f : kc_inv id front join stk free st → kc_reader st = QTie h f →
  kc_inv id front join stk free (KConc (with_next (kc_ctrl st) (<[Z.to_nat h := f]> (ctrl_next (kc_ctrl st)))) (kc_page st) (kc_writer st) (QPut h f) (kc_sent st) (kc_got st)).
Proof.
  intros I E. destruct (reader_page _ _ _ _ _ _ h I ltac:(by rewrite E)) as (Hr & N1 & N2). destruct I as [L W F A R Wr Fi]. rewrite E in A, R, Fi.
  split; cbn -[reverse]; try done.
  - by rewrite length_insert.
  - apply seg_insert; [done| |done]. set_solver.
  - split; [by apply straight_insert|]. apply aget_insert_eq. rewrite L. unfold in_ring in Hr. lia.
  - by apply writer_ok_insert.
Qed.

(** The reader puts the page on the free list and returns the message at the head. *)
Lemma reader_returns id front join stk free st h : kc_inv id front join stk free st → kc_reader st = QPut h (ch_free (ctrl_head (kc_ctrl st))) →
  ∃ m, kc_page st !! KCTRL_INDEX (ch_head (ctrl_head (kc_ctrl st))) = Some m ∧
    kc_inv id front join stk (h :: free) (KConc (set_ch_free (kc_ctrl st) h) (kc_page st) (kc_writer st) QIdle (kc_sent st) (kc_got st ++ [m])).
Proof.
  intros I E. destruct (reader_page _ _ _ _ _ _ h I ltac:(by rewrite E)) as (Hr & N1 & N2). destruct I as [L W F A R Wr (ms & Fm & Fg)]. rewrite E in A, R, Fm.
  destruct R as [S En]. assert (∃ x l, front ++ join :: reverse stk = x :: l ∧ ch_head (ctrl_head (kc_ctrl st)) = x ∧ in_ring x) as (x & l & Eq & Ex & Hx).
  { destruct S as [S _]. destruct front as [|y front]; destruct S as (-> & Hx & _); eauto 10. }
  unfold pending in Fm. cbn [rpage] in Fm. rewrite Eq in Fm. inversion Fm as [|? m ? ms' Em Fm']; subst. exists m. rewrite index_in_ring by done. split; [done|].
  split; cbn -[reverse]; try done.
  - split; [done|]. split; [done|]. by eexists.
  - rewrite <- A. cbn. rewrite app_nil_r. change (writer_at (KConc _ _ _ _ _ _) id) with (writer_at st id). do 2 f_equiv.
    rewrite (Permutation_app_comm _ [h]). cbn. rewrite <- !Permutation_middle. done.
  - by apply writer_ok_more.
  - exists ms'. unfold pending. cbn [rpage]. rewrite Eq, <- app_assoc. by rewrite <- Fg.
Qed.

Lemma kr_inv id front join stk free st : kc_inv id front join stk free st →
  ∃ st' front' join' stk' free', kr_step st = Ok st' ∧ kc_inv id front' join' stk' free' st'.
Proof.
  intros I. pose proof (kv_reader _ _ _ _ _ _ I) as R. pose proof (kv_len _ _ _ _ _ _ I) as L. unfold kr_step.
  destruct (kc_reader st) as [| |s| |prev s|prev s n| |h|h n|h|h f|h f] eqn:E; cbn [reader_ok] in R.
  - destruct (seg_get _ _ _ _ (ch_head (ctrl_head (kc_ctrl st))) (proj1 R)) as (Hr & n & En); [destruct front as [|x front]; destruct R as [[-> _] _]; by left|].
    rewrite (get_next_ok _ _ n Hr En), bind_Ok. eexists _, front, join, stk, free. split; [done|]. apply reader_moves; [done|by rewrite E; case_match|].
    case_match; [|done]. split; [done|]. left. intros ->. destruct R as [(Ej & _ & n' & En' & Z) _]. cbn in Z. subst n'. rewrite Ej in En. rewrite En in En'. by simplify_eq.
  - eexists _, front, join, stk, free. split; [done|]. apply reader_moves; [done|by rewrite E|]. split; [done|]. by apply (straight_top _ _ _ _ R).
  - destruct R as [S Hs]. destruct (seg_get _ _ _ _ s (proj2 S) Hs) as (Hr & n & En). rewrite (get_next_ok _ _ n Hr En), bind_Ok.
    eexists _, front, join, stk, free. split; [done|]. apply reader_moves; [done|by rewrite E; case_match|]. case_match; [|done]. split; [done|]. right. intros ->.
    apply list_elem_of_singleton in Hs as ->. destruct (straight_join _ _ _ _ S) as [Ej _]. rewrite Ej in En. by simplify_eq.
  - destruct R as [S P]. destruct (straight_top _ _ _ _ S) as [_ Hr]. eexists _, front, join, stk, free. split; [done|]. apply reader_moves; [done|by rewrite E|].
    cbn. destruct (Z.eqb_spec (ch_stack (ctrl_head (kc_ctrl st))) KCTRL_NULL) as [Z|_]; [rewrite Z in Hr; unfold in_ring, KCTRL_NULL in Hr; lia|].
    exists [], [], stk. split_and!; [done|destruct P; auto|apply S|apply S|done|done].
  - destruct (Z.eqb_spec s KCTRL_NULL) as [->|Ns].
    { eexists _, front, join, stk, free. split; [done|]. apply reader_moves; [done|by rewrite E|done]. }
    destruct R as (above & dn & todo & R). destruct (seg_get _ _ _ _ s (proj1 (proj2 (proj2 (proj2 R))))) as (Hr & n & En).
    { destruct R as (_ & _ & _ & S & _). destruct todo; destruct S as (-> & _); by left. }
    rewrite (get_next_ok _ _ n Hr En), bind_Ok. eexists _, front, join, stk, free. split; [done|]. apply reader_moves; [done|by rewrite E|]. split; [|done]. by exists above, dn, todo.
  - destruct R as [(above & dn & todo & Es & P & Sf & St & Sp & Sa) En]. destruct todo as [|x todo]; destruct St as (-> & Hr & n' & En' & St); assert (n' = n) as -> by congruence; rewrite set_next_ok, bind_Ok by done.
    + rewrite app_nil_r in Es. destruct (reverse_last _ _ _ _ _ _ prev n above dn I E Es) as (init & Ei & O); [naive_solver|done..|].
      eexists _, (front ++ init), (List.last dn join), above, free. split; [done|]. apply (reader_stores id front join stk free st); [done|set_solver|by rewrite E|done| |done].
      rewrite Es, reverse_app, reverse_involutive, <- app_assoc. f_equal. change (init ++ [List.last dn join] ++ reverse above = (join :: dn) ++ reverse above). by rewrite Ei, <- app_assoc.
    + eexists _, front, join, stk, free. split; [done|]. apply (reader_stores id front join stk free st); [done|rewrite Es; set_solver|by rewrite E|done|done|].
      by eapply reverse_more.
  - destruct R as [S Nf]. eexists _, front, join, stk, free. split; [done|]. apply reader_moves; [done|by rewrite E|done].
  - destruct R as (S & Nf & ->). destruct (straight_head _ _ _ _ S Nf) as (x & rest & n & -> & Eh & Hr & En & _). rewrite Eh, (get_next_ok _ _ n Hr En), bind_Ok.
    eexists _, (x :: rest), join, stk, free. split; [done|]. apply reader_moves; [done|by rewrite E|]. cbn. split_and!; done.
  - destruct (reader_sets _ _ _ _ _ _ h n I E) as [front' I']. by eexists _, front', join, stk, free.
  - eexists _, front, join, stk, free. split; [done|]. apply reader_moves; [done|by rewrite E|done].
  - destruct (reader_page _ _ _ _ _ _ h I ltac:(by rewrite E)) as (Hr & _). rewrite set_next_ok, bind_Ok by done. eexists _, front, join, stk, free. split; [done|]. by apply reader_ties.
  - unfold cas_free. destruct (Z.eqb_spec (ch_free (ctrl_head (kc_ctrl st))) f) as [Ef|Ne].
    + rewrite Ef, Z.eqb_refl. cbn [negb]. destruct (reader_returns _ _ _ _ _ _ h I) as (m & Em & I'); [by rewrite E, Ef|].
      change (ch_head (ctrl_head (set_ch_free (kc_ctrl st) h))) with (ch_head (ctrl_head (kc_ctrl st))). rewrite Em. cbn. by eexists _, front, join, stk, (h :: free).
    + rewrite (proj2 (Z.eqb_neq _ _)) by done. cbn. eexists _, front, join, stk, free. split; [done|]. apply reader_moves; [done|by rewrite E|]. apply R.
Qed.

(** ** The theorem *)

Definition turn_of (id : Z) (t : Turn) : Prop := match t with Wr i _ => i = id | Rd => True end.

Lemma start_inv id : kc_inv id [] 0 [] (seqZ 1 (KCTRL_NPAGES - 1)) kc_start.
Proof.
  destruct ctrl_rep_fresh as (front & join & stk & [L W Cf Cs Cr All] & Eq). destruct front as [|x front]; [|by destruct front].
  cbn in Eq. injection Eq as -> Er. assert (stk = []) as -> by (destruct stk; [done|]; by rewrite reverse_cons in Er; destruct (reverse stk)).
  split; try done. by exists [].
Qed.

Lemma run_inv id ts st front join stk free : 0 ≤ id < KCTRL_WRITERS → Forall (turn_of id) ts → kc_inv id front join stk free st →
  ∃ st' front' join' stk' free', kc_run st ts = Ok st' ∧ kc_inv id front' join' stk' free' st'.
Proof.
  intros Hid Ts. revert st front join stk free. induction Ts as [|t ts Ht Ts IH]; intros st front join stk free I; cbn; [by eexists _, _, _, _, _|].
  destruct t as [i m|]; cbn [kc_step].
  - cbn in Ht. subst i. destruct (kw_inv id m _ _ _ _ _ Hid I) as (st' & stk' & free' & -> & I'). rewrite bind_Ok. eauto.
  - destruct (kr_inv _ _ _ _ _ _ I) as (st' & front' & join' & stk' & free' & -> & I'). rewrite bind_Ok. eauto.
Qed.

(** With one writer, in every interleaving of its accesses to the shared control with those
    of the reader: nothing outside of the control is touched; the messages the reader was
    given are the first of those that were sent, in order; and the page being filled is
    neither the one the reader has been given nor on its way to it. *)
Theorem one_writer_fifo id ts : 0 ≤ id < KCTRL_WRITERS → Forall (turn_of id) ts →
  ∃ st, kc_run kc_start ts = Ok st ∧ kc_got st `prefix_of` kc_sent st ∧
    ∀ p, wpage (writer_at st id) = Some p → p ≠ ch_head (ctrl_head (kc_ctrl st)) ∧ rpage (kc_reader st) ≠ Some p.
Proof.
  intros Hid Ts. destruct (run_inv id ts kc_start _ _ _ _ Hid Ts (start_inv id)) as (st & front & join & stk & free & E & I).
  exists st. split; [done|]. split.
  - destruct I as [_ _ _ _ _ _ (ms & _ & Fg)]. by exists ms.
  - intros p Ep. destruct (writer_page _ _ _ _ _ _ p I Ep) as (_ & N & _ & Nr). split; [|done]. intros ->. apply N.
    assert (S : ∃ l, chain (ctrl_next (kc_ctrl st)) (ch_head (ctrl_head (kc_ctrl st))) (front ++ [join]) ∧ l = stk).
    { exists stk. split; [|done]. destruct I as [_ _ _ _ R _ _]. destruct (kc_reader st); cbn in R; try case_match; unfold reversing, straight in R; naive_solver. }
    destruct S as (_ & S & _). destruct front as [|x front]; destruct S as (-> & _); set_solver.
Qed.

(** Two messages are sent while the reader takes them. *)
Lemma one_writer_fifo_witness : ∃ st, kc_run kc_start (replicate 10 (Wr 3 70) ++ replicate 6 Rd ++ replicate 10 (Wr 3 71) ++ replicate 20 Rd) = Ok st ∧
  kc_got st = [70] ∧ kc_sent st = [70; 71] ∧ kc_got st `prefix_of` kc_sent st.
Proof.
  destruct (one_writer_fifo 3 (replicate 10 (Wr 3 70) ++ replicate 6 Rd ++ replicate 10 (Wr 3 71) ++ replicate 20 Rd)) as (st & E & P & _); [done|by repeat constructor|].
  exists st. split; [exact E|].
  assert (T : match kc_run kc_start (replicate 10 (Wr 3 70) ++ replicate 6 Rd ++ replicate 10 (Wr 3 71) ++ replicate 20 Rd) with
    | Ok st => bool_decide (kc_got st = [70] ∧ kc_sent st = [70; 71]) | _ => false end = true) by (by vm_compute).
  rewrite E in T. apply bool_decide_eq_true in T as [T1 T2].
  split; [exact T1|]. split; [exact T2|exact P].
Defined.
