(* ===== verification/KSocket.v ===== *)
(** * kring/attribute.c, socket.c, krkern.h: ring sets and the sockets on them

    The module keeps a list of ring sets; a socket is bound to one ring of a set,
    or to all of them, as a writer or a reader, and holds an id that no other
    socket has there.  Also here: the kernel side of kdata.c and kctrl.c that
    opens, waits on and closes rings.  [printk], wait queues and wake-ups have no
    effect on this state; a wait is the condition it waits for. *)

From S2P Require Import Prelude KrDep KData KDataIO KCtrl.

Definition EPERM : Z := 1.
Definition ENOMEM : Z := 12.
Definition EFAULT : Z := 14.
Definition EINVAL : Z := 22.
Definition ENOPROTOOPT : Z := 92.
Definition EPROTONOSUPPORT : Z := 93.
Definition ESOCKTNOSUPPORT : Z := 94.
Definition ERESTARTSYS : Z := 512.
Definition SOCK_RAW : Z := 3.
Definition SOL_PACKET : Z := 263.
(** htons( ETH_P_ALL ), with ETH_P_ALL = 3, on a little-endian machine. *)
Definition htons_ETH_P_ALL : Z := 0x0300.

(** ** krkern.h *)

(** The shared memory of a ring, as the data and the control code see it. *)
Inductive kring_shared :=
  | SharedData (r : kdata_ring)
  | SharedCtrl (r : kctrl_ring).

(** struct kring_ring; [ring_reader] and [ring_writer] are the [allocated] flags,
    [ring_shared] what [ctrl], [_control_] and [pd] point to. *)
Record kring_ring := KringRing {
  ring_num_readers : Z;
  ring_num_writers : Z;
  ring_reader : list bool;
  ring_writer : list bool;
  ring_shared : kring_shared;
}.

(** struct kring_params; [par_type] says whose four functions the pointers are. *)
Record kring_params := KringParams {
  par_npages : Z;
  par_ctrl_sz : Z;
  par_off_head : Z;
  par_off_writer : Z;
  par_off_reader : Z;
  par_off_desc : Z;
  par_data_sz : Z;
  par_readers : Z;
  par_writers : Z;
  par_type : Z;
}.

Definition kdata_params : kring_params :=
  KringParams KDATA_NPAGES KDATA_CTRL_SZ KDATA_CTRL_OFF_HEAD KDATA_CTRL_OFF_WRITER
    KDATA_CTRL_OFF_READER KDATA_CTRL_OFF_DESC KDATA_DATA_SZ KDATA_READERS KDATA_WRITERS KRING_DATA.

Definition kctrl_params : kring_params :=
  KringParams KCTRL_NPAGES KCTRL_CTRL_SZ KCTRL_CTRL_OFF_HEAD KCTRL_CTRL_OFF_WRITER
    KCTRL_CTRL_OFF_READER KCTRL_CTRL_OFF_DESC KCTRL_DATA_SZ KCTRL_READERS KCTRL_WRITERS KRING_CTRL.

Record kring_ringset := KringRingset {
  rs_name : list Z;
  rs_ring : list kring_ring;
  rs_nrings : Z;
  rs_params : kring_params;
}.

(** The list from [head] along [next]; a pointer to a set is its position. *)
Abbreviation ringsets := (list kring_ringset).

(** struct kring_sock, all zero when the socket is made: [ks_ringset] is null. *)
Record kring_sock := KringSock {
  ks_ringset : option Z;
  ks_ring_id : Z;
  ks_mode : Z;
  ks_writer_id : Z;
  ks_reader_id : Z;
}.

Definition new_sock : kring_sock := KringSock None 0 0 0 0.

Record kring_addr := KringAddr {
  addr_name : list Z;
  addr_ring_id : Z;
  addr_mode : Z;
}.

Definition set_readers_of (r : kring_ring) (n : Z) (l : list bool) : kring_ring :=
  KringRing n (ring_num_writers r) l (ring_writer r) (ring_shared r).
Definition set_writers_of (r : kring_ring) (n : Z) (l : list bool) : kring_ring :=
  KringRing (ring_num_readers r) n (ring_reader r) l (ring_shared r).
Definition set_shared (r : kring_ring) (s : kring_shared) : kring_ring :=
  KringRing (ring_num_readers r) (ring_num_writers r) (ring_reader r) (ring_writer r) s.
Definition set_rings (s : kring_ringset) (l : list kring_ring) : kring_ringset :=
  KringRingset (rs_name s) l (rs_nrings s) (rs_params s).

(** ** attribute.c *)

Definition kring_copy_name (src : list Z) : list Z :=
  <[Z.to_nat (KRING_NLEN - 1) := 0]> (strncpy src (Z.to_nat KRING_NLEN)).

(** [strcmp( r->name, name ) == 0], from position [k] on. *)
Fixpoint find_ring_from (k : Z) (sets : ringsets) (name : list Z) : option Z :=
  match sets with
  | [] => None
  | r :: sets => if streq (rs_name r) name then Some k else find_ring_from (k + 1) sets name
  end.

Definition kring_find_ring (sets : ringsets) (name : list Z) : option Z :=
  find_ring_from 0 sets name.

(** [params->init_control] on zeroed memory, with the zeroed pages. *)
Definition init_shared (p : kring_params) : res kring_shared :=
  let pages := replicate (Z.to_nat (par_npages p)) zero_page in
  if par_type p =? KRING_DATA then
    Ok (SharedData (KdataRing (kdata_init_control zero_control) pages))
  else
    c ← kctrl_init_control zero_ctrl;
    Ok (SharedCtrl (KctrlRing c pages)).

Definition kring_ring_alloc (p : kring_params) : res kring_ring :=
  s ← init_shared p;
  Ok (KringRing 0 0 (replicate (Z.to_nat KDATA_READERS) false)
        (replicate (Z.to_nat KDATA_WRITERS) false) s).

(** [for ( i = 0; i < nrings; i++ ) kring_ring_alloc( params, &r->ring[i] )] *)
Fixpoint ring_alloc_n (n : nat) (p : kring_params) : res (list kring_ring) :=
  match n with
  | O => Ok []
  | S n =>
      r ← kring_ring_alloc p;
      rs ← ring_alloc_n n p;
      Ok (r :: rs)
  end.

(** [r->nrings = nrings] keeps an int of a long. *)
Definition kring_ringset_alloc (p : kring_params) (name : list Z) (nrings : Z)
    : res kring_ringset :=
  rings ← ring_alloc_n (Z.to_nat nrings) p;
  Ok (KringRingset (kring_copy_name name) rings (i32 nrings) p).

Definition kring_add_ringset (sets : ringsets) (set : kring_ringset) : ringsets := sets ++ [set].

Definition kring_add_data_store (sets : ringsets) (name : list Z) (rings_per_set : Z)
    : res (Z * ringsets) :=
  if (rings_per_set <? 1) || (KDATA_MAX_RINGS_PER_SET <? rings_per_set) then Ok (- EINVAL, sets)
  else
    r ← kring_ringset_alloc kdata_params name rings_per_set;
    Ok (0, kring_add_ringset sets r).

Definition kring_add_cmd_store (sets : ringsets) (name : list Z) : res (Z * ringsets) :=
  r ← kring_ringset_alloc kctrl_params name 1;
  Ok (0, kring_add_ringset sets r).

(** ** socket.c *)

Definition kdata_sock_create (capable : bool) (type protocol : Z) (alloc : bool)
    : Z * option kring_sock :=
  if negb capable then (- EPERM, None)
  else if negb (type =? SOCK_RAW) then (- ESOCKTNOSUPPORT, None)
  else if negb (protocol =? htons_ETH_P_ALL) then (- EPROTONOSUPPORT, None)
  else if negb alloc then (- ENOMEM, None)
  else (0, Some new_sock).

(** The set a socket is bound to; a null [ringset] is dereferenced. *)
Definition sock_ringset (sets : ringsets) (krs : kring_sock) : res (Z * kring_ringset) :=
  i ← deref (ks_ringset krs);
  s ← aget sets i;
  Ok (i, s).

(** [len] is what [get_user] read; [ok] are the results of [get_user], [put_user]
    and [copy_to_user].  The value copied out is [None] when no case of the
    switch has set [val]. *)
Definition kring_getsockopt (sets : ringsets) (krs : kring_sock) (level optname len : Z)
    (get_ok put_ok copy_ok : bool) : res (Z * option Z) :=
  if negb (level =? SOL_PACKET) then Ok (- ENOPROTOOPT, None)
  else if negb get_ok then Ok (- EFAULT, None)
  else if negb (len =? 4) then Ok (- EINVAL, None)
  else
    val ← (if optname =? KR_OPT_RING_N then
             '(_, s) ← sock_ringset sets krs; Ok (Some (rs_nrings s))
           else if optname =? KR_OPT_READER_ID then Ok (Some (ks_reader_id krs))
           else if optname =? KR_OPT_WRITER_ID then Ok (Some (ks_writer_id krs))
           else Ok None);
    if negb put_ok then Ok (- EFAULT, None)
    else if negb copy_ok then Ok (- EFAULT, None)
    else Ok (0, val).

Definition decon_pgoff (pgoff : Z) : Z * Z :=
  (Z.shiftr (Z.land pgoff KRING_PGOFF_ID_MASK) KRING_PGOFF_ID_SHIFT,
   Z.shiftr (Z.land pgoff KRING_PGOFF_REGION_MASK) KRING_PGOFF_REGION_SHIFT).

(** What the user's address range is made to show. *)
Inductive mapping :=
  | MapControl (ring : Z)
  | MapData (ring npages : Z).

Definition kring_sock_mmap (sets : ringsets) (krs : kring_sock) (vm_pgoff : Z)
    : res (Z * option mapping) :=
  match ks_ringset krs with
  | None => Ok (- EINVAL, None)
  | Some i =>
      r ← aget sets i;
      let '(ring_id, region) := decon_pgoff vm_pgoff in
      if rs_nrings r <? ring_id then Ok (- EINVAL, None)
      else if region =? KRING_PGOFF_CTRL then
        _ ← aget (rs_ring r) ring_id;
        Ok (0, Some (MapControl ring_id))
      else if region =? KRING_PGOFF_DATA then
        _ ← aget (rs_ring r) ring_id;
        Ok (0, Some (MapData ring_id (par_npages (rs_params r))))
      else Ok (0, None)
  end.

(** A character of a ring name, as a signed char. *)
Definition ring_char (c : Z) : bool :=
  let c := i8 c in
  ((65 <=? c) && (c <=? 90)) || ((97 <=? c) && (c <=? 122)) ||
  ((48 <=? c) && (c <=? 57)) || (c =? 95) || (c =? 45) || (c =? 46).

(** [n] characters are left before [pe]. *)
Fixpoint validate_from (n : nat) (p : list Z) : res Z :=
  match n with
  | O => Ok (-1)
  | S n =>
      match p with
      | [] => Ub
      | c :: p => if c =? 0 then Ok 0 else if negb (ring_char c) then Ok (-1) else validate_from n p
      end
  end.

Definition validate_ring_name (name : list Z) : res Z :=
  validate_from (Z.to_nat KCTRL_NLEN) name.

(** The first of the ids [id], [id]+1, ... below [id + n] that is not allocated. *)
Fixpoint search_id (n : nat) (id : Z) (alloc : list bool) : res Z :=
  match n with
  | O => Ok id
  | S n =>
      a ← aget alloc id;
      if (a : bool) then search_id n (id + 1) alloc else Ok id
  end.

(** The compare-and-swap finds the flag it has just read, so [again] is taken
    only when another thread got in between. *)
Definition kring_allocate_writer_on_ring (set : kring_ringset) (ring : kring_ring)
    : res (Z * kring_ring) :=
  let writers := par_writers (rs_params set) in
  writer_id ← search_id (Z.to_nat writers) 0 (ring_writer ring);
  if writer_id =? writers then Ok (- EINVAL, ring)
  else
    l ← aset (ring_writer ring) writer_id true;
    Ok (writer_id, set_writers_of ring (i32 (ring_num_writers ring + 1)) l).

Definition kring_allocate_reader_on_ring (set : kring_ringset) (ring : kring_ring)
    : res (Z * kring_ring) :=
  let readers := par_readers (rs_params set) in
  reader_id ← search_id (Z.to_nat readers) 0 (ring_reader ring);
  if reader_id =? readers then Ok (- EINVAL, ring)
  else
    l ← aset (ring_reader ring) reader_id true;
    Ok (reader_id, set_readers_of ring (i32 (ring_num_readers ring + 1)) l).

(** Is reader id [id] free on the rings [k], [k]+1, ...? *)
Fixpoint free_on_all (rings : list kring_ring) (id : Z) : res bool :=
  match rings with
  | [] => Ok true
  | r :: rings =>
      a ← aget (ring_reader r) id;
      if (a : bool) then Ok false else free_on_all rings id
  end.

(** The first of the ids [id], [id]+1, ... below [id + n] free on all rings. *)
Fixpoint search_all (n : nat) (id : Z) (rings : list kring_ring) : res (option Z) :=
  match n with
  | O => Ok None
  | S n =>
      b ← free_on_all rings id;
      if (b : bool) then Ok (Some id) else search_all n (id + 1) rings
  end.

Fixpoint allocate_on_all (rings : list kring_ring) (id : Z) : res (list kring_ring) :=
  match rings with
  | [] => Ok []
  | r :: rings =>
      l ← aset (ring_reader r) id true;
      rings ← allocate_on_all rings id;
      Ok (set_readers_of r (i32 (ring_num_readers r + 1)) l :: rings)
  end.

(** The loops run over the first [nrings] elements of [ring]. *)
Definition kring_allocate_reader_all_rings (set : kring_ringset) : res (Z * kring_ringset) :=
  let rings := take (Z.to_nat (rs_nrings set)) (rs_ring set) in
  let rest := drop (Z.to_nat (rs_nrings set)) (rs_ring set) in
  o ← search_all (Z.to_nat (par_readers (rs_params set))) 0 rings;
  match o with
  | None => Ok (- EINVAL, set)
  | Some id =>
      rings ← allocate_on_all rings id;
      Ok (id, set_rings set (rings ++ rest))
  end.

(** Operations on ring [ring_id] of a set. *)
Definition on_ring (set : kring_ringset) (ring_id : Z)
    (f : kring_ringset → kring_ring → res (Z * kring_ring)) : res (Z * kring_ringset) :=
  ring ← aget (rs_ring set) ring_id;
  '(ret, ring) ← f set ring;
  rings ← aset (rs_ring set) ring_id ring;
  Ok (ret, set_rings set rings).

Definition kring_bind (sets : ringsets) (krs : kring_sock) (addr : kring_addr) (addr_len : Z)
    : res (Z * kring_sock * ringsets) :=
  if negb (addr_len =? KCTRL_NLEN + 8) then Ok (- EINVAL, krs, sets)
  else
  v ← validate_ring_name (addr_name addr);
  if v <? 0 then Ok (- EINVAL, krs, sets)
  else if negb (addr_mode addr =? KRING_READ) && negb (addr_mode addr =? KRING_WRITE)
  then Ok (- EINVAL, krs, sets)
  else
  match kring_find_ring sets (addr_name addr) with
  | None => Ok (- EINVAL, krs, sets)
  | Some i =>
      set ← aget sets i;
      if negb (addr_ring_id addr =? KRING_RING_ID_ALL) &&
         ((addr_ring_id addr <? 0) || (rs_nrings set <=? addr_ring_id addr))
      then Ok (- EINVAL, krs, sets)
      else if (addr_mode addr =? KRING_WRITE) && (addr_ring_id addr =? KRING_RING_ID_ALL)
      then Ok (- EINVAL, krs, sets)
      else if addr_mode addr =? KRING_WRITE then
        '(writer_id, set) ← on_ring set (addr_ring_id addr) kring_allocate_writer_on_ring;
        sets ← aset sets i set;
        if writer_id <? 0 then Ok (writer_id, krs, sets)
        else Ok (0, KringSock (Some i) (addr_ring_id addr) (addr_mode addr) writer_id (-1), sets)
      else
        '(reader_id, set) ←
          (if negb (addr_ring_id addr =? KCTRL_RING_ID_ALL)
           then on_ring set (addr_ring_id addr) kring_allocate_reader_on_ring
           else kring_allocate_reader_all_rings set);
        sets ← aset sets i set;
        if reader_id <? 0 then Ok (reader_id, krs, sets)
        else Ok (0, KringSock (Some i) (addr_ring_id addr) (addr_mode addr) (-1) reader_id, sets)
  end.

(** ** Waiting, waking and destruction: kdata.c, kctrl.c and their callers *)

Definition data_of (r : kring_ring) : res kdata_ring :=
  match ring_shared r with SharedData d => Ok d | SharedCtrl _ => Ub end.
Definition ctrl_of (r : kring_ring) : res kctrl_ring :=
  match ring_shared r with SharedCtrl d => Ok d | SharedData _ => Ub end.

Fixpoint kern_avail_any (rings : list kring_ring) (reader_id : Z) : res bool :=
  match rings with
  | [] => Ok false
  | r :: rings =>
      d ← data_of r;
      a ← kdata_avail_impl (kr_control d) reader_id;
      if (a : bool) then Ok true else kern_avail_any rings reader_id
  end.

Definition kdata_kern_avail (r : kring_ringset) (krs : kring_sock) : res bool :=
  if negb (ks_ring_id krs =? KDATA_RING_ID_ALL) then
    ring ← aget (rs_ring r) (ks_ring_id krs);
    d ← data_of ring;
    kdata_avail_impl (kr_control d) (ks_reader_id krs)
  else kern_avail_any (take (Z.to_nat (rs_nrings r)) (rs_ring r)) (ks_reader_id krs).

(** wait_event_interruptible( wq, condition ): returns 0 once the condition holds,
    -ERESTARTSYS when a signal comes first; [Spin] is a wait that goes on. *)
Definition wait_event (cond : bool) (signal : bool) : res Z :=
  if cond then Ok 0 else if signal then Ok (- ERESTARTSYS) else Spin.

Definition kdata_wait (r : kring_ringset) (krs : kring_sock) (signal : bool) : res Z :=
  a ← kdata_kern_avail r krs;
  wait_event a signal.

Definition kctrl_wait (r : kring_ringset) (krs : kring_sock) (signal : bool) : res Z :=
  ring ← aget (rs_ring r) (ks_ring_id krs);
  d ← ctrl_of ring;
  wait_event (negb (ch_free (ctrl_head (cr_control d)) =? KCTRL_NULL)) signal.

Definition kring_recvmsg (sets : ringsets) (krs : kring_sock) (signal : bool) : res Z :=
  '(_, r) ← sock_ringset sets krs;
  ret ← (if par_type (rs_params r) =? KRING_DATA then kdata_wait r krs signal
         else kctrl_wait r krs signal);
  if ret =? - ERESTARTSYS then Ok (- EINTR) else Ok 0.

Definition kring_sendmsg (sets : ringsets) (krs : kring_sock) : res Z :=
  '(_, _) ← sock_ringset sets krs;
  Ok 0.

(** One ring of the [KRING_READ] case of [kdata_destruct]. *)
Definition kdata_release_reader (r : kring_ring) (reader_id : Z) : res kring_ring :=
  l ← aset (ring_reader r) reader_id false;
  d ← data_of r;
  rd ← aget (reader (kr_control d)) reader_id;
  c ← (if ctrue (reader_entered rd)
       then kdata_reader_release 1 reader_id (kr_control d) (reader_rhead rd)
       else Ok (kr_control d));
  Ok (set_shared (set_readers_of r (ring_num_readers r) l) (SharedData (KdataRing c (kr_page d)))).

Fixpoint map_res {A B} (f : A → res B) (l : list A) : res (list B) :=
  match l with
  | [] => Ok []
  | x :: l =>
      y ← f x;
      ys ← map_res f l;
      Ok (y :: ys)
  end.

(** [switch]: writers first, readers of one ring, readers of all. *)
Definition destruct_writer (r : kring_ringset) (krs : kring_sock) : res kring_ringset :=
  ring ← aget (rs_ring r) (ks_ring_id krs);
  l ← aset (ring_writer ring) (ks_writer_id krs) false;
  rings ← aset (rs_ring r) (ks_ring_id krs)
            (set_writers_of ring (i32 (ring_num_writers ring - 1)) l);
  Ok (set_rings r rings).

Definition kdata_destruct (r : kring_ringset) (krs : kring_sock) : res kring_ringset :=
  if ks_mode krs =? KRING_WRITE then destruct_writer r krs
  else if ks_mode krs =? KRING_READ then
    if negb (ks_ring_id krs =? KDATA_RING_ID_ALL) then
      ring ← aget (rs_ring r) (ks_ring_id krs);
      ring ← kdata_release_reader ring (ks_reader_id krs);
      rings ← aset (rs_ring r) (ks_ring_id krs) ring;
      Ok (set_rings r rings)
    else
      rings ← map_res (λ ring, kdata_release_reader ring (ks_reader_id krs))
                (take (Z.to_nat (rs_nrings r)) (rs_ring r));
      Ok (set_rings r (rings ++ drop (Z.to_nat (rs_nrings r)) (rs_ring r)))
  else Ok r.

(** [ring[krs->ring_id].num_readers] is decremented before the test for all
    rings. *)
Definition kctrl_destruct (r : kring_ringset) (krs : kring_sock) : res kring_ringset :=
  if ks_mode krs =? KRING_WRITE then destruct_writer r krs
  else if ks_mode krs =? KRING_READ then
    ring ← aget (rs_ring r) (ks_ring_id krs);
    rings ← aset (rs_ring r) (ks_ring_id krs)
              (set_readers_of ring (i32 (ring_num_readers ring - 1)) (ring_reader ring));
    let clear ring :=
      l ← aset (ring_reader ring) (ks_reader_id krs) false;
      Ok (set_readers_of ring (ring_num_readers ring) l) in
    if negb (ks_ring_id krs =? KCTRL_RING_ID_ALL) then
      ring ← aget rings (ks_ring_id krs);
      ring ← clear ring;
      rings ← aset rings (ks_ring_id krs) ring;
      Ok (set_rings r rings)
    else
      rs ← map_res clear (take (Z.to_nat (rs_nrings r)) rings);
      Ok (set_rings r (rs ++ drop (Z.to_nat (rs_nrings r)) rings))
  else Ok r.

Definition kring_sock_destruct (sets : ringsets) (krs : kring_sock) : res ringsets :=
  '(i, r) ← sock_ringset sets krs;
  r ← (if par_type (rs_params r) =? KRING_DATA then kdata_destruct r krs else kctrl_destruct r krs);
  aset sets i r.

(** ** Kernel handles: kdata.c *)

(** A handle that nothing has been stored in. *)
Definition zero_user : kring_user := KringUser 0 0 0 0 0 0 [] [] None 0 0.

(** The second component is what was stored in [*kring], if anything: a handle
    whose id could not be allocated has its ring set but no user part. *)
Definition kring_kopen (sets : ringsets) (type : Z) (rsname : list Z) (ring_id mode : Z)
    : res (Z * option kring_kern * ringsets) :=
  if (type =? KRING_DATA) && negb (mode =? KRING_WRITE) then Ok (-1, None, sets)
  else if (type =? KRING_CTRL) && negb (mode =? KRING_READ) then Ok (-1, None, sets)
  else if ring_id =? KRING_RING_ID_ALL then Ok (-1, None, sets)
  else if (type =? KRING_CTRL) && negb (ring_id =? 0) then Ok (-1, None, sets)
  else
  match kring_find_ring sets rsname with
  | None => Ok (-1, None, sets)
  | Some i =>
      set ← aget sets i;
      if (ring_id <? 0) || (rs_nrings set <=? ring_id) then Ok (-1, None, sets)
      else
        '(ids, set) ←
          (if (type =? KRING_DATA) && (mode =? KRING_WRITE) then
             '(w, set) ← on_ring set ring_id kring_allocate_writer_on_ring;
             Ok ((w, w, -1), set)
           else if (type =? KRING_CTRL) && (mode =? KRING_READ) then
             '(r, set) ← on_ring set ring_id kring_allocate_reader_on_ring;
             Ok ((r, -1, r), set)
           else Ok ((0, -1, -1), set));
        sets ← aset sets i set;
        let '(ret, writer_id, reader_id) := ids in
        if ret <? 0
        then Ok (ret, Some (KringKern (kring_copy_name rsname) i ring_id 0 zero_user), sets)
        else
          let u := KringUser (-1) ring_id (rs_nrings set) writer_id reader_id mode
                     [ring_id] [] (Some ring_id) 0 0 in
          Ok (0, Some (KringKern (kring_copy_name rsname) i ring_id 0 u), sets)
  end.

Definition kring_kclose (sets : ringsets) (kring : kring_kern) : res (Z * ringsets) :=
  set ← aget sets (kk_ringset kring);
  ring ← aget (rs_ring set) (kk_ring_id kring);
  rings ← aset (rs_ring set) (kk_ring_id kring)
            (set_writers_of ring (i32 (ring_num_writers ring - 1)) (ring_writer ring));
  sets ← aset sets (kk_ringset kring) (set_rings set rings);
  Ok (0, sets).
