(* ===== verification/LibKring.v ===== *)
(** * kring/libdata.c, libctrl.c, libkring.c: opening a ring from user space

    [kring_open] makes a socket, binds it, asks for the ids it was given and maps
    the rings.  The system calls it makes end in socket.c, so they are the calls
    of [KSocket] here: a negative result comes back as -1 and its opposite in
    errno, an offset given to [mmap] arrives divided by the page size, and closing
    the only descriptor of a socket runs [kring_sock_destruct].  A pointer of
    [u->control] or [u->data] that has not been set is ring -1. *)

From Stdlib Require Ascii String.
From S2P Require Import Prelude KrDep KData KDataIO KCtrl KSocket.
Import String.StringSyntax.
Local Open Scope string_scope.
Local Open Scope list_scope.
Local Open Scope Z_scope.

Definition KRING_ERR_SOCK : Z := -1.
Definition KRING_ERR_MMAP : Z := -2.
Definition KRING_ERR_BIND : Z := -3.
Definition KRING_ERR_READER_ID : Z := -4.
Definition KRING_ERR_WRITER_ID : Z := -5.
Definition KRING_ERR_RING_N : Z := -6.
Definition KRING_ERR_ENTER : Z := -7.

(** ** Error strings *)

(** The characters of a string literal. *)
Fixpoint chars (s : String.string) : list Z :=
  match s with
  | String.EmptyString => []
  | String.String c s => Z.of_N (Ascii.N_of_ascii c) :: chars s
  end.

Definition error_prefix (err : Z) : list Z :=
  if err =? KRING_ERR_SOCK then chars "socket call failed"
  else if err =? KRING_ERR_MMAP then chars "mmap call failed"
  else if err =? KRING_ERR_BIND then chars "bind call failed"
  else if err =? KRING_ERR_READER_ID then chars "getsockopt(reader_id) call failed"
  else if err =? KRING_ERR_WRITER_ID then chars "getsockopt(writer_id) call failed"
  else if err =? KRING_ERR_RING_N then chars "getsockopt(ring_n) call failed"
  else if err =? KRING_ERR_ENTER then chars "exception in ring entry"
  else chars "<unknown>".

(** A local pointer: not yet assigned, null, or a string. *)
Inductive local_str := Uninit | Null | Str (s : list Z).

(** kdata_error and kctrl_error: the size given to [malloc] and the string built
    in it; [strerror] is the library's.  Testing an unassigned pointer is
    undefined, and so is writing more than was allocated. *)
Definition kring_error (strerror : Z → local_str) (u : kring_user) (err : Z) : res (Z * list Z) :=
  let prefix := error_prefix err in
  let len := Z.of_nat (length prefix) in
  let '(errnostr, len) :=
    if negb (u_errno u =? 0) then
      match strerror (u_errno u) with
      | Str s => (Str s, len + (2 + Z.of_nat (length s)))
      | p => (p, len)
      end
    else (Uninit, len) in
  let len := len + 1 in
  match errnostr with
  | Uninit => Ub
  | Null => Ok (len, prefix ++ [0])
  | Str s =>
      let str := prefix ++ chars ": " ++ s ++ [0] in
      if decide (Z.of_nat (length str) ≤ len) then Ok (len, str) else Ub
  end.

(** ** Mapping *)

Definition cons_pgoff (ring_id region : Z) : Z :=
  u64 (Z.lor (Z.land (u64 (Z.shiftl (u64 ring_id) KRING_PGOFF_ID_SHIFT)) KRING_PGOFF_ID_MASK)
             (Z.land (u64 (Z.shiftl (u64 region) KRING_PGOFF_REGION_SHIFT)) KRING_PGOFF_REGION_MASK)
       * KRING_PAGE_SIZE).

(** mmap( 0, size, ..., u->socket, offset ): what is mapped, or the errno. *)
Definition sys_mmap (sets : ringsets) (krs : kring_sock) (offset : Z) : res (option mapping * Z) :=
  '(ret, map) ← kring_sock_mmap sets krs (Z.div offset KRING_PAGE_SIZE);
  if ret <? 0 then Ok (None, - ret) else Ok (map, 0).

(** Assigning the pointers of element [ctrl] of the two arrays. *)
Definition set_control (u : kring_user) (ctrl ring : Z) : res kring_user :=
  l ← aset (u_control u) ctrl ring;
  Ok (KringUser (u_socket u) (u_ring_id u) (u_nrings u) (u_writer_id u) (u_reader_id u)
        (u_mode u) l (u_data u) (u_pd u) (u_krerr u) (u_errno u)).
Definition set_data (u : kring_user) (ctrl ring : Z) : res kring_user :=
  l ← aset (u_data u) ctrl ring;
  Ok (KringUser (u_socket u) (u_ring_id u) (u_nrings u) (u_writer_id u) (u_reader_id u)
        (u_mode u) (u_control u) l (u_pd u) (u_krerr u) (u_errno u)).

(** The ring a mapping shows. *)
Definition mapped_ring (m : mapping) : Z :=
  match m with MapControl r => r | MapData r _ => r end.

(** [kdata_prep_enter] on ring [ring] of the set the socket is bound to. *)
Definition enter_ring (sets : ringsets) (krs : kring_sock) (ring reader_id : Z)
    : res (Z * ringsets) :=
  '(i, set) ← sock_ringset sets krs;
  r ← aget (rs_ring set) ring;
  d ← data_of r;
  '(ret, c) ← kdata_prep_enter (kr_control d) reader_id;
  rings ← aset (rs_ring set) ring (set_shared r (SharedData (KdataRing c (kr_page d))));
  sets ← aset sets i (set_rings set rings);
  Ok (ret, sets).

Definition kdata_map_enter (sets : ringsets) (krs : kring_sock) (u : kring_user) (ring_id ctrl : Z)
    : res (Z * kring_user * ringsets) :=
  '(r, errno) ← sys_mmap sets krs (cons_pgoff ring_id KRING_PGOFF_CTRL);
  match r with
  | None => Ok (-1, func_error u KRING_ERR_MMAP errno, sets)
  | Some r =>
      u ← set_control u ctrl (mapped_ring r);
      '(r, errno) ← sys_mmap sets krs (cons_pgoff ring_id KRING_PGOFF_DATA);
      match r with
      | None => Ok (-1, func_error u KRING_ERR_MMAP errno, sets)
      | Some r =>
          u ← set_data u ctrl (mapped_ring r);
          if u_mode u =? KRING_READ then
            ring ← aget (u_control u) ctrl;
            '(res, sets) ← enter_ring sets krs ring (u_reader_id u);
            if res <? 0 then Ok (-1, func_error u KRING_ERR_ENTER 0, sets) else Ok (0, u, sets)
          else Ok (0, u, sets)
      end
  end.

(** Control rings: [u->control] is always its first element. *)
Definition kctrl_map_enter (sets : ringsets) (krs : kring_sock) (u : kring_user) (ring_id ctrl : Z)
    : res (Z * kring_user * ringsets) :=
  '(r, errno) ← sys_mmap sets krs (cons_pgoff ring_id KRING_PGOFF_CTRL);
  match r with
  | None => Ok (-1, func_error u KRING_ERR_MMAP errno, sets)
  | Some r =>
      u ← set_control u 0 (mapped_ring r);
      '(r, errno) ← sys_mmap sets krs (cons_pgoff ring_id KRING_PGOFF_DATA);
      match r with
      | None => Ok (-1, func_error u KRING_ERR_MMAP errno, sets)
      | Some r =>
          u ← set_data u ctrl (mapped_ring r);
          Ok (0, u, sets)
      end
  end.

(** ** kring_open *)

(** The rings [ctrl], [ctrl]+1, ... are mapped, [n] of them, until one fails. *)
Fixpoint map_all (n : nat) (sets : ringsets) (krs : kring_sock) (u : kring_user) (ctrl : Z)
    : res (Z * kring_user * ringsets) :=
  match n with
  | O => Ok (0, u, sets)
  | S n =>
      '(res, u, sets) ← kdata_map_enter sets krs u ctrl ctrl;
      if res <? 0 then Ok (res, u, sets) else map_all n sets krs u (ctrl + 1)
  end.

(** The handle while [kring_open] fills it: after [memset], [socket], the ids and
    the two arrays. *)
Definition open_user (fd ring_id nrings writer_id reader_id mode to_alloc : Z) : kring_user :=
  KringUser fd ring_id nrings writer_id reader_id mode
    (replicate (Z.to_nat to_alloc) (-1)) (replicate (Z.to_nat to_alloc) (-1)) None 0 0.

(** getsockopt( u->socket, SOL_PACKET, optname, &val, &len ) with an int. *)
Definition sys_getsockopt (sets : ringsets) (krs : kring_sock) (optname : Z)
    : res (Z * option Z) :=
  kring_getsockopt sets krs SOL_PACKET optname 4 true true true.

(** err_close and err_return. *)
Definition open_failed (sets : ringsets) (krs : kring_sock) (u : kring_user)
    : res (Z * kring_user * option kring_sock * ringsets) :=
  sets ← kring_sock_destruct sets krs;
  Ok (u_krerr u, u, None, sets).

(** [fd] is the descriptor a successful [socket] returns; [capable] and [alloc]
    are the kernel's answers in [kdata_sock_create].  The result is the return
    value, the handle, and the socket if it is still open. *)
Definition kring_open (capable alloc : bool) (fd : Z) (sets : ringsets)
    (type : Z) (ringset : list Z) (ring_id mode : Z)
    : res (Z * kring_user * option kring_sock * ringsets) :=
  let '(ret, krs) := kdata_sock_create capable SOCK_RAW htons_ETH_P_ALL alloc in
  match krs with
  | None =>
      let u := func_error (open_user (-1) 0 0 0 0 0 0) KRING_ERR_SOCK (- ret) in
      Ok (u_krerr u, u, None, sets)
  | Some krs =>
      let u := open_user fd ring_id 0 0 0 mode 0 in
      let addr := KringAddr (kring_copy_name ringset) ring_id mode in
      '(res, krs, sets) ← kring_bind sets krs addr (KCTRL_NLEN + 8);
      if res <? 0 then open_failed sets krs (func_error u KRING_ERR_BIND (- res))
      else
      '(res, ring_N) ← sys_getsockopt sets krs KR_OPT_RING_N;
      if res <? 0 then open_failed sets krs (func_error u KRING_ERR_RING_N (- res))
      else
      ring_N ← deref ring_N;
      '(res, writer_id) ← sys_getsockopt sets krs KR_OPT_WRITER_ID;
      if res <? 0 then open_failed sets krs (func_error u KRING_ERR_WRITER_ID (- res))
      else
      writer_id ← deref writer_id;
      '(res, reader_id) ← sys_getsockopt sets krs KR_OPT_READER_ID;
      if res <? 0 then open_failed sets krs (func_error u KRING_ERR_READER_ID (- res))
      else
      reader_id ← deref reader_id;
      let to_alloc := if ring_id =? KDATA_RING_ID_ALL then ring_N else 1 in
      let u := open_user fd ring_id ring_N writer_id reader_id mode to_alloc in
      if type =? KRING_DATA then
        '(res, u, sets) ←
          (if negb (ring_id =? KDATA_RING_ID_ALL) then kdata_map_enter sets krs u ring_id 0
           else map_all (Z.to_nat ring_N) sets krs u 0);
        if res <? 0 then open_failed sets krs u else Ok (0, u, Some krs, sets)
      else if type =? KRING_CTRL then
        '(res, u, sets) ← kctrl_map_enter sets krs u 0 0;
        if res <? 0 then open_failed sets krs u else Ok (0, u, Some krs, sets)
      else open_failed sets krs u
  end.
