(* ===== verification/KSocketProps.v ===== *)
(** * Ring sets and sockets: names, mapping, ids

    Properties of attribute.c, socket.c and the opening code.  The main one is
    [ids_exclusive]: whatever sockets and kernel handles come and go, no two of
    them on the same ring in the same mode have the same id, which is what lets
    a reader own a bit of a descriptor and a writer own a [wloc].  There the
    operations run one after the other.  [alloc_step] runs the allocation of an id
    on one ring an access at a time, in any number of threads; [all_rings_race]
    shows what the allocation on all rings, which has no compare-and-swap, gives two
    threads at once. *)

From S2P Require Import Prelude KrDep KData KDataIO KDataRing KDataQueue KDataSpec KDataProps.
From S2P Require Import KCtrl KCtrlQueue KCtrlSpec KCtrlProps KSocket LibKring.
From Stdlib Require String.
Import String.StringSyntax.
Local Open Scope string_scope.
Local Open Scope list_scope.
Local Open Scope Z_scope.

(** ** Names *)

Lemma validate_from_ok n : ∀ p,
  (n ≤ length p)%nat →
  validate_from n p =
    Ok (if bool_decide ((length (cstr p) < n)%nat ∧ Forall (λ c, ring_char c = true) (cstr p))
        then 0 else -1).
Proof.
  induction n as [|n IH]; intros p Hn; cbn [validate_from].
  - rewrite bool_decide_false; [done|]. lia.
  - destruct p as [|c p]; [cbn in Hn; lia|]. cbn [cstr]. destruct (Z.eqb_spec c 0) as [->|Hc].
    + rewrite bool_decide_true; [done|]. cbn. split; [lia|done].
    + destruct (ring_char c) eqn:Er; cbn [negb].
      * rewrite IH by (cbn in Hn; lia). f_equal.
        case_bool_decide as H1; case_bool_decide as H2; try done; exfalso; [apply H2|apply H1];
          rewrite ?Forall_cons in *; cbn [length] in *; split_and!; try done; try lia; tauto.
      * rewrite bool_decide_false; [done|]. rewrite Forall_cons. intros [_ [H _]]. congruence.
Qed.

(** A name is accepted exactly if it ends within its 32 characters and has
    only letters, digits, underscore, hyphen and dot. *)
Theorem validate_ring_name_spec name :
  length name = Z.to_nat KCTRL_NLEN →
  validate_ring_name name =
    Ok (if bool_decide ((length (cstr name) < Z.to_nat KCTRL_NLEN)%nat ∧
                        Forall (λ c, ring_char c = true) (cstr name)) then 0 else -1).
Proof. intros H. unfold validate_ring_name. apply validate_from_ok. lia. Qed.

Lemma validate_ring_name_spec_witness :
  validate_ring_name ([110; 101; 116; 46; 48] ++ replicate 27 0) = Ok 0.
Proof.
  etransitivity; [apply (validate_ring_name_spec ([110; 101; 116; 46; 48] ++ replicate 27 0)); done|].
  vm_compute. reflexivity.
Defined.

Lemma cstr_idem s : cstr (cstr s) = cstr s.
Proof.
  induction s as [|c s IH]; [done|]. cbn [cstr]. destruct (Z.eqb_spec c 0); [done|].
  cbn [cstr]. rewrite (proj2 (Z.eqb_neq c 0)) by done. by rewrite IH.
Qed.

(** A copied name: 32 characters, of which up to 31 are those of the source. *)
Lemma copy_name_ok src :
  length (kring_copy_name src) = 32%nat ∧ cstr (kring_copy_name src) = take 31 (cstr src).
Proof.
  unfold kring_copy_name. rewrite length_insert, strncpy_length. split; [done|].
  change (Z.to_nat (KRING_NLEN - 1)) with 31%nat. change (Z.to_nat KRING_NLEN) with 32%nat.
  rewrite insert_take_drop by (rewrite strncpy_length; lia).
  pose proof (cstr_no_nul src) as N. unfold strncpy.
  destruct (decide (31 ≤ length (cstr src))%nat).
  - rewrite (take_app_le (take 32 (cstr src)) _ 31) by (rewrite length_take; lia).
    rewrite take_take. change (31 `min` 32)%nat with 31%nat. apply cstr_app_nul.
    intros (k & E & _)%elem_of_take. by apply N, (list_elem_of_lookup_2 _ k).
  - rewrite (take_ge (cstr src) 32), (take_ge (cstr src) 31) by lia.
    rewrite take_app_ge, take_replicate by lia.
    replace ((31 - length (cstr src)) `min` (32 - length (cstr src)))%nat
      with (31 - length (cstr src))%nat by lia.
    destruct (31 - length (cstr src))%nat as [|k] eqn:Ek; [lia|].
    cbn [replicate app]. rewrite <- app_assoc. by apply cstr_app_nul.
Qed.

Lemma find_ring_app k sets set name :
  find_ring_from k (sets ++ [set]) name =
    match find_ring_from k sets name with
    | Some i => Some i
    | None => if streq (rs_name set) name then Some (k + Z.of_nat (length sets)) else None
    end.
Proof.
  revert k. induction sets as [|s sets IH]; intros k; cbn [app find_ring_from length].
  - by rewrite Z.add_0_r.
  - destruct (streq (rs_name s) name); [done|]. rewrite IH.
    destruct (find_ring_from (k + 1) sets name); [done|]. destruct (streq _ _); [|done].
    f_equal. lia.
Qed.

(** ** New ring sets *)

Definition new_data_ring : kring_ring :=
  KringRing 0 0 (replicate 6 false) (replicate 6 false) (SharedData fresh_kdata_ring).
Definition new_ctrl_ring : kring_ring :=
  KringRing 0 0 (replicate 6 false) (replicate 6 false) (SharedCtrl fresh_kctrl_ring).

Lemma alloc_data_rings n : ring_alloc_n n kdata_params = Ok (replicate n new_data_ring).
Proof. induction n as [|n IH]; [done|]. cbn [ring_alloc_n]. by rewrite IH. Qed.

Lemma alloc_ctrl_ring : kring_ring_alloc kctrl_params = Ok new_ctrl_ring.
Proof.
  unfold kring_ring_alloc, init_shared.
  change (par_type kctrl_params =? KRING_DATA) with false. cbv iota.
  by rewrite init_control_fresh.
Qed.

Definition data_set (name : list Z) (n : Z) : kring_ringset :=
  KringRingset (kring_copy_name name) (replicate (Z.to_nat n) new_data_ring) n kdata_params.
Definition ctrl_set (name : list Z) : kring_ringset :=
  KringRingset (kring_copy_name name) [new_ctrl_ring] 1 kctrl_params.

Lemma add_data_ok sets name n :
  1 ≤ n ≤ KDATA_MAX_RINGS_PER_SET →
  kring_add_data_store sets name n = Ok (0, sets ++ [data_set name n]).
Proof.
  intros Hn. unfold kring_add_data_store. destruct (Z.ltb_spec n 1); [lia|].
  destruct (Z.ltb_spec KDATA_MAX_RINGS_PER_SET n); [lia|]. cbn [orb].
  unfold kring_ringset_alloc. rewrite alloc_data_rings, !bind_Ok.
  by rewrite i32_small by (unfold KDATA_MAX_RINGS_PER_SET in *; lia).
Qed.

Lemma add_cmd_ok sets name : kring_add_cmd_store sets name = Ok (0, sets ++ [ctrl_set name]).
Proof.
  unfold kring_add_cmd_store, kring_ringset_alloc. change (Z.to_nat 1) with 1%nat. cbn [ring_alloc_n].
  by rewrite alloc_ctrl_ring, !bind_Ok.
Qed.

(** [add_data] accepts 1 to 32 rings and makes that many fresh ones; the set
    is then found by its name, cut to 31 characters, unless an earlier one has
    the same name, and sets found before are still found. *)
Theorem add_data_then_find sets name n :
  kring_add_data_store sets name n =
    (if bool_decide (1 ≤ n ≤ KDATA_MAX_RINGS_PER_SET) then Ok (0, sets ++ [data_set name n])
     else Ok (- EINVAL, sets)) ∧
  (∀ other i, kring_find_ring sets other = Some i →
     kring_find_ring (sets ++ [data_set name n]) other = Some i) ∧
  (kring_find_ring sets (take 31 (cstr name)) = None →
   kring_find_ring (sets ++ [data_set name n]) (take 31 (cstr name)) = Some (Z.of_nat (length sets))).
Proof.
  split_and!.
  - case_bool_decide as H; [by apply add_data_ok|]. unfold kring_add_data_store.
    destruct (Z.ltb_spec n 1); [done|]. destruct (Z.ltb_spec KDATA_MAX_RINGS_PER_SET n); [done|lia].
  - intros other i E. unfold kring_find_ring in *. by rewrite find_ring_app, E.
  - intros E. unfold kring_find_ring in *. rewrite find_ring_app, E. cbn [rs_name data_set].
    unfold streq. rewrite (proj2 (copy_name_ok name)), bool_decide_true; [done|].
    symmetry. destruct (copy_name_ok name) as [_ X]. rewrite <- X. apply cstr_idem.
Qed.

(** The set [net], of two rings, added to an empty list. *)
Lemma add_data_then_find_witness :
  kring_find_ring ([] ++ [data_set [110; 101; 116] 2]) [110; 101; 116] = Some 0.
Proof. apply (add_data_then_find [] [110; 101; 116] 2). done. Defined.

(** ** Mapping *)

Lemma pgoff_all :
  forallb (λ i, forallb (λ j, bool_decide (decon_pgoff (cons_pgoff i j / KRING_PAGE_SIZE) = (i, j)))
    (seqZ 0 2)) (seqZ 0 32) = true.
Proof. vm_compute. reflexivity. Qed.

Lemma pgoff_ok ring region :
  0 ≤ ring < KDATA_MAX_RINGS_PER_SET → 0 ≤ region < 2 →
  decon_pgoff (cons_pgoff ring region / KRING_PAGE_SIZE) = (ring, region).
Proof.
  intros Hr Hg. unfold KDATA_MAX_RINGS_PER_SET in Hr. pose proof pgoff_all as F.
  rewrite forallb_forall in F. specialize (F ring). rewrite forallb_forall in F.
  rewrite <- !list_elem_of_In in F. specialize (F ltac:(apply elem_of_seqZ; lia) region).
  rewrite <- list_elem_of_In in F. specialize (F ltac:(apply elem_of_seqZ; lia)).
  by apply bool_decide_eq_true_1 in F.
Qed.

(** The kernel recovers from the offset user space computes the ring and the
    region it was computed from, for every ring a set can have. *)
Theorem pgoff_roundtrip ring region :
  0 ≤ ring < KDATA_MAX_RINGS_PER_SET → 0 ≤ region < 2 →
  decon_pgoff (cons_pgoff ring region / KRING_PAGE_SIZE) = (ring, region).
Proof. apply pgoff_ok. Qed.

Lemma pgoff_roundtrip_witness :
  decon_pgoff (cons_pgoff 31 KRING_PGOFF_DATA / KRING_PAGE_SIZE) = (31, 1).
Proof. apply (pgoff_roundtrip 31 1); done. Defined.

(** A ring set as the module keeps it. *)
Record set_wf (set : kring_ringset) : Prop := {
  sw_nrings : rs_nrings set = Z.of_nat (length (rs_ring set));
  sw_max : 1 ≤ rs_nrings set ≤ KDATA_MAX_RINGS_PER_SET;
  sw_params : rs_params set = kdata_params ∨ rs_params set = kctrl_params;
  sw_ids : Forall (λ r, length (ring_reader r) = 6%nat ∧ length (ring_writer r) = 6%nat)
             (rs_ring set);
}.

(** Mapping a ring through a bound socket: the rings of the set can be mapped,
    numbers above their count are refused, and the count itself, which is no
    ring, passes the test and is used as an index beyond the array. *)
Theorem mmap_rings sets krs i set ring region :
  ks_ringset krs = Some i → aget sets i = Ok set → set_wf set →
  0 ≤ ring < KDATA_MAX_RINGS_PER_SET → 0 ≤ region < 2 →
  sys_mmap sets krs (cons_pgoff ring region) =
    if ring <? rs_nrings set then
      Ok (Some (if region =? 0 then MapControl ring else MapData ring (par_npages (rs_params set))), 0)
    else if ring =? rs_nrings set then Ub
    else Ok (None, EINVAL).
Proof.
  intros Hk Hs W Hr Hg. unfold sys_mmap, kring_sock_mmap. rewrite Hk, Hs, bind_Ok.
  rewrite pgoff_ok by done. destruct W as [Wn Wm _ _].
  destruct (Z.ltb_spec ring (rs_nrings set)) as [H|H].
  - destruct (Z.ltb_spec (rs_nrings set) ring); [lia|].
    destruct (aget_in_range (rs_ring set) ring) as [r Er]; [lia|].
    assert (region = 0 ∨ region = 1) as [-> | ->] by lia; cbn [Z.eqb]; by rewrite Er.
  - destruct (Z.ltb_spec (rs_nrings set) ring); destruct (Z.eqb_spec ring (rs_nrings set)); try lia; [done|].
    assert (aget (rs_ring set) ring = Ub) as Er.
    { destruct (aget (rs_ring set) ring) as [r| |] eqn:E; [|done|].
      - apply aget_Ok_range in E. lia.
      - unfold aget in E. case_decide; [|done]. by destruct (_ !! _). }
    assert (region = 0 ∨ region = 1) as [-> | ->] by lia; cbn [Z.eqb]; by rewrite Er.
Qed.

(** The third ring of a set of two. *)
Lemma mmap_rings_witness :
  sys_mmap [data_set [110] 2] (KringSock (Some 0) 1 1 (-1) 0) (cons_pgoff 2 0) = Ub.
Proof.
  etransitivity; [apply (mmap_rings [data_set [110] 2] (KringSock (Some 0) 1 1 (-1) 0) 0 (data_set [110] 2) 2 0)|];
    try done.
  split; try done; [by left|]. repeat constructor.
Defined.

(** A socket closed before it was bound, which is what [kring_open] does when
    the bind fails, has its null ring set dereferenced by
    [kring_sock_destruct]. *)
Theorem open_failed_bind_crashes capable alloc fd sets type name ring_id mode :
  kring_find_ring sets (kring_copy_name name) = None → capable = true → alloc = true →
  kring_open capable alloc fd sets type name ring_id mode = Ub.
Proof.
  intros Hf -> ->. unfold kring_open.
  change (kdata_sock_create true SOCK_RAW htons_ETH_P_ALL true) with (0, Some new_sock). cbv beta iota zeta.
  assert (∃ v, validate_ring_name (kring_copy_name name) = Ok v) as [v Ev].
  { eexists. apply validate_from_ok. by rewrite (proj1 (copy_name_ok name)). }
  assert (kring_bind sets new_sock (KringAddr (kring_copy_name name) ring_id mode) (KCTRL_NLEN + 8)
    = Ok (- EINVAL, new_sock, sets)) as Eb.
  { unfold kring_bind. rewrite Z.eqb_refl. cbn [negb addr_name addr_mode].
    rewrite Ev, bind_Ok. destruct (v <? 0); [done|].
    destruct (negb (mode =? KRING_READ) && negb (mode =? KRING_WRITE)); [done|]. by rewrite Hf. }
  rewrite Eb, bind_Ok. done.
Qed.

Lemma open_failed_bind_crashes_witness :
  kring_open true true 3 [] KRING_DATA [110; 101; 116] 0 KRING_WRITE = Ub.
Proof. by apply (open_failed_bind_crashes true true 3 [] KRING_DATA [110; 101; 116] 0 KRING_WRITE). Defined.

(** ** Ids *)

(** [k] is the first id of [alloc] from [id] on that is free, or [id + n]. *)
Definition first_free (alloc : list bool) (id n k : Z) : Prop :=
  id ≤ k ≤ id + n ∧ (∀ j, id ≤ j < k → aget alloc j = Ok true) ∧
  (k < id + n → aget alloc k = Ok false).

Lemma search_id_ok alloc n : ∀ id,
  0 ≤ id → id + Z.of_nat n ≤ Z.of_nat (length alloc) →
  ∃ k, search_id n id alloc = Ok k ∧ first_free alloc id (Z.of_nat n) k.
Proof.
  induction n as [|n IH]; intros id Hid Hl; cbn [search_id].
  - exists id. split; [done|]. split_and!; try lia.
  - destruct (aget_in_range alloc id) as [b Eb]; [lia|]. rewrite Eb, bind_Ok. destruct b.
    + destruct (IH (id + 1)) as (k & E & Hk & Ht & Hf); [lia|lia|]. exists k. split; [done|].
      split_and!; try lia; [|intros; apply Hf; lia].
      intros j Hj. destruct (decide (j = id)) as [->|]; [done|]. apply Ht. lia.
    + exists id. split; [done|]. split_and!; try lia. done.
Qed.

Lemma set_wf_ring set k r :
  set_wf set → aget (rs_ring set) k = Ok r →
  length (ring_reader r) = 6%nat ∧ length (ring_writer r) = 6%nat ∧ 0 ≤ k < rs_nrings set.
Proof.
  intros W E. pose proof (aget_Ok_range _ _ _ E) as Hk. rewrite <- (sw_nrings _ W) in Hk.
  apply aget_Ok in E as [_ E]. pose proof (Forall_lookup_1 _ _ _ _ (sw_ids _ W) E) as [? ?]. done.
Qed.

Lemma set_wf_params set :
  set_wf set → 0 < par_readers (rs_params set) ≤ 6 ∧ 0 < par_writers (rs_params set) ≤ 6.
Proof. intros W. by destruct (sw_params _ W) as [-> | ->]. Qed.

(** Allocating on one ring: the lowest free id, or EINVAL when there is none. *)
Lemma allocate_reader_ok set r :
  set_wf set → length (ring_reader r) = 6%nat →
  ∃ k, first_free (ring_reader r) 0 (par_readers (rs_params set)) k ∧
    kring_allocate_reader_on_ring set r =
      if k =? par_readers (rs_params set) then Ok (- EINVAL, r)
      else Ok (k, set_readers_of r (i32 (ring_num_readers r + 1)) (<[Z.to_nat k := true]> (ring_reader r))).
Proof.
  intros W L. destruct (set_wf_params _ W) as [Hp _].
  destruct (search_id_ok (ring_reader r) (Z.to_nat (par_readers (rs_params set))) 0) as (k & E & F); [lia|lia|].
  rewrite Z2Nat.id in F by lia. exists k. split; [done|].
  unfold kring_allocate_reader_on_ring. rewrite E, bind_Ok.
  destruct (Z.eqb_spec k (par_readers (rs_params set))); [done|].
  rewrite aset_in_range; [done|]. rewrite L. destruct F as [F _]. lia.
Qed.

Lemma allocate_writer_ok set r :
  set_wf set → length (ring_writer r) = 6%nat →
  ∃ k, first_free (ring_writer r) 0 (par_writers (rs_params set)) k ∧
    kring_allocate_writer_on_ring set r =
      if k =? par_writers (rs_params set) then Ok (- EINVAL, r)
      else Ok (k, set_writers_of r (i32 (ring_num_writers r + 1)) (<[Z.to_nat k := true]> (ring_writer r))).
Proof.
  intros W L. destruct (set_wf_params _ W) as [_ Hp].
  destruct (search_id_ok (ring_writer r) (Z.to_nat (par_writers (rs_params set))) 0) as (k & E & F); [lia|lia|].
  rewrite Z2Nat.id in F by lia. exists k. split; [done|].
  unfold kring_allocate_writer_on_ring. rewrite E, bind_Ok.
  destruct (Z.eqb_spec k (par_writers (rs_params set))); [done|].
  rewrite aset_in_range; [done|]. rewrite L. destruct F as [F _]. lia.
Qed.

(** ** The id discipline as a state machine

    [owners] are the sockets bound and the kernel handles open, by number; each
    owns an id on the rings it is bound to. *)

Record system := System {
  sys_sets : ringsets;
  sys_owners : gmap Z kring_sock;
}.

(** What a successful bind or kernel open leaves in the socket. *)
Definition kern_sock (k : kring_kern) : kring_sock :=
  KringSock (Some (kk_ringset k)) (kk_ring_id k) (u_mode (kk_user k))
    (u_writer_id (kk_user k)) (u_reader_id (kk_user k)).

Inductive sys_step : system → system → Prop :=
  | StepAddData s name n ret sets :
      kring_add_data_store (sys_sets s) name n = Ok (ret, sets) →
      sys_step s (System sets (sys_owners s))
  | StepAddCmd s name ret sets :
      kring_add_cmd_store (sys_sets s) name = Ok (ret, sets) →
      sys_step s (System sets (sys_owners s))
  | StepBind s fd krs addr sets :
      sys_owners s !! fd = None →
      kring_bind (sys_sets s) new_sock addr (KCTRL_NLEN + 8) = Ok (0, krs, sets) →
      sys_step s (System sets (<[fd := krs]> (sys_owners s)))
  | StepBindFails s addr len ret krs sets :
      ret < 0 →
      kring_bind (sys_sets s) new_sock addr len = Ok (ret, krs, sets) →
      sys_step s (System sets (sys_owners s))
  | StepKopen s fd type name ring_id mode k sets :
      type = KRING_DATA ∨ type = KRING_CTRL → sys_owners s !! fd = None →
      kring_kopen (sys_sets s) type name ring_id mode = Ok (0, Some k, sets) →
      sys_step s (System sets (<[fd := kern_sock k]> (sys_owners s)))
  | StepKclose s k ret sets :
      kring_kclose (sys_sets s) k = Ok (ret, sets) →
      sys_step s (System sets (sys_owners s))
  | StepClose s fd krs sets :
      sys_owners s !! fd = Some krs →
      kring_sock_destruct (sys_sets s) krs = Ok sets →
      sys_step s (System sets (delete fd (sys_owners s)))
  | StepEnter s krs ring id ret sets :
      enter_ring (sys_sets s) krs ring id = Ok (ret, sets) →
      sys_step s (System sets (sys_owners s)).

Definition sys_init : system := System [] ∅.

(** Socket [krs] is on ring [k] of set [i]. *)
Definition covers (krs : kring_sock) (i k : Z) : Prop :=
  ks_ringset krs = Some i ∧ (ks_ring_id krs = k ∨ ks_ring_id krs = KRING_RING_ID_ALL).

Definition sock_id (krs : kring_sock) : Z :=
  if ks_mode krs =? KRING_WRITE then ks_writer_id krs else ks_reader_id krs.

(** The [allocated] flags of a ring, for the mode. *)
Definition flags (mode : Z) (r : kring_ring) : list bool :=
  if mode =? KRING_WRITE then ring_writer r else if mode =? KRING_READ then ring_reader r else [].

(** The flag of [id] on ring [k] of set [i]. *)
Definition flag (sets : ringsets) (i k mode id : Z) : res bool :=
  set ← aget sets i;
  r ← aget (rs_ring set) k;
  aget (flags mode r) id.

(** A reader, or a writer of one ring. *)
Definition owner_mode (mode rid : Z) : Prop :=
  mode = KRING_READ ∨ (mode = KRING_WRITE ∧ rid ≠ KRING_RING_ID_ALL).

Record sys_inv (s : system) : Prop := {
  si_wf : Forall set_wf (sys_sets s);
  si_owner : ∀ fd krs, sys_owners s !! fd = Some krs →
    owner_mode (ks_mode krs) (ks_ring_id krs) ∧
    ∃ i, ks_ringset krs = Some i ∧ 0 ≤ i < Z.of_nat (length (sys_sets s));
  si_flag : ∀ fd krs i k b, sys_owners s !! fd = Some krs → covers krs i k →
    flag (sys_sets s) i k (ks_mode krs) (sock_id krs) = Ok b → b = true;
  si_excl : ∀ fd1 fd2 s1 s2 i k b, sys_owners s !! fd1 = Some s1 → sys_owners s !! fd2 = Some s2 →
    fd1 ≠ fd2 → covers s1 i k → covers s2 i k → ks_mode s1 = ks_mode s2 →
    flag (sys_sets s) i k (ks_mode s1) (sock_id s1) = Ok b → sock_id s1 ≠ sock_id s2;
}.

(** *** What an operation does to the flags *)

(** The flags of [r'] are those of [r], except that those in [P] are now [b]. *)
Record ring_upd (P : Z → Z → Prop) (b : bool) (r r' : kring_ring) : Prop := {
  ru_len : length (ring_reader r') = length (ring_reader r) ∧
           length (ring_writer r') = length (ring_writer r);
  ru_flag : ∀ mode id b', aget (flags mode r') id = Ok b' →
    ∃ b0, aget (flags mode r) id = Ok b0 ∧ ((P mode id ∧ b' = b) ∨ (¬ P mode id ∧ b' = b0));
}.

Record set_upd (P : Z → Z → Z → Prop) (b : bool) (set set' : kring_ringset) : Prop := {
  su_same : rs_nrings set' = rs_nrings set ∧ rs_params set' = rs_params set ∧
            length (rs_ring set') = length (rs_ring set);
  su_ring : ∀ k r', aget (rs_ring set') k = Ok r' →
    ∃ r, aget (rs_ring set) k = Ok r ∧ ring_upd (P k) b r r';
}.

Record sets_upd (P : Z → Z → Z → Z → Prop) (b : bool) (sets sets' : ringsets) : Prop := {
  tu_len : (length sets ≤ length sets')%nat;
  tu_wf : Forall set_wf sets';
  tu_flag : ∀ i k mode id b', 0 ≤ i < Z.of_nat (length sets) → flag sets' i k mode id = Ok b' →
    ∃ b0, flag sets i k mode id = Ok b0 ∧
      ((P i k mode id ∧ b' = b) ∨ (¬ P i k mode id ∧ b' = b0));
}.

Lemma ring_upd_same (P : Z → Z → Prop) b r r' :
  (∀ mode id, ¬ P mode id) → ring_reader r' = ring_reader r → ring_writer r' = ring_writer r →
  ring_upd P b r r'.
Proof.
  intros HP E1 E2. split; [by rewrite E1, E2|]. intros mode id b' E. exists b'.
  unfold flags in *. rewrite E1, E2 in E. split; [done|]. right. by split; [apply HP|].
Qed.

Lemma set_upd_wf P b set set' : set_upd P b set set' → set_wf set → set_wf set'.
Proof.
  intros [(E1 & E2 & E3) R] [W1 W2 W3 W4]. split; rewrite ?E1, ?E2, ?E3; try done.
  apply Forall_lookup_2. intros k r' E.
  destruct (R (Z.of_nat k) r') as (r & Er & [[L1 L2] _]).
  { apply aget_lookup; [lia|]. by rewrite Nat2Z.id. }
  apply aget_Ok in Er as [_ Er]. rewrite L1, L2. by eapply (Forall_lookup_1 _ _ _ _ W4).
Qed.

(** Replacing one ring of a set. *)
Lemma set_upd_ring P b set k0 r r' :
  aget (rs_ring set) k0 = Ok r → ring_upd P b r r' →
  set_upd (λ k mode id, k = k0 ∧ P mode id) b set
    (set_rings set (<[Z.to_nat k0 := r']> (rs_ring set))).
Proof.
  intros Er U. pose proof (aget_Ok_range _ _ _ Er) as H0.
  split; [split_and!; cbn; [done|done|by rewrite length_insert]|].
  intros k rk. cbn [set_rings rs_ring]. rewrite aget_insert by done. case_decide as Hk.
  - subst k. intros [= <-]. exists r. split; [done|]. destruct U as [L F]. split; [done|].
    intros mode id b' E. destruct (F mode id b' E) as (b0 & E0 & H). exists b0.
    split; [done|]. tauto.
  - intros E. exists rk. split; [done|]. apply ring_upd_same; try done. intros mode id [? _]. congruence.
Qed.

(** Replacing all of them. *)
Lemma set_upd_all P b set rings :
  Forall2 (ring_upd P b) (rs_ring set) rings →
  set_upd (λ _, P) b set (set_rings set rings).
Proof.
  intros F. split; [split_and!; cbn; [done|done|]|].
  - symmetry. by eapply Forall2_length.
  - intros k r' [Hk E]%aget_Ok. cbn in E. destruct (Forall2_lookup_r _ _ _ _ _ F E) as (r & Er & U).
    exists r. split; [by apply aget_lookup|done].
Qed.

(** Replacing one set. *)
Lemma sets_upd_set P b sets i set set' :
  Forall set_wf sets → aget sets i = Ok set → set_upd P b set set' →
  sets_upd (λ j k mode id, j = i ∧ P k mode id) b sets (<[Z.to_nat i := set']> sets).
Proof.
  intros W E U. pose proof (aget_Ok_range _ _ _ E) as Hi.
  assert (set_wf set) as Ws by (apply aget_Ok in E as [_ E]; by eapply Forall_lookup_1).
  split.
  - by rewrite length_insert.
  - apply Forall_insert; [done|]. by eapply set_upd_wf.
  - intros j k mode id b' Hj. unfold flag. rewrite aget_insert by done. case_decide as Hji.
    + subst j. rewrite E, !bind_Ok. intros H. apply bind_Ok_inv in H as (r' & Er' & Ef).
      destruct (su_ring _ _ _ _ U k r' Er') as (r & Er & [_ F]). rewrite Er, bind_Ok.
      destruct (F _ _ _ Ef) as (b0 & E0 & H). exists b0. split; [done|]. tauto.
    + intros H. exists b'. split; [done|]. right. split; [|done]. intros [? _]. congruence.
Qed.

Lemma aget_app_l {A} (l k : list A) i :
  0 ≤ i < Z.of_nat (length l) → aget (l ++ k) i = aget l i.
Proof. intros Hi. unfold aget. rewrite !decide_True by lia. by rewrite lookup_app_l by lia. Qed.

(** A set more. *)
Lemma sets_upd_app sets set :
  Forall set_wf sets → set_wf set → sets_upd (λ _ _ _ _, False) false sets (sets ++ [set]).
Proof.
  intros W Ws. split; [rewrite length_app; lia|by apply Forall_app; split; [|constructor]|].
  intros i k mode id b' Hi. unfold flag. rewrite aget_app_l by done. intros H. exists b'.
  split; [done|]. right. by split; [intros []|].
Qed.

(** *** Preservation *)

(** Flags that only go up, or do not change, keep the invariant for the owners
    there are. *)
Lemma inv_neutral P b sets sets' owners :
  sys_inv (System sets owners) → sets_upd P b sets sets' →
  (b = true ∨ ∀ i k mode id, ¬ P i k mode id) → sys_inv (System sets' owners).
Proof.
  intros [W O F X] [UL UW UF] Hb. cbn [sys_sets sys_owners] in *. split; cbn; [done|..].
  - intros fd krs E. destruct (O _ _ E) as [Hm (i & Ei & Hi)]. split; [done|]. exists i. split; [done|lia].
  - intros fd krs i k b' E C Ef. destruct (O _ _ E) as [_ (j & Ej & Hj)].
    assert (j = i) as -> by (destruct C as [C _]; congruence).
    destruct (UF _ _ _ _ _ Hj Ef) as (b0 & E0 & [[HP ->]|[_ ->]]); [|by eauto].
    destruct Hb as [->|Hb]; [done|]. by destruct (Hb _ _ _ _ HP).
  - intros fd1 fd2 s1 s2 i k b' E1 E2 Hne C1 C2 Hm Ef. destruct (O _ _ E1) as [_ (j & Ej & Hj)].
    assert (j = i) as -> by (destruct C1 as [C _]; congruence).
    destruct (UF _ _ _ _ _ Hj Ef) as (b0 & E0 & _). by eapply (X fd1 fd2).
Qed.

(** The tuples an owner claims. *)
Definition claims (krs : kring_sock) (i k mode id : Z) : Prop :=
  covers krs i k ∧ mode = ks_mode krs ∧ id = sock_id krs.

(** A new owner whose flags were all clear. *)
Lemma inv_grant sets sets' owners fd krs i :
  sys_inv (System sets owners) → sets_upd (claims krs) true sets sets' →
  (∀ j k mode id b, claims krs j k mode id → flag sets j k mode id = Ok b → b = false) →
  owner_mode (ks_mode krs) (ks_ring_id krs) →
  ks_ringset krs = Some i → 0 ≤ i < Z.of_nat (length sets) → owners !! fd = None →
  sys_inv (System sets' (<[fd := krs]> owners)).
Proof.
  intros I U Hclear Hm Ei Hi Hfd.
  pose proof (inv_neutral _ _ _ _ _ I U (or_introl eq_refl)) as [W O F X].
  destruct I as [_ O0 F0 _]. destruct U as [UL UW UF]. cbn [sys_sets sys_owners] in *.
  assert (∀ fd' o j k b, owners !! fd' = Some o → covers o j k → covers krs j k →
    ks_mode o = ks_mode krs → flag sets' j k (ks_mode krs) (sock_id krs) = Ok b →
    sock_id o ≠ sock_id krs) as Hne.
  { intros fd' o j k b Eo C1 C2 Em Ef Hid. destruct (O0 _ _ Eo) as [_ (j' & Ej & Hj)].
    assert (j' = j) as -> by (destruct C1 as [C _]; congruence).
    destruct (UF _ _ _ _ _ Hj Ef) as (b0 & E0 & _).
    pose proof (Hclear _ _ _ _ _ (conj C2 (conj eq_refl eq_refl)) E0) as ->.
    rewrite <- Em, <- Hid in E0. by apply (F0 _ _ _ _ _ Eo C1) in E0. }
  split; cbn; [done|..].
  - intros fd' o [[-> ->]|[_ E]]%lookup_insert_Some; [|by apply O0 in E as [? (j & ? & ?)]; split; [|exists j; split; [|lia]]].
    split; [done|]. exists i. split; [done|lia].
  - intros fd' o j k b [[-> ->]|[_ E]]%lookup_insert_Some C Ef; [|by eauto].
    assert (j = i) as -> by (destruct C as [C _]; congruence).
    destruct (UF _ _ _ _ _ Hi Ef) as (b0 & E0 & [[_ ->]|[HP _]]); [done|]. by destruct HP.
  - intros fd1 fd2 s1 s2 j k b [[-> ->]|[N1 E1]]%lookup_insert_Some [[-> ->]|[N2 E2]]%lookup_insert_Some
      Hfds C1 C2 Hms Ef; [done| | |by eauto].
    + intros Hid. by eapply (Hne fd2 s2 j k b).
    + intros Hid. rewrite Hms, Hid in Ef. by eapply (Hne fd1 s1 j k b).
Qed.

(** An owner gone, with its flags cleared. *)
Lemma inv_revoke sets sets' owners fd krs :
  sys_inv (System sets owners) → owners !! fd = Some krs → sets_upd (claims krs) false sets sets' →
  sys_inv (System sets' (delete fd owners)).
Proof.
  intros [W O F X] Efd [UL UW UF]. cbn [sys_sets sys_owners] in *. split; cbn; [done|..].
  - intros fd' o [_ E]%lookup_delete_Some. destruct (O _ _ E) as [Hm (i & Ei & Hi)].
    split; [done|]. exists i. split; [done|lia].
  - intros fd' o i k b [Hne E]%lookup_delete_Some C Ef. destruct (O _ _ E) as [_ (j & Ej & Hj)].
    assert (j = i) as -> by (destruct C as [C _]; congruence).
    destruct (UF _ _ _ _ _ Hj Ef) as (b0 & E0 & [[(C' & Hm & Hid) ->]|[_ ->]]); [|by eauto].
    exfalso. by apply (X fd' fd o krs i k b0 E Efd ltac:(done) C C' Hm E0).
  - intros fd1 fd2 s1 s2 i k b [N1 E1]%lookup_delete_Some [N2 E2]%lookup_delete_Some Hne C1 C2 Hm Ef.
    destruct (O _ _ E1) as [_ (j & Ej & Hj)].
    assert (j = i) as -> by (destruct C1 as [C _]; congruence).
    destruct (UF _ _ _ _ _ Hj Ef) as (b0 & E0 & _). by eapply (X fd1 fd2).
Qed.

(** *** The allocators *)

(** Changing one flag of a ring. *)
Lemma ring_upd_reader b r r' id :
  ring_reader r' = <[Z.to_nat id := b]> (ring_reader r) → ring_writer r' = ring_writer r →
  0 ≤ id < Z.of_nat (length (ring_reader r)) →
  ring_upd (λ m i, m = KRING_READ ∧ i = id) b r r'.
Proof.
  intros E1 E2 Hid. split; [by rewrite E1, E2, length_insert|]. intros m i b'. unfold flags.
  rewrite E1, E2. destruct (Z.eqb_spec m KRING_WRITE) as [->|_].
  - intros E. exists b'. split; [done|]. right. split; [intros [? _]; done|done].
  - destruct (Z.eqb_spec m KRING_READ) as [->|Hm].
    + rewrite aget_insert by done. case_decide as Hi.
      * subst i. intros [= <-]. destruct (aget_in_range _ _ Hid) as [b0 E0]. exists b0. tauto.
      * intros E. exists b'. split; [done|]. right. split; [|done]. intros [_ ?]. congruence.
    + intros E. exists b'. split; [done|]. right. split; [|done]. intros [? _]. congruence.
Qed.

Lemma ring_upd_writer b r r' id :
  ring_writer r' = <[Z.to_nat id := b]> (ring_writer r) → ring_reader r' = ring_reader r →
  0 ≤ id < Z.of_nat (length (ring_writer r)) →
  ring_upd (λ m i, m = KRING_WRITE ∧ i = id) b r r'.
Proof.
  intros E1 E2 Hid. split; [by rewrite E1, E2, length_insert|]. intros m i b'. unfold flags.
  rewrite E1, E2. destruct (Z.eqb_spec m KRING_WRITE) as [->|Hm].
  - rewrite aget_insert by done. case_decide as Hi.
    + subst i. intros [= <-]. destruct (aget_in_range _ _ Hid) as [b0 E0]. exists b0. tauto.
    + intros E. exists b'. split; [done|]. right. split; [|done]. intros [_ ?]. congruence.
  - intros E. exists b'. split; [done|]. right. split; [|done]. intros [? _]. congruence.
Qed.

(** The rings a ring id stands for. *)
Definition of_id (rid k : Z) : Prop := rid = k ∨ rid = KRING_RING_ID_ALL.

(** An allocator on the rings of [rid]: it fails and changes nothing, or returns an
    id that was free there and is now taken. *)
Definition allocated (rid mode : Z) (set : kring_ringset) (ret : Z) (set' : kring_ringset) : Prop :=
  (ret < 0 ∧ set_upd (λ _ _ _, False) false set set') ∨
  (0 ≤ ret ∧ set_upd (λ k m i, of_id rid k ∧ m = mode ∧ i = ret) true set set' ∧
   ∀ k r, of_id rid k → aget (rs_ring set) k = Ok r → aget (flags mode r) ret = Ok false).

Lemma set_upd_ext P Q b set set' :
  (∀ k m i r, aget (rs_ring set) k = Ok r → P k m i ↔ Q k m i) → set_upd P b set set' → set_upd Q b set set'.
Proof.
  intros H [S R]. split; [done|]. intros k r' E. destruct (R k r' E) as (r & Er & [L F]).
  exists r. split; [done|]. split; [done|]. intros m i b' Eb. destruct (F m i b' Eb) as (b0 & E0 & X).
  exists b0. split; [done|]. by rewrite <- (H k m i r).
Qed.

(** One ring. *)
Lemma on_ring_allocated rid mode set ret set' f :
  rid ≠ KRING_RING_ID_ALL →
  (∀ r ret r', aget (rs_ring set) rid = Ok r → f set r = Ok (ret, r') →
    (ret < 0 ∧ r' = r) ∨
    (0 ≤ ret ∧ ring_upd (λ m i, m = mode ∧ i = ret) true r r' ∧ aget (flags mode r) ret = Ok false)) →
  on_ring set rid f = Ok (ret, set') → allocated rid mode set ret set'.
Proof.
  intros Hrid Hf H. unfold on_ring in H.
  apply bind_Ok_inv in H as (r & Er & H). apply bind_Ok_inv in H as ([ret' r'] & Ef & H).
  rewrite aset_in_range in H by (by eapply aget_Ok_range). rewrite bind_Ok in H. injection H as -> <-.
  destruct (Hf _ _ _ Er Ef) as [[Hlt ->]|(Hge & U & Hfree)].
  - left. split; [done|]. eapply set_upd_ext; [|eapply (set_upd_ring (λ _ _, False)); [exact Er|]].
    + intros; tauto.
    + apply ring_upd_same; [tauto|done|done].
  - right. split; [done|]. split.
    + eapply set_upd_ext; [|eapply set_upd_ring; [exact Er|exact U]].
      intros k m i _ _. unfold of_id. split; [intros [-> ?]; tauto|]. intros [[->|?] ?]; [tauto|congruence].
    + intros k r0 [<-|?] E0; [|congruence]. rewrite Er in E0. by injection E0 as <-.
Qed.

Lemma reader_allocated rid set ret set' :
  set_wf set → rid ≠ KRING_RING_ID_ALL →
  on_ring set rid kring_allocate_reader_on_ring = Ok (ret, set') →
  allocated rid KRING_READ set ret set'.
Proof.
  intros W Hrid. apply on_ring_allocated; [done|]. intros r ret' r' Er Ef.
  destruct (set_wf_ring _ _ _ W Er) as (L & _ & _).
  destruct (allocate_reader_ok set r W L) as (k & (Hk & _ & Hfree) & E). rewrite E in Ef.
  destruct (set_wf_params _ W) as [Hp _].
  destruct (Z.eqb_spec k (par_readers (rs_params set))); injection Ef as <- <-; [by left|].
  right. split; [lia|]. split; [by apply ring_upd_reader; [done|done|rewrite L; lia]|].
  apply Hfree. lia.
Qed.

Lemma writer_allocated rid set ret set' :
  set_wf set → rid ≠ KRING_RING_ID_ALL →
  on_ring set rid kring_allocate_writer_on_ring = Ok (ret, set') →
  allocated rid KRING_WRITE set ret set'.
Proof.
  intros W Hrid. apply on_ring_allocated; [done|]. intros r ret' r' Er Ef.
  destruct (set_wf_ring _ _ _ W Er) as (_ & L & _).
  destruct (allocate_writer_ok set r W L) as (k & (Hk & _ & Hfree) & E). rewrite E in Ef.
  destruct (set_wf_params _ W) as [_ Hp].
  destruct (Z.eqb_spec k (par_writers (rs_params set))); injection Ef as <- <-; [by left|].
  right. split; [lia|]. split; [by apply ring_upd_writer; [done|done|rewrite L; lia]|].
  apply Hfree. lia.
Qed.

Lemma free_on_all_true rings id :
  free_on_all rings id = Ok true → Forall (λ r, aget (ring_reader r) id = Ok false) rings.
Proof.
  induction rings as [|r rings IH]; cbn; [done|]. intros H.
  apply bind_Ok_inv in H as ([|] & E & H); [done|]. constructor; auto.
Qed.

Lemma search_all_some n : ∀ id rings k,
  search_all n id rings = Ok (Some k) → id ≤ k ∧ free_on_all rings k = Ok true.
Proof.
  induction n as [|n IH]; intros id rings k; cbn; [done|]. intros H.
  apply bind_Ok_inv in H as ([|] & E & H).
  - injection H as <-. split; [lia|done].
  - apply IH in H as [? ?]. split; [lia|done].
Qed.

Lemma allocate_on_all_upd rings id : ∀ rings',
  allocate_on_all rings id = Ok rings' →
  Forall2 (ring_upd (λ m i, m = KRING_READ ∧ i = id) true) rings rings'.
Proof.
  induction rings as [|r rings IH]; intros rings' H; cbn in H.
  - injection H as <-. constructor.
  - apply bind_Ok_inv in H as (l & El & H). apply bind_Ok_inv in H as (rs & Er & H).
    injection H as <-. apply aset_Ok in El as [Hid ->]. constructor; [|by apply IH].
    by apply ring_upd_reader.
Qed.

Lemma all_rings_allocated set ret set' :
  set_wf set → kring_allocate_reader_all_rings set = Ok (ret, set') →
  allocated KRING_RING_ID_ALL KRING_READ set ret set'.
Proof.
  intros W H. unfold kring_allocate_reader_all_rings in H.
  rewrite take_ge, drop_ge in H by (rewrite (sw_nrings _ W); lia).
  apply bind_Ok_inv in H as ([id|] & Es & H).
  - apply bind_Ok_inv in H as (rings & Ea & H). injection H as <- <-.
    destruct (search_all_some _ _ _ _ Es) as [Hid Hfree]. apply free_on_all_true in Hfree.
    right. split; [done|]. split.
    + eapply set_upd_ext; [|apply set_upd_all; rewrite app_nil_r; by apply allocate_on_all_upd].
      intros k m i r _. unfold of_id. tauto.
    + intros k r _ [_ Er]%aget_Ok. by apply (Forall_lookup_1 _ _ _ _ Hfree Er).
  - injection H as <- <-. left. split; [done|]. split; [done|]. intros k r' E. exists r'.
    split; [done|]. by apply ring_upd_same; [tauto|..].
Qed.

(** *** Owners from allocations *)

Lemma inv_of_allocated sets owners i set rid mode ret set' :
  sys_inv (System sets owners) → aget sets i = Ok set → allocated rid mode set ret set' →
  sys_inv (System (<[Z.to_nat i := set']> sets) owners).
Proof.
  intros I E [[_ U]|(_ & U & _)].
  - eapply inv_neutral; [exact I|eapply sets_upd_set; [apply I|exact E|exact U]|]. right. tauto.
  - eapply inv_neutral; [exact I|eapply sets_upd_set; [apply I|exact E|exact U]|]. by left.
Qed.

Lemma sets_upd_ext P Q b sets sets' :
  (∀ i k m id, P i k m id ↔ Q i k m id) → sets_upd P b sets sets' → sets_upd Q b sets sets'.
Proof.
  intros H [L W F]. split; [done|done|]. intros i k m id b' Hi E.
  destruct (F i k m id b' Hi E) as (b0 & E0 & X). exists b0. split; [done|]. by rewrite <- H.
Qed.

Lemma inv_new_owner sets owners i set rid mode ret set' fd krs :
  sys_inv (System sets owners) → aget sets i = Ok set → allocated rid mode set ret set' → 0 ≤ ret →
  ks_ringset krs = Some i → ks_ring_id krs = rid → ks_mode krs = mode → sock_id krs = ret →
  owner_mode mode rid → owners !! fd = None →
  sys_inv (System (<[Z.to_nat i := set']> sets) (<[fd := krs]> owners)).
Proof.
  intros I E [[? _]|(_ & U & Hfree)] Hret H1 H2 H3 H4 Hm Hfd; [lia|].
  assert (∀ j k m id, j = i ∧ (of_id rid k ∧ m = mode ∧ id = ret) ↔ claims krs j k m id) as Hcl.
  { intros j k m id. unfold claims, covers, of_id. rewrite H1, H2, H3, H4.
    split; [intros (-> & ? & ? & ?); done|]. intros ([[= ->] ?] & ? & ?). done. }
  eapply inv_grant; [exact I| | | |exact H1| |done].
  - eapply sets_upd_ext; [exact Hcl|]. eapply sets_upd_set; [apply I|exact E|exact U].
  - intros j k m id b (-> & Hk & -> & ->)%Hcl. unfold flag. rewrite E, bind_Ok.
    intros (r & Er & Ef)%bind_Ok_inv. rewrite (Hfree _ _ Hk Er) in Ef. by injection Ef.
  - by rewrite H2, H3.
  - by eapply aget_Ok_range.
Qed.

(** What [kring_bind] does: it leaves everything as it was with an error, or
    allocates on the rings named and, unless that fails, records it. *)
Lemma bind_cases sets addr len ret krs sets' :
  Forall set_wf sets → kring_bind sets new_sock addr len = Ok (ret, krs, sets') →
  (ret < 0 ∧ sets' = sets) ∨
  ∃ i set mode id set', aget sets i = Ok set ∧ sets' = <[Z.to_nat i := set']> sets ∧
    owner_mode mode (addr_ring_id addr) ∧ allocated (addr_ring_id addr) mode set id set' ∧
    ((id < 0 ∧ ret = id) ∨
     (0 ≤ id ∧ ret = 0 ∧ ks_ringset krs = Some i ∧ ks_ring_id krs = addr_ring_id addr ∧
      ks_mode krs = mode ∧ sock_id krs = id)).
Proof.
  intros W H. unfold kring_bind in H.
  destruct (negb (len =? KCTRL_NLEN + 8)); [injection H as <- <- <-; by left|].
  apply bind_Ok_inv in H as (v & _ & H). destruct (v <? 0); [injection H as <- <- <-; by left|].
  destruct (negb (addr_mode addr =? KRING_READ) && negb (addr_mode addr =? KRING_WRITE)) eqn:Hm;
    [injection H as <- <- <-; by left|].
  destruct (kring_find_ring sets (addr_name addr)) as [i|]; [|injection H as <- <- <-; by left].
  apply bind_Ok_inv in H as (set & Es & H).
  assert (set_wf set) as Ws by (pose proof Es as [_ E]%aget_Ok; by eapply Forall_lookup_1).
  destruct (_ && (_ || _)); [injection H as <- <- <-; by left|].
  destruct (Z.eqb_spec (addr_mode addr) KRING_WRITE) as [Ew|Ew]; cbn [andb] in H.
  - destruct (Z.eqb_spec (addr_ring_id addr) KRING_RING_ID_ALL) as [|Hall];
      [injection H as <- <- <-; by left|].
    apply bind_Ok_inv in H as ([id set'] & Ea & H). apply bind_Ok_inv in H as (sets1 & Eset & H).
    apply aset_Ok in Eset as [_ ->]. right. exists i, set, KRING_WRITE, id, set'.
    split_and!; [done|by destruct (id <? 0); injection H as <- <- <-|by right|by apply writer_allocated|].
    destruct (Z.ltb_spec id 0); injection H as <- <- <-; [by left|]. right.
    rewrite Ew. unfold sock_id. by split_and!.
  - assert (addr_mode addr = KRING_READ) as Er
      by (destruct (Z.eqb_spec (addr_mode addr) KRING_READ); done).
    apply bind_Ok_inv in H as ([id set'] & Ea & H). apply bind_Ok_inv in H as (sets1 & Eset & H).
    apply aset_Ok in Eset as [_ ->]. right. exists i, set, KRING_READ, id, set'.
    split_and!; [done|by destruct (id <? 0); injection H as <- <- <-|by left|..].
    + destruct (Z.eqb_spec (addr_ring_id addr) KCTRL_RING_ID_ALL) as [Eall|]; cbn [negb] in Ea.
      * rewrite Eall. by apply all_rings_allocated.
      * by apply reader_allocated.
    + destruct (Z.ltb_spec id 0); injection H as <- <- <-; [by left|]. right.
      rewrite Er. unfold sock_id. by split_and!.
Qed.

Lemma kopen_owner sets type name ring_id mode k sets' :
  Forall set_wf sets → kring_kopen sets type name ring_id mode = Ok (0, Some k, sets') →
  type = KRING_DATA ∨ type = KRING_CTRL →
  ∃ i set id set' m, aget sets i = Ok set ∧ sets' = <[Z.to_nat i := set']> sets ∧
    owner_mode m ring_id ∧ allocated ring_id m set id set' ∧ 0 ≤ id ∧
    ks_ringset (kern_sock k) = Some i ∧ ks_ring_id (kern_sock k) = ring_id ∧
    ks_mode (kern_sock k) = m ∧ sock_id (kern_sock k) = id.
Proof.
  intros W H Ht. unfold kring_kopen in H.
  destruct ((type =? KRING_DATA) && negb (mode =? KRING_WRITE)) eqn:H1; [done|].
  destruct ((type =? KRING_CTRL) && negb (mode =? KRING_READ)) eqn:H2; [done|].
  destruct (Z.eqb_spec ring_id KRING_RING_ID_ALL) as [|Hall]; [done|].
  destruct ((type =? KRING_CTRL) && negb (ring_id =? 0)); [done|].
  destruct (kring_find_ring sets name) as [i|]; [|done].
  apply bind_Ok_inv in H as (set & Es & H).
  assert (set_wf set) as Ws by (pose proof Es as [_ E]%aget_Ok; by eapply Forall_lookup_1).
  destruct (_ || _); [done|].
  apply bind_Ok_inv in H as ([[[ret w] r] set'] & Ea & H). apply bind_Ok_inv in H as (sets1 & Eset & H).
  apply aset_Ok in Eset as [_ ->].
  destruct (Z.ltb_spec ret 0) as [Hlt|]; [injection H; lia|]. injection H as <- <-.
  destruct Ht as [-> | ->].
  - assert (mode = KRING_WRITE) as -> by (destruct (Z.eqb_spec mode KRING_WRITE); done).
    cbn [Z.eqb andb] in Ea. apply bind_Ok_inv in Ea as ([w' set1] & Ea & X).
    injection X as -> -> -> ->. exists i, set, w, set', KRING_WRITE.
    split_and!; try done; [by right|by apply writer_allocated].
  - assert (mode = KRING_READ) as -> by (destruct (Z.eqb_spec mode KRING_READ); done).
    cbn [Z.eqb andb] in Ea. apply bind_Ok_inv in Ea as ([r' set1] & Ea & X).
    injection X as -> -> -> ->. exists i, set, r, set', KRING_READ.
    split_and!; try done; [by left|by apply reader_allocated].
Qed.

(** *** Destruction *)

Lemma map_res_Forall2 {A B} (f : A → res B) l : ∀ l',
  map_res f l = Ok l' → Forall2 (λ x y, f x = Ok y) l l'.
Proof.
  induction l as [|x l IH]; intros l' H; cbn in H.
  - injection H as <-. constructor.
  - apply bind_Ok_inv in H as (y & Ey & H). apply bind_Ok_inv in H as (ys & Eys & H).
    injection H as <-. constructor; [done|by apply IH].
Qed.

Lemma release_reader_upd r id r' :
  kdata_release_reader r id = Ok r' → ring_upd (λ m i, m = KRING_READ ∧ i = id) false r r'.
Proof.
  unfold kdata_release_reader. intros H. apply bind_Ok_inv in H as (l & El & H).
  apply bind_Ok_inv in H as (d & Ed & H). apply bind_Ok_inv in H as (rd & Erd & H).
  apply bind_Ok_inv in H as (c & Ec & H). injection H as <-. apply aset_Ok in El as [Hid ->].
  by apply ring_upd_reader.
Qed.

Lemma destruct_writer_upd r krs r' :
  destruct_writer r krs = Ok r' →
  set_upd (λ k m i, k = ks_ring_id krs ∧ m = KRING_WRITE ∧ i = ks_writer_id krs) false r r'.
Proof.
  unfold destruct_writer. intros H. apply bind_Ok_inv in H as (ring & Er & H).
  apply bind_Ok_inv in H as (l & El & H). apply bind_Ok_inv in H as (rings & Ers & H).
  injection H as <-. apply aset_Ok in El as [Hid ->]. apply aset_Ok in Ers as [_ ->].
  eapply set_upd_ring; [exact Er|]. by apply ring_upd_writer.
Qed.

(** The rings of the socket, for readers. *)
Lemma destruct_reader_upd r krs r' :
  set_wf r → ks_mode krs = KRING_READ →
  (kdata_destruct r krs = Ok r' ∨ kctrl_destruct r krs = Ok r') →
  set_upd (λ k m i, of_id (ks_ring_id krs) k ∧ m = KRING_READ ∧ i = ks_reader_id krs) false r r'.
Proof.
  intros W Em H. unfold kdata_destruct, kctrl_destruct in H. rewrite Em in H. cbn [Z.eqb] in H.
  change (KRING_READ =? KRING_WRITE) with false in H. change (KRING_READ =? KRING_READ) with true in H.
  cbv iota in H. destruct (Z.eqb_spec (ks_ring_id krs) KDATA_RING_ID_ALL) as [Eall|Hall].
  - destruct H as [H|H].
    + rewrite take_ge, drop_ge in H by (rewrite (sw_nrings _ W); lia). cbn [negb] in H.
      apply bind_Ok_inv in H as (rings & Em' & H). injection H as <-. rewrite app_nil_r.
      eapply set_upd_ext; [|apply set_upd_all; eapply Forall2_impl;
        [by apply map_res_Forall2|intros ? ?; apply release_reader_upd]].
      intros k m i ring _. unfold of_id. tauto.
    + rewrite Eall in H. by unfold aget at 1 in H.
  - change KDATA_RING_ID_ALL with KRING_RING_ID_ALL in Hall.
    assert (∀ k m i, k = ks_ring_id krs ∧ m = KRING_READ ∧ i = ks_reader_id krs ↔
      of_id (ks_ring_id krs) k ∧ m = KRING_READ ∧ i = ks_reader_id krs) as X.
    { intros k m i. unfold of_id. split; [intros (-> & ?); tauto|]. intros ([<-|?] & ?); [done|congruence]. }
    destruct H as [H|H]; cbn [negb] in H.
    + apply bind_Ok_inv in H as (ring & Er & H). apply bind_Ok_inv in H as (ring' & Er' & H).
      apply bind_Ok_inv in H as (rings & [_ ->]%aset_Ok & H). injection H as <-.
      eapply set_upd_ext; [intros k m i ? _; apply X|].
      eapply set_upd_ring; [exact Er|by apply release_reader_upd].
    + apply bind_Ok_inv in H as (ring & Er & H). apply bind_Ok_inv in H as (rings & [_ ->]%aset_Ok & H).
      rewrite aget_insert_eq in H by (by eapply aget_Ok_range). rewrite bind_Ok in H.
      rewrite (proj2 (Z.eqb_neq (ks_ring_id krs) KCTRL_RING_ID_ALL)) in H by done. cbn [negb] in H.
      apply bind_Ok_inv in H as (ring2 & H2 & H). apply bind_Ok_inv in H2 as (l & [Hl ->]%aset_Ok & E2).
      injection E2 as <-. apply bind_Ok_inv in H as (rings & [_ ->]%aset_Ok & H). injection H as <-.
      rewrite list_insert_insert_eq. eapply set_upd_ext; [intros k m i ? _; apply X|].
      eapply set_upd_ring; [exact Er|]. by apply ring_upd_reader.
Qed.

Lemma destruct_upd sets krs sets' :
  Forall set_wf sets → owner_mode (ks_mode krs) (ks_ring_id krs) →
  kring_sock_destruct sets krs = Ok sets' → sets_upd (claims krs) false sets sets'.
Proof.
  intros W Hm H. unfold kring_sock_destruct in H.
  apply bind_Ok_inv in H as ([i r] & Ei & H). unfold sock_ringset in Ei.
  apply bind_Ok_inv in Ei as (i' & Ed & Ei). apply bind_Ok_inv in Ei as (r0 & Er & Ei).
  injection Ei as -> ->. apply bind_Ok_inv in H as (r' & Er' & H). apply aset_Ok in H as [_ ->].
  assert (ks_ringset krs = Some i) as Eset by (destruct (ks_ringset krs); cbn in Ed; congruence).
  assert (set_wf r) as Wr by (pose proof Er as [_ E]%aget_Ok; by eapply Forall_lookup_1).
  assert (kdata_destruct r krs = Ok r' ∨ kctrl_destruct r krs = Ok r') as Hd
    by (destruct (_ =? _) in Er'; tauto).
  assert (set_upd (λ k m id, of_id (ks_ring_id krs) k ∧ m = ks_mode krs ∧ id = sock_id krs) false r r') as U.
  { unfold sock_id. destruct Hm as [Em|[Em Hw]].
    - rewrite Em. by apply destruct_reader_upd.
    - rewrite Em. eapply set_upd_ext; [|apply destruct_writer_upd;
        unfold kdata_destruct, kctrl_destruct in Hd; rewrite Em in Hd;
        change (KRING_WRITE =? KRING_WRITE) with true in Hd; cbv iota in Hd; by destruct Hd as [Hd|Hd]; apply Hd].
      intros k m id ring _. unfold of_id. split; [intros (-> & ?); tauto|].
      intros ([<-|?] & ?); [done|]. by destruct Hw. }
  eapply sets_upd_ext; [|by eapply sets_upd_set].
  intros j k m id. unfold claims, covers. rewrite Eset. unfold of_id.
  split; [intros (-> & ? & ? & ?); done|]. intros ([[= ->] ?] & ? & ?). done.
Qed.

(** *** Reachable states *)

Lemma data_set_wf name n : 1 ≤ n ≤ KDATA_MAX_RINGS_PER_SET → set_wf (data_set name n).
Proof.
  intros Hn. split; cbn [data_set rs_nrings rs_ring rs_params]; [|done|by left|].
  - rewrite length_replicate. lia.
  - apply Forall_replicate. done.
Qed.

Lemma ctrl_set_wf name : set_wf (ctrl_set name).
Proof. split; [done|done|by right|by repeat constructor]. Qed.

Lemma inv_sets_app sets owners set :
  sys_inv (System sets owners) → set_wf set → sys_inv (System (sets ++ [set]) owners).
Proof.
  intros I W. eapply inv_neutral; [exact I|apply sets_upd_app; [apply I|done]|]. right. tauto.
Qed.

(** A ring replaced by one with the same flags. *)
Lemma inv_same_flags sets owners i set k r r' :
  sys_inv (System sets owners) → aget sets i = Ok set → aget (rs_ring set) k = Ok r →
  ring_reader r' = ring_reader r → ring_writer r' = ring_writer r →
  sys_inv (System (<[Z.to_nat i := set_rings set (<[Z.to_nat k := r']> (rs_ring set))]> sets) owners).
Proof.
  intros I Es Er E1 E2. eapply inv_neutral; [exact I| |].
  - eapply sets_upd_set; [apply I|exact Es|]. eapply (set_upd_ring (λ _ _, False) false); [exact Er|].
    by apply ring_upd_same; [tauto|..].
  - right. tauto.
Qed.

Lemma sys_step_inv s s' : sys_inv s → sys_step s s' → sys_inv s'.
Proof.
  intros I H. destruct s as [sets owners].
  inversion H as [? name n ret sets' E|? name ret sets' E|? fd krs addr sets' Efd E|
    ? addr len ret krs sets' Hret E|? fd type name rid mode k sets' Ht Efd E|? k ret sets' E|
    ? fd krs sets' Efd E|? krs ring id ret sets' E]; subst; cbn [sys_sets sys_owners] in *.
  - unfold kring_add_data_store in E. destruct (_ || _) eqn:Hn; [injection E as <- <-; done|].
    assert (1 ≤ n ≤ KDATA_MAX_RINGS_PER_SET) as Hr by lia.
    pose proof (add_data_ok sets name n Hr) as X. unfold kring_add_data_store in X. rewrite Hn, E in X.
    injection X as -> ->. apply inv_sets_app; [done|by apply data_set_wf].
  - rewrite add_cmd_ok in E. injection E as <- <-. apply inv_sets_app; [done|apply ctrl_set_wf].
  - destruct (bind_cases _ _ _ _ _ _ (si_wf _ I) E) as [[? _]|(i & set & mode & id & set' & Es & -> & Hm & A &
      [[? ?]|(Hid & _ & H1 & H2 & H3 & H4)])]; [lia|lia|].
    by eapply inv_new_owner.
  - destruct (bind_cases _ _ _ _ _ _ (si_wf _ I) E) as [[_ ->]|(i & set & mode & id & set' & Es & -> & Hm & A & _)];
      [done|]. by eapply inv_of_allocated.
  - destruct (kopen_owner _ _ _ _ _ _ _ (si_wf _ I) E Ht) as (i & set & id & set' & m & Es & -> & Hm & A & Hid &
      H1 & H2 & H3 & H4). by eapply inv_new_owner.
  - unfold kring_kclose in E. apply bind_Ok_inv in E as (set & Es & E). apply bind_Ok_inv in E as (r & Er & E).
    apply bind_Ok_inv in E as (rings & [_ ->]%aset_Ok & E). apply bind_Ok_inv in E as (sets1 & [_ ->]%aset_Ok & E).
    injection E as <- <-. by eapply inv_same_flags.
  - eapply inv_revoke; [exact I|exact Efd|]. apply destruct_upd; [apply I|by apply (si_owner _ I fd)|done].
  - unfold enter_ring in E. apply bind_Ok_inv in E as ([i set] & Es & E).
    apply bind_Ok_inv in E as (r & Er & E). apply bind_Ok_inv in E as (d & _ & E).
    apply bind_Ok_inv in E as ([re c] & _ & E). apply bind_Ok_inv in E as (rings & [_ ->]%aset_Ok & E).
    apply bind_Ok_inv in E as (sets1 & [_ ->]%aset_Ok & E). injection E as <- <-.
    unfold sock_ringset in Es. apply bind_Ok_inv in Es as (i' & _ & Es).
    apply bind_Ok_inv in Es as (set0 & Es & X). injection X as -> ->. by eapply inv_same_flags.
Qed.

(** C20: In every state of the module that its operations, one after the other, reach,
    two owners (sockets or kernel handles) that are on the same ring in the same mode
    have different ids.  Operations that overlap are [alloc_step]'s, below. *)
Theorem ids_exclusive s fd1 fd2 s1 s2 i k b :
  rtc sys_step sys_init s → sys_owners s !! fd1 = Some s1 → sys_owners s !! fd2 = Some s2 →
  fd1 ≠ fd2 → covers s1 i k → covers s2 i k → ks_mode s1 = ks_mode s2 →
  flag (sys_sets s) i k (ks_mode s1) (sock_id s1) = Ok b → sock_id s1 ≠ sock_id s2.
Proof.
  intros R. assert (sys_inv s) as I.
  { revert R. apply (rtc_ind_r (λ s, sys_inv s) sys_init).
    - split; cbn; [constructor|..]; intros; simplify_map_eq.
    - intros y z _ Hs Hy. by eapply sys_step_inv. }
  apply (si_excl _ I).
Qed.

(** ** Binding and opening *)

Lemma first_free_unique alloc id n k k' :
  first_free alloc id n k → first_free alloc id n k' → k = k'.
Proof.
  intros (H1 & T1 & F1) (H2 & T2 & F2).
  destruct (Z.lt_trichotomy k k') as [H|[H|H]]; [|done|].
  - rewrite (T2 k) in F1 by lia. exfalso. specialize (F1 ltac:(lia)). discriminate F1.
  - rewrite (T1 k') in F2 by lia. exfalso. specialize (F2 ltac:(lia)). discriminate F2.
Qed.

(** A ring with reader id [id] taken. *)
Definition taken (r : kring_ring) (id : Z) : kring_ring :=
  set_readers_of r (i32 (ring_num_readers r + 1)) (<[Z.to_nat id := true]> (ring_reader r)).

Lemma bind_reader_ok sets krs name i set k r id :
  validate_ring_name name = Ok 0 → kring_find_ring sets name = Some i → aget sets i = Ok set →
  set_wf set → aget (rs_ring set) k = Ok r →
  first_free (ring_reader r) 0 (par_readers (rs_params set)) id → id < par_readers (rs_params set) →
  kring_bind sets krs (KringAddr name k KRING_READ) (KCTRL_NLEN + 8) =
    Ok (0, KringSock (Some i) k KRING_READ (-1) id,
        <[Z.to_nat i := set_rings set (<[Z.to_nat k := taken r id]> (rs_ring set))]> sets).
Proof.
  intros Hv Hf Es W Er F Hid. destruct (set_wf_ring _ _ _ W Er) as (L & _ & Hk).
  unfold kring_bind. rewrite Z.eqb_refl. cbn [negb addr_name addr_mode addr_ring_id].
  rewrite Hv, bind_Ok, Hf, Es, bind_Ok.
  assert ((k =? -1) = false) as Hall by (apply Z.eqb_neq; lia).
  unfold KRING_RING_ID_ALL, KCTRL_RING_ID_ALL. rewrite Hall.
  rewrite (proj2 (Z.ltb_ge k 0)), (proj2 (Z.leb_gt (rs_nrings set) k)) by lia.
  change (KRING_READ =? KRING_WRITE) with false. change (KRING_READ =? KRING_READ) with true.
  cbn [negb andb orb Z.ltb]. change (0 <? 0) with false. cbv iota.
  destruct (allocate_reader_ok set r W L) as (id' & F' & Ea).
  pose proof (first_free_unique _ _ _ _ _ F F') as <-.
  rewrite (proj2 (Z.eqb_neq id (par_readers (rs_params set)))) in Ea by lia.
  unfold on_ring. rewrite Er, bind_Ok, Ea, bind_Ok.
  rewrite aset_in_range, !bind_Ok by (by eapply aget_Ok_range).
  rewrite aset_in_range, bind_Ok by (by eapply aget_Ok_range).
  destruct (Z.ltb_spec id 0); [destruct F as [? _]; lia|]. done.
Qed.

(** The set [n] with one ring, then with its first reader, then with a second. *)
Definition set_none : kring_ringset := data_set [110] 1.
Definition ring_one : kring_ring := taken new_data_ring 0.
Definition set_one : kring_ringset := set_rings set_none [ring_one].
Definition set_two : kring_ringset := set_rings set_one [taken ring_one 1].
Definition sock_one : kring_sock := KringSock (Some 0) 0 KRING_READ (-1) 0.
Definition sock_two : kring_sock := KringSock (Some 0) 0 KRING_READ (-1) 1.

Lemma set_one_wf : set_wf set_one.
Proof.
  refine (set_upd_wf _ _ _ _ (set_upd_ring _ true set_none 0 new_data_ring ring_one eq_refl _) _).
  - apply (ring_upd_reader true new_data_ring ring_one 0); [reflexivity|reflexivity|].
    cbn. lia.
  - apply data_set_wf. unfold KDATA_MAX_RINGS_PER_SET. lia.
Qed.

Lemma bind_one :
  kring_bind [set_none] new_sock (KringAddr (kring_copy_name [110]) 0 KRING_READ) (KCTRL_NLEN + 8) =
    Ok (0, sock_one, [set_one]).
Proof.
  apply (bind_reader_ok [set_none] new_sock (kring_copy_name [110]) 0 set_none 0 new_data_ring 0);
    try reflexivity; [apply data_set_wf; unfold KDATA_MAX_RINGS_PER_SET; lia|].
  split_and!; [done|done|intros; lia|reflexivity].
Qed.

Lemma bind_two :
  kring_bind [set_one] new_sock (KringAddr (kring_copy_name [110]) 0 KRING_READ) (KCTRL_NLEN + 8) =
    Ok (0, sock_two, [set_two]).
Proof.
  apply (bind_reader_ok [set_one] new_sock (kring_copy_name [110]) 0 set_one 0 ring_one 1);
    try reflexivity; [apply set_one_wf|].
  split_and!; [done|done| |reflexivity]. intros j Hj. by replace j with 0 by lia.
Qed.

Lemma two_reachable :
  rtc sys_step sys_init (System [set_two] (<[4 := sock_two]> (<[3 := sock_one]> ∅))).
Proof.
  eapply rtc_l; [apply (StepAddData sys_init [110] 1 0 [set_none]), add_data_ok; done|].
  eapply rtc_l; [eapply (StepBind _ 3 sock_one); [reflexivity|apply bind_one]|].
  eapply rtc_l; [eapply (StepBind _ 4 sock_two); [reflexivity|apply bind_two]|]. apply rtc_refl.
Qed.

Lemma ids_exclusive_witness :
  sys_owners (System [set_two] (<[4 := sock_two]> (<[3 := sock_one]> ∅))) !! 3 = Some sock_one ∧
  sock_id sock_one ≠ sock_id sock_two.
Proof.
  split; [reflexivity|].
  apply (ids_exclusive _ 3 4 sock_one sock_two 0 0 true two_reachable); try reflexivity; try lia.
  - split; [reflexivity|by left].
  - split; [reflexivity|by left].
Defined.

(** The two mappings of [kdata_map_enter] on a ring of the set. *)
Lemma mmap_ok sets krs i set ring region :
  ks_ringset krs = Some i → aget sets i = Ok set → set_wf set →
  0 ≤ ring < rs_nrings set → region = KRING_PGOFF_CTRL ∨ region = KRING_PGOFF_DATA →
  ∃ m, sys_mmap sets krs (cons_pgoff ring region) = Ok (Some m, 0) ∧ mapped_ring m = ring.
Proof.
  intros Hk Hs W Hr Hg. pose proof (sw_max _ W) as Hmax. pose proof (sw_nrings _ W) as Hn.
  unfold sys_mmap, kring_sock_mmap. rewrite Hk, Hs, bind_Ok.
  rewrite pgoff_ok by (unfold KRING_PGOFF_CTRL, KRING_PGOFF_DATA in *; lia).
  rewrite (proj2 (Z.ltb_ge (rs_nrings set) ring)) by lia.
  destruct (aget_in_range (rs_ring set) ring) as [r Er]; [lia|].
  destruct Hg as [-> | ->].
  - exists (MapControl ring). change (KRING_PGOFF_CTRL =? KRING_PGOFF_CTRL) with true. cbv iota.
    by rewrite Er.
  - exists (MapData ring (par_npages (rs_params set))).
    change (KRING_PGOFF_DATA =? KRING_PGOFF_CTRL) with false.
    change (KRING_PGOFF_DATA =? KRING_PGOFF_DATA) with true. cbv iota. by rewrite Er.
Qed.

Lemma map_enter_reader sets krs i set k r d id rd fd n w :
  ks_ringset krs = Some i → aget sets i = Ok set → set_wf set → aget (rs_ring set) k = Ok r →
  ring_shared r = SharedData d → aget (reader (kr_control d)) id = Ok rd →
  ∃ c, kdata_prep_enter (kr_control d) id = Ok (0, c) ∧
    kdata_map_enter sets krs (open_user fd k n w id KRING_READ 1) k 0 =
      Ok (0, KringUser fd k n w id KRING_READ [k] [k] None 0 0,
          <[Z.to_nat i := set_rings set (<[Z.to_nat k :=
             set_shared r (SharedData (KdataRing c (kr_page d)))]> (rs_ring set))]> sets).
Proof.
  intros Hk Hs W Er Ed Erd. destruct (set_wf_ring _ _ _ W Er) as (_ & _ & Hr).
  destruct (mmap_ok sets krs i set k KRING_PGOFF_CTRL Hk Hs W Hr) as (m1 & E1 & M1); [by left|].
  destruct (mmap_ok sets krs i set k KRING_PGOFF_DATA Hk Hs W Hr) as (m2 & E2 & M2); [by right|].
  unfold kdata_prep_enter. rewrite (upd_reader_ok _ _ _ _ Erd), bind_Ok. eexists. split; [done|].
  set (u := KringUser fd k n w id KRING_READ [k] [k] None 0 0).
  set (u1 := KringUser fd k n w id KRING_READ [k] [-1] None 0 0).
  assert (set_control (open_user fd k n w id KRING_READ 1) 0 k = Ok u1) as S1 by done.
  assert (set_data u1 0 k = Ok u) as S2 by done.
  unfold kdata_map_enter. rewrite E1, bind_Ok, M1, S1, bind_Ok, E2, bind_Ok, M2, S2, bind_Ok.
  change (u_mode u =? KRING_READ) with true. cbv iota.
  change (aget (u_control u) 0) with (Ok k). rewrite bind_Ok. unfold enter_ring, sock_ringset.
  rewrite Hk. cbn [deref]. rewrite bind_Ok, Hs, !bind_Ok, Er, bind_Ok. unfold data_of. rewrite Ed, bind_Ok.
  unfold kdata_prep_enter. rewrite (upd_reader_ok _ _ _ _ Erd), !bind_Ok.
  rewrite aset_in_range, bind_Ok by (by eapply aget_Ok_range).
  by rewrite aset_in_range, bind_Ok by (by eapply aget_Ok_range).
Qed.

(** Opening a data ring for reading gives a handle on that ring, with the
    lowest reader id free on it, and enters the reader: the handle is one to
    which the theorems on data rings apply. *)
Theorem open_reader_handle fd sets name i set k r d id rd :
  0 ≤ fd → validate_ring_name (kring_copy_name name) = Ok 0 →
  kring_find_ring sets (kring_copy_name name) = Some i → aget sets i = Ok set → set_wf set →
  aget (rs_ring set) k = Ok r → ring_shared r = SharedData d →
  first_free (ring_reader r) 0 (par_readers (rs_params set)) id → id < par_readers (rs_params set) →
  aget (reader (kr_control d)) id = Ok rd →
  ∃ u sets' set' r' c, kring_open true true fd sets KRING_DATA name k KRING_READ =
      Ok (0, u, Some (KringSock (Some i) k KRING_READ (-1) id), sets') ∧
    maps_ring u 0 k ∧ u_reader_id u = id ∧ u_ring_id u = k ∧ k ≠ KDATA_RING_ID_ALL ∧
    kdata_prep_enter (kr_control d) id = Ok (0, c) ∧
    aget sets' i = Ok set' ∧ aget (rs_ring set') k = Ok r' ∧
    ring_shared r' = SharedData (KdataRing c (kr_page d)) ∧
    aget (ring_reader r') id = Ok true.
Proof.
  intros Hfd Hv Hf Es W Er Ed F Hid Erd. destruct (set_wf_ring _ _ _ W Er) as (L & _ & Hk).
  pose proof (bind_reader_ok sets new_sock _ _ _ _ _ _ Hv Hf Es W Er F Hid) as Eb.
  set (set1 := set_rings set _) in Eb. set (sets1 := <[Z.to_nat i := set1]> sets) in Eb.
  set (krs := KringSock (Some i) k KRING_READ (-1) id) in Eb.
  pose proof (aget_Ok_range _ _ _ Es) as Hi. pose proof (aget_Ok_range _ _ _ Er) as Hr.
  assert (0 ≤ id < Z.of_nat (length (ring_reader r))) as Hid0.
  { destruct F as [? _]. destruct (set_wf_params _ W). lia. }
  assert (set_wf set1) as W1.
  { eapply set_upd_wf; [|exact W]. eapply (set_upd_ring _ true); [exact Er|].
    by apply (ring_upd_reader true r (taken r id) id). }
  assert (aget sets1 i = Ok set1) as Es1 by by apply aget_insert_eq.
  assert (aget (rs_ring set1) k = Ok (taken r id)) as Er1 by by apply aget_insert_eq.
  destruct (map_enter_reader sets1 krs i set1 k (taken r id) d id rd fd (rs_nrings set) (-1)
    eq_refl Es1 W1 Er1 Ed Erd) as (c & Ec & Em).
  eexists _, _, _, _, c. split_and!.
  - unfold kring_open.
    change (kdata_sock_create true SOCK_RAW htons_ETH_P_ALL true) with (0, Some new_sock). cbv beta iota zeta.
    rewrite Eb, bind_Ok. change (0 <? 0) with false. cbv iota.
    assert (sys_getsockopt sets1 krs KR_OPT_RING_N = Ok (0, Some (rs_nrings set))) as G1.
    { unfold sys_getsockopt, kring_getsockopt, sock_ringset. cbn [ks_ringset krs deref].
      change (SOL_PACKET =? SOL_PACKET) with true. change (KR_OPT_RING_N =? KR_OPT_RING_N) with true.
      cbn [negb]. change (4 =? 4) with true. cbn [negb]. by rewrite bind_Ok, Es1. }
    rewrite G1, bind_Ok. change (0 <? 0) with false. cbn [deref]. rewrite bind_Ok.
    change (sys_getsockopt sets1 krs KR_OPT_WRITER_ID) with (@Ok (Z * option Z) (0, Some (-1))).
    rewrite bind_Ok. change (0 <? 0) with false. cbn [deref]. rewrite bind_Ok.
    change (sys_getsockopt sets1 krs KR_OPT_READER_ID) with (@Ok (Z * option Z) (0, Some id)).
    rewrite bind_Ok. change (0 <? 0) with false. cbn [deref]. rewrite bind_Ok.
    rewrite (proj2 (Z.eqb_neq k KDATA_RING_ID_ALL)) by (unfold KDATA_RING_ID_ALL; lia).
    change (KRING_DATA =? KRING_DATA) with true. cbn [negb]. cbv beta iota zeta.
    rewrite Em, bind_Ok. done.
  - split; [done|]. intros off. unfold kdata_page_data. cbn [u_socket u_data].
    by rewrite (proj2 (Z.ltb_ge fd 0)).
  - done.
  - done.
  - unfold KDATA_RING_ID_ALL. lia.
  - exact Ec.
  - apply aget_insert_eq. subst sets1. by rewrite length_insert.
  - cbn [set_rings rs_ring]. apply aget_insert_eq. cbn. by rewrite length_insert.
  - done.
  - cbn. by apply aget_insert_eq.
Qed.

Lemma open_reader_handle_witness :
  ∃ u sets' set' r' c, kring_open true true 3 [set_none] KRING_DATA [110] 0 KRING_READ =
      Ok (0, u, Some sock_one, sets') ∧
    maps_ring u 0 0 ∧ u_reader_id u = 0 ∧ u_ring_id u = 0 ∧ 0 ≠ KDATA_RING_ID_ALL ∧
    kdata_prep_enter (kr_control fresh_kdata_ring) 0 = Ok (0, c) ∧
    aget sets' 0 = Ok set' ∧ aget (rs_ring set') 0 = Ok r' ∧
    ring_shared r' = SharedData (KdataRing c (kr_page fresh_kdata_ring)) ∧
    aget (ring_reader r') 0 = Ok true.
Proof.
  apply (open_reader_handle 3 [set_none] [110] 0 set_none 0 new_data_ring fresh_kdata_ring 0
    (SharedReader 0 0 0 0)); try reflexivity; [lia|apply data_set_wf; unfold KDATA_MAX_RINGS_PER_SET; lia|].
  split_and!; [done|done|intros; lia|reflexivity].
Defined.

(** Closing a reader's socket gives back the page it was on: no descriptor
    names the reader any more, the id is free, and the ring is as it was for
    everyone else. *)
Theorem close_reader_releases holds r d id rd :
  ring_shared r = SharedData d → length (ring_reader r) = 6%nat →
  ring_state holds d → aget (reader (kr_control d)) id = Ok rd → reader_view holds id rd →
  ∃ r' d' holds', kdata_release_reader r id = Ok r' ∧ ring_shared r' = SharedData d' ∧
    aget (ring_reader r') id = Ok false ∧ ring_state holds' d' ∧
    (∀ s, (id, s) ∉ holds') ∧ (∀ j s, j ≠ id → (j, s) ∈ holds' ↔ (j, s) ∈ holds) ∧
    kr_page d' = kr_page d ∧ head (kr_control d') = head (kr_control d).
Proof.
  intros Ed L S Erd V. pose proof S as [I Q P].
  pose proof (aget_Ok_range _ _ _ Erd) as Hid. rewrite (ri_nreader _ _ _ I) in Hid.
  change (Z.of_nat (Z.to_nat KDATA_READERS)) with KDATA_READERS in Hid.
  destruct (ring_inv_reader_at _ _ _ id I Hid) as (rd0 & Erd0 & [Hrh _]).
  rewrite Erd in Erd0. injection Erd0 as <-.
  unfold kdata_release_reader. rewrite aset_in_range, bind_Ok by (rewrite L; unfold KDATA_READERS in *; lia).
  unfold data_of. rewrite Ed, bind_Ok, Erd, bind_Ok.
  destruct (ctrue (reader_entered rd)) eqn:Een.
  - destruct (reader_release_ok holds None (kr_control d) id (reader_rhead rd) 0 I Hid Hrh)
      as (c' & Ec & I' & Hh & Q').
    rewrite Ec, bind_Ok. eexists _, (KdataRing c' (kr_page d)), _. split; [done|]. split; [done|].
    split; [cbn; apply aget_insert_eq; rewrite L; unfold KDATA_READERS in *; lia|].
    split; [|split; [|split; [|done]]].
    + split; [exact I'| |exact P]. intros j s [Hs Hne]%holds_remove.
      destruct (Q j s Hs) as (rj & Ej & Hr & He). cbn [kr_control].
      destruct (aget_eqv _ _ _ _ Q' Ej) as (rj' & Ej' & E1 & E2 & _). exists rj'. by rewrite E1, E2.
    + intros s [Hs Hne]%holds_remove. apply V in Hs. tauto.
    + intros j s Hj. rewrite holds_remove. tauto.
  - rewrite bind_Ok. eexists _, (KdataRing (kr_control d) (kr_page d)), holds. split; [done|]. split; [done|].
    split; [cbn; apply aget_insert_eq; rewrite L; unfold KDATA_READERS in *; lia|].
    split; [by destruct d|]. split; [|done].
    intros s Hs%V. apply ctrue_false in Een. tauto.
Qed.

(** Reader 1 of the ring of [lapped_ring] goes. *)
Lemma close_reader_releases_witness :
  let r := KringRing 2 0 [true; true; false; false; false; false] (replicate 6 false)
             (SharedData lapped_ring) in
  ∃ r' d' holds', kdata_release_reader r 1 = Ok r' ∧ ring_shared r' = SharedData d' ∧
    aget (ring_reader r') 1 = Ok false ∧ ring_state holds' d' ∧
    (∀ s, (1, s) ∉ holds') ∧
    (∀ j s, j ≠ 1 → (j, s) ∈ holds' ↔ (j, s) ∈ ({[(0, 5); (1, 4)]} : gset (Z * Z))) ∧
    kr_page d' = kr_page lapped_ring ∧ head (kr_control d') = head (kr_control lapped_ring).
Proof.
  intros r. apply (close_reader_releases {[(0, 5); (1, 4)]} r lapped_ring 1 (SharedReader 4 0 1 0));
    [reflexivity|reflexivity|apply lapped_state|reflexivity|].
  intros s. rewrite elem_of_union, !elem_of_singleton. cbn. split.
  - intros [[= ]|[= ->]]. done.
  - intros [_ ->]. by right.
Defined.

(** [kdata_error] and [kctrl_error] fill exactly the memory they allocate
    when there is an errno; without one they test a pointer nobody assigned. *)
Theorem error_string_fits strerror u err :
  kring_error strerror u err =
    if u_errno u =? 0 then Ub
    else match strerror (u_errno u) with
         | Uninit => Ub
         | Null => Ok (Z.of_nat (length (error_prefix err ++ [0])), error_prefix err ++ [0])
         | Str s =>
             let str := error_prefix err ++ chars ": " ++ s ++ [0] in
             Ok (Z.of_nat (length str), str)
         end.
Proof.
  unfold kring_error. destruct (Z.eqb_spec (u_errno u) 0); cbn [negb]; [done|].
  destruct (strerror (u_errno u)) as [| |s]; [done| |].
  - do 2 f_equal. rewrite length_app. cbn [length]. lia.
  - assert (Z.of_nat (length (error_prefix err)) + (2 + Z.of_nat (length s)) + 1 =
      Z.of_nat (length (error_prefix err ++ chars ": " ++ s ++ [0]))) as ->.
    { rewrite !length_app. cbn [length chars]. lia. }
    by rewrite decide_True.
Qed.

(** ** Allocating at the same time

    Threads that allocate an id of one ring's table of readers (or writers), and free
    it: [kring_allocate_reader_on_ring] one access at a time. *)

Inductive apc :=
  | AScan (id : Z)             (* about to load the flag of [id] *)
  | ASwap (id : Z)             (* has seen it free, about to swap it in *)
  | AHas (id : Z)              (* has returned [id] *)
  | ANone.                     (* has returned -EINVAL *)

Record allocs := Allocs {
  al_flags : list bool;
  al_thread : gmap positive apc;
}.

Definition at_pc (st : allocs) (t : positive) (p : apc) : allocs :=
  Allocs (al_flags st) (<[t := p]> (al_thread st)).

Inductive alloc_step (readers : Z) : allocs → allocs → Prop :=
  | a_call st t : al_thread st !! t = None → alloc_step readers st (at_pc st t (AScan 0))
  | a_taken st t id : al_thread st !! t = Some (AScan id) → id < readers → aget (al_flags st) id = Ok true →
      alloc_step readers st (at_pc st t (AScan (id + 1)))
  | a_free st t id : al_thread st !! t = Some (AScan id) → id < readers → aget (al_flags st) id = Ok false →
      alloc_step readers st (at_pc st t (ASwap id))
  | a_full st t id : al_thread st !! t = Some (AScan id) → ¬ id < readers → alloc_step readers st (at_pc st t ANone)
  | a_swap st t id orig : al_thread st !! t = Some (ASwap id) → aget (al_flags st) id = Ok orig →
      alloc_step readers st
        (if orig then at_pc st t (AScan 0)
         else at_pc (Allocs (<[Z.to_nat id := true]> (al_flags st)) (al_thread st)) t (AHas id))
  | a_destruct st t id flags : al_thread st !! t = Some (AHas id) → aset (al_flags st) id false = Ok flags →
      alloc_step readers st (Allocs flags (delete t (al_thread st))).

(** Whoever has an id has its flag, and nobody else has the id. *)
Record allocs_inv (st : allocs) : Prop := {
  ai_flag : ∀ t id, al_thread st !! t = Some (AHas id) → aget (al_flags st) id = Ok true;
  ai_one : ∀ t t' id, al_thread st !! t = Some (AHas id) → al_thread st !! t' = Some (AHas id) → t = t';
}.

(** A thread goes on to a point where it has no id. *)
Lemma at_pc_inv st t p : allocs_inv st → (∀ id, p ≠ AHas id) → allocs_inv (at_pc st t p).
Proof.
  intros [F O] N. split; cbn.
  - intros u id [[_ ->]|[_ E]]%lookup_insert_Some; [by destruct (N id)|by apply (F u)].
  - intros u u' id [[_ ->]|[_ E]]%lookup_insert_Some; [by destruct (N id)|].
    intros [[_ ->]|[_ E']]%lookup_insert_Some; [by destruct (N id)|by apply (O u u' id)].
Qed.

Lemma alloc_step_inv readers st st' : allocs_inv st → alloc_step readers st st' → allocs_inv st'.
Proof.
  intros I H. destruct H as [st t E|st t id E L A|st t id E L A|st t id E L|st t id orig E A|st t id flags E A];
    try (by apply at_pc_inv).
  - destruct orig; [by apply at_pc_inv|]. destruct I as [F O]. pose proof (aget_Ok_range _ _ _ A) as R. split; cbn.
    + intros u i [[_ [= ->]]|[_ Eu]]%lookup_insert_Some; [by apply aget_insert_eq|].
      rewrite aget_insert_ne; [by apply (F u)|lia|]. intros ->. rewrite (F u i Eu) in A. done.
    + intros u u' i [[Eu X]|[N Eu]]%lookup_insert_Some [[Eu' X']|[N' Eu']]%lookup_insert_Some; [congruence|..].
      * injection X as ->. rewrite (F u' i Eu') in A. done.
      * injection X' as ->. rewrite (F u i Eu) in A. done.
      * by apply (O u u' i).
  - destruct I as [F O]. apply aset_Ok in A as [R ->]. split; cbn.
    + intros u i [N Eu]%lookup_delete_Some. rewrite aget_insert_ne; [by apply (F u)|lia|].
      intros ->. apply N. by apply (O t u i).
    + intros u u' i [_ Eu]%lookup_delete_Some [_ Eu']%lookup_delete_Some. by apply (O u u' i).
Qed.

(** C38: Whatever the interleaving of threads that allocate ids on one ring, one access
    at a time, and of those that free theirs, no two have the same id, and the id a
    thread has is marked as allocated. *)
Theorem allocations_exclusive readers flags st t t' id id' :
  rtc (alloc_step readers) (Allocs flags ∅) st → t ≠ t' →
  al_thread st !! t = Some (AHas id) → al_thread st !! t' = Some (AHas id') →
  id ≠ id' ∧ aget (al_flags st) id = Ok true.
Proof.
  intros R N E E'. assert (allocs_inv st) as [F O].
  { revert R. clear. apply (rtc_ind_r (λ st, allocs_inv st)); [|intros y z _ S I; by eapply alloc_step_inv].
    split; intros; simplify_map_eq. }
  split; [|by apply (F t)]. intros <-. by apply N, (O t t' id).
Qed.

Lemma search_id_free alloc n : ∀ id k, search_id n id alloc = Ok k → first_free alloc id (Z.of_nat n) k.
Proof.
  induction n as [|n IH]; intros id k H; cbn [search_id] in H.
  - injection H as ->. split_and!; intros; lia.
  - apply bind_Ok_inv in H as ([|] & Ea & H).
    + apply IH in H as (? & T & F). split_and!; [lia|lia| |intros; apply F; lia].
      intros j Hj. destruct (decide (j = id)) as [->|]; [done|]. apply T. lia.
    + injection H as ->. split_and!; [lia|lia|intros; lia|done].
Qed.

(** Run on its own, a thread is [kring_allocate_reader_on_ring]. *)
Lemma scan_alone readers flags thread t n id k :
  thread !! t = Some (AScan id) → id + Z.of_nat n = readers → search_id n id flags = Ok k →
  ∃ thread', rtc (alloc_step readers) (Allocs flags thread) (Allocs flags thread') ∧
    thread' !! t = Some (if k =? readers then ANone else ASwap k).
Proof.
  revert id thread. induction n as [|n IH]; intros id thread Et Hn H; cbn [search_id] in H.
  - injection H as ->. exists (<[t := ANone]> thread). split.
    + apply rtc_once, (a_full _ (Allocs flags thread) t k); [done|lia].
    + rewrite lookup_insert_eq. destruct (Z.eqb_spec k readers); [done|lia].
  - apply bind_Ok_inv in H as (a & Ea & H). destruct a.
    + destruct (IH (id + 1) (<[t := AScan (id + 1)]> thread)) as (th & R & E); [apply lookup_insert_eq|lia|done|].
      exists th. split; [|done]. eapply rtc_l; [apply (a_taken _ (Allocs flags thread) t id); [done|lia|done]|exact R].
    + injection H as ->. exists (<[t := ASwap k]> thread). split.
      * apply rtc_once, (a_free _ (Allocs flags thread) t k); [done|lia|done].
      * rewrite lookup_insert_eq. destruct (Z.eqb_spec k readers); [lia|done].
Qed.

Theorem allocates_alone set ring ret ring' t thread :
  set_wf set → kring_allocate_reader_on_ring set ring = Ok (ret, ring') → thread !! t = Some (AScan 0) →
  ∃ thread', rtc (alloc_step (par_readers (rs_params set))) (Allocs (ring_reader ring) thread)
      (Allocs (ring_reader ring') thread') ∧
    thread' !! t = Some (if ret <? 0 then ANone else AHas ret).
Proof.
  intros W H Et. unfold kring_allocate_reader_on_ring in H. apply bind_Ok_inv in H as (k & Ek & H).
  destruct (set_wf_params _ W) as [Hp _]. pose proof (search_id_free _ _ _ _ Ek) as (Hk & _ & Ef).
  assert (0 + Z.of_nat (Z.to_nat (par_readers (rs_params set))) = par_readers (rs_params set)) as Hn by lia.
  destruct (scan_alone (par_readers (rs_params set)) _ thread t _ 0 k Et Hn Ek) as (th & R & E).
  destruct (Z.eqb_spec k (par_readers (rs_params set))).
  - injection H as <- <-. by exists th.
  - apply bind_Ok_inv in H as (l & [Hl ->]%aset_Ok & H). injection H as <- <-.
    exists (<[t := AHas k]> th). split.
    + etransitivity; [exact R|]. apply rtc_once, (a_swap _ (Allocs _ th) t k false); [done|]. apply Ef. lia.
    + rewrite lookup_insert_eq. destruct (Z.ltb_spec k 0); [lia|done].
Qed.

Definition demo_flags : list bool := [true; false; false; false; false; false].

(** Both threads see id 1 free; the second finds it taken when it swaps and looks
    again. *)
Lemma demo_allocs : ∃ st, rtc (alloc_step 6) (Allocs demo_flags ∅) st ∧
  al_thread st !! 1%positive = Some (AHas 1) ∧ al_thread st !! 2%positive = Some (AHas 2) ∧ al_flags st !! 1%nat = Some true.
Proof.
  eexists. split.
  - eapply rtc_l; [apply (a_call _ _ 1); reflexivity|]. eapply rtc_l; [apply (a_call _ _ 2); reflexivity|].
    eapply rtc_l; [apply (a_taken _ _ 1 0); reflexivity|]. eapply rtc_l; [apply (a_taken _ _ 2 0); reflexivity|].
    eapply rtc_l; [apply (a_free _ _ 1 1); reflexivity|]. eapply rtc_l; [apply (a_free _ _ 2 1); reflexivity|].
    eapply rtc_l; [apply (a_swap _ _ 1 1 false); reflexivity|]. eapply rtc_l; [apply (a_swap _ _ 2 1 true); reflexivity|].
    eapply rtc_l; [apply (a_taken _ _ 2 0); reflexivity|]. eapply rtc_l; [apply (a_taken _ _ 2 1); reflexivity|].
    eapply rtc_l; [apply (a_free _ _ 2 2); reflexivity|]. eapply rtc_l; [apply (a_swap _ _ 2 2 false); reflexivity|].
    apply rtc_refl.
  - split_and!; reflexivity.
Qed.

Lemma allocations_exclusive_witness : ∃ st, rtc (alloc_step 6) (Allocs demo_flags ∅) st ∧ 1 ≠ 2 ∧ aget (al_flags st) 1 = Ok true.
Proof.
  destruct demo_allocs as (st & R & E1 & E2 & _). exists st. split; [exact R|].
  by apply (allocations_exclusive 6 demo_flags st 1 2).
Defined.

Lemma allocate_again rings id : ∀ rings', allocate_on_all rings id = Ok rings' →
  length rings' = length rings ∧ Forall (λ r, aget (ring_reader r) id = Ok true) rings' ∧
  ∃ rings'', allocate_on_all rings' id = Ok rings''.
Proof.
  induction rings as [|r rings IH]; intros rings' H; cbn in H.
  - injection H as <-. split_and!; [done|done|by exists []].
  - apply bind_Ok_inv in H as (l & [Hid ->]%aset_Ok & H). apply bind_Ok_inv in H as (rs & Er & H). injection H as <-.
    destruct (IH _ Er) as (L & F & rs' & E). split_and!; [cbn; by rewrite L| |].
    + constructor; [by apply aget_insert_eq|done].
    + cbn. rewrite aset_in_range by (by rewrite length_insert). rewrite bind_Ok, E. by eexists.
Qed.

(** *** All rings

    [kring_allocate_reader_all_rings] looks for an id that is free on all rings and
    then stores it, without a compare-and-swap.  Two threads that both look before
    either stores find the same id, and the stores of both succeed: both return it. *)
Theorem all_rings_race set id set1 :
  set_wf set → kring_allocate_reader_all_rings set = Ok (id, set1) → 0 ≤ id →
  search_all (Z.to_nat (par_readers (rs_params set))) 0 (take (Z.to_nat (rs_nrings set)) (rs_ring set)) = Ok (Some id) ∧
  ∃ rings, allocate_on_all (take (Z.to_nat (rs_nrings set1)) (rs_ring set1)) id = Ok rings ∧
    Forall (λ r, aget (ring_reader r) id = Ok true) rings.
Proof.
  intros W H Hid. unfold kring_allocate_reader_all_rings in H.
  rewrite take_ge, drop_ge in H by (rewrite (sw_nrings _ W); lia). rewrite take_ge by (rewrite (sw_nrings _ W); lia).
  apply bind_Ok_inv in H as ([k|] & Es & H); [|injection H as <- _; done].
  apply bind_Ok_inv in H as (rings & Ea & H). injection H as <- <-. split; [done|]. cbn [set_rings rs_nrings rs_ring].
  destruct (allocate_again _ _ _ Ea) as (L & _ & rings' & E).
  rewrite app_nil_r, take_ge by (rewrite L, (sw_nrings _ W); lia). exists rings'. split; [done|].
  by apply (allocate_again _ _ _ E).
Qed.

Lemma all_rings_race_witness : ∃ rings, allocate_on_all (replicate 2 (taken new_data_ring 0)) 0 = Ok rings.
Proof.
  destruct (all_rings_race (data_set [110] 2) 0 (set_rings (data_set [110] 2) (replicate 2 (taken new_data_ring 0))))
    as [_ (rings & E & _)].
  - apply data_set_wf. unfold KDATA_MAX_RINGS_PER_SET. lia.
  - reflexivity.
  - done.
  - exists rings. exact E.
Defined.
