(* ===== verification/Avl.v ===== *)
(** * Balanced trees of the shuttle module: avl.c and avl.h

    The elements live in memory, linked by pointers; [els] is that memory.  The
    code of avl.c is translated store by store.  [avl_declare( name, type )]
    instantiates its two functions for a structure that embeds an element and a
    comparison; [container_of] is the identity on locations, and [keys] holds the
    other fields of the structures. *)

From S2P Require Import Prelude.

Abbreviation loc := positive (only parsing).
Abbreviation ptr := (option positive) (only parsing).

(** ** avl.h

    [prev] and [next] serve the walkable tree, which is compiled out. *)
Record avl_el := AvlEl {
  el_left : ptr;
  el_right : ptr;
  el_parent : ptr;
  el_height : Z;
}.

Record avl_tree := AvlTree {
  tree_root : ptr;
  tree_head : ptr;
  tree_tail : ptr;
  tree_size : Z;
}.

Definition tree_set_root (t : avl_tree) (p : ptr) : avl_tree := AvlTree p (tree_head t) (tree_tail t) (tree_size t).
Definition tree_set_head (t : avl_tree) (p : ptr) : avl_tree := AvlTree (tree_root t) p (tree_tail t) (tree_size t).
Definition tree_set_tail (t : avl_tree) (p : ptr) : avl_tree := AvlTree (tree_root t) (tree_head t) p (tree_size t).
Definition tree_set_size (t : avl_tree) (n : Z) : avl_tree := AvlTree (tree_root t) (tree_head t) (tree_tail t) n.

Abbreviation elmem := (gmap positive avl_el) (only parsing).

(** [p->...]: a null or dangling pointer is [Ub]. *)
Definition el_at (els : elmem) (p : ptr) : res avl_el :=
  l ← deref p;
  deref (els !! l).

Definition el_upd (els : elmem) (p : ptr) (f : avl_el → avl_el) : res elmem :=
  l ← deref p;
  e ← deref (els !! l);
  Ok (<[l := f e]> els).

Definition with_left (q : ptr) (e : avl_el) : avl_el := AvlEl q (el_right e) (el_parent e) (el_height e).
Definition with_right (q : ptr) (e : avl_el) : avl_el := AvlEl (el_left e) q (el_parent e) (el_height e).
Definition with_parent (q : ptr) (e : avl_el) : avl_el := AvlEl (el_left e) (el_right e) q (el_height e).
Definition with_height (h : Z) (e : avl_el) : avl_el := AvlEl (el_left e) (el_right e) (el_parent e) h.

(** [p ? p->height : 0] *)
Definition height_or_0 (els : elmem) (p : ptr) : res Z :=
  match p with
  | None => Ok 0
  | Some _ => e ← el_at els p; Ok (el_height e)
  end.

(** [(lheight > rheight ? lheight : rheight) + 1], a long. *)
Definition height_above (lheight rheight : Z) : Z :=
  i64 ((if rheight <? lheight then lheight else rheight) + 1).

(** ** avl.c *)

(** The loop of [find_first_unbal_gp]. *)
Fixpoint find_unbal_loop (fuel : nat) (els : elmem) (element gp : ptr) : res ptr :=
  match fuel with
  | O => Spin
  | S fuel =>
      match gp with
      | None => Ok None
      | Some _ =>
          g ← el_at els gp;
          lheight ← height_or_0 els (el_left g);
          rheight ← height_or_0 els (el_right g);
          let balanceProp := i64 (lheight - rheight) in
          if (balanceProp <? -1) || (1 <? balanceProp) then Ok element
          else
            e ← el_at els element;
            find_unbal_loop fuel els (el_parent e) (el_parent g)
      end
  end.

Definition find_first_unbal_gp (fuel : nat) (els : elmem) (element : ptr) : res ptr :=
  match element with
  | None => Ok None
  | Some _ =>
      e ← el_at els element;
      match el_parent e with
      | None => Ok None
      | Some _ =>
          p ← el_at els (el_parent e);
          match el_parent p with
          | None => Ok None
          | Some _ => find_unbal_loop fuel els element (el_parent p)
          end
      end
  end.

Fixpoint recalc_heights (fuel : nat) (els : elmem) (element : ptr) : res elmem :=
  match fuel with
  | O => Spin
  | S fuel =>
      match element with
      | None => Ok els
      | Some _ =>
          e ← el_at els element;
          lheight ← height_or_0 els (el_left e);
          rheight ← height_or_0 els (el_right e);
          let new_height := height_above lheight rheight in
          if new_height =? el_height e then Ok els
          else
            els ← el_upd els element (with_height new_height);
            e ← el_at els element;
            recalc_heights fuel els (el_parent e)
      end
  end.

(** [x->left = t; if ( t != 0 ) t->parent = x;] and the same on the right. *)
Definition tie_left (els : elmem) (x t : ptr) : res elmem :=
  els ← el_upd els x (with_left t);
  match t with None => Ok els | Some _ => el_upd els t (with_parent x) end.

Definition tie_right (els : elmem) (x t : ptr) : res elmem :=
  els ← el_upd els x (with_right t);
  match t with None => Ok els | Some _ => el_upd els t (with_parent x) end.

(** [x->height = max( x->left, x->right ) + 1] *)
Definition fix_height (els : elmem) (x : ptr) : res elmem :=
  e ← el_at els x;
  lheight ← height_or_0 els (el_left e);
  rheight ← height_or_0 els (el_right e);
  el_upd els x (with_height (height_above lheight rheight)).

(** The choice of [a], [b], [c] and [t1] to [t4]. *)
Record rotation := Rotation { rot_a : ptr; rot_b : ptr; rot_c : ptr;
  rot_t1 : ptr; rot_t2 : ptr; rot_t3 : ptr; rot_t4 : ptr }.

Definition choose_rotation (els : elmem) (n p gp : ptr) : res rotation :=
  en ← el_at els n;
  ep ← el_at els p;
  eg ← el_at els gp;
  if bool_decide (el_right eg = p) then
    if bool_decide (el_right ep = n)
    then Ok (Rotation gp p n (el_left eg) (el_left ep) (el_left en) (el_right en))
    else Ok (Rotation gp n p (el_left eg) (el_left en) (el_right en) (el_right ep))
  else
    if bool_decide (el_right ep = n)
    then Ok (Rotation p n gp (el_left ep) (el_left en) (el_right en) (el_right eg))
    else Ok (Rotation n p gp (el_left en) (el_right en) (el_right ep) (el_right eg)).

(** Tying [b] under [ggp], and [a] and [c] under [b]. *)
Definition tie_three (els : elmem) (ggp a b c : ptr) : res elmem :=
  els ← el_upd els b (with_parent ggp);
  els ← el_upd els b (with_left a);
  els ← el_upd els a (with_parent b);
  els ← el_upd els b (with_right c);
  el_upd els c (with_parent b).

(** The new heights of the three. *)
Definition fix_three (els : elmem) (a b c : ptr) : res elmem :=
  els ← fix_height els a;
  els ← fix_height els c;
  ea ← el_at els a;
  ec ← el_at els c;
  el_upd els b (with_height (height_above (el_height ea) (el_height ec))).

(** With the four subtrees, and the heights. *)
Definition rotate_links (els : elmem) (ggp a b c t1 t2 t3 t4 : ptr) : res elmem :=
  els ← tie_three els ggp a b c;
  els ← tie_left els a t1;
  els ← tie_right els a t2;
  els ← tie_left els c t3;
  els ← tie_right els c t4;
  fix_three els a b c.

(** Tying [b] to the great-grandparent, or to the tree. *)
Definition tie_above (els : elmem) (tree : avl_tree) (ggp gp b : ptr) : res (elmem * avl_tree) :=
  match ggp with
  | None => Ok (els, tree_set_root tree b)
  | Some _ =>
      egg ← el_at els ggp;
      els ← (if bool_decide (el_left egg = gp)
             then el_upd els ggp (with_left b)
             else el_upd els ggp (with_right b));
      Ok (els, tree)
  end.

Definition rebalance (fuel : nat) (els : elmem) (tree : avl_tree) (n : ptr)
    : res (ptr * elmem * avl_tree) :=
  en ← el_at els n;
  let p := el_parent en in
  ep ← el_at els p;
  let gp := el_parent ep in
  eg ← el_at els gp;
  let ggp := el_parent eg in
  '(Rotation a b c t1 t2 t3 t4) ← choose_rotation els n p gp;
  '(els, tree) ← tie_above els tree ggp gp b;
  els ← rotate_links els ggp a b c t1 t2 t3 t4;
  els ← recalc_heights fuel els ggp;
  Ok (ggp, els, tree).

(** A new element starts as a leaf with height 1. *)
Definition new_leaf (els : elmem) (element parentEl : ptr) : res elmem :=
  els ← el_upd els element (with_parent parentEl);
  els ← el_upd els element (with_left None);
  els ← el_upd els element (with_right None);
  el_upd els element (with_height 1).

(** The last step of the search went left exactly when [lastLess] is the parent. *)
Definition link_parent (els : elmem) (element parentEl lastLess : ptr) : res elmem :=
  if bool_decide (lastLess = parentEl)
  then el_upd els parentEl (with_left element)
  else el_upd els parentEl (with_right element).

(** The links of a new element, and the first and last pointers. *)
Definition attach (els : elmem) (tree : avl_tree) (element parentEl lastLess : ptr)
    : res (elmem * avl_tree) :=
  let tree := tree_set_size tree (i64 (tree_size tree + 1)) in
  els ← new_leaf els element parentEl;
  match parentEl with
  | Some _ =>
      els ← link_parent els element parentEl lastLess;
      eh ← el_at els (tree_head tree);
      let tree := if bool_decide (el_left eh = element) then tree_set_head tree element else tree in
      et ← el_at els (tree_tail tree);
      let tree := if bool_decide (el_right et = element) then tree_set_tail tree element else tree in
      Ok (els, tree)
  | None => Ok (els, tree_set_head (tree_set_tail (tree_set_root tree element) element) element)
  end.

Definition avl_attach_rebal (fuel : nat) (els : elmem) (tree : avl_tree)
    (element parentEl lastLess : ptr) : res (elmem * avl_tree) :=
  '(els, tree) ← attach els tree element parentEl lastLess;
  els ← recalc_heights fuel els parentEl;
  ub ← find_first_unbal_gp fuel els element;
  match ub with
  | None => Ok (els, tree)
  | Some _ => '(_, els, tree) ← rebalance fuel els tree ub; Ok (els, tree)
  end.

(** ** avl_declare *)

Section AvlDeclare.
Context {type : Type} (compare : type → type → Z).

(** [name##_find]: the location of the structure found, or null. *)
Fixpoint find_loop (fuel : nat) (els : elmem) (keys : gmap loc type) (element : type) (curEl : ptr)
    : res ptr :=
  match fuel with
  | O => Spin
  | S fuel =>
      match curEl with
      | None => Ok None
      | Some cur =>
          k ← deref (keys !! cur);
          let keyRelation := compare element k in
          e ← el_at els curEl;
          if keyRelation <? 0 then find_loop fuel els keys element (el_left e)
          else if 0 <? keyRelation then find_loop fuel els keys element (el_right e)
          else Ok (Some cur)
      end
  end.

Definition avl_find (fuel : nat) (els : elmem) (keys : gmap loc type) (tree : avl_tree)
    (element : type) : res ptr :=
  find_loop fuel els keys element (tree_root tree).

(** [name##_insert]: the element inserted, or null when the key is there; with it
    what is stored through [lastFound] if that is not null.  [n] is the fuel of
    the loops of [avl_attach_rebal]. *)
Fixpoint insert_loop (fuel n : nat) (els : elmem) (keys : gmap loc type) (tree : avl_tree)
    (element : loc) (curEl parentEl lastLess : ptr) : res (ptr * ptr * elmem * avl_tree) :=
  match fuel with
  | O => Spin
  | S fuel =>
      match curEl with
      | None =>
          '(els, tree) ← avl_attach_rebal n els tree (Some element) parentEl lastLess;
          Ok (Some element, Some element, els, tree)
      | Some cur =>
          x ← deref (keys !! element);
          k ← deref (keys !! cur);
          let keyRelation := compare x k in
          e ← el_at els curEl;
          if keyRelation <? 0 then insert_loop fuel n els keys tree element (el_left e) curEl curEl
          else if 0 <? keyRelation then insert_loop fuel n els keys tree element (el_right e) curEl lastLess
          else Ok (None, Some cur, els, tree)
      end
  end.

Definition avl_insert (fuel : nat) (els : elmem) (keys : gmap loc type) (tree : avl_tree)
    (element : loc) : res (ptr * ptr * elmem * avl_tree) :=
  insert_loop fuel fuel els keys tree element (tree_root tree) None None.
End AvlDeclare.
