(* ===== verification/AvlZip.v ===== *)
(** * Trees with a hole: what avl.c does, seen as trees

    avl.c walks up from the new element through parent pointers.  A place in a
    tree is here the subtree at that place and the list of [frame]s above it,
    innermost first.  The stored heights are part of the trees, because between
    two steps of the code they can be stale.  [recalc], [find_zip] and [rotate]
    are the loops and the rotation of avl.c on this representation, and
    [attach_balances] says that one rotation, at the place the code chooses, gives
    back a balanced tree. *)

From S2P Require Import Prelude Avl.

Inductive tree :=
  | Leaf
  | Node (h : Z) (l : tree) (p : loc) (r : tree).

(** The left child of [p], with [r] on the right; the right child of [p]. *)
Inductive frame :=
  | FL (h : Z) (p : loc) (r : tree)
  | FR (h : Z) (l : tree) (p : loc).

Definition ctx : Type := list frame.

Definition rt (t : tree) : ptr := match t with Leaf => None | Node _ _ p _ => Some p end.
Definition sh (t : tree) : Z := match t with Leaf => 0 | Node h _ _ _ => h end.
Fixpoint nodes (t : tree) : list loc :=
  match t with Leaf => [] | Node _ l p r => nodes l ++ p :: nodes r end.

Definition fp (f : frame) : loc := match f with FL _ p _ => p | FR _ _ p => p end.
Definition fh (f : frame) : Z := match f with FL h _ _ => h | FR h _ _ => h end.
Definition sib (f : frame) : tree := match f with FL _ _ r => r | FR _ l _ => l end.
Definition with_fh (f : frame) (h : Z) : frame :=
  match f with FL _ p r => FL h p r | FR _ l p => FR h l p end.
Definition kptr (k : ctx) : ptr := match k with [] => None | f :: _ => Some (fp f) end.

Definition close (f : frame) (t : tree) : tree :=
  match f with FL h p r => Node h t p r | FR h l p => Node h l p t end.
Fixpoint plug (k : ctx) (t : tree) : tree :=
  match k with [] => t | f :: k => plug k (close f t) end.

(** The nodes left and right of the hole. *)
Fixpoint kbefore (k : ctx) : list loc :=
  match k with
  | [] => []
  | FL _ _ _ :: k => kbefore k
  | FR _ l p :: k => kbefore k ++ nodes l ++ [p]
  end.
Fixpoint kafter (k : ctx) : list loc :=
  match k with
  | [] => []
  | FL _ p r :: k => p :: nodes r ++ kafter k
  | FR _ _ _ :: k => kafter k
  end.

Lemma nodes_plug k : ∀ t, nodes (plug k t) = kbefore k ++ nodes t ++ kafter k.
Proof.
  induction k as [|[h p r|h l p] k IH]; intros t; cbn; [by rewrite app_nil_r| |];
    rewrite IH; cbn; by rewrite <- !app_assoc; cbn; rewrite <- ?app_assoc.
Qed.

(** ** The steps of avl.c *)

Definition fheight (f : frame) (h : Z) : Z :=
  match f with FL _ _ r => height_above h (sh r) | FR _ l _ => height_above (sh l) h end.

Fixpoint recalc (k : ctx) (h : Z) : ctx :=
  match k with
  | [] => []
  | f :: k' =>
      let nh := fheight f h in
      if nh =? fh f then k else with_fh f nh :: recalc k' nh
  end.

Definition unbal (f : frame) (h : Z) : bool :=
  let b := match f with FL _ _ r => i64 (h - sh r) | FR _ l _ => i64 (sh l - h) end in
  (b <? -1) || (1 <? b).

Fixpoint find_zip (k : ctx) (t : tree) : option (ctx * tree) :=
  match k with
  | f0 :: (f1 :: _) as k' =>
      if unbal f1 (fh f0) then Some (k, t) else find_zip k' (close f0 t)
  | _ => None
  end.

Definition mknode (l : tree) (x : loc) (r : tree) : tree := Node (height_above (sh l) (sh r)) l x r.

(** [gp], [p] and [n] are the nodes of [f1], [f0] and the focus. *)
Definition rotate (f1 f0 : frame) (t : tree) : tree :=
  match t with
  | Leaf => Leaf
  | Node _ ln n rn =>
      match f1, f0 with
      | FR _ t1 gp, FR _ t2 p => mknode (mknode t1 gp t2) p (mknode ln n rn)
      | FR _ t1 gp, FL _ p t4 => mknode (mknode t1 gp ln) n (mknode rn p t4)
      | FL _ gp t4, FR _ t1 p => mknode (mknode t1 p ln) n (mknode rn gp t4)
      | FL _ gp t4, FL _ p t3 => mknode (mknode ln n rn) p (mknode t3 gp t4)
      end
  end.

(** The tree when [avl_attach_rebal] has gone through the hole of [k]. *)
Definition balance_zip (k : ctx) (t : tree) : tree :=
  match find_zip k t with
  | Some (f0 :: f1 :: k', t') => let b := rotate f1 f0 t' in plug (recalc k' (sh b)) b
  | _ => plug k t
  end.

Definition attached (k : ctx) (x : loc) : tree := balance_zip (recalc k 1) (Node 1 Leaf x Leaf).

(** ** Order *)

Lemma kbefore_recalc k : ∀ h, kbefore (recalc k h) = kbefore k ∧ kafter (recalc k h) = kafter k.
Proof.
  induction k as [|f k IH]; intros h; cbn; [done|]. destruct (_ =? _); [done|].
  destruct (IH (fheight f h)) as [E1 E2]. destruct f; cbn in *; by rewrite E1, E2.
Qed.

Lemma find_zip_plug k : ∀ t k' t',
  find_zip k t = Some (k', t') → plug k' t' = plug k t ∧ ∃ f0 f1 k2, k' = f0 :: f1 :: k2.
Proof.
  induction k as [|f0 [|f1 k] IH]; intros t k' t' E; [done|done|]. cbn [find_zip] in E.
  destruct (unbal f1 (fh f0)); [injection E as <- <-; eauto|].
  destruct (IH _ _ _ E) as [H1 H2]. done.
Qed.

Lemma nodes_rotate f1 f0 t : t ≠ Leaf → nodes (rotate f1 f0 t) = nodes (close f1 (close f0 t)).
Proof.
  intros H. destruct t as [|hn ln n rn], f1, f0; try done; cbn; by rewrite <- ?app_assoc; cbn; rewrite <- ?app_assoc.
Qed.

Lemma find_zip_node k : ∀ t k' t', t ≠ Leaf → find_zip k t = Some (k', t') → t' ≠ Leaf.
Proof.
  induction k as [|f0 [|f1 k] IH]; intros t k' t' Ht E; [done|done|]. cbn [find_zip] in E.
  destruct (unbal f1 (fh f0)); [by injection E as <- <-|].
  apply (IH (close f0 t) k' t'); [by destruct f0|exact E].
Qed.

Lemma nodes_balance k t : t ≠ Leaf → nodes (balance_zip k t) = nodes (plug k t).
Proof.
  intros Ht. unfold balance_zip. destruct (find_zip k t) as [[k' t']|] eqn:E; [|done].
  pose proof (find_zip_node _ _ _ _ Ht E) as Ht'.
  apply find_zip_plug in E as (E & f0 & f1 & k2 & ->). rewrite <- E. cbn [plug].
  rewrite !nodes_plug. destruct (kbefore_recalc k2 (sh (rotate f1 f0 t'))) as [-> ->].
  by rewrite nodes_rotate.
Qed.

Lemma nodes_attached k x : nodes (attached k x) = kbefore k ++ x :: kafter k.
Proof.
  unfold attached. rewrite nodes_balance by done. rewrite nodes_plug.
  by destruct (kbefore_recalc k 1) as [-> ->].
Qed.

(** ** Balance *)

Fixpoint avl (t : tree) : Prop :=
  match t with
  | Leaf => True
  | Node h l _ r => avl l ∧ avl r ∧ h = Z.max (sh l) (sh r) + 1 ∧ -1 ≤ sh l - sh r ≤ 1
  end.

(** A frame that is balanced around a subtree of height [h]; a context such that
    a balanced subtree of height [h] in its hole makes a balanced tree. *)
Definition favl (f : frame) (h : Z) : Prop :=
  avl (sib f) ∧ fh f = Z.max h (sh (sib f)) + 1 ∧ -1 ≤ h - sh (sib f) ≤ 1.

Fixpoint kavl (k : ctx) (h : Z) : Prop :=
  match k with [] => True | f :: k => favl f h ∧ kavl k (fh f) end.

(** Heights that a long holds, with room for two more. *)
Definition MAXH : Z := 2 ^ 63 - 3.
Definition kfits (k : ctx) : Prop := Forall (λ f, fh f ≤ MAXH) k.

Lemma avl_sh t : avl t → 0 ≤ sh t.
Proof. induction t as [|h l IHl p r IHr]; cbn; [done|]. intros (Al & Ar & -> & _). specialize (IHl Al). lia. Qed.

Lemma avl_size t : avl t → sh t ≤ Z.of_nat (length (nodes t)).
Proof.
  induction t as [|h l IHl p r IHr]; cbn; [done|]. intros (Al & Ar & -> & _).
  specialize (IHl Al). specialize (IHr Ar). rewrite length_app. cbn. lia.
Qed.

Lemma avl_close f t : favl f (sh t) → avl t → avl (close f t).
Proof. unfold favl. destruct f; cbn; intros (A & -> & B) At; split_and!; (done || lia). Qed.

Lemma avl_plug k : ∀ t, kavl k (sh t) → avl t → avl (plug k t).
Proof.
  induction k as [|f k IH]; intros t; cbn; [done|]. intros [F K] A. apply IH.
  - by destruct f.
  - by apply avl_close.
Qed.

Lemma plug_avl k : ∀ t, avl (plug k t) → avl t ∧ kavl k (sh t).
Proof.
  induction k as [|f k IH]; intros t H; cbn in *; [done|]. apply IH in H as [A K].
  unfold favl. destruct f as [h p r|h l p]; cbn in *; destruct A as (Al & Ar & E & B);
    split_and!; try done; lia.
Qed.

Lemma height_above_small l r : 0 ≤ l → 0 ≤ r → Z.max l r < 2 ^ 63 - 1 → height_above l r = Z.max l r + 1.
Proof.
  intros. unfold height_above.
  replace (if r <? l then l else r) with (Z.max l r) by (destruct (Z.ltb_spec r l); lia).
  apply wraps_small; [done|]. change (64 - 1) with 63. lia.
Qed.

Lemma fheight_small f h : 0 ≤ h → 0 ≤ sh (sib f) → Z.max h (sh (sib f)) < 2 ^ 63 - 1 →
  fheight f h = Z.max h (sh (sib f)) + 1.
Proof. intros. destruct f; cbn in *; rewrite height_above_small; lia. Qed.

Lemma out_of_range d : (d <? -1) || (1 <? d) = bool_decide (¬ (-1 ≤ d ≤ 1)).
Proof. destruct (Z.ltb_spec d (-1)), (Z.ltb_spec 1 d); cbn; case_bool_decide; try done; lia. Qed.

Lemma unbal_small f h : 0 ≤ h < 2 ^ 63 → 0 ≤ sh (sib f) < 2 ^ 63 →
  unbal f h = bool_decide (¬ (-1 ≤ h - sh (sib f) ≤ 1)).
Proof.
  intros H1 H2. unfold unbal.
  destruct f; cbn in *; rewrite wraps_small by (change (64 - 1) with 63; lia);
    rewrite out_of_range; apply bool_decide_ext; lia.
Qed.

(** Growth by one goes up to the first frame whose other side is higher; shrinking
    again undoes it. *)
Lemma recalc_same f k h : fheight f h = fh f → recalc (f :: k) h = f :: k.
Proof. intros E. cbn. by rewrite E, Z.eqb_refl. Qed.

Lemma recalc_other f k h : fheight f h ≠ fh f → recalc (f :: k) h = with_fh f (fheight f h) :: recalc k (fheight f h).
Proof. intros E. cbn. by rewrite (proj2 (Z.eqb_neq _ _) E). Qed.

Lemma fheight_with f h h' : fheight (with_fh f h') h = fheight f h.
Proof. by destruct f. Qed.
Lemma fh_with f h : fh (with_fh f h) = h.
Proof. by destruct f. Qed.
Lemma sib_with f h : sib (with_fh f h) = sib f.
Proof. by destruct f. Qed.
Lemma with_fh_fh f h h' : h' = fh f → with_fh (with_fh f h) h' = f.
Proof. intros ->. by destruct f. Qed.

Lemma favl_height f h : favl f h → 0 ≤ h → fh f ≤ MAXH → fheight f h = fh f.
Proof.
  intros (A & E & B) Hh Hm. unfold MAXH in *. pose proof (avl_sh _ A).
  rewrite fheight_small; lia.
Qed.

Lemma favl_grow f h : favl f h → 0 ≤ h → fh f ≤ MAXH →
  fheight f (h + 1) = if decide (h < sh (sib f)) then fh f else fh f + 1.
Proof.
  intros (A & E & B) Hh Hm. unfold MAXH in *. pose proof (avl_sh _ A).
  rewrite fheight_small by lia. case_decide; lia.
Qed.

Lemma recalc_undo k : ∀ h, kavl k h → kfits k → 0 ≤ h → recalc (recalc k (h + 1)) h = k.
Proof.
  induction k as [|f k IH]; intros h FK Fi Hh; [done|]. destruct FK as [F K]. apply Forall_cons in Fi as [Fm Fi].
  pose proof (favl_height f h F Hh Fm) as E0. pose proof (favl_grow f h F Hh Fm) as E1.
  case_decide.
  - rewrite (recalc_same f k (h + 1)) by done. by apply recalc_same.
  - rewrite (recalc_other f k (h + 1)) by lia. rewrite recalc_other.
    + rewrite fheight_with, E0, E1, with_fh_fh by done. f_equal. apply IH; [done|done|].
      destruct F as (A & ? & ?). pose proof (avl_sh _ A). lia.
    + rewrite fheight_with, fh_with. lia.
Qed.

(** In a balanced context nothing is found. *)
Lemma find_zip_balanced k : ∀ t f0,
  kavl k (fh f0) → kfits (f0 :: k) → 0 ≤ fh f0 → find_zip (f0 :: k) t = None.
Proof.
  induction k as [|f1 k IH]; intros t f0 K Fi H0; [done|].
  destruct K as [F K]. apply Forall_cons in Fi as [Fm0 Fi]. pose proof Fi as [Fm1 _]%Forall_cons.
  destruct F as (A & E & B). pose proof (avl_sh _ A) as Hs. cbn [find_zip].
  unfold MAXH in *. rewrite unbal_small by lia. rewrite bool_decide_false by tauto.
  apply IH; [done|done|lia].
Qed.

(** The rotation at a place that has become unbalanced: the subtree [t] under
    [f0] grew from [h] to [h]+1, and the other side of [f1] is two lower. *)
Lemma rotate_avl f1 f0 t h :
  avl t → sh t = h + 1 → 0 ≤ h ≤ MAXH - 2 → avl (sib f0) → sh (sib f0) = h → avl (sib f1) → sh (sib f1) = h →
  avl (rotate f1 f0 t) ∧ sh (rotate f1 f0 t) = h + 2.
Proof.
  unfold MAXH. intros At Et Hh A0 E0 A1 E1.
  destruct t as [|hn ln n rn]; [cbn in Et; lia|]. destruct At as (Al & Ar & -> & B). cbn [sh] in Et.
  pose proof (avl_sh _ Al). pose proof (avl_sh _ Ar).
  destruct f1, f0; cbn in *; rewrite !height_above_small by (rewrite ?height_above_small; lia);
    rewrite ?height_above_small by lia; split_and!; try done; lia.
Qed.

Lemma balance_zip_up f0 f1 k t :
  unbal f1 (fh f0) = false → balance_zip (f0 :: f1 :: k) t = balance_zip (f1 :: k) (close f0 t).
Proof. intros E. unfold balance_zip. cbn [find_zip]. by rewrite E. Qed.

Lemma balance_zip_none k t : find_zip k t = None → balance_zip k t = plug k t.
Proof. intros E. unfold balance_zip. by rewrite E. Qed.

(** [f0] with its new height, above a subtree that grew from [h] to [h]+1. *)
Lemma favl_grown f0 h : favl f0 h → sh (sib f0) = h → favl (with_fh f0 (fh f0 + 1)) (h + 1).
Proof. unfold favl. rewrite sib_with, fh_with. intros (A & E & B) Es. split; [done|lia]. Qed.

Lemma grown_balances k : ∀ f0 t h,
  avl t → sh t = h + 1 → 0 ≤ h → favl f0 h → sh (sib f0) = h → kavl k (fh f0) → kfits (f0 :: k) →
  avl (balance_zip (with_fh f0 (fh f0 + 1) :: recalc k (fh f0 + 1)) t).
Proof.
  induction k as [|f1 k IH]; intros f0 t h At Et Hh F0 Es K Fi.
  { rewrite balance_zip_none by done. apply avl_plug; [|done]. rewrite Et. split; [|done].
    by apply favl_grown. }
  destruct K as [F1 K]. pose proof Fi as [Fm0 [Fm1 _]%Forall_cons]%Forall_cons.
  assert (fh f0 = h + 1) as E0 by (destruct F0 as (_ & -> & _); lia).
  pose proof (avl_sh _ (proj1 F1)) as Hs. pose proof (favl_grow f1 (fh f0) F1 ltac:(lia) Fm1) as G.
  pose proof F1 as (A1 & E1 & B1). pose proof (favl_grown f0 h F0 Es) as F0'.
  set (f0' := with_fh f0 (fh f0 + 1)) in *.
  assert (fh f0' = fh f0 + 1) as E0' by apply fh_with.
  unfold MAXH in *. case_decide as Hd.
  - rewrite recalc_same by done. rewrite balance_zip_none.
    + apply avl_plug; [|done]. rewrite Et. split; [done|]. rewrite E0'. split; [|done].
      split; [done|lia].
    + cbn [find_zip]. rewrite unbal_small, bool_decide_false by lia.
      apply find_zip_balanced; [done|by apply Forall_cons in Fi as [_ Fi]|lia].
  - rewrite recalc_other by lia. rewrite G. destruct (decide (sh (sib f1) = h)) as [E|E].
    + unfold balance_zip. cbn [find_zip]. rewrite unbal_small, sib_with, bool_decide_true
        by (rewrite ?sib_with; lia).
      destruct (rotate_avl (with_fh f1 (fh f1 + 1)) f0' t h At Et) as [Ar Er];
        [unfold MAXH; lia|apply F0'|unfold f0'; by rewrite sib_with|by rewrite sib_with|by rewrite sib_with|].
      rewrite Er. replace (h + 2) with (fh f1) by lia.
      apply Forall_cons in Fi as [_ [_ Fi]%Forall_cons].
      rewrite recalc_undo by (done || lia). apply avl_plug; [|done].
      by replace (sh (rotate _ _ _)) with (fh f1) by lia.
    + rewrite balance_zip_up by (rewrite unbal_small, sib_with, bool_decide_false by (rewrite ?sib_with; lia); done).
      apply (IH f1 (close f0' t) (h + 1)); try done; [by apply avl_close; [rewrite Et|]|unfold f0'; destruct f0; cbn in *; lia|lia|by rewrite <- E0|lia|by apply Forall_cons in Fi as [_ Fi]].
Qed.

(** A new leaf in the hole of a balanced tree: after the recalculation and the one
    rotation of [avl_attach_rebal] the tree is balanced. *)
Lemma attach_balances k x : kavl k 0 → kfits k → avl (attached k x).
Proof.
  intros K Fi. unfold attached. set (t := Node 1 Leaf x Leaf).
  assert (avl t) as At by done. destruct k as [|f k]; [done|].
  destruct K as [F K]. pose proof Fi as [Fm _]%Forall_cons.
  pose proof (favl_grow f 0 F ltac:(done) Fm) as G. pose proof F as (A & E & B).
  pose proof (avl_sh _ A). change (0 + 1) with 1 in G. case_decide.
  - rewrite recalc_same by done. rewrite balance_zip_none by (apply find_zip_balanced; [done|done|lia]).
    apply avl_plug; [|done]. split; [|done]. split; [done|cbn; lia].
  - rewrite recalc_other, G by lia. apply (grown_balances k f t 0); try done; lia.
Qed.

(** The heights of a balanced tree fit if its number of nodes does. *)
Lemma kavl_fits k : ∀ t, avl (plug k t) → Z.of_nat (length (nodes (plug k t))) ≤ MAXH → kfits k.
Proof.
  induction k as [|f k IH]; intros t A L; [constructor|]. constructor; [|by apply (IH (close f t))].
  cbn [plug] in *. pose proof (plug_avl k _ A) as [Ac _]. pose proof (avl_size _ Ac) as S.
  rewrite nodes_plug, !length_app in L. destruct f; cbn [close sh fh] in *; lia.
Qed.
