(* ===== verification/AvlHeap.v ===== *)
(** * The memory of a tree

    [tree_at] says that memory holds a tree, parents and stored heights included,
    [zip_at] the same for a place in a tree.  Each function of avl.c is related to
    its counterpart of the previous file. *)

From S2P Require Import Prelude Avl AvlZip.

Fixpoint tree_at (els : elmem) (par : ptr) (t : tree) : Prop :=
  match t with
  | Leaf => True
  | Node h l p r =>
      els !! p = Some (AvlEl (rt l) (rt r) par h) ∧ tree_at els (Some p) l ∧ tree_at els (Some p) r
  end.

(** The element of the frame [f] when [c] is in its hole and [par] above it. *)
Definition frame_el (f : frame) (c par : ptr) : avl_el :=
  match f with
  | FL h p r => AvlEl c (rt r) par h
  | FR h l p => AvlEl (rt l) c par h
  end.

Fixpoint ctx_at (els : elmem) (k : ctx) (c : ptr) : Prop :=
  match k with
  | [] => True
  | f :: k =>
      els !! fp f = Some (frame_el f c (kptr k)) ∧ tree_at els (Some (fp f)) (sib f) ∧
      ctx_at els k (Some (fp f))
  end.

Definition zip_at (els : elmem) (k : ctx) (t : tree) : Prop :=
  tree_at els (kptr k) t ∧ ctx_at els k (rt t).

Fixpoint knodes (k : ctx) : list loc :=
  match k with [] => [] | f :: k => fp f :: nodes (sib f) ++ knodes k end.

(** Memory changed only at [S]. *)
Definition only (S : list loc) (els els' : elmem) : Prop := ∀ y, y ∉ S → els' !! y = els !! y.

Lemma only_refl S els : only S els els.
Proof. done. Qed.

Lemma only_trans S els1 els2 els3 : only S els1 els2 → only S els2 els3 → only S els1 els3.
Proof. intros H1 H2 y Hy. by rewrite H2, H1. Qed.

Lemma only_mono S S' els els' : S ⊆ S' → only S els els' → only S' els els'.
Proof. intros HS H y Hy. apply H. set_solver. Qed.

Lemma only_insert x els e : only [x] els (<[x := e]> els).
Proof. intros y Hy. apply lookup_insert_ne. set_solver. Qed.

Lemma tree_at_only els els' S t : ∀ par,
  only S els els' → (∀ x, x ∈ nodes t → x ∉ S) → tree_at els par t → tree_at els' par t.
Proof.
  induction t as [|h l IHl p r IHr]; intros par O D; cbn in *; [done|].
  intros (E & Hl & Hr). split_and!.
  - rewrite (O p); [done|]. apply D. set_solver.
  - apply IHl; [done|set_solver|done].
  - apply IHr; [done|set_solver|done].
Qed.

Lemma ctx_at_only els els' S k : ∀ c,
  only S els els' → (∀ x, x ∈ knodes k → x ∉ S) → ctx_at els k c → ctx_at els' k c.
Proof.
  induction k as [|f k IH]; intros c O D; cbn in *; [done|].
  intros (E & Hs & Hk). split_and!.
  - rewrite (O (fp f)); [done|]. apply D. set_solver.
  - apply (tree_at_only els els' S); [done|set_solver|done].
  - apply IH; [done|set_solver|done].
Qed.

Lemma rt_close f t : rt (close f t) = Some (fp f).
Proof. by destruct f. Qed.

Lemma zip_close els f k t : zip_at els (f :: k) t ↔ zip_at els k (close f t).
Proof. unfold zip_at. rewrite rt_close. destruct f; cbn; tauto. Qed.

Lemma zip_plug els k : ∀ t, tree_at els None (plug k t) ↔ zip_at els k t.
Proof.
  induction k as [|f k IH]; intros t; cbn [plug]; [unfold zip_at; cbn; tauto|].
  by rewrite IH, zip_close.
Qed.

Lemma nodes_close f t : nodes (close f t) ≡ₚ fp f :: nodes t ++ nodes (sib f).
Proof. destruct f; cbn; solve_Permutation. Qed.

Lemma knodes_plug k : ∀ t, nodes (plug k t) ≡ₚ nodes t ++ knodes k.
Proof.
  induction k as [|f k IH]; intros t; cbn; [by rewrite app_nil_r|].
  rewrite IH, nodes_close. cbn. rewrite <- app_assoc. solve_Permutation.
Qed.

Lemma kptr_recalc k h : kptr (recalc k h) = kptr k.
Proof. destruct k as [|f k]; cbn; [done|]. destruct (_ =? _); [done|]. by destruct f. Qed.

Lemma knodes_recalc k : ∀ h, knodes (recalc k h) = knodes k.
Proof.
  induction k as [|f k IH]; intros h; cbn; [done|]. destruct (_ =? _); [done|]. cbn.
  rewrite IH. by destruct f.
Qed.

(** ** Single accesses *)

Lemma el_at_ok els x e : els !! x = Some e → el_at els (Some x) = Ok e.
Proof. intros E. unfold el_at. cbn. by rewrite E. Qed.

Lemma el_upd_ok els x e f : els !! x = Some e → el_upd els (Some x) f = Ok (<[x := f e]> els).
Proof. intros E. unfold el_upd. cbn. by rewrite E. Qed.

Lemma height_ok els par t : tree_at els par t → height_or_0 els (rt t) = Ok (sh t).
Proof.
  destruct t as [|h l p r]; cbn [rt sh]; [done|]. intros (E & _). unfold height_or_0.
  by rewrite (el_at_ok _ _ _ E).
Qed.

Lemma frame_parent f c par : el_parent (frame_el f c par) = par.
Proof. by destruct f. Qed.

Lemma frame_height f c par : el_height (frame_el f c par) = fh f.
Proof. by destruct f. Qed.

Lemma sh_close f t : sh (close f t) = fh f.
Proof. by destruct f. Qed.

Lemma fp_with f h : fp (with_fh f h) = fp f.
Proof. by destruct f. Qed.

(** ** recalc_heights *)

Lemma frame_heights els f c par t :
  tree_at els (Some (fp f)) (sib f) → height_or_0 els c = Ok (sh t) →
  ∃ lh rh, height_or_0 els (el_left (frame_el f c par)) = Ok lh ∧
    height_or_0 els (el_right (frame_el f c par)) = Ok rh ∧
    height_above lh rh = fheight f (sh t) ∧
    (let b := i64 (lh - rh) in (b <? -1) || (1 <? b)) = unbal f (sh t).
Proof.
  intros Hs Ht. pose proof (height_ok _ _ _ Hs) as E.
  destruct f; cbn in *; eexists _, _; split_and!; (done || by rewrite ?E, ?Ht).
Qed.

Lemma zip_set_height els f k t h :
  NoDup (nodes t ++ knodes (f :: k)) → zip_at els (f :: k) t →
  zip_at (<[fp f := with_height h (frame_el f (rt t) (kptr k))]> els) (with_fh f h :: k) t.
Proof.
  intros ND [T (E & Hs & Hk)]. cbn [knodes] in ND.
  apply NoDup_app in ND as (_ & D1 & [D2 ND]%NoDup_cons).
  pose proof (only_insert (fp f) els (with_height h (frame_el f (rt t) (kptr k)))) as O.
  split; [|cbn [ctx_at]; split_and!]; cbn [kptr]; rewrite ?fp_with, ?sib_with.
  - apply (tree_at_only els _ _ _ _ O); [set_solver|done].
  - rewrite lookup_insert_eq. by destruct f.
  - apply (tree_at_only els _ _ _ _ O); [set_solver|done].
  - apply (ctx_at_only els _ _ _ _ O); [set_solver|done].
Qed.

Lemma recalc_heights_ok k : ∀ els t fuel,
  NoDup (nodes t ++ knodes k) → zip_at els k t → (length k < fuel)%nat →
  ∃ els', recalc_heights fuel els (kptr k) = Ok els' ∧ zip_at els' (recalc k (sh t)) t ∧
    only (knodes k) els els'.
Proof.
  induction k as [|f k IH]; intros els t [|fuel] ND Z L; try (cbn in L; lia).
  { exists els. by split_and!. }
  pose proof Z as [T (E & Hs & Hk)]. cbn [recalc_heights kptr].
  step_with (el_at_ok _ _ _ E).
  destruct (frame_heights els f (rt t) (kptr k) t Hs (height_ok _ _ _ T)) as (lh & rh & -> & -> & EH & _).
  rewrite !bind_Ok, EH, frame_height.
  cbn [recalc]. destruct (Z.eqb_spec (fheight f (sh t)) (fh f)) as [Eh|Nh]; [by exists els|].
  rewrite (el_upd_ok _ _ _ _ E), bind_Ok.
  pose proof (zip_set_height els f k t (fheight f (sh t)) ND Z) as Z'.
  erewrite el_at_ok by apply lookup_insert_eq. rewrite bind_Ok.
  change (el_parent (with_height _ ?e)) with (el_parent e). rewrite frame_parent.
  apply zip_close in Z'.
  set (nh := fheight f (sh t)) in *.
  set (els1 := <[fp f := with_height nh (frame_el f (rt t) (kptr k))]> els) in *.
  destruct (IH els1 (close (with_fh f nh) t) fuel) as (els' & E' & Z2 & O).
  - rewrite nodes_close, sib_with, fp_with. eapply NoDup_perm; [|exact ND]. cbn [knodes].
    solve_Permutation.
  - exact Z'.
  - cbn in L. lia.
  - exists els'. split; [done|]. rewrite sh_close, fh_with in Z2.
    split; [by apply zip_close|]. apply (only_trans _ _ els1).
    + eapply only_mono; [|apply only_insert]. set_solver.
    + eapply only_mono; [|exact O]. set_solver.
Qed.

(** ** find_first_unbal_gp *)

Definition found (o : option (ctx * tree)) : ptr :=
  match o with Some (_, t) => rt t | None => None end.

Lemma find_unbal_loop_ok k : ∀ els f0 t fuel,
  t ≠ Leaf → zip_at els (f0 :: k) t → (length k < fuel)%nat →
  find_unbal_loop fuel els (rt t) (kptr k) = Ok (found (find_zip (f0 :: k) t)).
Proof.
  induction k as [|f1 k IH]; intros els f0 t [|fuel] Ht Z L; try (cbn in L; lia); [done|].
  pose proof Z as [T (E0 & Hs0 & (E1 & Hs1 & Hk))]. cbn [find_unbal_loop kptr].
  step_with (el_at_ok _ _ _ E1).
  assert (height_or_0 els (Some (fp f0)) = Ok (sh (close f0 t))) as Hc.
  { unfold height_or_0. rewrite (el_at_ok _ _ _ E0). by destruct f0. }
  destruct (frame_heights els f1 (Some (fp f0)) (kptr k) (close f0 t) Hs1 Hc) as (lh & rh & -> & -> & _ & EU).
  rewrite !bind_Ok. cbn zeta in EU. rewrite EU. rewrite sh_close.
  cbn [find_zip]. destruct (unbal f1 (fh f0)); [done|].
  destruct t as [|hn ln n rn]; [done|]. destruct T as (En & _). cbn [rt].
  step_with (el_at_ok _ _ _ En). rewrite frame_parent. cbn [el_parent kptr].
  rewrite <- (rt_close f0 (Node hn ln n rn)). apply zip_close in Z. apply IH; [by destruct f0|done|cbn in L; lia].
Qed.

Lemma find_first_unbal_gp_ok els k t fuel :
  t ≠ Leaf → zip_at els k t → (length k < fuel)%nat →
  find_first_unbal_gp fuel els (rt t) = Ok (found (find_zip k t)).
Proof.
  intros Ht Z L. destruct t as [|hn ln n rn]; [done|]. pose proof Z as [(En & _) Hk].
  unfold find_first_unbal_gp. cbn [rt]. step_with (el_at_ok _ _ _ En). cbn [el_parent].
  destruct k as [|f0 k]; [done|]. cbn [kptr]. destruct Hk as (E0 & _).
  step_with (el_at_ok _ _ _ E0). rewrite frame_parent.
  destruct (kptr k) eqn:Ek; [|by destruct k].
  rewrite <- Ek. change (Some n) with (rt (Node hn ln n rn)).
  apply find_unbal_loop_ok; [done|done|cbn in L; lia].
Qed.

(** ** The rotation *)

Lemma reparent_ok els q t p : tree_at els q t → NoDup (nodes t) →
  ∃ els', match rt t with None => Ok els | Some _ => el_upd els (rt t) (with_parent p) end = Ok els' ∧
    tree_at els' p t ∧ only (nodes t) els els'.
Proof.
  destruct t as [|h l x r]; intros T ND; cbn [rt]; [by exists els|].
  destruct T as (E & Tl & Tr). cbn [nodes] in ND.
  apply NoDup_app in ND as (_ & Dl & [Dr _]%NoDup_cons).
  rewrite (el_upd_ok _ _ _ _ E). eexists. split; [done|]. split; [|apply (only_mono [x]); [set_solver|apply only_insert]].
  split_and!.
  - by rewrite lookup_insert_eq.
  - apply (tree_at_only els _ [x]); [apply only_insert|set_solver|done].
  - apply (tree_at_only els _ [x]); [apply only_insert|set_solver|done].
Qed.

Lemma tie_left_ok els x e q t : els !! x = Some e → tree_at els q t → NoDup (x :: nodes t) →
  ∃ els', tie_left els (Some x) (rt t) = Ok els' ∧ els' !! x = Some (with_left (rt t) e) ∧
    tree_at els' (Some x) t ∧ only (x :: nodes t) els els'.
Proof.
  intros E T [Hx ND]%NoDup_cons. unfold tie_left. rewrite (el_upd_ok _ _ _ _ E), bind_Ok.
  pose proof (only_insert x els (with_left (rt t) e)) as O.
  destruct (reparent_ok (<[x := with_left (rt t) e]> els) q t (Some x)) as (els' & -> & T' & O');
    [by apply (tree_at_only els _ _ _ _ O); [set_solver|]|done|].
  exists els'. split; [done|]. split; [by rewrite (O' x Hx), lookup_insert_eq|]. split; [done|].
  eapply only_trans; eapply only_mono; [|exact O| |exact O']; set_solver.
Qed.

Lemma tie_right_ok els x e q t : els !! x = Some e → tree_at els q t → NoDup (x :: nodes t) →
  ∃ els', tie_right els (Some x) (rt t) = Ok els' ∧ els' !! x = Some (with_right (rt t) e) ∧
    tree_at els' (Some x) t ∧ only (x :: nodes t) els els'.
Proof.
  intros E T [Hx ND]%NoDup_cons. unfold tie_right. rewrite (el_upd_ok _ _ _ _ E), bind_Ok.
  pose proof (only_insert x els (with_right (rt t) e)) as O.
  destruct (reparent_ok (<[x := with_right (rt t) e]> els) q t (Some x)) as (els' & -> & T' & O');
    [by apply (tree_at_only els _ _ _ _ O); [set_solver|]|done|].
  exists els'. split; [done|]. split; [by rewrite (O' x Hx), lookup_insert_eq|]. split; [done|].
  eapply only_trans; eapply only_mono; [|exact O| |exact O']; set_solver.
Qed.

(** One of the lower two nodes of the rotation, tied and with its height. *)
Lemma tie_node_ok els x e q1 q2 t1 t2 :
  els !! x = Some e → tree_at els q1 t1 → tree_at els q2 t2 → NoDup (x :: nodes t1 ++ nodes t2) →
  ∃ els1 els', tie_left els (Some x) (rt t1) = Ok els1 ∧ tie_right els1 (Some x) (rt t2) = Ok els' ∧
    els' !! x = Some (AvlEl (rt t1) (rt t2) (el_parent e) (el_height e)) ∧
    tree_at els' (Some x) t1 ∧ tree_at els' (Some x) t2 ∧ only (x :: nodes t1 ++ nodes t2) els els'.
Proof.
  intros E T1 T2 [Hx (N1 & D & N2)%NoDup_app]%NoDup_cons.
  destruct (tie_left_ok els x e q1 t1 E T1) as (els1 & Et1 & E1 & T1' & O1).
  { apply NoDup_cons. split; [set_solver|done]. }
  destruct (tie_right_ok els1 x _ q2 t2 E1) as (els2 & Et2 & E2 & T2' & O2).
  { apply (tree_at_only els _ _ _ _ O1); [set_solver|done]. }
  { apply NoDup_cons. split; [set_solver|done]. }
  exists els1, els2. split_and!; try done.
  - apply (tree_at_only els1 _ _ _ _ O2); [set_solver|done].
  - eapply only_trans; eapply only_mono; [|exact O1| |exact O2]; set_solver.
Qed.

Lemma fix_height_ok els x e q1 q2 t1 t2 :
  els !! x = Some e → el_left e = rt t1 → el_right e = rt t2 → tree_at els q1 t1 → tree_at els q2 t2 →
  fix_height els (Some x) = Ok (<[x := with_height (height_above (sh t1) (sh t2)) e]> els).
Proof.
  intros E El Er T1 T2. unfold fix_height. step_with (el_at_ok _ _ _ E). rewrite El, Er.
  rewrite (height_ok _ _ _ T1), (height_ok _ _ _ T2), !bind_Ok. by apply el_upd_ok.
Qed.

(** The three nodes of the rotation, before their subtrees are tied. *)
Lemma tie_three_ok els ggp a b c ea eb ec :
  els !! a = Some ea → els !! b = Some eb → els !! c = Some ec → NoDup [a; b; c] →
  ∃ els', tie_three els ggp (Some a) (Some b) (Some c) = Ok els' ∧
    els' !! a = Some (with_parent (Some b) ea) ∧ els' !! c = Some (with_parent (Some b) ec) ∧
    els' !! b = Some (AvlEl (Some a) (Some c) ggp (el_height eb)) ∧ only [a; b; c] els els'.
Proof.
  intros Ea Eb Ec ND. assert (a ≠ b ∧ a ≠ c ∧ b ≠ c) as (Hab & Hac & Hbc).
  { rewrite !NoDup_cons in ND. set_solver. }
  unfold tie_three. rewrite (el_upd_ok _ _ _ _ Eb), bind_Ok.
  erewrite el_upd_ok by apply lookup_insert_eq. rewrite bind_Ok, insert_insert_eq.
  erewrite (el_upd_ok _ a) by (by rewrite lookup_insert_ne). rewrite bind_Ok.
  erewrite (el_upd_ok _ b) by (rewrite lookup_insert_ne by done; apply lookup_insert_eq). rewrite bind_Ok.
  erewrite (el_upd_ok _ c) by (by rewrite !lookup_insert_ne). eexists. split; [done|]. split_and!.
  - by rewrite !(lookup_insert_ne _ _ a), lookup_insert_eq by done.
  - apply lookup_insert_eq.
  - by rewrite (lookup_insert_ne _ c b), lookup_insert_eq by done.
  - intros y Hy. rewrite !lookup_insert_ne by set_solver. done.
Qed.

(** The nodes of a rotation are apart. *)
Lemma rot_parts (a b c : positive) (A C : list positive) :
  NoDup (b :: (a :: A) ++ (c :: C)) →
  NoDup (a :: A) ∧ NoDup (c :: C) ∧ NoDup [a; b; c] ∧
  (∀ x, x ∈ A → (x ∉ [a; b; c]) ∧ (x ∉ c :: C)) ∧ (∀ x, x ∈ C → (x ∉ [a; b; c]) ∧ (x ∉ a :: A)) ∧
  (b ∉ a :: A) ∧ (b ∉ c :: C) ∧ (a ∉ c :: C) ∧ (c ∉ a :: A).
Proof.
  intros [Hb (NA & D & NC)%NoDup_app]%NoDup_cons.
  pose proof NA as [HA _]%NoDup_cons. pose proof NC as [HC _]%NoDup_cons.
  apply not_elem_of_app in Hb as [HbA HbC]. pose proof HbA as [Hba _]%not_elem_of_cons.
  pose proof HbC as [Hbc _]%not_elem_of_cons.
  assert (a ∉ (c :: C)) as HaC by (apply D; by left). pose proof HaC as [Hac _]%not_elem_of_cons.
  assert (c ∉ (a :: A)) as HcA by (intros X; apply (D c X); by left).
  split_and!; try done.
  - apply NoDup_cons. split; [set_solver|]. apply NoDup_cons. split; [set_solver|]. apply NoDup_singleton.
  - intros x Hx. split; [|apply D; by right]. rewrite !not_elem_of_cons.
    split_and!; [by intros ->|intros ->; apply HbA; by right|intros ->; apply HcA; by right|apply not_elem_of_nil].
  - intros x Hx. split; [|intros X; apply (D x X); by right]. rewrite !not_elem_of_cons.
    split_and!; [intros ->; apply HaC; by right|intros ->; apply HbC; by right|by intros ->|apply not_elem_of_nil].
Qed.

Lemma fix_three_ok els ggp a b c ha hb hc t1 t2 t3 t4 :
  els !! a = Some (AvlEl (rt t1) (rt t2) (Some b) ha) → els !! b = Some (AvlEl (Some a) (Some c) ggp hb) →
  els !! c = Some (AvlEl (rt t3) (rt t4) (Some b) hc) → NoDup [a; b; c] →
  tree_at els (Some a) t1 → tree_at els (Some a) t2 → tree_at els (Some c) t3 → tree_at els (Some c) t4 →
  (∀ x, x ∈ nodes t1 ++ nodes t2 → x ∉ [a; b; c]) → (∀ x, x ∈ nodes t3 ++ nodes t4 → x ∉ [a; b; c]) →
  ∃ els', fix_three els (Some a) (Some b) (Some c) = Ok els' ∧
    tree_at els' ggp (mknode (mknode t1 a t2) b (mknode t3 c t4)) ∧ only [a; b; c] els els'.
Proof.
  intros Ea Eb Ec ND T1 T2 T3 T4 DA DC.
  assert (a ≠ b ∧ a ≠ c ∧ b ≠ c) as (Hab & Hac & Hbc) by (rewrite !NoDup_cons in ND; set_solver).
  unfold fix_three. rewrite (fix_height_ok els a _ _ _ t1 t2 Ea) by done. rewrite bind_Ok.
  set (els1 := <[a := _]> els).
  assert (∀ q t, tree_at els q t → (∀ x, x ∈ nodes t → x ∉ [a; b; c]) → tree_at els1 q t) as C1.
  { intros q t T D. apply (tree_at_only els _ [a]); [apply only_insert| |done].
    intros x Hx Hxa. apply (D x Hx). set_solver. }
  assert (els1 !! c = els !! c) as Ec1 by (by apply lookup_insert_ne). rewrite Ec in Ec1.
  rewrite (fix_height_ok els1 c _ (Some c) (Some c) t3 t4 Ec1); try done;
    [|by apply C1; [|intros x Hx; apply DC, elem_of_app; tauto]..].
  rewrite bind_Ok.
  erewrite (el_at_ok _ a) by (rewrite lookup_insert_ne by done; apply lookup_insert_eq). rewrite bind_Ok.
  erewrite (el_at_ok _ c) by apply lookup_insert_eq. rewrite bind_Ok.
  erewrite (el_upd_ok _ b) by (unfold els1; rewrite !lookup_insert_ne by done; exact Eb).
  eexists. split; [done|]. set (els3 := <[b := _]> _).
  assert (only [a; b; c] els els3) as O
    by (intros y Hy; unfold els3, els1; rewrite !lookup_insert_ne by set_solver; done).
  split; [|done].
  assert (∀ q t, tree_at els q t → (∀ x, x ∈ nodes t → x ∉ [a; b; c]) → tree_at els3 q t) as C3
    by (intros; by apply (tree_at_only els els3 [a; b; c])).
  cbn [mknode tree_at rt sh]. split_and!;
    try (apply C3; [done|intros x Hx; first [apply DA, elem_of_app; tauto|apply DC, elem_of_app; tauto]]).
  - unfold els3. by rewrite lookup_insert_eq.
  - unfold els3, els1. by rewrite !(lookup_insert_ne _ _ a), lookup_insert_eq by done.
  - unfold els3. by rewrite (lookup_insert_ne _ b c), lookup_insert_eq by done.
Qed.

Lemma rotate_links_ok els ggp a b c ea eb ec q1 q2 q3 q4 t1 t2 t3 t4 :
  els !! a = Some ea → els !! b = Some eb → els !! c = Some ec →
  tree_at els q1 t1 → tree_at els q2 t2 → tree_at els q3 t3 → tree_at els q4 t4 →
  NoDup (b :: (a :: nodes t1 ++ nodes t2) ++ (c :: nodes t3 ++ nodes t4)) →
  ∃ els', rotate_links els ggp (Some a) (Some b) (Some c) (rt t1) (rt t2) (rt t3) (rt t4) = Ok els' ∧
    tree_at els' ggp (mknode (mknode t1 a t2) b (mknode t3 c t4)) ∧
    only (b :: (a :: nodes t1 ++ nodes t2) ++ (c :: nodes t3 ++ nodes t4)) els els'.
Proof.
  intros Ea Eb Ec T1 T2 T3 T4 (NA & NC & Nabc & DA & DC & HbA & HbC & HaC & HcA)%rot_parts.
  destruct (tie_three_ok els ggp a b c ea eb ec Ea Eb Ec Nabc) as (els1 & E1 & Ea1 & Ec1 & Eb1 & O1).
  unfold rotate_links. rewrite E1, bind_Ok.
  assert (∀ q t, tree_at els q t → (∀ x, x ∈ nodes t → x ∉ [a; b; c]) → tree_at els1 q t) as C1
    by (intros; by apply (tree_at_only els els1 [a; b; c])).
  apply C1 in T1, T2, T3, T4; try (intros x Hx; first [apply DA, elem_of_app; tauto|apply DC, elem_of_app; tauto]).
  destruct (tie_node_ok els1 a _ q1 q2 t1 t2 Ea1 T1 T2 NA) as (els2 & els3 & -> & E3 & Ea3 & T1' & T2' & O3).
  rewrite bind_Ok, E3, bind_Ok.
  apply (tree_at_only _ _ _ _ _ O3) in T3, T4; try (intros x Hx; apply DC; apply elem_of_app; tauto).
  rewrite <- (O3 c HcA) in Ec1. rewrite <- (O3 b HbA) in Eb1.
  destruct (tie_node_ok els3 c _ q3 q4 t3 t4 Ec1 T3 T4 NC) as (els4 & els5 & -> & E5 & Ec5 & T3' & T4' & O5).
  rewrite bind_Ok, E5, bind_Ok.
  apply (tree_at_only _ _ _ _ _ O5) in T1', T2'; try (intros x Hx; apply DA; apply elem_of_app; tauto).
  rewrite <- (O5 a HaC) in Ea3. rewrite <- (O5 b HbC) in Eb1.
  destruct (fix_three_ok els5 ggp a b c _ _ _ t1 t2 t3 t4 Ea3 Eb1 Ec5) as (els6 & E6 & T6 & O6);
    try done; try (intros x Hx; first [by apply DA|by apply DC]).
  exists els6. split; [done|]. split; [done|].
  apply (only_trans _ _ els1); [apply (only_mono [a; b; c]); [set_solver|done]|].
  apply (only_trans _ _ els3); [eapply only_mono; [|exact O3]; set_solver|].
  apply (only_trans _ _ els5); [eapply only_mono; [|exact O5]; set_solver|].
  apply (only_mono [a; b; c]); [set_solver|done].
Qed.

(** ** rebalance *)

Lemma tie_above_ok els tree k gp b :
  ctx_at els k (Some gp) → gp ∉ knodes k → NoDup (knodes k) →
  ∃ els', tie_above els tree (kptr k) (Some gp) (Some b) =
      Ok (els', if k is [] then tree_set_root tree (Some b) else tree) ∧
    ctx_at els' k (Some b) ∧ only (knodes k) els els'.
Proof.
  intros Hk Hg ND. destruct k as [|f k]; [by exists els|]. destruct Hk as (E & Hs & Hk).
  cbn [knodes] in *. apply NoDup_cons in ND as [Hf ND].
  assert (bool_decide (el_left (frame_el f (Some gp) (kptr k)) = Some gp) = if f is FL _ _ _ then true else false) as B.
  { destruct f as [h p r|h l p]; cbn; [by apply bool_decide_true|]. apply bool_decide_false.
    intros X. apply Hg. right. apply elem_of_app. left. destruct l; cbn in X; [done|].
    injection X as ->. cbn. set_solver. }
  unfold tie_above. cbn [kptr]. step_with (el_at_ok _ _ _ E). rewrite B.
  exists (<[fp f := frame_el f (Some b) (kptr k)]> els). split; [|split; [|by eapply only_mono; [|apply only_insert]; set_solver]].
  - destruct f; by rewrite (el_upd_ok _ _ _ _ E).
  - split_and!; [apply lookup_insert_eq| |].
    + apply (tree_at_only els _ [fp f]); [apply only_insert|set_solver|done].
    + apply (ctx_at_only els _ [fp f]); [apply only_insert|set_solver|done].
Qed.

(** The four ways to choose the nodes and subtrees of a rotation. *)
Definition rot_trees (f1 f0 : frame) (ln : tree) (n : positive) (rn : tree)
    : positive * positive * positive * (tree * tree * tree * tree) :=
  match f1, f0 with
  | FR _ t1 gp, FR _ t2 p => (gp, p, n, (t1, t2, ln, rn))
  | FR _ t1 gp, FL _ p t4 => (gp, n, p, (t1, ln, rn, t4))
  | FL _ gp t4, FR _ t1 p => (p, n, gp, (t1, ln, rn, t4))
  | FL _ gp t4, FL _ p t3 => (n, p, gp, (ln, rn, t3, t4))
  end.

Lemma rotate_trees f1 f0 h ln n rn :
  let '(a, b, c, (t1, t2, t3, t4)) := rot_trees f1 f0 ln n rn in
  rotate f1 f0 (Node h ln n rn) = mknode (mknode t1 a t2) b (mknode t3 c t4) ∧
  b :: (a :: nodes t1 ++ nodes t2) ++ (c :: nodes t3 ++ nodes t4) ≡ₚ nodes (close f1 (close f0 (Node h ln n rn))).
Proof. destruct f1, f0; cbn; (split; [done|solve_Permutation]). Qed.

Lemma rt_not t x : x ∉ nodes t → rt t ≠ Some x.
Proof. destruct t; cbn; [done|]. intros H [= ->]. set_solver. Qed.

Lemma choose_rotation_ok els f1 f0 k h ln n rn :
  zip_at els (f0 :: f1 :: k) (Node h ln n rn) →
  NoDup (nodes (close f1 (close f0 (Node h ln n rn)))) →
  let '(a, b, c, (t1, t2, t3, t4)) := rot_trees f1 f0 ln n rn in
  choose_rotation els (Some n) (Some (fp f0)) (Some (fp f1)) =
    Ok (Rotation (Some a) (Some b) (Some c) (rt t1) (rt t2) (rt t3) (rt t4)).
Proof.
  intros [(En & _) (E0 & _ & E1 & _)] ND. unfold choose_rotation.
  rewrite (el_at_ok _ _ _ En), (el_at_ok _ _ _ E0), (el_at_ok _ _ _ E1), !bind_Ok.
  assert ((n ∉ nodes (sib f0)) ∧ (fp f0 ∉ nodes (sib f1))) as [N0 N1].
  { rewrite nodes_close, nodes_close, NoDup_cons, <- app_comm_cons, NoDup_cons, NoDup_app, NoDup_app in ND.
    destruct ND as (_ & H0 & (_ & Hn & _) & _). split; [apply Hn; cbn; set_solver|set_solver]. }
  apply rt_not in N0, N1.
  destruct f1, f0; cbn in *;
    repeat first [rewrite bool_decide_true by done|rewrite bool_decide_false by done]; done.
Qed.

Lemma rot_pieces els q f1 f0 h ln n rn :
  tree_at els q (close f1 (close f0 (Node h ln n rn))) →
  let '(a, b, c, (t1, t2, t3, t4)) := rot_trees f1 f0 ln n rn in
  ∃ ea eb ec q1 q2 q3 q4, els !! a = Some ea ∧ els !! b = Some eb ∧ els !! c = Some ec ∧
    tree_at els q1 t1 ∧ tree_at els q2 t2 ∧ tree_at els q3 t3 ∧ tree_at els q4 t4.
Proof. destruct f1, f0; cbn; intros; destruct_and!; eexists _, _, _, _, _, _, _; split_and!; eassumption. Qed.

Lemma rt_rotate f1 f0 h ln n rn :
  let '(a, b, c, _) := rot_trees f1 f0 ln n rn in rt (rotate f1 f0 (Node h ln n rn)) = Some b.
Proof. by destruct f1, f0. Qed.

Lemma rebalance_ok els tree f0 f1 k t fuel :
  zip_at els (f0 :: f1 :: k) t → t ≠ Leaf → NoDup (nodes (close f1 (close f0 t)) ++ knodes k) →
  (length k < fuel)%nat →
  ∃ els', rebalance fuel els tree (rt t) =
      Ok (kptr k, els', if k is [] then tree_set_root tree (rt (rotate f1 f0 t)) else tree) ∧
    zip_at els' (recalc k (sh (rotate f1 f0 t))) (rotate f1 f0 t) ∧
    only (nodes (close f1 (close f0 t)) ++ knodes k) els els'.
Proof.
  intros Z Ht ND L. destruct t as [|h ln n rn]; [done|].
  pose proof ND as (NT & D & NK)%NoDup_app. pose proof Z as [(En & _) (E0 & _ & E1 & _ & Hk)].
  pose proof Z as Z'. rewrite !zip_close in Z'. destruct Z' as [T _].
  pose proof (choose_rotation_ok els f1 f0 k h ln n rn Z NT) as Ec.
  pose proof (rotate_trees f1 f0 h ln n rn) as Er. pose proof (rt_rotate f1 f0 h ln n rn) as Eb.
  pose proof (λ els q, rot_pieces els q f1 f0 h ln n rn) as Hp.
  destruct (rot_trees f1 f0 ln n rn) as [[[a b] c] [[[t1 t2] t3] t4]]. destruct Er as [Er P].
  unfold rebalance. cbn [rt]. rewrite (el_at_ok _ _ _ En), bind_Ok. cbn [el_parent kptr].
  rewrite (el_at_ok _ _ _ E0), bind_Ok, frame_parent. cbn [kptr].
  rewrite (el_at_ok _ _ _ E1), bind_Ok, frame_parent, Ec, bind_Ok.
  destruct (tie_above_ok els tree k (fp f1) b Hk) as (els1 & -> & Hk1 & O1); [|done|].
  { apply D. rewrite nodes_close. by left. }
  rewrite bind_Ok. apply (tree_at_only _ _ _ _ _ O1) in T; [|exact D].
  destruct (Hp _ _ T) as (ea & eb & ec & q1 & q2 & q3 & q4 & Ea & Ebb & Ecc & T1 & T2 & T3 & T4).
  destruct (rotate_links_ok els1 (kptr k) a b c ea eb ec q1 q2 q3 q4 t1 t2 t3 t4) as (els2 & -> & Tb & O2); try done.
  { eapply NoDup_perm; [symmetry; exact P|exact NT]. }
  rewrite bind_Ok, <- Er in *.
  assert (only (nodes (close f1 (close f0 (Node h ln n rn)))) els1 els2) as O2'
    by (intros y Hy; apply O2; by rewrite P).
  apply (ctx_at_only _ _ _ _ _ O2') in Hk1; [|intros x Hx Hx'; by apply (D x)].
  destruct (recalc_heights_ok k els2 (rotate f1 f0 (Node h ln n rn)) fuel) as (els3 & -> & Z3 & O3);
    [by rewrite (nodes_rotate f1 f0 _ Ht)|by split; [|rewrite Eb]|done|].
  rewrite bind_Ok. exists els3. split; [by rewrite Eb|]. split; [done|].
  apply (only_trans _ _ els1); [eapply only_mono; [|exact O1]; set_solver|].
  apply (only_trans _ _ els2); [eapply only_mono; [|exact O2']; set_solver|].
  eapply only_mono; [|exact O3]; set_solver.
Qed.
