(* ===== verification/AvlInsert.v ===== *)
(** * Looking up and inserting

    [avl_rep] is what holds of a tree in memory between calls: links, stored
    heights, balance, order, the first and last pointers and the size.  The search
    loops descend to a place ([descend]); [avl_attach_rebal] at that place makes
    the balanced tree of [attach_balances]. *)

From stdpp Require Import sorting.
From S2P Require Import Prelude Avl AvlZip AvlHeap.

(** ** avl_attach_rebal *)

Lemma head_left els t : ∀ par p,
  tree_at els par t → head (nodes t) = Some p → ∃ e, els !! p = Some e ∧ el_left e = None.
Proof.
  induction t as [|h l IHl x r IHr]; intros par p T Hp; [done|]. destruct T as (E & Tl & Tr).
  cbn [nodes] in Hp. destruct l as [|h' l' y r']; [injection Hp as <-; eauto|].
  apply (IHl (Some x)); [done|]. cbn in *. by destruct (nodes l').
Qed.

Lemma last_right els t : ∀ par p,
  tree_at els par t → last (nodes t) = Some p → ∃ e, els !! p = Some e ∧ el_right e = None.
Proof.
  induction t as [|h l IHl x r IHr]; intros par p T Hp; [done|]. destruct T as (E & Tl & Tr).
  cbn [nodes] in Hp. rewrite last_app_cons in Hp. destruct r as [|h' l' y r']; [injection Hp as <-; eauto|].
  apply (IHr (Some x)); [done|]. cbn [nodes] in *.
  rewrite last_cons, last_app_cons in Hp. rewrite last_app_cons.
  by destruct (last (y :: nodes r')) eqn:E'; [|apply last_None in E'].
Qed.

(** [lastLess] tells the side of the innermost frame. *)
Definition side_ok (k : ctx) (lastLess : ptr) : Prop :=
  match k with
  | [] => True
  | FL _ p _ :: _ => lastLess = Some p
  | FR _ _ p :: _ => lastLess ≠ Some p
  end.

Definition leaf (x : positive) : tree := Node 1 Leaf x Leaf.

(** The links of the new element. *)
Lemma attach_links_ok els k x :
  zip_at els k Leaf → x ∉ knodes k → NoDup (knodes k) →
  let els1 := <[x := AvlEl None None (kptr k) 1]> els in
  let els2 := match k with [] => els1 | f :: k' => <[fp f := frame_el f (Some x) (kptr k')]> els1 end in
  zip_at els2 k (leaf x) ∧ only (x :: knodes k) els els2.
Proof.
  intros [_ Hk] Hx ND els1 els2.
  assert (only [x] els els1) as O1 by apply only_insert.
  destruct k as [|f k]; [split; [split; [|done]|done]|]; [by split_and!; [apply lookup_insert_eq|..]|].
  destruct Hk as (Ef & Ts & Hk). cbn [knodes] in *. apply NoDup_cons in ND as [Hf ND].
  assert (only [fp f] els1 els2) as O2 by apply only_insert. assert (x ≠ fp f) as Hxf by set_solver.
  split; [|apply (only_trans _ _ els1); eapply only_mono; [|exact O1| |exact O2]; set_solver].
  split; [split_and!; [|done|done]|cbn [ctx_at]; split_and!].
  - cbn. unfold els2, els1. by rewrite lookup_insert_ne, lookup_insert_eq by done.
  - apply lookup_insert_eq.
  - apply (tree_at_only _ _ _ _ _ O2); [set_solver|]. apply (tree_at_only _ _ _ _ _ O1); [set_solver|done].
  - apply (ctx_at_only _ _ _ _ _ O2); [set_solver|]. apply (ctx_at_only _ _ _ _ _ O1); [set_solver|done].
Qed.

(** The first pointer is the first node, before and after. *)
Lemma head_step els f k x p0 :
  zip_at els (f :: k) (leaf x) → head (kbefore (f :: k) ++ kafter (f :: k)) = Some p0 →
  ∃ e, el_at els (Some p0) = Ok e ∧
    (if bool_decide (el_left e = Some x) then Some x else Some p0) =
      head (kbefore (f :: k) ++ x :: kafter (f :: k)).
Proof.
  intros Z Hp. pose proof (proj2 (zip_plug els (f :: k) (leaf x)) Z) as T.
  destruct (kbefore (f :: k)) as [|y l] eqn:Eb.
  - destruct f as [h p r|h l p]; cbn in Eb; [|by destruct (kbefore k), (nodes l)].
    cbn in Hp. injection Hp as <-. destruct Z as [_ (E & _)].
    eexists. split; [by apply el_at_ok|]. by rewrite bool_decide_true.
  - cbn in Hp. injection Hp as ->.
    destruct (head_left els _ None p0 T) as (e & E & El); [by rewrite nodes_plug, Eb|].
    exists e. split; [by apply el_at_ok|]. by rewrite El, bool_decide_false.
Qed.

Lemma tail_step els f k x p0 :
  zip_at els (f :: k) (leaf x) → last (kbefore (f :: k) ++ kafter (f :: k)) = Some p0 →
  ∃ e, el_at els (Some p0) = Ok e ∧
    (if bool_decide (el_right e = Some x) then Some x else Some p0) =
      last (kbefore (f :: k) ++ x :: kafter (f :: k)).
Proof.
  intros Z Hp. pose proof (proj2 (zip_plug els (f :: k) (leaf x)) Z) as T.
  rewrite last_app_cons. destruct (kafter (f :: k)) as [|y l] eqn:Ea.
  - destruct f as [h p r|h l p]; [done|]. cbn [kbefore] in Hp. rewrite app_nil_r, app_assoc, last_snoc in Hp.
    injection Hp as <-. destruct Z as [_ (E & _)].
    eexists. split; [by apply el_at_ok|]. by rewrite bool_decide_true.
  - rewrite last_app_cons in Hp. rewrite last_cons.
    destruct (last (y :: l)) as [z|] eqn:El; [|by apply last_None in El]. injection Hp as ->.
    destruct (last_right els _ None p0 T) as (e & E & Er).
    { rewrite nodes_plug. cbn [nodes leaf app]. by rewrite last_app_cons, last_cons, Ea, El. }
    exists e. split; [by apply el_at_ok|]. by rewrite Er, bool_decide_false.
Qed.

Lemma new_leaf_ok els x e q :
  els !! x = Some e → new_leaf els (Some x) q = Ok (<[x := AvlEl None None q 1]> els).
Proof.
  intros E. unfold new_leaf. rewrite (el_upd_ok _ _ _ _ E), bind_Ok.
  do 3 (erewrite el_upd_ok by apply lookup_insert_eq; rewrite ?bind_Ok, insert_insert_eq). done.
Qed.

Lemma link_parent_ok els f k x ll :
  els !! fp f = Some (frame_el f None (kptr k)) → side_ok (f :: k) ll →
  link_parent els (Some x) (Some (fp f)) ll = Ok (<[fp f := frame_el f (Some x) (kptr k)]> els).
Proof.
  intros E Hs. unfold link_parent. rewrite !(el_upd_ok _ _ _ _ E). destruct f; cbn in Hs |- *.
  - by rewrite bool_decide_true.
  - by rewrite bool_decide_false.
Qed.

(** The tree structure after an insertion at [k], given its root. *)
Definition tree_with (tree : avl_tree) (r : ptr) (l : list positive) : avl_tree :=
  AvlTree r (head l) (last l) (i64 (tree_size tree + 1)).

Lemma attach_ok els tree k x e ll :
  zip_at els k Leaf → els !! x = Some e → x ∉ knodes k → NoDup (knodes k) → side_ok k ll →
  tree_head tree = head (kbefore k ++ kafter k) → tree_tail tree = last (kbefore k ++ kafter k) →
  ∃ els', attach els tree (Some x) (kptr k) ll =
      Ok (els', tree_with tree (if k is [] then Some x else tree_root tree) (kbefore k ++ x :: kafter k)) ∧
    zip_at els' k (leaf x) ∧ only (x :: knodes k) els els'.
Proof.
  intros Z E Hx ND Hs Hh Ht. pose proof (attach_links_ok els k x Z Hx ND) as [Z' O].
  eexists. split; [|split; [exact Z'|exact O]]. unfold attach, tree_with. cbn zeta.
  rewrite (new_leaf_ok _ _ _ _ E), bind_Ok. destruct k as [|f k]; [done|]. cbn [kptr] in *.
  destruct Z as [_ (Ef & _)]. cbn [rt] in Ef. rewrite (link_parent_ok _ f k); [| |done];
    [|rewrite lookup_insert_ne; [done|cbn in Hx; set_solver]].
  rewrite bind_Ok. cbn [tree_head tree_tail tree_set_size].
  assert (kbefore (f :: k) ++ kafter (f :: k) ≠ []) as Hne
    by (destruct f; cbn; intros H%(f_equal length); rewrite ?length_app in H; cbn in H; lia).
  destruct (head (kbefore (f :: k) ++ kafter (f :: k))) as [p|] eqn:Ep; [|by apply head_None in Ep].
  destruct (last (kbefore (f :: k) ++ kafter (f :: k))) as [q|] eqn:Eq; [|by apply last_None in Eq].
  destruct (head_step _ _ _ _ _ Z' Ep) as (eh & Eh & Eh'). destruct (tail_step _ _ _ _ _ Z' Eq) as (et & Et & Et').
  rewrite Hh, Eh, bind_Ok. rewrite <- Eh', <- Et'.
  destruct (bool_decide (el_left eh = Some x)); cbn [tree_tail tree_head tree_set_head tree_set_size];
    rewrite Ht, Et, bind_Ok; destruct (bool_decide (el_right et = Some x));
    unfold tree_set_tail, tree_set_head, tree_set_size; cbn; by rewrite ?Hh, ?Ht.
Qed.

Lemma rt_plug k : ∀ t, rt (plug k t) = default (rt t) (Some <$> last (fp <$> k)).
Proof.
  induction k as [|f k IH]; intros t; [done|]. cbn [plug]. rewrite IH, rt_close, fmap_cons, last_cons.
  by destruct (last (fp <$> k)).
Qed.

Lemma fp_recalc k : ∀ h, fp <$> recalc k h = fp <$> k.
Proof.
  induction k as [|f k IH]; intros h; cbn [recalc]; [done|]. destruct (_ =? _); [done|].
  by rewrite !fmap_cons, IH, fp_with.
Qed.

(** The root after an insertion. *)
Lemma rt_plug_recalc k h t : rt (plug (recalc k h) t) = if k is [] then rt t else rt (plug k Leaf).
Proof.
  rewrite !rt_plug, fp_recalc. destruct k as [|f k]; [done|]. rewrite fmap_cons, last_cons.
  by destruct (last (fp <$> k)).
Qed.

Lemma length_knodes k : (length k ≤ length (knodes k))%nat.
Proof. induction k as [|f k IH]; cbn; [done|]. rewrite length_app. lia. Qed.

Lemma length_recalc k : ∀ h, length (recalc k h) = length k.
Proof. induction k as [|f k IH]; intros h; cbn; [done|]. destruct (_ =? _); [done|]. cbn. by rewrite IH. Qed.

Lemma find_zip_length k : ∀ t k' t', find_zip k t = Some (k', t') → (length k' ≤ length k)%nat.
Proof.
  induction k as [|f0 [|f1 k] IH]; intros t k' t' E; [done|done|]. cbn [find_zip] in E.
  destruct (unbal f1 (fh f0)); [by injection E as <- <-|]. apply IH in E. cbn in *. lia.
Qed.

Lemma avl_attach_rebal_ok els tree k x e ll fuel :
  zip_at els k Leaf → els !! x = Some e → NoDup (x :: knodes k) → side_ok k ll →
  tree_root tree = rt (plug k Leaf) → tree_head tree = head (kbefore k ++ kafter k) →
  tree_tail tree = last (kbefore k ++ kafter k) → (length k < fuel)%nat →
  ∃ els', avl_attach_rebal fuel els tree (Some x) (kptr k) ll =
      Ok (els', tree_with tree (rt (attached k x)) (kbefore k ++ x :: kafter k)) ∧
    tree_at els' None (attached k x) ∧ only (x :: knodes k) els els'.
Proof.
  intros Z E ND Hs Hr Hh Ht L. pose proof ND as [Hx NK]%NoDup_cons.
  destruct (attach_ok els tree k x e ll Z E Hx NK Hs Hh Ht) as (els1 & E1 & Z1 & O1).
  unfold avl_attach_rebal. rewrite E1, bind_Ok.
  destruct (recalc_heights_ok k els1 (leaf x) fuel ND Z1 L) as (els2 & E2 & Z2 & O2).
  change (sh (leaf x)) with 1 in Z2. rewrite E2, bind_Ok. change (Some x) with (rt (leaf x)).
  rewrite (find_first_unbal_gp_ok els2 (recalc k 1) (leaf x) fuel) by (done || by rewrite length_recalc).
  rewrite bind_Ok. unfold attached, balance_zip. fold (leaf x).
  assert (only (x :: knodes k) els els2) as O
    by (eapply only_trans; [exact O1|]; eapply only_mono; [|exact O2]; set_solver).
  assert ((if k is [] then rt (leaf x) else tree_root tree) = rt (plug (recalc k 1) (leaf x))) as Er
    by (rewrite rt_plug_recalc, Hr; by destruct k).
  destruct (find_zip (recalc k 1) (leaf x)) as [[k' t']|] eqn:Ef.
  - assert (leaf x ≠ Leaf) as Hl by done. pose proof (find_zip_node _ _ _ _ Hl Ef) as Ht'.
    pose proof (find_zip_length _ _ _ _ Ef) as L'.
    apply find_zip_plug in Ef as (Ep & f0 & f1 & k2 & ->).
    pose proof (proj2 (zip_plug _ _ _) Z2) as T2. rewrite <- Ep in T2. apply zip_plug in T2.
    cbn [found]. destruct (rt t') as [n|] eqn:En; [|by destruct t'].
    set (tr := tree_with _ _ _). rewrite <- En.
    destruct (rebalance_ok els2 tr f0 f1 k2 t' fuel T2 Ht') as (els3 & -> & Z3 & O3).
    { apply (NoDup_perm (x :: knodes k)); [|done]. transitivity (nodes (plug (f0 :: f1 :: k2) t'));
        [rewrite Ep, knodes_plug, knodes_recalc; reflexivity|]. cbn [plug]. by rewrite knodes_plug. }
    { rewrite length_recalc in L'. cbn in L'. lia. }
    rewrite bind_Ok. exists els3. split_and!.
    + f_equal. f_equal. unfold tr, tree_with. cbn [tree_set_root tree_head tree_tail tree_size tree_root].
      rewrite rt_plug_recalc, Er, <- Ep. cbn [plug].
      destruct k2; [done|]. by rewrite !rt_plug, fmap_cons, last_cons; destruct (last (fp <$> k2)).
    + by apply zip_plug.
    + eapply only_trans; [exact O|]. eapply only_mono; [|exact O3].
      intros y. rewrite <- knodes_plug. change (plug k2 (close f1 (close f0 t'))) with (plug (f0 :: f1 :: k2) t').
      rewrite Ep, knodes_plug, knodes_recalc. done.
  - cbn [found]. exists els2. split_and!; [by rewrite <- Er|by apply zip_plug|done].
Qed.

(** ** The search *)

(** What the trees need of the comparison of their keys: it tells apart what is
    different, and it is a strict order. *)
Class CmpOrder {A} (cmp : A → A → Z) : Prop := {
  cmp_zero x y : cmp x y = 0 ↔ x = y;
  cmp_flip x y : cmp x y < 0 ↔ 0 < cmp y x;
  cmp_trans x y z : cmp x y < 0 → cmp y z < 0 → cmp x z < 0;
}.

Section Search.
Context {type : Type} (compare : type → type → Z) {O : CmpOrder compare}.
Implicit Types (keys : gmap positive type).

(** The comparison of [x] with the key of a node. *)
Definition rel keys (x : type) (p : positive) (P : Z → Prop) : Prop :=
  ∃ y, keys !! p = Some y ∧ P (compare x y).

Definition klt keys (p q : positive) : Prop := ∃ x, keys !! p = Some x ∧ rel keys x q (λ c, c < 0).

Lemma rel_before keys x p q : klt keys p q → rel keys x q (λ c, 0 < c) → rel keys x p (λ c, 0 < c).
Proof.
  intros (y & Ey & z & Ez & H) (z' & Ez' & H'). simplify_eq. exists y. split; [done|].
  apply cmp_flip. apply cmp_flip in H'. by eapply cmp_trans.
Qed.

Lemma rel_after keys x p q : klt keys p q → rel keys x p (λ c, c < 0) → rel keys x q (λ c, c < 0).
Proof.
  intros (y & Ey & z & Ez & H) (y' & Ey' & H'). simplify_eq. exists z. split; [done|].
  by eapply cmp_trans.
Qed.

(** Where a search ends: at a node with the key, or at a hole. *)
Fixpoint descend keys (x : type) (t : tree) (k : ctx) : ctx + positive :=
  match t with
  | Leaf => inl k
  | Node h l p r =>
      match keys !! p with
      | None => inr p
      | Some y =>
          let c := compare x y in
          if c <? 0 then descend keys x l (FL h p r :: k)
          else if 0 <? c then descend keys x r (FR h l p :: k)
          else inr p
      end
  end.

Lemma StronglySorted_mid {A} (R : A → A → Prop) l1 x l2 :
  StronglySorted R (l1 ++ x :: l2) →
  StronglySorted R l1 ∧ StronglySorted R l2 ∧ Forall (λ y, R y x) l1 ∧ Forall (R x) l2.
Proof.
  intros H. pose proof (StronglySorted_app_1_l _ _ _ H) as H1.
  pose proof (StronglySorted_app_1_r _ _ _ H) as H2. apply StronglySorted_inv in H2 as [H2 F].
  split_and!; [done|done| |done]. apply Forall_forall. intros y Hy.
  by eapply StronglySorted_app_1_elem_of; [exact H|exact Hy|left].
Qed.

Lemma descend_spec keys x t : ∀ k,
  (∀ p, p ∈ nodes t → is_Some (keys !! p)) → StronglySorted (klt keys) (nodes t) →
  Forall (λ p, rel keys x p (λ c, 0 < c)) (kbefore k) → Forall (λ p, rel keys x p (λ c, c < 0)) (kafter k) →
  match descend keys x t k with
  | inr p => p ∈ nodes t ∧ rel keys x p (λ c, c = 0)
  | inl k' => plug k' Leaf = plug k t ∧ Forall (λ p, rel keys x p (λ c, 0 < c)) (kbefore k') ∧
              Forall (λ p, rel keys x p (λ c, c < 0)) (kafter k')
  end.
Proof.
  induction t as [|h l IHl p r IHr]; intros k D S B A; [done|]. cbn [descend nodes] in *.
  apply StronglySorted_mid in S as (Sl & Sr & Fl & Fr).
  destruct (D p) as [y Ey]; [set_solver|]. rewrite Ey.
  destruct (Z.ltb_spec (compare x y) 0) as [Hc|Hc]; [|destruct (Z.ltb_spec 0 (compare x y)) as [Hc'|Hc']].
  - assert (rel keys x p (λ c, c < 0)) as Rp by (by exists y).
    assert (Forall (λ p, rel keys x p (λ c, c < 0)) (kafter (FL h p r :: k))) as A'.
    { cbn. constructor; [done|]. apply Forall_app. split; [|done].
      eapply Forall_impl; [exact Fr|]. intros q Hq. by apply (rel_after keys x p). }
    specialize (IHl (FL h p r :: k)). destruct (descend keys x l _) as [k'|q].
    + by apply IHl; [set_solver|..].
    + destruct IHl as [Hq Rq]; [set_solver|done|done|done|split; [set_solver|done]].
  - assert (rel keys x p (λ c, 0 < c)) as Rp by (by exists y).
    assert (Forall (λ p, rel keys x p (λ c, 0 < c)) (kbefore (FR h l p :: k))) as B'.
    { cbn. rewrite !Forall_app, Forall_singleton. split_and!; [done| |done].
      eapply Forall_impl; [exact Fl|]. intros q Hq. by apply (rel_before keys x q p). }
    specialize (IHr (FR h l p :: k)). destruct (descend keys x r _) as [k'|q].
    + by apply IHr; [set_solver|..].
    + destruct IHr as [Hq Rq]; [set_solver|done|done|done|split; [set_solver|done]].
  - split; [set_solver|]. exists y. split; [done|lia].
Qed.

Fixpoint depth (t : tree) : nat :=
  match t with Leaf => 0 | Node _ l _ r => S (depth l `max` depth r) end.

Lemma find_loop_ok els keys x t : ∀ k par fuel,
  tree_at els par t → (∀ p, p ∈ nodes t → is_Some (keys !! p)) → (depth t < fuel)%nat →
  find_loop compare fuel els keys x (rt t) =
    Ok (match descend keys x t k with inr p => Some p | inl _ => None end).
Proof.
  induction t as [|h l IHl p r IHr]; intros k par [|fuel] T D L; try (cbn in L; lia); [done|].
  destruct T as (E & Tl & Tr). cbn [nodes depth find_loop descend rt] in *.
  destruct (D p) as [y Ey]; [set_solver|]. rewrite Ey. cbn [deref]. rewrite bind_Ok.
  rewrite (el_at_ok _ _ _ E), bind_Ok. cbn [el_left el_right].
  destruct (compare x y <? 0); [|destruct (0 <? compare x y); [|done]].
  - apply (IHl _ (Some p)); [done|set_solver|lia].
  - apply (IHr _ (Some p)); [done|set_solver|lia].
Qed.

(** [lastLess] is above the hole. *)
Definition less_ok (k : ctx) (ll : ptr) : Prop :=
  side_ok k ll ∧ (ll = None ∨ ∃ y, ll = Some y ∧ y ∈ knodes k).

Lemma insert_loop_ok els keys tree e x t : keys !! e = Some x → ∀ k ll fuel n,
  tree_at els (kptr k) t → NoDup (nodes t ++ knodes k) → less_ok k ll →
  (∀ p, p ∈ nodes t → is_Some (keys !! p)) → (depth t < fuel)%nat →
  match descend keys x t k with
  | inr p => insert_loop compare fuel n els keys tree e (rt t) (kptr k) ll = Ok (None, Some p, els, tree)
  | inl k' => ∃ ll', side_ok k' ll' ∧
      insert_loop compare fuel n els keys tree e (rt t) (kptr k) ll =
        ('(els, tree) ← avl_attach_rebal n els tree (Some e) (kptr k') ll';
         Ok (Some e, Some e, els, tree))
  end.
Proof.
  intros Ex. induction t as [|h l IHl p r IHr]; intros k ll [|fuel] n T ND Hl D L; try (cbn in L; lia).
  { exists ll. split; [apply Hl|done]. }
  destruct T as (E & Tl & Tr). cbn [nodes depth insert_loop descend rt] in *.
  destruct (D p) as [y Ey]; [set_solver|]. rewrite Ey, Ex. cbn [deref]. rewrite !bind_Ok.
  rewrite (el_at_ok _ _ _ E), bind_Ok. cbn [el_left el_right].
  destruct (compare x y <? 0); [|destruct (0 <? compare x y); [|done]].
  - apply (IHl (FL h p r :: k)); [done| | |set_solver|lia].
    + cbn [knodes fp sib]. eapply NoDup_perm; [|exact ND]. solve_Permutation.
    + split; [done|]. right. exists p. split; [done|]. by left.
  - apply (IHr (FR h l p :: k)); [done| | |set_solver|lia].
    + cbn [knodes fp sib]. eapply NoDup_perm; [|exact ND]. solve_Permutation.
    + destruct Hl as [_ [->|(z & -> & Hz)]]; (split; [|]); [done|by left| |right; exists z; set_solver].
      intros [= ->]. apply NoDup_app in ND as (_ & ND & _). apply (ND p); [set_solver|done].
Qed.
End Search.
