(* ===== verification/AvlProps.v ===== *)
(** * What the trees of the shuttle module promise

    [avl_rep compare els keys tree ls] is the state of a tree between calls, [ls]
    its elements in order.  Searching finds a key exactly when it is there, after
    at most 2 log2(n+1) + 1 comparisons, and inserting keeps all of [avl_rep]. *)

From stdpp Require Import sorting.
From S2P Require Import Prelude Avl AvlZip AvlHeap AvlInsert.

(** ** Depth of a balanced tree *)

Lemma avl_depth t : avl t → Z.of_nat (depth t) = sh t.
Proof.
  induction t as [|h l IHl p r IHr]; cbn [depth avl sh]; [done|]. intros (Al & Ar & -> & _).
  specialize (IHl Al). specialize (IHr Ar). lia.
Qed.

Lemma avl_pow t : avl t → 2 ^ sh t ≤ (Z.of_nat (length (nodes t)) + 1) ^ 2.
Proof.
  induction t as [|h l IHl p r IHr]; cbn [avl sh nodes]; [done|]. intros (Al & Ar & -> & B).
  specialize (IHl Al). specialize (IHr Ar). pose proof (avl_sh _ Al). pose proof (avl_sh _ Ar).
  rewrite length_app. cbn [length]. rewrite Nat2Z.inj_add, Nat2Z.inj_succ.
  set (A := Z.of_nat (length (nodes l)) + 1) in *. set (C := Z.of_nat (length (nodes r)) + 1) in *.
  replace (Z.of_nat (length (nodes l)) + Z.succ (Z.of_nat (length (nodes r))) + 1) with (A + C) by lia.
  assert (0 < A ∧ 0 < C) as [HA HC] by lia. clearbody A C.
  assert (sh l = sh r ∨ sh l = sh r + 1 ∨ sh r = sh l + 1) as [E|[E|E]] by lia.
  - rewrite E in *. rewrite Z.max_id, Z.pow_add_r by lia. nia.
  - rewrite E in *. replace (Z.max (sh r + 1) (sh r) + 1) with (sh r + 1 + 1) by lia.
    rewrite !Z.pow_add_r in * by lia. nia.
  - rewrite E in *. replace (Z.max (sh l) (sh l + 1) + 1) with (sh l + 1 + 1) by lia.
    rewrite !Z.pow_add_r in * by lia. nia.
Qed.

(** The steps of a search among [n] elements. *)
Definition search_steps (n : nat) : nat := Z.to_nat (2 * Z.log2 (Z.of_nat n + 1) + 2).

Lemma depth_steps t : avl t → (depth t < search_steps (length (nodes t)))%nat.
Proof.
  intros A. pose proof (avl_depth t A) as E. pose proof (avl_pow t A) as P. pose proof (avl_sh t A) as S.
  unfold search_steps. set (n := Z.of_nat (length (nodes t)) + 1) in *.
  assert (0 < n) as Hn by lia. pose proof (Z.log2_spec n Hn) as [_ H].
  pose proof (Z.log2_nonneg n).
  assert (sh t < 2 * (Z.log2 n + 1)) as Hlt; [|lia].
  rewrite (Z.pow_lt_mono_r_iff 2), Z.mul_comm, Z.pow_mul_r by lia.
  eapply Z.le_lt_trans; [exact P|]. apply Z.pow_lt_mono_l; [done|]. rewrite Z.add_1_r. lia.
Qed.

Lemma depth_plug k : ∀ t, (length k + depth t ≤ depth (plug k t))%nat.
Proof.
  induction k as [|f k IH]; intros t; cbn [length plug]; [done|]. specialize (IH (close f t)).
  destruct f; cbn [close depth] in IH |- *; lia.
Qed.

(** ** The state between calls *)

Section Rep.
Context {type : Type} (compare : type → type → Z) {O : CmpOrder compare}.
Implicit Types (keys : gmap positive type).

Record avl_rep (els : gmap positive avl_el) keys (tree : avl_tree) (ls : list positive) : Prop := {
  rep_links : ∃ t, nodes t = ls ∧ tree_root tree = rt t ∧ tree_at els None t ∧ avl t;
  rep_nodup : NoDup ls;
  rep_head : tree_head tree = head ls;
  rep_tail : tree_tail tree = last ls;
  rep_size : tree_size tree = Z.of_nat (length ls);
  rep_keys : ∀ p, p ∈ ls → is_Some (keys !! p);
  rep_sorted : StronglySorted (klt compare keys) ls;
}.

Lemma avl_rep_empty keys : avl_rep ∅ keys (AvlTree None None None 0) [].
Proof. split; try done; [by exists Leaf|constructor|by intros p ?%elem_of_nil|constructor]. Qed.

(** More keys, for elements that are not in the tree. *)
Lemma avl_rep_keys els keys tree ls x k :
  avl_rep els keys tree ls → x ∉ ls → avl_rep els (<[x := k]> keys) tree ls.
Proof.
  intros [L ND H T S K So] Hx. split; try done.
  - intros p Hp. rewrite lookup_insert_ne; [by apply K|]. by intros ->.
  - clear L ND H T S K. induction So as [|p ls So IH F]; [constructor|]. apply not_elem_of_cons in Hx as [Hxp Hx].
    constructor; [by apply IH|]. apply Forall_forall. intros q Hq. rewrite Forall_forall in F.
    destruct (F q Hq) as (y & Ey & z & Ez & Hc). exists y. rewrite lookup_insert_ne by done. split; [done|].
    exists z. rewrite lookup_insert_ne; [done|]. by intros ->.
Qed.

(** A new element in memory, not yet in the tree. *)
Lemma avl_rep_els els keys tree ls x e :
  avl_rep els keys tree ls → x ∉ ls → avl_rep (<[x := e]> els) keys tree ls.
Proof.
  intros [(t & Et & Er & T & A) ND H Ta S K So] Hx. split; try done. exists t. split_and!; try done.
  apply (tree_at_only els _ [x]); [apply only_insert| |done]. rewrite Et. intros p Hp ->%list_elem_of_singleton. done.
Qed.

Lemma rel_zero keys x p : rel compare keys x p (λ c, c = 0) ↔ keys !! p = Some x.
Proof.
  split.
  - intros (y & Ey & ->%cmp_zero). done.
  - intros E. exists x. split; [done|]. by apply cmp_zero.
Qed.

(** Where the search ends, among the elements. *)
Lemma descend_rep els keys tree ls x t :
  avl_rep els keys tree ls → nodes t = ls → avl t →
  match descend compare keys x t [] with
  | inr p => p ∈ ls ∧ keys !! p = Some x
  | inl k => plug k Leaf = t ∧ ls = kbefore k ++ kafter k ∧ (∀ p, p ∈ ls → keys !! p ≠ Some x) ∧
      Forall (λ p, rel compare keys x p (λ c, 0 < c)) (kbefore k) ∧
      Forall (λ p, rel compare keys x p (λ c, c < 0)) (kafter k)
  end.
Proof.
  intros R Et A. pose proof (descend_spec compare keys x t []) as D. rewrite Et in D.
  specialize (D (rep_keys _ _ _ _ R) (rep_sorted _ _ _ _ R) ltac:(constructor) ltac:(constructor)).
  destruct (descend compare keys x t []) as [k|p].
  - destruct D as (Ep & B & Af). cbn in Ep. split; [done|].
    assert (ls = kbefore k ++ kafter k) as -> by (rewrite <- Et, <- Ep, nodes_plug; done).
    split_and!; try done. intros p [Hp|Hp]%elem_of_app X.
    + rewrite Forall_forall in B. destruct (B p Hp) as (y & Ey & Hy). simplify_eq.
      pose proof (proj2 (cmp_zero x x) eq_refl). lia.
    + rewrite Forall_forall in Af. destruct (Af p Hp) as (y & Ey & Hy). simplify_eq.
      pose proof (proj2 (cmp_zero x x) eq_refl). lia.
  - destruct D as [Hp Hr]. split; [done|]. by apply rel_zero.
Qed.

(** The order of the elements with a new one in its place. *)
Lemma sorted_insert keys e x l1 l2 :
  keys !! e = Some x → StronglySorted (klt compare keys) (l1 ++ l2) →
  Forall (λ p, rel compare keys x p (λ c, 0 < c)) l1 → Forall (λ p, rel compare keys x p (λ c, c < 0)) l2 →
  StronglySorted (klt compare keys) (l1 ++ e :: l2).
Proof.
  intros Ee S F1 F2. rewrite Forall_forall in F1.
  apply StronglySorted_app in S as (S12 & S1 & S2). apply StronglySorted_app. split_and!; [|done|].
  - intros p q Hp [->|Hq]%elem_of_cons; [|by apply S12]. destruct (F1 p Hp) as (y & Ey & Hy).
    exists y. split; [done|]. exists x. split; [done|]. by apply cmp_flip.
  - apply StronglySorted_cons. split; [|done]. eapply Forall_impl; [exact F2|]. intros q Hq. by exists x.
Qed.

Lemma insert_rep els keys tree ls e x el fuel :
  avl_rep els keys tree ls → els !! e = Some el → keys !! e = Some x → e ∉ ls →
  Z.of_nat (length ls) ≤ MAXH → (search_steps (length ls) ≤ fuel)%nat →
  (∃ p, p ∈ ls ∧ keys !! p = Some x ∧
     avl_insert compare fuel els keys tree e = Ok (None, Some p, els, tree)) ∨
  ((∀ p, p ∈ ls → keys !! p ≠ Some x) ∧ ∃ els' tree' l1 l2, ls = l1 ++ l2 ∧
     avl_insert compare fuel els keys tree e = Ok (Some e, Some e, els', tree') ∧
     avl_rep els' keys tree' (l1 ++ e :: l2) ∧ only (e :: ls) els els').
Proof.
  intros R Ee Ek Hn M Hf. pose proof R as [(t & Et & Er & T & A) ND Hh Ht S K So].
  pose proof (depth_steps t A) as Hd. rewrite Et in Hd. unfold avl_insert. rewrite Er.
  pose proof (insert_loop_ok compare els keys tree e x t Ek [] None fuel fuel T) as I.
  cbn [knodes kptr] in I. rewrite app_nil_r, Et in I.
  specialize (I ND (conj Logic.I (or_introl eq_refl)) K ltac:(lia)).
  pose proof (descend_rep els keys tree ls x t R Et A) as D.
  destruct (descend compare keys x t []) as [k|p]; [right|left; exists p; tauto].
  destruct D as (Ep & El & Hno & B & Af). split; [done|]. destruct I as (ll & Hs & ->).
  assert (nodes t ≡ₚ knodes k) as P by (rewrite <- Ep, knodes_plug; done).
  assert (NoDup (e :: knodes k)) as NDk.
  { apply NoDup_cons. rewrite <- P, Et. done. }
  rewrite <- Ep in T, A. apply zip_plug in T. pose proof A as [_ Ka]%plug_avl.
  destruct (avl_attach_rebal_ok els tree k e el ll fuel T Ee NDk Hs) as (els' & -> & T' & O');
    [by rewrite Ep|by rewrite <- El|by rewrite <- El| |].
  { pose proof (depth_plug k Leaf) as L. rewrite Ep in L. lia. }
  rewrite bind_Ok. eexists els', _, (kbefore k), (kafter k). split_and!; [done|done| |].
  - split; cbn [tree_with tree_root tree_head tree_tail tree_size]; try done.
    + exists (attached k e). split_and!; [apply nodes_attached|done|done|].
      apply attach_balances; [done|]. apply (kavl_fits k Leaf); [done|]. by rewrite Ep, Et.
    + eapply NoDup_perm; [|exact NDk]. rewrite <- P, Et, El. solve_Permutation.
    + rewrite S, El, !length_app in *. cbn [length]. unfold MAXH in M.
      rewrite wraps_small by (done || change (64 - 1) with 63; lia). lia.
    + intros p Hp. destruct (decide (p = e)) as [->|]; [by rewrite Ek|]. apply K.
      rewrite El, elem_of_app. rewrite elem_of_app, elem_of_cons in Hp. tauto.
    + apply (sorted_insert keys e x); [done|by rewrite <- El|done|done].
  - intros y Hy. apply O'. by rewrite <- P, Et.
Qed.

Lemma find_rep els keys tree ls x fuel :
  avl_rep els keys tree ls → (search_steps (length ls) ≤ fuel)%nat →
  ∃ r, avl_find compare fuel els keys tree x = Ok r ∧
    match r with
    | Some p => p ∈ ls ∧ keys !! p = Some x
    | None => ∀ p, p ∈ ls → keys !! p ≠ Some x
    end.
Proof.
  intros R Hf. pose proof R as [(t & Et & Er & T & A) ND Hh Ht S K So].
  pose proof (depth_steps t A) as Hd. rewrite Et in Hd. unfold avl_find. rewrite Er.
  rewrite (find_loop_ok compare els keys x t [] None fuel T) by (rewrite ?Et; done || lia).
  eexists. split; [done|]. pose proof (descend_rep els keys tree ls x t R Et A) as D.
  destruct (descend compare keys x t []) as [k|p]; tauto.
Qed.
End Rep.

(** ** The claims *)

(** C18: Inserting an element whose key is in the tree changes nothing and gives
    the element found; inserting one whose key is not there puts it between the
    smaller and the greater ones, and leaves a tree with right links, parents and
    heights, balanced after its single rotation, with the first and last pointers
    and the size kept; no other memory changes. *)
Theorem insert_keeps_balance {type} (compare : type → type → Z) `{!CmpOrder compare} els keys tree ls e x el fuel :
  avl_rep compare els keys tree ls → els !! e = Some el → keys !! e = Some x → e ∉ ls →
  Z.of_nat (length ls) ≤ MAXH → (search_steps (length ls) ≤ fuel)%nat →
  (∃ p, p ∈ ls ∧ keys !! p = Some x ∧
     avl_insert compare fuel els keys tree e = Ok (None, Some p, els, tree)) ∨
  ((∀ p, p ∈ ls → keys !! p ≠ Some x) ∧ ∃ els' tree' l1 l2, ls = l1 ++ l2 ∧
     avl_insert compare fuel els keys tree e = Ok (Some e, Some e, els', tree') ∧
     avl_rep compare els' keys tree' (l1 ++ e :: l2) ∧ only (e :: ls) els els').
Proof. apply insert_rep; apply _. Qed.

(** Keys that are integers, compared by subtraction; two elements in the tree and
    the third on its way in, for which the tree must be rotated. *)
#[global] Instance sub_order : CmpOrder Z.sub.
Proof. split; intros; lia. Qed.

Definition two_els : gmap positive avl_el :=
  {[1%positive := AvlEl None (Some 2%positive) None 2;
    2%positive := AvlEl None None (Some 1%positive) 1; 3%positive := AvlEl None None None 0]}.
Definition three_keys : gmap positive Z := {[1%positive := 10; 2%positive := 20; 3%positive := 30]}.
Definition two_tree : avl_tree := AvlTree (Some 1%positive) (Some 1%positive) (Some 2%positive) 2.

Lemma two_rep : avl_rep Z.sub two_els three_keys two_tree [1%positive; 2%positive].
Proof.
  split; try done.
  - by exists (Node 2 Leaf 1%positive (Node 1 Leaf 2%positive Leaf)).
  - by apply (bool_decide_unpack _).
  - intros p Hp. apply elem_of_cons in Hp as [->|Hp]; [by eexists|].
    apply list_elem_of_singleton in Hp as ->. by eexists.
  - repeat constructor. exists 10. split; [done|]. exists 20. done.
Qed.

Lemma insert_keeps_balance_witness :
  ∃ els' tree' l1 l2, [1%positive; 2%positive] = l1 ++ l2 ∧
    avl_insert Z.sub 5 two_els three_keys two_tree 3%positive =
      Ok (Some 3%positive, Some 3%positive, els', tree') ∧
    avl_rep Z.sub els' three_keys tree' (l1 ++ 3%positive :: l2) ∧
    only [3%positive; 1%positive; 2%positive] two_els els'.
Proof.
  destruct (insert_keeps_balance Z.sub two_els three_keys two_tree [1%positive; 2%positive] 3%positive 30
    (AvlEl None None None 0) 5) as [(p & Hp & E & _)|[_ H]];
    [apply two_rep|done|done|by apply (bool_decide_unpack _)|done|by apply Nat.leb_le| |exact H].
  exfalso. apply elem_of_cons in Hp as [->|Hp]; [done|]. apply list_elem_of_singleton in Hp as ->. done.
Defined.

(** C19: A search finds an element with the key exactly when there is one, within
    2 log2(n+1) + 2 turns of the loop for [n] elements. *)
Theorem find_logarithmic {type} (compare : type → type → Z) `{!CmpOrder compare} els keys tree ls x fuel :
  avl_rep compare els keys tree ls → (search_steps (length ls) ≤ fuel)%nat →
  ∃ r, avl_find compare fuel els keys tree x = Ok r ∧
    match r with
    | Some p => p ∈ ls ∧ keys !! p = Some x
    | None => ∀ p, p ∈ ls → keys !! p ≠ Some x
    end.
Proof. apply find_rep; apply _. Qed.

Lemma find_logarithmic_witness :
  ∃ r, avl_find Z.sub 5 two_els three_keys two_tree 20 = Ok r ∧
    match r with
    | Some p => p ∈ [1%positive; 2%positive] ∧ three_keys !! p = Some 20
    | None => ∀ p, p ∈ [1%positive; 2%positive] → three_keys !! p ≠ Some 20
    end.
Proof.
  apply (find_logarithmic Z.sub two_els three_keys two_tree [1%positive; 2%positive]);
    [apply two_rep|by apply Nat.leb_le].
Defined.

(** The third element turns the chain 1 - 2 - 3 into a tree with root 2. *)
Example rotate_left_run :
  (' (r, _, els, tree) ← avl_insert Z.sub 5 two_els three_keys two_tree 3%positive;
   Ok (r, tree, (λ p, els !! p) <$> [1; 2; 3]%positive)) =
  Ok (Some 3%positive, AvlTree (Some 2%positive) (Some 1%positive) (Some 3%positive) 3,
      [Some (AvlEl None None (Some 2%positive) 1);
       Some (AvlEl (Some 1%positive) (Some 3%positive) None 2);
       Some (AvlEl None None (Some 2%positive) 1)]).
Proof. by vm_compute. Qed.
