(* ===== verification/Shuttle.v ===== *)
(** * shuttle/attribute.c: the pass-through links

    A link joins two network devices.  Frames that arrive on one leave through the
    other and are copied to a data ring on the way; connections in the table
    [block] are dropped, TLS traffic to listed addresses goes up the local stack,
    and commands arrive on a control ring.  What the module asks of the kernel is
    recorded, in order, as [kcall]s; what the kernel answers is an argument. *)

From S2P Require Import Prelude KrDep KData KDataIO KCtrl KSocket Avl.

(** ** Connections *)

Record connection := Connection { addr1 : Z; addr2 : Z; port1 : Z; port2 : Z }.

Definition conn_compare (el1 el2 : connection) : Z :=
  if addr1 el1 <? addr1 el2 then -1
  else if addr1 el2 <? addr1 el1 then 1
  else if addr2 el1 <? addr2 el2 then -1
  else if addr2 el2 <? addr2 el1 then 1
  else if port1 el1 <? port1 el2 then -1
  else if port1 el2 <? port1 el1 then 1
  else if port2 el1 <? port2 el2 then -1
  else if port2 el2 <? port2 el1 then 1
  else 0.

(** The table [block] with the memory of its elements. *)
Record conn_table := ConnTable {
  ct_els : gmap positive avl_el;
  ct_keys : gmap positive connection;
  ct_tree : avl_tree;
}.

Definition empty_table : conn_table := ConnTable ∅ ∅ (AvlTree None None None 0).

(** The loops of the tree go through it once. *)
Definition tree_fuel (t : conn_table) : nat := 2 * Z.to_nat (tree_size (ct_tree t)) + 2.

Definition conn_find (t : conn_table) (c : connection) : res (option positive) :=
  avl_find conn_compare (tree_fuel t) (ct_els t) (ct_keys t) (ct_tree t) c.

(** [conn_insert( &block, pc, 0 )] *)
Definition conn_insert (t : conn_table) (pc : positive) : res conn_table :=
  '(_, _, els, tree) ← avl_insert conn_compare (tree_fuel t) (ct_els t) (ct_keys t) (ct_tree t) pc;
  Ok (ConnTable els (ct_keys t) tree).

(** [*pc = c], with [junk] in the part of [c] that was never set. *)
Definition store_conn (t : conn_table) (pc : option positive) (c : connection) (junk : avl_el)
    : res (positive * conn_table) :=
  p ← deref pc;
  Ok (p, ConnTable (<[p := junk]> (ct_els t)) (<[p := c]> (ct_keys t)) (ct_tree t)).

(** ** Socket buffers

    The bytes from the link-layer header on; [skb_data], [skb_mac] and [skb_net]
    are where [data], the link-layer header and the network header are. *)
Record sk_buff := SkBuff {
  skb_frame : list Z;
  skb_data : Z;
  skb_mac : Z;
  skb_net : Z;
  skb_dev : option Z;
  skb_pkt_type : Z;
}.

Definition skb_set_dev (s : sk_buff) (d : option Z) : sk_buff :=
  SkBuff (skb_frame s) (skb_data s) (skb_mac s) (skb_net s) d (skb_pkt_type s).
Definition skb_set_type (s : sk_buff) (t : Z) : sk_buff :=
  SkBuff (skb_frame s) (skb_data s) (skb_mac s) (skb_net s) (skb_dev s) t.
Definition skb_push (s : sk_buff) (n : Z) : sk_buff :=
  SkBuff (skb_frame s) (skb_data s - n) (skb_mac s) (skb_net s) (skb_dev s) (skb_pkt_type s).
Definition skb_pull (s : sk_buff) (n : Z) : sk_buff :=
  SkBuff (skb_frame s) (skb_data s + n) (skb_mac s) (skb_net s) (skb_dev s) (skb_pkt_type s).

(** What is left of the frame from [data] on: [skb->len] bytes, and
    [skb_copy_bits] on them. *)
Definition skb_bytes (s : sk_buff) : list Z := drop (Z.to_nat (skb_data s)) (skb_frame s).
Definition skb_len (s : sk_buff) : Z := Z.of_nat (length (skb_bytes s)).
Definition skb_copy_bits (s : sk_buff) (o n : Z) : list Z :=
  take (Z.to_nat n) (drop (Z.to_nat o) (skb_bytes s)).

Definition ETH_HLEN : Z := 14.
Definition ETH_P_IP : Z := 0x0800.
Definition ETH_P_ARP : Z := 0x0806.
Definition IPPROTO_TCP : Z := 6.
Definition PACKET_HOST : Z := 0.

Definition htons (x : Z) : Z := (x mod 256) * 256 + x / 256 mod 256.
Definition ntohs (x : Z) : Z := htons x.

(** [n] bytes at [o] of the frame as a little-endian number: a load. *)
Definition frame_load (s : sk_buff) (o : Z) (n : nat) : res Z :=
  if decide (0 ≤ o) then bs ← mem_load (skb_frame s) (Z.to_nat o) n; Ok (le_val bs) else Ub.

(** Fields of the headers: [eth_hdr(skb)->h_proto]; [protocol], [ihl], [saddr] and
    [daddr] of [ip_hdr(skb)]; [source] and [dest] of the TCP header at [th]. *)
Definition eth_h_proto (s : sk_buff) : res Z := frame_load s (skb_mac s + 12) 2.
Definition ip_protocol (s : sk_buff) : res Z := frame_load s (skb_net s + 9) 1.
Definition ip_ihl (s : sk_buff) : res Z :=
  b ← frame_load s (skb_net s) 1; Ok (Z.land b 15).
Definition ip_saddr (s : sk_buff) : res Z := frame_load s (skb_net s + 12) 4.
Definition ip_daddr (s : sk_buff) : res Z := frame_load s (skb_net s + 16) 4.
Definition tcp_hdr_at (s : sk_buff) : res Z :=
  ihl ← ip_ihl s; Ok (skb_net s + ihl * 4).
Definition tcp_source (s : sk_buff) (th : Z) : res Z := frame_load s th 2.
Definition tcp_dest (s : sk_buff) (th : Z) : res Z := frame_load s (th + 2) 2.

(** ** Links *)

Definition LINK_IPS : Z := 256.

(** struct link; [link_kring] and [link_cmd] are null until they are opened. *)
Record link := Link {
  link_name : list Z;
  link_inside : option Z;
  link_outside : option Z;
  link_dev : option Z;
  link_ips : list Z;
  link_nips : Z;
  link_kring : option kring_kern;
  link_cmd : option kring_kern;
}.

(** Memory from kzalloc. *)
Definition zero_link : link :=
  Link (replicate 32 0) None None None (replicate (Z.to_nat LINK_IPS) 0) 0 None None.

(** What the module asks of the kernel. *)
Inductive kcall :=
  | Kfree_skb (s : sk_buff)
  | Netif_receive (s : sk_buff)
  | Dev_queue_xmit (s : sk_buff)
  | Dev_set_promiscuity (dev n : Z)
  | Rx_register (dev : Z) (l : positive)
  | Rx_unregister (dev : Z)
  | Dev_get (dev : Z)
  | Dev_put (dev : Z)
  | Unregister_netdevice (dev : option Z)
  | Kobject_put (l : positive).

Record shuttle := Shuttle {
  sh_sets : ringsets;
  sh_block : conn_table;
  sh_link : gmap positive link;
  sh_list : list positive;
  sh_calls : list kcall;
}.

Definition call (st : shuttle) (c : kcall) : shuttle :=
  Shuttle (sh_sets st) (sh_block st) (sh_link st) (sh_list st) (sh_calls st ++ [c]).
Definition set_sets (st : shuttle) (sets : ringsets) : shuttle :=
  Shuttle sets (sh_block st) (sh_link st) (sh_list st) (sh_calls st).
Definition set_block (st : shuttle) (t : conn_table) : shuttle :=
  Shuttle (sh_sets st) t (sh_link st) (sh_list st) (sh_calls st).
Definition set_link (st : shuttle) (l : positive) (k : link) : shuttle :=
  Shuttle (sh_sets st) (sh_block st) (<[l := k]> (sh_link st)) (sh_list st) (sh_calls st).
Definition set_list (st : shuttle) (ls : list positive) : shuttle :=
  Shuttle (sh_sets st) (sh_block st) (sh_link st) ls (sh_calls st).

Definition with_inside (k : link) (d : option Z) : link :=
  Link (link_name k) d (link_outside k) (link_dev k) (link_ips k) (link_nips k) (link_kring k) (link_cmd k).
Definition with_outside (k : link) (d : option Z) : link :=
  Link (link_name k) (link_inside k) d (link_dev k) (link_ips k) (link_nips k) (link_kring k) (link_cmd k).
Definition with_dev (k : link) (d : option Z) : link :=
  Link (link_name k) (link_inside k) (link_outside k) d (link_ips k) (link_nips k) (link_kring k) (link_cmd k).
Definition with_name (k : link) (n : list Z) : link :=
  Link n (link_inside k) (link_outside k) (link_dev k) (link_ips k) (link_nips k) (link_kring k) (link_cmd k).
Definition with_ips (k : link) (l : list Z) (n : Z) : link :=
  Link (link_name k) (link_inside k) (link_outside k) (link_dev k) l n (link_kring k) (link_cmd k).
Definition with_kring (k : link) (r : option kring_kern) : link :=
  Link (link_name k) (link_inside k) (link_outside k) (link_dev k) (link_ips k) (link_nips k) r (link_cmd k).
Definition with_cmd (k : link) (r : option kring_kern) : link :=
  Link (link_name k) (link_inside k) (link_outside k) (link_dev k) (link_ips k) (link_nips k) (link_kring k) r.

(** ** The rings of a link *)

(** Running code of kdata.h, or of kctrl.h, on the rings of set [i]. *)
Definition on_data (sets : ringsets) (i : Z) (f : kdata_mem → res kdata_mem) : res ringsets :=
  set ← aget sets i;
  m ← map_res data_of (rs_ring set);
  m ← f m;
  aset sets i (set_rings set (zip_with (λ r d, set_shared r (SharedData d)) (rs_ring set) m)).

Definition on_ctrl {A} (sets : ringsets) (i : Z) (f : kctrl_mem → res (A * kctrl_mem))
    : res (A * ringsets) :=
  set ← aget sets i;
  m ← map_res ctrl_of (rs_ring set);
  '(a, m) ← f m;
  sets ← aset sets i (set_rings set (zip_with (λ r d, set_shared r (SharedCtrl d)) (rs_ring set) m));
  Ok (a, sets).

(** [kdata_kwrite( &link->kring, dir, skb )]: one turn per page, and one to end. *)
Definition pages_of (s : sk_buff) : nat := Z.to_nat (skb_len s / kdata_packet_max_data + 1).

Definition link_kwrite (st : shuttle) (k : link) (dir : Z) (s : sk_buff) : res shuttle :=
  kring ← deref (link_kring k);
  sets ← on_data (sh_sets st) (kk_ringset kring)
    (λ m, kdata_kwrite skb_len skb_copy_bits (S (pages_of s)) 7 kring m dir s);
  Ok (set_sets st sets).

(** Fuel to reverse a stack of at most 2048 pages. *)
Definition ctrl_fuel : nat := 2050.

(** [kctrl_kavail( &link->cmd )] *)
Definition link_kavail (st : shuttle) (k : link) : res bool :=
  kring ← deref (link_cmd k);
  set ← aget (sh_sets st) (kk_ringset kring);
  m ← map_res ctrl_of (rs_ring set);
  kctrl_kavail kring m.

(** [kctrl_knext_plain( &link->cmd, &plain )]: the bytes from [plain.bytes] to the
    end of the page, and [plain.len]. *)
Definition link_knext (st : shuttle) (k : link) : res (list Z * Z * shuttle) :=
  kring ← deref (link_cmd k);
  '(bl, sets) ← on_ctrl (sh_sets st) (kk_ringset kring) (λ m,
    '(plain, m) ← kctrl_knext_plain ctrl_fuel kring m;
    let '(h, o) := plain_bytes plain in
    bs ← cpage_load m h o (Z.to_nat KRING_PAGE_SIZE - o);
    Ok ((bs, plain_len plain), m));
  Ok (bl.1, bl.2, set_sets st sets).

(** ** The handlers *)

Section Kernel.
(** The kernel's [in_aton]; [sscanf] with the formats of a block and of a
    pass-through command, when it converts everything. *)
Context (in_aton : list Z → Z).
Context (sscanf_block : list Z → option (list Z * Z * list Z * Z)).
Context (sscanf_ip : list Z → option (list Z)).
(** What is in the tree part of a connection on the stack. *)
Context (junk : avl_el).

Definition get_link (rx_handler_data : Z → option positive) (s : sk_buff) : res (option positive) :=
  d ← deref (skb_dev s);
  Ok (rx_handler_data d).

(** The loop from [i] on. *)
Fixpoint ip_list_from (n : nat) (i : Z) (k : link) (ip : Z) : res bool :=
  match n with
  | O => Ok false
  | S n =>
      x ← aget (link_ips k) i;
      if x =? ip then Ok true else ip_list_from n (i + 1) k ip
  end.

Definition in_ip_list (k : link) (ip : Z) : res bool :=
  ip_list_from (Z.to_nat (link_nips k)) 0 k ip.

(** The connection of a frame. *)
Definition skb_conn (s : sk_buff) : res connection :=
  th ← tcp_hdr_at s;
  sa ← ip_saddr s;
  da ← ip_daddr s;
  source ← tcp_source s th;
  dest ← tcp_dest s th;
  Ok (Connection sa da (ntohs source) (ntohs dest)).

Definition block_conn (t : conn_table) (s : sk_buff) : res bool :=
  c ← skb_conn s;
  r ← conn_find t c;
  Ok (match r with Some _ => true | None => false end).

Definition link_ip_add_store (st : shuttle) (l : positive) (ip : list Z) : res (Z * shuttle) :=
  k ← deref (sh_link st !! l);
  if link_nips k <? LINK_IPS then
    ips ← aset (link_ips k) (link_nips k) (u32 (in_aton ip));
    Ok (0, set_link st l (with_ips k ips (i32 (link_nips k + 1))))
  else Ok (0, st).

(** [pc1] and [pc2] are what kmalloc gives. *)
Definition link_block_store (t : conn_table) (ip1 : list Z) (p1 : Z) (ip2 : list Z) (p2 : Z)
    (pc1 pc2 : option positive) : res (Z * conn_table) :=
  let bip1 := u32 (in_aton ip1) in
  let bip2 := u32 (in_aton ip2) in
  let c1 := Connection bip1 bip2 (u16 p1) (u16 p2) in
  let c2 := Connection bip2 bip1 (u16 p2) (u16 p1) in
  r ← conn_find t c1;
  match r with
  | Some _ => Ok (0, t)
  | None =>
      '(a1, t) ← store_conn t pc1 c1 junk;
      '(a2, t) ← store_conn t pc2 c2 junk;
      t ← conn_insert t a1;
      t ← conn_insert t a2;
      _ ← conn_find t c1;
      Ok (0, t)
  end.

(** A string that [sscanf] stores in an array of 32. *)
Definition fits_32 (s : list Z) : res (list Z) :=
  if decide (length s < 32)%nat then Ok s else Ub.

Definition parse_kring_command (st : shuttle) (l : positive) (bytes : list Z)
    (pc1 pc2 : option positive) : res shuttle :=
  b0 ← aget bytes 0;
  if b0 =? 98 (* 'b' *) then
    match sscanf_block bytes with
    | Some (ip1, p1, ip2, p2) =>
        ip1 ← fits_32 ip1;
        ip2 ← fits_32 ip2;
        '(_, t) ← link_block_store (sh_block st) ip1 p1 ip2 p2 pc1 pc2;
        Ok (set_block st t)
    | None => Ok st
    end
  else if b0 =? 112 (* 'p' *) then
    match sscanf_ip bytes with
    | Some ip =>
        ip ← fits_32 ip;
        '(_, st) ← link_ip_add_store st l ip;
        Ok st
    | None => Ok st
    end
  else Ok st.

(** The command, if one is there, before the frame is looked at. *)
Definition take_command (st : shuttle) (l : positive) (k : link) (pc1 pc2 : option positive)
    : res shuttle :=
  a ← link_kavail st k;
  if (a : bool) then
    '(bytes, _, st) ← link_knext st k;
    parse_kring_command st l bytes pc1 pc2
  else Ok st.

(** A frame with the link-layer header back in front, to the ring. *)
Definition record_frame (st : shuttle) (k : link) (dir : Z) (s : sk_buff) : res (sk_buff * shuttle) :=
  let s := skb_push s ETH_HLEN in
  st ← link_kwrite st k dir s;
  Ok (s, st).

(** To the device [d], recorded as [dir]. *)
Definition forward (st : shuttle) (k : link) (d : option Z) (dir : Z) (s : sk_buff) : res shuttle :=
  '(s, st) ← record_frame st k dir (skb_set_dev s d);
  Ok (call st (Dev_queue_xmit s)).

(** [skb->dev == link->inside] *)
Definition handle_inside (st : shuttle) (k : link) (s : sk_buff) : res shuttle :=
  proto ← eth_h_proto s;
  if proto =? htons ETH_P_ARP then
    let up := skb_set_type (skb_set_dev s (link_dev k)) PACKET_HOST in
    forward (call st (Netif_receive up)) k (link_outside k) KDATA_DIR_INSIDE s
  else if proto =? htons ETH_P_IP then
    protocol ← ip_protocol s;
    if protocol =? IPPROTO_TCP then
      blocked ← block_conn (sh_block st) s;
      if (blocked : bool) then Ok (call st (Kfree_skb s))
      else
        th ← tcp_hdr_at s;
        dest ← tcp_dest s th;
        da ← ip_daddr s;
        listed ← (if dest =? htons 443 then in_ip_list k da else Ok false);
        if (listed : bool) then
          let s := skb_set_type (skb_set_dev s (link_dev k)) PACKET_HOST in
          '(s, st) ← record_frame st k KDATA_DIR_INSIDE s;
          Ok (call st (Netif_receive (skb_pull s ETH_HLEN)))
        else forward st k (link_outside k) KDATA_DIR_INSIDE s
    else forward st k (link_outside k) KDATA_DIR_INSIDE s
  else forward st k (link_outside k) KDATA_DIR_INSIDE s.

Definition handle_outside (st : shuttle) (k : link) (s : sk_buff) : res shuttle :=
  proto ← eth_h_proto s;
  blocked ←
    (if proto =? htons ETH_P_IP then
       protocol ← ip_protocol s;
       if protocol =? IPPROTO_TCP then block_conn (sh_block st) s else Ok false
     else Ok false);
  if (blocked : bool) then Ok (call st (Kfree_skb s))
  else forward st k (link_inside k) KDATA_DIR_OUTSIDE s.

(** [up->dev] and [skb->dev] change before their call; every path returns
    RX_HANDLER_CONSUMED. *)
Definition shuttle_handle_frame (rx_handler_data : Z → option positive) (st : shuttle) (s : sk_buff)
    (pc1 pc2 : option positive) : res shuttle :=
  l ← get_link rx_handler_data s;
  match l with
  | None => Ok (call st (Kfree_skb s))
  | Some l =>
      k ← deref (sh_link st !! l);
      match link_inside k, link_outside k with
      | Some _, Some _ =>
          st ← take_command st l k pc1 pc2;
          k ← deref (sh_link st !! l);
          if bool_decide (skb_dev s = link_inside k) then handle_inside st k s
          else if bool_decide (skb_dev s = link_outside k) then handle_outside st k s
          else Ok (call st (Kfree_skb s))
      | _, _ => Ok (call st (Kfree_skb s))
      end
  end.

(** C strings "inside" and "outside". *)
Definition str_inside : list Z := [105; 110; 115; 105; 100; 101].
Definition str_outside : list Z := [111; 117; 116; 115; 105; 100; 101].

(** [dev_get_by_name] gives the device of a name, with a reference to it. *)
Context (dev_by_name : list Z → option Z).

Definition link_port_add_store (st : shuttle) (l : positive) (iface dir : list Z) : res (Z * shuttle) :=
  let inside := streq dir str_inside in
  if negb inside && negb (streq dir str_outside) then Ok (- EINVAL, st)
  else
    match dev_by_name iface with
    | None => Ok (- EINVAL, st)
    | Some dev =>
        let st := call st (Dev_get dev) in
        k ← deref (sh_link st !! l);
        let st := set_link st l (if inside then with_inside k (Some dev) else with_outside k (Some dev)) in
        Ok (0, call (call st (Dev_set_promiscuity dev 1)) (Rx_register dev l))
    end.

Definition link_port_del_store (st : shuttle) (l : positive) (iface : list Z) : res (Z * shuttle) :=
  match dev_by_name iface with
  | None => Ok (- EINVAL, st)
  | Some dev =>
      let st := call st (Dev_get dev) in
      k ← deref (sh_link st !! l);
      let k' := if bool_decide (link_inside k = Some dev) then with_inside k None
                else if bool_decide (link_outside k = Some dev) then with_outside k None
                else k in
      let st := set_link st l k' in
      let st := call (call st (Rx_unregister dev)) (Dev_set_promiscuity dev (-1)) in
      Ok (0, call (call st (Dev_put dev)) (Dev_put dev))
  end.

(** [dev] is what [alloc_netdev] gives, [res] the result of [register_netdev]. *)
Definition create_netdev (st : shuttle) (l : positive) (dev : option Z) (res : Z) : Prelude.res (Z * shuttle) :=
  match dev with
  | None => Ok (- ENOMEM, st)
  | Some dev =>
      if negb (res =? 0) then Ok (res, st)
      else
        k ← deref (sh_link st !! l);
        Ok (res, set_link st l (with_dev k (Some dev)))
  end.

(** strcpy into an array of 32. *)
Definition strcpy_32 (dst src : list Z) : res (list Z) :=
  mem_store dst 0 (cstr src ++ [0]).

(** [new] is the link that [create_link] made, null if it failed.  The results of
    [kring_kopen] are only printed. *)
Definition shuttle_add_store (st : shuttle) (new : option positive) (dev : option Z) (registered : Z)
    (name ctrl ring : list Z) : res (Z * shuttle) :=
  l ← deref new;
  let st := set_list (set_link st l zero_link) (sh_list st ++ [l]) in
  nm ← strcpy_32 (link_name zero_link) name;
  let st := set_link st l (with_name zero_link nm) in
  '(_, st) ← create_netdev st l dev registered;
  '(_, kring, sets) ← kring_kopen (sh_sets st) KRING_DATA ring 0 KRING_WRITE;
  k ← deref (sh_link st !! l);
  let st := set_link (set_sets st sets) l (with_kring k kring) in
  '(_, cmd, sets) ← kring_kopen (sh_sets st) KRING_CTRL ctrl 0 KRING_READ;
  k ← deref (sh_link st !! l);
  Ok (0, set_link (set_sets st sets) l (with_cmd k cmd)).

(** The first link of the list with the name. *)
Fixpoint find_link (links : gmap positive link) (ls : list positive) (name : list Z)
    : res (option positive) :=
  match ls with
  | [] => Ok None
  | l :: ls =>
      k ← deref (links !! l);
      if streq (link_name k) name then Ok (Some l) else find_link links ls name
  end.

(** [list_del] *)
Definition list_del (l : positive) (ls : list positive) : list positive := filter (λ x, x ≠ l) ls.

Definition shuttle_del_store (st : shuttle) (name : list Z) : res (Z * shuttle) :=
  found ← find_link (sh_link st) (sh_list st) name;
  match found with
  | None => Ok (0, st)
  | Some l =>
      k ← deref (sh_link st !! l);
      cmd ← deref (link_cmd k);
      '(_, sets) ← kring_kclose (sh_sets st) cmd;
      kring ← deref (link_kring k);
      '(_, sets) ← kring_kclose sets kring;
      let st := call (set_sets st sets) (Unregister_netdevice (link_dev k)) in
      Ok (0, call (set_list st (list_del l (sh_list st))) (Kobject_put l))
  end.

(** Frames from the local stack; [l] is [priv->link]. *)
Definition shuttle_dev_xmit (st : shuttle) (l : positive) (s : sk_buff) : res shuttle :=
  k ← deref (sh_link st !! l);
  let s := skb_set_dev s (link_inside k) in
  st ← link_kwrite st k KDATA_DIR_OUTSIDE s;
  Ok (call st (Dev_queue_xmit s)).
End Kernel.
