(* ===== verification/ShuttleProps.v ===== *)
(** * What the shuttle module promises

    The table of blocked connections holds exactly the connections that were
    commanded, in both directions; every frame is disposed of once, and what
    passes through a link is in the data ring for every reader; the list of
    pass-through addresses stays within its array. *)

From stdpp Require Import sorting.
From S2P Require Import Prelude KrDep KData KDataIO KDataRing KDataQueue KDataSpec KDataProps.
From S2P Require Import KCtrl KSocket Avl AvlZip AvlHeap AvlInsert AvlProps Shuttle.

(** ** The order of connections *)

Definition conn_lt (x y : connection) : Prop :=
  addr1 x < addr1 y ∨ addr1 x = addr1 y ∧
  (addr2 x < addr2 y ∨ addr2 x = addr2 y ∧
   (port1 x < port1 y ∨ port1 x = port1 y ∧ port2 x < port2 y)).

Lemma conn_compare_cases x y :
  conn_compare x y = -1 ∧ conn_lt x y ∨ conn_compare x y = 1 ∧ conn_lt y x ∨
  conn_compare x y = 0 ∧ x = y.
Proof.
  unfold conn_compare, conn_lt. destruct x as [a1 a2 p1 p2], y as [b1 b2 q1 q2]; cbn.
  repeat match goal with |- context [?u <? ?v] => destruct (Z.ltb_spec u v) end;
    first [left; split; [done|lia]|right; left; split; [done|lia]|right; right; split; [done|f_equal; lia]].
Qed.

Lemma conn_lt_irrefl x : ¬ conn_lt x x.
Proof. unfold conn_lt. lia. Qed.

Lemma conn_lt_trans x y z : conn_lt x y → conn_lt y z → conn_lt x z.
Proof. unfold conn_lt. lia. Qed.

Lemma conn_compare_neg x y : conn_compare x y < 0 ↔ conn_lt x y.
Proof.
  destruct (conn_compare_cases x y) as [[-> H]|[[-> H]|[-> ->]]]; split; intros X; try done; try lia.
  - destruct (conn_lt_irrefl x). by eapply conn_lt_trans.
  - by destruct (conn_lt_irrefl y).
Qed.

Lemma conn_compare_pos x y : 0 < conn_compare x y ↔ conn_lt y x.
Proof.
  destruct (conn_compare_cases x y) as [[-> H]|[[-> H]|[-> ->]]]; split; intros X; try done; try lia.
  - destruct (conn_lt_irrefl x). by eapply conn_lt_trans.
  - by destruct (conn_lt_irrefl y).
Qed.

#[global] Instance conn_order : CmpOrder conn_compare.
Proof.
  split.
  - intros x y. split.
    + destruct (conn_compare_cases x y) as [[-> _]|[[-> _]|[_ ->]]]; done.
    + intros ->. destruct (conn_compare_cases y y) as [[_ H]|[[_ H]|[-> _]]]; [by destruct (conn_lt_irrefl y)..|done].
  - intros x y. by rewrite conn_compare_neg, conn_compare_pos.
  - intros x y z. rewrite !conn_compare_neg. apply conn_lt_trans.
Qed.

#[global] Instance connection_eq_dec : EqDecision connection.
Proof. solve_decision. Defined.

#[global] Instance connection_countable : Countable connection.
Proof.
  apply (inj_countable' (λ c, (addr1 c, addr2 c, port1 c, port2 c))
    (λ '(a, b, p, q), Connection a b p q)). by intros [].
Defined.

(** ** The table of blocked connections *)

(** [t] holds the connections [S], in at most [n] elements, of which [ls]. *)
Definition table_at (t : conn_table) (S : gset connection) (n : nat) (ls : list positive) : Prop :=
  avl_rep conn_compare (ct_els t) (ct_keys t) (ct_tree t) ls ∧ (length ls ≤ n)%nat ∧
  ∀ c, c ∈ S ↔ ∃ p, p ∈ ls ∧ ct_keys t !! p = Some c.

Definition table_rep (t : conn_table) (S : gset connection) (n : nat) : Prop := ∃ ls, table_at t S n ls.

Lemma table_rep_empty : table_rep empty_table ∅ 0.
Proof. exists []. split; [apply avl_rep_empty|]. split; [done|]. set_solver. Qed.

Lemma table_fuel t S n ls : table_at t S n ls → (search_steps (length ls) ≤ tree_fuel t)%nat.
Proof.
  intros (R & _). unfold search_steps, tree_fuel. rewrite (rep_size _ _ _ _ _ R), Nat2Z.id.
  pose proof (Z.log2_lt_lin (Z.of_nat (length ls) + 1)). lia.
Qed.

Lemma conn_find_ok t S n c : table_rep t S n →
  ∃ r, conn_find t c = Ok r ∧ (r = None ↔ c ∉ S).
Proof.
  intros [ls T]. pose proof T as (R & _ & HS).
  destruct (find_rep conn_compare _ _ _ _ c _ R (table_fuel _ _ _ _ T)) as (r & E & Hr).
  exists r. split; [exact E|]. rewrite (HS c). destruct r as [p|].
  - split; [done|]. intros X. destruct X. by exists p.
  - split; [|done]. intros _ (p & Hp & Ep). by apply (Hr p).
Qed.

(** An element in memory that is not in the tree. *)
Lemma conn_insert_ok t S n ls a c e :
  table_at t S n ls → Z.of_nat n ≤ MAXH → a ∉ ls → ct_els t !! a = Some e → ct_keys t !! a = Some c →
  ∃ t' ls', conn_insert t a = Ok t' ∧ table_at t' (S ∪ {[c]}) (n + 1) ls' ∧ ct_keys t' = ct_keys t ∧
    ls' ⊆ a :: ls ∧ only (a :: ls) (ct_els t) (ct_els t').
Proof.
  intros T Hn Ha Ee Ek. pose proof T as (R & L & HS). unfold conn_insert.
  destruct (insert_rep conn_compare _ _ _ _ a c e _ R Ee Ek Ha ltac:(lia) (table_fuel _ _ _ _ T))
    as [(p & Hp & Ep & ->)|[Hno (els' & tree' & l1 & l2 & El & -> & R' & O)]]; rewrite bind_Ok.
  - exists t, ls. destruct t as [els keys tree]. cbn in *. split_and!; try done; [|set_solver].
    split; [done|]. split; [lia|]. intros x. rewrite <- (HS x), elem_of_union, elem_of_singleton.
    split; [|tauto]. intros [H| ->]; [done|]. apply HS. by exists p.
  - eexists _, (l1 ++ a :: l2). split; [done|]. cbn. split_and!; try done; [|rewrite El; set_solver].
    split; [done|]. rewrite El, !length_app in *. cbn [length ct_keys] in *. split; [lia|]. intros x.
    rewrite elem_of_union, elem_of_singleton, (HS x). split.
    + intros [(p & Hp & E)| ->]; [|exists a; set_solver]. exists p. split; [set_solver|done].
    + intros (p & Hp & E). destruct (decide (p = a)) as [->|]; [right; congruence|].
      left. exists p. split; [set_solver|done].
Qed.

(** The same connection seen from the other end. *)
Definition flip_conn (c : connection) : connection := Connection (addr2 c) (addr1 c) (port2 c) (port1 c).

Lemma flip_flip c : flip_conn (flip_conn c) = c.
Proof. by destruct c. Qed.

Definition both_ways (S : gset connection) : Prop := ∀ c, c ∈ S → flip_conn c ∈ S.

Section Block.
Context (in_aton : list Z → Z) (junk : avl_el).

(** A block command and the connection it names. *)
Definition block_cmd : Type := list Z * Z * list Z * Z.
Definition cmd_conn (b : block_cmd) : connection :=
  let '(ip1, p1, ip2, p2) := b in
  Connection (u32 (in_aton ip1)) (u32 (in_aton ip2)) (u16 p1) (u16 p2).

Lemma not_in_ls t S n ls a : table_at t S n ls → a ∉ dom (ct_keys t) → a ∉ ls.
Proof. intros (R & _) Ha Hin. apply Ha, elem_of_dom. by apply (rep_keys _ _ _ _ _ R). Qed.

(** An element stored, but not in the tree. *)
Lemma table_at_store t S n ls a c : table_at t S n ls → a ∉ ls →
  table_at (ConnTable (<[a := junk]> (ct_els t)) (<[a := c]> (ct_keys t)) (ct_tree t)) S n ls.
Proof.
  intros (R & L & HS) Ha. split; [by apply avl_rep_els, Ha; apply avl_rep_keys|]. split; [done|].
  intros x. rewrite (HS x). cbn. split; intros (p & Hp & E); exists p; (split; [done|]).
  - rewrite lookup_insert_ne; [done|]. by intros ->.
  - rewrite lookup_insert_ne in E; [done|]. by intros ->.
Qed.

Lemma block_store_ok t S n ip1 p1 ip2 p2 a1 a2 :
  table_rep t S n → both_ways S → Z.of_nat n + 2 ≤ MAXH →
  a1 ∉ dom (ct_keys t) → a2 ∉ dom (ct_keys t) → a1 ≠ a2 →
  ∃ t', link_block_store in_aton junk t ip1 p1 ip2 p2 (Some a1) (Some a2) = Ok (0, t') ∧
    table_rep t' (S ∪ {[cmd_conn (ip1, p1, ip2, p2); flip_conn (cmd_conn (ip1, p1, ip2, p2))]}) (n + 2) ∧
    both_ways (S ∪ {[cmd_conn (ip1, p1, ip2, p2); flip_conn (cmd_conn (ip1, p1, ip2, p2))]}).
Proof.
  intros T Hs Hn H1 H2 Hne. set (c := cmd_conn (ip1, p1, ip2, p2)).
  assert (both_ways (S ∪ {[c; flip_conn c]})) as Hs'.
  { intros x. rewrite !elem_of_union, !elem_of_singleton. intros [H|[-> | ->]]; [left; by apply Hs|tauto|].
    rewrite flip_flip. tauto. }
  unfold link_block_store. cbn zeta.
  change (Connection (u32 (in_aton ip1)) (u32 (in_aton ip2)) (u16 p1) (u16 p2)) with c.
  change (Connection (u32 (in_aton ip2)) (u32 (in_aton ip1)) (u16 p2) (u16 p1)) with (flip_conn c).
  destruct (conn_find_ok t S n c T) as (r & -> & Hr). rewrite bind_Ok. destruct r as [p|].
  { assert (c ∈ S) as Hc by (apply dec_stable; intros X; by apply Hr in X).
    exists t. split; [done|]. split; [|done]. destruct T as (ls & R & L & HS). exists ls. split; [done|]. split; [lia|].
    intros x. rewrite <- (HS x). pose proof (Hs c Hc). set_solver. }
  destruct T as [ls T]. pose proof (not_in_ls _ _ _ _ _ T H1) as N1. pose proof (not_in_ls _ _ _ _ _ T H2) as N2.
  unfold store_conn. cbn [deref]. rewrite !bind_Ok. cbn [ct_els ct_keys ct_tree].
  apply (table_at_store _ _ _ _ a1 c) in T; [|done]. apply (table_at_store _ _ _ _ a2 (flip_conn c)) in T; [|done].
  cbn [ct_els ct_keys ct_tree] in T.
  destruct (conn_insert_ok _ _ _ _ a1 c junk T ltac:(lia) N1) as (t1 & ls1 & -> & T1 & K1 & L1 & O1);
    [cbn; rewrite lookup_insert_ne, lookup_insert_eq by done; done..|].
  rewrite bind_Ok.
  assert (a2 ∉ a1 :: ls) as N2' by set_solver.
  destruct (conn_insert_ok _ _ _ _ a2 (flip_conn c) junk T1 ltac:(lia)) as (t2 & ls2 & -> & T2 & _);
    [set_solver|rewrite (O1 a2 N2'); apply lookup_insert_eq|rewrite K1; apply lookup_insert_eq|].
  rewrite bind_Ok. replace (n + 1 + 1)%nat with (n + 2)%nat in T2 by lia. rewrite <- union_assoc_L in T2.
  destruct (conn_find_ok t2 _ _ c (ex_intro _ ls2 T2)) as (r & -> & _). rewrite bind_Ok.
  exists t2. split; [done|]. split; [by exists ls2|done].
Qed.

(** Commands in a row; [kmalloc] gives memory that is not in use. *)
Context (kmalloc : gset positive → positive).

Fixpoint run_blocks (t : conn_table) (cmds : list block_cmd) : res conn_table :=
  match cmds with
  | [] => Ok t
  | (ip1, p1, ip2, p2) :: cmds =>
      let a1 := kmalloc (dom (ct_keys t)) in
      let a2 := kmalloc ({[a1]} ∪ dom (ct_keys t)) in
      '(_, t) ← link_block_store in_aton junk t ip1 p1 ip2 p2 (Some a1) (Some a2);
      run_blocks t cmds
  end.

(** The connections the commands name, and their other ends. *)
Definition named (cmds : list block_cmd) : gset connection :=
  list_to_set (cmd_conn <$> cmds) ∪ list_to_set (flip_conn ∘ cmd_conn <$> cmds).

Lemma named_cons b cmds : named (b :: cmds) = {[cmd_conn b; flip_conn (cmd_conn b)]} ∪ named cmds.
Proof. unfold named. rewrite !fmap_cons. cbn. set_solver. Qed.

Lemma run_blocks_ok cmds : (∀ D, kmalloc D ∉ D) → ∀ t S n,
  table_rep t S n → both_ways S → Z.of_nat n + 2 * Z.of_nat (length cmds) ≤ MAXH →
  ∃ t' n', run_blocks t cmds = Ok t' ∧ table_rep t' (S ∪ named cmds) n'.
Proof.
  intros Hf. induction cmds as [|[[[ip1 p1] ip2] p2] cmds IH]; intros t S n T Hs Hn.
  - exists t, n. split; [done|]. replace (S ∪ named []) with S; [done|]. unfold named. set_solver.
  - cbn [run_blocks length] in *.
    set (a1 := kmalloc (dom (ct_keys t))). set (a2 := kmalloc ({[a1]} ∪ dom (ct_keys t))).
    pose proof (Hf (dom (ct_keys t))) as H1. pose proof (Hf ({[a1]} ∪ dom (ct_keys t))) as H2.
    destruct (block_store_ok t S n ip1 p1 ip2 p2 a1 a2 T Hs) as (t1 & -> & T1 & Hs1);
      [lia|done|unfold a2; set_solver|unfold a2; set_solver|].
    rewrite bind_Ok. destruct (IH t1 _ _ T1 Hs1) as (t' & n' & E & T'); [lia|].
    exists t', n'. split; [done|]. by rewrite named_cons, union_assoc_L.
Qed.
End Block.

(** C16: After any sequence of block commands, a TCP frame is blocked exactly if a
    command named its connection, in the direction of the frame or in the other. *)
Theorem blocked_iff_commanded in_aton junk kmalloc cmds s c :
  (∀ D, kmalloc D ∉ D) → 2 * Z.of_nat (length cmds) ≤ MAXH → skb_conn s = Ok c →
  ∃ t, run_blocks in_aton junk kmalloc empty_table cmds = Ok t ∧
    block_conn t s = Ok (bool_decide (c ∈ cmd_conn in_aton <$> cmds ∨ flip_conn c ∈ cmd_conn in_aton <$> cmds)).
Proof.
  intros Hf Hn Hc.
  destruct (run_blocks_ok in_aton junk kmalloc cmds Hf empty_table ∅ 0) as (t & n & E & T);
    [apply table_rep_empty|by intros ? ?|lia|].
  exists t. split; [done|]. unfold block_conn. rewrite Hc, bind_Ok.
  destruct (conn_find_ok t _ n c T) as (r & -> & Hr). rewrite bind_Ok. f_equal.
  assert (c ∈ ∅ ∪ named in_aton cmds ↔ c ∈ cmd_conn in_aton <$> cmds ∨ flip_conn c ∈ cmd_conn in_aton <$> cmds) as Hm.
  { unfold named. rewrite union_empty_l_L, elem_of_union, !elem_of_list_to_set, list_fmap_compose.
    enough (c ∈ flip_conn <$> (cmd_conn in_aton <$> cmds) ↔ flip_conn c ∈ cmd_conn in_aton <$> cmds) by tauto.
    rewrite list_elem_of_fmap. split; [intros (y & -> & Hy); by rewrite flip_flip|].
    intros H. exists (flip_conn c). by rewrite flip_flip. }
  destruct r as [p|]; symmetry.
  - apply bool_decide_true, Hm, dec_stable. intros X. by apply Hr in X.
  - apply bool_decide_false. rewrite <- Hm. by apply Hr.
Qed.

(** An IPv4 frame with a TCP segment from 10.0.0.[a] to 10.0.0.[b], ports [p], [q]. *)
Definition tcp_frame (a p b q : Z) : list Z :=
  replicate 12 0 ++ [8; 0] ++
  [69; 0; 0; 40; 0; 0; 0; 0; 64; 6; 0; 0; 10; 0; 0; a; 10; 0; 0; b] ++
  [p / 256; p mod 256; q / 256; q mod 256] ++ replicate 16 0.

Definition demo_skb (dev : Z) (frame : list Z) : sk_buff := SkBuff frame 14 0 14 (Some dev) 0.

(** The last number of an address of the form 10.0.0.[x], given as one character. *)
Definition demo_aton (s : list Z) : Z := 10 + 256 * 256 * 256 * nth 0 s 0.

Lemma blocked_iff_commanded_witness :
  ∃ t, run_blocks demo_aton (AvlEl None None None 0) fresh empty_table [([1], 4000, [2], 443)] = Ok t ∧
    block_conn t (demo_skb 1 (tcp_frame 2 443 1 4000)) = Ok true.
Proof.
  destruct (blocked_iff_commanded demo_aton (AvlEl None None None 0) fresh [([1], 4000, [2], 443)]
    (demo_skb 1 (tcp_frame 2 443 1 4000)) (Connection 0x0200000a 0x0100000a 443 4000)) as (t & E & B).
  - intros D. apply is_fresh.
  - done.
  - by vm_compute.
  - exists t. split; [exact E|]. etransitivity; [exact B|]. by vm_compute.
Defined.

(** ** Recording a frame *)

Lemma map_res_data rings m :
  map_res data_of rings = Ok m → zip_with (λ r d, set_shared r (SharedData d)) rings m = rings.
Proof.
  revert m. induction rings as [|r rings IH]; intros m H; cbn in H; [by injection H as <-|].
  apply bind_Ok_inv in H as (d & Ed & H). apply bind_Ok_inv in H as (ds & Eds & H). injection H as <-.
  cbn. rewrite (IH _ Eds). f_equal. unfold data_of in Ed. destruct r as [a b c e [x|x]]; [|done].
  cbn in *. by injection Ed as ->.
Qed.

Lemma map_res_data_insert rings m j r ring :
  map_res data_of rings = Ok m → rings !! j = Some ring →
  zip_with (λ r d, set_shared r (SharedData d)) rings (<[j := r]> m) =
  <[j := set_shared ring (SharedData r)]> rings.
Proof.
  intros H E. pose proof (map_res_data _ _ H) as Hz. revert m j H E Hz.
  induction rings as [|r0 rings IH]; intros m j H E Hz; [done|]. cbn in H.
  apply bind_Ok_inv in H as (d & Ed & H). apply bind_Ok_inv in H as (ds & Eds & H). injection H as <-.
  cbn in Hz. injection Hz as Hz0 Hz. destruct j as [|j]; cbn in *.
  - injection E as ->. by rewrite Hz.
  - f_equal; [done|]. by apply IH.
Qed.

(** The ring [j] of set [i], with its set. *)
Record data_ring_at (sets : ringsets) (i j : Z) (set : kring_ringset) (ring : kring_ring) (r : kdata_ring) : Prop := {
  da_set : aget sets i = Ok set;
  da_ring : aget (rs_ring set) j = Ok ring;
  da_data : ring_shared ring = SharedData r;
  da_all : ∃ m, map_res data_of (rs_ring set) = Ok m;
}.

Definition put_ring (sets : ringsets) (i j : Z) (set : kring_ringset) (ring : kring_ring) (r : kdata_ring) : ringsets :=
  <[Z.to_nat i := set_rings set (<[Z.to_nat j := set_shared ring (SharedData r)]> (rs_ring set))]> sets.

Lemma map_res_lookup rings m j ring r :
  map_res data_of rings = Ok m → aget rings j = Ok ring → ring_shared ring = SharedData r → aget m j = Ok r.
Proof.
  intros H [Hj E]%aget_Ok Hr. apply aget_Ok. split; [done|]. revert m H E. generalize (Z.to_nat j) as k.
  induction rings as [|r0 rings IH]; intros k m H E; [done|]. cbn in H.
  apply bind_Ok_inv in H as (d & Ed & H). apply bind_Ok_inv in H as (ds & Eds & H). injection H as <-.
  destruct k as [|k]; cbn in *; [|by apply IH]. injection E as ->. unfold data_of in Ed. rewrite Hr in Ed. congruence.
Qed.

(** What a link writes to: its handle, and the state of the ring it is open on. *)
Record link_ring (st : shuttle) (k : link) (kring : kring_kern) (set : kring_ringset)
    (ring : kring_ring) (r : kdata_ring) (q : queues kring_page) (holds : gset (Z * Z)) : Prop := {
  lr_handle : link_kring k = Some kring;
  lr_maps : maps_ring (kk_user kring) 0 (kk_ring_id kring);
  lr_at : data_ring_at (sh_sets st) (kk_ringset kring) (kk_ring_id kring) set ring r;
  lr_rep : rep q holds r;
}.

(** A socket buffer of bytes, with room for it in the ring. *)
Definition skb_fits (s : sk_buff) (q : queues kring_page) : Prop :=
  Forall is_byte (skb_frame s) ∧ skb_len s < 2 ^ 30 ∧
  room q (Z.of_nat (length (fragments (pages_of s) (skb_bytes s)))).

(** The whole of [bs], in the packets [pgs], marked [dir]. *)
Definition carries (dir : Z) (n : nat) (bs : list Z) (pgs : list kring_page) : Prop :=
  Forall2 (λ pg f, packet_of pg = Ok (f.1, i8 dir, f.2)) pgs (fragments n bs) ∧
  concat (snd <$> fragments n bs) = bs.

Lemma link_kwrite_ok st k kring set ring r q holds dir s :
  link_ring st k kring set ring r q holds → skb_fits s q →
  ∃ r' pgs, link_kwrite st k dir s =
      Ok (set_sets st (put_ring (sh_sets st) (kk_ringset kring) (kk_ring_id kring) set ring r')) ∧
    rep ((λ ps, ps ++ pgs) <$> q) holds r' ∧ carries dir (pages_of s) (skb_bytes s) pgs.
Proof.
  intros [Hk Hm [Es Er Ed [m Em]] R] (Hb & Hl & Hroom).
  pose proof (map_res_lookup _ _ _ _ _ Em Er Ed) as E.
  assert (skb_len s ≤ Z.of_nat (pages_of s) * kdata_packet_max_data) as Hn.
  { unfold pages_of. assert (kdata_packet_max_data = 4088) as -> by done.
    assert (0 ≤ skb_len s) as H0 by (unfold skb_len; lia).
    pose proof (Z.div_mod (skb_len s) 4088 ltac:(done)). pose proof (Z.mod_pos_bound (skb_len s) 4088 ltac:(done)).
    pose proof (Z.div_pos (skb_len s) 4088 H0 ltac:(done)). lia. }
  destruct (kwrite_loop_ok skb_len skb_copy_bits skb_bytes (λ _, eq_refl) (λ _ _ _ _ _ _, eq_refl)
    kring (kk_ring_id kring) Hm eq_refl (pages_of s) q holds m r dir s 0 E R)
    as (r' & pgs & Ek & F & R').
  { by apply Forall_drop. }
  { unfold skb_len. lia. }
  { done. }
  { unfold rest_of. by rewrite drop_0. }
  { unfold rest_of. by rewrite drop_0. }
  exists r', pgs. unfold link_kwrite. rewrite Hk. cbn [deref]. rewrite bind_Ok. unfold on_data.
  rewrite Es, bind_Ok, Em, bind_Ok. unfold kdata_kwrite. rewrite Ek, bind_Ok.
  apply aget_Ok in Er as [Hj Er]. rewrite (map_res_data_insert _ _ _ _ ring Em Er).
  apply aget_Ok_range in Es. rewrite aset_in_range by done. rewrite bind_Ok. split_and!; [done|done|].
  unfold rest_of in F. rewrite drop_0 in F. split; [exact F|]. by apply fragments_whole.
Qed.

(** ** The fate of a frame *)

Lemma block_conn_ok t S n s c : table_rep t S n → skb_conn s = Ok c → block_conn t s = Ok (bool_decide (c ∈ S)).
Proof.
  intros T Hc. unfold block_conn. rewrite Hc, bind_Ok.
  destruct (conn_find_ok t S n c T) as (r & -> & Hr). rewrite bind_Ok. f_equal. destruct r as [p|]; symmetry.
  - apply bool_decide_true, dec_stable. intros X. by apply Hr in X.
  - apply bool_decide_false. by apply Hr.
Qed.

Definition link_wf (k : link) : Prop :=
  length (link_ips k) = Z.to_nat LINK_IPS ∧ 0 ≤ link_nips k ≤ LINK_IPS.

Definition listed (k : link) : list Z := take (Z.to_nat (link_nips k)) (link_ips k).

Lemma ip_list_from_ok k ip n : ∀ i, 0 ≤ i → i + Z.of_nat n ≤ Z.of_nat (length (link_ips k)) →
  ip_list_from n i k ip = Ok (bool_decide (ip ∈ take n (drop (Z.to_nat i) (link_ips k)))).
Proof.
  induction n as [|n IH]; intros i Hi Hn; [done|]. cbn [ip_list_from].
  destruct (aget_in_range (link_ips k) i) as [x Ex]; [lia|]. rewrite Ex, bind_Ok.
  apply aget_Ok in Ex as [_ Ex]. rewrite (drop_S _ x _ Ex). cbn [take].
  destruct (Z.eqb_spec x ip) as [->|Hne].
  - rewrite bool_decide_true; [done|]. by left.
  - rewrite IH by lia. f_equal. apply bool_decide_ext. replace (Z.to_nat (i + 1)) with (S (Z.to_nat i)) by lia.
    rewrite elem_of_cons. naive_solver.
Qed.

Lemma in_ip_list_ok k ip : link_wf k → in_ip_list k ip = Ok (bool_decide (ip ∈ listed k)).
Proof. intros [L H]. unfold in_ip_list. rewrite ip_list_from_ok; [done|done|]. rewrite L. lia. Qed.

Lemma le_val_range bs : Forall is_byte bs → 0 ≤ le_val bs < 2 ^ (8 * Z.of_nat (length bs)).
Proof.
  induction 1 as [|b bs Hb F IH]; [done|]. cbn [le_val length]. unfold is_byte in Hb.
  replace (8 * Z.of_nat (S (length bs))) with (8 + 8 * Z.of_nat (length bs)) by lia.
  rewrite Z.pow_add_r by lia. lia.
Qed.

Lemma frame_load_range s o n v : Forall is_byte (skb_frame s) → frame_load s o n = Ok v →
  0 ≤ v < 2 ^ (8 * Z.of_nat n).
Proof.
  intros F H. unfold frame_load in H. case_decide; [|done]. apply bind_Ok_inv in H as (bs & Hb & [= <-]).
  unfold mem_load in Hb. case_decide as Hl; [|done]. injection Hb as <-.
  replace n with (length (take n (drop (Z.to_nat o) (skb_frame s)))) at 3 by (rewrite length_take, length_drop; lia).
  by apply le_val_range, Forall_take, Forall_drop.
Qed.

Lemma htons_443 d : 0 ≤ d < 2 ^ 16 → (d =? htons 443) = (ntohs d =? 443).
Proof.
  intros H. unfold ntohs, htons. change (443 mod 256 * 256 + 443 / 256 mod 256) with 47873.
  apply eq_true_iff_eq. rewrite !Z.eqb_eq. Z.to_euclidean_division_equations. lia.
Qed.

(** The connection of a frame, if it is TCP. *)
Definition tcp_of (s : sk_buff) : res (option connection) :=
  proto ← eth_h_proto s;
  if proto =? htons ETH_P_IP then
    protocol ← ip_protocol s;
    if protocol =? IPPROTO_TCP then c ← skb_conn s; Ok (Some c) else Ok None
  else Ok None.

Inductive verdict := Drop | Divert | Pass.

Definition inside_verdict (S : gset connection) (k : link) (oc : option connection) : verdict :=
  match oc with
  | Some c =>
      if bool_decide (c ∈ S) then Drop
      else if (port2 c =? 443) && bool_decide (addr2 c ∈ listed k) then Divert
      else Pass
  | None => Pass
  end.

Definition outside_verdict (S : gset connection) (oc : option connection) : verdict :=
  match oc with
  | Some c => if bool_decide (c ∈ S) then Drop else Pass
  | None => Pass
  end.

(** What is asked of the kernel; the frame sent on has its link-layer header. *)
Definition up_skb (k : link) (s : sk_buff) : sk_buff := skb_set_type (skb_set_dev s (link_dev k)) PACKET_HOST.
Definition sent (d : option Z) (s : sk_buff) : kcall := Dev_queue_xmit (skb_push (skb_set_dev s d) ETH_HLEN).

Definition inside_calls (k : link) (s : sk_buff) (arp : bool) (v : verdict) : list kcall :=
  match v with
  | Drop => [Kfree_skb s]
  | Divert => [Netif_receive (up_skb k s)]
  | Pass => (if arp then [Netif_receive (up_skb k s)] else []) ++ [sent (link_outside k) s]
  end.

Definition outside_calls (k : link) (s : sk_buff) (v : verdict) : list kcall :=
  match v with Drop => [Kfree_skb s] | _ => [sent (link_inside k) s] end.

(** The handler leaves the links and the table, adds the calls [cs], and puts the
    frame in the ring unless it is dropped. *)
Definition handled (st st' : shuttle) (kring : kring_kern) (set : kring_ringset) (ring : kring_ring)
    (q : queues kring_page) (holds : gset (Z * Z)) (dir : Z) (s : sk_buff) (v : verdict)
    (cs : list kcall) : Prop :=
  sh_block st' = sh_block st ∧ sh_link st' = sh_link st ∧ sh_list st' = sh_list st ∧
  sh_calls st' = sh_calls st ++ cs ∧
  match v with
  | Drop => sh_sets st' = sh_sets st
  | _ => ∃ r' pgs,
      sh_sets st' = put_ring (sh_sets st) (kk_ringset kring) (kk_ring_id kring) set ring r' ∧
      rep ((λ ps, ps ++ pgs) <$> q) holds r' ∧
      carries dir (pages_of (skb_push s ETH_HLEN)) (skb_bytes (skb_push s ETH_HLEN)) pgs
  end.

Lemma link_ring_call st k kring set ring r q holds c :
  link_ring st k kring set ring r q holds → link_ring (call st c) k kring set ring r q holds.
Proof. by intros [H1 H2 H3 H4]. Qed.

Lemma record_ok st k kring set ring r q holds dir s s' :
  link_ring st k kring set ring r q holds → skb_fits (skb_push s ETH_HLEN) q →
  skb_frame s' = skb_frame s → skb_data s' = skb_data s →
  ∃ r' pgs, record_frame st k dir s' = Ok (skb_push s' ETH_HLEN,
      set_sets st (put_ring (sh_sets st) (kk_ringset kring) (kk_ring_id kring) set ring r')) ∧
    rep ((λ ps, ps ++ pgs) <$> q) holds r' ∧
    carries dir (pages_of (skb_push s ETH_HLEN)) (skb_bytes (skb_push s ETH_HLEN)) pgs.
Proof.
  intros L Fi Ef Ed. destruct s' as [f' d' m' n' dv' t'], s as [f d m n dv t]. cbn in Ef, Ed. subst f' d'.
  destruct (link_kwrite_ok st k kring set ring r q holds dir (skb_push (SkBuff f d m' n' dv' t') ETH_HLEN) L Fi)
    as (r' & pgs & E & R & C).
  exists r', pgs. unfold record_frame. rewrite E, bind_Ok. done.
Qed.

Lemma forward_ok st k kring set ring r q holds d dir s :
  link_ring st k kring set ring r q holds → skb_fits (skb_push s ETH_HLEN) q →
  ∃ st', forward st k d dir s = Ok st' ∧
    handled st st' kring set ring q holds dir s Pass [sent d s].
Proof.
  intros L Fi. destruct (record_ok st k kring set ring r q holds dir s (skb_set_dev s d) L Fi)
    as (r' & pgs & E & R & C); [done|done|].
  unfold forward. rewrite E, bind_Ok. eexists. split; [done|]. split_and!; try done. by exists r', pgs.
Qed.

(** The fields that [skb_conn] reads. *)
Lemma skb_conn_fields s c : skb_conn s = Ok c → Forall is_byte (skb_frame s) →
  ∃ th dest, tcp_hdr_at s = Ok th ∧ tcp_dest s th = Ok dest ∧ ip_daddr s = Ok (addr2 c) ∧
    (dest =? htons 443) = (port2 c =? 443).
Proof.
  unfold skb_conn. intros H F. apply bind_Ok_inv in H as (th & Et & H). apply bind_Ok_inv in H as (sa & Esa & H).
  apply bind_Ok_inv in H as (da & Eda & H). apply bind_Ok_inv in H as (src & Esrc & H).
  apply bind_Ok_inv in H as (dst & Edst & [= <-]). exists th, dst. split_and!; try done. cbn.
  apply htons_443. apply (frame_load_range s (th + 2) 2); done.
Qed.

Lemma handled_call st st' c kring set ring q holds dir s v cs :
  handled (call st c) st' kring set ring q holds dir s v cs →
  handled st st' kring set ring q holds dir s v (c :: cs).
Proof.
  intros (H1 & H2 & H3 & H4 & H5). split_and!; try done. rewrite H4. cbn. by rewrite <- app_assoc.
Qed.

Section Handle.
Context (st : shuttle) (k : link) (kring : kring_kern) (set : kring_ringset) (ring : kring_ring).
Context (r : kdata_ring) (q : queues kring_page) (holds : gset (Z * Z)) (S : gset connection) (n : nat).
Hypothesis ring_ok : link_ring st k kring set ring r q holds.
Hypothesis table_ok : table_rep (sh_block st) S n.

Lemma handle_inside_ok s proto oc :
  link_wf k → skb_fits (skb_push s ETH_HLEN) q → eth_h_proto s = Ok proto → tcp_of s = Ok oc →
  let v := inside_verdict S k oc in
  ∃ st', handle_inside st k s = Ok st' ∧
    handled st st' kring set ring q holds KDATA_DIR_INSIDE s v
      (inside_calls k s (proto =? htons ETH_P_ARP) v).
Proof.
  intros W Fi Ep Et. unfold tcp_of in Et. rewrite Ep, bind_Ok in Et.
  unfold handle_inside. rewrite Ep, bind_Ok.
  destruct (Z.eqb_spec proto (htons ETH_P_ARP)) as [->|].
  { injection Et as <-. cbn [inside_verdict inside_calls app].
    destruct (forward_ok (call st (Netif_receive (up_skb k s))) k kring set ring r q holds (link_outside k)
      KDATA_DIR_INSIDE s (link_ring_call _ _ _ _ _ _ _ _ _ ring_ok) Fi) as (st' & E & H).
    exists st'. split; [exact E|]. by apply handled_call. }
  assert (∃ st', forward st k (link_outside k) KDATA_DIR_INSIDE s = Ok st' ∧
    handled st st' kring set ring q holds KDATA_DIR_INSIDE s Pass [sent (link_outside k) s]) as Hf
    by (by apply forward_ok with (r := r)).
  destruct (proto =? htons ETH_P_IP); [|by injection Et as <-].
  apply bind_Ok_inv in Et as (protocol & -> & Et). rewrite bind_Ok.
  destruct (protocol =? IPPROTO_TCP); [|by injection Et as <-].
  apply bind_Ok_inv in Et as (c & Ec & [= <-]). rewrite (block_conn_ok _ S n s c table_ok Ec), bind_Ok.
  cbn [inside_verdict]. case_bool_decide.
  { eexists. split; [done|]. by split_and!. }
  destruct (skb_conn_fields s c Ec (proj1 Fi)) as (th & dest & -> & E2 & -> & E4). rewrite bind_Ok, E2, !bind_Ok, E4.
  destruct (port2 c =? 443); cbn [andb]; [|by rewrite bind_Ok].
  rewrite (in_ip_list_ok k (addr2 c) W), bind_Ok. case_bool_decide; [|done].
  destruct (record_ok st k kring set ring r q holds KDATA_DIR_INSIDE s (up_skb k s) ring_ok Fi)
    as (r' & pgs & E & R & C); [done|done|].
  unfold up_skb in E. rewrite E, bind_Ok. eexists. split; [done|]. cbn [inside_calls].
  split_and!; try done; [|by exists r', pgs].
  cbn. unfold up_skb, skb_pull, skb_push, skb_set_type, skb_set_dev. cbn. by rewrite Z.sub_add.
Qed.

Lemma handle_outside_ok s oc :
  skb_fits (skb_push s ETH_HLEN) q → tcp_of s = Ok oc →
  let v := outside_verdict S oc in
  ∃ st', handle_outside st k s = Ok st' ∧
    handled st st' kring set ring q holds KDATA_DIR_OUTSIDE s v (outside_calls k s v).
Proof.
  intros Fi Et. unfold tcp_of in Et. apply bind_Ok_inv in Et as (proto & Ep & Et).
  unfold handle_outside. rewrite Ep, bind_Ok.
  assert (∃ st', forward st k (link_inside k) KDATA_DIR_OUTSIDE s = Ok st' ∧
    handled st st' kring set ring q holds KDATA_DIR_OUTSIDE s Pass [sent (link_inside k) s]) as Hf
    by (by apply forward_ok with (r := r)).
  destruct (proto =? htons ETH_P_IP); [|by injection Et as <-].
  apply bind_Ok_inv in Et as (protocol & -> & Et). rewrite bind_Ok.
  destruct (protocol =? IPPROTO_TCP); [|by injection Et as <-].
  apply bind_Ok_inv in Et as (c & Ec & [= <-]). rewrite (block_conn_ok _ S n s c table_ok Ec), bind_Ok.
  cbn [outside_verdict]. case_bool_decide; [|done]. eexists. split; [done|]. by split_and!.
Qed.
End Handle.

(** A TCP frame that ends before its connection can be read is read past its end. *)
Lemma short_frame_overruns st k s proto : eth_h_proto s = Ok proto → tcp_of s = Ub →
  handle_inside st k s = Ub ∧ handle_outside st k s = Ub.
Proof.
  intros Ep Et. unfold tcp_of in Et. rewrite Ep, bind_Ok in Et. unfold handle_inside, handle_outside, block_conn. rewrite Ep, !bind_Ok.
  destruct (Z.eqb_spec proto (htons ETH_P_IP)) as [->|]; [|done]. change (htons ETH_P_IP =? htons ETH_P_ARP) with false. cbn iota.
  destruct (ip_protocol s) as [pr| |]; [|done..]. rewrite !bind_Ok in *. destruct (pr =? IPPROTO_TCP); [|done].
  by destruct (skb_conn s).
Qed.

(** C17: A frame that arrives on a port of a link with both its ports.  If the
    command that is waiting overruns, so does the handler; else the command is
    carried out first and the frame judged after it.  A TCP frame too short for its
    headers is read past its end.  Any other frame, when every reader of the data
    ring has room for it, is dropped if its TCP connection is blocked; otherwise it
    is in the data ring, whole and marked with its direction, for every reader, and
    goes once to where it belongs: up the local stack if it comes from inside, for
    port 443 of a listed address, else out of the other port.  ARP frames from inside
    also go up as a copy. *)
Theorem frame_handled in_aton sscanf_block sscanf_ip junk rx st l k s d pc1 pc2 proto :
  skb_dev s = Some d → rx d = Some l → sh_link st !! l = Some k →
  is_Some (link_inside k) → is_Some (link_outside k) → eth_h_proto s = Ok proto →
  let handle := shuttle_handle_frame in_aton sscanf_block sscanf_ip junk rx st s pc1 pc2 in
  let command := take_command in_aton sscanf_block sscanf_ip junk st l k pc1 pc2 in
  (command = Ub → handle = Ub) ∧
  (∀ st1 k1, command = Ok st1 → sh_link st1 !! l = Some k1 →
    (tcp_of s = Ub → Some d = link_inside k1 ∨ Some d = link_outside k1 → handle = Ub) ∧
    (∀ kring set ring r q holds S n oc,
      link_ring st1 k1 kring set ring r q holds → table_rep (sh_block st1) S n → link_wf k1 →
      skb_fits (skb_push s ETH_HLEN) q → tcp_of s = Ok oc →
      ∃ st', handle = Ok st' ∧
        if bool_decide (Some d = link_inside k1) then
          let v := inside_verdict S k1 oc in
          handled st1 st' kring set ring q holds KDATA_DIR_INSIDE s v
            (inside_calls k1 s (proto =? htons ETH_P_ARP) v)
        else if bool_decide (Some d = link_outside k1) then
          let v := outside_verdict S oc in
          handled st1 st' kring set ring q holds KDATA_DIR_OUTSIDE s v (outside_calls k1 s v)
        else st' = call st1 (Kfree_skb s))).
Proof.
  intros Hd Hrx Hl [i Hi] [o Ho] Ep handle command.
  assert (handle = st ← command; k ← deref (sh_link st !! l);
    if bool_decide (Some d = link_inside k) then handle_inside st k s
    else if bool_decide (Some d = link_outside k) then handle_outside st k s
    else Ok (call st (Kfree_skb s))) as ->.
  { unfold handle, shuttle_handle_frame, get_link. rewrite Hd. cbn [deref]. rewrite !bind_Ok, Hrx, Hl. cbn [deref].
    by rewrite bind_Ok, Hi, Ho. }
  split; [by intros ->|]. intros st1 k1 -> Hl1. rewrite bind_Ok, Hl1. cbn [deref]. rewrite bind_Ok. split.
  - intros Et D. destruct (short_frame_overruns st1 k1 s proto Ep Et) as [-> ->]. repeat case_bool_decide; tauto.
  - intros kring set ring r q holds S n oc HR HT W Fi Et. case_bool_decide; [|case_bool_decide].
    + by apply (handle_inside_ok st1 k1 kring set ring r q holds S n).
    + by apply (handle_outside_ok st1 k1 kring set ring r q holds S n).
    + by eexists.
Qed.

(** A link between the devices 1 and 2 with a data ring that nobody reads and a
    control ring without a command. *)
Definition demo_data_set : kring_ringset :=
  KringRingset [100] [KringRing 0 1 (replicate 6 false) (replicate 6 false) (SharedData fresh_kdata_ring)] 1 kdata_params.
Definition demo_ctrl_set : kring_ringset :=
  KringRingset [99] [KringRing 1 0 (replicate 6 false) (replicate 6 false)
    (SharedCtrl (KctrlRing (KctrlControl (CtrlHead 0 0 0 KCTRL_NULL) [] [KCTRL_NULL]) []))] 1 kctrl_params.
Definition demo_kring (i : Z) : kring_kern :=
  KringKern [] i 0 0 (KringUser (-1) 0 1 0 0 1 [0] [] (Some 0) 0 0).
Definition demo_link : link :=
  Link (replicate 32 0) (Some 1) (Some 2) (Some 3) (0x0200000a :: replicate 255 0) 1
    (Some (demo_kring 0)) (Some (demo_kring 1)).
Definition demo_shuttle : shuttle :=
  Shuttle [demo_data_set; demo_ctrl_set] empty_table {[1%positive := demo_link]} [1%positive] [].

Lemma demo_link_ring : link_ring demo_shuttle demo_link (demo_kring 0) demo_data_set
  (KringRing 0 1 (replicate 6 false) (replicate 6 false) (SharedData fresh_kdata_ring)) fresh_kdata_ring ∅ ∅.
Proof.
  split; [done|by split| |apply rep_fresh].
  split; [reflexivity|reflexivity|reflexivity|]. by eexists.
Qed.

(** TLS traffic from inside to the listed address goes up the local stack. *)
Lemma frame_handled_witness :
  let s := demo_skb 1 (tcp_frame 1 4000 2 443) in
  ∃ st', shuttle_handle_frame demo_aton (λ _, None) (λ _, None) (AvlEl None None None 0)
      (λ _, Some 1%positive) demo_shuttle s None None = Ok st' ∧
    sh_calls st' = [Netif_receive (up_skb demo_link s)].
Proof.
  intros s.
  destruct (frame_handled demo_aton (λ _, None) (λ _, None) (AvlEl None None None 0) (λ _, Some 1%positive)
    demo_shuttle 1%positive demo_link s 1 None None (htons ETH_P_IP) eq_refl eq_refl eq_refl
    ltac:(by eexists) ltac:(by eexists) eq_refl) as [_ H].
  destruct (H demo_shuttle demo_link eq_refl eq_refl) as [_ H1].
  destruct (H1 (demo_kring 0) demo_data_set
    (KringRing 0 1 (replicate 6 false) (replicate 6 false) (SharedData fresh_kdata_ring)) fresh_kdata_ring
    ∅ ∅ ∅ 0%nat (Some (Connection 0x0100000a 0x0200000a 4000 443))) as (st' & E & H2).
  - apply demo_link_ring.
  - apply table_rep_empty.
  - done.
  - split; [|split; [done|by intros ? ?]]. by apply (bool_decide_unpack _).
  - done.
  - exists st'. split; [exact E|]. destruct H2 as (_ & _ & _ & H2 & _). exact H2.
Defined.

(** ** Commands *)

(** A block command from the control ring adds the connection it names, and
    its other direction, to the table, and touches nothing else, provided the two
    addresses fit the arrays they are scanned into; an address of 32 characters or
    more overruns its array. *)
Theorem block_command in_aton sscanf_block sscanf_ip junk st l bytes ip1 p1 ip2 p2 a1 a2 S n :
  bytes !! 0%nat = Some 98 → sscanf_block bytes = Some (ip1, p1, ip2, p2) →
  table_rep (sh_block st) S n → both_ways S → Z.of_nat n + 2 ≤ MAXH →
  a1 ∉ dom (ct_keys (sh_block st)) → a2 ∉ dom (ct_keys (sh_block st)) → a1 ≠ a2 →
  let c := cmd_conn in_aton (ip1, p1, ip2, p2) in
  if decide (length ip1 < 32 ∧ length ip2 < 32)%nat then
    ∃ t', parse_kring_command in_aton sscanf_block sscanf_ip junk st l bytes (Some a1) (Some a2) =
        Ok (set_block st t') ∧
      table_rep t' (S ∪ {[c; flip_conn c]}) (n + 2) ∧ both_ways (S ∪ {[c; flip_conn c]})
  else parse_kring_command in_aton sscanf_block sscanf_ip junk st l bytes (Some a1) (Some a2) = Ub.
Proof.
  intros Hb Hs T B Hn H1 H2 Hne c. destruct bytes as [|b bytes]; [done|]. injection Hb as ->.
  unfold parse_kring_command. change (aget (98 :: bytes) 0) with (Ok 98 : res Z). rewrite bind_Ok. cbn [Z.eqb Pos.eqb].
  rewrite Hs. unfold fits_32. destruct (decide (length ip1 < 32)%nat), (decide (length ip2 < 32)%nat);
    case_decide; try tauto; try done.
  rewrite !bind_Ok. destruct (block_store_ok in_aton junk _ S n ip1 p1 ip2 p2 a1 a2 T B Hn H1 H2 Hne)
    as (t' & E & T' & B'). rewrite E, bind_Ok. by exists t'.
Qed.

Lemma block_command_witness :
  ∃ t', parse_kring_command demo_aton (λ _, Some ([1], 4000, [2], 443)) (λ _, None) (AvlEl None None None 0)
      demo_shuttle 1%positive [98] (Some 1%positive) (Some 2%positive) = Ok (set_block demo_shuttle t') ∧
    table_rep t' (∅ ∪ {[Connection 0x0100000a 0x0200000a 4000 443;
                        Connection 0x0200000a 0x0100000a 443 4000]}) 2 ∧
    both_ways (∅ ∪ {[Connection 0x0100000a 0x0200000a 4000 443;
                     Connection 0x0200000a 0x0100000a 443 4000]}).
Proof.
  apply (block_command demo_aton (λ _, Some ([1], 4000, [2], 443)) (λ _, None) (AvlEl None None None 0)
    demo_shuttle 1%positive [98] [1] 4000 [2] 443 1%positive 2%positive ∅ 0); try done.
  apply table_rep_empty.
Defined.

(** Adding a pass-through address keeps the list within its array of 256:
    while there is room the address is listed after all the others, and when there
    is none nothing changes. *)
Theorem ip_add_bounded in_aton st l k ip :
  sh_link st !! l = Some k → link_wf k →
  ∃ st' k', link_ip_add_store in_aton st l ip = Ok (0, st') ∧ sh_link st' = <[l := k']> (sh_link st) ∧
    link_wf k' ∧
    listed k' = (if decide (link_nips k < LINK_IPS) then listed k ++ [u32 (in_aton ip)] else listed k) ∧
    ∀ x, in_ip_list k' x = Ok (bool_decide (x ∈ listed k')).
Proof.
  intros E W. pose proof W as [L Hn]. unfold link_ip_add_store. rewrite E. cbn [deref]. rewrite bind_Ok.
  unfold LINK_IPS in *. destruct (Z.ltb_spec (link_nips k) 256) as [H|H].
  - rewrite aset_in_range by (rewrite L; lia). rewrite bind_Ok. eexists _, _. split; [done|]. split; [done|].
    rewrite i32_small by lia.
    assert (link_wf (with_ips k (<[Z.to_nat (link_nips k) := u32 (in_aton ip)]> (link_ips k)) (link_nips k + 1))) as W'
      by (split; cbn; [by rewrite length_insert|unfold LINK_IPS; lia]).
    split; [done|]. split; [|intros x; by apply in_ip_list_ok]. rewrite decide_True by lia. unfold listed. cbn.
    replace (Z.to_nat (link_nips k + 1)) with (S (Z.to_nat (link_nips k))) by lia.
    rewrite (take_S_r _ _ (u32 (in_aton ip))); [by rewrite take_insert_ge by lia|].
    apply list_lookup_insert_eq. rewrite L. lia.
  - exists st, k. split; [done|]. rewrite insert_id by done. split; [done|]. split; [done|].
    rewrite decide_False by lia. split; [done|]. intros x. by apply in_ip_list_ok.
Qed.

Lemma ip_add_bounded_witness :
  ∃ st' k', link_ip_add_store demo_aton demo_shuttle 1%positive [7] = Ok (0, st') ∧
    sh_link st' = <[1%positive := k']> (sh_link demo_shuttle) ∧ link_wf k' ∧
    listed k' = [0x0200000a; 0x0700000a] ∧ ∀ x, in_ip_list k' x = Ok (bool_decide (x ∈ listed k')).
Proof. apply (ip_add_bounded demo_aton demo_shuttle 1%positive demo_link [7]); [done|]. by split. Defined.

(** ** Ports *)

(** References to the device [d] and its promiscuity, as the calls change them. *)
Definition refs (d : Z) (cs : list kcall) : Z :=
  foldr (λ c n, n + match c with
                    | Dev_get d' => if d' =? d then 1 else 0
                    | Dev_put d' => if d' =? d then -1 else 0
                    | _ => 0
                    end) 0 cs.
Definition promiscuity (d : Z) (cs : list kcall) : Z :=
  foldr (λ c n, n + match c with Dev_set_promiscuity d' m => if d' =? d then m else 0 | _ => 0 end) 0 cs.

(** Adding a device as the inside port and deleting it again leaves the link as
    it was, and the device with as many references and as much promiscuity as
    before; the deletion drops one reference more than it takes also when the
    device is not a port of the link. *)
Theorem port_add_del dev_by_name st l k iface d :
  dev_by_name iface = Some d → sh_link st !! l = Some k → link_inside k = None →
  (∃ st1 st2 cs, link_port_add_store dev_by_name st l iface str_inside = Ok (0, st1) ∧
    link_port_del_store dev_by_name st1 l iface = Ok (0, st2) ∧ sh_link st2 = sh_link st ∧
    (sh_sets st2, sh_block st2, sh_list st2) = (sh_sets st, sh_block st, sh_list st) ∧
    sh_calls st2 = sh_calls st ++ cs ∧ ∀ x, refs x cs = 0 ∧ promiscuity x cs = 0) ∧
  (∃ st' cs, link_port_del_store dev_by_name st l iface = Ok (0, st') ∧
    sh_calls st' = sh_calls st ++ cs ∧ refs d cs = -1).
Proof.
  intros Hd Hl Hi. split.
  - unfold link_port_add_store. change (streq str_inside str_inside) with true. cbn [negb andb]. rewrite Hd. cbn zeta.
    change (sh_link (call st (Dev_get d))) with (sh_link st). rewrite Hl. cbn [deref]. rewrite bind_Ok.
    eexists _, _, [Dev_get d; Dev_set_promiscuity d 1; Rx_register d l; Dev_get d; Rx_unregister d;
      Dev_set_promiscuity d (-1); Dev_put d; Dev_put d].
    split; [done|]. unfold link_port_del_store. rewrite Hd. cbn zeta. cbn [call set_link sh_link].
    rewrite lookup_insert_eq. cbn [deref]. rewrite bind_Ok, bool_decide_true by done. split; [done|].
    cbn [call set_link sh_link sh_sets sh_block sh_list sh_calls]. split_and!.
    + rewrite insert_insert_eq. destruct k; cbn in *. subst. by rewrite insert_id.
    + done.
    + by rewrite <- !app_assoc.
    + intros x. cbn. destruct (d =? x); done.
  - unfold link_port_del_store. rewrite Hd. cbn zeta. change (sh_link (call st (Dev_get d))) with (sh_link st).
    rewrite Hl. cbn [deref]. rewrite bind_Ok. eexists _, [Dev_get d; Rx_unregister d; Dev_set_promiscuity d (-1); Dev_put d; Dev_put d].
    split; [done|]. cbn. rewrite Z.eqb_refl, <- !app_assoc. done.
Qed.

Lemma port_add_del_witness :
  let st := Shuttle [] empty_table {[1%positive := zero_link]} [1%positive] [] in
  let byname := λ _ : list Z, Some 7 in
  (∃ st1 st2 cs, link_port_add_store byname st 1%positive [101] str_inside = Ok (0, st1) ∧
    link_port_del_store byname st1 1%positive [101] = Ok (0, st2) ∧ sh_link st2 = sh_link st ∧
    (sh_sets st2, sh_block st2, sh_list st2) = (sh_sets st, sh_block st, sh_list st) ∧
    sh_calls st2 = [] ++ cs ∧ ∀ x, refs x cs = 0 ∧ promiscuity x cs = 0) ∧
  (∃ st' cs, link_port_del_store byname st 1%positive [101] = Ok (0, st') ∧
    sh_calls st' = [] ++ cs ∧ refs 7 cs = -1).
Proof.
  intros st byname. apply (port_add_del byname st 1%positive zero_link [101] 7); done.
Defined.

(** ** Links *)

Lemma strcpy_32_ok name : (length (cstr name) < 32)%nat →
  ∃ nm, strcpy_32 (link_name zero_link) name = Ok nm ∧ streq nm name = true.
Proof.
  intros H. unfold strcpy_32. rewrite mem_store_fits by (rewrite length_app; cbn; lia).
  eexists. split; [done|]. unfold streq. apply bool_decide_true. rewrite <- app_assoc. cbn.
  apply cstr_app_nul, cstr_no_nul.
Qed.

Lemma find_link_skip links ls name rest :
  (∀ l, l ∈ ls → ∃ k, links !! l = Some k ∧ streq (link_name k) name = false) →
  find_link links (ls ++ rest) name = find_link links rest name.
Proof.
  induction ls as [|l ls IH]; intros H; [done|]. cbn [find_link app].
  destruct (H l) as (k & -> & E); [by left|]. cbn [deref]. rewrite bind_Ok, E. apply IH. intros l' Hl'. apply H. by right.
Qed.

Lemma list_del_last l ls : l ∉ ls → list_del l (ls ++ [l]) = ls.
Proof.
  unfold list_del. induction ls as [|x ls IH]; intros H.
  - cbn. rewrite decide_False; [done|]. intros X. by apply X.
  - cbn. apply not_elem_of_cons in H as [Hx H]. rewrite decide_True by done. f_equal. by apply IH.
Qed.

(** A link added under a new name of at most 31 characters is the one found
    under that name, with the handles its two rings were opened with; deleting it
    closes both rings and gives the list of links back.  The results of opening the
    rings are only printed: if one of the ring sets does not exist, deleting the
    link dereferences a null pointer. *)
Theorem add_then_del st l dev name ctrl ring e1 kr sets1 e2 cm sets2 :
  (length (cstr name) < 32)%nat → l ∉ sh_list st →
  (∀ x, x ∈ sh_list st → ∃ k, sh_link st !! x = Some k ∧ streq (link_name k) name = false) →
  kring_kopen (sh_sets st) KRING_DATA ring 0 KRING_WRITE = Ok (e1, kr, sets1) →
  kring_kopen sets1 KRING_CTRL ctrl 0 KRING_READ = Ok (e2, cm, sets2) →
  ∃ st1 k1, shuttle_add_store st (Some l) (Some dev) 0 name ctrl ring = Ok (0, st1) ∧
    sh_list st1 = sh_list st ++ [l] ∧ find_link (sh_link st1) (sh_list st1) name = Ok (Some l) ∧
    sh_link st1 !! l = Some k1 ∧ link_dev k1 = Some dev ∧ link_kring k1 = kr ∧ link_cmd k1 = cm ∧ link_wf k1 ∧
    (∀ a b x y s3 s4, kr = Some a → cm = Some b → kring_kclose sets2 b = Ok (x, s3) → kring_kclose s3 a = Ok (y, s4) →
      ∃ st2, shuttle_del_store st1 name = Ok (0, st2) ∧ sh_list st2 = sh_list st ∧ sh_sets st2 = s4 ∧
        sh_calls st2 = sh_calls st ++ [Unregister_netdevice (Some dev); Kobject_put l]) ∧
    (kr = None ∨ cm = None → is_ok (shuttle_del_store st1 name) = false).
Proof.
  intros Hn Hl Hs E1 E2. destruct (strcpy_32_ok name Hn) as (nm & En & Em).
  unfold shuttle_add_store. cbn [deref]. rewrite bind_Ok. cbn zeta. rewrite En, bind_Ok.
  unfold create_netdev. cbn [set_link set_list sh_link Z.eqb negb]. rewrite !lookup_insert_eq. cbn [deref]. rewrite !bind_Ok.
  cbn [set_link set_list sh_link sh_sets]. rewrite E1, bind_Ok, !lookup_insert_eq. cbn [deref]. rewrite bind_Ok.
  cbn [set_link set_list set_sets sh_link sh_sets]. rewrite E2, bind_Ok, !lookup_insert_eq. cbn [deref].
  rewrite bind_Ok. set (st1 := set_link _ _ _). set (k1 := with_cmd _ cm) in *.
  assert (sh_link st1 !! l = Some k1) as Ek by apply lookup_insert_eq.
  assert (find_link (sh_link st1) (sh_list st ++ [l]) name = Ok (Some l)) as Ef.
  { rewrite find_link_skip; [cbn [find_link]; rewrite Ek; cbn [deref]; rewrite bind_Ok; cbn [link_name k1 with_cmd with_kring with_dev with_name]; by rewrite Em|].
    intros x Hx. destruct (Hs x Hx) as (k & Ex & Sx). exists k. split; [|done]. cbn.
    rewrite !lookup_insert_ne; [done|by intros ->..]. }
  exists st1, k1. split_and!; try done.
  - intros a b x y s3 s4 -> -> C1 C2. unfold shuttle_del_store. change (sh_list st1) with (sh_list st ++ [l]).
    rewrite Ef, bind_Ok, Ek. cbn [deref]. rewrite bind_Ok. cbn [link_cmd k1 with_cmd with_kring link_kring deref].
    rewrite bind_Ok. change (sh_sets st1) with sets2. rewrite C1, bind_Ok. cbn [deref]. rewrite bind_Ok, C2, bind_Ok.
    eexists. split; [done|]. split_and!; [|done|by cbn; rewrite <- app_assoc].
    by apply list_del_last.
  - intros H. unfold shuttle_del_store. change (sh_list st1) with (sh_list st ++ [l]).
    rewrite Ef, bind_Ok, Ek. cbn [deref]. rewrite bind_Ok. cbn [link_cmd k1 with_cmd with_kring link_kring].
    destruct cm as [b|]; [|done]. destruct H as [->|]; [|done]. cbn [deref]. rewrite bind_Ok.
    destruct (kring_kclose (sh_sets st1) b) as [[x s3]| |]; done.
Qed.

(** No ring set exists: the link is made, and cannot be deleted. *)
Lemma add_then_del_witness :
  let st := Shuttle [] empty_table ∅ [] [] in
  ∃ st1, shuttle_add_store st (Some 1%positive) (Some 3) 0 [97] [99] [100] = Ok (0, st1) ∧
    sh_list st1 = [1%positive] ∧ is_ok (shuttle_del_store st1 [97]) = false.
Proof.
  intros st.
  destruct (add_then_del st 1%positive 3 [97] [99] [100] (-1) None [] (-1) None [])
    as (st1 & k1 & E & L & _ & _ & _ & _ & _ & _ & _ & U); try done.
  - cbn. lia.
  - by apply not_elem_of_nil.
  - by intros x ?%elem_of_nil.
  - exists st1. split; [exact E|]. split; [exact L|]. apply U. by left.
Defined.
