(* ===== verification/DList.v ===== *)
(** * Doubly linked lists: genf/list.h

    The lists of the thread and broker code, in the variant without
    DOUBLELIST_VALUE, which is the one the sources use.  Elements are in memory,
    with their two links and the rest of their fields; a list is its head, its tail
    and its length.  An iterator is a pointer. *)

From S2P Require Import Prelude.

Section DList.
Context {V : Type}.

(** An element: DListEl and what the inheriting class adds. *)
Record element := Element {
  el_prev : option positive;
  el_next : option positive;
  el_value : V;
}.

Record dlist := DListOf {
  dl_head : option positive;
  dl_tail : option positive;
  dl_listLen : Z;
}.

Abbreviation mem := (gmap positive element).
Abbreviation eptr := (option positive).

Definition dl_new : dlist := DListOf None None 0.

Definition set_dl_head (l : dlist) (p : eptr) : dlist := DListOf p (dl_tail l) (dl_listLen l).
Definition set_dl_tail (l : dlist) (p : eptr) : dlist := DListOf (dl_head l) p (dl_listLen l).
Definition set_dl_len (l : dlist) (n : Z) : dlist := DListOf (dl_head l) (dl_tail l) n.

(** [p->...] *)
Definition elem_at (m : mem) (p : eptr) : res element :=
  x ← deref p;
  deref (m !! x).
Definition set_prev (m : mem) (p q : eptr) : res mem :=
  x ← deref p;
  e ← deref (m !! x);
  Ok (<[x := Element q (el_next e) (el_value e)]> m).
Definition set_next (m : mem) (p q : eptr) : res mem :=
  x ← deref p;
  e ← deref (m !! x);
  Ok (<[x := Element (el_prev e) q (el_value e)]> m).

(** ** Putting in

    The source writes the same steps for one element and for a list; here [first]
    and [last] are its ends, the same pointer for one element. *)

(** Set forward pointers, after [prev_el]. *)
Definition link_after (m : mem) (l : dlist) (prev_el first last : eptr) : res (mem * dlist) :=
  match prev_el with
  | None =>
      m ← set_next m last (dl_head l);
      Ok (m, set_dl_head l first)
  | Some _ =>
      e ← elem_at m prev_el;
      m ← set_next m last (el_next e);
      m ← set_next m prev_el first;
      Ok (m, l)
  end.

(** Set reverse pointers, from what comes after [last]. *)
Definition close_after (m : mem) (l : dlist) (last : eptr) : res (mem * dlist) :=
  e ← elem_at m last;
  match el_next e with
  | None => Ok (m, set_dl_tail l last)
  | Some _ => m ← set_prev m (el_next e) last; Ok (m, l)
  end.

(** Set reverse pointers, before [next_el]. *)
Definition link_before (m : mem) (l : dlist) (next_el first last : eptr) : res (mem * dlist) :=
  match next_el with
  | None =>
      m ← set_prev m first (dl_tail l);
      Ok (m, set_dl_tail l last)
  | Some _ =>
      e ← elem_at m next_el;
      m ← set_prev m first (el_prev e);
      m ← set_prev m next_el last;
      Ok (m, l)
  end.

(** Set forward pointers, from what comes before [first]. *)
Definition close_before (m : mem) (l : dlist) (first : eptr) : res (mem * dlist) :=
  e ← elem_at m first;
  match el_prev e with
  | None => Ok (m, set_dl_head l first)
  | Some _ => m ← set_next m (el_prev e) first; Ok (m, l)
  end.

Definition addAfter (m : mem) (l : dlist) (prev_el new_el : eptr) : res (mem * dlist) :=
  m ← set_prev m new_el prev_el;
  '(m, l) ← link_after m l prev_el new_el new_el;
  '(m, l) ← close_after m l new_el;
  Ok (m, set_dl_len l (i64 (dl_listLen l + 1))).

Definition addBefore (m : mem) (l : dlist) (next_el new_el : eptr) : res (mem * dlist) :=
  m ← set_next m new_el next_el;
  '(m, l) ← link_before m l next_el new_el new_el;
  '(m, l) ← close_before m l new_el;
  Ok (m, set_dl_len l (i64 (dl_listLen l + 1))).

Definition prepend (m : mem) (l : dlist) (new_el : eptr) : res (mem * dlist) := addBefore m l (dl_head l) new_el.
Definition append (m : mem) (l : dlist) (new_el : eptr) : res (mem * dlist) := addAfter m l (dl_tail l) new_el.

(** Set forward pointers to skip over [el]; set reverse pointers. *)
Definition skip_forward (m : mem) (l : dlist) (el : eptr) : res (mem * dlist) :=
  e ← elem_at m el;
  match el_prev e with
  | None => Ok (m, set_dl_head l (el_next e))
  | Some _ => m ← set_next m (el_prev e) (el_next e); Ok (m, l)
  end.

Definition skip_reverse (m : mem) (l : dlist) (el : eptr) : res (mem * dlist) :=
  e ← elem_at m el;
  match el_next e with
  | None => Ok (m, set_dl_tail l (el_prev e))
  | Some _ => m ← set_prev m (el_next e) (el_prev e); Ok (m, l)
  end.

Definition detach (m : mem) (l : dlist) (el : eptr) : res (eptr * mem * dlist) :=
  '(m, l) ← skip_forward m l el;
  '(m, l) ← skip_reverse m l el;
  Ok (el, m, set_dl_len l (i64 (dl_listLen l - 1))).

Definition detachFirst (m : mem) (l : dlist) : res (eptr * mem * dlist) := detach m l (dl_head l).
Definition detachLast (m : mem) (l : dlist) : res (eptr * mem * dlist) := detach m l (dl_tail l).

(** [delete] *)
Definition free_el (m : mem) (p : eptr) : res mem :=
  x ← deref p;
  _ ← deref (m !! x);
  Ok (delete x m).

Definition remove (m : mem) (l : dlist) (el : eptr) : res (mem * dlist) :=
  '(p, m, l) ← detach m l el;
  m ← free_el m p;
  Ok (m, l).
Definition removeFirst (m : mem) (l : dlist) : res (mem * dlist) := remove m l (dl_head l).
Definition removeLast (m : mem) (l : dlist) : res (mem * dlist) := remove m l (dl_tail l).

(** ** Whole lists *)

Definition abandon (l : dlist) : dlist := DListOf None None 0.

(** The two lists are different objects; [dl] is given back empty. *)
Definition addAfter_list (m : mem) (l : dlist) (prev_el : eptr) (dl : dlist) : res (mem * dlist * dlist) :=
  if dl_listLen dl =? 0 then Ok (m, l, dl)
  else
    m ← set_prev m (dl_head dl) prev_el;
    '(m, l) ← link_after m l prev_el (dl_head dl) (dl_tail dl);
    '(m, l) ← close_after m l (dl_tail dl);
    Ok (m, set_dl_len l (i64 (dl_listLen l + dl_listLen dl)), abandon dl).

Definition addBefore_list (m : mem) (l : dlist) (next_el : eptr) (dl : dlist) : res (mem * dlist * dlist) :=
  if dl_listLen dl =? 0 then Ok (m, l, dl)
  else
    m ← set_next m (dl_tail dl) next_el;
    '(m, l) ← link_before m l next_el (dl_head dl) (dl_tail dl);
    '(m, l) ← close_before m l (dl_head dl);
    Ok (m, set_dl_len l (i64 (dl_listLen l + dl_listLen dl)), abandon dl).

Definition prepend_list (m : mem) (l dl : dlist) : res (mem * dlist * dlist) := addBefore_list m l (dl_head l) dl.
Definition append_list (m : mem) (l dl : dlist) : res (mem * dlist * dlist) := addAfter_list m l (dl_tail l) dl.

Definition transfer (l other : dlist) : dlist * dlist :=
  (DListOf (dl_head other) (dl_tail other) (dl_listLen other), abandon other).

(** The loop of the copy constructor and of the assignment, from [el] on; [new]
    gives memory that is not in use, and [new Element( *el )] copies the links
    too. *)
Fixpoint copy_loop (new : gset positive → positive) (fuel : nat) (m : mem) (l : dlist) (el : eptr)
    : res (mem * dlist) :=
  match fuel with
  | O => Spin
  | S fuel =>
      match el with
      | None => Ok (m, l)
      | Some _ =>
          e ← elem_at m el;
          let x := new (dom m) in
          '(m, l) ← append (<[x := e]> m) l (Some x);
          e ← elem_at m el;
          copy_loop new fuel m l (el_next e)
      end
  end.

Definition copy_construct (new : gset positive → positive) (fuel : nat) (m : mem) (other : dlist)
    : res (mem * dlist) :=
  copy_loop new fuel m dl_new (dl_head other).

Definition assign (new : gset positive → positive) (fuel : nat) (m : mem) (l other : dlist)
    : res (mem * dlist) :=
  copy_loop new fuel m l (dl_head other).

Fixpoint empty_loop (fuel : nat) (m : mem) (cur : eptr) : res mem :=
  match fuel with
  | O => Spin
  | S fuel =>
      match cur with
      | None => Ok m
      | Some _ =>
          e ← elem_at m cur;
          let nextToGo := el_next e in
          m ← free_el m cur;
          empty_loop fuel m nextToGo
      end
  end.

Definition dl_empty (fuel : nat) (m : mem) (l : dlist) : res (mem * dlist) :=
  m ← empty_loop fuel m (dl_head l);
  Ok (m, DListOf None None 0).

(** ** Iterators *)

Definition iter_first (m : mem) (p : eptr) : res bool :=
  match p with None => Ok false | Some _ => e ← elem_at m p; Ok (bool_decide (el_prev e = None)) end.
Definition iter_last (m : mem) (p : eptr) : res bool :=
  match p with None => Ok false | Some _ => e ← elem_at m p; Ok (bool_decide (el_next e = None)) end.
Definition increment (m : mem) (p : eptr) : res eptr := e ← elem_at m p; Ok (el_next e).
Definition decrement (m : mem) (p : eptr) : res eptr := e ← elem_at m p; Ok (el_prev e).

(** [for ( Iter i = list; i.lte(); i++ )]: the elements visited. *)
Fixpoint traverse (fuel : nat) (m : mem) (p : eptr) : res (list positive) :=
  match fuel with
  | O => Spin
  | S fuel =>
      match p with
      | None => Ok []
      | Some x => p ← increment m p; xs ← traverse fuel m p; Ok (x :: xs)
      end
  end.

(** [for ( Iter i = list.last(); i.gtb(); i-- )] *)
Fixpoint traverse_back (fuel : nat) (m : mem) (p : eptr) : res (list positive) :=
  match fuel with
  | O => Spin
  | S fuel =>
      match p with
      | None => Ok []
      | Some x => p ← decrement m p; xs ← traverse_back fuel m p; Ok (x :: xs)
      end
  end.
End DList.

Arguments element : clear implicits.
