(* ===== verification/DListProps.v ===== *)
(** * What the lists of genf/list.h promise

    [dlist_at m l xs]: in memory [m], [l] is a well-formed list of the elements
    [xs].  Insertion, splicing, detaching, copying and clearing are the
    corresponding operations on [xs]. *)

From S2P Require Import Prelude DList.

Section Links.
Context {V : Type}.
Implicit Types (m : gmap positive (element V)) (xs ys : list positive).

(** The first of [xs], or what comes after it; the last, or what came before. *)
Definition firstp (xs : list positive) (n : option positive) : option positive :=
  match xs with [] => n | x :: _ => Some x end.
Fixpoint lastp (p : option positive) (xs : list positive) : option positive :=
  match xs with [] => p | x :: xs => lastp (Some x) xs end.

(** [xs] linked both ways, between [p] and [n]. *)
Fixpoint linked m (p : option positive) xs (n : option positive) : Prop :=
  match xs with
  | [] => True
  | x :: xs => (∃ v, m !! x = Some (Element p (firstp xs n) v)) ∧ linked m (Some x) xs n
  end.

(** Only the links of the elements [S] changed. *)
Definition relinked (S : list positive) m m' : Prop :=
  (∀ y, y ∉ S → m' !! y = m !! y) ∧ (∀ y, el_value <$> m' !! y = el_value <$> m !! y).

Lemma relinked_refl S m : relinked S m m.
Proof. done. Qed.

Lemma relinked_trans S m1 m2 m3 : relinked S m1 m2 → relinked S m2 m3 → relinked S m1 m3.
Proof.
  intros [A1 B1] [A2 B2]. split; [intros y Hy; by rewrite A2, A1|intros y; by rewrite B2, B1].
Qed.

Lemma relinked_mono S S' m m' : S ⊆ S' → relinked S m m' → relinked S' m m'.
Proof. intros H [A B]. split; [|done]. intros y Hy. apply A. set_solver. Qed.

Lemma linked_relinked S m m' xs : ∀ p n,
  relinked S m m' → (∀ x, x ∈ xs → x ∉ S) → linked m p xs n → linked m' p xs n.
Proof.
  induction xs as [|x xs IH]; intros p n R D H; [done|]. destruct H as [[v E] H]. split.
  - exists v. rewrite (proj1 R x); [done|]. apply D. by left.
  - apply IH; [done| |done]. intros y Hy. apply D. by right.
Qed.

Lemma firstp_app xs ys n : firstp (xs ++ ys) n = firstp xs (firstp ys n).
Proof. by destruct xs. Qed.

Lemma lastp_app xs : ∀ ys p, lastp p (xs ++ ys) = lastp (lastp p xs) ys.
Proof. induction xs as [|x xs IH]; intros ys p; [done|]. apply IH. Qed.

Lemma linked_app m xs : ∀ ys p n,
  linked m p (xs ++ ys) n ↔ linked m p xs (firstp ys n) ∧ linked m (lastp p xs) ys n.
Proof.
  induction xs as [|x xs IH]; intros ys p n; cbn [app linked lastp]; [tauto|].
  rewrite IH, firstp_app. tauto.
Qed.

Lemma lastp_last xs p : lastp p xs = match last xs with Some x => Some x | None => p end.
Proof.
  revert p. induction xs as [|x xs IH]; intros p; [done|]. cbn [lastp]. rewrite IH, last_cons.
  by destruct (last xs).
Qed.

Lemma firstp_head xs : firstp xs None = head xs.
Proof. by destruct xs. Qed.

(** ** Setting one link *)

Lemma set_el_prev_ok m p x xs n p' :
  linked m p (x :: xs) n → NoDup (x :: xs) →
  ∃ m', set_prev m (Some x) p' = Ok m' ∧ linked m' p' (x :: xs) n ∧ relinked [x] m m'.
Proof.
  intros [[v E] H] [Hx _]%NoDup_cons. unfold set_prev. cbn [deref]. rewrite bind_Ok, E. cbn [deref]. rewrite bind_Ok.
  assert (relinked [x] m (<[x := Element p' (firstp xs n) v]> m)) as R.
  { split; intros y; [intros Hy; apply lookup_insert_ne; set_solver|].
    destruct (decide (y = x)) as [->|]; [by rewrite lookup_insert_eq, E|by rewrite lookup_insert_ne]. }
  eexists. split; [done|]. split; [|done]. split; [exists v; apply lookup_insert_eq|].
  apply (linked_relinked [x] m); [done|set_solver|done].
Qed.

Lemma set_el_next_ok m p xs x n n' :
  linked m p (xs ++ [x]) n → NoDup (xs ++ [x]) →
  ∃ m', set_next m (Some x) n' = Ok m' ∧ linked m' p (xs ++ [x]) n' ∧ relinked [x] m m'.
Proof.
  intros H (_ & D & _)%NoDup_app. apply linked_app in H as [H [[v E] _]].
  unfold set_next. cbn [deref]. rewrite bind_Ok, E. cbn [deref]. rewrite bind_Ok.
  assert (relinked [x] m (<[x := Element (lastp p xs) n' v]> m)) as R.
  { split; intros y; [intros Hy; apply lookup_insert_ne; set_solver|].
    destruct (decide (y = x)) as [->|]; [by rewrite lookup_insert_eq, E|by rewrite lookup_insert_ne]. }
  eexists. split; [done|]. split; [|done]. apply linked_app. split; [|split; [exists v; apply lookup_insert_eq|done]].
  apply (linked_relinked [x] m); [done|set_solver|done].
Qed.

(** The links of the last of a segment. *)
Lemma elem_last m p xs x n : linked m p (xs ++ [x]) n →
  ∃ v, elem_at m (Some x) = Ok (Element (lastp p xs) n v).
Proof.
  intros [_ [[v E] _]]%linked_app. exists v. unfold elem_at. cbn [deref]. rewrite bind_Ok, E. done.
Qed.

Lemma elem_first m p xs x n : linked m p (x :: xs) n →
  ∃ v, elem_at m (Some x) = Ok (Element p (firstp xs n) v).
Proof. intros [[v E] _]. exists v. unfold elem_at. cbn [deref]. rewrite bind_Ok, E. done. Qed.

(** ** Well-formed lists *)

Record dlist_at m (l : dlist) xs : Prop := {
  da_head : dl_head l = firstp xs None;
  da_tail : dl_tail l = lastp None xs;
  da_len : dl_listLen l = Z.of_nat (length xs);
  da_linked : linked m None xs None;
  da_nodup : NoDup xs;
}.

Lemma nonempty_ends ys : ys ≠ [] → ∃ y ys1 ys2 z, ys = y :: ys1 ∧ ys = ys2 ++ [z] ∧
  (∀ n, firstp ys n = Some y) ∧ (∀ p, lastp p ys = Some z).
Proof.
  intros H. destruct ys as [|y ys1]; [done|]. destruct (exists_last H) as (ys2 & z & E).
  exists y, ys1, ys2, z. split_and!; try done. intros p. by rewrite E, lastp_app.
Qed.

Lemma i64_small x : - 2 ^ 63 ≤ x < 2 ^ 63 → i64 x = x.
Proof. intros H. apply wraps_small; [done|]. exact H. Qed.

(** Lists that are apart. *)
Lemma NoDup_apart xs ys : NoDup (xs ++ ys) → (∀ x, x ∈ xs → x ∉ ys) ∧ (∀ y, y ∈ ys → y ∉ xs).
Proof. intros (_ & D & _)%NoDup_app. split; [done|]. intros y Hy Hx. by apply (D y). Qed.

(** The joints on the two sides of the spliced segment [ys]: between [l1] and [l2]
    stand its own links, and the outer ones are set. *)
Lemma splice_linked m4 l1 l2 ys :
  linked m4 None l1 (firstp ys None) → linked m4 (lastp None l1) ys (firstp l2 None) →
  linked m4 (lastp None ys) l2 None → ys ≠ [] → linked m4 None (l1 ++ ys ++ l2) None.
Proof.
  intros H1 H2 H3 Hne. destruct (nonempty_ends ys Hne) as (y & ys1 & ys2 & z & _ & _ & Ef & El).
  apply linked_app. split; [by rewrite firstp_app, Ef, <- (Ef None)|].
  apply linked_app. split; [done|]. by rewrite El, <- (El None).
Qed.

(** What the two halves of an insertion need to know of the segments: the left
    part, the segment and the right part, apart from each other, with the links
    each is to have at its ends. *)
Record segments m l1 ys l2 (n1 p2 n2 p3 : option positive) : Prop := {
  sg_left : linked m None l1 n1;
  sg_mid : linked m p2 ys n2;
  sg_right : linked m p3 l2 None;
  sg_nodup : NoDup (l1 ++ ys ++ l2);
}.

Lemma segments_parts m l1 ys l2 n1 p2 n2 p3 : segments m l1 ys l2 n1 p2 n2 p3 →
  NoDup l1 ∧ NoDup ys ∧ NoDup l2 ∧ (∀ x, x ∈ l1 → x ∉ ys) ∧ (∀ x, x ∈ l1 → x ∉ l2) ∧ (∀ x, x ∈ ys → x ∉ l2).
Proof.
  intros [_ _ _ (N1 & D & (Ny & Dy & N2)%NoDup_app)%NoDup_app]. split_and!; try done;
    intros x Hx Hx'; apply (D x Hx), elem_of_app; tauto.
Qed.

(** Setting a link at one of the ends of a part. *)
Lemma seg_set_mid_prev m l1 ys l2 n1 p2 n2 p3 p' : ys ≠ [] → segments m l1 ys l2 n1 p2 n2 p3 →
  ∃ m', set_prev m (firstp ys None) p' = Ok m' ∧ segments m' l1 ys l2 n1 p' n2 p3 ∧ relinked ys m m'.
Proof.
  intros Hne G. destruct (segments_parts _ _ _ _ _ _ _ _ G) as (N1 & Ny & N2 & D1 & D2 & D3).
  destruct G as [L M R ND]. destruct ys as [|y ys]; [done|].
  destruct (set_el_prev_ok m p2 y ys n2 p' M Ny) as (m' & E & M' & Rl). exists m'. split; [done|].
  split; [split; try done|eapply relinked_mono; [|exact Rl]; set_solver].
  - apply (linked_relinked _ _ _ _ _ _ Rl); [set_solver|done].
  - apply (linked_relinked _ _ _ _ _ _ Rl); [|done]. intros x Hx Hy. apply (D3 y); set_solver.
Qed.

Lemma seg_set_mid_next m l1 ys l2 n1 p2 n2 p3 n' : ys ≠ [] → segments m l1 ys l2 n1 p2 n2 p3 →
  ∃ m', set_next m (lastp None ys) n' = Ok m' ∧ segments m' l1 ys l2 n1 p2 n' p3 ∧ relinked ys m m'.
Proof.
  intros Hne G. destruct (segments_parts _ _ _ _ _ _ _ _ G) as (N1 & Ny & N2 & D1 & D2 & D3).
  destruct G as [L M R ND]. destruct (nonempty_ends ys Hne) as (y & ys1 & ys2 & z & _ & E2 & _ & El). rewrite El.
  rewrite E2 in M, Ny. destruct (set_el_next_ok m p2 ys2 z n2 n' M Ny) as (m' & E & M' & Rl). exists m'. split; [done|].
  rewrite <- E2 in M'. assert (z ∈ ys) as Hz by (rewrite E2; set_solver).
  split; [split; try done|eapply relinked_mono; [|exact Rl]; set_solver].
  - apply (linked_relinked _ _ _ _ _ _ Rl); [|done]. intros x Hx ->%list_elem_of_singleton. by apply (D1 z).
  - apply (linked_relinked _ _ _ _ _ _ Rl); [|done]. intros x Hx ->%list_elem_of_singleton. by apply (D3 z).
Qed.

Lemma seg_set_left_next m l1 ys l2 n1 p2 n2 p3 n' : l1 ≠ [] → segments m l1 ys l2 n1 p2 n2 p3 →
  ∃ m', set_next m (lastp None l1) n' = Ok m' ∧ segments m' l1 ys l2 n' p2 n2 p3 ∧ relinked l1 m m'.
Proof.
  intros Hne G. destruct (segments_parts _ _ _ _ _ _ _ _ G) as (N1 & Ny & N2 & D1 & D2 & D3).
  destruct G as [L M R ND]. destruct (nonempty_ends l1 Hne) as (y & ys1 & ys2 & z & _ & E2 & _ & El). rewrite El.
  rewrite E2 in L, N1. destruct (set_el_next_ok m None ys2 z n1 n' L N1) as (m' & E & L' & Rl). exists m'. split; [done|].
  rewrite <- E2 in L'. assert (z ∈ l1) as Hz by (rewrite E2; set_solver).
  split; [split; try done|eapply relinked_mono; [|exact Rl]; set_solver].
  - apply (linked_relinked _ _ _ _ _ _ Rl); [|done]. intros x Hx ->%list_elem_of_singleton. by apply (D1 z).
  - apply (linked_relinked _ _ _ _ _ _ Rl); [|done]. intros x Hx ->%list_elem_of_singleton. by apply (D2 z).
Qed.

Lemma seg_set_right_prev m l1 ys l2 n1 p2 n2 p3 p' : l2 ≠ [] → segments m l1 ys l2 n1 p2 n2 p3 →
  ∃ m', set_prev m (firstp l2 None) p' = Ok m' ∧ segments m' l1 ys l2 n1 p2 n2 p' ∧ relinked l2 m m'.
Proof.
  intros Hne G. destruct (segments_parts _ _ _ _ _ _ _ _ G) as (N1 & Ny & N2 & D1 & D2 & D3).
  destruct G as [L M R ND]. destruct l2 as [|y l2]; [done|].
  destruct (set_el_prev_ok m p3 y l2 None p' R N2) as (m' & E & R' & Rl). exists m'. split; [done|].
  split; [split; try done|eapply relinked_mono; [|exact Rl]; set_solver].
  - apply (linked_relinked _ _ _ _ _ _ Rl); [|done]. intros x Hx ->%list_elem_of_singleton. apply (D2 y Hx). by left.
  - apply (linked_relinked _ _ _ _ _ _ Rl); [|done]. intros x Hx ->%list_elem_of_singleton. apply (D3 y Hx). by left.
Qed.

(** The state in which [ys] is between [l1] and [l2]. *)
Lemma segments_join m l l1 ys l2 : ys ≠ [] →
  segments m l1 ys l2 (firstp ys None) (lastp None l1) (firstp l2 None) (lastp None ys) →
  dl_head l = firstp (l1 ++ ys ++ l2) None → dl_tail l = lastp None (l1 ++ ys ++ l2) →
  dl_listLen l = Z.of_nat (length (l1 ++ ys ++ l2)) → dlist_at m l (l1 ++ ys ++ l2).
Proof. intros Hne [L M R ND] H1 H2 H3. split; try done. by apply splice_linked. Qed.

Lemma segments_split m l dl l1 l2 ys :
  dlist_at m l (l1 ++ l2) → dlist_at m dl ys → NoDup (l1 ++ ys ++ l2) →
  segments m l1 ys l2 (firstp l2 None) None None (lastp None l1).
Proof. intros H H' ND. pose proof (da_linked _ _ _ H) as [La Lb]%linked_app. split; try done. apply H'. Qed.

Lemma link_after_ok m l l1 ys l2 n2 : ys ≠ [] → dl_head l = firstp (l1 ++ l2) None →
  segments m l1 ys l2 (firstp l2 None) (lastp None l1) n2 (lastp None l1) →
  ∃ m', link_after m l (lastp None l1) (firstp ys None) (lastp None ys) =
      Ok (m', if l1 is [] then set_dl_head l (firstp ys None) else l) ∧
    segments m' l1 ys l2 (firstp ys None) (lastp None l1) (firstp l2 None) (lastp None l1) ∧
    relinked (l1 ++ ys) m m'.
Proof.
  intros Hne Hh G. destruct (seg_set_mid_next _ _ _ _ _ _ _ _ (firstp l2 None) Hne G) as (m1 & E1 & G1 & R1).
  destruct (decide (l1 = [])) as [->|H1].
  { exists m1. unfold link_after. cbn [app lastp] in *. rewrite Hh, E1, bind_Ok. split_and!; try done.
    by destruct G1 as [_ M R ND]. }
  destruct (nonempty_ends l1 H1) as (y & xs1 & xs2 & w & _ & E2 & _ & El).
  destruct (seg_set_left_next _ _ _ _ _ _ _ _ (firstp ys None) H1 G1) as (m2 & E3 & G2 & R2).
  pose proof (sg_left _ _ _ _ _ _ _ _ G) as L. rewrite E2 in L. destruct (elem_last _ _ _ _ _ L) as [v Ev].
  exists m2. unfold link_after. rewrite El, Ev, bind_Ok. cbn [el_next]. rewrite E1, bind_Ok. rewrite El in E3.
  rewrite E3, bind_Ok, <- (El None). split_and!; [by destruct l1|done|].
  eapply relinked_trans; eapply relinked_mono; [|exact R1| |exact R2]; set_solver.
Qed.

Lemma close_after_ok m l l1 ys l2 : ys ≠ [] →
  segments m l1 ys l2 (firstp ys None) (lastp None l1) (firstp l2 None) (lastp None l1) →
  ∃ m', close_after m l (lastp None ys) = Ok (m', if l2 is [] then set_dl_tail l (lastp None ys) else l) ∧
    segments m' l1 ys l2 (firstp ys None) (lastp None l1) (firstp l2 None) (lastp None ys) ∧
    relinked l2 m m'.
Proof.
  intros Hne G. destruct (nonempty_ends ys Hne) as (y & ys1 & ys2 & z & _ & E2 & _ & El).
  pose proof (sg_mid _ _ _ _ _ _ _ _ G) as M. rewrite E2 in M. destruct (elem_last _ _ _ _ _ M) as [v Ev].
  unfold close_after. rewrite El, Ev, bind_Ok. cbn [el_next]. destruct (decide (l2 = [])) as [->|H2].
  { exists m. split_and!; try done. by destruct G as [L M' _ ND]. }
  destruct (seg_set_right_prev _ _ _ _ _ _ _ _ (Some z) H2 G) as (m1 & E1 & G1 & R1).
  exists m1. destruct l2 as [|u l2]; [done|]. cbn [firstp] in *. rewrite E1, bind_Ok. split_and!; done.
Qed.

Lemma link_before_ok m l l1 ys l2 p2 : ys ≠ [] → dl_tail l = lastp None (l1 ++ l2) →
  segments m l1 ys l2 (firstp l2 None) p2 (firstp l2 None) (lastp None l1) →
  ∃ m', link_before m l (firstp l2 None) (firstp ys None) (lastp None ys) =
      Ok (m', if l2 is [] then set_dl_tail l (lastp None ys) else l) ∧
    segments m' l1 ys l2 (firstp l2 None) (lastp None l1) (firstp l2 None) (lastp None ys) ∧
    relinked (ys ++ l2) m m'.
Proof.
  intros Hne Ht G. destruct (seg_set_mid_prev _ _ _ _ _ _ _ _ (lastp None l1) Hne G) as (m1 & E1 & G1 & R1).
  unfold link_before. destruct (decide (l2 = [])) as [->|H2].
  { exists m1. cbn [firstp]. rewrite app_nil_r in Ht. rewrite Ht, E1, bind_Ok. split_and!; try done.
    - by destruct G1 as [L M _ ND].
    - by rewrite app_nil_r. }
  destruct (seg_set_right_prev _ _ _ _ _ _ _ _ (lastp None ys) H2 G1) as (m2 & E3 & G2 & R2).
  pose proof (sg_right _ _ _ _ _ _ _ _ G) as R. destruct l2 as [|u l2]; [done|]. cbn [firstp] in *.
  destruct (elem_first _ _ _ _ _ R) as [v Ev]. exists m2. rewrite Ev, bind_Ok. cbn [el_prev].
  rewrite E1, bind_Ok, E3, bind_Ok. split_and!; try done.
  eapply relinked_trans; eapply relinked_mono; [|exact R1| |exact R2]; set_solver.
Qed.

Lemma close_before_ok m l l1 ys l2 : ys ≠ [] →
  segments m l1 ys l2 (firstp l2 None) (lastp None l1) (firstp l2 None) (lastp None ys) →
  ∃ m', close_before m l (firstp ys None) = Ok (m', if l1 is [] then set_dl_head l (firstp ys None) else l) ∧
    segments m' l1 ys l2 (firstp ys None) (lastp None l1) (firstp l2 None) (lastp None ys) ∧
    relinked l1 m m'.
Proof.
  intros Hne G. destruct (nonempty_ends ys Hne) as (y & ys1 & ys2 & z & E1 & _ & Ef & _).
  pose proof (sg_mid _ _ _ _ _ _ _ _ G) as M. rewrite E1 in M. destruct (elem_first _ _ _ _ _ M) as [v Ev].
  unfold close_before. rewrite Ef, Ev, bind_Ok. cbn [el_prev]. destruct (decide (l1 = [])) as [->|H1].
  { exists m. split_and!; try done. by destruct G as [_ M' R ND]. }
  destruct (seg_set_left_next _ _ _ _ _ _ _ _ (Some y) H1 G) as (m1 & E3 & G1 & R1).
  exists m1. destruct (nonempty_ends l1 H1) as (? & ? & ? & w & _ & _ & _ & El). rewrite El in *.
  rewrite E3, bind_Ok. split_and!; [by destruct l1|done|done].
Qed.

(** The head and tail after an insertion between [l1] and [l2]. *)
Lemma ends_after (l : dlist) l1 ys l2 : ys ≠ [] →
  dl_head l = firstp (l1 ++ l2) None → dl_tail l = lastp None (l1 ++ l2) →
  (if l1 is [] then firstp ys None else dl_head l) = firstp (l1 ++ ys ++ l2) None ∧
  (if l2 is [] then lastp None ys else dl_tail l) = lastp None (l1 ++ ys ++ l2).
Proof.
  intros Hne Hh Ht. destruct (nonempty_ends ys Hne) as (y & ys1 & ys2 & z & _ & _ & Ef & El). split.
  - destruct l1; cbn; [by rewrite firstp_app, !Ef|by rewrite Hh].
  - rewrite !lastp_app, El. destruct l2; cbn; [by rewrite El|]. by rewrite Ht, lastp_app.
Qed.

(** The steps of an insertion of [ys], whatever its outer links were. *)
Lemma insert_after_ok m l l1 l2 ys p2 n2 len :
  segments m l1 ys l2 (firstp l2 None) p2 n2 (lastp None l1) → ys ≠ [] →
  dl_head l = firstp (l1 ++ l2) None → dl_tail l = lastp None (l1 ++ l2) →
  len = Z.of_nat (length (l1 ++ ys ++ l2)) →
  ∃ m' l', (m ← set_prev m (firstp ys None) (lastp None l1);
            '(m, l) ← link_after m l (lastp None l1) (firstp ys None) (lastp None ys);
            close_after m l (lastp None ys)) = Ok (m', l') ∧
    dl_listLen l' = dl_listLen l ∧ dlist_at m' (set_dl_len l' len) (l1 ++ ys ++ l2) ∧
    relinked (l1 ++ ys ++ l2) m m'.
Proof.
  intros G0 Hne Hh Ht Hlen. destruct (seg_set_mid_prev _ _ _ _ _ _ _ _ (lastp None l1) Hne G0) as (m1 & E1 & G1 & R1).
  destruct (link_after_ok m1 l l1 ys l2 n2 Hne Hh G1) as (m2 & E2 & G2 & R2).
  destruct (close_after_ok m2 (if l1 is [] then set_dl_head l (firstp ys None) else l) l1 ys l2 Hne G2)
    as (m3 & E3 & G3 & R3).
  rewrite E1, bind_Ok, E2, bind_Ok, E3. destruct (ends_after l l1 ys l2 Hne Hh Ht) as [Eh Et].
  eexists m3, _. split; [done|]. split; [by destruct l1, l2|]. split.
  - apply segments_join; try done; [rewrite <- Eh|rewrite <- Et]; by destruct l1, l2.
  - apply (relinked_trans _ _ m1); [eapply relinked_mono; [|exact R1]; set_solver|].
    apply (relinked_trans _ _ m2); [eapply relinked_mono; [|exact R2]; set_solver|].
    eapply relinked_mono; [|exact R3]; set_solver.
Qed.

Lemma insert_before_ok m l l1 l2 ys p2 n2 len :
  segments m l1 ys l2 (firstp l2 None) p2 n2 (lastp None l1) → ys ≠ [] →
  dl_head l = firstp (l1 ++ l2) None → dl_tail l = lastp None (l1 ++ l2) →
  len = Z.of_nat (length (l1 ++ ys ++ l2)) →
  ∃ m' l', (m ← set_next m (lastp None ys) (firstp l2 None);
            '(m, l) ← link_before m l (firstp l2 None) (firstp ys None) (lastp None ys);
            close_before m l (firstp ys None)) = Ok (m', l') ∧
    dl_listLen l' = dl_listLen l ∧ dlist_at m' (set_dl_len l' len) (l1 ++ ys ++ l2) ∧
    relinked (l1 ++ ys ++ l2) m m'.
Proof.
  intros G0 Hne Hh Ht Hlen. destruct (seg_set_mid_next _ _ _ _ _ _ _ _ (firstp l2 None) Hne G0) as (m1 & E1 & G1 & R1).
  destruct (link_before_ok m1 l l1 ys l2 p2 Hne Ht G1) as (m2 & E2 & G2 & R2).
  destruct (close_before_ok m2 (if l2 is [] then set_dl_tail l (lastp None ys) else l) l1 ys l2 Hne G2)
    as (m3 & E3 & G3 & R3).
  rewrite E1, bind_Ok, E2, bind_Ok, E3. destruct (ends_after l l1 ys l2 Hne Hh Ht) as [Eh Et].
  eexists m3, _. split; [done|]. split; [by destruct l1, l2|]. split.
  - apply segments_join; try done; [rewrite <- Eh|rewrite <- Et]; by destruct l1, l2.
  - apply (relinked_trans _ _ m1); [eapply relinked_mono; [|exact R1]; set_solver|].
    apply (relinked_trans _ _ m2); [eapply relinked_mono; [|exact R2]; set_solver|].
    eapply relinked_mono; [|exact R3]; set_solver.
Qed.

Lemma addAfter_list_ok m l dl l1 l2 ys :
  dlist_at m l (l1 ++ l2) → dlist_at m dl ys → ys ≠ [] → NoDup (l1 ++ ys ++ l2) →
  Z.of_nat (length (l1 ++ ys ++ l2)) < 2 ^ 63 →
  ∃ m' l', addAfter_list m l (lastp None l1) dl = Ok (m', l', dl_new) ∧
    dlist_at m' l' (l1 ++ ys ++ l2) ∧ relinked (l1 ++ ys ++ l2) m m'.
Proof.
  intros A D Hne ND Hlen. pose proof (segments_split _ _ _ _ _ _ A D ND) as G0.
  destruct A as [Hh Ht Hl _ _]. destruct D as [Hh' Ht' Hl' _ _].
  destruct (insert_after_ok m l l1 l2 ys _ _ _ G0 Hne Hh Ht eq_refl) as (m' & l' & E & El & A' & R).
  unfold addAfter_list. rewrite Hl', (proj2 (Z.eqb_neq _ _)) by (destruct ys; [done|cbn; lia]). rewrite Hh', Ht'.
  apply bind_Ok_inv in E as (m1 & -> & E). rewrite bind_Ok.
  apply bind_Ok_inv in E as ([m2 l2'] & -> & E). rewrite bind_Ok, E, bind_Ok, El, Hl.
  exists m', (set_dl_len l' (Z.of_nat (length (l1 ++ ys ++ l2)))). split_and!; [|done|done].
  rewrite !length_app in *. rewrite i64_small by lia. do 4 f_equal. lia.
Qed.

Lemma addBefore_list_ok m l dl l1 l2 ys :
  dlist_at m l (l1 ++ l2) → dlist_at m dl ys → ys ≠ [] → NoDup (l1 ++ ys ++ l2) →
  Z.of_nat (length (l1 ++ ys ++ l2)) < 2 ^ 63 →
  ∃ m' l', addBefore_list m l (firstp l2 None) dl = Ok (m', l', dl_new) ∧
    dlist_at m' l' (l1 ++ ys ++ l2) ∧ relinked (l1 ++ ys ++ l2) m m'.
Proof.
  intros A D Hne ND Hlen. pose proof (segments_split _ _ _ _ _ _ A D ND) as G0.
  destruct A as [Hh Ht Hl _ _]. destruct D as [Hh' Ht' Hl' _ _].
  destruct (insert_before_ok m l l1 l2 ys _ _ _ G0 Hne Hh Ht eq_refl) as (m' & l' & E & El & A' & R).
  unfold addBefore_list. rewrite Hl', (proj2 (Z.eqb_neq _ _)) by (destruct ys; [done|cbn; lia]). rewrite Hh', Ht'.
  apply bind_Ok_inv in E as (m1 & -> & E). rewrite bind_Ok.
  apply bind_Ok_inv in E as ([m2 l2'] & -> & E). rewrite bind_Ok, E, bind_Ok, El, Hl.
  exists m', (set_dl_len l' (Z.of_nat (length (l1 ++ ys ++ l2)))). split_and!; [|done|done].
  rewrite !length_app in *. rewrite i64_small by lia. do 4 f_equal. lia.
Qed.

(** A new element, with whatever links. *)
Lemma segments_new m l l1 l2 x e :
  dlist_at m l (l1 ++ l2) → m !! x = Some e → x ∉ l1 ++ l2 →
  segments m l1 [x] l2 (firstp l2 None) (el_prev e) (el_next e) (lastp None l1).
Proof.
  intros A E Hx. pose proof (da_linked _ _ _ A) as [La Lb]%linked_app. split; try done.
  - split; [|done]. exists (el_value e). rewrite E. by destruct e.
  - pose proof (da_nodup _ _ _ A) as ND. apply (NoDup_perm (x :: l1 ++ l2)); [solve_Permutation|].
    by apply NoDup_cons.
Qed.

Lemma addAfter_ok m l l1 l2 x e :
  dlist_at m l (l1 ++ l2) → m !! x = Some e → x ∉ l1 ++ l2 → Z.of_nat (length (l1 ++ l2)) < 2 ^ 63 - 1 →
  ∃ m' l', addAfter m l (lastp None l1) (Some x) = Ok (m', l') ∧
    dlist_at m' l' (l1 ++ x :: l2) ∧ relinked (l1 ++ x :: l2) m m'.
Proof.
  intros A E Hx Hlen. pose proof (segments_new _ _ _ _ _ _ A E Hx) as G0. destruct A as [Hh Ht Hl _ _].
  destruct (insert_after_ok m l l1 l2 [x] _ _ _ G0 ltac:(done) Hh Ht eq_refl) as (m' & l' & Ei & El & A' & R).
  unfold addAfter. cbn [firstp lastp] in Ei. apply bind_Ok_inv in Ei as (m1 & -> & Ei). rewrite bind_Ok.
  apply bind_Ok_inv in Ei as ([m2 l2'] & -> & Ei). rewrite bind_Ok, Ei, bind_Ok, El, Hl.
  exists m', (set_dl_len l' (Z.of_nat (length (l1 ++ [x] ++ l2)))). split_and!; [|done|done].
  rewrite !length_app in *. cbn [length] in *. rewrite i64_small by lia. do 3 f_equal. lia.
Qed.

Lemma addBefore_ok m l l1 l2 x e :
  dlist_at m l (l1 ++ l2) → m !! x = Some e → x ∉ l1 ++ l2 → Z.of_nat (length (l1 ++ l2)) < 2 ^ 63 - 1 →
  ∃ m' l', addBefore m l (firstp l2 None) (Some x) = Ok (m', l') ∧
    dlist_at m' l' (l1 ++ x :: l2) ∧ relinked (l1 ++ x :: l2) m m'.
Proof.
  intros A E Hx Hlen. pose proof (segments_new _ _ _ _ _ _ A E Hx) as G0. destruct A as [Hh Ht Hl _ _].
  destruct (insert_before_ok m l l1 l2 [x] _ _ _ G0 ltac:(done) Hh Ht eq_refl) as (m' & l' & Ei & El & A' & R).
  unfold addBefore. cbn [firstp lastp] in Ei. apply bind_Ok_inv in Ei as (m1 & -> & Ei). rewrite bind_Ok.
  apply bind_Ok_inv in Ei as ([m2 l2'] & -> & Ei). rewrite bind_Ok, Ei, bind_Ok, El, Hl.
  exists m', (set_dl_len l' (Z.of_nat (length (l1 ++ [x] ++ l2)))). split_and!; [|done|done].
  rewrite !length_app in *. cbn [length] in *. rewrite i64_small by lia. do 3 f_equal. lia.
Qed.

(** ** Taking out *)

Lemma segments_at m l l1 x l2 : dlist_at m l (l1 ++ x :: l2) →
  segments m l1 [x] l2 (Some x) (lastp None l1) (firstp l2 None) (Some x).
Proof.
  intros A. pose proof (da_linked _ _ _ A) as [La [Lx Lb]]%linked_app. split; try done. apply (da_nodup _ _ _ A).
Qed.

Lemma skip_forward_ok m l l1 x l2 : dl_head l = firstp (l1 ++ x :: l2) None →
  segments m l1 [x] l2 (Some x) (lastp None l1) (firstp l2 None) (Some x) →
  ∃ m' l', skip_forward m l (Some x) = Ok (m', l') ∧ dl_head l' = firstp (l1 ++ l2) None ∧
    dl_tail l' = dl_tail l ∧ dl_listLen l' = dl_listLen l ∧
    segments m' l1 [x] l2 (firstp l2 None) (lastp None l1) (firstp l2 None) (Some x) ∧ relinked l1 m m'.
Proof.
  intros Hh G. destruct (elem_first _ _ _ _ _ (sg_mid _ _ _ _ _ _ _ _ G)) as [v Ev].
  unfold skip_forward. rewrite Ev, bind_Ok. cbn [el_prev el_next firstp]. destruct (decide (l1 = [])) as [->|H1].
  - eexists m, _. cbn [lastp]. split_and!; try done. by destruct G as [_ M R N].
  - destruct (seg_set_left_next _ _ _ _ _ _ _ _ (firstp l2 None) H1 G) as (m1 & E & G1 & R1).
    destruct (nonempty_ends l1 H1) as (? & ? & ? & w & -> & _ & _ & Ew). rewrite Ew in *.
    exists m1, l. rewrite E, bind_Ok. by split_and!.
Qed.

Lemma skip_reverse_ok m l l1 x l2 : dl_tail l = lastp None (l1 ++ x :: l2) →
  segments m l1 [x] l2 (firstp l2 None) (lastp None l1) (firstp l2 None) (Some x) →
  ∃ m' l', skip_reverse m l (Some x) = Ok (m', l') ∧ dl_head l' = dl_head l ∧
    dl_tail l' = lastp None (l1 ++ l2) ∧ dl_listLen l' = dl_listLen l ∧
    segments m' l1 [x] l2 (firstp l2 None) (lastp None l1) (firstp l2 None) (lastp None l1) ∧ relinked l2 m m'.
Proof.
  intros Ht G. destruct (elem_first _ _ _ _ _ (sg_mid _ _ _ _ _ _ _ _ G)) as [v Ev].
  unfold skip_reverse. rewrite Ev, bind_Ok. cbn [el_prev el_next firstp]. rewrite lastp_app in *.
  destruct l2 as [|u l2].
  - eexists m, _. cbn [firstp lastp]. split_and!; try done. by destruct G as [L M _ N].
  - assert (u :: l2 ≠ []) as Hu by done.
    destruct (seg_set_right_prev _ _ _ _ _ _ _ _ (lastp None l1) Hu G) as (m2 & E & G2 & R2).
    exists m2, l. cbn [firstp] in *. rewrite E, bind_Ok. by split_and!.
Qed.

Lemma detach_ok m l l1 x l2 : dlist_at m l (l1 ++ x :: l2) → Z.of_nat (length (l1 ++ x :: l2)) < 2 ^ 63 →
  ∃ m' l', detach m l (Some x) = Ok (Some x, m', l') ∧ dlist_at m' l' (l1 ++ l2) ∧ relinked (l1 ++ l2) m m'.
Proof.
  intros A Hlen. pose proof (segments_at _ _ _ _ _ A) as G. destruct A as [Hh Ht Hl _ ND].
  destruct (skip_forward_ok m l l1 x l2 Hh G) as (m1 & la & E1 & Eh & Et & El & G1 & R1). rewrite <- Et in Ht.
  destruct (skip_reverse_ok m1 la l1 x l2 Ht G1) as (m2 & lb & E2 & Eh2 & Et2 & El2 & G2 & R2).
  unfold detach. rewrite E1, bind_Ok, E2, bind_Ok. eexists m2, _. split; [done|]. split.
  - split; cbn; try done; [by rewrite Eh2, Eh| | |].
    + rewrite El2, El, Hl, !length_app in *. cbn [length] in *. rewrite i64_small by lia. lia.
    + apply linked_app. by destruct G2.
    + apply NoDup_app in ND as (N1 & D & [Nx N2]%NoDup_cons). apply NoDup_app. split_and!; [done|set_solver|done].
  - eapply relinked_trans; eapply relinked_mono; [|exact R1| |exact R2]; set_solver.
Qed.

(** ** Whole lists *)

Lemma linked_dom m xs : ∀ p n x, linked m p xs n → x ∈ xs → is_Some (m !! x).
Proof.
  induction xs as [|y xs IH]; intros p n x H Hx; [by apply elem_of_nil in Hx|].
  destruct H as [[v E] H]. apply elem_of_cons in Hx as [->|Hx]; [by eexists|by eapply IH].
Qed.

Definition values m xs : list (option V) := (λ x, el_value <$> m !! x) <$> xs.

Lemma values_relinked S m m' xs : relinked S m m' → values m' xs = values m xs.
Proof. intros [_ H]. apply list_fmap_ext. intros _ x _. apply H. Qed.

(** Memory that was not in use. *)
Lemma linked_fresh m p xs n x e : x ∉ dom m → linked m p xs n → linked (<[x := e]> m) p xs n.
Proof.
  intros Hx. revert p. induction xs as [|y xs IH]; intros p H; [done|]. destruct H as [[v E] H].
  split; [|by apply IH]. exists v. rewrite lookup_insert_ne; [done|]. intros ->. apply Hx, elem_of_dom. by eexists.
Qed.

Lemma dlist_fresh m l xs x e : x ∉ dom m → dlist_at m l xs → dlist_at (<[x := e]> m) l xs.
Proof. intros Hx [H1 H2 H3 H4 H5]. split; try done. by apply linked_fresh. Qed.

(** [m'] has the elements of [m], unchanged but for the links of [S]. *)
Definition extends (S : list positive) m m' : Prop :=
  (∀ y, y ∈ dom m → y ∉ S → m' !! y = m !! y) ∧ (∀ y, y ∈ dom m → el_value <$> m' !! y = el_value <$> m !! y).

Lemma linked_extends S m m' xs : extends S m m' → (∀ x, x ∈ xs → x ∉ S) → ∀ p n,
  linked m p xs n → linked m' p xs n.
Proof.
  intros X. induction xs as [|y xs IH]; intros D p n H; [done|]. destruct H as [[w E] H]. split.
  - exists w. rewrite (proj1 X); [done| |].
    + apply elem_of_dom. by eexists.
    + apply D. by left.
  - apply IH; [|done]. intros z Hz. apply D. by right.
Qed.

Lemma append_copy m l ts x e : dlist_at m l ts → x ∉ dom m → Z.of_nat (length ts) < 2 ^ 63 - 1 →
  ∃ m' l', append (<[x := e]> m) l (Some x) = Ok (m', l') ∧ dlist_at m' l' (ts ++ [x]) ∧
    extends ts m m' ∧ el_value <$> m' !! x = Some (el_value e) ∧ dom m' = {[x]} ∪ dom m.
Proof.
  intros A Hx Hlen. assert (x ∉ ts) as Hn.
  { intros X. apply Hx, elem_of_dom. eapply linked_dom; [apply A|done]. }
  pose proof (dlist_fresh _ _ _ x e Hx A) as A'. rewrite <- (app_nil_r ts) in A'.
  destruct (addAfter_ok _ _ ts [] x e A' (lookup_insert_eq _ _ _)) as (m' & l' & E & A2 & R);
    [by rewrite app_nil_r|by rewrite app_nil_r|].
  exists m', l'. unfold append. rewrite (da_tail _ _ _ A'), app_nil_r. split; [exact E|]. split; [exact A2|].
  destruct R as [R1 R2]. split_and!.
  - split; intros y Hy; [intros Hys|].
    + assert (y ≠ x) as Hne by (by intros ->). rewrite R1, lookup_insert_ne by set_solver. done.
    + rewrite R2, lookup_insert_ne; [done|]. by intros ->.
  - by rewrite R2, lookup_insert_eq.
  - rewrite <- dom_insert_L with (i := x) (x := e). apply set_eq. intros y. rewrite !elem_of_dom.
    specialize (R2 y). destruct (m' !! y), (<[x := e]> m !! y); naive_solver.
Qed.

Lemma copy_loop_ok new xs : (∀ D, new D ∉ D) → ∀ m l ts p fuel,
  linked m p xs None → dlist_at m l ts → (∀ x, x ∈ xs → x ∉ ts) →
  Z.of_nat (length ts + length xs) < 2 ^ 63 → (length xs < fuel)%nat →
  ∃ m' l' cs, copy_loop new fuel m l (firstp xs None) = Ok (m', l') ∧ dlist_at m' l' (ts ++ cs) ∧
    values m' cs = values m xs ∧ extends ts m m' ∧ (∀ c, c ∈ cs → c ∉ dom m).
Proof.
  intros Hnew. induction xs as [|x xs IH]; intros m l ts p [|fuel] H A D Hlen Hf; try (cbn in Hf; lia).
  { exists m, l, []. rewrite app_nil_r. split_and!; try done. by intros c ?%elem_of_nil. }
  destruct (elem_first _ _ _ _ _ H) as [v Ev]. destruct H as [[v' Ex] H]. cbn [firstp copy_loop length] in *.
  rewrite Ev, bind_Ok. pose proof (Hnew (dom m)) as Hn. set (c := new (dom m)) in *.
  assert (x ∈ dom m) as Hxd by (apply elem_of_dom; by eexists).
  destruct (append_copy m l ts c (Element p (firstp xs None) v) A Hn) as (m1 & l1 & -> & A1 & X1 & V1 & D1); [lia|].
  rewrite bind_Ok. assert (m1 !! x = m !! x) as E1 by (apply X1; [done|apply D; by left]).
  unfold elem_at in Ev |- *. cbn [deref] in *. rewrite bind_Ok in *. rewrite E1, Ev, bind_Ok. cbn [el_next].
  assert (linked m1 (Some x) xs None) as H1.
  { apply (linked_extends ts m); [done| |done]. intros y Hy. apply D. by right. }
  destruct (IH m1 l1 (ts ++ [c]) (Some x) fuel H1 A1) as (m2 & l2 & cs & E2 & A2 & V2 & X2 & C2).
  { intros y Hy [Hy'|Hy']%elem_of_app; [by apply (D y); [right|]|]. apply list_elem_of_singleton in Hy' as ->.
    apply Hn, elem_of_dom. by eapply linked_dom. }
  { rewrite length_app. cbn. lia. }
  { lia. }
  exists m2, l2, (c :: cs). rewrite <- app_assoc in A2. split_and!; try done.
  - change ((el_value <$> m2 !! c) :: values m2 cs = (el_value <$> m !! x) :: values m xs). rewrite V2. f_equal.
    + destruct X2 as [_ X2]. rewrite X2, V1 by (rewrite D1; set_solver). rewrite Ex in Ev |- *. cbn in *. congruence.
    + apply list_fmap_ext. intros _ y Hy%list_elem_of_lookup_2. apply X1, elem_of_dom. by eapply linked_dom.
  - destruct X1 as [X1 Y1], X2 as [X2 Y2]. split; intros y Hy.
    + intros Hys. rewrite X2, X1; [done|done|done|rewrite D1; set_solver|]. set_solver.
    + rewrite Y2, Y1; [done|done|]. rewrite D1. set_solver.
  - intros d [->|Hd]%elem_of_cons; [done|]. specialize (C2 d Hd). rewrite D1 in C2. set_solver.
Qed.

Lemma traverse_ok m xs : ∀ p fuel, linked m p xs None → (length xs < fuel)%nat →
  traverse fuel m (firstp xs None) = Ok xs.
Proof.
  induction xs as [|x xs IH]; intros p [|fuel] H L; try (cbn in L; lia); [done|].
  destruct (elem_first _ _ _ _ _ H) as [v Ev]. destruct H as [_ H]. cbn [firstp traverse length] in *.
  unfold increment. rewrite Ev, !bind_Ok. cbn [el_next]. rewrite (IH (Some x)); [done|done|lia].
Qed.

Lemma traverse_back_ok m xs : ∀ n fuel, linked m None xs n → (length xs < fuel)%nat →
  traverse_back fuel m (lastp None xs) = Ok (reverse xs).
Proof.
  induction xs as [|x xs IH] using rev_ind; intros n fuel H L; rewrite ?length_app in L;
    cbn [length] in L; (destruct fuel as [|fuel]; [lia|]); [done|]. destruct (elem_last _ _ _ _ _ H) as [v Ev].
  apply linked_app in H as [H _]. rewrite lastp_app, reverse_snoc. cbn [lastp traverse_back].
  unfold decrement. rewrite Ev, !bind_Ok. cbn [el_prev]. rewrite (IH (Some x)); [done|done|lia].
Qed.

Lemma linked_delete m xs x : x ∉ xs → ∀ p n, linked m p xs n → linked (delete x m) p xs n.
Proof.
  induction xs as [|y xs IH]; intros Hx p n H; [done|]. destruct H as [[w E] H].
  apply not_elem_of_cons in Hx as [Hxy Hx]. split; [|by apply IH]. exists w. by rewrite lookup_delete_ne.
Qed.

Lemma empty_loop_ok xs : ∀ m p fuel, linked m p xs None → NoDup xs → (length xs < fuel)%nat →
  ∃ m', empty_loop fuel m (firstp xs None) = Ok m' ∧
    (∀ y, m' !! y = if decide (y ∈ xs) then None else m !! y).
Proof.
  induction xs as [|x xs IH]; intros m p [|fuel] H ND L; try (cbn in L; lia).
  { exists m. split; [done|]. intros y. by rewrite decide_False by apply not_elem_of_nil. }
  destruct (elem_first _ _ _ _ _ H) as [v Ev]. destruct H as [[v' Ex] H]. apply NoDup_cons in ND as [Hx ND].
  cbn [firstp empty_loop length] in *. rewrite Ev, bind_Ok. cbn [el_next]. unfold free_el. cbn [deref].
  rewrite bind_Ok, Ex. cbn [deref]. rewrite !bind_Ok.
  destruct (IH (delete x m) (Some x) fuel) as (m' & E & Hm); [by apply linked_delete|done|lia|].
  exists m'. split; [done|]. intros y. rewrite Hm. destruct (decide (y = x)) as [->|Hne].
  - rewrite decide_False by done. rewrite decide_True by (by left). apply lookup_delete_eq.
  - rewrite lookup_delete_ne by done. destruct (decide (y ∈ xs)); [by rewrite decide_True by (by right)|].
    rewrite decide_False; [done|]. by intros [|]%elem_of_cons.
Qed.

(** ** The abstract list *)

Inductive lop :=
  | AddAfter (prev_el : option positive) (x : positive)
  | AddBefore (next_el : option positive) (x : positive)
  | Detach (x : positive).

Fixpoint put_after (p x : positive) (xs : list positive) : list positive :=
  match xs with [] => [] | y :: ys => if decide (y = p) then y :: x :: ys else y :: put_after p x ys end.
Fixpoint put_before (p x : positive) (xs : list positive) : list positive :=
  match xs with [] => [] | y :: ys => if decide (y = p) then x :: y :: ys else y :: put_before p x ys end.

(** [None] for the uses the documentation calls undefined. *)
Definition spec_step (xs : list positive) (o : lop) : option (list positive) :=
  match o with
  | AddAfter None x => if decide (x ∈ xs) then None else Some (x :: xs)
  | AddAfter (Some p) x => if decide ((x ∉ xs) ∧ p ∈ xs) then Some (put_after p x xs) else None
  | AddBefore None x => if decide (x ∈ xs) then None else Some (xs ++ [x])
  | AddBefore (Some p) x => if decide ((x ∉ xs) ∧ p ∈ xs) then Some (put_before p x xs) else None
  | Detach x => if decide (x ∈ xs) then Some (filter (λ y, y ≠ x) xs) else None
  end.

Definition impl_step m (l : dlist) (o : lop) : res (gmap positive (element V) * dlist) :=
  match o with
  | AddAfter p x => addAfter m l p (Some x)
  | AddBefore p x => addBefore m l p (Some x)
  | Detach x => '(_, m, l) ← detach m l (Some x); Ok (m, l)
  end.

Definition op_el (o : lop) : positive := match o with AddAfter _ x | AddBefore _ x | Detach x => x end.

Fixpoint spec_run (xs : list positive) (os : list lop) : option (list positive) :=
  match os with [] => Some xs | o :: os => xs ← spec_step xs o; spec_run xs os end.
Fixpoint impl_run m (l : dlist) (os : list lop) : res (gmap positive (element V) * dlist) :=
  match os with [] => Ok (m, l) | o :: os => '(m, l) ← impl_step m l o; impl_run m l os end.

Lemma put_after_split p x xs : p ∈ xs → ∃ l1 l2, xs = (l1 ++ [p]) ++ l2 ∧ put_after p x xs = (l1 ++ [p]) ++ x :: l2.
Proof.
  induction xs as [|y xs IH]; intros Hp; [by apply elem_of_nil in Hp|]. cbn. case_decide as Hy.
  - subst. by exists [], xs.
  - apply elem_of_cons in Hp as [->|Hp]; [done|]. destruct (IH Hp) as (l1 & l2 & -> & ->). by exists (y :: l1), l2.
Qed.

Lemma put_before_split p x xs : p ∈ xs → ∃ l1 l2, xs = l1 ++ p :: l2 ∧ put_before p x xs = l1 ++ x :: p :: l2.
Proof.
  induction xs as [|y xs IH]; intros Hp; [by apply elem_of_nil in Hp|]. cbn. case_decide as Hy.
  - subst. by exists [], xs.
  - apply elem_of_cons in Hp as [->|Hp]; [done|]. destruct (IH Hp) as (l1 & l2 & -> & ->). by exists (y :: l1), l2.
Qed.

Lemma detach_split x xs : x ∈ xs → NoDup xs → ∃ l1 l2, xs = l1 ++ x :: l2 ∧ filter (λ y, y ≠ x) xs = l1 ++ l2.
Proof.
  assert (∀ l : list positive, x ∉ l → filter (λ y, y ≠ x) l = l) as F.
  { induction l as [|y l IH]; intros H; [done|]. apply not_elem_of_cons in H as [Hxy H].
    rewrite filter_cons_True by done. by rewrite IH. }
  intros (l1 & l2 & ->)%list_elem_of_split (_ & D & [Hx _]%NoDup_cons)%NoDup_app. exists l1, l2. split; [done|].
  rewrite filter_app, filter_cons_False by (intros X; by apply X). rewrite !F; [done|done|].
  intros H. apply (D x H). by left.
Qed.

Lemma impl_step_ok m l xs o xs' :
  dlist_at m l xs → spec_step xs o = Some xs' → is_Some (m !! op_el o) → Z.of_nat (length xs) < 2 ^ 63 - 1 →
  ∃ m' l', impl_step m l o = Ok (m', l') ∧ dlist_at m' l' xs' ∧ ∀ y, el_value <$> m' !! y = el_value <$> m !! y.
Proof.
  intros A S [e E] Hlen. destruct o as [[p|] x|[p|] x|x]; cbn [spec_step impl_step op_el] in *.
  - case_decide as Hd; [|done]. destruct Hd as [Hx Hp]. injection S as <-.
    destruct (put_after_split p x xs Hp) as (l1 & l2 & -> & ->).
    destruct (addAfter_ok m l (l1 ++ [p]) l2 x e A E Hx Hlen) as (m' & l' & Ea & A' & [_ R]).
    rewrite lastp_app in Ea. by exists m', l'.
  - case_decide as Hd; [done|]. injection S as <-.
    destruct (addAfter_ok m l [] xs x e A E Hd Hlen) as (m' & l' & Ea & A' & [_ R]). by exists m', l'.
  - case_decide as Hd; [|done]. destruct Hd as [Hx Hp]. injection S as <-.
    destruct (put_before_split p x xs Hp) as (l1 & l2 & -> & ->).
    destruct (addBefore_ok m l l1 (p :: l2) x e A E Hx Hlen) as (m' & l' & Ea & A' & [_ R]). by exists m', l'.
  - case_decide as Hd; [done|]. injection S as <-. rewrite <- (app_nil_r xs) in A, Hd, Hlen.
    destruct (addBefore_ok m l xs [] x e A E Hd Hlen) as (m' & l' & Ea & A' & [_ R]). by exists m', l'.
  - case_decide as Hd; [|done]. injection S as <-. destruct (detach_split x xs Hd (da_nodup _ _ _ A)) as (l1 & l2 & -> & ->).
    destruct (detach_ok m l l1 x l2 A ltac:(lia)) as (m' & l' & Ea & A' & [_ R]). rewrite Ea, bind_Ok. by exists m', l'.
Qed.

Lemma spec_step_length xs o xs' : spec_step xs o = Some xs' → (length xs' ≤ S (length xs))%nat.
Proof.
  destruct o as [[p|] x|[p|] x|x]; cbn; case_decide as Hd; intros [= <-].
  - destruct Hd as [_ Hp]. destruct (put_after_split p x xs Hp) as (l1 & l2 & -> & ->). rewrite !length_app. cbn. lia.
  - done.
  - destruct Hd as [_ Hp]. destruct (put_before_split p x xs Hp) as (l1 & l2 & -> & ->). rewrite !length_app. cbn. lia.
  - rewrite length_app. cbn. lia.
  - pose proof (length_filter (λ y, y ≠ x) xs). lia.
Qed.

Lemma impl_run_ok os : ∀ m l xs xs',
  dlist_at m l xs → spec_run xs os = Some xs' → (∀ o, o ∈ os → is_Some (m !! op_el o)) →
  Z.of_nat (length xs + length os) < 2 ^ 63 - 1 →
  ∃ m' l', impl_run m l os = Ok (m', l') ∧ dlist_at m' l' xs' ∧ ∀ y, el_value <$> m' !! y = el_value <$> m !! y.
Proof.
  induction os as [|o os IH]; intros m l xs xs' A S Hm Hlen; cbn [spec_run impl_run length] in *.
  { injection S as <-. by exists m, l. }
  destruct (spec_step xs o) as [xs1|] eqn:E; [|done]. cbn in S.
  destruct (impl_step_ok m l xs o xs1 A E) as (m1 & l1 & -> & A1 & V1); [apply Hm; by left|lia|].
  rewrite bind_Ok. pose proof (spec_step_length _ _ _ E).
  destruct (IH m1 l1 xs1 xs' A1 S) as (m' & l' & Er & A' & V'); [|lia|].
  { intros o' Ho'. specialize (V1 (op_el o')). destruct (Hm o') as [e Ee]; [by right|]. rewrite Ee in V1.
    destruct (m1 !! op_el o'); [by eexists|done]. }
  exists m', l'. split_and!; try done. intros y. by rewrite V', V1.
Qed.

(** ** What the lists promise *)

(** C34: A sequence of insertions and detachments whose uses are defined — each
    reference element in the list, each new element not — does to a list what it
    does to the abstract sequence.  Afterwards walking forwards gives the elements
    of the sequence, walking backwards gives them reversed, the length is theirs,
    and no element has lost its contents. *)
Theorem list_run_refines m l xs os xs' :
  dlist_at m l xs → spec_run xs os = Some xs' → (∀ o, o ∈ os → is_Some (m !! op_el o)) →
  Z.of_nat (length xs + length os) < 2 ^ 63 - 1 →
  ∃ m' l', impl_run m l os = Ok (m', l') ∧
    traverse (S (length xs')) m' (dl_head l') = Ok xs' ∧
    traverse_back (S (length xs')) m' (dl_tail l') = Ok (reverse xs') ∧
    dl_listLen l' = Z.of_nat (length xs') ∧ ∀ y, el_value <$> m' !! y = el_value <$> m !! y.
Proof.
  intros A S Hm Hlen. destruct (impl_run_ok os m l xs xs' A S Hm Hlen) as (m' & l' & E & A' & Hv).
  exists m', l'. destruct A' as [Hh Ht Hl L N]. rewrite Hh, Ht. split_and!; try done.
  - eapply traverse_ok; [done|lia].
  - eapply traverse_back_ok; [done|lia].
Qed.

Lemma dlist_at_nil m l : dlist_at m l [] → l = dl_new.
Proof. intros [H1 H2 H3 _ _]. destruct l; cbn in *. by subst. Qed.

(** Splicing a list into another, after an element or before one or at an end,
    moves all its elements there in order, leaves it empty and changes nothing but
    links. *)
Theorem splice_moves_all m l dl l1 l2 ys :
  dlist_at m l (l1 ++ l2) → dlist_at m dl ys → NoDup (l1 ++ ys ++ l2) →
  Z.of_nat (length (l1 ++ ys ++ l2)) < 2 ^ 63 →
  (∃ m' l', addAfter_list m l (last l1) dl = Ok (m', l', dl_new) ∧
     dlist_at m' l' (l1 ++ ys ++ l2) ∧ relinked (l1 ++ ys ++ l2) m m') ∧
  (∃ m' l', addBefore_list m l (head l2) dl = Ok (m', l', dl_new) ∧
     dlist_at m' l' (l1 ++ ys ++ l2) ∧ relinked (l1 ++ ys ++ l2) m m').
Proof.
  intros A D ND Hlen.
  assert (last l1 = lastp None l1) as -> by (rewrite lastp_last; by destruct (last l1)).
  rewrite <- firstp_head. destruct (decide (ys = [])) as [->|Hne].
  - rewrite (dlist_at_nil _ _ D). split; exists m, l; by split_and!.
  - split; [by apply addAfter_list_ok|by apply addBefore_list_ok].
Qed.

Lemma dlist_extends ts m m' l xs :
  extends ts m m' → (∀ x, x ∈ xs → x ∉ ts) → dlist_at m l xs → dlist_at m' l xs.
Proof. intros X D [H1 H2 H3 H4 H5]. split; try done. by apply (linked_extends ts m). Qed.

(** The copy constructor makes a list of new elements with the contents of the
    other list in order, and leaves that list and its elements alone.  So does the
    assignment, but it puts them after the elements the list already had: these stay
    in the list, where the documentation says they are abandoned. *)
Theorem copies_append new m l other ts xs fuel :
  (∀ D, new D ∉ D) → dlist_at m other xs → dlist_at m l ts → (∀ x, x ∈ xs → x ∉ ts) →
  Z.of_nat (length ts + length xs) < 2 ^ 63 → (length xs < fuel)%nat →
  (∃ m' l' cs, copy_construct new fuel m other = Ok (m', l') ∧ dlist_at m' l' cs ∧
     values m' cs = values m xs ∧ (∀ c, c ∈ cs → c ∉ dom m) ∧
     dlist_at m' other xs ∧ ∀ y, y ∈ dom m → m' !! y = m !! y) ∧
  (∃ m' l' cs, assign new fuel m l other = Ok (m', l') ∧ dlist_at m' l' (ts ++ cs) ∧
     values m' cs = values m xs ∧ (∀ c, c ∈ cs → c ∉ dom m) ∧
     dlist_at m' other xs ∧ values m' ts = values m ts).
Proof.
  intros Hnew O A D Hlen Hf. pose proof (da_linked _ _ _ O) as L. split.
  - assert (dlist_at m dl_new []) as A0 by (split; try done; constructor).
    destruct (copy_loop_ok new xs Hnew m dl_new [] None fuel L A0) as (m' & l' & cs & E & A' & Hv & X & C);
      [set_solver|cbn; lia|done|].
    exists m', l', cs. unfold copy_construct. rewrite (da_head _ _ _ O). split_and!; try done.
    + apply (dlist_extends [] m); [done|set_solver|done].
    + intros y Hy. by apply X; [|apply not_elem_of_nil].
  - destruct (copy_loop_ok new xs Hnew m l ts None fuel L A D Hlen Hf) as (m' & l' & cs & E & A' & Hv & X & C).
    exists m', l', cs. unfold assign. rewrite (da_head _ _ _ O). split_and!; try done.
    + by apply (dlist_extends ts m).
    + apply list_fmap_ext. intros _ y Hy%list_elem_of_lookup_2. apply X, elem_of_dom.
      eapply linked_dom; [apply A|done].
Qed.

(** Removing an element frees it and keeps the others in the list in order;
    emptying the list frees exactly its elements, each once, and leaves it as new. *)
Theorem removal_frees m l l1 x l2 fuel :
  dlist_at m l (l1 ++ x :: l2) → Z.of_nat (length (l1 ++ x :: l2)) < 2 ^ 63 →
  (length (l1 ++ x :: l2) < fuel)%nat →
  (∃ m' l', remove m l (Some x) = Ok (m', l') ∧ dlist_at m' l' (l1 ++ l2) ∧ m' !! x = None ∧
     ∀ y, y ≠ x → el_value <$> m' !! y = el_value <$> m !! y) ∧
  (∃ m', dl_empty fuel m l = Ok (m', dl_new) ∧
     ∀ y, m' !! y = if decide (y ∈ l1 ++ x :: l2) then None else m !! y).
Proof.
  intros A Hlen Hf. split.
  - destruct (detach_ok m l l1 x l2 A Hlen) as (m1 & l' & E & A1 & [R1 R2]). unfold remove. rewrite E, bind_Ok.
    assert (is_Some (m1 !! x)) as [e Ee].
    { destruct (linked_dom m _ _ _ x (da_linked _ _ _ A)) as [e Ee]; [set_solver|]. specialize (R2 x).
      rewrite Ee in R2. destruct (m1 !! x); [by eexists|done]. }
    unfold free_el. cbn [deref]. rewrite bind_Ok, Ee. cbn [deref]. rewrite !bind_Ok. exists (delete x m1), l'.
    split_and!; [done| |apply lookup_delete_eq|intros y Hy; by rewrite lookup_delete_ne, R2].
    destruct A1 as [H1 H2 H3 H4 H5]. split; try done. apply linked_delete; [|done].
    pose proof (da_nodup _ _ _ A) as (_ & Dx & [Nx _]%NoDup_cons)%NoDup_app. set_solver.
  - destruct (empty_loop_ok (l1 ++ x :: l2) m None fuel (da_linked _ _ _ A) (da_nodup _ _ _ A) Hf) as (m' & E & Hm).
    exists m'. unfold dl_empty. by rewrite (da_head _ _ _ A), E, bind_Ok.
Qed.
End Links.

(** ** Witnesses: three elements in memory, with links left over. *)

Definition demo_mem : gmap positive (element Z) :=
  <[4%positive := Element (Some 2%positive) None 40]>
  (<[3%positive := Element None None 30]>
  (<[2%positive := Element (Some 1%positive) (Some 4%positive) 20]>
  {[1%positive := Element None (Some 2%positive) 10]})).

(** 1, 2 and 4 are a list; 3 is one of its own. *)
Definition demo_list : dlist := DListOf (Some 1%positive) (Some 4%positive) 3.

Lemma demo_list_at : dlist_at demo_mem demo_list [1%positive; 2%positive; 4%positive].
Proof.
  split; try done.
  - repeat split; eexists; reflexivity.
  - by apply (bool_decide_unpack _).
Qed.

Definition demo_single : dlist := DListOf (Some 3%positive) (Some 3%positive) 1.

Lemma demo_single_at : dlist_at demo_mem demo_single [3%positive].
Proof.
  split; try done.
  - repeat split; eexists; reflexivity.
  - by apply (bool_decide_unpack _).
Qed.

Lemma list_run_refines_witness : ∃ m' l',
  impl_run demo_mem demo_list [AddBefore (Some 2%positive) 3%positive; Detach 1%positive] = Ok (m', l') ∧
  traverse 4 m' (dl_head l') = Ok [3%positive; 2%positive; 4%positive] ∧ dl_listLen l' = 3.
Proof.
  destruct (list_run_refines demo_mem demo_list [1%positive; 2%positive; 4%positive]
    [AddBefore (Some 2%positive) 3%positive; Detach 1%positive] [3%positive; 2%positive; 4%positive])
    as (m' & l' & E & T & _ & L & _).
  - exact demo_list_at.
  - reflexivity.
  - intros o Ho. repeat (apply elem_of_cons in Ho as [->|Ho]; [by eexists|]). by apply elem_of_nil in Ho.
  - reflexivity.
  - by exists m', l'.
Defined.

Lemma splice_moves_all_witness : ∃ m' l',
  addAfter_list demo_mem demo_list (Some 1%positive) demo_single = Ok (m', l', dl_new) ∧
  dlist_at m' l' [1%positive; 3%positive; 2%positive; 4%positive].
Proof.
  destruct (splice_moves_all demo_mem demo_list demo_single [1%positive] [2%positive; 4%positive] [3%positive])
    as [(m' & l' & E & A & _) _];
    [exact demo_list_at|exact demo_single_at|by apply (bool_decide_unpack _)|reflexivity|].
  by exists m', l'.
Defined.

Lemma copies_append_witness : ∃ m' l' cs,
  assign fresh 5 demo_mem demo_single demo_list = Ok (m', l') ∧ dlist_at m' l' (3%positive :: cs) ∧
  values m' cs = [Some 10; Some 20; Some 40].
Proof.
  destruct (copies_append fresh demo_mem demo_single demo_list [3%positive] [1%positive; 2%positive; 4%positive] 5)
    as [_ (m' & l' & cs & E & A & Hv & _)];
    [exact is_fresh|exact demo_list_at|exact demo_single_at|set_solver|reflexivity|cbn; lia|].
  by exists m', l', cs.
Defined.

Lemma removal_frees_witness : ∃ m',
  dl_empty 5 demo_mem demo_list = Ok (m', dl_new) ∧ m' !! 2%positive = None ∧ m' !! 3%positive = demo_mem !! 3%positive.
Proof.
  destruct (removal_frees demo_mem demo_list [1%positive] 2%positive [4%positive] 5) as [_ (m' & E & H)];
    [exact demo_list_at|reflexivity|cbn; lia|].
  exists m'. split; [exact E|]. by rewrite !H.
Defined.
