(* ===== verification/ItQueue.v ===== *)
(** * genf/itq.cc: queues between threads

    A queue has one reading thread and any number of registered writers.  A writer
    lays its messages out in a list of blocks of its own, a header first and then
    the structure and its variable fields; [send] puts the header on the list of
    the queue.  The reader takes headers off that list and gives the bytes back to
    the writer, block by block.

    A pointer into a block is the block and an offset.  Headers are the only
    contents the code looks at: they are kept by address, and using one is
    undefined when its block is gone or it does not lie inside the block.  The mutex
    orders [send], [wait], [poll] and [registerWriter], which are single steps here. *)

From S2P Require Import Prelude.

Definition IT_BLOCK_SZ : Z := 4098.
Definition SIZEOF_ItHeader : Z := 16.

(** [char *] into a block; [ItHeader *] is such a pointer too. *)
Abbreviation addr := (positive * Z)%type.

Record ItBlock := MkItBlock {
  blk_size : Z;
  blk_next : option positive;
}.

Record ItHeader := MkItHeader {
  ih_msgId : Z;
  ih_writerId : Z;
  ih_length : Z;
  ih_next : option addr;
}.

(** [iw_mlen] and [iw_contents] are not set by the constructor. *)
Record ItWriter := MkItWriter {
  iw_reader : positive;
  iw_id : Z;
  iw_hblk : option positive;
  iw_tblk : option positive;
  iw_hoff : Z;
  iw_toff : Z;
  iw_mlen : option Z;
  iw_toSend : option addr;
  iw_contents : option addr;
}.

Definition set_blks (w : ItWriter) (hb tb : option positive) (ho to : Z) : ItWriter :=
  MkItWriter (iw_reader w) (iw_id w) hb tb ho to (iw_mlen w) (iw_toSend w) (iw_contents w).
Definition set_toff (w : ItWriter) (to : Z) : ItWriter :=
  set_blks w (iw_hblk w) (iw_tblk w) (iw_hoff w) to.
Definition set_hoff (w : ItWriter) (ho : Z) : ItWriter :=
  set_blks w (iw_hblk w) (iw_tblk w) ho (iw_toff w).
Definition set_mlen (w : ItWriter) (n : Z) : ItWriter :=
  MkItWriter (iw_reader w) (iw_id w) (iw_hblk w) (iw_tblk w) (iw_hoff w) (iw_toff w) (Some n)
    (iw_toSend w) (iw_contents w).
Definition set_message (w : ItWriter) (h c : addr) : ItWriter :=
  MkItWriter (iw_reader w) (iw_id w) (iw_hblk w) (iw_tblk w) (iw_hoff w) (iw_toff w) (iw_mlen w)
    (Some h) (Some c).

(** The fields of Thread that decide about signals, and how many it was sent. *)
Record Thread := MkThread {
  th_pthread_this : Z;
  th_recvRequiresSignal : bool;
  th_pendingNotifSignal : bool;
  th_signals : nat;
}.

Definition pthread_kill (t : Thread) : Thread :=
  MkThread (th_pthread_this t) (th_recvRequiresSignal t) (th_pendingNotifSignal t) (S (th_signals t)).

(** ItQueue, and the memory it and its writers are in. *)
Record ItState := MkItState {
  it_blocks : gmap positive ItBlock;
  it_headers : gmap addr ItHeader;
  it_writers : gmap positive ItWriter;
  it_threads : gmap positive Thread;
  it_head : option addr;
  it_tail : option addr;
  it_writerVect : list (option positive);
  it_writerList : list positive;
}.

Definition set_blocks (s : ItState) (m : gmap positive ItBlock) : ItState :=
  MkItState m (it_headers s) (it_writers s) (it_threads s) (it_head s) (it_tail s) (it_writerVect s) (it_writerList s).
Definition set_headers (s : ItState) (m : gmap addr ItHeader) : ItState :=
  MkItState (it_blocks s) m (it_writers s) (it_threads s) (it_head s) (it_tail s) (it_writerVect s) (it_writerList s).
Definition set_writer (s : ItState) (p : positive) (w : ItWriter) : ItState :=
  MkItState (it_blocks s) (it_headers s) (<[p := w]> (it_writers s)) (it_threads s) (it_head s) (it_tail s)
    (it_writerVect s) (it_writerList s).
Definition set_thread (s : ItState) (p : positive) (t : Thread) : ItState :=
  MkItState (it_blocks s) (it_headers s) (it_writers s) (<[p := t]> (it_threads s)) (it_head s) (it_tail s)
    (it_writerVect s) (it_writerList s).
Definition set_list (s : ItState) (h t : option addr) : ItState :=
  MkItState (it_blocks s) (it_headers s) (it_writers s) (it_threads s) h t (it_writerVect s) (it_writerList s).
Definition set_writers (s : ItState) (v : list (option positive)) (l : list positive) : ItState :=
  MkItState (it_blocks s) (it_headers s) (it_writers s) (it_threads s) (it_head s) (it_tail s) v l.

Definition it_writer (s : ItState) (p : positive) : res ItWriter := deref (it_writers s !! p).

(** The memory of a header: inside a block that has not been freed. *)
Definition in_block (s : ItState) (a : addr) : bool :=
  match it_blocks s !! a.1 with
  | Some b => bool_decide (0 ≤ a.2 ∧ a.2 + SIZEOF_ItHeader ≤ blk_size b)
  | None => false
  end.

Definition get_header (s : ItState) (p : option addr) : res ItHeader :=
  a ← deref p;
  if in_block s a then deref (it_headers s !! a) else Ub.

Definition put_header (s : ItState) (p : option addr) (h : ItHeader) : res ItState :=
  a ← deref p;
  if in_block s a then Ok (set_headers s (<[a := h]> (it_headers s))) else Ub.

Definition set_next_header (s : ItState) (p n : option addr) : res ItState :=
  h ← get_header s p;
  put_header s p (MkItHeader (ih_msgId h) (ih_writerId h) (ih_length h) n).

(** ** Writers *)

Definition new_ItWriter (reader : positive) : ItWriter :=
  MkItWriter reader (-1) None None 0 0 None None None.

Definition with_id (w : ItWriter) (i : Z) : ItWriter :=
  MkItWriter (iw_reader w) i (iw_hblk w) (iw_tblk w) (iw_hoff w) (iw_toff w) (iw_mlen w) (iw_toSend w) (iw_contents w).

(** The first free place of the vector, at [i] or after. *)
Fixpoint free_place (v : list (option positive)) (i : Z) : option Z :=
  match v with
  | [] => None
  | None :: _ => Some i
  | Some _ :: v => free_place v (i + 1)
  end.

Definition registerWriter (new : gset positive → positive) (s : ItState) (reader : positive)
    : res (positive * ItState) :=
  let p := new (dom (it_writers s)) in
  let w := new_ItWriter reader in
  '(i, v) ← match free_place (it_writerVect s) 0 with
             | Some i => v ← aset (it_writerVect s) i (Some p); Ok (i, v)
             | None => Ok (Z.of_nat (length (it_writerVect s)), it_writerVect s ++ [Some p])
             end;
  Ok (p, set_writers (set_writer s p (with_id w i)) v (it_writerList s ++ [p])).

(** ** Blocks *)

Definition allocateBlock (new : gset positive → positive) (s : ItState) (supporting : Z) : positive * ItState :=
  let size := if IT_BLOCK_SZ <? supporting then supporting else IT_BLOCK_SZ in
  let b := new (dom (it_blocks s)) in
  (b, set_blocks s (<[b := MkItBlock size None]> (it_blocks s))).

Definition freeBlock (s : ItState) (b : positive) : res ItState :=
  _ ← deref (it_blocks s !! b);
  Ok (set_blocks s (delete b (it_blocks s))).

(** [tblk->next = block; tblk = block; toff = 0], with the rest of the old block
    counted as part of the message. *)
Definition next_block (new : gset positive → positive) (s : ItState) (p : positive) (size avail : Z) : res ItState :=
  let '(b, s) := allocateBlock new s size in
  w ← it_writer s p;
  t ← deref (iw_tblk w);
  tb ← deref (it_blocks s !! t);
  let s := set_blocks s (<[t := MkItBlock (blk_size tb) (Some b)]> (it_blocks s)) in
  mlen ← deref (iw_mlen w);
  Ok (set_writer s p (set_mlen (set_blks w (iw_hblk w) (Some b) (iw_hoff w) 0) (i32 (mlen + avail)))).

(** Make room for [size] bytes at the tail. *)
Definition make_room (new : gset positive → positive) (s : ItState) (p : positive) (size : Z) : res ItState :=
  w ← it_writer s p;
  match iw_tblk w with
  | None =>
      let '(b, s) := allocateBlock new s size in
      Ok (set_writer s p (set_blks w (Some b) (Some b) 0 0))
  | Some t =>
      tb ← deref (it_blocks s !! t);
      let avail := i32 (blk_size tb - iw_toff w) in
      if avail <? size then next_block new s p size avail else Ok s
  end.

Definition allocBytes (new : gset positive → positive) (s : ItState) (p : positive) (size : Z)
    : res (addr * ItState) :=
  s ← make_room new s p size;
  w ← it_writer s p;
  t ← deref (iw_tblk w);
  _ ← deref (it_blocks s !! t);
  mlen ← deref (iw_mlen w);
  let ret := (t, iw_toff w) in
  Ok (ret, set_writer s p (set_mlen (set_toff w (i32 (iw_toff w + size))) (i32 (mlen + size)))).

(** ** Messages

    [itqOpen] does not write [next]; [send] does, before anything reads it. *)

Definition itqOpen (new : gset positive → positive) (s : ItState) (p : positive) (ID SZ : Z) : res (addr * ItState) :=
  w ← it_writer s p;
  let s := set_writer s p (set_mlen w 0) in
  '(header, s) ← allocBytes new s p SIZEOF_ItHeader;
  s ← put_header s (Some header) (MkItHeader (u16 ID) (u16 (iw_id w)) 0 None);
  '(msg, s) ← allocBytes new s p (i32 SZ);
  w ← it_writer s p;
  Ok (msg, set_writer s p (set_message w header msg)).

(** Put [toSend] on the end of the list. *)
Definition append_header (s : ItState) (toSend : option addr) : res ItState :=
  s ← match it_head s with
      | None => Ok (set_list s toSend toSend)
      | Some _ =>
          s ← set_next_header s (it_tail s) toSend;
          Ok (set_list s (it_head s) toSend)
      end;
  set_next_header s (it_tail s) None.

Definition notify (s : ItState) (reader : positive) (sendSignal : bool) : res ItState :=
  t ← deref (it_threads s !! reader);
  if sendSignal || th_recvRequiresSignal t then
    if negb (th_pthread_this t =? 0) then Ok (set_thread s reader (pthread_kill t))
    else Ok (set_thread s reader (MkThread (th_pthread_this t) (th_recvRequiresSignal t) true (th_signals t)))
  else Ok s.

Definition send (s : ItState) (p : positive) (sendSignal : bool) : res ItState :=
  w ← it_writer s p;
  mlen ← deref (iw_mlen w);
  h ← get_header s (iw_toSend w);
  s ← put_header s (iw_toSend w) (MkItHeader (ih_msgId h) (ih_writerId h) (u32 mlen) (ih_next h));
  s ← append_header s (iw_toSend w);
  notify s (iw_reader w) sendSignal.

(** Thread::initId, as far as signals go. *)
Definition initId (s : ItState) (t : positive) (self : Z) : res ItState :=
  th ← deref (it_threads s !! t);
  let th := MkThread self (th_recvRequiresSignal th) (th_pendingNotifSignal th) (th_signals th) in
  Ok (set_thread s t (if th_pendingNotifSignal th then pthread_kill th else th)).

(** [None]: the list is empty and the thread goes on waiting. *)
Definition wait (s : ItState) : res (option (addr * ItState)) :=
  match it_head s with
  | None => Ok None
  | Some header =>
      h ← get_header s (Some header);
      s ← set_next_header (set_list s (ih_next h) (it_tail s)) (Some header) None;
      Ok (Some (header, s))
  end.

Definition poll (s : ItState) : bool := bool_decide (it_head s ≠ None).

(** [int remaining = hblk->size - hoff] *)
Definition left_in_block (s : ItState) (w : ItWriter) : res Z :=
  b ← deref (iw_hblk w);
  blk ← deref (it_blocks s !! b);
  Ok (i32 (blk_size blk - iw_hoff w)).

(** Pop the head block. *)
Definition pop_block (s : ItState) (p : positive) : res ItState :=
  w ← it_writer s p;
  pop ← deref (iw_hblk w);
  blk ← deref (it_blocks s !! pop);
  let w := match blk_next blk with
           | None => set_blks w None None 0 0
           | Some b => set_blks w (Some b) (iw_tblk w) 0 (iw_toff w)
           end in
  freeBlock (set_writer s p w) pop.

(** What is in the new head block, if there is one. *)
Definition next_remaining (s : ItState) (p : positive) : res Z :=
  w ← it_writer s p;
  match iw_hblk w with
  | None => Ok 0
  | Some b => blk ← deref (it_blocks s !! b); Ok (i32 (blk_size blk))
  end.

Fixpoint release_loop (fuel : nat) (s : ItState) (p : positive) (length remaining : Z) : res (Z * ItState) :=
  match fuel with
  | O => Spin
  | S fuel =>
      if (0 <? length) && (remaining <=? length) then
        s ← pop_block s p;
        let length := i32 (length - remaining) in
        remaining ← next_remaining s p;
        release_loop fuel s p length remaining
      else Ok (length, s)
  end.

(** [writerVect[header->writerId]] *)
Definition header_writer (s : ItState) (header : option addr) : res positive :=
  h ← get_header s header;
  o ← aget (it_writerVect s) (ih_writerId h);
  deref o.

Definition release (fuel : nat) (s : ItState) (header : option addr) : res ItState :=
  p ← header_writer s header;
  h ← get_header s header;
  w ← it_writer s p;
  remaining ← left_in_block s w;
  '(length, s) ← release_loop fuel s p (i32 (ih_length h)) remaining;
  w ← it_writer s p;
  Ok (set_writer s p (set_hoff w (i32 (iw_hoff w + length)))).

(** One of the two steps over what does not fit in the block. *)
Definition skip_to (s : ItState) (hblk : positive) (offset n : Z) : res (positive * Z) :=
  blk ← deref (it_blocks s !! hblk);
  if blk_size blk <? u64 (offset + n) then
    b ← deref (blk_next blk);
    Ok (b, 0)
  else Ok (hblk, offset).

Definition itqRead (s : ItState) (header : option addr) (SZ : Z) : res addr :=
  p ← header_writer s header;
  w ← it_writer s p;
  hblk ← deref (iw_hblk w);
  '(hblk, offset) ← skip_to s hblk (iw_hoff w) SIZEOF_ItHeader;
  let offset := i32 (offset + SIZEOF_ItHeader) in
  '(hblk, offset) ← skip_to s hblk offset SZ;
  Ok (hblk, offset).
