(* ===== verification/ItQueueLayout.v ===== *)
(** * Where the messages of a writer are

    The blocks of a writer, from its head block on, are a list [bs] of blocks and
    their sizes, and a place in them is a rest of that list and an offset into its
    first block.  [place] puts a piece at a place the way [allocBytes] does, moving
    to the next block when the piece does not fit; [walk] does so for the pieces of
    a message.  The reader finds the same pointers again, because [itqRead] skips in
    the same way, and [release] moves the head over exactly the bytes [walk]
    covered. *)

From S2P Require Import Prelude ItQueue.

Abbreviation blks := (list (positive * Z)).

Definition place (bs : blks) (off n : Z) : option (addr * Z * (blks * Z)) :=
  match bs with
  | [] => None
  | (b, s) :: r =>
      if s - off <? n then
        match r with
        | [] => None
        | (b', s') :: _ => if n <=? s' then Some ((b', 0), s - off + n, (r, n)) else None
        end
      else Some ((b, off), n, (bs, off + n))
  end.

(** Pointers, bytes covered, and the place after. *)
Fixpoint walk (bs : blks) (off : Z) (sizes : list Z) : option (list addr * Z * (blks * Z)) :=
  match sizes with
  | [] => Some ([], 0, (bs, off))
  | n :: ns =>
      '(a, d, (bs, off)) ← place bs off n;
      '(l, d', c) ← walk bs off ns;
      Some (a :: l, d + d', c)
  end.

(** A message: its pieces (header, structure, fields), where they are, and its
    length with padding. *)
Record amsg := AMsg {
  am_writer : positive;
  am_id : Z;
  am_sizes : list Z;
  am_ptrs : list addr;
  am_len : Z;
}.

Fixpoint laid (bs : blks) (off : Z) (ms : list amsg) (bs' : blks) (off' : Z) : Prop :=
  match ms with
  | [] => bs = bs' ∧ off = off'
  | m :: ms => ∃ bs1 off1, walk bs off (am_sizes m) = Some (am_ptrs m, am_len m, (bs1, off1)) ∧
      laid bs1 off1 ms bs' off'
  end.

(** The blocks in memory. *)
Fixpoint chain (m : gmap positive ItBlock) (bs : blks) : Prop :=
  match bs with
  | [] => True
  | (b, s) :: r => m !! b = Some (MkItBlock s (fst <$> head r)) ∧ chain m r
  end.

(** Limits that keep a length within an int: a piece up to 1 MiB, up to 1000 pieces
    in a message. *)
Definition PIECE_MAX : Z := 2 ^ 20.
Definition PIECES_MAX : nat := 1000.

Definition piece_ok (n : Z) : Prop := 0 ≤ n ≤ PIECE_MAX.
Definition block_ok (x : positive * Z) : Prop := IT_BLOCK_SZ ≤ x.2 ≤ PIECE_MAX.

Definition tail_of (bs : blks) : blks := match last bs with Some x => [x] | None => [] end.

(** A writer with its blocks and the messages in them. *)
Record wrep (m : gmap positive ItBlock) (w : ItWriter) (bs : blks) (ms : list amsg) : Prop := {
  wr_chain : chain m bs;
  wr_hblk : iw_hblk w = fst <$> head bs;
  wr_tblk : iw_tblk w = fst <$> last bs;
  wr_nodup : NoDup bs.*1;
  wr_sizes : Forall block_ok bs;
  wr_hoff : 0 ≤ iw_hoff w ∧ match bs with [] => iw_hoff w = 0 | (_, s) :: _ => iw_hoff w < s end;
  wr_toff : 0 ≤ iw_toff w ∧ match last bs with None => True | Some (_, s) => iw_toff w ≤ s end;
  wr_laid : laid bs (iw_hoff w) ms (tail_of bs) (iw_toff w);
}.

(** ** Places *)

Fixpoint total (bs : blks) : Z := match bs with [] => 0 | (_, s) :: r => s + total r end.

(** A piece: where it is and how long. *)
Abbreviation region := (addr * Z)%type.

Section Places.
Implicit Types (bs r : blks) (off n d : Z) (a : addr) (m : amsg) (ms : list amsg).

Lemma place_spec bs off n a d bs' off' : place bs off n = Some (a, d, (bs', off')) →
  ∃ dropped b s r, bs = dropped ++ bs' ∧ bs' = (b, s) :: r ∧ a = (b, off' - n) ∧ off' ≤ s ∧
    d = total dropped - off + off' ∧
    (dropped = [] ∧ off' = off + n ∨ off' = n ∧ ∃ x, dropped = [x] ∧ x.2 - off < n).
Proof.
  unfold place. destruct bs as [|[b s] r]; [done|]. destruct (Z.ltb_spec (s - off) n).
  - destruct r as [|[b' s'] r]; [done|]. destruct (Z.leb_spec n s'); [|done]. intros [= <- <- <- <-].
    exists [(b, s)], b', s', r. cbn. split_and!; try done; try lia; [f_equal; lia|]. right. split; [done|].
    exists (b, s). cbn. split; [done|lia].
  - intros [= <- <- <- <-]. exists [], b, s, r. cbn. split_and!; try done; try lia; [f_equal; lia|]. left. done.
Qed.

Lemma place_app bs off n a d bs' off' x :
  place bs off n = Some (a, d, (bs', off')) → place (bs ++ x) off n = Some (a, d, (bs' ++ x, off')).
Proof.
  unfold place. destruct bs as [|[b s] r]; [done|]. cbn [app]. destruct (s - off <? n).
  - destruct r as [|[b' s'] r]; [done|]. cbn [app]. destruct (n <=? s'); [|done]. by intros [= <- <- <- <-].
  - by intros [= <- <- <- <-].
Qed.

(** A place at the end of a block is as good as the start of the next one. *)
Lemma place_norm b s r n : 0 < n → Forall (λ x, n ≤ x.2) (take 1 r) →
  place ((b, s) :: r) s n = place r 0 n.
Proof.
  intros Hn F. unfold place. rewrite Z.sub_diag, (proj2 (Z.ltb_lt 0 n)) by done.
  destruct r as [|[b' s'] r]; [done|]. cbn in F. apply Forall_cons in F as [F _]. cbn in F.
  rewrite (proj2 (Z.leb_le _ _)) by done. rewrite Z.sub_0_r, (proj2 (Z.ltb_ge s' n)) by done. by rewrite Z.add_0_l.
Qed.

Lemma walk_app_sizes ns1 : ∀ bs off ns2 l1 d1 bs1 off1 l2 d2 c,
  walk bs off ns1 = Some (l1, d1, (bs1, off1)) → walk bs1 off1 ns2 = Some (l2, d2, c) →
  walk bs off (ns1 ++ ns2) = Some (l1 ++ l2, d1 + d2, c).
Proof.
  induction ns1 as [|n ns1 IH]; intros bs off ns2 l1 d1 bs1 off1 l2 d2 c H1 H2; cbn in *.
  - by injection H1 as <- <- <- <-.
  - destruct (place bs off n) as [[[a d] [bs' off']]|]; [|done]. cbn in *.
    destruct (walk bs' off' ns1) as [[[l d'] c']|] eqn:E; [|done]. cbn in *. injection H1 as <- <- ->.
    rewrite (IH _ _ _ _ _ _ _ _ _ _ E H2). cbn. by rewrite Z.add_assoc.
Qed.

Lemma walk_app ns x : ∀ bs off l d bs' off',
  walk bs off ns = Some (l, d, (bs', off')) → walk (bs ++ x) off ns = Some (l, d, (bs' ++ x, off')).
Proof.
  induction ns as [|n ns IH]; intros bs off l d bs' off' H; cbn in *; [by injection H as <- <- <- <-|].
  destruct (place bs off n) as [[[a d1] [bs1 off1]]|] eqn:E; [|done]. cbn in *. rewrite (place_app _ _ _ _ _ _ _ x E). cbn.
  destruct (walk bs1 off1 ns) as [[[l' d'] [bs2 off2]]|] eqn:E'; [|done]. cbn in *. injection H as <- <- <- <-.
  by rewrite (IH _ _ _ _ _ _ E').
Qed.

Lemma total_app bs r : total (bs ++ r) = total bs + total r.
Proof. induction bs as [|[b s] bs IH]; cbn; [done|]. lia. Qed.

(** The distance a walk covers, and that its end is inside its block. *)
Lemma walk_dist ns : ∀ bs off l d bs' off', walk bs off ns = Some (l, d, (bs', off')) →
  ∃ dropped, bs = dropped ++ bs' ∧ d = total dropped - off + off' ∧
    (ns ≠ [] → ∃ b s r, bs' = (b, s) :: r ∧ off' ≤ s).
Proof.
  induction ns as [|n ns IH]; intros bs off l d bs' off' H; cbn in *.
  { injection H as <- <- <- <-. exists []. cbn. split_and!; [done|lia|done]. }
  destruct (place bs off n) as [[[a d1] [bs1 off1]]|] eqn:E; [|done]. cbn in *.
  destruct (walk bs1 off1 ns) as [[[l' d'] [bs2 off2]]|] eqn:E'; [|done]. cbn in *. injection H as <- <- <- <-.
  apply place_spec in E as (dr & b & s & r & -> & Hb & _ & Hs & -> & _).
  destruct (IH _ _ _ _ _ _ E') as (dr' & Hd & -> & He). exists (dr ++ dr'). rewrite <- app_assoc, total_app, <- Hd.
  split_and!; [done|lia|]. intros _. destruct ns as [|n' ns]; [|by apply He].
  cbn in E'. injection E' as <- _ <- <-. by exists b, s, r.
Qed.

(** ** Messages one after the other *)

Lemma laid_app ms x : ∀ bs off bs' off', laid bs off ms bs' off' → laid (bs ++ x) off ms (bs' ++ x) off'.
Proof.
  induction ms as [|m ms IH]; intros bs off bs' off' H; cbn in *; [by destruct H as [-> ->]|].
  destruct H as (bs1 & off1 & E & H). exists (bs1 ++ x), off1. split; [by apply walk_app|by apply IH].
Qed.

Lemma laid_app_ms ms1 : ∀ bs off ms2 bs' off',
  laid bs off (ms1 ++ ms2) bs' off' ↔ ∃ bs1 off1, laid bs off ms1 bs1 off1 ∧ laid bs1 off1 ms2 bs' off'.
Proof.
  induction ms1 as [|m ms1 IH]; intros bs off ms2 bs' off'; cbn [app laid].
  - split; [intros H; by exists bs, off|by intros (? & ? & [-> ->] & H)].
  - split.
    + intros (bs1 & off1 & E & (bs2 & off2 & H1 & H2)%IH). exists bs2, off2. split; [|done]. by exists bs1, off1.
    + intros (bs2 & off2 & (bs1 & off1 & E & H1) & H2). exists bs1, off1. split; [done|]. apply IH. by exists bs2, off2.
Qed.

(** A message grown by a piece of [n] bytes at [a]. *)
Definition am_grow (m : amsg) (n : Z) (a : addr) (d : Z) : amsg :=
  AMsg (am_writer m) (am_id m) (am_sizes m ++ [n]) (am_ptrs m ++ [a]) (am_len m + d).

Lemma laid_grow bs off ms m bs1 off1 n a d bs2 off2 :
  laid bs off (ms ++ [m]) bs1 off1 → place bs1 off1 n = Some (a, d, (bs2, off2)) →
  laid bs off (ms ++ [am_grow m n a d]) bs2 off2.
Proof.
  intros (bs3 & off3 & H & (bs4 & off4 & E & [-> ->]))%laid_app_ms Ep. apply laid_app_ms. exists bs3, off3. split; [done|].
  exists bs2, off2. split; [|done]. cbn. eapply walk_app_sizes; [exact E|]. cbn. rewrite Ep. cbn. do 4 f_equal. lia.
Qed.

(** Before a writer has blocks, its messages have no pieces. *)
Lemma laid_nil ms : ∀ off bs' off' bs, laid [] off ms bs' off' → bs' = [] ∧ off' = off ∧ laid bs off ms bs off.
Proof.
  induction ms as [|m ms IH]; intros off bs' off' bs H; cbn in *; [by destruct H as [<- <-]|].
  destruct H as (bs1 & off1 & E & H). destruct (am_sizes m) as [|n ns]; [|done]. cbn in E. injection E as El Ed <- <-.
  destruct (IH _ _ _ bs H) as (-> & -> & H'). split_and!; try done. exists bs, off. cbn. by rewrite <- El, <- Ed.
Qed.

(** ** Where pieces are *)

Definition regions (m : amsg) : list region := zip (am_ptrs m) (am_sizes m).

(** [bs'], [off'] is at or after [bs], [off]. *)
Definition further bs off bs' off' : Prop := ∃ dropped, bs = dropped ++ bs' ∧ (dropped = [] → off ≤ off').

Definition after bs off (x : region) : Prop :=
  x.1.1 ∈ bs.*1 ∧ ∀ b s r, bs = (b, s) :: r → x.1.1 = b → off ≤ x.1.2.
Definition before bs off (x : region) : Prop :=
  ∀ b s r, bs = (b, s) :: r → x.1.1 ∈ bs.*1 → x.1.1 = b ∧ x.1.2 + x.2 ≤ off.
Definition inside bs (x : region) : Prop := ∃ s, (x.1.1, s) ∈ bs ∧ 0 ≤ x.1.2 ∧ x.1.2 + x.2 ≤ s.

Definition apart (x y : region) : Prop :=
  x.1.1 ≠ y.1.1 ∨ x.1.2 + x.2 ≤ y.1.2 ∨ y.1.2 + y.2 ≤ x.1.2.

Fixpoint all_apart (l : list region) : Prop :=
  match l with [] => True | x :: l => Forall (apart x) l ∧ all_apart l end.

Lemma all_apart_app l1 l2 : all_apart l1 → all_apart l2 → (∀ x y, x ∈ l1 → y ∈ l2 → apart x y) → all_apart (l1 ++ l2).
Proof.
  induction l1 as [|x l1 IH]; intros H1 H2 H; [done|]. destruct H1 as [Hx H1]. split.
  - apply Forall_app. split; [done|]. apply Forall_forall. intros y Hy. apply H; [by left|done].
  - apply IH; [done|done|]. intros y z Hy Hz. apply H; [by right|done].
Qed.

Lemma apart_sym x y : apart x y → apart y x.
Proof. unfold apart. intros [|[|]]; auto. Qed.

Lemma before_after bs off x y : before bs off x → after bs off y → apart x y.
Proof.
  intros B [A1 A2]. destruct (decide (x.1.1 = y.1.1)) as [E|]; [|by left]. right. left.
  destruct bs as [|[b s] r]; [by apply elem_of_nil in A1|]. destruct (B b s r eq_refl) as [Eb Hb]; [by rewrite E|].
  specialize (A2 b s r eq_refl). rewrite <- E in A2. specialize (A2 Eb). lia.
Qed.

Lemma further_refl bs off : further bs off bs off.
Proof. by exists []. Qed.

Lemma further_trans bs off bs1 off1 bs2 off2 :
  further bs off bs1 off1 → further bs1 off1 bs2 off2 → further bs off bs2 off2.
Proof.
  intros (d1 & -> & H1) (d2 & -> & H2). exists (d1 ++ d2). split; [by rewrite app_assoc|].
  intros [-> ->]%app_nil. specialize (H1 eq_refl). specialize (H2 eq_refl). lia.
Qed.

Lemma after_further bs off bs' off' x :
  NoDup bs.*1 → further bs off bs' off' → after bs' off' x → after bs off x.
Proof.
  intros N (d & -> & Hd) [A1 A2]. split; [rewrite fmap_app; set_solver|]. intros b s r E Eb.
  destruct d as [|[b0 s0] d]; cbn in E.
  - specialize (Hd eq_refl). specialize (A2 _ _ _ E Eb). lia.
  - injection E as -> -> _. exfalso. cbn in N. apply NoDup_cons in N as [N _]. apply N. rewrite <- Eb, fmap_app. set_solver.
Qed.

Lemma before_further bs off bs' off' x :
  NoDup bs.*1 → further bs off bs' off' → before bs off x → before bs' off' x.
Proof.
  intros N (d & -> & Hd) B b s r -> Hx. destruct d as [|[b0 s0] d].
  - specialize (Hd eq_refl). destruct (B b s r eq_refl Hx) as [-> ?]. split; [done|lia].
  - exfalso. destruct (B b0 s0 (d ++ (b, s) :: r) eq_refl) as [E _]; [cbn; rewrite fmap_app; set_solver|].
    cbn in N. apply NoDup_cons in N as [N _]. apply N. rewrite <- E, fmap_app. set_solver.
Qed.

Lemma inside_app bs r x : inside r x → inside (bs ++ r) x.
Proof. intros (s & H & Hs). exists s. split; [|done]. set_solver. Qed.

(** What [place] hands out. *)
Lemma place_region bs off n a d bs' off' : NoDup bs.*1 → 0 ≤ off → 0 ≤ n → place bs off n = Some (a, d, (bs', off')) →
  further bs off bs' off' ∧ 0 ≤ off' ∧ after bs off (a, n) ∧ before bs' off' (a, n) ∧ inside bs (a, n).
Proof.
  intros N Ho Hn (dr & b & s & r & -> & -> & -> & Hs & -> & Hc)%place_spec.
  assert (further (dr ++ (b, s) :: r) off ((b, s) :: r) off') as F.
  { exists dr. split; [done|]. intros ->. destruct Hc as [[_ ->]|(_ & x & [=] & _)]. lia. }
  assert (0 ≤ off' - n) by (destruct Hc as [[_ ->]|[-> _]]; lia). split_and!; [done|lia| | |].
  - split; [cbn; rewrite fmap_app; set_solver|]. intros b1 s1 r1 E Eb. cbn in *.
    destruct Hc as [[-> ->]|(-> & x & -> & _)]; [lia|]. cbn in E. injection E as -> _. subst b1.
    cbn in N. apply NoDup_cons in N as [N _]. set_solver.
  - intros b1 s1 r1 [= <- <- <-] _. cbn. split; [done|lia].
  - apply inside_app. exists s. cbn. split; [set_solver|lia].
Qed.

Lemma NoDup_suffix (dr bs : blks) : NoDup (dr ++ bs).*1 → NoDup bs.*1.
Proof. rewrite fmap_app. by intros (_ & _ & ?)%NoDup_app. Qed.

Lemma further_nodup bs off bs' off' : further bs off bs' off' → NoDup bs.*1 → NoDup bs'.*1.
Proof. intros (d & -> & _). apply NoDup_suffix. Qed.

Lemma further_inside bs off bs' off' x : further bs off bs' off' → inside bs' x → inside bs x.
Proof. intros (d & -> & _). apply inside_app. Qed.

(** The pieces of a list of pieces: after its start, before its end, inside, and
    apart from each other. *)
Definition pieces_ok bs off bs' off' (l : list region) : Prop :=
  Forall (after bs off) l ∧ Forall (before bs' off') l ∧ Forall (inside bs) l ∧ all_apart l.

Lemma pieces_app bs off bs1 off1 bs2 off2 l1 l2 : NoDup bs.*1 →
  further bs off bs1 off1 → further bs1 off1 bs2 off2 →
  pieces_ok bs off bs1 off1 l1 → pieces_ok bs1 off1 bs2 off2 l2 → pieces_ok bs off bs2 off2 (l1 ++ l2).
Proof.
  intros N F1 F2 (A1 & B1 & I1 & P1) (A2 & B2 & I2 & P2). pose proof (further_nodup _ _ _ _ F1 N) as N1.
  split_and!.
  - apply Forall_app. split; [done|]. eapply Forall_impl; [exact A2|]. intros x. by apply after_further.
  - apply Forall_app. split; [|done]. eapply Forall_impl; [exact B1|]. intros x. by apply before_further.
  - apply Forall_app. split; [done|]. eapply Forall_impl; [exact I2|]. intros x. by apply (further_inside _ off _ off1).
  - apply all_apart_app; [done|done|]. intros x y Hx Hy. apply (before_after bs1 off1).
    + by eapply (proj1 (Forall_forall _ _)) in B1.
    + by eapply (proj1 (Forall_forall _ _)) in A2.
Qed.

Lemma walk_pieces ns : ∀ bs off l d bs' off', NoDup bs.*1 → 0 ≤ off → Forall (λ n, 0 ≤ n) ns →
  walk bs off ns = Some (l, d, (bs', off')) →
  further bs off bs' off' ∧ 0 ≤ off' ∧ length l = length ns ∧ pieces_ok bs off bs' off' (zip l ns).
Proof.
  induction ns as [|n ns IH]; intros bs off l d bs' off' N Ho F H; cbn in *.
  { injection H as <- <- <- <-. split_and!; [apply further_refl|done|done|]. repeat split; constructor. }
  apply Forall_cons in F as [Fn F].
  destruct (place bs off n) as [[[a d1] [bs1 off1]]|] eqn:E; [|done]. cbn in *.
  destruct (walk bs1 off1 ns) as [[[l' d'] [bs2 off2]]|] eqn:E'; [|done]. cbn in *. injection H as <- <- <- <-.
  destruct (place_region _ _ _ _ _ _ _ N Ho Fn E) as (F1 & Ho1 & A & B & I).
  destruct (IH _ _ _ _ _ _ (further_nodup _ _ _ _ F1 N) Ho1 F E') as (F2 & Ho2 & El & P).
  split_and!; [by eapply further_trans|done|cbn; lia|]. cbn [zip zip_with].
  change ((a, n) :: zip l' ns) with ([(a, n)] ++ zip l' ns). eapply pieces_app; [done|done|done| |done].
  unfold pieces_ok. split_and!; try (by apply Forall_singleton). split; constructor.
Qed.

Lemma laid_pieces ms : ∀ bs off bs' off', NoDup bs.*1 → 0 ≤ off → Forall (λ m, Forall (λ n, 0 ≤ n) (am_sizes m)) ms →
  laid bs off ms bs' off' →
  further bs off bs' off' ∧ 0 ≤ off' ∧ Forall (λ m, length (am_ptrs m) = length (am_sizes m)) ms ∧
  pieces_ok bs off bs' off' (concat (regions <$> ms)).
Proof.
  induction ms as [|m ms IH]; intros bs off bs' off' N Ho F H; cbn in *.
  { destruct H as [<- <-]. split_and!; [apply further_refl|done|done|]. repeat split; constructor. }
  apply Forall_cons in F as [Fm F]. destruct H as (bs1 & off1 & E & H).
  destruct (walk_pieces _ _ _ _ _ _ _ N Ho Fm E) as (F1 & Ho1 & El & P).
  destruct (IH _ _ _ _ (further_nodup _ _ _ _ F1 N) Ho1 F H) as (F2 & Ho2 & El2 & P2).
  split_and!; [by eapply further_trans|done|by constructor|by eapply pieces_app].
Qed.
End Places.
