(* ===== verification/ItQueueOps.v ===== *)
(** * What the operations of a queue do to the blocks of a writer

    [wrep m w bs ms] says that the messages [ms] of writer [w] lie one after the
    other in its blocks [bs].  [allocBytes] adds a piece to the last of them,
    [itqRead] finds the pieces of the first, [release] drops it. *)

From S2P Require Import Prelude ItQueue ItQueueLayout.

Lemma Forall_end {A} (P : A → Prop) l x : Forall P (l ++ [x]) → P x.
Proof. intros [_ H]%Forall_app. by inversion H. Qed.

(** ** Chains of blocks *)

Section Chains.
Implicit Types (m : gmap positive ItBlock) (bs : blks).

Lemma chain_agree m m' bs : (∀ b, b ∈ bs.*1 → m' !! b = m !! b) → chain m bs → chain m' bs.
Proof.
  induction bs as [|[b s] bs IH]; intros A H; [done|]. destruct H as [E H]. cbn in A. split.
  - rewrite A; [done|by left].
  - apply IH; [|done]. intros x Hx. apply A. by right.
Qed.

Lemma chain_lookup m bs b s : chain m bs → (b, s) ∈ bs → ∃ nx, m !! b = Some (MkItBlock s nx).
Proof.
  induction bs as [|[b' s'] bs IH]; intros H Hb; [by apply elem_of_nil in Hb|].
  destruct H as [E H]. apply elem_of_cons in Hb as [[= -> ->]|Hb]; [by eexists|by apply IH].
Qed.

Lemma chain_last m bs b s : chain m (bs ++ [(b, s)]) → m !! b = Some (MkItBlock s None).
Proof. induction bs as [|[b' s'] bs IH]; cbn; intros [E H]; [done|by apply IH]. Qed.

Lemma chain_dom m bs b : chain m bs → b ∈ bs.*1 → b ∈ dom m.
Proof.
  intros H ([b' s] & -> & Hb)%list_elem_of_fmap. destruct (chain_lookup _ _ _ _ H Hb) as [nx E].
  apply elem_of_dom. by eexists.
Qed.

(** A new block after the last one. *)
Lemma chain_snoc m bs t s b sz :
  chain m (bs ++ [(t, s)]) → NoDup (bs ++ [(t, s)]).*1 → b ∉ dom m →
  chain (<[t := MkItBlock s (Some b)]> (<[b := MkItBlock sz None]> m)) ((bs ++ [(t, s)]) ++ [(b, sz)]).
Proof.
  intros H N Hb. rewrite <- app_assoc. cbn [app].
  assert (∀ x, x ∈ (bs ++ [(t, s)]).*1 → x ≠ b) as Hne by (intros x Hx ->; by apply Hb, (chain_dom m _ b H)).
  rewrite fmap_app in N. apply NoDup_app in N as (_ & N & _).
  induction bs as [|[b' s'] bs IH]; cbn [app chain].
  - split; [apply lookup_insert_eq|]. split; [|done]. rewrite lookup_insert_ne, lookup_insert_eq; [done|].
    apply Hne. set_solver.
  - cbn in H. destruct H as [E H]. split.
    + rewrite lookup_insert_ne by (intros ->; apply (N b'); [by left|cbn; set_solver]).
      rewrite lookup_insert_ne by (intros X; subst b'; by apply (Hne b); [left|]). rewrite E. by destruct bs.
    + apply IH; [done| |].
      * intros x Hx. apply N. by right.
      * intros x Hx. apply Hne. by right.
Qed.
End Chains.

(** ** Allocating *)

Lemma set_writer_writer s p w w' : set_writer (set_writer s p w) p w' = set_writer s p w'.
Proof. unfold set_writer. cbn. by rewrite insert_insert_eq. Qed.

Lemma set_blocks_same s : set_blocks s (it_blocks s) = s.
Proof. by destruct s. Qed.

Lemma it_writer_set s p w : it_writer (set_writer s p w) p = Ok w.
Proof. unfold it_writer, set_writer. cbn. by rewrite lookup_insert_eq. Qed.

Lemma i32_small' x : - 2 ^ 31 ≤ x < 2 ^ 31 → i32 x = x.
Proof. intros H. apply wraps_small; [done|]. exact H. Qed.

(** The fields that allocation does not touch. *)
Definition same_writer (w w' : ItWriter) : Prop :=
  iw_reader w' = iw_reader w ∧ iw_id w' = iw_id w ∧ iw_toSend w' = iw_toSend w ∧ iw_contents w' = iw_contents w.

(** How memory and the list of blocks grow. *)
Record grown (m : gmap positive ItBlock) (bs : blks) (m' : gmap positive ItBlock) (bs' : blks) : Prop := {
  gr_other : ∀ b, b ∈ dom m → b ∉ bs.*1 → m' !! b = m !! b;
  gr_size : ∀ b blk, m !! b = Some blk → ∃ nx, m' !! b = Some (MkItBlock (blk_size blk) nx);
  gr_new : ∀ b, b ∈ bs'.*1 → b ∈ bs.*1 ∨ b ∉ dom m;
  gr_dom : dom m' = dom m ∪ list_to_set bs'.*1;
  gr_app : ∃ x, bs' = bs ++ x;
}.

Lemma grown_refl m bs : chain m bs → grown m bs m bs.
Proof.
  intros H. split; try done.
  - intros b [s nx] E. by exists nx.
  - intros b Hb. by left.
  - apply set_eq. intros b. rewrite elem_of_union, elem_of_list_to_set. split; [by left|]. intros [|]; [done|by eapply chain_dom].
  - exists []. by rewrite app_nil_r.
Qed.

Lemma grown_trans m1 bs1 m2 bs2 m3 bs3 : grown m1 bs1 m2 bs2 → grown m2 bs2 m3 bs3 → grown m1 bs1 m3 bs3.
Proof.
  intros [O1 S1 N1 D1 [x1 A1]] [O2 S2 N2 D2 [x2 A2]]. split.
  - intros b Hb Hn. rewrite O2, O1; [done|done|done| |].
    + rewrite D1. set_solver.
    + intros Hb2. by destruct (N1 b Hb2).
  - intros b blk E. destruct (S1 b blk E) as [nx E2]. destruct (S2 _ _ E2) as [nx' E3]. by exists nx'.
  - intros b Hb. destruct (N2 b Hb) as [H|H]; [by apply N1|]. right. intros H'. apply H. rewrite D1. set_solver.
  - rewrite D2, D1. subst. rewrite !fmap_app. apply set_eq. intros b.
    rewrite !elem_of_union, !elem_of_list_to_set, !elem_of_app. naive_solver.
  - exists (x1 ++ x2). by rewrite A2, A1, app_assoc.
Qed.

Section Allocate.
Context (new : gset positive → positive) (new_fresh : ∀ D, new D ∉ D).

Lemma new_size n : piece_ok n → block_ok (new ∅, if IT_BLOCK_SZ <? n then n else IT_BLOCK_SZ).
Proof. unfold piece_ok, block_ok, PIECE_MAX, IT_BLOCK_SZ. cbn. intros H. destruct (Z.ltb_spec 4098 n); lia. Qed.

(** The state after [make_room]: the piece fits at the tail, and [pad] bytes of an
    earlier block are part of the message. *)
Record room (s : ItState) (w : ItWriter) (bs : blks) (ms : list amsg) (len n : Z)
    (m' : gmap positive ItBlock) (w' : ItWriter) (bs' : blks) (pad : Z) : Prop := {
  ro_grown : grown (it_blocks s) bs m' bs';
  ro_same : same_writer w w';
  ro_mlen : iw_mlen w' = Some (len + pad);
  ro_pad : 0 ≤ pad ≤ PIECE_MAX;
  ro_chain : chain m' bs';
  ro_hblk : iw_hblk w' = fst <$> head bs';
  ro_tblk : iw_tblk w' = fst <$> last bs';
  ro_nodup : NoDup bs'.*1;
  ro_sizes : Forall block_ok bs';
  ro_hoff : iw_hoff w' = iw_hoff w;
  ro_place : ∃ t sz r off, last bs' = Some (t, sz) ∧ 0 ≤ iw_toff w' ∧ iw_toff w' + n ≤ sz ∧
    laid bs' (iw_hoff w') ms r off ∧
    place r off n = Some ((t, iw_toff w'), pad + n, ([(t, sz)], iw_toff w' + n));
}.

Lemma grown_first m b blk : b ∉ dom m → grown m [] (<[b := blk]> m) [(b, blk_size blk)].
Proof.
  intros Hf. split.
  - intros x Hx _. apply lookup_insert_ne. by intros ->.
  - intros x e Ex. exists (blk_next e). rewrite lookup_insert_ne; [by destruct e|]. intros ->. apply Hf, elem_of_dom. by eexists.
  - intros x Hx. right. cbn in Hx. by apply list_elem_of_singleton in Hx as ->.
  - rewrite dom_insert_L. cbn. set_solver.
  - by eexists.
Qed.

Lemma grown_snoc m bs t sz b sz' : chain m (bs ++ [(t, sz)]) → b ∉ dom m →
  grown m (bs ++ [(t, sz)]) (<[t := MkItBlock sz (Some b)]> (<[b := MkItBlock sz' None]> m)) ((bs ++ [(t, sz)]) ++ [(b, sz')]).
Proof.
  intros C Hf. assert (t ∈ (bs ++ [(t, sz)]).*1) as Ht by (rewrite fmap_app; set_solver). split.
  - intros x Hx Hn. rewrite !lookup_insert_ne; [done| |]; by intros ->.
  - intros x e Ex. destruct (decide (x = t)) as [->|Hxt].
    + exists (Some b). rewrite lookup_insert_eq. rewrite (chain_last _ _ _ _ C) in Ex. by injection Ex as <-.
    + exists (blk_next e). rewrite !lookup_insert_ne; [by destruct e| |done]. intros ->. apply Hf, elem_of_dom. by eexists.
  - intros x. rewrite fmap_app, elem_of_app. intros [|Hx]; [by left|]. right. cbn in Hx. by apply list_elem_of_singleton in Hx as ->.
  - rewrite !dom_insert_L. apply set_eq. intros x.
    rewrite !elem_of_union, !elem_of_singleton, elem_of_list_to_set, (fmap_app _ (bs ++ _)), elem_of_app. cbn [fmap list_fmap fst].
    rewrite list_elem_of_singleton. split; [intros [->|[->|]]; auto|]. intros [|[Hx|]]; auto. right. right. by eapply chain_dom.
  - by eexists.
Qed.

Lemma first_room s p w ms n len : it_writers s !! p = Some w → wrep (it_blocks s) w [] ms → iw_mlen w = Some len → piece_ok n →
  ∃ m' w' bs', make_room new s p n = Ok (set_writer (set_blocks s m') p w') ∧ room s w [] ms len n m' w' bs' 0.
Proof.
  intros Ew [_ _ T _ _ [_ Ho] _ L] Em Hn. unfold make_room, it_writer. rewrite Ew. cbn [deref]. rewrite bind_Ok, T. cbn [last fmap option_fmap option_map].
  pose proof (new_size n Hn) as Hsz. unfold allocateBlock. set (sz := if IT_BLOCK_SZ <? n then n else IT_BLOCK_SZ) in *.
  set (b := new (dom (it_blocks s))). pose proof (new_fresh (dom (it_blocks s))) as Hf. fold b in Hf.
  destruct (laid_nil _ _ _ _ [(b, sz)] L) as (_ & _ & L'). assert (n ≤ sz) by (subst sz; destruct (Z.ltb_spec IT_BLOCK_SZ n); lia).
  eexists (<[b := MkItBlock sz None]> (it_blocks s)), _, [(b, sz)]. split; [reflexivity|].
  split; cbn [iw_hblk iw_tblk iw_toff iw_mlen iw_hoff set_blks]; try done.
  - by apply (grown_first _ b (MkItBlock sz None)).
  - by rewrite Z.add_0_r.
  - split; [apply lookup_insert_eq|done].
  - apply NoDup_singleton.
  - by apply Forall_singleton.
  - exists b, sz, [(b, sz)], 0. unfold piece_ok in Hn. split_and!; try done.
    { rewrite Ho in L'. exact L'. }
    unfold place. rewrite Z.sub_0_r, (proj2 (Z.ltb_ge _ _)) by lia. by rewrite !Z.add_0_l.
Qed.

Lemma next_room s p w bs t sz ms n len : it_writers s !! p = Some w → wrep (it_blocks s) w (bs ++ [(t, sz)]) ms →
  iw_mlen w = Some len → piece_ok n → 0 ≤ len → len + PIECE_MAX < 2 ^ 31 → sz - iw_toff w < n →
  ∃ m' w' bs', next_block new s p n (sz - iw_toff w) = Ok (set_writer (set_blocks s m') p w') ∧
    room s w (bs ++ [(t, sz)]) ms len n m' w' bs' (sz - iw_toff w).
Proof.
  intros Ew [C H T N F _ [To To'] L] Em Hn Hl0 Hl Hlt. unfold tail_of in L. rewrite last_snoc in *. cbn [fmap option_fmap option_map fst] in *.
  pose proof (Forall_end _ _ _ F) as Hb.
  unfold block_ok in Hb. cbn in Hb. pose proof (new_size n Hn) as Hsz. unfold piece_ok, PIECE_MAX in *.
  unfold next_block, allocateBlock. set (sz' := if IT_BLOCK_SZ <? n then n else IT_BLOCK_SZ) in *.
  set (b := new (dom (it_blocks s))). pose proof (new_fresh (dom (it_blocks s))) as Hf. fold b in Hf.
  unfold it_writer. cbn [it_writers set_blocks it_blocks]. rewrite Ew. cbn [deref]. rewrite bind_Ok, T. cbn [deref].
  rewrite bind_Ok. assert (t ≠ b) as Htb by (intros ->; apply Hf, (chain_dom _ _ b C); rewrite fmap_app; set_solver).
  rewrite lookup_insert_ne by done. rewrite (chain_last _ _ _ _ C). cbn [deref]. rewrite bind_Ok, Em. cbn [deref].
  rewrite bind_Ok. cbn [blk_size]. rewrite i32_small' by lia.
  assert (n ≤ sz') by (subst sz'; destruct (Z.ltb_spec IT_BLOCK_SZ n); lia).
  eexists (<[t := MkItBlock sz (Some b)]> (<[b := MkItBlock sz' None]> (it_blocks s))), _, ((bs ++ [(t, sz)]) ++ [(b, sz')]).
  split; [reflexivity|]. split; cbn [iw_hblk iw_tblk iw_toff iw_mlen iw_hoff set_blks set_mlen]; rewrite ?last_snoc; try done.
  - by apply grown_snoc.
  - unfold PIECE_MAX. lia.
  - by apply chain_snoc.
  - rewrite H. by destruct bs.
  - rewrite fmap_app. apply NoDup_app. split_and!; [done| |apply NoDup_singleton]. intros x Hx Hx'.
    cbn in Hx'. apply list_elem_of_singleton in Hx' as ->. apply Hf. by eapply chain_dom.
  - apply Forall_app. split; [done|by apply Forall_singleton].
  - exists b, sz', ([(t, sz)] ++ [(b, sz')]), (iw_toff w). split_and!; try done; try lia; [by apply laid_app|].
    cbn [app place]. rewrite (proj2 (Z.ltb_lt _ _)) by lia. rewrite (proj2 (Z.leb_le _ _)) by done. by rewrite Z.add_0_l.
Qed.

Lemma same_room s p w bs t sz ms n len : it_writers s !! p = Some w → wrep (it_blocks s) w (bs ++ [(t, sz)]) ms →
  iw_mlen w = Some len → n ≤ sz - iw_toff w → room s w (bs ++ [(t, sz)]) ms len n (it_blocks s) w (bs ++ [(t, sz)]) 0.
Proof.
  intros Ew [C H T N F _ [To _] L] Em Hge. unfold tail_of in L. rewrite last_snoc in *. split; rewrite ?last_snoc; try done.
  - by apply grown_refl.
  - by rewrite Em, Z.add_0_r.
  - exists t, sz, [(t, sz)], (iw_toff w). split_and!; try done; try lia.
    cbn [place]. rewrite (proj2 (Z.ltb_ge _ _)) by lia. by rewrite Z.add_0_l.
Qed.

(** The three ways to find room. *)
Lemma make_room_ok s p w bs ms n len :
  it_writers s !! p = Some w → wrep (it_blocks s) w bs ms → iw_mlen w = Some len →
  piece_ok n → 0 ≤ len → len + PIECE_MAX < 2 ^ 31 →
  ∃ m' w' bs' pad, make_room new s p n = Ok (set_writer (set_blocks s m') p w') ∧ room s w bs ms len n m' w' bs' pad.
Proof.
  intros Ew W Em Hn Hl0 Hl. destruct (decide (bs = [])) as [->|Hne].
  { destruct (first_room s p w ms n len Ew W Em Hn) as (m' & w' & bs' & E & R). by exists m', w', bs', 0. }
  destruct (exists_last Hne) as (bs0 & [t sz] & ->). pose proof W as [C _ T _ F _ [To To'] _].
  rewrite last_snoc in *. cbn [fmap option_fmap option_map fst] in T.
  pose proof (Forall_end _ _ _ F) as Hb.
  unfold block_ok, PIECE_MAX, IT_BLOCK_SZ in Hb. cbn in Hb, To'. unfold make_room, it_writer. rewrite Ew. cbn [deref].
  rewrite bind_Ok, T, (chain_last _ _ _ _ C). cbn [deref]. rewrite bind_Ok. cbn [blk_size]. rewrite i32_small' by lia.
  destruct (Z.ltb_spec (sz - iw_toff w) n) as [Hlt|Hge].
  - destruct (next_room s p w bs0 t sz ms n len Ew W Em Hn Hl0 Hl Hlt) as (m' & w' & bs' & E & R).
    by exists m', w', bs', (sz - iw_toff w).
  - exists (it_blocks s), w, (bs0 ++ [(t, sz)]), 0. split; [|by apply (same_room s p)].
    rewrite set_blocks_same. unfold set_writer. rewrite (insert_id _ _ _ Ew). by destruct s.
Qed.

(** [allocBytes] adds a piece to the last message. *)
Lemma allocBytes_ok s p w bs ms o n :
  it_writers s !! p = Some w → wrep (it_blocks s) w bs (ms ++ [o]) → iw_mlen w = Some (am_len o) →
  piece_ok n → 0 ≤ am_len o → am_len o + 2 * PIECE_MAX < 2 ^ 31 →
  ∃ a d m' w' bs', allocBytes new s p n = Ok (a, set_writer (set_blocks s m') p w') ∧
    wrep m' w' bs' (ms ++ [am_grow o n a d]) ∧ iw_mlen w' = Some (am_len o + d) ∧ n ≤ d ≤ 2 * PIECE_MAX ∧
    same_writer w w' ∧ grown (it_blocks s) bs m' bs'.
Proof.
  intros Ew W Em Hn Hl0 Hl. assert (am_len o + PIECE_MAX < 2 ^ 31) as Hl1 by (unfold PIECE_MAX in *; lia).
  destruct (make_room_ok s p w bs (ms ++ [o]) n _ Ew W Em Hn Hl0 Hl1) as (m' & w1 & bs' & pad & E & R).
  destruct R as [G S M P C Hh Ht N F Ho (t & sz & r & off & El & To & Tn & L & Pl)].
  unfold allocBytes. rewrite E, bind_Ok, it_writer_set, bind_Ok, Ht, El. cbn [fmap option_fmap option_map fst deref].
  rewrite bind_Ok. cbn [it_blocks set_blocks set_writer].
  assert ((t, sz) ∈ bs') as Hin by (by apply last_Some_elem_of).
  destruct (chain_lookup _ _ _ _ C Hin) as [nx Et]. rewrite Et. cbn [deref]. rewrite bind_Ok, M. cbn [deref]. rewrite bind_Ok.
  pose proof (proj1 (Forall_forall _ _) F _ Hin) as Hb. unfold block_ok, IT_BLOCK_SZ, piece_ok, PIECE_MAX in *. cbn in Hb.
  rewrite !i32_small' by lia.
  eexists (t, iw_toff w1), (pad + n), m', _, bs'. rewrite set_writer_writer. split; [reflexivity|].
  split_and!; cbn; try done; try lia; [|f_equal; lia].
  destruct W as [_ _ _ _ _ [Ho1 Ho2] _ _].
  split; cbn; try done; rewrite ?El; cbn.
  - rewrite Ho. split; [done|]. destruct (gr_app _ _ _ _ G) as [x ->]. destruct bs as [|[b0 s0] bs0]; cbn; [|done].
    rewrite Ho2. destruct x as [|[b1 s1] x]; [done|]. cbn in F. apply Forall_cons in F as [F _]. unfold block_ok in F. cbn in F. lia.
  - split; [lia|done].
  - unfold tail_of. rewrite El. by eapply laid_grow.
Qed.
End Allocate.

(** ** Reading *)

Lemma skip_place s bs off n b o d bs' off' : chain (it_blocks s) bs → Forall block_ok bs → 0 ≤ off ≤ PIECE_MAX → piece_ok n →
  place bs off n = Some ((b, o), d, (bs', off')) →
  ∃ b0 s0 r, bs = (b0, s0) :: r ∧ skip_to s b0 off n = Ok (b, o) ∧ off' = o + n ∧ 0 ≤ o ∧ off' ≤ PIECE_MAX ∧
    chain (it_blocks s) bs' ∧ Forall block_ok bs' ∧ ∃ s1 r1, bs' = (b, s1) :: r1.
Proof.
  intros C F Ho Hn H. unfold place in H. destruct bs as [|[b0 s0] r]; [done|]. exists b0, s0, r. split; [done|].
  destruct C as [E C]. unfold skip_to. rewrite E. cbn [deref]. rewrite bind_Ok. cbn [blk_size blk_next].
  pose proof F as [Hb F']%Forall_cons. unfold block_ok, IT_BLOCK_SZ, piece_ok, PIECE_MAX in *. cbn in Hb.
  rewrite wrapu_small by lia. destruct (Z.ltb_spec (s0 - off) n).
  - rewrite (proj2 (Z.ltb_lt _ _)) by lia. destruct r as [|[b' s'] r]; [done|].
    destruct (Z.leb_spec n s'); [|done]. injection H as -> <- <- <- <-. cbn [fmap option_fmap option_map head fst deref].
    rewrite bind_Ok. pose proof F' as [Hb' _]%Forall_cons. cbn in Hb'. split_and!; try done; try lia. by eexists _, _.
  - rewrite (proj2 (Z.ltb_ge _ _)) by lia. injection H as -> <- <- <- <-. split_and!; try done; try lia. by eexists _, _.
Qed.

(** The reader finds the structure where the writer put it. *)
Lemma itqRead_ok s p w bs m ms header SZ rest :
  header_writer s header = Ok p → it_writers s !! p = Some w → wrep (it_blocks s) w bs (m :: ms) →
  am_sizes m = SIZEOF_ItHeader :: SZ :: rest → piece_ok SZ →
  ∃ a, itqRead s header SZ = Ok a ∧ am_ptrs m !! 1%nat = Some a.
Proof.
  intros Eh Ew [C H _ _ F [Ho Ho'] _ L] Es Hz. destruct L as (bs2 & off2 & E & _). rewrite Es in E. cbn [walk] in E.
  destruct (place bs (iw_hoff w) SIZEOF_ItHeader) as [[[[b o] d] [bs1 off1]]|] eqn:E1; [|done]. cbn in E.
  destruct (place bs1 off1 SZ) as [[[[b' o'] d'] [bs1' off1']]|] eqn:E2; [|done]. cbn in E.
  destruct (walk bs1' off1' rest) as [[[l' e'] c']|]; [|done]. cbn in E. injection E as El _ _.
  assert (piece_ok SIZEOF_ItHeader) as H16 by (unfold piece_ok, SIZEOF_ItHeader, PIECE_MAX; lia).
  assert (0 ≤ iw_hoff w ≤ PIECE_MAX) as Ho2.
  { destruct bs as [|[b0 s0] bs]; [done|]. apply Forall_cons in F as [F _]. unfold block_ok in F. cbn in F. lia. }
  destruct (skip_place s _ _ _ _ _ _ _ _ C F Ho2 H16 E1) as (b0 & s0 & r & -> & K1 & -> & O1 & O1' & C1 & F1 & s1 & r1 & ->).
  assert (0 ≤ o + SIZEOF_ItHeader ≤ PIECE_MAX) as Ho3 by (unfold SIZEOF_ItHeader in *; lia).
  destruct (skip_place s _ _ _ _ _ _ _ _ C1 F1 Ho3 Hz E2) as (b2 & s2 & r2 & [= <- <- <-] & K2 & _).
  unfold itqRead. rewrite Eh, bind_Ok. unfold it_writer. rewrite Ew. cbn [deref]. rewrite bind_Ok, H.
  cbn [fmap option_fmap option_map head fst deref]. rewrite bind_Ok, K1, bind_Ok. unfold PIECE_MAX, SIZEOF_ItHeader in *.
  rewrite i32_small' by lia. rewrite K2, bind_Ok. exists (b', o'). by rewrite <- El.
Qed.

(** ** Releasing *)

(** The blocks of a writer, apart from what is in them. *)
Record brep (m : gmap positive ItBlock) (w : ItWriter) (bs : blks) : Prop := {
  br_chain : chain m bs;
  br_hblk : iw_hblk w = fst <$> head bs;
  br_tblk : iw_tblk w = fst <$> last bs;
  br_nodup : NoDup bs.*1;
  br_sizes : Forall block_ok bs;
}.

Lemma brep_tail m w b sz r : brep m w ((b, sz) :: r) →
  brep (delete b m) (match fst <$> head r with None => set_blks w None None 0 0 | Some b' => set_blks w (Some b') (iw_tblk w) 0 (iw_toff w) end) r.
Proof.
  intros [[E C] H T N F]. cbn in N. apply NoDup_cons in N as [Nb N]. apply Forall_cons in F as [_ F].
  assert (chain (delete b m) r) as C'.
  { apply (chain_agree m); [|done]. intros x Hx. apply lookup_delete_ne. by intros ->. }
  destruct r as [|[b' s'] r]; by split.
Qed.

Lemma pop_block_ok s p w b sz r : it_writers s !! p = Some w → brep (it_blocks s) w ((b, sz) :: r) →
  ∃ w', pop_block s p = Ok (set_writer (set_blocks s (delete b (it_blocks s))) p w') ∧ brep (delete b (it_blocks s)) w' r ∧
    iw_hoff w' = 0 ∧ same_writer w w' ∧ iw_mlen w' = iw_mlen w ∧ (r ≠ [] → iw_toff w' = iw_toff w) ∧ (r = [] → iw_toff w' = 0).
Proof.
  intros Ew B. pose proof (brep_tail _ _ _ _ _ B) as B'. destruct B as [[E C] H T N F].
  unfold pop_block, it_writer. rewrite Ew. cbn [deref]. rewrite bind_Ok, H. cbn [fmap option_fmap option_map head fst deref].
  rewrite bind_Ok, E. cbn [deref]. rewrite bind_Ok. cbn [blk_next]. unfold freeBlock. cbn [it_blocks set_writer]. rewrite E.
  cbn [deref]. rewrite bind_Ok. eexists. split; [by destruct r as [|[b' s'] r]|]. split; [exact B'|].
  destruct r as [|[b' s'] r]; by repeat split.
Qed.

(** A place at the end of a block moves to the next one. *)
Definition norm (bs : blks) (off : Z) : blks * Z :=
  match bs with (_, s) :: r => if s <=? off then (r, 0) else (bs, off) | [] => ([], off) end.

Lemma next_remaining_ok s p w bs : it_writers s !! p = Some w → brep (it_blocks s) w bs →
  next_remaining s p = Ok (match bs with [] => 0 | (_, sz) :: _ => sz end).
Proof.
  intros Ew [C H _ _ F]. unfold next_remaining, it_writer. rewrite Ew. cbn [deref]. rewrite bind_Ok, H.
  destruct bs as [|[b sz] r]; [done|]. cbn [fmap option_fmap option_map head fst]. destruct C as [E _]. rewrite E.
  cbn [deref]. rewrite bind_Ok. cbn [blk_size]. apply Forall_cons in F as [F _]. unfold block_ok, IT_BLOCK_SZ, PIECE_MAX in F. cbn in F.
  by rewrite i32_small' by lia.
Qed.

(** The blocks [gone] are freed, and nothing else. *)
Definition freed (m m' : gmap positive ItBlock) (gone : blks) : Prop :=
  ∀ b, m' !! b = if decide (b ∈ gone.*1) then None else m !! b.

Record released (s : ItState) (w : ItWriter) (bs bs1 : blks) (off1 : Z) (L' : Z) (m' : gmap positive ItBlock) (w' : ItWriter) : Prop := {
  rl_rep : brep m' w' (norm bs1 off1).1;
  rl_hoff : iw_hoff w' + L' = (norm bs1 off1).2;
  rl_same : same_writer w w';
  rl_mlen : iw_mlen w' = iw_mlen w;
  rl_toff : (norm bs1 off1).1 ≠ [] → iw_toff w' = iw_toff w;
  rl_toff0 : (norm bs1 off1).1 = [] → iw_toff w' = 0;
  rl_freed : ∃ gone, bs = gone ++ (norm bs1 off1).1 ∧ freed (it_blocks s) m' gone;
}.

Lemma freed_nil m : freed m m [].
Proof. intros b. by rewrite decide_False by apply not_elem_of_nil. Qed.

Lemma freed_cons m m' b sz gone : freed (delete b m) m' gone → freed m m' ((b, sz) :: gone).
Proof.
  intros H x. rewrite H. cbn. destruct (decide (x = b)) as [->|Hne].
  - rewrite lookup_delete_eq, (decide_True _ _ (list_elem_of_here b gone.*1)). by destruct (decide _).
  - rewrite lookup_delete_ne by done. destruct (decide (x ∈ gone.*1)) as [Hx|Hx].
    + by rewrite (decide_True _ _ (list_elem_of_further x b gone.*1 Hx)).
    + rewrite decide_False; [done|]. by intros [|]%elem_of_cons.
Qed.

Definition head_size (bs : blks) : Z := match bs with [] => 0 | (_, sz) :: _ => sz end.

Lemma total_size dr x r : Forall block_ok (dr ++ x :: r) → 0 ≤ total dr ∧ (dr ≠ [] → head_size (dr ++ x :: r) ≤ total dr).
Proof.
  induction dr as [|[b sz] dr IH]; intros F; [done|]. cbn in F |- *. apply Forall_cons in F as [F1 F].
  specialize (IH F). unfold block_ok, IT_BLOCK_SZ in F1. cbn in F1. lia.
Qed.

Lemma it_writer_ok s p w : it_writers s !! p = Some w → it_writer s p = Ok w.
Proof. intros E. unfold it_writer. by rewrite E. Qed.

Lemma set_both_twice s m1 p w1 m2 w2 :
  set_writer (set_blocks (set_writer (set_blocks s m1) p w1) m2) p w2 = set_writer (set_blocks s m2) p w2.
Proof. unfold set_writer, set_blocks. cbn. by rewrite insert_insert_eq. Qed.

Lemma same_writer_trans w1 w2 w3 : same_writer w1 w2 → same_writer w2 w3 → same_writer w1 w3.
Proof. intros (A1 & A2 & A3 & A4) (B1 & B2 & B3 & B4). repeat split; congruence. Qed.

Lemma release_loop_here s p w b sz r off1 fuel : it_writers s !! p = Some w → brep (it_blocks s) w ((b, sz) :: r) →
  0 ≤ iw_hoff w < sz → iw_hoff w ≤ off1 ≤ sz → (1 < fuel)%nat →
  ∃ m' w' L', release_loop fuel s p (off1 - iw_hoff w) (sz - iw_hoff w) = Ok (L', set_writer (set_blocks s m') p w') ∧
    released s w ((b, sz) :: r) ((b, sz) :: r) off1 L' m' w'.
Proof.
  intros Ew B Ho Ho1 Hf. destruct fuel as [|[|fuel]]; [lia|lia|]. cbn [release_loop].
  destruct (Z.leb_spec sz off1) as [Hle|Hlt].
  - rewrite (proj2 (Z.ltb_lt _ _)), (proj2 (Z.leb_le _ _)) by lia. cbn [andb].
    destruct (pop_block_ok s p w b sz r Ew B) as (w' & E & B' & H0 & S & Hm & Ht & Ht'). rewrite E, bind_Ok.
    erewrite next_remaining_ok; [|apply lookup_insert_eq|exact B']. rewrite bind_Ok.
    replace (off1 - iw_hoff w - (sz - iw_hoff w)) with 0 by lia. change (i32 0) with 0. cbn [Z.ltb Z.compare andb].
    eexists (delete b (it_blocks s)), w', 0. split; [reflexivity|]. split; unfold norm; try (rewrite (proj2 (Z.leb_le _ _)) by done); cbn; try done.
    + lia.
    + exists [(b, sz)]. split; [done|]. apply freed_cons, freed_nil.
  - assert ((0 <? off1 - iw_hoff w) && (sz - iw_hoff w <=? off1 - iw_hoff w) = false) as ->.
    { apply andb_false_iff. right. apply Z.leb_gt. lia. }
    exists (it_blocks s), w, (off1 - iw_hoff w). rewrite set_blocks_same. split; [unfold set_writer; rewrite (insert_id _ _ _ Ew); by destruct s|].
    split; unfold norm; try (rewrite (proj2 (Z.leb_gt _ _)) by done); cbn; try done; [lia|].
    exists []. split; [done|]. apply freed_nil.
Qed.

Lemma release_loop_ok dropped : ∀ s p w b1 s1 r1 off1 fuel,
  it_writers s !! p = Some w → brep (it_blocks s) w (dropped ++ (b1, s1) :: r1) →
  0 ≤ iw_hoff w < head_size (dropped ++ (b1, s1) :: r1) → 0 ≤ off1 ≤ s1 →
  (dropped = [] → iw_hoff w ≤ off1) → total dropped + off1 < 2 ^ 31 → (length dropped + 1 < fuel)%nat →
  ∃ m' w' L', release_loop fuel s p (total dropped - iw_hoff w + off1) (head_size (dropped ++ (b1, s1) :: r1) - iw_hoff w)
      = Ok (L', set_writer (set_blocks s m') p w') ∧
    released s w (dropped ++ (b1, s1) :: r1) ((b1, s1) :: r1) off1 L' m' w'.
Proof.
  induction dropped as [|[b sz] dropped IH]; intros s p w b1 s1 r1 off1 fuel Ew B Ho Ho1 Hd Hl Hf.
  { cbn [app head_size total] in *. specialize (Hd eq_refl). replace (0 - iw_hoff w + off1) with (off1 - iw_hoff w) by lia.
    apply release_loop_here; try done. cbn in Hf. lia. }
  clear Hd. destruct fuel as [|fuel]; [cbn in Hf; lia|]. cbn [app head_size total length] in *. cbn [release_loop].
  pose proof (total_size dropped (b1, s1) r1) as Hd0. pose proof (br_sizes _ _ _ B) as [_ F0]%Forall_cons. specialize (Hd0 F0).
  rewrite (proj2 (Z.ltb_lt _ _)), (proj2 (Z.leb_le _ _)) by lia. cbn [andb].
  destruct (pop_block_ok s p w b sz _ Ew B) as (w1 & E & B' & H0 & S & Hm & Ht & _). rewrite E, bind_Ok.
  erewrite next_remaining_ok; [|apply lookup_insert_eq|exact B']. rewrite bind_Ok. rewrite i32_small' by lia.
  set (s1' := set_writer (set_blocks s (delete b (it_blocks s))) p w1).
  pose proof (br_sizes _ _ _ B') as F.
  assert (0 < head_size (dropped ++ (b1, s1) :: r1)) as Hpos.
  { destruct dropped as [|[b2 s2] d]; cbn in F |- *; apply Forall_cons in F as [F _]; unfold block_ok, IT_BLOCK_SZ in F; cbn in F; lia. }
  destruct (IH s1' p w1 b1 s1 r1 off1 fuel) as (m' & w' & L' & E' & R); try done; try lia; [apply lookup_insert_eq|].
  rewrite H0, !Z.sub_0_r in E'.
  replace (sz + total dropped - iw_hoff w + off1 - (sz - iw_hoff w)) with (total dropped + off1) by lia.
  fold (head_size (dropped ++ (b1, s1) :: r1)). rewrite E'. subst s1'. rewrite set_both_twice. exists m', w', L'. split; [done|].
  destruct R as [R1 R2 R3 Rm R4 R5 (gone & Eg & R6)]. split; try done.
  - by eapply same_writer_trans.
  - by rewrite Rm.
  - intros Hn. rewrite R4 by done. apply Ht. by destruct dropped.
  - exists ((b, sz) :: gone). split; [by rewrite Eg|]. by apply freed_cons.
Qed.

Lemma norm_range b s r off : Forall block_ok ((b, s) :: r) → 0 ≤ off ≤ s →
  0 ≤ (norm ((b, s) :: r) off).2 ≤ PIECE_MAX ∧
  match (norm ((b, s) :: r) off).1 with [] => (norm ((b, s) :: r) off).2 = 0 | (_, s') :: _ => (norm ((b, s) :: r) off).2 < s' end.
Proof.
  intros [F1 F]%Forall_cons Ho. unfold block_ok, IT_BLOCK_SZ, PIECE_MAX in *. cbn in F1. unfold norm.
  destruct (Z.leb_spec s off); cbn; [|lia]. split; [lia|]. destruct r as [|[b' s'] r]; [done|].
  apply Forall_cons in F as [F _]. cbn in F. lia.
Qed.

(** The messages after the released one, from the new head. *)
Lemma laid_norm bs off ms bs' off' : Forall (λ m, ∃ ns, am_sizes m = SIZEOF_ItHeader :: ns) ms → Forall block_ok bs →
  (∃ b s r, bs = (b, s) :: r ∧ off ≤ s) → laid bs off ms bs' off' → bs' = tail_of bs →
  laid (norm bs off).1 (norm bs off).2 ms (tail_of (norm bs off).1) (if (norm bs off).1 is [] then 0 else off').
Proof.
  intros F B (b & s & r & -> & Hs) L Et. unfold norm. destruct (Z.leb_spec s off) as [Hle|Hlt]; cbn [fst snd].
  2: { by rewrite <- Et. }
  assert (off = s) as -> by lia. destruct ms as [|m ms].
  - cbn in L. destruct L as [L <-]. rewrite <- L in Et. unfold tail_of in Et. destruct r as [|x r]; [done|].
    destruct (last ((b, s) :: x :: r)); done.
  - apply Forall_cons in F as [[ns En] F]. destruct L as (bs1 & off1 & E & L). rewrite En in E. cbn [walk] in E.
    rewrite place_norm in E; [|done|].
    2: { apply Forall_cons in B as [_ B]. destruct r as [|x r]; [constructor|]. apply Forall_cons in B as [B _]. apply Forall_singleton.
         unfold block_ok, IT_BLOCK_SZ, SIZEOF_ItHeader in *. lia. }
    destruct r as [|x r]; [done|]. exists bs1, off1. rewrite En. split; [done|]. rewrite Et in L. exact L.
Qed.

Lemma last_suffix {A} (l1 l2 : list A) : l2 ≠ [] → last (l1 ++ l2) = last l2.
Proof. intros H. destruct (exists_last H) as (l & x & ->). by rewrite app_assoc, !last_snoc. Qed.

(** The messages of a writer, each with its header first. *)
Definition msgs_ok (ms : list amsg) : Prop :=
  Forall (λ m, (∃ ns, am_sizes m = SIZEOF_ItHeader :: ns) ∧ Forall (λ n, 0 ≤ n) (am_sizes m)) ms.

(** [release] drops the first message and frees the blocks it leaves. *)
Lemma release_ok s p w bs m ms header h fuel :
  header_writer s header = Ok p → get_header s header = Ok h → ih_length h = am_len m → am_len m < 2 ^ 31 - PIECE_MAX →
  it_writers s !! p = Some w → wrep (it_blocks s) w bs (m :: ms) → msgs_ok (m :: ms) → (length bs + 1 < fuel)%nat →
  ∃ m' w' bs' gone, release fuel s header = Ok (set_writer (set_blocks s m') p w') ∧ wrep m' w' bs' ms ∧
    bs = gone ++ bs' ∧ freed (it_blocks s) m' gone ∧ same_writer w w' ∧ iw_mlen w' = iw_mlen w.
Proof.
  intros Eh Eg El Hm Ew W [[[ns Es] Fs] Fm]%Forall_cons Hf. destruct W as [C H T N F [Ho Ho'] [To To'] L].
  destruct L as (bs1 & off1 & E & L). pose proof (walk_dist _ _ _ _ _ _ _ E) as (dr & Eb & Ed & He).
  destruct He as (b1 & s1 & r1 & -> & Hs1); [by rewrite Es|].
  destruct (walk_pieces _ _ _ _ _ _ _ N Ho Fs E) as ((dr' & Eb' & Hd) & Ho1 & _ & _).
  assert (dr' = dr) as -> by (apply (app_inv_tail ((b1, s1) :: r1)); by rewrite <- Eb', <- Eb).
  assert (iw_hoff w < head_size bs) as Hh by (rewrite Eb in *; by destruct dr as [|[? ?] ?]).
  assert (head_size bs ≤ PIECE_MAX) as Hs.
  { rewrite Eb in F |- *. destruct dr as [|[? ?] ?]; cbn in *; apply Forall_cons in F as [F _]; apply F. }
  subst bs. destruct (release_loop_ok dr s p w b1 s1 r1 off1 fuel) as (m' & w' & L' & Er & R);
    [done|by split|done|done|done|lia|rewrite length_app in Hf; cbn in Hf; lia|].
  destruct R as [[C' H' T' N' F'] R2 R3 Rm R4 R5 (gone & Egone & R6)].
  unfold release. rewrite Eh, bind_Ok, Eg, bind_Ok, (it_writer_ok _ _ _ Ew), bind_Ok.
  assert (left_in_block s w = Ok (head_size (dr ++ (b1, s1) :: r1) - iw_hoff w)) as ->.
  { unfold left_in_block. rewrite H. unfold PIECE_MAX in *.
    destruct dr as [|[b0 s0] dr]; cbn [app head fmap option_fmap option_map fst deref head_size] in *; rewrite bind_Ok;
      destruct C as [-> _]; cbn [deref]; rewrite bind_Ok; cbn [blk_size]; by rewrite i32_small' by lia. }
  destruct (total_size dr _ _ F) as [Ht0 Ht1].
  assert (0 ≤ total dr - iw_hoff w + off1) as Hd0.
  { destruct dr as [|x dr]; [specialize (Hd eq_refl); cbn; lia|]. specialize (Ht1 ltac:(done)). lia. }
  rewrite bind_Ok, El, Ed. rewrite i32_small' by (unfold PIECE_MAX in *; lia). rewrite Er, bind_Ok, it_writer_set, bind_Ok, R2, set_writer_writer.
  destruct (norm_range b1 s1 r1 off1) as [Hn1 Hn2]; [by apply Forall_app in F as [_ F]|done|].
  apply (laid_norm _ _ _ _ (iw_toff w)) in L;
    [|by eapply Forall_impl; [exact Fm|]; intros ? [? _]|by apply Forall_app in F as [_ F]|by eexists _, _, _|unfold tail_of; by rewrite last_suffix].
  destruct (norm ((b1, s1) :: r1) off1) as [bs' off']. cbn [fst snd] in *.
  exists m'. eexists. exists bs', gone. split; [reflexivity|]. split_and!; try done.
  split; cbn; try done; rewrite ?i32_small' by (unfold PIECE_MAX in *; lia).
  - split; [lia|]. by destruct bs' as [|[? ?] ?].
  - destruct (decide (bs' = [])) as [->|En]; [by rewrite (R5 eq_refl)|].
    rewrite (R4 En). rewrite Egone, last_suffix in To' by done. done.
  - destruct (decide (bs' = [])) as [->|En]; [by rewrite (R5 eq_refl)|]. rewrite (R4 En). by destruct bs'.
Qed.
