(* ===== verification/ItQueueSpec.v ===== *)
(** * A queue between threads against its specification

    The specification has the messages that were sent, in order, the one the reader
    has taken, and the one each writer is making.  A message keeps the pointers the
    writer was given.  [it_inv] relates the queue to that: the messages of each
    writer lie in its blocks, the blocks of different writers are different, every
    block belongs to a writer, and the list of headers is the list of messages
    sent. *)

From S2P Require Import Prelude ItQueue ItQueueLayout ItQueueOps.

(** ** The specification *)

Record aqueue := AQueue {
  q_sent : list amsg;
  q_cur : option amsg;
  q_open : gmap positive amsg;
}.

Definition opt {A} (o : option A) : list A := match o with Some x => [x] | None => [] end.

(** The messages that have been put in the queue and not given back. *)
Definition q_held (a : aqueue) : list amsg := opt (q_cur a) ++ q_sent a.

(** Those of a writer, with the one it is making. *)
Definition pending (a : aqueue) (p : positive) : list amsg :=
  filter (λ m, am_writer m = p) (q_held a) ++ opt (q_open a !! p).

Definition am_hdr (m : amsg) : option addr := am_ptrs m !! 0%nat.

Record amsg_ok (m : amsg) : Prop := {
  mo_sizes : ∃ SZ rest, am_sizes m = SIZEOF_ItHeader :: SZ :: rest;
  mo_pieces : Forall piece_ok (am_sizes m);
  mo_count : (length (am_sizes m) ≤ PIECES_MAX)%nat;
  mo_len : 0 ≤ am_len m ≤ Z.of_nat (length (am_sizes m)) * (2 * PIECE_MAX);
  mo_id : 0 ≤ am_id m < 2 ^ 16;
}.

(** ** The invariant *)

(** Blocks. *)
Record lay_inv (s : ItState) (a : aqueue) (ch : gmap positive blks) : Prop := {
  li_rep : ∀ p w, it_writers s !! p = Some w → ∃ bs, ch !! p = Some bs ∧ wrep (it_blocks s) w bs (pending a p);
  li_dom : dom ch = dom (it_writers s);
  li_disj : ∀ p q bsp bsq, ch !! p = Some bsp → ch !! q = Some bsq → p ≠ q → ∀ b, b ∈ bsp.*1 → b ∉ bsq.*1;
  li_cover : ∀ b, b ∈ dom (it_blocks s) → ∃ p bs, ch !! p = Some bs ∧ b ∈ bs.*1;
}.

(** Messages. *)
Record msg_inv (s : ItState) (a : aqueue) : Prop := {
  mi_held : ∀ m, m ∈ q_held a → amsg_ok m ∧ am_writer m ∈ dom (it_writers s);
  mi_open : ∀ p m, q_open a !! p = Some m → amsg_ok m ∧ am_writer m = p ∧ p ∈ dom (it_writers s);
}.

(** The header of a message: [len] and [next] are set when it is sent. *)
Definition hdr_is (s : ItState) (m : amsg) (h : ItHeader) : Prop :=
  ∃ a w, am_hdr m = Some a ∧ it_writers s !! am_writer m = Some w ∧ it_headers s !! a = Some h ∧
    ih_msgId h = am_id m ∧ ih_writerId h = iw_id w.

Record hdr_inv (s : ItState) (a : aqueue) : Prop := {
  hi_nodup : NoDup (am_hdr <$> q_held a);
  hi_open_new : ∀ p m, q_open a !! p = Some m → am_hdr m ∉ am_hdr <$> q_held a;
  hi_sent : ∀ i m, q_sent a !! i = Some m → ∃ h, hdr_is s m h ∧ ih_length h = am_len m ∧ ih_next h = q_sent a !! S i ≫= am_hdr;
  hi_cur : ∀ m, q_cur a = Some m → ∃ h, hdr_is s m h ∧ ih_length h = am_len m;
  hi_open : ∀ p m, q_open a !! p = Some m → (∃ h, hdr_is s m h) ∧
    ∃ w, it_writers s !! p = Some w ∧ iw_mlen w = Some (am_len m) ∧ iw_toSend w = am_hdr m ∧ iw_contents w = am_ptrs m !! 1%nat;
  hi_head : it_head s = head (q_sent a) ≫= am_hdr;
  hi_tail : q_sent a ≠ [] → it_tail s = last (q_sent a) ≫= am_hdr;
}.

(** Writers. *)
Record reg_inv (s : ItState) : Prop := {
  ri_id : ∀ p w, it_writers s !! p = Some w → 0 ≤ iw_id w < 2 ^ 16 ∧ it_writerVect s !! Z.to_nat (iw_id w) = Some (Some p);
  ri_reader : ∀ p w, it_writers s !! p = Some w → iw_reader w ∈ dom (it_threads s);
}.

Record it_inv (s : ItState) (a : aqueue) (ch : gmap positive blks) : Prop := {
  iv_lay : lay_inv s a ch;
  iv_msg : msg_inv s a;
  iv_hdr : hdr_inv s a;
  iv_reg : reg_inv s;
}.

(** ** Consequences *)

Lemma pending_held a p m : m ∈ q_held a → am_writer m = p → m ∈ pending a p.
Proof. intros H E. unfold pending. apply elem_of_app. left. by apply list_elem_of_filter. Qed.

Lemma pending_open a p m : q_open a !! p = Some m → m ∈ pending a p.
Proof. intros H. unfold pending. apply elem_of_app. right. rewrite H. by apply list_elem_of_singleton. Qed.

Lemma pending_ok s a p : msg_inv s a → Forall amsg_ok (pending a p).
Proof.
  intros [H O]. apply Forall_forall. intros m [Hm|Hm]%elem_of_app.
  - apply list_elem_of_filter in Hm as [_ Hm]. by apply H.
  - destruct (q_open a !! p) as [m'|] eqn:E; [|by apply elem_of_nil in Hm]. apply list_elem_of_singleton in Hm as ->. by eapply O.
Qed.

Lemma amsg_nonneg m : amsg_ok m → Forall (λ n, 0 ≤ n) (am_sizes m).
Proof. intros [_ P _ _ _]. eapply Forall_impl; [exact P|]. by intros n [? _]. Qed.

Lemma pending_nonneg ms : Forall amsg_ok ms → Forall (λ m, Forall (λ n, 0 ≤ n) (am_sizes m)) ms.
Proof. intros F. eapply Forall_impl; [exact F|]. apply amsg_nonneg. Qed.

Lemma pending_msgs ms : Forall amsg_ok ms → msgs_ok ms.
Proof.
  intros F. eapply Forall_impl; [exact F|]. intros m M. split; [|by apply amsg_nonneg].
  destruct (mo_sizes _ M) as (SZ & rest & E). by eexists.
Qed.

(** The pieces of the pending messages of a writer. *)
Lemma wrep_pieces m w bs ms : wrep m w bs ms → Forall amsg_ok ms →
  Forall (λ m, length (am_ptrs m) = length (am_sizes m)) ms ∧
  pieces_ok bs (iw_hoff w) (tail_of bs) (iw_toff w) (concat (regions <$> ms)).
Proof.
  intros [_ _ _ N _ [Ho _] _ L] F. destruct (laid_pieces _ _ _ _ _ N Ho (pending_nonneg _ F) L) as (_ & _ & E & P). done.
Qed.

(** The header of a pending message is in memory. *)
Lemma hdr_region m : amsg_ok m → length (am_ptrs m) = length (am_sizes m) →
  ∃ a, am_hdr m = Some a ∧ (a, SIZEOF_ItHeader) ∈ regions m.
Proof.
  intros M E. destruct (mo_sizes _ M) as (SZ & rest & Es). unfold regions, am_hdr. rewrite Es in *.
  destruct (am_ptrs m) as [|a l]; [done|]. exists a. split; [done|]. cbn. by left.
Qed.

Lemma hdr_in_block s w bs ms m : wrep (it_blocks s) w bs ms → Forall amsg_ok ms → m ∈ ms →
  ∃ a, am_hdr m = Some a ∧ in_block s a = true ∧ a.1 ∈ bs.*1 ∧ (a, SIZEOF_ItHeader) ∈ regions m.
Proof.
  intros W F Hm. destruct (wrep_pieces _ _ _ _ W F) as [E (_ & _ & I & _)].
  destruct (hdr_region m) as (a & Ea & Hr); [by eapply Forall_forall in F|by eapply (proj1 (Forall_forall _ _)) in E|].
  exists a. split; [done|].
  assert ((a, SIZEOF_ItHeader) ∈ concat (regions <$> ms)) as Hc.
  { apply list_elem_of_In, in_concat. exists (regions m). split; [|by apply list_elem_of_In]. apply list_elem_of_In. by apply list_elem_of_fmap_2. }
  destruct (proj1 (Forall_forall _ _) I _ Hc) as (sz & Hin & Hlo & Hhi). cbn in *.
  destruct (chain_lookup _ _ _ _ (wr_chain _ _ _ _ W) Hin) as [nx Eb]. split_and!; [|by apply (list_elem_of_fmap_2 fst) in Hin|done].
  unfold in_block. rewrite Eb. apply bool_decide_eq_true. done.
Qed.

(** ** Changing one writer *)

Lemma rep_other (m m' : gmap positive ItBlock) w (bs bsq : blks) ms : (∀ b, b ∈ dom m → b ∉ bs.*1 → m' !! b = m !! b) →
  (∀ b, b ∈ bsq.*1 → b ∉ bs.*1) → wrep m w bsq ms → wrep m' w bsq ms.
Proof.
  intros A D [C H T N F Ho To L]. split; try done. apply (chain_agree m); [|done]. intros b Hb. apply A; [by eapply chain_dom|by apply D].
Qed.

Lemma lay_update s s' a a' ch p w w' bs bs' :
  lay_inv s a ch → it_writers s !! p = Some w → ch !! p = Some bs → it_writers s' = <[p := w']> (it_writers s) →
  wrep (it_blocks s') w' bs' (pending a' p) → (∀ q, q ≠ p → pending a' q = pending a q) →
  (∀ b, b ∈ dom (it_blocks s) → b ∉ bs.*1 → it_blocks s' !! b = it_blocks s !! b) →
  (∀ b, b ∈ bs'.*1 → b ∈ bs.*1 ∨ b ∉ dom (it_blocks s)) →
  (∀ b, b ∈ dom (it_blocks s') → b ∈ bs'.*1 ∨ (b ∈ dom (it_blocks s) ∧ b ∉ bs.*1)) →
  lay_inv s' a' (<[p := bs']> ch).
Proof.
  intros [R D J C] Ew Ec Es W P A B E.
  assert (∀ q bsq, q ≠ p → ch !! q = Some bsq → chain (it_blocks s) bsq) as Hch.
  { intros q bsq Hq Eq. assert (is_Some (it_writers s !! q)) as [wq Ewq] by (apply elem_of_dom; rewrite <- D; apply elem_of_dom; by eexists).
    destruct (R q wq Ewq) as (bs2 & E2 & W2). rewrite Eq in E2. injection E2 as <-. apply W2. }
  assert (∀ q bsq, q ≠ p → ch !! q = Some bsq → ∀ b, b ∈ bsq.*1 → b ∉ bs'.*1) as Hx.
  { intros q bsq Hq Eq b Hb Hb'. destruct (B b Hb') as [Hbs|Hnew]; [by apply (J q p bsq bs Eq Ec Hq b)|].
    apply Hnew. eapply chain_dom; [by eapply Hch|done]. }
  split.
  - intros q wq Eq. rewrite Es in Eq. apply lookup_insert_Some in Eq as [[<- <-]|[Hne Eq]].
    + exists bs'. rewrite lookup_insert_eq. done.
    + destruct (R q wq Eq) as (bsq & Eq2 & Wq). exists bsq. rewrite lookup_insert_ne, P by done. split; [done|].
      apply (rep_other (it_blocks s) _ _ bs); [done| |done]. apply (J q p); done.
  - rewrite Es, !dom_insert_L, D. done.
  - intros q1 q2 b1 b2 [[<- <-]|[N1 E1]]%lookup_insert_Some [[<- <-]|[N2 E2]]%lookup_insert_Some Hne b Hb; try done.
    + intros Hb'. by apply (Hx q2 b2 (not_eq_sym N2) E2 b).
    + by apply (Hx q1 b1 (not_eq_sym N1) E1 b).
    + by apply (J q1 q2 b1 b2).
  - intros b Hb. destruct (E b Hb) as [Hb'|[Hd Hn]]; [exists p, bs'; by rewrite lookup_insert_eq|].
    destruct (C b Hd) as (q & bsq & Eq & Hq). exists q, bsq. rewrite lookup_insert_ne; [done|]. intros ->.
    rewrite Ec in Eq. injection Eq as <-. done.
Qed.

Lemma lay_grown s s' a a' ch p w w' bs bs' :
  lay_inv s a ch → it_writers s !! p = Some w → ch !! p = Some bs → it_writers s' = <[p := w']> (it_writers s) →
  wrep (it_blocks s') w' bs' (pending a' p) → (∀ q, q ≠ p → pending a' q = pending a q) →
  grown (it_blocks s) bs (it_blocks s') bs' → lay_inv s' a' (<[p := bs']> ch).
Proof.
  intros I Ew Ec Es W P [O _ N D [x X]]. eapply lay_update; try done. intros b. rewrite D, elem_of_union, elem_of_list_to_set.
  intros [Hb|]; [|by left]. destruct (decide (b ∈ bs.*1)) as [Hi|]; [left|by right]. rewrite X, fmap_app. set_solver.
Qed.

Lemma lay_freed s s' a a' ch p w w' bs bs' gone :
  lay_inv s a ch → it_writers s !! p = Some w → ch !! p = Some bs → it_writers s' = <[p := w']> (it_writers s) →
  wrep (it_blocks s') w' bs' (pending a' p) → (∀ q, q ≠ p → pending a' q = pending a q) →
  bs = gone ++ bs' → freed (it_blocks s) (it_blocks s') gone → lay_inv s' a' (<[p := bs']> ch).
Proof.
  intros I Ew Ec Es W P -> F. eapply lay_update; try done.
  - intros b _ Hb. rewrite F, decide_False; [done|]. rewrite fmap_app in Hb. set_solver.
  - intros b Hb. left. rewrite fmap_app. set_solver.
  - intros b [blk Eb]%elem_of_dom. rewrite F in Eb. case_decide as Hg; [done|].
    destruct (decide (b ∈ bs'.*1)); [by left|]. right. split; [apply elem_of_dom; by eexists|]. rewrite fmap_app. set_solver.
Qed.

(** The same messages, in the same blocks. *)
Lemma lay_same s s' a a' ch : it_blocks s' = it_blocks s → it_writers s' = it_writers s →
  (∀ p, pending a' p = pending a p) → lay_inv s a ch → lay_inv s' a' ch.
Proof. intros E1 E2 P [R D J C]. split; rewrite ?E1, ?E2; try done. intros p w Ew. rewrite P. by apply R. Qed.

Lemma hdr_is_writers s s' m h : it_headers s' = it_headers s →
  (∀ p w, it_writers s !! p = Some w → ∃ w', it_writers s' !! p = Some w' ∧ iw_id w' = iw_id w) → hdr_is s m h → hdr_is s' m h.
Proof.
  intros E H (a & w & Ea & Ew & Eh & Ei & Ej). destruct (H _ _ Ew) as (w' & Ew' & Eid). exists a, w'. rewrite E, Eid. done.
Qed.

Lemma ids_insert (ws : gmap positive ItWriter) p w w' : ws !! p = Some w → iw_id w' = iw_id w →
  ∀ q v, ws !! q = Some v → ∃ v', <[p := w']> ws !! q = Some v' ∧ iw_id v' = iw_id v.
Proof.
  intros Ew Ei q v Ev. destruct (decide (q = p)) as [->|Hne]; [|by exists v; rewrite lookup_insert_ne].
  exists w'. rewrite lookup_insert_eq. split; [done|]. congruence.
Qed.

Lemma dom_update (ws : gmap positive ItWriter) p w w' : ws !! p = Some w → dom (<[p := w']> ws) = dom ws.
Proof. intros E. rewrite dom_insert_L. apply elem_of_dom_2 in E. set_solver. Qed.

Lemma reg_update s s' p w w' : it_writers s !! p = Some w → same_writer w w' → it_writers s' = <[p := w']> (it_writers s) →
  it_writerVect s' = it_writerVect s → it_threads s' = it_threads s → reg_inv s → reg_inv s'.
Proof.
  intros Ew (S1 & S2 & _) E1 E2 E3 [R1 R2]. split; rewrite ?E1, ?E2, ?E3; intros q v [[<- <-]|[_ Ev]]%lookup_insert_Some.
  - rewrite S2. by apply R1.
  - by apply R1.
  - rewrite S1. by eapply R2.
  - by eapply R2.
Qed.

(** ** Pieces of a message *)

Definition with_open (a : aqueue) (p : positive) (m : amsg) : aqueue := AQueue (q_sent a) (q_cur a) (<[p := m]> (q_open a)).

Lemma pending_with_open a p m : pending (with_open a p m) p = filter (λ m, am_writer m = p) (q_held a) ++ [m].
Proof. unfold pending. cbn. by rewrite lookup_insert_eq. Qed.

Lemma pending_with_open_ne a p q m : q ≠ p → pending (with_open a p m) q = pending a q.
Proof. intros H. unfold pending. cbn. by rewrite lookup_insert_ne. Qed.

Lemma amsg_grow_ok m n a d : amsg_ok m → piece_ok n → (length (am_sizes m) < PIECES_MAX)%nat → n ≤ d ≤ 2 * PIECE_MAX →
  amsg_ok (am_grow m n a d).
Proof.
  intros [(SZ & rest & Es) P C L I] Hn Hc Hd. split; cbn; try done.
  - exists SZ, (rest ++ [n]). by rewrite Es.
  - apply Forall_app. split; [done|by apply Forall_singleton].
  - rewrite length_app. cbn. lia.
  - rewrite length_app. cbn. unfold piece_ok in Hn. lia.
Qed.

Lemma amsg_bound m : amsg_ok m → (length (am_sizes m) < PIECES_MAX)%nat → am_len m + 2 * PIECE_MAX < 2 ^ 31.
Proof. intros [_ _ _ L _] C. unfold PIECES_MAX, PIECE_MAX in *. lia. Qed.

Lemma amsg_bound' m : amsg_ok m → am_len m < 2 ^ 31 - PIECE_MAX.
Proof. intros [_ _ C L _]. unfold PIECES_MAX, PIECE_MAX in *. lia. Qed.

(** Growing a message keeps its first two pointers. *)
Lemma grow_ptrs m n a d i : (i < length (am_ptrs m))%nat → am_ptrs (am_grow m n a d) !! i = am_ptrs m !! i.
Proof. intros H. cbn. by apply lookup_app_l. Qed.

(** A pointer that was handed out: inside a block, and apart from every piece of
    every message not yet given back. *)
Definition good_ptr (s : ItState) (a : aqueue) (x : region) : Prop :=
  (∃ blk, it_blocks s !! x.1.1 = Some blk ∧ 0 ≤ x.1.2 ∧ x.1.2 + x.2 ≤ blk_size blk) ∧
  ∀ q m y, m ∈ pending a q → y ∈ regions m → apart y x.

Lemma all_apart_cross l1 l2 x y : all_apart (l1 ++ l2) → x ∈ l1 → y ∈ l2 → apart x y.
Proof.
  induction l1 as [|z l1 IH]; intros H Hx Hy; [by apply elem_of_nil in Hx|]. destruct H as [Hz H].
  apply elem_of_cons in Hx as [->|Hx]; [|by apply IH]. eapply (proj1 (Forall_forall _ _)) in Hz; [exact Hz|]. set_solver.
Qed.

Lemma elem_concat_regions ms m y : m ∈ ms → y ∈ regions m → y ∈ concat (regions <$> ms).
Proof.
  intros Hm Hy. apply list_elem_of_In, in_concat. exists (regions m). split; apply list_elem_of_In; [|done]. by apply list_elem_of_fmap_2.
Qed.

(** Every pending message is that of a writer. *)
Lemma pending_writer s a q m : msg_inv s a → m ∈ pending a q → q ∈ dom (it_writers s).
Proof.
  intros [H O] [Hm|Hm]%elem_of_app.
  - apply list_elem_of_filter in Hm as [<- Hm]. by apply H.
  - destruct (q_open a !! q) as [m'|] eqn:E; [|by apply elem_of_nil in Hm]. by apply (O q m').
Qed.

Lemma fresh_piece s a a' ch p w bs pre x post : lay_inv s a' ch → msg_inv s a' → it_writers s !! p = Some w → ch !! p = Some bs →
  concat (regions <$> pending a' p) = concat (regions <$> pending a p) ++ pre ++ x :: post →
  (∀ q, q ≠ p → pending a' q = pending a q) → good_ptr s a x.
Proof.
  intros I M Ew Ec Ep P. destruct (li_rep _ _ _ I _ _ Ew) as (bs' & Ec' & W). rewrite Ec in Ec'. injection Ec' as <-.
  destruct (wrep_pieces _ _ _ _ W (pending_ok _ _ p M)) as [_ (_ & _ & In & Ap)]. rewrite Ep in In, Ap.
  assert (inside bs x) as (sz & Hin & Hlo & Hhi) by (eapply (proj1 (Forall_forall _ _)) in In; [exact In|set_solver]).
  split.
  { destruct (chain_lookup _ _ _ _ (wr_chain _ _ _ _ W) Hin) as [nx E]. by eexists. }
  intros q m y Hm Hy. destruct (decide (q = p)) as [->|Hq].
  { eapply all_apart_cross; [exact Ap|by eapply elem_concat_regions|set_solver]. }
  rewrite <- (P q Hq) in Hm. pose proof (pending_writer _ _ _ _ M Hm) as [wq Ewq]%elem_of_dom.
  destruct (li_rep _ _ _ I _ _ Ewq) as (bsq & Eq & Wq). destruct (wrep_pieces _ _ _ _ Wq (pending_ok _ _ q M)) as [_ (_ & _ & Iq & _)].
  assert (inside bsq y) as (sz' & Hin' & _) by (eapply (proj1 (Forall_forall _ _)) in Iq; [exact Iq|by eapply elem_concat_regions]).
  left. intros E. apply (list_elem_of_fmap_2 fst) in Hin, Hin'. cbn in *. rewrite E in Hin'. by apply (li_disj _ _ _ I _ _ _ _ Eq Ec Hq _ Hin').
Qed.

Section Steps.
Context (new : gset positive → positive) (new_fresh : ∀ D, new D ∉ D).

Lemma pending_split a p o : q_open a !! p = Some o → pending a p = filter (λ m, am_writer m = p) (q_held a) ++ [o].
Proof. intros E. unfold pending. by rewrite E. Qed.

Lemma regions_grow m n a d : length (am_ptrs m) = length (am_sizes m) → regions (am_grow m n a d) = regions m ++ [(a, n)].
Proof. intros E. unfold regions. cbn. by rewrite zip_with_app. Qed.

(** Growing the message a writer is making keeps everything about headers. *)
Lemma hdr_grow s s' a p w w' o n aa d : hdr_inv s a → q_open a !! p = Some o → it_writers s !! p = Some w →
  it_writers s' = <[p := w']> (it_writers s) → same_writer w w' → iw_mlen w' = Some (am_len o + d) → it_headers s' = it_headers s →
  it_head s' = it_head s → it_tail s' = it_tail s → (1 < length (am_ptrs o))%nat →
  hdr_inv s' (with_open a p (am_grow o n aa d)).
Proof.
  intros [N ON S C O H T] Eo Ew Es Sw Em Eh E1 E2 Hl. destruct Sw as (S1 & S2 & S3 & S4).
  assert (∀ m h, hdr_is s m h → hdr_is s' m h) as Hh.
  { intros m h. apply hdr_is_writers; [done|]. rewrite Es. by apply (ids_insert _ _ w). }
  assert (am_hdr (am_grow o n aa d) = am_hdr o) as Eg by (apply grow_ptrs; lia).
  split; cbn [with_open q_sent q_cur q_open] in *; rewrite ?E1, ?E2; try done.
  - intros q m [[<- <-]|[_ Eq]]%lookup_insert_Some; [rewrite Eg; by apply (ON p)|by apply (ON q)].
  - intros i m Ei. destruct (S i m Ei) as (h & X & Y). exists h. split; [by apply Hh|done].
  - intros m Ei. destruct (C m Ei) as (h & X & Y). exists h. split; [by apply Hh|done].
  - intros q m [[<- <-]|[Hne Eq]]%lookup_insert_Some.
    + destruct (O p o Eo) as [[h (a0 & w0 & X)] (w1 & Ew1 & Y1 & Y2 & Y3)]. rewrite Ew in Ew1. injection Ew1 as <-. split.
      * exists h. destruct (Hh o h) as (a1 & w2 & Z1 & Z); [by exists a0, w0|]. exists a1, w2. rewrite Eg. done.
      * exists w'. rewrite Es, lookup_insert_eq, Eg, S3, S4, grow_ptrs by done. done.
    + destruct (O q m Eq) as [[h X] (w1 & Ew1 & Y)]. split; [exists h; by apply Hh|]. exists w1. by rewrite Es, lookup_insert_ne.
Qed.

Lemma alloc_inv s a ch p o n : it_inv s a ch → q_open a !! p = Some o → piece_ok n → (length (am_sizes o) < PIECES_MAX)%nat →
  ∃ aa d s' ch', allocBytes new s p n = Ok (aa, s') ∧ it_inv s' (with_open a p (am_grow o n aa d)) ch' ∧ good_ptr s' a (aa, n).
Proof.
  intros [L M H R] Eo Hn Hc. destruct (mi_open _ _ M p o Eo) as (Ok & Eow & [w Ew]%elem_of_dom).
  destruct (hi_open _ _ H p o Eo) as [_ (w0 & Ew0 & Em & _)]. rewrite Ew in Ew0. injection Ew0 as <-.
  destruct (li_rep _ _ _ L p w Ew) as (bs & Ec & W). destruct (wrep_pieces _ _ _ _ W (pending_ok _ _ p M)) as [El _].
  pose proof (pending_split a p o Eo) as Ep. rewrite Ep in W, El. apply Forall_end in El.
  destruct (allocBytes_ok new new_fresh s p w bs _ o n Ew W Em Hn) as (aa & d & m' & w' & bs' & E & W' & Em' & Hd & Sw & G);
    [apply Ok|by apply amsg_bound|].
  set (s' := set_writer (set_blocks s m') p w') in *. set (a' := with_open a p (am_grow o n aa d)).
  assert (lay_inv s' a' (<[p := bs']> ch)) as L'.
  { eapply (lay_grown s _ a); try done; [subst a'; by rewrite pending_with_open|]. intros q Hq. by apply pending_with_open_ne. }
  assert (msg_inv s' a') as M'.
  { destruct M as [M1 M2]. subst s' a'. split; cbn; rewrite (dom_update _ _ _ _ Ew); [done|].
    intros q m [[<- <-]|[_ Eq]]%lookup_insert_Some; [|by apply M2]. split; [by apply amsg_grow_ok|]. by apply (M2 p o). }
  exists aa, d, s', (<[p := bs']> ch). split; [done|]. split; [split; try done|].
  - eapply hdr_grow; try done. rewrite El. destruct (mo_sizes _ Ok) as (SZ & rest & ->). cbn. lia.
  - by eapply reg_update.
  - eapply (fresh_piece _ _ a' _ p w' bs' []); [done|done|by apply lookup_insert_eq|by apply lookup_insert_eq| |].
    + subst a'. rewrite pending_with_open, Ep, !fmap_app, !concat_app. cbn [fmap list_fmap concat]. by rewrite regions_grow, <- !app_assoc, !app_nil_r.
    + intros q Hq. by apply pending_with_open_ne.
Qed.

(** ** Opening a message *)

Lemma good_hdr s a h q m : good_ptr s a (h, SIZEOF_ItHeader) → m ∈ pending a q → amsg_ok m →
  length (am_ptrs m) = length (am_sizes m) → am_hdr m ≠ Some h.
Proof.
  intros [_ G] Hm M El E. destruct (hdr_region m M El) as (x & Ex & Hr). rewrite E in Ex. injection Ex as <-.
  destruct (G q m _ Hm Hr) as [X|[X|X]]; cbn in X; unfold SIZEOF_ItHeader in X; [done|lia|lia].
Qed.

Lemma ptrs_length s a ch q m : lay_inv s a ch → msg_inv s a → m ∈ pending a q → length (am_ptrs m) = length (am_sizes m).
Proof.
  intros L M Hm. pose proof (pending_writer _ _ _ _ M Hm) as [w Ew]%elem_of_dom. destruct (li_rep _ _ _ L _ _ Ew) as (bs & _ & W).
  destruct (wrep_pieces _ _ _ _ W (pending_ok _ _ q M)) as [El _]. by eapply (proj1 (Forall_forall _ _)) in El.
Qed.

Lemma hdr_is_other s s' m h h0 hd : it_headers s' = <[h0 := hd]> (it_headers s) → am_hdr m ≠ Some h0 →
  (∀ p w, it_writers s !! p = Some w → ∃ w', it_writers s' !! p = Some w' ∧ iw_id w' = iw_id w) → hdr_is s m h → hdr_is s' m h.
Proof.
  intros E Hne H (a & w & Ea & Ew & Eh & Ei & Ej). destruct (H _ _ Ew) as (w' & Ew' & Eid). exists a, w'. rewrite E, Eid.
  split_and!; try done. rewrite lookup_insert_ne; [done|]. intros <-. done.
Qed.

Lemma hdr_open s s' a p w w' o h hd : hdr_inv s a → q_open a !! p = None → it_writers s !! p = Some w → am_writer o = p →
  it_writers s' = <[p := w']> (it_writers s) → iw_id w' = iw_id w → iw_mlen w' = Some (am_len o) → iw_toSend w' = am_hdr o →
  iw_contents w' = am_ptrs o !! 1%nat → it_headers s' = <[h := hd]> (it_headers s) → am_hdr o = Some h →
  ih_msgId hd = am_id o → ih_writerId hd = iw_id w → it_head s' = it_head s → it_tail s' = it_tail s →
  (∀ m, m ∈ q_held a → am_hdr m ≠ Some h) → (∀ q m, q_open a !! q = Some m → am_hdr m ≠ Some h) →
  hdr_inv s' (with_open a p o).
Proof.
  intros [N ON S C O H T] Eo Ew Ep Es Ei Em Et Ec Eh Eho I1 I2 E1 E2 D1 D2.
  assert (∀ m h', am_hdr m ≠ Some h → hdr_is s m h' → hdr_is s' m h') as Hh.
  { intros m h' Hne. eapply hdr_is_other; [done|done|]. rewrite Es. by apply (ids_insert _ _ w). }
  split; cbn [with_open q_sent q_cur q_open] in *; rewrite ?E1, ?E2; try done.
  - intros q m [[<- <-]|[_ Eq]]%lookup_insert_Some; [|by apply (ON q)]. rewrite Eho. intros (m & Em' & Hm)%list_elem_of_fmap.
    by apply (D1 m).
  - intros i m Ei'. destruct (S i m Ei') as (x & X & Y). exists x. split; [|done]. apply Hh; [|done]. apply D1.
    unfold q_held. apply elem_of_app. right. by apply list_elem_of_lookup_2 in Ei'.
  - intros m Ei'. destruct (C m Ei') as (x & X & Y). exists x. split; [|done]. apply Hh; [|done]. apply D1.
    unfold q_held. rewrite Ei'. cbn. by left.
  - intros q m [[<- <-]|[Hne Eq]]%lookup_insert_Some.
    + split; [|exists w'; by rewrite Es, lookup_insert_eq]. exists hd, h, w'.
      rewrite Ep, Es, Eh, !lookup_insert_eq, Ei. done.
    + destruct (O q m Eq) as [[x X] (w1 & Ew1 & Y)]. split; [exists x; apply Hh; [by eapply D2|done]|].
      exists w1. by rewrite Es, lookup_insert_ne.
Qed.

(** A message with no pieces yet. *)
Lemma wrep_start m w bs ms p ID : wrep m w bs ms → wrep m (set_mlen w 0) bs (ms ++ [AMsg p ID [] [] 0]).
Proof.
  intros [C H T N F Ho To L]. split; try done. apply laid_app_ms. eexists _, _. split; [exact L|]. by eexists _, _.
Qed.

(** The two pieces of a new message, at the level of the writer. *)
Lemma itqOpen_ok s p w bs ms ID SZ : it_writers s !! p = Some w → wrep (it_blocks s) w bs ms → Forall amsg_ok ms →
  0 ≤ ID < 2 ^ 16 → 0 ≤ iw_id w < 2 ^ 16 → piece_ok SZ →
  ∃ h msg d1 d2 m' w' bs', itqOpen new s p ID SZ = Ok (msg, set_writer (set_headers (set_blocks s m')
      (<[h := MkItHeader ID (iw_id w) 0 None]> (it_headers s))) p w') ∧
    wrep m' w' bs' (ms ++ [AMsg p ID [SIZEOF_ItHeader; SZ] [h; msg] (d1 + d2)]) ∧ iw_mlen w' = Some (d1 + d2) ∧
    iw_reader w' = iw_reader w ∧ iw_id w' = iw_id w ∧ iw_toSend w' = Some h ∧ iw_contents w' = Some msg ∧
    0 ≤ d1 ≤ 2 * PIECE_MAX ∧ SZ ≤ d2 ≤ 2 * PIECE_MAX ∧ grown (it_blocks s) bs m' bs'.
Proof.
  intros Ew W Fm HID Hid HSZ. assert (piece_ok SIZEOF_ItHeader) as H16 by (unfold piece_ok, SIZEOF_ItHeader, PIECE_MAX; lia).
  unfold itqOpen. rewrite (it_writer_ok _ _ _ Ew), bind_Ok. set (s0 := set_writer s p (set_mlen w 0)).
  pose proof (wrep_start _ _ _ _ p ID W) as W0.
  destruct (allocBytes_ok new new_fresh s0 p (set_mlen w 0) bs ms _ SIZEOF_ItHeader (lookup_insert_eq _ _ _) W0 eq_refl H16)
    as (h & d1 & m1 & w1 & bs1 & E1 & W1 & Em1 & Hd1 & (S1 & S2 & S3 & S4) & G1); [done|cbn; unfold PIECE_MAX; lia|].
  rewrite E1, bind_Ok. cbn [am_grow am_writer am_id am_sizes am_ptrs am_len app] in W1, Em1. set (s1 := set_writer (set_blocks s0 m1) p w1).
  assert (in_block s1 h = true) as Hb.
  { destruct W1 as [C1 _ _ N1 _ [Ho1 _] _ L1]. eapply laid_pieces in L1; [|done|done|].
    - destruct L1 as (_ & _ & _ & (_ & _ & In & _)). rewrite fmap_app, concat_app in In. apply Forall_app in In as [_ In].
      cbn in In. apply Forall_cons in In as [(sz & Hin & Hlo & Hhi) _]. destruct (chain_lookup _ _ _ _ C1 Hin) as [nx Eb].
      cbn in Eb. unfold in_block. cbn. rewrite Eb. by apply bool_decide_eq_true.
    - apply Forall_app. split; [by apply pending_nonneg|]. apply Forall_singleton. cbn. apply Forall_singleton. done. }
  unfold put_header. cbn [deref]. rewrite bind_Ok, Hb, bind_Ok. rewrite !wrapu_small by done. cbn [it_headers set_writer set_blocks].
  set (s2 := set_headers s1 _). rewrite i32_small' by (unfold piece_ok, PIECE_MAX in HSZ; lia).
  destruct (allocBytes_ok new new_fresh s2 p w1 bs1 ms _ SZ (lookup_insert_eq _ _ _) W1 Em1 HSZ)
    as (msg & d2 & m2 & w2 & bs2 & E2 & W2 & Em2 & Hd2 & (T1 & T2 & T3 & T4) & G2); [cbn; unfold SIZEOF_ItHeader in *; lia|cbn; unfold PIECE_MAX in *; lia|].
  rewrite E2, bind_Ok, it_writer_set, bind_Ok. cbn [am_grow am_writer am_id am_sizes am_ptrs am_len app] in W2, Em2.
  exists h, msg, d1, d2, m2. eexists. exists bs2. split.
  { f_equal. f_equal. unfold s2, s1, s0, set_writer, set_blocks, set_headers. cbn. by rewrite !insert_insert_eq. }
  cbn in S1, S2. split_and!; cbn; try done; try congruence; try (unfold SIZEOF_ItHeader in *; lia); [by destruct W2|by eapply grown_trans].
Qed.

Lemma open_inv s a ch p w ID SZ : it_inv s a ch → it_writers s !! p = Some w → q_open a !! p = None →
  0 ≤ ID < 2 ^ 16 → piece_ok SZ →
  ∃ h msg len s' ch', itqOpen new s p ID SZ = Ok (msg, s') ∧
    it_inv s' (with_open a p (AMsg p ID [SIZEOF_ItHeader; SZ] [h; msg] len)) ch' ∧
    good_ptr s' a (h, SIZEOF_ItHeader) ∧ good_ptr s' a (msg, SZ).
Proof.
  intros [L M H R] Ew Eo HID HSZ. destruct (li_rep _ _ _ L p w Ew) as (bs & Ec & W). destruct (ri_id _ R p w Ew) as [Hid _].
  assert (pending a p = filter (λ m, am_writer m = p) (q_held a)) as Ep by (unfold pending; rewrite Eo; apply app_nil_r).
  destruct (itqOpen_ok s p w bs _ ID SZ Ew W (pending_ok _ _ p M) HID Hid HSZ)
    as (h & msg & d1 & d2 & m' & w' & bs' & E & W' & Em & S1 & S2 & S3 & S4 & Hd1 & Hd2 & G).
  set (s' := set_writer _ p w') in E. set (o := AMsg p ID _ _ _) in W'. set (a' := with_open a p o).
  assert (amsg_ok o) as Oo.
  { split; cbn; try done; [by exists SZ, []| |unfold PIECES_MAX; lia|unfold piece_ok in HSZ; lia].
    repeat constructor; try apply HSZ; unfold SIZEOF_ItHeader, PIECE_MAX; lia. }
  assert (pending a' p = pending a p ++ [o]) as Epa by (subst a'; by rewrite pending_with_open, Ep).
  assert (lay_inv s' a' (<[p := bs']> ch)) as L'.
  { eapply (lay_grown s s' a a' ch p w w' bs bs'); [exact L|exact Ew|exact Ec|reflexivity|by rewrite Epa| |exact G].
    intros q Hq. by apply pending_with_open_ne. }
  assert (msg_inv s' a') as M'.
  { destruct M as [M1 M2]. subst s' a'. split; cbn; rewrite (dom_update _ _ _ _ Ew); [done|].
    intros q m [[<- <-]|[_ Eq]]%lookup_insert_Some; [|by apply M2]. split; [done|]. split; [done|]. by apply elem_of_dom_2 in Ew. }
  assert (good_ptr s' a (h, SIZEOF_ItHeader)) as Gh.
  { eapply (fresh_piece _ _ a' _ p w' bs' [] _ [(msg, SZ)]); [done|done|apply lookup_insert_eq|apply lookup_insert_eq| |by intros q Hq; apply pending_with_open_ne].
    rewrite Epa, fmap_app, concat_app. cbn. done. }
  exists h, msg, (d1 + d2), s', (<[p := bs']> ch). split; [done|]. split; [|split; [done|]].
  - split; try done.
    + eapply (hdr_open s _ a p w w'); try done.
      * intros m Hm. eapply (good_hdr _ a _ (am_writer m)); [done|by apply pending_held|by apply (mi_held _ _ M)|].
        eapply (ptrs_length s a ch); [exact L|exact M|]. by apply pending_held.
      * intros q m Hm. eapply (good_hdr _ a _ q); [done|by apply pending_open|by apply (mi_open _ _ M q)|].
        eapply (ptrs_length s a ch); [exact L|exact M|]. by apply pending_open.
    + destruct R as [R1 R2]. split; cbn; intros q v [[<- <-]|[_ Ev]]%lookup_insert_Some; try by eauto.
      * rewrite S2. by apply R1.
      * rewrite S1. by eapply R2.
  - eapply (fresh_piece _ _ a' _ p w' bs' [(h, SIZEOF_ItHeader)]); [done|done|apply lookup_insert_eq|apply lookup_insert_eq| |by intros q Hq; apply pending_with_open_ne].
    rewrite Epa, fmap_app, concat_app. cbn. done.
Qed.
End Steps.
