(* ===== verification/ItQueueRun.v ===== *)
(** * Sending, waiting, releasing

    The operations on the list of headers keep [it_inv]; then every operation a
    thread may perform in a reachable state, against the specification. *)

From S2P Require Import Prelude ItQueue ItQueueLayout ItQueueOps ItQueueSpec.

(** ** The list of headers *)

Lemma held_open_ne s a p o m : hdr_inv s a → q_open a !! p = Some o → m ∈ q_held a → am_hdr m ≠ am_hdr o.
Proof. intros H Eo Hm E. apply (hi_open_new _ _ H p o Eo). rewrite <- E. by apply list_elem_of_fmap_2. Qed.

(** The headers of two messages being made are in blocks of different writers. *)
Lemma open_open_ne s a ch p q o m : it_inv s a ch → q_open a !! p = Some o → q_open a !! q = Some m → p ≠ q → am_hdr m ≠ am_hdr o.
Proof.
  intros [L M _ _] Ep Eq Hne E. pose proof (pending_writer _ _ _ _ M (pending_open _ _ _ Ep)) as [w Ew]%elem_of_dom.
  pose proof (pending_writer _ _ _ _ M (pending_open _ _ _ Eq)) as [v Ev]%elem_of_dom.
  destruct (li_rep _ _ _ L _ _ Ew) as (bs & Ec & W). destruct (li_rep _ _ _ L _ _ Ev) as (bs' & Ec' & W').
  destruct (hdr_in_block s _ _ _ o W (pending_ok _ _ p M) (pending_open _ _ _ Ep)) as (x & Ex & _ & Hx & _).
  destruct (hdr_in_block s _ _ _ m W' (pending_ok _ _ q M) (pending_open _ _ _ Eq)) as (y & Ey & _ & Hy & _).
  rewrite E, Ex in Ey. injection Ey as <-. by apply (li_disj _ _ _ L _ _ _ _ Ec Ec' Hne _ Hx).
Qed.

(** Reading and writing the header of a pending message. *)
Lemma header_ops s a ch q m : it_inv s a ch → m ∈ pending a q → ∃ x, am_hdr m = Some x ∧
  (∀ h, hdr_is s m h → get_header s (Some x) = Ok h) ∧
  ∀ s' h, it_blocks s' = it_blocks s → put_header s' (Some x) h = Ok (set_headers s' (<[x := h]> (it_headers s'))).
Proof.
  intros [L M _ _] Hm. pose proof (pending_writer _ _ _ _ M Hm) as [w Ew]%elem_of_dom.
  destruct (li_rep _ _ _ L _ _ Ew) as (bs & Ec & W). destruct (hdr_in_block s _ _ _ m W (pending_ok _ _ q M) Hm) as (x & Ex & Hb & _).
  exists x. split; [done|]. split.
  - intros h (y & v & Ey & _ & Eh & _). rewrite Ex in Ey. injection Ey as <-. unfold get_header. cbn [deref]. by rewrite bind_Ok, Hb, Eh.
  - intros s' h E. unfold put_header. cbn [deref]. rewrite bind_Ok. unfold in_block in *. by rewrite E, Hb.
Qed.

Lemma get_header_set s x h h' : get_header s (Some x) = Ok h → get_header (set_headers s (<[x := h']> (it_headers s))) (Some x) = Ok h'.
Proof.
  unfold get_header. cbn [deref]. rewrite !bind_Ok. unfold in_block. cbn. destruct (it_blocks s !! x.1); [|done].
  case_bool_decide; [|done]. by rewrite lookup_insert_eq.
Qed.

(** Only headers and the ends of the list change. *)
Definition relisted (s s' : ItState) : Prop :=
  it_blocks s' = it_blocks s ∧ it_writers s' = it_writers s ∧ it_threads s' = it_threads s ∧
  it_writerVect s' = it_writerVect s ∧ it_writerList s' = it_writerList s.

Lemma append_first s x h : it_head s = None → get_header s (Some x) = Ok h →
  ∃ s', append_header s (Some x) = Ok s' ∧ relisted s s' ∧ it_head s' = Some x ∧ it_tail s' = Some x ∧
    it_headers s' = <[x := MkItHeader (ih_msgId h) (ih_writerId h) (ih_length h) None]> (it_headers s).
Proof.
  intros Eh Eg. unfold append_header. rewrite Eh, bind_Ok. cbn [it_tail set_list]. unfold set_next_header.
  assert (get_header (set_list s (Some x) (Some x)) (Some x) = Ok h) as -> by exact Eg. rewrite bind_Ok.
  unfold put_header. cbn [deref]. rewrite bind_Ok. unfold get_header in Eg. cbn [deref] in Eg. rewrite bind_Ok in Eg.
  change (in_block (set_list s (Some x) (Some x)) x) with (in_block s x). destruct (in_block s x); [|done]. by eexists.
Qed.

Lemma append_next s t x th h : it_head s ≠ None → it_tail s = Some t → t ≠ x → get_header s (Some t) = Ok th → get_header s (Some x) = Ok h →
  ∃ s', append_header s (Some x) = Ok s' ∧ relisted s s' ∧ it_head s' = it_head s ∧ it_tail s' = Some x ∧
    it_headers s' = <[x := MkItHeader (ih_msgId h) (ih_writerId h) (ih_length h) None]>
      (<[t := MkItHeader (ih_msgId th) (ih_writerId th) (ih_length th) (Some x)]> (it_headers s)).
Proof.
  intros Eh Et Hne Egt Egx. unfold append_header. destruct (it_head s) as [hd|] eqn:Ehd; [|done]. clear Eh.
  unfold set_next_header at 2. rewrite Et, Egt, bind_Ok. unfold put_header. cbn [deref]. rewrite bind_Ok.
  unfold get_header in Egt, Egx. cbn [deref] in Egt, Egx. rewrite bind_Ok in Egt, Egx.
  destruct (in_block s t) eqn:Ebt; [|done]. destruct (in_block s x) eqn:Ebx; [|done]. rewrite !bind_Ok. cbn [it_tail set_list].
  unfold set_next_header, get_header, put_header. cbn [deref]. rewrite !bind_Ok.
  match goal with |- context [in_block ?z x] => change (in_block z x) with (in_block s x) end. rewrite Ebx. cbn [it_headers set_headers set_list].
  rewrite lookup_insert_ne by done. rewrite Egx, !bind_Ok. unfold in_block in *. cbn [it_blocks set_list set_headers].
  destruct (it_blocks s !! x.1); [|done]. rewrite Ebx. eexists. split; [reflexivity|]. by repeat split.
Qed.

Lemma notify_ok s r sig : r ∈ dom (it_threads s) → ∃ t, it_threads s !! r = Some t ∧
  notify s r sig = Ok (if sig || th_recvRequiresSignal t
    then set_thread s r (if th_pthread_this t =? 0 then MkThread (th_pthread_this t) (th_recvRequiresSignal t) true (th_signals t) else pthread_kill t)
    else s).
Proof.
  intros [t E]%elem_of_dom. exists t. split; [done|]. unfold notify. rewrite E. cbn [deref]. rewrite bind_Ok.
  destruct (sig || th_recvRequiresSignal t); [|done]. by destruct (th_pthread_this t =? 0).
Qed.

(** Sending moves the message a writer was making to the end. *)
Definition sent_msg (a : aqueue) (p : positive) (o : amsg) : aqueue := AQueue (q_sent a ++ [o]) (q_cur a) (delete p (q_open a)).

Lemma pending_sent a p o : q_open a !! p = Some o → am_writer o = p → ∀ q, pending (sent_msg a p o) q = pending a q.
Proof.
  intros Eo Ew q. unfold pending, q_held. cbn. rewrite (app_assoc _ _ [o]), filter_app. destruct (decide (q = p)) as [->|Hq].
  - rewrite lookup_delete_eq, Eo, filter_cons_True by done. cbn. by rewrite app_nil_r.
  - rewrite lookup_delete_ne by done. rewrite filter_cons_False by (rewrite Ew; congruence). by rewrite filter_nil, app_nil_r.
Qed.

Lemma hdr_is_set s s' m h : relisted s s' → hdr_is s m h →
  ∃ x, am_hdr m = Some x ∧ ∀ h', it_headers s' !! x = Some h' → ih_msgId h' = ih_msgId h → ih_writerId h' = ih_writerId h → hdr_is s' m h'.
Proof.
  intros (E1 & E2 & _) (x & w & Ex & Ew & Eh & Ei & Ej). exists x. split; [done|]. intros h' Eh' Ai Aj. exists x, w. rewrite E2.
  split_and!; congruence.
Qed.

Lemma hdr_is_same s s' m h x : relisted s s' → hdr_is s m h → am_hdr m = Some x → it_headers s' !! x = it_headers s !! x → hdr_is s' m h.
Proof.
  intros (E1 & E2 & _) (y & w & Ey & Ew & Eh & Ei & Ej) Ex E. rewrite Ex in Ey. injection Ey as <-. exists x, w. rewrite E2, E. done.
Qed.

(** What sending has done to the headers. *)
Record sent_hdrs (s s' : ItState) (a : aqueue) (o : amsg) (x : addr) (h : ItHeader) : Prop := {
  sh_rel : relisted s s';
  sh_new : it_headers s' !! x = Some (MkItHeader (ih_msgId h) (ih_writerId h) (am_len o) None);
  sh_last : ∀ m t th, last (q_sent a) = Some m → am_hdr m = Some t → it_headers s !! t = Some th →
    it_headers s' !! t = Some (MkItHeader (ih_msgId th) (ih_writerId th) (ih_length th) (Some x));
  sh_other : ∀ y, y ≠ x → (∀ m, last (q_sent a) = Some m → am_hdr m ≠ Some y) → it_headers s' !! y = it_headers s !! y;
  sh_head : it_head s' = head (q_sent a ++ [o]) ≫= am_hdr;
  sh_tail : it_tail s' = Some x;
}.

Lemma sent_in_held a m : m ∈ q_sent a → m ∈ q_held a.
Proof. intros H. unfold q_held. set_solver. Qed.

Lemma sent_distinct a i j m m' : NoDup (am_hdr <$> q_held a) → q_sent a !! i = Some m → q_sent a !! j = Some m' →
  am_hdr m = am_hdr m' → i = j.
Proof.
  unfold q_held. rewrite fmap_app. intros (_ & _ & N)%NoDup_app Ei Ej E. eapply NoDup_lookup; [exact N| |].
  - rewrite list_lookup_fmap, Ei. reflexivity.
  - rewrite list_lookup_fmap, Ej. cbn. by rewrite E.
Qed.

Lemma hdr_sent_list s s' a ch p o x h : it_inv s a ch → q_open a !! p = Some o → am_hdr o = Some x → hdr_is s o h → sent_hdrs s s' a o x h →
  ∀ i m, (q_sent a ++ [o]) !! i = Some m → ∃ h', hdr_is s' m h' ∧ ih_length h' = am_len m ∧ ih_next h' = (q_sent a ++ [o]) !! S i ≫= am_hdr.
Proof.
  intros I Eo Ex Hh [R SN SL SO _ _] i m Ei. pose proof (iv_hdr _ _ _ I) as H. apply lookup_app_Some in Ei as [Ei|[Hge Ei]].
  - destruct (hi_sent _ _ H i m Ei) as (th & Ht & El & En). pose proof (lookup_lt_Some _ _ _ Ei) as Hlt.
    destruct Ht as (t & w & Et & Ew & Eh & Ei1 & Ei2). destruct (decide (S i = length (q_sent a))) as [Hl|Hl].
    + assert (last (q_sent a) = Some m) as Hm by (rewrite last_lookup, <- Hl; exact Ei).
      eexists. split; [|split].
      * exists t, w. rewrite (proj1 (proj2 R)). split_and!; [done|done|by apply (SL m t th)|done|done].
      * done.
      * cbn. rewrite lookup_app_r by lia. rewrite Hl, Nat.sub_diag. cbn. by rewrite Ex.
    + exists th. split_and!; [|done|].
      * exists t, w. rewrite (proj1 (proj2 R)). split_and!; try done. rewrite SO; [done| |].
        -- intros ->. apply (held_open_ne _ _ _ _ m H Eo); [|congruence]. apply sent_in_held. by apply list_elem_of_lookup_2 in Ei.
        -- intros m' Hm' E. rewrite last_lookup in Hm'.
           assert (i = pred (length (q_sent a))); [|lia]. eapply sent_distinct; [apply H|exact Ei|exact Hm'|congruence].
      * rewrite En, lookup_app_l by lia. done.
  - apply list_lookup_singleton_Some in Ei as [Ei <-]. assert (i = length (q_sent a)) as -> by lia.
    destruct Hh as (t & w & Et & Ew & Eh & Ei1 & Ei2). rewrite Ex in Et. injection Et as <-. eexists. split; [|split].
    + exists x, w. rewrite (proj1 (proj2 R)). split_and!; [done|done|exact SN|done|done].
    + done.
    + cbn. rewrite lookup_ge_None_2; [done|]. rewrite length_app. cbn. lia.
Qed.

Lemma hdr_sent s s' a ch p o x h : it_inv s a ch → q_open a !! p = Some o → am_hdr o = Some x → hdr_is s o h → sent_hdrs s s' a o x h →
  hdr_inv s' (sent_msg a p o).
Proof.
  intros I Eo Ex Hh S. pose proof (hdr_sent_list _ _ _ _ _ _ _ _ I Eo Ex Hh S) as HL. destruct S as [R SN SL SO SH ST].
  pose proof (iv_hdr _ _ _ I) as H.
  assert (∀ m h', hdr_is s m h' → am_hdr m ≠ Some x → (∀ m', last (q_sent a) = Some m' → am_hdr m' ≠ am_hdr m) → hdr_is s' m h') as Keep.
  { intros m h' (y & w & Ey & Ew & Eh & E1 & E2) Hn Hl. exists y, w. rewrite (proj1 (proj2 R)). split_and!; try done.
    rewrite SO; [done|congruence|]. intros m' Em'. rewrite <- Ey. by apply Hl. }
  assert (∀ m', last (q_sent a) = Some m' → m' ∈ q_sent a) as Hlast.
  { intros m'. rewrite last_lookup. by intros ?%list_elem_of_lookup_2. }
  assert (q_held (sent_msg a p o) = q_held a ++ [o]) as Eq by (unfold q_held; cbn; by rewrite app_assoc).
  split; rewrite ?Eq; cbn [sent_msg q_sent q_cur q_open].
  - rewrite fmap_app. apply NoDup_app. split_and!; [apply H| |apply NoDup_singleton].
    intros y Hy Hy'. cbn in Hy'. apply list_elem_of_singleton in Hy' as ->. by apply (hi_open_new _ _ H p o).
  - intros q m [Hne Em]%lookup_delete_Some. rewrite fmap_app, elem_of_app. intros [Hm|Hm]; [by apply (hi_open_new _ _ H q m)|].
    cbn in Hm. apply list_elem_of_singleton in Hm. by apply (open_open_ne s a ch p q o m).
  - exact HL.
  - intros m Em. destruct (hi_cur _ _ H m Em) as (h' & X & Y). exists h'. split; [|done].
    assert (m ∈ q_held a) as Hm by (unfold q_held; rewrite Em; cbn; by left).
    apply Keep; [done|rewrite <- Ex; by apply (held_open_ne s a p)|]. intros m' Em' E. pose proof (hi_nodup _ _ H) as N.
    unfold q_held in N. rewrite Em in N. cbn in N. apply NoDup_cons in N as [N _]. apply N. rewrite <- E. by apply list_elem_of_fmap_2, Hlast.
  - intros q m [Hne Em]%lookup_delete_Some. destruct (hi_open _ _ H q m Em) as [[h' X] (w & Ew & Y)].
    split; [|exists w; by rewrite (proj1 (proj2 R))]. exists h'. apply Keep; [done|rewrite <- Ex; by apply (open_open_ne s a ch p q)|].
    intros m' Em' E. eapply (held_open_ne s a q m m'); [done|done|by apply sent_in_held, Hlast|done].
  - exact SH.
  - intros _. by rewrite ST, last_snoc.
Qed.

(** The header is completed and put on the list. *)
Lemma send_hdrs_ok s a ch p o x h : it_inv s a ch → q_open a !! p = Some o → am_hdr o = Some x → hdr_is s o h →
  ∃ s', append_header (set_headers s (<[x := MkItHeader (ih_msgId h) (ih_writerId h) (am_len o) (ih_next h)]> (it_headers s))) (Some x) = Ok s' ∧
    sent_hdrs s s' a o x h.
Proof.
  intros I Eo Ex Hh. pose proof (iv_hdr _ _ _ I) as H. set (hd := MkItHeader _ _ _ (ih_next h)).
  destruct (header_ops s a ch p o I (pending_open _ _ _ Eo)) as (x' & Ex' & Hget & _). rewrite Ex in Ex'. injection Ex' as <-.
  pose proof (get_header_set s x h hd (Hget h Hh)) as Gx. set (s1 := set_headers s _) in *.
  assert (relisted s s1) as R1 by (by repeat split). destruct (q_sent a) as [|m0 ms] eqn:Es.
  - destruct (append_first s1 x hd) as (s' & E & R & Eh & Et & Ehs); [change (it_head s = None); by rewrite (hi_head _ _ H), Es|done|].
    exists s'. split; [done|]. split; rewrite ?Es; try done.
    + rewrite Ehs. apply lookup_insert_eq.
    + intros y Hy _. rewrite Ehs. cbn. by rewrite !lookup_insert_ne.
    + cbn. by rewrite Ex.
  - assert (q_sent a ≠ []) as Hne by (by rewrite Es). destruct (last (q_sent a)) as [m|] eqn:El; [|by apply last_None in El].
    assert (m ∈ q_held a) as Hm by (apply sent_in_held; rewrite last_lookup in El; by apply list_elem_of_lookup_2 in El).
    pose proof (hi_tail _ _ H Hne) as Ht. rewrite El in Ht. cbn in Ht.
    destruct (header_ops s a ch (am_writer m) m I (pending_held _ _ _ Hm eq_refl)) as (t & Et & Hgt & _). rewrite Et in Ht.
    rewrite last_lookup in El. destruct (hi_sent _ _ H _ _ El) as (th & Hth & _).
    assert (t ≠ x) as Htx by (intros ->; apply (held_open_ne s a p o m H Eo Hm); congruence).
    pose proof (Hgt th Hth) as Gt. assert (it_headers s !! t = Some th) as Eht.
    { destruct Hth as (t' & w & Et' & _ & Eh' & _). rewrite Et in Et'. by injection Et' as <-. }
    assert (get_header s1 (Some t) = Ok th) as Gt1.
    { unfold get_header in Gt |- *. cbn [deref] in *. rewrite bind_Ok in *. change (in_block s1 t) with (in_block s t).
      destruct (in_block s t); [|done]. subst s1. cbn. by rewrite lookup_insert_ne. }
    destruct (append_next s1 t x th hd) as (s' & E & R & Eh & Et2 & Ehs); try done.
    { change (it_head s ≠ None). rewrite (hi_head _ _ H), Es. cbn. destruct (hi_sent _ _ H 0%nat m0) as (h0 & (y & w & -> & _) & _); [by rewrite Es|done]. }
    exists s'. split; [done|]. rewrite <- last_lookup in El. split; try done.
    + rewrite Ehs. apply lookup_insert_eq.
    + intros m' t' th' Em' Et' Eth'. rewrite El in Em'. injection Em' as <-. rewrite Et in Et'. injection Et' as <-.
      rewrite Eht in Eth'. injection Eth' as <-. by rewrite Ehs, lookup_insert_ne, lookup_insert_eq.
    + intros y Hy Hl. rewrite Ehs. cbn. specialize (Hl m El). rewrite !lookup_insert_ne; congruence.
    + rewrite Eh. change (it_head s1) with (it_head s). rewrite (hi_head _ _ H), Es. done.
Qed.

Lemma send_inv s a ch p o sig : it_inv s a ch → q_open a !! p = Some o →
  ∃ s' t w, send s p sig = Ok s' ∧ it_inv s' (sent_msg a p o) ch ∧ it_writers s !! p = Some w ∧ it_threads s !! iw_reader w = Some t ∧
    it_threads s' = if sig || th_recvRequiresSignal t
      then <[iw_reader w := if th_pthread_this t =? 0 then MkThread (th_pthread_this t) (th_recvRequiresSignal t) true (th_signals t) else pthread_kill t]> (it_threads s)
      else it_threads s.
Proof.
  intros I Eo. pose proof I as [L M H R]. destruct (hi_open _ _ H p o Eo) as [[h Hh] (w & Ew & Em & Et & _)].
  destruct (header_ops s a ch p o I (pending_open _ _ _ Eo)) as (x & Ex & Hget & Hput).
  destruct (send_hdrs_ok s a ch p o x h I Eo Ex Hh) as (s1 & E1 & SH). pose proof (hdr_sent _ _ _ _ _ _ _ _ I Eo Ex Hh SH) as H1.
  destruct (mi_open _ _ M p o Eo) as (Oo & Ow & Od). pose proof (amsg_bound' _ Oo) as Hb. pose proof (mo_len _ Oo) as Hl.
  destruct (sh_rel _ _ _ _ _ _ SH) as (B1 & B2 & B3 & B4 & B5).
  destruct (notify_ok s1 (iw_reader w) sig) as (t & Ett & En); [rewrite B3; by apply (ri_reader _ R p)|].
  rewrite B3 in Ett. unfold send. rewrite (it_writer_ok _ _ _ Ew), bind_Ok, Em. cbn [deref]. rewrite bind_Ok, Et, Ex, (Hget h Hh), bind_Ok.
  rewrite wrapu_small by (unfold PIECE_MAX in *; lia). rewrite (Hput s _ eq_refl), bind_Ok, E1, bind_Ok, En.
  eexists _, t, w. split; [reflexivity|]. split; [|split_and!; [done|done|]].
  2: { destruct (sig || th_recvRequiresSignal t); cbn; by rewrite B3. }
  assert (it_inv s1 (sent_msg a p o) ch) as I1.
  { split; [|split| |split]; rewrite ?B2, ?B3, ?B4; try done.
    - eapply lay_same; [done|done|by apply pending_sent|done].
    - intros m. unfold q_held. cbn. rewrite (app_assoc _ _ [o]), elem_of_app, list_elem_of_singleton. intros [Hm| ->]; [by apply M|by rewrite Ow].
    - cbn. intros q m [_ Eq]%lookup_delete_Some. by apply M.
    - apply R.
    - apply R. }
  destruct (sig || th_recvRequiresSignal t); [|done]. destruct I1 as [L1 M1 _ [R1 R2]].
  split; [by destruct L1; split|by destruct M1; split|by destruct H1; split|split; [done|]]. intros q v Ev. cbn. rewrite dom_insert_L. apply elem_of_union. right. by apply (R2 q).
Qed.

(** ** Waiting *)

Lemma wait_inv s a ch m ms : it_inv s a ch → q_sent a = m :: ms → q_cur a = None →
  ∃ x h s', wait s = Ok (Some (x, s')) ∧ am_hdr m = Some x ∧ it_inv s' (AQueue ms (Some m) (q_open a)) ch ∧
    get_header s' (Some x) = Ok h ∧ hdr_is s' m h ∧ ih_length h = am_len m.
Proof.
  intros I Es Ec. pose proof I as [L M H R].
  assert (m ∈ q_held a) as Hm by (apply sent_in_held; rewrite Es; by left).
  destruct (header_ops s a ch (am_writer m) m I (pending_held _ _ _ Hm eq_refl)) as (x & Ex & Hget & Hput).
  destruct (hi_sent _ _ H 0%nat m) as (h & Hh & El & En); [by rewrite Es|]. rewrite Es in En. cbn in En.
  pose proof (hi_head _ _ H) as Hd. rewrite Es in Hd. cbn in Hd. rewrite Ex in Hd.
  unfold wait. rewrite Hd, (Hget h Hh), bind_Ok. unfold set_next_header.
  assert (get_header (set_list s (ih_next h) (it_tail s)) (Some x) = Ok h) as -> by exact (Hget h Hh). rewrite bind_Ok.
  rewrite Hput by done. rewrite bind_Ok. set (h' := MkItHeader _ _ _ None). set (s' := set_headers _ _).
  assert (hdr_is s' m h') as Hh'.
  { destruct Hh as (y & w & Ey & Ew & Eh & A1 & A2). rewrite Ex in Ey. injection Ey as <-. exists x, w. split_and!; try done.
    apply lookup_insert_eq. }
  assert (∀ m' h0, am_hdr m' ≠ Some x → hdr_is s m' h0 → hdr_is s' m' h0) as Keep.
  { intros m' h0 Hne (y & w & Ey & Ew & Eh & A). exists y, w. split_and!; try done; [|apply A|apply A]. cbn.
    rewrite lookup_insert_ne; [done|congruence]. }
  exists x, h', s'. split; [done|]. split; [done|]. split; [|split; [exact (get_header_set (set_list s (ih_next h) (it_tail s)) x h h' (Hget h Hh))|done]].
  assert (q_held (AQueue ms (Some m) (q_open a)) = q_held a) as Eq by (unfold q_held; cbn; by rewrite Ec, Es).
  pose proof (hi_nodup _ _ H) as N. assert (q_held a = m :: ms) as Eqh by (unfold q_held; by rewrite Ec, Es). rewrite Eqh in N.
  split; [|split|split|]; rewrite ?Eq; try done.
  - apply (lay_same s s' a); [done|done| |exact L]. intros p. unfold pending. by rewrite Eq.
  - apply M.
  - apply M.
  - by rewrite Eqh.
  - apply H.
  - cbn. intros i m' Ei. destruct (hi_sent _ _ H (S i) m') as (h0 & X & Y & Z); [by rewrite Es|]. exists h0.
    split_and!; [|done|by rewrite Z, Es]. apply Keep; [|done]. intros E. cbn in N. apply NoDup_cons in N as [N _]. apply N.
    rewrite Ex, <- E. apply list_elem_of_fmap_2. by apply list_elem_of_lookup_2 in Ei.
  - cbn. intros m' [= <-]. by exists h'.
  - cbn. intros q m' Em. destruct (hi_open _ _ H q m' Em) as [[h0 X] Y]. split; [|done]. exists h0. apply Keep; [|done].
    intros E. apply (held_open_ne s a q m' m H Em Hm). congruence.
  - cbn. rewrite En. by destruct ms.
  - cbn. intros Hne. assert (q_sent a ≠ []) as Hs by (by rewrite Es). rewrite (hi_tail _ _ H Hs), Es.
    destruct ms as [|m1 ms]; done.
  - destruct R. by split.
Qed.

(** ** Reading and releasing *)

Lemma header_writer_ok s a ch m x h : it_inv s a ch → q_cur a = Some m → am_hdr m = Some x → hdr_is s m h →
  get_header s (Some x) = Ok h ∧ header_writer s (Some x) = Ok (am_writer m).
Proof.
  intros I Ec Ex Hh. assert (m ∈ q_held a) as Hm by (unfold q_held; rewrite Ec; cbn; by left).
  destruct (header_ops s a ch (am_writer m) m I (pending_held _ _ _ Hm eq_refl)) as (y & Ey & Hget & _). rewrite Ex in Ey. injection Ey as <-.
  split; [by apply Hget|]. unfold header_writer. rewrite (Hget h Hh), bind_Ok. destruct Hh as (y & w & _ & Ew & _ & _ & ->).
  destruct (ri_id _ (iv_reg _ _ _ I) _ _ Ew) as [Hid Ev]. rewrite (aget_lookup _ _ (Some (am_writer m))); [done|lia|done].
Qed.

Lemma pending_cur a m : q_cur a = Some m → pending a (am_writer m) = m :: pending (AQueue (q_sent a) None (q_open a)) (am_writer m).
Proof. intros E. unfold pending, q_held. rewrite E. cbn. by rewrite decide_True. Qed.

Lemma read_inv s a ch m SZ : it_inv s a ch → q_cur a = Some m → am_sizes m !! 1%nat = Some SZ →
  ∃ x p, am_hdr m = Some x ∧ itqRead s (Some x) SZ = Ok p ∧ am_ptrs m !! 1%nat = Some p.
Proof.
  intros I Ec Es. pose proof I as [L M H R]. destruct (hi_cur _ _ H m Ec) as (h & Hh & _). destruct (Hh) as (x & w & Ex & Ew & _).
  destruct (header_writer_ok s a ch m x h I Ec Ex Hh) as [_ Hw]. destruct (li_rep _ _ _ L _ _ Ew) as (bs & _ & W).
  rewrite (pending_cur a m Ec) in W. assert (amsg_ok m) as Om by (apply M; unfold q_held; rewrite Ec; cbn; by left).
  destruct (mo_sizes _ Om) as (SZ' & rest & Esz). rewrite Esz in Es. injection Es as ->.
  destruct (itqRead_ok s _ w bs m _ (Some x) SZ rest Hw Ew W Esz) as (p & E & Ep); [|by exists x, p].
  pose proof (mo_pieces _ Om) as F. rewrite Esz in F. apply Forall_cons in F as [_ F]. by apply Forall_cons in F as [F _].
Qed.

Lemma pending_released a p : q_cur a = None → pending a p = pending (AQueue (q_sent a) None (q_open a)) p.
Proof. intros E. unfold pending, q_held. by rewrite E. Qed.

Lemma blocks_fuel m bs : chain m bs → NoDup bs.*1 → (length bs ≤ size m)%nat.
Proof.
  intros C N. rewrite <- (length_fmap fst bs), <- (size_list_to_set (C := gset positive) _ N), <- size_dom. apply subseteq_size.
  intros b Hb%elem_of_list_to_set. by eapply chain_dom.
Qed.

Lemma release_inv s a ch m : it_inv s a ch → q_cur a = Some m →
  ∃ x s' ch', am_hdr m = Some x ∧ release (S (S (size (it_blocks s)))) s (Some x) = Ok s' ∧
    it_inv s' (AQueue (q_sent a) None (q_open a)) ch'.
Proof.
  intros I Ec. pose proof I as [L M H R]. destruct (hi_cur _ _ H m Ec) as (h & Hh & Hl). destruct (Hh) as (x & w & Ex & Ew & _).
  destruct (header_writer_ok s a ch m x h I Ec Ex Hh) as [Hg Hw]. destruct (li_rep _ _ _ L _ _ Ew) as (bs & Ebs & W).
  pose proof (pending_ok _ _ (am_writer m) M) as F. rewrite (pending_cur a m Ec) in W, F. pose proof F as [Om _]%Forall_cons.
  pose proof (blocks_fuel _ _ (wr_chain _ _ _ _ W) (wr_nodup _ _ _ _ W)) as Hf.
  destruct (release_ok s _ w bs m _ (Some x) h (S (S (size (it_blocks s)))) Hw Hg Hl (amsg_bound' _ Om) Ew W (pending_msgs _ F))
    as (m' & w' & bs' & gone & E & W' & Eg & Fr & Sw & Em); [lia|].
  set (s' := set_writer _ _ _) in E. set (a' := AQueue _ None _) in *. exists x, s', (<[am_writer m := bs']> ch). split; [done|]. split; [done|].
  assert (∀ h0 m0, hdr_is s m0 h0 → hdr_is s' m0 h0) as Keep.
  { intros h0 m0. apply hdr_is_writers; [done|]. apply (ids_insert _ _ w); [done|apply Sw]. }
  assert (q_held a = m :: q_held a') as Eq by (unfold q_held; by rewrite Ec). split.
  - eapply (lay_freed s s' a a' ch (am_writer m) w w'); try done. intros q Hq. unfold pending. rewrite Eq, filter_cons_False; [done|congruence].
  - destruct M as [M1 M2]. split; subst s'; cbn [it_writers set_writer]; rewrite (dom_update _ _ _ _ Ew); [|done]. intros m0 Hm0. apply M1. rewrite Eq. by right.
  - destruct H as [N ON S C O Hd T]. rewrite Eq in N, ON. split; try done.
    + by apply NoDup_cons in N as [_ N].
    + intros q o Eo Hin. apply (ON q o Eo). cbn. by right.
    + intros i m0 Ei. destruct (S i m0 Ei) as (h0 & X & Y). exists h0. split; [by apply Keep|done].
    + intros q o Eo. destruct (O q o Eo) as [[h0 X] (v & Ev & Y)]. split; [exists h0; by apply Keep|]. subst s'. cbn.
      destruct (decide (q = am_writer m)) as [->|Hq]; [|exists v; by rewrite lookup_insert_ne]. exists w'. rewrite lookup_insert_eq.
      rewrite Ew in Ev. injection Ev as <-. destruct Sw as (_ & _ & S3 & S4). rewrite Em, S3, S4. done.
  - by eapply reg_update.
Qed.

(** ** Registering *)

Lemma free_place_ok v : ∀ i j, free_place v i = Some j → i ≤ j ∧ v !! Z.to_nat (j - i) = Some None.
Proof.
  induction v as [|[p|] v IH]; intros i j H; cbn in H; [done| |].
  - destruct (IH _ _ H) as [Hj E]. split; [lia|]. replace (Z.to_nat (j - i)) with (S (Z.to_nat (j - (i + 1)))) by lia. exact E.
  - injection H as ->. split; [lia|]. by rewrite Z.sub_diag.
Qed.

Section Register.
Context (new : gset positive → positive) (new_fresh : ∀ D, new D ∉ D).

(** The place a new writer gets: no other writer's. *)
Lemma register_place s p : ∃ i v, 0 ≤ i ≤ Z.of_nat (length (it_writerVect s)) ∧
  match free_place (it_writerVect s) 0 with
  | Some i => v ← aset (it_writerVect s) i (Some p); Ok (i, v)
  | None => Ok (Z.of_nat (length (it_writerVect s)), it_writerVect s ++ [Some p])
  end = Ok (i, v) ∧ v !! Z.to_nat i = Some (Some p) ∧
  ∀ j q, it_writerVect s !! j = Some (Some q) → v !! j = Some (Some q).
Proof.
  destruct (free_place (it_writerVect s) 0) as [i|] eqn:E.
  - apply free_place_ok in E as [Hi E]. rewrite Z.sub_0_r in E. pose proof (lookup_lt_Some _ _ _ E) as Hlt.
    exists i, (<[Z.to_nat i := Some p]> (it_writerVect s)). rewrite aset_in_range by lia. rewrite bind_Ok. split_and!; [lia|lia|done| |].
    + by apply list_lookup_insert_eq.
    + intros j q Ej. rewrite list_lookup_insert_ne; [done|]. intros <-. rewrite E in Ej. done.
  - exists (Z.of_nat (length (it_writerVect s))), (it_writerVect s ++ [Some p]). split_and!; [lia|lia|done| |].
    + rewrite Nat2Z.id. by apply list_lookup_middle.
    + intros j q Ej. apply lookup_app_l_Some. done.
Qed.

Lemma register_inv s a ch r : it_inv s a ch → r ∈ dom (it_threads s) → Z.of_nat (length (it_writerVect s)) < 2 ^ 16 →
  ∃ p s', registerWriter new s r = Ok (p, s') ∧ (p ∉ dom (it_writers s)) ∧ it_inv s' a (<[p := []]> ch).
Proof.
  intros [L M H R] Hr Hv. unfold registerWriter. set (p := new (dom (it_writers s))).
  destruct (register_place s p) as (i & v & Hi & E & Ev & Keep). rewrite E, bind_Ok. set (w := with_id _ i). set (s' := set_writers _ _ _).
  pose proof (new_fresh (dom (it_writers s))) as Hf. fold p in Hf. exists p, s'. split; [done|]. split; [done|].
  assert (∀ q x, it_writers s !! q = Some x → it_writers s' !! q = Some x) as Kw.
  { intros q x Eq. subst s'. cbn. rewrite lookup_insert_ne; [done|]. intros <-. apply Hf. by eapply elem_of_dom_2. }
  assert (∀ m h, hdr_is s m h → hdr_is s' m h) as Kh.
  { intros m h. apply hdr_is_writers; [done|]. intros q x Eq. exists x. split; [by apply Kw|done]. }
  assert (pending a p = []) as Ep.
  { destruct (pending a p) as [|m ms] eqn:Epp; [done|]. exfalso. apply Hf, (pending_writer s a p m M). rewrite Epp. by left. }
  split.
  - destruct L as [L1 L2 L3 L4]. split.
    + subst s'. cbn. intros q x [[<- <-]|[Hne Eq]]%lookup_insert_Some; [exists []; rewrite lookup_insert_eq, Ep; split; [done|]; by split; try constructor|].
      destruct (L1 q x Eq) as (bs & Eb & W). exists bs. by rewrite lookup_insert_ne.
    + subst s'. cbn. by rewrite !dom_insert_L, L2.
    + intros q1 q2 b1 b2 [[<- <-]|[N1 E1]]%lookup_insert_Some [[<- <-]|[N2 E2]]%lookup_insert_Some Hne b Hb; try done.
      * by apply elem_of_nil in Hb.
      * by apply not_elem_of_nil.
      * by apply (L3 q1 q2 b1 b2).
    + intros b Hb. destruct (L4 b Hb) as (q & bs & Eq & Hin). exists q, bs. rewrite lookup_insert_ne; [done|]. intros <-.
      apply Hf. rewrite <- L2. by eapply elem_of_dom_2.
  - destruct M as [M1 M2]. subst s'. split; cbn; rewrite dom_insert_L; set_solver.
  - destruct H as [N ON S C O Hd T]. split; try done.
    + intros j m Ej. destruct (S j m Ej) as (h & X & Y). exists h. split; [by apply Kh|done].
    + intros m Em. destruct (C m Em) as (h & X & Y). exists h. split; [by apply Kh|done].
    + intros q m Em. destruct (O q m Em) as [[h X] (x & Ex & Y)]. split; [exists h; by apply Kh|]. exists x. split; [by apply Kw|done].
  - destruct R as [R1 R2]. split; subst s'; cbn; intros q x [[<- <-]|[Hne Eq]]%lookup_insert_Some; cbn; try done; try (by eapply R2).
    + split; [lia|done].
    + destruct (R1 q x Eq) as [? Ex]. split; [done|by apply Keep].
Qed.
End Register.

(** ** Threads using a queue *)

(** What a thread can do, in the order the generated code does it: a writer opens a
    message, adds fields and sends it; the reader waits, reads and releases. *)
Inductive iop :=
  | IRegister (reader : positive)
  | IOpen (p : positive) (ID SZ : Z)
  | IAlloc (p : positive) (n : Z)
  | ISend (p : positive) (sendSignal : bool)
  | IWait
  | IRead (header : addr) (SZ : Z)
  | IRelease (header : addr).

Inductive iout :=
  | ODone
  | OWriter (p : positive)
  | OPtr (a : addr)
  | OHeader (h : option addr).

Definition it_step (new : gset positive → positive) (s : ItState) (o : iop) : res (iout * ItState) :=
  match o with
  | IRegister r => '(p, s) ← registerWriter new s r; Ok (OWriter p, s)
  | IOpen p ID SZ => '(a, s) ← itqOpen new s p ID SZ; Ok (OPtr a, s)
  | IAlloc p n => '(a, s) ← allocBytes new s p n; Ok (OPtr a, s)
  | ISend p sig => s ← send s p sig; Ok (ODone, s)
  | IWait => r ← wait s; Ok (match r with Some (h, s) => (OHeader (Some h), s) | None => (OHeader None, s) end)
  | IRead h SZ => a ← itqRead s (Some h) SZ; Ok (OPtr a, s)
  | IRelease h => s ← release (S (S (size (it_blocks s)))) s (Some h); Ok (ODone, s)
  end.

Definition it_allowed (s : ItState) (a : aqueue) (o : iop) : Prop :=
  match o with
  | IRegister r => r ∈ dom (it_threads s) ∧ Z.of_nat (length (it_writerVect s)) < 2 ^ 16
  | IOpen p ID SZ => p ∈ dom (it_writers s) ∧ q_open a !! p = None ∧ 0 ≤ ID < 2 ^ 16 ∧ piece_ok SZ
  | IAlloc p n => (∃ m, q_open a !! p = Some m ∧ (length (am_sizes m) < PIECES_MAX)%nat) ∧ piece_ok n
  | ISend p _ => is_Some (q_open a !! p)
  | IWait => q_cur a = None
  | IRead h SZ => ∃ m, q_cur a = Some m ∧ am_hdr m = Some h ∧ am_sizes m !! 1%nat = Some SZ
  | IRelease h => ∃ m, q_cur a = Some m ∧ am_hdr m = Some h
  end.

(** The specification: what an operation may answer, and the state after.  Where a
    header is and how much padding the length of a message counts depends on the
    blocks; the specification takes them from the writer. *)
Definition it_spec (s' : ItState) (a : aqueue) (o : iop) (out : iout) (a' : aqueue) : Prop :=
  match o, out with
  | IRegister _, OWriter _ => a' = a
  | IOpen p ID SZ, OPtr msg => ∃ h len w, a' = with_open a p (AMsg p ID [SIZEOF_ItHeader; SZ] [h; msg] len) ∧
      it_writers s' !! p = Some w ∧ iw_toSend w = Some h ∧ iw_mlen w = Some len ∧ good_ptr s' a (h, SIZEOF_ItHeader) ∧ good_ptr s' a (msg, SZ)
  | IAlloc p n, OPtr x => ∃ m d w, q_open a !! p = Some m ∧ a' = with_open a p (am_grow m n x d) ∧
      it_writers s' !! p = Some w ∧ iw_mlen w = Some (am_len m + d) ∧ good_ptr s' a (x, n)
  | ISend p _, ODone => ∃ m, q_open a !! p = Some m ∧ a' = sent_msg a p m
  | IWait, OHeader None => q_sent a = [] ∧ a' = a
  | IWait, OHeader (Some h) => ∃ m ms hd, q_sent a = m :: ms ∧ am_hdr m = Some h ∧ a' = AQueue ms (Some m) (q_open a) ∧
      get_header s' (Some h) = Ok hd ∧ ih_msgId hd = am_id m ∧ ih_length hd = am_len m
  | IRead _ _, OPtr x => a' = a ∧ ∃ m, q_cur a = Some m ∧ am_ptrs m !! 1%nat = Some x
  | IRelease _, ODone => a' = AQueue (q_sent a) None (q_open a)
  | _, _ => False
  end.

Definition it_init (ths : gmap positive Thread) : ItState := MkItState ∅ ∅ ∅ ths None None [] [].

(** The states threads can bring a queue to, with what the specification says. *)
Inductive it_reach (new : gset positive → positive) : ItState → aqueue → Prop :=
  | reach_init ths : it_reach new (it_init ths) (AQueue [] None ∅)
  | reach_step s a o out s' a' : it_reach new s a → it_allowed s a o → it_step new s o = Ok (out, s') →
      it_spec s' a o out a' → it_reach new s' a'.

(** ** Every step *)

Section Runs.
Context (new : gset positive → positive) (new_fresh : ∀ D, new D ∉ D).

Lemma it_inv_init ths : it_inv (it_init ths) (AQueue [] None ∅) ∅.
Proof.
  split; split; cbn; try done.
  - intros m Hm. by apply elem_of_nil in Hm.
  - constructor.
Qed.

(** An operation that is allowed returns, answers what the specification says and
    leads to a state in which the invariant holds. *)
Lemma it_step_ok s a ch o : it_inv s a ch → it_allowed s a o →
  ∃ out s' a' ch', it_step new s o = Ok (out, s') ∧ it_spec s' a o out a' ∧ it_inv s' a' ch'.
Proof.
  intros I A. destruct o as [r|p ID SZ|p n|p sig| |h SZ|h]; cbn [it_allowed it_step] in *.
  - destruct A as [Hr Hv]. destruct (register_inv new new_fresh s a ch r I Hr Hv) as (p & s' & E & _ & I').
    rewrite E, bind_Ok. by eexists _, _, _, _.
  - destruct A as ([w Ew]%elem_of_dom & Eo & HID & HSZ).
    destruct (open_inv new new_fresh s a ch p w ID SZ I Ew Eo HID HSZ) as (h & msg & len & s' & ch' & E & I' & G1 & G2).
    rewrite E, bind_Ok. eexists _, _, _, ch'. split; [done|]. split; [|exact I'].
    destruct (hi_open _ _ (iv_hdr _ _ _ I') p _ (lookup_insert_eq _ _ _)) as [_ (w' & Ew' & Em & Et & _)]. by exists h, len, w'.
  - destruct A as ((m & Em & Hc) & Hn). destruct (alloc_inv new new_fresh s a ch p m n I Em Hn Hc) as (x & d & s' & ch' & E & I' & G).
    rewrite E, bind_Ok. eexists _, _, _, ch'. split; [done|]. split; [|exact I'].
    destruct (hi_open _ _ (iv_hdr _ _ _ I') p _ (lookup_insert_eq _ _ _)) as [_ (w' & Ew' & Ej & _)]. by exists m, d, w'.
  - destruct A as [m Em]. destruct (send_inv s a ch p m sig I Em) as (s' & t & w & E & I' & _). rewrite E, bind_Ok.
    eexists _, _, _, ch. split; [done|]. split; [by exists m|exact I'].
  - destruct (q_sent a) as [|m ms] eqn:Es.
    + unfold wait. rewrite (hi_head _ _ (iv_hdr _ _ _ I)), Es. cbn. by eexists _, _, _, ch.
    + destruct (wait_inv s a ch m ms I Es A) as (x & hd & s' & E & Ex & I' & Hg & Hh & Hl). rewrite E, bind_Ok.
      eexists _, _, _, ch. split; [done|]. split; [|exact I']. exists m, ms, hd. destruct Hh as (y & w & _ & _ & _ & Hi & _). done.
  - destruct A as (m & Em & Eh & Es). destruct (read_inv s a ch m SZ I Em Es) as (x & q & Ex & E & Ep). rewrite Eh in Ex. injection Ex as <-.
    rewrite E, bind_Ok. eexists _, _, a, ch. split; [done|]. split; [|done]. split; [done|]. by exists m.
  - destruct A as (m & Em & Eh). destruct (release_inv s a ch m I Em) as (x & s' & ch' & Ex & E & I'). rewrite Eh in Ex. injection Ex as <-.
    rewrite E, bind_Ok. by eexists _, _, _, ch'.
Qed.

(** The specification determines the state after. *)
Lemma it_spec_det s' a o out a1 a2 : it_spec s' a o out a1 → it_spec s' a o out a2 → a1 = a2.
Proof.
  destruct o as [r|p ID SZ|p n|p sig| |h SZ|h], out as [|q|x|[h'|]]; cbn; try done; intros H1 H2.
  - by subst.
  - destruct H1 as (h1 & l1 & w1 & -> & E1 & T1 & M1 & _), H2 as (h2 & l2 & w2 & -> & E2 & T2 & M2 & _). congruence.
  - destruct H1 as (m1 & d1 & w1 & O1 & -> & E1 & M1 & _), H2 as (m2 & d2 & w2 & O2 & -> & E2 & M2 & _).
    rewrite O1 in O2. injection O2 as <-. rewrite E1 in E2. injection E2 as <-. rewrite M1 in M2. injection M2 as M2. do 3 f_equal. lia.
  - destruct H1 as (m1 & O1 & ->), H2 as (m2 & O2 & ->). congruence.
  - destruct H1 as (m1 & ms1 & hd1 & S1 & _ & -> & _), H2 as (m2 & ms2 & hd2 & S2 & _ & -> & _). congruence.
  - destruct H1 as [_ ->], H2 as [_ ->]. done.
  - destruct H1 as [-> _], H2 as [-> _]. done.
  - by subst.
Qed.

Lemma it_reach_inv s a : it_reach new s a → ∃ ch, it_inv s a ch.
Proof.
  induction 1 as [ths|s a o out s' a' _ [ch I] A E S]; [exists ∅; apply it_inv_init|].
  destruct (it_step_ok s a ch o I A) as (out1 & s1 & a1 & ch1 & E1 & S1 & I1). rewrite E in E1. injection E1 as <- <-.
  rewrite (it_spec_det _ _ _ _ _ _ S S1). by exists ch1.
Qed.
End Runs.
