(* ===== verification/ItQueueProps.v ===== *)
(** * What queues between threads promise

    Every operation of every order of operations of the threads returns and answers
    as the specification says; memory goes back; a wake-up is not lost.  Last, what
    the operations do not survive when they overlap. *)

From S2P Require Import Prelude ItQueue ItQueueLayout ItQueueOps ItQueueSpec ItQueueRun.

Lemma size_list_to_set_le (l : list positive) : (size (list_to_set (C := gset positive) l) ≤ length l)%nat.
Proof.
  induction l as [|x l IH]; cbn [list_to_set length]; [done|]. rewrite size_union_alt, size_singleton.
  assert (size (list_to_set l ∖ {[x]} : gset positive) ≤ size (list_to_set l : gset positive))%nat by (apply subseteq_size; set_solver). lia.
Qed.

Lemma size_concat_le {A} (l : list (list A)) : Forall (λ x, (length x ≤ 1)%nat) l → (length (concat l) ≤ length l)%nat.
Proof. induction 1 as [|x l H _ IH]; cbn; [done|]. rewrite length_app. lia. Qed.

Section Props.
Context (new : gset positive → positive) (new_fresh : ∀ D, new D ∉ D).

(** C4: In every state that registering, opening, allocating, sending, waiting,
    reading and releasing, by any number of writers and one reader in any order, can
    lead to, the next such operation returns without undefined behaviour.  Pointers
    handed to writers are in live blocks and apart from everything in messages not
    yet released; messages arrive in the order they were sent, with their ids and
    lengths; and [itqRead] gives the reader the pointer [itqOpen] gave the writer. *)
Theorem queue_refines s a o : it_reach new s a → it_allowed s a o →
  ∃ out s' a', it_step new s o = Ok (out, s') ∧ it_spec s' a o out a'.
Proof.
  intros [ch I]%(it_reach_inv new new_fresh) A.
  destruct (it_step_ok new new_fresh s a ch o I A) as (out & s' & a' & ch' & E & S & _). by exists out, s', a'.
Qed.

(** When every message has been released, each writer is left with at most one
    block: all other blocks have been freed, and none more than once. *)
Theorem queue_memory_returned s a : it_reach new s a → q_sent a = [] → q_cur a = None → q_open a = ∅ →
  (size (it_blocks s) ≤ size (it_writers s))%nat.
Proof.
  intros [ch [L _ _ _]]%(it_reach_inv new new_fresh) E1 E2 E3. destruct L as [R D _ C].
  assert (∀ p bs, ch !! p = Some bs → (length bs ≤ 1)%nat) as Hl.
  { intros p bs Ep. assert (is_Some (it_writers s !! p)) as [w Ew] by (apply elem_of_dom; rewrite <- D; by eapply elem_of_dom_2).
    destruct (R p w Ew) as (bs' & Eb & W). rewrite Ep in Eb. injection Eb as <-. apply wr_laid in W.
    unfold pending, q_held in W. rewrite E1, E2, E3, lookup_empty in W. cbn in W. destruct W as [W _]. rewrite W. unfold tail_of. destruct (last bs); cbn; lia. }
  set (l := (λ x : positive * blks, x.2.*1) <$> map_to_list ch).
  assert (length l = size (it_writers s)) as El.
  { subst l. rewrite length_fmap, length_map_to_list, <- !size_dom, D. done. }
  assert (dom (it_blocks s) ⊆ list_to_set (C := gset positive) (concat l)) as Hs.
  { intros b Hb. destruct (C b Hb) as (p & bs & Ep & Hin). apply elem_of_list_to_set, list_elem_of_In, in_concat.
    exists bs.*1. split; apply list_elem_of_In; [|done]. subst l. apply list_elem_of_fmap. exists (p, bs). by rewrite elem_of_map_to_list. }
  apply subseteq_size in Hs. rewrite size_dom in Hs. etrans; [exact Hs|]. rewrite <- El. etrans; [apply size_list_to_set_le|].
  apply size_concat_le, Forall_forall. intros x (y & -> & Hy)%list_elem_of_fmap. rewrite length_fmap. destruct y as [p bs].
  apply elem_of_map_to_list in Hy. by eapply Hl.
Qed.

(** A send that asks for a signal, by its argument or because the reader has no other
    way to notice: the reader has got one by the time it is running. *)
Lemma send_wakes s a ch p m sig s' w t self : it_inv s a ch → q_open a !! p = Some m → send s p sig = Ok s' →
  it_writers s !! p = Some w → it_threads s !! iw_reader w = Some t → sig || th_recvRequiresSignal t = true →
  ∃ t', it_threads s' !! iw_reader w = Some t' ∧
    if th_pthread_this t =? 0 then ∃ s'' t'', initId s' (iw_reader w) self = Ok s'' ∧ it_threads s'' !! iw_reader w = Some t'' ∧
      th_signals t'' = S (th_signals t)
    else th_signals t' = S (th_signals t).
Proof.
  intros I Em E Ew Et Hs. destruct (send_inv s a ch p m sig I Em) as (s1 & t1 & w1 & E1 & _ & Ew1 & Et1 & Eth).
  rewrite E in E1. injection E1 as <-. rewrite Ew in Ew1. injection Ew1 as <-. rewrite Et in Et1. injection Et1 as <-.
  rewrite Hs in Eth. eexists. rewrite Eth, lookup_insert_eq. split; [done|]. destruct (th_pthread_this t =? 0); [|done].
  unfold initId. rewrite Eth, lookup_insert_eq. cbn [deref]. rewrite bind_Ok. eexists _, _. split; [done|]. cbn.
  rewrite lookup_insert_eq. done.
Qed.
End Props.

(** ** Witnesses *)

Definition demo_threads : gmap positive Thread := {[1%positive := MkThread 7 false false 0]}.

(** One more step from a reachable state. *)
Lemma reach_more (new : gset positive → positive) s a o : (∀ D, new D ∉ D) → it_reach new s a → it_allowed s a o →
  ∃ out s' a', it_step new s o = Ok (out, s') ∧ it_spec s' a o out a' ∧ it_reach new s' a'.
Proof.
  intros Hn R A. destruct (it_reach_inv new Hn _ _ R) as [ch I]. destruct (it_step_ok new Hn s a ch o I A) as (out & s' & a' & ch' & E & S & _).
  exists out, s', a'. split_and!; [done|done|]. by eapply reach_step.
Qed.

(** A queue with one writer, registered, and a message opened by it. *)
Lemma demo_opened : ∃ p s a m, it_reach fresh s a ∧ a = AQueue [] None {[p := m]} ∧ am_id m = 2 ∧ am_sizes m = [16; 24].
Proof.
  destruct (reach_more fresh _ _ (IRegister 1%positive) is_fresh (reach_init fresh demo_threads)) as (out & s & a & E & S & R).
  { split; [|done]. apply elem_of_dom. by eexists. }
  destruct out as [|p|x|h]; cbn in S; try done. subst a. cbn [it_step] in E. inv_res. rename E0 into E.
  assert (p ∈ dom (it_writers s)) as Hp.
  { unfold registerWriter in E. inv_res. apply elem_of_dom. cbn. rewrite lookup_insert_eq. by eexists. }
  destruct (reach_more fresh _ _ (IOpen p 2 24) is_fresh R) as (out & s' & a' & E' & S' & R'); [by repeat split|].
  destruct out as [|q|x|h]; cbn in S'; try done. destruct S' as (h & len & w & -> & _).
  by eexists p, s', _, _.
Qed.

(** The same, sent. *)
Lemma demo_sent : ∃ s m, it_reach fresh s (AQueue [m] None ∅) ∧ am_id m = 2 ∧ am_sizes m = [16; 24].
Proof.
  destruct demo_opened as (p & s & a & m & R & -> & Ei & Es).
  destruct (reach_more fresh s _ (ISend p false) is_fresh R) as (out & s1 & a1 & E1 & S1 & R1); [exists m; apply lookup_singleton_eq|].
  destruct out; cbn in S1; try done. destruct S1 as (m' & Em' & ->). rewrite lookup_singleton_eq in Em'. injection Em' as <-.
  exists s1, m. split; [|done]. unfold sent_msg in R1. cbn in R1. by rewrite delete_singleton_eq in R1.
Qed.

Lemma queue_refines_witness : ∃ s m out s' a', it_reach fresh s (AQueue [m] None ∅) ∧ am_id m = 2 ∧
  it_step fresh s IWait = Ok (out, s') ∧ it_spec s' (AQueue [m] None ∅) IWait out a'.
Proof.
  destruct demo_sent as (s & m & R & Ei & _).
  destruct (queue_refines fresh is_fresh s (AQueue [m] None ∅) IWait R eq_refl) as (out & s' & a' & E & S). by exists s, m, out, s', a'.
Defined.

Lemma queue_memory_returned_witness : ∃ s a, it_reach fresh s a ∧ (size (it_blocks s) ≤ size (it_writers s))%nat.
Proof.
  destruct demo_sent as (s & m & R & _ & _).
  destruct (reach_more fresh s _ IWait is_fresh R eq_refl) as (out & s1 & a1 & _ & S1 & R1).
  destruct out as [| | |[h|]]; cbn in S1; try done; [|by destruct S1].
  destruct S1 as (m1 & ms & hd & [= <- <-] & Eh & -> & _).
  destruct (reach_more fresh s1 _ (IRelease h) is_fresh R1) as (out & s2 & a2 & _ & S2 & R2); [by exists m|].
  destruct out; cbn in S2; try done. subst a2. exists s2, (AQueue [] None ∅). split; [exact R2|].
  apply (queue_memory_returned fresh is_fresh s2 (AQueue [] None ∅) R2); reflexivity.
Defined.

(** ** Overlapping operations

    [release] and [allocBytes] change the same fields of the writer and take no
    lock.  Here a message fills its block to the last byte.  The writer of the next
    one has seen that there is no room left and is about to move on, when the
    reader, releasing the first, frees the block and sets [tblk] to null. *)

Definition full_run : res (ItState * addr) :=
  '(p, s) ← registerWriter fresh (it_init demo_threads) 1%positive;
  '(_, s) ← itqOpen fresh s p 2 (IT_BLOCK_SZ - SIZEOF_ItHeader);
  s ← send s p false;
  r ← wait s;
  match r with Some (h, s) => Ok (s, h) | None => Ub end.

Example release_races_alloc :
  ∃ s h s', full_run = Ok (s, h) ∧ release 3 s (Some h) = Ok s' ∧
    is_ok (make_room fresh s 1%positive SIZEOF_ItHeader) = true ∧
    next_block fresh s' 1%positive SIZEOF_ItHeader 0 = Ub.
Proof. eexists _, _, _. split; [vm_compute; reflexivity|]. split; [vm_compute; reflexivity|]. split; vm_compute; reflexivity. Qed.
