(* ===== verification/Rope.v ===== *)
(** * Ropes

    A rope is a list of blocks of bytes.  The programs use the ropes of the library
    aapl, which is not part of the repository: they walk the blocks themselves and
    take bytes off the front, and leave appending to the library.  Here a block is
    what [data], [length] and [available] show of it, a rope its blocks from [hblk]
    on and [ropeLen].  The library's operations are an interface, with what the
    programs rely on as its laws: [append] puts the bytes it is given next to each
    other, in the last block when they fit there and in a new one when not. *)

From S2P Require Import Prelude.

(** The bytes from [hoff] on, and the room behind them. *)
Record RopeBlock := MkRopeBlock {
  rb_data : list Z;
  rb_avail : Z;
}.

Record Rope := MkRope {
  r_blocks : list RopeBlock;
  r_ropeLen : Z;
}.

Definition rope_none : Rope := MkRope [] 0.

Definition rb_length (rb : RopeBlock) : Z := Z.of_nat (length (rb_data rb)).

(** [rb->hoff += n] *)
Definition rb_advance (n : Z) (rb : RopeBlock) : RopeBlock :=
  MkRopeBlock (drop (Z.to_nat n) (rb_data rb)) (rb_avail rb).

Definition rope_bytes (r : Rope) : list Z := concat (rb_data <$> r_blocks r).

(** [tblk] *)
Definition r_tblk (r : Rope) : option RopeBlock := last (r_blocks r).

(** Whether [n] bytes fit in the last block. *)
Definition rope_fits (r : Rope) (n : Z) : bool :=
  match r_tblk r with Some b => n <=? rb_avail b | None => false end.

(** ** The library *)

Class RopeLib := {
  (** [append( data, len )] *)
  rope_append : Rope → list Z → Rope;
  (** What is in the memory [append( 0, n )] and [appendBlock( n )] hand out. *)
  rope_fresh : Rope → nat → list Z;
  (** [appendBlock( n )] *)
  rope_appendBlock : Rope → nat → Rope;
  (** [append( other )] and [transfer( other )]: the blocks of the other rope are
      moved, and it is left empty. *)
  rope_append_rope : Rope → Rope → Rope;
  rope_transfer : Rope → Rope → Rope;

  rope_fresh_length r n : length (rope_fresh r n) = n;
  rope_append_fits r d bs b : r_blocks r = bs ++ [b] → Z.of_nat (length d) ≤ rb_avail b →
    r_blocks (rope_append r d) = bs ++ [MkRopeBlock (rb_data b ++ d) (rb_avail b - Z.of_nat (length d))];
  rope_append_new r d : rope_fits r (Z.of_nat (length d)) = false →
    ∃ a, 0 ≤ a ∧ r_blocks (rope_append r d) = r_blocks r ++ [MkRopeBlock d a];
  rope_append_len r d : r_ropeLen (rope_append r d) = r_ropeLen r + Z.of_nat (length d);
  rope_appendBlock_new r n : ∃ a, 0 ≤ a ∧
    r_blocks (rope_appendBlock r n) = r_blocks r ++ [MkRopeBlock (rope_fresh r n) a];
  rope_appendBlock_len r n : r_ropeLen (rope_appendBlock r n) = r_ropeLen r + Z.of_nat n;
  rope_append_rope_blocks r o : r_blocks (rope_append_rope r o) = r_blocks r ++ r_blocks o;
  rope_append_rope_len r o : r_ropeLen (rope_append_rope r o) = r_ropeLen r + r_ropeLen o;
  rope_transfer_all r o : rope_transfer r o = o;
}.

(** ** Well-formed ropes *)

Definition rope_ok (r : Rope) : Prop := r_ropeLen r = Z.of_nat (length (rope_bytes r)).

Lemma rope_none_ok : rope_ok rope_none.
Proof. done. Qed.

Lemma concat_fmap_app {A} (f : A → list Z) l1 l2 : concat (f <$> (l1 ++ l2)) = concat (f <$> l1) ++ concat (f <$> l2).
Proof. by rewrite fmap_app, concat_app. Qed.

Lemma rope_bytes_cons b bs n : rope_bytes (MkRope (b :: bs) n) = rb_data b ++ rope_bytes (MkRope bs n).
Proof. done. Qed.

Section Lib.
Context `{RopeLib}.

Lemma rope_append_bytes r d : rope_bytes (rope_append r d) = rope_bytes r ++ d.
Proof.
  unfold rope_bytes. destruct (rope_fits r (Z.of_nat (length d))) eqn:F.
  - unfold rope_fits, r_tblk in F. destruct (last (r_blocks r)) as [b|] eqn:E; [|done].
    apply last_Some in E as [bs E]. apply Z.leb_le in F. rewrite (rope_append_fits r d bs b E F), E.
    rewrite !concat_fmap_app. cbn. by rewrite !app_nil_r, <- app_assoc.
  - destruct (rope_append_new r d F) as (a & _ & ->). rewrite concat_fmap_app. cbn. by rewrite app_nil_r.
Qed.

Lemma rope_append_ok r d : rope_ok r → rope_ok (rope_append r d).
Proof. unfold rope_ok. intros E. rewrite rope_append_len, rope_append_bytes, length_app, E. lia. Qed.

Lemma rope_append_rope_bytes r o : rope_bytes (rope_append_rope r o) = rope_bytes r ++ rope_bytes o.
Proof. unfold rope_bytes. by rewrite rope_append_rope_blocks, concat_fmap_app. Qed.

Lemma rope_append_rope_ok r o : rope_ok r → rope_ok o → rope_ok (rope_append_rope r o).
Proof. unfold rope_ok. intros E1 E2. rewrite rope_append_rope_len, rope_append_rope_bytes, length_app, E1, E2. lia. Qed.
End Lib.

#[export] Hint Resolve rope_none_ok rope_append_ok rope_append_rope_ok : netp.

(** ** A library that satisfies the laws: blocks of 64 bytes, or as long as needed. *)

Definition block_room (n : nat) : Z := Z.max 0 (64 - Z.of_nat n).

Definition demo_new (r : Rope) (d : list Z) : Rope :=
  MkRope (r_blocks r ++ [MkRopeBlock d (block_room (length d))]) (r_ropeLen r + Z.of_nat (length d)).

Definition demo_append (r : Rope) (d : list Z) : Rope :=
  if rope_fits r (Z.of_nat (length d)) then
    match r_tblk r with
    | Some b => MkRope (removelast (r_blocks r) ++ [MkRopeBlock (rb_data b ++ d) (rb_avail b - Z.of_nat (length d))])
                  (r_ropeLen r + Z.of_nat (length d))
    | None => r
    end
  else demo_new r d.

#[export] Program Instance demo_rope : RopeLib := {
  rope_append := demo_append;
  rope_fresh r n := replicate n 170;
  rope_appendBlock r n := demo_new r (replicate n 170);
  rope_append_rope r o := MkRope (r_blocks r ++ r_blocks o) (r_ropeLen r + r_ropeLen o);
  rope_transfer r o := o;
}.
Next Obligation. intros r n. apply length_replicate. Qed.
Next Obligation.
  intros r d bs b E F. unfold demo_append, rope_fits, r_tblk. rewrite E, last_snoc.
  apply Z.leb_le in F. rewrite F. cbn [r_blocks]. by rewrite removelast_last.
Qed.
Next Obligation. intros r d F. unfold demo_append. rewrite F. exists (block_room (length d)). split; [unfold block_room; lia|done]. Qed.
Next Obligation.
  intros r d. unfold demo_append. destruct (rope_fits r _) eqn:F; [|done].
  unfold rope_fits in F. by destruct (r_tblk r).
Qed.
Next Obligation. intros r n. exists (block_room (length (replicate n 170))). split; [unfold block_room; lia|done]. Qed.
Next Obligation. intros r n. cbn. by rewrite length_replicate. Qed.
Next Obligation. done. Qed.
Next Obligation. done. Qed.
Next Obligation. done. Qed.
