(* ===== verification/Conn.v ===== *)
(** * genf/connection.cc, process.cc, tls.cc: descriptors and write buffers

    A connection reads and writes a descriptor, directly or through TLS.  What the
    other side and the kernel do is in [Peer]: whether our
    end is open, the bytes that have come in and not been read, the bytes taken from
    us by write(2) and by SSL_write, and, for each read and write to come, how
    much of it will go through or how it will fail.  A [WriteBuffer] keeps what a
    descriptor did not take and writes it when the descriptor is ready; the object it
    writes through is behind the interface [WriteFuncs]. *)

From S2P Require Import Prelude Rope.

(** ** The descriptor *)

Definition EAGAIN : Z := 11.
Definition EWOULDBLOCK : Z := 11.
Definition EBADF : Z := 9.
Definition SSL_ERROR_WANT_READ : Z := 2.
Definition SSL_ERROR_WANT_WRITE : Z := 3.

(** What a call will return: a count, at most what the call asks for, or, when the
    count is not positive, the count and the error. *)
Record IoResult := MkIo {
  io_n : Z;
  io_errno : Z;
}.

Record Peer := MkPeer {
  io_open : bool;
  io_in : list Z;
  io_out : list Z;
  io_tls : list Z;
  io_reads : list IoResult;
  io_writes : list IoResult;
}.

(** read(2), and SSL_read with its own code for having nothing to read.  The result
    is the bytes read, the count returned and the error. *)
Definition sys_read (again : Z) (p : Peer) (len : Z) : list Z * Z * Z * Peer :=
  if negb (io_open p) then ([], -1, EBADF, p)
  else match io_reads p with
  | [] => ([], -1, again, p)
  | e :: rest =>
      let p' i := MkPeer true i (io_out p) (io_tls p) rest (io_writes p) in
      if io_n e <=? 0 then ([], io_n e, io_errno e, p' (io_in p))
      else
        let n := Z.min (Z.min (io_n e) len) (Z.of_nat (length (io_in p))) in
        if n <=? 0 then ([], -1, again, p' (io_in p))
        else (take (Z.to_nat n) (io_in p), n, 0, p' (drop (Z.to_nat n) (io_in p)))
  end.

(** How much of the next write goes through: the count returned, the error. *)
Definition next_write (again : Z) (p : Peer) (len : Z) : Z * Z * Peer :=
  if negb (io_open p) then (-1, EBADF, p)
  else match io_writes p with
  | [] => (-1, again, p)
  | e :: rest =>
      let p' := MkPeer true (io_in p) (io_out p) (io_tls p) (io_reads p) rest in
      if io_n e <=? 0 then (io_n e, io_errno e, p') else (Z.min (io_n e) len, 0, p')
  end.

(** write(2) and SSL_write *)
Definition sys_write (p : Peer) (data : list Z) : Z * Z * Peer :=
  let '(n, err, p) := next_write EAGAIN p (Z.of_nat (length data)) in
  (n, err, MkPeer (io_open p) (io_in p) (io_out p ++ take (Z.to_nat n) data) (io_tls p) (io_reads p) (io_writes p)).

Definition SSL_write (p : Peer) (data : list Z) : Z * Z * Peer :=
  let '(n, err, p) := next_write SSL_ERROR_WANT_WRITE p (Z.of_nat (length data)) in
  (n, err, MkPeer (io_open p) (io_in p) (io_out p) (io_tls p ++ take (Z.to_nat n) data) (io_reads p) (io_writes p)).

(** close(2) *)
Definition sys_close (p : Peer) : Peer :=
  MkPeer false (io_in p) (io_out p) (io_tls p) (io_reads p) (io_writes p).

(** ** SelectFd *)

Module Fd.
Inductive State := Lookup | Connect | TlsAccept | TlsConnect | TlsEstablished | Established.
End Fd.

#[export] Instance fd_state_eq_dec : EqDecision Fd.State.
Proof. solve_decision. Defined.

(** [sf_ssl]: whether there is an SSL object. *)
Record SelectFd := MkSelectFd {
  sf_state : Fd.State;
  sf_fd : Z;
  sf_ssl : bool;
  sf_wantRead : bool;
  sf_wantWrite : bool;
  sf_closed : bool;
  sf_tlsWantRead : bool;
  sf_tlsWantWrite : bool;
  sf_tlsEstablished : bool;
  sf_tlsWriteWantsRead : bool;
  sf_tlsReadWantsWrite : bool;
}.

(** The constructor sets all but the state, which its callers set next. *)
Definition new_SelectFd (fd : Z) (st : Fd.State) : SelectFd :=
  MkSelectFd st fd false false false false false false false false false.

Definition set_closed (f : SelectFd) : SelectFd :=
  MkSelectFd (sf_state f) (sf_fd f) (sf_ssl f) (sf_wantRead f) (sf_wantWrite f) true (sf_tlsWantRead f) (sf_tlsWantWrite f)
    (sf_tlsEstablished f) (sf_tlsWriteWantsRead f) (sf_tlsReadWantsWrite f).
Definition set_tlsWriteWantsRead (f : SelectFd) (v : bool) : SelectFd :=
  MkSelectFd (sf_state f) (sf_fd f) (sf_ssl f) (sf_wantRead f) (sf_wantWrite f) (sf_closed f) (sf_tlsWantRead f) (sf_tlsWantWrite f)
    (sf_tlsEstablished f) v (sf_tlsReadWantsWrite f).
Definition set_tlsReadWantsWrite (f : SelectFd) (v : bool) : SelectFd :=
  MkSelectFd (sf_state f) (sf_fd f) (sf_ssl f) (sf_wantRead f) (sf_wantWrite f) (sf_closed f) (sf_tlsWantRead f) (sf_tlsWantWrite f)
    (sf_tlsEstablished f) (sf_tlsWriteWantsRead f) v.

Definition wantReadGet (f : SelectFd) : bool :=
  if negb (sf_tlsEstablished f) then sf_wantRead f
  else sf_tlsWantRead f || (sf_tlsWantWrite f && sf_tlsWriteWantsRead f).

Definition wantWriteGet (f : SelectFd) : bool :=
  if negb (sf_tlsEstablished f) then sf_wantWrite f
  else sf_tlsWantWrite f || (sf_tlsWantRead f && sf_tlsReadWantsWrite f).

Definition wantReadSet (f : SelectFd) (v : bool) : SelectFd :=
  if negb (sf_tlsEstablished f) then
    MkSelectFd (sf_state f) (sf_fd f) (sf_ssl f) v (sf_wantWrite f) (sf_closed f) (sf_tlsWantRead f) (sf_tlsWantWrite f)
      (sf_tlsEstablished f) (sf_tlsWriteWantsRead f) (sf_tlsReadWantsWrite f)
  else
    MkSelectFd (sf_state f) (sf_fd f) (sf_ssl f) (sf_wantRead f) (sf_wantWrite f) (sf_closed f) v (sf_tlsWantWrite f)
      (sf_tlsEstablished f) (sf_tlsWriteWantsRead f) (sf_tlsReadWantsWrite f).

Definition wantWriteSet (f : SelectFd) (v : bool) : SelectFd :=
  if negb (sf_tlsEstablished f) then
    MkSelectFd (sf_state f) (sf_fd f) (sf_ssl f) (sf_wantRead f) v (sf_closed f) (sf_tlsWantRead f) (sf_tlsWantWrite f)
      (sf_tlsEstablished f) (sf_tlsWriteWantsRead f) (sf_tlsReadWantsWrite f)
  else
    MkSelectFd (sf_state f) (sf_fd f) (sf_ssl f) (sf_wantRead f) (sf_wantWrite f) (sf_closed f) (sf_tlsWantRead f) v
      (sf_tlsEstablished f) (sf_tlsWriteWantsRead f) (sf_tlsReadWantsWrite f).

(** ** Connection

    [c_fd] is the SelectFd the connection was given; it stays on the thread's list
    when the connection lets go of it, which is [c_selectFd] false: a null pointer. *)
Record Connection := MkConnection {
  c_fd : SelectFd;
  c_selectFd : bool;
  c_tlsConnect : bool;
  c_closed : bool;
  c_peer : Peer;
}.

Definition c_set_fd (c : Connection) (f : SelectFd) : Connection :=
  MkConnection f (c_selectFd c) (c_tlsConnect c) (c_closed c) (c_peer c).
Definition c_set_peer (c : Connection) (p : Peer) : Connection :=
  MkConnection (c_fd c) (c_selectFd c) (c_tlsConnect c) (c_closed c) p.

(** [*selectFd] *)
Definition selectFd (c : Connection) : res SelectFd := if c_selectFd c then Ok (c_fd c) else Ub.

Definition isEstablished (c : Connection) : bool :=
  c_selectFd c && (bool_decide (sf_state (c_fd c) = Fd.Established) || bool_decide (sf_state (c_fd c) = Fd.TlsEstablished)).

(** OpenSSL does not survive a null SSL object. *)
Definition the_ssl (f : SelectFd) : res unit := if sf_ssl f then Ok tt else Ub.

Definition tlsRead (c : Connection) (len : Z) : res (list Z * Z * Connection) :=
  f ← selectFd c;
  let f := set_tlsReadWantsWrite f false in
  _ ← the_ssl f;
  let '(data, nbytes, err, p) := sys_read SSL_ERROR_WANT_READ (c_peer c) len in
  let c := c_set_peer c p in
  if 0 <? nbytes then Ok (data, nbytes, c_set_fd c f)
  else if err =? SSL_ERROR_WANT_WRITE then Ok ([], 0, c_set_fd c (set_tlsReadWantsWrite f true))
  else if err =? SSL_ERROR_WANT_READ then Ok ([], 0, c_set_fd c f)
  else Ok ([], -1, c_set_fd c f).

Definition tlsWrite (c : Connection) (data : list Z) : res (Z * Connection) :=
  if Z.of_nat (length data) <=? 0 then Ok (0, c)
  else
    f ← selectFd c;
    let f := set_tlsWriteWantsRead f false in
    _ ← the_ssl f;
    let '(nbytes, err, p) := SSL_write (c_peer c) data in
    let c := c_set_peer c p in
    if nbytes <=? 0 then
      if err =? SSL_ERROR_WANT_WRITE then Ok (0, c_set_fd c f)
      else if err =? SSL_ERROR_WANT_READ then Ok (0, c_set_fd c (set_tlsWriteWantsRead f true))
      else Ok (-1, c_set_fd c f)
    else Ok (nbytes, c_set_fd c f).

(** -1: EOF, 0: try again, positive: data. *)
Definition conn_read (c : Connection) (len : Z) : res (list Z * Z * Connection) :=
  if c_tlsConnect c then tlsRead c len
  else
    _ ← selectFd c;
    let '(data, r, err, p) := sys_read EAGAIN (c_peer c) len in
    let c := c_set_peer c p in
    if r <? 0 then
      if (err =? EAGAIN) || (err =? EWOULDBLOCK) then Ok ([], 0, c) else Ok ([], -1, c)
    else if r =? 0 then Ok ([], -1, c)
    else Ok (data, r, c).

(** The result of write(2), as WriteBuffer::write and Connection::write turn it. *)
Definition write_result (r err : Z) : Z :=
  if r <? 0 then if (err =? EAGAIN) || (err =? EWOULDBLOCK) then 0 else -1 else r.

Definition conn_write (c : Connection) (data : list Z) : res (Z * Connection) :=
  if c_tlsConnect c then tlsWrite c data
  else
    _ ← selectFd c;
    let '(r, err, p) := sys_write (c_peer c) data in
    Ok (write_result r err, c_set_peer c p).

Definition conn_close (c : Connection) : Connection :=
  if c_selectFd c then MkConnection (set_closed (c_fd c)) false (c_tlsConnect c) true (sys_close (c_peer c))
  else MkConnection (c_fd c) false (c_tlsConnect c) true (c_peer c).

(** ** Write buffers *)

Record WriteBuffer := MkWriteBuffer {
  wb_queue : Rope;
  wb_closeOnFlushed : bool;
}.

Definition new_WriteBuffer : WriteBuffer := MkWriteBuffer rope_none false.

Definition set_queue (w : WriteBuffer) (q : Rope) : WriteBuffer := MkWriteBuffer q (wb_closeOnFlushed w).

(** The object a write buffer belongs to: its descriptor, and the two virtual
    functions of WriteFuncs. *)
Class WriteFuncs (S : Type) := {
  wf_fd : S → res SelectFd;
  wf_set_fd : S → SelectFd → S;
  wf_peer : S → Peer;
  wf_set_peer : S → Peer → S;
  bufWrite : S → list Z → res (Z * S);
  bufClose : S → res S;
}.

Section WriteBuffer.
Context `{RopeLib} {S : Type} `{WriteFuncs S}.
Implicit Types (s : S) (w : WriteBuffer).

(** WriteBuffer::write: straight to the descriptor. *)
Definition wb_write s (data : list Z) : res (Z * S) :=
  _ ← wf_fd s;
  let '(r, err, p) := sys_write (wf_peer s) data in
  Ok (write_result r err, wf_set_peer s p).

Definition want_write s (v : bool) : res S :=
  f ← wf_fd s; Ok (wf_set_fd s (wantWriteSet f v)).

(** WriteBuffer::send of bytes. *)
Definition wb_send_bytes s w (data : list Z) : res (S * WriteBuffer) :=
  f ← wf_fd s;
  if wantWriteGet f then Ok (s, set_queue w (rope_append (wb_queue w) data))
  else
    '(r, s) ← wb_write s data;
    if r <? 0 then s ← bufClose s; Ok (s, w)
    else if r <? Z.of_nat (length data) then
      s ← want_write s true;
      Ok (s, set_queue w (rope_append (wb_queue w) (drop (Z.to_nat r) data)))
    else Ok (s, w).

(** [queue.append( blocks.data(rb), blocks.length(rb) )] for the blocks from one on. *)
Definition append_blocks (q : Rope) (rbs : list RopeBlock) : Rope :=
  foldl (λ q rb, rope_append q (rb_data rb)) q rbs.

(** [rb->hoff += res; blocks.ropeLen -= res], rb being the first block. *)
Definition advance_head (r : Rope) (n : Z) : Rope :=
  MkRope (match r_blocks r with [] => [] | rb :: rbs => rb_advance n rb :: rbs end) (r_ropeLen r - n).

(** Consume the head block, of which [n] bytes were left. *)
Definition consume_head (r : Rope) (n : Z) : Rope := MkRope (tail (r_blocks r)) (r_ropeLen r - n).

(** A block was written short: queue the rest of it and of the message. *)
Definition queue_rest w (blocks : Rope) (rb : RopeBlock) (rbs : list RopeBlock) (n : Z) (canConsume : bool)
    : WriteBuffer * Rope :=
  if canConsume then
    (set_queue w (rope_append_rope (wb_queue w) (advance_head blocks n)), rope_none)
  else
    (set_queue w (append_blocks (rope_append (wb_queue w) (drop (Z.to_nat n) (rb_data rb))) rbs), blocks).

(** The loop of WriteBuffer::send, from block [rbs] of [blocks] on. *)
Fixpoint send_loop (rbs : list RopeBlock) s w (blocks : Rope) (canConsume : bool) : res (S * WriteBuffer * Rope) :=
  match rbs with
  | [] => Ok (s, w, blocks)
  | rb :: rbs =>
      '(n, s) ← bufWrite s (rb_data rb);
      if n <? 0 then s ← bufClose s; Ok (s, w, blocks)
      else if n <? rb_length rb then
        let '(w, blocks) := queue_rest w blocks rb rbs n canConsume in
        s ← want_write s true;
        Ok (s, w, blocks)
      else send_loop rbs s w (if canConsume then consume_head blocks n else blocks) canConsume
  end.

(** WriteBuffer::send of a rope. *)
Definition wb_send s w (blocks : Rope) (canConsume : bool) : res (S * WriteBuffer * Rope) :=
  f ← wf_fd s;
  if wantWriteGet f then
    if canConsume then Ok (s, set_queue w (rope_append_rope (wb_queue w) blocks), rope_none)
    else Ok (s, set_queue w (append_blocks (wb_queue w) (r_blocks blocks)), blocks)
  else send_loop (r_blocks blocks) s w blocks canConsume.

(** [::close( selectFd->fd ); selectFd->closed = true] *)
Definition close_fd s : res S :=
  f ← wf_fd s; Ok (wf_set_fd (wf_set_peer s (sys_close (wf_peer s))) (set_closed f)).

Definition sendEos s w : res (S * WriteBuffer) :=
  f ← wf_fd s;
  if wantWriteGet f then Ok (s, MkWriteBuffer (wb_queue w) true)
  else s ← close_fd s; Ok (s, w).

(** The loop of WriteBuffer::writeReady; [rbs] are the blocks of the queue. *)
Fixpoint flush_loop (rbs : list RopeBlock) s w : res (S * WriteBuffer) :=
  match rbs with
  | [] => if wb_closeOnFlushed w then s ← close_fd s; Ok (s, w) else Ok (s, w)
  | rb :: rbs =>
      '(n, s) ← bufWrite s (rb_data rb);
      if n <? 0 then s ← bufClose s; Ok (s, w)
      else if n <? rb_length rb then Ok (s, set_queue w (advance_head (wb_queue w) n))
      else flush_loop rbs s (set_queue w (consume_head (wb_queue w) n))
  end.

Definition writeReady s w : res (S * WriteBuffer) :=
  if r_ropeLen (wb_queue w) =? 0 then
    s ← want_write s false;
    Ok (s, set_queue w rope_none)
  else flush_loop (r_blocks (wb_queue w)) s w.
End WriteBuffer.

(** ** Processes *)

(** Process: what is written goes to the descriptor [to]. *)
Record Process := MkProcess {
  pr_to : SelectFd;
  pr_peer : Peer;
}.

Definition pr_set_fd (s : Process) (f : SelectFd) : Process := MkProcess f (pr_peer s).
Definition pr_set_peer (s : Process) (p : Peer) : Process := MkProcess (pr_to s) p.

Definition pr_bufWrite (s : Process) (data : list Z) : Z * Process :=
  let '(r, err, p) := sys_write (pr_peer s) data in (write_result r err, pr_set_peer s p).

Definition pr_bufClose (s : Process) : Process :=
  let f := pr_to s in
  MkProcess (MkSelectFd (sf_state f) (sf_fd f) (sf_ssl f) (sf_wantRead f) (sf_wantWrite f) false (sf_tlsWantRead f) (sf_tlsWantWrite f)
    (sf_tlsEstablished f) (sf_tlsWriteWantsRead f) (sf_tlsReadWantsWrite f)) (sys_close (pr_peer s)).

#[export] Instance process_funcs : WriteFuncs Process := {
  wf_fd s := Ok (pr_to s);
  wf_set_fd := pr_set_fd;
  wf_peer := pr_peer;
  wf_set_peer := pr_set_peer;
  bufWrite s d := Ok (pr_bufWrite s d);
  bufClose s := Ok (pr_bufClose s);
}.
