(* ===== verification/ConnProps.v ===== *)
(** * What write buffers promise

    Whatever the descriptor takes of each write, the bytes it has taken and the
    bytes queued are the bytes sent, in order; the queue is written when the
    descriptor is ready.  The proofs are against the interface of the object a
    buffer belongs to; processes implement it here, packet connections later. *)

From S2P Require Import Prelude Rope Conn.

(** ** The interface *)

(** A write changes nothing of the descriptor's flags but this one. *)
Definition same_wants (f f' : SelectFd) : Prop := f' = set_tlsWriteWantsRead f (sf_tlsWriteWantsRead f').

(** Writing is not held up by a TLS read that has to write first. *)
Definition calm (f : SelectFd) : bool := negb (sf_tlsEstablished f && (sf_tlsWantRead f && sf_tlsReadWantsWrite f)).

Class WriteFuncsOk (S : Type) `{WriteFuncs S} := {
  wf_stream : S → list Z;
  wf_able : S → SelectFd → bool;
  wf_able_set s f f' : sf_ssl f' = sf_ssl f → wf_able (wf_set_fd s f') f' = wf_able s f;
  wf_set_fd_fd s f f0 : wf_fd s = Ok f0 → wf_fd (wf_set_fd s f) = Ok f;
  wf_set_fd_stream s f : wf_stream (wf_set_fd s f) = wf_stream s;
  wf_set_fd_peer s f : wf_peer (wf_set_fd s f) = wf_peer s;
  wf_close_fd s f : wf_fd s = Ok f → wf_fd (wf_set_peer s (sys_close (wf_peer s))) = Ok f;
  wf_close_stream s : wf_stream (wf_set_peer s (sys_close (wf_peer s))) = wf_stream s;
  wf_close_peer s : wf_peer (wf_set_peer s (sys_close (wf_peer s))) = sys_close (wf_peer s);
  bufWrite_ok s f d : wf_fd s = Ok f → wf_able s f = true → ∃ n s' f', bufWrite s d = Ok (n, s') ∧ n ≤ Z.of_nat (length d) ∧
    wf_fd s' = Ok f' ∧ wf_able s' f' = true ∧ same_wants f f' ∧ io_open (wf_peer s') = io_open (wf_peer s) ∧
    wf_stream s' = wf_stream s ++ take (Z.to_nat n) d;
  bufClose_ok s f : wf_fd s = Ok f → ∃ s', bufClose s = Ok s' ∧ io_open (wf_peer s') = false ∧ wf_stream s' = wf_stream s;
}.

Lemma same_wants_get f f' : same_wants f f' → wantWriteGet f' = wantWriteGet f ∧ calm f' = calm f ∧ sf_closed f' = sf_closed f.
Proof. intros ->. by destruct f. Qed.

Lemma calm_set f v : calm (wantWriteSet f v) = calm f.
Proof. by destruct f as [? ? ? ? ? ? ? ? [] ? ?]. Qed.

Lemma ssl_set f v : sf_ssl (wantWriteSet f v) = sf_ssl f.
Proof. by destruct f as [? ? ? ? ? ? ? ? [] ? ?]. Qed.

Lemma want_set_get f v : calm f = true → wantWriteGet (wantWriteSet f v) = v.
Proof.
  destruct f as [? ? ? ? ? ? r w [] ? x]; unfold calm, wantWriteGet, wantWriteSet; cbn; [|done].
  intros E%negb_true_iff. rewrite E. by rewrite orb_false_r.
Qed.

Section WriteBuffer.
Context `{RopeLib} {S : Type} `{WriteFuncsOk S}.
Implicit Types (s : S) (w : WriteBuffer) (all : list Z).

(** The descriptor has taken all that was sent but for what is in the queue; while
    there is something in the queue, it is waited on for writing. *)
Record wb_at f s w all : Prop := WbAt {
  wi_fd : wf_fd s = Ok f;
  wi_open : io_open (wf_peer s) = true;
  wi_able : wf_able s f = true;
  wi_calm : calm f = true;
  wi_queue : rope_ok (wb_queue w);
  wi_all : wf_stream s ++ rope_bytes (wb_queue w) = all;
  wi_want : rope_bytes (wb_queue w) ≠ [] → wantWriteGet f = true;
}.

Definition wb_inv s w all : Prop := ∃ f, wb_at f s w all.

(** A write failed, and the object was closed. *)
Definition wb_failed s all : Prop :=
  io_open (wf_peer s) = false ∧ wf_stream s `prefix_of` all ∧
  ∃ s0 d n s1, bufWrite s0 d = Ok (n, s1) ∧ n < 0 ∧ bufClose s1 = Ok s.

(** All was written, and the descriptor closed as [sendEos] had asked. *)
Definition wb_done s all : Prop :=
  io_open (wf_peer s) = false ∧ wf_stream s = all ∧ ∃ f, wf_fd s = Ok f ∧ sf_closed f = true.

Lemma append_blocks_bytes q rbs : rope_bytes (append_blocks q rbs) = rope_bytes q ++ concat (rb_data <$> rbs).
Proof.
  unfold append_blocks. revert q. induction rbs as [|b rbs IH]; intros q; cbn; [by rewrite app_nil_r|].
  by rewrite IH, rope_append_bytes, <- app_assoc.
Qed.

Lemma append_blocks_ok q rbs : rope_ok q → rope_ok (append_blocks q rbs).
Proof. unfold append_blocks. revert q. induction rbs as [|b rbs IH]; intros q Hq; cbn; [done|]. apply IH, rope_append_ok, Hq. Qed.

Lemma advance_head_bytes r n rb rbs : r_blocks r = rb :: rbs → 0 ≤ n → n ≤ rb_length rb →
  rope_bytes (advance_head r n) = drop (Z.to_nat n) (rb_data rb) ++ concat (rb_data <$> rbs).
Proof. intros E _ _. unfold advance_head, rope_bytes. by rewrite E. Qed.

Lemma advance_head_ok r n rb rbs : rope_ok r → r_blocks r = rb :: rbs → 0 ≤ n → n ≤ rb_length rb → rope_ok (advance_head r n).
Proof.
  intros O E Hn Hl. unfold rope_ok. rewrite (advance_head_bytes r n rb rbs E Hn Hl). cbn [advance_head r_ropeLen].
  unfold rope_ok in O. rewrite O. unfold rope_bytes, rb_length in *. rewrite E. cbn. rewrite !length_app, length_drop. lia.
Qed.

Lemma consume_head_ok r rb rbs : rope_ok r → r_blocks r = rb :: rbs → rope_ok (consume_head r (rb_length rb)).
Proof.
  unfold rope_ok, consume_head, rope_bytes, rb_length. intros O E. cbn. rewrite O, E. cbn. rewrite length_app. lia.
Qed.

(** One write of a block: it fails, or stops short, or goes through. *)
Lemma block_written s f rb : wf_fd s = Ok f → wf_able s f = true →
  ∃ n s' f', bufWrite s (rb_data rb) = Ok (n, s') ∧ wf_fd s' = Ok f' ∧ wf_able s' f' = true ∧ same_wants f f' ∧
  io_open (wf_peer s') = io_open (wf_peer s) ∧
  ((n < 0 ∧ ∃ s'', bufClose s' = Ok s'' ∧ ∀ more, wb_failed s'' (wf_stream s ++ more)) ∨
   (0 ≤ n < rb_length rb ∧ wf_stream s' = wf_stream s ++ take (Z.to_nat n) (rb_data rb)) ∨
   (n = rb_length rb ∧ wf_stream s' = wf_stream s ++ rb_data rb)).
Proof.
  intros E Ab. destruct (bufWrite_ok s f (rb_data rb) E Ab) as (n & s' & f' & Ew & Hn & E' & Ab' & W & P & Es).
  exists n, s', f'. split_and!; [done..|]. unfold rb_length. destruct (Z_lt_dec n 0) as [L|].
  - left. split; [done|]. destruct (bufClose_ok s' f' E') as (s'' & Ec & P' & Es'). exists s''. split; [done|]. intros more.
    split; [done|]. split; [|by exists s, (rb_data rb), n, s']. rewrite Es', Es. replace (Z.to_nat n) with 0%nat by lia.
    rewrite take_0, app_nil_r. by apply prefix_app_r.
  - destruct (Z.eq_dec n (Z.of_nat (length (rb_data rb)))) as [->|]; [|right; left; split; [lia|done]].
    right; right. split; [done|]. by rewrite Es, Nat2Z.id, firstn_all.
Qed.

Lemma want_write_ok s f v : wf_fd s = Ok f → wf_able s f = true → calm f = true →
  ∃ s' f', want_write s v = Ok s' ∧ wf_fd s' = Ok f' ∧ wf_able s' f' = true ∧ calm f' = true ∧ wantWriteGet f' = v ∧
    wf_stream s' = wf_stream s ∧ wf_peer s' = wf_peer s.
Proof.
  intros E Ab C. unfold want_write. rewrite E, bind_Ok. eexists _, _. split; [done|]. split_and!.
  - by eapply wf_set_fd_fd.
  - rewrite (wf_able_set s f); [done|apply ssl_set].
  - by rewrite calm_set.
  - by apply want_set_get.
  - apply wf_set_fd_stream.
  - apply wf_set_fd_peer.
Qed.

(** Queueing the rest of a message. *)
Lemma queue_rest_ok w blocks rb rbs n c : rope_ok (wb_queue w) → rope_ok blocks → 0 ≤ n < rb_length rb →
  (c = true → r_blocks blocks = rb :: rbs) → ∃ w' b', queue_rest w blocks rb rbs n c = (w', b') ∧ rope_ok (wb_queue w') ∧
  rope_bytes (wb_queue w') = rope_bytes (wb_queue w) ++ drop (Z.to_nat n) (rb_data rb) ++ concat (rb_data <$> rbs) ∧
  rope_ok b' ∧ b' = (if c then rope_none else blocks).
Proof.
  intros Q O Hn E. unfold queue_rest. destruct c.
  - specialize (E eq_refl). eexists _, _. split; [done|]. cbn [wb_queue set_queue]. split_and!; auto with netp.
    + apply rope_append_rope_ok; [done|]. eapply advance_head_ok; eauto; lia.
    + rewrite rope_append_rope_bytes, (advance_head_bytes blocks n rb rbs); [done|done|lia..].
  - eexists _, _. split; [done|]. cbn [wb_queue set_queue]. split_and!; [|by rewrite append_blocks_bytes, rope_append_bytes, <- app_assoc|done..].
    apply append_blocks_ok, rope_append_ok, Q.
Qed.

Lemma send_loop_ok rbs s f w blocks c : wf_fd s = Ok f → wf_able s f = true → io_open (wf_peer s) = true → calm f = true → wantWriteGet f = false →
  rope_ok (wb_queue w) → rope_bytes (wb_queue w) = [] → rope_ok blocks → (c = true → r_blocks blocks = rbs) →
  ∃ s' w' b', send_loop rbs s w blocks c = Ok (s', w', b') ∧ rope_ok b' ∧ (c = false → b' = blocks) ∧
    (wb_failed s' (wf_stream s ++ concat (rb_data <$> rbs)) ∨
     wb_inv s' w' (wf_stream s ++ concat (rb_data <$> rbs)) ∧ (c = true → r_blocks b' = [])).
Proof.
  revert s f w blocks. induction rbs as [|rb rbs IH]; intros s f w blocks E Ab P C W Q N O B; cbn [send_loop].
  - exists s, w, blocks. split_and!; [done..|]. right. split; [|done]. exists f. split; [done..| |by rewrite N]. by rewrite N.
  - destruct (block_written s f rb E Ab) as (n & s1 & f1 & Ew & E1 & Ab1 & W1 & P1 & Cases). rewrite Ew, bind_Ok.
    destruct (same_wants_get f f1 W1) as (G1 & C1 & _).
    destruct Cases as [[L (s2 & Ec & F)]|[[Hn Es]|[-> Es]]].
    + apply Z.ltb_lt in L. rewrite L, Ec, bind_Ok. exists s2, w, blocks. split_and!; [done..|]. left. apply F.
    + destruct (Z.ltb_spec n 0) as [?|_]; [lia|]. destruct (Z.ltb_spec n (rb_length rb)) as [_|?]; [|lia].
      destruct (queue_rest_ok w blocks rb rbs n c Q O Hn B) as (w2 & b2 & -> & Q2 & Eq & O2 & Eb).
      destruct (want_write_ok s1 f1 true E1 Ab1) as (s3 & f3 & -> & E3 & Ab3 & C3 & G3 & Es3 & P3); [congruence|]. rewrite bind_Ok.
      exists s3, w2, b2. split_and!; [done..|by intros ->; rewrite Eb|]. right. split; [|by intros ->; rewrite Eb].
      exists f3. split; [done|congruence|done..| |done]. rewrite Es3, Es, Eq, N. cbn. rewrite <- app_assoc. f_equal.
      by rewrite app_assoc, take_drop.
    + destruct (Z.ltb_spec (rb_length rb) 0) as [?|_]; [unfold rb_length in *; lia|]. rewrite Z.ltb_irrefl.
      destruct (IH s1 f1 w (if c then consume_head blocks (rb_length rb) else blocks)) as (s2 & w2 & b2 & E2 & O2 & Eb & D); try done; try congruence.
      { destruct c; [|done]. eapply consume_head_ok; eauto. }
      { intros ->. cbn. by rewrite B. }
      exists s2, w2, b2. split_and!; [done..|by intros ->; apply Eb|]. rewrite Es, <- app_assoc in D. exact D.
Qed.

(** Nothing is queued when the descriptor is not waited on. *)
Lemma wb_at_idle f s w all : wb_at f s w all → wantWriteGet f = false → rope_bytes (wb_queue w) = [] ∧ wf_stream s = all.
Proof.
  intros [_ _ _ _ _ A W] G. assert (rope_bytes (wb_queue w) = []) as N.
  { destruct (rope_bytes (wb_queue w)) as [|z l]; [done|]. specialize (W ltac:(done)). congruence. }
  by rewrite N, app_nil_r in A.
Qed.

(** Sending appends to what was sent. *)
Lemma wb_send_ok s w all blocks c : wb_inv s w all → rope_ok blocks →
  ∃ s' w' b', wb_send s w blocks c = Ok (s', w', b') ∧ rope_ok b' ∧ (c = false → b' = blocks) ∧
    (wb_failed s' (all ++ rope_bytes blocks) ∨ wb_inv s' w' (all ++ rope_bytes blocks) ∧ (c = true → r_blocks b' = [])).
Proof.
  intros [f I] O. pose proof (wb_at_idle _ _ _ _ I) as Idle. destruct I as [E P Ab C Q A W]. unfold wb_send. rewrite E, bind_Ok.
  destruct (wantWriteGet f) eqn:G.
  - destruct c; eexists _, _, _; (split; [done|]); split_and!; auto with netp; try done; right; (split; [|done]); exists f; split; cbn; try done.
    + by apply rope_append_rope_ok.
    + by rewrite rope_append_rope_bytes, app_assoc, A.
    + by apply append_blocks_ok.
    + by rewrite append_blocks_bytes, app_assoc, A.
  - destruct (Idle eq_refl) as [N Es].
    destruct (send_loop_ok (r_blocks blocks) s f w blocks c E Ab P C G Q N O) as (s' & w' & b' & E' & O' & Eb & D); [done|].
    rewrite Es in D. by exists s', w', b'.
Qed.

(** Sending bytes, for an object that writes straight to the descriptor. *)
Lemma wb_send_bytes_ok s w all d : (∀ s d, bufWrite s d = wb_write s d) → wb_inv s w all →
  ∃ s' w', wb_send_bytes s w d = Ok (s', w') ∧ (wb_failed s' (all ++ d) ∨ wb_inv s' w' (all ++ d)).
Proof.
  intros Direct [f I]. pose proof (wb_at_idle _ _ _ _ I) as Idle. destruct I as [E P Ab C Q A W]. unfold wb_send_bytes. rewrite E, bind_Ok.
  destruct (wantWriteGet f) eqn:G.
  - eexists _, _. split; [done|]. right. exists f. split; cbn; try done; [by apply rope_append_ok|by rewrite rope_append_bytes, app_assoc, A].
  - destruct (Idle eq_refl) as [N Es]. destruct (block_written s f (MkRopeBlock d 0) E Ab) as (n & s1 & f1 & Ew & E1 & Ab1 & W1 & P1 & Cases).
    destruct (same_wants_get f f1 W1) as (G1 & C1 & _). rewrite <- Direct. cbn [rb_data rb_length] in *. rewrite Ew, bind_Ok. unfold rb_length in Cases. cbn [rb_data] in Cases.
    destruct Cases as [[L (s2 & Ec & F)]|[[Hn Es1]|[-> Es1]]].
    + apply Z.ltb_lt in L. rewrite L, Ec, bind_Ok. exists s2, w. split; [done|]. left. rewrite Es in F. apply F.
    + destruct (Z.ltb_spec n 0) as [?|_]; [lia|]. destruct (Z.ltb_spec n (Z.of_nat (length d))) as [_|?]; [|lia].
      destruct (want_write_ok s1 f1 true E1 Ab1) as (s3 & f3 & -> & E3 & Ab3 & C3 & G3 & Es3 & P3); [congruence|]. rewrite bind_Ok.
      eexists _, _. split; [done|]. right. exists f3. split; cbn; [done|congruence|done|done|by apply rope_append_ok| |done].
      rewrite Es3, Es1, rope_append_bytes, N, Es, <- app_assoc. cbn. by rewrite take_drop.
    + destruct (Z.ltb_spec (Z.of_nat (length d)) 0) as [?|_]; [lia|]. rewrite Z.ltb_irrefl. eexists _, _. split; [done|]. right.
      exists f1. split; [done|congruence..| |by rewrite N]. by rewrite Es1, Es, N, app_nil_r.
Qed.

(** [::close], marked in the SelectFd *)
Lemma closed_done s f : wf_fd s = Ok f → wb_done (wf_set_fd (wf_set_peer s (sys_close (wf_peer s))) (set_closed f)) (wf_stream s).
Proof.
  intros E. unfold wb_done. rewrite wf_set_fd_peer, wf_close_peer, wf_set_fd_stream, wf_close_stream. split_and!; [done..|].
  exists (set_closed f). split; [|done]. by eapply wf_set_fd_fd, wf_close_fd.
Qed.

(** Writing out the queue; [rbs] are its blocks. *)
Lemma flush_loop_ok rbs s f w : r_blocks (wb_queue w) = rbs → wf_fd s = Ok f → wf_able s f = true → io_open (wf_peer s) = true → calm f = true →
  wantWriteGet f = true → rope_ok (wb_queue w) →
  ∃ s' w', flush_loop rbs s w = Ok (s', w') ∧
    (wb_failed s' (wf_stream s ++ concat (rb_data <$> rbs)) ∨ wb_closeOnFlushed w = true ∧ wb_done s' (wf_stream s ++ concat (rb_data <$> rbs)) ∨
     wb_inv s' w' (wf_stream s ++ concat (rb_data <$> rbs)) ∧ wb_closeOnFlushed w' = wb_closeOnFlushed w ∧
     (wb_closeOnFlushed w = true → rope_bytes (wb_queue w') ≠ [])).
Proof.
  revert s f w. induction rbs as [|rb rbs IH]; intros s f w B E Ab P C W Q; cbn [flush_loop].
  - assert (rope_bytes (wb_queue w) = []) as N by (unfold rope_bytes; by rewrite B). cbn [fmap list_fmap concat]. rewrite app_nil_r.
    destruct (wb_closeOnFlushed w) eqn:Cl.
    + unfold close_fd. rewrite E, !bind_Ok. eexists _, _. split; [done|]. right. left. split; [done|].
      by apply closed_done.
    + exists s, w. split; [done|]. right. right. split_and!; [|done|congruence].
      exists f. split; [done..|rewrite N; by rewrite app_nil_r|by rewrite N].
  - destruct (block_written s f rb E Ab) as (n & s1 & f1 & Ew & E1 & Ab1 & W1 & P1 & Cases). rewrite Ew, bind_Ok.
    destruct (same_wants_get f f1 W1) as (G1 & C1 & _).
    destruct Cases as [[L (s2 & Ec & F)]|[[Hn Es]|[-> Es]]].
    + apply Z.ltb_lt in L. rewrite L, Ec, bind_Ok. exists s2, w. split; [done|]. left. apply F.
    + destruct (Z.ltb_spec n 0) as [?|_]; [lia|]. destruct (Z.ltb_spec n (rb_length rb)) as [_|?]; [|lia].
      eexists _, _. split; [done|]. right. right.
      assert (rope_bytes (advance_head (wb_queue w) n) = drop (Z.to_nat n) (rb_data rb) ++ concat (rb_data <$> rbs)) as Eb
        by (apply advance_head_bytes; [done|lia..]).
      split_and!; [|done|].
      * exists f1. split; cbn [wb_queue set_queue]; [done|congruence|done|congruence|eapply advance_head_ok; eauto; lia| |congruence].
        rewrite Eb, Es, <- app_assoc. cbn. by rewrite (app_assoc (take _ _)), take_drop.
      * intros _. cbn [wb_queue set_queue]. rewrite Eb. unfold rb_length in Hn. intros [D%(f_equal length) _]%app_nil. rewrite length_drop in D. cbn in D. lia.
    + destruct (Z.ltb_spec (rb_length rb) 0) as [?|_]; [unfold rb_length in *; lia|]. rewrite Z.ltb_irrefl.
      destruct (IH s1 f1 (set_queue w (consume_head (wb_queue w) (rb_length rb)))) as (s2 & w2 & E2 & D); try done; try congruence.
      { cbn. by rewrite B. }
      { cbn. by eapply consume_head_ok. }
      exists s2, w2. split; [done|]. cbn [wb_closeOnFlushed set_queue] in D. rewrite Es, <- app_assoc in D. exact D.
Qed.

Lemma rope_len_zero r : rope_ok r → r_ropeLen r = 0 ↔ rope_bytes r = [].
Proof. unfold rope_ok. intros ->. split; [intros E; by apply nil_length_inv, Nat2Z.inj|by intros ->]. Qed.

Lemma writeReady_ok s w all : wb_inv s w all →
  ∃ s' w', writeReady s w = Ok (s', w') ∧ (wb_failed s' all ∨ wb_closeOnFlushed w = true ∧ wb_done s' all ∨ wb_inv s' w' all).
Proof.
  intros [f [E P Ab C Q A W]]. unfold writeReady. destruct (Z.eqb_spec (r_ropeLen (wb_queue w)) 0) as [Z|Z].
  - pose proof (proj1 (rope_len_zero _ Q) Z) as N. rewrite N, app_nil_r in A.
    destruct (want_write_ok s f false E Ab C) as (s' & f' & -> & E' & Ab' & C' & _ & Es & P'). rewrite bind_Ok.
    eexists _, _. split; [done|]. right. right. exists f'. split; cbn; [done|congruence|done..|by rewrite Es, app_nil_r|done].
  - rewrite rope_len_zero in Z by done.
    destruct (flush_loop_ok (r_blocks (wb_queue w)) s f w eq_refl E Ab P C (W Z) Q) as (s' & w' & -> & D).
    exists s', w'. split; [done|]. fold (rope_bytes (wb_queue w)) in D. rewrite A in D. destruct D as [?|[?|[? _]]]; auto.
Qed.

Lemma sendEos_ok s w all : wb_inv s w all →
  ∃ s' w', sendEos s w = Ok (s', w') ∧ (wb_done s' all ∨ wb_inv s' w' all ∧ wb_closeOnFlushed w' = true).
Proof.
  intros [f I]. pose proof (wb_at_idle _ _ _ _ I) as Idle. destruct I as [E P Ab C Q A W]. unfold sendEos. rewrite E, bind_Ok.
  destruct (wantWriteGet f) eqn:G; [|destruct (Idle eq_refl) as [_ <-]].
  - eexists _, _. split; [done|]. right. split; [|done]. exists f. by split.
  - unfold close_fd. rewrite E, !bind_Ok. eexists _, _. split; [done|]. left. by apply closed_done.
Qed.

(** ** Any order of operations *)

Inductive wop :=
| WSend (blocks : Rope) (canConsume : bool)
| WBytes (data : list Z)
| WEos
| WReady.

Definition wb_step s w (o : wop) : res (S * WriteBuffer) :=
  match o with
  | WSend blocks c => '(s, w, _) ← wb_send s w blocks c; Ok (s, w)
  | WBytes d => wb_send_bytes s w d
  | WEos => sendEos s w
  | WReady => writeReady s w
  end.

Definition op_bytes (o : wop) : list Z :=
  match o with WSend blocks _ => rope_bytes blocks | WBytes d => d | WEos | WReady => [] end.

(** [WBytes] is for objects that write straight to the descriptor. *)
Definition wb_allowed (o : wop) : Prop :=
  match o with
  | WSend blocks _ => rope_ok blocks
  | WBytes _ => ∀ s d, bufWrite s d = wb_write s d
  | WEos | WReady => True
  end.

(** The states of an object, its buffer empty at first, as long as it is open, with
    all that was sent. *)
Inductive wb_reach : S → WriteBuffer → list Z → Prop :=
| wb_start s f : wf_fd s = Ok f → wf_able s f = true → calm f = true → io_open (wf_peer s) = true → wf_stream s = [] →
    wb_reach s new_WriteBuffer []
| wb_next s w all o s' w' : wb_reach s w all → wb_allowed o → wb_step s w o = Ok (s', w') →
    io_open (wf_peer s') = true → wb_reach s' w' (all ++ op_bytes o).

Lemma wb_step_ok s w all o : wb_inv s w all → wb_allowed o →
  ∃ s' w', wb_step s w o = Ok (s', w') ∧
    (wb_failed s' (all ++ op_bytes o) ∨ (o = WEos ∨ wb_closeOnFlushed w = true) ∧ wb_done s' (all ++ op_bytes o) ∨
     wb_inv s' w' (all ++ op_bytes o)).
Proof.
  intros I A. destruct o as [blocks c|d| |]; cbn [wb_step op_bytes].
  - destruct (wb_send_ok s w all blocks c I A) as (s' & w' & b' & -> & _ & _ & D). rewrite bind_Ok. exists s', w'. split; [done|]. tauto.
  - destruct (wb_send_bytes_ok s w all d A I) as (s' & w' & -> & D). exists s', w'. split; [done|]. tauto.
  - rewrite app_nil_r. destruct (sendEos_ok s w all I) as (s' & w' & -> & D). exists s', w'. split; [done|]. tauto.
  - rewrite app_nil_r. destruct (writeReady_ok s w all I) as (s' & w' & -> & D). exists s', w'. split; [done|]. tauto.
Qed.

Lemma wb_step_inv s w all o s' w' : wb_inv s w all → wb_allowed o → wb_step s w o = Ok (s', w') →
  io_open (wf_peer s') = true → wb_inv s' w' (all ++ op_bytes o).
Proof.
  intros I A E P. destruct (wb_step_ok s w all o I A) as (s1 & w1 & E1 & D). rewrite E in E1. injection E1 as <- <-.
  destruct D as [[F _]|[[_ [F _]]|D]]; [congruence..|done].
Qed.

Lemma wb_reach_inv s w all : wb_reach s w all → wb_inv s w all.
Proof.
  induction 1 as [s f E Ab C P N|s w all o s' w' _ I A E P]; [|by eapply wb_step_inv].
  exists f. split; try done. by rewrite N.
Qed.

(** C15: Whatever a descriptor takes of each write, sending ropes or bytes, asking for
    the end and writing when ready return, in any order.  The bytes the descriptor
    has taken followed by the bytes in the queue are the bytes sent, in order, and
    while there are bytes in the queue the descriptor is waited on for writing; a
    close that was asked for comes after the last byte; and when a write failed, what
    was taken is a prefix of what was sent. *)
Theorem buffer_in_order s w all o : wb_reach s w all → wb_allowed o →
  (∃ f, wf_fd s = Ok f ∧ wf_stream s ++ rope_bytes (wb_queue w) = all ∧ (rope_bytes (wb_queue w) ≠ [] → wantWriteGet f = true)) ∧
  ∃ s' w', wb_step s w o = Ok (s', w') ∧
    (wb_failed s' (all ++ op_bytes o) ∨ (o = WEos ∨ wb_closeOnFlushed w = true) ∧ wb_done s' (all ++ op_bytes o) ∨
     wb_reach s' w' (all ++ op_bytes o)).
Proof.
  intros R A. pose proof (wb_reach_inv _ _ _ R) as I. split.
  - destruct I as [f [E P Ab C Q Ea W]]. by exists f.
  - destruct (wb_step_ok s w all o I A) as (s' & w' & E & D). exists s', w'. split; [done|].
    destruct D as [?|[?|[f [? P ? ? ? ? ?]]]]; [tauto..|]. right; right. by eapply wb_next.
Qed.

(** [sendEos] closes the descriptor at once when it is not waited on for writing,
    and all bytes have been taken then; otherwise the close is left to [writeReady].
    When the queue has been written but the descriptor is still waited on, that close
    never comes: [writeReady] stops waiting and leaves the descriptor open. *)
Theorem eos_after_flush_lost s w all f : wb_reach s w all → wf_fd s = Ok f →
  ∃ s' w', sendEos s w = Ok (s', w') ∧
    if wantWriteGet f then
      rope_bytes (wb_queue w) = [] →
      ∃ s'' w'' f'', writeReady s' w' = Ok (s'', w'') ∧ wb_reach s'' w'' all ∧
        wf_fd s'' = Ok f'' ∧ wantWriteGet f'' = false ∧ wb_closeOnFlushed w'' = true
    else wb_done s' all.
Proof.
  intros R E. pose proof (wb_reach_inv _ _ _ R) as [f1 I]. pose proof (wb_at_idle _ _ _ _ I) as Idle. destruct I as [E1 P Ab C Q A W].
  rewrite E in E1. injection E1 as <-. destruct (wb_step_ok s w all WEos (wb_reach_inv _ _ _ R) Logic.I) as (s' & w' & Es & _).
  exists s', w'. split; [done|]. cbn in Es. unfold sendEos in Es. rewrite E, bind_Ok in Es. destruct (wantWriteGet f) eqn:G.
  - injection Es as <- <-. intros N. unfold writeReady. cbn [wb_queue]. rewrite (proj2 (rope_len_zero _ Q) N). cbn [Z.eqb].
    destruct (want_write_ok s f false E Ab C) as (s2 & f2 & E2 & Ef2 & Ab2 & C2 & G2 & Es2 & P2). rewrite E2, bind_Ok.
    eexists _, _, f2. split; [done|]. split_and!; [|done..].
    rewrite <- (app_nil_r all). apply (wb_next s (MkWriteBuffer (wb_queue w) true) all WReady); [|done| |congruence].
    + rewrite <- (app_nil_r all). apply (wb_next s w all WEos); [done..| |done]. cbn. unfold sendEos. by rewrite E, bind_Ok, G.
    + cbn. unfold writeReady. cbn. rewrite (proj2 (rope_len_zero _ Q) N). cbn. by rewrite E2, bind_Ok.
  - destruct (Idle eq_refl) as [_ <-]. unfold close_fd in Es. rewrite E, !bind_Ok in Es. injection Es as <- <-. by apply closed_done.
Qed.
End WriteBuffer.

(** ** Processes *)

Lemma next_write_range again p len n err p' : 0 ≤ len → next_write again p len = (n, err, p') →
  n ≤ len ∧ io_open p' = io_open p ∧ io_in p' = io_in p ∧ io_out p' = io_out p ∧ io_tls p' = io_tls p ∧ io_reads p' = io_reads p.
Proof.
  intros L. unfold next_write. destruct (io_open p) eqn:O; cbn [negb]; [|intros [= <- _ <-]; rewrite O; split; [lia|done]].
  destruct (io_writes p) as [|e rest]; [intros [= <- _ <-]; rewrite O; split; [lia|done]|].
  destruct (Z.leb_spec (io_n e) 0); intros [= <- _ <-]; cbn; (split; [lia|done]).
Qed.

Lemma write_result_le r err len : r ≤ len → 0 ≤ len → write_result r err ≤ len.
Proof. intros. unfold write_result. destruct (r <? 0); [|done]. destruct (_ || _); lia. Qed.

(** What write(2) takes, by the result the callers see. *)
Lemma write_result_take {A} r err (d : list A) : take (Z.to_nat r) d = take (Z.to_nat (write_result r err)) d.
Proof.
  unfold write_result. destruct (Z.ltb_spec r 0); [|done]. destruct (_ || _); by replace (Z.to_nat r) with 0%nat by lia.
Qed.

Lemma sys_write_ok p d n err p' : sys_write p d = (n, err, p') →
  write_result n err ≤ Z.of_nat (length d) ∧ io_open p' = io_open p ∧ io_in p' = io_in p ∧ io_tls p' = io_tls p ∧
  io_out p' = io_out p ++ take (Z.to_nat (write_result n err)) d.
Proof.
  unfold sys_write. destruct (next_write _ _ _) as [[n0 e0] p0] eqn:E. intros [= -> -> <-].
  apply next_write_range in E as (L & -> & -> & -> & -> & _); [|lia]. cbn. split_and!; [apply write_result_le; lia|done..|].
  by rewrite <- write_result_take.
Qed.

#[export] Program Instance process_funcs_ok : WriteFuncsOk Process := { wf_stream s := io_out (pr_peer s); wf_able _ _ := true }.
Next Obligation. done. Qed.
Next Obligation. by intros s f f0 _. Qed.
Next Obligation. done. Qed.
Next Obligation. done. Qed.
Next Obligation. done. Qed.
Next Obligation. done. Qed.
Next Obligation. done. Qed.
Next Obligation.
  intros s f d [= <-] _. cbn. unfold pr_bufWrite. destruct (sys_write (pr_peer s) d) as [[n err] p'] eqn:E.
  apply sys_write_ok in E as (L & O & _ & _ & Out). eexists _, _, _. split; [done|]. cbn. split_and!; [done..| |done|done]. by destruct (pr_to s).
Qed.
Next Obligation. intros s f [= <-]. cbn. by eexists. Qed.

Lemma process_direct : ∀ (s : Process) d, bufWrite s d = wb_write s d.
Proof. intros s d. cbn. unfold pr_bufWrite, wb_write. cbn. by destruct (sys_write (pr_peer s) d) as [[n err] p']. Qed.

(** ** Witnesses *)

Definition demo_process (writes : list IoResult) : Process :=
  MkProcess (new_SelectFd 3 Fd.Established) (MkPeer true [] [] [] [] writes).

Lemma demo_process_start writes : wb_reach (demo_process writes) new_WriteBuffer [].
Proof. by eapply wb_start. Qed.

(** Three bytes of which two are taken. *)
Lemma demo_process_sent : wb_reach
  (MkProcess (wantWriteSet (new_SelectFd 3 Fd.Established) true) (MkPeer true [] [1; 2] [] [] [MkIo 9 0]))
  (MkWriteBuffer (demo_append rope_none [3]) false) [1; 2; 3].
Proof. exact (wb_next _ _ _ (WBytes [1; 2; 3]) _ _ (demo_process_start [MkIo 2 0; MkIo 9 0]) process_direct eq_refl eq_refl). Qed.

Lemma buffer_in_order_witness :
  ∃ s' w', wb_step (S := Process)
    (MkProcess (wantWriteSet (new_SelectFd 3 Fd.Established) true) (MkPeer true [] [1; 2] [] [] [MkIo 9 0]))
    (MkWriteBuffer (demo_append rope_none [3]) false) WReady = Ok (s', w') ∧ io_out (pr_peer s') = [1; 2; 3].
Proof.
  destruct (buffer_in_order _ _ _ WReady demo_process_sent Logic.I) as [_ (s' & w' & E & D)].
  exists s', w'. split; [exact E|]. vm_compute in E. injection E as <- <-. reflexivity.
Defined.

Lemma eos_after_flush_lost_witness :
  ∃ s' w', sendEos (S := Process)
    (MkProcess (wantWriteSet (new_SelectFd 3 Fd.Established) true) (MkPeer true [] [1; 2; 3] [] [] []))
    (MkWriteBuffer (MkRope [] 0) false) = Ok (s', w').
Proof.
  assert (wb_reach (S := Process) (MkProcess (wantWriteSet (new_SelectFd 3 Fd.Established) true) (MkPeer true [] [1; 2; 3] [] [] []))
    (MkWriteBuffer (MkRope [] 0) false) ([1; 2; 3] ++ [])) as R.
  { exact (wb_next _ _ _ WReady _ _ demo_process_sent Logic.I eq_refl eq_refl). }
  destruct (eos_after_flush_lost _ _ _ _ R eq_refl) as (s' & w' & E & _). by exists s', w'.
Defined.

(** Closing after a failed write leaves the SelectFd of a process unmarked, and the
    select loop goes on using the closed descriptor. *)
Example process_close_unmarked :
  ∃ s', wb_send_bytes (demo_process [MkIo (-1) 32]) new_WriteBuffer [1] = Ok (s', new_WriteBuffer) ∧
    io_open (pr_peer s') = false ∧ sf_closed (pr_to s') = false.
Proof. eexists. split; [reflexivity|]. split; reflexivity. Qed.
