(* ===== verification/Packet.v ===== *)
(** * genf/packet.cc: packets

    A packet is a rope whose blocks each begin with the length of the next block.
    The first block goes on with a header: the length of the first block, of the
    whole packet, and the kind of message.  A writer makes a packet by allocating
    pieces in a rope; the offset of a piece in the rope is how packets refer to
    it, and [pktFind] finds it again.  The reading side takes bytes as they come and
    puts the blocks together. *)

From S2P Require Import Prelude Rope Conn ItQueue.

(** [sizeof(PacketBlockHeader)], [sizeof(PacketHeader)] and where its fields are. *)
Definition SIZEOF_PacketBlockHeader : Z := 4.
Definition SIZEOF_PacketHeader : Z := 12.
Definition HEAD_SZ : Z := SIZEOF_PacketBlockHeader + SIZEOF_PacketHeader.
Definition FIRST_LEN : nat := 0.
Definition TOTAL_LEN : nat := 4.
Definition MSG_ID : nat := 8.

(** A [char *] into a rope: the number of the block and an offset in it. *)
Abbreviation rptr := (nat * nat)%type.

Definition rope_store (r : Rope) (p : rptr) (d : list Z) : res Rope :=
  rb ← deref (r_blocks r !! p.1);
  m ← mem_store (rb_data rb) p.2 d;
  Ok (MkRope (<[p.1 := MkRopeBlock m (rb_avail rb)]> (r_blocks r)) (r_ropeLen r)).

Definition rope_load (r : Rope) (p : rptr) (n : nat) : res (list Z) :=
  rb ← deref (r_blocks r !! p.1);
  mem_load (rb_data rb) p.2 n.

(** ** Finding a piece *)

Fixpoint find_in (rbs : list RopeBlock) (i : nat) (l : Z) : option rptr :=
  match rbs with
  | [] => None
  | rb :: rbs =>
      let avail := rb_length rb in
      if l <? avail then Some (i, Z.to_nat l) else find_in rbs (S i) (l - avail)
  end.

(** Zero is no piece. *)
Definition pktFind (r : Rope) (l : Z) : option rptr :=
  if l =? 0 then None else find_in (r_blocks r) 0 l.

(** ** Writing *)

Section Packet.
Context `{RopeLib}.

(** PacketWriter, for a packet sent on a connection or handed to another thread. *)
Record PacketWriter := MkPacketWriter {
  pw_buf : Rope;
  pw_toSend : option rptr;
  pw_content : option rptr;
}.

Definition pw_set_buf (w : PacketWriter) (r : Rope) : PacketWriter :=
  MkPacketWriter r (pw_toSend w) (pw_content w).

(** What [append( 0, n )] returns: where it puts the bytes. *)
Definition append_at (r : Rope) (n : Z) : rptr :=
  match r_tblk r with
  | Some b => if n <=? rb_avail b then (pred (length (r_blocks r)), length (rb_data b)) else (length (r_blocks r), 0%nat)
  | None => (length (r_blocks r), 0%nat)
  end.

Definition append_space (r : Rope) (n : Z) : res (rptr * Rope) :=
  if n <? 0 then Ub
  else Ok (append_at r n, rope_append r (rope_fresh r (Z.to_nat n))).

(** The pointer and the offset of [nb] new bytes. *)
Definition pkt_allocBytes (w : PacketWriter) (nb : Z) : res (rptr * Z * PacketWriter) :=
  if rope_fits (pw_buf w) nb then
    let offset := u32 (r_ropeLen (pw_buf w)) in
    '(p, r) ← append_space (pw_buf w) nb;
    Ok (p, offset, pw_set_buf w r)
  else
    let offset := u32 (r_ropeLen (pw_buf w) + SIZEOF_PacketBlockHeader) in
    '(data, r) ← append_space (pw_buf w) (SIZEOF_PacketBlockHeader + nb);
    Ok ((data.1, data.2 + Z.to_nat SIZEOF_PacketBlockHeader)%nat, offset, pw_set_buf w r).

(** [header->field = v] *)
Definition set_header (r : Rope) (h : rptr) (field : nat) (v : Z) : res Rope :=
  rope_store r (h.1, h.2 + field)%nat (le_bytes 4 v).

(** PacketBase::open, less the message for the other thread. *)
Definition pkt_open (w : PacketWriter) (ID SZ : Z) : res (rptr * PacketWriter) :=
  let w := pw_set_buf w rope_none in
  '(header, _, w) ← pkt_allocBytes w SIZEOF_PacketHeader;
  r ← set_header (pw_buf w) header MSG_ID ID;
  let w := pw_set_buf w r in
  '(msg, _, w) ← pkt_allocBytes w SZ;
  r ← rope_store (pw_buf w) msg (replicate (Z.to_nat SZ) 0);
  r ← set_header r header TOTAL_LEN 0;
  Ok (msg, MkPacketWriter r (Some header) (Some msg)).

(** The first pass: each block begins with the length of the next, [rbs] being the
    blocks from number [i] on. *)
Fixpoint set_next_lens (r : Rope) (i : nat) (rbs : list RopeBlock) : res Rope :=
  match rbs with
  | [] => Ok r
  | _ :: rest =>
      let next := match rest with [] => 0 | rb :: _ => rb_length rb end in
      r ← rope_store r (i, 0%nat) (le_bytes 4 next);
      set_next_lens r (S i) rest
  end.

(** PacketBase::send up to the point where the packet is shipped. *)
Definition pkt_finish (w : PacketWriter) : res PacketWriter :=
  h ← deref (pw_toSend w);
  rb ← deref (head (r_blocks (pw_buf w)));
  r ← set_header (pw_buf w) h TOTAL_LEN (r_ropeLen (pw_buf w));
  r ← set_header r h FIRST_LEN (rb_length rb);
  r ← set_next_lens r 0 (r_blocks r);
  Ok (pw_set_buf w r).

(** ** Connections *)

Inductive recv_state := WantHead | WantBlock.

#[export] Instance recv_state_eq_dec : EqDecision recv_state.
Proof. solve_decision. Defined.

(** Recv; [rc_data] is the block [data] is the beginning of. *)
Record Recv := MkRecv {
  rc_state : recv_state;
  rc_buf : Rope;
  rc_data : nat;
  rc_headBuf : list Z;
  rc_have : Z;
  rc_need : Z;
}.

(** [need] and the bytes of [headBuf] are not initialised. *)
Definition new_Recv (headBuf : list Z) (need : Z) : Recv := MkRecv WantHead rope_none 0 headBuf 0 need.

Definition rc_set_have (r : Recv) (n : Z) : Recv :=
  MkRecv (rc_state r) (rc_buf r) (rc_data r) (rc_headBuf r) n (rc_need r).
Definition rc_set_headBuf (r : Recv) (b : list Z) : Recv :=
  MkRecv (rc_state r) (rc_buf r) (rc_data r) b (rc_have r) (rc_need r).
Definition rc_set_buf (r : Recv) (b : Rope) : Recv :=
  MkRecv (rc_state r) b (rc_data r) (rc_headBuf r) (rc_have r) (rc_need r).

(** What a packet connection writes through: the connection, and whether
    [packetClosed] was called. *)
Record PcSide := MkPcSide {
  ps_conn : Connection;
  ps_packetClosed : bool;
}.

Definition ps_set_conn (s : PcSide) (c : Connection) : PcSide := MkPcSide c (ps_packetClosed s).

(** [close(); packetClosed();] *)
Definition pc_bufClose (s : PcSide) : PcSide := MkPcSide (conn_close (ps_conn s)) true.

#[export] Instance pc_funcs : WriteFuncs PcSide := {
  wf_fd s := selectFd (ps_conn s);
  wf_set_fd s f := ps_set_conn s (c_set_fd (ps_conn s) f);
  wf_peer s := c_peer (ps_conn s);
  wf_set_peer s p := ps_set_conn s (c_set_peer (ps_conn s) p);
  bufWrite s d := '(n, c) ← conn_write (ps_conn s) d; Ok (n, ps_set_conn s c);
  bufClose s := Ok (pc_bufClose s);
}.

Record PacketConnection := MkPacketConnection {
  pc_side : PcSide;
  pc_recv : Recv;
  pc_writeBuffer : WriteBuffer;
}.

Definition pc_set_recv (pc : PacketConnection) (r : Recv) : PacketConnection :=
  MkPacketConnection (pc_side pc) r (pc_writeBuffer pc).
Definition pc_set_side (pc : PacketConnection) (s : PcSide) : PacketConnection :=
  MkPacketConnection s (pc_recv pc) (pc_writeBuffer pc).

(** PacketBase::send of blocks, on a connection. *)
Definition pkt_send_blocks (pc : PacketConnection) (blocks : Rope) (canConsume : bool)
    : res (PacketConnection * Rope) :=
  '(s, w, blocks) ← wb_send (pc_side pc) (pc_writeBuffer pc) blocks canConsume;
  Ok (MkPacketConnection s (pc_recv pc) w, blocks).

(** PacketBase::send of a packet, on a connection. *)
Definition pkt_send (pc : PacketConnection) (w : PacketWriter) : res (PacketConnection * PacketWriter) :=
  w ← pkt_finish w;
  '(pc, _) ← pkt_send_blocks pc (pw_buf w) false;
  Ok (pc, pw_set_buf w rope_none).

Definition pc_writeReady (pc : PacketConnection) : res PacketConnection :=
  '(s, w) ← writeReady (pc_side pc) (pc_writeBuffer pc);
  Ok (MkPacketConnection s (pc_recv pc) w).

(** ** Reading *)

(** What a call of parsePacket ends with: it waits for more, the connection was
    closed, or a packet was handed to [dispatchPacket]. *)
Inductive parse_out :=
| PWait
| PClosed
| PPacket (buf : Rope).

(** [read( .., len )] *)
Definition pc_read (pc : PacketConnection) (len : Z) : res (list Z * Z * PacketConnection) :=
  '(data, n, c) ← conn_read (ps_conn (pc_side pc)) len;
  Ok (data, n, pc_set_side pc (ps_set_conn (pc_side pc) c)).

Definition pc_closed (pc : PacketConnection) : PacketConnection := pc_set_side pc (pc_bufClose (pc_side pc)).

(** Storing at [data + have]. *)
Definition recv_store (r : Recv) (d : list Z) : res Recv :=
  if rc_have r <? 0 then Ub
  else b ← rope_store (rc_buf r) (rc_data r, Z.to_nat (rc_have r)) d; Ok (rc_set_buf r b).

(** [recv.data = recv.buf.appendBlock( n )] *)
Definition recv_appendBlock (r : Recv) (n : Z) : res Recv :=
  if n <? 0 then Ub
  else Ok (MkRecv (rc_state r) (rope_appendBlock (rc_buf r) (Z.to_nat n)) (length (r_blocks (rc_buf r)))
             (rc_headBuf r) (rc_have r) (rc_need r)).

(** The headers are complete: allocate the first block and move them in. *)
Definition first_block (r : Recv) : res Recv :=
  b ← mem_load (rc_headBuf r) (Z.to_nat SIZEOF_PacketBlockHeader + FIRST_LEN) 4;
  let firstLen := i32 (le_val b) in
  let r := MkRecv (rc_state r) (rc_buf r) (rc_data r) (rc_headBuf r) (rc_have r) firstLen in
  r ← recv_appendBlock r firstLen;
  buf ← rope_store (rc_buf r) (rc_data r, 0%nat) (rc_headBuf r);
  Ok (MkRecv WantBlock buf (rc_data r) (rc_headBuf r) HEAD_SZ (rc_need r)).

(** [case WantHead]: [None] to go on with the blocks. *)
Definition want_head (pc : PacketConnection) : res (option parse_out * PacketConnection) :=
  let have := rc_have (pc_recv pc) in
  '(data, len, pc) ← pc_read pc (HEAD_SZ - have);
  if len <? 0 then Ok (Some PClosed, pc_closed pc)
  else if len =? 0 then Ok (Some PWait, pc)
  else
    let r := pc_recv pc in
    hb ← (if have <? 0 then Ub else mem_store (rc_headBuf r) (Z.to_nat have) data);
    let r := rc_set_headBuf r hb in
    if have + len <? HEAD_SZ then Ok (Some PWait, pc_set_recv pc (rc_set_have r (have + len)))
    else r ← first_block r; Ok (None, pc_set_recv pc r).

(** The inner loop, which fills the current block. *)
Fixpoint read_block (fuel : nat) (pc : PacketConnection) : res (option parse_out * PacketConnection) :=
  match fuel with
  | O => Spin
  | S fuel =>
      let have := rc_have (pc_recv pc) in
      let need := rc_need (pc_recv pc) in
      if have <? need then
        '(data, len, pc) ← pc_read pc (need - have);
        if len <? 0 then Ok (Some PClosed, pc_closed pc)
        else if len =? 0 then Ok (Some PWait, pc)
        else
          r ← recv_store (pc_recv pc) data;
          let pc := pc_set_recv pc (rc_set_have r (have + len)) in
          if have + len <? need then Ok (Some PWait, pc) else read_block fuel pc
      else Ok (None, pc)
  end.

(** The outer loop, over the blocks. *)
Fixpoint read_blocks (fuel : nat) (pc : PacketConnection) : res (option parse_out * PacketConnection) :=
  match fuel with
  | O => Spin
  | S fuel =>
      '(o, pc) ← read_block 2 pc;
      match o with
      | Some out => Ok (Some out, pc)
      | None =>
          let r := pc_recv pc in
          b ← rope_load (rc_buf r) (rc_data r, 0%nat) 4;
          let need := i32 (le_val b) in
          let r := MkRecv (rc_state r) (rc_buf r) (rc_data r) (rc_headBuf r) 0 need in
          if need =? 0 then Ok (None, pc_set_recv pc r)
          else r ← recv_appendBlock r need; read_blocks fuel (pc_set_recv pc r)
      end
  end.

(** The packet is complete: hand it over and start again.  What [dispatchPacket]
    does with the rope is not the parser's, which empties its own. *)
Definition packet_done (pc : PacketConnection) : parse_out * PacketConnection :=
  let r := pc_recv pc in
  (PPacket (rc_buf r), pc_set_recv pc (MkRecv WantHead rope_none (rc_data r) (rc_headBuf r) 0 0)).

(** A turn of the outer loop but the first reads at least once. *)
Definition block_turns (pc : PacketConnection) : nat := length (io_reads (c_peer (ps_conn (pc_side pc)))) + 2.

Definition want_block (pc : PacketConnection) : res (parse_out * PacketConnection) :=
  '(o, pc) ← read_blocks (block_turns pc) pc;
  match o with
  | Some out => Ok (out, pc)
  | None => Ok (packet_done pc)
  end.

Definition parsePacket (pc : PacketConnection) : res (parse_out * PacketConnection) :=
  match rc_state (pc_recv pc) with
  | WantHead =>
      '(o, pc) ← want_head pc;
      match o with
      | Some out => Ok (out, pc)
      | None => want_block pc
      end
  | WantBlock => want_block pc
  end.
End Packet.
