(* ===== verification/PacketRecv.v ===== *)
(** * Receiving packets

    The reading side of packet.cc gets its bytes in pieces of any size.  It hands on
    the packets of the stream, whole and in order, however the stream was cut. *)

From S2P Require Import Prelude Rope Conn ItQueue Packet.

(** ** Packets on the wire *)

Definition nextLen (b : list Z) : Z := i32 (le_val (take 4 b)).
Definition firstLen (b : list Z) : Z := i32 (le_val (take 4 (drop 4 b))).

(** The blocks of a packet from one on. *)
Fixpoint chained (bs : list (list Z)) : Prop :=
  match bs with
  | [] => True
  | b :: rest =>
      (4 ≤ length b)%nat ∧ Z.of_nat (length b) < 2 ^ 31 ∧
      nextLen b = match rest with [] => 0 | b' :: _ => Z.of_nat (length b') end ∧ chained rest
  end.

Definition wf_packet (bs : list (list Z)) : Prop :=
  match bs with
  | [] => False
  | b :: _ => (16 ≤ length b)%nat ∧ firstLen b = Z.of_nat (length b) ∧ chained bs
  end.

Abbreviation rope_data r := (rb_data <$> r_blocks r).

(** ** Reading from the descriptor *)

Definition pc_conn (pc : PacketConnection) : Connection := ps_conn (pc_side pc).
Definition pc_in (pc : PacketConnection) : list Z := io_in (c_peer (pc_conn pc)).
Definition pc_reads (pc : PacketConnection) : list IoResult := io_reads (c_peer (pc_conn pc)).

(** What reading does not change. *)
Record read_frame (pc pc' : PacketConnection) : Prop := ReadFrame {
  rf_wb : pc_writeBuffer pc' = pc_writeBuffer pc;
  rf_packetClosed : ps_packetClosed (pc_side pc') = ps_packetClosed (pc_side pc);
  rf_selectFd : c_selectFd (pc_conn pc') = c_selectFd (pc_conn pc);
  rf_tls : c_tlsConnect (pc_conn pc') = c_tlsConnect (pc_conn pc);
  rf_closed : c_closed (pc_conn pc') = c_closed (pc_conn pc);
  rf_fd : c_fd (pc_conn pc') = set_tlsReadWantsWrite (c_fd (pc_conn pc)) (sf_tlsReadWantsWrite (c_fd (pc_conn pc')));
  rf_open : io_open (c_peer (pc_conn pc')) = io_open (c_peer (pc_conn pc));
  rf_out : io_out (c_peer (pc_conn pc')) = io_out (c_peer (pc_conn pc));
  rf_tlsout : io_tls (c_peer (pc_conn pc')) = io_tls (c_peer (pc_conn pc));
  rf_writes : io_writes (c_peer (pc_conn pc')) = io_writes (c_peer (pc_conn pc));
  rf_plain : c_tlsConnect (pc_conn pc) = false → c_fd (pc_conn pc') = c_fd (pc_conn pc);
}.

#[export] Instance read_frame_preorder : PreOrder read_frame.
Proof.
  split.
  - intros pc. split; try done. by destruct (c_fd (pc_conn pc)).
  - intros x y z [] []. split; try congruence.
    + rewrite rf_fd1, rf_fd0. by destruct (c_fd (pc_conn x)).
    + intros E. rewrite rf_plain1 by congruence. auto.
Qed.

(** The connection has its SelectFd, and an SSL object if it is to use one. *)
Definition conn_able (c : Connection) : bool := c_selectFd c && (negb (c_tlsConnect c) || sf_ssl (c_fd c)).

Lemma read_frame_able pc pc' : read_frame pc pc' → conn_able (pc_conn pc') = conn_able (pc_conn pc).
Proof. intros F. unfold conn_able. by rewrite (rf_selectFd _ _ F), (rf_tls _ _ F), (rf_fd _ _ F). Qed.

(** The next read will return bytes. *)
Definition willing_peer (p : Peer) : Prop :=
  io_open p = true ∧ io_in p ≠ [] ∧ match io_reads p with [] => False | e :: _ => 0 < io_n e end.
Definition willing (pc : PacketConnection) : Prop := willing_peer (c_peer (pc_conn pc)).

(** The three results of a read. *)
Definition read_result (pc pc' : PacketConnection) (len : Z) (data : list Z) (n : Z) : Prop :=
  (n = -1 ∧ pc_in pc' = pc_in pc ∧ ¬ willing pc) ∨
  (n = 0 ∧ pc_in pc' = pc_in pc ∧ ¬ willing pc) ∨
  (0 < n ≤ len ∧ n = Z.of_nat (length data) ∧ pc_in pc = data ++ pc_in pc' ∧ (length (pc_reads pc') < length (pc_reads pc))%nat).

Lemma sys_read_ok again p len : 0 < len → ∃ data n err p', sys_read again p len = (data, n, err, p') ∧
  io_open p' = io_open p ∧ io_out p' = io_out p ∧ io_tls p' = io_tls p ∧ io_writes p' = io_writes p ∧
  (n ≤ 0 ∧ io_in p' = io_in p ∧ ¬ willing_peer p ∨
   0 < n ≤ len ∧ n = Z.of_nat (length data) ∧ io_in p = data ++ io_in p' ∧ (length (io_reads p') < length (io_reads p))%nat).
Proof.
  intros L. unfold sys_read, willing_peer. destruct (io_open p) eqn:O; cbn [negb].
  2: { eexists _, _, _, _. split; [done|]. rewrite O. split_and!; try done. left. split_and!; [lia|done|naive_solver]. }
  destruct (io_reads p) as [|e rest].
  { eexists _, _, _, _. split; [done|]. rewrite O. split_and!; try done. left. split_and!; [lia|done|naive_solver]. }
  destruct (Z.leb_spec (io_n e) 0).
  { eexists _, _, _, _. split; [done|]. cbn. split_and!; try done. left. split_and!; [lia|done|]. intros (_ & _ & ?). lia. }
  destruct (Z.leb_spec (Z.min (Z.min (io_n e) len) (Z.of_nat (length (io_in p)))) 0) as [Hn|Hn].
  { eexists _, _, _, _. split; [done|]. cbn. split_and!; try done. left. split_and!; [lia|done|].
    intros (_ & N & _). apply N, nil_length_inv. lia. }
  eexists _, _, _, _. split; [done|]. cbn. split_and!; try done. right. rewrite length_take, take_drop. split_and!; lia || done.
Qed.

Lemma pc_read_ok pc len : conn_able (pc_conn pc) = true → 0 < len →
  ∃ data n pc', pc_read pc len = Ok (data, n, pc') ∧ pc_recv pc' = pc_recv pc ∧ read_frame pc pc' ∧ read_result pc pc' len data n.
Proof.
  intros Hs L. destruct pc as [[[f sel tls cl p] pcl] rc wb]. unfold conn_able in Hs. cbn in Hs. apply andb_true_iff in Hs as [-> Hs].
  unfold pc_read, conn_read, tlsRead, selectFd, the_ssl, read_result, willing. cbn [pc_side ps_conn c_tlsConnect c_selectFd]. destruct tls.
  - cbn in Hs. rewrite bind_Ok. cbn [c_peer c_fd set_tlsReadWantsWrite sf_ssl]. rewrite Hs, bind_Ok. destruct (sys_read_ok SSL_ERROR_WANT_READ p len L) as (d & n & err & p' & -> & O1 & O2 & O3 & O4 & D).
    destruct (Z.ltb_spec 0 n) as [Hn|Hn].
    + destruct D as [(? & _)|D]; [lia|]. rewrite bind_Ok. eexists _, _, _. split; [done|]. split; [done|].
      split; [|right; right; exact D]. split; cbn; try done; by destruct f.
    + destruct D as [(_ & D & Nw)|[? _]]; [|lia].
      repeat case_match; rewrite bind_Ok; eexists _, _, _; (split; [done|]); (split; [done|]);
        (split; [split; cbn; try done; by destruct f|]); auto.
  - rewrite bind_Ok. cbn [c_peer c_fd]. destruct (sys_read_ok EAGAIN p len L) as (d & n & err & p' & -> & O1 & O2 & O3 & O4 & D).
    destruct (Z.ltb_spec n 0) as [Hn|Hn]; [|destruct (Z.eqb_spec n 0) as [->|Hz]].
    + destruct D as [(_ & D & Nw)|[? _]]; [|lia].
      case_match; rewrite bind_Ok; eexists _, _, _; (split; [done|]); (split; [done|]);
        (split; [split; cbn; try done; by destruct f|]); auto.
    + destruct D as [(_ & D & Nw)|[? _]]; [|lia]. rewrite bind_Ok. eexists _, _, _. do 2 (split; [done|]). split; [split; cbn; try done; by destruct f|auto].
    + destruct D as [(? & _)|D]; [lia|]. rewrite bind_Ok. eexists _, _, _. do 2 (split; [done|]).
      split; [split; cbn; try done; by destruct f|right; right; exact D].
Qed.

(** ** The parser's states *)

(** The headers of the packet are being read: [p] of them are there. *)
Record recv_head (r : Recv) (p : list Z) : Prop := RecvHead {
  rh_state : rc_state r = WantHead;
  rh_buf : r_blocks (rc_buf r) = [];
  rh_have : rc_have r = Z.of_nat (length p);
  rh_short : (length p < 16)%nat;
  rh_length : length (rc_headBuf r) = 16%nat;
  rh_bytes : take (length p) (rc_headBuf r) = p;
}.

(** The blocks [d] are there, and [h] bytes of the block [b] after them. *)
Record recv_in (r : Recv) (d : list (list Z)) (b : list Z) (h : nat) : Prop := RecvIn {
  ri_state : rc_state r = WantBlock;
  ri_data : rc_data r = length d;
  ri_have : rc_have r = Z.of_nat h;
  ri_need : rc_need r = Z.of_nat (length b);
  ri_le : (h ≤ length b)%nat;
  ri_headBuf : length (rc_headBuf r) = 16%nat;
  ri_buf : ∃ m, rope_data (rc_buf r) = d ++ [m] ∧ length m = length b ∧ take h m = take h b;
}.

Lemma app_eq_split {A} (x y z w : list A) : x ++ y = z ++ w → (length x ≤ length z)%nat →
  take (length x) z = x ∧ y = drop (length x) z ++ w.
Proof.
  intros E L. split.
  - apply (f_equal (take (length x))) in E. rewrite take_app_length, take_app_le in E by done. done.
  - apply (f_equal (drop (length x))) in E. rewrite drop_app_length, drop_app_le in E by done. done.
Qed.

Lemma rope_store_ok r i off x m : rope_data r !! i = Some m → (off + length x ≤ length m)%nat →
  ∃ r', rope_store r (i, off) x = Ok r' ∧ rope_data r' = <[i := take off m ++ x ++ drop (off + length x) m]> (rope_data r) ∧
    rb_avail <$> r_blocks r' = rb_avail <$> r_blocks r ∧ r_ropeLen r' = r_ropeLen r.
Proof.
  intros E L. apply list_lookup_fmap_Some in E as (rb & -> & E). unfold rope_store. cbn [fst snd]. rewrite E. cbn [deref]. rewrite bind_Ok.
  rewrite mem_store_fits, bind_Ok by done. eexists. split; [done|]. cbn. rewrite !list_fmap_insert. cbn. split_and!; [done| |done].
  apply list_insert_id. by rewrite list_lookup_fmap, E.
Qed.

Lemma rope_load_ok r i off n m : rope_data r !! i = Some m → (off + n ≤ length m)%nat → rope_load r (i, off) n = Ok (take n (drop off m)).
Proof.
  intros E L. apply list_lookup_fmap_Some in E as (rb & -> & E). unfold rope_load. cbn [fst snd]. rewrite E. cbn [deref]. rewrite bind_Ok.
  unfold mem_load. by rewrite decide_True.
Qed.

Section Recv.
Context `{RopeLib}.

Lemma recv_store_ok r d b h x : recv_in r d b h → take (length x) (drop h b) = x → (h + length x ≤ length b)%nat →
  ∃ r', recv_store r x = Ok r' ∧ recv_in (rc_set_have r' (Z.of_nat h + Z.of_nat (length x))) d b (h + length x).
Proof.
  intros [Est Ed Eh En L Lh (m & Em & Lm & Tm)] Ex Lx. unfold recv_store. rewrite Eh, Ed. destruct (Z.ltb_spec (Z.of_nat h) 0); [lia|]. rewrite Nat2Z.id.
  destruct (rope_store_ok (rc_buf r) (length d) h x m) as (r' & -> & Er & _ & _); [rewrite Em; apply list_lookup_middle; done|lia|]. rewrite bind_Ok.
  eexists. split; [done|]. split; cbn; try done; [lia|]. exists (take h m ++ x ++ drop (h + length x) m).
  rewrite Er, Em. split_and!.
  - by rewrite insert_app_r_alt, Nat.sub_diag by lia.
  - rewrite !length_app, length_take, length_drop. lia.
  - rewrite Tm, take_app_ge by (rewrite length_take; lia). rewrite length_take, Nat.min_l by lia.
    replace (h + length x - h)%nat with (length x) by lia. rewrite take_app_length. rewrite <- Ex at 1. by rewrite <- take_take_drop.
Qed.

Implicit Types (pc : PacketConnection) (later more : list Z).

(** The parser closed the connection, because a read failed or found the end. *)
Definition closed_by pc pc' : Prop :=
  ∃ pc0 len data pc1, read_frame pc pc0 ∧ pc_read pc0 len = Ok (data, -1, pc1) ∧ pc' = pc_closed pc1 ∧ 0 < len.

Lemma closed_by_frame pc pc0 pc' : read_frame pc pc0 → closed_by pc0 pc' → closed_by pc pc'.
Proof. intros F (x & len & d & y & F' & ? & ?). exists x, len, d, y. split; [by etrans|done]. Qed.

Lemma pc_in_closed pc : pc_in (pc_closed pc) = pc_in pc.
Proof. unfold pc_in, pc_closed, pc_conn, conn_close. cbn. unfold conn_close. by destruct (c_selectFd _). Qed.

Lemma read_frame_set_recv pc pc' r : read_frame pc pc' → read_frame pc (pc_set_recv pc' r).
Proof. intros []. by split. Qed.

Lemma read_block_done fuel pc d b : recv_in (pc_recv pc) d b (length b) → read_block (S fuel) pc = Ok (None, pc).
Proof. intros [_ _ Eh En _ _ _]. cbn [read_block]. by rewrite Eh, En, Z.ltb_irrefl. Qed.

Lemma read_block_eq fuel pc : read_block (S fuel) pc =
  if rc_have (pc_recv pc) <? rc_need (pc_recv pc) then
    '(data, len, pc1) ← pc_read pc (rc_need (pc_recv pc) - rc_have (pc_recv pc));
    if len <? 0 then Ok (Some PClosed, pc_closed pc1)
    else if len =? 0 then Ok (Some PWait, pc1)
    else
      r ← recv_store (pc_recv pc1) data;
      let pc2 := pc_set_recv pc1 (rc_set_have r (rc_have (pc_recv pc) + len)) in
      if rc_have (pc_recv pc) + len <? rc_need (pc_recv pc) then Ok (Some PWait, pc2) else read_block fuel pc2
  else Ok (None, pc).
Proof. reflexivity. Qed.

(** Filling a block. *)
Lemma read_block_ok pc d b h later more : conn_able (pc_conn pc) = true → recv_in (pc_recv pc) d b h → (h < length b)%nat →
  pc_in pc ++ later = drop h b ++ more →
  ∃ o pc', read_block 2 pc = Ok (o, pc') ∧
    (length (pc_in pc') ≤ length (pc_in pc))%nat ∧ (willing pc → (length (pc_in pc') < length (pc_in pc))%nat) ∧
    (o = Some PClosed ∧ closed_by pc pc' ∨ read_frame pc pc' ∧
     (o = Some PWait ∧ (∃ h', recv_in (pc_recv pc') d b h' ∧ (h' < length b)%nat ∧ pc_in pc' ++ later = drop h' b ++ more) ∨
      o = None ∧ recv_in (pc_recv pc') d b (length b) ∧ pc_in pc' ++ later = more ∧ (length (pc_reads pc') < length (pc_reads pc))%nat)).
Proof.
  intros Hs I Hh E. rewrite read_block_eq, (ri_have _ _ _ _ I), (ri_need _ _ _ _ I). destruct (Z.ltb_spec (Z.of_nat h) (Z.of_nat (length b))); [|lia].
  destruct (pc_read_ok pc (Z.of_nat (length b) - Z.of_nat h) Hs) as (x & n & pc' & Erd & Er & F & R); [lia|]. rewrite Erd, bind_Ok.
  destruct R as [(-> & Ei & Nw)|[(-> & Ei & Nw)|(Hn & -> & Ei & Lr)]].
  - eexists _, _. split; [done|]. split_and!; [by rewrite pc_in_closed, Ei|done|]. left. split; [done|].
    eexists pc, _, x, pc'. split_and!; [reflexivity|exact Erd|done|cbn; lia].
  - eexists _, _. split; [done|]. split_and!; [by rewrite Ei|done|]. right. split; [done|]. left. split; [done|]. exists h. by rewrite Er, Ei.
  - destruct (Z.ltb_spec (Z.of_nat (length x)) 0); [lia|]. destruct (Z.eqb_spec (Z.of_nat (length x)) 0); [lia|].
    rewrite Ei, <- app_assoc in E. apply app_eq_split in E as [Ex E']; [|rewrite length_drop; lia]. rewrite drop_drop in E'.
    rewrite Er. destruct (recv_store_ok _ d b h x I Ex) as (r' & -> & I'); [lia|]. rewrite bind_Ok.
    assert (length (pc_in pc') < length (pc_in pc))%nat as Lt by (rewrite Ei, length_app; lia).
    destruct (Z.ltb_spec (Z.of_nat h + Z.of_nat (length x)) (Z.of_nat (length b))).
    + eexists _, _. split; [done|]. split_and!; [by apply Nat.lt_le_incl|done|]. right. split; [by apply read_frame_set_recv|]. left. split; [done|].
      exists (h + length x)%nat. split_and!; [done|lia|done].
    + assert (h + length x = length b)%nat as Eb by lia. rewrite Eb in I', E'. rewrite drop_all in E'.
      erewrite read_block_done by exact I'. eexists _, _. split; [done|].
      split_and!; [by apply Nat.lt_le_incl|done|]. right. split; [by apply read_frame_set_recv|]. right. split_and!; done.
Qed.

Lemma recv_in_full r d b : recv_in r d b (length b) → rope_data (rc_buf r) = d ++ [b].
Proof.
  intros [_ _ _ _ _ _ (m & -> & L & T)]. f_equal. f_equal. rewrite <- L in T at 1. by rewrite !firstn_all in T.
Qed.

Lemma appendBlock_data r n : ∃ m, length m = n ∧ rope_data (rope_appendBlock r n) = rope_data r ++ [m].
Proof.
  destruct (rope_appendBlock_new r n) as (a & _ & ->). exists (rope_fresh r n). rewrite fmap_app, rope_fresh_length. done.
Qed.

(** The next block is begun. *)
Lemma recv_next r d b b' : recv_in r d b (length b) → (4 ≤ length b')%nat →
  ∃ r', recv_appendBlock (MkRecv (rc_state r) (rc_buf r) (rc_data r) (rc_headBuf r) 0 (Z.of_nat (length b'))) (Z.of_nat (length b')) = Ok r' ∧
    recv_in r' (d ++ [b]) b' 0.
Proof.
  intros I L. pose proof (recv_in_full _ _ _ I) as Ed. unfold recv_appendBlock. destruct (Z.ltb_spec (Z.of_nat (length b')) 0); [lia|].
  eexists. split; [done|]. destruct (appendBlock_data (rc_buf r) (length b')) as (m & Lm & Em). destruct I.
  assert (length (r_blocks (rc_buf r)) = length (d ++ [b])) as El by (by rewrite <- Ed, length_fmap).
  split; cbn; try done; [lia|]. rewrite Nat2Z.id. exists m. by rewrite Em, Ed.
Qed.

(** Waiting inside the packet [bs], whose remaining bytes and [more] are to come. *)
Definition in_packet r (bs : list (list Z)) (rest more : list Z) : Prop :=
  ∃ d b rs h, bs = d ++ b :: rs ∧ chained (b :: rs) ∧ recv_in r d b h ∧ (h < length b)%nat ∧ rest = drop h b ++ concat rs ++ more.

Definition shrinks pc pc' : Prop :=
  (willing pc → (length (pc_in pc') < length (pc_in pc))%nat) ∧ (length (pc_in pc') ≤ length (pc_in pc))%nat.

(** How a run of the loop ends that starts inside a packet. *)
Definition turn_end pc pc' (b : list Z) (h : nat) (o : option parse_out) (P : Prop) : Prop :=
  (length (pc_in pc') ≤ length (pc_in pc))%nat ∧
  ((h < length b)%nat → willing pc → (length (pc_in pc') < length (pc_in pc))%nat) ∧
  (o = Some PClosed ∧ closed_by pc pc' ∨ read_frame pc pc' ∧ P).

Definition at_end (h : nat) (b : list Z) : nat := if decide (h = length b) then 1 else 0.

(** One turn: the current block. *)
Lemma read_block_turn fuel pc d b rs h later more : conn_able (pc_conn pc) = true → chained (b :: rs) → recv_in (pc_recv pc) d b h →
  pc_in pc ++ later = drop h b ++ concat rs ++ more → (length (pc_reads pc) + at_end h b < S fuel)%nat →
  ∃ o pc', read_block 2 pc = Ok (o, pc') ∧ turn_end pc pc' b h o
    (o = Some PWait ∧ in_packet (pc_recv pc') (d ++ b :: rs) (pc_in pc' ++ later) more ∨
     o = None ∧ recv_in (pc_recv pc') d b (length b) ∧ pc_in pc' ++ later = concat rs ++ more ∧ (length (pc_reads pc') < fuel)%nat).
Proof.
  intros Hs Ch I E Hf. unfold turn_end, at_end in *. case_decide as Eh.
  - subst h. rewrite (read_block_done 1 pc d b I). eexists _, _. split; [done|]. rewrite drop_all in E.
    split_and!; [done|lia|]. right. split; [reflexivity|]. right. split_and!; [done..|]. lia.
  - assert (h < length b)%nat as Lh by (pose proof (ri_le _ _ _ _ I); lia).
    destruct (read_block_ok pc d b h later (concat rs ++ more) Hs I Lh E) as (o & pc' & -> & D). exists o, pc'. split; [done|].
    destruct D as (L & W & D). split_and!; [done|by intros _|].
    destruct D as [D|(F & [(-> & h' & I' & Lh' & E')|(-> & I' & E' & R)])]; [by left|right; (split; [done|])..].
    + left. split; [done|]. by exists d, b, rs, h'.
    + right. split_and!; [done..|]. lia.
Qed.

Lemma read_blocks_ok fuel pc d b rs h later more : conn_able (pc_conn pc) = true → chained (b :: rs) → recv_in (pc_recv pc) d b h →
  pc_in pc ++ later = drop h b ++ concat rs ++ more → (length (pc_reads pc) + at_end h b < fuel)%nat →
  ∃ o pc', read_blocks fuel pc = Ok (o, pc') ∧ turn_end pc pc' b h o
    (o = Some PWait ∧ in_packet (pc_recv pc') (d ++ b :: rs) (pc_in pc' ++ later) more ∨
     o = None ∧ rope_data (rc_buf (pc_recv pc')) = d ++ b :: rs ∧ length (rc_headBuf (pc_recv pc')) = 16%nat ∧ pc_in pc' ++ later = more).
Proof.
  revert pc d b rs h. induction fuel as [|fuel IH]; intros pc d b rs h Hs Ch I E Hf; [lia|]. cbn [read_blocks].
  destruct (read_block_turn fuel pc d b rs h later more Hs Ch I E Hf) as (o & pc1 & E1 & D1). rewrite E1, bind_Ok.
  destruct D1 as (L1 & W1 & [(-> & D)|(F1 & [(-> & D)|(-> & I1 & E1' & R1)])]).
  - eexists _, _. split; [done|]. split_and!; [done..|]. by left.
  - eexists _, _. split; [done|]. split_and!; [done..|]. right. split; [done|]. by left.
  - pose proof (recv_in_full _ _ _ I1) as Ed1. rewrite (ri_data _ _ _ _ I1).
    destruct Ch as (L4 & L31 & En & Ch'). rewrite (rope_load_ok _ _ _ _ b) by (rewrite ?Ed1, ?list_lookup_middle by done; done || lia). rewrite bind_Ok.
    change (i32 (le_val (take 4 (drop 0 b)))) with (nextLen b). rewrite En. destruct rs as [|b' rs].
    + cbn [Z.eqb]. eexists _, _. split; [done|]. split_and!; [done..|]. right. split; [by apply read_frame_set_recv|]. right. split_and!; try done.
      by apply I1.
    + assert (4 ≤ length b')%nat as Lb' by apply Ch'. destruct (Z.eqb_spec (Z.of_nat (length b')) 0); [lia|].
      rewrite <- (ri_data _ _ _ _ I1). destruct (recv_next _ d b b' I1 Lb') as (r2 & -> & I2). rewrite bind_Ok.
      pose proof (read_frame_set_recv pc pc1 r2 F1) as F2.
      destruct (IH (pc_set_recv pc1 r2) (d ++ [b]) b' rs 0%nat) as (o & pc2 & E2 & D2); try done.
      { rewrite <- Hs. by apply read_frame_able. }
      { cbn in E1'. by rewrite <- app_assoc in E1'. }
      { change (pc_reads (pc_set_recv pc1 r2)) with (pc_reads pc1). unfold at_end. rewrite decide_False by lia. lia. }
      exists o, pc2. split; [done|]. rewrite <- app_assoc in D2. destruct D2 as (L3 & _ & D).
      change (pc_in (pc_set_recv pc1 r2)) with (pc_in pc1) in L3. split_and!; [lia|intros Lh W; specialize (W1 Lh W); lia|].
      destruct D as [(-> & C)|(F3 & D)]; [left; split; [done|by eapply closed_by_frame]|right; split; [by etrans|done]].
Qed.

(** ** The first headers *)

Lemma recv_head_store r p x : recv_head r p → (length p + length x ≤ 16)%nat →
  ∃ hb, mem_store (rc_headBuf r) (length p) x = Ok hb ∧ length hb = 16%nat ∧ take (length p + length x) hb = p ++ x.
Proof.
  intros [_ _ _ _ L T] Lx. rewrite mem_store_fits by lia. eexists. split; [done|]. split.
  - rewrite !length_app, length_take, length_drop. lia.
  - rewrite T. rewrite app_assoc, take_app_le by (rewrite length_app; lia). apply take_ge. rewrite length_app. lia.
Qed.

(** The first block is allocated and begins with the headers. *)
Lemma first_block_ok r b rs : wf_packet (b :: rs) → r_blocks (rc_buf r) = [] → rc_headBuf r = take 16 b →
  ∃ r', first_block r = Ok r' ∧ recv_in r' [] b 16.
Proof.
  intros (L16 & Ef & L4 & L31 & _) Eb Eh. unfold first_block, mem_load. rewrite Eh, length_take.
  change (Z.to_nat SIZEOF_PacketBlockHeader + FIRST_LEN)%nat with 4%nat. rewrite decide_True, bind_Ok by lia.
  assert (i32 (le_val (take 4 (drop 4 (take 16 b)))) = Z.of_nat (length b)) as ->.
  { rewrite <- Ef. unfold firstLen. by rewrite skipn_firstn_comm, take_take. }
  unfold recv_appendBlock. destruct (Z.ltb_spec (Z.of_nat (length b)) 0); [lia|]. rewrite bind_Ok. cbn [rc_buf rc_data rc_headBuf rc_need]. rewrite Nat2Z.id, Eb.
  destruct (appendBlock_data (rc_buf r) (length b)) as (m & Lm & Em). rewrite Eb in Em. cbn [fmap list_fmap app] in Em.
  destruct (rope_store_ok (rope_appendBlock (rc_buf r) (length b)) 0 0 (take 16 b) m) as (buf & Es & Ed & _); [by rewrite Em|rewrite length_take; lia|].
  cbn [length]. rewrite Es, bind_Ok. eexists. split; [done|]. rewrite length_take, Nat.min_l in Ed by lia.
  split; cbn; try done; [rewrite length_take; lia|]. rewrite Ed, Em. eexists. split; [done|]. split.
  - rewrite !length_app, !length_take, length_drop. lia.
  - change (take 16 (take 16 b ++ drop 16 m) = take 16 b). apply take_app_length'. rewrite length_take. lia.
Qed.

(** Waiting in the headers of the packet [bs]. *)
Definition before_packet r (bs : list (list Z)) (rest more : list Z) : Prop :=
  ∃ p, recv_head r p ∧ p ++ rest = concat bs ++ more.

Lemma want_head_ok pc b rs later more : conn_able (pc_conn pc) = true → wf_packet (b :: rs) →
  before_packet (pc_recv pc) (b :: rs) (pc_in pc ++ later) more →
  ∃ o pc', want_head pc = Ok (o, pc') ∧
    (length (pc_in pc') ≤ length (pc_in pc))%nat ∧ (willing pc → (length (pc_in pc') < length (pc_in pc))%nat) ∧
    (o = Some PClosed ∧ closed_by pc pc' ∨ read_frame pc pc' ∧
     (o = Some PWait ∧ before_packet (pc_recv pc') (b :: rs) (pc_in pc' ++ later) more ∨
      o = None ∧ recv_in (pc_recv pc') [] b 16 ∧ pc_in pc' ++ later = drop 16 b ++ concat rs ++ more)).
Proof.
  intros Hs Wf (p & I & E). pose proof I as [Est Eb Eh Ls Lh Tp]. unfold want_head. rewrite Eh. change HEAD_SZ with 16.
  destruct (pc_read_ok pc (16 - Z.of_nat (length p)) Hs) as (x & n & pc' & Erd & Er & F & R); [lia|]. rewrite Erd, bind_Ok.
  destruct R as [(-> & Ei & Nw)|[(-> & Ei & Nw)|(Hn & -> & Ei & Lr)]].
  - eexists _, _. split; [done|]. split_and!; [by rewrite pc_in_closed, Ei|done|]. left. split; [done|].
    eexists pc, _, x, pc'. split_and!; [reflexivity|exact Erd|done|cbn; lia].
  - eexists _, _. split; [done|]. split_and!; [by rewrite Ei|done|]. right. split; [done|]. left. split; [done|]. exists p. by rewrite Er, Ei.
  - destruct (Z.ltb_spec (Z.of_nat (length x)) 0); [lia|]. destruct (Z.eqb_spec (Z.of_nat (length x)) 0); [lia|].
    destruct (Z.ltb_spec (Z.of_nat (length p)) 0); [lia|]. rewrite Nat2Z.id, Er.
    destruct (recv_head_store _ p x I) as (hb & -> & Lhb & Thb); [lia|]. rewrite bind_Ok.
    assert (length (pc_in pc') < length (pc_in pc))%nat as Lt by (rewrite Ei, length_app; lia).
    assert (16 ≤ length b)%nat as L16 by apply Wf.
    destruct (Z.ltb_spec (Z.of_nat (length p) + Z.of_nat (length x)) 16).
    + eexists _, _. split; [done|]. split_and!; [by apply Nat.lt_le_incl|done|]. right. split; [by apply read_frame_set_recv|]. left. split; [done|].
      exists (p ++ x). rewrite <- app_assoc. split; [|by rewrite Ei, <- app_assoc in E].
      split; cbn; rewrite ?length_app; try done; lia.
    + assert (length (p ++ x) = 16)%nat as El by (rewrite length_app; lia).
      assert (pc_in pc' ++ later = drop 16 b ++ concat rs ++ more ∧ p ++ x = take 16 b) as [E' Ex].
      { rewrite Ei in E. change (concat (b :: rs)) with (b ++ concat rs) in E. rewrite <- !app_assoc, app_assoc in E.
        apply app_eq_split in E as [T E']; [|lia]. rewrite El in T, E'. done. }
      destruct (first_block_ok (rc_set_headBuf (pc_recv pc) hb) b rs Wf Eb) as (r' & -> & I').
      { cbn. rewrite <- Ex, <- Thb. symmetry. apply take_ge. lia. }
      rewrite bind_Ok. eexists _, _. split; [done|]. split_and!; [by apply Nat.lt_le_incl|done|]. right. split; [by apply read_frame_set_recv|]. right. by split_and!.
Qed.

(** ** The whole parser *)

Definition wire (pkts : list (list (list Z))) : list Z := concat ((λ bs, concat bs) <$> pkts).

(** The parser is somewhere in a stream of the packets [pkts], of which [later] has
    not arrived. *)
Definition at_stream pc (pkts : list (list (list Z))) later : Prop :=
  Forall wf_packet pkts ∧
  match pkts with
  | [] => recv_head (pc_recv pc) [] ∧ pc_in pc ++ later = []
  | bs :: ps => before_packet (pc_recv pc) bs (pc_in pc ++ later) (wire ps) ∨ in_packet (pc_recv pc) bs (pc_in pc ++ later) (wire ps)
  end.

(** Between packets. *)
Lemma at_stream_between pc pkts later : Forall wf_packet pkts → recv_head (pc_recv pc) [] → pc_in pc ++ later = wire pkts → at_stream pc pkts later.
Proof. intros W I E. split; [done|]. destruct pkts as [|bs ps]; [done|]. left. by exists []. Qed.

Definition parse_end pc pc' pkts later (out : parse_out) : Prop :=
  match out with
  | PWait => read_frame pc pc' ∧ at_stream pc' pkts later
  | PClosed => closed_by pc pc'
  | PPacket buf => ∃ bs ps, pkts = bs :: ps ∧ rope_data buf = bs ∧ read_frame pc pc' ∧ at_stream pc' ps later
  end.

Lemma want_block_ok pc d b rs h ps later : conn_able (pc_conn pc) = true → wf_packet (d ++ b :: rs) → Forall wf_packet ps →
  chained (b :: rs) → recv_in (pc_recv pc) d b h → pc_in pc ++ later = drop h b ++ concat rs ++ wire ps →
  ∃ out pc', want_block pc = Ok (out, pc') ∧ (length (pc_in pc') ≤ length (pc_in pc))%nat ∧
    ((h < length b)%nat → willing pc → (length (pc_in pc') < length (pc_in pc))%nat) ∧ parse_end pc pc' ((d ++ b :: rs) :: ps) later out.
Proof.
  intros Hs Wf Wps Ch I E. unfold want_block.
  destruct (read_blocks_ok (block_turns pc) pc d b rs h later (wire ps) Hs Ch I E) as (o & pc' & -> & L & W & D).
  { unfold block_turns, at_end. fold (pc_conn pc). fold (pc_reads pc). case_decide; lia. }
  rewrite bind_Ok. destruct D as [(-> & C)|(F & [(-> & D)|(-> & Ed & Lh & E')])].
  - eexists _, _. split; [done|]. by split_and!.
  - eexists _, _. split; [done|]. split_and!; [done..|]. split; [done|]. split; [by constructor|]. by right.
  - eexists _, _. split; [done|]. split_and!; [done..|]. eexists _, _. split_and!; [done..|by apply read_frame_set_recv|].
    apply at_stream_between; [done| |done]. by split; cbn; try done; lia.
Qed.

Lemma willing_in pc : willing pc → pc_in pc ≠ [].
Proof. by intros (_ & ? & _). Qed.

(** Nothing is to come. *)
Lemma parse_nothing pc later : conn_able (pc_conn pc) = true → Forall wf_packet [] → recv_head (pc_recv pc) [] → pc_in pc ++ later = [] →
  ∃ out pc', parsePacket pc = Ok (out, pc') ∧ (length (pc_in pc') ≤ length (pc_in pc))%nat ∧
    (willing pc → (length (pc_in pc') < length (pc_in pc))%nat) ∧ parse_end pc pc' [] later out.
Proof.
  intros Hs Wf I E. pose proof I as [Est _ Eh _ _ _]. unfold parsePacket, want_head. rewrite Est, Eh. change HEAD_SZ with 16.
  destruct (pc_read_ok pc (16 - Z.of_nat (length (A := Z) [])) Hs) as (x & n & pc' & Erd & Er & F & R); [done|]. rewrite Erd, bind_Ok.
  destruct R as [(-> & Ei & Nw)|[(-> & Ei & Nw)|(Hn & -> & Ei & Lr)]].
  - eexists _, _. split; [done|]. split_and!; [by rewrite pc_in_closed, Ei|done|].
    eexists pc, _, x, pc'. split_and!; [reflexivity|exact Erd|done|cbn; lia].
  - eexists _, _. split; [done|]. split_and!; [by rewrite Ei|done|]. split; [done|]. split; [done|]. by rewrite Er, Ei.
  - apply app_nil in E as [E _]. rewrite E in Ei. symmetry in Ei. apply app_nil in Ei as [-> _]. cbn in Hn. lia.
Qed.

Lemma parsePacket_ok pc pkts later : conn_able (pc_conn pc) = true → at_stream pc pkts later →
  ∃ out pc', parsePacket pc = Ok (out, pc') ∧ (length (pc_in pc') ≤ length (pc_in pc))%nat ∧
    (willing pc → (length (pc_in pc') < length (pc_in pc))%nat) ∧ parse_end pc pc' pkts later out.
Proof.
  intros Hs [Wf A]. destruct pkts as [|bs ps].
  { destruct A as [I E]. by apply parse_nothing. }
  inversion Wf as [|? ? Wb Wps]; subst. destruct A as [B|(d & b & rs & h & -> & Ch & I & Lh & E)].
  - destruct bs as [|b rs]; [done|].
    destruct (want_head_ok pc b rs later (wire ps) Hs Wb B) as (o & pc1 & E1 & L1 & W1 & D1). unfold parsePacket.
    destruct B as (p & [-> _ _ _ _ _] & _). rewrite E1, bind_Ok. destruct D1 as [(-> & C)|(F & [(-> & D)|(-> & I1 & E1')])].
    + eexists _, _. split; [done|]. by split_and!.
    + eexists _, _. split; [done|]. split_and!; [done..|]. split; [done|]. split; [done|]. by left.
    + destruct (want_block_ok pc1 [] b rs 16 ps later) as (out & pc2 & E2 & L2 & _ & D2); try done.
      { rewrite <- Hs. by apply read_frame_able. }
      { apply Wb. }
      exists out, pc2. split; [done|]. split_and!; [lia|intros W; specialize (W1 W); lia|].
      destruct out as [| |buf]; cbn in D2 |- *.
      * destruct D2 as [F2 D2]. split; [by etrans|done].
      * by eapply closed_by_frame.
      * destruct D2 as (bs' & ps' & Ep & ? & F2 & D2). exists bs', ps'. split_and!; [done..|by etrans|done].
  - unfold parsePacket. rewrite (ri_state _ _ _ _ I).
    destruct (want_block_ok pc d b rs h ps later Hs Wb Wps Ch I E) as (out & pc2 & E2 & L2 & W2 & D2).
    exists out, pc2. split_and!; [done..|by apply W2|done].
Qed.
End Recv.
