(* ===== verification/PacketSend.v ===== *)
(** * Making packets

    A packet under construction: the pieces allocated so far, where they are and what
    is in them.  Finishing the packet fills in the headers and leaves the pieces as
    they are, and [pktFind] finds each at its offset. *)

From S2P Require Import Prelude Rope Conn ItQueue Packet PacketRecv.

(** ** Pieces *)

Record field := Field {
  fl_off : Z;
  fl_ptr : rptr;
  fl_bytes : list Z;
}.

(** How many bytes there are before block [i]. *)
Definition base (ds : list (list Z)) (i : nat) : Z := Z.of_nat (length (concat (take i ds))).

(** A piece is in its block, behind the headers, at its offset. *)
Definition field_in (ds : list (list Z)) (f : field) : Prop :=
  ∃ m, ds !! (fl_ptr f).1 = Some m ∧ ((fl_ptr f).2 + length (fl_bytes f) ≤ length m)%nat ∧
    take (length (fl_bytes f)) (drop (fl_ptr f).2 m) = fl_bytes f ∧
    (4 ≤ (fl_ptr f).2)%nat ∧ ((fl_ptr f).1 = 0%nat → (16 ≤ (fl_ptr f).2)%nat) ∧
    fl_off f = base ds (fl_ptr f).1 + Z.of_nat (fl_ptr f).2.

(** [g] was allocated after [f]. *)
Definition field_before (f g : field) : Prop :=
  ((fl_ptr f).1 < (fl_ptr g).1)%nat ∨ (fl_ptr f).1 = (fl_ptr g).1 ∧ ((fl_ptr f).2 + length (fl_bytes f) ≤ (fl_ptr g).2)%nat.

Lemma base_lengths ds ds' i : length <$> ds = length <$> ds' → base ds i = base ds' i.
Proof.
  intros E. unfold base. f_equal. revert i ds' E. induction ds as [|d ds IH]; intros [|i] [|d' ds'] E; cbn in *; try done.
  injection E as E1 E2. rewrite !length_app, E1. f_equal. by apply IH.
Qed.

Lemma base_app ds1 ds2 i : (i ≤ length ds1)%nat → base (ds1 ++ ds2) i = base ds1 i.
Proof. intros L. unfold base. by rewrite take_app_le. Qed.

Lemma insert_lengths (ds : list (list Z)) i m m' : ds !! i = Some m → length m' = length m → length <$> <[i := m']> ds = length <$> ds.
Proof. intros E L. rewrite list_fmap_insert. apply list_insert_id. by rewrite list_lookup_fmap, E, L. Qed.

(** Looking at one part of a buffer after a store into another. *)
Lemma take_drop_store (m x : list Z) o off n : (o + length x ≤ length m)%nat → (off + n ≤ length m)%nat →
  (off + n ≤ o ∨ o + length x ≤ off)%nat → take n (drop off (take o m ++ x ++ drop (o + length x) m)) = take n (drop off m).
Proof.
  intros L1 L2 D. destruct (mem_store m o x) as [m'| |] eqn:E; [|unfold mem_store in E; by case_decide..].
  pose proof (mem_store_length _ _ _ _ E) as Lm. assert (mem_load m' off n = mem_load m off n) as El.
  { destruct D; [by eapply mem_load_store_before|by eapply mem_load_store_after]. }
  apply mem_store_Ok in E as [_ ->]. unfold mem_load in El. rewrite !decide_True in El by lia. by injection El.
Qed.

Lemma field_in_store ds f i m o x : field_in ds f → ds !! i = Some m → (o + length x ≤ length m)%nat →
  (i ≠ (fl_ptr f).1 ∨ (fl_ptr f).2 + length (fl_bytes f) ≤ o ∨ o + length x ≤ (fl_ptr f).2)%nat →
  field_in (<[i := take o m ++ x ++ drop (o + length x) m]> ds) f.
Proof.
  intros (m0 & E & L & T & Rest) Ei Lx D.
  assert (length (take o m ++ x ++ drop (o + length x) m) = length m) as Lm by (rewrite !length_app, length_take, length_drop; lia).
  pose proof (insert_lengths ds i m _ Ei Lm) as Ll. unfold field_in. rewrite (base_lengths _ _ _ Ll).
  destruct (decide (i = (fl_ptr f).1)) as [->|Ne].
  - rewrite E in Ei. injection Ei as ->. exists (take o m ++ x ++ drop (o + length x) m).
    rewrite list_lookup_insert_eq by (by eapply lookup_lt_Some). split_and!; [done|lia| |apply Rest..].
    rewrite take_drop_store; [done|lia|lia|]. destruct D as [?|?]; [done|lia].
  - exists m0. by rewrite list_lookup_insert_ne.
Qed.

(** Writing into a piece. *)
Lemma field_in_update ds f i m k x : field_in ds f → ds !! (fl_ptr f).1 = Some m → (k + length x ≤ length (fl_bytes f))%nat →
  i = ((fl_ptr f).2 + k)%nat →
  field_in (<[(fl_ptr f).1 := take i m ++ x ++ drop (i + length x) m]> ds)
    (Field (fl_off f) (fl_ptr f) (take k (fl_bytes f) ++ x ++ drop (k + length x) (fl_bytes f))).
Proof.
  intros (m0 & E & L & T & Rest) Em Lk ->. rewrite E in Em. injection Em as ->. set (off := (fl_ptr f).2) in *.
  assert (length (take k (fl_bytes f) ++ x ++ drop (k + length x) (fl_bytes f)) = length (fl_bytes f)) as Lb by (rewrite !length_app, length_take, length_drop; lia).
  set (i := (off + k)%nat). assert (length (take i m ++ x ++ drop (i + length x) m) = length m) as Lm by (rewrite !length_app, length_take, length_drop; lia).
  exists (take i m ++ x ++ drop (i + length x) m). cbn [fl_ptr fl_bytes fl_off]. rewrite list_lookup_insert_eq by (by eapply lookup_lt_Some).
  rewrite (base_lengths _ _ _ (insert_lengths ds _ m _ E Lm)), Lb. split_and!; [done|lia| |apply Rest..].
  set (n := length (fl_bytes f)) in *. rewrite <- T.
  rewrite drop_app_le by (rewrite length_take; lia). rewrite skipn_firstn_comm.
  rewrite take_app_ge by (rewrite length_take, length_drop; lia). rewrite length_take, length_drop, Nat.min_l by lia.
  rewrite take_app_ge by lia. rewrite take_take, Nat.min_l by lia. f_equal; [f_equal; lia|]. f_equal.
  rewrite skipn_firstn_comm, drop_drop. f_equal; [lia|]. f_equal. lia.
Qed.

(** ** [pktFind] *)

Lemma find_in_ok rbs i j (m : list Z) off : (rb_data <$> rbs) !! j = Some m → (off < length m)%nat →
  find_in rbs i (base (rb_data <$> rbs) j + Z.of_nat off) = Some ((i + j)%nat, off).
Proof.
  revert i j. induction rbs as [|rb rbs IH]; intros i [|j] E L; [done..| |].
  - injection E as <-. cbn [find_in]. change (base (rb_data <$> rb :: rbs) 0 + Z.of_nat off) with (Z.of_nat off). unfold rb_length. destruct (Z.ltb_spec (Z.of_nat off) (Z.of_nat (length (rb_data rb)))); [|lia].
    by rewrite Nat2Z.id, Nat.add_0_r.
  - cbn [find_in]. unfold base, rb_length. cbn [fmap list_fmap take concat]. rewrite length_app.
    destruct (Z.ltb_spec (Z.of_nat (length (rb_data rb) + length (concat (take j (rb_data <$> rbs)))) + Z.of_nat off) (Z.of_nat (length (rb_data rb)))); [lia|].
    match goal with |- find_in _ _ ?z = _ => replace z with (base (rb_data <$> rbs) j + Z.of_nat off) by (unfold base; lia) end.
    rewrite (IH (S i) j E L). f_equal. f_equal. lia.
Qed.

Lemma pktFind_ok r f : field_in (rope_data r) f → fl_bytes f ≠ [] → pktFind r (fl_off f) = Some (fl_ptr f).
Proof.
  intros (m & E & L & T & L4 & _ & ->) N. unfold pktFind. destruct (Z.eqb_spec (base (rope_data r) (fl_ptr f).1 + Z.of_nat (fl_ptr f).2) 0).
  { unfold base in *. lia. }
  rewrite (find_in_ok _ _ _ m _ E); [by destruct (fl_ptr f)|]. destruct (fl_bytes f); [done|]. cbn in L. lia.
Qed.

(** ** A packet under construction *)

Definition in_order (fs : list field) : Prop :=
  ∀ i j f g, (i < j)%nat → fs !! i = Some f → fs !! j = Some g → field_before f g.

Record pw_at (r : Rope) (id : Z) (fs : list field) : Prop := PwAt {
  pa_ok : rope_ok r;
  pa_avail : Forall (λ b, 0 ≤ rb_avail b) (r_blocks r);
  pa_len : Forall (λ d, 4 ≤ length d)%nat (rope_data r);
  pa_head : ∃ b rest, rope_data r = b :: rest ∧ (16 ≤ length b)%nat ∧ take 4 (drop 12 b) = le_bytes 4 id;
  pa_size : r_ropeLen r < 2 ^ 31;
  pa_fields : Forall (field_in (rope_data r)) fs;
  pa_order : in_order fs;
}.

Lemma rope_bytes_data r : rope_bytes r = concat (rope_data r).
Proof. done. Qed.

Lemma in_order_snoc fs g : in_order fs → Forall (λ f, field_before f g) fs → in_order (fs ++ [g]).
Proof.
  intros O F i j f h L Ei Ej. destruct (decide (j < length fs)%nat) as [Lj|Lj].
  - rewrite lookup_app_l in Ei by lia. rewrite lookup_app_l in Ej by done. exact (O i j f h L Ei Ej).
  - rewrite lookup_app_r in Ej by lia. assert (j - length fs = 0)%nat as Ej0.
    { apply lookup_lt_Some in Ej. cbn in Ej. lia. }
    rewrite Ej0 in Ej. injection Ej as <-. assert (j = length fs) as -> by lia. rewrite lookup_app_l in Ei by lia.
    rewrite Forall_lookup in F. by eapply F.
Qed.

(** Appending to the last block, and adding a block, leave pieces where they are. *)
Lemma field_in_extend ds b d f : field_in (ds ++ [b]) f → field_in (ds ++ [b ++ d]) f.
Proof.
  intros (m & E & L & T & L4 & L16 & Eo). pose proof (lookup_lt_Some _ _ _ E) as Li. rewrite length_app in Li. cbn in Li. unfold field_in.
  rewrite base_app by lia. rewrite base_app in Eo by lia. destruct (decide ((fl_ptr f).1 < length ds)%nat) as [Lt|Ge].
  - rewrite lookup_app_l in E by done. exists m. rewrite lookup_app_l by done. done.
  - assert ((fl_ptr f).1 = length ds) as Ei by lia. rewrite Ei in *. rewrite list_lookup_middle in E by done. injection E as <-. exists (b ++ d).
    rewrite list_lookup_middle by done. rewrite length_app. split_and!; [done|lia| |done..]. rewrite drop_app_le by lia. rewrite take_app_le; [done|]. rewrite length_drop. lia.
Qed.

Lemma field_in_snoc ds d f : field_in ds f → field_in (ds ++ [d]) f.
Proof.
  intros (m & E & L & T & L4 & L16 & Eo). pose proof (lookup_lt_Some _ _ _ E) as Li. exists m. rewrite lookup_app_l, base_app by lia. done.
Qed.

Section Writer.
Context `{RopeLib}.
Implicit Types (r : Rope) (w : PacketWriter).

(** A new piece in the last block. *)
Lemma alloc_here r id fs n : pw_at r id fs → rope_fits r n = true → 0 ≤ n → r_ropeLen r + n < 2 ^ 31 →
  ∃ p bs, append_space r n = Ok (p, rope_append r (rope_fresh r (Z.to_nat n))) ∧ length bs = Z.to_nat n ∧
    pw_at (rope_append r (rope_fresh r (Z.to_nat n))) id (fs ++ [Field (r_ropeLen r) p bs]).
Proof.
  intros [O A L (b0 & rest & Eh & L16 & Ti) Sz F Ord] Fit Hn Hs. unfold append_space. destruct (Z.ltb_spec n 0); [lia|].
  set (d := rope_fresh r (Z.to_nat n)). assert (length d = Z.to_nat n) as Ld by apply rope_fresh_length.
  unfold rope_fits, r_tblk in Fit. destruct (last (r_blocks r)) as [b|] eqn:Eb; [|done]. pose proof Eb as (bs & Ebs)%last_Some.
  eexists _, d. split; [unfold append_at, r_tblk; by rewrite Eb, Fit|]. split; [done|]. apply Z.leb_le in Fit.
  pose proof (rope_append_fits r d bs b Ebs) as Ea. rewrite Ld, Z2Nat.id in Ea by lia. specialize (Ea Fit).
  assert (rope_data (rope_append r d) = (rb_data <$> bs) ++ [rb_data b ++ d]) as Ed by (by rewrite Ea, fmap_app).
  assert (rope_data r = (rb_data <$> bs) ++ [rb_data b]) as Er by (by rewrite Ebs, fmap_app).
  assert (r_ropeLen r = base (rope_data r) (length bs) + Z.of_nat (length (rb_data b))) as Eo.
  { unfold rope_ok in O. rewrite O, rope_bytes_data, Er. unfold base. rewrite take_app_length' by (by rewrite length_fmap). rewrite concat_app, length_app. cbn. rewrite app_nil_r. lia. }
  assert (4 ≤ length (rb_data b))%nat as Lb.
  { rewrite Er in L. apply Forall_app in L as [_ L]. by inversion L. }
  assert (length bs = 0%nat → (16 ≤ length (rb_data b))%nat) as L0.
  { intros E0. destruct bs; [|done]. rewrite Er in Eh. injection Eh as -> _. done. }
  rewrite Ebs, last_length. cbn [pred].
  split.
  - by apply rope_append_ok.
  - rewrite Ea. rewrite Ebs in A. apply Forall_app in A as [A1 A2]. apply Forall_app. split; [done|]. constructor; [cbn; lia|done].
  - rewrite Ed. rewrite Er in L. apply Forall_app in L as [L1 L2]. apply Forall_app. split; [done|]. constructor; [rewrite length_app; lia|done].
  - rewrite Ed. rewrite Er in Eh. destruct bs as [|x bs]; cbn in Eh |- *; injection Eh as <- <-.
    + eexists _, _. split; [done|]. rewrite length_app. split; [lia|]. rewrite drop_app_le by lia. rewrite take_app_le; [done|rewrite length_drop; lia].
    + by eexists _, _.
  - rewrite rope_append_len, Ld. lia.
  - rewrite Ed. apply Forall_app. split.
    + rewrite Er in F. eapply Forall_impl; [exact F|]. intros f. apply field_in_extend.
    + constructor; [|done]. exists (rb_data b ++ d). cbn [fl_ptr fl_off fl_bytes fst snd]. rewrite list_lookup_middle by (by rewrite length_fmap).
      rewrite length_app, base_app by (by rewrite length_fmap). split_and!; [done|lia| |done..|].
      * by rewrite drop_app_length, firstn_all.
      * rewrite Eo, Er, base_app by (by rewrite length_fmap). done.
  - apply in_order_snoc; [done|]. eapply Forall_impl; [exact F|]. intros f (m & E & Lm & _). unfold field_before. cbn [fl_ptr fst snd].
    pose proof (lookup_lt_Some _ _ _ E) as Li. rewrite Er, length_app, length_fmap in Li. cbn in Li.
    destruct (decide ((fl_ptr f).1 = length bs)) as [Ei|]; [|left; lia]. right. split; [done|]. rewrite Er, Ei, list_lookup_middle in E by (by rewrite length_fmap).
    injection E as <-. done.
Qed.

(** A new piece in a block of its own, behind the block's header. *)
Lemma alloc_new r id fs n : pw_at r id fs → rope_fits r n = false → 0 ≤ n → r_ropeLen r + 4 + n < 2 ^ 31 →
  ∃ bs, append_space r (4 + n) = Ok ((length (r_blocks r), 0%nat), rope_append r (rope_fresh r (Z.to_nat (4 + n)))) ∧ length bs = Z.to_nat n ∧
    pw_at (rope_append r (rope_fresh r (Z.to_nat (4 + n)))) id (fs ++ [Field (r_ropeLen r + 4) (length (r_blocks r), 4%nat) bs]).
Proof.
  intros [O A L (b0 & rest & Eh & L16 & Ti) Sz F Ord] Fit Hn Hs. unfold append_space. destruct (Z.ltb_spec (4 + n) 0); [lia|].
  set (d := rope_fresh r (Z.to_nat (4 + n))). assert (length d = Z.to_nat (4 + n)) as Ld by apply rope_fresh_length.
  assert (rope_fits r (4 + n) = false) as Fit'.
  { unfold rope_fits in *. destruct (r_tblk r); [|done]. apply Z.leb_gt in Fit. apply Z.leb_gt. lia. }
  exists (drop 4 d). split; [|split; [rewrite length_drop; lia|]].
  { unfold append_at. unfold rope_fits in Fit'. destruct (r_tblk r); [|done]. by rewrite Fit'. }
  destruct (rope_append_new r d) as (a & Ha & Ea); [by rewrite Ld, Z2Nat.id by lia|].
  assert (rope_data (rope_append r d) = rope_data r ++ [d]) as Ed by (by rewrite Ea, fmap_app). split.
  - by apply rope_append_ok.
  - rewrite Ea. apply Forall_app. split; [done|]. by constructor.
  - rewrite Ed. apply Forall_app. split; [done|]. constructor; [lia|done].
  - rewrite Ed, Eh. by eexists _, _.
  - rewrite rope_append_len, Ld. lia.
  - rewrite Ed. apply Forall_app. split.
    + eapply Forall_impl; [exact F|]. intros f. apply field_in_snoc.
    + constructor; [|done]. exists d. cbn [fl_ptr fl_off fl_bytes fst snd]. rewrite list_lookup_middle by (by rewrite length_fmap).
      rewrite length_drop. split_and!; [done|lia| |lia| |].
      * rewrite <- length_drop. by rewrite firstn_all.
      * intros E0. apply (f_equal length) in Eh. rewrite length_fmap, E0 in Eh. done.
      * unfold rope_ok in O. rewrite O. unfold base. rewrite take_app_length' by (by rewrite length_fmap). rewrite rope_bytes_data. lia.
  - apply in_order_snoc; [done|]. eapply Forall_impl; [exact F|]. intros f (m & E & _). left. apply lookup_lt_Some in E. by rewrite length_fmap in E.
Qed.

Lemma pw_len_nonneg r id fs : pw_at r id fs → 0 ≤ r_ropeLen r.
Proof. intros [O _ _ _ _ _ _]. unfold rope_ok in O. lia. Qed.

Lemma pkt_allocBytes_ok w id fs nb : pw_at (pw_buf w) id fs → 0 ≤ nb → r_ropeLen (pw_buf w) + 4 + nb < 2 ^ 31 →
  ∃ p off r bs, pkt_allocBytes w nb = Ok (p, off, pw_set_buf w r) ∧ length bs = Z.to_nat nb ∧ pw_at r id (fs ++ [Field off p bs]) ∧
    r_ropeLen r ≤ r_ropeLen (pw_buf w) + 4 + nb.
Proof.
  intros P Hn Hs. pose proof (pw_len_nonneg _ _ _ P) as Nn. unfold pkt_allocBytes. destruct (rope_fits (pw_buf w) nb) eqn:Fit.
  - destruct (alloc_here _ id fs nb P Fit Hn) as (p & bs & -> & L & P'); [lia|]. rewrite bind_Ok. eexists p, _, _, bs.
    rewrite wrapu_small by lia. split_and!; [done..|]. rewrite rope_append_len, rope_fresh_length. lia.
  - change SIZEOF_PacketBlockHeader with 4.
    destruct (alloc_new _ id fs nb P Fit Hn Hs) as (bs & -> & L & P'). rewrite bind_Ok. eexists _, _, _, bs. cbn [fst snd].
    rewrite wrapu_small by lia. split_and!; [done..|]. rewrite rope_append_len, rope_fresh_length. lia.
Qed.

(** ** Stores *)

Lemma rope_ok_lengths r r' : rope_ok r → length <$> rope_data r' = length <$> rope_data r → r_ropeLen r' = r_ropeLen r → rope_ok r'.
Proof.
  intros O Ll El. unfold rope_ok in *. rewrite El, O, !rope_bytes_data. f_equal. pose proof (base_lengths _ _ (length (rope_data r)) Ll) as B. unfold base in B.
  apply Nat2Z.inj in B. rewrite !firstn_all2 in B; [done..|]. apply (f_equal length) in Ll. rewrite !length_fmap in *. lia.
Qed.

Lemma store_data r i o x m r' : rope_data r !! i = Some m → (o + length x ≤ length m)%nat →
  rope_data r' = <[i := take o m ++ x ++ drop (o + length x) m]> (rope_data r) → r_ropeLen r' = r_ropeLen r →
  rb_avail <$> r_blocks r' = rb_avail <$> r_blocks r → rope_ok r → Forall (λ b, 0 ≤ rb_avail b) (r_blocks r) →
  Forall (λ d, 4 ≤ length d)%nat (rope_data r) →
  rope_ok r' ∧ Forall (λ b, 0 ≤ rb_avail b) (r_blocks r') ∧ Forall (λ d, 4 ≤ length d)%nat (rope_data r') ∧ length <$> rope_data r' = length <$> rope_data r.
Proof.
  intros E L Ed El Ea O A F. assert (length <$> rope_data r' = length <$> rope_data r) as Ll.
  { rewrite Ed. apply (insert_lengths _ _ m); [done|]. rewrite !length_app, length_take, length_drop. lia. }
  split_and!; [| | |done].
  - by apply (rope_ok_lengths r).
  - rewrite <- (Forall_fmap rb_avail (λ a, 0 ≤ a)) in A |- *. by rewrite Ea.
  - rewrite <- (Forall_fmap length (λ n, 4 ≤ n)%nat) in F |- *. by rewrite Ll.
Qed.

(** Into the headers of the first block: the first two words, or the kind. *)
Lemma store_header r id fs h field v : pw_at r id fs → h = (0, 4)%nat → (field = 0 ∨ field = 4 ∨ field = 8)%nat →
  ∃ r' b rest, set_header r h field v = Ok r' ∧ pw_at r' (if decide (field = 8%nat) then v else id) fs ∧
    rope_data r = b :: rest ∧ rope_data r' = (take (4 + field) b ++ le_bytes 4 v ++ drop (8 + field) b) :: rest ∧ r_ropeLen r' = r_ropeLen r.
Proof.
  intros [O A L (b & rest & Eh & L16 & Ti) Sz F Ord] -> Hf. unfold set_header. cbn [fst snd].
  assert (rope_data r !! 0%nat = Some b) as E0 by (by rewrite Eh).
  destruct (rope_store_ok r 0 (4 + field) (le_bytes 4 v) b E0) as (r' & -> & Ed & Ea & El); [rewrite le_bytes_length; lia|].
  destruct (store_data r 0 (4 + field) (le_bytes 4 v) b r' E0) as (O' & A' & L' & Ll); try done; [rewrite le_bytes_length; lia|].
  pose proof Ed as Ed'. rewrite Eh, le_bytes_length in Ed'. replace (4 + field + 4)%nat with (8 + field)%nat in Ed' by lia.
  exists r', b, rest. split_and!; [done| |done..]. split; [done..| |by rewrite El| |done].
  - eexists _, _. split; [exact Ed'|]. rewrite !length_app, length_take, length_drop, le_bytes_length. split; [lia|].
    case_decide as Hd.
    + subst field. rewrite drop_app_length' by (rewrite length_take; lia). by rewrite take_app_length' by (by rewrite le_bytes_length).
    + rewrite <- Ti. replace (8 + field)%nat with (4 + field + length (le_bytes 4 v))%nat by (rewrite le_bytes_length; lia).
      apply take_drop_store; rewrite ?le_bytes_length; lia.
  - rewrite Ed. eapply Forall_impl; [exact F|]. intros f Hf'. apply field_in_store; [done..|rewrite le_bytes_length; lia|].
    destruct Hf' as (m & _ & _ & _ & _ & Hf16 & _). rewrite le_bytes_length. destruct (decide ((fl_ptr f).1 = 0%nat)) as [E|]; [|by left; congruence].
    specialize (Hf16 E). right. right. lia.
Qed.

(** Into a piece. *)
Lemma store_field r id fs k f o x : pw_at r id fs → fs !! k = Some f → (o + length x ≤ length (fl_bytes f))%nat →
  ∃ r', rope_store r ((fl_ptr f).1, (fl_ptr f).2 + o)%nat x = Ok r' ∧ r_ropeLen r' = r_ropeLen r ∧
    pw_at r' id (<[k := Field (fl_off f) (fl_ptr f) (take o (fl_bytes f) ++ x ++ drop (o + length x) (fl_bytes f))]> fs).
Proof.
  intros [O A L (b & rest & Eh & L16 & Ti) Sz F Ord] Ek Lx. pose proof (Forall_lookup_1 _ _ _ _ F Ek) as Hf. pose proof Hf as (m & Em & Lm & Tm & L4 & Lh16 & _).
  destruct (rope_store_ok r (fl_ptr f).1 ((fl_ptr f).2 + o) x m Em) as (r' & Es & Ed & Ea & El); [lia|].
  destruct (store_data r (fl_ptr f).1 ((fl_ptr f).2 + o) x m r' Em) as (O' & A' & L' & Ll); try done; [lia|].
  exists r'. split_and!; [done..|].
  assert (length (take o (fl_bytes f) ++ x ++ drop (o + length x) (fl_bytes f)) = length (fl_bytes f)) as Lb by (rewrite !length_app, length_take, length_drop; lia).
  split; [done..| |by rewrite El| |].
  - rewrite Ed, Eh in *. destruct (fl_ptr f) as [i j]; cbn [fst snd] in *. destruct i as [|i]; [|by eexists _, _].
    injection Em as ->. eexists _, _. split; [done|]. rewrite !length_app, length_take, length_drop. split; [lia|]. rewrite <- Ti. apply take_drop_store; lia.
  - rewrite Ed. apply Forall_lookup. intros i g Eg. apply list_lookup_insert_Some in Eg as [(-> & <- & _)|(Ne & Eg)].
    + by apply field_in_update with (k := o).
    + pose proof (Forall_lookup_1 _ _ _ _ F Eg) as Hg. apply field_in_store; [done..|lia|].
      destruct (decide (i < k)%nat) as [Lt|Ge].
      * destruct (Ord _ _ _ _ Lt Eg Ek) as [?|[_ ?]]; [left; lia|right; left; lia].
      * assert (k < i)%nat as Gt by lia. destruct (Ord _ _ _ _ Gt Ek Eg) as [?|[_ ?]]; [left; lia|right; right; lia].
  - intros i j g h Lij Ei Ej. assert (∀ i g, <[k := Field (fl_off f) (fl_ptr f) (take o (fl_bytes f) ++ x ++ drop (o + length x) (fl_bytes f))]> fs !! i = Some g →
      ∃ g0, fs !! i = Some g0 ∧ fl_ptr g = fl_ptr g0 ∧ length (fl_bytes g) = length (fl_bytes g0)) as Same.
    { intros n y Ey. apply list_lookup_insert_Some in Ey as [(-> & <- & _)|(_ & Ey)]; [by exists f|by exists y]. }
    destruct (Same i g Ei) as (g0 & Eg0 & P1 & P2). destruct (Same j h Ej) as (h0 & Eh0 & P3 & P4).
    unfold field_before. rewrite P1, P2, P3. exact (Ord _ _ _ _ Lij Eg0 Eh0).
Qed.

(** ** Opening *)

Lemma open_header ID : ∃ d r1 r2, rope_append rope_none (rope_fresh rope_none 16) = r1 ∧ length d = 16%nat ∧ rope_data r1 = [d] ∧
  set_header r1 (0, 4)%nat MSG_ID ID = Ok r2 ∧ pw_at r2 ID [] ∧ r_ropeLen r2 = 16.
Proof.
  set (d := rope_fresh rope_none 16). assert (length d = 16%nat) as Ld by apply rope_fresh_length.
  destruct (rope_append_new rope_none d) as (a & Ha & Ea); [done|].
  assert (rope_data (rope_append rope_none d) = [d]) as Ed by (by rewrite Ea).
  destruct (rope_store_ok (rope_append rope_none d) 0 12 (le_bytes 4 ID) d) as (r2 & Es & Ed2 & Ea2 & El); [by rewrite Ed|rewrite le_bytes_length; lia|].
  destruct (store_data (rope_append rope_none d) 0 12 (le_bytes 4 ID) d r2) as (O & A & L & _); try done.
  { by rewrite Ed. }
  { rewrite le_bytes_length. lia. }
  { by apply rope_append_ok. }
  { rewrite Ea. by constructor. }
  { rewrite Ed. constructor; [lia|done]. }
  assert (r_ropeLen r2 = 16) as Ls by (rewrite El, rope_append_len, Ld; done).
  exists d, (rope_append rope_none d), r2. split_and!; [done..| |done]. split; [done..| |rewrite Ls; lia|done|by intros i j f g _ E].
  rewrite Ed in Ed2. eexists _, []. split; [exact Ed2|]. rewrite !length_app, length_take, length_drop, le_bytes_length. split; [lia|].
  rewrite drop_app_length' by (rewrite length_take; lia). by rewrite take_app_length' by (by rewrite le_bytes_length).
Qed.

Lemma first_alloc w : pkt_allocBytes (pw_set_buf w rope_none) SIZEOF_PacketHeader =
  Ok ((0, 4)%nat, 4, pw_set_buf w (rope_append rope_none (rope_fresh rope_none 16))).
Proof. reflexivity. Qed.

Lemma pkt_open_ok w ID SZ : 0 ≤ SZ < 2 ^ 31 - 20 →
  ∃ msg off w', pkt_open w ID SZ = Ok (msg, w') ∧ pw_toSend w' = Some (0, 4)%nat ∧ pw_content w' = Some msg ∧
    pw_at (pw_buf w') ID [Field off msg (replicate (Z.to_nat SZ) 0)] ∧ r_ropeLen (pw_buf w') ≤ 20 + SZ.
Proof.
  intros HS. destruct (open_header ID) as (d & r1 & r2 & E1 & Ld & Ed & E2 & P2 & L2). unfold pkt_open.
  rewrite first_alloc, bind_Ok. cbn [pw_buf pw_set_buf]. rewrite E1, E2, bind_Ok. cbn [pw_toSend pw_content].
  destruct (pkt_allocBytes_ok (pw_set_buf (pw_set_buf w r1) r2) ID [] SZ P2) as (p & off & r3 & bs & Ea & Lb & P3 & L3); [lia|cbn; lia|].
  cbn [pw_buf pw_set_buf] in L3. rewrite Ea, bind_Ok. cbn [pw_buf pw_set_buf].
  destruct (store_field r3 ID _ 0 (Field off p bs) 0 (replicate (Z.to_nat SZ) 0) P3 eq_refl) as (r4 & E4 & L4 & P4).
  { cbn. rewrite length_replicate. lia. }
  cbn [fl_ptr fst snd] in E4. rewrite Nat.add_0_r, <- surjective_pairing in E4. rewrite E4, bind_Ok.
  cbn [fl_off fl_ptr fl_bytes take app] in P4. rewrite length_replicate in P4. rewrite (drop_ge bs) in P4 by lia. rewrite app_nil_r in P4.
  destruct (store_header r4 ID _ (0, 4)%nat TOTAL_LEN 0 P4 eq_refl) as (r5 & b & rest & E5 & P5 & _ & _ & L5); [unfold TOTAL_LEN; lia|].
  rewrite E5, bind_Ok. eexists p, off, _. split; [done|]. split_and!; [done..|]. cbn. lia.
Qed.

(** ** Finishing *)

Fixpoint set_lens (ds : list (list Z)) : list (list Z) :=
  match ds with
  | [] => []
  | d :: rest => (le_bytes 4 (match rest with [] => 0 | d' :: _ => Z.of_nat (length d') end) ++ drop 4 d) :: set_lens rest
  end.

Lemma set_lens_lengths ds : Forall (λ d, 4 ≤ length d)%nat ds → length <$> set_lens ds = length <$> ds.
Proof. induction 1 as [|d ds L _ IH]; cbn [set_lens fmap list_fmap]; [done|]. rewrite length_app, le_bytes_length, length_drop. f_equal; [lia|exact IH]. Qed.

Lemma set_next_lens_ok r i rbs pre : rope_data r = pre ++ (rb_data <$> rbs) → i = length pre → Forall (λ d, 4 ≤ length d)%nat (rb_data <$> rbs) →
  ∃ r', set_next_lens r i rbs = Ok r' ∧ rope_data r' = pre ++ set_lens (rb_data <$> rbs) ∧ r_ropeLen r' = r_ropeLen r ∧
    rb_avail <$> r_blocks r' = rb_avail <$> r_blocks r.
Proof.
  revert r i pre. induction rbs as [|rb rbs IH]; intros r i pre E -> F; cbn [set_next_lens]; [by exists r|].
  inversion F as [|? ? L F']; subst. destruct (rope_store_ok r (length pre) 0 (le_bytes 4 (match rbs with [] => 0 | rb :: _ => rb_length rb end)) (rb_data rb)) as (r1 & -> & Ed & Ea & El).
  { rewrite E. by apply list_lookup_middle. }
  { rewrite le_bytes_length. lia. }
  rewrite bind_Ok. destruct (IH r1 (S (length pre)) (pre ++ [le_bytes 4 (match rbs with [] => 0 | rb :: _ => rb_length rb end) ++ drop 4 (rb_data rb)])) as (r' & -> & Ed' & El' & Ea').
  - rewrite Ed, E, le_bytes_length. cbn [fmap list_fmap take app]. rewrite insert_app_r_alt, Nat.sub_diag by lia. cbn [insert list_insert Nat.add]. by rewrite <- app_assoc.
  - rewrite length_app. cbn. lia.
  - done.
  - exists r'. split; [done|]. rewrite Ed', <- app_assoc. split_and!; [|congruence..]. f_equal. cbn [fmap list_fmap set_lens app]. f_equal. f_equal. f_equal. by destruct rbs.
Qed.

Lemma le_val_small n : 0 ≤ n < 2 ^ 31 → i32 (le_val (le_bytes 4 n)) = n.
Proof.
  intros L. rewrite le_val_bytes. change (2 ^ (8 * Z.of_nat 4)) with (2 ^ 32). rewrite Z.mod_small by lia. apply wraps_small; lia.
Qed.

Lemma set_lens_chained ds : Forall (λ d, 4 ≤ length d)%nat ds → Forall (λ d, Z.of_nat (length d) < 2 ^ 31) ds → chained (set_lens ds).
Proof.
  induction 1 as [|d ds L F IH]; intros F31; cbn [set_lens chained]; [done|]. inversion F31 as [|? ? L31 F31']; subst.
  rewrite length_app, le_bytes_length, length_drop. split_and!; [lia|lia| |by apply IH].
  unfold nextLen. rewrite take_app_length' by (by rewrite le_bytes_length). destruct ds as [|d' ds]; [done|]. cbn [set_lens].
  inversion F31'; subst. inversion F; subst. rewrite le_val_small by lia. rewrite length_app, le_bytes_length, length_drop. lia.
Qed.

(** Behind the first word nothing changes. *)
Lemma drop_past_len n m k : (4 ≤ k)%nat → drop k (le_bytes 4 n ++ drop 4 m) = drop k m.
Proof.
  intros L. rewrite drop_app_ge by (rewrite le_bytes_length; lia). rewrite le_bytes_length, drop_drop. f_equal. lia.
Qed.

Lemma field_in_set_lens ds f : Forall (λ d, 4 ≤ length d)%nat ds → field_in ds f → field_in (set_lens ds) f.
Proof.
  intros F (m & E & L & T & L4 & Rest). pose proof (set_lens_lengths ds F) as Ll.
  assert (∃ n, set_lens ds !! (fl_ptr f).1 = Some (le_bytes 4 n ++ drop 4 m)) as [n En].
  { clear -E. revert E. generalize (fl_ptr f).1. induction ds as [|d ds IH]; intros [|i] E; [done..| |].
    - injection E as ->. by eexists.
    - by apply IH. }
  exists (le_bytes 4 n ++ drop 4 m). rewrite (base_lengths _ _ _ Ll), length_app, le_bytes_length, length_drop. split_and!; [done|lia| |done|apply Rest..].
  by rewrite drop_past_len.
Qed.

Lemma block_le_rope r d : rope_ok r → d ∈ rope_data r → Z.of_nat (length d) ≤ r_ropeLen r.
Proof.
  intros O (l1 & l2 & E)%list_elem_of_split. unfold rope_ok in O. rewrite O, rope_bytes_data, E, concat_app, length_app. cbn. rewrite length_app. lia.
Qed.

Lemma cons_eq {A} (x y : A) l k : x :: l = y :: k → x = y ∧ l = k.
Proof. by intros [= -> ->]. Qed.

(** A finished packet: well-formed, of the kind and with the pieces it was given. *)
Lemma pkt_finish_ok w id fs : pw_at (pw_buf w) id fs → pw_toSend w = Some (0, 4)%nat →
  ∃ r b rest, pkt_finish w = Ok (pw_set_buf w r) ∧ rope_ok r ∧ rope_data r = b :: rest ∧ wf_packet (rope_data r) ∧
    Forall (field_in (rope_data r)) fs ∧ take 4 (drop 12 b) = le_bytes 4 id ∧ take 4 (drop 8 b) = le_bytes 4 (r_ropeLen r) ∧
    r_ropeLen r = r_ropeLen (pw_buf w).
Proof.
  intros P Et. unfold pkt_finish. rewrite Et. cbn [deref]. rewrite bind_Ok.
  destruct (store_header _ id fs (0, 4)%nat TOTAL_LEN (r_ropeLen (pw_buf w)) P eq_refl) as (r1 & b1 & rest1 & E1 & P1 & D0 & D1 & L1); [unfold TOTAL_LEN; lia|].
  assert (∃ rb, head (r_blocks (pw_buf w)) = Some rb ∧ rb_length rb = Z.of_nat (length b1)) as (rb & -> & Lrb).
  { destruct (r_blocks (pw_buf w)) as [|rb l]; [done|]. injection D0 as <- _. by exists rb. }
  cbn [deref]. rewrite bind_Ok, E1, bind_Ok, Lrb.
  change (if decide (TOTAL_LEN = 8%nat) then r_ropeLen (pw_buf w) else id) with id in P1.
  destruct (store_header r1 id fs (0, 4)%nat FIRST_LEN (Z.of_nat (length b1)) P1 eq_refl) as (r2 & b2 & rest2 & E2 & P2 & D1' & D2 & L2); [unfold FIRST_LEN; lia|].
  rewrite E2, bind_Ok. change (if decide (FIRST_LEN = 8%nat) then Z.of_nat (length b1) else id) with id in P2.
  destruct (set_next_lens_ok r2 0 (r_blocks r2) []) as (r3 & -> & D3 & L3 & A3); [done..|apply P2|]. cbn [app] in D3. rewrite bind_Ok.
  destruct P2 as [O2 A2 Len2 (b3 & rest3 & Eh & L16 & Ti) Sz F2 _]. rewrite D1 in D1'. apply cons_eq in D1' as [<- <-]. rewrite Eh in D2. apply cons_eq in D2 as [E3 ->].
  unfold FIRST_LEN, TOTAL_LEN in E3. cbn [Nat.add] in E3.
  assert (Z.of_nat (length b1) < 2 ^ 31) as L31.
  { assert (b1 ∈ rope_data (pw_buf w)) as Hb by (rewrite D0; left). pose proof (block_le_rope _ _ (pa_ok _ _ _ P) Hb). pose proof (pa_size _ _ _ P). lia. }
  assert (16 ≤ length b1)%nat as L16'.
  { destruct P as [_ _ _ (x & y & Ex & Lx & _) _ _ _]. rewrite D0 in Ex. by injection Ex as <- _. }
  assert (length b1 = length b3) as Lb.
  { rewrite E3. do 2 rewrite ?length_app, ?le_bytes_length, ?length_take, ?length_drop.
    lia. }
  pose proof (set_lens_lengths _ Len2) as Ll. rewrite <- D3 in Ll.
  rewrite Eh in D3. cbn [set_lens] in D3. eexists r3, _, _. split; [done|].
  split; [by eapply (rope_ok_lengths r2)|]. split; [exact D3|]. split_and!; [|rewrite D3| | |congruence].
  - rewrite D3. split; [|split].
    + rewrite length_app, le_bytes_length, length_drop. lia.
    + unfold firstLen. rewrite drop_past_len by lia. rewrite E3 at 1. rewrite drop_app_length' by (rewrite length_take, length_app, length_take; lia).
      rewrite take_app_length' by (by rewrite le_bytes_length). rewrite le_val_small by lia. rewrite length_app, le_bytes_length, length_drop. lia.
    + change (chained (set_lens (b3 :: rest1))). rewrite <- Eh. apply set_lens_chained; [done|]. apply Forall_forall.
      intros d Hd. pose proof (block_le_rope r2 d O2 Hd). lia.
  - change (Forall (field_in (set_lens (b3 :: rest1))) fs). rewrite <- Eh. eapply Forall_impl; [exact F2|]. intros f. by apply field_in_set_lens.
  - rewrite drop_past_len by lia. done.
  - rewrite drop_past_len by lia. rewrite E3, app_assoc, drop_app_length' by (rewrite length_app, le_bytes_length, length_take, !length_app, length_take, le_bytes_length; lia).
    rewrite drop_app_length' by (rewrite length_take; lia). rewrite take_app_length' by (by rewrite le_bytes_length). congruence.
Qed.
End Writer.
