(* ===== verification/PacketProps.v ===== *)
(** * What packets promise

    A packet is made, sent through a write buffer that takes it in any number of
    pieces, received in any number of other pieces, and handed on.  It arrives as it
    was made, and in order. *)

From S2P Require Import Prelude Rope Conn ConnProps ItQueue Packet PacketRecv PacketSend.

(** ** Packet connections write as the buffer expects *)

(** What the other side's program gets: the bytes written to the descriptor, or
    taken by TLS. *)
Definition pc_stream (s : PcSide) : list Z :=
  if c_tlsConnect (ps_conn s) then io_tls (c_peer (ps_conn s)) else io_out (c_peer (ps_conn s)).

Lemma SSL_write_ok p d n err p' : SSL_write p d = (n, err, p') →
  n ≤ Z.of_nat (length d) ∧ io_open p' = io_open p ∧ io_in p' = io_in p ∧ io_out p' = io_out p ∧ io_tls p' = io_tls p ++ take (Z.to_nat n) d.
Proof.
  unfold SSL_write. destruct (next_write _ _ _) as [[n0 e0] p0] eqn:E. intros [= -> -> <-].
  apply next_write_range in E as (L & -> & -> & -> & -> & _); [done|lia].
Qed.

Lemma conn_write_ok c f d : selectFd c = Ok f → negb (c_tlsConnect c) || sf_ssl f = true →
  ∃ n c' f', conn_write c d = Ok (n, c') ∧ n ≤ Z.of_nat (length d) ∧ selectFd c' = Ok f' ∧ same_wants f f' ∧ c_tlsConnect c' = c_tlsConnect c ∧ io_open (c_peer c') = io_open (c_peer c) ∧ io_in (c_peer c') = io_in (c_peer c) ∧
  (if c_tlsConnect c then io_tls (c_peer c') = io_tls (c_peer c) ++ take (Z.to_nat n) d
   else io_out (c_peer c') = io_out (c_peer c) ++ take (Z.to_nat n) d).
Proof.
  destruct c as [f0 sel tls cl p]. unfold selectFd, conn_write, tlsWrite. cbn [c_selectFd c_fd c_tlsConnect c_peer]. destruct sel; [|done]. intros [= <-] Ab.
  destruct tls; cbn in Ab.
  - destruct (Z.leb_spec (Z.of_nat (length d)) 0) as [L0|L0].
    { destruct d; [|cbn in L0; lia]. eexists _, _, _. split; [done|]. cbn. split_and!; try done; [by destruct f0|by rewrite app_nil_r]. }
    cbn [selectFd c_selectFd]. rewrite bind_Ok. unfold the_ssl. cbn [c_fd set_tlsWriteWantsRead sf_ssl]. rewrite Ab, bind_Ok. destruct (SSL_write p d) as [[n err] p'] eqn:E. apply SSL_write_ok in E as (L & O & I & Out & T).
    destruct (Z.leb_spec n 0) as [Ln|Ln].
    + assert (io_tls p' = io_tls p ++ take 0 d) as T' by (by replace (Z.to_nat n) with 0%nat in T by lia).
      repeat case_match; eexists _, _, _; (split; [done|]); cbn; split_and!; try done; try lia; by destruct f0.
    + eexists _, _, _. split; [done|]. cbn. split_and!; try done; by destruct f0.
  - cbn [selectFd c_selectFd]. rewrite bind_Ok. destruct (sys_write p d) as [[n err] p'] eqn:E. apply sys_write_ok in E as (L & O & I & T & Out).
    eexists _, _, _. split; [done|]. cbn. split_and!; try done; by destruct f0.
Qed.

#[export] Program Instance pc_funcs_ok : WriteFuncsOk PcSide := {
  wf_stream := pc_stream;
  wf_able s f := negb (c_tlsConnect (ps_conn s)) || sf_ssl f;
}.
Next Obligation. intros s f f' E. cbn. by rewrite E. Qed.
Next Obligation. intros s f f0 E. cbn in *. unfold selectFd in *. cbn. by destruct (c_selectFd (ps_conn s)). Qed.
Next Obligation. done. Qed.
Next Obligation. done. Qed.
Next Obligation. intros s f E. cbn in *. unfold selectFd in *. cbn. done. Qed.
Next Obligation. done. Qed.
Next Obligation. done. Qed.
Next Obligation.
  intros s f d E Ab. cbn in *. destruct (conn_write_ok (ps_conn s) f d E Ab) as (n & c' & f' & -> & L & E' & W & Et & O & _ & D). rewrite bind_Ok.
  eexists _, _, f'. split; [done|]. cbn. rewrite Et. assert (sf_ssl f' = sf_ssl f) as -> by (by rewrite W). split_and!; [done..|]. unfold pc_stream. cbn. rewrite ?Et. by destruct (c_tlsConnect (ps_conn s)).
Qed.
Next Obligation.
  intros s f E. cbn in *. eexists. split; [done|]. unfold pc_stream, pc_bufClose, conn_close. cbn. unfold conn_close.
  unfold selectFd in E. by destruct (c_selectFd (ps_conn s)).
Qed.

Section Packets.
Context `{RopeLib}.

(** ** Making a packet *)

(** What the code that makes a packet does after opening it: allocate a piece, write
    into the piece number [k]. *)
Inductive pop :=
| PAlloc (nb : Z)
| PStore (k o : nat) (x : list Z).

(** The packet, and its pieces with what was written there. *)
Definition pkt_op (s : PacketWriter * list field) (o : pop) : res (PacketWriter * list field) :=
  let '(w, fs) := s in
  match o with
  | PAlloc nb =>
      '(p, off, w) ← pkt_allocBytes w nb;
      bs ← rope_load (pw_buf w) p (Z.to_nat nb);
      Ok (w, fs ++ [Field off p bs])
  | PStore k o x =>
      f ← deref (fs !! k);
      r ← rope_store (pw_buf w) ((fl_ptr f).1, (fl_ptr f).2 + o)%nat x;
      Ok (pw_set_buf w r,
          <[k := Field (fl_off f) (fl_ptr f) (take o (fl_bytes f) ++ x ++ drop (o + length x) (fl_bytes f))]> fs)
  end.

Fixpoint pkt_ops (s : PacketWriter * list field) (os : list pop) : res (PacketWriter * list field) :=
  match os with
  | [] => Ok s
  | o :: os => s ← pkt_op s o; pkt_ops s os
  end.

(** Open, fill and finish a packet. *)
Definition pkt_make (w : PacketWriter) (ID SZ : Z) (os : list pop) : res (PacketWriter * list field) :=
  '(msg, w) ← pkt_open w ID SZ;
  let off := base (rope_data (pw_buf w)) msg.1 + Z.of_nat msg.2 in
  '(w, fs) ← pkt_ops (w, [Field off msg (replicate (Z.to_nat SZ) 0)]) os;
  w ← pkt_finish w;
  Ok (w, fs).

(** The pieces have these sizes: each write stays inside its piece, and the packet
    below 2 GiB. *)
Fixpoint ops_fit (sizes : list nat) (total : Z) (os : list pop) : Prop :=
  match os with
  | [] => total < 2 ^ 31
  | PAlloc nb :: os => 0 ≤ nb ∧ total + 4 + nb < 2 ^ 31 ∧ ops_fit (sizes ++ [Z.to_nat nb]) (total + 4 + nb) os
  | PStore k o x :: os => (∃ n, sizes !! k = Some n ∧ (o + length x ≤ n)%nat) ∧ ops_fit sizes total os
  end.

Abbreviation sizes_of fs := (length <$> (fl_bytes <$> fs)).

Lemma field_load r f : field_in (rope_data r) f → rope_load r (fl_ptr f) (length (fl_bytes f)) = Ok (fl_bytes f).
Proof. intros (m & E & L & T & _). rewrite (surjective_pairing (fl_ptr f)). rewrite (rope_load_ok _ _ _ _ m) by done. by rewrite T. Qed.

Lemma pkt_ops_ok os w id fs total : pw_at (pw_buf w) id fs → pw_toSend w = Some (0, 4)%nat → r_ropeLen (pw_buf w) ≤ total →
  ops_fit (sizes_of fs) total os →
  ∃ w' fs', pkt_ops (w, fs) os = Ok (w', fs') ∧ pw_at (pw_buf w') id fs' ∧ pw_toSend w' = Some (0, 4)%nat.
Proof.
  revert w fs total. induction os as [|[nb|k o x] os IH]; intros w fs total P Et Lt Fit; cbn [pkt_ops pkt_op ops_fit] in *.
  - by exists w, fs.
  - destruct Fit as (Hn & Hb & Fit). destruct (pkt_allocBytes_ok w id fs nb P Hn) as (p & off & r & bs & -> & Lb & P' & L'); [lia|]. rewrite bind_Ok.
    pose proof (pa_fields _ _ _ P') as F. apply Forall_app in F as [_ F]. inversion F as [|? ? Fl _]; subst.
    pose proof (field_load _ _ Fl) as El. cbn [fl_ptr fl_bytes] in El. rewrite Lb in El. cbn [pw_buf pw_set_buf]. rewrite El, !bind_Ok.
    apply (IH _ _ (total + 4 + nb)); [done|done|cbn; lia|]. rewrite !fmap_app. cbn. by rewrite Lb.
  - destruct Fit as [(n & En & Ln) Fit]. rewrite list_lookup_fmap, list_lookup_fmap in En. destruct (fs !! k) as [f|] eqn:Ek; [|done]. injection En as <-.
    cbn [deref]. rewrite bind_Ok. destruct (store_field _ id fs k f o x P Ek Ln) as (r & -> & El & P'). rewrite !bind_Ok.
    apply (IH _ _ total); [done|done|cbn; lia|]. rewrite !list_fmap_insert. cbn. rewrite !length_app, length_take, length_drop.
    rewrite list_insert_id; [done|]. rewrite !list_lookup_fmap, Ek. cbn. f_equal. lia.
Qed.

(** A packet as it is sent: well-formed blocks, the kind, and the pieces. *)
Definition carries (bs : list (list Z)) (id : Z) (fs : list field) : Prop :=
  wf_packet bs ∧ Forall (field_in bs) fs ∧ ∃ b rest, bs = b :: rest ∧ take 4 (drop 12 b) = le_bytes 4 id.

Lemma pkt_make_ok w ID SZ os : 0 ≤ SZ < 2 ^ 31 - 20 → ops_fit [Z.to_nat SZ] (20 + SZ) os →
  ∃ w' fs, pkt_make w ID SZ os = Ok (w', fs) ∧ rope_ok (pw_buf w') ∧ carries (rope_data (pw_buf w')) ID fs.
Proof.
  intros HS Fit. unfold pkt_make. destruct (pkt_open_ok w ID SZ HS) as (msg & off & w1 & -> & Et & _ & P & L1). rewrite bind_Ok.
  assert (off = base (rope_data (pw_buf w1)) msg.1 + Z.of_nat msg.2) as <-.
  { pose proof (pa_fields _ _ _ P) as F. inversion F as [|? ? (m & _ & _ & _ & _ & _ & Eo) _]; subst. exact Eo. }
  destruct (pkt_ops_ok os w1 ID _ (20 + SZ) P Et L1) as (w2 & fs & -> & P2 & Et2).
  { cbn. by rewrite length_replicate. }
  rewrite bind_Ok. destruct (pkt_finish_ok w2 ID fs P2 Et2) as (r & b & rest & -> & O & Ed & Wf & F & Ti & _). rewrite bind_Ok.
  eexists _, fs. split; [done|]. split; [done|]. split_and!; [done..|]. by exists b, rest.
Qed.

(** ** Receiving *)

(** Bytes arrive, and it is settled how the next reads will go. *)
Definition arrive (pc : PacketConnection) (x : list Z) (rs : list IoResult) : PacketConnection :=
  let c := pc_conn pc in let p := c_peer c in
  pc_set_side pc (ps_set_conn (pc_side pc)
    (c_set_peer c (MkPeer (io_open p) (io_in p ++ x) (io_out p) (io_tls p) (io_reads p ++ rs) (io_writes p)))).

Definition dispatched (out : parse_out) : list (list (list Z)) :=
  match out with PPacket buf => [rope_data buf] | PWait | PClosed => [] end.

(** A connection that has parsed as often as it liked, with the packets it handed on
    and the bytes that arrived. *)
Inductive pc_run : PacketConnection → list (list (list Z)) → list Z → Prop :=
| run_start pc : conn_able (pc_conn pc) = true → recv_head (pc_recv pc) [] → pc_in pc = [] → pc_run pc [] []
| run_arrive pc ds a x rs : pc_run pc ds a → pc_run (arrive pc x rs) ds (a ++ x)
| run_parse pc ds a out pc' : pc_run pc ds a → parsePacket pc = Ok (out, pc') → out ≠ PClosed → pc_run pc' (ds ++ dispatched out) a.

Lemma at_stream_arrive pc pkts x later rs : at_stream pc pkts (x ++ later) → at_stream (arrive pc x rs) pkts later.
Proof.
  unfold at_stream. change (pc_recv (arrive pc x rs)) with (pc_recv pc). change (pc_in (arrive pc x rs)) with (pc_in pc ++ x).
  rewrite <- app_assoc. done.
Qed.

Lemma pc_run_inv pc ds a pkts more : pc_run pc ds a → Forall wf_packet pkts → a ++ more = wire pkts →
  conn_able (pc_conn pc) = true ∧ ∃ ps, pkts = ds ++ ps ∧ at_stream pc ps more.
Proof.
  intros R Wf. revert more. induction R as [pc Hs I E|pc ds a x rs R IH|pc ds a out pc' R IH E N]; intros more Em.
  - split; [done|]. exists pkts. split; [done|]. apply at_stream_between; [done..|]. by rewrite E.
  - rewrite <- app_assoc in Em. destruct (IH _ Em) as (Hs & ps & -> & A). split; [done|]. exists ps. split; [done|]. by apply at_stream_arrive.
  - destruct (IH _ Em) as (Hs & ps & -> & A). destruct (parsePacket_ok pc ps more Hs A) as (out1 & pc1 & E1 & _ & _ & D). rewrite E in E1. injection E1 as <- <-.
    destruct out as [| |buf]; cbn in D; [|done|].
    + destruct D as [F D]. split; [rewrite <- Hs; by apply read_frame_able|]. exists ps. by rewrite app_nil_r.
    + destruct D as (bs & ps' & -> & Ed & F & D). split; [rewrite <- Hs; by apply read_frame_able|]. exists ps'. cbn. rewrite <- app_assoc, Ed. done.
Qed.

(** When all bytes of the stream have been read, no packet is left. *)
Lemma at_stream_end pc ps : at_stream pc ps [] → pc_in pc = [] → ps = [].
Proof.
  intros [Wf A] E. destruct ps as [|bs ps]; [done|]. exfalso. rewrite E in A. inversion Wf as [|? ? Wb _]; subst. destruct bs as [|b rs]; [done|].
  destruct Wb as (L16 & _). destruct A as [(p & I & Ep)|(d & b' & rs' & h & _ & _ & _ & Lh & Er)].
  - apply (f_equal length) in Ep. cbn in Ep. rewrite !length_app in Ep. cbn in Ep. pose proof (rh_short _ _ I). lia.
  - apply (f_equal length) in Er. rewrite !length_app, length_drop in Er. cbn in Er. lia.
Qed.

(** C13: However the bytes of a stream of packets are cut into reads, the packets handed
    on are the packets of the stream, whole and in order.  Parsing returns; it
    takes at least a byte when one is there and the read succeeds; and when all bytes
    of the stream have been read, all packets have been handed on. *)
Theorem packets_any_fragmentation pc ds a pkts more : pc_run pc ds a → Forall wf_packet pkts → a ++ more = wire pkts →
  ds `prefix_of` pkts ∧ (more = [] → pc_in pc = [] → ds = pkts) ∧
  ∃ out pc', parsePacket pc = Ok (out, pc') ∧ (willing pc → (length (pc_in pc') < length (pc_in pc))%nat).
Proof.
  intros R Wf Em. destruct (pc_run_inv pc ds a pkts more R Wf Em) as (Hs & ps & -> & A). split_and!.
  - by apply prefix_app_r.
  - intros -> E. by rewrite (at_stream_end pc ps A E), app_nil_r.
  - destruct (parsePacket_ok pc ps more Hs A) as (out & pc' & E & _ & W & _). by exists out, pc'.
Qed.

(** A packet made by opening it, allocating pieces and writing into them returns
    and is well-formed; and on the receiving side it has its kind, and [pktFind]
    finds every piece, with what was written there, at the offset its allocation
    returned. *)
Theorem packet_fields_arrive w ID SZ os : 0 ≤ SZ < 2 ^ 31 - 20 → ops_fit [Z.to_nat SZ] (20 + SZ) os →
  ∃ w' fs, pkt_make w ID SZ os = Ok (w', fs) ∧ wf_packet (rope_data (pw_buf w')) ∧
    ∀ buf, rope_data buf = rope_data (pw_buf w') →
      rope_load buf (0, 12)%nat 4 = Ok (le_bytes 4 ID) ∧
      ∀ f, f ∈ fs → fl_bytes f ≠ [] → ∃ p, pktFind buf (fl_off f) = Some p ∧ rope_load buf p (length (fl_bytes f)) = Ok (fl_bytes f).
Proof.
  intros HS Fit. destruct (pkt_make_ok w ID SZ os HS Fit) as (w' & fs & E & O & Wf & F & b & rest & Eb & Ti).
  exists w', fs. split_and!; [done..|]. intros buf Ed. split.
  - rewrite <- Ti. apply rope_load_ok; [by rewrite Ed, Eb|]. rewrite Eb in Wf. destruct Wf as [L _]. lia.
  - intros f Hf N. rewrite Forall_forall in F. specialize (F f Hf). rewrite <- Ed in F. exists (fl_ptr f).
    split; [by apply pktFind_ok|by apply field_load].
Qed.

(** ** From one end to the other *)

(** Ropes whose blocks are the packets of a list. *)
Definition sent_packets (ropes : list Rope) : list (list (list Z)) := (λ r, rope_data r) <$> ropes.

(** The states of a connection after sending the ropes, in any mode, with any calls
    of [writeReady] and any reads between.  It is established when it begins, and
    no TLS read of its own has to write first. *)
Inductive pc_sent : PcSide → WriteBuffer → list Rope → Prop :=
| sent_start s f : wf_fd s = Ok f → wf_able s f = true → calm f = true → io_open (wf_peer s) = true → wf_stream s = [] → pc_sent s new_WriteBuffer []
| sent_send s w rs r c s' w' b : pc_sent s w rs → rope_ok r → wf_packet (rope_data r) → wb_send s w r c = Ok (s', w', b) →
    io_open (wf_peer s') = true → pc_sent s' w' (rs ++ [r])
| sent_ready s w rs s' w' : pc_sent s w rs → writeReady s w = Ok (s', w') → io_open (wf_peer s') = true → pc_sent s' w' rs
| sent_read s w rs len d n c : pc_sent s w rs → conn_read (ps_conn s) len = Ok (d, n, c) → calm (c_fd c) = true → pc_sent (ps_set_conn s c) w rs.

Lemma wire_app p q : wire (p ++ q) = wire p ++ wire q.
Proof. unfold wire. by rewrite fmap_app, concat_app. Qed.

(** A read that leaves no TLS write pending does not change what is waited on. *)
Lemma calm_wants f v : calm f = true → calm (set_tlsReadWantsWrite f v) = true → wantWriteGet (set_tlsReadWantsWrite f v) = wantWriteGet f.
Proof. destruct f as [? ? ? ? ? ? r w [] ? x]; unfold calm, wantWriteGet; cbn; [|done]. by destruct r, x, v. Qed.

(** What a read leaves alone. *)
Lemma conn_read_frame c len d n c' : conn_read c len = Ok (d, n, c') →
  c_selectFd c = true ∧ c_selectFd c' = true ∧ c_tlsConnect c' = c_tlsConnect c ∧
  c_fd c' = set_tlsReadWantsWrite (c_fd c) (sf_tlsReadWantsWrite (c_fd c')) ∧
  io_open (c_peer c') = io_open (c_peer c) ∧ io_out (c_peer c') = io_out (c_peer c) ∧ io_tls (c_peer c') = io_tls (c_peer c).
Proof.
  intros E. destruct c as [f sel tls cl p]. unfold conn_read, tlsRead, selectFd, the_ssl, sys_read in E.
  cbn [c_tlsConnect c_selectFd c_peer] in E. repeat (case_match; simplify_eq/=; inv_res; try done);
    split_and!; try done; first [by destruct (io_open p)|match goal with x : SelectFd |- _ => by destruct x end].
Qed.

Lemma calm_read_inv (s : PcSide) w all len d n c : wb_inv s w all → conn_read (ps_conn s) len = Ok (d, n, c) → calm (c_fd c) = true →
  wb_inv (ps_set_conn s c) w all.
Proof.
  intros [f [E P Ab C Q A W]] (S & S' & T & F & O & I1 & I2)%conn_read_frame Cf. cbn in E, P, Ab. unfold selectFd in E. rewrite S in E. injection E as <-.
  rewrite F in Cf. exists (c_fd c). split; cbn; unfold selectFd.
  - by rewrite S'.
  - by rewrite O.
  - cbn in Ab. rewrite T, F. exact Ab.
  - by rewrite F.
  - done.
  - cbn in A. unfold pc_stream in *. cbn. by rewrite T, I1, I2.
  - intros N. rewrite F, calm_wants by done. auto.
Qed.

Lemma pc_sent_inv s w rs : pc_sent s w rs → wb_inv s w (wire (sent_packets rs)) ∧ Forall wf_packet (sent_packets rs).
Proof.
  induction 1 as [s f E Ab C P N|s w rs r c s' w' b _ [R F] O Wf E P|s w rs s' w' _ [R F] E P|s w rs len d n c _ [R F] E C].
  - split; [by eapply wb_reach_inv, wb_start|done].
  - unfold sent_packets in *. rewrite fmap_app. split; [|apply Forall_app; by split; [|constructor]]. rewrite wire_app.
    assert (wire ((λ r, rope_data r) <$> [r]) = op_bytes (WSend r c)) as -> by (cbn; by rewrite app_nil_r).
    eapply (wb_step_inv s w _ (WSend r c)); [exact R|exact O| |done]. unfold wb_step. by rewrite E, bind_Ok.
  - split; [|done]. rewrite <- (app_nil_r (wire _)). by apply (wb_step_inv s w (wire (sent_packets rs)) WReady).
  - split; [|done]. by eapply calm_read_inv.
Qed.

(** C5: Packets sent on an established connection and received on its other end,
    whatever each write and each read takes, as long as the sending end stays open
    and no TLS read of its own has to write first: what is handed on is a prefix of
    what was sent, in order; and once the queue is empty, the bytes have arrived and
    been read, it is all of it. *)
Theorem packets_end_to_end s w rs pc ds a : pc_sent s w rs → pc_run pc ds a → a `prefix_of` wf_stream s →
  ds `prefix_of` sent_packets rs ∧
  (rope_bytes (wb_queue w) = [] → a = wf_stream s → pc_in pc = [] → ds = sent_packets rs) ∧
  ∃ out pc', parsePacket pc = Ok (out, pc').
Proof.
  intros Sn R [x Ex]. destruct (pc_sent_inv s w rs Sn) as [[f [_ _ _ _ _ A _]] Wf].
  assert (a ++ (x ++ rope_bytes (wb_queue w)) = wire (sent_packets rs)) as Em by (by rewrite app_assoc, <- Ex).
  destruct (pc_run_inv pc ds a _ _ R Wf Em) as (Hs & ps & Ep & At). split_and!.
  - rewrite Ep. by apply prefix_app_r.
  - intros N Ea E. rewrite N in At. rewrite Ea in Ex. rewrite <- (app_nil_r (wf_stream s)) in Ex at 1. apply app_inv_head in Ex. subst x.
    by rewrite Ep, (at_stream_end pc ps At E), app_nil_r.
  - destruct (parsePacket_ok pc ps _ Hs At) as (out & pc' & E & _). by exists out, pc'.
Qed.

(** ** Malformed packets *)

(** A read that gets all it asks for. *)
Lemma read_all pc len e rest : conn_able (pc_conn pc) = true → io_open (c_peer (pc_conn pc)) = true → pc_reads pc = e :: rest →
  0 < len ≤ io_n e → len ≤ Z.of_nat (length (pc_in pc)) →
  ∃ pc', pc_read pc len = Ok (take (Z.to_nat len) (pc_in pc), len, pc') ∧ pc_recv pc' = pc_recv pc.
Proof.
  destruct pc as [[[f sel tls cl p] pcl] rc wb]. unfold pc_reads, pc_in, pc_conn, pc_read, conn_read, tlsRead, selectFd, sys_read, conn_able, the_ssl.
  cbn [pc_side ps_conn c_selectFd c_tlsConnect c_peer c_fd pc_recv]. intros [-> Ab]%andb_true_iff -> Er Hn Hl. cbn [negb]. rewrite Er.
  destruct (Z.leb_spec (io_n e) 0); [lia|]. replace (Z.min (Z.min (io_n e) len) (Z.of_nat (length (io_in p)))) with len by lia.
  destruct (Z.leb_spec len 0); [lia|]. destruct tls; cbn in Ab; rewrite !bind_Ok.
  - cbn [set_tlsReadWantsWrite sf_ssl]. rewrite Ab, bind_Ok. destruct (Z.ltb_spec 0 len); [|lia]. rewrite bind_Ok. by eexists.
  - destruct (Z.ltb_spec len 0); [lia|]. destruct (Z.eqb_spec len 0); [lia|]. rewrite bind_Ok. by eexists.
Qed.

(** The parser trusts the length of the first block: sixteen bytes that give a
    length below sixteen make it copy the headers past the end of the block. *)
Theorem short_first_block_overruns pc e rest : conn_able (pc_conn pc) = true → io_open (c_peer (pc_conn pc)) = true →
  recv_head (pc_recv pc) [] → (16 ≤ length (pc_in pc))%nat → pc_reads pc = e :: rest → 16 ≤ io_n e →
  0 ≤ firstLen (pc_in pc) < 16 → parsePacket pc = Ub.
Proof.
  intros Hs Ho I L Er Hn Hf. pose proof I as [Est Eb Eh _ Lh _]. unfold parsePacket, want_head. rewrite Est, Eh. change HEAD_SZ with 16.
  destruct (read_all pc 16 e rest Hs Ho Er) as (pc' & Erd & Erc); [lia..|].
  cbn [length]. rewrite Z.sub_0_r, Erd, !bind_Ok, Erc. change (16 <? 0) with false. change (16 =? 0) with false. change (Z.of_nat 0 + 16 <? 16) with false. cbn iota.
  change (Z.of_nat 0 <? 0) with false. cbn iota. change (Z.to_nat (Z.of_nat 0)) with 0%nat. change (Z.to_nat 16) with 16%nat.
  rewrite mem_store_fits by (rewrite length_take; lia). rewrite bind_Ok, length_take, Nat.min_l, take_0, app_nil_l by lia.
  rewrite drop_ge, app_nil_r by lia. unfold first_block. cbn [rc_headBuf rc_set_headBuf]. unfold mem_load at 1. rewrite length_take.
  change (Z.to_nat SIZEOF_PacketBlockHeader + FIRST_LEN)%nat with 4%nat. rewrite decide_True, bind_Ok by lia. rewrite skipn_firstn_comm, take_take.
  change (i32 (le_val (take (4 `min` (16 - 4)) (drop 4 (pc_in pc))))) with (firstLen (pc_in pc)). set (n := firstLen (pc_in pc)) in *.
  unfold recv_appendBlock. destruct (Z.ltb_spec n 0); [lia|]. rewrite bind_Ok. cbn [rc_buf rc_data rc_headBuf rc_set_headBuf rc_state rc_need rc_have]. rewrite Eb.
  destruct (appendBlock_data (rc_buf (pc_recv pc)) (Z.to_nat n)) as (m & Lm & Em). rewrite Eb in Em. cbn [fmap list_fmap app] in Em.
  destruct (r_blocks (rope_appendBlock (rc_buf (pc_recv pc)) (Z.to_nat n))) as [|rb l] eqn:Erb; [done|]. injection Em as <- _.
  unfold rope_store. cbn [fst snd length]. rewrite Erb. cbn [lookup list_lookup deref]. rewrite bind_Ok. unfold mem_store.
  rewrite decide_False; [done|]. rewrite length_take. lia.
Qed.
End Packets.

(** ** Witnesses *)

(** A plain connection with nothing read yet. *)
Definition demo_conn (inp : list Z) (reads writes : list IoResult) : PacketConnection :=
  MkPacketConnection
    (MkPcSide (MkConnection (new_SelectFd 3 Fd.Established) true false false (MkPeer true inp [] [] reads writes)) false)
    (new_Recv (replicate 16 0) 0) new_WriteBuffer.

Definition demo_block : list Z := [0; 0; 0; 0; 20; 0; 0; 0; 20; 0; 0; 0; 7; 0; 0; 0; 1; 2; 3; 4].
Definition demo_packet : Rope := MkRope [MkRopeBlock demo_block 44] 20.

Lemma demo_packet_wf : wf_packet [demo_block].
Proof. repeat split; vm_compute; lia. Qed.

Lemma demo_head r : r = new_Recv (replicate 16 0) 0 → recv_head r [].
Proof. intros ->. split; cbn; try done. lia. Qed.

Definition parsed (pc : PacketConnection) : PacketConnection :=
  match parsePacket pc with Ok (_, pc) => pc | _ => pc end.

(** The block arrives in two parts. *)
Lemma demo_received : ∃ pc, pc_run pc [[demo_block]] demo_block ∧ pc_in pc = [].
Proof.
  pose (pc1 := arrive (demo_conn [] [] []) (take 7 demo_block) [MkIo 5 0; MkIo 100 0]).
  pose (pc2 := parsed (parsed pc1)). pose (pc3 := arrive pc2 (drop 7 demo_block) [MkIo 100 0; MkIo 100 0]).
  assert (pc_run pc1 [] (take 7 demo_block)) as R1.
  { apply (run_arrive (demo_conn [] [] []) [] [] (take 7 demo_block)), run_start; [done| |done]. by apply demo_head. }
  assert (pc_run (parsed pc1) [] (take 7 demo_block)) as R2 by (eapply (run_parse pc1 [] _ PWait); [done|vm_compute; reflexivity|done]).
  assert (pc_run pc2 [] (take 7 demo_block)) as R3 by (eapply (run_parse (parsed pc1) [] _ PWait); [done|vm_compute; reflexivity|done]).
  assert (pc_run pc3 [] demo_block) as R4 by (apply (run_arrive pc2 [] (take 7 demo_block) (drop 7 demo_block)), R3).
  exists (parsed pc3). split; [|vm_compute; reflexivity].
  eapply (run_parse pc3 [] demo_block (PPacket (MkRope [MkRopeBlock demo_block 44] 20))); [done|vm_compute; reflexivity|done].
Qed.

Lemma packets_any_fragmentation_witness : ∃ pc, pc_run pc [[demo_block]] demo_block ∧ [[demo_block]] = [[demo_block]].
Proof.
  destruct demo_received as (pc & R & E). exists pc. split; [done|].
  apply (packets_any_fragmentation pc [[demo_block]] demo_block [[demo_block]] [] R); [by constructor; [apply demo_packet_wf|]|vm_compute; reflexivity|done|done].
Defined.

Lemma packet_fields_arrive_witness : ∃ w' fs,
  pkt_make (MkPacketWriter rope_none None None) 7 8 [PStore 0 2 [1; 2]; PAlloc 60; PStore 1 0 [65; 66; 0]] = Ok (w', fs) ∧
  wf_packet (rope_data (pw_buf w')).
Proof.
  destruct (packet_fields_arrive (MkPacketWriter rope_none None None) 7 8 [PStore 0 2 [1; 2]; PAlloc 60; PStore 1 0 [65; 66; 0]]) as (w' & fs & E & W & _).
  - lia.
  - cbn. split_and!; try lia; eexists; (split; [reflexivity|vm_compute; lia]).
  - exists w', fs. split; [exact E|exact W].
Defined.

Lemma packets_end_to_end_witness : ∃ s w pc, pc_sent s w [demo_packet] ∧ pc_run pc [[demo_block]] demo_block ∧ [[demo_block]] = sent_packets [demo_packet].
Proof.
  destruct demo_received as (pc & R & E).
  pose (s0 := pc_side (demo_conn [] [] [MkIo 3 0; MkIo 100 0])).
  assert (pc_sent s0 new_WriteBuffer []) as S0 by (by eapply sent_start).
  destruct (wb_send s0 new_WriteBuffer demo_packet false) as [[[s1 w1] b1]| |] eqn:E1; [|vm_compute in E1; discriminate..].
  destruct (writeReady s1 w1) as [[s2 w2]| |] eqn:E2; [|vm_compute in E1; injection E1 as <- <- _; vm_compute in E2; discriminate..].
  assert (pc_sent s2 w2 [demo_packet]) as S2.
  { eapply sent_ready; [|exact E2|]; [eapply (sent_send s0 _ []); [exact S0|done|apply demo_packet_wf|exact E1|]|];
      vm_compute in E1; injection E1 as <- <- _; [reflexivity|]; vm_compute in E2; by injection E2 as <- <-. }
  exists s2, w2, pc. split_and!; [done..|].
  vm_compute in E1. injection E1 as <- <- _. vm_compute in E2. injection E2 as <- <-.
  apply (packets_end_to_end _ _ _ pc [[demo_block]] demo_block S2 R); try reflexivity. done.
Defined.

Lemma short_first_block_overruns_witness :
  parsePacket (demo_conn ([0; 0; 0; 0; 8; 0; 0; 0; 8; 0; 0; 0; 7; 0; 0; 0]) [MkIo 16 0] []) = Ub.
Proof.
  apply (short_first_block_overruns _ (MkIo 16 0) []); try reflexivity; [by apply demo_head|vm_compute; split; done].
Defined.
