(* ===== verification/ConnState.v ===== *)
(** * genf/connection.cc, lookup.cc, tls.cc, select.cc: the life of a connection

    A connection is looked up, connected, made secure and then reads and writes;
    the select loop calls the handler for the state it is in.  The connections here are
    packet connections.  What the resolver, the kernel and OpenSSL answer are
    arguments, and so is what the thread does with a packet it is handed. *)

From S2P Require Import Prelude Rope Conn ItQueue Packet.

Definition FD_SETSIZE : Z := 1024.
Definition X509_V_OK : Z := 0.

Definition set_state (f : SelectFd) (st : Fd.State) : SelectFd :=
  MkSelectFd st (sf_fd f) (sf_ssl f) (sf_wantRead f) (sf_wantWrite f) (sf_closed f) (sf_tlsWantRead f) (sf_tlsWantWrite f)
    (sf_tlsEstablished f) (sf_tlsWriteWantsRead f) (sf_tlsReadWantsWrite f).
Definition set_fd (f : SelectFd) (fd : Z) : SelectFd :=
  MkSelectFd (sf_state f) fd (sf_ssl f) (sf_wantRead f) (sf_wantWrite f) (sf_closed f) (sf_tlsWantRead f) (sf_tlsWantWrite f)
    (sf_tlsEstablished f) (sf_tlsWriteWantsRead f) (sf_tlsReadWantsWrite f).
Definition set_ssl (f : SelectFd) : SelectFd :=
  MkSelectFd (sf_state f) (sf_fd f) true (sf_wantRead f) (sf_wantWrite f) (sf_closed f) (sf_tlsWantRead f) (sf_tlsWantWrite f)
    (sf_tlsEstablished f) (sf_tlsWriteWantsRead f) (sf_tlsReadWantsWrite f).
(** The fields [wantRead] and [wantWrite] themselves. *)
Definition set_wants (f : SelectFd) (r w : bool) : SelectFd :=
  MkSelectFd (sf_state f) (sf_fd f) (sf_ssl f) r w (sf_closed f) (sf_tlsWantRead f) (sf_tlsWantWrite f)
    (sf_tlsEstablished f) (sf_tlsWriteWantsRead f) (sf_tlsReadWantsWrite f).
Definition set_established (f : SelectFd) (tlsWantRead : bool) : SelectFd :=
  MkSelectFd Fd.TlsEstablished (sf_fd f) (sf_ssl f) (sf_wantRead f) (sf_wantWrite f) (sf_closed f) tlsWantRead (sf_tlsWantWrite f)
    true (sf_tlsWriteWantsRead f) (sf_tlsReadWantsWrite f).

(** ** Starting *)

(** A new connection; [io] is what its descriptor will do. *)
Definition initiate_host (tls : bool) (io : Peer) : Connection :=
  MkConnection (new_SelectFd (-1) Fd.Lookup) true tls false io.

(** [connFd] is what inetConnect returned, -1 when it failed. *)
Definition start_connect (f : SelectFd) (connFd : Z) : SelectFd :=
  set_wants (set_fd (set_state f Fd.Connect) connFd) (sf_wantRead f) true.

Definition initiate_addr (tls : bool) (connFd : Z) (io : Peer) : Connection :=
  MkConnection (start_connect (new_SelectFd (-1) Fd.Connect) connFd) true tls false io.

(** The name was found, or [failure] is called, which does nothing here. *)
Definition lookupCallbackHost (f : SelectFd) (success : bool) (connFd : Z) : SelectFd :=
  if success then start_connect f connFd else f.

Definition startTlsClient (f : SelectFd) : SelectFd := set_wants (set_ssl f) false true.

Definition startTlsServer (f : SelectFd) : SelectFd := set_wants (set_ssl f) true false.

(** What listenReady makes of an accepted descriptor, and [notifyAccept] of the
    packet connection. *)
Definition listenReady (tls : bool) (fd : Z) (io : Peer) : Connection :=
  if tls then MkConnection (set_state (startTlsServer (new_SelectFd fd Fd.TlsAccept)) Fd.TlsAccept) true true false io
  else MkConnection (wantReadSet (set_wants (set_state (new_SelectFd fd Fd.Established) Fd.Established) true false) true) true false false io.

(** ** Handlers *)

(** Whether to try again, by the error of SSL_connect or SSL_accept. *)
Definition prepNextRound (f : SelectFd) (result : Z) : bool * SelectFd :=
  let r := result =? SSL_ERROR_WANT_READ in
  let w := negb r && (result =? SSL_ERROR_WANT_WRITE) in
  (r || w, set_wants f r w).

Section Handlers.
Context `{RopeLib}.

(** dispatchPacket of the thread: it may do anything to the connection. *)
Variable dispatch : Rope → PacketConnection → res PacketConnection.

Definition on_fd (pc : PacketConnection) (g : SelectFd → SelectFd) : PacketConnection :=
  let c := ps_conn (pc_side pc) in pc_set_side pc (ps_set_conn (pc_side pc) (c_set_fd c (g (c_fd c)))).

(** [c->close()]: of the connection only *)
Definition pc_close (pc : PacketConnection) : PacketConnection :=
  pc_set_side pc (ps_set_conn (pc_side pc) (conn_close (ps_conn (pc_side pc)))).

Abbreviation the_fd pc := (c_fd (ps_conn (pc_side pc))).

(** [option] is the pending error of the socket. *)
Definition connConnectReady (pc : PacketConnection) (write_ready : bool) (option : Z) : PacketConnection :=
  if write_ready then
    let pc := on_fd pc (λ f, set_wants f (sf_wantRead f) false) in
    if option =? 0 then
      if c_tlsConnect (ps_conn (pc_side pc)) then
        on_fd pc (λ f, set_state (startTlsClient f) Fd.TlsConnect)
      else on_fd pc (λ f, set_wants (set_state f Fd.Established) true (sf_wantWrite f))
    else pc_close pc
  else pc.

(** OpenSSL: the result of the handshake call and its error, the verification
    result, and whether the certificate names the host. *)
Record Handshake := MkHandshake {
  hs_result : Z;
  hs_error : Z;
  hs_verify : Z;
  hs_hostMatch : bool;
}.

Definition connTlsConnectReady (pc : PacketConnection) (checkHost : bool) (hs : Handshake) : PacketConnection :=
  if hs_result hs <=? 0 then on_fd pc (λ f, (prepNextRound f (hs_error hs)).2)
  else if negb (hs_verify hs =? X509_V_OK) then pc_close pc
  else if checkHost && negb (hs_hostMatch hs) then pc_close pc
  else on_fd pc (λ f, set_established f true).

(** [notifyAccept] of a packet connection asks for reading. *)
Definition connTlsAcceptReady (pc : PacketConnection) (hs : Handshake) : res PacketConnection :=
  if hs_result hs <=? 0 then Ok (on_fd pc (λ f, (prepNextRound f (hs_error hs)).2))
  else
    let pc := on_fd pc (λ f, set_established f (sf_tlsWantRead f)) in
    _ ← selectFd (ps_conn (pc_side pc));
    Ok (on_fd pc (λ f, wantReadSet f true)).

Definition pc_readReady (pc : PacketConnection) : res PacketConnection :=
  '(out, pc) ← parsePacket pc;
  match out with PPacket buf => dispatch buf pc | PWait | PClosed => Ok pc end.

Definition connTlsEstablishedReady (pc : PacketConnection) : res PacketConnection :=
  pc ← (if sf_tlsWantRead (the_fd pc) then pc_readReady pc else Ok pc);
  if sf_tlsWantWrite (the_fd pc) then pc_writeReady pc else Ok pc.

Definition connEstablishedReady (pc : PacketConnection) (read_ready write_ready : bool) : res PacketConnection :=
  pc ← (if read_ready then pc_readReady pc else Ok pc);
  if write_ready && sf_wantWrite (the_fd pc) then pc_writeReady pc else Ok pc.

(** What the select loop found out about a descriptor. *)
Record Ready := MkReady {
  rd_read : bool;
  rd_write : bool;
  rd_sockError : Z;
  rd_handshake : Handshake;
}.

(** Thread::selectFdReady, for connections *)
Definition selectFdReady (pc : PacketConnection) (checkHost : bool) (r : Ready) : res PacketConnection :=
  match sf_state (the_fd pc) with
  | Fd.Lookup => Ok pc
  | Fd.Connect => Ok (connConnectReady pc (rd_write r) (rd_sockError r))
  | Fd.TlsAccept => connTlsAcceptReady pc (rd_handshake r)
  | Fd.TlsConnect => Ok (connTlsConnectReady pc checkHost (rd_handshake r))
  | Fd.TlsEstablished => connTlsEstablishedReady pc
  | Fd.Established => connEstablishedReady pc (rd_read r) (rd_write r)
  end.
End Handlers.

(** ** The select loop *)

Definition FD_SET (fd : Z) (s : list Z) : res (list Z) :=
  if (fd <? 0) || (FD_SETSIZE <=? fd) then Ub else Ok (fd :: s).

(** The descriptors to wait for; those of closed SelectFds are dropped from the
    list.  [nfds] and the sets start with what the resolver wants. *)
Fixpoint event_sets (fds : list SelectFd) (nfds : Z) (rs ws : list Z) : res (list SelectFd * Z * list Z * list Z) :=
  match fds with
  | [] => Ok ([], nfds, rs, ws)
  | f :: fds =>
      if sf_closed f then event_sets fds nfds rs ws
      else
        let wantRead := if negb (sf_tlsEstablished f) then sf_wantRead f
                        else sf_tlsWantRead f || (sf_tlsWantWrite f && sf_tlsWriteWantsRead f) in
        let wantWrite := if negb (sf_tlsEstablished f) then sf_wantWrite f
                         else sf_tlsWantWrite f || (sf_tlsWantRead f && sf_tlsReadWantsWrite f) in
        let nfds := if (wantRead || wantWrite) && (nfds <=? sf_fd f) then sf_fd f + 1 else nfds in
        rs ← (if wantRead then FD_SET (sf_fd f) rs else Ok rs);
        ws ← (if wantWrite then FD_SET (sf_fd f) ws else Ok ws);
        '(kept, nfds, rs, ws) ← event_sets fds nfds rs ws;
        Ok (f :: kept, nfds, rs, ws)
  end.

(** ** Matching host names *)

(** strncasecmp( a, b, n ) == 0, for n characters of both. *)
Definition lower (c : Z) : Z := if (65 <=? c) && (c <=? 90) then c + 32 else c.
Definition caseeq (a b : list Z) : bool := bool_decide (lower <$> a = lower <$> b).

(** The suffix from the first dot on; [None] when there is none. *)
Fixpoint from_dot (s : list Z) : option (list Z) :=
  match s with
  | [] => None
  | c :: s' => if c =? 46 then Some s else from_dot s'
  end.

(** [name] is a C string without its terminator, [pattern] the bytes of an ASN.1
    string, which may hold zeros. *)
Definition checkName (name pattern : list Z) : bool :=
  let wild := (2 <? length pattern)%nat && bool_decide (pattern !! 0%nat = Some 42) && bool_decide (pattern !! 1%nat = Some 46) in
  match (if wild then from_dot name else Some name) with
  | None => false
  | Some subj =>
      let pat := if wild then tail pattern else pattern in
      (length subj =? length pat)%nat && caseeq (cstr subj) (cstr pat)
  end.

(** A certificate: the alternative names, if it has the extension, with whether each
    is a DNS name, and the common names. *)
Record Certificate := MkCertificate {
  crt_altnames : option (list (bool * list Z));
  crt_cns : list (list Z);
}.

Definition hostMatch (cert : Certificate) (name : list Z) : bool :=
  match crt_altnames cert with
  | Some alts => existsb (λ '(dns, pat), dns && checkName name pat) alts
  | None => existsb (checkName name) (crt_cns cert)
  end.
