(* ===== verification/ConnStateProps.v ===== *)
(** * What the connection machine promises

    A client's TLS connection is established only by a handshake that succeeded with
    a verified certificate.  The select loop waits for what the flags say.  Name
    patterns match one label.  And where the machine and the write buffers do not
    fit together. *)

From S2P Require Import Prelude Rope Conn ConnProps ItQueue Packet PacketRecv PacketSend PacketProps ConnState.

(** ** What reading and writing leave alone *)

Definition keeps (f f' : SelectFd) : Prop :=
  sf_state f' = sf_state f ∧ sf_tlsEstablished f' = sf_tlsEstablished f ∧ sf_ssl f' = sf_ssl f ∧ sf_fd f' = sf_fd f.

#[export] Instance keeps_preorder : PreOrder keeps.
Proof. split; unfold keeps; [done|]. intros f g h (-> & -> & -> & ->) (-> & -> & -> & ->). done. Qed.

Definition pc_fd (pc : PacketConnection) : SelectFd := c_fd (pc_conn pc).

Definition pc_keeps (pc pc' : PacketConnection) : Prop :=
  keeps (pc_fd pc) (pc_fd pc') ∧ c_tlsConnect (pc_conn pc') = c_tlsConnect (pc_conn pc).

#[export] Instance pc_keeps_preorder : PreOrder pc_keeps.
Proof. split; unfold pc_keeps; [done|]. intros x y z [K1 ->] [K2 ->]. split; [by etrans|done]. Qed.

Lemma conn_read_keeps c len d n c' : conn_read c len = Ok (d, n, c') → keeps (c_fd c) (c_fd c') ∧ c_tlsConnect c' = c_tlsConnect c.
Proof.
  unfold conn_read, tlsRead, selectFd. intros E. destruct (c_tlsConnect c) eqn:T, (c_selectFd c); try done; cbn in E.
  - unfold the_ssl in E. destruct (sf_ssl _); [|done]. cbn in E. destruct (sys_read _ _ _) as [[[d0 n0] e0] p0].
    repeat case_match; inv_res; done.
  - destruct (sys_read _ _ _) as [[[d0 n0] e0] p0]. repeat case_match; inv_res; done.
Qed.

Lemma conn_write_keeps c d n c' : conn_write c d = Ok (n, c') → keeps (c_fd c) (c_fd c') ∧ c_tlsConnect c' = c_tlsConnect c.
Proof.
  unfold conn_write, tlsWrite, selectFd. intros E. destruct (c_tlsConnect c) eqn:T.
  - case_match; [by inv_res|]. destruct (c_selectFd c); [|done]. cbn in E. unfold the_ssl in E. destruct (sf_ssl _); [|done]. cbn in E.
    destruct (SSL_write _ _) as [[n0 e0] p0]. repeat case_match; inv_res; done.
  - destruct (c_selectFd c); [|done]. cbn in E. destruct (sys_write _ _) as [[n0 e0] p0]. inv_res. done.
Qed.

Lemma conn_close_keeps c : keeps (c_fd c) (c_fd (conn_close c)) ∧ c_tlsConnect (conn_close c) = c_tlsConnect c.
Proof. unfold conn_close. by destruct (c_selectFd c). Qed.

Section Keeps.
Context `{RopeLib}.

Lemma pc_read_keeps pc len d n pc' : pc_read pc len = Ok (d, n, pc') → pc_keeps pc pc'.
Proof. unfold pc_read. intros E. inv_res. by eapply conn_read_keeps. Qed.

Lemma pc_closed_keeps pc : pc_keeps pc (pc_closed pc).
Proof. apply conn_close_keeps. Qed.

Ltac keep_read :=
  repeat match goal with
  | H : pc_read _ _ = Ok _ |- _ => apply pc_read_keeps in H
  | H : pc_keeps ?x ?y |- pc_keeps ?x _ => transitivity y; [exact H|]; clear H
  end; first [reflexivity | apply pc_closed_keeps | done].

Lemma want_head_keeps pc o pc' : want_head pc = Ok (o, pc') → pc_keeps pc pc'.
Proof. unfold want_head. intros E. inv_res. repeat case_match; inv_res; keep_read. Qed.

Lemma read_block_keeps fuel pc o pc' : read_block fuel pc = Ok (o, pc') → pc_keeps pc pc'.
Proof.
  revert pc. induction fuel as [|fuel IH]; intros pc E; [done|]. rewrite read_block_eq in E. cbv zeta in E.
  case_match; inv_res; [|reflexivity]. apply pc_read_keeps in E0.
  repeat case_match; inv_res; try keep_read. etrans; [exact E0|]. by eapply IH in E.
Qed.

Lemma read_blocks_keeps fuel pc o pc' : read_blocks fuel pc = Ok (o, pc') → pc_keeps pc pc'.
Proof.
  revert pc. induction fuel as [|fuel IH]; intros pc E; [done|]. cbn [read_blocks] in E. inv_res. apply read_block_keeps in E0.
  case_match; inv_res; [done|]. case_match; inv_res; [done|]. etrans; [exact E0|]. by eapply IH in E.
Qed.

Lemma want_block_keeps pc o pc' : want_block pc = Ok (o, pc') → pc_keeps pc pc'.
Proof. unfold want_block. intros E. inv_res. apply read_blocks_keeps in E0. case_match; inv_res; done. Qed.

Lemma parsePacket_keeps pc out pc' : parsePacket pc = Ok (out, pc') → pc_keeps pc pc'.
Proof.
  unfold parsePacket. case_match; intros E; [|by eapply want_block_keeps].
  inv_res. apply want_head_keeps in E0. case_match; inv_res; [done|]. etrans; [exact E0|]. by eapply want_block_keeps.
Qed.

Definition side_keeps (s s' : PcSide) : Prop :=
  keeps (c_fd (ps_conn s)) (c_fd (ps_conn s')) ∧ c_tlsConnect (ps_conn s') = c_tlsConnect (ps_conn s).

#[local] Instance side_keeps_preorder : PreOrder side_keeps.
Proof. split; unfold side_keeps; [done|]. intros x y z [K1 ->] [K2 ->]. split; [by etrans|done]. Qed.

Lemma bufWrite_keeps (s : PcSide) d n s' : bufWrite s d = Ok (n, s') → side_keeps s s'.
Proof. cbn. intros E. inv_res. by eapply conn_write_keeps. Qed.

Lemma bufClose_keeps (s s' : PcSide) : bufClose s = Ok s' → side_keeps s s'.
Proof. cbn. intros [= <-]. apply conn_close_keeps. Qed.

Lemma want_write_keeps (s s' : PcSide) v : want_write s v = Ok s' → side_keeps s s'.
Proof. unfold want_write. intros E. inv_res. split; [|done]. cbn in *. unfold selectFd in E0. case_match; [|done]. inv_res. by destruct (c_fd _) as [? ? ? ? ? ? ? ? [] ? ?]. Qed.

Lemma close_fd_keeps (s s' : PcSide) : close_fd s = Ok s' → side_keeps s s'.
Proof. unfold close_fd. intros E. inv_res. split; [|done]. cbn in *. unfold selectFd in E0. case_match; [|done]. inv_res. by destruct (c_fd _). Qed.

Lemma flush_loop_keeps rbs (s : PcSide) w s' w' : flush_loop rbs s w = Ok (s', w') → side_keeps s s'.
Proof.
  revert s w. induction rbs as [|rb rbs IH]; intros s w E; cbn [flush_loop] in E.
  - case_match; inv_res; [by eapply close_fd_keeps|reflexivity].
  - inv_res. apply bufWrite_keeps in E0. etrans; [exact E0|]. case_match; inv_res; [by eapply bufClose_keeps|].
    case_match; inv_res; [reflexivity|]. by eapply IH.
Qed.

Lemma writeReady_keeps (s : PcSide) w s' w' : writeReady s w = Ok (s', w') → side_keeps s s'.
Proof. unfold writeReady. intros E. case_match; inv_res; [by eapply want_write_keeps|by eapply flush_loop_keeps]. Qed.

Lemma send_loop_keeps rbs (s : PcSide) w b c s' w' b' : send_loop rbs s w b c = Ok (s', w', b') → side_keeps s s'.
Proof.
  revert s w b. induction rbs as [|rb rbs IH]; intros s w b E; cbn [send_loop] in E; [by inv_res|].
  inv_res. apply bufWrite_keeps in E0. etrans; [exact E0|]. case_match; inv_res; [by eapply bufClose_keeps|].
  case_match; [|by eapply IH]. destruct (queue_rest _ _ _ _ _ _). inv_res. by eapply want_write_keeps.
Qed.

Lemma wb_send_keeps (s : PcSide) w b c s' w' b' : wb_send s w b c = Ok (s', w', b') → side_keeps s s'.
Proof. unfold wb_send. intros E. inv_res. repeat case_match; inv_res; [reflexivity..|by eapply send_loop_keeps]. Qed.

Lemma pc_writeReady_keeps pc pc' : pc_writeReady pc = Ok pc' → pc_keeps pc pc'.
Proof. unfold pc_writeReady. intros E. inv_res. by eapply writeReady_keeps. Qed.
End Keeps.

(** ** Secure connections *)

Section Secure.
Context `{RopeLib} (dispatch : Rope → PacketConnection → res PacketConnection).
Context (dispatch_keeps : ∀ buf pc pc', dispatch buf pc = Ok pc' → pc_keeps pc pc').
Context (checkHost : bool).

(** The handshake succeeded, the certificate is valid and, if asked for, names the
    host. *)
Definition good_handshake (hs : Handshake) : bool :=
  (0 <? hs_result hs) && (hs_verify hs =? X509_V_OK) && (negb checkHost || hs_hostMatch hs).

(** A client's connection, with whether it has had a good handshake: it is started,
    looked up, sends packets and handles what the select loop finds. *)
Inductive client : PacketConnection → bool → Prop :=
| client_host io pcl rc w : client (MkPacketConnection (MkPcSide (initiate_host true io) pcl) rc w) false
| client_addr fd io pcl rc w : client (MkPacketConnection (MkPcSide (initiate_addr true fd io) pcl) rc w) false
| client_lookup pc v ok fd : client pc v → sf_state (pc_fd pc) = Fd.Lookup → client (on_fd pc (λ f, lookupCallbackHost f ok fd)) v
| client_send pc v blocks c pc' b : client pc v → pkt_send_blocks pc blocks c = Ok (pc', b) → client pc' v
| client_ready pc v r pc' : client pc v → selectFdReady dispatch pc checkHost r = Ok pc' →
    client pc' (v || (bool_decide (sf_state (pc_fd pc) = Fd.TlsConnect) && good_handshake (rd_handshake r))).

(** Not established, or after a good handshake. *)
Definition secure (pc : PacketConnection) (v : bool) : Prop :=
  c_tlsConnect (pc_conn pc) = true ∧ sf_state (pc_fd pc) ≠ Fd.Established ∧ sf_state (pc_fd pc) ≠ Fd.TlsAccept ∧
  (sf_state (pc_fd pc) = Fd.TlsEstablished ∨ sf_tlsEstablished (pc_fd pc) = true → v = true).

Lemma secure_keeps pc pc' v : secure pc v → pc_keeps pc pc' → secure pc' v.
Proof. unfold secure. intros S [(-> & -> & _ & _) ->]. done. Qed.

Lemma secure_or pc v w : secure pc v → secure pc (v || w).
Proof. intros (? & ? & ? & Hs). split_and!; [done..|]. intros E. by rewrite Hs. Qed.

Lemma ready_keeps pc pc' : pc_readReady dispatch pc = Ok pc' → pc_keeps pc pc'.
Proof.
  unfold pc_readReady. intros E. inv_res. apply parsePacket_keeps in E0. etrans; [exact E0|].
  case_match; inv_res; [reflexivity..|by eapply dispatch_keeps].
Qed.

Lemma pc_close_keeps pc : pc_keeps pc (pc_close pc).
Proof. apply conn_close_keeps. Qed.

(** A change of the state alone. *)
Lemma secure_fd pc v g : secure pc v → sf_tlsEstablished (g (pc_fd pc)) = sf_tlsEstablished (pc_fd pc) →
  sf_state (g (pc_fd pc)) ≠ Fd.Established → sf_state (g (pc_fd pc)) ≠ Fd.TlsAccept → sf_state (g (pc_fd pc)) ≠ Fd.TlsEstablished →
  secure (on_fd pc g) v.
Proof.
  intros (T & _ & _ & Hs) E N1 N2 N3. unfold secure. change (pc_fd (on_fd pc g)) with (g (pc_fd pc)). split_and!; [exact T|done..|].
  intros [?|E']; [done|]. apply Hs. right. congruence.
Qed.

Lemma secure_connect pc v w opt : secure pc v → sf_state (pc_fd pc) = Fd.Connect → secure (connConnectReady pc w opt) v.
Proof.
  intros S St. unfold connConnectReady. destruct w; [|done].
  assert (secure (on_fd pc (λ f, set_wants f (sf_wantRead f) false)) v) as S' by (apply secure_fd; cbn; [done..|congruence|congruence|congruence]).
  destruct (opt =? 0); [|eapply secure_keeps; [exact S'|apply pc_close_keeps]].
  destruct S as (T & _). cbn [pc_side on_fd pc_set_side ps_conn ps_set_conn c_set_fd c_tlsConnect]. unfold pc_conn in T. rewrite T.
  by apply (secure_fd (on_fd pc _)).
Qed.

Lemma secure_handshake pc v hs : secure pc v → sf_state (pc_fd pc) = Fd.TlsConnect →
  secure (connTlsConnectReady pc checkHost hs) (v || good_handshake hs).
Proof.
  intros S St. unfold connTlsConnectReady, good_handshake. destruct (Z.leb_spec (hs_result hs) 0) as [L|L].
  { apply secure_or, secure_fd; cbn; try done; congruence. }
  destruct (Z.ltb_spec 0 (hs_result hs)); [|lia]. destruct (hs_verify hs =? X509_V_OK); cbn [negb andb];
    [|apply secure_or; eapply secure_keeps; [exact S|apply pc_close_keeps]].
  destruct checkHost, (hs_hostMatch hs); cbn [negb andb orb]; try (apply secure_or; eapply secure_keeps; [exact S|apply pc_close_keeps]).
  all: destruct S as (T & _); unfold secure; split_and!; [exact T|done..|by intros; rewrite orb_true_r].
Qed.

Lemma secure_ready pc v r pc' : secure pc v → selectFdReady dispatch pc checkHost r = Ok pc' →
  secure pc' (v || (bool_decide (sf_state (pc_fd pc) = Fd.TlsConnect) && good_handshake (rd_handshake r))).
Proof.
  intros S E. unfold selectFdReady in E. fold (pc_conn pc) in E. fold (pc_fd pc) in E. destruct (sf_state (pc_fd pc)) eqn:St.
  - inv_res. by apply secure_or.
  - inv_res. by apply secure_or, secure_connect.
  - destruct S as (_ & _ & ? & _). congruence.
  - inv_res. cbn [bool_decide]. by apply secure_handshake.
  - apply secure_or. unfold connTlsEstablishedReady in E. inv_res. assert (pc_keeps pc a) as K by (destruct (sf_tlsWantRead _); [by apply ready_keeps|inv_res; reflexivity]).
    eapply secure_keeps; [exact S|]. etrans; [exact K|]. destruct (sf_tlsWantWrite _); [by apply pc_writeReady_keeps|inv_res; reflexivity].
  - destruct S as (_ & ? & _ & _). congruence.
Qed.

Lemma client_secure pc v : client pc v → secure pc v.
Proof.
  induction 1 as [| |pc v ok fd _ S St|pc v blocks c pc' b _ S E|pc v r pc' _ S E].
  - split_and!; try done. by intros [?|?].
  - split_and!; try done. by intros [?|?].
  - unfold lookupCallbackHost. apply secure_fd; [done|..]; destruct ok; cbn; try done; congruence.
  - unfold pkt_send_blocks in E. inv_res. eapply secure_keeps; [exact S|]. by apply wb_send_keeps in E0.
  - by apply secure_ready.
Qed.

(** C14: A client's TLS connection, whatever the resolver, the network and the peer do and
    whatever is sent on it meanwhile, is in the established state, where it reads
    and writes application data, only after a handshake that succeeded with a valid
    certificate that, if this is checked, names the host. *)
Theorem established_verified pc v : client pc v →
  sf_state (pc_fd pc) = Fd.TlsEstablished ∨ sf_tlsEstablished (pc_fd pc) = true → v = true.
Proof. intros C. apply client_secure, C. Qed.
End Secure.

(** ** The select loop *)

Definition open_fds (fds : list SelectFd) : list SelectFd := filter (λ f, sf_closed f = false) fds.
Definition readers (fds : list SelectFd) : list Z := sf_fd <$> filter (λ f, wantReadGet f = true) (open_fds fds).
Definition writers (fds : list SelectFd) : list Z := sf_fd <$> filter (λ f, wantWriteGet f = true) (open_fds fds).

(** One more than the largest descriptor waited for. *)
Definition max_fd (n : Z) (fds : list SelectFd) : Z :=
  foldl (λ n f, if wantReadGet f || wantWriteGet f then Z.max n (sf_fd f + 1) else n) n (open_fds fds).

Definition fd_ok (fd : Z) : bool := (0 <=? fd) && (fd <? FD_SETSIZE).

Lemma FD_SET_eq fd s : FD_SET fd s = if fd_ok fd then Ok (fd :: s) else Ub.
Proof.
  unfold FD_SET, fd_ok. destruct (Z.ltb_spec fd 0), (Z.leb_spec 0 fd), (Z.leb_spec FD_SETSIZE fd), (Z.ltb_spec fd FD_SETSIZE); cbn; done || lia.
Qed.

Lemma open_fds_cons f fds : open_fds (f :: fds) = if sf_closed f then open_fds fds else f :: open_fds fds.
Proof. unfold open_fds. rewrite filter_cons. destruct (sf_closed f); case_decide; congruence. Qed.

Lemma readers_cons f fds : readers (f :: fds) = if negb (sf_closed f) && wantReadGet f then sf_fd f :: readers fds else readers fds.
Proof. unfold readers. rewrite open_fds_cons. destruct (sf_closed f); [done|]. rewrite filter_cons. destruct (wantReadGet f); case_decide; congruence || done. Qed.

Lemma writers_cons f fds : writers (f :: fds) = if negb (sf_closed f) && wantWriteGet f then sf_fd f :: writers fds else writers fds.
Proof. unfold writers. rewrite open_fds_cons. destruct (sf_closed f); [done|]. rewrite filter_cons. destruct (wantWriteGet f); case_decide; congruence || done. Qed.

(** The select loop builds the sets of the descriptors whose SelectFds want to read
    and to write, by the functions of SelectFd, leaves out and drops the closed
    ones and gives select one more than the largest; a descriptor outside of the
    range of the sets, such as the -1 of a failed connect, writes outside of them. *)
Theorem event_sets_spec fds nfds rs ws : event_sets fds nfds rs ws =
  if forallb fd_ok (readers fds ++ writers fds) then
    Ok (open_fds fds, max_fd nfds fds, rev (readers fds) ++ rs, rev (writers fds) ++ ws)
  else Ub.
Proof.
  revert nfds rs ws. induction fds as [|f fds IH]; intros nfds rs ws; [done|]. cbn [event_sets].
  fold (wantReadGet f). fold (wantWriteGet f). rewrite readers_cons, writers_cons. unfold max_fd. rewrite open_fds_cons.
  destruct (sf_closed f); cbn [negb andb]; [apply IH|]. cbn [foldl]. fold (max_fd nfds fds).
  assert (∀ b : bool, (if b && (nfds <=? sf_fd f) then sf_fd f + 1 else nfds) = if b then Z.max nfds (sf_fd f + 1) else nfds) as ->.
  { intros []; cbn; [|done]. destruct (Z.leb_spec nfds (sf_fd f)); lia. }
  destruct (wantReadGet f), (wantWriteGet f); cbn [orb]; rewrite ?FD_SET_eq, ?forallb_app; cbn [forallb app rev];
    destruct (fd_ok (sf_fd f)) eqn:Ef; cbn [andb]; rewrite ?andb_false_r, ?bind_Ok; try done; rewrite IH, ?forallb_app;
    destruct (forallb fd_ok (readers fds) && forallb fd_ok (writers fds)); rewrite ?bind_Ok, <- ?app_assoc; done.
Qed.

(** ** Host names *)

Definition same_name (a b : list Z) : Prop := lower <$> a = lower <$> b.

Lemma lower_zero c : lower c = 0 ↔ c = 0.
Proof. unfold lower. destruct (Z.leb_spec 65 c), (Z.leb_spec c 90); cbn; lia. Qed.

Lemma cstr_id s : (0 ∉ s) → cstr s = s.
Proof. intros N. rewrite <- (app_nil_r s) at 2. induction s as [|c s IH]; [done|]. cbn. destruct (Z.eqb_spec c 0) as [->|]; [set_solver|]. f_equal. apply IH. set_solver. Qed.

Lemma cstr_length s : (length (cstr s) ≤ length s)%nat.
Proof. induction s as [|c s IH]; cbn; [lia|]. destruct (c =? 0); cbn; lia. Qed.

Lemma cstr_short s : length (cstr s) = length s → 0 ∉ s.
Proof.
  induction s as [|c s IH]; cbn; [set_solver|]. destruct (Z.eqb_spec c 0); cbn; [lia|]. intros [= E]. specialize (IH E). set_solver.
Qed.

(** The comparison at the end of [checkName]. *)
Lemma compare_names a b : (0 ∉ a) → (length a =? length b)%nat && caseeq (cstr a) (cstr b) = true ↔ same_name a b.
Proof.
  intros N. rewrite andb_true_iff, Nat.eqb_eq. unfold caseeq. rewrite bool_decide_eq_true, (cstr_id a N). unfold same_name. split.
  - intros [L E]. assert (0 ∉ b) as Nb.
    { apply cstr_short. apply (f_equal length) in E. rewrite !length_fmap in E. lia. }
    by rewrite (cstr_id b Nb) in E.
  - intros E. assert (0 ∉ b) as Nb.
    { intros Hb. apply N. apply (list_elem_of_fmap_2 lower) in Hb. change (lower 0) with 0 in Hb. rewrite <- E in Hb.
      apply list_elem_of_fmap in Hb as (c & Ec & Hc). symmetry in Ec. by apply (proj1 (lower_zero c)) in Ec as ->. }
    split; [by apply (f_equal length) in E; rewrite !length_fmap in E|]. by rewrite (cstr_id b Nb).
Qed.

Lemma from_dot_Some s t : from_dot s = Some t ↔ ∃ l r, s = l ++ 46 :: r ∧ (46 ∉ l) ∧ t = 46 :: r.
Proof.
  induction s as [|c s IH]; cbn; [split; [done|]; by intros ([|] & ? & ? & _)|]. destruct (Z.eqb_spec c 46) as [->|N].
  - split; [intros [= <-]; exists [], s; set_solver|]. intros ([|x l] & r & E & Nl & ->); [by injection E as <-|]. injection E as <- _. set_solver.
  - rewrite IH. split; intros (l & r & E & Nl & ->).
    + exists (c :: l), r. subst. split_and!; [done|set_solver|done].
    + destruct l as [|x l]; injection E as Ex E; [done|]. exists l, r. split_and!; [done|set_solver|done].
Qed.

(** A pattern that begins with "*." and goes on. *)
Definition wildcard (pattern rest : list Z) : Prop := pattern = 42 :: 46 :: rest ∧ rest ≠ [].

Lemma wild_test p : (2 <? length p)%nat && bool_decide (p !! 0%nat = Some 42) && bool_decide (p !! 1%nat = Some 46) = true ↔ ∃ rest, wildcard p rest.
Proof.
  rewrite !andb_true_iff, !bool_decide_eq_true, Nat.ltb_lt. unfold wildcard. split.
  - intros [[L E0] E1]. destruct p as [|x [|y rest]]; [done..|]. injection E0 as ->. injection E1 as ->. exists rest. split; [done|]. destruct rest; [cbn in L; lia|done].
  - intros (rest & -> & Nr). destruct rest; [done|]. split_and!; [cbn; lia|done..].
Qed.

(** A name matches a pattern that begins with "*." and goes on if taking off its
    first label leaves the rest of the pattern, and any other pattern if it is the same,
    in either case whatever the case of the letters. *)
Theorem checkName_spec name pattern : (0 ∉ name) →
  (∀ rest, wildcard pattern rest → checkName name pattern = true ↔ ∃ l r, name = l ++ 46 :: r ∧ (46 ∉ l) ∧ same_name r rest) ∧
  ((¬ ∃ rest, wildcard pattern rest) → checkName name pattern = true ↔ same_name name pattern).
Proof.
  intros N. unfold checkName. pose proof (wild_test pattern) as W. destruct (_ && _ && _) eqn:Ew; split.
  - intros rest [-> Nr]. cbn [tail]. destruct (from_dot name) as [t|] eqn:E.
    + pose proof E as (l & r & -> & Nl & ->)%from_dot_Some. rewrite compare_names by set_solver. unfold same_name. cbn. split.
      * intros [= S]. by exists l, r.
      * intros (l' & r' & E' & Nl' & S). assert (from_dot (l ++ 46 :: r) = Some (46 :: r')) as E2 by (apply from_dot_Some; by exists l', r').
        rewrite E in E2. injection E2 as <-. by rewrite S.
    + split; [done|]. intros (l & r & -> & Nl & _).
      assert (from_dot (l ++ 46 :: r) = Some (46 :: r)) as E2 by (apply from_dot_Some; by exists l, r). congruence.
  - intros Nw. exfalso. apply Nw. by apply W.
  - intros rest Hw. exfalso. destruct W as [_ W]. by specialize (W (ex_intro _ rest Hw)).
  - intros _. by apply compare_names.
Qed.

(** ** Where the parts do not fit *)

Section Misfits.
Context `{RopeLib} (dispatch : Rope → PacketConnection → res PacketConnection) (checkHost : bool).

(** A packet of one block that the descriptor takes at once. *)
Lemma send_direct pc d e rest : conn_able (pc_conn pc) = true → c_tlsConnect (pc_conn pc) = true → io_open (c_peer (pc_conn pc)) = true →
  wantWriteGet (pc_fd pc) = false → d ≠ [] → io_writes (c_peer (pc_conn pc)) = e :: rest → Z.of_nat (length d) ≤ io_n e →
  ∃ pc', pkt_send_blocks pc (MkRope [MkRopeBlock d 0] (Z.of_nat (length d))) false = Ok (pc', MkRope [MkRopeBlock d 0] (Z.of_nat (length d))) ∧
    pc_stream (pc_side pc') = pc_stream (pc_side pc) ++ d ∧ pc_writeBuffer pc' = pc_writeBuffer pc.
Proof.
  destruct pc as [[[f sel tls cl p] pcl] rc w]. unfold pc_fd, pc_conn, conn_able. cbn [pc_side ps_conn c_fd c_selectFd c_tlsConnect c_peer].
  intros Ab -> Op Wg Nd Ew Le. cbn in Ab. apply andb_true_iff in Ab as [-> Ssl].
  unfold pkt_send_blocks, wb_send. cbn [pc_side wf_fd pc_funcs ps_conn]. unfold selectFd. cbn [c_selectFd c_fd]. rewrite bind_Ok, Wg.
  cbn [r_blocks send_loop rb_data bufWrite pc_funcs ps_conn]. unfold conn_write, tlsWrite, selectFd, the_ssl. cbn [c_tlsConnect c_selectFd c_fd c_peer].
  assert (0 < Z.of_nat (length d)) as Ld by (destruct d; [done|cbn; lia]).
  destruct (Z.leb_spec (Z.of_nat (length d)) 0) as [?|_]; [lia|]. rewrite bind_Ok. cbn [set_tlsWriteWantsRead sf_ssl]. rewrite Ssl, bind_Ok.
  unfold SSL_write, next_write. rewrite Op, Ew. cbn [negb]. destruct (Z.leb_spec (io_n e) 0); [lia|].
  rewrite Z.min_r by lia. destruct (Z.leb_spec (Z.of_nat (length d)) 0) as [?|_]; [lia|]. rewrite !bind_Ok.
  destruct (Z.ltb_spec (Z.of_nat (length d)) 0) as [?|_]; [lia|]. unfold rb_length. cbn [rb_data]. rewrite Z.ltb_irrefl.
  cbn [send_loop]. rewrite bind_Ok. eexists. split; [done|]. cbn. by rewrite Nat2Z.id, firstn_all.
Qed.

(** What was queued before the handshake is stranded and overtaken.  The flag that
    made the buffer queue it is not the one an established connection is waited on
    for: the handshake leaves the connection not waited on for writing, and the
    next packet goes out at once, before the queue. *)
Theorem queued_before_handshake_overtaken pc hs d e rest :
  sf_state (pc_fd pc) = Fd.TlsConnect → conn_able (pc_conn pc) = true → c_tlsConnect (pc_conn pc) = true → io_open (c_peer (pc_conn pc)) = true →
  sf_tlsWantWrite (pc_fd pc) = false → sf_tlsReadWantsWrite (pc_fd pc) = false → good_handshake checkHost hs = true →
  d ≠ [] → io_writes (c_peer (pc_conn pc)) = e :: rest → Z.of_nat (length d) ≤ io_n e →
  let pc' := connTlsConnectReady pc checkHost hs in
  sf_state (pc_fd pc') = Fd.TlsEstablished ∧ wantWriteGet (pc_fd pc') = false ∧
  ∃ pc'' b, pkt_send_blocks pc' (MkRope [MkRopeBlock d 0] (Z.of_nat (length d))) false = Ok (pc'', b) ∧
    pc_stream (pc_side pc'') = pc_stream (pc_side pc) ++ d ∧ pc_writeBuffer pc'' = pc_writeBuffer pc.
Proof.
  intros St Ab Ht Op Ww Rw G Nd Ew Le. unfold good_handshake in G. apply andb_true_iff in G as [[G1 G2]%andb_true_iff G3].
  unfold connTlsConnectReady. apply Z.ltb_lt in G1. destruct (Z.leb_spec (hs_result hs) 0); [lia|]. rewrite G2. cbn [negb].
  assert (checkHost && negb (hs_hostMatch hs) = false) as -> by (by destruct checkHost, (hs_hostMatch hs)).
  set (pc' := on_fd pc (λ f, set_established f true)). assert (wantWriteGet (pc_fd pc') = false) as Wg by (unfold wantWriteGet, pc_fd, pc_conn in *; cbn; by rewrite Ww, Rw).
  split_and!; [done|exact Wg|]. destruct (send_direct pc' d e rest Ab Ht Op Wg Nd Ew Le) as (pc'' & E & Es & Eb). by exists pc'', (MkRope [MkRopeBlock d 0] (Z.of_nat (length d))).
Qed.

(** Packets with nothing to do for the thread. *)
Lemma writeReady_closed pc : c_selectFd (pc_conn pc) = false → c_tlsConnect (pc_conn pc) = false → rope_ok (wb_queue (pc_writeBuffer pc)) →
  pc_writeReady pc = Ub.
Proof.
  intros Hs Ht O. unfold pc_writeReady, writeReady. destruct (Z.eqb_spec (r_ropeLen (wb_queue (pc_writeBuffer pc))) 0) as [E|N].
  - unfold want_write. cbn. unfold selectFd. fold (pc_conn pc). by rewrite Hs.
  - destruct (r_blocks (wb_queue (pc_writeBuffer pc))) as [|rb rbs] eqn:Eb.
    { exfalso. apply N. unfold rope_ok, rope_bytes in O. by rewrite Eb in O. }
    cbn. unfold conn_write, selectFd. fold (pc_conn pc). by rewrite Ht, Hs.
Qed.

(** When a descriptor is ready for both, and reading finds the connection closed,
    the handler of established connections goes on to write to a connection whose
    SelectFd is gone: a null pointer. *)
Theorem read_close_then_write_crashes pc pc' : parsePacket pc = Ok (PClosed, pc') →
  c_tlsConnect (pc_conn pc) = false → sf_wantWrite (pc_fd pc) = true → rope_ok (wb_queue (pc_writeBuffer pc)) →
  conn_able (pc_conn pc) = true → (∃ pkts later, at_stream pc pkts later) →
  connEstablishedReady dispatch pc true true = Ub.
Proof.
  intros E Ht Hw O Ab (pkts & later & At). destruct (parsePacket_ok pc pkts later Ab At) as (out & pc1 & E1 & _ & _ & D).
  rewrite E in E1. injection E1 as <- <-. destruct D as (pc0 & len & data & pc1 & F & Er & -> & L).
  unfold connEstablishedReady, pc_readReady. rewrite E, !bind_Ok.
  assert (conn_able (pc_conn pc0) = true) as Ab0 by (by rewrite (read_frame_able _ _ F)).
  assert (read_frame pc0 pc1) as F1.
  { destruct (pc_read_ok pc0 len Ab0 L) as (d & n & pc2 & E2 & _ & F2 & _). rewrite Er in E2. by injection E2 as <- <- <-. }
  assert (read_frame pc pc1) as F' by (by etrans). clear F F1.
  assert (sf_wantWrite (c_fd (ps_conn (pc_side (pc_closed pc1)))) = true) as ->.
  { unfold pc_closed, pc_bufClose, conn_close. cbn. unfold conn_close. fold (pc_conn pc1). rewrite <- Hw. unfold pc_fd. rewrite <- (rf_plain _ _ F' Ht). by destruct (c_selectFd (pc_conn pc1)). }
  cbn [andb]. apply writeReady_closed.
  - unfold pc_conn, pc_closed. cbn. unfold conn_close. by destruct (c_selectFd (ps_conn (pc_side pc1))).
  - rewrite <- Ht, <- (rf_tls _ _ F'). unfold pc_conn, pc_closed. cbn. unfold conn_close. by destruct (c_selectFd (ps_conn (pc_side pc1))).
  - change (rope_ok (wb_queue (pc_writeBuffer pc1))). by rewrite (rf_wb _ _ F').
Qed.
End Misfits.

(** ** Witnesses *)

Definition no_dispatch (buf : Rope) (pc : PacketConnection) : res PacketConnection := Ok pc.

Lemma no_dispatch_keeps : ∀ buf pc pc', no_dispatch buf pc = Ok pc' → pc_keeps pc pc'.
Proof. intros buf pc pc' [= <-]. reflexivity. Qed.

Definition demo_start (writes : list IoResult) : PacketConnection :=
  MkPacketConnection (MkPcSide (initiate_addr true 5 (MkPeer true [] [] [] [] writes)) false) (new_Recv (replicate 16 0) 0) new_WriteBuffer.

Definition demo_ready (result : Z) : Ready := MkReady false true 0 (MkHandshake result SSL_ERROR_WANT_WRITE X509_V_OK true).

Definition one_block (d : list Z) : Rope := MkRope [MkRopeBlock d 0] (Z.of_nat (length d)).

(** A packet is sent while the connection is being made, and the TLS client starts. *)
Lemma demo_connecting : ∃ pc1 b pc2, pkt_send_blocks (demo_start [MkIo 100 0]) (one_block [1; 2]) false = Ok (pc1, b) ∧
  selectFdReady no_dispatch pc1 true (demo_ready 0) = Ok pc2 ∧ client no_dispatch true pc2 false ∧
  sf_state (pc_fd pc2) = Fd.TlsConnect ∧ rope_bytes (wb_queue (pc_writeBuffer pc2)) = [1; 2] ∧ pc_conn pc2 = MkConnection (MkSelectFd Fd.TlsConnect 5 true false true false false false false false false) true true false (MkPeer true [] [] [] [] [MkIo 100 0]).
Proof.
  destruct (pkt_send_blocks (demo_start [MkIo 100 0]) (one_block [1; 2]) false) as [[pc1 b]| |] eqn:E1; [|vm_compute in E1; discriminate..].
  destruct (selectFdReady no_dispatch pc1 true (demo_ready 0)) as [pc2| |] eqn:E2;
    [|vm_compute in E1; injection E1 as <- <-; vm_compute in E2; discriminate..].
  assert (client no_dispatch true pc1 false) as C1 by (eapply client_send; [apply client_addr|exact E1]).
  pose proof (client_ready no_dispatch true pc1 false (demo_ready 0) pc2 C1 E2) as C2. exists pc1, b, pc2. split; [done|]. split; [done|].
  vm_compute in E1. injection E1 as <- <-. vm_compute in E2. injection E2 as <-. split; [exact C2|]. split_and!; vm_compute; reflexivity.
Qed.

Lemma established_verified_witness : ∃ pc v, client no_dispatch true pc v ∧ sf_state (pc_fd pc) = Fd.TlsEstablished ∧ v = true.
Proof.
  destruct demo_connecting as (pc1 & b & pc2 & _ & _ & C & St & _ & Ec).
  eexists (connTlsConnectReady pc2 true (rd_handshake (demo_ready 1))), _.
  assert (client no_dispatch true (connTlsConnectReady pc2 true (rd_handshake (demo_ready 1)))
    (false || (bool_decide (sf_state (pc_fd pc2) = Fd.TlsConnect) && good_handshake true (rd_handshake (demo_ready 1))))) as C'.
  { eapply client_ready; [exact C|]. unfold selectFdReady. unfold pc_fd, pc_conn in St. by rewrite St. }
  split; [exact C'|]. split; [done|]. apply (established_verified no_dispatch no_dispatch_keeps true _ _ C'). by left.
Defined.

Lemma checkName_spec_witness : checkName [109; 46; 97] [42; 46; 65] = true.
Proof.
  apply (checkName_spec [109; 46; 97] [42; 46; 65]) with (rest := [65]); [set_solver|by split|].
  exists [109], [97]. split_and!; [done|set_solver|done].
Defined.

Lemma queued_before_handshake_overtaken_witness : ∃ pc pc'', client no_dispatch true pc false ∧
  rope_bytes (wb_queue (pc_writeBuffer pc)) = [1; 2] ∧ pc_stream (pc_side pc'') = [3] ∧ pc_writeBuffer pc'' = pc_writeBuffer pc.
Proof.
  destruct demo_connecting as (pc1 & b & pc & _ & _ & C & St & Q & Ec).
  destruct (queued_before_handshake_overtaken true pc (rd_handshake (demo_ready 1)) [3] (MkIo 100 0) []) as (_ & _ & pc'' & b' & _ & Es & Eb);
    try (unfold pc_fd; rewrite Ec; reflexivity); try done.
  exists pc, pc''. split_and!; [done..| |done]. rewrite Es. unfold pc_stream. fold (pc_conn pc). by rewrite Ec.
Defined.

Definition demo_both : PacketConnection :=
  pc_set_side (demo_conn [] [MkIo 0 0] [])
    (MkPcSide (MkConnection (wantWriteSet (new_SelectFd 3 Fd.Established) true) true false false (MkPeer true [] [] [] [MkIo 0 0] [])) false).

Lemma read_close_then_write_crashes_witness : connEstablishedReady no_dispatch demo_both true true = Ub.
Proof.
  destruct (parsePacket demo_both) as [[out pc']| |] eqn:E; [|vm_compute in E; discriminate..].
  apply (read_close_then_write_crashes no_dispatch demo_both pc'); [|reflexivity..|].
  - rewrite E. vm_compute in E. by injection E as <- <-.
  - exists [], []. split; [done|]. split; [by apply demo_head|done].
Defined.

(** A TLS read that has to write first makes the buffer queue a packet, [1], without
    the connection being waited on for writing on the buffer's account.  The next
    read ends that, and the packet after, [2], overtakes the queue. *)
Definition demo_tls (reads : list IoResult) : PacketConnection :=
  MkPacketConnection
    (MkPcSide (MkConnection (MkSelectFd Fd.TlsEstablished 3 true false false false true false true false false) true true false
      (MkPeer true [] [] [] reads [MkIo 100 0; MkIo 100 0])) false)
    (new_Recv (replicate 16 0) 0) new_WriteBuffer.

Example tls_read_reorders :
  (pc ← pc_readReady no_dispatch (demo_tls [MkIo (-1) SSL_ERROR_WANT_WRITE; MkIo (-1) SSL_ERROR_WANT_READ]);
   '(pc, _) ← pkt_send_blocks pc (one_block [1]) false;
   pc ← pc_readReady no_dispatch pc;
   '(pc, _) ← pkt_send_blocks pc (one_block [2]) false;
   Ok (io_tls (c_peer (pc_conn pc)), rope_bytes (wb_queue (pc_writeBuffer pc)), wantWriteGet (pc_fd pc))) = Ok ([2], [1], false).
Proof. vm_compute. reflexivity. Qed.

(** A connect that fails at once leaves -1 in the list of the select loop. *)
Example failed_connect_selects : event_sets [c_fd (initiate_addr false (-1) (MkPeer true [] [] [] [] []))] 0 [] [] = Ub.
Proof. reflexivity. Qed.

(** A packet sent while the name is being looked up is written to no SSL object. *)
Example send_in_lookup_crashes :
  pkt_send_blocks (MkPacketConnection (MkPcSide (initiate_host true (MkPeer true [] [] [] [] [])) false) (new_Recv (replicate 16 0) 0) new_WriteBuffer)
    (one_block [1]) false = Ub.
Proof. reflexivity. Qed.
