(* ===== verification/Passthru.v ===== *)
(** * Packets handed from one thread to another

    A packet can be made in one thread and sent by another: its rope is moved to the
    heap and a message on an inter-thread queue carries the pointer.  This joins the
    queues of itq.cc and the packets of packet.cc. *)

From S2P Require Import Prelude Rope Conn ItQueue ItQueueLayout ItQueueSpec ItQueueRun Packet.

(** Message::PacketPassthru *)
Definition PASSTHRU_ID : Z := 1.
Definition SIZEOF_PacketPassthru : Z := 8.

(** The queue, the ropes its messages point to, by the place of the pointer, and the
    [pp] of the packet writer of each queue writer. *)
Record PtState := MkPtState {
  pt_it : ItState;
  pt_ropes : gmap addr Rope;
  pt_pp : gmap positive addr;
}.

Lemma Forall2_impl_elem {A B} (P Q : A → B → Prop) l k : Forall2 P l k → (∀ x y, x ∈ l → P x y → Q x y) → Forall2 Q l k.
Proof.
  induction 1 as [|x y l k Hxy _ IH]; intros HPQ; constructor.
  - apply HPQ; [left|done].
  - apply IH. intros u v Hu. apply HPQ. by right.
Qed.

Section Passthru.
Context `{RopeLib} (new : gset positive → positive).

(** PacketBase::open, the message. *)
Definition passthru_open (st : PtState) (p : positive) : res PtState :=
  '(pp, it) ← itqOpen new (pt_it st) p PASSTHRU_ID SIZEOF_PacketPassthru;
  Ok (MkPtState it (pt_ropes st) (<[p := pp]> (pt_pp st))).

(** PacketBase::send of the finished packet [r], by way of the queue. *)
Definition passthru_send (st : PtState) (p : positive) (r : Rope) : res PtState :=
  pp ← deref (pt_pp st !! p);
  let ropes := <[pp := rope_transfer rope_none r]> (pt_ropes st) in
  it ← send (pt_it st) p false;
  Ok (MkPtState it ropes (pt_pp st)).

(** PacketPassthru::read, and the rope. *)
Definition passthru_read (st : PtState) (h : addr) : res Rope :=
  pp ← itqRead (pt_it st) (Some h) SIZEOF_PacketPassthru;
  deref (pt_ropes st !! pp).

(** ServiceThread::recvPassthru: send it on, if there is a connection. *)
Definition recvPassthru (st : PtState) (h : addr) (pc : PacketConnection) : res PacketConnection :=
  if c_selectFd (ps_conn (pc_side pc)) then
    r ← passthru_read st h;
    '(pc, _) ← pkt_send_blocks pc r true;
    Ok pc
  else Ok pc.

(** ** In order *)

Context (new_fresh : ∀ D, new D ∉ D).

(** The states of a queue that carries packets, with the packets sent on it and not
    yet given back. *)
Inductive pt_reach : PtState → aqueue → list Rope → Prop :=
| pt_init ths : pt_reach (MkPtState (it_init ths) ∅ ∅) (AQueue [] None ∅) []
| pt_open st a rs p st' pp a' : pt_reach st a rs → it_allowed (pt_it st) a (IOpen p PASSTHRU_ID SIZEOF_PacketPassthru) →
    passthru_open st p = Ok st' → pt_pp st' !! p = Some pp →
    it_spec (pt_it st') a (IOpen p PASSTHRU_ID SIZEOF_PacketPassthru) (OPtr pp) a' → pt_reach st' a' rs
| pt_send st a rs p r st' a' : pt_reach st a rs → passthru_send st p r = Ok st' →
    it_spec (pt_it st') a (ISend p false) ODone a' → pt_reach st' a' (rs ++ [r])
| pt_other st a rs o out it' a' : pt_reach st a rs → it_allowed (pt_it st) a o → it_step new (pt_it st) o = Ok (out, it') →
    it_spec it' a o out a' → match o with IRegister _ | IWait | IRead _ _ => True | _ => False end →
    pt_reach (MkPtState it' (pt_ropes st) (pt_pp st)) a' rs
| pt_release st a r rs h it' a' : pt_reach st a (r :: rs) → it_allowed (pt_it st) a (IRelease h) →
    it_step new (pt_it st) (IRelease h) = Ok (ODone, it') → it_spec it' a (IRelease h) ODone a' →
    pt_reach (MkPtState it' (pt_ropes st) (pt_pp st)) a' rs.

(** Where the pointer of a message is. *)
Definition contents (m : amsg) : option addr := am_ptrs m !! 1%nat.

Record pt_inv (st : PtState) (a : aqueue) (rs : list Rope) : Prop := PtInv {
  pi_reach : it_reach new (pt_it st) a;
  pi_held : Forall2 (λ m r, am_sizes m !! 1%nat = Some SIZEOF_PacketPassthru ∧ ∃ pp, contents m = Some pp ∧ pt_ropes st !! pp = Some r) (q_held a) rs;
  pi_open : ∀ p m, q_open a !! p = Some m → am_sizes m !! 1%nat = Some SIZEOF_PacketPassthru ∧ am_writer m = p ∧
    ∃ pp, contents m = Some pp ∧ pt_pp st !! p = Some pp ∧ (∀ m', m' ∈ q_held a → contents m' ≠ Some pp) ∧
      (∀ q m', q ≠ p → q_open a !! q = Some m' → contents m' ≠ Some pp);
}.

Lemma contents_region m pp : contents m = Some pp → am_sizes m !! 1%nat = Some SIZEOF_PacketPassthru → (pp, SIZEOF_PacketPassthru) ∈ regions m.
Proof. intros E1 E2. apply list_elem_of_lookup. exists 1%nat. unfold regions. apply lookup_zip_Some. done. Qed.

(** A pointer that was just handed out is not that of another message. *)
Lemma good_ptr_new s a pp m q : good_ptr s a (pp, SIZEOF_PacketPassthru) → m ∈ pending a q → am_sizes m !! 1%nat = Some SIZEOF_PacketPassthru → contents m ≠ Some pp.
Proof.
  intros [_ G] Hm Hs E. specialize (G q m (pp, SIZEOF_PacketPassthru) Hm (contents_region m pp E Hs)). unfold apart, SIZEOF_PacketPassthru in G. cbn in G.
  destruct G as [?|[?|?]]; [done|lia..].
Qed.

Lemma Forall2_held_sizes st a rs m : pt_inv st a rs → m ∈ q_held a → am_sizes m !! 1%nat = Some SIZEOF_PacketPassthru.
Proof. intros [_ F _] Hm. apply list_elem_of_lookup in Hm as [i Ei]. destruct (Forall2_lookup_l _ _ _ _ _ F Ei) as (r & _ & ? & _). done. Qed.

Lemma pt_inv_open st a rs p st' pp a' : pt_inv st a rs → it_allowed (pt_it st) a (IOpen p PASSTHRU_ID SIZEOF_PacketPassthru) →
  passthru_open st p = Ok st' → pt_pp st' !! p = Some pp →
  it_spec (pt_it st') a (IOpen p PASSTHRU_ID SIZEOF_PacketPassthru) (OPtr pp) a' → pt_inv st' a' rs.
Proof.
  intros I A E Epp Sp. pose proof (λ m, Forall2_held_sizes st a rs m I) as Sz. destruct I as [R F O]. unfold passthru_open in E.
  apply bind_Ok_inv in E as ([x it'] & E0 & E). injection E as <-. cbn in Epp. rewrite lookup_insert_eq in Epp. assert (x = pp) as -> by congruence. clear Epp. cbn [pt_it] in Sp. pose proof Sp as (h & len & w & -> & _ & _ & _ & _ & G).
  assert (Eno : q_open a !! p = None) by apply A.
  split.
  - eapply reach_step; [exact R|exact A| |exact Sp]. cbn [it_step pt_it]. by rewrite E0, bind_Ok.
  - exact F.
  - intros q m. cbn [q_open with_open]. destruct (decide (q = p)) as [->|Nq].
    + rewrite lookup_insert_eq. intros [= <-]. split_and!; [done..|]. eexists. split; [done|]. cbn [pt_pp]. rewrite lookup_insert_eq. split_and!; [done| |].
      * intros m' Hm'. eapply good_ptr_new; [exact G|by apply pending_held|by apply Sz].
      * intros q m' Nq Em'. cbn in Em'. rewrite lookup_insert_ne in Em' by done. eapply good_ptr_new; [exact G|by apply pending_open|]. by apply (O q m').
    + rewrite lookup_insert_ne by done. intros Em. destruct (O q m Em) as (S1 & W1 & x & C1 & P1 & H1 & N1). split_and!; [done..|].
      exists x. cbn [pt_pp]. rewrite lookup_insert_ne by done. split_and!; [done..|]. intros q' m' Nq'. cbn. destruct (decide (q' = p)) as [->|].
      * rewrite lookup_insert_eq. intros [= <-] [= Ex]. subst x. by eapply (good_ptr_new _ _ _ m q G); [by apply pending_open|..].
      * rewrite lookup_insert_ne by done. by apply N1.
Qed.

Lemma pt_inv_send st a rs p r st' a' : pt_inv st a rs → passthru_send st p r = Ok st' →
  it_spec (pt_it st') a (ISend p false) ODone a' → pt_inv st' a' (rs ++ [r]).
Proof.
  intros [R F O] E Sp. unfold passthru_send in E. apply bind_Ok_inv in E as (y & E0 & E). apply bind_Ok_inv in E as (it' & E1 & E). injection E as <-. cbn [pt_it] in Sp. pose proof Sp as (m & Em & ->).
  destruct (O p m Em) as (S1 & W1 & x & C1 & P1 & H1 & N1). rewrite P1 in E0. assert (y = x) as -> by (cbn in E0; congruence). rewrite rope_transfer_all. split.
  - eapply reach_step; [exact R| | |exact Sp]; [by exists m|]. cbn [it_step pt_it]. by rewrite E1, bind_Ok.
  - unfold q_held, sent_msg. cbn [q_cur q_sent]. rewrite app_assoc. apply Forall2_app.
    + eapply Forall2_impl_elem; [exact F|]. intros m' r' Hm' [S' (y & Cy & Ry)]. split; [done|]. exists y. split; [done|]. cbn [pt_ropes].
      rewrite lookup_insert_ne; [done|]. intros ->. by apply (H1 m').
    + constructor; [|done]. split; [done|]. exists x. cbn [pt_ropes]. by rewrite lookup_insert_eq.
  - intros q m'. unfold sent_msg, q_held. cbn [q_open q_cur q_sent pt_pp]. intros [Nq Em']%lookup_delete_Some.
    destruct (O q m' Em') as (S2 & W2 & y & C2 & P2 & H2 & N2). split_and!; [done..|]. exists y. split_and!; [done..| |].
    + rewrite app_assoc. intros m2 [Hm2|Hm2]%elem_of_app; [by apply H2|]. apply list_elem_of_singleton in Hm2 as ->. by apply (N2 p).
    + intros q' m2 Nq' [_ Em2]%lookup_delete_Some. by apply (N2 q').
Qed.

Lemma pt_inv_other st a rs o out it' a' : pt_inv st a rs → it_allowed (pt_it st) a o → it_step new (pt_it st) o = Ok (out, it') →
  it_spec it' a o out a' → match o with IRegister _ | IWait | IRead _ _ => True | _ => False end →
  pt_inv (MkPtState it' (pt_ropes st) (pt_pp st)) a' rs.
Proof.
  intros [R F O] A E Sp Ho. assert (it_reach new it' a') as R' by (by eapply reach_step).
  assert (q_held a' = q_held a ∧ q_open a' = q_open a) as [Eh Eo].
  { destruct o as [r|p ID SZ|p n|p sig| |h SZ|h], out as [|q|x|[h'|]]; cbn in Sp, A; try done.
    - by subst.
    - destruct Sp as (m & ms & hd & Es & _ & -> & _). unfold q_held. by rewrite Es, A.
    - destruct Sp as [_ ->]. done.
    - by destruct Sp as [-> _]. }
  split; [done|by rewrite Eh|]. rewrite Eh, Eo. exact O.
Qed.

Lemma pt_inv_release st a r rs h it' a' : pt_inv st a (r :: rs) → it_allowed (pt_it st) a (IRelease h) →
  it_step new (pt_it st) (IRelease h) = Ok (ODone, it') → it_spec it' a (IRelease h) ODone a' →
  pt_inv (MkPtState it' (pt_ropes st) (pt_pp st)) a' rs.
Proof.
  intros [R F O] A E Sp. assert (it_reach new it' a') as R' by (by eapply reach_step). destruct A as (m & Em & _). cbn in Sp. subst a'.
  unfold q_held in *. rewrite Em in *. cbn [opt app] in *. inversion F as [|? ? ? ? F1 F2]; subst. split; [done|done|].
  intros p m' Em'. destruct (O p m' Em') as (S1 & W1 & x & C1 & P1 & H1 & N1). split_and!; [done..|]. exists x. split_and!; [done..| |done].
  intros m2 Hm2. apply H1. by right.
Qed.

Lemma pt_reach_inv st a rs : pt_reach st a rs → pt_inv st a rs.
Proof.
  induction 1.
  - split; [constructor|constructor|done].
  - by eapply pt_inv_open.
  - by eapply pt_inv_send.
  - by eapply pt_inv_other.
  - by eapply pt_inv_release.
Qed.

(** Packets handed to another thread: opening and sending return; the message the
    reader takes carries, until it is released, the packet that was sent first of those
    not yet released, as it was sent; and the service thread sends that packet's
    bytes on its connection. *)
Theorem passthru_in_order st a rs : pt_reach st a rs →
  (∀ p, it_allowed (pt_it st) a (IOpen p PASSTHRU_ID SIZEOF_PacketPassthru) → ∃ st', passthru_open st p = Ok st') ∧
  (∀ p r, is_Some (q_open a !! p) → ∃ st', passthru_send st p r = Ok st') ∧
  (∀ m h, q_cur a = Some m → am_hdr m = Some h → ∃ r rest, rs = r :: rest ∧ passthru_read st h = Ok r ∧
     ∀ pc, recvPassthru st h pc =
       if c_selectFd (ps_conn (pc_side pc)) then '(pc, _) ← pkt_send_blocks pc r true; Ok pc else Ok pc).
Proof.
  intros Re. destruct (pt_reach_inv _ _ _ Re) as [R F O]. destruct (it_reach_inv new new_fresh _ _ R) as [ch I]. split_and!.
  - intros p A. destruct (it_step_ok new new_fresh _ _ ch _ I A) as (out & s' & a' & ch' & E & _). cbn [it_step] in E. inv_res.
    unfold passthru_open. rewrite E0, bind_Ok. by eexists.
  - intros p r [m Em]. destruct (O p m Em) as (_ & _ & x & _ & Ep & _).
    destruct (it_step_ok new new_fresh _ _ ch (ISend p false) I (ex_intro _ m Em)) as (out & s' & a' & ch' & E & _). cbn [it_step] in E. inv_res.
    unfold passthru_send. rewrite Ep. cbn [deref]. rewrite bind_Ok, E0, bind_Ok. by eexists.
  - intros m h Em Eh. unfold q_held in F. rewrite Em in F. cbn [opt app] in F. inversion F as [|? r ? rest (Sz & pp & Ec & Er) _]; subst.
    destruct (it_step_ok new new_fresh _ _ ch (IRead h SIZEOF_PacketPassthru) I) as (out & s' & a' & ch' & E & Sp & _); [by exists m|].
    cbn [it_step] in E. apply bind_Ok_inv in E as (x & E0 & E). injection E as <- <-. destruct Sp as (_ & m' & Em' & Ep). rewrite Em in Em'. injection Em' as <-. unfold contents in Ec. rewrite Ec in Ep. assert (x = pp) as -> by congruence.
    assert (passthru_read st h = Ok r) as Erd by (unfold passthru_read; by rewrite E0, bind_Ok, Er).
    exists r, rest. split_and!; [done..|]. intros pc. unfold recvPassthru. by rewrite Erd, bind_Ok.
Qed.
End Passthru.

(** ** Witness *)

Section Demo.
Context `{RopeLib}.

(** One more operation that does not concern packets. *)
Lemma pt_more st a rs o : pt_reach fresh st a rs → it_allowed (pt_it st) a o →
  match o with IRegister _ | IWait | IRead _ _ => True | _ => False end →
  ∃ out st' a', it_step fresh (pt_it st) o = Ok (out, pt_it st') ∧ it_spec (pt_it st') a o out a' ∧ pt_reach fresh st' a' rs.
Proof.
  intros R A Ho. destruct (pt_reach_inv fresh _ _ _ R) as [Ri _ _]. destruct (it_reach_inv fresh is_fresh _ _ Ri) as [ch I].
  destruct (it_step_ok fresh is_fresh _ _ ch _ I A) as (out & s' & a' & ch' & E & S & _).
  exists out, (MkPtState s' (pt_ropes st) (pt_pp st)), a'. split_and!; [done..|]. by eapply pt_other.
Qed.

(** A queue with a writer. *)
Lemma demo_registered : ∃ st p, pt_reach fresh st (AQueue [] None ∅) [] ∧ p ∈ dom (it_writers (pt_it st)).
Proof.
  destruct (pt_more _ _ _ (IRegister 1%positive) (pt_init fresh {[1%positive := MkThread 7 false false 0]})) as (out & st & a & E & S & R); [|done|].
  { split; [|done]. apply elem_of_dom. by eexists. }
  destruct out as [|p|x|h]; cbn in S; try done. subst a. exists st, p. split; [exact R|].
  cbn [it_step] in E. apply bind_Ok_inv in E as ([q s] & E & [= <- <-]). unfold registerWriter in E. inv_res. apply elem_of_dom. cbn. rewrite lookup_insert_eq. by eexists.
Qed.

(** A message opened by it. *)
Lemma demo_packet_opened : ∃ st p m, pt_reach fresh st (AQueue [] None {[p := m]}) [].
Proof.
  destruct demo_registered as (st & p & R & Hp). destruct (pt_reach_inv fresh _ _ _ R) as [Ri _ _]. destruct (it_reach_inv fresh is_fresh _ _ Ri) as [ch I].
  assert (it_allowed (pt_it st) (AQueue [] None ∅) (IOpen p PASSTHRU_ID SIZEOF_PacketPassthru)) as A by (by repeat split).
  destruct (it_step_ok fresh is_fresh _ _ ch _ I A) as (out & s' & a' & ch' & E & S & _).
  cbn [it_step] in E. apply bind_Ok_inv in E as ([pp it'] & E & [= <- <-]). pose proof S as (h & len & w & -> & _).
  exists (MkPtState it' (pt_ropes st) (<[p := pp]> (pt_pp st))), p. eexists. eapply (pt_open fresh _ _ _ p _ pp); [exact R|exact A| |apply lookup_insert_eq|exact S].
  unfold passthru_open. by rewrite E, bind_Ok.
Qed.

(** A packet was sent, and the reader has taken its message. *)
Lemma demo_passed (r : Rope) : ∃ st a m h, pt_reach fresh st a [r] ∧ q_cur a = Some m ∧ am_hdr m = Some h.
Proof.
  destruct demo_packet_opened as (st & p & m & R). destruct (pt_reach_inv fresh _ _ _ R) as [Ri _ O]. destruct (it_reach_inv fresh is_fresh _ _ Ri) as [ch I].
  assert (Em : q_open (AQueue [] None {[p := m]}) !! p = Some m) by apply lookup_singleton_eq.
  destruct (O p m Em) as (_ & _ & x & _ & Ep & _).
  destruct (it_step_ok fresh is_fresh _ _ ch (ISend p false) I (ex_intro _ m Em)) as (out & s' & a' & ch' & E & S & _).
  cbn [it_step] in E. apply bind_Ok_inv in E as (it' & E & [= <- <-]). pose proof S as (m' & Em' & ->). rewrite Em in Em'. injection Em' as <-.
  assert (pt_reach fresh (MkPtState it' (<[x := rope_transfer rope_none r]> (pt_ropes st)) (pt_pp st)) (sent_msg (AQueue [] None {[p := m]}) p m) [r]) as R1.
  { eapply (pt_send fresh _ _ []); [exact R| |exact S]. unfold passthru_send. rewrite Ep. cbn [deref]. by rewrite bind_Ok, E, bind_Ok. }
  destruct (pt_more _ _ _ IWait R1) as (out & st2 & a2 & _ & S2 & R2); [done|done|].
  destruct out as [| | |[h|]]; cbn in S2; try done; [|by destruct S2].
  destruct S2 as (m1 & ms & hd & [= <- <-] & Eh & -> & _). by eexists st2, _, _, h.
Qed.
End Demo.

Lemma passthru_in_order_witness : ∃ st h, passthru_read st h = Ok (MkRope [MkRopeBlock [1; 2; 3] 0] 3).
Proof.
  destruct (demo_passed (MkRope [MkRopeBlock [1; 2; 3] 0] 3)) as (st & a & m & h & R & Em & Eh).
  destruct (passthru_in_order fresh is_fresh st a [MkRope [MkRopeBlock [1; 2; 3] 0] 3] R) as (_ & _ & H).
  destruct (H m h Em Eh) as (r & rest & [= <- <-] & E & _). exists st, h. exact E.
Defined.
