(* ===== verification/Influx.v ===== *)
(** * broker/main.cc: the shape of packets, and lines for a database

    A client tells the broker what fields a kind of packet has: a PacketType message
    lists them, and after a field that is a list the fields of its elements.
    [readStruct] makes a [Struct] of it.  With it, [stashStruct] turns a packet of
    that kind into lines of text, reading the fields at their offsets in the packet.

    The records of messages are read by generated code: a [PacketField] iterator is
    the list of the fields it goes through, which is finite; a packet whose offsets of
    next fields form a cycle is outside the model. *)

From S2P Require Import Prelude Rope Conn ItQueue Packet.
From stdpp Require Import pretty strings.
#[local] Open Scope Z_scope.

(** PacketFieldType *)
Definition FieldTypeBool : Z := 1.
Definition FieldTypeInt : Z := 2.
Definition FieldTypeUnsignedInt : Z := 3.
Definition FieldTypeLong : Z := 4.
Definition FieldTypeUnsignedLong : Z := 5.
Definition FieldTypeString : Z := 6.
Definition FieldTypeChar : Z := 7.
Definition FieldTypeList : Z := 8.

(** ** Structures *)

(** Record::PacketField *)
Record PacketField := MkPacketField {
  pf_name : list Z;
  pf_tag : bool;
  pf_type : Z;
  pf_size : Z;
  pf_offset : Z;
}.

(** [listOf] is not initialised but for a list; [hasList] is the number of the field
    it points to. *)
Inductive Field := MkField (name : list Z) (tag : bool) (type size offset : Z) (listOf : option Struct)
with Struct := MkStruct (name : list Z) (ID : Z) (fieldList : list Field) (hasList : option nat).

Definition f_name (f : Field) : list Z := let 'MkField n _ _ _ _ _ := f in n.
Definition f_tag (f : Field) : bool := let 'MkField _ t _ _ _ _ := f in t.
Definition f_type (f : Field) : Z := let 'MkField _ _ t _ _ _ := f in t.
Definition f_size (f : Field) : Z := let 'MkField _ _ _ s _ _ := f in s.
Definition f_offset (f : Field) : Z := let 'MkField _ _ _ _ o _ := f in o.
Definition f_listOf (f : Field) : option Struct := let 'MkField _ _ _ _ _ l := f in l.
Definition s_name (s : Struct) : list Z := let 'MkStruct n _ _ _ := s in n.
Definition s_fieldList (s : Struct) : list Field := let 'MkStruct _ _ l _ := s in l.
Definition s_hasList (s : Struct) : option nat := let 'MkStruct _ _ _ h := s in h.

(** The constructor, and appending a field. *)
Definition new_Struct (name : list Z) (ID : Z) : Struct := MkStruct name ID [] None.

Definition field_of (pf : PacketField) (listOf : option Struct) : Field :=
  MkField (pf_name pf) (pf_tag pf) (pf_type pf) (pf_size pf) (pf_offset pf) listOf.

Definition append_field (s : Struct) (f : Field) (isList : bool) : Struct :=
  let 'MkStruct n ID l h := s in MkStruct n ID (l ++ [f]) (if isList then Some (length l) else h).

(** Each field takes one turn, in the calls for lists too. *)
Fixpoint readStruct (fuel : nat) (s : Struct) (fieldIter : list PacketField) (numFields : Z)
    : res (Struct * list PacketField) :=
  match fuel with
  | O => Spin
  | S fuel =>
      if 0 <? numFields then
        match fieldIter with
        | [] => Ok (s, [])
        | pf :: fieldIter =>
            if pf_type pf =? FieldTypeList then
              '(l, fieldIter) ← readStruct fuel (new_Struct [] 0) fieldIter (pf_size pf);
              readStruct fuel (append_field s (field_of pf (Some l)) true) fieldIter (numFields - 1)
            else readStruct fuel (append_field s (field_of pf None) false) fieldIter (numFields - 1)
        end
      else Ok (s, fieldIter)
  end.

(** Record::PacketType *)
Record PacketType := MkPacketType {
  pt_name : list Z;
  pt_numId : Z;
  pt_numFields : Z;
  pt_fields : list PacketField;
}.

(** The structure recvPacketType puts in the map. *)
Definition make_struct (pkt : PacketType) : res Struct :=
  '(s, _) ← readStruct (S (length (pt_fields pkt))) (new_Struct (pt_name pkt) (pt_numId pkt)) (pt_fields pkt) (pt_numFields pkt);
  Ok s.

(** ** Lines *)

(** [post << c], and a number. *)
Definition bytes_of (s : string) : list Z := (λ c, Z.of_N (Ascii.N_of_ascii c)) <$> String.list_ascii_of_string s.
Definition decimal (v : Z) : list Z := bytes_of (pretty v).

Definition COMMA : Z := 44.
Definition SPACE : Z := 32.
Definition QUOTE : Z := 34.
Definition BACKSLASH : Z := 92.
Definition EQUALS : Z := 61.
Definition NEWLINE : Z := 10.

(** [overlay + offset], and the bytes from there to the end of the block. *)
Definition overlay_at (buf : Rope) (base offset : Z) : res (list Z) :=
  p ← deref (pktFind buf base);
  rb ← deref (r_blocks buf !! p.1);
  let i := Z.of_nat p.2 + offset in
  if (i <? 0) || (rb_length rb <? i) then Ub else Ok (drop (Z.to_nat i) (rb_data rb)).

(** An integer of [n] bytes there. *)
Definition word_at (buf : Rope) (base offset : Z) (n : nat) : res Z :=
  d ← overlay_at buf base offset;
  b ← mem_load d 0 n;
  Ok (le_val b).

(** A value with its name: the line and the separator for the next. *)
Definition post_field (post : list Z) (sep : Z) (f : Field) (v : list Z) : list Z * Z :=
  (post ++ [sep] ++ f_name f ++ [EQUALS] ++ v, COMMA).

Section Stash.
Variables (base : Z) (buf : Rope).

Definition stashBool (post : list Z) (sep : Z) (f : Field) : res (list Z * Z) :=
  b ← word_at buf base (f_offset f) 1;
  Ok (post_field post sep f [if ctrue b then 116 else 102]).

Definition stashInt (post : list Z) (sep : Z) (f : Field) : res (list Z * Z) :=
  i ← word_at buf base (f_offset f) 4;
  Ok (post_field post sep f (decimal (i32 i))).

Definition stashUnsignedInt (post : list Z) (sep : Z) (f : Field) : res (list Z * Z) :=
  ui ← word_at buf base (f_offset f) 4;
  Ok (post_field post sep f (decimal ui)).

Definition stashLong (post : list Z) (sep : Z) (f : Field) : res (list Z * Z) :=
  l ← word_at buf base (f_offset f) 8;
  Ok (post_field post sep f (decimal (i64 l))).

Definition stashUnsignedLong (post : list Z) (sep : Z) (f : Field) : res (list Z * Z) :=
  ul ← word_at buf base (f_offset f) 8;
  Ok (post_field post sep f (decimal ul)).

(** lineProtocolStrEscape *)
Fixpoint escape (s : list Z) : list Z :=
  match s with
  | [] => []
  | c :: s => if c =? QUOTE then BACKSLASH :: QUOTE :: escape s else c :: escape s
  end.

Definition quoted (tags : bool) (s : list Z) : list Z :=
  if tags then escape s else QUOTE :: escape s ++ [QUOTE].

(** strlen needs the terminator in the block. *)
Definition stashString (post : list Z) (sep : Z) (tags : bool) (f : Field) : res (list Z * Z) :=
  off ← word_at buf base (f_offset f) 4;
  str ← overlay_at buf off 0;
  if existsb (λ c, c =? 0) str then Ok (post_field post sep f (quoted tags (cstr str))) else Ub.

(** memchr( str, 0, size ): a negative size is a huge one. *)
Definition char_field (str : list Z) (size : Z) : res (list Z) :=
  let n := if size <? 0 then length str else Z.to_nat size in
  if existsb (λ c, c =? 0) (take n str) then Ok (cstr str)
  else if (size <? 0) || (Z.of_nat (length str) <? size) then Ub
  else Ok (take n str).

Definition stashChar (post : list Z) (sep : Z) (tags : bool) (f : Field) : res (list Z * Z) :=
  str ← overlay_at buf base (f_offset f);
  s ← char_field str (f_size f);
  Ok (post_field post sep f (quoted tags s)).

(** The switch. *)
Definition stash_one (post : list Z) (sep : Z) (tags : bool) (f : Field) : res (list Z * Z) :=
  let t := f_type f in
  if t =? FieldTypeBool then stashBool post sep f
  else if t =? FieldTypeInt then stashInt post sep f
  else if t =? FieldTypeUnsignedInt then stashUnsignedInt post sep f
  else if t =? FieldTypeLong then stashLong post sep f
  else if t =? FieldTypeUnsignedLong then stashUnsignedLong post sep f
  else if t =? FieldTypeString then stashString post sep tags f
  else if t =? FieldTypeChar then stashChar post sep tags f
  else Ok (post, sep).

Fixpoint stashFieldList (post : list Z) (sep : Z) (tags : bool) (fs : list Field) : res (list Z * Z) :=
  match fs with
  | [] => Ok (post, sep)
  | f :: fs =>
      '(post, sep) ← (if Bool.eqb tags (f_tag f) then stash_one post sep tags f else Ok (post, sep));
      stashFieldList post sep tags fs
  end.
End Stash.

(** A line for the item at [itemOffset]. *)
Definition stash_item (buf : Rope) (s : Struct) (item : Struct) (itemOffset : Z) (post : list Z) : res (list Z) :=
  let post := post ++ s_name s in
  '(post, sep) ← stashFieldList HEAD_SZ buf post COMMA true (s_fieldList s);
  '(post, _) ← stashFieldList itemOffset buf post sep true (s_fieldList item);
  '(post, sep) ← stashFieldList HEAD_SZ buf post SPACE false (s_fieldList s);
  '(post, _) ← stashFieldList itemOffset buf post sep false (s_fieldList item);
  Ok (post ++ [NEWLINE]).

(** The loop over the items; an item begins with the offset of the next. *)
Fixpoint stash_items (fuel : nat) (buf : Rope) (s : Struct) (item : Struct) (itemOffset : Z) (post : list Z) : res (list Z) :=
  match fuel with
  | O => Spin
  | S fuel =>
      if itemOffset =? 0 then Ok post
      else
        post ← stash_item buf s item itemOffset post;
        next ← word_at buf itemOffset 0 4;
        stash_items fuel buf s item next post
  end.

(** No more different items than bytes. *)
Definition item_turns (buf : Rope) : nat := length (rope_bytes buf) + 1.

Definition stashStruct (buf : Rope) (s : Struct) (post : list Z) : res (list Z) :=
  match s_hasList s with
  | Some i =>
      f ← deref (s_fieldList s !! i);
      itemOffset ← word_at buf HEAD_SZ (f_offset f) 4;
      item ← deref (f_listOf f);
      stash_items (item_turns buf) buf s item itemOffset post
  | None =>
      let post := post ++ s_name s in
      '(post, _) ← stashFieldList HEAD_SZ buf post COMMA true (s_fieldList s);
      '(post, _) ← stashFieldList HEAD_SZ buf post SPACE false (s_fieldList s);
      Ok post
  end.
