(* ===== verification/InfluxProps.v ===== *)
(** * What the broker makes of described packets

    Reading a description that is a finite list of fields ends, and gives back the
    structure that was described; the lines made of a packet are those of a reference definition that
    evaluates the fields and joins them; and what packets can do to the broker here. *)

From S2P Require Import Prelude Rope Conn ItQueue Packet PacketRecv Influx.

(** ** Descriptions *)

(** The list field [hasList] ends up at: the last. *)
Definition is_list (f : Field) : bool := f_type f =? FieldTypeList.

Definition last_list_from (h : option nat) (i : nat) (fs : list Field) : option nat :=
  foldl (λ h p, if is_list p.2 then Some p.1 else h) h (zip (seq i (length fs)) fs).

Definition pf_of (f : Field) : PacketField := MkPacketField (f_name f) (f_tag f) (f_type f) (f_size f) (f_offset f).

(** The fields of a description, those of a list after the list. *)
Fixpoint describe (f : Field) : list PacketField :=
  match f with
  | MkField n t ty sz o l =>
      MkPacketField n t ty sz o ::
      match l with
      | Some (MkStruct _ _ fs _) => concat (map describe fs)
      | None => []
      end
  end.

Definition describe_all (fs : list Field) : list PacketField := concat (map describe fs).

(** A list has a structure of as many fields as its size says, another field none. *)
Fixpoint wf_field (f : Field) : Prop :=
  match f with
  | MkField n t ty sz o l =>
      match l with
      | Some (MkStruct n' ID fs h) => ty = FieldTypeList ∧ n' = [] ∧ ID = 0 ∧ sz = Z.of_nat (length fs) ∧ h = last_list_from None 0 fs ∧
          (fix all fs := match fs with [] => True | f :: fs => wf_field f ∧ all fs end) fs
      | None => ty ≠ FieldTypeList
      end
  end.

Lemma wf_all fs : (fix all fs := match fs with [] => True | f :: fs => wf_field f ∧ all fs end) fs ↔ Forall wf_field fs.
Proof.
  induction fs as [|f fs IH]; cbn.
  - split; [constructor|done].
  - rewrite Forall_cons. by rewrite IH.
Qed.

(** What is read into a structure that has fields already. *)
Definition add_fields (s : Struct) (fs : list Field) : Struct :=
  let 'MkStruct n ID l h := s in MkStruct n ID (l ++ fs) (last_list_from h (length l) fs).

Lemma add_fields_cons s f fs : add_fields s (f :: fs) = add_fields (append_field s f (is_list f)) fs.
Proof.
  destruct s as [n ID l h]. cbn. rewrite <- app_assoc. cbn. unfold last_list_from. cbn. f_equal. by rewrite length_app, Nat.add_comm.
Qed.

Lemma add_fields_nil s : add_fields s [] = s.
Proof. destruct s. cbn. by rewrite app_nil_r. Qed.

Lemma describe_length fs : (length fs ≤ length (describe_all fs))%nat.
Proof. unfold describe_all. induction fs as [|[] fs IH]; cbn; [done|]. rewrite length_app. lia. Qed.

Lemma read_described fuel fs s rest : Forall wf_field fs → (length (describe_all fs) < fuel)%nat →
  readStruct fuel s (describe_all fs ++ rest) (Z.of_nat (length fs)) = Ok (add_fields s fs, rest).
Proof.
  revert fs s rest. induction fuel as [|fuel IH]; intros fs s rest W L; [lia|]. destruct fs as [|f fs]; cbn [readStruct].
  { cbn. by rewrite add_fields_nil. }
  apply Forall_cons in W as [Wf W]. destruct (Z.ltb_spec 0 (Z.of_nat (length (f :: fs)))) as [_|C]; [|cbn in C; lia].
  replace (Z.of_nat (length (f :: fs)) - 1) with (Z.of_nat (length fs)) by (cbn; lia). unfold describe_all in *. cbn [map concat] in *. rewrite <- app_assoc.
  rewrite add_fields_cons. destruct f as [n t ty sz o [[n' ID fs' h]|]]; cbn [describe wf_field] in *.
  - destruct Wf as (-> & -> & -> & -> & -> & Wl%wf_all). cbn [app length] in L. rewrite length_app in L.
    cbn [app pf_type pf_size]. change (FieldTypeList =? FieldTypeList) with true. cbn iota.
    rewrite IH by (lia || done). rewrite bind_Ok. fold (describe_all fs). unfold describe_all. rewrite IH by (lia || done).
    unfold new_Struct, add_fields at 2. cbn [app length]. done.
  - cbn [app pf_type pf_size length] in *. unfold is_list at 1. cbn [f_type]. destruct (Z.eqb_spec ty FieldTypeList); [done|].
    rewrite IH by (lia || done). done.
Qed.

(** Any description is read to an end, with no more fields than it has. *)
Lemma read_any fuel iter s n : (length iter < fuel)%nat → ∃ s' rest, readStruct fuel s iter n = Ok (s', rest) ∧ (length rest ≤ length iter)%nat.
Proof.
  revert iter s n. induction fuel as [|fuel IH]; intros iter s n L; [lia|]. cbn [readStruct]. destruct (0 <? n); [|by eexists _, _].
  destruct iter as [|pf iter]; [by eexists _, _|]. cbn [length] in *. destruct (pf_type pf =? FieldTypeList).
  - destruct (IH iter (new_Struct [] 0) (pf_size pf)) as (l & r & -> & Hr); [lia|]. rewrite bind_Ok.
    destruct (IH r (append_field s (field_of pf (Some l)) true) (n - 1)) as (s' & r' & -> & Hr'); [lia|]. eexists _, _. split; [done|]. lia.
  - destruct (IH iter (append_field s (field_of pf None) false) (n - 1)) as (s' & r' & -> & Hr'); [lia|]. eexists _, _. split; [done|]. lia.
Qed.

(** Reading the description of a kind of packet ends for every finite list of fields;
    and the structure read from the fields of well-formed structures, lists
    of lists included, is the one that was described. *)
Theorem struct_roundtrip pkt : (∃ s, make_struct pkt = Ok s) ∧
  ∀ fs rest, Forall wf_field fs → pt_fields pkt = describe_all fs ++ rest → pt_numFields pkt = Z.of_nat (length fs) →
    make_struct pkt = Ok (MkStruct (pt_name pkt) (pt_numId pkt) fs (last_list_from None 0 fs)).
Proof.
  unfold make_struct. split.
  - destruct (read_any (S (length (pt_fields pkt))) (pt_fields pkt) (new_Struct (pt_name pkt) (pt_numId pkt)) (pt_numFields pkt)) as (s & r & -> & _); [lia|].
    rewrite bind_Ok. by eexists.
  - intros fs rest W -> ->. rewrite read_described, bind_Ok; [done|done|]. rewrite length_app. lia.
Qed.

(** ** Lines: a reference *)

(** The fields a line shows. *)
Definition shown (tags : bool) (f : Field) : bool := Bool.eqb tags (f_tag f) && (1 <=? f_type f) && (f_type f <=? 7).

Definition is_type (f : Field) (t : Z) : bool := f_type f =? t.

(** The text of a value. *)
Definition value_text (base : Z) (buf : Rope) (tags : bool) (f : Field) : res (list Z) :=
  if is_type f FieldTypeBool then b ← word_at buf base (f_offset f) 1; Ok [if ctrue b then 116 else 102]
  else if is_type f FieldTypeInt then v ← word_at buf base (f_offset f) 4; Ok (decimal (i32 v))
  else if is_type f FieldTypeUnsignedInt then v ← word_at buf base (f_offset f) 4; Ok (decimal v)
  else if is_type f FieldTypeLong then v ← word_at buf base (f_offset f) 8; Ok (decimal (i64 v))
  else if is_type f FieldTypeUnsignedLong then v ← word_at buf base (f_offset f) 8; Ok (decimal v)
  else if is_type f FieldTypeString then
    off ← word_at buf base (f_offset f) 4; str ← overlay_at buf off 0;
    if existsb (λ c, c =? 0) str then Ok (quoted tags (cstr str)) else Ub
  else str ← overlay_at buf base (f_offset f); s ← char_field str (f_size f); Ok (quoted tags s).

Definition field_text (base : Z) (buf : Rope) (tags : bool) (f : Field) : res (list Z) :=
  v ← value_text base buf tags f; Ok (f_name f ++ [EQUALS] ++ v).

(** The texts of all fields of a list that are shown. *)
Fixpoint texts (base : Z) (buf : Rope) (tags : bool) (fs : list Field) : res (list (list Z)) :=
  match fs with
  | [] => Ok []
  | f :: fs =>
      if shown tags f then t ← field_text base buf tags f; ts ← texts base buf tags fs; Ok (t :: ts)
      else texts base buf tags fs
  end.

(** The first after one separator, the others after commas. *)
Definition join (sep : Z) (ts : list (list Z)) : list Z :=
  match ts with [] => [] | t :: ts => sep :: t ++ concat ((λ t, COMMA :: t) <$> ts) end.

(** The line of an item, of none if there is no list. *)
Definition line (buf : Rope) (s : Struct) (item : option (Struct * Z)) : res (list Z) :=
  let own tags := match item with Some (i, o) => texts o buf tags (s_fieldList i) | None => Ok [] end in
  tags ← texts HEAD_SZ buf true (s_fieldList s); itags ← own true;
  vals ← texts HEAD_SZ buf false (s_fieldList s); ivals ← own false;
  Ok (s_name s ++ join COMMA (tags ++ itags) ++ join SPACE (vals ++ ivals)).

Definition next_sep (sep : Z) (ts : list (list Z)) : Z := match ts with [] => sep | _ => COMMA end.

Ltac read_step := match goal with
  | |- context [word_at ?b ?x ?o ?n] => destruct (word_at b x o n) as [?| |]; cbn [mbind res_bind]; try done
  | |- context [overlay_at ?b ?x ?o] => destruct (overlay_at b x o) as [?| |]; cbn [mbind res_bind]; try done
  | |- context [char_field ?b ?x] => destruct (char_field b x) as [?| |]; cbn [mbind res_bind]; try done
  end.

Lemma stash_one_text base buf post sep tags f : Bool.eqb tags (f_tag f) = true →
  stash_one base buf post sep tags f =
  if shown tags f then t ← field_text base buf tags f; Ok (post ++ sep :: t, COMMA) else Ok (post, sep).
Proof.
  intros E. unfold stash_one, shown, field_text, value_text, is_type, stashBool, stashInt, stashUnsignedInt, stashLong, stashUnsignedLong, stashString, stashChar, post_field.
  rewrite E. unfold FieldTypeBool, FieldTypeInt, FieldTypeUnsignedInt, FieldTypeLong, FieldTypeUnsignedLong, FieldTypeString, FieldTypeChar.
  repeat match goal with |- context [f_type f =? ?k] => destruct (Z.eqb_spec (f_type f) k) as [->|] end;
    cbn [andb Z.leb Z.compare Pos.compare Pos.compare_cont]; try (repeat read_step; try case_match; done).
  destruct (Z.leb_spec 1 (f_type f)), (Z.leb_spec (f_type f) 7); try done. lia.
Qed.

Lemma stash_texts base buf tags fs post sep :
  stashFieldList base buf post sep tags fs = ts ← texts base buf tags fs; Ok (post ++ join sep ts, next_sep sep ts).
Proof.
  revert post sep. induction fs as [|f fs IH]; intros post sep; cbn [stashFieldList texts]; [by rewrite bind_Ok, app_nil_r|].
  destruct (Bool.eqb tags (f_tag f)) eqn:E.
  - rewrite stash_one_text by done. destruct (shown tags f); [|by rewrite bind_Ok, IH].
    destruct (field_text base buf tags f) as [t| |]; [rewrite !bind_Ok, IH|done..]. destruct (texts base buf tags fs) as [ts| |]; [rewrite !bind_Ok|done..].
    cbn. f_equal. f_equal; [|by destruct ts]. rewrite <- app_assoc. cbn. do 2 f_equal. destruct ts; [done|]. cbn. done.
  - unfold shown. rewrite E, bind_Ok. apply IH.
Qed.

Lemma join_app sep a b : join sep (a ++ b) = join sep a ++ join (next_sep sep a) b.
Proof. destruct a as [|x a]; [done|]. destruct b as [|y b]; cbn; [by rewrite !app_nil_r|]. rewrite fmap_app, concat_app. cbn. by rewrite <- app_assoc. Qed.

(** A res is its value put together again. *)
Ltac res_step := match goal with
  | |- context [texts ?b ?buf ?t ?fs] => destruct (texts b buf t fs) as [?| |]; cbn [mbind res_bind]; try done
  end.

Lemma stash_item_line buf s item o post : stash_item buf s item o post = l ← line buf s (Some (item, o)); Ok (post ++ l ++ [NEWLINE]).
Proof.
  unfold stash_item, line. do 4 (rewrite stash_texts; res_step). rewrite !join_app. f_equal. by rewrite <- !app_assoc.
Qed.

(** ** Items *)

(** The items of a packet from [o] on. *)
Inductive items (buf : Rope) : Z → list Z → Prop :=
| items_end : items buf 0 []
| items_more o next os : o ≠ 0 → word_at buf o 0 4 = Ok next → items buf next os → items buf o (o :: os).

Fixpoint lines (buf : Rope) (s item : Struct) (os : list Z) : res (list Z) :=
  match os with
  | [] => Ok []
  | o :: os => l ← line buf s (Some (item, o)); ls ← lines buf s item os; Ok (l ++ [NEWLINE] ++ ls)
  end.

Lemma stash_items_lines buf s item o os fuel post : items buf o os → (length os < fuel)%nat →
  stash_items fuel buf s item o post = ls ← lines buf s item os; Ok (post ++ ls).
Proof.
  intros I. revert fuel post. induction I as [|o next os N E _ IH]; intros fuel post L; (destruct fuel as [|fuel]; [cbn in L; lia|]); cbn [stash_items lines].
  - by rewrite bind_Ok, app_nil_r.
  - cbn [length] in L. destruct (Z.eqb_spec o 0); [done|]. rewrite stash_item_line. destruct (line buf s (Some (item, o))) as [l| |]; [rewrite !bind_Ok|done..].
    rewrite E, bind_Ok, IH by lia. destruct (lines buf s item os); [rewrite !bind_Ok|done..]. by rewrite <- !app_assoc.
Qed.

Lemma items_functional buf o os1 os2 : items buf o os1 → items buf o os2 → os1 = os2.
Proof.
  intros I. revert os2. induction I as [|o next os N E _ IH]; intros os2 I2; inversion I2 as [|? n2 os2' N2 E2 I2']; subst; try done.
  rewrite E in E2. injection E2 as <-. f_equal. by apply IH.
Qed.

Lemma items_elem buf o os x : items buf o os → x ∈ os → ∃ os', items buf x os' ∧ (length os' ≤ length os)%nat.
Proof.
  intros I. induction I as [|o next os N E I IH]; intros Hx; [by apply elem_of_nil in Hx|].
  apply elem_of_cons in Hx as [->|Hx]; [exists (o :: os); split; [by econstructor|done]|].
  destruct (IH Hx) as (os' & I' & L). exists os'. split; [done|]. cbn. lia.
Qed.

Lemma items_nodup buf o os : items buf o os → NoDup os.
Proof.
  intros I. induction I as [|o next os N E I IH]; constructor; [|done]. intros Hx.
  destruct (items_elem buf next os o I Hx) as (os' & I' & L).
  assert (os' = o :: os) as -> by (eapply items_functional; [exact I'|by econstructor]). cbn in L. lia.
Qed.

Lemma find_in_bound rbs i l p : find_in rbs i l = Some p → l < Z.of_nat (length (concat (rb_data <$> rbs))).
Proof.
  revert i l. induction rbs as [|rb rbs IH]; intros i l E; cbn in *; [done|]. rewrite length_app. unfold rb_length in *.
  destruct (Z.ltb_spec l (Z.of_nat (length (rb_data rb)))); [lia|]. apply IH in E. lia.
Qed.

(** Bytes are not negative, and neither are the words made of them. *)
Lemma word_at_nonneg buf base o n v : Forall is_byte (rope_bytes buf) → word_at buf base o n = Ok v → 0 ≤ v.
Proof.
  intros B E. unfold word_at, overlay_at in E. apply bind_Ok_inv in E as (d & E0 & E). apply bind_Ok_inv in E0 as (p & _ & E0).
  apply bind_Ok_inv in E0 as (rb & E1 & E0). case_match; [done|]. injection E0 as <-. apply bind_Ok_inv in E as (b & E2 & [= <-]).
  unfold mem_load in E2. case_decide; [|done]. injection E2 as <-. destruct (r_blocks buf !! p.1) as [x|] eqn:El; [|done]. injection E1 as ->.
  assert (Forall is_byte (rb_data rb)) as Br.
  { unfold rope_bytes in B. apply Forall_concat in B. rewrite Forall_fmap, Forall_forall in B. apply (B rb). by eapply list_elem_of_lookup_2. }
  rewrite drop_0. assert (Forall is_byte (take n (drop (Z.to_nat (Z.of_nat p.2 + o)) (rb_data rb)))) as Bt by (by apply Forall_take, Forall_drop).
  clear -Bt. induction Bt as [|x l Hx _ IH]; cbn; [done|]. unfold is_byte in Hx. lia.
Qed.

Lemma items_bounded buf o os : Forall is_byte (rope_bytes buf) → 0 ≤ o → items buf o os → (length os ≤ length (rope_bytes buf))%nat.
Proof.
  intros B Ho I. rewrite <- (Nat2Z.id (length (rope_bytes buf))), <- (length_seqZ 0). apply submseteq_length, NoDup_submseteq; [by eapply items_nodup|].
  intros x Hx. apply elem_of_seqZ. revert Ho Hx. induction I as [|o next os N E _ IH]; intros Ho Hx; [by apply elem_of_nil in Hx|].
  apply elem_of_cons in Hx as [->|Hx]; [|apply IH; [by eapply word_at_nonneg|done]].
  unfold word_at, overlay_at, pktFind in E. apply Z.eqb_neq in N. rewrite N in E. destruct (find_in (r_blocks buf) 0 o) as [p|] eqn:Ef; [|done].
  apply find_in_bound in Ef. unfold rope_bytes. lia.
Qed.

(** The text made of a packet is that of the reference: for a kind without a list,
    the name, the tags and then the values, joined with commas, the values set off
    with a space; for a kind with a list, such a line for each item, with its tags
    and values after those of the packet.  It returns whenever each field shown can
    be read and the items end. *)
Theorem stash_struct_spec buf s post : Forall is_byte (rope_bytes buf) →
  match s_hasList s with
  | None => stashStruct buf s post = l ← line buf s None; Ok (post ++ l)
  | Some i => ∀ f item o os, s_fieldList s !! i = Some f → f_listOf f = Some item → word_at buf HEAD_SZ (f_offset f) 4 = Ok o →
      items buf o os → stashStruct buf s post = ls ← lines buf s item os; Ok (post ++ ls)
  end.
Proof.
  intros B. unfold stashStruct. destruct (s_hasList s) as [i|].
  - intros f item o os -> El Eo I. cbn [deref]. rewrite bind_Ok, Eo, bind_Ok, El. cbn [deref]. rewrite bind_Ok. apply stash_items_lines; [done|].
    unfold item_turns. assert (length os ≤ length (rope_bytes buf))%nat by (eapply items_bounded; [done| |done]; by eapply word_at_nonneg). lia.
  - unfold line. do 2 (rewrite stash_texts; res_step). rewrite !app_nil_r. f_equal. by rewrite <- !app_assoc.
Qed.

(** An item that is its own successor keeps the broker in the loop over the items
    for ever: the loop does not end in any number of turns, and neither does
    [stashStruct] for a packet whose list begins there. *)
Theorem item_cycle_spins buf s item o l post : o ≠ 0 → word_at buf o 0 4 = Ok o → line buf s (Some (item, o)) = Ok l →
  (∀ fuel, stash_items fuel buf s item o post = Spin) ∧
  ∀ i f, s_hasList s = Some i → s_fieldList s !! i = Some f → f_listOf f = Some item → word_at buf HEAD_SZ (f_offset f) 4 = Ok o →
    stashStruct buf s post = Spin.
Proof.
  intros N E L. assert (∀ fuel post, stash_items fuel buf s item o post = Spin) as H.
  { induction fuel as [|fuel IH]; intros p; cbn [stash_items]; [done|]. destruct (Z.eqb_spec o 0); [done|].
    by rewrite stash_item_line, L, !bind_Ok, E, bind_Ok. }
  split; [by intros|]. intros i f Eh Ef El Eo. unfold stashStruct. rewrite Eh, Ef. cbn [deref]. rewrite bind_Ok, Eo, bind_Ok, El. cbn [deref]. rewrite bind_Ok. apply H.
Qed.

(** A string field nobody has set, whose offset is 0, is a null pointer for the
    broker: no packet with one that is shown is turned into a line. *)
Theorem unset_string_crashes buf s f post : s_hasList s = None → f ∈ s_fieldList s → f_type f = FieldTypeString →
  word_at buf HEAD_SZ (f_offset f) 4 = Ok 0 → is_ok (stashStruct buf s post) = false.
Proof.
  intros Eh Hf Et Ew. assert (∀ fs, f ∈ fs → is_ok (texts HEAD_SZ buf (f_tag f) fs) = false) as H.
  { induction fs as [|g fs IH]; intros Hg; [by apply elem_of_nil in Hg|]. cbn [texts]. apply elem_of_cons in Hg as [<-|Hg].
    - unfold shown, field_text, value_text, is_type. rewrite eqb_reflx, Et, Ew. done.
    - specialize (IH Hg). destruct (shown (f_tag f) g); [|done]. destruct (field_text HEAD_SZ buf (f_tag f) g); [rewrite bind_Ok|done..].
      by destruct (texts HEAD_SZ buf (f_tag f) fs). }
  specialize (H (s_fieldList s) Hf). unfold stashStruct. rewrite Eh, stash_texts. destruct (f_tag f).
  - by destruct (texts HEAD_SZ buf true (s_fieldList s)).
  - destruct (texts HEAD_SZ buf true (s_fieldList s)); [rewrite !bind_Ok, stash_texts|done..]. by destruct (texts HEAD_SZ buf false (s_fieldList s)).
Qed.

(** ** Quoted values *)

(** How a line is read from behind an opening quote: a backslash makes a quote or a
    backslash after it a character of the string. *)
Fixpoint unquote (s : list Z) : option (list Z * list Z) :=
  match s with
  | [] => None
  | c :: s' =>
      if c =? QUOTE then Some ([], s')
      else if c =? BACKSLASH then
        match s' with
        | d :: s'' =>
            if (d =? QUOTE) || (d =? BACKSLASH) then prod_map (cons d) id <$> unquote s''
            else prod_map (cons c) id <$> unquote s'
        | [] => None
        end
      else prod_map (cons c) id <$> unquote s'
  end.

Lemma unquote_escape s rest : (BACKSLASH ∉ s) → unquote (escape s ++ QUOTE :: rest) = Some (s, rest).
Proof.
  induction s as [|c s IH]; intros N; [done|]. apply not_elem_of_cons in N as [Nc N]. cbn [escape].
  destruct (Z.eqb_spec c QUOTE) as [->|Nq]; cbn [app unquote].
  - change (BACKSLASH =? QUOTE) with false. change (BACKSLASH =? BACKSLASH) with true. change (QUOTE =? QUOTE) with true. cbn [orb]. by rewrite IH.
  - destruct (Z.eqb_spec c QUOTE); [done|]. destruct (Z.eqb_spec c BACKSLASH); [congruence|]. by rewrite IH.
Qed.

(** A backslash is not escaped: at the end of a string it takes the closing quote. *)
Example trailing_backslash : unquote (escape [BACKSLASH] ++ [QUOTE]) = None.
Proof. reflexivity. Qed.

(** ** Witnesses *)

Definition demo_fields : list Field :=
  [MkField [116] true FieldTypeInt 4 0 None; MkField [118] false FieldTypeString 4 4 None].
Definition demo_struct : Struct := MkStruct [109] 7 demo_fields None.

(** A tag -5 and a string of an a, a quote and a b. *)
Definition demo_text : list Z :=
  [0; 0; 0; 0; 28; 0; 0; 0; 28; 0; 0; 0; 7; 0; 0; 0] ++ le_bytes 4 (-5) ++ le_bytes 4 24 ++ [97; 34; 98; 0].
Definition demo_described : Rope := MkRope [MkRopeBlock demo_text 0] 28.

(** The quote in the string is escaped. *)
Example demo_line : stashStruct demo_described demo_struct [] = Ok [109; 44; 116; 61; 45; 53; 32; 118; 61; 34; 97; 92; 34; 98; 34].
Proof. vm_compute. reflexivity. Qed.

Lemma demo_bytes : Forall is_byte (rope_bytes demo_described).
Proof. vm_compute rope_bytes. repeat constructor; unfold is_byte; lia. Qed.

Lemma stash_struct_spec_witness : stashStruct demo_described demo_struct [] = l ← line demo_described demo_struct None; Ok ([] ++ l).
Proof. exact (stash_struct_spec demo_described demo_struct [] demo_bytes). Defined.

Lemma struct_roundtrip_witness : ∃ pkt s, pt_fields pkt = describe_all [MkField [108] false FieldTypeList 2 0 (Some (MkStruct [] 0 demo_fields None))] ∧ make_struct pkt = Ok s.
Proof.
  exists (MkPacketType [109] 7 1 (describe_all [MkField [108] false FieldTypeList 2 0 (Some (MkStruct [] 0 demo_fields None))])). eexists. split; [reflexivity|].
  apply (proj2 (struct_roundtrip (MkPacketType [109] 7 1 (describe_all [MkField [108] false FieldTypeList 2 0 (Some (MkStruct [] 0 demo_fields None))])))
    [MkField [108] false FieldTypeList 2 0 (Some (MkStruct [] 0 demo_fields None))] []); [|reflexivity..].
  constructor; [|constructor]. cbn. repeat split; done.
Defined.

(** A packet whose only item, at 20, has 20 as its successor. *)
Definition demo_cycle : Rope :=
  MkRope [MkRopeBlock ([0; 0; 0; 0; 24; 0; 0; 0; 24; 0; 0; 0; 7; 0; 0; 0] ++ le_bytes 4 20 ++ le_bytes 4 20) 0] 24.
Definition demo_list_struct : Struct :=
  MkStruct [109] 7 [MkField [108] false FieldTypeList 0 0 (Some (MkStruct [] 0 [] None))] (Some 0%nat).

Lemma item_cycle_spins_witness : stashStruct demo_cycle demo_list_struct [] = Spin.
Proof.
  apply (proj2 (item_cycle_spins demo_cycle demo_list_struct (MkStruct [] 0 [] None) 20 [109] [] ltac:(lia) eq_refl eq_refl)
    0%nat (MkField [108] false FieldTypeList 0 0 (Some (MkStruct [] 0 [] None)))); reflexivity.
Defined.

Lemma unset_string_crashes_witness : is_ok (stashStruct (MkRope [MkRopeBlock (replicate 24 0) 0] 24) demo_struct []) = false.
Proof.
  apply (unset_string_crashes _ demo_struct (MkField [118] false FieldTypeString 4 4 None)); [reflexivity|apply list_elem_of_In; cbn; tauto|reflexivity|vm_compute; reflexivity].
Defined.
