(* ===== verification/Broker.v ===== *)
(** * broker/main.cc: the broker

    Clients connect to the broker and tell it the kinds of messages they want.  Every
    packet of another kind that comes in is sent to the clients that want it, written
    to a log, and kept, so that a client that asks for its kind later gets it at once.
    In the other mode, replay, packets read from a log are sent to a broker.

    Connections are the packet connections of genf; a connection that was closed is
    marked by [packetClosed] and taken off the list after the next packet.  The
    containers of aapl and the generated readers of records are interfaces. *)

From S2P Require Import Prelude Rope Conn ItQueue Packet ConnState Influx.

(** ** What the code relies on *)

(** BstSet<long> *)
Class BstSetLib := {
  WantIdSet : Type;
  wid_empty : WantIdSet;
  wid_insert : WantIdSet → Z → WantIdSet;
  wid_find : WantIdSet → Z → bool;
  wid_find_empty id : wid_find wid_empty id = false;
  wid_find_insert s x y : wid_find (wid_insert s x) y = bool_decide (x = y) || wid_find s y;
}.

(** AvlMap<int, Struct*>; [smap_put] is [insert], which keeps an element that is there
    already, and the assignment to its value. *)
Class StructMapLib := {
  StructMap : Type;
  smap_empty : StructMap;
  smap_find : StructMap → Z → option Struct;
  smap_put : StructMap → Z → Struct → StructMap;
  smap_find_empty id : smap_find smap_empty id = None;
  smap_find_put m x s y : smap_find (smap_put m x s) y = if bool_decide (x = y) then Some s else smap_find m y;
}.

(** The code generated for the messages of the broker: their numbers, and reading the
    records of a packet. *)
Class MainGen := {
  Ping_ID : Z;
  WantId_ID : Z;
  PacketType_ID : Z;
  read_WantId : Rope → res Z;
  read_PacketType : Rope → res PacketType;
  packetLowerName : Z → list Z;
  ids_distinct : NoDup [Ping_ID; WantId_ID; PacketType_ID];
}.

(** [a % b] *)
Definition crem (a b : Z) : res Z := if b =? 0 then Ub else Ok (Z.rem a b).

(** ** Packets that are kept *)

Record Last := MkLast {
  l_msgId : Z;
  l_retain : Z;
  l_msg : list Rope;
  l_dest : Z;
  l_have : Z;
}.

(** The constructor sets all but [msgId]. *)
Definition new_Last (msgId : Z) : Last := MkLast msgId 1 (replicate (Z.to_nat 1) rope_none) 0 0.

Section Last.
Context `{RopeLib}.

(** Where a packet goes when it is kept. *)
Definition keep (l : Last) (buf : Rope) : res Last :=
  rope ← aget (l_msg l) (l_dest l);
  msg ← aset (l_msg l) (l_dest l) (rope_transfer rope buf);
  dest ← crem (l_dest l + 1) (l_retain l);
  Ok (MkLast (l_msgId l) (l_retain l) msg dest (if l_have l <? l_retain l then l_have l + 1 else l_have l)).

(** The loops of resendPacket and recvSetRetain that look for one, from number [i] on. *)
Fixpoint find_last (ls : list Last) (i : nat) (id : Z) : option nat :=
  match ls with
  | [] => None
  | l :: ls => if l_msgId l =? id then Some i else find_last ls (S i) id
  end.

Definition stash_recent (ls : list Last) (id : Z) (buf : Rope) : res (list Last) :=
  let '(i, ls) := match find_last ls 0 id with
                  | Some i => (i, ls)
                  | None => (length ls, ls ++ [new_Last id])
                  end in
  l ← deref (ls !! i);
  l ← keep l buf;
  Ok (<[i := l]> ls).

(** The message number of the new element is whatever is in its memory. *)
Definition recvSetRetain (ls : list Last) (id retain : Z) (uninit : Z) : res (list Last) :=
  let '(i, ls) := match find_last ls 0 id with
                  | Some i => (i, ls)
                  | None => (length ls, ls ++ [new_Last uninit])
                  end in
  l ← deref (ls !! i);
  Ok (<[i := MkLast (l_msgId l) retain (l_msg l) (l_dest l) (l_have l)]> ls).

(** Sending [n] of them, from number [m] on. *)
Fixpoint send_kept (n : nat) (l : Last) (m : Z) (pc : PacketConnection) : res PacketConnection :=
  match n with
  | O => Ok pc
  | S n =>
      rope ← aget (l_msg l) m;
      '(pc, _) ← pkt_send_blocks pc rope false;
      m ← crem (m + 1) (l_retain l);
      send_kept n l m pc
  end.

Definition send_last (l : Last) (pc : PacketConnection) : res PacketConnection :=
  m ← crem (l_dest l - l_have l + l_retain l) (l_retain l);
  send_kept (Z.to_nat (l_have l)) l m pc.

Fixpoint send_recent (ls : list Last) (wantId : Z) (pc : PacketConnection) : res PacketConnection :=
  match ls with
  | [] => Ok pc
  | l :: ls =>
      pc ← (if l_msgId l =? wantId then send_last l pc else Ok pc);
      send_recent ls wantId pc
  end.
End Last.

(** ** The broker *)

Section Broker.
Context `{RopeLib} `{BstSetLib} `{StructMapLib} `{MainGen}.

Record ClientConnection := MkClientConnection {
  cc_pc : PacketConnection;
  cc_wantIds : WantIdSet;
}.

(** [packetClosed] sets it. *)
Definition brokerConnClosed (cc : ClientConnection) : bool := ps_packetClosed (pc_side (cc_pc cc)).

Definition cc_set_pc (cc : ClientConnection) (pc : PacketConnection) : ClientConnection := MkClientConnection pc (cc_wantIds cc).

(** The connections, which are never deleted, and the list of those in use; what was
    posted to the database; the log files; in replay, [client] and [attached]. *)
Record MainThread := MkMainThread {
  mt_conns : gmap positive ClientConnection;
  mt_connList : list positive;
  mt_lastList : list Last;
  mt_structMap : StructMap;
  mt_posts : list (list Z);
  mt_feeds : gmap (list Z) (list Z);
  mt_influxToken : bool;
  mt_replay : option (positive * positive);
}.

Implicit Types st : MainThread.

Definition set_conns st (cs : gmap positive ClientConnection) : MainThread :=
  MkMainThread cs (mt_connList st) (mt_lastList st) (mt_structMap st) (mt_posts st) (mt_feeds st) (mt_influxToken st) (mt_replay st).
Definition set_connList st (l : list positive) : MainThread :=
  MkMainThread (mt_conns st) l (mt_lastList st) (mt_structMap st) (mt_posts st) (mt_feeds st) (mt_influxToken st) (mt_replay st).
Definition set_lastList st (l : list Last) : MainThread :=
  MkMainThread (mt_conns st) (mt_connList st) l (mt_structMap st) (mt_posts st) (mt_feeds st) (mt_influxToken st) (mt_replay st).
Definition set_structMap st (m : StructMap) : MainThread :=
  MkMainThread (mt_conns st) (mt_connList st) (mt_lastList st) m (mt_posts st) (mt_feeds st) (mt_influxToken st) (mt_replay st).
Definition add_post st (p : list Z) : MainThread :=
  MkMainThread (mt_conns st) (mt_connList st) (mt_lastList st) (mt_structMap st) (mt_posts st ++ [p]) (mt_feeds st) (mt_influxToken st) (mt_replay st).
Definition add_feed st (name : list Z) (d : list Z) : MainThread :=
  MkMainThread (mt_conns st) (mt_connList st) (mt_lastList st) (mt_structMap st) (mt_posts st)
    (<[name := default [] (mt_feeds st !! name) ++ d]> (mt_feeds st)) (mt_influxToken st) (mt_replay st).
Definition set_pc st (c : positive) (cc : ClientConnection) (pc : PacketConnection) : MainThread :=
  set_conns st (<[c := cc_set_pc cc pc]> (mt_conns st)).

(** BrokerListener::connectionFactory, and notifyAccept when the connection is made. *)
Definition connectionFactory st (c : positive) (pc : PacketConnection) : MainThread :=
  set_connList (set_conns st (<[c := MkClientConnection pc wid_empty]> (mt_conns st))) (mt_connList st ++ [c]).

Definition notifyAccept st (c : positive) : res MainThread :=
  cc ← deref (mt_conns st !! c);
  f ← selectFd (ps_conn (pc_side (cc_pc cc)));
  Ok (set_pc st c cc (on_fd (cc_pc cc) (λ f, wantReadSet f true))).

(** A connection on a file. *)
Definition attachToFile st (c : positive) (fd : Z) (io : Peer) (headBuf : list Z) (need : Z) : res MainThread :=
  let f := new_SelectFd fd Fd.Established in
  let conn := MkConnection (wantReadSet f true) true false false io in
  notifyAccept (connectionFactory st c (MkPacketConnection (MkPcSide conn false) (new_Recv headBuf need) new_WriteBuffer)) c.

(** A client wants a kind of message: it gets what was kept of it. *)
Definition recvWantId st (c : positive) (wantId : Z) : res MainThread :=
  cc ← deref (mt_conns st !! c);
  let cc := MkClientConnection (cc_pc cc) (wid_insert (cc_wantIds cc) wantId) in
  pc ← send_recent (mt_lastList st) wantId (cc_pc cc);
  Ok (set_pc st c cc pc).

Definition recvPacketType st (pkt : PacketType) : res MainThread :=
  s ← make_struct pkt;
  Ok (set_structMap st (smap_put (mt_structMap st) (pt_numId pkt) s)).

(** The first loop of resendPacket. *)
Fixpoint resend_to (out : list positive) (cs : gmap positive ClientConnection) (id : Z) (buf : Rope) : res (gmap positive ClientConnection) :=
  match out with
  | [] => Ok cs
  | c :: out =>
      cc ← deref (cs !! c);
      cs ← (if negb (brokerConnClosed cc) && isEstablished (ps_conn (pc_side (cc_pc cc))) && wid_find (cc_wantIds cc) id then
              '(pc, _) ← pkt_send_blocks (cc_pc cc) buf false;
              Ok (<[c := cc_set_pc cc pc]> cs)
            else Ok cs);
      resend_to out cs id buf
  end.

(** The second: those that are closed are detached. *)
Fixpoint detach_closed (out : list positive) (cs : gmap positive ClientConnection) : res (list positive) :=
  match out with
  | [] => Ok []
  | c :: out =>
      cc ← deref (cs !! c);
      rest ← detach_closed out cs;
      Ok (if brokerConnClosed cc then rest else c :: rest)
  end.

(** [recv.head->msgId] *)
Definition msg_id (buf : Rope) : res Z := b ← rope_load buf (0, 12)%nat 4; Ok (le_val b).

(** The transfer leaves the packet in the list, from where it is logged. *)
Definition resendPacket st (buf : Rope) : res MainThread :=
  id ← msg_id buf;
  cs ← resend_to (mt_connList st) (mt_conns st) id buf;
  l ← detach_closed (mt_connList st) cs;
  let st := set_connList (set_conns st cs) l in
  ls ← stash_recent (mt_lastList st) id buf;
  Ok (add_feed (set_lastList st ls) (packetLowerName id) (rope_bytes buf)).

Definition stashInflux st (s : Struct) (buf : Rope) : res MainThread :=
  post ← stashStruct buf s [];
  Ok (add_post st post).

(** What is done for the database. *)
Definition dispatch_influx st (id : Z) (buf : Rope) : res MainThread :=
  match smap_find (mt_structMap st) id with
  | Some s => if mt_influxToken st then stashInflux st s buf else Ok st
  | None => Ok st
  end.

(** In replay: reading stops until the timer, and the packet goes to the broker. *)
Definition dispatch_replay st (client attached : positive) (buf : Rope) : res MainThread :=
  at_ ← deref (mt_conns st !! attached);
  _ ← selectFd (ps_conn (pc_side (cc_pc at_)));
  let st := set_pc st attached at_ (on_fd (cc_pc at_) (λ f, wantReadSet f false)) in
  cl ← deref (mt_conns st !! client);
  '(pc, _) ← pkt_send_blocks (cc_pc cl) buf false;
  Ok (set_pc st client cl pc).

Definition handleTimer st : res MainThread :=
  match mt_replay st with
  | Some (_, attached) =>
      at_ ← deref (mt_conns st !! attached);
      _ ← selectFd (ps_conn (pc_side (cc_pc at_)));
      Ok (set_pc st attached at_ (on_fd (cc_pc at_) (λ f, wantReadSet f true)))
  | None => Ok st
  end.

(** A packet from connection [c]. *)
Definition dispatchPacket st (c : positive) (buf : Rope) : res MainThread :=
  id ← msg_id buf;
  st ← dispatch_influx st id buf;
  match mt_replay st with
  | Some (client, attached) => dispatch_replay st client attached buf
  | None =>
      if id =? Ping_ID then Ok st
      else if id =? WantId_ID then w ← read_WantId buf; recvWantId st c w
      else if id =? PacketType_ID then pkt ← read_PacketType buf; recvPacketType st pkt
      else resendPacket st buf
  end.

(** What the select loop does for an established connection that is ready. *)
Definition client_readReady st (c : positive) : res MainThread :=
  cc ← deref (mt_conns st !! c);
  '(out, pc) ← parsePacket (cc_pc cc);
  let st := set_pc st c cc pc in
  match out with
  | PPacket buf => dispatchPacket st c buf
  | PWait | PClosed => Ok st
  end.

Definition client_writeReady st (c : positive) : res MainThread :=
  cc ← deref (mt_conns st !! c);
  pc ← pc_writeReady (cc_pc cc);
  Ok (set_pc st c cc pc).
End Broker.
