(* ===== verification/BrokerKeep.v ===== *)
(** * The packets a broker keeps

    A [Last] is a ring of the most recent packets of a kind: what is sent to a client
    that asks for the kind are the last of them, oldest first.  Sending leaves a
    connection in a state the write buffer's invariant describes, or closed. *)

From S2P Require Import Prelude Rope Conn ConnProps ItQueue Packet PacketRecv PacketProps ConnState ConnStateProps Influx Broker.

(** The last [n] of a list. *)
Definition lastn {A} (n : nat) (l : list A) : list A := drop (length l - n) l.

Section Keep.
Context `{RopeLib}.

(** [n] places and the packets kept so far. *)
Record last_at (l : Last) (n : nat) (hist : list Rope) : Prop := LastAt {
  la_pos : (0 < n)%nat;
  la_retain : l_retain l = Z.of_nat n;
  la_length : length (l_msg l) = n;
  la_dest : l_dest l = Z.of_nat (length hist mod n);
  la_have : l_have l = Z.of_nat (n `min` length hist);
  la_msg : ∀ i, (length hist - n ≤ i < length hist)%nat → l_msg l !! (i mod n)%nat = hist !! i;
}.

Lemma new_last_at id : last_at (new_Last id) 1 [].
Proof. split; cbn; try done; lia. Qed.

Lemma crem_mod (a n : nat) : (0 < n)%nat → crem (Z.of_nat a) (Z.of_nat n) = Ok (Z.of_nat (a mod n)).
Proof.
  intros Hn. unfold crem. destruct (Z.eqb_spec (Z.of_nat n) 0); [lia|]. rewrite Z.rem_mod_nonneg by lia. by rewrite Nat2Z.inj_mod.
Qed.

(** Places less than a round apart are different. *)
Lemma mod_close a b n : (b < a < b + n)%nat → (a mod n ≠ b mod n)%nat.
Proof.
  intros L E. pose proof (Nat.div_mod a n). pose proof (Nat.div_mod b n). rewrite E in *.
  assert (n ≠ 0)%nat as N by lia. specialize (H0 N). specialize (H1 N). assert (a / n = b / n ∨ a / n ≥ S (b / n) ∨ S (a / n) ≤ b / n)%nat by lia. nia.
Qed.

Lemma keep_at l n hist buf : last_at l n hist → ∃ l', keep l buf = Ok l' ∧ last_at l' n (hist ++ [buf]) ∧ l_msgId l' = l_msgId l.
Proof.
  intros [Hn Er El Ed Eh Em]. unfold keep. rewrite Ed, Er. assert (length hist mod n < n)%nat as Lm by (apply Nat.mod_upper_bound; lia).
  unfold aget, aset. rewrite decide_True, Nat2Z.id by lia. destruct (l_msg l !! (length hist mod n)%nat) as [r|] eqn:E.
  2: { apply lookup_ge_None in E. lia. }
  rewrite bind_Ok, decide_True by lia. rewrite bind_Ok. replace (Z.of_nat (length hist mod n) + 1) with (Z.of_nat (length hist mod n + 1)) by lia.
  rewrite crem_mod, bind_Ok by done. eexists. split; [done|]. split; [|done]. split; cbn; try done.
  - by rewrite length_insert.
  - rewrite length_app. cbn. rewrite Nat.Div0.add_mod_idemp_l. done.
  - rewrite Eh, length_app. cbn. destruct (Z.ltb_spec (Z.of_nat (n `min` length hist)) (Z.of_nat n)); lia.
  - rewrite length_app, rope_transfer_all. cbn. intros i Hi. destruct (decide (i = length hist)) as [->|Ni].
    + rewrite list_lookup_insert_eq by lia. by rewrite list_lookup_middle.
    + rewrite lookup_app_l by lia. rewrite list_lookup_insert_ne; [apply Em; lia|]. apply mod_close. lia.
Qed.

(** Sending some packets, one after the other. *)
Fixpoint send_all (rs : list Rope) (pc : PacketConnection) : res PacketConnection :=
  match rs with
  | [] => Ok pc
  | r :: rs => '(pc, _) ← pkt_send_blocks pc r false; send_all rs pc
  end.

Lemma send_kept_at l n hist k i pc : last_at l n hist → (i + k = length hist)%nat → (k ≤ n)%nat →
  send_kept k l (Z.of_nat (i mod n)) pc = send_all (drop i hist) pc.
Proof.
  intros L. revert i pc. induction k as [|k IH]; intros i pc Ei Lk; cbn [send_kept].
  - by rewrite drop_ge by lia.
  - destruct (lookup_lt_is_Some_2 hist i) as [r Er]; [lia|]. rewrite (drop_S hist r i Er). cbn [send_all].
    destruct L as [Hn Er' El Ed Eh Em]. unfold aget. rewrite decide_True, Nat2Z.id by lia. rewrite Em, Er, bind_Ok by lia.
    destruct (pkt_send_blocks pc r false) as [[pc' b]| |]; [rewrite !bind_Ok|done..].
    replace (Z.of_nat (i mod n) + 1) with (Z.of_nat (i mod n + 1)) by lia. rewrite Er', crem_mod, bind_Ok by done.
    rewrite Nat.Div0.add_mod_idemp_l, Nat.add_1_r. apply IH; lia.
Qed.

Lemma send_last_at l n hist pc : last_at l n hist → send_last l pc = send_all (lastn n hist) pc.
Proof.
  intros L. unfold send_last, lastn. pose proof L as [Hn Er El Ed Eh Em]. rewrite Ed, Eh, Er. set (h := (n `min` length hist)%nat).
  assert (length hist mod n < n)%nat by (apply Nat.mod_upper_bound; lia).
  replace (Z.of_nat (length hist mod n) - Z.of_nat h + Z.of_nat n) with (Z.of_nat (length hist mod n + (n - h))) by lia.
  rewrite crem_mod, bind_Ok, Nat2Z.id by done. rewrite Nat.Div0.add_mod_idemp_l.
  replace ((length hist + (n - h)) mod n)%nat with ((length hist - h) mod n)%nat.
  - rewrite (send_kept_at l n hist h) by (done || lia). f_equal. f_equal. lia.
  - replace (length hist + (n - h))%nat with ((length hist - h) + 1 * n)%nat by lia. by rewrite Nat.Div0.mod_add.
Qed.
End Keep.

(** ** Connections that are sent to *)

(** A connection is marked as closed when it lets go of its SelectFd, and its write
    buffer is not told to close it. *)
Definition marked (s : PcSide) (w : WriteBuffer) (s' : PcSide) (w' : WriteBuffer) : Prop :=
  (ps_packetClosed s' = ps_packetClosed s ∨ ps_packetClosed s' = true ∧ c_selectFd (ps_conn s') = false) ∧
  wb_closeOnFlushed w' = wb_closeOnFlushed w.

Section Send.
Context `{RopeLib}.
Implicit Types (s : PcSide) (w : WriteBuffer).

Lemma bufWrite_marked s d n s' w : bufWrite s d = Ok (n, s') → ps_packetClosed s' = ps_packetClosed s.
Proof. cbn. intros E. by inv_res. Qed.

Lemma bufClose_marked s s' w : bufClose s = Ok s' → marked s w s' w.
Proof. cbn. intros [= <-]. split; [right|done]. split; [done|]. cbn. unfold conn_close. by destruct (c_selectFd (ps_conn s)). Qed.

Lemma want_write_marked s s' v : want_write s v = Ok s' → ps_packetClosed s' = ps_packetClosed s.
Proof. unfold want_write. intros E. by inv_res. Qed.

Lemma send_loop_marked rbs s w b c s' w' b' : send_loop rbs s w b c = Ok (s', w', b') → marked s w s' w'.
Proof.
  revert s w b. induction rbs as [|rb rbs IH]; intros s w b E; cbn [send_loop] in E; [inv_res; split; [by left|done]|].
  apply bind_Ok_inv in E as ([n s1] & E0 & E). apply bufWrite_marked in E0; [|exact w]. case_match; [|case_match].
  - inv_res. eapply bufClose_marked in E1 as [D ?]. split; [|done]. rewrite <- E0. exact D.
  - destruct (queue_rest _ _ _ _ _ _) as [w1 b1] eqn:Q. inv_res. apply want_write_marked in E1. split; [left; congruence|].
    unfold queue_rest in Q. destruct c; injection Q as <- <-; done.
  - apply IH in E as [D ?]. split; [by rewrite <- E0|done].
Qed.

Lemma wb_send_marked s w b c s' w' b' : wb_send s w b c = Ok (s', w', b') → marked s w s' w'.
Proof. unfold wb_send. intros E. inv_res. repeat case_match; inv_res; [split; [by left|done]..|by eapply send_loop_marked]. Qed.

Lemma close_fd_marked s s' : close_fd s = Ok s' → ps_packetClosed s' = ps_packetClosed s.
Proof. unfold close_fd. intros E. by inv_res. Qed.

Lemma flush_loop_marked rbs s w s' w' : flush_loop rbs s w = Ok (s', w') → marked s w s' w'.
Proof.
  revert s w. induction rbs as [|rb rbs IH]; intros s w E; cbn [flush_loop] in E.
  - case_match; inv_res; (split; [left|done]); [by eapply close_fd_marked|done].
  - apply bind_Ok_inv in E as ([n s1] & E0 & E). apply bufWrite_marked in E0; [|exact w]. case_match; [|case_match].
    + inv_res. eapply bufClose_marked in E1 as [D ?]. split; [|done]. rewrite <- E0. exact D.
    + inv_res. split; [left; congruence|done].
    + apply IH in E as [D ?]. split; [by rewrite <- E0|done].
Qed.

Lemma writeReady_marked s w s' w' : writeReady s w = Ok (s', w') → marked s w s' w'.
Proof. unfold writeReady. intros E. case_match; inv_res; [split; [left; by eapply want_write_marked|done]|by eapply flush_loop_marked]. Qed.

(** What is sent without being consumed is its blocks. *)
Lemma send_loop_blocks rbs s w b b2 : send_loop rbs s w b false = '(s, w, _) ← send_loop rbs s w b2 false; Ok (s, w, b).
Proof.
  revert s w. induction rbs as [|rb rbs IH]; intros s w; cbn [send_loop]; [by rewrite bind_Ok|].
  destruct (bufWrite s (rb_data rb)) as [[n s1]| |]; [rewrite !bind_Ok|done..]. case_match; [|case_match; [|apply IH]].
  - by destruct (bufClose s1).
  - unfold queue_rest. by destruct (want_write s1 true).
Qed.

Lemma wb_send_blocks s w b b2 : r_blocks b = r_blocks b2 → wb_send s w b false = '(s, w, _) ← wb_send s w b2 false; Ok (s, w, b).
Proof.
  intros E. unfold wb_send. destruct (wf_fd s); [rewrite !bind_Ok|done..]. rewrite E. case_match; [by rewrite bind_Ok|]. apply send_loop_blocks.
Qed.

(** ** A client's connection *)

Definition bytes_all (rs : list Rope) : list Z := concat (rope_bytes <$> rs).

Lemma bytes_all_snoc rs r : bytes_all (rs ++ [r]) = bytes_all rs ++ rope_bytes r.
Proof. unfold bytes_all. rewrite fmap_app, concat_app. cbn. by rewrite app_nil_r. Qed.

(** What was sent has been taken or is queued; or the connection is closed, and what
    was taken is the beginning of it. *)
Definition conn_sent (s : PcSide) (w : WriteBuffer) (rs : list Rope) : Prop :=
  if ps_packetClosed s then c_selectFd (ps_conn s) = false ∧ wf_stream s `prefix_of` bytes_all rs
  else wb_closeOnFlushed w = false ∧ wb_inv s w (bytes_all rs).

Lemma failed_marked s all : wb_failed s all → ps_packetClosed s = true ∧ c_selectFd (ps_conn s) = false ∧ wf_stream s `prefix_of` all.
Proof.
  intros (_ & P & s0 & d & n & s1 & _ & _ & [= <-]). split_and!; [done| |done]. cbn. unfold conn_close. by destruct (c_selectFd (ps_conn s1)).
Qed.

Lemma wb_inv_open s w all : wb_inv s w all → c_selectFd (ps_conn s) = true.
Proof. intros [f [E _ _ _ _ _ _]]. cbn in E. unfold selectFd in E. by destruct (c_selectFd _). Qed.

Lemma marked_sent s w s' w' rs : marked s w s' w' → ps_packetClosed s = false → wb_closeOnFlushed w = false →
  wb_failed s' (bytes_all rs) ∨ wb_inv s' w' (bytes_all rs) → conn_sent s' w' rs.
Proof.
  intros [M Ec] P0 C0 D. unfold conn_sent. destruct D as [(P & S & F)%failed_marked|I]; [by rewrite P|].
  pose proof (wb_inv_open _ _ _ I) as So. destruct (ps_packetClosed s') eqn:P; [|by rewrite Ec]. destruct M as [M|[_ M]]; congruence.
Qed.

(** Sending one packet to an open connection. *)
Lemma conn_sent_send pc rs r : ps_packetClosed (pc_side pc) = false → conn_sent (pc_side pc) (pc_writeBuffer pc) rs →
  ∃ pc', pkt_send_blocks pc r false = Ok (pc', r) ∧ conn_sent (pc_side pc') (pc_writeBuffer pc') (rs ++ [r]) ∧ pc_keeps pc pc'.
Proof.
  intros P0 S. unfold conn_sent in S. rewrite P0 in S. destruct S as [Cf I]. set (b := MkRope (r_blocks r) (Z.of_nat (length (rope_bytes r)))).
  destruct (wb_send_ok _ _ _ b false I eq_refl) as (s' & w' & b' & E & _ & _ & D). unfold pkt_send_blocks. rewrite (wb_send_blocks _ _ r b eq_refl), E, !bind_Ok.
  eexists. split; [done|]. split; [|apply (wb_send_keeps _ _ _ _ _ _ _ E)]. apply wb_send_marked in E.
  eapply marked_sent; [exact E|done..|]. rewrite bytes_all_snoc. tauto.
Qed.

Lemma conn_sent_ready pc rs : ps_packetClosed (pc_side pc) = false → conn_sent (pc_side pc) (pc_writeBuffer pc) rs →
  ∃ pc', pc_writeReady pc = Ok pc' ∧ conn_sent (pc_side pc') (pc_writeBuffer pc') rs ∧ pc_keeps pc pc'.
Proof.
  intros P0 S. unfold conn_sent in S. rewrite P0 in S. destruct S as [Cf I]. destruct (writeReady_ok _ _ _ I) as (s' & w' & E & D).
  unfold pc_writeReady. rewrite E, bind_Ok. eexists. split; [done|]. split; [|apply (writeReady_keeps _ _ _ _ E)]. apply writeReady_marked in E.
  eapply marked_sent; [exact E|done..|]. destruct D as [?|[[? _]|?]]; [tauto|congruence|tauto].
Qed.

(** ** Reading leaves what was sent *)

Lemma pc_read_frame pc len d n pc' : pc_read pc len = Ok (d, n, pc') → read_frame pc pc'.
Proof.
  intros E. destruct pc as [[[f sel tls cl p] pcl] rc wb]. unfold pc_read, conn_read, tlsRead, selectFd, the_ssl, sys_read in E.
  cbn [pc_side ps_conn c_tlsConnect c_selectFd c_peer] in E. repeat (case_match; simplify_eq/=; inv_res; try done); (split; cbn; try done; first [by destruct (io_open p)|match goal with x : SelectFd |- _ => by destruct x end]).
Qed.

(** Framed, or closed after a framed read. *)
Definition read_only (o : option parse_out) (pc pc' : PacketConnection) : Prop :=
  match o with Some PClosed => ∃ pc1, read_frame pc pc1 ∧ pc' = pc_closed pc1 | _ => read_frame pc pc' end.

Lemma read_only_frame o pc pc1 pc' : read_frame pc pc1 → read_only o pc1 pc' → read_only o pc pc'.
Proof.
  intros F. unfold read_only. destruct o as [[| |]|]; try by etrans. intros (x & F' & ->). exists x. split; [by etrans|done].
Qed.

Lemma recv_frame pc r : read_frame pc (pc_set_recv pc r).
Proof. by apply read_frame_set_recv. Qed.

Lemma want_head_frame pc o pc' : want_head pc = Ok (o, pc') → read_only o pc pc'.
Proof.
  unfold want_head. intros E. apply bind_Ok_inv in E as ([[d n] pc1] & E0 & E). apply pc_read_frame in E0.
  repeat case_match; inv_res; cbn; eauto; by apply read_frame_set_recv.
Qed.

Lemma read_block_frame fuel pc o pc' : read_block fuel pc = Ok (o, pc') → read_only o pc pc'.
Proof.
  revert pc. induction fuel as [|fuel IH]; intros pc E; [done|]. rewrite read_block_eq in E. cbv zeta in E.
  case_match; [|by inv_res]. apply bind_Ok_inv in E as ([[d n] pc1] & E0 & E). apply pc_read_frame in E0.
  repeat case_match; inv_res; cbn; eauto; [by apply read_frame_set_recv|]. eapply read_only_frame; [|by apply IH]. by apply read_frame_set_recv.
Qed.

Lemma read_blocks_frame fuel pc o pc' : read_blocks fuel pc = Ok (o, pc') → read_only o pc pc'.
Proof.
  revert pc. induction fuel as [|fuel IH]; intros pc E; [done|]. cbn [read_blocks] in E. apply bind_Ok_inv in E as ([o1 pc1] & E0 & E).
  apply read_block_frame in E0. destruct o1 as [out|]; [by inv_res|]. cbn in E0. apply bind_Ok_inv in E as (b & _ & E).
  case_match; inv_res; [by apply read_frame_set_recv|]. eapply read_only_frame; [|by apply IH]. by apply read_frame_set_recv.
Qed.

Lemma want_block_frame pc out pc' : want_block pc = Ok (out, pc') → read_only (Some out) pc pc'.
Proof.
  unfold want_block. intros E. apply bind_Ok_inv in E as ([o pc1] & E0 & E). apply read_blocks_frame in E0.
  destruct o as [out'|]; [by inv_res|]. unfold packet_done in E. injection E as <- <-. by apply read_frame_set_recv.
Qed.

Lemma parse_frame pc out pc' : parsePacket pc = Ok (out, pc') → read_only (Some out) pc pc'.
Proof.
  unfold parsePacket. case_match; [|apply want_block_frame]. intros E. apply bind_Ok_inv in E as ([o pc1] & E0 & E). apply want_head_frame in E0.
  destruct o as [out'|]; [by inv_res|]. eapply read_only_frame; [exact E0|]. by apply want_block_frame.
Qed.

Lemma frame_inv pc pc' all : read_frame pc pc' → calm (c_fd (pc_conn pc')) = true →
  wb_inv (pc_side pc) (pc_writeBuffer pc) all → wb_inv (pc_side pc') (pc_writeBuffer pc') all.
Proof.
  intros [Fw _ Fs Ft _ Ff Fo Fi Ftl _ _] C [f [E P Ab Cf Q A W]]. rewrite Fw. unfold pc_conn in *. cbn in E. unfold selectFd in E.
  destruct (c_selectFd (ps_conn (pc_side pc))) eqn:Es; [|done]. injection E as <-. rewrite Ff in C.
  exists (c_fd (ps_conn (pc_side pc'))). split; [|cbn in *; congruence| |by rewrite Ff|done| |].
  - cbn. unfold selectFd. by rewrite Fs.
  - cbn in *. rewrite Ft, Ff. exact Ab.
  - cbn in *. unfold pc_stream in *. rewrite Ft, Fi, Ftl. exact A.
  - intros N. rewrite Ff, calm_wants by done. auto.
Qed.

Lemma closed_stream pc : c_selectFd (pc_conn (pc_closed pc)) = false ∧ ps_packetClosed (pc_side (pc_closed pc)) = true ∧
  wf_stream (pc_side (pc_closed pc)) = wf_stream (pc_side pc).
Proof. destruct pc as [[[f [] tls cl p] pcl] rc wb]; done. Qed.

Lemma frame_stream pc pc' : read_frame pc pc' → wf_stream (pc_side pc') = wf_stream (pc_side pc).
Proof. intros [_ _ _ Ft _ _ _ Fi Ftl _ _]. unfold pc_conn in *. cbn. unfold pc_stream. by rewrite Ft, Fi, Ftl. Qed.

Lemma conn_sent_read pc out pc' rs : ps_packetClosed (pc_side pc) = false → conn_sent (pc_side pc) (pc_writeBuffer pc) rs →
  parsePacket pc = Ok (out, pc') → calm (c_fd (pc_conn pc')) = true →
  conn_sent (pc_side pc') (pc_writeBuffer pc') rs ∧ (out ≠ PClosed → ps_packetClosed (pc_side pc') = false).
Proof.
  intros P0 S E C. apply parse_frame in E. unfold conn_sent in S. rewrite P0 in S. destruct S as [Cf I]. cbn in E.
  assert (out ≠ PClosed → read_frame pc pc') as F by (by destruct out). assert (out = PClosed ∨ out ≠ PClosed) as [->|N] by (destruct out; [by right|by left|by right]).
  - destruct E as (pc1 & F1 & ->). split; [|done]. unfold conn_sent. destruct (closed_stream pc1) as (Sc & -> & Es). split; [exact Sc|].
    rewrite Es, (frame_stream _ _ F1). destruct I as [f [_ _ _ _ _ A _]]. rewrite <- A. by apply prefix_app_r.
  - specialize (F N). pose proof (rf_packetClosed _ _ F) as P. rewrite P0 in P. split; [|done]. unfold conn_sent. rewrite P. split.
    + by rewrite (rf_wb _ _ F).
    + by eapply frame_inv.
Qed.
End Send.
