(* ===== verification/BrokerProps.v ===== *)
(** * What the broker promises

    In every state the broker can get to, each client has been sent, in order, what
    a specification says: for every kind it asked for, the packet of that kind that
    was published last, if there is one, and every packet of that kind published
    after that. *)

From S2P Require Import Prelude Rope Conn ConnProps ItQueue Packet PacketRecv PacketProps ConnState ConnStateProps Influx InfluxProps Broker BrokerKeep.
From stdpp Require Import functions list.
#[local] Open Scope Z_scope.

(** ** The specification *)

(** The kinds each client wants, what each was sent, what was published of each kind. *)
Record abroker := MkAbroker {
  ab_wants : positive → gset Z;
  ab_out : positive → list Rope;
  ab_hist : Z → list Rope;
}.

Definition ab_none : abroker := MkAbroker (λ _, ∅) (λ _, []) (λ _, []).

Definition ab_join (a : abroker) (c : positive) : abroker :=
  MkAbroker (<[c := ∅]> (ab_wants a)) (<[c := []]> (ab_out a)) (ab_hist a).

Definition ab_want (a : abroker) (c : positive) (id : Z) : abroker :=
  MkAbroker (<[c := {[id]} ∪ ab_wants a c]> (ab_wants a)) (<[c := ab_out a c ++ lastn 1 (ab_hist a id)]> (ab_out a)) (ab_hist a).

Definition ab_publish (a : abroker) (live : positive → bool) (id : Z) (buf : Rope) : abroker :=
  MkAbroker (ab_wants a) (λ c, if live c && bool_decide (id ∈ ab_wants a c) then ab_out a c ++ [buf] else ab_out a c)
    (<[id := ab_hist a id ++ [buf]]> (ab_hist a)).

Section Broker.
Context `{RopeLib} `{BstSetLib} `{StructMapLib} `{MainGen}.
Implicit Types (st : MainThread) (a : abroker) (cc : ClientConnection).

(** A packet from a client. *)
Definition ab_dispatch (a : abroker) (live : positive → bool) (c : positive) (buf : Rope) : abroker :=
  match msg_id buf with
  | Ok id =>
      if id =? Ping_ID then a
      else if id =? WantId_ID then match read_WantId buf with Ok w => ab_want a c w | _ => a end
      else if id =? PacketType_ID then a
      else ab_publish a live id buf
  | _ => a
  end.

Definition ab_read (a : abroker) (live : positive → bool) (c : positive) (out : parse_out) : abroker :=
  match out with PPacket buf => ab_dispatch a live c buf | PWait | PClosed => a end.

(** A client that is sent packets. *)
Definition cc_live cc : bool := negb (brokerConnClosed cc) && isEstablished (ps_conn (pc_side (cc_pc cc))).
Definition is_live st (c : positive) : bool := match mt_conns st !! c with Some cc => cc_live cc | None => false end.

(** The states of a broker: clients connect and are made secure, packets arrive on
    them in any order, and the queues are written when the descriptors are ready.
    Reads leave no TLS write pending: after one that does, a packet can overtake the
    queue ([tls_read_reorders]). *)
Inductive br_reach : MainThread → abroker → Prop :=
| br_init token : br_reach (MkMainThread ∅ [] [] smap_empty [] ∅ token None) ab_none
| br_accept st a c fd io headBuf need : br_reach st a → mt_conns st !! c = None →
    io_open io = true → io_out io = [] → io_tls io = [] →
    br_reach (connectionFactory st c (MkPacketConnection (MkPcSide (listenReady true fd io) false) (new_Recv headBuf need) new_WriteBuffer)) (ab_join a c)
| br_handshake st a c cc hs pc : br_reach st a → mt_conns st !! c = Some cc → brokerConnClosed cc = false →
    sf_state (pc_fd (cc_pc cc)) = Fd.TlsAccept → connTlsAcceptReady (cc_pc cc) hs = Ok pc → br_reach (set_pc st c cc pc) a
| br_read st a c cc out pc st' : br_reach st a → mt_conns st !! c = Some cc → cc_live cc = true →
    parsePacket (cc_pc cc) = Ok (out, pc) → calm (pc_fd pc) = true → client_readReady st c = Ok st' →
    br_reach st' (ab_read a (is_live (set_pc st c cc pc)) c out)
| br_write st a c cc st' : br_reach st a → mt_conns st !! c = Some cc → cc_live cc = true → client_writeReady st c = Ok st' → br_reach st' a.

(** ** The invariant *)

(** An established connection, or one in its handshake, to which nothing was sent. *)
Definition pc_phase (pc : PacketConnection) (rs : list Rope) : Prop :=
  isEstablished (ps_conn (pc_side pc)) = true ∨
  sf_state (pc_fd pc) = Fd.TlsAccept ∧ rs = [] ∧ sf_tlsReadWantsWrite (pc_fd pc) = false.

Record cl_inv cc (ws : gset Z) (rs : list Rope) : Prop := ClInv {
  ci_wants : ∀ id, wid_find (cc_wantIds cc) id = bool_decide (id ∈ ws);
  ci_sent : conn_sent (pc_side (cc_pc cc)) (pc_writeBuffer (cc_pc cc)) rs;
  ci_phase : brokerConnClosed cc = false → pc_phase (cc_pc cc) rs;
}.

Record lasts_ok (ls : list Last) (h : Z → list Rope) : Prop := LastsOk {
  lo_nodup : NoDup (l_msgId <$> ls);
  lo_at : ∀ l, l ∈ ls → last_at l 1 (h (l_msgId l));
  lo_none : ∀ id, id ∉ l_msgId <$> ls → h id = [];
}.

Record br_inv st a : Prop := BrInv {
  bi_conns : ∀ c cc, mt_conns st !! c = Some cc → cl_inv cc (ab_wants a c) (ab_out a c);
  bi_list : ∀ c, c ∈ mt_connList st → is_Some (mt_conns st !! c);
  bi_nodup : NoDup (mt_connList st);
  bi_open : ∀ c cc, mt_conns st !! c = Some cc → brokerConnClosed cc = false → c ∈ mt_connList st;
  bi_last : lasts_ok (mt_lastList st) (ab_hist a);
  bi_replay : mt_replay st = None;
}.

(** ** Kept packets *)

Lemma find_last_spec ls i id : match find_last ls i id with
  | Some j => ∃ k l, j = (i + k)%nat ∧ ls !! k = Some l ∧ l_msgId l = id
  | None => id ∉ l_msgId <$> ls
  end.
Proof.
  revert i. induction ls as [|l ls IH]; intros i; cbn; [apply not_elem_of_nil|]. destruct (Z.eqb_spec (l_msgId l) id) as [E|N].
  - exists 0%nat, l. by rewrite Nat.add_0_r.
  - specialize (IH (S i)). destruct (find_last ls (S i) id).
    + destruct IH as (k & x & -> & E & Ex). exists (S k), x. split; [lia|done].
    + by rewrite not_elem_of_cons.
Qed.

Lemma lasts_ok_new ls h id : lasts_ok ls h → (id ∉ l_msgId <$> ls) → lasts_ok (ls ++ [new_Last id]) h.
Proof.
  intros [N A O] Hi. split.
  - rewrite fmap_app. apply NoDup_app. split_and!; [done| |apply NoDup_singleton]. intros x Hx Hs. apply list_elem_of_singleton in Hs as ->. done.
  - intros l [Hl|Hl]%elem_of_app; [by apply A|]. apply list_elem_of_singleton in Hl as ->. cbn. rewrite O by done. apply new_last_at.
  - intros x Hx. apply O. rewrite fmap_app, elem_of_app in Hx. tauto.
Qed.

Lemma stash_recent_ok ls h id buf : lasts_ok ls h → ∃ ls', stash_recent ls id buf = Ok ls' ∧ lasts_ok ls' (<[id := h id ++ [buf]]> h).
Proof.
  intros L. unfold stash_recent. pose proof (find_last_spec ls 0 id) as F.
  assert (∃ i l ls1, (match find_last ls 0 id with Some i => (i, ls) | None => (length ls, ls ++ [new_Last id]) end) = (i, ls1) ∧
    lasts_ok ls1 h ∧ ls1 !! i = Some l ∧ l_msgId l = id) as (i & l & ls1 & -> & L1 & El & Ei).
  { destruct (find_last ls 0 id) as [i|].
    - destruct F as (k & l & -> & El & Ei). by exists k, l, ls.
    - exists (length ls), (new_Last id), (ls ++ [new_Last id]). split_and!; [done|by apply lasts_ok_new|by apply list_lookup_middle|done]. }
  rewrite El. cbn [deref]. rewrite bind_Ok. destruct L1 as [N A O].
  assert (last_at l 1 (h id)) as Al by (rewrite <- Ei; apply A; by eapply list_elem_of_lookup_2).
  destruct (keep_at l 1 (h id) buf Al) as (l' & -> & Al' & Ei'). rewrite bind_Ok. eexists. split; [done|].
  assert (l_msgId <$> <[i:=l']> ls1 = l_msgId <$> ls1) as Ef.
  { rewrite list_fmap_insert, Ei'. apply list_insert_id. by rewrite list_lookup_fmap, El. }
  split; [by rewrite Ef| |].
  - intros x (j & Hj)%list_elem_of_lookup. destruct (decide (j = i)) as [->|Nj].
    + rewrite list_lookup_insert_eq in Hj by (by eapply lookup_lt_Some). injection Hj as <-. rewrite Ei', Ei, fn_lookup_insert. done.
    + rewrite list_lookup_insert_ne in Hj by done. rewrite fn_lookup_insert_ne; [apply A; by eapply list_elem_of_lookup_2|].
      intros Ex. apply Nj. eapply (NoDup_lookup (l_msgId <$> ls1)); [done|rewrite list_lookup_fmap, Hj; cbn|rewrite list_lookup_fmap, El; cbn]; [done|]. congruence.
  - intros x Hx. rewrite Ef in Hx. rewrite fn_lookup_insert_ne; [by apply O|]. intros <-. apply Hx. rewrite <- Ei.
    apply list_elem_of_fmap_2. by eapply list_elem_of_lookup_2.
Qed.

Lemma send_recent_none ls w pc : (w ∉ l_msgId <$> ls) → send_recent ls w pc = Ok pc.
Proof.
  induction ls as [|l ls IH]; intros N; cbn [send_recent]; [done|]. apply not_elem_of_cons in N as [Nl N].
  destruct (Z.eqb_spec (l_msgId l) w); [congruence|]. rewrite bind_Ok. auto.
Qed.

Lemma send_recent_ok ls h w pc : lasts_ok ls h → send_recent ls w pc = send_all (lastn 1 (h w)) pc.
Proof.
  intros [N A O]. destruct (decide (w ∈ l_msgId <$> ls)) as [Hw|Nw]; [|by rewrite (send_recent_none _ _ _ Nw), O].
  clear O. induction ls as [|l ls IH]; [by apply elem_of_nil in Hw|]. cbn [send_recent fmap list_fmap] in *. apply NoDup_cons in N as [Nl N].
  destruct (Z.eqb_spec (l_msgId l) w) as [<-|Ne].
  - rewrite (send_last_at l 1 (h (l_msgId l))) by (apply A; left). destruct (send_all _ _); [rewrite bind_Ok|done..]. by apply send_recent_none.
  - rewrite bind_Ok. apply IH; [done|intros; apply A; by right|]. apply elem_of_cons in Hw as [->|?]; done.
Qed.

(** ** Clients *)

Lemma conn_sent_open s w rs : conn_sent s w rs → ps_packetClosed s = false → c_selectFd (ps_conn s) = true.
Proof. unfold conn_sent. intros S P. rewrite P in S. destruct S as [_ I]. by eapply wb_inv_open. Qed.

(** A change of an open connection that keeps its state. *)
Lemma cl_inv_keeps cc ws rs pc' rs' : cl_inv cc ws rs → cc_live cc = true → pc_keeps (cc_pc cc) pc' →
  conn_sent (pc_side pc') (pc_writeBuffer pc') rs' → cl_inv (cc_set_pc cc pc') ws rs'.
Proof.
  intros [W _ _] [_ E]%andb_true_iff [(Ks & _) _] S. split; [done|done|]. intros P. left. cbn in *. unfold brokerConnClosed in P. cbn in P.
  unfold isEstablished in *. rewrite (conn_sent_open _ _ _ S P). apply andb_true_iff in E as [_ E]. unfold pc_fd, pc_conn in Ks. by rewrite Ks.
Qed.

Lemma cc_live_closed cc : cc_live cc = true → ps_packetClosed (pc_side (cc_pc cc)) = false.
Proof. unfold cc_live, brokerConnClosed. intros [E _]%andb_true_iff. by apply negb_true_iff. Qed.

Lemma cl_inv_send cc ws rs r : cl_inv cc ws rs → cc_live cc = true →
  ∃ pc, pkt_send_blocks (cc_pc cc) r false = Ok (pc, r) ∧ cl_inv (cc_set_pc cc pc) ws (rs ++ [r]).
Proof.
  intros I L. destruct (conn_sent_send (cc_pc cc) rs r (cc_live_closed _ L) (ci_sent _ _ _ I)) as (pc & E & S & K).
  exists pc. split; [done|]. by eapply cl_inv_keeps.
Qed.

(** ** Publishing *)

(** What a client is sent when a packet is published. *)
Definition published cc (ws : gset Z) (rs : list Rope) (id : Z) (buf : Rope) : list Rope :=
  if cc_live cc && bool_decide (id ∈ ws) then rs ++ [buf] else rs.

Lemma resend_to_ok out cs id buf (w : positive → gset Z) (o : positive → list Rope) : NoDup out → (∀ c, c ∈ out → is_Some (cs !! c)) →
  (∀ c cc, c ∈ out → cs !! c = Some cc → cl_inv cc (w c) (o c)) →
  ∃ cs', resend_to out cs id buf = Ok cs' ∧ (∀ c, c ∉ out → cs' !! c = cs !! c) ∧
    ∀ c cc, c ∈ out → cs !! c = Some cc → ∃ cc', cs' !! c = Some cc' ∧ cl_inv cc' (w c) (published cc (w c) (o c) id buf) ∧
      (brokerConnClosed cc' = false → brokerConnClosed cc = false).
Proof.
  revert cs. induction out as [|c out IH]; intros cs N D I; cbn [resend_to].
  { exists cs. split_and!; [done..|]. intros c cc Hc. by apply elem_of_nil in Hc. }
  apply NoDup_cons in N as [Nc N]. destruct (D c) as [cc Ec]; [left|]. rewrite Ec. cbn [deref]. rewrite bind_Ok.
  assert (∃ cc', (if negb (brokerConnClosed cc) && isEstablished (ps_conn (pc_side (cc_pc cc))) && wid_find (cc_wantIds cc) id then
              '(pc, _) ← pkt_send_blocks (cc_pc cc) buf false; Ok (<[c := cc_set_pc cc pc]> cs) else Ok cs) = Ok (<[c := cc']> cs) ∧
    cl_inv cc' (w c) (published cc (w c) (o c) id buf) ∧ (brokerConnClosed cc' = false → brokerConnClosed cc = false)) as (cc1 & -> & I1 & M1).
  { fold (cc_live cc). unfold published. pose proof (I c cc (list_elem_of_here _ _) Ec) as Ic. rewrite (ci_wants _ _ _ Ic). destruct (cc_live cc) eqn:L; cbn [andb].
    - destruct (bool_decide (id ∈ w c)).
      + destruct (cl_inv_send cc _ _ buf Ic L) as (pc & -> & I'). rewrite bind_Ok. eexists. split_and!; [done..|]. intros _. by apply cc_live_closed.
      + exists cc. by rewrite insert_id.
    - exists cc. by rewrite insert_id. }
  rewrite bind_Ok. destruct (IH (<[c := cc1]> cs)) as (cs' & E' & Fr & Up); [done| | |].
  { intros d Hd. rewrite lookup_insert_ne by (intros ->; done). apply D. by right. }
  { intros d dd Hd. rewrite lookup_insert_ne by (intros ->; done). apply I. by right. }
  exists cs'. split; [done|]. split.
  - intros d [Nd Hd]%not_elem_of_cons. rewrite Fr by done. by rewrite lookup_insert_ne.
  - intros d dd Hd Ed. destruct (decide (d = c)) as [->|Nd].
    + rewrite Ec in Ed. injection Ed as <-. exists cc1. rewrite Fr, lookup_insert_eq by done. done.
    + apply elem_of_cons in Hd as [?|Hd]; [done|]. apply (Up d dd Hd). by rewrite lookup_insert_ne.
Qed.

Definition open_in (cs : gmap positive ClientConnection) (c : positive) : bool :=
  match cs !! c with Some cc => negb (brokerConnClosed cc) | None => false end.

Lemma detach_closed_ok out cs : (∀ c, c ∈ out → is_Some (cs !! c)) → detach_closed out cs = Ok (filter (λ c, open_in cs c = true) out).
Proof.
  induction out as [|c out IH]; intros D; cbn [detach_closed]; [done|].
  destruct (D c) as [cc Ec]; [left|]. rewrite Ec. cbn [deref]. rewrite bind_Ok, IH, bind_Ok by (intros; apply D; by right).
  assert (open_in cs c = negb (brokerConnClosed cc)) as Eo by (unfold open_in; by rewrite Ec). rewrite filter_cons.
  destruct (brokerConnClosed cc); [rewrite decide_False by (by rewrite Eo)|rewrite decide_True by (by rewrite Eo)]; done.
Qed.

Lemma published_ab st a c cc id buf : mt_conns st !! c = Some cc →
  ab_out (ab_publish a (is_live st) id buf) c = published cc (ab_wants a c) (ab_out a c) id buf.
Proof. intros E. unfold published. cbn. unfold is_live. by rewrite E. Qed.

Lemma resendPacket_ok st a id buf : br_inv st a → msg_id buf = Ok id →
  ∃ st', resendPacket st buf = Ok st' ∧ br_inv st' (ab_publish a (is_live st) id buf) ∧
    ∀ c, c ∈ mt_connList st' → open_in (mt_conns st') c = true.
Proof.
  intros [C L N O K R] Ei. unfold resendPacket. rewrite Ei, bind_Ok.
  destruct (resend_to_ok (mt_connList st) (mt_conns st) id buf (ab_wants a) (ab_out a) N L) as (cs & -> & Fr & Up); [by intros; apply C|]. rewrite bind_Ok.
  assert (∀ c, c ∈ mt_connList st → is_Some (cs !! c)) as L'.
  { intros c Hc. destruct (L c Hc) as [cc Ec]. destruct (Up c cc Hc Ec) as (cc' & -> & _). by eexists. }
  rewrite detach_closed_ok, bind_Ok by done. destruct (stash_recent_ok _ _ id buf K) as (ls & E & K'). cbn [mt_lastList set_connList set_conns]. rewrite E, bind_Ok.
  eexists. split; [done|]. split; [|by intros c [? _]%list_elem_of_filter]. split; cbn; try done.
  - intros c cc' Ec'. destruct (decide (c ∈ mt_connList st)) as [Hc|Hc].
    + destruct (L c Hc) as [cc Ec]. destruct (Up c cc Hc Ec) as (cc2 & E2 & I2 & _). rewrite Ec' in E2. injection E2 as <-. by rewrite <- (published_ab st a c cc) in I2.
    + rewrite Fr in Ec' by done. pose proof (C c cc' Ec') as I. unfold is_live. rewrite Ec'. destruct (cc_live cc') eqn:Lv; [|done].
      exfalso. apply Hc. apply (O c cc' Ec'). by apply cc_live_closed.
  - intros c [_ Hc]%list_elem_of_filter. by apply L'.
  - by apply NoDup_filter.
  - intros c cc' Ec' P. assert (c ∈ mt_connList st) as Hc.
    { destruct (decide (c ∈ mt_connList st)) as [?|Hc]; [done|]. rewrite Fr in Ec' by done. by apply (O c cc'). }
    apply list_elem_of_filter. split; [|done]. unfold open_in. by rewrite Ec', P.
Qed.

(** ** Other messages *)

(** Replacing the connection of a client that stays as it is on the list. *)
Lemma br_inv_set st a c cc cc' a' : br_inv st a → mt_conns st !! c = Some cc → (brokerConnClosed cc' = false → brokerConnClosed cc = false) →
  cl_inv cc' (ab_wants a' c) (ab_out a' c) → (∀ d, d ≠ c → ab_wants a' d = ab_wants a d ∧ ab_out a' d = ab_out a d) → ab_hist a' = ab_hist a →
  br_inv (set_conns st (<[c := cc']> (mt_conns st))) a'.
Proof.
  intros [C L N O K R] E M I F Eh. split; cbn; try done.
  - intros d dd. destruct (decide (d = c)) as [->|Nd]; [rewrite lookup_insert_eq; by intros [= <-]|]. rewrite lookup_insert_ne by done.
    destruct (F d Nd) as [-> ->]. apply C.
  - intros d Hd. destruct (decide (d = c)) as [->|Nd]; [rewrite lookup_insert_eq; by eexists|]. rewrite lookup_insert_ne by done. by apply L.
  - intros d dd. destruct (decide (d = c)) as [->|Nd]; [rewrite lookup_insert_eq; intros [= <-] P; apply (O c cc E); auto|]. rewrite lookup_insert_ne by done. apply O.
  - by rewrite Eh.
Qed.

Lemma recvWantId_ok st a c cc id : br_inv st a → mt_conns st !! c = Some cc → cc_live cc = true →
  ∃ st', recvWantId st c id = Ok st' ∧ br_inv st' (ab_want a c id).
Proof.
  intros I E L. unfold recvWantId. rewrite E. cbn [deref]. rewrite bind_Ok. cbn [cc_pc]. rewrite (send_recent_ok _ _ id _ (bi_last _ _ I)).
  pose proof (bi_conns _ _ I c cc E) as Ic. set (cc1 := MkClientConnection (cc_pc cc) (wid_insert (cc_wantIds cc) id)).
  assert (cl_inv cc1 ({[id]} ∪ ab_wants a c) (ab_out a c)) as I1.
  { destruct Ic as [W S P]. split; [|done..]. intros x. cbn. rewrite wid_find_insert, W. apply eq_true_iff_eq.
    rewrite orb_true_iff, !bool_decide_eq_true. set_solver. }
  assert (∃ pc, send_all (lastn 1 (ab_hist a id)) (cc_pc cc) = Ok pc ∧ cl_inv (cc_set_pc cc1 pc) ({[id]} ∪ ab_wants a c) (ab_out a c ++ lastn 1 (ab_hist a id))) as (pc & -> & I2).
  { assert (length (lastn 1 (ab_hist a id)) ≤ 1)%nat as Hl by (unfold lastn; rewrite length_drop; lia).
    destruct (lastn 1 (ab_hist a id)) as [|r [|]]; [|cbn [send_all]|cbn in Hl; lia].
    - exists (cc_pc cc). rewrite app_nil_r. by split.
    - destruct (cl_inv_send cc1 _ _ r I1 L) as (pc & E1 & I2). cbn [cc_pc cc1] in E1. rewrite E1, bind_Ok. by exists pc. }
  rewrite bind_Ok. eexists. split; [done|]. eapply br_inv_set; [exact I|exact E|intros _; by apply cc_live_closed| | |done].
  - cbn. rewrite !fn_lookup_insert. exact I2.
  - intros d Nd. cbn. by rewrite !fn_lookup_insert_ne.
Qed.

(** ** Events *)

Lemma br_inv_same st st' a : br_inv st a → mt_conns st' = mt_conns st → mt_connList st' = mt_connList st → mt_lastList st' = mt_lastList st →
  mt_replay st' = mt_replay st → br_inv st' a.
Proof. intros [C L N O K R] E1 E2 E3 E4. split; rewrite ?E1, ?E2, ?E3, ?E4; done. Qed.

Lemma is_live_same st st' c : mt_conns st' = mt_conns st → is_live st' c = is_live st c.
Proof. unfold is_live. by intros ->. Qed.

Lemma dispatch_influx_same st id buf st' : dispatch_influx st id buf = Ok st' → mt_conns st' = mt_conns st ∧ mt_connList st' = mt_connList st ∧
  mt_lastList st' = mt_lastList st ∧ mt_replay st' = mt_replay st.
Proof. unfold dispatch_influx, stashInflux. intros E. repeat case_match; inv_res; done. Qed.

(** The reader of the message, and the database if it is asked for, can read the packet. *)
Definition readable st (buf : Rope) : Prop := ∃ id, msg_id buf = Ok id ∧ is_ok (dispatch_influx st id buf) = true ∧
  (id = WantId_ID → is_ok (read_WantId buf) = true) ∧ (id = PacketType_ID → is_ok (read_PacketType buf) = true).

Lemma recvPacketType_ok st pkt : ∃ st', recvPacketType st pkt = Ok st' ∧ mt_conns st' = mt_conns st ∧ mt_connList st' = mt_connList st ∧
  mt_lastList st' = mt_lastList st ∧ mt_replay st' = mt_replay st.
Proof. unfold recvPacketType. destruct (read_any (S (length (pt_fields pkt))) (pt_fields pkt) (new_Struct (pt_name pkt) (pt_numId pkt)) (pt_numFields pkt)) as (s & r & E & _); [lia|].
  unfold make_struct. rewrite E, !bind_Ok. by eexists. Qed.

Lemma dispatchPacket_ok st a c cc buf : br_inv st a → mt_conns st !! c = Some cc → cc_live cc = true → readable st buf →
  ∃ st', dispatchPacket st c buf = Ok st' ∧ br_inv st' (ab_dispatch a (is_live st) c buf).
Proof.
  intros I E L (id & Ei & Eu & Ew & Ep). unfold dispatchPacket, ab_dispatch. rewrite Ei, bind_Ok.
  destruct (dispatch_influx st id buf) as [st1| |] eqn:Es; [|done..]. rewrite bind_Ok. apply dispatch_influx_same in Es as (E1 & E2 & E3 & E4).
  assert (br_inv st1 a) as I1 by (by eapply br_inv_same). rewrite (bi_replay _ _ I1).
  destruct (Z.eqb_spec id Ping_ID); [by exists st1|]. destruct (Z.eqb_spec id WantId_ID) as [Hw|].
  { specialize (Ew Hw). destruct (read_WantId buf) as [w| |]; [|done..]. rewrite bind_Ok. apply (recvWantId_ok st1 a c cc); [done|congruence|done]. }
  destruct (Z.eqb_spec id PacketType_ID) as [Hp|].
  { specialize (Ep Hp). destruct (read_PacketType buf) as [pkt| |]; [|done..]. rewrite bind_Ok.
    destruct (recvPacketType_ok st1 pkt) as (st2 & -> & ? & ? & ? & ?). exists st2. split; [done|]. by eapply br_inv_same. }
  destruct (resendPacket_ok st1 a id buf I1 Ei) as (st2 & E' & I2 & _). exists st2. split; [done|].
  assert (ab_publish a (is_live st) id buf = ab_publish a (is_live st1) id buf) as ->; [|done]. unfold ab_publish, is_live. by rewrite E1.
Qed.

(** A dispatch that returns could read the packet. *)
Lemma dispatch_readable st c buf st' : mt_replay st = None → dispatchPacket st c buf = Ok st' → readable st buf.
Proof.
  intros R E. unfold dispatchPacket in E. apply bind_Ok_inv in E as (id & Ei & E). apply bind_Ok_inv in E as (st1 & Es & E). exists id.
  pose proof (dispatch_influx_same _ _ _ _ Es) as (_ & _ & _ & Er). rewrite Er, R in E. split_and!; [done|by rewrite Es| |].
  - intros ->. pose proof ids_distinct as D. rewrite !NoDup_cons in D. destruct (Z.eqb_spec WantId_ID Ping_ID); [set_solver|]. rewrite Z.eqb_refl in E.
    apply bind_Ok_inv in E as (w & -> & _). done.
  - intros ->. pose proof ids_distinct as D. rewrite !NoDup_cons in D. destruct (Z.eqb_spec PacketType_ID Ping_ID); [set_solver|].
    destruct (Z.eqb_spec PacketType_ID WantId_ID); [set_solver|]. rewrite Z.eqb_refl in E. apply bind_Ok_inv in E as (w & -> & _). done.
Qed.

(** After a read: what was sent is what it was. *)
Lemma client_parse_inv st a c cc out pc : br_inv st a → mt_conns st !! c = Some cc → cc_live cc = true → parsePacket (cc_pc cc) = Ok (out, pc) →
  calm (pc_fd pc) = true → br_inv (set_pc st c cc pc) a ∧ (out ≠ PClosed → cc_live (cc_set_pc cc pc) = true).
Proof.
  intros I E L Ep C. pose proof (bi_conns _ _ I c cc E) as Ic. pose proof (cc_live_closed _ L) as P.
  destruct (conn_sent_read _ _ _ _ P (ci_sent _ _ _ Ic) Ep C) as [S Pc]. pose proof (parsePacket_keeps _ _ _ Ep) as K.
  assert (cl_inv (cc_set_pc cc pc) (ab_wants a c) (ab_out a c)) as I' by (by eapply cl_inv_keeps). split.
  - by apply (br_inv_set st a c cc).
  - intros N. specialize (Pc N). unfold cc_live, brokerConnClosed. cbn. rewrite Pc. cbn. destruct (ci_phase _ _ _ I' Pc) as [?|[Hs _]]; [done|].
    exfalso. destruct K as [(Ks & _) _]. cbn in Hs. apply andb_true_iff in L as [_ L]. unfold isEstablished in L. unfold pc_fd, pc_conn in *.
    rewrite <- Ks, Hs in L. by rewrite andb_false_r in L.
Qed.

Lemma client_read_ok st a c cc out pc : br_inv st a → mt_conns st !! c = Some cc → cc_live cc = true → parsePacket (cc_pc cc) = Ok (out, pc) →
  calm (pc_fd pc) = true → (∀ buf, out = PPacket buf → readable (set_pc st c cc pc) buf) →
  ∃ st', client_readReady st c = Ok st' ∧ br_inv st' (ab_read a (is_live (set_pc st c cc pc)) c out).
Proof.
  intros I E L Ep C Rd. destruct (client_parse_inv st a c cc out pc I E L Ep C) as [I' Lv]. unfold client_readReady. rewrite E. cbn [deref]. rewrite bind_Ok, Ep, bind_Ok.
  destruct out as [| |buf]; [by eexists..|]. eapply dispatchPacket_ok; [exact I'|apply lookup_insert_eq|by apply Lv|by apply Rd].
Qed.

Lemma client_write_ok st a c cc : br_inv st a → mt_conns st !! c = Some cc → cc_live cc = true →
  ∃ st', client_writeReady st c = Ok st' ∧ br_inv st' a.
Proof.
  intros I E L. unfold client_writeReady. rewrite E. cbn [deref]. rewrite bind_Ok. pose proof (bi_conns _ _ I c cc E) as Ic.
  destruct (conn_sent_ready _ _ (cc_live_closed _ L) (ci_sent _ _ _ Ic)) as (pc & -> & S & K). rewrite bind_Ok. eexists. split; [done|].
  apply (br_inv_set st a c cc); [done..|intros _; by apply cc_live_closed| |done|done]. by eapply cl_inv_keeps.
Qed.

(** ** Connecting *)

(** Changing the flags of a connection to which nothing was sent. *)
Lemma conn_sent_fd pc g : ps_packetClosed (pc_side pc) = false → conn_sent (pc_side pc) (pc_writeBuffer pc) [] →
  sf_ssl (g (pc_fd pc)) = sf_ssl (pc_fd pc) → sf_tlsReadWantsWrite (g (pc_fd pc)) = false →
  conn_sent (pc_side (on_fd pc g)) (pc_writeBuffer (on_fd pc g)) [].
Proof.
  unfold conn_sent. intros P S Es Er. rewrite P in S. cbn [pc_side on_fd pc_set_side ps_packetClosed ps_set_conn pc_writeBuffer]. rewrite P. destruct S as [Cf [f [E O Ab C Q A W]]].
  split; [done|]. cbn in A. apply app_nil in A as [A1 A2]. cbn in E. unfold selectFd in E. destruct (c_selectFd (ps_conn (pc_side pc))) eqn:Ec; [|done]. injection E as <-.
  unfold pc_fd, pc_conn in *. exists (g (c_fd (ps_conn (pc_side pc)))). split; [|done| | |done| |].
  - cbn. unfold selectFd. cbn. by rewrite Ec.
  - cbn in *. by rewrite Es.
  - unfold calm. by rewrite Er, andb_false_r, andb_false_r.
  - cbn. unfold pc_stream in *. cbn. rewrite A1, A2. done.
  - intros N. done.
Qed.

Lemma accepted_inv fd io headBuf need : io_open io = true → io_out io = [] → io_tls io = [] →
  cl_inv (MkClientConnection (MkPacketConnection (MkPcSide (listenReady true fd io) false) (new_Recv headBuf need) new_WriteBuffer) wid_empty) ∅ [].
Proof.
  intros Eo E1 E2. split; [intros id; cbn [cc_wantIds]; rewrite wid_find_empty, bool_decide_eq_false_2; set_solver| |by right].
  unfold conn_sent. cbn. split; [done|]. eexists. split; cbn; try done. unfold pc_stream. cbn. by rewrite E2.
Qed.

Lemma br_inv_accept st a c fd io headBuf need : br_inv st a → mt_conns st !! c = None → io_open io = true → io_out io = [] → io_tls io = [] →
  br_inv (connectionFactory st c (MkPacketConnection (MkPcSide (listenReady true fd io) false) (new_Recv headBuf need) new_WriteBuffer)) (ab_join a c).
Proof.
  intros [C L N O K R] E Eo E1 E2. split; cbn; try done.
  - intros d dd. destruct (decide (d = c)) as [->|Nd].
    + rewrite lookup_insert_eq, !fn_lookup_insert. intros [= <-]. by apply accepted_inv.
    + rewrite lookup_insert_ne, !fn_lookup_insert_ne by done. apply C.
  - intros d Hd. destruct (decide (d = c)) as [->|Nd]; [rewrite lookup_insert_eq; by eexists|]. rewrite lookup_insert_ne by done.
    apply elem_of_app in Hd as [Hd|Hd]; [by apply L|]. by apply list_elem_of_singleton in Hd as ->.
  - apply NoDup_app. split_and!; [done| |apply NoDup_singleton]. intros x Hx Hs. apply list_elem_of_singleton in Hs as ->. destruct (L c Hx) as [? ?]. congruence.
  - intros d dd. destruct (decide (d = c)) as [->|Nd]; [intros _ _; apply elem_of_app; right; by apply list_elem_of_singleton|].
    rewrite lookup_insert_ne by done. intros Ed P. apply elem_of_app. left. by eapply O.
Qed.

Lemma br_inv_handshake st a c cc hs pc : br_inv st a → mt_conns st !! c = Some cc → brokerConnClosed cc = false →
  sf_state (pc_fd (cc_pc cc)) = Fd.TlsAccept → connTlsAcceptReady (cc_pc cc) hs = Ok pc → br_inv (set_pc st c cc pc) a.
Proof.
  intros I E P St Eh. pose proof (bi_conns _ _ I c cc E) as Ic. pose proof Ic as [W S Ph]. specialize (Ph P).
  assert (ab_out a c = [] ∧ sf_tlsReadWantsWrite (pc_fd (cc_pc cc)) = false) as [En Er].
  { destruct Ph as [Ph|[_ ?]]; [|done]. unfold isEstablished in Ph. unfold pc_fd, pc_conn in St. rewrite St in Ph. by rewrite andb_false_r in Ph. }
  rewrite En in S. pose proof (conn_sent_open _ _ _ S P) as Sf.
  assert (∃ g, pc = on_fd (cc_pc cc) g ∧ sf_ssl (g (pc_fd (cc_pc cc))) = sf_ssl (pc_fd (cc_pc cc)) ∧ sf_tlsReadWantsWrite (g (pc_fd (cc_pc cc))) = false ∧
    (sf_state (g (pc_fd (cc_pc cc))) = Fd.TlsAccept ∨ sf_state (g (pc_fd (cc_pc cc))) = Fd.TlsEstablished)) as (g & -> & G1 & G2 & G3).
  { unfold connTlsAcceptReady in Eh. destruct (hs_result hs <=? 0).
    - injection Eh as <-. eexists. split; [done|]. cbn. split_and!; [done|exact Er|left; exact St].
    - apply bind_Ok_inv in Eh as (f & _ & [= <-]). eexists (λ f, wantReadSet (set_established f (sf_tlsWantRead f)) true). split; [done|]. cbn. split_and!; [done|exact Er|by right]. }
  apply (br_inv_set st a c cc); [done..| |done|done]. split; [exact W| |].
  - rewrite En. by apply conn_sent_fd.
  - intros _. rewrite En. destruct G3 as [G3|G3]; [right; split_and!; done|left]. unfold isEstablished. cbn. rewrite Sf. unfold pc_fd, pc_conn in G3. by rewrite G3.
Qed.

Lemma br_reach_inv st a : br_reach st a → br_inv st a.
Proof.
  induction 1 as [token|st a c fd io hb need _ I|st a c cc hs pc _ I|st a c cc out pc st' _ I E L Ep C Er|st a c cc st' _ I E L Er].
  - split; cbn; [done|by intros c Hc%elem_of_nil|constructor|done| |done]. split; cbn; [constructor|by intros l Hl%elem_of_nil|done].
  - by apply br_inv_accept.
  - by eapply br_inv_handshake.
  - destruct (client_read_ok st a c cc out pc I E L Ep C) as (st2 & E2 & I2); [|congruence].
    intros buf ->. unfold client_readReady in Er. rewrite E in Er. cbn [deref] in Er. rewrite bind_Ok, Ep, bind_Ok in Er.
    eapply dispatch_readable; [|exact Er]. apply (bi_replay _ _ I).
  - destruct (client_write_ok st a c cc I E L) as (st2 & E2 & I2). congruence.
Qed.

(** C7: In every state of the broker, with clients connecting and sending in any order
    and whatever their descriptors take of each write, as long as no TLS read of a
    client has had to write first and every handler has returned, what an open client's
    descriptor has taken followed by what is queued for it is what the specification
    sends it: for each kind it asked for, the packet published last before, and all
    packets of that kind published since, in order; while something is queued the
    descriptor is waited on.  A closed client has taken a beginning of that. *)
Theorem broker_delivers st a c cc : br_reach st a → mt_conns st !! c = Some cc →
  wf_stream (pc_side (cc_pc cc)) `prefix_of` bytes_all (ab_out a c) ∧
  (brokerConnClosed cc = false → ∃ f, wf_fd (pc_side (cc_pc cc)) = Ok f ∧
    wf_stream (pc_side (cc_pc cc)) ++ rope_bytes (wb_queue (pc_writeBuffer (cc_pc cc))) = bytes_all (ab_out a c) ∧
    (rope_bytes (wb_queue (pc_writeBuffer (cc_pc cc))) ≠ [] → wantWriteGet f = true)).
Proof.
  intros I%br_reach_inv E. destruct (bi_conns _ _ I c cc E) as [_ S _]. unfold conn_sent in S. unfold brokerConnClosed.
  destruct (ps_packetClosed (pc_side (cc_pc cc))); [by destruct S|]. destruct S as [_ [f [Ef _ _ _ _ A W]]]. split; [|intros _; by exists f].
  rewrite <- A. by apply prefix_app_r.
Qed.

(** The broker survives its clients: handling a readable packet from any client in
    any state returns, writing when a descriptor is ready returns, and the state
    that results is one the specification describes, with closed connections off
    the list after a packet was published. *)
Theorem broker_returns st a c cc : br_reach st a → mt_conns st !! c = Some cc → cc_live cc = true →
  (∀ out pc, parsePacket (cc_pc cc) = Ok (out, pc) → calm (pc_fd pc) = true → (∀ buf, out = PPacket buf → readable (set_pc st c cc pc) buf) →
    ∃ st', client_readReady st c = Ok st' ∧ br_reach st' (ab_read a (is_live (set_pc st c cc pc)) c out)) ∧
  (∃ st', client_writeReady st c = Ok st' ∧ br_reach st' a) ∧
  (∀ id buf, msg_id buf = Ok id → ∃ st', resendPacket st buf = Ok st' ∧ ∀ d, d ∈ mt_connList st' ↔ ∃ dd, mt_conns st' !! d = Some dd ∧ brokerConnClosed dd = false).
Proof.
  intros R E L. pose proof (br_reach_inv _ _ R) as I. split_and!.
  - intros out pc Ep C Rd. destruct (client_read_ok st a c cc out pc I E L Ep C Rd) as (st' & E' & _). exists st'. split; [done|]. by eapply br_read.
  - destruct (client_write_ok st a c cc I E L) as (st' & E' & _). exists st'. split; [done|]. by eapply br_write.
  - intros id buf Ei. destruct (resendPacket_ok st a id buf I Ei) as (st' & E' & I' & Op). exists st'. split; [done|]. intros d. split.
    + intros Hd%Op. unfold open_in in Hd. destruct (mt_conns st' !! d) as [dd|]; [|done]. exists dd. split; [done|]. by apply negb_true_iff.
    + intros (dd & Ed & P). by apply (bi_open _ _ I' d dd).
Qed.
End Broker.

(** Packets of a kind kept in a ring of any size: keeping returns, and what is sent
    to a client that asks for the kind are the last packets, as many as the ring has
    places, the oldest first. *)
Theorem retained_in_order `{RopeLib} id n hist : (0 < n)%nat →
  ∃ l, foldl (λ r buf, l ← r; keep l buf) (Ok (MkLast id (Z.of_nat n) (replicate n rope_none) 0 0)) hist = Ok l ∧
    ∀ pc, send_last l pc = send_all (lastn n hist) pc.
Proof.
  intros Hn. assert (∃ l, foldl (λ r buf, l ← r; keep l buf) (Ok (MkLast id (Z.of_nat n) (replicate n rope_none) 0 0)) hist = Ok l ∧ last_at l n hist) as (l & E & A).
  { induction hist as [|buf hist (l & E & A)] using rev_ind.
    - eexists. split; [done|]. split; cbn; try done; [by rewrite length_replicate|by rewrite Nat.Div0.mod_0_l|by rewrite Nat.min_0_r|lia].
    - rewrite foldl_snoc, E, bind_Ok. destruct (keep_at l n hist buf A) as (l' & -> & A' & _). by exists l'. }
  exists l. split; [done|]. intros pc. by apply send_last_at.
Qed.

(** ** Witnesses *)

Lemma retained_in_order_witness : ∃ l, foldl (λ r buf, l ← r; keep l buf) (Ok (MkLast 7 2 [rope_none; rope_none] 0 0)) [rope_none; demo_packet; rope_none] = Ok l ∧
  ∀ pc, send_last l pc = send_all [demo_packet; rope_none] pc.
Proof. apply (retained_in_order 7 2 [rope_none; demo_packet; rope_none]). lia. Defined.

#[local] Program Instance demo_sets : BstSetLib := {
  WantIdSet := gset Z;
  wid_empty := ∅;
  wid_insert s x := {[x]} ∪ s;
  wid_find s x := bool_decide (x ∈ s);
}.
Next Obligation. intros id. apply bool_decide_eq_false_2. set_solver. Qed.
Next Obligation. intros s x y. cbn. apply eq_true_iff_eq. rewrite orb_true_iff, !bool_decide_eq_true. set_solver. Qed.

#[local] Program Instance demo_maps : StructMapLib := {
  StructMap := gmap Z Struct;
  smap_empty := ∅;
  smap_find m x := m !! x;
  smap_put m x s := <[x := s]> m;
}.
Next Obligation. done. Qed.
Next Obligation.
  intros m x s y. cbn. destruct (decide (x = y)) as [->|N]; [by rewrite lookup_insert_eq, bool_decide_eq_true_2|].
  by rewrite lookup_insert_ne, bool_decide_eq_false_2.
Qed.

#[local] Program Instance demo_gen : MainGen := {
  Ping_ID := 1;
  WantId_ID := 2;
  PacketType_ID := 3;
  read_WantId buf := b ← rope_load buf (0, 16)%nat 8; Ok (le_val b);
  read_PacketType buf := Ub;
  packetLowerName id := [id];
}.
Next Obligation. repeat constructor; set_solver. Qed.

(** One read by a client, with what [br_read] asks for. *)
Definition read_fine (st : MainThread) (c : positive) : bool :=
  is_ok (cc ← deref (mt_conns st !! c); '(_, pc) ← parsePacket (cc_pc cc);
    if cc_live cc && calm (pc_fd pc) then client_readReady st c else Ub).

Lemma demo_read st a c : br_reach st a → read_fine st c = true →
  ∃ st' cc out pc, mt_conns st !! c = Some cc ∧ parsePacket (cc_pc cc) = Ok (out, pc) ∧ client_readReady st c = Ok st' ∧
    br_reach st' (ab_read a (is_live (set_pc st c cc pc)) c out).
Proof.
  unfold read_fine. intros R E. destruct (mt_conns st !! c) as [cc|] eqn:Ec; [|done]. cbn [deref] in E. rewrite bind_Ok in E.
  destruct (parsePacket (cc_pc cc)) as [[out pc]| |] eqn:Ep; [|done..]. rewrite bind_Ok in E. destruct (cc_live cc) eqn:L; [|done].
  destruct (calm (pc_fd pc)) eqn:C; [|done]. cbn in E. destruct (client_readReady st c) as [st'| |] eqn:Er; [|done..].
  exists st', cc, out, pc. split_and!; [done..|]. by eapply br_read.
Qed.

Definition demo_want : list Z := [0; 0; 0; 0; 24; 0; 0; 0; 24; 0; 0; 0; 2; 0; 0; 0; 7; 0; 0; 0; 0; 0; 0; 0].
Definition demo_io : Peer := MkPeer true (demo_want ++ demo_block) [] [] (replicate 6 (MkIo 100 0)) [MkIo 12 0].

(** A client that connected; it will ask for the kind it then publishes. *)
Definition demo_broker1 : MainThread :=
  connectionFactory (MkMainThread ∅ [] [] smap_empty [] ∅ false None) 1
    (MkPacketConnection (MkPcSide (listenReady true 5 demo_io) false) (new_Recv (replicate 16 0) 0) new_WriteBuffer).

Definition demo_broker2 : MainThread :=
  match mt_conns demo_broker1 !! 1%positive with
  | Some cc => match connTlsAcceptReady (cc_pc cc) (MkHandshake 1 0 0 false) with Ok pc => set_pc demo_broker1 1 cc pc | _ => demo_broker1 end
  | None => demo_broker1
  end.

(** A fact that evaluates, about a connection. *)
Lemma at_conn {A} (f : ClientConnection → A) st c x cc : (f <$> mt_conns st !! c) = Some x → mt_conns st !! c = Some cc → f cc = x.
Proof. intros E E2. rewrite E2 in E. by injection E. Qed.

Lemma demo_accepted : br_reach demo_broker2 (ab_join ab_none 1).
Proof.
  assert (br_reach demo_broker1 (ab_join ab_none 1)) as R1 by (by apply br_accept; [constructor|..]).
  unfold demo_broker2. destruct (mt_conns demo_broker1 !! 1%positive) as [cc|] eqn:Ec; [|done].
  destruct (connTlsAcceptReady (cc_pc cc) (MkHandshake 1 0 0 false)) as [pc| |] eqn:Ep; [|done..].
  eapply (br_handshake _ _ 1 cc); [exact R1|exact Ec|..|exact Ep].
  - by apply (at_conn brokerConnClosed demo_broker1 1).
  - by apply (at_conn (λ cc, sf_state (pc_fd (cc_pc cc))) demo_broker1 1).
Qed.

Lemma broker_returns_witness : ∃ st cc, br_reach st (ab_join ab_none 1) ∧ mt_conns st !! 1%positive = Some cc ∧
  ∃ st', client_writeReady st 1 = Ok st' ∧ br_reach st' (ab_join ab_none 1).
Proof.
  destruct (mt_conns demo_broker2 !! 1%positive) as [cc|] eqn:E; [|discriminate].
  exists demo_broker2, cc. split; [exact demo_accepted|]. split; [exact E|].
  apply (broker_returns demo_broker2 (ab_join ab_none 1) 1 cc demo_accepted E). by apply (at_conn cc_live demo_broker2 1).
Defined.

(** It is sent its own packet, of which the descriptor takes twelve bytes. *)
Example demo_runs : (st ← client_readReady demo_broker2 1; st' ← client_readReady st 1;
    Ok (read_fine st 1, (λ cc, wf_stream (pc_side (cc_pc cc))) <$> mt_conns st' !! 1%positive)) = Ok (true, Some (take 12 demo_block)).
Proof. vm_compute. reflexivity. Qed.

Lemma broker_delivers_witness : ∃ st a cc, br_reach st a ∧ mt_conns st !! 1%positive = Some cc ∧
  take 12 demo_block `prefix_of` bytes_all (ab_out a 1%positive).
Proof.
  destruct (demo_read demo_broker2 _ 1 demo_accepted) as (st1 & cc1 & out1 & pc1 & _ & _ & E1 & R1); [vm_compute; reflexivity|].
  pose proof demo_runs as Hr. rewrite E1, bind_Ok in Hr. apply bind_Ok_inv in Hr as (st2' & E2' & Hr). apply (f_equal (λ r, match r with Ok x => Some x | _ => None end)), Some_inj in Hr. apply pair_equal_spec in Hr as [Hf Hs].
  destruct (demo_read st1 _ 1 R1 Hf) as (st2 & cc2 & out2 & pc2 & _ & _ & E2 & R2). rewrite E2 in E2'. injection E2' as <-.
  destruct (mt_conns st2 !! 1%positive) as [cc|] eqn:E; [|done]. eexists st2, _, cc. split; [exact R2|]. split; [exact E|].
  change (Some (wf_stream (pc_side (cc_pc cc))) = Some (take 12 demo_block)) in Hs. apply Some_inj in Hs. rewrite <- Hs. apply (broker_delivers st2 _ 1 cc R2 E).
Defined.

(** [recvSetRetain], which no message reaches, changes the number of places but not the
    array: the second packet kept after that goes past its end. *)
Example set_retain_overruns : (ls ← stash_recent [] 7 demo_packet; ls ← recvSetRetain ls 7 2 0;
  ls ← stash_recent ls 7 demo_packet; stash_recent ls 7 demo_packet) = Ub.
Proof. vm_compute. reflexivity. Qed.
