(* ===== verification/Proxy.v ===== *)
(** * tlsproxy/proxy.cc: the TLS proxy

    The proxy stands between a client program and a server.  For each connection it
    accepts it makes one of its own to the server: the end it accepted is the
    [Server] end, the other the [Client] end.  What is read on one end goes into the
    list of blocks of the other, from where it is written, and what was written is
    handed to the parser of decrypted traffic.  TLS to the server begins when the
    connection is there and the client program has said which host it wants. *)

From S2P Require Import Prelude Rope Conn ItQueue Packet ConnState.

Inductive Side := Server | Client.

#[export] Instance side_eq_dec : EqDecision Side.
Proof. solve_decision. Defined.

Definition other (s : Side) : Side := match s with Server => Client | Client => Server end.

(** ** Blocks *)

(** [blocklen] is the length of [data]. *)
Record WriteBlock := MkWriteBlock {
  bl_data : list Z;
  bl_head : Z;
  bl_tail : Z;
}.

Definition bl_blocklen (b : WriteBlock) : Z := Z.of_nat (length (bl_data b)).

Record FdDesc := MkFdDesc {
  fd_wbList : list WriteBlock;
  fd_stop : bool;
  fd_connected : bool;
  fd_haveHostname : bool;
  fd_hostname : list Z;
}.

Definition new_FdDesc : FdDesc := MkFdDesc [] false false false [].

Definition set_wbList (d : FdDesc) (l : list WriteBlock) : FdDesc :=
  MkFdDesc l (fd_stop d) (fd_connected d) (fd_haveHostname d) (fd_hostname d).
Definition set_stop (d : FdDesc) : FdDesc :=
  MkFdDesc (fd_wbList d) true (fd_connected d) (fd_haveHostname d) (fd_hostname d).
Definition set_connected (d : FdDesc) : FdDesc :=
  MkFdDesc (fd_wbList d) (fd_stop d) true (fd_haveHostname d) (fd_hostname d).
Definition set_hostname (d : FdDesc) (h : list Z) : FdDesc :=
  MkFdDesc (fd_wbList d) (fd_stop d) (fd_connected d) true h.

Definition readAvail (d : FdDesc) : Z :=
  match last (fd_wbList d) with Some b => bl_blocklen b - bl_tail b | None => 0 end.

(** Bytes put at [readTo()], and [readIn] of their number. *)
Definition readIn (d : FdDesc) (data : list Z) : res FdDesc :=
  b ← deref (last (fd_wbList d));
  m ← (if bl_tail b <? 0 then Ub else mem_store (bl_data b) (Z.to_nat (bl_tail b)) data);
  Ok (set_wbList d (removelast (fd_wbList d) ++ [MkWriteBlock m (bl_head b) (bl_tail b + Z.of_nat (length data))])).

Definition writeAvail (d : FdDesc) : Z :=
  match head (fd_wbList d) with Some b => bl_tail b - bl_head b | None => 0 end.

(** [n] bytes from [writeFrom()], which is [wbList.head->data + wbList.tail->head]. *)
Definition writeFrom (d : FdDesc) (n : Z) : res (list Z) :=
  h ← deref (head (fd_wbList d));
  t ← deref (last (fd_wbList d));
  if (bl_head t <? 0) || (n <? 0) then Ub else mem_load (bl_data h) (Z.to_nat (bl_head t)) (Z.to_nat n).

Definition consume (d : FdDesc) (amount : Z) : res FdDesc :=
  match fd_wbList d with
  | [] => Ub
  | h :: l =>
      if bl_tail h <=? bl_head h + amount then Ok (set_wbList d l)
      else Ok (set_wbList d (MkWriteBlock (bl_data h) (bl_head h + amount) (bl_tail h) :: l))
  end.

(** ** The two ends *)

Record End := MkEnd {
  e_conn : Connection;
  e_desc : FdDesc;
}.

(** The ends; what was handed to the parser, and by writing to which end; the calls of
    close(2). *)
Record Proxy := MkProxy {
  px_server : End;
  px_client : End;
  px_kdata : list (Side * list Z);
  px_closes : list Side;
}.

Definition end_of (p : Proxy) (s : Side) : End := match s with Server => px_server p | Client => px_client p end.
Definition set_end (p : Proxy) (s : Side) (e : End) : Proxy :=
  match s with
  | Server => MkProxy e (px_client p) (px_kdata p) (px_closes p)
  | Client => MkProxy (px_server p) e (px_kdata p) (px_closes p)
  end.

Abbreviation conn_of p s := (e_conn (end_of p s)).
Abbreviation desc_of p s := (e_desc (end_of p s)).

Definition set_conn (p : Proxy) (s : Side) (c : Connection) : Proxy := set_end p s (MkEnd c (desc_of p s)).
Definition set_desc (p : Proxy) (s : Side) (d : FdDesc) : Proxy := set_end p s (MkEnd (conn_of p s) d).

(** A change of [*proxyConn->selectFd]. *)
Definition on_select (p : Proxy) (s : Side) (g : SelectFd → SelectFd) : res Proxy :=
  f ← selectFd (conn_of p s);
  Ok (set_conn p s (c_set_fd (conn_of p s) (g f))).

Definition set_tlsWantWrite (f : SelectFd) (v : bool) : SelectFd :=
  MkSelectFd (sf_state f) (sf_fd f) (sf_ssl f) (sf_wantRead f) (sf_wantWrite f) (sf_closed f) (sf_tlsWantRead f) v
    (sf_tlsEstablished f) (sf_tlsWriteWantsRead f) (sf_tlsReadWantsWrite f).
Definition set_tlsWantRead (f : SelectFd) (v : bool) : SelectFd :=
  MkSelectFd (sf_state f) (sf_fd f) (sf_ssl f) (sf_wantRead f) (sf_wantWrite f) (sf_closed f) v (sf_tlsWantWrite f)
    (sf_tlsEstablished f) (sf_tlsWriteWantsRead f) (sf_tlsReadWantsWrite f).

(** [closed = true; wantRead = wantWrite = false] *)
Definition shut (f : SelectFd) : SelectFd := set_wants (set_closed f) false false.

Definition add_close (p : Proxy) (s : Side) : Proxy := MkProxy (px_server p) (px_client p) (px_kdata p) (px_closes p ++ [s]).
Definition add_kdata (p : Proxy) (s : Side) (d : list Z) : Proxy := MkProxy (px_server p) (px_client p) (px_kdata p ++ [(s, d)]) (px_closes p).

(** [::close( fd )] of an end. *)
Definition close_end (p : Proxy) (s : Side) : Proxy :=
  let c := conn_of p s in add_close (set_conn p s (c_set_peer c (sys_close (c_peer c)))) s.

(** Both ends are closed. *)
Definition proxyShutdown (p : Proxy) (s : Side) : res Proxy :=
  let p := close_end p s in
  p ← on_select p s shut;
  f ← selectFd (conn_of p (other s));
  let p := if 0 <=? sf_fd f then close_end p (other s) else p in
  p ← on_select p (other s) shut;
  Ok (set_desc p (other s) (set_stop (desc_of p (other s)))).

Section Proxy.
(** What is in a new block. *)
Variable junk : list Z.

Definition addSpace (d : FdDesc) : FdDesc := set_wbList d (fd_wbList d ++ [MkWriteBlock junk 0 0]).

(** The loop of proxyWrite; every turn but the last writes. *)
Fixpoint write_loop (fuel : nat) (p : Proxy) (s : Side) : res Proxy :=
  match fuel with
  | O => Spin
  | S fuel =>
      let d := desc_of p s in
      let length := writeAvail d in
      if length =? 0 then on_select p s (λ f, set_tlsWantWrite f false)
      else
        data ← writeFrom d length;
        '(written, c) ← tlsWrite (conn_of p s) data;
        let p := set_conn p s c in
        if written <? 0 then proxyShutdown p s
        else if written =? 0 then on_select p s (λ f, set_tlsWantWrite f true)
        else
          let p := add_kdata p s (take (Z.to_nat written) data) in
          d ← consume (desc_of p s) written;
          write_loop fuel (set_desc p s d) s
  end.

Definition write_turns (p : Proxy) (s : Side) : nat := length (io_writes (c_peer (conn_of p s))) + 2.

Definition proxyWrite (p : Proxy) (s : Side) : res Proxy :=
  f ← selectFd (conn_of p s);
  if bool_decide (sf_state f ≠ Fd.TlsEstablished) then on_select p s (λ f, set_tlsWantWrite f true)
  else write_loop (write_turns p s) p s.

(** The loop of sslReadReady; every turn but the last reads. *)
Fixpoint read_loop (fuel : nat) (p : Proxy) (s : Side) : res Proxy :=
  match fuel with
  | O => Spin
  | S fuel =>
      let o := desc_of p (other s) in
      let o := if readAvail o =? 0 then addSpace o else o in
      let p := set_desc p (other s) o in
      '(data, nbytes, c) ← tlsRead (conn_of p s) (readAvail o);
      let p := set_conn p s c in
      if nbytes <? 0 then proxyShutdown p s
      else if 0 <? nbytes then
        o ← readIn (desc_of p (other s)) data;
        p ← proxyWrite (set_desc p (other s) o) (other s);
        f ← selectFd (conn_of p s);
        if negb (sf_closed f) then read_loop fuel p s else Ok p
      else Ok p
  end.

Definition read_turns (p : Proxy) (s : Side) : nat := length (io_reads (c_peer (conn_of p s))) + 2.

Definition sslReadReady (p : Proxy) (s : Side) : res Proxy := read_loop (read_turns p s) p s.

(** ** Starting *)

(** ProxyListener::connectionFactory: the accepted end, in its TLS handshake, and the
    connection to the server, [fd] being what inetConnect returned. *)
Definition proxy_start (accepted fd : Z) (io_s io_c : Peer) : Proxy :=
  MkProxy (MkEnd (listenReady true accepted io_s) new_FdDesc) (MkEnd (initiate_addr false fd io_c) new_FdDesc) [] [].

(** TLS to the server starts when both are there. *)
Definition maybeStartTlsClient (p : Proxy) : res Proxy :=
  if fd_connected (desc_of p Client) && fd_haveHostname (desc_of p Server) then
    on_select p Client (λ f, set_state (startTlsClient f) Fd.TlsConnect)
  else Ok p.

(** ProxyThread::serverName; [SSL_set_SSL_CTX] needs the SSL object. *)
Definition serverName (p : Proxy) (host : list Z) : res Proxy :=
  f ← selectFd (conn_of p Server);
  _ ← the_ssl f;
  maybeStartTlsClient (set_desc p Server (set_hostname (desc_of p Server) host)).

(** The socket is connected: connConnectReady, and ProxyConnection::connectComplete. *)
Definition socket_connected (p : Proxy) : res Proxy :=
  p ← on_select p Client (λ f, set_wants (set_state f Fd.Established) true false);
  let p := set_desc p Client (set_connected (desc_of p Client)) in
  p ← on_select p Client (λ f, set_wants (set_state f Fd.Connect) false false);
  maybeStartTlsClient p.

Definition tlsEst (f : SelectFd) : SelectFd := set_tlsWantRead (set_established f (sf_tlsWantRead f)) true.

(** The TLS handshake with the server is done: connTlsConnectReady and connectComplete. *)
Definition tls_connected (p : Proxy) : res Proxy :=
  p ← on_select p Client tlsEst;
  p ← on_select p Client tlsEst;
  sslReadReady p Client.

(** The TLS handshake with the client program is done: connTlsAcceptReady and
    ProxyConnection::notifyAccept. *)
Definition tls_accepted (p : Proxy) : res Proxy :=
  p ← on_select p Server tlsEst;
  sslReadReady p Server.

(** The response for a server that cannot be verified. *)
Variable verifyResponse : list Z.

(** sslPeerFailedVerify, of the client end; strcpy stores the terminator too. *)
Definition sslPeerFailedVerify (p : Proxy) : res Proxy :=
  let o := addSpace (desc_of p Server) in
  b ← deref (last (fd_wbList o));
  m ← mem_store (bl_data b) 0 (verifyResponse ++ [0]);
  o ← readIn (set_wbList o (removelast (fd_wbList o) ++ [MkWriteBlock m (bl_head b) (bl_tail b)])) verifyResponse;
  p ← proxyWrite (set_desc p Server o) Server;
  proxyShutdown p Client.

(** [c->close()], of the client end. *)
Definition close_client (p : Proxy) : Proxy :=
  let c := conn_of p Client in
  let p := set_conn p Client (conn_close c) in
  if c_selectFd c && (0 <=? sf_fd (c_fd c)) then add_close p Client else p.

(** connTlsConnectReady, when the certificate is not valid, and when it is for
    another host: ProxyConnection::failure does something for the first only. *)
Definition verify_failed (p : Proxy) : res Proxy :=
  p ← sslPeerFailedVerify p;
  Ok (close_client p).

Definition host_mismatch (p : Proxy) : Proxy := close_client p.

(** ProxyConnection::readReady and writeReady, as connTlsEstablishedReady calls them. *)
Definition end_readReady (p : Proxy) (s : Side) : res Proxy := _ ← selectFd (conn_of p s); sslReadReady p s.
Definition end_writeReady (p : Proxy) (s : Side) : res Proxy := proxyWrite p s.
End Proxy.
