(* ===== verification/ProxyRun.v ===== *)
(** * The loops of the proxy

    Writing to an end and reading from one, under the assumption that a TLS write goes
    through whole or not at all, which OpenSSL keeps for writes that fit one record,
    and a block does. *)

From S2P Require Import Prelude Rope Conn ItQueue Packet PacketRecv ConnState Proxy.

Abbreviation peer_of p s := (c_peer (conn_of p s)).
Abbreviation fd_of p s := (c_fd (conn_of p s)).

(** What is in the blocks. *)
Definition block_bytes (b : WriteBlock) : list Z := take (Z.to_nat (bl_tail b - bl_head b)) (drop (Z.to_nat (bl_head b)) (bl_data b)).
Definition buffered (d : FdDesc) : list Z := concat (block_bytes <$> fd_wbList d).

(** What was written to an end and what is waiting to be. *)
Definition sent_to (p : Proxy) (s : Side) : list Z := io_tls (peer_of p s) ++ buffered (desc_of p s).

(** What the parser was handed of it. *)
Definition captured (p : Proxy) (s : Side) : list Z := concat (snd <$> filter (λ x, x.1 = s) (px_kdata p)).

Section Run.
Context (junk : list Z) (junk_some : junk ≠ []).

Abbreviation B := (Z.of_nat (length junk)).

Definition block_ok (b : WriteBlock) : Prop := bl_head b = 0 ∧ length (bl_data b) = length junk ∧ 0 ≤ bl_tail b ≤ B.

(** Only the last block can be empty. *)
Record blocks_ok (l : list WriteBlock) : Prop := BlocksOk {
  bo_all : Forall block_ok l;
  bo_full : Forall (λ b, 0 < bl_tail b) (removelast l);
}.

Definition whole_writes (io : Peer) : Prop := Forall (λ e, io_n e ≤ 0 ∨ B ≤ io_n e) (io_writes io).

Definition uses_tls (st : Fd.State) : bool :=
  match st with Fd.TlsAccept | Fd.TlsConnect | Fd.TlsEstablished => true | _ => false end.

Record end_ok (e : End) : Prop := EndOk {
  eo_sel : c_selectFd (e_conn e) = true;
  eo_open : sf_closed (c_fd (e_conn e)) = false;
  eo_blocks : blocks_ok (fd_wbList (e_desc e));
  eo_whole : whole_writes (c_peer (e_conn e));
  eo_ssl : uses_tls (sf_state (c_fd (e_conn e))) = true → sf_ssl (c_fd (e_conn e)) = true;
}.

(** While something is buffered the descriptor is waited on for writing. *)
Definition waits (e : End) : Prop := buffered (e_desc e) ≠ [] → sf_tlsWantWrite (c_fd (e_conn e)) = true.

Definition live (p : Proxy) : Prop := ∀ s, end_ok (end_of p s).
Definition dead (p : Proxy) : Prop := ∀ s, sf_closed (fd_of p s) = true.

(** What moving bytes leaves alone. *)
Record kept (p p' : Proxy) : Prop := Kept {
  kp_in : ∀ s, io_in (peer_of p' s) = io_in (peer_of p s);
  kp_reads : ∀ s, io_reads (peer_of p' s) = io_reads (peer_of p s);
  kp_sent : ∀ s, sent_to p' s = sent_to p s;
  kp_captured : ∀ s, captured p s = io_tls (peer_of p s) → captured p' s = io_tls (peer_of p' s);
  kp_state : ∀ s, sf_state (fd_of p' s) = sf_state (fd_of p s);
  kp_connected : ∀ s, fd_connected (desc_of p' s) = fd_connected (desc_of p s);
  kp_hostname : ∀ s, fd_haveHostname (desc_of p' s) = fd_haveHostname (desc_of p s);
  kp_empty : ∀ s, fd_wbList (desc_of p s) = [] → fd_wbList (desc_of p' s) = [];
}.

#[export] Instance kept_preorder : PreOrder kept.
Proof.
  split.
  - by split.
  - intros x y z [] []. split; intros s; try congruence; auto.
Qed.

(** ** Getting and setting *)

Lemma other_other s : other (other s) = s.
Proof. by destruct s. Qed.
Lemma other_ne s : other s ≠ s.
Proof. by destruct s. Qed.

Lemma end_set_eq p s e : end_of (set_end p s e) s = e.
Proof. by destruct s. Qed.
Lemma end_set_ne p s t e : s ≠ t → end_of (set_end p s e) t = end_of p t.
Proof. by destruct s, t. Qed.
Lemma kdata_set p s e : px_kdata (set_end p s e) = px_kdata p.
Proof. by destruct s. Qed.
Lemma end_close p s t : end_of (add_close p s) t = end_of p t.
Proof. by destruct t. Qed.
Lemma end_kdata p s d t : end_of (add_kdata p s d) t = end_of p t.
Proof. by destruct t. Qed.

Lemma sides s t : t = s ∨ t = other s.
Proof. destruct s, t; cbn; auto. Qed.

(** ** Blocks *)

Lemma blocks_ok_tail b l : blocks_ok (b :: l) → blocks_ok l.
Proof.
  intros [[_ A]%Forall_cons F]. split; [done|]. destruct l as [|c l]; [done|]. cbn in F. apply Forall_cons in F. by destruct F.
Qed.

Lemma blocks_ok_space l : blocks_ok l → Forall (λ b, 0 < bl_tail b) l → blocks_ok (l ++ [MkWriteBlock junk 0 0]).
Proof.
  intros [A F] N. split.
  - apply Forall_app. split; [done|]. constructor; [|done]. split_and!; cbn; lia.
  - by rewrite removelast_last.
Qed.

Lemma block_bytes_ok b : block_ok b → block_bytes b = take (Z.to_nat (bl_tail b)) (bl_data b).
Proof. intros (E & _). unfold block_bytes. rewrite E. by rewrite Z.sub_0_r. Qed.

Lemma block_bytes_length b : block_ok b → Z.of_nat (length (block_bytes b)) = bl_tail b.
Proof. intros Hb. rewrite block_bytes_ok by done. destruct Hb as (_ & L & R). rewrite length_take. lia. Qed.

(** The first block is what is written next. *)
Lemma write_head d b l : blocks_ok (fd_wbList d) → fd_wbList d = b :: l →
  writeAvail d = Z.of_nat (length (block_bytes b)) ∧ writeFrom d (writeAvail d) = Ok (block_bytes b).
Proof.
  intros O E. assert (block_ok b) as Hb by (rewrite E in O; destruct O as [[? _]%Forall_cons _]; done).
  assert (writeAvail d = bl_tail b) as Ea. { unfold writeAvail. rewrite E. cbn. destruct Hb as [-> _]. lia. }
  rewrite Ea, block_bytes_length by done. split; [done|]. unfold writeFrom. rewrite E. cbn [head deref]. rewrite bind_Ok.
  destruct (last (b :: l)) as [t|] eqn:Et; [|by apply last_None in Et]. cbn [deref]. rewrite bind_Ok.
  assert (bl_head t = 0) as ->. { rewrite E in O. apply last_Some in Et as [l' El]. rewrite El in O. destruct O as [[_ [T _]%Forall_cons]%Forall_app _]. apply T. }
  destruct (Z.ltb_spec (bl_tail b) 0); [destruct Hb; lia|]. cbn [orb]. change (0 <? 0) with false. cbn [orb].
  unfold mem_load. rewrite decide_True by (destruct Hb as (_ & ? & ?); lia). cbn. rewrite drop_0. by rewrite block_bytes_ok.
Qed.

(** Having written the whole of it. *)
Lemma consume_head_block d b l : blocks_ok (fd_wbList d) → fd_wbList d = b :: l →
  consume d (Z.of_nat (length (block_bytes b))) = Ok (set_wbList d l).
Proof.
  intros O E. assert (block_ok b) as Hb by (rewrite E in O; destruct O as [[? _]%Forall_cons _]; done).
  unfold consume. rewrite E, block_bytes_length by done. destruct Hb as [-> _]. by rewrite Z.add_0_l, Z.leb_refl.
Qed.

Lemma buffered_cons d b l : fd_wbList d = b :: l → buffered d = block_bytes b ++ buffered (set_wbList d l).
Proof. intros E. unfold buffered. by rewrite E. Qed.

(** Nothing to write: nothing is buffered. *)
Lemma write_nothing d : blocks_ok (fd_wbList d) → writeAvail d = 0 → buffered d = [].
Proof.
  intros O. destruct (fd_wbList d) as [|b l] eqn:E; [intros _; unfold buffered; by rewrite E|].
  intros Ea. rewrite <- E in O. destruct (write_head d b l O E) as [Ea' _]. rewrite Ea' in Ea. rewrite E in O.
  destruct l as [|c l].
  - rewrite (buffered_cons d b []) by done. cbn. rewrite app_nil_r. apply nil_length_inv. lia.
  - exfalso. destruct O as [[Hb _]%Forall_cons F]. cbn in F. apply Forall_cons in F as [F _]. rewrite block_bytes_length in Ea by done. lia.
Qed.

Lemma readAvail_ok d : blocks_ok (fd_wbList d) → 0 ≤ readAvail d ∧ (readAvail d = 0 → Forall (λ b, 0 < bl_tail b) (fd_wbList d)).
Proof.
  intros O. assert (0 < B) as Hj by (destruct junk; [done|cbn; lia]). unfold readAvail. destruct (last (fd_wbList d)) as [b|] eqn:El.
  - apply last_Some in El as [l El]. rewrite El in *. destruct O as [[_ [(_ & Lb & Tb) _]%Forall_cons]%Forall_app F]. rewrite removelast_last in F.
    unfold bl_blocklen. rewrite Lb. split; [lia|]. intros Z. apply Forall_app. split; [done|]. constructor; [lia|done].
  - apply last_None in El as ->. done.
Qed.

(** Room for what is read next. *)
Lemma room_ok d : blocks_ok (fd_wbList d) → let d' := if readAvail d =? 0 then addSpace junk d else d in
  blocks_ok (fd_wbList d') ∧ buffered d' = buffered d ∧ 0 < readAvail d' ∧ fd_connected d' = fd_connected d ∧ fd_haveHostname d' = fd_haveHostname d.
Proof.
  intros O. assert (0 < B) as Hj by (destruct junk; [done|cbn; lia]). destruct (readAvail_ok d O) as [Hr Hf]. cbv zeta.
  destruct (Z.eqb_spec (readAvail d) 0) as [Z|Z]; [|split_and!; [done..|lia|done|done]]. split_and!; [| | |done..].
  - apply blocks_ok_space; auto.
  - unfold buffered. cbn. rewrite fmap_app, concat_app. cbn. unfold block_bytes at 2. cbn. by rewrite app_nil_r.
  - unfold readAvail. cbn. rewrite last_snoc. unfold bl_blocklen. cbn. lia.
Qed.

(** Bytes read into the last block. *)
Lemma readIn_ok d data : blocks_ok (fd_wbList d) → data ≠ [] → 0 < readAvail d → Z.of_nat (length data) ≤ readAvail d →
  ∃ d', readIn d data = Ok d' ∧ blocks_ok (fd_wbList d') ∧ buffered d' = buffered d ++ data ∧
    fd_connected d' = fd_connected d ∧ fd_haveHostname d' = fd_haveHostname d.
Proof.
  intros O N Hr Hl. unfold readAvail in Hr, Hl. destruct (last (fd_wbList d)) as [b|] eqn:El; [|lia]. unfold readIn. rewrite El. cbn [deref]. rewrite bind_Ok.
  apply last_Some in El as [l El]. rewrite El in O. assert (block_ok b) as Hb by (destruct O as [[_ [? _]%Forall_cons]%Forall_app _]; done).
  pose proof Hb as (Hh & Lb & Tb). unfold bl_blocklen in *. destruct (Z.ltb_spec (bl_tail b) 0); [lia|]. rewrite mem_store_fits, bind_Ok by lia.
  eexists. split; [done|]. rewrite El, removelast_last. cbn [fd_wbList set_wbList]. set (b' := MkWriteBlock _ _ _).
  assert (block_ok b') as Hb'. { split_and!; [done| |cbn; lia..]. cbn. rewrite !length_app, length_take, length_drop. lia. }
  split_and!; [|..|done|done].
  - destruct O as [[A _]%Forall_app F]. split; [apply Forall_app; split; [done|by constructor]|]. rewrite removelast_last in *. done.
  - unfold buffered. cbn [fd_wbList set_wbList]. rewrite El, !fmap_app, !concat_app. cbn. rewrite !app_nil_r, <- app_assoc. f_equal.
    rewrite !block_bytes_ok by done. cbn [bl_tail bl_data b']. rewrite app_assoc, take_app_le by (rewrite length_app, length_take; lia).
    rewrite take_app_ge by (rewrite length_take; lia). f_equal. rewrite length_take. apply take_ge. lia.
Qed.

(** ** TLS *)

Ltac nothing_written := first [done|by left|by right; left|cbn; by rewrite ?app_nil_r].

(** A write of some bytes that fit a block. *)
Lemma tlsWrite_whole c data : c_selectFd c = true → sf_ssl (c_fd c) = true → whole_writes (c_peer c) → data ≠ [] → Z.of_nat (length data) ≤ B →
  ∃ n c', tlsWrite c data = Ok (n, c') ∧ (n < 0 ∨ n = 0 ∨ n = Z.of_nat (length data) ∧ (length (io_writes (c_peer c')) < length (io_writes (c_peer c)))%nat) ∧
    io_tls (c_peer c') = io_tls (c_peer c) ++ take (Z.to_nat n) data ∧ c_selectFd c' = true ∧
    c_fd c' = set_tlsWriteWantsRead (c_fd c) (sf_tlsWriteWantsRead (c_fd c')) ∧
    io_in (c_peer c') = io_in (c_peer c) ∧ io_reads (c_peer c') = io_reads (c_peer c) ∧ whole_writes (c_peer c').
Proof.
  intros Es Hs Hw N Hl. destruct c as [f sel tls cl io]. cbn in Es, Hs. subst sel. unfold tlsWrite, selectFd. cbn [c_selectFd c_fd c_peer] in *.
  destruct (Z.leb_spec (Z.of_nat (length data)) 0) as [Hz|Hpos]; [destruct data; [done|cbn in Hz; lia]|].
  rewrite bind_Ok. unfold the_ssl. cbn [set_tlsWriteWantsRead sf_ssl]. rewrite Hs, bind_Ok. unfold SSL_write, next_write. destruct (io_open io); cbn [negb].
  2: { cbn. eexists _, _. split; [done|]. split_and!; nothing_written. }
  unfold whole_writes in Hw. destruct (io_writes io) as [|e rest] eqn:Ew.
  { cbn. eexists _, _. split; [done|]. split_and!; try nothing_written. unfold whole_writes. cbn. by rewrite Ew. }
  apply Forall_cons in Hw as [He Hw]. destruct (Z.leb_spec (io_n e) 0) as [Hn|Hn].
  - destruct (Z.leb_spec (io_n e) 0); [|lia]. replace (Z.to_nat (io_n e)) with 0%nat by lia.
    repeat case_match; eexists _, _; (split; [done|]); (split_and!; nothing_written).
  - rewrite Z.min_r by lia. destruct (Z.leb_spec (Z.of_nat (length data)) 0); [lia|]. eexists _, _. split; [done|]. cbn. split_and!; try done. right; right. split; [done|]. rewrite ?Ew. cbn. lia.
Qed.

(** A read into a place of [len] bytes. *)
Lemma tlsRead_ok c len : c_selectFd c = true → sf_ssl (c_fd c) = true → 0 < len →
  ∃ data n c', tlsRead c len = Ok (data, n, c') ∧ c_selectFd c' = true ∧ c_fd c' = set_tlsReadWantsWrite (c_fd c) (sf_tlsReadWantsWrite (c_fd c')) ∧
    io_tls (c_peer c') = io_tls (c_peer c) ∧ io_writes (c_peer c') = io_writes (c_peer c) ∧
    (n ≤ 0 ∧ io_in (c_peer c') = io_in (c_peer c) ∨
     0 < n ≤ len ∧ n = Z.of_nat (length data) ∧ io_in (c_peer c) = data ++ io_in (c_peer c') ∧ (length (io_reads (c_peer c')) < length (io_reads (c_peer c)))%nat).
Proof.
  intros Es Hs L. destruct c as [f sel tls cl io]. cbn in Es, Hs. subst sel. unfold tlsRead, selectFd, the_ssl. cbn [c_selectFd c_fd c_peer]. rewrite bind_Ok.
  cbn [set_tlsReadWantsWrite sf_ssl]. rewrite Hs, bind_Ok. destruct (sys_read_ok SSL_ERROR_WANT_READ io len L) as (d & n & err & io' & -> & _ & _ & Et & Ew & D).
  destruct (Z.ltb_spec 0 n) as [Hn|Hn].
  - destruct D as [(? & _)|D]; [lia|]. eexists _, _, _. split; [done|]. cbn. split_and!; try done. by right.
  - destruct D as [(_ & D & _)|[? _]]; [|lia]. repeat case_match; eexists _, _, _; (split; [done|]); cbn; (split_and!; try done); left; (split; [lia|done]).
Qed.

(** ** Shutting down *)

Lemma shutdown_ok p s : (∀ t, c_selectFd (conn_of p t) = true) → ∃ p', proxyShutdown p s = Ok p' ∧ kept p p' ∧ dead p' ∧ (∀ t, c_selectFd (conn_of p' t) = true).
Proof.
  intros Hs. pose proof (Hs Server) as H1. pose proof (Hs Client) as H2. destruct p as [[[f1 x1 t1 c1 i1] d1] [[f2 x2 t2 c2 i2] d2] kd cl]. cbn in H1, H2. subst x1 x2.
  destruct s; unfold proxyShutdown, close_end, on_select, selectFd; cbn [end_of set_conn set_end add_close px_server px_client e_conn e_desc c_selectFd c_fd c_set_fd c_set_peer other mbind res_bind];
    case_match; (eexists; split; [done|]); (split; [split; intros []; done|split; intros []; done]).
Qed.

(** ** Writing *)

Lemma captured_kdata p s d t : captured (add_kdata p s d) t = if decide (t = s) then captured p t ++ d else captured p t.
Proof.
  unfold captured. cbn. rewrite filter_app, fmap_app, concat_app, filter_cons, filter_nil. cbn.
  destruct (decide (t = s)) as [->|N].
  - rewrite decide_True by done. cbn. by rewrite app_nil_r.
  - rewrite decide_False by congruence. cbn. by rewrite app_nil_r.
Qed.

Lemma live_set p s e : live p → end_ok e → live (set_end p s e).
Proof. intros L E t. destruct (decide (s = t)) as [->|N]; [by rewrite end_set_eq|by rewrite end_set_ne]. Qed.

(** A change of flags that writing makes. *)
Lemma on_select_ok p s g : live p → sf_closed (g (fd_of p s)) = false → sf_ssl (g (fd_of p s)) = sf_ssl (fd_of p s) → sf_state (g (fd_of p s)) = sf_state (fd_of p s) →
  ∃ p', on_select p s g = Ok p' ∧ kept p p' ∧ live p' ∧ fd_of p' s = g (fd_of p s) ∧ desc_of p' s = desc_of p s ∧ end_of p' (other s) = end_of p (other s) ∧
    peer_of p' s = peer_of p s.
Proof.
  intros L Ec Es Et. pose proof (L s) as [S O Bo W Sl]. unfold on_select, selectFd. rewrite S, bind_Ok. eexists. split; [done|].
  unfold set_conn. rewrite end_set_eq, end_set_ne by (intros E; by apply (other_ne s)). split_and!; [| |done..].
  - split; intros t; destruct (decide (s = t)) as [<-|N]; unfold sent_to, captured; rewrite ?kdata_set, ?end_set_eq, ?end_set_ne by done; done.
  - apply live_set; [done|]. split; cbn; try done. intros U. rewrite Es. apply Sl. by rewrite <- Et.
Qed.

(** One block written. *)
Definition wrote (p : Proxy) (s : Side) (c : Connection) (data : list Z) (d : FdDesc) : Proxy :=
  set_desc (add_kdata (set_conn p s c) s data) s d.

Lemma wrote_ok p s b l c' : live p → fd_wbList (desc_of p s) = b :: l →
  io_tls (c_peer c') = io_tls (peer_of p s) ++ block_bytes b → c_selectFd c' = true →
  c_fd c' = set_tlsWriteWantsRead (fd_of p s) (sf_tlsWriteWantsRead (c_fd c')) →
  io_in (c_peer c') = io_in (peer_of p s) → io_reads (c_peer c') = io_reads (peer_of p s) → whole_writes (c_peer c') →
  let p' := wrote p s c' (block_bytes b) (set_wbList (desc_of p s) l) in
  kept p p' ∧ live p' ∧ end_of p' s = MkEnd c' (set_wbList (desc_of p s) l) ∧ end_of p' (other s) = end_of p (other s).
Proof.
  intros L El Et Sc Ef Ei Er Ww p'. pose proof (L s) as [S O Bo W Sl].
  assert (end_of p' s = MkEnd c' (set_wbList (desc_of p s) l)) as E1.
  { unfold p', wrote, set_desc, set_conn. by rewrite end_set_eq, end_kdata, end_set_eq. }
  assert (∀ t, s ≠ t → end_of p' t = end_of p t) as E2.
  { intros t N. unfold p', wrote, set_desc, set_conn. by rewrite end_set_ne, end_kdata, end_set_ne. }
  assert (∀ t, captured p' t = if decide (t = s) then captured p t ++ block_bytes b else captured p t) as Ec.
  { intros t. unfold p', wrote, set_desc. unfold captured at 1. rewrite kdata_set. change (concat _) with (captured (add_kdata (set_conn p s c') s (block_bytes b)) t).
    rewrite captured_kdata. unfold captured, set_conn. by rewrite kdata_set. }
  split_and!; [| |done|apply E2; intros E; by apply (other_ne s)].
  - split; intros t; rewrite ?Ec; unfold sent_to; (destruct (decide (s = t)) as [<-|N]; [rewrite E1; cbn|rewrite E2 by done; try done]); try done.
    + rewrite Et, <- app_assoc. by rewrite (buffered_cons _ b l).
    + rewrite decide_True, Et by done. by intros ->.
    + rewrite decide_False by congruence. done.
    + by rewrite Ef.
    + by rewrite El.
  - intros t. destruct (decide (s = t)) as [<-|N]; [rewrite E1|rewrite E2 by done; apply L]. split; cbn; try done.
    + by rewrite Ef.
    + rewrite El in Bo. by apply blocks_ok_tail in Bo.
    + by rewrite Ef.
Qed.

Lemma write_loop_ok fuel p s : live p → sf_state (fd_of p s) = Fd.TlsEstablished → (length (io_writes (peer_of p s)) < fuel)%nat →
  ∃ p', write_loop fuel p s = Ok p' ∧ kept p p' ∧ (∀ t, c_selectFd (conn_of p' t) = true) ∧
    (dead p' ∨ live p' ∧ waits (end_of p' s) ∧ end_of p' (other s) = end_of p (other s)).
Proof.
  revert p. induction fuel as [|fuel IH]; intros p L St Hf; [lia|]. cbn [write_loop]. pose proof (L s) as [S O Bo W Sl].
  destruct (Z.eqb_spec (writeAvail (desc_of p s)) 0) as [Z|Z].
  { destruct (on_select_ok p s (λ f, set_tlsWantWrite f false) L O eq_refl eq_refl) as (p' & E & K & L' & Ef & Ed & Eo & _). exists p'. split; [exact E|]. split_and!; [done|intros t; apply (L' t)|].
    right. split_and!; [done| |done]. intros N. exfalso. apply N. rewrite Ed. by apply write_nothing. }
  destruct (fd_wbList (desc_of p s)) as [|b l] eqn:El; [exfalso; apply Z; unfold writeAvail; by rewrite El|].
  assert (blocks_ok (fd_wbList (desc_of p s))) as Bo' by (by rewrite El). destruct (write_head _ b l Bo' El) as [Ea Ef]. rewrite Ef, bind_Ok.
  assert (block_ok b) as Hb by (by destruct Bo as [[? _]%Forall_cons _]). pose proof (block_bytes_length b Hb) as Lb. destruct Hb as (_ & _ & Hb).
  destruct (tlsWrite_whole (conn_of p s) (block_bytes b)) as (n & c' & Ew & Cn & Et & Sc & Ec & Ei & Er & Ww); [done|apply Sl; by rewrite St|done|intros Eb; rewrite Eb in *; cbn in *; lia|lia|].
  rewrite Ew, bind_Ok.
  assert (n ≤ 0 → kept p (set_conn p s c') ∧ live (set_conn p s c') ∧ end_of (set_conn p s c') (other s) = end_of p (other s)) as Stay.
  { intros Hn. replace (Z.to_nat n) with 0%nat in Et by lia. rewrite take_0, app_nil_r in Et. split_and!; [| |apply end_set_ne; intros E; by apply (other_ne s)].
    - unfold set_conn. split; intros t; destruct (decide (s = t)) as [<-|N]; unfold sent_to, captured; rewrite ?kdata_set, ?end_set_eq, ?end_set_ne by done; cbn; try rewrite Et; try rewrite Ec; done.
    - apply live_set; [done|]. split; cbn; try rewrite Ec; try rewrite El; done. }
  destruct (Z.ltb_spec n 0) as [Hn|Hn]; [|destruct (Z.eqb_spec n 0) as [->|Nz]].
  - destruct (Stay ltac:(lia)) as (K1 & L1 & _). destruct (shutdown_ok (set_conn p s c') s) as (p' & E & K & D & Sel); [intros t; apply (L1 t)|].
    exists p'. split; [done|]. split_and!; [by etrans|done|by left].
  - destruct (Stay ltac:(lia)) as (K1 & L1 & Eo1).
    destruct (on_select_ok (set_conn p s c') s (λ f, set_tlsWantWrite f true) L1 (eo_open _ (L1 s)) eq_refl eq_refl) as (p' & E & K & L' & Ef' & _ & Eo & _).
    exists p'. split; [exact E|]. split_and!; [by etrans|intros t; apply (L' t)|]. right. split_and!; [done| |congruence]. intros _. by rewrite Ef'.
  - destruct Cn as [?|[?|[-> Hw]]]; [lia..|]. rewrite Nat2Z.id, firstn_all in Et. rewrite Nat2Z.id, firstn_all.
    unfold set_conn at 2. rewrite end_kdata, end_set_eq. cbn [e_desc]. rewrite (consume_head_block _ b l Bo' El), bind_Ok.
    destruct (wrote_ok p s b l c' L El Et Sc Ec Ei Er Ww) as (K1 & L1 & E1 & Eo1). fold (wrote p s c' (block_bytes b) (set_wbList (desc_of p s) l)).
    destruct (IH (wrote p s c' (block_bytes b) (set_wbList (desc_of p s) l)) L1) as (p' & E' & K' & Sel' & D'); [by rewrite (kp_state _ _ K1)|rewrite E1; cbn; lia|].
    exists p'. split; [exact E'|]. split_and!; [by etrans|done|]. destruct D' as [?|(? & ? & ?)]; [by left|right]. split_and!; [done..|congruence].
Qed.

Lemma proxyWrite_ok p s : live p → ∃ p', proxyWrite p s = Ok p' ∧ kept p p' ∧ (∀ t, c_selectFd (conn_of p' t) = true) ∧
  (dead p' ∨ live p' ∧ waits (end_of p' s) ∧ end_of p' (other s) = end_of p (other s)).
Proof.
  intros L. pose proof (L s) as [S O Bo W Sl]. unfold proxyWrite, selectFd at 1. rewrite S, bind_Ok. case_bool_decide as St.
  - destruct (on_select_ok p s (λ f, set_tlsWantWrite f true) L O eq_refl eq_refl) as (p' & E & K & L' & Ef & _ & Eo & _). exists p'. split; [exact E|].
    split_and!; [done|intros t; apply (L' t)|]. right. split_and!; [done| |done]. intros _. by rewrite Ef.
  - apply write_loop_ok; [done|by destruct (decide (sf_state (fd_of p s) = Fd.TlsEstablished))|]. unfold write_turns. lia.
Qed.

(** ** Reading *)

(** The bytes [rd] were read from an end and sent to the other. *)
Record moved (s : Side) (rd : list Z) (p p' : Proxy) : Prop := Moved {
  mv_in : io_in (peer_of p s) = rd ++ io_in (peer_of p' s);
  mv_in_other : io_in (peer_of p' (other s)) = io_in (peer_of p (other s));
  mv_sent : sent_to p' (other s) = sent_to p (other s) ++ rd;
  mv_sent_own : sent_to p' s = sent_to p s;
  mv_captured : ∀ t, captured p t = io_tls (peer_of p t) → captured p' t = io_tls (peer_of p' t);
  mv_state : ∀ t, sf_state (fd_of p' t) = sf_state (fd_of p t);
  mv_connected : ∀ t, fd_connected (desc_of p' t) = fd_connected (desc_of p t);
  mv_hostname : ∀ t, fd_haveHostname (desc_of p' t) = fd_haveHostname (desc_of p t);
  mv_empty : fd_wbList (desc_of p s) = [] → fd_wbList (desc_of p' s) = [];
}.

Lemma kept_moved s p p' : kept p p' → moved s [] p p'.
Proof. intros []. split; try done; [by rewrite kp_in0|by rewrite app_nil_r|apply kp_empty0]. Qed.

Lemma moved_trans s r1 r2 x y z : moved s r1 x y → moved s r2 y z → moved s (r1 ++ r2) x z.
Proof.
  intros [A1 A2 A3 A4 A5 A6 A7 A8 A9] [B1 B2 B3 B4 B5 B6 B7 B8 B9]. split; [by rewrite A1, B1, app_assoc|congruence|by rewrite B3, A3, app_assoc|congruence|auto| | | |by intros ?; apply B9, A9];
    intros t; [by rewrite B6|by rewrite B7|by rewrite B8].
Qed.

(** One read: the two ends after it. *)
Definition after_read (p : Proxy) (s : Side) (c : Connection) (o : FdDesc) : Proxy :=
  set_conn (set_desc p (other s) o) s c.

Lemma after_read_ends p s c o : end_of (after_read p s c o) s = MkEnd c (desc_of p s) ∧ end_of (after_read p s c o) (other s) = MkEnd (conn_of p (other s)) o ∧
  px_kdata (after_read p s c o) = px_kdata p.
Proof. by destruct s. Qed.

(** Bytes in the other end's blocks that came off this end's descriptor. *)
Lemma after_read_moved p s c o rd : live p → c_selectFd c = true → c_fd c = set_tlsReadWantsWrite (fd_of p s) (sf_tlsReadWantsWrite (c_fd c)) →
  io_tls (c_peer c) = io_tls (peer_of p s) → io_writes (c_peer c) = io_writes (peer_of p s) → io_in (peer_of p s) = rd ++ io_in (c_peer c) →
  blocks_ok (fd_wbList o) → buffered o = buffered (desc_of p (other s)) ++ rd →
  fd_connected o = fd_connected (desc_of p (other s)) → fd_haveHostname o = fd_haveHostname (desc_of p (other s)) →
  moved s rd p (after_read p s c o) ∧ live (after_read p s c o) ∧ (waits (end_of p s) → waits (end_of (after_read p s c o) s)).
Proof.
  intros L Sc Ef Et Ew Ei Bo Eb H1 H2. destruct (after_read_ends p s c o) as (E1 & E2 & Ek). pose proof (L s) as [S O B1 W Sl]. pose proof (L (other s)) as [S' O' B' W' Sl'].
  split_and!.
  - split; unfold sent_to, captured; rewrite ?Ek; try (rewrite E1; cbn; done); try (rewrite E2; cbn; done).
    + rewrite E2. cbn. by rewrite Eb, app_assoc.
    + rewrite E1. cbn. by rewrite Et.
    + intros t. destruct (sides s t) as [->| ->]; [rewrite E1; cbn; by rewrite Et|by rewrite E2].
    + intros t. destruct (sides s t) as [->| ->]; [rewrite E1; cbn; by rewrite Ef|by rewrite E2].
    + intros t. destruct (sides s t) as [->| ->]; [by rewrite E1|by rewrite E2].
    + intros t. destruct (sides s t) as [->| ->]; [by rewrite E1|by rewrite E2].
  - intros t. destruct (sides s t) as [->| ->].
    + rewrite E1. split; cbn; try done; [by rewrite Ef|unfold whole_writes; by rewrite Ew|by rewrite Ef].
    + rewrite E2. by split.
  - unfold waits. rewrite E1. cbn. by rewrite Ef.
Qed.

Lemma read_loop_ok fuel p s : live p → (∀ t, waits (end_of p t)) → sf_state (fd_of p s) = Fd.TlsEstablished → (length (io_reads (peer_of p s)) < fuel)%nat →
  ∃ p' rd, read_loop junk fuel p s = Ok p' ∧ moved s rd p p' ∧ (∀ t, c_selectFd (conn_of p' t) = true) ∧ (dead p' ∨ live p' ∧ ∀ t, waits (end_of p' t)).
Proof.
  revert p. induction fuel as [|fuel IH]; intros p L Wt St Hf; [lia|]. cbn [read_loop]. pose proof (L s) as [S O Bo W Sl].
  destruct (room_ok (desc_of p (other s)) (eo_blocks _ (L (other s)))) as (Bo' & Eb & Hr & H1 & H2). set (o := if readAvail _ =? 0 then _ else _) in *.
  assert (end_of (set_desc p (other s) o) s = end_of p s) as Es by (by destruct s). rewrite Es.
  destruct (tlsRead_ok (conn_of p s) (readAvail o)) as (data & n & c' & -> & Sc & Ef & Et & Ew & D); [done|apply Sl; by rewrite St|done|]. rewrite bind_Ok.
  change (set_conn (set_desc p (other s) o) s c') with (after_read p s c' o). destruct D as [[Hn Ei]|(Hn & -> & Ei & Hl)].
  - destruct (after_read_moved p s c' o [] L Sc Ef Et Ew) as (M & L' & Wt'); [by rewrite Ei|done|by rewrite app_nil_r|done..|].
    destruct (Z.ltb_spec n 0); [|destruct (Z.ltb_spec 0 n); [lia|]].
    + destruct (shutdown_ok (after_read p s c' o) s) as (p' & E & K & Dd & Sel); [intros t; apply (L' t)|]. exists p', []. split; [done|]. split_and!; [|done|by left].
      apply (moved_trans s [] []) with (after_read p s c' o); [done|by apply kept_moved].
    + exists (after_read p s c' o), []. split_and!; [done..|intros t; apply (L' t)|]. right. split; [done|]. intros t. destruct (sides s t) as [->| ->]; [by apply Wt'|].
      destruct (after_read_ends p s c' o) as (_ & E2 & _). rewrite E2. unfold waits. cbn. rewrite Eb. apply (Wt (other s)).
  - destruct (Z.ltb_spec (Z.of_nat (length data)) 0); [lia|]. destruct (Z.ltb_spec 0 (Z.of_nat (length data))); [|lia].
    assert (desc_of (after_read p s c' o) (other s) = o) as -> by (by destruct (after_read_ends p s c' o) as (_ & -> & _)).
    destruct (readIn_ok o data Bo') as (o2 & -> & Bo2 & Eb2 & H3 & H4); [by intros ->|done|lia|]. rewrite bind_Ok.
    assert (set_desc (after_read p s c' o) (other s) o2 = after_read p s c' o2) as -> by (by destruct s).
    destruct (after_read_moved p s c' o2 data L Sc Ef Et Ew Ei Bo2) as (M & L' & Wt'); [by rewrite Eb2, Eb|congruence..|].
    destruct (proxyWrite_ok (after_read p s c' o2) (other s) L') as (p1 & -> & K1 & Sel1 & D1). rewrite bind_Ok. unfold selectFd. rewrite (Sel1 s), bind_Ok.
    assert (moved s data p p1) as M1 by (rewrite <- (app_nil_r data); eapply moved_trans; [exact M|by apply kept_moved]).
    destruct D1 as [Dd|(L1 & W1 & Eo)]; [rewrite (Dd s); cbn; exists p1, data; split_and!; [done..|by left]|]. rewrite (eo_open _ (L1 s)). cbn [negb]. rewrite other_other in Eo.
    destruct (IH p1 L1) as (p' & rd & E & M2 & Sel2 & D2).
    { intros t. destruct (sides s t) as [->| ->]; [rewrite Eo; by apply Wt'|done]. }
    { by rewrite (mv_state _ _ _ _ M1). }
    { rewrite (kp_reads _ _ K1). destruct (after_read_ends p s c' o2) as (E1 & _ & _). rewrite E1. cbn. lia. }
    exists p', (data ++ rd). split_and!; [done|by eapply moved_trans|done|done].
Qed.

Lemma sslReadReady_ok p s : live p → (∀ t, waits (end_of p t)) → sf_state (fd_of p s) = Fd.TlsEstablished →
  ∃ p' rd, sslReadReady junk p s = Ok p' ∧ moved s rd p p' ∧ (∀ t, c_selectFd (conn_of p' t) = true) ∧ (dead p' ∨ live p' ∧ ∀ t, waits (end_of p' t)).
Proof. intros L W St. apply read_loop_ok; [done..|]. unfold read_turns. lia. Qed.
End Run.
