(* ===== verification/ProxyProps.v ===== *)
(** * What the proxy promises

    In every state of a connection through the proxy, what was written to each end and
    what is buffered for it is what was read from the other end, in order; TLS to the
    server starts when it is connected and the host is known; and what happens when
    the server cannot be verified or the connection to it fails. *)

From S2P Require Import Prelude Rope Conn ItQueue Packet PacketRecv ConnState Proxy ProxyRun.

Section Props.
Context (junk : list Z) (junk_some : junk ≠ []).

Abbreviation live := (live junk).
Abbreviation whole_writes := (whole_writes junk).

(** ** Runs *)

(** More bytes arrive at an end, and the results of reads and writes to come. *)
Definition arrive_at (p : Proxy) (s : Side) (d : list Z) (rs ws : list IoResult) : Proxy :=
  let c := conn_of p s in
  let io := c_peer c in
  set_conn p s (c_set_peer c (MkPeer (io_open io) (io_in io ++ d) (io_out io) (io_tls io) (io_reads io ++ rs) (io_writes io ++ ws))).

(** The states of the proxy of a connection, with all that arrived at each end, as long as
    the connection to the server does not fail.  The select loop does nothing for a closed
    descriptor. *)
Inductive px_reach : Proxy → (Side → list Z) → Prop :=
| px_begin accepted fd io_s io_c : whole_writes io_s → whole_writes io_c → io_tls io_s = [] → io_tls io_c = [] →
    px_reach (proxy_start accepted fd io_s io_c) (λ s, io_in (match s with Server => io_s | Client => io_c end))
| px_arrive p arr s d rs ws : px_reach p arr → Forall (λ e, io_n e ≤ 0 ∨ Z.of_nat (length junk) ≤ io_n e) ws →
    px_reach (arrive_at p s d rs ws) (λ t, if decide (t = s) then arr t ++ d else arr t)
| px_name p arr host p' : px_reach p arr → sf_closed (fd_of p Server) = false → sf_state (fd_of p Server) = Fd.TlsAccept → fd_haveHostname (desc_of p Server) = false →
    serverName p host = Ok p' → px_reach p' arr
| px_connect p arr p' : px_reach p arr → sf_closed (fd_of p Client) = false → sf_state (fd_of p Client) = Fd.Connect → fd_connected (desc_of p Client) = false →
    socket_connected p = Ok p' → px_reach p' arr
| px_retry p arr s result p' : px_reach p arr → sf_closed (fd_of p s) = false → sf_state (fd_of p s) = Fd.TlsAccept ∨ sf_state (fd_of p s) = Fd.TlsConnect →
    on_select p s (λ f, (prepNextRound f result).2) = Ok p' → px_reach p' arr
| px_tls_connect p arr p' : px_reach p arr → sf_closed (fd_of p Client) = false → sf_state (fd_of p Client) = Fd.TlsConnect →
    tls_connected junk p = Ok p' → px_reach p' arr
| px_tls_accept p arr p' : px_reach p arr → sf_closed (fd_of p Server) = false → sf_state (fd_of p Server) = Fd.TlsAccept →
    tls_accepted junk p = Ok p' → px_reach p' arr
| px_read p arr s p' : px_reach p arr → sf_closed (fd_of p s) = false → sf_state (fd_of p s) = Fd.TlsEstablished →
    end_readReady junk p s = Ok p' → px_reach p' arr
| px_write p arr s p' : px_reach p arr → sf_closed (fd_of p s) = false → sf_state (fd_of p s) = Fd.TlsEstablished →
    end_writeReady p s = Ok p' → px_reach p' arr.

(** ** The invariant *)

(** What was read of what arrived was sent to the other end. *)
Definition px_flow (p : Proxy) (arr : Side → list Z) : Prop := ∀ s, arr s = sent_to p (other s) ++ io_in (peer_of p s).
Definition parsed (p : Proxy) : Prop := ∀ s, captured p s = io_tls (peer_of p s).

(** The phases of the handshakes. *)
Record phases (p : Proxy) : Prop := Phases {
  ph_server : sf_state (fd_of p Server) = Fd.TlsAccept ∨ sf_state (fd_of p Server) = Fd.TlsEstablished;
  ph_client : if fd_connected (desc_of p Client) && fd_haveHostname (desc_of p Server)
              then sf_state (fd_of p Client) = Fd.TlsConnect ∨ sf_state (fd_of p Client) = Fd.TlsEstablished
              else sf_state (fd_of p Client) = Fd.Connect;
}.

(** Nothing has been read from the server before its handshake is done. *)
Definition unread (p : Proxy) : Prop := sf_state (fd_of p Client) ≠ Fd.TlsEstablished → fd_wbList (desc_of p Server) = [].

Record px_inv (p : Proxy) (arr : Side → list Z) : Prop := PxInv {
  pi_flow : px_flow p arr;
  pi_parsed : parsed p;
  pi_phases : phases p;
  pi_sel : ∀ s, c_selectFd (conn_of p s) = true;
  pi_live : dead p ∨ live p ∧ ∀ s, waits (end_of p s);
  pi_unread : unread p;
}.

Lemma inv_live p arr s : px_inv p arr → sf_closed (fd_of p s) = false → live p ∧ ∀ s, waits (end_of p s).
Proof. intros [_ _ _ _ [D|L] _] E; [by rewrite (D s) in E|done]. Qed.

(** Moving bytes. *)
Lemma inv_moved s rd p p' arr : moved s rd p p' → px_inv p arr → sf_state (fd_of p s) = Fd.TlsEstablished → (∀ t, c_selectFd (conn_of p' t) = true) →
  dead p' ∨ live p' ∧ (∀ t, waits (end_of p' t)) → px_inv p' arr.
Proof.
  intros [M1 M2 M3 M4 M5 M6 M7 M8 M9] [F P [H1 H2] _ _ U] St Sel D. split; [|by intros t; apply M5| |done|done|].
  - intros t. destruct (sides s t) as [->| ->].
    + rewrite (F s), M3, M1, <- app_assoc. done.
    + rewrite (F (other s)), other_other, M4, M2. done.
  - split; rewrite ?M6, ?M7, ?M8; done.
  - intros N. rewrite M6 in N. destruct s; [by apply M9, U|by destruct N].
Qed.

(** Changing flags of an end. *)
Record same_flow (p p' : Proxy) : Prop := SameFlow {
  sm_peer : ∀ s, peer_of p' s = peer_of p s;
  sm_blocks : ∀ s, fd_wbList (desc_of p' s) = fd_wbList (desc_of p s);
  sm_kdata : px_kdata p' = px_kdata p;
  sm_sel : ∀ s, c_selectFd (conn_of p' s) = c_selectFd (conn_of p s);
}.

#[local] Instance same_flow_preorder : PreOrder same_flow.
Proof. split; [by split|]. intros x y z [] []. split; intros; congruence. Qed.

Lemma inv_same p p' arr : same_flow p p' → px_inv p arr → live p' → (∀ s, waits (end_of p' s)) → phases p' →
  sf_state (fd_of p Client) ≠ Fd.TlsEstablished ∨ sf_state (fd_of p' Client) = Fd.TlsEstablished → px_inv p' arr.
Proof.
  intros [Hp Hb Hk Hs] [F P _ S _ U] L W Ph Hu. split; [| |done|intros s; by rewrite Hs|by right|].
  - intros s. unfold sent_to, buffered. rewrite !Hp, Hb. apply F.
  - intros s. unfold captured. rewrite Hp, Hk. apply P.
  - intros N. rewrite Hb. apply U. by destruct Hu.
Qed.

Lemma flags_ok p s g : live p → (∀ t, waits (end_of p t)) → sf_closed (g (fd_of p s)) = false → (uses_tls (sf_state (g (fd_of p s))) = true → sf_ssl (g (fd_of p s)) = true) →
  sf_tlsWantWrite (g (fd_of p s)) = sf_tlsWantWrite (fd_of p s) →
  ∃ p', on_select p s g = Ok p' ∧ same_flow p p' ∧ live p' ∧ (∀ t, waits (end_of p' t)) ∧ fd_of p' s = g (fd_of p s) ∧ fd_of p' (other s) = fd_of p (other s) ∧
    ∀ t, desc_of p' t = desc_of p t.
Proof.
  intros L W Ec Es Ew. pose proof (L s) as [S O Bo Ww Sl]. unfold on_select, selectFd. rewrite S, bind_Ok. eexists. split; [done|]. unfold set_conn.
  assert (s ≠ other s) as Ns by (intros E; by apply (other_ne s)). rewrite end_set_eq, end_set_ne by done. split_and!; try done.
  - split; [..|by rewrite kdata_set|]; intros t; (destruct (decide (s = t)) as [<-|N]; [by rewrite end_set_eq|by rewrite end_set_ne]).
  - by apply live_set; [|split].
  - intros t. destruct (decide (s = t)) as [<-|N]; [rewrite end_set_eq; unfold waits; cbn; rewrite Ew; apply W|by rewrite end_set_ne].
  - intros t. destruct (decide (s = t)) as [<-|N]; [by rewrite end_set_eq|by rewrite end_set_ne].
Qed.

Lemma set_desc_flags p s d : live p → (∀ t, waits (end_of p t)) → fd_wbList d = fd_wbList (desc_of p s) →
  same_flow p (set_desc p s d) ∧ live (set_desc p s d) ∧ (∀ t, waits (end_of (set_desc p s d) t)) ∧ (∀ t, fd_of (set_desc p s d) t = fd_of p t) ∧
    desc_of (set_desc p s d) s = d ∧ desc_of (set_desc p s d) (other s) = desc_of p (other s).
Proof.
  intros L W E. pose proof (L s) as [S O Bo Ww Sl]. assert (s ≠ other s) as Ns by (intros E'; by apply (other_ne s)). unfold set_desc. split_and!.
  - split; [..|by rewrite kdata_set|]; intros t; (destruct (decide (s = t)) as [<-|N]; [by rewrite end_set_eq|by rewrite end_set_ne]).
  - apply live_set; [done|]. split; cbn; try done. by rewrite E.
  - intros t. destruct (decide (s = t)) as [<-|N]; [rewrite end_set_eq; unfold waits, buffered; cbn; rewrite E; apply (W s)|by rewrite end_set_ne].
  - intros t. destruct (decide (s = t)) as [<-|N]; [by rewrite end_set_eq|by rewrite end_set_ne].
  - by rewrite end_set_eq.
  - by rewrite end_set_ne.
Qed.

(** ** Events *)

(** Starting TLS to the server, from a state where it has not been started. *)
Lemma maybeStart_ok p p0 arr : same_flow p0 p → px_inv p0 arr → sf_state (fd_of p0 Client) = Fd.Connect → live p → (∀ t, waits (end_of p t)) →
  sf_state (fd_of p Server) = Fd.TlsAccept ∨ sf_state (fd_of p Server) = Fd.TlsEstablished → sf_state (fd_of p Client) = Fd.Connect →
  ∃ p', maybeStartTlsClient p = Ok p' ∧ px_inv p' arr.
Proof.
  intros Sm I H0 L W Hs Hc. unfold maybeStartTlsClient. assert (sf_state (fd_of p0 Client) ≠ Fd.TlsEstablished) as N0 by by rewrite H0. destruct (fd_connected (desc_of p Client) && fd_haveHostname (desc_of p Server)) eqn:E.
  - destruct (flags_ok p Client (λ f, set_state (startTlsClient f) Fd.TlsConnect) L W) as (p' & E' & Sm' & L' & W' & Ef & Eo & Ed); [apply (eo_open _ _ (L Client))|done|done|].
    exists p'. split; [exact E'|]. eapply inv_same; [etrans; [exact Sm|exact Sm']|exact I|done|done| |by left]. change (other Client) with Server in Eo. split.
    + by rewrite Eo.
    + rewrite !Ed, E. left. by rewrite Ef.
  - exists p. split; [done|]. eapply inv_same; [exact Sm|exact I|done|done| |by left]. split; [done|by rewrite E].
Qed.

Lemma serverName_ok p arr host : px_inv p arr → sf_closed (fd_of p Server) = false → sf_state (fd_of p Server) = Fd.TlsAccept → fd_haveHostname (desc_of p Server) = false →
  ∃ p', serverName p host = Ok p' ∧ px_inv p' arr.
Proof.
  intros I C St Nh. destruct (inv_live p arr Server I C) as [L W]. unfold serverName, selectFd, the_ssl. rewrite (eo_sel _ _ (L Server)), bind_Ok.
  rewrite (eo_ssl _ _ (L Server)) by (by rewrite St). rewrite bind_Ok.
  destruct (set_desc_flags p Server (set_hostname (desc_of p Server) host) L W eq_refl) as (Sm & L' & W' & Ef & _).
  pose proof (ph_client _ (pi_phases _ _ I)) as Hc. rewrite Nh, andb_false_r in Hc. eapply maybeStart_ok; [exact Sm|exact I|done|done|done|left; by rewrite Ef|by rewrite Ef].
Qed.

Lemma socket_connected_ok p arr : px_inv p arr → sf_closed (fd_of p Client) = false → sf_state (fd_of p Client) = Fd.Connect → fd_connected (desc_of p Client) = false →
  ∃ p', socket_connected p = Ok p' ∧ px_inv p' arr.
Proof.
  intros I C St Nc. destruct (inv_live p arr Client I C) as [L W]. unfold socket_connected.
  destruct (flags_ok p Client (λ f, set_wants (set_state f Fd.Established) true false) L W) as (p1 & -> & Sm1 & L1 & W1 & Ef1 & Eo1 & Ed1); [done..|]. rewrite bind_Ok.
  destruct (set_desc_flags p1 Client (set_connected (desc_of p1 Client)) L1 W1 eq_refl) as (Sm2 & L2 & W2 & Ef2 & _).
  set (p2 := set_desc p1 Client (set_connected (desc_of p1 Client))) in *.
  destruct (flags_ok p2 Client (λ f, set_wants (set_state f Fd.Connect) false false) L2 W2) as (p3 & -> & Sm3 & L3 & W3 & Ef3 & Eo3 & Ed3); [by rewrite Ef2, Ef1|done|done|]. rewrite bind_Ok.
  change (other Client) with Server in *.
  eapply maybeStart_ok; [etrans; [exact Sm1|etrans; [exact Sm2|exact Sm3]]|exact I|done|done|done|rewrite Eo3, Ef2, Eo1; apply (ph_server _ (pi_phases _ _ I))|by rewrite Ef3].
Qed.

(** Reading after a handshake. *)
Lemma established_read p p0 arr s : same_flow p0 p → px_inv p0 arr → live p → (∀ t, waits (end_of p t)) → phases p → sf_state (fd_of p s) = Fd.TlsEstablished →
  sf_state (fd_of p0 Client) = sf_state (fd_of p Client) ∨ sf_state (fd_of p Client) = Fd.TlsEstablished →
  ∃ p', sslReadReady junk p s = Ok p' ∧ px_inv p' arr.
Proof.
  intros Sm I L W Ph St Hu. destruct (sslReadReady_ok junk junk_some p s L W St) as (p' & rd & E & M & Sel & D). exists p'. split; [exact E|].
  eapply inv_moved; [exact M| |done|done|done]. eapply inv_same; [done..|]. destruct Hu as [->|]; [|by right]. destruct (decide (sf_state (fd_of p Client) = Fd.TlsEstablished)); [by right|by left].
Qed.

Lemma tls_accepted_ok p arr : px_inv p arr → sf_closed (fd_of p Server) = false → sf_state (fd_of p Server) = Fd.TlsAccept →
  ∃ p', tls_accepted junk p = Ok p' ∧ px_inv p' arr.
Proof.
  intros I C St. destruct (inv_live p arr Server I C) as [L W]. unfold tls_accepted.
  destruct (flags_ok p Server tlsEst L W) as (p1 & -> & Sm & L1 & W1 & Ef & Eo & Ed); [done|intros _; apply (eo_ssl _ _ (L Server)); by rewrite St|done|]. rewrite bind_Ok.
  change (other Server) with Client in *. eapply established_read; [exact Sm|exact I|done|done| |by rewrite Ef|left; by rewrite Eo]. destruct (pi_phases _ _ I) as [_ Hc].
  split; [right; by rewrite Ef|]. by rewrite !Ed, Eo.
Qed.

Lemma tls_connected_ok p arr : px_inv p arr → sf_closed (fd_of p Client) = false → sf_state (fd_of p Client) = Fd.TlsConnect →
  ∃ p', tls_connected junk p = Ok p' ∧ px_inv p' arr.
Proof.
  intros I C St. destruct (inv_live p arr Client I C) as [L W]. unfold tls_connected.
  destruct (flags_ok p Client tlsEst L W) as (p1 & -> & Sm & L1 & W1 & Ef & Eo & Ed); [done|intros _; apply (eo_ssl _ _ (L Client)); by rewrite St|done|]. rewrite bind_Ok.
  destruct (flags_ok p1 Client tlsEst L1 W1) as (p2 & -> & Sm2 & L2 & W2 & Ef2 & Eo2 & Ed2); [by rewrite Ef|intros _; rewrite Ef; apply (eo_ssl _ _ (L Client)); by rewrite St|done|]. rewrite bind_Ok.
  change (other Client) with Server in *. eapply established_read; [etrans; [exact Sm|exact Sm2]|exact I|done|done| |by rewrite Ef2|right; by rewrite Ef2]. destruct (pi_phases _ _ I) as [Hs Hc].
  split; [by rewrite Eo2, Eo|]. rewrite !Ed2, !Ed. rewrite St in Hc. destruct (_ && _); [right; by rewrite Ef2|done].
Qed.

Lemma readReady_ok p arr s : px_inv p arr → sf_closed (fd_of p s) = false → sf_state (fd_of p s) = Fd.TlsEstablished → ∃ p', end_readReady junk p s = Ok p' ∧ px_inv p' arr.
Proof.
  intros I C St. destruct (inv_live p arr s I C) as [L W]. unfold end_readReady, selectFd. rewrite (eo_sel _ _ (L s)), bind_Ok.
  eapply established_read; [reflexivity|exact I|done|done|by destruct I|done|by left].
Qed.

Lemma writeReady_px p arr s : px_inv p arr → sf_closed (fd_of p s) = false → sf_state (fd_of p s) = Fd.TlsEstablished → ∃ p', end_writeReady p s = Ok p' ∧ px_inv p' arr.
Proof.
  intros I C St. destruct (inv_live p arr s I C) as [L W]. destruct (proxyWrite_ok junk p s L) as (p' & E & K & Sel & D). exists p'. split; [exact E|].
  eapply (inv_moved s []); [by apply kept_moved|exact I|done|done|]. destruct D as [?|(L' & W' & Eo)]; [by left|right]. split; [done|].
  intros t. destruct (sides s t) as [->| ->]; [done|]. rewrite Eo. apply W.
Qed.

Lemma arrive_inv p arr s d rs ws : px_inv p arr → Forall (λ e, io_n e ≤ 0 ∨ Z.of_nat (length junk) ≤ io_n e) ws →
  px_inv (arrive_at p s d rs ws) (λ t, if decide (t = s) then arr t ++ d else arr t).
Proof.
  intros [F P [H1 H2] S D U] Hw. assert (∀ t, desc_of (arrive_at p s d rs ws) t = desc_of p t ∧ fd_of (arrive_at p s d rs ws) t = fd_of p t ∧
    io_tls (peer_of (arrive_at p s d rs ws) t) = io_tls (peer_of p t) ∧ c_selectFd (conn_of (arrive_at p s d rs ws) t) = c_selectFd (conn_of p t) ∧
    io_in (peer_of (arrive_at p s d rs ws) t) = (if decide (t = s) then io_in (peer_of p t) ++ d else io_in (peer_of p t)) ∧
    io_writes (peer_of (arrive_at p s d rs ws) t) = (if decide (t = s) then io_writes (peer_of p t) ++ ws else io_writes (peer_of p t))) as A.
  { intros t. destruct s, t; cbn; repeat split; try done; by destruct (decide _). }
  split.
  - intros t. destruct (A t) as (_ & _ & _ & _ & Ei & _). destruct (A (other t)) as (Ed & _ & Et & _). unfold sent_to. rewrite Ei, Et, Ed. fold (sent_to p (other t)).
    destruct (decide (t = s)); [rewrite (F t); by rewrite <- app_assoc|apply F].
  - intros t. destruct (A t) as (_ & _ & Et & _). rewrite Et. rewrite <- P. unfold captured, arrive_at, set_conn. by rewrite kdata_set.
  - destruct (A Server) as (Ed & Ef & _). destruct (A Client) as (Ed' & Ef' & _). split; rewrite ?Ed, ?Ed', ?Ef, ?Ef'; done.
  - intros t. destruct (A t) as (_ & _ & _ & Es & _). rewrite Es. apply S.
  - destruct D as [D|[L W]]; [left; intros t; destruct (A t) as (_ & Ef & _); rewrite Ef; apply D|right]. split; intros t; destruct (A t) as (Ed & Ef & Et & Es & _ & Ew).
    + destruct (L t) as [E1 E2 E3 E4 E5]. split; rewrite ?Ed, ?Ef, ?Es; try done. unfold ProxyRun.whole_writes. rewrite Ew. destruct (decide (t = s)); [by apply Forall_app|done].
    + unfold waits. rewrite Ed, Ef. apply W.
  - unfold unread. destruct (A Server) as (-> & _). by destruct (A Client) as (_ & -> & _).
Qed.

(** A handshake that is not done yet. *)
Lemma retry_ok p arr s result : px_inv p arr → sf_closed (fd_of p s) = false → sf_state (fd_of p s) = Fd.TlsAccept ∨ sf_state (fd_of p s) = Fd.TlsConnect →
  ∃ p', on_select p s (λ f, (prepNextRound f result).2) = Ok p' ∧ px_inv p' arr.
Proof.
  intros I C St. destruct (inv_live p arr s I C) as [L W].
  destruct (flags_ok p s (λ f, (prepNextRound f result).2) L W) as (p' & E & Sm & L' & W' & Ef & Eo & Ed); [done|intros _; apply (eo_ssl _ _ (L s)); by destruct St as [-> | ->]|done|].
  exists p'. split; [exact E|]. assert (∀ t, sf_state (fd_of p' t) = sf_state (fd_of p t)) as Hst by (intros t; destruct (sides s t) as [->| ->]; [by rewrite Ef|by rewrite Eo]).
  eapply inv_same; [done..| |]; [destruct (pi_phases _ _ I) as [H1 H2]; split; by rewrite ?Ed, ?Hst|]. rewrite Hst. destruct (decide (sf_state (fd_of p Client) = Fd.TlsEstablished)); [by right|by left].
Qed.

Lemma begin_inv accepted fd io_s io_c : whole_writes io_s → whole_writes io_c → io_tls io_s = [] → io_tls io_c = [] →
  px_inv (proxy_start accepted fd io_s io_c) (λ s, io_in (match s with Server => io_s | Client => io_c end)).
Proof.
  intros W1 W2 T1 T2. split.
  - intros []; unfold sent_to; cbn; by rewrite ?T1, ?T2.
  - intros []; cbn; by rewrite ?T1, ?T2.
  - split; [by left|done].
  - by intros [].
  - right. split; [|intros []; unfold waits; cbn; done]. intros []; split; cbn; try done; by split.
  - done.
Qed.

Lemma px_reach_inv p arr : px_reach p arr → px_inv p arr.
Proof.
  induction 1 as [accepted fd io_s io_c|p arr s d rs ws _ I Hw|p arr host p' _ I C St N E|p arr p' _ I C St N E|p arr s result p' _ I C St E|p arr p' _ I C St E|p arr p' _ I C St E|p arr s p' _ I C St E|p arr s p' _ I C St E].
  - by apply begin_inv.
  - by apply arrive_inv.
  - destruct (serverName_ok p arr host I C St N) as (p1 & E1 & I1). congruence.
  - destruct (socket_connected_ok p arr I C St N) as (p1 & E1 & I1). congruence.
  - destruct (retry_ok p arr s result I C St) as (p1 & E1 & I1). congruence.
  - destruct (tls_connected_ok p arr I C St) as (p1 & E1 & I1). congruence.
  - destruct (tls_accepted_ok p arr I C St) as (p1 & E1 & I1). congruence.
  - destruct (readReady_ok p arr s I C St) as (p1 & E1 & I1). congruence.
  - destruct (writeReady_px p arr s I C St) as (p1 & E1 & I1). congruence.
Qed.

(** ** A server that cannot be verified *)

(** The response put into the first block of the accepted end. *)
Lemma response_ok d resp : fd_wbList d = [] → resp ≠ [] → (length resp < length junk)%nat →
  let o := addSpace junk d in
  ∃ b m d', deref (last (fd_wbList o)) = Ok b ∧ mem_store (bl_data b) 0 (resp ++ [0]) = Ok m ∧
    readIn (set_wbList o (removelast (fd_wbList o) ++ [MkWriteBlock m (bl_head b) (bl_tail b)])) resp = Ok d' ∧
    blocks_ok junk (fd_wbList d') ∧ buffered d' = resp ∧ fd_connected d' = fd_connected d ∧ fd_haveHostname d' = fd_haveHostname d.
Proof.
  intros E N Hl. cbv zeta. unfold addSpace. rewrite E. cbn [app last removelast fd_wbList set_wbList deref]. exists (MkWriteBlock junk 0 0). cbn [bl_data bl_head bl_tail].
  rewrite mem_store_fits by (rewrite length_app; cbn; lia). set (m := take _ _ ++ _). exists m. assert (length m = length junk) as Lm. { unfold m. rewrite !length_app, length_take, length_drop. cbn. lia. }
  set (d1 := set_wbList (set_wbList d _) [MkWriteBlock m 0 0]). assert (fd_wbList d1 = [MkWriteBlock m 0 0]) as E1 by done.
  destruct (readIn_ok junk d1 resp) as (d' & Ed & Bo & Bu & Hc & Hh).
  - rewrite E1. split; [|done]. constructor; [|done]. split_and!; cbn; lia.
  - done.
  - unfold readAvail. rewrite E1. cbn. unfold bl_blocklen. cbn. lia.
  - unfold readAvail. rewrite E1. cbn. unfold bl_blocklen. cbn. lia.
  - exists d'. split_and!; [done..| |done|done]. rewrite Bu. unfold buffered. by rewrite E1.
Qed.

Lemma dead_close p : dead p → (∀ t, c_selectFd (conn_of p t) = true) → dead (close_client p).
Proof.
  intros D Sel s. unfold close_client, conn_close. rewrite (Sel Client). destruct (_ && _), s; try done; apply (D Server).
Qed.

Lemma on_select_tls p p' s g t : on_select p s g = Ok p' → io_tls (peer_of p' t) = io_tls (peer_of p t).
Proof. unfold on_select, selectFd. intros E. destruct (c_selectFd (conn_of p s)); [|done]. rewrite bind_Ok in E. injection E as <-. by destruct s, t. Qed.

Lemma shutdown_tls p p' s t : proxyShutdown p s = Ok p' → io_tls (peer_of p' t) = io_tls (peer_of p t).
Proof.
  unfold proxyShutdown. destruct (on_select _ s shut) as [q| |] eqn:E; [|done..]. rewrite bind_Ok. destruct (selectFd _) as [f| |]; [|done..]. rewrite bind_Ok.
  match goal with |- context [on_select ?x (other s) shut] => set (q' := x) end. destruct (on_select q' _ shut) as [r| |] eqn:E'; [|done..]. rewrite bind_Ok. intros [= <-].
  assert (io_tls (peer_of (set_desc r (other s) (set_stop (desc_of r (other s)))) t) = io_tls (peer_of r t)) as -> by (by destruct s, t).
  rewrite (on_select_tls _ _ _ _ t E'). assert (io_tls (peer_of q' t) = io_tls (peer_of q t)) as -> by (unfold q'; case_match; by destruct s, t).
  rewrite (on_select_tls _ _ _ _ t E). by destruct s, t.
Qed.

(** What letting go of the client end leaves alone. *)
Lemma close_client_ends p : end_of (close_client p) Server = end_of p Server ∧ desc_of (close_client p) Client = desc_of p Client ∧ px_kdata (close_client p) = px_kdata p ∧
  sf_state (fd_of (close_client p) Client) = sf_state (fd_of p Client) ∧ io_in (peer_of (close_client p) Client) = io_in (peer_of p Client) ∧
  io_tls (peer_of (close_client p) Client) = io_tls (peer_of p Client).
Proof. unfold close_client, conn_close. by destruct (c_selectFd (conn_of p Client)), (0 <=? _). Qed.

Lemma close_client_same p s : sent_to (close_client p) s = sent_to p s ∧ io_in (peer_of (close_client p) s) = io_in (peer_of p s) ∧ io_tls (peer_of (close_client p) s) = io_tls (peer_of p s) ∧
  captured (close_client p) s = captured p s ∧ desc_of (close_client p) s = desc_of p s ∧ sf_state (fd_of (close_client p) s) = sf_state (fd_of p s).
Proof. destruct (close_client_ends p) as (E1 & E2 & E3 & E4 & E5 & E6). unfold sent_to, captured. rewrite E3. destruct s; [by rewrite E1|by rewrite E2, E4, E5, E6]. Qed.

(** The refusal of a server: its response comes behind all that is sent to the client
    program, and both ends are closed. *)
Lemma verify_ok p arr resp : px_inv p arr → sf_closed (fd_of p Client) = false → sf_state (fd_of p Client) = Fd.TlsConnect → resp ≠ [] → (length resp < length junk)%nat →
  ∃ p', verify_failed junk resp p = Ok p' ∧ dead p' ∧ (sf_state (fd_of p Server) = Fd.TlsAccept → io_tls (peer_of p' Server) = io_tls (peer_of p Server)) ∧
    sent_to p' Server = sent_to p Server ++ resp ∧ sent_to p' Client = sent_to p Client ∧ parsed p' ∧
    ∀ s, io_in (peer_of p' s) = io_in (peer_of p s) ∧ sf_state (fd_of p' s) = sf_state (fd_of p s) ∧ fd_connected (desc_of p' s) = fd_connected (desc_of p s) ∧
      fd_haveHostname (desc_of p' s) = fd_haveHostname (desc_of p s).
Proof.
  intros I C St N Hl. destruct (inv_live p arr Client I C) as [L _]. assert (fd_wbList (desc_of p Server) = []) as Ew by (apply (pi_unread _ _ I); by rewrite St).
  destruct (response_ok (desc_of p Server) resp Ew N Hl) as (b & m & d' & E1 & E2 & E3 & Bo & Bu & Hc & Hh).
  unfold verify_failed, sslPeerFailedVerify. rewrite E1, bind_Ok, E2, bind_Ok, E3, bind_Ok. set (p1 := set_desc p Server d').
  assert (live p1) as L1. { destruct (L Server). by apply live_set; [|split]. }
  destruct (proxyWrite_ok junk p1 Server L1) as (p2 & Ep & K & Sel & _). rewrite Ep, bind_Ok.
  destruct (shutdown_ok p2 Client Sel) as (p3 & Ex & K3 & D3 & Sel3). rewrite Ex, bind_Ok. eexists. split; [done|]. split; [by apply dead_close|]. pose proof (close_client_same p3) as Cc.
  assert (kept p1 p3) as K13 by by etrans.
  assert (sent_to p1 Server = sent_to p Server ++ resp) as S1. { unfold sent_to. change (desc_of p1 Server) with d'. change (peer_of p1 Server) with (peer_of p Server). rewrite Bu. assert (buffered (desc_of p Server) = []) as -> by (unfold buffered; by rewrite Ew). by rewrite app_nil_r. }
  split_and!.
  - intros Sa. destruct (Cc Server) as (_ & _ & -> & _). rewrite (shutdown_tls p2 p3 Client) by done. unfold proxyWrite in Ep. unfold selectFd at 1 in Ep. rewrite (eo_sel _ _ (L1 Server)), bind_Ok in Ep.
    change (c_fd (conn_of p1 Server)) with (fd_of p Server) in Ep at 1. rewrite bool_decide_true in Ep by (by rewrite Sa). by rewrite (on_select_tls p1 p2 Server _ Server Ep).
  - destruct (Cc Server) as (-> & _). by rewrite (kp_sent _ _ K13).
  - destruct (Cc Client) as (-> & _). by rewrite (kp_sent _ _ K13).
  - intros s. destruct (Cc s) as (_ & _ & -> & -> & _). apply (kp_captured _ _ K13). pose proof (pi_parsed _ _ I s) as P. by destruct s.
  - intros s. destruct (Cc s) as (_ & -> & _ & _ & -> & ->). rewrite (kp_in _ _ K13), (kp_state _ _ K13), (kp_connected _ _ K13), (kp_hostname _ _ K13). unfold p1, set_desc. by destruct s.
Qed.

(** TLS to the server has been started when both are there. *)
Lemma started_iff p arr : px_inv p arr →
  (sf_state (fd_of p Client) ≠ Fd.Connect ↔ fd_connected (desc_of p Client) = true ∧ fd_haveHostname (desc_of p Server) = true).
Proof.
  intros I. rewrite <- andb_true_iff. pose proof (ph_client _ (pi_phases _ _ I)) as Hc. destruct (_ && _); [split; [done|]; intros _; destruct Hc as [-> | ->]; done|].
  split; [by intros|done].
Qed.

(** ** Theorems *)

(** All states: those of a run; those after the certificate of the server was refused, when
    [resp] is what the proxy adds for the client program; and those after the connection to
    the server failed, or its certificate was for another host, when the client end is let
    go of. *)
Inductive px_states (resp : list Z) : Proxy → (Side → list Z) → list Z → Prop :=
| st_run p arr : px_reach p arr → px_states resp p arr []
| st_refused p arr p' : px_reach p arr → sf_closed (fd_of p Client) = false → sf_state (fd_of p Client) = Fd.TlsConnect → resp ≠ [] → (length resp < length junk)%nat →
    verify_failed junk resp p = Ok p' → px_states resp p' arr resp
| st_lost p arr : px_reach p arr → sf_closed (fd_of p Client) = false → sf_state (fd_of p Client) = Fd.Connect ∨ sf_state (fd_of p Client) = Fd.TlsConnect →
    px_states resp (close_client p) arr [].

(** C8: In every state of a connection through the proxy, in whatever order names,
    handshakes, bytes and readiness come, up to where the connection to the server fails
    or its certificate is refused, that included, and given that a TLS write of a block
    goes through whole or not at all: the bytes written to an end, followed by
    the bytes in its blocks, are the bytes read from the other end, in order, with the
    response for a refused certificate behind them at the end of the client program, and
    the rest of what arrived there has not been read; the parser was handed exactly
    what was written; while an end is open and something is in its blocks, it is
    waited on for writing; and TLS to the server has been started exactly when the
    server is connected and the client program has named it. *)
Theorem proxy_forwards resp p arr added : px_states resp p arr added → ∀ s,
  (∃ rd, arr s = rd ++ io_in (peer_of p s) ∧
    io_tls (peer_of p (other s)) ++ buffered (desc_of p (other s)) = rd ++ match s with Client => added | Server => [] end) ∧
  captured p s = io_tls (peer_of p s) ∧
  (sf_closed (fd_of p s) = false → buffered (desc_of p s) ≠ [] → sf_tlsWantWrite (fd_of p s) = true) ∧
  (sf_state (fd_of p Client) ≠ Fd.Connect ↔ fd_connected (desc_of p Client) = true ∧ fd_haveHostname (desc_of p Server) = true).
Proof.
  intros Hs s. destruct Hs as [p arr R%px_reach_inv|p arr p' R%px_reach_inv C St N Hl E|p arr R%px_reach_inv C St].
  - split_and!; [|apply (pi_parsed _ _ R)| |by apply (started_iff p arr)].
    + exists (sent_to p (other s)). split; [apply (pi_flow _ _ R)|]. destruct s; by rewrite app_nil_r.
    + intros Co. destruct (inv_live p arr s R Co) as [_ W]. apply W.
  - destruct (verify_ok p arr resp R C St N Hl) as (p1 & E1 & D & _ & S1 & S2 & P & Q). rewrite E in E1. injection E1 as <-. destruct (Q Client) as (_ & Q2 & Q3 & _). destruct (Q Server) as (_ & _ & _ & Q4).
    split_and!; [|apply P|by rewrite (D s)|rewrite Q2, Q3, Q4; by apply (started_iff p arr)]. destruct (Q s) as (-> & _). exists (sent_to p (other s)). split; [apply (pi_flow _ _ R)|].
    destruct s; [rewrite app_nil_r; exact S2|exact S1].
  - pose proof (close_client_same p) as Cc. destruct (close_client_ends p) as (Es & _). split_and!.
    + exists (sent_to p (other s)). destruct (Cc s) as (_ & -> & _). destruct (Cc (other s)) as (Eo & _). split; [apply (pi_flow _ _ R)|]. change (sent_to (close_client p) (other s) = sent_to p (other s) ++ match s with Client => [] | Server => [] end).
      rewrite Eo. destruct s; by rewrite app_nil_r.
    + destruct (Cc s) as (_ & _ & -> & -> & _). apply (pi_parsed _ _ R).
    + destruct s; [rewrite Es; intros Co; destruct (inv_live p arr Server R Co) as [_ W]; apply W|].
      intros Co. exfalso. revert Co. unfold close_client, conn_close. rewrite (pi_sel _ _ R Client). by destruct (0 <=? _).
    + destruct (Cc Client) as (_ & _ & _ & _ & -> & ->). destruct (Cc Server) as (_ & _ & _ & _ & -> & _). by apply (started_iff p arr).
Qed.

(** C35: The handlers of the proxy return in every state before the connection to the server
    fails or its certificate is for another host, for an end that is open: no
    null pointer, no access outside of a block, no loop without end.  So does the refusal
    of a certificate that is not valid.  A TLS write of a block goes through whole or not
    at all. *)
Theorem proxy_returns p arr s : px_reach p arr → sf_closed (fd_of p s) = false →
  (sf_state (fd_of p s) = Fd.TlsEstablished → (∃ p', end_readReady junk p s = Ok p') ∧ ∃ p', end_writeReady p s = Ok p') ∧
  (s = Server → sf_state (fd_of p s) = Fd.TlsAccept → (∃ p', tls_accepted junk p = Ok p') ∧
    (fd_haveHostname (desc_of p s) = false → ∀ host, ∃ p', serverName p host = Ok p')) ∧
  (s = Client → (sf_state (fd_of p s) = Fd.TlsConnect → (∃ p', tls_connected junk p = Ok p') ∧
      ∀ resp, resp ≠ [] → (length resp < length junk)%nat → ∃ p', verify_failed junk resp p = Ok p' ∧ dead p') ∧
    (sf_state (fd_of p s) = Fd.Connect → fd_connected (desc_of p s) = false → ∃ p', socket_connected p = Ok p')).
Proof.
  intros I%px_reach_inv C. split_and!.
  - intros St. destruct (readReady_ok p arr s I C St) as (p1 & E1 & _). destruct (writeReady_px p arr s I C St) as (p2 & E2 & _). eauto.
  - intros -> St. destruct (tls_accepted_ok p arr I C St) as (p1 & E1 & _). split; [by eexists|]. intros N host.
    destruct (serverName_ok p arr host I C St N) as (p2 & E2 & _). by eexists.
  - intros ->. split; [intros St; split|intros St N].
    + destruct (tls_connected_ok p arr I C St) as (p1 & E1 & _). by eexists.
    + intros resp N Hl. destruct (verify_ok p arr resp I C St N Hl) as (p1 & E1 & D & _). by exists p1.
    + destruct (socket_connected_ok p arr I C St N) as (p1 & E1 & _). by eexists.
Qed.

Lemma null_write p s : c_selectFd (conn_of p s) = false → proxyWrite p s = Ub.
Proof. intros E. unfold proxyWrite, selectFd. by rewrite E. Qed.

Lemma closed_null c : c_selectFd (conn_close c) = false.
Proof. unfold conn_close. by destruct (c_selectFd c). Qed.

(** When the certificate of the server is for another host, only the client end is
    closed and let go of.  The next bytes the client program sends make the proxy
    write to it: a null pointer. *)
Theorem host_mismatch_crashes p arr e rest : px_reach p arr → sf_state (fd_of p Client) = Fd.TlsConnect → sf_closed (fd_of p Server) = false → sf_state (fd_of p Server) = Fd.TlsEstablished →
  io_open (peer_of p Server) = true → io_in (peer_of p Server) ≠ [] → io_reads (peer_of p Server) = e :: rest → 0 < io_n e →
  end_readReady junk (host_mismatch p) Server = Ub.
Proof.
  intros I%px_reach_inv _ C St Ho Ni Er Hn. destruct (inv_live p arr Server I C) as [L W]. set (q := host_mismatch p).
  assert (end_of q Server = end_of p Server) as Es. { unfold q, host_mismatch, close_client. by destruct (_ && _). }
  assert (c_selectFd (conn_of q Client) = false ∧ desc_of q Client = desc_of p Client) as [Ec Ed].
  { unfold q, host_mismatch, close_client. destruct (_ && _); (split; [apply closed_null|done]). }
  unfold end_readReady, selectFd. rewrite Es, (eo_sel _ _ (L Server)), bind_Ok. unfold sslReadReady, read_turns. rewrite Nat.add_comm. cbn [Nat.add read_loop].
  change (other Server) with Client. rewrite Ed. destruct (room_ok junk junk_some (desc_of p Client) (eo_blocks _ _ (L Client))) as (Bo & _ & Hr & _). set (o := if readAvail _ =? 0 then _ else _) in *.
  change (end_of (set_desc q Client o) Server) with (end_of q Server). rewrite Es.
  destruct (tlsRead_ok (conn_of p Server) (readAvail o)) as (data & n & c' & Et & _ & _ & _ & _ & D); [apply (L Server)|apply (eo_ssl _ _ (L Server)); by rewrite St|done|].
  rewrite Et, bind_Ok. destruct D as [[Hz Ei]|(Hl & -> & _)].
  { exfalso. unfold tlsRead, selectFd in Et. rewrite (eo_sel _ _ (L Server)), bind_Ok in Et. unfold the_ssl in Et. cbn [set_tlsReadWantsWrite sf_ssl] in Et.
    rewrite (eo_ssl _ _ (L Server)), bind_Ok in Et by (by rewrite St).
    destruct (sys_read_ok SSL_ERROR_WANT_READ (peer_of p Server) (readAvail o) Hr) as (d1 & n1 & e1 & io1 & Es1 & _ & _ & _ & _ & [(_ & _ & Nw)|(H1 & _)]).
    - apply Nw. split_and!; [done..|]. by rewrite Er.
    - rewrite Es1 in Et. destruct (Z.ltb_spec 0 n1); [|lia]. injection Et as <- <- <-. lia. }
  destruct (Z.ltb_spec (Z.of_nat (length data)) 0); [lia|]. destruct (Z.ltb_spec 0 (Z.of_nat (length data))); [|lia].
  change (desc_of (set_conn (set_desc q Client o) Server c') Client) with o.
  destruct (readIn_ok junk o data Bo) as (o2 & -> & _); [by intros ->|done|lia|]. rewrite bind_Ok.
  rewrite (null_write _ Client); [done|]. exact Ec.
Qed.
(** A server whose certificate is not valid: the response goes after what was sent
    to the client program, as far as that end takes it at once, and both ends are
    closed.  When the handshake with the client program is not done yet, nothing of
    the response is ever written. *)
Theorem verify_failure_closes p arr resp : px_reach p arr → sf_closed (fd_of p Client) = false → sf_state (fd_of p Client) = Fd.TlsConnect →
  resp ≠ [] → (length resp < length junk)%nat →
  ∃ p', verify_failed junk resp p = Ok p' ∧ dead p' ∧ io_tls (peer_of p' Server) `prefix_of` io_tls (peer_of p Server) ++ resp ∧
    (sf_state (fd_of p Server) = Fd.TlsAccept → io_tls (peer_of p' Server) = io_tls (peer_of p Server)).
Proof.
  intros I%px_reach_inv C St N Hl. destruct (verify_ok p arr resp I C St N Hl) as (p' & E & D & T & S1 & _). exists p'. split_and!; [done..| |done].
  exists (buffered (desc_of p' Server)). unfold sent_to in S1. assert (buffered (desc_of p Server) = []) as Eb by (unfold buffered; rewrite (pi_unread _ _ I) by (by rewrite St); done).
  rewrite Eb, app_nil_r in S1. done.
Qed.

(** ** Writing a part of a block *)

(** When an end takes a part of the first of several blocks, what is written next is
    the beginning of that block once more, and not the rest of it: [writeFrom] adds
    the position in the last block to the start of the first. *)
Theorem partial_write_repeats d b l k : blocks_ok junk (fd_wbList d) → fd_wbList d = b :: l → l ≠ [] → 0 < k < bl_tail b →
  ∃ d', consume d k = Ok d' ∧ buffered d' = drop (Z.to_nat k) (buffered d) ∧
    writeFrom d' (writeAvail d') = Ok (take (Z.to_nat (bl_tail b - k)) (block_bytes b)).
Proof.
  intros Bo E N Hk. rewrite E in Bo. pose proof (bo_all _ _ Bo) as [Hb Hl]%Forall_cons. pose proof Hb as (Hh & Lb & Tb). unfold consume. rewrite E, Hh.
  destruct (Z.leb_spec (bl_tail b) (0 + k)); [lia|]. eexists. split; [done|]. split.
  - unfold buffered. cbn. rewrite E. cbn. pose proof (block_bytes_length junk b Hb). rewrite drop_app_le by lia. f_equal. rewrite (block_bytes_ok junk b Hb).
    unfold block_bytes. cbn. rewrite skipn_firstn_comm. f_equal. lia.
  - destruct (last l) as [t|] eqn:Et; [|by apply last_None in Et]. pose proof Et as [l' ->]%last_Some. apply Forall_app in Hl as [_ [(Ht & _) _]%Forall_cons].
    unfold writeFrom, writeAvail. cbn [set_wbList fd_wbList head deref bl_tail bl_head]. rewrite bind_Ok. rewrite app_comm_cons, last_snoc. cbn [deref]. rewrite bind_Ok, Ht.
    destruct (Z.ltb_spec (bl_tail b - (0 + k)) 0); [lia|]. change (0 <? 0) with false. cbn [orb bl_data]. unfold mem_load. rewrite decide_True by lia. cbn. rewrite drop_0, (block_bytes_ok junk b Hb).
    rewrite take_take. do 2 f_equal. lia.
Qed.
End Props.

(** ** Concrete runs *)

Definition blank : list Z := replicate 4 0.
Definition px_io_s : Peer := MkPeer true [1; 2; 3; 4; 5] [] [] [MkIo 5 0; MkIo 9 0] [].
Definition px_io_c : Peer := MkPeer true [] [] [] [] [MkIo 4 0].
Definition px_at (r : res Proxy) : Proxy := match r with Ok p => p | _ => proxy_start 0 0 px_io_s px_io_c end.
Definition px_0 : Proxy := proxy_start 5 6 px_io_s px_io_c.
Definition px_1 : Proxy := px_at (serverName px_0 [115; 0]).
Definition px_2 : Proxy := px_at (socket_connected px_1).
Definition px_3 : Proxy := px_at (tls_accepted blank px_2).
Definition px_4 : Proxy := px_at (tls_connected blank px_3).
Definition px_5 : Proxy := px_at (end_writeReady px_4 Client).
Definition px_arr (s : Side) : list Z := io_in (match s with Server => px_io_s | Client => px_io_c end).

Lemma px_run_0 : px_reach blank px_0 px_arr.
Proof. apply (px_begin blank 5 6 px_io_s px_io_c); [by constructor|by constructor; [right|]|done|done]. Qed.

Lemma px_run_2 : px_reach blank px_2 px_arr.
Proof.
  apply (px_connect _ px_1 px_arr px_2); [|by vm_compute..]. apply (px_name _ px_0 px_arr [115; 0] px_1); [|by vm_compute..]. exact px_run_0.
Qed.

Lemma px_run_3 : px_reach blank px_3 px_arr.
Proof. apply (px_tls_accept _ px_2 px_arr px_3); [exact px_run_2|by vm_compute..]. Qed.

Lemma px_run_5 : px_reach blank px_5 px_arr.
Proof.
  apply (px_write _ px_4 px_arr Client px_5); [|by vm_compute..]. apply (px_tls_connect _ px_3 px_arr px_4); [exact px_run_3|by vm_compute..].
Qed.

(** A state after bytes went through, and one after the server was refused. *)
Lemma proxy_forwards_witness :
  px_states blank [72; 33] px_5 px_arr [] ∧ (∃ rd, px_arr Server = rd ++ [] ∧ [1; 2; 3; 4] ++ [5] = rd ++ []) ∧ captured px_5 Client = [1; 2; 3; 4] ∧
  ∃ p' rd, verify_failed blank [72; 33] px_2 = Ok p' ∧ px_arr Client = rd ++ io_in (peer_of p' Client) ∧ io_tls (peer_of p' Server) ++ buffered (desc_of p' Server) = rd ++ [72; 33].
Proof.
  assert (blank ≠ []) as J by done. assert (px_states blank [72; 33] px_5 px_arr []) as S5 by (apply st_run; exact px_run_5).
  pose proof (proxy_forwards blank J [72; 33] px_5 px_arr [] S5) as H. split; [exact S5|].
  split; [destruct (H Server) as ((rd & E1 & E2) & _); exists rd; split; [rewrite E1; f_equal; vm_compute; reflexivity|rewrite <- E2; vm_compute; reflexivity]|].
  split; [destruct (H Client) as (_ & E & _); rewrite E; vm_compute; reflexivity|].
  destruct (verify_failed blank [72; 33] px_2) as [p'| |] eqn:Ev; [|exfalso; clear - Ev; vm_compute in Ev; discriminate..].
  assert (px_states blank [72; 33] p' px_arr [72; 33]) as S6 by (apply (st_refused _ _ px_2 px_arr p'); [exact px_run_2|vm_compute; reflexivity|vm_compute; reflexivity|done|cbn; lia|exact Ev]).
  destruct (proxy_forwards blank J [72; 33] p' px_arr [72; 33] S6 Client) as ((rd & E1 & E2) & _). exists p', rd. split; [reflexivity|]. split; [exact E1|exact E2].
Defined.

Lemma proxy_returns_witness : px_reach blank px_5 px_arr ∧ ∃ p', end_readReady blank px_5 Client = Ok p'.
Proof.
  assert (blank ≠ []) as J by done. split; [exact px_run_5|].
  destruct (proxy_returns blank J px_5 px_arr Client px_run_5) as [H _]; [vm_compute; reflexivity|].
  destruct (H ltac:(vm_compute; reflexivity)) as [E _]. exact E.
Defined.

Definition px_more : Proxy := arrive_at px_3 Server [7] [MkIo 1 0] [].

Lemma host_mismatch_crashes_witness : sf_state (fd_of px_more Client) = Fd.TlsConnect ∧ end_readReady blank (host_mismatch px_more) Server = Ub.
Proof.
  assert (blank ≠ []) as J by done. split; [vm_compute; reflexivity|].
  apply (host_mismatch_crashes blank J px_more (λ t, if decide (t = Server) then px_arr t ++ [7] else px_arr t) (MkIo 1 0) []);
    [apply px_arrive; [exact px_run_3|constructor]|vm_compute; congruence..].
Defined.

Lemma verify_failure_closes_witness : ∃ p', verify_failed blank [72; 33] px_2 = Ok p' ∧ dead p' ∧ io_tls (peer_of p' Server) = [].
Proof.
  assert (blank ≠ []) as J by done.
  destruct (verify_failure_closes blank J px_2 px_arr [72; 33] px_run_2) as (p' & E & D & _ & T); [vm_compute; reflexivity|vm_compute; reflexivity|done|cbn; lia|].
  exists p'. split; [exact E|]. split; [exact D|]. rewrite T; vm_compute; reflexivity.
Defined.

Lemma partial_write_repeats_witness : ∃ d', consume (desc_of px_4 Client) 2 = Ok d' ∧ buffered d' = [3; 4; 5] ∧ writeFrom d' (writeAvail d') = Ok [1; 2].
Proof.
  assert (blank ≠ []) as J by done.
  destruct (partial_write_repeats blank (desc_of px_4 Client) (MkWriteBlock [1; 2; 3; 4] 0 4) [MkWriteBlock [5; 0; 0; 0] 0 1] 2) as (d' & E & B & W).
  - change (fd_wbList (desc_of px_4 Client)) with [MkWriteBlock [1; 2; 3; 4] 0 4; MkWriteBlock [5; 0; 0; 0] 0 1].
    split; repeat constructor; cbn; lia.
  - vm_compute; reflexivity.
  - done.
  - cbn; lia.
  - exists d'. split; [exact E|]. split; [rewrite B|rewrite W]; vm_compute; reflexivity.
Defined.
