(* ===== verification/Tcp.v ===== *)
(** * parse/tcp.cc, handler.cc, udp.cc: following TCP connections

    The handler takes frames as they were captured, finds the connection a segment
    belongs to by its addresses and ports, follows the handshake, and hands the bytes
    of established connections to the identifier and then to the parsers of the half
    they came from.  A frame that takes several pages of a ring is continued by the
    pages that follow.  The identifier and the parsers are machines in the Ragel
    language, and the dictionary is of the library aapl: interfaces below. *)

From S2P Require Import Prelude.

(** ** parse/packet.h *)

Inductive Dir := Ingress | Egress | UnknownDir.

#[export] Instance dir_eq_dec : EqDecision Dir.
Proof. solve_decision. Defined.

(** The fields of a TCP header that are used, in host order but for the ports, which are
    only compared. *)
Record tcphdr := MkTcphdr {
  th_source : Z;
  th_dest : Z;
  th_seq : Z;
  th_ack_seq : Z;
  th_doff : Z;
  th_fin : bool;
  th_syn : bool;
  th_ack : bool;
}.

Record iphdr := MkIphdr {
  ih_ihl : Z;
  ih_tot_len : Z;
  ih_protocol : Z;
  ih_saddr : Z;
  ih_daddr : Z;
}.

(** A packet, of which [pk_data] is the memory from [data] to the end of the buffer. *)
Record Packet := MkPacket {
  pk_dir : Dir;
  pk_ih : iphdr;
  pk_th : tcphdr;
  pk_data : list Z;
  pk_dlen : Z;
  pk_caplen : Z;
}.

(** ** Halves and connections *)

(** The addresses and ports of a half, by which it is found. *)
Record Key := MkKey {
  addr1 : Z;
  addr2 : Z;
  port1 : Z;
  port2 : Z;
}.

#[export] Instance key_eq_dec : EqDecision Key.
Proof. solve_decision. Defined.

Definition swapDir (k : Key) : Key := MkKey (addr2 k) (addr1 k) (port2 k) (port1 k).

(** CmpHalf::compare *)
Definition cmp_half (h1 h2 : Key) : Z :=
  if addr1 h1 <? addr1 h2 then -1
  else if addr1 h2 <? addr1 h1 then 1
  else if addr2 h1 <? addr2 h2 then -1
  else if addr2 h2 <? addr2 h1 then 1
  else if port1 h1 <? port1 h2 then -1
  else if port1 h2 <? port1 h1 then 1
  else if port2 h1 <? port2 h2 then -1
  else if port2 h2 <? port2 h1 then 1
  else 0.

Inductive HalfId := H1 | H2.

#[export] Instance half_id_eq_dec : EqDecision HalfId.
Proof. solve_decision. Defined.

(** A pointer to a half: its connection, and which of the two. *)
Abbreviation HalfPtr := (nat * HalfId)%type.

(** AvlSet<Half*, CmpHalf>: an insertion keeps an element that is there already. *)
Class HalfDictLib := {
  HalfDict : Type;
  hd_empty : HalfDict;
  hd_find : HalfDict → Key → option HalfPtr;
  hd_insert : HalfDict → Key → HalfPtr → HalfDict;
  hd_find_empty k : hd_find hd_empty k = None;
  hd_find_insert d k p k' :
    hd_find (hd_insert d k p) k' =
    match hd_find d k with
    | Some _ => hd_find d k'
    | None => if decide (cmp_half k k' = 0) then Some p else hd_find d k'
    end;
}.

(** Identifier::Proto *)
Inductive IdProto := IdWorking | HTTP_REQ | HTTP_RSP | IdUnknown.

(** The identifier, and the two HTTP parsers of a connection with their contexts:
    [http_new] is making and starting them, [http_receive] what the parser of a half
    does with bytes.  A started identifier has not decided. *)
Class Parsers := {
  Ident : Type;
  ident_made : Ident;
  ident_start : Ident → Ident;
  ident_receive : Ident → list Z → Ident;
  ident_proto : Ident → IdProto;
  ident_start_working i : ident_proto (ident_start i) = IdWorking;
  Http : Type;
  http_new : Http;
  http_receive : Http → HalfId → list Z → Http;
}.

Module Cn.
Inductive State := Syn | SynAck | Established.
Inductive Proto := Working | HTTP | Unknown.
End Cn.

#[export] Instance cn_state_eq_dec : EqDecision Cn.State.
Proof. solve_decision. Defined.
#[export] Instance cn_proto_eq_dec : EqDecision Cn.Proto.
Proof. solve_decision. Defined.

Section Handler.
Context `{HalfDictLib, Parsers}.

Record Half := MkHalf {
  hf_key : Key;
  hf_seq : Z;
  hf_ident : Ident;
}.

(** [cn_http]: the parsers of the halves, which are made together. *)
Record Conn := MkConn {
  cn_h1 : Half;
  cn_h2 : Half;
  cn_dir : Dir;
  cn_state : Cn.State;
  cn_proto : Cn.Proto;
  cn_http : option Http;
}.

Definition half_of (c : Conn) (s : HalfId) : Half := match s with H1 => cn_h1 c | H2 => cn_h2 c end.
Definition set_half (c : Conn) (s : HalfId) (x : Half) : Conn :=
  match s with
  | H1 => MkConn x (cn_h2 c) (cn_dir c) (cn_state c) (cn_proto c) (cn_http c)
  | H2 => MkConn (cn_h1 c) x (cn_dir c) (cn_state c) (cn_proto c) (cn_http c)
  end.

Definition set_seq (x : Half) (v : Z) : Half := MkHalf (hf_key x) v (hf_ident x).
Definition set_ident (x : Half) (i : Ident) : Half := MkHalf (hf_key x) (hf_seq x) i.
Definition set_cn_state (c : Conn) (st : Cn.State) : Conn :=
  MkConn (cn_h1 c) (cn_h2 c) (cn_dir c) st (cn_proto c) (cn_http c).
Definition set_seqs (c : Conn) (s1 s2 : Z) : Conn :=
  set_half (set_half c H1 (set_seq (cn_h1 c) s1)) H2 (set_seq (cn_h2 c) s2).

(** Conn::Conn( netpConfigure, key ), with the state and direction set after it. *)
Definition new_Conn (key : Key) (dir : Dir) (st : Cn.State) (s1 s2 : Z) : Conn :=
  MkConn (MkHalf key s1 ident_made) (MkHalf (swapDir key) s2 ident_made) dir st Cn.Working None.

Definition established (c : Conn) : Conn :=
  set_half (set_half c H1 (set_ident (cn_h1 c) (ident_start (hf_ident (cn_h1 c)))))
    H2 (set_ident (cn_h2 c) (ident_start (hf_ident (cn_h2 c)))).

(** ** The handler *)

(** [h_dns]: the bytes handed to the DNS parser.  [h_cont]: of the packet that is
    continued, its connection and half. *)
Record Handler := MkHandler {
  h_conns : list Conn;
  h_halfDict : HalfDict;
  h_continuation : bool;
  h_cont : HalfPtr;
  h_dns : list (list Z);
}.

Definition new_Handler : Handler := MkHandler [] hd_empty false (0%nat, H1) [].

Definition put_conn (h : Handler) (i : nat) (c : Conn) : Handler :=
  MkHandler (<[i := c]> (h_conns h)) (h_halfDict h) (h_continuation h) (h_cont h) (h_dns h).
Definition set_continuation (h : Handler) (b : bool) (p : HalfPtr) : Handler :=
  MkHandler (h_conns h) (h_halfDict h) b p (h_dns h).

Inductive SaBits := SA_SYN | SA_SYN_ACK | SA_ACK | SA_NONE.

Definition synAckBits (th : tcphdr) : SaBits :=
  match th_syn th, th_ack th with
  | true, false => SA_SYN
  | true, true => SA_SYN_ACK
  | false, true => SA_ACK
  | false, false => SA_NONE
  end.

(** The connection made for a packet that belongs to none. *)
Definition created (p : Packet) (key : Key) : Conn :=
  let th := pk_th p in
  match synAckBits th with
  | SA_SYN => new_Conn key (pk_dir p) Cn.Syn (th_seq th) 0
  | SA_SYN_ACK =>
      new_Conn (swapDir key) (match pk_dir p with Ingress => Egress | _ => Ingress end) Cn.SynAck (th_ack_seq th) (th_seq th)
  | SA_ACK =>
      let key := match pk_dir p with Ingress => swapDir key | _ => key end in
      established (new_Conn key (pk_dir p) Cn.Established (th_seq th) (th_ack_seq th))
  | SA_NONE =>
      let key := match pk_dir p with Ingress => swapDir key | _ => key end in
      established (new_Conn key UnknownDir Cn.Established (th_ack_seq th) (th_seq th))
  end.

Definition createConnection (h : Handler) (p : Packet) (key : Key) : Handler :=
  let c := created p key in
  let i := length (h_conns h) in
  let d := hd_insert (h_halfDict h) (hf_key (cn_h1 c)) (i, H1) in
  let d := hd_insert d (hf_key (cn_h2 c)) (i, H2) in
  MkHandler (h_conns h ++ [c]) d (h_continuation h) (h_cont h) (h_dns h).

Definition flowSynState (c : Conn) (p : Packet) : Conn :=
  if bool_decide (pk_dir p = cn_dir c) then c
  else match synAckBits (pk_th p) with
  | SA_SYN_ACK => set_seqs (set_cn_state c Cn.SynAck) (u32 (hf_seq (cn_h1 c) + 1)) (th_seq (pk_th p))
  | _ => c
  end.

Definition flowSynAckState (c : Conn) (p : Packet) : Conn :=
  if bool_decide (pk_dir p = cn_dir c) then
    match synAckBits (pk_th p) with
    | SA_ACK => established (set_seqs (set_cn_state c Cn.Established) (hf_seq (cn_h1 c)) (u32 (hf_seq (cn_h2 c) + 1)))
    | _ => c
    end
  else c.

(** What the identifier of the half, and then its parser, do with some bytes. *)
Definition identify (c : Conn) (s : HalfId) (data : list Z) : Conn :=
  if bool_decide (cn_proto c = Cn.Working) then
    let x := half_of c s in
    let i := ident_receive (hf_ident x) data in
    let c := set_half c s (set_ident x i) in
    match ident_proto i with
    | HTTP_REQ | HTTP_RSP => MkConn (cn_h1 c) (cn_h2 c) (cn_dir c) (cn_state c) Cn.HTTP (Some http_new)
    | _ => c
    end
  else c.

Definition parse (c : Conn) (s : HalfId) (data : list Z) : Conn :=
  match cn_http c with
  | Some ps => MkConn (cn_h1 c) (cn_h2 c) (cn_dir c) (cn_state c) (cn_proto c) (Some (http_receive ps s data))
  | None => c
  end.

(** [caplen] bytes at [data]; the parsers walk from the first to the end, and do not
    stop when the end is before it. *)
Definition payload (p : Packet) : res (list Z) :=
  if pk_caplen p <? 0 then Ub else mem_load (pk_data p) 0 (Z.to_nat (pk_caplen p)).

Definition flowData (c : Conn) (s : HalfId) (p : Packet) : res Conn :=
  data ← payload p;
  Ok (parse (identify c s data) s data).

(** [th] is what is in memory at the TCP header of the packet, which for a packet that
    is continued is in a page read before. *)
Definition flowEstabState (h : Handler) (i : nat) (s : HalfId) (p : Packet) (th : tcphdr) : res Handler :=
  c ← deref (h_conns h !! i);
  c ← flowData c s p;
  if pk_caplen p <? pk_dlen p then Ok (set_continuation (put_conn h i c) true (i, s))
  else
    let c := set_half c s (set_seq (half_of c s) (u32 (th_seq th + pk_dlen p))) in
    Ok (set_continuation (put_conn h i c) false (h_cont h)).

Definition flow (h : Handler) (i : nat) (s : HalfId) (p : Packet) : res Handler :=
  c ← deref (h_conns h !! i);
  match cn_state c with
  | Cn.Syn => Ok (put_conn h i (flowSynState c p))
  | Cn.SynAck => Ok (put_conn h i (flowSynAckState c p))
  | Cn.Established => flowEstabState h i s p (pk_th p)
  end.

Definition packet_key (p : Packet) : Key :=
  MkKey (ih_saddr (pk_ih p)) (ih_daddr (pk_ih p)) (th_source (pk_th p)) (th_dest (pk_th p)).

Definition tcp (h : Handler) (p : Packet) : res Handler :=
  match hd_find (h_halfDict h) (packet_key p) with
  | Some (i, s) => flow h i s p
  | None => Ok (createConnection h p (packet_key p))
  end.

(** ** Frames *)

Definition be_val (bs : list Z) : Z := le_val (rev bs).

Definition be_at (m : list Z) (off n : nat) : res Z := bs ← mem_load m off n; Ok (be_val bs).
Definition le_at (m : list Z) (off n : nat) : res Z := bs ← mem_load m off n; Ok (le_val bs).

Definition sizeof_ethhdr : nat := 14.
Definition ETH_P_IP : Z := 2048.
Definition IPPROTO_TCP : Z := 6.
Definition IPPROTO_UDP : Z := 17.

Definition read_iphdr (bytes : list Z) : res iphdr :=
  v ← le_at bytes 14 1;
  tot ← be_at bytes 16 2;
  proto ← le_at bytes 23 1;
  saddr ← le_at bytes 26 4;
  daddr ← le_at bytes 30 4;
  Ok (MkIphdr (Z.land v 15) tot proto saddr daddr).

Definition read_tcphdr (bytes : list Z) (off : nat) : res tcphdr :=
  source ← le_at bytes off 2;
  dest ← le_at bytes (off + 2) 2;
  seq ← be_at bytes (off + 4) 4;
  ack_seq ← be_at bytes (off + 8) 4;
  d ← le_at bytes (off + 12) 1;
  f ← le_at bytes (off + 13) 1;
  Ok (MkTcphdr source dest seq ack_seq (Z.shiftr d 4) (Z.testbit f 0) (Z.testbit f 1) (Z.testbit f 4)).

(** The compiled filters on source and destination. *)
Variable srcProtected dstProtected : list Z → bool.

Definition direction (dir : Dir) (bytes : list Z) : option Dir :=
  match dir with
  | UnknownDir =>
      match srcProtected bytes, dstProtected bytes with
      | true, false => Some Egress
      | false, true => Some Ingress
      | _, _ => None
      end
  | _ => Some dir
  end.

(** Handler::udp: [dlen] bytes go to the DNS parser. *)
Definition udp (h : Handler) (bytes : list Z) (off : nat) (dlen : Z) : res Handler :=
  source ← be_at bytes off 2;
  dest ← be_at bytes (off + 2) 2;
  if (source =? 53) || (dest =? 53) then
    data ← (if dlen <? 0 then Ub else mem_load bytes (off + 8) (Z.to_nat dlen));
    Ok (MkHandler (h_conns h) (h_halfDict h) (h_continuation h) (h_cont h) (h_dns h ++ [data]))
  else Ok h.

(** The packet of a frame with a TCP segment. *)
Definition tcp_packet (dir : Dir) (caplen : Z) (bytes : list Z) (ih : iphdr) : res Packet :=
  let ihlen := ih_ihl ih * 4 in
  let off := (sizeof_ethhdr + Z.to_nat ihlen)%nat in
  th ← read_tcphdr bytes off;
  let thlen := th_doff th * 4 in
  Ok (MkPacket dir ih th (drop (off + Z.to_nat thlen) bytes) (ih_tot_len ih - thlen - ihlen)
    (i32 (caplen - thlen - ihlen - Z.of_nat sizeof_ethhdr))).

(** [bytes] is the memory from the start of the frame on, [th_then] what is now at the
    TCP header of the packet that is continued. *)
Definition handler (h : Handler) (dir : Dir) (len caplen : Z) (bytes : list Z) (th_then : tcphdr) : res Handler :=
  if h_continuation h then
    let '(i, s) := h_cont h in
    flowEstabState h i s (MkPacket UnknownDir (MkIphdr 0 0 0 0 0) th_then bytes (i32 len) (i32 caplen)) th_then
  else
    proto ← be_at bytes 12 2;
    if proto =? ETH_P_IP then
      match direction dir bytes with
      | None => Ok h
      | Some dir =>
          ih ← read_iphdr bytes;
          if ih_protocol ih =? IPPROTO_TCP then
            p ← tcp_packet dir caplen bytes ih;
            tcp h p
          else if ih_protocol ih =? IPPROTO_UDP then
            let ihlen := ih_ihl ih * 4 in
            udp h bytes (sizeof_ethhdr + Z.to_nat ihlen) (ih_tot_len ih - 8 - ihlen)
          else Ok h
      end
    else Ok h.
End Handler.
