(* ===== verification/TcpFlow.v ===== *)
(** * Connections are followed one by one

    The dictionary finds the connection between the endpoints of a packet whichever way
    it goes, so that what the handler knows of a connection depends on the packets
    between its endpoints only. *)

From S2P Require Import Prelude AvlInsert Tcp.

(** The comparison of halves is an order, as the dictionary needs it. *)
#[export] Instance cmp_half_order : CmpOrder cmp_half.
Proof.
  split; intros [a b c d] [a' b' c' d']; unfold cmp_half; cbn.
  - repeat match goal with |- context [?x <? ?y] => destruct (Z.ltb_spec x y) end; (split; [intros; try lia; f_equal; lia|intros [= -> -> -> ->]; lia]).
  - repeat match goal with |- context [?x <? ?y] => destruct (Z.ltb_spec x y); try lia end.
  - intros [a'' b'' c'' d'']. cbn.
    repeat match goal with |- context [?x <? ?y] => destruct (Z.ltb_spec x y); try lia end.
Qed.

Lemma swap_swap k : swapDir (swapDir k) = k.
Proof. by destruct k. Qed.

Lemma swap_inj k l : swapDir k = swapDir l → k = l.
Proof. intros E. rewrite <- (swap_swap k), E. apply swap_swap. Qed.

Section Flow.
Context `{HalfDictLib, Parsers}.

Lemma find_insert d k p k' : hd_find (hd_insert d k p) k' =
  match hd_find d k with Some _ => hd_find d k' | None => if decide (k = k') then Some p else hd_find d k' end.
Proof.
  rewrite hd_find_insert. destruct (hd_find d k); [done|].
  destruct (decide (cmp_half k k' = 0)) as [E|E], (decide (k = k')) as [E'|E']; try done; by apply (cmp_zero k k') in E || by apply (cmp_zero k k') in E'.
Qed.

(** ** The invariant *)

(** The half of a connection that sends from [addr1 k] to [addr2 k]. *)
Definition side_of (c : Conn) (k : Key) : HalfId := if decide (hf_key (cn_h1 c) = k) then H1 else H2.

Definition between (k : Key) (p : Packet) : Prop := packet_key p = k ∨ packet_key p = swapDir k.

#[export] Instance between_dec k p : Decision (between k p).
Proof. unfold between. apply _. Defined.

(** The connection between the endpoints of [k]. *)
Definition view (h : Handler) (k : Key) : option Conn :=
  match hd_find (h_halfDict h) k with Some (i, _) => h_conns h !! i | None => None end.

Record conn_ok (c : Conn) : Prop := ConnOk {
  co_keys : hf_key (cn_h2 c) = swapDir (hf_key (cn_h1 c));
  co_http : cn_proto c = Cn.HTTP ∧ is_Some (cn_http c) ∨ cn_proto c = Cn.Working ∧ cn_http c = None;
}.

Record handler_ok (h : Handler) : Prop := HandlerOk {
  ho_conns : ∀ i c, h_conns h !! i = Some c → conn_ok c ∧ ∀ k, hf_key (cn_h1 c) = k ∨ hf_key (cn_h1 c) = swapDir k → hd_find (h_halfDict h) k = Some (i, side_of c k);
  ho_dict : ∀ k i s, hd_find (h_halfDict h) k = Some (i, s) → ∃ c, h_conns h !! i = Some c ∧ (hf_key (cn_h1 c) = k ∨ hf_key (cn_h1 c) = swapDir k);
}.

Lemma new_handler_ok : handler_ok new_Handler.
Proof. split; [done|]. intros k i s. cbn. by rewrite hd_find_empty. Qed.

Lemma find_view h k : handler_ok h → match view h k with
  | Some c => ∃ i, hd_find (h_halfDict h) k = Some (i, side_of c k) ∧ h_conns h !! i = Some c ∧ conn_ok c ∧ (hf_key (cn_h1 c) = k ∨ hf_key (cn_h1 c) = swapDir k)
  | None => hd_find (h_halfDict h) k = None
  end.
Proof.
  intros [Hc Hd]. unfold view. destruct (hd_find (h_halfDict h) k) as [[i s]|] eqn:E; [|done]. destruct (Hd k i s E) as (c & Ec & Hk). rewrite Ec.
  destruct (Hc i c Ec) as [Ok Hf]. exists i. split_and!; [|done..]. rewrite <- E. by apply Hf.
Qed.

Lemma view_swap h k : handler_ok h → view h (swapDir k) = view h k.
Proof.
  intros Ho. pose proof (find_view h k Ho) as V. pose proof (find_view h (swapDir k) Ho) as W.
  destruct (view h k) as [c|] eqn:Ev.
  - destruct V as (i & _ & Ec & _ & Hk). destruct Ho as [Hc _]. destruct (Hc i c Ec) as [_ Hf]. unfold view. rewrite (Hf (swapDir k)); [done|]. rewrite swap_swap. naive_solver.
  - destruct (view h (swapDir k)) as [c|]; [|done]. destruct W as (i & _ & Ec & _ & Hk). destruct Ho as [Hc _]. destruct (Hc i c Ec) as [_ Hf].
    rewrite swap_swap in Hk. rewrite (Hf k) in V by naive_solver. done.
Qed.

(** ** Changing one connection *)

Lemma put_ok h i c c' : handler_ok h → h_conns h !! i = Some c → conn_ok c' → hf_key (cn_h1 c') = hf_key (cn_h1 c) → handler_ok (put_conn h i c').
Proof.
  intros [Hc Hd] Ec Ok Ek. pose proof (lookup_lt_Some _ _ _ Ec) as Hi. split.
  - intros j d. cbn. destruct (decide (i = j)) as [<-|N].
    + rewrite list_lookup_insert_eq by done. intros [= <-]. split; [done|]. intros k Hk. unfold side_of. rewrite Ek in *. by apply (Hc i c).
    + rewrite list_lookup_insert_ne by done. apply Hc.
  - intros k j s E. cbn in *. destruct (Hd k j s E) as (d & Ed & Hk). destruct (decide (i = j)) as [<-|N].
    + rewrite list_lookup_insert_eq by done. exists c'. split; [done|]. rewrite Ek. by simplify_eq.
    + rewrite list_lookup_insert_ne by done. eauto.
Qed.

Lemma view_put_eq h i s k c c' : hd_find (h_halfDict h) k = Some (i, s) → h_conns h !! i = Some c → view (put_conn h i c') k = Some c'.
Proof. intros E Ec. unfold view. cbn. rewrite E. apply list_lookup_insert_eq. by eapply lookup_lt_Some. Qed.

Lemma view_put_ne h i k c c' : handler_ok h → h_conns h !! i = Some c → hf_key (cn_h1 c) ≠ k → hf_key (cn_h1 c) ≠ swapDir k → view (put_conn h i c') k = view h k.
Proof.
  intros [_ Hd] Ec N1 N2. unfold view. cbn. destruct (hd_find (h_halfDict h) k) as [[j s]|] eqn:E; [|done].
  rewrite list_lookup_insert_ne; [done|]. intros <-. destruct (Hd k i s E) as (d & Ed & Hk). simplify_eq. naive_solver.
Qed.

(** ** A new connection *)

Lemma new_conn_ok key dir st s1 s2 : conn_ok (new_Conn key dir st s1 s2).
Proof. split; [done|by right]. Qed.
Lemma established_ok c : conn_ok c → conn_ok (established c).
Proof. intros [E1 E2]. by split. Qed.

Lemma created_ok p k : conn_ok (created p k) ∧ (hf_key (cn_h1 (created p k)) = k ∨ hf_key (cn_h1 (created p k)) = swapDir k).
Proof.
  unfold created. split; [by repeat case_match; try apply established_ok; apply new_conn_ok|]. repeat case_match; cbn; auto.
Qed.

Lemma create_ok h p k : handler_ok h → view h k = None → let h' := createConnection h p k in
  handler_ok h' ∧ view h' k = Some (created p k) ∧ ∀ l, l ≠ k → l ≠ swapDir k → view h' l = view h l.
Proof.
  intros Ho Ev h'. pose proof (find_view h k Ho) as V. rewrite Ev in V. pose proof (find_view h (swapDir k) Ho) as W. rewrite view_swap, Ev in W by done.
  destruct (created_ok p k) as [Ok Hk]. set (c := created p k) in *. set (i := length (h_conns h)).
  assert (∀ l, hd_find (h_halfDict h') l = if decide (l = k ∨ l = swapDir k) then Some (i, side_of c l) else hd_find (h_halfDict h) l) as F.
  { intros l. cbn. fold c i. rewrite !find_insert, (co_keys c Ok). unfold side_of.
    destruct Hk as [-> | ->]; rewrite ?swap_swap, ?V, ?W; repeat case_decide; naive_solver. }
  destruct Ho as [Hc Hd].
  assert (∀ j d, h_conns h' !! j = Some d ↔ h_conns h !! j = Some d ∨ j = i ∧ d = c) as L.
  { intros j d. cbn. fold c. destruct (decide (j < i)%nat) as [Hj|Hj].
    - rewrite lookup_app_l by done. split; [by left|]. intros [?|[-> _]]; [done|lia].
    - rewrite lookup_app_r by (unfold i in Hj; lia). assert (h_conns h !! j = None) as -> by (apply lookup_ge_None; unfold i in Hj; lia).
      rewrite list_lookup_singleton_Some. unfold i. split; [intros [? ->]; right; split; [lia|done]|]. intros [?|[-> ->]]; [done|]. split; [lia|done]. }
  split_and!.
  - split.
    + intros j d [Ed|[-> ->]]%L.
      * destruct (Hc j d Ed) as [Okd Hf]. split; [done|]. intros l Hl. rewrite F. case_decide as Dl; [|by apply Hf]. exfalso. pose proof (Hf l Hl) as Fl.
        destruct Dl as [->| ->]; congruence.
      * split; [done|]. intros l Hl. rewrite F. rewrite decide_True; [done|]. destruct Hk as [Hk|Hk], Hl as [Hl|Hl]; rewrite Hk in Hl; [by left|right; by rewrite Hl, swap_swap|by right|left; by apply swap_inj].
    + intros l j s. rewrite F. case_decide as Dl; [intros [= <- <-]|].
      * exists c. split; [apply L; by right|]. destruct Dl as [-> | ->]; rewrite ?swap_swap; naive_solver.
      * intros E. destruct (Hd l j s E) as (d & Ed & Hl). exists d. split; [apply L; by left|done].
  - unfold view. rewrite F, decide_True by auto. apply L. by right.
  - intros l N1 N2. unfold view. rewrite F, decide_False by naive_solver. destruct (hd_find (h_halfDict h) l) as [[j s]|] eqn:E; [|done].
    destruct (Hd l j s E) as (d & Ed & _). rewrite Ed. apply L. by left.
Qed.

(** ** One packet *)

(** What a packet does to the connection between its endpoints. *)
Definition conn_step (o : option Conn) (p : Packet) : res Conn :=
  match o with
  | None => Ok (created p (packet_key p))
  | Some c =>
      match cn_state c with
      | Cn.Syn => Ok (flowSynState c p)
      | Cn.SynAck => Ok (flowSynAckState c p)
      | Cn.Established =>
          let s := side_of c (packet_key p) in
          c ← flowData c s p;
          Ok (set_half c s (set_seq (half_of c s) (u32 (th_seq (pk_th p) + pk_dlen p))))
      end
  end.

(** A packet that was captured whole. *)
Definition whole (p : Packet) : Prop := 0 ≤ pk_caplen p ≤ Z.of_nat (length (pk_data p)) ∧ pk_dlen p ≤ pk_caplen p.

Definition payload_of (p : Packet) : list Z := take (Z.to_nat (pk_caplen p)) (pk_data p).

Lemma whole_payload p : whole p → payload p = Ok (payload_of p).
Proof. intros [Hc _]. unfold payload. destruct (Z.ltb_spec (pk_caplen p) 0); [lia|]. unfold mem_load. rewrite decide_True by lia. done. Qed.

Lemma flowSyn_ok c p : conn_ok c → conn_ok (flowSynState c p) ∧ hf_key (cn_h1 (flowSynState c p)) = hf_key (cn_h1 c).
Proof. intros [E1 E2]. unfold flowSynState. case_bool_decide; [done|]. case_match; done. Qed.

Lemma flowSynAck_ok c p : conn_ok c → conn_ok (flowSynAckState c p) ∧ hf_key (cn_h1 (flowSynAckState c p)) = hf_key (cn_h1 c).
Proof. intros [E1 E2]. unfold flowSynAckState. case_bool_decide; [|done]. case_match; done. Qed.

Lemma parse_ok c s data : conn_ok c → conn_ok (parse (identify c s data) s data) ∧ hf_key (cn_h1 (parse (identify c s data) s data)) = hf_key (cn_h1 c) ∧
  cn_state (parse (identify c s data) s data) = cn_state c ∧ cn_dir (parse (identify c s data) s data) = cn_dir c.
Proof.
  intros [E1 E2]. unfold parse, identify. destruct E2 as [[Ep [ps Eh]]|[Ep Eh]].
  - rewrite bool_decide_false by congruence. rewrite Eh. split_and!; try done. split; [done|left]. done.
  - rewrite bool_decide_true by done. destruct (ident_proto _); destruct s; cbn; rewrite ?Eh; split_and!; try done; split; cbn; auto; left; split; done || by eexists.
Qed.

Lemma set_seq_ok c s v : conn_ok c → conn_ok (set_half c s (set_seq (half_of c s) v)) ∧ hf_key (cn_h1 (set_half c s (set_seq (half_of c s) v))) = hf_key (cn_h1 c).
Proof. intros [E1 E2]. by destruct s. Qed.

Lemma conn_step_ok o p : whole p → (∀ c, o = Some c → conn_ok c ∧ (hf_key (cn_h1 c) = packet_key p ∨ hf_key (cn_h1 c) = swapDir (packet_key p))) →
  ∃ c', conn_step o p = Ok c' ∧ conn_ok c' ∧ (∀ c, o = Some c → hf_key (cn_h1 c') = hf_key (cn_h1 c)).
Proof.
  intros Wh Ho. destruct o as [c|]; cbn.
  - destruct (Ho c eq_refl) as [Ok Hk]. destruct (cn_state c).
    + destruct (flowSyn_ok c p Ok). eexists. split; [done|]. split; [done|]. by intros ? [= <-].
    + destruct (flowSynAck_ok c p Ok). eexists. split; [done|]. split; [done|]. by intros ? [= <-].
    + unfold flowData. rewrite (whole_payload p Wh), !bind_Ok. set (s := side_of c _). destruct (parse_ok c s (payload_of p) Ok) as (O1 & E1 & _).
      set (c1 := parse _ _ _) in *. destruct (set_seq_ok c1 s (u32 (th_seq (pk_th p) + pk_dlen p)) O1) as [O2 E2]. eexists. split; [done|]. split; [done|].
      intros ? [= <-]. by rewrite E2.
  - eexists. split; [done|]. split; [apply created_ok|done].
Qed.

(** The handler does that to the connection of the packet, and nothing to others. *)
Lemma tcp_ok h p : handler_ok h → h_continuation h = false → whole p → ∃ h' c', tcp h p = Ok h' ∧ handler_ok h' ∧ h_continuation h' = false ∧
  conn_step (view h (packet_key p)) p = Ok c' ∧ view h' (packet_key p) = Some c' ∧ (∀ k, ¬ between k p → view h' k = view h k).
Proof.
  intros Ho Cf Wh. set (k := packet_key p). pose proof (find_view h k Ho) as V. unfold tcp. fold k. destruct (view h k) as [c|] eqn:Ev.
  - destruct V as (i & Ef & Ec & Ok & Hk). destruct (conn_step_ok (Some c) p Wh) as (c' & Es & Ok' & Ek); [intros ? [= <-]; done|].
    specialize (Ek c eq_refl). exists (put_conn h i c'), c'. rewrite Ef. split_and!.
    + unfold flow. rewrite Ec. cbn [deref]. rewrite bind_Ok. cbn in Es. fold k in Es. destruct (cn_state c); [by injection Es as <-..|].
      unfold flowEstabState. rewrite Ec. cbn [deref]. rewrite bind_Ok. destruct (flowData c (side_of c k) p) as [c1| |]; [|done..]. rewrite bind_Ok in *.
      destruct Wh as [_ Wh]. destruct (Z.ltb_spec (pk_caplen p) (pk_dlen p)); [lia|]. injection Es as <-. unfold set_continuation, put_conn. cbn. by rewrite Cf.
    + by eapply put_ok.
    + done.
    + done.
    + by eapply view_put_eq.
    + intros l Nb. unfold between in Nb. fold k in Nb. eapply view_put_ne; [done..| |]; intros E; apply Nb; destruct Hk as [Hk|Hk]; rewrite Hk in E.
      * by left.
      * right. by rewrite <- E, swap_swap.
      * by right.
      * left. by apply swap_inj.
  - rewrite V. destruct (create_ok h p k Ho Ev) as (Ho' & Ev' & El). eexists _, (created p k). split_and!; [done..|]. intros l Nb. unfold between in Nb. fold k in Nb.
    apply El; [naive_solver|]. intros ->. rewrite swap_swap in Nb. naive_solver.
Qed.
End Flow.
