(* ===== verification/TcpProps.v ===== *)
(** * What the handler promises about connections

    Any interleaving of packets of any connections; the handshake and the data after it;
    frames that come in several pages of a ring. *)

From S2P Require Import Prelude AvlInsert Tcp TcpFlow.

Section Props.
Context `{HalfDictLib, Parsers}.

Fixpoint tcp_run (h : Handler) (ps : list Packet) : res Handler :=
  match ps with [] => Ok h | p :: ps => h ← tcp h p; tcp_run h ps end.

(** The packets of one connection. *)
Fixpoint conn_run (o : option Conn) (ps : list Packet) : res (option Conn) :=
  match ps with [] => Ok o | p :: ps => c ← conn_step o p; conn_run (Some c) ps end.

Lemma run_view ps : ∀ h, handler_ok h → h_continuation h = false → Forall whole ps →
  ∃ h', tcp_run h ps = Ok h' ∧ handler_ok h' ∧ h_continuation h' = false ∧ ∀ k, conn_run (view h k) (filter (between k) ps) = Ok (view h' k).
Proof.
  induction ps as [|p ps IH]; intros h Ho Cf Wh; [exists h; done|]. cbn [tcp_run]. apply Forall_cons in Wh as [Wp Wh].
  destruct (tcp_ok h p Ho Cf Wp) as (h1 & c1 & -> & Ho1 & Cf1 & Es & Ev & El). rewrite bind_Ok. destruct (IH h1 Ho1 Cf1 Wh) as (h' & E' & Ho' & Cf' & V).
  exists h'. split_and!; [done..|]. intros k. rewrite filter_cons. case_decide as B; [cbn [conn_run]|].
  - assert (view h (packet_key p) = view h k ∧ view h1 (packet_key p) = view h1 k) as [E1 E2].
    { destruct B as [-> | ->]; [done|]. by rewrite !view_swap. }
    rewrite E1 in Es. rewrite Es, bind_Ok. rewrite E2 in Ev. rewrite <- Ev. apply V.
  - rewrite <- El by done. apply V.
Qed.

Lemma whole_filter k ps : Forall whole ps → Forall whole (filter (between k) ps) ∧ Forall (between k) (filter (between k) ps).
Proof. rewrite !Forall_forall. intros W. split; intros x [B Hx]%list_elem_of_filter; auto. Qed.

Lemma view_new k : view new_Handler k = None.
Proof. unfold view. cbn. by rewrite hd_find_empty. Qed.

Lemma run_new ps : Forall whole ps → ∃ h, tcp_run new_Handler ps = Ok h ∧ handler_ok h ∧ h_continuation h = false ∧ ∀ k, conn_run None (filter (between k) ps) = Ok (view h k).
Proof.
  intros Wh. destruct (run_view ps new_Handler new_handler_ok eq_refl Wh) as (h & E & Ho & Cf & V). exists h. split_and!; [done..|].
  intros k. by rewrite <- V, view_new.
Qed.

(** C10: Whatever packets come in whatever order, all of them captured whole and not cut at
    the end of a page, the handler returns, and what it knows of
    the connection between two endpoints is what it would know had it seen the
    packets between them only; there is one connection between them, found from both
    sides, with a half for each. *)
Theorem connections_independent ps : Forall whole ps → ∃ h, tcp_run new_Handler ps = Ok h ∧
  ∀ k, ∃ h', tcp_run new_Handler (filter (between k) ps) = Ok h' ∧ view h k = view h' k ∧ view h (swapDir k) = view h k ∧
    ∀ c, view h k = Some c → (hf_key (cn_h1 c) = k ∨ hf_key (cn_h1 c) = swapDir k) ∧ hf_key (cn_h2 c) = swapDir (hf_key (cn_h1 c)).
Proof.
  intros Wh. destruct (run_new ps Wh) as (h & E & Ho & _ & V). exists h. split; [done|]. intros k.
  destruct (run_new (filter (between k) ps)) as (h' & E' & Ho' & _ & V'). { by apply whole_filter. }
  exists h'. split_and!; [done| |by apply view_swap|].
  - specialize (V k). specialize (V' k). rewrite list_filter_filter_l in V' by done. congruence.
  - intros c Ec. pose proof (find_view h k Ho) as F. rewrite Ec in F. destruct F as (i & _ & _ & Ok & Hk). split; [done|]. apply Ok.
Qed.

(** ** The bytes of a connection *)

(** The identifiers and parsers of a connection. *)
Record Flow := MkFlow {
  fl_id1 : Ident;
  fl_id2 : Ident;
  fl_proto : Cn.Proto;
  fl_http : option Http;
}.

Definition flow_of (c : Conn) : Flow := MkFlow (hf_ident (cn_h1 c)) (hf_ident (cn_h2 c)) (cn_proto c) (cn_http c).

Definition fresh_flow : Flow := MkFlow (ident_start ident_made) (ident_start ident_made) Cn.Working None.

(** Bytes that a half sent, to its identifier until one has decided, and to its parser
    from then on. *)
Definition feed (f : Flow) (x : HalfId * list Z) : Flow :=
  let '(s, data) := x in
  let f :=
    match fl_proto f with
    | Cn.Working =>
        let i := ident_receive (match s with H1 => fl_id1 f | H2 => fl_id2 f end) data in
        let decided := match ident_proto i with HTTP_REQ | HTTP_RSP => true | _ => false end in
        MkFlow (match s with H1 => i | H2 => fl_id1 f end) (match s with H1 => fl_id2 f | H2 => i end)
          (if decided then Cn.HTTP else Cn.Working) (if decided then Some http_new else fl_http f)
    | _ => f
    end in
  MkFlow (fl_id1 f) (fl_id2 f) (fl_proto f) ((λ ps, http_receive ps s data) <$> fl_http f).

Lemma flow_parse c s data : flow_of (parse (identify c s data) s data) = feed (flow_of c) (s, data).
Proof.
  destruct c as [h1 h2 dir st pr http]. unfold identify, feed, flow_of. cbn. destruct pr; cbn; [|by destruct http..]. unfold parse.
  destruct s; cbn; destruct (ident_proto _); cbn; by destruct http.
Qed.

Lemma flow_seq c s v : flow_of (set_half c s (set_seq (half_of c s) v)) = flow_of c.
Proof. by destruct s. Qed.

Definition sent (k : Key) (p : Packet) : HalfId * list Z := (if decide (k = packet_key p) then H1 else H2, payload_of p).

(** An established connection takes the bytes of its packets. *)
Lemma data_run ps : ∀ c, conn_ok c → cn_state c = Cn.Established → Forall whole ps → Forall (between (hf_key (cn_h1 c))) ps →
  ∃ c', conn_run (Some c) ps = Ok (Some c') ∧ conn_ok c' ∧ hf_key (cn_h1 c') = hf_key (cn_h1 c) ∧ cn_state c' = Cn.Established ∧ cn_dir c' = cn_dir c ∧
    flow_of c' = foldl feed (flow_of c) (sent (hf_key (cn_h1 c)) <$> ps).
Proof.
  induction ps as [|p ps IH]; intros c Ok St Wh B; cbn; [by exists c|]. apply Forall_cons in Wh as [Wp Wh]. apply Forall_cons in B as [Bp B]. rewrite St.
  unfold flowData. rewrite (whole_payload p Wp), !bind_Ok. set (s := side_of c _). destruct (parse_ok c s (payload_of p) Ok) as (O1 & E1 & S1 & D1).
  pose proof (flow_parse c s (payload_of p)) as F1. set (c1 := parse _ _ _) in *. set (v := u32 _). destruct (set_seq_ok c1 s v O1) as [O2 E2]. pose proof (flow_seq c1 s v) as F2.
  set (c2 := set_half c1 s _) in *. destruct (IH c2) as (c' & Er & O' & K' & S' & D' & F'); [done|by destruct s; cbn; rewrite S1|done|by rewrite E2, E1|].
  exists c'. rewrite E2, E1 in *. split_and!; [done..| |].
  - rewrite D'. by destruct s; cbn.
  - rewrite F', F2, F1. f_equal.
Qed.

Lemma handshake k p1 p2 p3 : packet_key p1 = k → synAckBits (pk_th p1) = SA_SYN → synAckBits (pk_th p2) = SA_SYN_ACK → pk_dir p2 ≠ pk_dir p1 →
  synAckBits (pk_th p3) = SA_ACK → pk_dir p3 = pk_dir p1 → ∃ c, conn_run None [p1; p2; p3] = Ok (Some c) ∧ conn_ok c ∧ hf_key (cn_h1 c) = k ∧
    cn_state c = Cn.Established ∧ cn_dir c = pk_dir p1 ∧ flow_of c = fresh_flow ∧ hf_seq (cn_h1 c) = u32 (th_seq (pk_th p1) + 1) ∧ hf_seq (cn_h2 c) = u32 (th_seq (pk_th p2) + 1).
Proof.
  intros Ek B1 B2 N2 B3 D3. cbn [conn_run conn_step]. unfold created. rewrite B1, Ek, bind_Ok. set (c1 := new_Conn _ _ _ _ _). change (cn_state c1) with Cn.Syn. cbv iota. rewrite bind_Ok.
  assert (flowSynState c1 p2 = set_seqs (set_cn_state c1 Cn.SynAck) (u32 (th_seq (pk_th p1) + 1)) (th_seq (pk_th p2))) as ->.
  { unfold flowSynState. rewrite bool_decide_false by done. by rewrite B2. }
  set (c2 := set_seqs _ _ _). change (cn_state c2) with Cn.SynAck. cbv iota. rewrite bind_Ok. unfold flowSynAckState. rewrite bool_decide_true by done. rewrite B3.
  eexists. split; [done|]. split_and!; try done. apply established_ok. by split; [|right].
Qed.

Lemma conn_run_app ps qs : ∀ o, conn_run o (ps ++ qs) = (o' ← conn_run o ps; conn_run o' qs).
Proof. induction ps as [|p ps IH]; intros o; cbn; [done|]. destruct (conn_step o p); [apply IH|done..]. Qed.

(** When the packets between two endpoints, among any others, begin with a handshake,
    the connection is established in the direction of the first packet, with the
    numbers the two ends chose, and each later packet's bytes go to the identifier
    and the parser of the half it came from, in the order of arrival. *)
Theorem handshake_then_data ps k p1 p2 p3 ds : Forall whole ps → filter (between k) ps = p1 :: p2 :: p3 :: ds → packet_key p1 = k →
  synAckBits (pk_th p1) = SA_SYN → synAckBits (pk_th p2) = SA_SYN_ACK → pk_dir p2 ≠ pk_dir p1 → synAckBits (pk_th p3) = SA_ACK → pk_dir p3 = pk_dir p1 →
  ∃ h c, tcp_run new_Handler ps = Ok h ∧ view h k = Some c ∧ hf_key (cn_h1 c) = k ∧ cn_state c = Cn.Established ∧ cn_dir c = pk_dir p1 ∧
    flow_of c = foldl feed fresh_flow (sent k <$> ds) ∧
    (ds = [] → hf_seq (cn_h1 c) = u32 (th_seq (pk_th p1) + 1) ∧ hf_seq (cn_h2 c) = u32 (th_seq (pk_th p2) + 1)).
Proof.
  intros Wh Ef Ek B1 B2 N2 B3 D3. destruct (run_new ps Wh) as (h & E & Ho & _ & V). specialize (V k). rewrite Ef in V.
  destruct (handshake k p1 p2 p3 Ek B1 B2 N2 B3 D3) as (c & Er & Ok & K & St & D & F & S1 & S2).
  change (p1 :: p2 :: p3 :: ds) with ([p1; p2; p3] ++ ds) in V. rewrite conn_run_app, Er, bind_Ok in V.
  assert (Forall whole ds ∧ Forall (between k) ds) as [Wd Bd].
  { destruct (whole_filter k ps Wh) as [W B]. rewrite Ef in W, B. repeat (apply Forall_cons in W as [_ W]; apply Forall_cons in B as [_ B]). done. }
  destruct (data_run ds c Ok St Wd) as (c' & Er' & Ok' & K' & St' & D' & F'); [by rewrite K|]. rewrite Er' in V. injection V as V.
  exists h, c'. rewrite K in *. split_and!; [done..|congruence|congruence|]. intros ->. cbn in Er'. by injection Er' as <-.
Qed.

(** ** What the parser misses *)

Lemma http_kept f l ps : fl_proto f = Cn.HTTP → fl_http f = Some ps → fl_http (foldl feed f l) = Some (foldl (λ ps x, http_receive ps x.1 x.2) ps l).
Proof.
  revert f ps. induction l as [|[s d] l IH]; intros f ps Ep Eh; cbn; [done|]. apply IH; rewrite Ep; cbn; [done|]. by rewrite Eh.
Qed.

(** The parsers get the bytes from the packet on in which the protocol was recognised,
    and none of those of the packets before it, which went to the identifiers only. *)
Theorem parser_misses_beginning pre s d post f : fl_proto (foldl feed f pre) = Cn.Working → fl_proto (foldl feed f (pre ++ [(s, d)])) = Cn.HTTP →
  fl_http (foldl feed f (pre ++ (s, d) :: post)) = Some (foldl (λ ps x, http_receive ps x.1 x.2) http_new ((s, d) :: post)).
Proof.
  rewrite !foldl_app. set (g := foldl feed f pre). cbn [foldl]. intros Eg E. apply http_kept; [done|]. revert E. unfold feed. rewrite Eg. cbn.
  by destruct (ident_proto _).
Qed.
End Props.

(** ** Concrete runs *)

Fixpoint alist_find (d : list (Key * HalfPtr)) (k : Key) : option HalfPtr :=
  match d with
  | [] => None
  | (k', p) :: d => if decide (cmp_half k' k = 0) then Some p else alist_find d k
  end.

#[export, refine] Instance alist_dict : HalfDictLib := {|
  HalfDict := list (Key * HalfPtr);
  hd_empty := [];
  hd_find := alist_find;
  hd_insert d k p := match alist_find d k with Some _ => d | None => (k, p) :: d end;
|}.
Proof.
  - done.
  - intros d k p k'. destruct (alist_find d k); done.
Defined.

(** A parser that keeps what it gets, and an identifier that decides on the second byte
    of what begins with G. *)
#[export, refine] Instance log_parsers : Parsers := {|
  Ident := list Z;
  ident_made := [];
  ident_start _ := [];
  ident_receive i d := i ++ d;
  ident_proto i := match i with 71 :: _ :: _ => HTTP_REQ | _ => IdWorking end;
  Http := list (HalfId * list Z);
  http_new := [];
  http_receive ps s d := ps ++ [(s, d)];
|}.
Proof. done. Defined.

Definition px_packet (src dst : Z) (dir : Dir) (seq : Z) (syn ack : bool) (data : list Z) : Packet :=
  MkPacket dir (MkIphdr 5 (40 + Z.of_nat (length data)) 6 src dst) (MkTcphdr 80 80 seq 0 5 false syn ack) data (Z.of_nat (length data)) (Z.of_nat (length data)).

Definition three_way (src dst : Z) : list Packet :=
  [px_packet src dst Egress 100 true false []; px_packet dst src Ingress 200 true true []; px_packet src dst Egress 101 false true []].

(** Two handshakes interleaved, and data. *)
Definition two_connections : list Packet :=
  match three_way 1 2, three_way 3 4 with
  | [a1; a2; a3], [b1; b2; b3] => [a1; b1; b2; a2; a3; px_packet 1 2 Egress 101 false true [71]; b3; px_packet 3 4 Egress 101 false true [9]; px_packet 1 2 Egress 102 false true [69]; px_packet 2 1 Ingress 201 false true [7]]
  | _, _ => []
  end.

Lemma two_connections_whole : Forall whole two_connections.
Proof. repeat constructor; cbn; lia. Qed.

Lemma connections_independent_witness : ∃ h h', tcp_run new_Handler two_connections = Ok h ∧
  tcp_run new_Handler (filter (between (MkKey 3 4 80 80)) two_connections) = Ok h' ∧ view h (MkKey 3 4 80 80) = view h' (MkKey 3 4 80 80) ∧ is_Some (view h (MkKey 3 4 80 80)).
Proof.
  destruct (connections_independent two_connections two_connections_whole) as (h & E & F). destruct (F (MkKey 3 4 80 80)) as (h' & E' & V & _).
  exists h, h'. split_and!; [exact E|exact E'|exact V|]. revert E. vm_compute. intros [= <-]. eexists. reflexivity.
Defined.

Lemma handshake_then_data_witness : ∃ h c, tcp_run new_Handler two_connections = Ok h ∧ view h (MkKey 1 2 80 80) = Some c ∧ cn_state c = Cn.Established ∧
  cn_http c = Some [(H1, [69]); (H2, [7])].
Proof.
  destruct (handshake_then_data two_connections (MkKey 1 2 80 80) (px_packet 1 2 Egress 100 true false []) (px_packet 2 1 Ingress 200 true true []) (px_packet 1 2 Egress 101 false true [])
    [px_packet 1 2 Egress 101 false true [71]; px_packet 1 2 Egress 102 false true [69]; px_packet 2 1 Ingress 201 false true [7]]) as (h & c & E & V & _ & St & _ & F & _).
  - exact two_connections_whole.
  - vm_compute. reflexivity.
  - reflexivity.
  - reflexivity.
  - reflexivity.
  - discriminate.
  - reflexivity.
  - reflexivity.
  - exists h, c. split_and!; [exact E|exact V|exact St|]. apply (f_equal fl_http) in F. exact F.
Defined.

Lemma parser_misses_beginning_witness : fl_http (foldl feed fresh_flow [(H1, [71]); (H1, [69]); (H2, [7])]) = Some [(H1, [69]); (H2, [7])].
Proof. pose proof (parser_misses_beginning [(H1, [71])] H1 [69] [(H2, [7])] fresh_flow eq_refl eq_refl) as E. exact E. Defined.
