(* ===== verification/TcpFrames.v ===== *)
(** * Frames that come in several pages

    kdata_kwrite cuts a frame into pages, each with the number of bytes left.  The
    handler reads the headers in the first page and takes the others as its
    continuation: the half the frame belongs to gets the bytes of the segment, in
    order and no others. *)

From S2P Require Import Prelude AvlInsert KData KDataSpec Tcp TcpFlow TcpProps.

(** ** Reading a part of the frame *)

Lemma mem_load_take (m fr : list Z) (L off n : nat) bs : take L m = take L fr → (L ≤ length m)%nat → mem_load fr off n = Ok bs → (off + n ≤ L)%nat → mem_load m off n = Ok bs.
Proof.
  intros E Lm. unfold mem_load. destruct (decide (off + n ≤ length fr)%nat); [|done]. intros [= <-] Hl. rewrite decide_True by lia. f_equal.
  rewrite <- (take_drop L m), <- (take_drop L fr), E. assert (length (take L fr) = L) as Lf. { rewrite <- E, length_take. lia. }
  rewrite !drop_app_le, !take_app_le; [done|rewrite ?length_drop, Lf; lia..].
Qed.

Section Frames.
Context `{HalfDictLib, Parsers} (srcProtected dstProtected : list Z → bool).

Abbreviation handler := (handler srcProtected dstProtected).

(** Two memories with the same first [L] bytes. *)
Section Same.
Context (m fr : list Z) (L : nat) (E : take L m = take L fr) (Lm : (L ≤ length m)%nat).

Lemma be_at_take off n v : be_at fr off n = Ok v → (off + n ≤ L)%nat → be_at m off n = Ok v.
Proof. unfold be_at. intros Hb Hl. destruct (mem_load fr off n) as [bs| |] eqn:El; [|done..]. by rewrite (mem_load_take m fr L off n bs). Qed.

Lemma le_at_take off n v : le_at fr off n = Ok v → (off + n ≤ L)%nat → le_at m off n = Ok v.
Proof. unfold le_at. intros Hb Hl. destruct (mem_load fr off n) as [bs| |] eqn:El; [|done..]. by rewrite (mem_load_take m fr L off n bs). Qed.

Lemma read_ip_take ih : read_iphdr fr = Ok ih → (34 ≤ L)%nat → read_iphdr m = Ok ih.
Proof.
  unfold read_iphdr. intros Er Hl. inv_res. rewrite (le_at_take 14 1 a), bind_Ok, (be_at_take 16 2 a0), bind_Ok, (le_at_take 23 1 a1), bind_Ok, (le_at_take 26 4 a2), bind_Ok, (le_at_take 30 4 a3) by (done || lia).
  done.
Qed.

Lemma read_tcp_take off th : read_tcphdr fr off = Ok th → (off + 14 ≤ L)%nat → read_tcphdr m off = Ok th.
Proof.
  unfold read_tcphdr. intros Er Hl. inv_res.
  rewrite (le_at_take off 2 a), bind_Ok, (le_at_take (off + 2) 2 a0), bind_Ok, (be_at_take (off + 4) 4 a1), bind_Ok, (be_at_take (off + 8) 4 a2), bind_Ok,
    (le_at_take (off + 12) 1 a3), bind_Ok, (le_at_take (off + 13) 1 a4) by (done || lia).
  done.
Qed.
End Same.

(** ** Frames *)

Definition header_len (ih : iphdr) (th : tcphdr) : Z := 14 + ih_ihl ih * 4 + th_doff th * 4.

(** A frame with the headers of a segment. *)
Record tcp_headers (fr : list Z) (ih : iphdr) (th : tcphdr) : Prop := TcpHeaders {
  tf_eth : be_at fr 12 2 = Ok ETH_P_IP;
  tf_ip : read_iphdr fr = Ok ih;
  tf_proto : ih_protocol ih = IPPROTO_TCP;
  tf_tcp : read_tcphdr fr (sizeof_ethhdr + Z.to_nat (ih_ihl ih * 4)) = Ok th;
  tf_ihl : 5 ≤ ih_ihl ih;
  tf_doff : 5 ≤ th_doff th;
  tf_fits : header_len ih th ≤ Z.min (Z.of_nat (length fr)) kdata_packet_max_data;
}.

(** And nothing after the segment. *)
Record tcp_frame (fr : list Z) (ih : iphdr) (th : tcphdr) : Prop := TcpFrame {
  tf_headers : tcp_headers fr ih th;
  tf_len : ih_tot_len ih = Z.of_nat (length fr) - 14;
}.

Definition segment (fr : list Z) (ih : iphdr) (th : tcphdr) : list Z := drop (Z.to_nat (header_len ih th)) fr.

Definition frame_key (ih : iphdr) (th : tcphdr) : Key := MkKey (ih_saddr ih) (ih_daddr ih) (th_source th) (th_dest th).

(** The pages of a frame: the number of bytes left, and the memory of the page; what is
    in memory at the old TCP header can be anything. *)
Fixpoint frame_run (h : Handler) (dir : Dir) (pages : list (Z * list Z * list Z * tcphdr)) : res Handler :=
  match pages with
  | [] => Ok h
  | (len, bytes, m, th) :: pages => h ← handler h dir len (Z.of_nat (length bytes)) m th; frame_run h dir pages
  end.

Definition holds (x : Z * list Z * list Z * tcphdr) (f : Z * list Z) : Prop := x.1.1 = f ∧ f.2 `prefix_of` x.1.2.

(** ** Continuing *)

Lemma max_data : kdata_packet_max_data = 4088.
Proof. done. Qed.

(** A continued frame, from [rest] on. *)
Lemma continue_run n : ∀ h i s c rest pages dir, h_continuation h = true → h_cont h = (i, s) → h_conns h !! i = Some c → rest ≠ [] →
  Z.of_nat (length rest) ≤ Z.of_nat n * kdata_packet_max_data → Z.of_nat (length rest) < 2 ^ 30 → Forall2 holds pages (fragments n rest) →
  conn_ok c → ∃ h' c', frame_run h dir pages = Ok h' ∧ h_continuation h' = false ∧ h_halfDict h' = h_halfDict h ∧ h_conns h' = <[i := c']> (h_conns h) ∧
    flow_of c' = foldl feed (flow_of c) ((λ f, (s, f.2)) <$> fragments n rest) ∧ cn_state c' = cn_state c ∧ hf_key (cn_h1 c') = hf_key (cn_h1 c) ∧ conn_ok c'.
Proof.
  induction n as [|n IH]; intros h i s c rest pages dir Ct Cp Ec Nr Hl Hb Hp Ok; [destruct rest; [done|cbn in Hl; lia]|].
  rewrite fragments_cons in * by done. apply Forall2_cons_inv_r in Hp as ([[[len bs] m] th] & pages' & [Eq Pm] & Hp & ->). cbn in Eq. injection Eq as -> ->. cbn [snd] in Pm. cbn [fst snd] in *.
  set (fst := take _ rest) in *. pose proof (lookup_lt_Some _ _ _ Ec) as Hi. assert (length fst = Nat.min 4088 (length rest)) as Lf by (unfold fst; rewrite length_take; done). destruct Pm as [k ->].
  cbn [frame_run]. unfold Tcp.handler. rewrite Ct, Cp. unfold flowEstabState at 1. rewrite Ec. cbn [deref]. rewrite bind_Ok. unfold flowData, payload. cbn [pk_caplen pk_data pk_dlen].
  rewrite !(wraps_small 32) by lia. destruct (Z.ltb_spec (Z.of_nat (length fst)) 0); [lia|]. unfold mem_load. rewrite decide_True by (rewrite length_app; lia).
  rewrite bind_Ok, bind_Ok, drop_0, Nat2Z.id, take_app_length. destruct (parse_ok c s fst Ok) as (O1 & K1 & S1 & _). pose proof (flow_parse c s fst) as F1. set (c1 := parse _ _ _) in *.
  destruct (Z.ltb_spec (Z.of_nat (length fst)) (Z.of_nat (length rest))) as [Hlt|Hge]; rewrite bind_Ok.
  - assert (drop (Z.to_nat kdata_packet_max_data) rest ≠ []) as Nd. { intros E%(f_equal length). rewrite length_drop in E. cbn in E. rewrite max_data in *. lia. }
    destruct (IH (set_continuation (put_conn h i c1) true (i, s)) i s c1 (drop (Z.to_nat kdata_packet_max_data) rest) pages' dir) as (h' & c' & -> & C' & D' & L' & F' & S' & K' & O');
      [done|done|cbn; by apply list_lookup_insert_eq|done|rewrite length_drop, max_data in *; lia|rewrite length_drop; lia|done|done|].
    exists h', c'. cbn in L', D'. rewrite list_insert_insert_eq in L'. split_and!; try done; [|congruence..]. rewrite F', F1. done.
  - assert (drop (Z.to_nat kdata_packet_max_data) rest = []) as Ed. { apply drop_ge. rewrite max_data. lia. }
    rewrite Ed in *. assert (fragments n [] = []) as En by (by destruct n). rewrite En in *. apply Forall2_nil_inv_r in Hp as ->. cbn [frame_run].
    set (v := u32 _). destruct (set_seq_ok c1 s v O1) as [O2 K2]. eexists _, _. split; [done|]. split_and!; try done.
    + by rewrite flow_seq, F1.
    + rewrite <- S1. by destruct s.
    + congruence.
Qed.
(** ** The first page *)

(** The headers in the first page, whatever follows its part of the frame in memory. *)
Lemma first_packet fr ih th dir m L : tcp_headers fr ih th → dir ≠ UnknownDir → Z.of_nat (length fr) < 2 ^ 30 → L = Nat.min 4088 (length fr) → take L fr `prefix_of` m →
  be_at m 12 2 = Ok ETH_P_IP ∧ direction srcProtected dstProtected dir m = Some dir ∧ read_iphdr m = Ok ih ∧
  ∃ p, tcp_packet dir (Z.of_nat L) m ih = Ok p ∧ packet_key p = frame_key ih th ∧ pk_th p = th ∧ pk_dlen p = ih_tot_len ih - header_len ih th + 14 ∧
    0 ≤ pk_caplen p ∧ pk_caplen p = Z.of_nat L - header_len ih th ∧ payload p = Ok (take (L - Z.to_nat (header_len ih th)) (segment fr ih th)).
Proof.
  intros [Te Ti Tp Tt T1 T2 Tf] Nd Hb EL Pm. unfold header_len in *. rewrite max_data in Tf. assert (take L m = take L fr ∧ (L ≤ length m)%nat) as [E Lm].
  { destruct Pm as [k ->]. assert (length (take L fr) = L) as Lt by (rewrite length_take; lia). split; [rewrite take_app_le by lia; by rewrite take_take, Nat.min_id|rewrite length_app; lia]. }
  split_and!; [apply (be_at_take m fr L); done || lia|by destruct dir|apply (read_ip_take m fr L); done || lia|].
  unfold tcp_packet. rewrite (read_tcp_take m fr L E Lm _ th) by (done || (unfold sizeof_ethhdr; lia)). rewrite bind_Ok. eexists. split; [done|]. unfold segment, header_len.
  unfold payload. cbn [pk_caplen pk_data pk_dlen pk_th pk_ih packet_key]. rewrite !(wraps_small 32) by (unfold sizeof_ethhdr; lia). split_and!; try done; try (unfold sizeof_ethhdr; lia).
  destruct (Z.ltb_spec (Z.of_nat L - th_doff th * 4 - ih_ihl ih * 4 - Z.of_nat sizeof_ethhdr) 0); [unfold sizeof_ethhdr in *; lia|]. unfold mem_load. rewrite length_drop.
  set (o := (_ + _ + _)%nat). assert (o = Z.to_nat (14 + ih_ihl ih * 4 + th_doff th * 4)) as Eo by (unfold o, sizeof_ethhdr; lia).
  rewrite decide_True by (unfold sizeof_ethhdr in *; lia). f_equal. rewrite drop_0, <- Eo. replace (Z.to_nat _) with (L - o)%nat by (unfold sizeof_ethhdr in *; lia).
  rewrite <- !skipn_firstn_comm. by rewrite E.
Qed.

(** The bytes of a segment, one piece per page. *)
Definition pieces (fr : list Z) (ih : iphdr) (th : tcphdr) (n : nat) : list (list Z) :=
  match fragments n fr with
  | [] => []
  | f :: fs => drop (Z.to_nat (header_len ih th)) f.2 :: (snd <$> fs)
  end.

Lemma pieces_whole fr ih th n : tcp_headers fr ih th → Z.of_nat (length fr) ≤ Z.of_nat n * kdata_packet_max_data → concat (pieces fr ih th n) = segment fr ih th.
Proof.
  intros T Hn. pose proof (fragments_whole n fr Hn) as W. unfold pieces, segment. destruct T as [_ _ _ _ T1 T2 Tf]. unfold header_len in *.
  destruct fr as [|b fr]; [cbn in Tf; lia|]. set (l := b :: fr) in *. destruct n as [|n]; [cbn in Hn; lia|]. rewrite fragments_cons in W |- * by done. cbn [snd concat] in *.
  cbn [fmap list_fmap concat snd] in W. rewrite max_data in *. rewrite <- drop_app_le by (rewrite length_take; lia). f_equal. exact W.
Qed.

Lemma put_continuation_ok h b p : handler_ok h → handler_ok (set_continuation h b p).
Proof. intros [Hc Hd]. by split. Qed.

Lemma put_view h h' i k c c' : handler_ok h → h_halfDict h' = h_halfDict h → h_conns h' = <[i := c']> (h_conns h) → view h k = Some c → h_conns h !! i = Some c →
  conn_ok c' → hf_key (cn_h1 c') = hf_key (cn_h1 c) → (hf_key (cn_h1 c) = k ∨ hf_key (cn_h1 c) = swapDir k) →
  handler_ok h' ∧ view h' k = Some c' ∧ ∀ l, l ≠ k → l ≠ swapDir k → view h' l = view h l.
Proof.
  intros Ho Ed El Ev Ec Ok Ek Hk. assert (∀ l, view h' l = view (put_conn h i c') l) as V by (intros l; unfold view; by rewrite Ed, El).
  pose proof (put_ok h i c c' Ho Ec Ok Ek) as [P1 P2]. split_and!.
  - split; rewrite Ed, El; [exact P1|exact P2].
  - rewrite V. pose proof (find_view h k Ho) as F. rewrite Ev in F. destruct F as (j & Ef & Ej & _). pose proof Ho as [Hc _].
    destruct (Hc i c Ec) as [_ Hf]. pose proof (Hf k Hk) as Fi. by eapply view_put_eq.
  - intros l N1 N2. rewrite V. eapply view_put_ne; [done..| |]; intros E; destruct Hk as [Hk|Hk]; rewrite Hk in E.
    + by apply N1.
    + by apply N2.
    + apply N2. by rewrite E, swap_swap.
    + apply N1. symmetry. by apply swap_inj.
Qed.

(** A frame of an established connection that comes in any number of pages of a
    ring, with anything behind its bytes in the pages: the half that sent it gets the
    bytes of the segment, one piece per page, and together they are the segment;
    then the handler waits for a new frame, and other connections are as before. *)
Lemma frame_in_pages_run h fr ih th dir n pages c : handler_ok h → h_continuation h = false → tcp_frame fr ih th → dir ≠ UnknownDir → Z.of_nat (length fr) < 2 ^ 30 →
  Z.of_nat (length fr) ≤ Z.of_nat n * kdata_packet_max_data → Forall2 holds pages (fragments n fr) → view h (frame_key ih th) = Some c → cn_state c = Cn.Established →
  ∃ h' c', frame_run h dir pages = Ok h' ∧ handler_ok h' ∧ h_continuation h' = false ∧ view h' (frame_key ih th) = Some c' ∧ cn_state c' = Cn.Established ∧
    flow_of c' = foldl feed (flow_of c) ((λ d, (side_of c (frame_key ih th), d)) <$> pieces fr ih th n) ∧ concat (pieces fr ih th n) = segment fr ih th ∧
    ∀ k, k ≠ frame_key ih th → k ≠ swapDir (frame_key ih th) → view h' k = view h k.
Proof.
  intros Ho Cf [T Tl] Nd Hb Hn Hp Ev St. set (k := frame_key ih th) in *. pose proof (pieces_whole fr ih th n T Hn) as Pw. pose proof (find_view h k Ho) as F. rewrite Ev in F.
  destruct F as (i & Ef & Ec & Ok & Hk). pose proof (lookup_lt_Some _ _ _ Ec) as Hi. set (s := side_of c k) in *.
  destruct n as [|n]; [exfalso; destruct T as [_ _ _ _ T1 T2 Tf]; unfold header_len in Tf; lia|]. unfold pieces in *. assert (fr ≠ []) as Nf. { intros ->. destruct T as [_ _ _ _ T1 T2 Tf]; unfold header_len in Tf; cbn in Tf; lia. }
  rewrite fragments_cons in * by done. apply Forall2_cons_inv_r in Hp as ([[[len bs] m] tt] & pages' & [Eq Pm] & Hp & ->). cbn in Eq. injection Eq as -> ->. cbn [snd fst] in *.
  rewrite max_data in *. set (L := Nat.min 4088 (length fr)). assert (take (Z.to_nat 4088) fr = take L fr) as Et. { unfold L. destruct (decide (length fr ≤ 4088)%nat); [rewrite !take_ge by lia; done|]. f_equal. lia. }
  rewrite Et in *. assert (length (take L fr) = L) as Ll by (rewrite length_take; lia).
  destruct (first_packet fr ih th dir m L T Nd Hb eq_refl Pm) as (E1 & E2 & E3 & p & E4 & Kp & Tp & Dp & Cp & Cq & Pp). cbn [frame_run]. unfold Tcp.handler at 1. rewrite Cf, E1, bind_Ok, Z.eqb_refl, E2, E3, bind_Ok, (tf_proto _ _ _ T), Z.eqb_refl, Ll, E4, bind_Ok.
  unfold tcp. rewrite Kp. fold k. rewrite Ef. unfold flow. rewrite Ec. cbn [deref]. rewrite bind_Ok, St. unfold flowEstabState. rewrite Ec. cbn [deref]. rewrite bind_Ok. unfold flowData. rewrite Pp, !bind_Ok.
  set (d := take _ (segment fr ih th)). assert (d = drop (Z.to_nat (header_len ih th)) (take L fr)) as Ed. { unfold d, segment. by rewrite skipn_firstn_comm. }
  destruct (parse_ok c s d Ok) as (O1 & K1 & S1 & _). pose proof (flow_parse c s d) as F1. fold s. set (c1 := parse _ _ _) in *. rewrite <- Ed in Pw |- *.
  destruct (Z.ltb_spec (pk_caplen p) (pk_dlen p)) as [Hlt|Hge]; rewrite bind_Ok.
  - assert (drop 4088 fr ≠ []) as Nr. { intros E%(f_equal length). rewrite length_drop in E. cbn in E. rewrite Dp, Cq in Hlt. lia. }
    change (Z.to_nat 4088) with 4088%nat in *.
    destruct (continue_run n (set_continuation (put_conn h i c1) true (i, s)) i s c1 (drop 4088 fr) pages' dir) as (h' & c' & -> & C' & D' & L' & F' & S' & K' & O');
      [done|done|cbn; by apply list_lookup_insert_eq|done|rewrite length_drop, max_data; lia|rewrite length_drop; lia|done|done|].
    cbn in L', D'. rewrite list_insert_insert_eq in L'. destruct (put_view h h' i k c c' Ho D' L' Ev Ec O') as (Ho' & Ev' & Eo'); [congruence|done|].
    exists h', c'. split_and!; try done; try congruence. rewrite F', F1. cbn [fmap list_fmap foldl]. by rewrite <- list_fmap_compose.
  - assert (drop (Z.to_nat 4088) fr = []) as Er. { apply drop_ge. rewrite Dp, Cq in Hge. destruct T as [_ _ _ _ T1 T2 Tf]. unfold header_len in *. lia. }
    rewrite Er in *. assert (fragments n [] = []) as En by (by destruct n). rewrite En in *. apply Forall2_nil_inv_r in Hp as ->. cbn [frame_run].
    set (v := u32 _). destruct (set_seq_ok c1 s v O1) as [O2 K2]. set (c2 := set_half c1 s _) in *.
    destruct (put_view h (set_continuation (put_conn h i c2) false (h_cont h)) i k c c2 Ho eq_refl eq_refl Ev Ec O2) as (Ho' & Ev' & Eo'); [congruence|done|].
    eexists _, c2. split; [done|]. split_and!; try done.
    + unfold c2. rewrite <- St, <- S1. by destruct s.
    + unfold c2. by rewrite flow_seq, F1.
Qed.
(** ** Padding, and frames of connections that are not followed *)

(** Of a frame that fits a page everything after the headers goes to the half that sent
    it, whatever length the headers give: the padding of a short frame too. *)
Theorem padding_parsed h fr ih th dir m c tt : handler_ok h → h_continuation h = false → tcp_headers fr ih th → ih_tot_len ih ≤ Z.of_nat (length fr) - 14 →
  Z.of_nat (length fr) ≤ kdata_packet_max_data → dir ≠ UnknownDir → fr `prefix_of` m → view h (frame_key ih th) = Some c → cn_state c = Cn.Established →
  ∃ h' c', handler h dir (Z.of_nat (length fr)) (Z.of_nat (length fr)) m tt = Ok h' ∧ view h' (frame_key ih th) = Some c' ∧
    flow_of c' = feed (flow_of c) (side_of c (frame_key ih th), segment fr ih th).
Proof.
  intros Ho Cf T Tl Hm Nd Pm Ev St. rewrite max_data in Hm. set (k := frame_key ih th) in *. pose proof (find_view h k Ho) as F. rewrite Ev in F. destruct F as (i & Ef & Ec & Ok & Hk).
  assert (take (length fr) fr = fr) as Et by (by apply take_ge). set (L := length fr) in *. destruct (first_packet fr ih th dir m L T Nd) as (E1 & E2 & E3 & p & E4 & Kp & Tp & Dp & Cp & Cq & Pp);
    [unfold L in *; lia|unfold L in *; lia|by rewrite Et|]. unfold Tcp.handler. rewrite Cf, E1, bind_Ok, Z.eqb_refl, E2, E3, bind_Ok, (tf_proto _ _ _ T), Z.eqb_refl, E4, bind_Ok.
  unfold tcp. rewrite Kp. fold k. rewrite Ef. unfold flow. rewrite Ec. cbn [deref]. rewrite bind_Ok, St. unfold flowEstabState. rewrite Ec. cbn [deref]. rewrite bind_Ok. unfold flowData. rewrite Pp, !bind_Ok.
  destruct (Z.ltb_spec (pk_caplen p) (pk_dlen p)) as [Hlt|_]; [rewrite Dp, Cq in Hlt; unfold L in *; lia|].
  assert (take (L - Z.to_nat (header_len ih th)) (segment fr ih th) = segment fr ih th) as ->. { apply take_ge. unfold segment. rewrite length_drop. done. }
  eexists _, _. split; [done|]. split; [|by rewrite flow_seq, flow_parse]. by eapply (view_put_eq h).
Qed.

(** A frame that takes more than one page, of a connection that is not known or not
    established yet, is not continued: its next page will be taken for a frame. *)
Theorem unfollowed_not_continued h fr ih th dir m tt : handler_ok h → h_continuation h = false → tcp_frame fr ih th → Z.of_nat (length fr) < 2 ^ 30 →
  kdata_packet_max_data < Z.of_nat (length fr) → dir ≠ UnknownDir → take 4088 fr `prefix_of` m →
  (∀ c, view h (frame_key ih th) = Some c → cn_state c ≠ Cn.Established) →
  ∃ h', handler h dir (Z.of_nat (length fr)) kdata_packet_max_data m tt = Ok h' ∧ h_continuation h' = false.
Proof.
  intros Ho Cf [T Tl] Hb Hm Nd Pm Hv. rewrite max_data in *. set (k := frame_key ih th) in *. pose proof (find_view h k Ho) as F.
  destruct (first_packet fr ih th dir m 4088 T Nd Hb) as (E1 & E2 & E3 & p & E4 & Kp & _); [lia|done|]. unfold Tcp.handler. change (Z.of_nat 4088) with 4088 in E4.
  rewrite Cf, E1, bind_Ok, Z.eqb_refl, E2, E3, bind_Ok, (tf_proto _ _ _ T), Z.eqb_refl, E4, bind_Ok. unfold tcp. rewrite Kp. fold k.
  destruct (view h k) as [c|]; [|rewrite F; eexists; split; [done|exact Cf]]. destruct F as (i & -> & Ec & _). unfold flow. rewrite Ec. cbn [deref]. rewrite bind_Ok.
  specialize (Hv c eq_refl). destruct (cn_state c); [eexists; split; [done|exact Cf]..|done].
Qed.
End Frames.
