(* ===== verification/Sniff.v ===== *)
(** * sniff/sniff.cc and parse/decrypted.cc: the sniffer

    One thread takes packets from a data ring and hands them to the handler of frames;
    another takes decrypted bytes and hands them to the parsers of their connection.
    DNS answers about the hosts to proxy become commands in the control ring of
    shuttle, one per address. *)

From S2P Require Import Prelude KrDep KData Tcp.

(** ** Packets *)

Section SniffKring.
Context `{HalfDictLib, Parsers} (srcProtected dstProtected : list Z → bool).

(** The body of the loop of sniffKring, after [poll]; [th_then] as in the handler. *)
Definition sniff_packet (fuel : nat) (u : kring_user) (m : kdata_mem) (h : Handler) (th_then : tcphdr) : res (kdata_mem * Handler) :=
  avail ← kdata_avail u m;
  if avail : bool then
    '(pkt, m) ← kdata_next_packet fuel u m;
    let '(p, o) := packet_bytes pkt in
    pg ← page_at m p;
    let dir := if packet_dir pkt =? KDATA_DIR_INSIDE then Egress else Ingress in
    h ← handler srcProtected dstProtected h dir (packet_len pkt) (packet_caplen pkt) (drop o pg) th_then;
    Ok (m, h)
  else Ok (m, h).
End SniffKring.

(** ** Decrypted connections *)

(** The parsers of a decrypted connection: made with the name of the host, which may be
    missing; whether the tree of a half saw an error, and its depth. *)
Class DecrParsers `{Parsers} := {
  http_made : option (list Z) → Http;
  vpt_error : Http → HalfId → bool;
  vpt_depth : Http → HalfId → Z;
}.

Section Decrypted.
Context `{DecrParsers}.

Record DecrHalf := MkDecrHalf {
  dh_ident : Ident;
  dh_cache : list Z;
}.

(** [dc_http]: the parsers of the halves, which are made together. *)
Record Decrypted := MkDecrypted {
  dc_h1 : DecrHalf;
  dc_h2 : DecrHalf;
  dc_proto : Cn.Proto;
  dc_http : option Http;
  dc_stashErrors : bool;
  dc_stashAll : bool;
}.

Definition dhalf (d : Decrypted) (s : HalfId) : DecrHalf := match s with H1 => dc_h1 d | H2 => dc_h2 d end.
Definition set_dhalf (d : Decrypted) (s : HalfId) (x : DecrHalf) : Decrypted :=
  match s with
  | H1 => MkDecrypted x (dc_h2 d) (dc_proto d) (dc_http d) (dc_stashErrors d) (dc_stashAll d)
  | H2 => MkDecrypted (dc_h1 d) x (dc_proto d) (dc_http d) (dc_stashErrors d) (dc_stashAll d)
  end.
Definition set_http (d : Decrypted) (p : Cn.Proto) (ps : Http) : Decrypted :=
  MkDecrypted (dc_h1 d) (dc_h2 d) p (Some ps) (dc_stashErrors d) (dc_stashAll d).

Definition new_DecrHalf : DecrHalf := MkDecrHalf (ident_start ident_made) [].
Definition new_Decrypted (stashErrors stashAll : bool) : Decrypted :=
  MkDecrypted new_DecrHalf new_DecrHalf Cn.Working None stashErrors stashAll.

Definition other_half (s : HalfId) : HalfId := match s with H1 => H2 | H2 => H1 end.

(** Of a tree that nothing was pushed to: no error, and the depth of its root. *)
Definition error_of (d : Decrypted) (s : HalfId) : bool := match dc_http d with Some ps => vpt_error ps s | None => false end.
Definition depth_of (d : Decrypted) (s : HalfId) : Z := match dc_http d with Some ps => vpt_depth ps s | None => 1 end.

(** A file that is written: of which half it has the name, the host line, the bytes. *)
Inductive Dump := MkDump (name : HalfId) (host : option (option (list Z))) (bytes : list Z).

Definition decr_identify (d : Decrypted) (s : HalfId) (host : option (list Z)) (data : list Z) : Decrypted :=
  if bool_decide (dc_proto d = Cn.Working) then
    let x := dhalf d s in
    let i := ident_receive (dh_ident x) data in
    let d := set_dhalf d s (MkDecrHalf i (dh_cache x)) in
    match ident_proto i with
    | HTTP_REQ | HTTP_RSP => set_http d Cn.HTTP (http_made host)
    | _ => d
    end
  else d.

Definition decr_parse (d : Decrypted) (s : HalfId) (data : list Z) : Decrypted :=
  match dc_http d with
  | Some ps =>
      let x := dhalf d s in
      let d := if dc_stashErrors d || dc_stashAll d then set_dhalf d s (MkDecrHalf (dh_ident x) (dh_cache x ++ data)) else d in
      set_http d (dc_proto d) (http_receive ps s data)
  | None => d
  end.

Definition cache_of (d : Decrypted) (s : HalfId) : list Z := dh_cache (dhalf d s).

(** Handler::decrypted, for the connection of the identifier. *)
Definition decrypted_conn (d : Decrypted) (type : Z) (host : option (list Z)) (data : list Z) : Decrypted * list Dump :=
  let half := if type =? 1 then H1 else H2 in
  let other := other_half half in
  let d := decr_identify d half host data in
  let existingError := error_of d half || error_of d other in
  let d := decr_parse d half data in
  (d, (if negb existingError && error_of d half then [MkDump H1 None (cache_of d H1); MkDump H2 None (cache_of d H2)] else []) ++
      (if dc_stashAll d && (depth_of d half <=? 2) then [MkDump H1 (Some host) (cache_of d half)] else []) ++
      (if dc_stashAll d && (depth_of d other <=? 2) then [MkDump H2 (Some host) (cache_of d other)] else [])).

(** AvlMap<long, Decrypted*>; [dd_put] is an insertion, or a change of what the value
    points to. *)
Class DecrDictLib := {
  DecrDict : Type;
  dd_empty : DecrDict;
  dd_find : DecrDict → Z → option Decrypted;
  dd_put : DecrDict → Z → Decrypted → DecrDict;
  dd_find_empty id : dd_find dd_empty id = None;
  dd_find_put m x d y : dd_find (dd_put m x d) y = if bool_decide (x = y) then Some d else dd_find m y;
}.

Context `{DecrDictLib} (stashErrors stashAll : bool).

Definition decrypted (dict : DecrDict) (id type : Z) (host : option (list Z)) (data : list Z) : DecrDict * list Dump :=
  let d := default (new_Decrypted stashErrors stashAll) (dd_find dict id) in
  let '(d, dumps) := decrypted_conn d type host data in
  (dd_put dict id d, dumps).

(** The body of the loop of sniffDecrypted; the host is a string in the page. *)
Definition sniff_decrypted (fuel : nat) (u : kring_user) (m : kdata_mem) (dict : DecrDict) : res (kdata_mem * DecrDict * list Dump) :=
  avail ← kdata_avail u m;
  if avail : bool then
    '(dcy, m) ← kdata_next_decrypted fuel u m;
    hpg ← page_at m (decrypted_host dcy).1;
    let host := cstr (drop (decrypted_host dcy).2 hpg) in
    bpg ← page_at m (decrypted_bytes dcy).1;
    data ← (if decrypted_len dcy <? 0 then Ub else mem_load bpg (decrypted_bytes dcy).2 (Z.to_nat (decrypted_len dcy)));
    let '(dict, dumps) := decrypted dict (decrypted_id dcy) (decrypted_type dcy) (Some host) data in
    Ok (m, dict, dumps)
  else Ok (m, dict, []).
End Decrypted.

(** ** DNS answers *)

(** AvlSet of host names and of addresses. *)
Class KeySetLib (K : Type) `{EqDecision K} := {
  KeySet : Type;
  ks_empty : KeySet;
  ks_insert : KeySet → K → KeySet;
  ks_find : KeySet → K → bool;
  ks_find_empty k : ks_find ks_empty k = false;
  ks_find_insert s x y : ks_find (ks_insert s x) y = bool_decide (x = y) || ks_find s y;
}.
Arguments KeySet K {_ _}.

Section Dns.
Context `{NS : !KeySetLib (list Z), AS : !KeySetLib Z}.

(** The names to look for, the addresses found, and the commands and notifications
    made of them. *)
Record MatchDnsAnswer := MkMatchDnsAnswer {
  mda_lookupSet : KeySet (list Z);
  mda_ipsAdded : KeySet Z;
  mda_matched : list (list Z);
}.

Definition answerCname (d : MatchDnsAnswer) (name cname : list Z) : MatchDnsAnswer :=
  if ks_find (mda_lookupSet d) name && negb (ks_find (mda_lookupSet d) cname) then
    MkMatchDnsAnswer (ks_insert (mda_lookupSet d) cname) (mda_ipsAdded d) (mda_matched d)
  else d.

(** The digits of a number below 1000. *)
Definition dec_digits (n : Z) : list Z :=
  if n <? 10 then [48 + n]
  else if n <? 100 then [48 + n / 10; 48 + n mod 10]
  else [48 + n / 100; 48 + n / 10 mod 10; 48 + n mod 10].

(** sprintf of the four bytes, without the terminator. *)
Definition toa (a b c d : Z) : list Z := dec_digits a ++ 46 :: dec_digits b ++ 46 :: dec_digits c ++ 46 :: dec_digits d.

Definition ip_of (a b c d : Z) : Z := Z.lor (Z.lor (Z.lor a (Z.shiftl b 8)) (Z.shiftl c 16)) (Z.shiftl d 24).

(** matchedDns adds the command "p" and the address, and its terminator. *)
Definition kring_cmd (text : list Z) : list Z := 112 :: 32 :: text ++ [0].

Definition answerA (m : MatchDnsAnswer) (name : list Z) (addr : list Z) : res MatchDnsAnswer :=
  if ks_find (mda_lookupSet m) name then
    a ← aget addr 0; b ← aget addr 1; c ← aget addr 2; d ← aget addr 3;
    _ ← mem_store (replicate 16 0) 0 (toa a b c d ++ [0]);
    if negb (ks_find (mda_ipsAdded m) (ip_of a b c d)) then
      Ok (MkMatchDnsAnswer (mda_lookupSet m) (ks_insert (mda_ipsAdded m) (ip_of a b c d)) (mda_matched m ++ [kring_cmd (toa a b c d)]))
    else Ok m
  else Ok m.
End Dns.
