(* ===== verification/SniffProps.v ===== *)
(** * What the sniffer promises

    Frames from the kernel reach the parser of their connection through the ring whole
    and in order; decrypted bytes reach the parsers of theirs; each address of a host
    to proxy is redirected once. *)

From S2P Require Import Prelude KrDep KData KDataIO KDataRing KDataQueue KDataSpec KDataProps Tcp TcpFlow TcpProps TcpFrames Sniff.

(** ** Frames through the ring *)

Section Packets.
Context `{HalfDictLib, Parsers} (srcProtected dstProtected : list Z → bool).

Fixpoint sniff_run (u : kring_user) (m : kdata_mem) (h : Handler) (ths : list tcphdr) : res (kdata_mem * Handler) :=
  match ths with
  | [] => Ok (m, h)
  | th :: ths => '(m, h) ← sniff_packet srcProtected dstProtected 1 u m h th; sniff_run u m h ths
  end.

Definition packet_way (dir : Z) : Dir := if dir =? KDATA_DIR_INSIDE then Egress else Ingress.

(** Reading the next page of a reader's queue. *)
Lemma next_packet_ok q hs u m i r pg ps len dir bytes : u_ring_id u ≠ KDATA_RING_ID_ALL → maps_ring u 0 i → aget m i = Ok r → rep q hs r →
  q !! u_reader_id u = Some (pg :: ps) → packet_of pg = Ok (len, dir, bytes) → 0 ≤ len →
  ∃ r' hs' pkt p, kdata_avail u m = Ok true ∧ kdata_next_packet 1 u m = Ok (pkt, <[Z.to_nat i := r']> m) ∧ packet_bytes pkt = (p, sizeof_packet_header) ∧
    page_at (<[Z.to_nat i := r']> m) p = Ok pg ∧ packet_dir pkt = dir ∧ packet_len pkt = len ∧ packet_caplen pkt = Z.of_nat (length bytes) ∧
    bytes `prefix_of` drop sizeof_packet_header pg ∧ aget (<[Z.to_nat i := r']> m) i = Ok r' ∧ rep (<[u_reader_id u := ps]> q) hs' r'.
Proof.
  intros Hid Hu E R Eq Ep Hl. destruct (rep_next q hs u m 0 i r 0 pg ps) as (r' & s & hs' & En & Epg & _ & R'); [|done..|].
  { unfold kdata_select_ctrl. by destruct (Z.eqb_spec (u_ring_id u) KDATA_RING_ID_ALL). }
  assert (aget (<[Z.to_nat i := r']> m) i = Ok r') as E'. { apply aget_insert_eq. by apply aget_Ok_range in E. }
  unfold packet_of in Ep. inv_res. exists r', hs', (KdataPacket (i8 (le_val a0)) (i32 (le_val a)) (if i32 (le_val a) <=? kdata_packet_max_data then i32 (le_val a) else kdata_packet_max_data) (PagePtr i s, sizeof_packet_header)), (PagePtr i s).
  assert (page_at (<[Z.to_nat i := r']> m) (PagePtr i s) = Ok pg) as Ea. { unfold page_at. cbn. by rewrite E', bind_Ok. }
  split_and!; try done.
  - unfold kdata_avail. destruct (Z.eqb_spec (u_ring_id u) KDATA_RING_ID_ALL); [done|]. cbn [negb]. unfold user_ring. destruct Hu as [Hc _]. rewrite Hc, bind_Ok, E, !bind_Ok.
    rewrite (avail_impl_queue q hs r (u_reader_id u) (pg :: ps) R Eq). done.
  - unfold kdata_next_packet. rewrite En, bind_Ok. unfold load_int, load_char, page_load. rewrite Ea, !bind_Ok, E0, !bind_Ok, E1, !bind_Ok. done.
  - cbn. unfold mem_load in E2. destruct (decide _) as [Hd|]; [|done]. injection E2 as <-. rewrite length_take, length_drop.
    assert (0 ≤ kdata_packet_max_data) by (rewrite max_data; lia). destruct (Z.leb_spec (i32 (le_val a)) kdata_packet_max_data); lia.
  - unfold mem_load in E2. destruct (decide _) as [Hd|]; [|done]. injection E2 as <-. apply prefix_take.
Qed.
(** Turns of the loop are what the handler does with the pages. *)
Lemma sniff_pages u i : u_ring_id u ≠ KDATA_RING_ID_ALL → maps_ring u 0 i → ∀ fs pgs ths q hs m r h dir, aget m i = Ok r → rep q hs r →
  q !! u_reader_id u = Some pgs → Forall2 (λ pg f, packet_of pg = Ok (f.1, dir, f.2)) pgs fs → Forall (λ f : Z * list Z, 0 ≤ f.1) fs → length ths = length fs →
  ∃ pages r' hs', Forall2 holds pages fs ∧ rep (<[u_reader_id u := []]> q) hs' r' ∧
    ∀ h', frame_run srcProtected dstProtected h (packet_way dir) pages = Ok h' → sniff_run u m h ths = Ok (<[Z.to_nat i := r']> m, h').
Proof.
  intros Hid Hu. induction fs as [|[len bs] fs IH]; intros pgs ths q hs m r h dir E R Eq F Hp Hl.
  - apply Forall2_nil_inv_r in F as ->. destruct ths; [|done]. exists [], r, hs. split_and!; [done|by rewrite insert_id|]. intros h' [= <-]. cbn.
    rewrite list_insert_id; [done|]. by apply aget_Ok in E as [_ E].
  - apply Forall2_cons_inv_r in F as (pg & pgs' & Ep & F & ->). apply Forall_cons in Hp as [Hz Hp]. destruct ths as [|th ths]; [done|]. injection Hl as Hl. cbn [fst snd] in *.
    destruct (next_packet_ok q hs u m i r pg pgs' len dir bs Hid Hu E R Eq Ep Hz) as (r1 & hs1 & pkt & p & Ea & En & Eb & Epg & Ed & El & Ec & Pb & E1 & R1).
    set (m1 := <[Z.to_nat i := r1]> m) in *. set (mem := drop sizeof_packet_header pg) in *.
    destruct (Tcp.handler srcProtected dstProtected h (packet_way dir) len (Z.of_nat (length bs)) mem th) as [h1| |] eqn:Eh.
    + destruct (IH pgs' ths _ hs1 m1 r1 h1 dir E1 R1) as (pages & r' & hs' & Fp & R' & Sp); [by rewrite lookup_insert_eq|done..|].
      exists ((len, bs, mem, th) :: pages), r', hs'. split_and!; [by constructor|by rewrite insert_insert_eq in R'|]. intros h'. cbn [frame_run]. rewrite Eh, bind_Ok. intros Ef.
      cbn [sniff_run]. unfold sniff_packet. rewrite Ea, bind_Ok, En, bind_Ok, Eb, Epg, bind_Ok, El, Ec, Ed. fold (packet_way dir). fold mem. rewrite Eh, !bind_Ok.
      rewrite (Sp h' Ef). unfold m1. by rewrite list_insert_insert_eq.
    + destruct (IH pgs' ths _ hs1 m1 r1 h dir E1 R1) as (pages & r' & hs' & Fp & R' & _); [by rewrite lookup_insert_eq|done..|].
      exists ((len, bs, mem, th) :: pages), r', hs'. split_and!; [by constructor|by rewrite insert_insert_eq in R'|]. intros h'. cbn [frame_run]. by rewrite Eh.
    + destruct (IH pgs' ths _ hs1 m1 r1 h dir E1 R1) as (pages & r' & hs' & Fp & R' & _); [by rewrite lookup_insert_eq|done..|].
      exists ((len, bs, mem, th) :: pages), r', hs'. split_and!; [by constructor|by rewrite insert_insert_eq in R'|]. intros h'. cbn [frame_run]. by rewrite Eh.
Qed.

Lemma fragments_nonneg n : ∀ bs, Forall (λ f : Z * list Z, 0 ≤ f.1) (fragments n bs).
Proof. induction n as [|n IH]; intros bs; [done|]. destruct bs; [done|]. constructor; [cbn; lia|apply IH]. Qed.

Lemma packet_way_known dir : packet_way dir ≠ UnknownDir.
Proof. unfold packet_way. by destruct (_ =? _). Qed.

End Packets.

(** ** Decrypted bytes *)

Lemma cstr_take_short n : ∀ l, (length (cstr (take n l)) < n)%nat → (n ≤ length l)%nat → cstr (take n l) = cstr l.
Proof.
  induction n as [|n IH]; intros l; [lia|]. destruct l as [|x l]; cbn; [lia|]. destruct (x =? 0); [done|]. cbn. intros Hl Hn. f_equal. apply IH; lia.
Qed.

(** The handle reads ring [i] next when it gets something: it is opened for that ring,
    or for all rings and has nothing to read from those before. *)
Definition reads_next (u : kring_user) (m : kdata_mem) (ctrl i : Z) : Prop :=
  maps_ring u ctrl i ∧
  if u_ring_id u =? KDATA_RING_ID_ALL then
    0 ≤ ctrl < u_nrings u ∧ ∀ j, 0 ≤ j < ctrl → ∃ k r q hs, maps_ring u j k ∧ k ≠ i ∧ aget m k = Ok r ∧ rep q hs r ∧ q !! u_reader_id u = Some []
  else ctrl = 0.

Lemma first_avail_at u m ctrl i r : user_ring u m ctrl = Ok (i, r) → kdata_avail_impl (kr_control r) (u_reader_id u) = Ok true →
  ∀ n k, 0 ≤ k ≤ ctrl → ctrl < k + Z.of_nat n →
  (∀ j, k ≤ j < ctrl → ∃ i r, user_ring u m j = Ok (i, r) ∧ kdata_avail_impl (kr_control r) (u_reader_id u) = Ok false) →
  kdata_first_avail u m n k = Ok (Some ctrl).
Proof.
  intros Er Ea n. induction n as [|n IH]; intros k Hk Hn Hq; [lia|]. cbn [kdata_first_avail]. destruct (decide (k = ctrl)) as [->|Hne].
  - by rewrite Er, bind_Ok, Ea, bind_Ok.
  - destruct (Hq k) as (i' & r' & E' & A'); [lia|]. rewrite E', bind_Ok, A', bind_Ok. apply IH; [lia|lia|]. intros j Hj. apply Hq. lia.
Qed.

(** Something written to ring [i] is what is read next. *)
Lemma reads_next_selects u m ctrl i r r1 q hs ps : reads_next u m ctrl i → aget m i = Ok r → rep q hs r1 → q !! u_reader_id u = Some ps → ps ≠ [] →
  kdata_select_ctrl u (<[Z.to_nat i := r1]> m) = Ok ctrl ∧ kdata_avail u (<[Z.to_nat i := r1]> m) = Ok true.
Proof.
  intros [Hu Hr] E R1 Eq Hne. set (m1 := <[Z.to_nat i := r1]> m).
  assert (aget m1 i = Ok r1) as E1 by (apply aget_insert_eq; by apply aget_Ok_range in E).
  pose proof (user_ring_ok u m1 ctrl i r1 Hu E1) as Er. pose proof (avail_impl_queue _ hs r1 (u_reader_id u) ps R1 Eq) as Ea.
  rewrite bool_decide_true in Ea by done.
  unfold kdata_select_ctrl, kdata_avail. destruct (u_ring_id u =? KDATA_RING_ID_ALL); cbn [negb].
  - destruct Hr as [Hc Hq]. rewrite (first_avail_at u m1 ctrl i r1 Er Ea); [done|lia|lia|].
    intros j Hj. destruct (Hq j Hj) as (k & rk & qk & hk & Hm & Hki & Ek & Rk & Eqk). exists k, rk. split.
    + apply (user_ring_ok u m1 j k rk Hm). unfold m1. apply aget_Ok_range in E. rewrite aget_insert_ne; [done|lia|done].
    + by rewrite (avail_impl_queue _ _ _ _ _ Rk Eqk).
  - subst ctrl. by rewrite Er, bind_Ok.
Qed.

Section Decrypted.
Context `{DecrParsers} `{!DecrDictLib} (stashErrors stashAll : bool).

(** Some bytes for a connection. *)
Record Item := MkItem {
  im_id : Z;
  im_type : Z;
  im_host : option (list Z);
  im_data : list Z;
}.

Definition take_item (dict : DecrDict) (x : Item) : DecrDict := (decrypted stashErrors stashAll dict (im_id x) (im_type x) (im_host x) (im_data x)).1.
Definition conn_item (o : option Decrypted) (x : Item) : option Decrypted :=
  Some (decrypted_conn (default (new_Decrypted stashErrors stashAll) o) (im_type x) (im_host x) (im_data x)).1.

(** What is known of a decrypted connection is what the bytes with its identifier
    make of a new one, in order, whatever comes for others in between. *)
Theorem decrypted_independent items dict id : dd_find (foldl take_item dict items) id = foldl conn_item (dd_find dict id) (filter (λ x, im_id x = id) items).
Proof.
  revert dict. induction items as [|x items IH]; intros dict; [done|]. cbn [foldl]. rewrite IH, filter_cons. unfold take_item at 1, decrypted.
  destruct (decrypted_conn _ _ _ _) as [d dumps] eqn:Ed. cbn [fst]. rewrite dd_find_put. case_bool_decide as E.
  - rewrite decide_True by done. cbn [foldl]. f_equal. unfold conn_item. subst id. by rewrite Ed.
  - by rewrite decide_False.
Qed.

(** C27: What is written to a ring as decrypted bytes of a connection is what the parsers
    of the connection get, with the host cut to 62 characters and the bytes to what a
    page holds, from a handle on that ring or on all rings that has nothing else to read
    before. *)
Theorem decrypted_through_ring w u ctrl i q hs m r id type host data len dict : maps_ring w 0 i → reads_next u m ctrl i →
  aget m i = Ok r → rep q hs r → room q 1 → q !! u_reader_id u = Some [] → 0 ≤ len ≤ Z.of_nat (length data) → Forall is_byte data →
  (∀ h, host = Some h → Forall is_byte h) → - 2 ^ 63 ≤ id < 2 ^ 63 → 0 ≤ type < 256 →
  ∃ m1 m2, kdata_write_decrypted 7 w m id type host data len = Ok (0, m1) ∧
    sniff_decrypted stashErrors stashAll 1 u m1 dict =
      (let '(dict, dumps) := decrypted stashErrors stashAll dict id type (Some (host_seen host)) (take (Z.to_nat (Z.min len kdata_decrypted_max_data)) data) in
       Ok (m2, dict, dumps)).
Proof.
  intros Hw Hn E R Hroom Eq Hl Hb Hh Hi Ht. pose proof (proj1 Hn) as Hu. unfold kdata_write_decrypted. set (l := if _ <? _ then _ else _).
  assert (l = Z.min len kdata_decrypted_max_data) as El. { subst l. destruct (Z.ltb_spec kdata_decrypted_max_data len); lia. }
  rewrite <- El. assert (0 ≤ l ≤ kdata_decrypted_max_data) as Hl'. { rewrite El. assert (kdata_decrypted_max_data = 4016) as -> by done. lia. } assert (l ≤ Z.of_nat (length data)) as Hl2 by lia. clearbody l.
  destruct (rep_write q hs w m i r 7 _ _ Hw E R Hroom ltac:(lia) (fill_decrypted_fills id type host data l ltac:(lia) ltac:(lia))) as (r1 & pg & Ew & Hpg & R1 & _).
  { intros pg Hpg. by apply decrypted_page_ok; [lia|..]. }
  assert (('(h, m) ← kdata_write_FIRST 7 w m; m ← fill_decrypted id type host data l h m; m ← kdata_write_SECOND w m; Ok (0, m)) = Ok (0, <[Z.to_nat i := r1]> m)) as ->.
  { apply bind_Ok_inv in Ew as ([p m1] & F1 & Ew). apply bind_Ok_inv in Ew as (m2 & F2 & F3). by rewrite F1, bind_Ok, F2, bind_Ok, F3. }
  set (pgd := decrypted_page id type host data l pg) in *. pose proof (decrypted_of_page id type host data l pg ltac:(lia) ltac:(lia) Hpg Hi Ht) as Ed. fold pgd in Ed.
  assert (mem_load pgd 0 4 = Ok (le_bytes 4 l)) as E4l.
  { unfold pgd. rewrite decrypted_page_eq by done. destruct Hpg as [L _]. pose proof (host_field_length host) as LH. by load_back. }
  assert (aget (<[Z.to_nat i := r1]> m) i = Ok r1) as E1. { apply aget_insert_eq. by apply aget_Ok_range in E. }
  destruct (reads_next_selects u m ctrl i r r1 _ _ [pgd] Hn E R1 ltac:(by rewrite lookup_fmap, Eq) ltac:(done)) as [Es Ea1].
  set (m1 := <[Z.to_nat i := r1]> m) in *. destruct (rep_next ((λ ps : list kring_page, ps ++ [pgd]) <$> q) hs u m1 ctrl i r1 0 pgd []) as (r2 & s & hs2 & En & Epg & _ & _); [exact Es|exact Hu|exact E1|exact R1|by rewrite lookup_fmap, Eq|].
  exists m1, (<[Z.to_nat i := r2]> m1). split; [done|]. unfold sniff_decrypted.
  rewrite Ea1.
  rewrite bind_Ok. unfold kdata_next_decrypted. rewrite En, bind_Ok.
  assert (page_at (<[Z.to_nat i := r2]> m1) (PagePtr i s) = Ok pgd) as Ea. { unfold page_at. cbn. rewrite aget_insert_eq; [done|by apply aget_Ok_range in E1]. }
  unfold decrypted_of in Ed. rewrite E4l, bind_Ok, i32_le_val in Ed by fits. clear Ew. inv_res. unfold load_int, load_long, load_char, page_load. rewrite Ea, !bind_Ok, E4l, !bind_Ok, E0, !bind_Ok, E2, !bind_Ok.
  cbn [decrypted_host decrypted_bytes decrypted_len decrypted_id decrypted_type fst snd]. rewrite Ea, !bind_Ok.
  rewrite i32_le_val by fits. destruct (Z.ltb_spec (Z.min len kdata_decrypted_max_data) 0); [lia|]. rewrite E4, bind_Ok.
  assert (cstr (drop 17 pgd) = host_seen host) as ->; [|done]. unfold mem_load in E3. destruct (decide _) as [Hd|]; [|done]. injection E3 as E3. rewrite <- H2, <- E3. symmetry. apply cstr_take_short.
  - rewrite E3, H2. unfold host_seen. destruct host; [rewrite length_take|cbn]; lia.
  - rewrite length_drop. lia.
Qed.
End Decrypted.

(** ** Concrete runs *)

(** A frame with three bytes of data from the first to the second endpoint. *)
Definition one_frame : list Z :=
  replicate 12 0 ++ [8; 0] ++
  [69; 0; 0; 43; 0; 0; 0; 0; 64; 6; 0; 0; 1; 0; 0; 0; 2; 0; 0; 0] ++
  [80; 0; 80; 0; 0; 0; 0; 101; 0; 0; 0; 0; 80; 16; 0; 0; 0; 0; 0; 0] ++ [71; 69; 84].

Definition frame_ih : iphdr := MkIphdr 5 43 6 1 2.
Definition frame_th : tcphdr := MkTcphdr 80 80 101 0 5 false false true.
Definition a_handler : Handler := match tcp_run new_Handler (three_way 1 2) with Ok h => h | _ => new_Handler end.
Definition a_conn : Conn := default (created (px_packet 1 2 Egress 0 true false []) (MkKey 1 2 80 80)) (view a_handler (MkKey 1 2 80 80)).

Lemma a_handler_ok : handler_ok a_handler ∧ h_continuation a_handler = false.
Proof.
  destruct (run_new (three_way 1 2)) as (h & E & Ho & Cf & _); [repeat constructor; cbn; lia|]. unfold a_handler. rewrite E. done.
Qed.

(** Reader 2 has entered a fresh ring. *)
Definition reader_2 : queues kring_page := {[2 := []]}.

Lemma entered_ring : ∃ r, rep reader_2 ∅ r.
Proof. destruct (rep_enter ∅ ∅ fresh_kdata_ring 2 rep_fresh) as (c' & _ & R); [done|done|]. by eexists. Qed.

Lemma room_one : room reader_2 1.
Proof. unfold reader_2. intros id ps [<- <-]%lookup_singleton_Some. done. Qed.


#[export, refine] Instance log_decr_parsers : DecrParsers := {|
  http_made _ := [];
  vpt_error _ _ := false;
  vpt_depth _ _ := 3;
|}.
Proof. Defined.

#[export, refine] Instance fun_decr_dict : DecrDictLib := {|
  DecrDict := Z → option Decrypted;
  dd_empty _ := None;
  dd_find d id := d id;
  dd_put d id x := λ y, if bool_decide (id = y) then Some x else d y;
|}.
Proof. all: done. Defined.

(** A handle on two rings, as reader 2. *)
Definition handle_all : kring_user := KringUser 3 KDATA_RING_ID_ALL 2 0 2 2 [0; 1] [0; 1] None 0 0.

(** The name of the host, the bytes and the connection arrive from the second of two rings
    that a handle on all of them reads. *)
Lemma decrypted_through_ring_witness : ∃ r m1 m2 dict dumps, kdata_write_decrypted 7 (handle 1 0) [r; r] 9 1 (Some [97; 0]) [71; 69; 84] 3 = Ok (0, m1) ∧
  sniff_decrypted false false 1 handle_all m1 dd_empty = Ok (m2, dict, dumps) ∧ (dc_http <$> dd_find dict 9) = Some (Some [(H1, [71; 69; 84])]).
Proof.
  destruct entered_ring as [r R].
  destruct (decrypted_through_ring false false (handle 1 0) handle_all 1 1 reader_2 ∅ [r; r] r 9 1 (Some [97; 0]) [71; 69; 84] 3 dd_empty) as (m1 & m2 & E1 & E2).
  - apply handle_maps.
  - split; [split; [reflexivity|by intros off]|]. cbn. split; [lia|]. intros j Hj. replace j with 0 by lia.
    exists 0, r, reader_2, ∅. split_and!; [split; [reflexivity|by intros off]|done|reflexivity|exact R|reflexivity].
  - reflexivity.
  - exact R.
  - exact room_one.
  - reflexivity.
  - cbn. lia.
  - repeat constructor; unfold is_byte; lia.
  - intros h [= <-]. repeat constructor; unfold is_byte; lia.
  - lia.
  - lia.
  - destruct (decrypted false false dd_empty 9 1 (Some (host_seen (Some [97; 0]))) (take (Z.to_nat (Z.min 3 kdata_decrypted_max_data)) [71; 69; 84])) as [dict dumps] eqn:Ed.
    exists r, m1, m2, dict, dumps. split; [exact E1|]. split; [exact E2|]. apply (f_equal fst) in Ed. cbn [fst] in Ed. rewrite <- Ed. reflexivity.
Defined.

(** The three bytes after the segment go to the identifier as well. *)
Lemma padding_parsed_witness : ∃ h' c', Tcp.handler (λ _, false) (λ _, false) a_handler Egress 60 60 (one_frame ++ [0; 0; 0]) frame_th = Ok h' ∧ view h' (MkKey 1 2 80 80) = Some c' ∧
  cn_http c' = Some [(H1, [71; 69; 84; 0; 0; 0])].
Proof.
  destruct (padding_parsed (λ _, false) (λ _, false) a_handler (one_frame ++ [0; 0; 0]) frame_ih frame_th Egress (one_frame ++ [0; 0; 0]) a_conn frame_th) as (h' & c' & E & V & F).
  - apply a_handler_ok.
  - apply a_handler_ok.
  - split; by vm_compute.
  - by vm_compute.
  - by vm_compute.
  - discriminate.
  - reflexivity.
  - vm_compute. reflexivity.
  - vm_compute. reflexivity.
  - exists h', c'. split; [exact E|]. split; [exact V|]. apply (f_equal fl_http) in F. cbn [flow_of fl_http] in F. rewrite F. vm_compute. reflexivity.
Defined.

Definition long_frame : list Z := take 16 one_frame ++ [19; 122] ++ take 36 (drop 18 one_frame) ++ replicate 4946 7.

Lemma unfollowed_not_continued_witness : ∃ h', Tcp.handler (λ _, false) (λ _, false) new_Handler Egress 5000 kdata_packet_max_data (take 4088 long_frame) frame_th = Ok h' ∧ h_continuation h' = false.
Proof.
  apply (unfollowed_not_continued (λ _, false) (λ _, false) new_Handler long_frame (MkIphdr 5 4986 6 1 2) frame_th Egress (take 4088 long_frame) frame_th).
  - apply new_handler_ok.
  - reflexivity.
  - split; [split|]; by vm_compute.
  - by vm_compute.
  - by vm_compute.
  - discriminate.
  - reflexivity.
  - intros c. rewrite view_new. discriminate.
Defined.
