(* ===== verification/DnsProps.v ===== *)
(** * Redirecting the addresses of hosts to proxy *)

From S2P Require Import Prelude KrDep KData Tcp Sniff.

(** ** Addresses and their text *)

Lemma lor_shift a b n : 0 ≤ n → 0 ≤ a < 2 ^ n → Z.lor a (Z.shiftl b n) = a + b * 2 ^ n.
Proof.
  intros Hn Ha. rewrite <- Z.add_nocarry_lor; [by rewrite Z.shiftl_mul_pow2|]. apply Z.bits_inj'. intros i Hi. rewrite Z.land_spec, Z.bits_0, Z.shiftl_spec by done.
  destruct (Z.lt_ge_cases i n) as [H|H]; [rewrite (Z.testbit_neg_r b) by lia; apply andb_false_r|]. destruct (decide (a = 0)) as [->|Na]; [by rewrite Z.bits_0|].
  rewrite Z.bits_above_log2; [done|lia|]. assert (Z.log2 a < n) by (apply Z.log2_lt_pow2; lia). lia.
Qed.

Lemma ip_of_sum a b c d : is_byte a → is_byte b → is_byte c → is_byte d → ip_of a b c d = a + b * 256 + c * 65536 + d * 16777216.
Proof.
  unfold is_byte, ip_of. intros. rewrite (lor_shift a b 8) by lia. change (2 ^ 8) with 256. rewrite (lor_shift _ c 16) by lia. change (2 ^ 16) with 65536.
  rewrite (lor_shift _ d 24) by lia. change (2 ^ 24) with 16777216. lia.
Qed.

(** The digits of a byte end where a dot follows. *)
Lemma digits_dot n n' r r' : is_byte n → is_byte n' → dec_digits n ++ 46 :: r = dec_digits n' ++ 46 :: r' → n = n' ∧ r = r'.
Proof.
  unfold is_byte, dec_digits. intros Hn Hn'.
  assert (∀ x, 0 ≤ x < 256 → 0 ≤ x / 100 ∧ 0 ≤ x / 10 ∧ 0 ≤ x / 10 mod 10 ∧ 0 ≤ x mod 10) as P.
  { intros x Hx. split_and!; [apply Z.div_pos; lia..|apply Z.mod_pos_bound; lia|apply Z.mod_pos_bound; lia]. }
  pose proof (P n Hn) as (P1 & P2 & P3 & P4). pose proof (P n' Hn') as (Q1 & Q2 & Q3 & Q4). pose proof (Z.div_mod n 10 ltac:(done)). pose proof (Z.div_mod n' 10 ltac:(done)).
  pose proof (Z.div_mod (n / 10) 10 ltac:(done)). pose proof (Z.div_mod (n' / 10) 10 ltac:(done)).
  assert (n / 10 / 10 = n / 100 ∧ n' / 10 / 10 = n' / 100) as [D1 D2] by (by rewrite !Z.div_div).
  repeat case_match; cbn; intros E; simplify_list_eq; first [exfalso; lia|split; [lia|done]].
Qed.

Lemma digits_inj n n' : is_byte n → is_byte n' → dec_digits n = dec_digits n' → n = n'.
Proof. intros Hn Hn' E. apply (digits_dot n n' [] []); [done..|]. by rewrite E. Qed.

Lemma toa_inj a b c d a' b' c' d' : is_byte a → is_byte b → is_byte c → is_byte d → is_byte a' → is_byte b' → is_byte c' → is_byte d' →
  toa a b c d = toa a' b' c' d' → a = a' ∧ b = b' ∧ c = c' ∧ d = d'.
Proof.
  unfold toa. intros. destruct (digits_dot a a' _ _ ltac:(done) ltac:(done) H7) as [-> E1]. destruct (digits_dot b b' _ _ ltac:(done) ltac:(done) E1) as [-> E2].
  destruct (digits_dot c c' _ _ ltac:(done) ltac:(done) E2) as [-> E3]. by rewrite (digits_inj d d').
Qed.

Lemma digits_length n : is_byte n → (length (dec_digits n) ≤ 3)%nat.
Proof. unfold dec_digits. intros. repeat case_match; cbn; lia. Qed.

(** The text fits [char toa[16]]. *)
Lemma toa_fits a b c d : is_byte a → is_byte b → is_byte c → is_byte d → (length (toa a b c d ++ [0]%Z) ≤ 16)%nat.
Proof.
  intros Ha Hb Hc Hd. unfold toa. repeat (rewrite !length_app || cbn [length]). pose proof (digits_length a Ha). pose proof (digits_length b Hb).
  pose proof (digits_length c Hc). pose proof (digits_length d Hd). lia.
Qed.

Section Dns.
Context `{NS : !KeySetLib (list Z), AS : !KeySetLib Z}.

(** An answer: the canonical name of a name, or an address of a name. *)
Inductive Answer := Cname (name cname : list Z) | Addr (name : list Z) (a b c d : Z).

Definition answer_ok (x : Answer) : Prop := match x with Cname _ _ => True | Addr _ a b c d => is_byte a ∧ is_byte b ∧ is_byte c ∧ is_byte d end.

Definition on_answer (m : MatchDnsAnswer) (x : Answer) : res MatchDnsAnswer :=
  match x with Cname n c => Ok (answerCname m n c) | Addr n a b c d => answerA m n [a; b; c; d] end.

Fixpoint on_answers (m : MatchDnsAnswer) (l : list Answer) : res MatchDnsAnswer :=
  match l with [] => Ok m | x :: l => m ← on_answer m x; on_answers m l end.

(** The names that are looked for after some answers: those of the start, and those
    that are canonical names of such a name. *)
Inductive known (start : KeySet (list Z)) : list Answer → list Z → Prop :=
| known_start l n : ks_find start n = true → known start l n
| known_cname l1 n c l2 : known start l1 n → known start (l1 ++ Cname n c :: l2) c.

Lemma known_app start l l' n : known start l n → known start (l ++ l') n.
Proof. destruct 1; [by left|]. rewrite <- app_assoc. cbn. by right. Qed.

Lemma known_snoc start l x n : known start (l ++ [x]) n ↔ known start l n ∨ ∃ n', x = Cname n' n ∧ known start l n'.
Proof.
  split.
  - intros K. remember (l ++ [x]) as l0 eqn:El. destruct K as [l0 n Hs|l1 n' c l2 K]; [left; by left|]. destruct l2 as [|y l2 _] using rev_ind.
    + apply app_inj_tail in El as [-> <-]. right. eauto.
    + left. rewrite app_comm_cons, app_assoc in El. apply app_inj_tail in El as [<- _]. by right.
  - intros [K|(n' & -> & K)]; [by apply known_app|by right].
Qed.

(** An address that was named. *)
Definition named (start : KeySet (list Z)) (l : list Answer) (a b c d : Z) : Prop := ∃ l1 n l2, l = l1 ++ Addr n a b c d :: l2 ∧ known start l1 n.

Lemma named_snoc start l x a b c d : named start (l ++ [x]) a b c d ↔ named start l a b c d ∨ ∃ n, x = Addr n a b c d ∧ known start l n.
Proof.
  unfold named. split.
  - intros (l1 & n & l2 & El & K). destruct l2 as [|y l2 _] using rev_ind.
    + apply app_inj_tail in El as [<- ->]. right. eauto.
    + left. rewrite app_comm_cons, app_assoc in El. apply app_inj_tail in El as [-> _]. eauto.
  - intros [(l1 & n & l2 & -> & K)|(n & -> & K)]; [|by exists l, n, []]. exists l1, n, (l2 ++ [x]). by rewrite <- app_assoc.
Qed.

Record dns_inv (start : KeySet (list Z)) (l : list Answer) (m : MatchDnsAnswer) : Prop := DnsInv {
  di_names : ∀ n, ks_find (mda_lookupSet m) n = true ↔ known start l n;
  di_ips : ∀ ip, ks_find (mda_ipsAdded m) ip = true ↔ ∃ a b c d, named start l a b c d ∧ ip = ip_of a b c d;
  di_cmds : ∀ x, x ∈ mda_matched m ↔ ∃ a b c d, named start l a b c d ∧ x = kring_cmd (toa a b c d);
  di_once : NoDup (mda_matched m);
}.

Lemma named_bytes start l a b c d : Forall answer_ok l → named start l a b c d → is_byte a ∧ is_byte b ∧ is_byte c ∧ is_byte d.
Proof. intros F (l1 & n & l2 & -> & _). apply Forall_app in F as [_ [F _]%Forall_cons]. exact F. Qed.

Lemma kring_cmd_inj s t : kring_cmd s = kring_cmd t → s = t.
Proof. unfold kring_cmd. intros [= E]. by apply app_inj_tail in E as [? _]. Qed.
(** ** Answers *)

Lemma cname_inv start l m n c : dns_inv start l m → dns_inv start (l ++ [Cname n c]) (answerCname m n c).
Proof.
  intros [Hn Hi Hc Ho]. assert (∀ a b x d, named start (l ++ [Cname n c]) a b x d ↔ named start l a b x d) as N. { intros a b x d. rewrite named_snoc. naive_solver. }
  assert (mda_ipsAdded (answerCname m n c) = mda_ipsAdded m ∧ mda_matched (answerCname m n c) = mda_matched m) as [E1 E2] by (unfold answerCname; by case_match).
  split; [|intros; rewrite E1; setoid_rewrite N; apply Hi|intros; rewrite E2; setoid_rewrite N; apply Hc|by rewrite E2].
  intros y. rewrite known_snoc. unfold answerCname. destruct (ks_find (mda_lookupSet m) n) eqn:En; cbn [andb].
  - destruct (ks_find (mda_lookupSet m) c) eqn:Ec; cbn [negb mda_lookupSet].
    + rewrite Hn. split; [by left|]. intros [K|(n' & [= -> ->] & K)]; [done|by apply Hn].
    + rewrite ks_find_insert, orb_true_iff, bool_decide_eq_true, Hn. split; [intros [-> |K]; [right; exists n; split; [done|by apply Hn]|by left]|]. intros [K|(n' & [= -> ->] & K)]; auto.
  - rewrite Hn. split; [by left|]. intros [K|(n' & [= -> ->] & K)]; [done|]. apply Hn in K. congruence.
Qed.

Lemma addr_inv start l m n a b c d : Forall answer_ok l → dns_inv start l m → is_byte a → is_byte b → is_byte c → is_byte d →
  ∃ m', answerA m n [a; b; c; d] = Ok m' ∧ dns_inv start (l ++ [Addr n a b c d]) m'.
Proof.
  intros Fl [Hn Hi Hc Ho] Ba Bb Bc Bd. assert (∀ y, known start (l ++ [Addr n a b c d]) y ↔ known start l y) as Kn. { intros y. rewrite known_snoc. naive_solver. }
  unfold answerA. destruct (ks_find (mda_lookupSet m) n) eqn:En.
  - apply Hn in En. change (aget [a; b; c; d] 0) with (Ok a). change (aget [a; b; c; d] 1) with (Ok b).
    change (aget [a; b; c; d] 2) with (Ok c). change (aget [a; b; c; d] 3) with (Ok d). rewrite !bind_Ok. rewrite mem_store_fits by (rewrite length_replicate; by apply toa_fits). rewrite bind_Ok.
    assert (∀ w x y z, named start (l ++ [Addr n a b c d]) w x y z ↔ named start l w x y z ∨ (w, x, y, z) = (a, b, c, d)) as N. { intros w x y z. rewrite named_snoc. naive_solver. }
    destruct (ks_find (mda_ipsAdded m) (ip_of a b c d)) eqn:Ei; cbn [negb].
    + apply Hi in Ei as (w & x & y & z & Nm & E). destruct (named_bytes start l w x y z Fl Nm) as (B1 & B2 & B3 & B4). rewrite !ip_of_sum in E by done.
      assert (w = a ∧ x = b ∧ y = c ∧ z = d) as (-> & -> & -> & ->) by (unfold is_byte in *; lia).
      assert (∀ w x y z, named start (l ++ [Addr n a b c d]) w x y z ↔ named start l w x y z) as N'. { intros. rewrite N. split; [|by left]. by intros [?|[= -> -> -> ->]]. }
      exists m. split; [done|]. split; [intros; by rewrite Kn|intros; setoid_rewrite N'; apply Hi|intros; setoid_rewrite N'; apply Hc|done].
    + eexists. split; [done|]. split; cbn [mda_lookupSet mda_ipsAdded mda_matched].
      * intros. by rewrite Kn.
      * intros ip. rewrite ks_find_insert, orb_true_iff, bool_decide_eq_true, Hi. setoid_rewrite N. split; [|naive_solver]. intros [<-|(w & x & y & z & ? & ->)]; [|naive_solver]. exists a, b, c, d. auto.
      * intros x. rewrite elem_of_app, list_elem_of_singleton, Hc. setoid_rewrite N. split; [|naive_solver]. intros [(w & y & z & v & ? & ->)| ->]; [naive_solver|]. exists a, b, c, d. auto.
      * apply NoDup_app. split_and!; [done| |apply NoDup_singleton]. intros x (w & y & z & v & Nm & Ex)%Hc Hx. apply list_elem_of_singleton in Hx. destruct (named_bytes start l w y z v Fl Nm) as (B1 & B2 & B3 & B4).
        subst x. apply kring_cmd_inj, toa_inj in Hx as (-> & -> & -> & ->); [|done..]. assert (ks_find (mda_ipsAdded m) (ip_of a b c d) = true) as Et; [|congruence]. apply Hi. eauto 10.
  - exists m. split; [done|]. assert (¬ known start l n) as Nk by (rewrite <- Hn; congruence).
    assert (∀ w x y z, named start (l ++ [Addr n a b c d]) w x y z ↔ named start l w x y z) as N. { intros. rewrite named_snoc. naive_solver. }
    split; [intros; by rewrite Kn|intros; setoid_rewrite N; apply Hi|intros; setoid_rewrite N; apply Hc|done].
Qed.

Lemma answers_inv start l2 : ∀ l1 m, dns_inv start l1 m → Forall answer_ok (l1 ++ l2) → ∃ m', on_answers m l2 = Ok m' ∧ dns_inv start (l1 ++ l2) m'.
Proof.
  induction l2 as [|x l2 IH]; intros l1 m I F; cbn [on_answers]; [rewrite app_nil_r; eauto|]. pose proof F as [F1 [Fx F2]%Forall_cons]%Forall_app.
  assert (∃ m1, on_answer m x = Ok m1 ∧ dns_inv start (l1 ++ [x]) m1) as (m1 & -> & I1).
  { destruct x; cbn in Fx |- *; [eexists; split; [done|by apply cname_inv]|]. by apply addr_inv; naive_solver. }
  rewrite bind_Ok. destruct (IH (l1 ++ [x]) m1 I1) as (m' & E & I'); [by rewrite <- app_assoc|]. exists m'. split; [done|]. by rewrite <- app_assoc in I'.
Qed.

(** After any sequence of DNS answers the commands that were made are the addresses
    given for a name that was looked for at that time, each once; the names looked for
    are those of the start and the canonical names of such names; the text of an
    address fits its array. *)
Theorem redirected_once start l : Forall answer_ok l → ∃ m, on_answers (MkMatchDnsAnswer start ks_empty []) l = Ok m ∧ NoDup (mda_matched m) ∧
  (∀ x, x ∈ mda_matched m ↔ ∃ l1 n a b c d l2, l = l1 ++ Addr n a b c d :: l2 ∧ known start l1 n ∧ x = kring_cmd (toa a b c d)) ∧
  (∀ n, ks_find (mda_lookupSet m) n = true ↔ known start l n).
Proof.
  intros F. destruct (answers_inv start l [] (MkMatchDnsAnswer start ks_empty [])) as (m & E & [Hn _ Hc Ho]); [|done|].
  - split; cbn.
    + intros n. split; [by left|]. intros K. inversion K as [? ? Hs|l1 ? ? l2 _ El]; [done|]. by destruct l1.
    + intros ip. rewrite ks_find_empty. split; [done|]. intros (a & b & c & d & (l1 & n & l2 & El & _) & _). by destruct l1.
    + intros x. split; [by intros ?%not_elem_of_nil|]. intros (a & b & c & d & (l1 & n & l2 & El & _) & _). by destruct l1.
    + constructor.
  - exists m. split_and!; [done..| |done]. intros x. rewrite Hc. unfold named. cbn [app]. naive_solver.
Qed.
End Dns.

(** ** A concrete run *)

#[export, refine] Instance list_set (K : Type) `{EqDecision K} : KeySetLib K := {|
  KeySet := list K;
  ks_empty := [];
  ks_insert s x := x :: s;
  ks_find s x := bool_decide (x ∈ s);
|}.
Proof.
  - intros k. apply bool_decide_eq_false. apply not_elem_of_nil.
  - intros s x y. destruct (decide (x = y)) as [->|N].
    + rewrite (bool_decide_eq_true_2 (y = y)) by done. apply bool_decide_eq_true_2. left.
    + rewrite (bool_decide_eq_false_2 (x = y)) by done. cbn. apply bool_decide_ext. rewrite elem_of_cons. naive_solver.
Defined.

(** One name to look for. *)
Definition one_name : KeySet (list Z) := ks_insert ks_empty [97].

Lemma redirected_once_witness : ∃ m, on_answers (MkMatchDnsAnswer one_name ks_empty []) [Addr [98] 10 0 0 1; Cname [97] [98]; Addr [98] 10 0 0 1; Addr [97] 10 0 0 1] = Ok m ∧
  kring_cmd (toa 10 0 0 1) ∈ mda_matched m ∧ length (mda_matched m) = 1%nat.
Proof.
  destruct (redirected_once one_name [Addr [98] 10 0 0 1; Cname [97] [98]; Addr [98] 10 0 0 1; Addr [97] 10 0 0 1]) as (m & E & _ & C & _); [repeat constructor; lia|].
  exists m. split; [exact E|]. split; [|revert E; vm_compute; intros [= <-]; reflexivity]. apply C.
  exists [Addr [98] 10 0 0 1; Cname [97] [98]], [98], 10, 0, 0, 1, [Addr [97] 10 0 0 1]. split; [reflexivity|]. split; [|reflexivity].
  apply (known_cname _ [Addr [98] 10 0 0 1] [97] [98] []). left. reflexivity.
Defined.
