(* ===== verification/Vpt.v ===== *)
(** * parse/node.cc: the tree of a parse and the patterns on it

    The parsers report what they see as nodes that are pushed and popped.  The nodes
    form a tree; patterns are matched against it while it grows: each node on the
    stack has a set of states, a pattern node with the child it waits for.  Barriers
    keep the errors of an inner language from the stack of the outer one. *)

From S2P Require Import Prelude.

(** ** Nodes *)

Inductive NodeType :=
  | Root | LangHttp | LangJson | LangHtml | ConnTls | ConnHost
  | HttpRequest | HttpHead | HttpResponse | HttpConnHost
  | HttpMethod | HttpUri | HttpProtocol | HttpHeader | HttpHeaderName | HttpHeaderValue
  | HtmlTag | HtmlText | HtmlAttr | HtmlVal
  | JsonObject | JsonField | JsonArray | JsonString | JsonNumber | JsonNull | JsonFalse | JsonTrue | JsonNaN | JsonInfinity
  | DnsPacket | DnsQuestion | DnsAnswer | DnsAuthority | DnsAdditional | DnsRrA | DnsRrAAAA | DnsRrCname | DnsName | DnsAddr
  | FileTypePe | FileTypeUnknown.

#[export] Instance node_type_eq_dec : EqDecision NodeType.
Proof. solve_decision. Defined.

(** Nodes are in a heap, and named by their place in it. *)
Record Node := MkNode {
  nd_type : NodeType;
  nd_text : list Z;
  nd_data : list Z;
  nd_children : list nat;
}.

Definition new_Node (type : NodeType) : Node := MkNode type [] [] [].

(** ** Patterns (pattern.h) *)

(** [pn_first] is [children.head]. *)
Record PatNode := MkPatNode {
  pn_parent : option nat;
  pn_type : NodeType;
  pn_text : list Z;
  pn_first : option nat;
  pn_next : option nat;
  pn_onMatch : option nat;
  pn_onFailure : option nat;
  pn_up : Z;
  pn_skip : bool;
  pn_once : bool;
}.

Record PatState := MkPatState {
  ps_node : nat;
  ps_nextChild : option nat;
}.

Inductive MatchResult := MatchContinue | MatchFinished | MatchFail.

#[export] Instance match_result_eq_dec : EqDecision MatchResult.
Proof. solve_decision. Defined.

(** ** The stack *)

(** The node of the first element of the stack is null. *)
Record StackNode := MkStackNode {
  sn_node : option nat;
  sn_active : list PatState;
  sn_consumer : option nat;
  sn_onMatchList : list nat;
}.

Definition new_StackNode (node : option nat) : StackNode := MkStackNode node [] None [].

(** [v_vs] has the tail of [vs] first.  [v_calls]: the calls of [match], with the node. *)
Record VPT := MkVPT {
  v_nodes : list Node;
  v_vs : list StackNode;
  v_vt : StackNode;
  v_patRoots : list nat;
  v_error : bool;
  v_barriers : list Z;
  v_topBarrier : Z;
  v_calls : list (nat * nat);
}.

(** The constructor does not set [topBarrier]. *)
Definition new_VPT (topBarrier : Z) : VPT :=
  MkVPT [new_Node Root] [new_StackNode None] (new_StackNode (Some 0%nat)) [] false [] topBarrier [].

Definition addPat (v : VPT) (pat : nat) : VPT :=
  MkVPT (v_nodes v) (v_vs v) (v_vt v) (v_patRoots v ++ [pat]) (v_error v) (v_barriers v) (v_topBarrier v) (v_calls v).

Definition set_stack (v : VPT) (vs : list StackNode) (vt : StackNode) : VPT :=
  MkVPT (v_nodes v) vs vt (v_patRoots v) (v_error v) (v_barriers v) (v_topBarrier v) (v_calls v).
Definition set_nodes (v : VPT) (ns : list Node) : VPT :=
  MkVPT ns (v_vs v) (v_vt v) (v_patRoots v) (v_error v) (v_barriers v) (v_topBarrier v) (v_calls v).
Definition set_roots (v : VPT) (rs : list nat) : VPT :=
  MkVPT (v_nodes v) (v_vs v) (v_vt v) rs (v_error v) (v_barriers v) (v_topBarrier v) (v_calls v).
Definition set_error (v : VPT) : VPT :=
  MkVPT (v_nodes v) (v_vs v) (v_vt v) (v_patRoots v) true (v_barriers v) (v_topBarrier v) (v_calls v).
Definition set_barrier (v : VPT) (bs : list Z) (t : Z) : VPT :=
  MkVPT (v_nodes v) (v_vs v) (v_vt v) (v_patRoots v) (v_error v) bs t (v_calls v).
Definition add_calls (v : VPT) (l : list (nat * nat)) : VPT :=
  MkVPT (v_nodes v) (v_vs v) (v_vt v) (v_patRoots v) (v_error v) (v_barriers v) (v_topBarrier v) (v_calls v ++ l).

Definition set_active (s : StackNode) (l : list PatState) : StackNode := MkStackNode (sn_node s) l (sn_consumer s) (sn_onMatchList s).
Definition set_onMatch (s : StackNode) (l : list nat) : StackNode := MkStackNode (sn_node s) (sn_active s) (sn_consumer s) l.

(** [vt->node] *)
Definition vt_node (v : VPT) : res (nat * Node) :=
  i ← deref (sn_node (v_vt v));
  n ← deref (v_nodes v !! i);
  Ok (i, n).

Definition upd_node (v : VPT) (i : nat) (n : Node) : VPT := set_nodes v (<[i := n]> (v_nodes v)).

Section Patterns.
(** The pattern nodes, and what the functions of [OnMatch] return for a node of a tree;
    those of the repository only read the tree. *)
Variable pat : nat → PatNode.
Variable on_match : nat → list Node → nat → MatchResult.

(** ** Pushing *)

(** Advancing the active set for a child: the states the parent keeps, those of the
    child, and the [onFailure]s called.  The test of [onFailure] ends in a semicolon,
    so that the call is made in any case. *)
Fixpoint advance (type : NodeType) (l : list PatState) : res (list PatState * list PatState * list nat) :=
  match l with
  | [] => Ok ([], [], [])
  | st :: l =>
      match ps_nextChild st with
      | None => '(keep, child, fails) ← advance type l; Ok (st :: keep, child, fails)
      | Some c =>
          if bool_decide (pn_type (pat c) = type) then
            '(keep, child, fails) ← advance type l;
            Ok (if pn_skip (pat c) then st :: keep else keep, MkPatState c (pn_first (pat c)) :: child, fails)
          else if pn_skip (pat c) then '(keep, child, fails) ← advance type l; Ok (st :: keep, child, fails)
          else
            f ← deref (pn_onFailure (pat (ps_node st)));
            '(keep, child, fails) ← advance type l;
            Ok (keep, child, f :: fails)
      end
  end.

(** Adding root items: the states added, and the roots that stay. *)
Fixpoint root_items (type : NodeType) (roots : list nat) : list PatState * list nat :=
  match roots with
  | [] => ([], [])
  | r :: roots =>
      let '(sts, rs) := root_items type roots in
      if bool_decide (pn_type (pat r) = type) then
        (MkPatState r (pn_first (pat r)) :: sts, if pn_once (pat r) then rs else r :: rs)
      else (sts, r :: rs)
  end.

Definition push (v : VPT) (type : NodeType) : res VPT :=
  let parent := v_vt v in
  '(pi, pn) ← vt_node v;
  let i := length (v_nodes v) in
  let v := set_nodes v (<[pi := MkNode (nd_type pn) (nd_text pn) (nd_data pn) (nd_children pn ++ [i])]> (v_nodes v) ++ [new_Node type]) in
  '(keep, child, fails) ← advance type (sn_active parent);
  let v := add_calls v ((λ f, (f, i)) <$> fails) in
  let '(items, roots) := root_items type (v_patRoots v) in
  let v := set_stack (set_roots v roots) (set_active parent keep :: v_vs v) (set_active (new_StackNode (Some i)) (child ++ items)) in
  Ok (set_barrier v (v_barriers v) (v_topBarrier v + 1)).

(** ** Popping *)

(** The ancestor [n] places up: [where = vs.tail; while ( up > 0 && where != 0 ) where = where->prev]. *)
Definition append_match (vs : list StackNode) (n : nat) (cb : nat) : list StackNode :=
  alter (λ s, set_onMatch s (sn_onMatchList s ++ [cb])) n vs.

(** Collect matches to the appropriate match list. *)
Fixpoint collect (l : list PatState) (vs : list StackNode) (vt : StackNode) : list StackNode * StackNode :=
  match l with
  | [] => (vs, vt)
  | st :: l =>
      match ps_nextChild st, pn_onMatch (pat (ps_node st)) with
      | None, Some cb =>
          if 0 <? pn_up (pat (ps_node st)) then collect l (append_match vs (Z.to_nat (pn_up (pat (ps_node st)) - 1)) cb) vt
          else collect l vs (set_onMatch vt (sn_onMatchList vt ++ [cb]))
      | _, _ => collect l vs vt
      end
  end.

(** The states of a match function that did not say to continue go, and their failure
    functions are called if it said so. *)
Fixpoint drop_matched (cb : nat) (r : MatchResult) (l : list PatState) : list PatState * list nat :=
  match l with
  | [] => ([], [])
  | st :: l =>
      let '(keep, fails) := drop_matched cb r l in
      if bool_decide (pn_onMatch (pat (ps_node st)) = Some cb) then
        (keep, match r, pn_onFailure (pat (ps_node st)) with MatchFail, Some f => f :: fails | _, _ => fails end)
      else (st :: keep, fails)
  end.

(** Execute match functions. *)
Fixpoint run_matches (ns : list Node) (i : nat) (cbs : list nat) (active : list PatState) : list PatState * list nat :=
  match cbs with
  | [] => (active, [])
  | cb :: cbs =>
      match on_match cb ns i with
      | MatchContinue => let '(active, calls) := run_matches ns i cbs active in (active, cb :: calls)
      | r =>
          let '(active, fails) := drop_matched cb r active in
          let '(active, calls) := run_matches ns i cbs active in
          (active, cb :: fails ++ calls)
      end
  end.

(** Move matches up to the parent. *)
Definition move_up (active : list PatState) : list PatState :=
  omap (λ st, (λ p, MkPatState p (pn_next (pat (ps_node st)))) <$> pn_parent (pat (ps_node st))) active.

(** The result, and whether it was popped. *)
Definition pop (v : VPT) (type : NodeType) : res (VPT * bool) :=
  '(i, n) ← vt_node v;
  if bool_decide (nd_type n ≠ type) then Ok (set_error v, false)
  else if v_topBarrier v =? 0 then Ok (set_error v, false)
  else
    let '(vs, vt) := collect (sn_active (v_vt v)) (v_vs v) (v_vt v) in
    let '(active, calls) := run_matches (v_nodes v) i (sn_onMatchList vt) (sn_active vt) in
    let v := add_calls v ((λ f, (f, i)) <$> calls) in
    match vs with
    | [] => Ub
    | tail :: vs =>
        let tail := set_active tail (sn_active tail ++ move_up active) in
        let v := set_stack v vs tail in
        Ok (set_barrier v (v_barriers v) (v_topBarrier v - 1), true)
    end.

(** ** Text *)

Fixpoint text_states (text : list Z) (l : list PatState) : list PatState * list nat :=
  match l with
  | [] => ([], [])
  | st :: l =>
      let '(keep, fails) := text_states text l in
      let p := pat (ps_node st) in
      if bool_decide (pn_text p ≠ [] ∧ pn_text p ≠ text) then
        (keep, match pn_onFailure p with Some f => f :: fails | None => fails end)
      else (st :: keep, fails)
  end.

Definition setText (v : VPT) (text : list Z) : res VPT :=
  '(i, n) ← vt_node v;
  let v := upd_node v i (MkNode (nd_type n) text (nd_data n) (nd_children n)) in
  let '(keep, fails) := text_states text (sn_active (v_vt v)) in
  Ok (add_calls (set_stack v (v_vs v) (set_active (v_vt v) keep)) ((λ f, (f, i)) <$> fails)).

Definition setData (v : VPT) (data : list Z) : res VPT :=
  '(i, n) ← vt_node v;
  Ok (upd_node v i (MkNode (nd_type n) (nd_text n) data (nd_children n))).

(** [children.tail] of the node, which is made if it is not of the type. *)
Definition appendText (v : VPT) (type : NodeType) (text : list Z) : res VPT :=
  '(i, n) ← vt_node v;
  let fresh := match last (nd_children n) ≫= (λ c, v_nodes v !! c) with Some c => bool_decide (nd_type c ≠ type) | None => true end in
  v ← (if fresh then v ← push v type; '(v, _) ← pop v type; Ok v else Ok v);
  '(i, n) ← vt_node v;
  c ← deref (last (nd_children n));
  cn ← deref (v_nodes v !! c);
  Ok (upd_node v c (MkNode (nd_type cn) (nd_text cn ++ text) (nd_data cn) (nd_children cn))).

(** ** Barriers *)

Definition pushBarrier (v : VPT) : VPT := set_barrier v (v_barriers v ++ [v_topBarrier v]) 0.

(** Each turn pops a node. *)
Fixpoint clear (fuel : nat) (v : VPT) : res VPT :=
  if 0 <? v_topBarrier v then
    match fuel with
    | O => Spin
    | S fuel =>
        '(_, n) ← vt_node v;
        '(v, _) ← pop v (nd_type n);
        clear fuel v
    end
  else Ok v.

(** The vector is asked to remove nothing from its last place. *)
Definition popBarrier (v : VPT) : res VPT :=
  match last (v_barriers v) with
  | None => Ok v
  | Some t =>
      v ← clear (Z.to_nat (v_topBarrier v)) v;
      Ok (set_barrier v (v_barriers v) t)
  end.

(** ** Looking around *)

Definition setConsumer (v : VPT) (c : nat) : VPT :=
  set_stack v (v_vs v) (MkStackNode (sn_node (v_vt v)) (sn_active (v_vt v)) (Some c) (sn_onMatchList (v_vt v))).

Definition getConsumer (v : VPT) : option nat :=
  head (omap sn_consumer (v_vt v :: v_vs v)).

(** The node [n] levels up; past the stack, a null pointer is followed. *)
Definition up (v : VPT) (n : Z) : res (option nat) :=
  if n <? 0 then Ok None
  else if n =? 0 then Ok (sn_node (v_vt v))
  else s ← deref (v_vs v !! Z.to_nat (n - 1)); Ok (sn_node s).

Definition depth (v : VPT) : Z := Z.of_nat (length (v_vs v)).
End Patterns.

(** ** Searching the tree *)

Section Tree.
Variable ns : list Node.

Definition children_of (n : Node) : list Node := omap (λ c, ns !! c) (nd_children n).

Definition findChild (n : Node) (type : NodeType) : option Node := head (filter (λ c, nd_type c = type) (children_of n)).

Definition null_node : Node := new_Node JsonNull.

(** Node::obj; a field without a value gives a null pointer. *)
Definition obj (n : Node) (key : list Z) : option Node :=
  if bool_decide (nd_type n = JsonObject) then
    match filter (λ c, nd_type c = JsonField ∧ nd_text c = key) (children_of n) with
    | f :: _ => head (children_of f)
    | [] => Some null_node
    end
  else Some null_node.

Definition arr (n : Node) (i : Z) : Node :=
  if bool_decide (nd_type n = JsonArray) && (0 <=? i) then default null_node (children_of n !! Z.to_nat i) else null_node.
End Tree.
