(* ===== verification/VptStack.v ===== *)
(** * The stack and the tree, whatever the patterns

    What pushing, popping and setting text do to the nodes, the stack and the barrier,
    when no pattern makes the code call a missing function. *)

From S2P Require Import Prelude Vpt.

Section Stack.
Context (pat : nat → PatNode) (on_match : nat → list Node → nat → MatchResult).

Abbreviation push := (push pat).
Abbreviation pop := (pop pat on_match).
Abbreviation setText := (setText pat).
Abbreviation clear := (clear pat on_match).
Abbreviation popBarrier := (popBarrier pat on_match).

(** A state that can be dropped: its next child is one that can be skipped, or there is a
    function to call. *)
Definition state_ok (st : PatState) : Prop :=
  match ps_nextChild st with
  | Some c => pn_skip (pat c) = true ∨ is_Some (pn_onFailure (pat (ps_node st)))
  | None => True
  end.

(** Patterns with such states only. *)
Record pats_ok : Prop := PatsOk {
  po_first : ∀ n, state_ok (MkPatState n (pn_first (pat n)));
  po_next : ∀ n p, pn_parent (pat n) = Some p → state_ok (MkPatState p (pn_next (pat n)));
}.

Definition stack_ok (s : StackNode) : Prop := Forall state_ok (sn_active s).
Definition active_ok (v : VPT) : Prop := stack_ok (v_vt v) ∧ Forall stack_ok (v_vs v).

(** The nodes on the stack, the top first. *)
Definition spine (v : VPT) : list (option nat) := sn_node <$> v_vt v :: v_vs v.

(** ** What the operations do, whatever the patterns *)

Lemma push_effect v type p pn v' : push v type = Ok v' → sn_node (v_vt v) = Some p → v_nodes v !! p = Some pn →
  v_nodes v' = <[p := MkNode (nd_type pn) (nd_text pn) (nd_data pn) (nd_children pn ++ [length (v_nodes v)])]> (v_nodes v) ++ [new_Node type] ∧
  spine v' = Some (length (v_nodes v)) :: spine v ∧ v_topBarrier v' = v_topBarrier v + 1 ∧ v_barriers v' = v_barriers v ∧ v_error v' = v_error v.
Proof.
  intros E Ep En. unfold Vpt.push, vt_node in E. rewrite Ep in E. cbn [deref] in E. rewrite bind_Ok, En in E. cbn [deref] in E. rewrite !bind_Ok in E.
  apply bind_Ok_inv in E as ([[keep child] fails] & _ & E). cbn [set_nodes add_calls v_patRoots] in E. destruct (root_items pat type (v_patRoots v)) as [items roots]. by injection E as <-.
Qed.

Lemma append_match_spec vs n cb : sn_node <$> append_match vs n cb = sn_node <$> vs ∧ sn_active <$> append_match vs n cb = sn_active <$> vs.
Proof. unfold append_match. split; revert n; induction vs as [|s vs IH]; intros [|n]; cbn; try done; by rewrite IH. Qed.

Lemma collect_spec l : ∀ vs vt, let '(vs', vt') := collect pat l vs vt in
  sn_node <$> vs' = sn_node <$> vs ∧ sn_active <$> vs' = sn_active <$> vs ∧ sn_node vt' = sn_node vt ∧ sn_active vt' = sn_active vt.
Proof.
  induction l as [|st l IH]; intros vs vt; cbn; [done|]. destruct (ps_nextChild st); [apply IH|]. destruct (pn_onMatch (pat (ps_node st))) as [cb|]; [|apply IH]. destruct (0 <? _).
  - destruct (append_match_spec vs (Z.to_nat (pn_up (pat (ps_node st)) - 1)) cb) as [E1 E2]. specialize (IH (append_match vs (Z.to_nat (pn_up (pat (ps_node st)) - 1)) cb) vt).
    destruct (collect _ _ _ _). by rewrite E1, E2 in IH.
  - specialize (IH vs (set_onMatch vt (sn_onMatchList vt ++ [cb]))). by destruct (collect _ _ _ _).
Qed.

Lemma pop_effect v i n q spine' : spine v = Some i :: q :: spine' → v_nodes v !! i = Some n → v_topBarrier v ≠ 0 → ∃ v', pop v (nd_type n) = Ok (v', true) ∧
  v_nodes v' = v_nodes v ∧ spine v' = q :: spine' ∧ v_topBarrier v' = v_topBarrier v - 1 ∧ v_barriers v' = v_barriers v ∧ v_error v' = v_error v.
Proof.
  intros Es En Ht. unfold spine in Es. rewrite fmap_cons in Es. injection Es as Ep Eq. unfold Vpt.pop, vt_node. rewrite Ep. cbn [deref]. rewrite bind_Ok, En. cbn [deref]. rewrite !bind_Ok.
  rewrite bool_decide_false by (by intros H; apply H). destruct (Z.eqb_spec (v_topBarrier v) 0); [done|]. pose proof (collect_spec (sn_active (v_vt v)) (v_vs v) (v_vt v)) as C.
  destruct (collect pat (sn_active (v_vt v)) (v_vs v) (v_vt v)) as [vs vt]. destruct C as (C1 & _). destruct (run_matches _ _ _ _ _ _) as [active calls].
  destruct vs as [|tail vs]; [by rewrite <- C1 in Eq|]. cbn in C1. rewrite <- C1 in Eq. injection Eq as E1 E2.
  eexists. split; [done|]. split_and!; try done. unfold spine. cbn. by rewrite E1, E2.
Qed.

Lemma setText_effect v text i n : sn_node (v_vt v) = Some i → v_nodes v !! i = Some n → ∃ v', setText v text = Ok v' ∧
  v_nodes v' = <[i := MkNode (nd_type n) text (nd_data n) (nd_children n)]> (v_nodes v) ∧ spine v' = spine v ∧ v_topBarrier v' = v_topBarrier v ∧ v_barriers v' = v_barriers v ∧ v_error v' = v_error v.
Proof.
  intros Ep En. unfold Vpt.setText, vt_node. rewrite Ep. cbn [deref]. rewrite bind_Ok, En. cbn [deref]. rewrite !bind_Ok. cbn [upd_node set_nodes v_vt].
  destruct (text_states pat text (sn_active (v_vt v))) as [keep fails]. eexists. split; [done|]. split_and!; done.
Qed.

Context (Pats : pats_ok).

Lemma advance_ok type l : Forall state_ok l → ∃ keep child fails, advance pat type l = Ok (keep, child, fails) ∧ Forall state_ok keep ∧ Forall state_ok child.
Proof.
  induction 1 as [|st l Hs Hl (keep & child & fails & E & K & C)]; cbn; [by eexists _, _, _|]. rewrite E.
  assert (∀ b : bool, Forall state_ok (if b then st :: keep else keep)) as F by (intros []; [by constructor|done]). pose proof (F true) as Ft.
  destruct (ps_nextChild st) as [c|] eqn:En; [|cbn; by eexists _, _, _]. case_bool_decide.
  - cbn. eexists _, _, _. split; [done|]. split; [apply F|]. constructor; [|done]. apply (po_first Pats).
  - destruct (pn_skip (pat c)) eqn:Es; [cbn; by eexists _, _, _|]. unfold state_ok in Hs. rewrite En, Es in Hs. destruct Hs as [|[f Ef]]; [done|]. rewrite Ef. cbn. by eexists _, _, _.
Qed.

Lemma root_items_ok type rs : Forall state_ok (root_items pat type rs).1.
Proof.
  induction rs as [|r rs IH]; cbn; [done|]. destruct (root_items pat type rs) as [sts rs']. case_bool_decide; [|done]. constructor; [apply (po_first Pats)|done].
Qed.

(** ** Pushing *)

Lemma push_ok v type p pn : active_ok v → sn_node (v_vt v) = Some p → v_nodes v !! p = Some pn → ∃ v', push v type = Ok v' ∧ active_ok v' ∧
  v_nodes v' = <[p := MkNode (nd_type pn) (nd_text pn) (nd_data pn) (nd_children pn ++ [length (v_nodes v)])]> (v_nodes v) ++ [new_Node type] ∧
  spine v' = Some (length (v_nodes v)) :: spine v ∧ v_topBarrier v' = v_topBarrier v + 1 ∧ v_barriers v' = v_barriers v ∧ v_error v' = v_error v.
Proof.
  intros [At As] Ep En. assert (∃ v', push v type = Ok v' ∧ active_ok v') as (v' & E & A).
  { unfold Vpt.push, vt_node. rewrite Ep. cbn [deref]. rewrite bind_Ok, En. cbn [deref]. rewrite !bind_Ok.
    destruct (advance_ok type _ At) as (keep & child & fails & -> & K & C). rewrite bind_Ok. cbn [set_nodes add_calls v_patRoots]. pose proof (root_items_ok type (v_patRoots v)) as Ri.
    destruct (root_items pat type (v_patRoots v)) as [items roots]. eexists. split; [done|]. split; cbn; [|by constructor]. apply Forall_app. by split. }
  exists v'. split; [done|]. split; [done|]. by apply push_effect.
Qed.

(** ** Popping *)

Lemma move_up_ok l : Forall state_ok (move_up pat l).
Proof.
  unfold move_up. induction l as [|st l IH]; cbn; [done|]. destruct (pn_parent (pat (ps_node st))) as [p|] eqn:E; cbn; [|done]. constructor; [|done]. by apply (po_next Pats).
Qed.

Lemma active_fmap (P : list PatState → Prop) vs vs' : sn_active <$> vs' = sn_active <$> vs → Forall (λ s, P (sn_active s)) vs → Forall (λ s, P (sn_active s)) vs'.
Proof.
  revert vs. induction vs' as [|s vs' IH]; intros [|t vs]; cbn; intros [=]; [done|]. intros [Ht Hv]%Forall_cons. constructor; [congruence|eauto].
Qed.

Lemma pop_ok v i n q spine' : active_ok v → spine v = Some i :: q :: spine' → v_nodes v !! i = Some n → v_topBarrier v ≠ 0 → ∃ v', pop v (nd_type n) = Ok (v', true) ∧ active_ok v' ∧
  v_nodes v' = v_nodes v ∧ spine v' = q :: spine' ∧ v_topBarrier v' = v_topBarrier v - 1 ∧ v_barriers v' = v_barriers v ∧ v_error v' = v_error v.
Proof.
  intros [At As] Es En Ht. unfold spine in Es. rewrite fmap_cons in Es. injection Es as Ep Eq. unfold Vpt.pop, vt_node. rewrite Ep. cbn [deref]. rewrite bind_Ok, En. cbn [deref]. rewrite !bind_Ok.
  rewrite bool_decide_false by (by intros H; apply H). destruct (Z.eqb_spec (v_topBarrier v) 0); [done|]. pose proof (collect_spec (sn_active (v_vt v)) (v_vs v) (v_vt v)) as C.
  destruct (collect pat (sn_active (v_vt v)) (v_vs v) (v_vt v)) as [vs vt]. destruct C as (C1 & C2 & C3 & C4). destruct (run_matches _ _ _ _ _ _) as [active calls].
  pose proof (active_fmap (Forall state_ok) _ _ C2 As) as As'. destruct vs as [|tail vs]; [by rewrite <- C1 in Eq|]. cbn in C1. rewrite <- C1 in Eq. injection Eq as E1 E2.
  apply Forall_cons in As' as [At' As']. eexists. split; [done|]. split_and!; try done.
  - split; [|done]. apply Forall_app. split; [done|apply move_up_ok].
  - unfold spine. cbn. by rewrite E1, E2.
Qed.

(** A pop that does not fit is an error and nothing else. *)
Lemma pop_refused v type i n : sn_node (v_vt v) = Some i → v_nodes v !! i = Some n → nd_type n ≠ type ∨ v_topBarrier v = 0 → pop v type = Ok (set_error v, false).
Proof.
  intros Ep En H. unfold Vpt.pop, vt_node. rewrite Ep. cbn [deref]. rewrite bind_Ok, En. cbn [deref]. rewrite !bind_Ok. case_bool_decide; [done|].
  destruct H as [| ->]; [done|]. done.
Qed.

(** ** Text *)

Lemma text_states_ok text l : Forall state_ok l → Forall state_ok (text_states pat text l).1.
Proof. induction 1 as [|st l Hs Hl IH]; cbn; [done|]. destruct (text_states pat text l). case_bool_decide; [done|by constructor]. Qed.

Lemma setText_ok v text i n : active_ok v → sn_node (v_vt v) = Some i → v_nodes v !! i = Some n → ∃ v', setText v text = Ok v' ∧ active_ok v' ∧
  v_nodes v' = <[i := MkNode (nd_type n) text (nd_data n) (nd_children n)]> (v_nodes v) ∧ spine v' = spine v ∧ v_topBarrier v' = v_topBarrier v ∧ v_barriers v' = v_barriers v ∧ v_error v' = v_error v.
Proof.
  intros [At As] Ep En. unfold Vpt.setText, vt_node. rewrite Ep. cbn [deref]. rewrite bind_Ok, En. cbn [deref]. rewrite !bind_Ok. cbn [upd_node set_nodes v_vt].
  pose proof (text_states_ok text _ At) as T. destruct (text_states pat text (sn_active (v_vt v))) as [keep fails]. eexists. split; [done|]. split_and!; done.
Qed.
End Stack.
