(* ===== verification/VptProps.v ===== *)
(** * What the tree of a parse promises

    Balanced pushes and pops build the document; errors between two barriers leave the
    stack outside of them as it was; which functions the patterns on DNS answers call. *)

From S2P Require Import Prelude Vpt VptStack.

(** ** Documents *)

(** A list of trees: the first one with its children, and the rest. *)
Inductive Forest := Leaf | Tree (type : NodeType) (text : list Z) (kids rest : Forest).

(** The nodes [ids] of a heap, from [lo] on, are a document. *)
Inductive stands (ns : list Node) (lo : nat) : list nat → Forest → Prop :=
| stands_leaf : stands ns lo [] Leaf
| stands_tree i ids cs type text kids rest : (lo ≤ i)%nat → ns !! i = Some (MkNode type text [] cs) → stands ns lo cs kids → stands ns lo ids rest →
    stands ns lo (i :: ids) (Tree type text kids rest).

Lemma stands_keep ns ns' lo ids f : stands ns lo ids f → (∀ j n, (lo ≤ j)%nat → ns !! j = Some n → ns' !! j = Some n) → stands ns' lo ids f.
Proof. induction 1; intros K; econstructor; eauto. Qed.

Lemma stands_weaken ns lo lo' ids f : stands ns lo ids f → (lo' ≤ lo)%nat → stands ns lo' ids f.
Proof. induction 1; intros L; econstructor; eauto; lia. Qed.

Section Props.
Context (pat : nat → PatNode) (on_match : nat → list Node → nat → MatchResult).

Abbreviation push := (push pat).
Abbreviation pop := (pop pat on_match).
Abbreviation setText := (setText pat).

(** What a parser does for a document. *)
Fixpoint forest_run (v : VPT) (f : Forest) : res VPT :=
  match f with
  | Leaf => Ok v
  | Tree type text kids rest =>
      v ← push v type;
      v ← setText v text;
      v ← forest_run v kids;
      '(v, _) ← pop v type;
      forest_run v rest
  end.

(** A change below the top of the stack: everything but the children of the top and new
    nodes is as before. *)
Record grown (v v' : VPT) (p : nat) (ids : list nat) (f : Forest) : Prop := Grown {
  gr_old : ∀ j, j ≠ p → (j < length (v_nodes v))%nat → v_nodes v' !! j = v_nodes v !! j;
  gr_top : ∀ n, v_nodes v !! p = Some n → v_nodes v' !! p = Some (MkNode (nd_type n) (nd_text n) (nd_data n) (nd_children n ++ ids));
  gr_more : (length (v_nodes v) ≤ length (v_nodes v'))%nat;
  gr_new : stands (v_nodes v') (length (v_nodes v)) ids f;
  gr_spine : spine v' = spine v;
  gr_barrier : v_topBarrier v' = v_topBarrier v ∧ v_barriers v' = v_barriers v;
  gr_error : v_error v' = v_error v;
}.

Lemma lookup_len {A} (l : list A) i x : l !! i = Some x → (i < length l)%nat.
Proof. apply lookup_lt_Some. Qed.

(** Whatever the patterns, a parse that returns has made the document. *)
Lemma forest_grown f : ∀ v p n v', forest_run v f = Ok v' → sn_node (v_vt v) = Some p → v_nodes v !! p = Some n → 0 ≤ v_topBarrier v →
  ∃ ids, grown v v' p ids f.
Proof.
  induction f as [|type text kids IHk rest IHr]; intros v p n v' E Ep En Ht; cbn [forest_run] in E.
  - injection E as <-. exists []. split; try done; [|constructor]. intros m Em. rewrite app_nil_r, Em. by destruct m.
  - set (i := length (v_nodes v)). pose proof (lookup_len _ _ _ En) as Hp. apply bind_Ok_inv in E as (v1 & E1' & E). destruct (push_effect pat v type p n v1 E1' Ep En) as (N1 & S1 & T1 & B1 & R1). fold i in N1, S1.
    assert (length (v_nodes v1) = S i) as L1. { rewrite N1, length_app, length_insert. cbn. lia. }
    assert (v_nodes v1 !! i = Some (new_Node type)) as E1. { rewrite N1, lookup_app_r by (rewrite length_insert; done). by rewrite length_insert, Nat.sub_diag. }
    assert (sn_node (v_vt v1) = Some i) as P1. { unfold spine in S1. rewrite fmap_cons in S1. by injection S1. }
    destruct (setText_effect pat v1 text i _ P1 E1) as (v2 & E2' & N2 & S2 & T2 & B2 & R2). rewrite E2', bind_Ok in E. cbn [new_Node nd_type nd_data nd_children] in N2.
    assert (length (v_nodes v2) = S i) as L2 by (by rewrite N2, length_insert). assert (v_nodes v2 !! i = Some (MkNode type text [] [])) as E2. { rewrite N2. apply list_lookup_insert_eq. lia. }
    apply bind_Ok_inv in E as (v3 & E3' & E). destruct (IHk v2 i (MkNode type text [] []) v3 E3') as (cs & [O3 P3 M3 G3 S3 [T3 B3] R3]); [|exact E2|lia|]. { unfold spine in S2. rewrite !fmap_cons in S2. injection S2 as S2 _. congruence. }
    rewrite L2 in *. specialize (P3 _ E2). cbn in P3.
    destruct (pop_effect pat on_match v3 i (MkNode type text [] cs) (Some p) (sn_node <$> v_vs v)) as (v4 & E4 & N4 & S4 & T4 & B4 & R4);
      [rewrite S3, S2, S1; unfold spine; by rewrite fmap_cons, Ep|exact P3|lia|]. cbn [nd_type] in E4. rewrite E4, bind_Ok in E.
    assert (∀ j, (j < i)%nat → v_nodes v4 !! j = v_nodes v1 !! j) as O4. { intros j Hj. rewrite N4, O3, N2 by lia. rewrite list_lookup_insert_ne by lia. done. }
    assert (v_nodes v4 !! p = Some (MkNode (nd_type n) (nd_text n) (nd_data n) (nd_children n ++ [i]))) as Ep4. { rewrite O4 by done. rewrite N1, lookup_app_l by (by rewrite length_insert). by apply list_lookup_insert_eq. }
    assert (spine v4 = spine v) as Sp. { rewrite S4. unfold spine. by rewrite fmap_cons, Ep. }
    destruct (IHr v4 p (MkNode (nd_type n) (nd_text n) (nd_data n) (nd_children n ++ [i])) v' E) as (ids & [O5 P5 M5 G5 S5 [T5 B5] R5]); [|exact Ep4|lia|]. { unfold spine in Sp. rewrite !fmap_cons in Sp. injection Sp as Sp _. congruence. }
    specialize (P5 _ Ep4). cbn in P5. exists (i :: ids). split.
    + intros j Nj Hj. rewrite O5 by (rewrite ?N4; lia). rewrite O4 by done. rewrite N1, lookup_app_l by (by rewrite length_insert). by rewrite list_lookup_insert_ne by done.
    + intros m Em. assert (m = n) as -> by congruence. rewrite P5. by rewrite <- app_assoc.
    + rewrite N4 in *. lia.
    + assert (v_nodes v' !! i = Some (MkNode type text [] cs)) as E5. { rewrite O5 by (rewrite ?N4; lia). by rewrite N4. }
      apply (stands_tree _ _ i ids cs); [done|exact E5| |eapply stands_weaken; [exact G5|rewrite N4; lia]].
      apply (stands_keep (v_nodes v3)); [eapply stands_weaken; [exact G3|lia]|]. intros j m Hj Ej. rewrite <- N4 in Ej. rewrite O5; [done|lia|by eapply lookup_len].
    + by rewrite S5.
    + split; [lia|congruence].
    + congruence.
Qed.

(** Patterns that are looked for; the constructor does not set [topBarrier]. *)
Definition with_pats (top : Z) (pats : list nat) : VPT := foldl addPat (new_VPT top) pats.

Lemma with_pats_spec pats v : let v' := foldl addPat v pats in v_nodes v' = v_nodes v ∧ v_vs v' = v_vs v ∧ v_vt v' = v_vt v ∧ v_topBarrier v' = v_topBarrier v ∧ v_error v' = v_error v.
Proof. revert v. induction pats as [|p pats IH]; intros v; cbn; [done|]. by apply (IH (addPat v p)). Qed.

(** A document in a new tree, whose stack is again as at the start. *)
Definition built (v : VPT) (top : Z) (f : Forest) : Prop := ∃ ids, v_nodes v !! 0%nat = Some (MkNode Root [] [] ids) ∧ stands (v_nodes v) 1 ids f ∧
  spine v = [Some 0%nat; None] ∧ depth v = 1 ∧ v_topBarrier v = top ∧ v_error v = false.

Lemma document_partial top pats f v : 0 ≤ top → forest_run (with_pats top pats) f = Ok v → built v top f.
Proof.
  intros Ht E. destruct (with_pats_spec pats (new_VPT top)) as (N & S & T & B & R). fold (with_pats top pats) in *. set (v0 := with_pats top pats) in *.
  destruct (forest_grown f v0 0 (new_Node Root) v E) as (ids & [_ P _ G Sp [Tb _] Er]); [by rewrite T|by rewrite N|by rewrite B|].
  assert (spine v = [Some 0%nat; None]) as Sv by (rewrite Sp; unfold spine; by rewrite T, S).
  exists ids. rewrite N in P, G. split_and!; [apply (P (new_Node Root)); done|done|done| |by rewrite Tb, B|by rewrite Er, R].
  unfold depth. unfold spine in Sv. apply (f_equal length) in Sv. rewrite length_fmap in Sv. cbn in Sv. lia.
Qed.

(** With patterns whose states do not call a function that is not there, it returns. *)
Section Returns.
Context (Pats : pats_ok pat).

Lemma forest_ok f : ∀ v p n, active_ok pat v → sn_node (v_vt v) = Some p → v_nodes v !! p = Some n → 0 ≤ v_topBarrier v →
  ∃ v', forest_run v f = Ok v' ∧ active_ok pat v'.
Proof.
  induction f as [|type text kids IHk rest IHr]; intros v p n A Ep En Ht; cbn [forest_run]; [by exists v|].
  destruct (push_ok pat Pats v type p n A Ep En) as (v1 & -> & A1 & N1 & S1 & T1 & _). rewrite bind_Ok. set (i := length (v_nodes v)) in *.
  assert (v_nodes v1 !! i = Some (new_Node type)) as E1. { rewrite N1, lookup_app_r by (rewrite length_insert; done). by rewrite length_insert, Nat.sub_diag. }
  assert (sn_node (v_vt v1) = Some i) as P1. { unfold spine in S1. rewrite fmap_cons in S1. by injection S1. }
  destruct (setText_ok pat v1 text i _ A1 P1 E1) as (v2 & -> & A2 & N2 & S2 & T2 & _). rewrite bind_Ok.
  assert (∃ m, v_nodes v2 !! i = Some m) as [m E2]. { apply lookup_lt_is_Some. rewrite N2, length_insert. by eapply lookup_len. }
  assert (sn_node (v_vt v2) = Some i) as P2. { unfold spine in S2. rewrite !fmap_cons in S2. injection S2 as S2 _. congruence. }
  destruct (IHk v2 i m A2 P2 E2) as (v3 & E3 & A3); [lia|]. rewrite E3, bind_Ok.
  destruct (forest_grown kids v2 i m v3 E3 P2 E2) as (cs & [_ P3 _ _ S3 [T3 _] _]); [lia|]. specialize (P3 _ E2).
  assert (nd_type m = type) as Em.
  { rewrite N2, list_lookup_insert_eq in E2 by (by eapply lookup_len). by injection E2 as <-. }
  destruct (pop_ok pat on_match Pats v3 i _ (Some p) (sn_node <$> v_vs v) A3 ltac:(rewrite S3, S2, S1; unfold spine; by rewrite fmap_cons, Ep) P3) as (v4 & E4 & A4 & N4 & S4 & T4 & _); [lia|].
  cbn [nd_type] in E4. rewrite Em in E4. rewrite E4, bind_Ok.
  assert (sn_node (v_vt v4) = Some p) as P4. { unfold spine in S4. rewrite fmap_cons in S4. by injection S4. }
  assert (∃ m', v_nodes v4 !! p = Some m') as [m' E5].
  { apply lookup_lt_is_Some. rewrite N4. pose proof (lookup_len _ _ _ En). pose proof (lookup_len _ _ _ P3). unfold i in *. lia. }
  destruct (IHr v4 p m' A4 P4 E5) as (v5 & E6 & A5); [lia|]. by exists v5.
Qed.

(** A parse of a document, from a new tree on. *)
Lemma document_made top pats f : 0 ≤ top → ∃ v, forest_run (with_pats top pats) f = Ok v ∧ built v top f.
Proof.
  intros Ht. destruct (with_pats_spec pats (new_VPT top)) as (N & S & T & B & R). fold (with_pats top pats) in *. set (v0 := with_pats top pats) in *.
  destruct (forest_ok f v0 0 (new_Node Root)) as (v & E & _); [split; [rewrite T; constructor|rewrite S; by repeat constructor]|by rewrite T|by rewrite N|by rewrite B|].
  exists v. split; [done|]. by eapply document_partial.
Qed.
End Returns.

(** C21: Whatever patterns are looked for, a parse of a document that returns has made that
    document: its trees are the children of the root with their types, texts and children
    in order, the stack is as at the start, and there was no error.  It returns when every
    state of the patterns that can fail has a function to call then.  [topBarrier] may be
    anything that is not negative at the start. *)
Theorem document_built top pats f : 0 ≤ top →
  (∀ v, forest_run (with_pats top pats) f = Ok v → built v top f) ∧ (pats_ok pat → ∃ v, forest_run (with_pats top pats) f = Ok v).
Proof.
  intros Ht. split; [intros v; by apply document_partial|]. intros Pats. destruct (document_made Pats top pats f Ht) as (v & E & _). by exists v.
Qed.

Context (Pats : pats_ok pat).

(** ** Barriers *)

(** What a parser can do in a region. *)
Inductive Event := EvPush (type : NodeType) | EvPop (type : NodeType) | EvText (text : list Z).

Definition on_event (v : VPT) (e : Event) : res VPT :=
  match e with
  | EvPush type => push v type
  | EvPop type => '(v, _) ← pop v type; Ok v
  | EvText text => setText v text
  end.

Fixpoint on_events (v : VPT) (l : list Event) : res VPT := match l with [] => Ok v | e :: l => v ← on_event v e; on_events v l end.

(** The stack is [base] with as many nodes on it as were pushed since the barrier. *)
Record region (base : list (option nat)) (bs : list Z) (v : VPT) : Prop := Region {
  rg_active : active_ok pat v;
  rg_spine : ∃ ids, spine v = (Some <$> ids) ++ base ∧ Z.of_nat (length ids) = v_topBarrier v ∧ Forall (λ i, (i < length (v_nodes v))%nat) ids;
  rg_barriers : v_barriers v = bs;
}.

(** The base has a node. *)
Definition based (base : list (option nat)) (v : VPT) : Prop := ∃ i rest, base = Some i :: rest ∧ (i < length (v_nodes v))%nat.

Lemma region_top base bs v : region base bs v → based base v → ∃ i n, sn_node (v_vt v) = Some i ∧ v_nodes v !! i = Some n.
Proof.
  intros [_ (ids & S & _ & F) _] (b & rest & -> & Hb). assert (∃ i, sn_node (v_vt v) = Some i ∧ (i < length (v_nodes v))%nat) as (i & Ei & Hi).
  { unfold spine in S. rewrite fmap_cons in S. destruct ids as [|i ids]; injection S as E _; [eauto|]. apply Forall_cons in F as [F _]. eauto. }
  destruct (lookup_lt_is_Some_2 _ _ Hi) as [n En]. eauto.
Qed.

Lemma more_nodes ids n m : Forall (λ i, (i < n)%nat) ids → (n ≤ m)%nat → Forall (λ i, (i < m)%nat) ids.
Proof. intros F L. eapply Forall_impl; [exact F|]. cbn. lia. Qed.

Lemma region_pop base bs v ids i n : active_ok pat v → spine v = (Some <$> i :: ids) ++ base → base ≠ [] → Z.of_nat (length (i :: ids)) = v_topBarrier v →
  Forall (λ i, (i < length (v_nodes v))%nat) (i :: ids) → v_barriers v = bs → v_nodes v !! i = Some n →
  ∃ v', pop v (nd_type n) = Ok (v', true) ∧ region base bs v' ∧ v_nodes v' = v_nodes v ∧ v_topBarrier v' = v_topBarrier v - 1.
Proof.
  intros A S Nb T F B En. cbn [length] in T. destruct ((Some <$> ids) ++ base) as [|q rest] eqn:E; [by apply app_eq_nil in E as [_ ?]|].
  assert (spine v = Some i :: q :: rest) as S' by (rewrite S; cbn; by rewrite E). destruct (pop_ok pat on_match Pats v i n q rest A S' En) as (v' & Ep & A' & N' & Sp & T' & B' & _); [lia|].
  exists v'. split_and!; [done| |done|lia]. split; [done| |congruence]. exists ids. rewrite Sp, N'. apply Forall_cons in F as [_ F]. split_and!; [done|lia|done].
Qed.

Lemma event_ok base bs v e : region base bs v → based base v → ∃ v', on_event v e = Ok v' ∧ region base bs v' ∧ (length (v_nodes v) ≤ length (v_nodes v'))%nat.
Proof.
  intros Rg Bs. destruct (region_top base bs v Rg Bs) as (i & n & Ei & En). pose proof Rg as [A (ids & S & T & F) B]. destruct e as [type|type|text]; cbn [on_event].
  - destruct (push_ok pat Pats v type i n A Ei En) as (v' & -> & A' & N' & S' & T' & B' & _). exists v'. assert (length (v_nodes v') = Datatypes.S (length (v_nodes v))) as L. { rewrite N', length_app, length_insert. cbn. lia. }
    split_and!; [done| |lia]. split; [done| |congruence]. exists (length (v_nodes v) :: ids). rewrite S', S, T', L. split_and!; [done|cbn; lia|]. constructor; [lia|]. eapply more_nodes; [done|lia].
  - destruct (decide (nd_type n = type ∧ v_topBarrier v ≠ 0)) as [[<- Ht]|N].
    + destruct ids as [|j ids]; [cbn in T; lia|]. assert (j = i) as ->. { unfold spine in S. rewrite fmap_cons in S. injection S as S _. congruence. }
      destruct (region_pop base bs v ids i n A S) as (v' & -> & Rg' & N' & _); [destruct Bs as (? & ? & -> & _); done|done..|]. rewrite bind_Ok. exists v'. rewrite N'. done.
    + rewrite (pop_refused pat on_match v type i n Ei En) by (destruct (decide (nd_type n = type)); [right; destruct (decide (v_topBarrier v = 0)); [done|naive_solver]|by left]).
      rewrite bind_Ok. eexists. split; [done|]. split; [|done]. split; [done| |done]. by exists ids.
  - destruct (setText_ok pat v text i n A Ei En) as (v' & -> & A' & N' & S' & T' & B' & _). exists v'. assert (length (v_nodes v') = length (v_nodes v)) as L by (by rewrite N', length_insert).
    split_and!; [done| |lia]. split; [done| |congruence]. exists ids. rewrite S', T', L. done.
Qed.

Lemma based_more base v v' : based base v → (length (v_nodes v) ≤ length (v_nodes v'))%nat → based base v'.
Proof. intros (i & rest & E & H) L. exists i, rest. split; [done|lia]. Qed.

Lemma events_ok base bs l : ∀ v, region base bs v → based base v → ∃ v', on_events v l = Ok v' ∧ region base bs v' ∧ based base v'.
Proof.
  induction l as [|e l IH]; intros v Rg Bs; cbn; [eauto|]. destruct (event_ok base bs v e Rg Bs) as (v1 & -> & Rg1 & L1). rewrite bind_Ok. apply IH; [done|]. by eapply based_more.
Qed.

Lemma clear_ok base bs fuel : ∀ v, region base bs v → based base v → v_topBarrier v ≤ Z.of_nat fuel → ∃ v', clear pat on_match fuel v = Ok v' ∧ region base bs v' ∧ v_topBarrier v' = 0.
Proof.
  induction fuel as [|fuel IH]; intros v Rg Bs Hf; pose proof Rg as [A (ids & S & T & F) B]; cbn [clear]; (destruct (Z.ltb_spec 0 (v_topBarrier v)); [|exists v; split_and!; [done..|lia]]); [lia|].
  destruct ids as [|i ids]; [cbn in T; lia|]. pose proof F as [Fi _]%Forall_cons. destruct (lookup_lt_is_Some_2 _ _ Fi) as [n En].
  destruct (region_pop base bs v ids i n A S) as (v1 & E1 & Rg1 & N1 & T1); [destruct Bs as (? & ? & -> & _); done|done..|].
  unfold vt_node. assert (sn_node (v_vt v) = Some i) as ->. { unfold spine in S. rewrite fmap_cons in S. by injection S as S _. }
  cbn [deref]. rewrite bind_Ok, En. cbn [deref]. rewrite !bind_Ok, E1, bind_Ok. apply IH; [done|eapply based_more; [done|by rewrite N1]|lia].
Qed.

(** C22: Between two barriers anything can be pushed, popped and set, whether it fits or
    not: nothing outside of the barriers is popped, and after the second one the stack
    is where it was before the first. *)
Theorem barrier_contains v l i : active_ok pat v → sn_node (v_vt v) = Some i → (i < length (v_nodes v))%nat → ∃ v1 v2,
  on_events (pushBarrier v) l = Ok v1 ∧ (∃ inner, spine v1 = inner ++ spine v) ∧ popBarrier pat on_match v1 = Ok v2 ∧ spine v2 = spine v ∧ v_topBarrier v2 = v_topBarrier v.
Proof.
  intros A Ei Hi. set (bs := v_barriers v ++ [v_topBarrier v]). assert (region (spine v) bs (pushBarrier v)) as Rg by (split; [done|by exists []|done]).
  assert (based (spine v) (pushBarrier v)) as Bs. { exists i, (sn_node <$> v_vs v). split; [|done]. unfold spine. by rewrite fmap_cons, Ei. }
  destruct (events_ok (spine v) bs l _ Rg Bs) as (v1 & E1 & Rg1 & Bs1). destruct (clear_ok (spine v) bs (Z.to_nat (v_topBarrier v1)) v1 Rg1 Bs1) as (v2 & E2 & Rg2 & T2); [lia|].
  exists v1, (set_barrier v2 (v_barriers v2) (v_topBarrier v)). split; [done|]. split; [destruct (rg_spine _ _ _ Rg1) as (ids & S & _); eauto|]. unfold popBarrier. rewrite (rg_barriers _ _ _ Rg1). unfold bs. rewrite last_snoc, E2, bind_Ok.
  split; [done|]. split; [|done]. destruct (rg_spine _ _ _ Rg2) as (ids & S & T & _). rewrite T2 in T. destruct ids; [|cbn in T; lia]. exact S.
Qed.
End Props.
