(* ===== verification/VptMatch.v ===== *)
(** * Which functions the patterns call

    The two patterns of the sniffer on DNS answers; and what the matching of other
    patterns does wrong. *)

From S2P Require Import Prelude Vpt VptStack VptProps.

(** ** The patterns of the sniffer (consPatDnsAnswer1, consPatDnsAnswer2) *)

Definition plain_pat (type : NodeType) : PatNode := MkPatNode None type [] None None None None 0 false false.

Definition dns_pat (i : nat) : PatNode :=
  match i with
  | 0 => MkPatNode None DnsAnswer [] (Some 1%nat) None None None 0 false false
  | 1 => MkPatNode (Some 0%nat) DnsRrA [] None None (Some 0%nat) None 0 true false
  | 2 => MkPatNode None DnsAnswer [] (Some 3%nat) None None None 0 false false
  | 3 => MkPatNode (Some 2%nat) DnsRrCname [] None None (Some 1%nat) None 0 true false
  | _ => plain_pat Root
  end%nat.

(** Both functions return that they have finished. *)
Definition dns_on_match (cb : nat) (ns : list Node) (i : nat) : MatchResult := MatchFinished.

(** The patterns are safe. *)
Lemma dns_pats_ok : pats_ok dns_pat.
Proof.
  split; intros n; repeat (destruct n as [|n]; try (cbn; by left || done || intros; simplify_eq; done)).
Qed.

(** What is called for a document below a node of type [above], whose nodes are numbered
    from [i] in the order of their beginnings: one function for each record of an
    answer when it ends. *)
Fixpoint dns_calls (above : NodeType) (i : nat) (f : Forest) : list (nat * nat) * nat :=
  match f with
  | Leaf => ([], i)
  | Tree type _ kids rest =>
      let '(inner, j) := dns_calls type (S i) kids in
      let '(later, k) := dns_calls above j rest in
      let own :=
        if bool_decide (above = DnsAnswer) then
          if bool_decide (type = DnsRrA) then [(0, i)]
          else if bool_decide (type = DnsRrCname) then [(1, i)] else []
        else [] in
      (inner ++ own ++ later, k)
  end%nat.

Definition child_states (above type : NodeType) : list PatState :=
  if bool_decide (above = DnsAnswer) then
    if bool_decide (type = DnsRrA) then [MkPatState 1 None]
    else if bool_decide (type = DnsRrCname) then [MkPatState 3 None] else []
  else [].

Definition root_states (type : NodeType) : list PatState :=
  if bool_decide (type = DnsAnswer) then [MkPatState 0 (Some 1%nat); MkPatState 2 (Some 3%nat)] else [].

Definition dns_active (above type : NodeType) : list PatState := child_states above type ++ root_states type.

(** Case analysis on the types that matter. *)
Ltac cases_bool := repeat case_bool_decide; simplify_eq/=; try done.

Lemma dns_advance above type t : advance dns_pat t (dns_active above type) = Ok (dns_active above type, child_states type t, []).
Proof.
  unfold dns_active, child_states, root_states. destruct (decide (type = DnsAnswer)) as [->|Nd].
  - rewrite (bool_decide_eq_true_2 (DnsAnswer = DnsAnswer)) by done. rewrite (bool_decide_eq_false_2 (DnsAnswer = DnsRrA)), (bool_decide_eq_false_2 (DnsAnswer = DnsRrCname)) by done.
    assert ((if bool_decide (above = DnsAnswer) then @nil PatState else []) = []) as -> by (by case_bool_decide). cbn [app advance ps_nextChild dns_pat pn_type pn_skip].
    destruct (decide (t = DnsRrA)) as [->|N1]; [by vm_compute|]. destruct (decide (t = DnsRrCname)) as [->|N2]; [by vm_compute|].
    rewrite !bool_decide_false by congruence. done.
  - rewrite (bool_decide_eq_false_2 (type = DnsAnswer)) by done. rewrite app_nil_r. case_bool_decide; [|done]. case_bool_decide; [done|]. by case_bool_decide.
Qed.

Lemma dns_roots t : root_items dns_pat t [0%nat; 2%nat] = (root_states t, [0%nat; 2%nat]).
Proof. unfold root_states. cbn. destruct (decide (t = DnsAnswer)) as [->|N]; [by vm_compute|]. rewrite !bool_decide_false by congruence. done. Qed.

Lemma dns_text text l : Forall (λ st, pn_text (dns_pat (ps_node st)) = []) l → text_states dns_pat text l = (l, []).
Proof. induction 1 as [|st l Hs Hl IH]; cbn; [done|]. rewrite IH. rewrite bool_decide_false; [done|]. rewrite Hs. by intros [? _]. Qed.

Lemma dns_active_text above type : Forall (λ st, pn_text (dns_pat (ps_node st)) = []) (dns_active above type).
Proof. unfold dns_active, child_states, root_states. repeat case_bool_decide; by repeat constructor. Qed.

(** The top of the stack of a parse. *)
Record top (v : VPT) (above : NodeType) (p : nat) (n : Node) : Prop := Top {
  tp_node : sn_node (v_vt v) = Some p;
  tp_at : v_nodes v !! p = Some n;
  tp_active : sn_active (v_vt v) = dns_active above (nd_type n);
  tp_matches : sn_onMatchList (v_vt v) = [];
  tp_roots : v_patRoots v = [0%nat; 2%nat];
  tp_barrier : 0 ≤ v_topBarrier v;
}.

Lemma dns_push v above p n type : top v above p n → ∃ v', push dns_pat v type = Ok v' ∧ top v' (nd_type n) (length (v_nodes v)) (new_Node type) ∧ v_vs v' = v_vt v :: v_vs v ∧
  v_calls v' = v_calls v ∧ length (v_nodes v') = S (length (v_nodes v)) ∧ v_topBarrier v' = v_topBarrier v + 1 ∧
  v_nodes v' !! p = Some (MkNode (nd_type n) (nd_text n) (nd_data n) (nd_children n ++ [length (v_nodes v)])).
Proof.
  intros [En Ea Eac Em Er Eb]. pose proof (lookup_lt_Some _ _ _ Ea) as Hp. unfold push, vt_node. rewrite En. cbn [deref]. rewrite bind_Ok, Ea. cbn [deref]. rewrite !bind_Ok, Eac, dns_advance, bind_Ok.
  cbn [set_nodes add_calls v_patRoots]. rewrite Er, dns_roots. eexists. split; [done|]. cbn. rewrite app_nil_r. split_and!; try done.
  - split; cbn; try done; [|lia]. by rewrite lookup_app_r, length_insert, Nat.sub_diag by (by rewrite length_insert).
  - destruct (v_vt v) as [x a c m]. cbn in *. by rewrite Eac.
  - rewrite length_app, length_insert. cbn. lia.
  - rewrite lookup_app_l by (by rewrite length_insert). by apply list_lookup_insert_eq.
Qed.

Lemma dns_setText v above p n text : top v above p n → ∃ v', setText dns_pat v text = Ok v' ∧ top v' above p (MkNode (nd_type n) text (nd_data n) (nd_children n)) ∧
  v_vs v' = v_vs v ∧ v_calls v' = v_calls v ∧ length (v_nodes v') = length (v_nodes v) ∧ v_topBarrier v' = v_topBarrier v ∧ ∀ j, j ≠ p → v_nodes v' !! j = v_nodes v !! j.
Proof.
  intros [En Ea Eac Em Er Eb]. pose proof (lookup_lt_Some _ _ _ Ea) as Hp. unfold setText, vt_node. rewrite En. cbn [deref]. rewrite bind_Ok, Ea. cbn [deref]. rewrite !bind_Ok. cbn [upd_node set_nodes v_vt].
  rewrite Eac, dns_text by apply dns_active_text. eexists. split; [done|]. cbn. rewrite app_nil_r. split_and!; try done.
  - split; cbn; try done. by apply list_lookup_insert_eq.
  - by rewrite length_insert.
  - intros j Nj. by apply list_lookup_insert_ne.
Qed.

Lemma dns_pop v above p n tail vs : top v above p n → v_vs v = tail :: vs → 0 < v_topBarrier v → ∃ v', pop dns_pat dns_on_match v (nd_type n) = Ok (v', true) ∧
  v_vt v' = tail ∧ v_vs v' = vs ∧ v_nodes v' = v_nodes v ∧ v_patRoots v' = v_patRoots v ∧ v_topBarrier v' = v_topBarrier v - 1 ∧
  v_calls v' = v_calls v ++ (if bool_decide (above = DnsAnswer) then if bool_decide (nd_type n = DnsRrA) then [(0%nat, p)] else if bool_decide (nd_type n = DnsRrCname) then [(1%nat, p)] else [] else []).
Proof.
  intros [En Ea Eac Em Er Eb] Ev Ht. unfold pop, vt_node. rewrite En. cbn [deref]. rewrite bind_Ok, Ea. cbn [deref]. rewrite !bind_Ok, bool_decide_false by (by intros X; apply X).
  destruct (Z.eqb_spec (v_topBarrier v) 0); [lia|]. destruct (v_vt v) as [x a c m]. cbn in En, Eac, Em. subst x a m.
  unfold dns_active, child_states, root_states. destruct (decide (nd_type n = DnsAnswer)) as [Et|Nt].
  - rewrite Et. rewrite (bool_decide_eq_true_2 (DnsAnswer = DnsAnswer)), (bool_decide_eq_false_2 (DnsAnswer = DnsRrA)), (bool_decide_eq_false_2 (DnsAnswer = DnsRrCname)) by done.
    assert ((if bool_decide (above = DnsAnswer) then @nil PatState else []) = []) as -> by (by case_bool_decide). assert ((if bool_decide (above = DnsAnswer) then @nil (nat * nat) else []) = []) as -> by (by case_bool_decide).
    cbn. rewrite Ev. eexists. split; [done|]. cbn. rewrite ?app_nil_r. split_and!; try done; by destruct tail.
  - rewrite (bool_decide_eq_false_2 (nd_type n = DnsAnswer)), app_nil_r by done.
    case_bool_decide; [case_bool_decide; [|case_bool_decide]|]; cbn; rewrite Ev; (eexists; split; [done|]; cbn; rewrite ?app_nil_r; split_and!; try done; by destruct tail).
Qed.

Lemma dns_run f : ∀ v above p n, top v above p n → ∃ v' n', forest_run dns_pat dns_on_match v f = Ok v' ∧ top v' above p n' ∧ nd_type n' = nd_type n ∧ v_vt v' = v_vt v ∧ v_vs v' = v_vs v ∧
  v_calls v' = v_calls v ++ (dns_calls (nd_type n) (length (v_nodes v)) f).1 ∧ length (v_nodes v') = (dns_calls (nd_type n) (length (v_nodes v)) f).2 ∧ v_topBarrier v' = v_topBarrier v ∧
  ∀ j, j ≠ p → (j < length (v_nodes v))%nat → v_nodes v' !! j = v_nodes v !! j.
Proof.
  induction f as [|type text kids IHk rest IHr]; intros v above p n Tp; cbn [forest_run dns_calls].
  - exists v, n. cbn. rewrite app_nil_r. split_and!; done.
  - set (i := length (v_nodes v)). pose proof Tp as [Pn Pa _ _ Pr Pb]. pose proof (lookup_lt_Some _ _ _ Pa) as Hp.
    destruct (dns_push v above p n type Tp) as (v1 & E1 & T1 & S1 & C1 & L1 & B1 & N1). rewrite E1, bind_Ok. fold i in T1, L1, N1.
    destruct (dns_setText v1 (nd_type n) i (new_Node type) text T1) as (v2 & -> & T2 & S2 & C2 & L2 & B2 & N2). rewrite bind_Ok. cbn [nd_type nd_data nd_children new_Node] in T2.
    destruct (IHk v2 (nd_type n) i _ T2) as (v3 & n3 & -> & T3 & Y3 & V3 & S3 & C3 & L3 & B3 & O3). rewrite bind_Ok. cbn [nd_type] in *. rewrite L2, L1 in *.
    destruct (dns_pop v3 (nd_type n) i n3 (v_vt v) (v_vs v) T3) as (v4 & E4 & V4 & S4 & N4 & R4 & B4 & C4); [congruence|lia|]. rewrite Y3 in E4, C4. rewrite E4, bind_Ok.
    assert (v_nodes v4 !! p = Some (MkNode (nd_type n) (nd_text n) (nd_data n) (nd_children n ++ [i]))) as Pa4. { rewrite N4, O3, N2 by lia. exact N1. }
    assert (top v4 above p (MkNode (nd_type n) (nd_text n) (nd_data n) (nd_children n ++ [i]))) as T4. { destruct Tp. split; cbn; try done; [by rewrite V4..|rewrite R4; apply T3|lia]. }
    destruct (IHr v4 above p _ T4) as (v5 & n5 & -> & T5 & Y5 & V5 & S5 & C5 & L5 & B5 & O5). cbn [nd_type] in *. rewrite N4 in *. rewrite L3 in *.
    destruct (dns_calls type (S i) kids) as [inner j] eqn:Ei. cbn [fst snd] in *. destruct (dns_calls (nd_type n) j rest) as [later k] eqn:El. cbn [fst snd] in *.
    exists v5, n5. split_and!; try done; try congruence; [|lia|].
    + rewrite C5, C4, C3, C2, C1, <- !app_assoc. done.
    + intros x Nx Hx. fold i in Hx. assert (i < j)%nat as Hj by (rewrite <- L3; apply (lookup_lt_Some _ _ _ (tp_at _ _ _ _ T3))). rewrite O5, O3, N2 by lia. clear - E1 Pn Pa Nx Hx. unfold push, vt_node in E1. rewrite Pn in E1. cbn [deref] in E1. rewrite bind_Ok, Pa in E1. cbn [deref] in E1. rewrite !bind_Ok in E1.
      apply bind_Ok_inv in E1 as ([[keep child] fails] & _ & E1). cbn [set_nodes add_calls v_patRoots] in E1. destruct (root_items _ _ _). injection E1 as <-. cbn.
      rewrite lookup_app_l by (by rewrite length_insert). by apply list_lookup_insert_ne.
Qed.

(** C23: The patterns of the sniffer: for every document, the function for addresses is
    called for each A record that is a child of a DNS answer, and the function for
    names for each CNAME record, in the order in which the records end, and nothing is
    called for anything else. *)
Theorem dns_matches f : ∃ v, forest_run dns_pat dns_on_match (with_pats 0 [0%nat; 2%nat]) f = Ok v ∧ v_calls v = (dns_calls Root 1 f).1.
Proof.
  destruct (dns_run f (with_pats 0 [0%nat; 2%nat]) Root 0 (new_Node Root)) as (v & n & E & _ & _ & _ & _ & C & _); [by split|]. exists v. split; [exact E|exact C].
Qed.

(** ** Patterns that go wrong *)

Section Wrong.
Context (pat : nat → PatNode) (on_match : nat → list Node → nat → MatchResult).

Lemma advance_crash st c type l : st ∈ l → ps_nextChild st = Some c → pn_type (pat c) ≠ type → pn_skip (pat c) = false → pn_onFailure (pat (ps_node st)) = None → advance pat type l = Ub.
Proof.
  intros Hin En Nt Ns Nf. induction l as [|x l IH]; [by apply not_elem_of_nil in Hin|]. apply elem_of_cons in Hin as [<-|Hin]; cbn [advance].
  - rewrite En, bool_decide_false, Ns, Nf by done. done.
  - destruct (ps_nextChild x) as [d|]; [|by rewrite (IH Hin)]. destruct (bool_decide _); [by rewrite (IH Hin)|]. destruct (pn_skip (pat d)); [by rewrite (IH Hin)|].
    destruct (pn_onFailure (pat (ps_node x))); cbn [deref]; [rewrite bind_Ok; by rewrite (IH Hin)|done].
Qed.

(** A state that waits for a child that cannot be skipped, of a pattern node without
    a function for failure: pushing a child of another type calls that function. *)
Theorem mismatch_crashes v p n st c type : sn_node (v_vt v) = Some p → v_nodes v !! p = Some n → st ∈ sn_active (v_vt v) → ps_nextChild st = Some c → pn_type (pat c) ≠ type →
  pn_skip (pat c) = false → pn_onFailure (pat (ps_node st)) = None → push pat v type = Ub.
Proof.
  intros Ep En Hin E1 E2 E3 E4. unfold push, vt_node. rewrite Ep. cbn [deref]. rewrite bind_Ok, En. cbn [deref]. rewrite !bind_Ok. by rewrite (advance_crash st c).
Qed.

Lemma clear_zero fuel v : v_topBarrier v ≤ 0 → clear pat on_match fuel v = Ok v.
Proof. intros H. destruct fuel; cbn; by destruct (Z.ltb_spec 0 (v_topBarrier v)); [lia|]. Qed.

(** Barriers do not nest: popBarrier does not remove what pushBarrier saved, so that
    the outer one restores the count of the inner one. *)
Theorem nested_barriers_confused v v1 v2 : v_barriers v1 = v_barriers v ++ [v_topBarrier v] →
  popBarrier pat on_match (pushBarrier v1) = Ok v2 → ∀ v3, popBarrier pat on_match v2 = Ok v3 → v_topBarrier v3 = v_topBarrier v1.
Proof.
  intros Eb E2 v3. unfold popBarrier in E2. cbn [pushBarrier set_barrier v_barriers] in E2. rewrite last_snoc in E2. cbn [v_topBarrier] in E2. rewrite clear_zero in E2 by done.
  rewrite bind_Ok in E2. injection E2 as <-. unfold popBarrier. cbn [set_barrier v_barriers]. rewrite last_snoc. intros E3. apply bind_Ok_inv in E3 as (v4 & _ & E3). by injection E3 as <-.
Qed.
End Wrong.

(** A pattern A with a child B that has a child C, and a function for A: it is called for
    an A with a B that has no C, since the state of B is moved up when B is popped,
    whether it is complete or not. *)
Definition abc_pat (i : nat) : PatNode :=
  match i with
  | 0 => MkPatNode None HtmlTag [] (Some 1%nat) None (Some 7%nat) None 0 false false
  | 1 => MkPatNode (Some 0%nat) HtmlAttr [] (Some 2%nat) None None None 0 false false
  | 2 => MkPatNode (Some 1%nat) HtmlVal [] None None None None 0 false false
  | _ => plain_pat Root
  end%nat.

Example incomplete_child_matches :
  match forest_run abc_pat dns_on_match (with_pats 0 [0%nat]) (Tree HtmlTag [] (Tree HtmlAttr [] Leaf Leaf) Leaf) with Ok v => v_calls v | _ => [] end = [(7%nat, 1%nat)].
Proof. reflexivity. Qed.

(** ** Witnesses *)

(** [topBarrier] is seven at the start. *)
Lemma document_built_witness : ∃ v ids, forest_run dns_pat dns_on_match (with_pats 7 [0%nat; 2%nat]) (Tree DnsAnswer [] (Tree DnsRrA [5] Leaf Leaf) Leaf) = Ok v ∧ v_nodes v !! 0%nat = Some (MkNode Root [] [] ids) ∧ ids = [1%nat].
Proof.
  destruct (document_built dns_pat dns_on_match 7 [0%nat; 2%nat] (Tree DnsAnswer [] (Tree DnsRrA [5] Leaf Leaf) Leaf) ltac:(done)) as [B R].
  destruct (R dns_pats_ok) as (v & E). destruct (B v E) as (ids & N & _). exists v, ids. split; [exact E|]. split; [exact N|].
  vm_compute in E. injection E as <-. by injection N as <-.
Defined.

Lemma barrier_contains_witness : ∃ v1 v2, on_events dns_pat dns_on_match (pushBarrier (new_VPT 0)) [EvPush HtmlTag; EvPop HtmlVal; EvPop HtmlTag; EvPop HtmlTag; EvPush HtmlAttr] = Ok v1 ∧
  popBarrier dns_pat dns_on_match v1 = Ok v2 ∧ spine v2 = [Some 0%nat; None].
Proof.
  destruct (barrier_contains dns_pat dns_on_match dns_pats_ok (new_VPT 0) [EvPush HtmlTag; EvPop HtmlVal; EvPop HtmlTag; EvPop HtmlTag; EvPush HtmlAttr] 0) as (v1 & v2 & E1 & _ & E2 & S & _).
  - split; [constructor|by repeat constructor].
  - reflexivity.
  - cbn. lia.
  - exists v1, v2. split; [exact E1|]. split; [exact E2|]. exact S.
Defined.

Definition in_tag : VPT := match push abc_pat (with_pats 0 [0%nat]) HtmlTag with Ok v => v | _ => new_VPT 0 end.

Lemma mismatch_crashes_witness : push abc_pat in_tag HtmlText = Ub.
Proof.
  apply (mismatch_crashes abc_pat in_tag 1 (new_Node HtmlTag) (MkPatState 0 (Some 1%nat)) 1); try reflexivity.
  - vm_compute. left.
  - discriminate.
Defined.

Definition two_deep : VPT := match on_events dns_pat dns_on_match (pushBarrier (new_VPT 0)) [EvPush HtmlTag; EvPush HtmlTag] with Ok v => v | _ => new_VPT 0 end.

Lemma nested_barriers_confused_witness : ∃ v2 v3, popBarrier dns_pat dns_on_match (pushBarrier two_deep) = Ok v2 ∧ popBarrier dns_pat dns_on_match v2 = Ok v3 ∧ v_topBarrier v3 = 2.
Proof.
  destruct (popBarrier dns_pat dns_on_match (pushBarrier two_deep)) as [v2| |] eqn:E2; [|vm_compute in E2; discriminate..].
  destruct (popBarrier dns_pat dns_on_match v2) as [v3| |] eqn:E3; [|revert E2 E3; vm_compute; intros [= <-]; discriminate..].
  exists v2, v3. split; [reflexivity|]. split; [exact E3|].
  apply (nested_barriers_confused dns_pat dns_on_match (new_VPT 0) two_deep v2); [reflexivity|exact E2|exact E3].
Defined.
