(* ===== verification/Certs.v ===== *)
(** * tlsproxy/proxy.cc: the certificates of the proxy (ContextMap)

    The proxy threads share a map from host names to the contexts made for them, a pool
    of keys and a serial number, all under one lock.  The first thread that asks for a
    host makes its context and stores it; a thread that asks meanwhile makes one for
    itself.  Certificates are made without holding the lock. *)

From S2P Require Import Prelude.

(** A context, by the certificate in it; a key is named by the number of keys generated
    before it, in this run of the program and in earlier ones. *)
Record SslCtx := MkSslCtx {
  ctx_host : list Z;
  ctx_serial : Z;
  ctx_key : Z;
}.

(** [cm_ctxMap] has a null pointer for a host whose context is being made. *)
Record ContextMap := MkContextMap {
  cm_ctxMap : gmap (list Z) (option SslCtx);
  cm_keyList : list Z;
  cm_serial : Z;
  cm_nextConId : Z;
}.

(** Where a thread is: outside, in serverCtx (making a certificate, about to store it, about
    to return, with [made] if it has to tell the service thread first), or in addKeys with a
    key it has not yet put in the pool. *)
Inductive ServerCtx :=
  | Idle
  | Create (host : list Z) (store : bool) (serial : Z) (pkey : option Z)
  | Store (host : list Z) (ctx : SslCtx)
  | Return (host : list Z) (ctx : SslCtx) (made : bool)
  | Adding (key : Z).

(** The first part under the lock. *)
Definition lookup_ctx (m : ContextMap) (host : list Z) : ContextMap * ServerCtx :=
  let create store ctxMap :=
    (MkContextMap ctxMap (tail (cm_keyList m)) (cm_serial m + 1) (cm_nextConId m), Create host store (cm_serial m) (head (cm_keyList m))) in
  match cm_ctxMap m !! host with
  | None => create true (<[host := None]> (cm_ctxMap m))
  | Some (Some ctx) => (m, Return host ctx false)
  | Some None => create false (cm_ctxMap m)
  end.

(** The second part, for the thread that was first. *)
Definition store_ctx (m : ContextMap) (host : list Z) (ctx : SslCtx) : ContextMap :=
  MkContextMap (<[host := Some ctx]> (cm_ctxMap m)) (cm_keyList m) (cm_serial m) (cm_nextConId m).

(** The part of a turn of addKeys under the lock. *)
Definition add_key (m : ContextMap) (key : Z) : ContextMap :=
  MkContextMap (cm_ctxMap m) (cm_keyList m ++ [key]) (cm_serial m) (cm_nextConId m).

(** A long, added to atomically. *)
Definition connId (m : ContextMap) : ContextMap * Z :=
  let next := i64 (cm_nextConId m + 1) in
  (MkContextMap (cm_ctxMap m) (cm_keyList m) (cm_serial m) next, next).

(** The constructor of ProxyConnection takes it as an int. *)
Definition conn_number (connId : Z) : Z := i32 connId.

(** ** All threads *)

(** [sy_keys]: the number of keys generated so far.  [sy_certs], [sy_returned], [sy_ids]:
    the certificates made, the contexts returned for hosts, the connection numbers;
    [sy_sent]: the hosts of the CertGenerated messages sent to the service thread. *)
Record System := MkSystem {
  sy_map : ContextMap;
  sy_threads : gmap nat ServerCtx;
  sy_keys : Z;
  sy_certs : list SslCtx;
  sy_returned : list (list Z * SslCtx);
  sy_ids : list Z;
  sy_sent : list (list Z);
}.

(** makeCert and sslCtxServer: a key is generated when none was in the pool. *)
Definition make_cert (s : System) (host : list Z) (serial : Z) (pkey : option Z) : SslCtx * Z :=
  match pkey with
  | Some k => (MkSslCtx host serial k, sy_keys s)
  | None => (MkSslCtx host serial (sy_keys s), sy_keys s + 1)
  end.

Definition at_thread (s : System) (t : nat) : ServerCtx := default Idle (sy_threads s !! t).

Definition with_thread (s : System) (t : nat) (l : ServerCtx) : System :=
  MkSystem (sy_map s) (<[t := l]> (sy_threads s)) (sy_keys s) (sy_certs s) (sy_returned s) (sy_ids s) (sy_sent s).

Inductive sy_step : System → System → Prop :=
| sy_enter s t host m l : at_thread s t = Idle → lookup_ctx (sy_map s) host = (m, l) →
    sy_step s (with_thread (MkSystem m (sy_threads s) (sy_keys s) (sy_certs s) (sy_returned s) (sy_ids s) (sy_sent s)) t l)
| sy_make s t host store serial pkey ctx keys : at_thread s t = Create host store serial pkey → make_cert s host serial pkey = (ctx, keys) →
    sy_step s (with_thread (MkSystem (sy_map s) (sy_threads s) keys (sy_certs s ++ [ctx]) (sy_returned s) (sy_ids s) (sy_sent s))
      t (if store then Store host ctx else Return host ctx true))
| sy_store s t host ctx : at_thread s t = Store host ctx →
    sy_step s (with_thread (MkSystem (store_ctx (sy_map s) host ctx) (sy_threads s) (sy_keys s) (sy_certs s) (sy_returned s) (sy_ids s) (sy_sent s)) t (Return host ctx true))
| sy_return s t host ctx made : at_thread s t = Return host ctx made →
    sy_step s (with_thread (MkSystem (sy_map s) (sy_threads s) (sy_keys s) (sy_certs s) (sy_returned s ++ [(host, ctx)]) (sy_ids s)
      (sy_sent s ++ (if made then [host] else []))) t Idle)
| sy_genKey s t : at_thread s t = Idle →
    sy_step s (with_thread (MkSystem (sy_map s) (sy_threads s) (sy_keys s + 1) (sy_certs s) (sy_returned s) (sy_ids s) (sy_sent s)) t (Adding (sy_keys s)))
| sy_addKey s t key : at_thread s t = Adding key →
    sy_step s (with_thread (MkSystem (add_key (sy_map s) key) (sy_threads s) (sy_keys s) (sy_certs s) (sy_returned s) (sy_ids s) (sy_sent s)) t Idle)
| sy_connId s m id : connId (sy_map s) = (m, id) →
    sy_step s (MkSystem m (sy_threads s) (sy_keys s) (sy_certs s) (sy_returned s) (sy_ids s ++ [conn_number id]) (sy_sent s)).

(** As the constructor leaves it, with the serial number of the file, when [keys] keys
    were generated before. *)
Definition sy_start (serial keys : Z) : System := MkSystem (MkContextMap ∅ [] serial 0) ∅ keys [] [] [] [].

Inductive sy_reach (serial keys : Z) : System → Prop :=
| sy_begin : sy_reach serial keys (sy_start serial keys)
| sy_more s s' : sy_reach serial keys s → sy_step s s' → sy_reach serial keys s'.

(** ** The invariant *)

(** What a thread has in hand. *)
Definition serial_of (l : ServerCtx) : option Z := match l with Create _ _ n _ => Some n | _ => None end.
Definition key_of (l : ServerCtx) : option Z := match l with Create _ _ _ k => k | Adding k => Some k | _ => None end.
Definition storing (l : ServerCtx) : option (list Z) := match l with Create h true _ _ => Some h | Store h _ => Some h | _ => None end.
Definition made_of (l : ServerCtx) : option (list Z * SslCtx) := match l with Store h c => Some (h, c) | Return h c _ => Some (h, c) | _ => None end.

(** Every serial number given out is below the next one and in one place: a thread's hands
    or a certificate. *)
Record serials_ok (s : System) : Prop := SerialsOk {
  so_old : ∀ n, n ∈ map ctx_serial (sy_certs s) → n < cm_serial (sy_map s);
  so_hand : ∀ t n, serial_of (at_thread s t) = Some n → n < cm_serial (sy_map s) ∧ n ∉ map ctx_serial (sy_certs s);
  so_own : ∀ t u n, serial_of (at_thread s t) = Some n → serial_of (at_thread s u) = Some n → t = u;
  so_certs : NoDup (map ctx_serial (sy_certs s));
}.

(** Every key generated is in one place: the pool, a thread's hands or a certificate. *)
Record keys_ok (s : System) : Prop := KeysOk {
  ko_old : ∀ k, k ∈ map ctx_key (sy_certs s) → k < sy_keys s ∧ k ∉ cm_keyList (sy_map s);
  ko_hand : ∀ t k, key_of (at_thread s t) = Some k → k < sy_keys s ∧ (k ∉ cm_keyList (sy_map s)) ∧ k ∉ map ctx_key (sy_certs s);
  ko_own : ∀ t u k, key_of (at_thread s t) = Some k → key_of (at_thread s u) = Some k → t = u;
  ko_pool : NoDup (cm_keyList (sy_map s));
  ko_pool_old : ∀ k, k ∈ cm_keyList (sy_map s) → k < sy_keys s;
  ko_certs : NoDup (map ctx_key (sy_certs s));
}.

(** A context is stored by one thread, for the host it was made for. *)
Record hosts_ok (s : System) : Prop := HostsOk {
  ho_stored : ∀ h c, cm_ctxMap (sy_map s) !! h = Some (Some c) → ctx_host c = h ∧ c ∈ sy_certs s;
  ho_storing : ∀ t h, storing (at_thread s t) = Some h → cm_ctxMap (sy_map s) !! h = Some None;
  ho_own : ∀ t u h, storing (at_thread s t) = Some h → storing (at_thread s u) = Some h → t = u;
  ho_made : ∀ t h c, made_of (at_thread s t) = Some (h, c) → ctx_host c = h ∧ c ∈ sy_certs s;
  ho_returned : ∀ h c, (h, c) ∈ sy_returned s → ctx_host c = h ∧ c ∈ sy_certs s;
}.

(** As long as an int tells them apart. *)
Definition ids_ok (s : System) : Prop := Z.of_nat (length (sy_ids s)) < 2 ^ 32 →
  cm_nextConId (sy_map s) = Z.of_nat (length (sy_ids s)) ∧ sy_ids s = conn_number <$> seqZ 1 (Z.of_nat (length (sy_ids s))).

Lemma at_with s t u l : at_thread (with_thread s t l) u = if decide (t = u) then l else at_thread s u.
Proof. unfold at_thread. cbn. destruct (decide (t = u)) as [->|N]; [by rewrite lookup_insert_eq|by rewrite lookup_insert_ne]. Qed.

Lemma at_same m s k c r i o u : at_thread (MkSystem m (sy_threads s) k c r i o) u = at_thread s u.
Proof. reflexivity. Qed.

Arguments at_thread : simpl never.

(** Look a thread up after a step. *)
Ltac at_step := intros; repeat (rewrite at_with, ?at_same in *); rewrite ?at_same in *; repeat case_decide; subst; cbn in *.

Lemma NoDup_snoc {A} (l : list A) (x : A) : NoDup l → x ∉ l → NoDup (l ++ [x]).
Proof. intros D N. apply NoDup_app. split_and!; [done|set_solver|apply NoDup_singleton]. Qed.

(** What the first part under the lock does. *)
Lemma lookup_ctx_spec m h m' l : lookup_ctx m h = (m', l) →
  (∃ c, cm_ctxMap m !! h = Some (Some c) ∧ m' = m ∧ l = Return h c false) ∨
  (∃ store, l = Create h store (cm_serial m) (head (cm_keyList m)) ∧ cm_serial m' = cm_serial m + 1 ∧ cm_keyList m' = tail (cm_keyList m) ∧
    cm_nextConId m' = cm_nextConId m ∧
    (store = true ∧ cm_ctxMap m !! h = None ∧ cm_ctxMap m' = <[h := None]> (cm_ctxMap m) ∨ store = false ∧ cm_ctxMap m' = cm_ctxMap m)).
Proof. unfold lookup_ctx. destruct (cm_ctxMap m !! h) as [[c|]|] eqn:E; intros [= <- <-]; [left|right|right]; naive_solver. Qed.

(** A serial number in the hands of a thread that is neither new nor used. *)
Lemma hand_ne {A} (f : ServerCtx → option A) (s : System) (t u : nat) (x : A) (l : list A) :
  (∀ t u x, f (at_thread s t) = Some x → f (at_thread s u) = Some x → t = u) → t ≠ u → f (at_thread s t) = Some x → x ∉ l →
  ∀ y, f (at_thread s u) = Some y → y ∉ l → y ∉ l ++ [x].
Proof. intros Own Ne T _ y U N [?|E%list_elem_of_singleton]%elem_of_app; [done|]. subst y. by apply Ne, (Own _ _ x). Qed.

Lemma serials_step s s' : serials_ok s → sy_step s s' → serials_ok s'.
Proof.
  intros [Old Hand Own Certs] St. destruct St as [s t h m l T L|s t h b n k c ks T M|s t h c T|s t h c b T|s t T|s t k T|s m i C].
  - apply lookup_ctx_spec in L as [(c & _ & -> & ->)|(b & -> & Sn & _)]; split; at_step; eauto; try done; simplify_eq.
    + specialize (Old _ ltac:(eassumption)). lia.
    + split; [lia|]. intros I%Old. lia.
    + destruct (Hand _ _ ltac:(eassumption)). split; [lia|done].
    + edestruct Hand as [X _]; [eassumption|]. lia.
    + edestruct Hand as [X _]; [eassumption|]. lia.
  - assert (Cn : ctx_serial c = n) by (destruct k; by injection M as <- _).
    pose proof (Hand t n ltac:(by rewrite T)) as [N1 N2].
    destruct b; (split; at_step; rewrite ?map_app in *; cbn in *; rewrite ?Cn in *; try done; [set_solver| |by eapply Own|by apply NoDup_snoc]);
      (edestruct Hand; [eassumption|]; split; [done|]; eapply (hand_ne serial_of); eauto; by rewrite T).
  - split; at_step; eauto; done.
  - split; at_step; eauto; done.
  - split; at_step; eauto; done.
  - split; at_step; eauto; done.
  - injection C as <- <-. split; at_step; eauto.
Qed.

(** The number of the next key is in no place yet. *)
Lemma next_key_new s : keys_ok s → (sy_keys s ∉ map ctx_key (sy_certs s)) ∧ (sy_keys s ∉ cm_keyList (sy_map s)) ∧ ∀ t, key_of (at_thread s t) ≠ Some (sy_keys s).
Proof. intros O. split_and!; [intros [? _]%(ko_old s O)|intros ?%(ko_pool_old s O)|intros t [? _]%(ko_hand s O)]; lia. Qed.

Lemma keys_step s s' : keys_ok s → sy_step s s' → keys_ok s'.
Proof.
  intros O St. pose proof (next_key_new s O) as (Nc & Np & Nh). destruct O as [Old Hand Own Pool PoolOld Certs].
  destruct St as [s t h m l T L|s t h b n k c ks T M|s t h c T|s t h c b T|s t T|s t k T|s m i C].
  - apply lookup_ctx_spec in L as [(c & _ & -> & ->)|(b & -> & _ & Ks & _)]; [split; at_step; eauto; done|].
    destruct (cm_keyList (sy_map s)) as [|k0 pool]; [split; at_step; rewrite ?Ks in *; eauto; done|].
    apply NoDup_cons in Pool as [P0 Pool].
    assert (K0 : k0 < sy_keys s ∧ (k0 ∉ map ctx_key (sy_certs s)) ∧ ∀ u, key_of (at_thread s u) ≠ Some k0).
    { split_and!; [apply PoolOld; set_solver|intros [_ N]%Old; set_solver|intros u (_ & N & _)%Hand; set_solver]. }
    destruct K0 as (K0 & K1 & K2).
    split; at_step; rewrite ?Ks in *; simplify_eq; try done; try (by edestruct K2); eauto; set_solver.
  - destruct k as [k|]; injection M as <- <-.
    + pose proof (Hand t k ltac:(by rewrite T)) as (N0 & N1 & N2).
      destruct b; (split; at_step; rewrite ?map_app in *; cbn in *; try done; eauto; [set_solver| |by apply NoDup_snoc]);
      (edestruct Hand as (X & Y & W); [eassumption|]; split_and!; [done..|]; eapply (hand_ne key_of); eauto; by rewrite T).
    + destruct b; (split; at_step; rewrite ?map_app in *; cbn in *; try done; eauto; [| | |by apply NoDup_snoc]);
        try (by apply Z.lt_lt_succ_r, PoolOld).
      all: try (match goal with H : _ ∈ _ ++ [_] |- _ => apply elem_of_app in H as [[? ?]%Old|E%list_elem_of_singleton]; subst end; by split; [lia|]).
      all: edestruct Hand as (X & Y & W); [eassumption|]; split_and!; [lia|done|].
      all: intros [?|E%list_elem_of_singleton]%elem_of_app; [done|subst; by edestruct Nh].
  - split; at_step; eauto; done.
  - split; at_step; eauto; done.
  - split; at_step; simplify_eq; eauto; try done; try (by edestruct Nh).
    + destruct (Old _ ltac:(eassumption)). split; [lia|done].
    + split_and!; [lia|done..].
    + edestruct Hand as (X & Y & W); [eassumption|]. split_and!; [lia|done..].
    + by apply Z.lt_lt_succ_r, PoolOld.
  - pose proof (Hand t k ltac:(by rewrite T)) as (N0 & N1 & N2).
    split; at_step; simplify_eq; try done; eauto.
    + destruct (Old _ ltac:(eassumption)). split; [done|set_solver].
    + edestruct Hand as (X & Y & W); [eassumption|]. split_and!; [done| |done]. eapply (hand_ne key_of); eauto; by rewrite T.
    + by apply NoDup_snoc.
    + set_solver.
  - injection C as <- <-. split; at_step; eauto.
Qed.

Lemma hosts_step s s' : hosts_ok s → sy_step s s' → hosts_ok s'.
Proof.
  intros [Stored Storing Own Made Ret] St. destruct St as [s t h m l T L|s t h b n k c ks T M|s t h c T|s t h c b T|s t T|s t k T|s m i C].
  - apply lookup_ctx_spec in L as [(c & Hc & -> & ->)|(b & -> & _ & _ & _ & [(-> & N & Hm)|[-> Hm]])]; split; at_step; rewrite ?Hm in *; eauto; try done; simplify_eq; eauto.
    + destruct (decide (h = h0)) as [->|Ne]; [by rewrite lookup_insert_eq in H|]. rewrite lookup_insert_ne in H by done. eauto.
    + by rewrite lookup_insert_eq.
    + destruct (decide (h = h0)) as [->|Ne]; [by rewrite lookup_insert_eq|]. rewrite lookup_insert_ne by done. eauto.
    + by rewrite (Storing _ _ ltac:(eassumption)) in N.
    + by rewrite (Storing _ _ ltac:(eassumption)) in N.
  - assert (Ch : ctx_host c = h) by (destruct k; by injection M as <- _).
    assert (Incl : ∀ (h : list Z) (d : SslCtx), ctx_host d = h ∧ d ∈ sy_certs s → ctx_host d = h ∧ d ∈ sy_certs s ++ [c]) by set_solver.
    pose proof (Own t) as OwnT. pose proof (Storing t) as StT. rewrite T in OwnT, StT. cbn in OwnT, StT.
    destruct b; split; at_step; simplify_eq; eauto; try done; try (by symmetry; eauto); set_solver.
  - pose proof (Own t) as OwnT. pose proof (Made t h c ltac:(by rewrite T)) as [Ch Cin]. rewrite T in OwnT. cbn in OwnT.
    split; at_step; simplify_eq; eauto; try done.
    + destruct (decide (ctx_host c = h0)) as [<-|Ne]; [rewrite lookup_insert_eq in H; by simplify_eq|]. rewrite lookup_insert_ne in H by done. eauto.
    + rewrite lookup_insert_ne; [eauto|]. intros <-. by apply H0, (OwnT t0 (ctx_host c)).
  - pose proof (Made t h c ltac:(by rewrite T)) as MadeT. split; at_step; eauto; try done.
    set_unfold. naive_solver.
  - split; at_step; eauto; done.
  - split; at_step; eauto; done.
  - injection C as <- <-. split; at_step; eauto.
Qed.

Lemma ids_step s s' : ids_ok s → sy_step s s' → ids_ok s'.
Proof.
  intros I St. destruct St as [s t h m l T L|s t h b n k c ks T M|s t h c T|s t h c b T|s t T|s t k T|s m i C]; try done.
  - intros B. destruct (I B) as [N E]. cbn. split; [|done]. rewrite <- N.
    by apply lookup_ctx_spec in L as [(c & _ & -> & _)|(b & _ & _ & _ & -> & _)].
  - injection C as <- <-. unfold ids_ok. cbn [sy_ids sy_map cm_nextConId]. rewrite length_app. cbn [length]. intros B.
    destruct I as [N E]; [lia|]. rewrite N, wraps_small by lia. split; [lia|].
    replace (Z.of_nat (length (sy_ids s) + 1)) with (Z.of_nat (length (sy_ids s)) + 1) by lia.
    rewrite seqZ_app, fmap_app, <- E by lia. f_equal.
    rewrite (seqZ_cons _ 1) by lia. cbn. by rewrite Z.add_comm.
Qed.

(** An int has room for 2^32 numbers. *)
Lemma conn_number_inj x y : 0 ≤ x < 2 ^ 32 → 0 ≤ y < 2 ^ 32 → conn_number x = conn_number y → x = y.
Proof.
  unfold conn_number, wraps. change (2 ^ (32 - 1)) with 2147483648. change (2 ^ 32) with 4294967296. intros.
  pose proof (Z.div_mod (x + 2147483648) 4294967296 ltac:(done)). pose proof (Z.div_mod (y + 2147483648) 4294967296 ltac:(done)). lia.
Qed.

Lemma numbers_NoDup n : n < 2 ^ 32 → NoDup (conn_number <$> seqZ 1 n).
Proof.
  intros B. apply NoDup_fmap_2_strong; [|apply NoDup_seqZ]. intros x y Hx%elem_of_seqZ Hy%elem_of_seqZ. apply conn_number_inj; lia.
Qed.

(** Serial numbers only grow. *)
Definition serials_from (serial : Z) (s : System) : Prop :=
  serial ≤ cm_serial (sy_map s) ∧ (∀ n, n ∈ map ctx_serial (sy_certs s) → serial ≤ n) ∧ ∀ t n, serial_of (at_thread s t) = Some n → serial ≤ n.

Lemma serials_from_step serial s s' : serials_from serial s → sy_step s s' → serials_from serial s'.
Proof.
  intros (Le & Old & Hand) St. destruct St as [s t h m l T L|s t h b n k c ks T M|s t h c T|s t h c b T|s t T|s t k T|s m i C].
  - apply lookup_ctx_spec in L as [(c & _ & -> & ->)|(b & -> & Sn & _)]; split_and!; at_step; simplify_eq; eauto; lia.
  - assert (Cn : ctx_serial c = n) by (destruct k; by injection M as <- _).
    pose proof (Hand t n ltac:(by rewrite T)). destruct b; split_and!; at_step; rewrite ?map_app in *; eauto; try done; set_solver.
  - split_and!; at_step; eauto; done.
  - split_and!; at_step; eauto; done.
  - split_and!; at_step; eauto; done.
  - split_and!; at_step; eauto; done.
  - injection C as <- <-. split_and!; at_step; eauto.
Qed.

(** And so do keys. *)
Definition keys_from (keys : Z) (s : System) : Prop :=
  keys ≤ sy_keys s ∧ (∀ k, k ∈ map ctx_key (sy_certs s) → keys ≤ k) ∧ (∀ k, k ∈ cm_keyList (sy_map s) → keys ≤ k) ∧
  ∀ t k, key_of (at_thread s t) = Some k → keys ≤ k.

Lemma keys_from_step keys s s' : keys_from keys s → sy_step s s' → keys_from keys s'.
Proof.
  intros (Le & Old & Pool & Hand) St. destruct St as [s t h m l T L|s t h b n k c ks T M|s t h c T|s t h c b T|s t T|s t k T|s m i C].
  - apply lookup_ctx_spec in L as [(c & _ & -> & ->)|(b & -> & _ & Ks & _)]; [split_and!; at_step; eauto; done|].
    destruct (cm_keyList (sy_map s)) as [|k0 pool]; split_and!; at_step; rewrite ?Ks in *; simplify_eq; eauto; try done; set_solver.
  - assert (keys ≤ ctx_key c ∧ sy_keys s ≤ ks) as [Kc Kk].
    { pose proof (Hand t) as Ht. rewrite T in Ht. destruct k as [k|]; injection M as <- <-; cbn; [|lia]. split; [by apply Ht|lia]. }
    destruct b; split_and!; at_step; rewrite ?map_app in *; eauto; try done; try lia; set_solver.
  - split_and!; at_step; eauto; done.
  - split_and!; at_step; eauto; done.
  - split_and!; at_step; simplify_eq; eauto; try done; lia.
  - pose proof (Hand t k ltac:(by rewrite T)). split_and!; at_step; eauto; try done; set_solver.
  - injection C as <- <-. split_and!; at_step; eauto.
Qed.

Lemma reach_ok serial keys s : sy_reach serial keys s →
  serials_ok s ∧ keys_ok s ∧ hosts_ok s ∧ ids_ok s ∧ serials_from serial s ∧ keys_from keys s.
Proof.
  induction 1 as [|s s' _ (A & B & C & D & E & F) St].
  - split_and!; [split|split|split|by intros _|split_and!|split_and!]; try (intros *; cbn); try done; try (apply NoDup_nil_2); try lia; set_solver.
  - split_and!; eauto using serials_step, keys_step, hosts_step, ids_step, serials_from_step, keys_from_step.
Qed.

(** ** Theorems *)

(** C40: However the threads interleave, no two certificates have the same serial number or
    the same key, and none made after a stop, which saves the serial number, and a start
    has one of those made before; a context handed out for a host has a certificate for
    that host; and the ints that number the connections are different until there have
    been 2^32 of them. *)
Theorem certificates_distinct serial keys s s' :
  sy_reach serial keys s → sy_reach (cm_serial (sy_map s)) (sy_keys s) s' →
  NoDup (map ctx_serial (sy_certs s) ++ map ctx_serial (sy_certs s')) ∧ NoDup (map ctx_key (sy_certs s) ++ map ctx_key (sy_certs s')) ∧
  (Z.of_nat (length (sy_ids s)) < 2 ^ 32 → NoDup (sy_ids s)) ∧
  ∀ h c, (h, c) ∈ sy_returned s → ctx_host c = h ∧ c ∈ sy_certs s.
Proof.
  intros (S & K & H & I & _)%reach_ok (S' & K' & _ & _ & F & G)%reach_ok. split_and!; [| | |apply H].
  - apply NoDup_app. split_and!; [apply S| |apply S']. intros n A%(so_old _ S) B%F. lia.
  - apply NoDup_app. split_and!; [apply K| |apply K']. intros k [A _]%(ko_old _ K) B%G. lia.
  - intros B. destruct (I B) as [_ ->]. by apply numbers_NoDup.
Qed.

Inductive sy_run : System → System → Prop :=
| sy_stop s : sy_run s s
| sy_go s s' s'' : sy_step s s' → sy_run s' s'' → sy_run s s''.

Lemma stored_stays s s' h c : hosts_ok s → sy_step s s' → cm_ctxMap (sy_map s) !! h = Some (Some c) → cm_ctxMap (sy_map s') !! h = Some (Some c).
Proof.
  intros O St E. destruct St as [s t h' m l T L|s t h' b n k c' ks T M|s t h' c' T|s t h' c' b T|s t T|s t k T|s m i C]; try done; cbn.
  - apply lookup_ctx_spec in L as [(c' & _ & -> & _)|(b & _ & _ & _ & _ & [(_ & N & ->)|[_ ->]])]; [done| |done]. rewrite lookup_insert_ne; [done|congruence].
  - rewrite lookup_insert_ne; [done|]. intros <-. pose proof (ho_storing s O t h' ltac:(by rewrite T)). congruence.
  - by injection C as <- _.
Qed.

(** Once a context is stored for a host, every later request for the host is given that
    context, at once and without a new certificate. *)
Theorem context_stable serial keys s s' h c :
  sy_reach serial keys s → cm_ctxMap (sy_map s) !! h = Some (Some c) → sy_run s s' →
  lookup_ctx (sy_map s') h = (sy_map s', Return h c false).
Proof.
  intros R E St. unfold lookup_ctx. enough (cm_ctxMap (sy_map s') !! h = Some (Some c)) as -> by done.
  induction St as [s|s s' s'' St _ IH]; [done|]. apply IH; [by eapply sy_more|].
  eapply stored_stays; [|done|done]. by eapply reach_ok.
Qed.

(** ** Schedules, executed *)

(** Thread [t] takes its next step; outside it does [a]. *)
Inductive Ask :=
  | AskCtx (host : list Z)
  | AskKey.

Definition sy_exec (s : System) (ta : nat * Ask) : System :=
  let '(t, a) := ta in
  match at_thread s t with
  | Idle =>
      match a with
      | AskCtx host =>
          let '(m, l) := lookup_ctx (sy_map s) host in
          with_thread (MkSystem m (sy_threads s) (sy_keys s) (sy_certs s) (sy_returned s) (sy_ids s) (sy_sent s)) t l
      | AskKey => with_thread (MkSystem (sy_map s) (sy_threads s) (sy_keys s + 1) (sy_certs s) (sy_returned s) (sy_ids s) (sy_sent s)) t (Adding (sy_keys s))
      end
  | Create host store serial pkey =>
      let '(ctx, keys) := make_cert s host serial pkey in
      with_thread (MkSystem (sy_map s) (sy_threads s) keys (sy_certs s ++ [ctx]) (sy_returned s) (sy_ids s) (sy_sent s))
        t (if store then Store host ctx else Return host ctx true)
  | Store host ctx =>
      with_thread (MkSystem (store_ctx (sy_map s) host ctx) (sy_threads s) (sy_keys s) (sy_certs s) (sy_returned s) (sy_ids s) (sy_sent s)) t (Return host ctx true)
  | Return host ctx made =>
      with_thread (MkSystem (sy_map s) (sy_threads s) (sy_keys s) (sy_certs s) (sy_returned s ++ [(host, ctx)]) (sy_ids s)
        (sy_sent s ++ (if made then [host] else []))) t Idle
  | Adding key => with_thread (MkSystem (add_key (sy_map s) key) (sy_threads s) (sy_keys s) (sy_certs s) (sy_returned s) (sy_ids s) (sy_sent s)) t Idle
  end.

Lemma sy_exec_step s ta : sy_step s (sy_exec s ta).
Proof.
  destruct ta as [t a]. cbn. destruct (at_thread s t) eqn:T.
  - destruct a; [destruct (lookup_ctx _ _) eqn:L|]; by econstructor.
  - destruct (make_cert _ _ _ _) eqn:M. by eapply sy_make.
  - by eapply sy_store.
  - by eapply sy_return.
  - by eapply sy_addKey.
Qed.

Lemma sy_exec_reach serial keys s l : sy_reach serial keys s → sy_reach serial keys (foldl sy_exec s l).
Proof. revert s. induction l as [|ta l IH]; intros s R; [done|]. apply IH. eapply sy_more; [done|apply sy_exec_step]. Qed.

(** A key is put in the pool, then two threads ask for a host at the same time: the first
    uses the key of the pool, the second generates one. *)
Definition two_at_once : System :=
  let a := [97] in
  foldl sy_exec (sy_start 1 0) [(0%nat, AskKey); (0%nat, AskKey); (1%nat, AskCtx a); (2%nat, AskCtx a); (2%nat, AskKey); (1%nat, AskKey); (1%nat, AskKey); (1%nat, AskKey); (2%nat, AskKey)].

Lemma certificates_distinct_witness :
  map ctx_serial (sy_certs two_at_once) = [2; 1] ∧ map ctx_key (sy_certs two_at_once) = [1; 0] ∧ NoDup (map ctx_serial (sy_certs two_at_once) ++ []).
Proof.
  split; [by vm_compute|]. split; [by vm_compute|].
  pose proof (certificates_distinct 1 0 two_at_once (sy_start 3 2) (sy_exec_reach _ _ _ _ (sy_begin 1 0))) as C.
  apply C. exact (sy_begin (cm_serial (sy_map two_at_once)) (sy_keys two_at_once)).
Defined.

Lemma context_stable_witness : lookup_ctx (sy_map (sy_exec two_at_once (3%nat, AskKey))) [97] =
  (sy_map (sy_exec two_at_once (3%nat, AskKey)), Return [97] (MkSslCtx [97] 1 0) false).
Proof.
  eapply (context_stable 1 0 two_at_once); [apply sy_exec_reach, sy_begin|by vm_compute|].
  eapply sy_go; [apply sy_exec_step|apply sy_stop].
Defined.

(** ** The timer of the main thread *)

Definition keysAvail (m : ContextMap) : Z := Z.of_nat (length (cm_keyList m)).

(** The turns of [addKeys] by the thread [t], with nothing between. *)
Definition addKeys (s : System) (t : nat) (amt : Z) : System := foldl sy_exec s (concat (replicate (Z.to_nat amt) [(t, AskKey); (t, AskKey)])).

Definition minPoolSize : Z := 15.

Definition handleTimer (s : System) (t : nat) : System :=
  let avail := keysAvail (sy_map s) in
  if avail <? minPoolSize then addKeys s t (minPoolSize - avail) else s.

Lemma addKeys_pool s t amt : at_thread s t = Idle → 0 ≤ amt →
  at_thread (addKeys s t amt) t = Idle ∧ cm_keyList (sy_map (addKeys s t amt)) = cm_keyList (sy_map s) ++ ((λ k, sy_keys s + Z.of_nat k) <$> seq 0 (Z.to_nat amt)).
Proof.
  unfold addKeys. intros I _. generalize (Z.to_nat amt) as n. intros n. revert s I. induction n as [|n IH]; intros s I; [cbn; by rewrite app_nil_r|].
  cbn [replicate concat app foldl]. set (s2 := sy_exec (sy_exec s (t, AskKey)) (t, AskKey)).
  assert (at_thread s2 t = Idle ∧ cm_keyList (sy_map s2) = cm_keyList (sy_map s) ++ [sy_keys s] ∧ sy_keys s2 = sy_keys s + 1) as (I2 & K2 & N2).
  { assert (sy_exec s (t, AskKey) = with_thread (MkSystem (sy_map s) (sy_threads s) (sy_keys s + 1) (sy_certs s) (sy_returned s) (sy_ids s) (sy_sent s)) t (Adding (sy_keys s))) as E by (unfold sy_exec; by rewrite I).
    unfold s2. rewrite E. unfold sy_exec. rewrite at_with, decide_True by done. split_and!; [by rewrite at_with, decide_True|done|done]. }
  destruct (IH s2 I2) as [I3 K3]. split; [done|]. rewrite K3, K2, <- app_assoc. f_equal. cbn [seq fmap list_fmap app]. f_equal; [lia|].
  rewrite N2, <- fmap_S_seq, <- list_fmap_compose. apply list_fmap_ext. intros i x _. cbn. lia.
Qed.

(** After the timer the pool has at least fifteen keys, those it had and new ones; the state
    is one that the threads reach. *)
Theorem pool_stocked serial keys s t : sy_reach serial keys s → at_thread s t = Idle →
  sy_reach serial keys (handleTimer s t) ∧ keysAvail (sy_map (handleTimer s t)) = Z.max minPoolSize (keysAvail (sy_map s)) ∧
  cm_keyList (sy_map s) `prefix_of` cm_keyList (sy_map (handleTimer s t)).
Proof.
  intros R I. unfold handleTimer. destruct (Z.ltb_spec (keysAvail (sy_map s)) minPoolSize) as [L|L]; [|split_and!; [done|lia|done]].
  destruct (addKeys_pool s t (minPoolSize - keysAvail (sy_map s)) I ltac:(lia)) as [_ K]. split_and!; [by apply sy_exec_reach| |rewrite K; by apply prefix_app_r].
  unfold keysAvail at 1. rewrite K, length_app, length_fmap, length_seq, Nat2Z.inj_add. fold (keysAvail (sy_map s)). lia.
Qed.
