(* ===== verification/EventLoop.v ===== *)
(** * genf/select.cc, signal.cc: the event loop of a thread

    A thread waits in pselect for descriptors, signals and its timer, and calls its
    handlers.  What the kernel answers in a round is an argument, [Round]; what the
    thread's handlers do is the interface [LoopThread], since they are virtual functions.
    The calls are recorded as [Event]s. *)

From S2P Require Import Prelude Rope Conn ConnState.

Definition EINTR : Z := 4.
Definition SIGHUP : Z := 1.
Definition SIGINT : Z := 2.
Definition SIGQUIT : Z := 3.
Definition SIGPIPE : Z := 13.
Definition SIGTERM : Z := 15.
Definition SIGCHLD : Z := 17.

(** ** Times *)

Record timeval := MkTv {
  tv_sec : Z;
  tv_usec : Z;
}.

Definition timersub (a b : timeval) : timeval :=
  let sec := tv_sec a - tv_sec b in
  let usec := tv_usec a - tv_usec b in
  if usec <? 0 then MkTv (sec - 1) (usec + 1000000) else MkTv sec usec.

(** The nanoseconds of a timespec for the wait. *)
Definition to_timespec (t : timeval) : Z * Z := (tv_sec t, tv_usec t * 1000).

(** ** The thread *)

(** [lt_fds]: selectFdList.  [fdReady t i r w]: Thread::selectFdReady for its element [i].
    [thread_poll]: handle one message, if there is one. *)
Class LoopThread (T : Type) := {
  lt_loop : T → bool;
  loopBegin : T → T;
  lt_fds : T → list SelectFd;
  lt_put_fds : T → list SelectFd → T;
  lt_selectTimeout : T → Z;
  handleSignal : T → Z → res T;
  handleTimer : T → res T;
  fdReady : T → nat → bool → bool → res T;
  thread_poll : T → res (bool * T);
  ares_fds : T → Z * list Z * list Z;
  ares_timeout : T → option timeval → option timeval;
  ares_process : T → list Z → list Z → res T;
}.

Inductive Event :=
  | EvWait (nfds : Z) (timeout : option (Z * Z))
  | EvSignal (sig : Z)
  | EvTimer (now : timeval)
  | EvFd (i : nat) (r w : bool).

(** What happens in a call of pselect and after it: the signals the funnel handler ran for,
    the result, the sets, what sigpending reports, in the order sigwait takes them, and the
    time of day. *)
Record Round := MkRound {
  rn_funnelled : list Z;
  rn_result : Z;
  rn_errno : Z;
  rn_readSet : list Z;
  rn_writeSet : list Z;
  rn_pending : list Z;
  rn_now : timeval;
}.

(** How a run of the loop goes on. *)
Inductive Outcome := Going | Fatal.

Section Loop.
Context {T : Type} `{!LoopThread T}.

(** [lp_left] and [lp_last] are used with a timer only. *)
Record Loop := MkLoop {
  lp_thread : T;
  lp_left : timeval;
  lp_last : timeval;
  lp_funnelSig : Z;
  lp_events : list Event;
}.

Definition lp_put (l : Loop) (t : T) (e : list Event) : Loop :=
  MkLoop t (lp_left l) (lp_last l) (lp_funnelSig l) (lp_events l ++ e).

(** [thread_funnel_handler], for every signal delivered. *)
Definition funnelled (l : Loop) (sigs : list Z) : Loop :=
  MkLoop (lp_thread l) (lp_left l) (lp_last l) (List.last sigs (lp_funnelSig l)) (lp_events l).

Definition signal (l : Loop) (sig : Z) : res Loop :=
  t ← handleSignal (lp_thread l) sig;
  Ok (lp_put l t [EvSignal sig]).

Fixpoint signals (l : Loop) (sigs : list Z) : res Loop :=
  match sigs with
  | [] => Ok l
  | sig :: sigs => l ← signal l sig; signals l sigs
  end.

(** [while ( poll() ) {}] *)
Fixpoint poll_all (fuel : nat) (t : T) : res T :=
  match fuel with
  | O => Spin
  | S fuel => '(more, t) ← thread_poll t; if (more : bool) then poll_all fuel t else Ok t
  end.

Definition polled (wantPoll : bool) (fuel : nat) (l : Loop) : res Loop :=
  if wantPoll then t ← poll_all fuel (lp_thread l); Ok (lp_put l t []) else Ok l.

(** The part on timers, the same in both loops. *)
Definition timers (timer : option timeval) (now : timeval) (l : Loop) : res Loop :=
  match timer with
  | None => Ok l
  | Some timer =>
      let elapsed := timersub now (lp_last l) in
      let left := timersub timer elapsed in
      if (tv_sec left <? 0) || ((tv_usec left =? 0) && (tv_sec left =? 0)) then
        t ← handleTimer (lp_thread l);
        Ok (MkLoop t timer now (lp_funnelSig l) (lp_events l ++ [EvTimer now]))
      else Ok (MkLoop (lp_thread l) left (lp_last l) (lp_funnelSig l) (lp_events l))
  end.

Definition FD_ISSET (fd : Z) (s : list Z) : res bool :=
  if (fd <? 0) || (FD_SETSIZE <=? fd) then Ub else Ok (bool_decide (fd ∈ s)).

(** The loop over the descriptors from element [i] on; the handlers may append to the
    list. *)
Fixpoint dispatch (fuel : nat) (l : Loop) (i : nat) (rs ws : list Z) : res Loop :=
  match lt_fds (lp_thread l) !! i with
  | None => Ok l
  | Some f =>
      match fuel with
      | O => Spin
      | S fuel =>
          if sf_closed f then dispatch fuel l (S i) rs ws
          else
            r ← FD_ISSET (sf_fd f) rs;
            w ← FD_ISSET (sf_fd f) ws;
            if (r || w : bool) then
              t ← fdReady (lp_thread l) i r w;
              dispatch fuel (lp_put l t [EvFd i r w]) (S i) rs ws
            else dispatch fuel l (S i) rs ws
      end
  end.

(** How long to wait. *)
Definition wait_time (timer : option timeval) (l : Loop) : option (Z * Z) :=
  let pvs := match timer with Some _ => Some (lp_left l) | None => None end in
  let pvs :=
    match pvs with
    | None => if 0 <? lt_selectTimeout (lp_thread l) then Some (MkTv (lt_selectTimeout (lp_thread l)) 0) else None
    | Some _ => pvs
    end in
  to_timespec <$> ares_timeout (lp_thread l) pvs.

(** The rest of a round: timers, the resolver, the descriptors, the messages. *)
Definition rest_of_round (timer : option timeval) (wantPoll : bool) (fuel : nat) (rn : Round) (l : Loop) : res Loop :=
  l ← timers timer (rn_now rn) l;
  t ← ares_process (lp_thread l) (rn_readSet rn) (rn_writeSet rn);
  let l := lp_put l t [] in
  l ← (if 0 <? rn_result rn then dispatch fuel l 0 (rn_readSet rn) (rn_writeSet rn) else Ok l);
  polled wantPoll fuel l.

(** Once around pselectLoop; [sigmask]: the pointer is not null. *)
Definition pselect_round (sigmask : bool) (timer : option timeval) (wantPoll : bool) (fuel : nat) (rn : Round) (l : Loop) : res (Outcome * Loop) :=
  let '(nfds, rs, ws) := ares_fds (lp_thread l) in
  '(fds, nfds, rs, ws) ← event_sets (lt_fds (lp_thread l)) nfds rs ws;
  let l := lp_put l (lt_put_fds (lp_thread l) fds) [] in
  let l := lp_put l (lp_thread l) [EvWait nfds (wait_time timer l)] in
  let l := funnelled l (rn_funnelled rn) in
  if rn_result rn <? 0 then
    if rn_errno rn =? EINTR then
      l ← polled wantPoll fuel l;
      l ← signal l (lp_funnelSig l);
      Ok (Going, l)
    else if negb (rn_errno rn =? EAGAIN) then Ok (Fatal, l)
    else l ← rest_of_round timer wantPoll fuel rn l; Ok (Going, l)
  else
    l ← (if sigmask then signals l (rn_pending rn) else Ok l);
    l ← rest_of_round timer wantPoll fuel rn l;
    Ok (Going, l).

(** pselectLoop for as long as the kernel answers as in [rns]. *)
Fixpoint pselect_rounds (sigmask : bool) (timer : option timeval) (wantPoll : bool) (fuel : nat) (rns : list Round) (l : Loop) : res (Outcome * Loop) :=
  match rns with
  | [] => Ok (Going, l)
  | rn :: rns =>
      if lt_loop (lp_thread l) then
        '(o, l) ← pselect_round sigmask timer wantPoll fuel rn l;
        match o with
        | Fatal => Ok (Fatal, l)
        | Going => pselect_rounds sigmask timer wantPoll fuel rns l
        end
      else Ok (Going, l)
  end.

Definition loop_start (timer : option timeval) (now : timeval) (funnelSig : Z) (t : T) : Loop :=
  MkLoop (loopBegin t) (default (MkTv 0 0) timer) now funnelSig [].

Definition pselectLoop (sigmask : bool) (timer : option timeval) (wantPoll : bool) (fuel : nat) (start : timeval) (rns : list Round) (funnelSig : Z) (t : T) : res (Outcome * Loop) :=
  pselect_rounds sigmask timer wantPoll fuel rns (loop_start timer start funnelSig t).

(** Once around signalLoop: the result of sigtimedwait or sigwaitinfo, its error. *)
Definition signal_round (timer : option timeval) (sig err : Z) (now : timeval) (l : Loop) : res Loop :=
  if (sig <? 0) && negb (err =? EAGAIN) && negb (err =? EINTR) then Ok l
  else
    l ← (if 0 <? sig then signal l sig else Ok l);
    timers timer now l.

Fixpoint signal_rounds (timer : option timeval) (rns : list (Z * Z * timeval)) (l : Loop) : res Loop :=
  match rns with
  | [] => Ok l
  | (sig, err, now) :: rns =>
      if lt_loop (lp_thread l) then l ← signal_round timer sig err now l; signal_rounds timer rns l
      else Ok l
  end.

Definition signalLoop (timer : option timeval) (start : timeval) (rns : list (Z * Z * timeval)) (funnelSig : Z) (t : T) : res Loop :=
  signal_rounds timer rns (loop_start timer start funnelSig t).
End Loop.
Arguments Loop T : clear implicits.

(** ** MainBase *)

(** [reaped]: the children collected, in order; [children]: those that have ended. *)
Record Main := MkMain {
  mn_loop : bool;
  mn_children : list Z;
  mn_reaped : list Z;
}.

(** The loop around waitpid ends when no ended child is left. *)
Fixpoint reap (fuel : nat) (children reaped : list Z) : res (list Z * list Z) :=
  match fuel with
  | O => Spin
  | S fuel => match children with [] => Ok ([], reaped) | pid :: children => reap fuel children (reaped ++ [pid]) end
  end.

Definition MainBase_handleSignal (m : Main) (sig : Z) : res Main :=
  if (sig =? SIGINT) || (sig =? SIGQUIT) || (sig =? SIGTERM) then Ok (MkMain false (mn_children m) (mn_reaped m))
  else if sig =? SIGCHLD then
    '(children, reaped) ← reap (S (length (mn_children m))) (mn_children m) (mn_reaped m);
    Ok (MkMain (mn_loop m) children reaped)
  else Ok m.
