(* ===== verification/EventLoopProps.v ===== *)
(** * The event loop: when timers, signals and descriptors are handled *)

From Stdlib Require Import Sorted.
From S2P Require Import Prelude Rope Conn ConnState ConnStateProps EventLoop.

(** ** Times in microseconds *)

Definition us (t : timeval) : Z := tv_sec t * 1000000 + tv_usec t.
Definition tv_norm (t : timeval) : Prop := 0 ≤ tv_usec t < 1000000.

Lemma timersub_us a b : us (timersub a b) = us a - us b.
Proof. unfold timersub, us. case_match; cbn; lia. Qed.

Lemma timersub_norm a b : tv_norm a → tv_norm b → tv_norm (timersub a b).
Proof. unfold timersub, tv_norm. intros A B. case_match; cbn; lia. Qed.

(** The test for an interval that is used up. *)
Lemma left_spent t : tv_norm t → (tv_sec t <? 0) || ((tv_usec t =? 0) && (tv_sec t =? 0)) = (us t <=? 0).
Proof. unfold tv_norm, us. intros N. lia. Qed.

Definition timer_times (es : list Event) : list timeval := omap (λ e, match e with EvTimer t => Some t | _ => None end) es.
Definition signals_of (es : list Event) : list Z := omap (λ e, match e with EvSignal s => Some s | _ => None end) es.
Definition fds_of (es : list Event) : list (nat * bool * bool) := omap (λ e, match e with EvFd i r w => Some (i, r, w) | _ => None end) es.

(** Runs of a timer at least an interval apart, the first one after [start]. *)
Fixpoint spaced (iv : Z) (start : timeval) (ts : list timeval) : Prop :=
  match ts with
  | [] => True
  | t :: ts => us start + iv ≤ us t ∧ spaced iv t ts
  end.

Lemma spaced_snoc iv start ts t : spaced iv start ts → us (List.last ts start) + iv ≤ us t → spaced iv start (ts ++ [t]).
Proof.
  revert start. induction ts as [|u ts IH]; intros start; cbn; [done|]. intros [A B] C. split; [done|]. apply IH; [done|].
  destruct ts; [done|]. cbn in *. revert C. clear. revert t0. induction ts; cbn in *; eauto.
Qed.

(** ** What the thread has to do for the loop to go round *)

(** [lt_ok]: an invariant under which the handlers return and the numbers of open
    descriptors fit the sets of select.  [lt_bound]: a bound on the descriptors listed,
    those still to be opened and the messages still to come. *)
Class LoopLaws (T : Type) `{!LoopThread T} := {
  lt_ok : T → Prop;
  lt_bound : T → nat;
  ll_begin t : lt_ok t → lt_ok (loopBegin t) ∧ (lt_bound (loopBegin t) ≤ lt_bound t)%nat;
  ll_fds t i f : lt_ok t → lt_fds t !! i = Some f → sf_closed f = false → 0 ≤ sf_fd f < FD_SETSIZE;
  ll_count t : (length (lt_fds t) ≤ lt_bound t)%nat;
  ll_kept t : lt_ok t → let t' := lt_put_fds t (open_fds (lt_fds t)) in lt_ok t' ∧ (lt_bound t' ≤ lt_bound t)%nat;
  ll_signal t s : lt_ok t → ∃ t', handleSignal t s = Ok t' ∧ lt_ok t' ∧ (lt_bound t' ≤ lt_bound t)%nat;
  ll_timer t : lt_ok t → ∃ t', handleTimer t = Ok t' ∧ lt_ok t' ∧ (lt_bound t' ≤ lt_bound t)%nat;
  ll_ready t i r w f : lt_ok t → lt_fds t !! i = Some f → sf_closed f = false →
    ∃ t', fdReady t i r w = Ok t' ∧ lt_ok t' ∧ (lt_bound t' ≤ lt_bound t)%nat ∧
      ∀ j g, lt_fds t !! j = Some g → ∃ g', lt_fds t' !! j = Some g' ∧ sf_fd g' = sf_fd g ∧ (sf_closed g = true → sf_closed g' = true);
  ll_poll t : lt_ok t → ∃ more t', thread_poll t = Ok (more, t') ∧ lt_ok t' ∧ (lt_bound t' ≤ lt_bound t)%nat ∧ (more = true → (lt_bound t' < lt_bound t)%nat);
  ll_ares t rs ws : lt_ok t → ∃ t', ares_process t rs ws = Ok t' ∧ lt_ok t' ∧ (lt_bound t' ≤ lt_bound t)%nat;
}.

Section Laws.
Context {T : Type} `{!LoopThread T} `{!LoopLaws T}.

(** From [l] to [l'] the handlers were called for [es] and nothing was done about timers. *)
Record went (l l' : Loop T) (es : list Event) : Prop := Went {
  we_ok : lt_ok (lp_thread l');
  we_bound : (lt_bound (lp_thread l') ≤ lt_bound (lp_thread l))%nat;
  we_left : lp_left l' = lp_left l;
  we_last : lp_last l' = lp_last l;
  we_events : lp_events l' = lp_events l ++ es;
}.

Lemma went_put (l : Loop T) t es : lt_ok t → (lt_bound t ≤ lt_bound (lp_thread l))%nat → went l (lp_put l t es) es.
Proof. by split. Qed.

Lemma went_nil (l : Loop T) : lt_ok (lp_thread l) → went l l [].
Proof. intros. split; try done. by rewrite app_nil_r. Qed.

Lemma went_trans (l l' l'' : Loop T) es es' : went l l' es → went l' l'' es' → went l l'' (es ++ es').
Proof. intros [A B C D E] [A' B' C' D' E']. split; [done|lia|congruence|congruence|by rewrite E', E, app_assoc]. Qed.

Lemma signal_went (l : Loop T) s : lt_ok (lp_thread l) → ∃ l', signal l s = Ok l' ∧ went l l' [EvSignal s].
Proof. intros O. destruct (ll_signal _ s O) as (t & E & O' & B). unfold signal. rewrite E. eexists. split; [done|]. by apply went_put. Qed.

Lemma signals_went (l : Loop T) sigs : lt_ok (lp_thread l) → ∃ l', signals l sigs = Ok l' ∧ went l l' (map EvSignal sigs).
Proof.
  revert l. induction sigs as [|s sigs IH]; intros l O; cbn; [eauto using went_nil|].
  destruct (signal_went l s O) as (l1 & -> & W). destruct (IH l1 (we_ok _ _ _ W)) as (l2 & E & W2).
  rewrite bind_Ok, E. eexists. split; [done|]. by apply (went_trans _ _ _ [_] _ W).
Qed.

Lemma poll_all_ok fuel t : lt_ok t → (lt_bound t < fuel)%nat → ∃ t', poll_all fuel t = Ok t' ∧ lt_ok t' ∧ (lt_bound t' ≤ lt_bound t)%nat.
Proof.
  revert t. induction fuel as [|fuel IH]; intros t O F; [lia|]. cbn.
  destruct (ll_poll t O) as ([|] & t' & -> & O' & B & D); rewrite bind_Ok; [|eauto].
  specialize (D eq_refl). destruct (IH t' O') as (t2 & E & O2 & B2); [lia|]. exists t2. split_and!; [done..|lia].
Qed.

Lemma polled_went w fuel (l : Loop T) : lt_ok (lp_thread l) → (lt_bound (lp_thread l) < fuel)%nat → ∃ l', polled w fuel l = Ok l' ∧ went l l' [] ∧ lp_funnelSig l' = lp_funnelSig l.
Proof.
  intros O F. destruct w; cbn; [|eauto using went_nil]. destruct (poll_all_ok fuel _ O F) as (t & -> & O' & B). rewrite bind_Ok.
  eexists. split_and!; [done|by apply went_put|done].
Qed.

(** ** The loop over the descriptors *)

Definition ready_in (rs ws : list Z) (f : SelectFd) : bool * bool := (bool_decide (sf_fd f ∈ rs), bool_decide (sf_fd f ∈ ws)).

(** The calls [es] of the loop from element [i] on, with the list as [fds] after it: each
    descriptor was called at most once, in the order of the list, with what the sets say of
    it, and every one that is still open and in a set was called. *)
Record dispatched (i : nat) (fds : list SelectFd) (rs ws : list Z) (es : list (nat * bool * bool)) : Prop := Dispatched {
  di_order : StronglySorted (λ a b, (a.1.1 < b.1.1)%nat) es;
  di_ready : ∀ j r w, (j, r, w) ∈ es → (i ≤ j)%nat ∧ ∃ f, fds !! j = Some f ∧ ready_in rs ws f = (r, w) ∧ r || w = true;
  di_all : ∀ j f r w, (i ≤ j)%nat → fds !! j = Some f → sf_closed f = false → ready_in rs ws f = (r, w) → r || w = true → (j, r, w) ∈ es;
}.

(** Lists of descriptors a handler may leave behind. *)
Definition extends (fds fds' : list SelectFd) : Prop :=
  ∀ j g, fds !! j = Some g → ∃ g', fds' !! j = Some g' ∧ sf_fd g' = sf_fd g ∧ (sf_closed g = true → sf_closed g' = true).

Lemma extends_refl fds : extends fds fds.
Proof. intros j g E. eauto. Qed.

Lemma extends_trans a b c : extends a b → extends b c → extends a c.
Proof. intros A B j g E. destruct (A j g E) as (g1 & E1 & F1 & C1). destruct (B j g1 E1) as (g2 & E2 & F2 & C2). exists g2. split_and!; [done|congruence|auto]. Qed.

Lemma FD_ISSET_ok fd s : 0 ≤ fd < FD_SETSIZE → FD_ISSET fd s = Ok (bool_decide (fd ∈ s)).
Proof. intros B. unfold FD_ISSET. case_match; [lia|done]. Qed.

(** Element [i] was not called: it is closed, or in no set. *)
Lemma dispatched_skip i f fds fds' rs ws es : fds !! i = Some f → extends fds fds' →
  sf_closed f = true ∨ ready_in rs ws f = (false, false) → dispatched (S i) fds' rs ws es → dispatched i fds' rs ws es.
Proof.
  intros E X N [O R A]. split; [done| |].
  - intros j r w I. destruct (R j r w I) as [L H]. split; [lia|done].
  - intros j g r w L G Op Rd W. destruct (decide (j = i)) as [->|Ne]; [|apply (A j g); [lia|done..]].
    destruct (X i f E) as (g' & G' & F & C). simplify_eq. unfold ready_in in *. rewrite F in Rd.
    destruct N as [Cl|N]; [by rewrite C in Op|]. rewrite N in Rd. by simplify_eq.
Qed.

Lemma dispatched_call i f fds fds' rs ws r w es : fds !! i = Some f → extends fds fds' → ready_in rs ws f = (r, w) → r || w = true →
  dispatched (S i) fds' rs ws es → dispatched i fds' rs ws ((i, r, w) :: es).
Proof.
  intros E X Rd W [O R A]. destruct (X i f E) as (g' & G' & F & _).
  assert (Rd' : ready_in rs ws g' = (r, w)) by (unfold ready_in in *; by rewrite F). split.
  - constructor; [done|]. apply Forall_forall. intros [[j r'] w'] I. cbn. destruct (R j r' w' I) as [L _]. lia.
  - intros j r' w' I. apply elem_of_cons in I as [I|I]; [|destruct (R j r' w' I) as [L H]; split; [lia|done]]. simplify_eq. split; [lia|eauto].
  - intros j g r' w' L G Op Rdj Wj. destruct (decide (j = i)) as [->|Ne]; [simplify_eq; rewrite Rd' in Rdj; simplify_eq; by left|]. right. apply (A j g); [lia|done..].
Qed.

Lemma dispatch_spec fuel (l : Loop T) i rs ws : lt_ok (lp_thread l) → (lt_bound (lp_thread l) < fuel + i)%nat →
  ∃ l' es, dispatch fuel l i rs ws = Ok l' ∧ went l l' es ∧ (∀ e, e ∈ es → ∃ j r w, e = EvFd j r w) ∧
    extends (lt_fds (lp_thread l)) (lt_fds (lp_thread l')) ∧ dispatched i (lt_fds (lp_thread l')) rs ws (fds_of es).
Proof.
  revert l i. induction fuel as [|fuel IH]; intros l i O F; pose proof (ll_count (lp_thread l)) as Cn.
  - cbn. rewrite lookup_ge_None_2 by lia. exists l, []. split_and!; [done|by apply went_nil|set_solver|apply extends_refl|].
    split; [constructor|set_solver|]. intros j f r w L E%lookup_lt_Some. lia.
  - cbn. destruct (lt_fds (lp_thread l) !! i) as [f|] eqn:E.
    2: { exists l, []. split_and!; [done|by apply went_nil|set_solver|apply extends_refl|]. apply lookup_ge_None in E.
         split; [constructor|set_solver|]. intros j f r w L G%lookup_lt_Some. lia. }
    destruct (sf_closed f) eqn:Cl.
    { destruct (IH l (S i) O ltac:(lia)) as (l' & es & -> & W & Ev & X & D). exists l', es. split_and!; try done.
      eapply dispatched_skip; eauto. }
    pose proof (ll_fds _ i f O E Cl) as Nf. rewrite !FD_ISSET_ok, !bind_Ok by done.
    destruct (bool_decide (sf_fd f ∈ rs) || bool_decide (sf_fd f ∈ ws)) eqn:Rd.
    + destruct (ll_ready _ i (bool_decide (sf_fd f ∈ rs)) (bool_decide (sf_fd f ∈ ws)) f O E Cl) as (t & -> & O' & B & X1). rewrite bind_Ok.
      edestruct (IH (lp_put l t [EvFd i (bool_decide (sf_fd f ∈ rs)) (bool_decide (sf_fd f ∈ ws))]) (S i)) as (l' & es & -> & W & Ev & X & D); [done|cbn; lia|].
      eexists l', (_ :: es). split_and!; [done| | |by eapply extends_trans|].
      * eapply (went_trans _ _ _ [_]); [by apply went_put|done].
      * intros e [->|I]%elem_of_cons; eauto.
      * cbn. eapply dispatched_call; eauto. by eapply extends_trans.
    + destruct (IH l (S i) O ltac:(lia)) as (l' & es & -> & W & Ev & X & D). exists l', es. split_and!; try done.
      eapply dispatched_skip; eauto. right. unfold ready_in. apply orb_false_iff in Rd as [-> ->]. done.
Qed.

(** ** A round *)

Definition timer_due (timer : option timeval) (now last : timeval) : bool :=
  match timer with None => false | Some iv => us iv <=? us now - us last end.

(** [lp_left] and [lp_last] after the part on timers. *)
Definition timed (timer : option timeval) (now : timeval) (l l' : Loop T) : Prop :=
  if timer_due timer now (lp_last l) then timer = Some (lp_left l') ∧ lp_last l' = now
  else lp_last l' = lp_last l ∧
    match timer with None => lp_left l' = lp_left l | Some iv => us (lp_left l') = us (lp_last l) + us iv - us now ∧ tv_norm (lp_left l') end.

Definition timer_events (timer : option timeval) (now last : timeval) : list Event := if timer_due timer now last then [EvTimer now] else [].

Lemma timers_spec timer now (l : Loop T) : lt_ok (lp_thread l) → from_option tv_norm True timer → tv_norm now → tv_norm (lp_last l) →
  ∃ l', timers timer now l = Ok l' ∧ timed timer now l l' ∧ lt_ok (lp_thread l') ∧ (lt_bound (lp_thread l') ≤ lt_bound (lp_thread l))%nat ∧
    lp_events l' = lp_events l ++ timer_events timer now (lp_last l).
Proof.
  intros O Ni Nn Nl. unfold timers, timed, timer_events, timer_due. destruct timer as [iv|]; [|exists l; by rewrite app_nil_r].
  pose proof (timersub_norm iv (timersub now (lp_last l)) Ni (timersub_norm _ _ Nn Nl)) as N. rewrite (left_spent _ N), !timersub_us.
  replace (us iv - (us now - us (lp_last l)) <=? 0) with (us iv <=? us now - us (lp_last l)) by lia.
  destruct (us iv <=? us now - us (lp_last l)) eqn:D.
  - destruct (ll_timer _ O) as (t & -> & O' & B). eexists. split; [done|]. by split_and!.
  - eexists. split; [done|]. cbn. rewrite timersub_us, timersub_us, app_nil_r. split_and!; [done|lia|done..].
Qed.

Definition interrupted (rn : Round) : bool := (rn_result rn <? 0) && (rn_errno rn =? EINTR).
Definition failed (rn : Round) : bool := (rn_result rn <? 0) && negb (rn_errno rn =? EINTR) && negb (rn_errno rn =? EAGAIN).

(** The signals taken after the call. *)
Definition taken (sigmask : bool) (rn : Round) : list Z := if (rn_result rn <? 0) || negb sigmask then [] else rn_pending rn.

(** What the thread waits for does not leave the sets. *)
Lemma event_sets_ok t n rs ws : lt_ok t → ∃ n' rs' ws', event_sets (lt_fds t) n rs ws = Ok (open_fds (lt_fds t), n', rs', ws').
Proof.
  intros O. rewrite event_sets_spec. replace (forallb _ _) with true; [by do 3 eexists|]. symmetry. apply forallb_forall.
  intros fd I. apply list_elem_of_In in I. unfold readers, writers, open_fds in I.
  assert (∃ f, fd = sf_fd f ∧ sf_closed f = false ∧ f ∈ lt_fds t) as (f & -> & Cl & [i E]%list_elem_of_lookup).
  { apply elem_of_app in I as [I|I]; apply list_elem_of_fmap in I as (f & -> & [_ I]%list_elem_of_filter); apply list_elem_of_filter in I; naive_solver. }
  unfold fd_ok. pose proof (ll_fds t i f O E Cl). lia.
Qed.

(** A round that runs to its end, from [l] to [l']. *)
Definition round_done (sigmask : bool) (timer : option timeval) (rn : Round) (l l' : Loop T) : Prop :=
  timed timer (rn_now rn) l l' ∧
  ∃ n t es, (∀ e, e ∈ es → ∃ j r w, e = EvFd j r w) ∧
    lp_events l' = lp_events l ++ [EvWait n t] ++ map EvSignal (taken sigmask rn) ++ timer_events timer (rn_now rn) (lp_last l) ++ es.

Lemma rest_spec timer wantPoll fuel rn (l : Loop T) :
  lt_ok (lp_thread l) → (lt_bound (lp_thread l) < fuel)%nat → from_option tv_norm True timer → tv_norm (rn_now rn) → tv_norm (lp_last l) →
  ∃ l' es, rest_of_round timer wantPoll fuel rn l = Ok l' ∧ lt_ok (lp_thread l') ∧ (lt_bound (lp_thread l') ≤ lt_bound (lp_thread l))%nat ∧
    timed timer (rn_now rn) l l' ∧ (∀ e, e ∈ es → ∃ j r w, e = EvFd j r w) ∧
    lp_events l' = lp_events l ++ timer_events timer (rn_now rn) (lp_last l) ++ es.
Proof.
  intros O F Ni Nn Nl. unfold rest_of_round.
  destruct (timers_spec timer (rn_now rn) l O Ni Nn Nl) as (l1 & -> & Ti & O1 & B1 & E1). rewrite bind_Ok.
  destruct (ll_ares _ (rn_readSet rn) (rn_writeSet rn) O1) as (t2 & -> & O2 & B2). rewrite bind_Ok.
  pose proof (went_put l1 t2 [] O2 B2) as W2. set (l2 := lp_put l1 t2 []) in *. clearbody l2. clear t2 O2 B2.
  assert (W3 : ∃ l3 es, (if 0 <? rn_result rn then dispatch fuel l2 0 (rn_readSet rn) (rn_writeSet rn) else Ok l2) = Ok l3 ∧ went l2 l3 es ∧
    ∀ e, e ∈ es → ∃ j r w, e = EvFd j r w).
  { destruct W2 as [? ? _ _ _]. destruct (0 <? rn_result rn); [|exists l2, []; split_and!; [done|by apply went_nil|set_solver]].
    destruct (dispatch_spec fuel l2 0 (rn_readSet rn) (rn_writeSet rn)) as (l3 & es & -> & W & Ev & _); [done|lia|eauto 10]. }
  destruct W3 as (l3 & es & -> & W3 & Ev). rewrite bind_Ok. pose proof (went_trans _ _ _ _ _ W2 W3) as W23.
  destruct (polled_went wantPoll fuel l3 (we_ok _ _ _ W3)) as (l4 & -> & W4 & _); [pose proof (we_bound _ _ _ W23); lia|].
  pose proof (went_trans _ _ _ _ _ W23 W4) as W. rewrite app_nil_r in W. destruct W as [O4 B4 L4 La4 E4].
  exists l4, es. split_and!; [done|done|lia| |done|by rewrite E4, E1, <- app_assoc].
  unfold timed in *. by rewrite La4, L4.
Qed.

Lemma round_spec sigmask timer wantPoll fuel rn (l : Loop T) :
  lt_ok (lp_thread l) → (lt_bound (lp_thread l) < fuel)%nat → from_option tv_norm True timer → tv_norm (rn_now rn) → tv_norm (lp_last l) →
  ∃ l', pselect_round sigmask timer wantPoll fuel rn l = Ok (if failed rn then Fatal else Going, l') ∧
    lt_ok (lp_thread l') ∧ (lt_bound (lp_thread l') ≤ lt_bound (lp_thread l))%nat ∧
    if failed rn then ∃ n t, went l l' [EvWait n t]
    else if interrupted rn then ∃ n t, went l l' [EvWait n t; EvSignal (List.last (rn_funnelled rn) (lp_funnelSig l))]
    else round_done sigmask timer rn l l'.
Proof.
  intros O F Ni Nn Nl. unfold pselect_round. destruct (ares_fds (lp_thread l)) as [[n0 rs0] ws0].
  destruct (event_sets_ok _ n0 rs0 ws0 O) as (n & rs & ws & ->). rewrite bind_Ok.
  destruct (ll_kept _ O) as [O1 B1]. set (l1 := funnelled _ _).
  assert (W1 : ∃ w, went l l1 [EvWait n w]) by (eexists; split; [exact O1|exact B1|done|done|]; cbn; by rewrite app_nil_r).
  destruct W1 as [w W1]. assert (Fs : lp_funnelSig l1 = List.last (rn_funnelled rn) (lp_funnelSig l)) by done. clearbody l1. clear O1 B1.
  unfold failed, interrupted, round_done, taken. destruct (rn_result rn <? 0); cbn [andb orb].
  - destruct (rn_errno rn =? EINTR); cbn [andb negb].
    + destruct (polled_went wantPoll fuel l1 (we_ok _ _ _ W1)) as (l2 & -> & W2 & F2); [pose proof (we_bound _ _ _ W1); lia|]. rewrite bind_Ok.
      destruct (signal_went l2 (lp_funnelSig l2) (we_ok _ _ _ W2)) as (l3 & -> & W3). rewrite bind_Ok.
      pose proof (went_trans _ _ _ _ _ (went_trans _ _ _ _ _ W1 W2) W3) as W. rewrite F2, Fs in W.
      exists l3. split_and!; [done|apply W|apply W|by exists n, w].
    + destruct (rn_errno rn =? EAGAIN); cbn [negb]; [|exists l1; split_and!; [done|apply W1|apply W1|eauto]].
      destruct W1 as [O1 B1 L1 La1 E1]. destruct (rest_spec timer wantPoll fuel rn l1) as (l2 & es & -> & O2 & B2 & Ti & Ev & E2); [done|lia|done|done|congruence|].
      exists l2. split_and!; [done|done|lia| |].
      * unfold timed in *. rewrite La1, L1 in Ti. done.
      * exists n, w, es. split; [done|]. by rewrite E2, E1, La1, <- app_assoc.
  - assert (W2 : ∃ l2, (if sigmask then signals l1 (rn_pending rn) else Ok l1) = Ok l2 ∧ went l1 l2 (map EvSignal (if negb sigmask then [] else rn_pending rn))).
    { destruct sigmask; [apply signals_went, W1|]. exists l1. split; [done|]. apply went_nil, W1. }
    destruct W2 as (l2 & -> & W2). rewrite bind_Ok. pose proof (went_trans _ _ _ _ _ W1 W2) as [O1 B1 L1 La1 E1].
    destruct (rest_spec timer wantPoll fuel rn l2) as (l3 & es & -> & O3 & B3 & Ti & Ev & E3); [done|lia|done|done|congruence|].
    exists l3. split_and!; [done|done|lia| |].
    + unfold timed in *. rewrite La1, L1 in Ti. done.
    + exists n, w, es. split; [done|]. by rewrite E3, E1, La1, <- !app_assoc.
Qed.

(** ** Runs *)

Lemma timer_times_app es es' : timer_times (es ++ es') = timer_times es ++ timer_times es'.
Proof. apply omap_app. Qed.

Lemma signals_of_app es es' : signals_of (es ++ es') = signals_of es ++ signals_of es'.
Proof. apply omap_app. Qed.

Lemma timer_times_signals sigs : timer_times (map EvSignal sigs) = [].
Proof. by induction sigs. Qed.

Lemma signals_of_signals sigs : signals_of (map EvSignal sigs) = sigs.
Proof. induction sigs; cbn; [done|]. unfold signals_of in IHsigs. by rewrite IHsigs. Qed.

Lemma only_fds es : (∀ e : Event, e ∈ es → ∃ j r w, e = EvFd j r w) → timer_times es = [] ∧ signals_of es = [].
Proof.
  induction es as [|e es IH]; intros H; [done|]. destruct (H e) as (j & r & w & ->); [by left|]. cbn.
  apply IH. intros e I. apply H. by right.
Qed.

(** What a round adds to the runs of the timer and to the signals handled. *)
Lemma round_times sigmask timer rn (l l' : Loop T) : round_done sigmask timer rn l l' →
  timer_times (lp_events l') = timer_times (lp_events l) ++ (if timer_due timer (rn_now rn) (lp_last l) then [rn_now rn] else []) ∧
  signals_of (lp_events l') = signals_of (lp_events l) ++ taken sigmask rn.
Proof.
  intros [_ (n & t & es & Ev & ->)]. destruct (only_fds es Ev) as [Te Se]. unfold timer_events.
  rewrite !timer_times_app, !signals_of_app, timer_times_signals, signals_of_signals, Te, Se, !app_nil_r.
  split; destruct (timer_due _ _ _); cbn; by rewrite ?app_nil_r.
Qed.

(** The runs of the timer so far, and where the next interval starts. *)
Definition timer_inv (iv : Z) (start : timeval) (l : Loop T) : Prop :=
  tv_norm (lp_last l) ∧ lp_last l = List.last (timer_times (lp_events l)) start ∧ spaced iv start (timer_times (lp_events l)).

Lemma last_snoc {A} (l : list A) (x d : A) : List.last (l ++ [x]) d = x.
Proof. apply last_last. Qed.

Lemma timer_inv_went iv start (l l' : Loop T) es : timer_inv iv start l → went l l' es → timer_times es = [] → timer_inv iv start l'.
Proof. unfold timer_inv. intros I [_ _ _ -> ->] E. by rewrite timer_times_app, E, app_nil_r. Qed.

Lemma timer_inv_round iv start sigmask rn (l l' : Loop T) : tv_norm (rn_now rn) → timer_inv (us iv) start l → round_done sigmask (Some iv) rn l l' → timer_inv (us iv) start l'.
Proof.
  intros Nn (Nl & La & Sp) D. destruct (round_times _ _ _ _ _ D) as [Tt _]. destruct D as [Ti _]. unfold timer_inv. rewrite Tt.
  unfold timed in Ti. destruct (timer_due (Some iv) (rn_now rn) (lp_last l)) eqn:Du.
  - destruct Ti as [_ ->]. rewrite last_snoc. split_and!; [done|done|]. apply spaced_snoc; [done|]. rewrite <- La. cbn in Du. lia.
  - destruct Ti as [-> _]. by rewrite app_nil_r.
Qed.

Lemma timer_inv_step iv start sigmask wantPoll fuel rn (l : Loop T) :
  lt_ok (lp_thread l) → (lt_bound (lp_thread l) < fuel)%nat → tv_norm iv → tv_norm (rn_now rn) → timer_inv (us iv) start l →
  ∃ o l', pselect_round sigmask (Some iv) wantPoll fuel rn l = Ok (o, l') ∧ lt_ok (lp_thread l') ∧ (lt_bound (lp_thread l') ≤ lt_bound (lp_thread l))%nat ∧ timer_inv (us iv) start l'.
Proof.
  intros O F Ni Nn I. destruct (round_spec sigmask (Some iv) wantPoll fuel rn l O F Ni Nn (proj1 I)) as (l' & -> & O' & B' & C).
  eexists _, l'. split_and!; [done..|]. destruct (failed rn); [|destruct (interrupted rn)].
  - destruct C as (n & t & W). by eapply timer_inv_went.
  - destruct C as (n & t & W). by eapply timer_inv_went.
  - by eapply timer_inv_round.
Qed.

(** ** Theorems *)

(** Whatever the kernel answers, the event loop goes round for as long as it is not told to
    end, and the runs of its timer are at least the interval apart, the first one an interval
    after the start, also when the clock is set back. *)
Theorem timer_spacing sigmask iv wantPoll fuel start rns sig (t : T) :
  lt_ok t → (lt_bound t < fuel)%nat → tv_norm iv → tv_norm start → Forall (λ rn, tv_norm (rn_now rn)) rns →
  ∃ o l, pselectLoop sigmask (Some iv) wantPoll fuel start rns sig t = Ok (o, l) ∧ spaced (us iv) start (timer_times (lp_events l)).
Proof.
  intros O F Ni Ns Nr. unfold pselectLoop. destruct (ll_begin t O) as [O1 B1].
  set (l := loop_start _ _ _ _). assert (I : timer_inv (us iv) start l) by done.
  assert (Ol : lt_ok (lp_thread l)) by done. assert (Bl : (lt_bound (lp_thread l) < fuel)%nat) by (cbn; lia). clearbody l.
  revert l I Ol Bl. induction Nr as [|rn rns Nn Nr IH]; intros l I Ol Bl; cbn; [eexists _, l; split; [done|apply I]|].
  destruct (lt_loop (lp_thread l)); [|eexists _, l; split; [done|apply I]].
  destruct (timer_inv_step iv start sigmask wantPoll fuel rn l Ol Bl Ni Nn I) as ([|] & l' & -> & O' & B' & I'); rewrite bind_Ok; [|eexists _, l'; split; [done|apply I']].
  apply IH; [done|done|lia].
Qed.

(** C28: A round that is not interrupted handles every pending signal once, in order, and runs the
    timer if and only if its interval has passed; the next wait is then for the interval, and
    otherwise ends when it has passed. *)
Theorem round_handles sigmask iv wantPoll fuel rn (l : Loop T) :
  lt_ok (lp_thread l) → (lt_bound (lp_thread l) < fuel)%nat → tv_norm iv → tv_norm (rn_now rn) → tv_norm (lp_last l) →
  failed rn = false → interrupted rn = false →
  ∃ l', pselect_round sigmask (Some iv) wantPoll fuel rn l = Ok (Going, l') ∧
    signals_of (lp_events l') = signals_of (lp_events l) ++ taken sigmask rn ∧
    (if us iv <=? us (rn_now rn) - us (lp_last l) then
       timer_times (lp_events l') = timer_times (lp_events l) ++ [rn_now rn] ∧ lp_left l' = iv ∧ lp_last l' = rn_now rn
     else timer_times (lp_events l') = timer_times (lp_events l) ∧ us (lp_left l') = us (lp_last l) + us iv - us (rn_now rn) ∧ lp_last l' = lp_last l).
Proof.
  intros O F Ni Nn Nl Nf Nt. destruct (round_spec sigmask (Some iv) wantPoll fuel rn l O F Ni Nn Nl) as (l' & E & _ & _ & C).
  rewrite Nf, Nt in *. exists l'. split; [done|]. destruct (round_times _ _ _ _ _ C) as [Tt Sg]. split; [done|].
  destruct C as [Ti _]. unfold timed in Ti. rewrite Tt. cbn in *. destruct (us iv <=? _); [naive_solver|]. rewrite app_nil_r. naive_solver.
Qed.

(** While every wait is interrupted by a signal the timer does not run, however much time
    passes: the loop goes back to waiting for the whole interval. *)
Theorem interrupted_starves sigmask iv wantPoll fuel start rns sig (t : T) :
  lt_ok t → (lt_bound t < fuel)%nat → tv_norm iv → tv_norm start → Forall (λ rn, tv_norm (rn_now rn)) rns →
  Forall (λ rn, interrupted rn = true) rns →
  ∃ l, pselectLoop sigmask (Some iv) wantPoll fuel start rns sig t = Ok (Going, l) ∧ timer_times (lp_events l) = [] ∧ lp_left l = iv.
Proof.
  intros O F Ni Ns Nr Int. unfold pselectLoop. destruct (ll_begin t O) as [O1 B1].
  set (l := loop_start _ _ _ _). assert (I : tv_norm (lp_last l) ∧ timer_times (lp_events l) = [] ∧ lp_left l = iv) by done.
  assert (Ol : lt_ok (lp_thread l)) by done. assert (Bl : (lt_bound (lp_thread l) < fuel)%nat) by (cbn; lia). clearbody l.
  revert l I Ol Bl. induction Nr as [|rn rns Nn Nr IH]; intros l I Ol Bl; cbn; [eexists l; split; [done|apply I]|].
  destruct (lt_loop (lp_thread l)); [|eexists l; split; [done|apply I]]. apply Forall_cons in Int as [In Int].
  destruct (round_spec sigmask (Some iv) wantPoll fuel rn l Ol Bl Ni Nn (proj1 I)) as (l' & -> & O' & B' & C).
  assert (Nf : failed rn = false) by (unfold failed, interrupted in *; destruct (rn_result rn <? 0), (rn_errno rn =? EINTR); done).
  rewrite Nf, In in *. destruct C as (n & w & [_ _ Le La Ev]). rewrite bind_Ok.
  apply IH; [done| |done|lia]. destruct I as (I1 & I2 & I3). rewrite La, Ev, Le, timer_times_app, I2. done.
Qed.

(** Every descriptor that the loop over them leaves open and that is in a set of the round
    had its handler called, once, in the order of the list, with what the sets say; no other
    one had. *)
Theorem descriptors_dispatched fuel (l : Loop T) rs ws : lt_ok (lp_thread l) → (lt_bound (lp_thread l) < fuel)%nat →
  ∃ l' es, dispatch fuel l 0 rs ws = Ok l' ∧ lp_events l' = lp_events l ++ es ∧ dispatched 0 (lt_fds (lp_thread l')) rs ws (fds_of es).
Proof.
  intros O F. destruct (dispatch_spec fuel l 0 rs ws O) as (l' & es & E & W & _ & _ & D); [lia|]. exists l', es. split_and!; [done|apply W|done].
Qed.

(** A round that is interrupted handles one signal: the last one that was delivered in this
    round, or in an earlier one when it was a signal to the thread that interrupted it. *)
Theorem interrupted_handles_last sigmask timer wantPoll fuel rn (l : Loop T) :
  lt_ok (lp_thread l) → (lt_bound (lp_thread l) < fuel)%nat → from_option tv_norm True timer → tv_norm (rn_now rn) → tv_norm (lp_last l) →
  interrupted rn = true →
  ∃ l', pselect_round sigmask timer wantPoll fuel rn l = Ok (Going, l') ∧
    signals_of (lp_events l') = signals_of (lp_events l) ++ [List.last (rn_funnelled rn) (lp_funnelSig l)] ∧ fds_of (lp_events l') = fds_of (lp_events l).
Proof.
  intros O F Ni Nn Nl In. destruct (round_spec sigmask timer wantPoll fuel rn l O F Ni Nn Nl) as (l' & E & _ & _ & C).
  assert (Nf : failed rn = false) by (unfold failed, interrupted in *; destruct (rn_result rn <? 0), (rn_errno rn =? EINTR); done).
  rewrite Nf, In in *. exists l'. split; [done|]. destruct C as (n & w & [_ _ _ _ ->]). rewrite signals_of_app. split; [done|].
  unfold fds_of. rewrite omap_app. apply app_nil_r.
Qed.

(** The loop of signals runs its timer when the interval has passed also when the wait was
    interrupted, and handles the signal it took. *)
Theorem signal_round_handles iv sig err now (l : Loop T) :
  lt_ok (lp_thread l) → tv_norm iv → tv_norm now → tv_norm (lp_last l) → 0 < sig ∨ err = EINTR ∨ err = EAGAIN →
  ∃ l', signal_round (Some iv) sig err now l = Ok l' ∧
    signals_of (lp_events l') = signals_of (lp_events l) ++ (if 0 <? sig then [sig] else []) ∧
    timer_times (lp_events l') = timer_times (lp_events l) ++ (if us iv <=? us now - us (lp_last l) then [now] else []).
Proof.
  intros O Ni Nn Nl S. unfold signal_round.
  replace ((sig <? 0) && negb (err =? EAGAIN) && negb (err =? EINTR)) with false by lia.
  assert (W : ∃ l1, (if 0 <? sig then signal l sig else Ok l) = Ok l1 ∧ went l l1 (if 0 <? sig then [EvSignal sig] else [])).
  { destruct (0 <? sig); [by apply signal_went|]. exists l. split; [done|by apply went_nil]. }
  destruct W as (l1 & -> & [O1 _ _ La Ev]). rewrite bind_Ok.
  destruct (timers_spec (Some iv) now l1) as (l2 & -> & _ & _ & _ & E2); [done|done|done|congruence|]. exists l2. split; [done|].
  rewrite E2, Ev, !signals_of_app, !timer_times_app. unfold timer_events. cbn [timer_due]. rewrite La.
  destruct (0 <? sig), (us iv <=? _); cbn; by rewrite ?app_nil_r.
Qed.
End Laws.

(** ** A main thread *)

(** With descriptors whose handler closes them, and [mt_msgs] messages that have come. *)
Record MainLoop := MkMainLoop {
  mt_main : Main;
  mt_fds : list SelectFd;
  mt_msgs : nat;
}.

#[export] Instance main_thread : LoopThread MainLoop := {|
  lt_loop t := mn_loop (mt_main t);
  loopBegin t := MkMainLoop (MkMain true (mn_children (mt_main t)) (mn_reaped (mt_main t))) (mt_fds t) (mt_msgs t);
  lt_fds := mt_fds;
  lt_put_fds t fds := MkMainLoop (mt_main t) fds (mt_msgs t);
  lt_selectTimeout _ := 0;
  handleSignal t s := m ← MainBase_handleSignal (mt_main t) s; Ok (MkMainLoop m (mt_fds t) (mt_msgs t));
  handleTimer t := Ok t;
  fdReady t i _ _ := Ok (MkMainLoop (mt_main t) (alter set_closed i (mt_fds t)) (mt_msgs t));
  thread_poll t := match mt_msgs t with O => Ok (false, t) | S n => Ok (true, MkMainLoop (mt_main t) (mt_fds t) n) end;
  ares_fds _ := (0, [], []);
  ares_timeout _ pvs := pvs;
  ares_process t _ _ := Ok t;
|}.

Lemma reap_all fuel children reaped : (length children < fuel)%nat → reap fuel children reaped = Ok ([], reaped ++ children).
Proof.
  revert fuel reaped. induction children as [|c children IH]; intros [|fuel] reaped F; cbn in *; try lia; [by rewrite app_nil_r|].
  rewrite IH by lia. by rewrite <- app_assoc.
Qed.

Lemma main_signal_ok m s : ∃ m', MainBase_handleSignal m s = Ok m'.
Proof.
  unfold MainBase_handleSignal. repeat case_match; try done; eauto. rewrite reap_all by lia. rewrite bind_Ok. eauto.
Qed.

Definition fds_fit (t : MainLoop) : Prop := Forall (λ f, 0 ≤ sf_fd f < FD_SETSIZE) (mt_fds t).

#[export] Program Instance main_laws : LoopLaws MainLoop := {|
  lt_ok := fds_fit;
  lt_bound t := (length (mt_fds t) + mt_msgs t)%nat;
|}.
Next Obligation. intros t O. by split; [|cbn; lia]. Qed.
Next Obligation. intros t i f O E _. by eapply Forall_lookup_1 in O. Qed.
Next Obligation. intros t. cbn. lia. Qed.
Next Obligation. intros t O. cbn. split; [by apply Forall_forall; intros f [_ I]%list_elem_of_filter; eapply Forall_forall in O|]. pose proof (length_filter (λ f, sf_closed f = false) (mt_fds t)). unfold open_fds. lia. Qed.
Next Obligation. intros t s O. destruct (main_signal_ok (mt_main t) s) as [m E]. cbn. rewrite E, bind_Ok. eexists. split_and!; [done|done|cbn; lia]. Qed.
Next Obligation. intros t O. cbn. eauto with lia. Qed.
Next Obligation.
  intros t i r w f O E Op. eexists. split_and!; [done| | |].
  - apply Forall_alter; [done|]. intros g G B. done.
  - cbn. by rewrite length_alter.
  - intros j g G. cbn in *. destruct (decide (i = j)) as [->|N]; [rewrite list_lookup_alter_eq, G; by eexists|]. rewrite list_lookup_alter_ne by done. eauto.
Qed.
Next Obligation. intros t O. cbn. destruct (mt_msgs t) eqn:E; eexists _, _; split_and!; try done; cbn; lia. Qed.
Next Obligation. intros t rs ws O. cbn. eauto with lia. Qed.

Definition idle_main : MainLoop :=
  MkMainLoop (MkMain false [41; 42] []) [wantReadSet (new_SelectFd 5 Fd.Established) true; new_SelectFd 6 Fd.Established] 2.

Definition one_second : timeval := MkTv 1 0.

(** Descriptor 5 can be read at a time. *)
Definition readable_at (now : timeval) : Round := MkRound [] 1 0 [5] [] [] now.

(** Signals are delivered in the wait. *)
Definition interrupted_at (sigs : list Z) (now : timeval) : Round := MkRound sigs (-1) EINTR [] [] [] now.

Lemma idle_fits : lt_ok idle_main.
Proof. repeat constructor; cbn; done. Qed.

Lemma timer_spacing_witness : ∃ o l, pselectLoop true (Some one_second) true 9 (MkTv 10 500000)
    [readable_at (MkTv 11 400000); MkRound [] 0 0 [] [] [SIGCHLD] (MkTv 11 500000); readable_at (MkTv 11 600000)] 0 idle_main = Ok (o, l) ∧
  timer_times (lp_events l) = [MkTv 11 500000] ∧ spaced (us one_second) (MkTv 10 500000) (timer_times (lp_events l)).
Proof.
  destruct (timer_spacing true one_second true 9 (MkTv 10 500000)
    [readable_at (MkTv 11 400000); MkRound [] 0 0 [] [] [SIGCHLD] (MkTv 11 500000); readable_at (MkTv 11 600000)] 0 idle_main idle_fits) as (o & l & E & Sp);
    [cbn; lia|done|done|repeat constructor; done|].
  exists o, l. split_and!; [done| |done]. vm_compute in E. injection E as <- <-. by vm_compute.
Defined.

Lemma round_handles_witness : ∃ l', pselect_round true (Some one_second) true 9 (MkRound [] 0 0 [] [] [SIGCHLD; SIGTERM] (MkTv 11 500000))
    (loop_start (Some one_second) (MkTv 10 500000) 0 idle_main) = Ok (Going, l') ∧
  signals_of (lp_events l') = [SIGCHLD; SIGTERM] ∧ timer_times (lp_events l') = [MkTv 11 500000].
Proof.
  destruct (round_handles true one_second true 9 (MkRound [] 0 0 [] [] [SIGCHLD; SIGTERM] (MkTv 11 500000))
    (loop_start (Some one_second) (MkTv 10 500000) 0 idle_main)) as (l' & E & Sg & Ti); [apply idle_fits|cbn; lia|done..|].
  exists l'. split; [done|]. split; [by rewrite Sg|]. vm_compute in E. injection E as <-. by vm_compute.
Defined.

(** A minute of messages, one each half of a second. *)
Lemma interrupted_starves_witness :
  ∃ l, pselectLoop true (Some one_second) true 9 (MkTv 0 0) (map (λ n, interrupted_at [] (MkTv (n / 2) (n mod 2 * 500000))) (seqZ 1 120)) 0 idle_main = Ok (Going, l) ∧
    timer_times (lp_events l) = [] ∧ lp_left l = one_second.
Proof.
  apply interrupted_starves; [apply idle_fits|cbn; lia|done|done| |]; apply Forall_map, Forall_forall; [|done].
  intros n _. unfold tv_norm. cbn. pose proof (Z.mod_pos_bound n 2). lia.
Defined.

Lemma descriptors_dispatched_witness : ∃ l' es, dispatch 9 (loop_start None (MkTv 0 0) 0 idle_main) 0 [5] [] = Ok l' ∧
  lp_events l' = [] ++ es ∧ dispatched 0 (lt_fds (lp_thread l')) [5] [] (fds_of es).
Proof. apply (descriptors_dispatched 9 (loop_start None (MkTv 0 0) 0 idle_main)); [apply idle_fits|cbn; lia]. Defined.

Lemma interrupted_handles_last_witness : ∃ l', pselect_round true None true 9 (interrupted_at [SIGTERM; SIGCHLD] (MkTv 1 0))
    (loop_start None (MkTv 0 0) 0 idle_main) = Ok (Going, l') ∧
  signals_of (lp_events l') = [SIGCHLD] ∧ mn_loop (mt_main (lp_thread l')) = true.
Proof.
  destruct (interrupted_handles_last true None true 9 (interrupted_at [SIGTERM; SIGCHLD] (MkTv 1 0))
    (loop_start None (MkTv 0 0) 0 idle_main)) as (l' & E & Sg & _); [apply idle_fits|cbn; lia|done..|].
  exists l'. split_and!; [done|apply Sg|]. vm_compute in E. injection E as <-. by vm_compute.
Defined.

Lemma signal_round_handles_witness : ∃ l', signal_round (Some one_second) (-1) EINTR (MkTv 3 0) (loop_start (Some one_second) (MkTv 0 0) 0 idle_main) = Ok l' ∧
  timer_times (lp_events l') = [MkTv 3 0].
Proof.
  destruct (signal_round_handles one_second (-1) EINTR (MkTv 3 0) (loop_start (Some one_second) (MkTv 0 0) 0 idle_main)) as (l' & E & _ & Ti); [apply idle_fits|done..|auto|].
  exists l'. split; [done|apply Ti].
Defined.

(** A request to end is lost when another signal is delivered in the same wait. *)
Example termination_lost : ∃ l', pselectLoop true None true 9 (MkTv 0 0) [interrupted_at [SIGTERM; SIGCHLD] (MkTv 1 0); readable_at (MkTv 2 0)] 0 idle_main = Ok (Going, l') ∧
  lt_loop (lp_thread l') = true ∧ signals_of (lp_events l') = [SIGCHLD].
Proof. eexists. split; [by vm_compute|done]. Qed.

(** A message for the thread makes it handle the last signal again. *)
Example signal_repeated : ∃ l', pselectLoop true None true 9 (MkTv 0 0) [interrupted_at [SIGHUP] (MkTv 1 0); interrupted_at [] (MkTv 2 0)] 0 idle_main = Ok (Going, l') ∧
  signals_of (lp_events l') = [SIGHUP; SIGHUP].
Proof. eexists. split; [by vm_compute|done]. Qed.

(** A thread whose first descriptor, when it is ready, is closed, and a connection is begun
    that is given the same number. *)
Definition reconnecting : LoopThread (list SelectFd) := {|
  lt_loop _ := true;
  loopBegin t := t;
  lt_fds t := t;
  lt_put_fds _ fds := fds;
  lt_selectTimeout _ := 0;
  handleSignal t _ := Ok t;
  handleTimer t := Ok t;
  fdReady t i _ _ :=
    match i with
    | O => Ok (alter set_closed 0%nat t ++ [start_connect (new_SelectFd (-1) Fd.Connect) 5])
    | _ => Ok t
    end;
  thread_poll t := Ok (false, t);
  ares_fds _ := (0, [], []);
  ares_timeout _ pvs := pvs;
  ares_process t _ _ := Ok t;
|}.

(** The new connection is found in the sets of this round, which were about the old one: it
    is handled as if it were connected. *)
Example reused_number_ready : ∃ l', dispatch (LoopThread0 := reconnecting) 9 (MkLoop [wantWriteSet (new_SelectFd 5 Fd.Established) true] (MkTv 0 0) (MkTv 0 0) 0 []) 0 [] [5] = Ok l' ∧
  lp_events l' = [EvFd 0 false true; EvFd 1 false true] ∧ sf_state <$> (lp_thread l' !! 1%nat) = Some Fd.Connect.
Proof. eexists. split; [by vm_compute|done]. Qed.
