(* ===== verification/Tender.v ===== *)
(** * parse/node.cc: finding tenders in a page (TenderSearch, MatchCvpp)

    A pattern on the list of search results of a page, whose function looks through the
    tree of each result for the fields of a tender.  The functions read the tree only, so
    they are on documents as [Forest]s; a null pointer that is followed is [Ub]. *)

From Stdlib Require Import String Ascii.
From S2P Require Import Prelude Vpt VptStack VptProps.

(** The bytes of a literal. *)
Definition lit (s : string) : list Z := (λ c, Z.of_nat (nat_of_ascii c)) <$> list_ascii_of_string s.

(** strstr( hay, needle ) != 0 and strchr, on the bytes before the terminator. *)
Fixpoint strstr (hay needle : list Z) : bool :=
  bool_decide (take (length needle) hay = needle) || match hay with [] => false | _ :: hay => strstr hay needle end.

Fixpoint strchr (s : list Z) (c : Z) : option (list Z) :=
  match s with
  | [] => None
  | x :: s' => if x =? c then Some s else strchr s' c
  end.

Record Tender := MkTender {
  td_code : list Z;
  td_title : list Z;
  td_proponent : list Z;
  td_type : list Z;
  td_number : list Z;
  td_announced : list Z;
  td_deadline : list Z;
}.

(** A node, by its type, text and children; pointers to nodes are options. *)
Record Html := MkHtml {
  h_type : NodeType;
  h_text : list Z;
  h_children : Forest;
}.

Definition tag (h : Html) (name : list Z) : bool := bool_decide (h_type h = HtmlTag) && bool_decide (h_text h = name).

(** An attribute without a value has no child. *)
Fixpoint attr (f : Forest) (contains : list Z) : res bool :=
  match f with
  | Leaf => Ok false
  | Tree type _ kids rest =>
      if bool_decide (type = HtmlAttr) then
        match kids with
        | Leaf => Ub
        | Tree _ value _ _ => if strstr (cstr value) contains then Ok true else attr rest contains
        end
      else attr rest contains
  end.

Fixpoint html_len (f : Forest) : Z :=
  match f with
  | Leaf => 0
  | Tree type _ _ rest => (if bool_decide (type = HtmlTag) then 1 else 0) + html_len rest
  end.

Fixpoint child_at (f : Forest) (i : nat) : option Html :=
  match f with
  | Leaf => None
  | Tree type text kids rest =>
      if bool_decide (type = HtmlTag) then match i with O => Some (MkHtml type text kids) | S i => child_at rest i end
      else child_at rest i
  end.

(** Through a pointer. *)
Definition len (h : option Html) : res Z := h ← deref h; Ok (html_len (h_children h)).
Definition child (h : option Html) (i : nat) : res (option Html) := h ← deref h; Ok (child_at (h_children h) i).

(** The texts of a list of nodes. *)
Fixpoint text_r (f : Forest) : list Z :=
  match f with
  | Leaf => []
  | Tree type text kids rest => (if bool_decide (type = HtmlText) then text else text_r kids) ++ text_r rest
  end.

Definition html_text (h : Html) : list Z := if bool_decide (h_type h = HtmlText) then h_text h else text_r (h_children h).
Definition text (h : option Html) : res (list Z) := h ← deref h; Ok (html_text h).

Definition title_a (h : option Html) : res bool :=
  h ← deref h;
  if tag h (lit "a") then attr (h_children h) (lit "/Notice/Details/") else Ok false.

(** [s + 2] if there is that much after the colon, the whole text otherwise. *)
Definition after_colon (it : list Z) : list Z :=
  match strchr (cstr it) 58 with
  | Some (_ :: _ :: c :: s) => c :: s
  | _ => it
  end.

(** The fields in the right column: code, deadline, announced. *)
Fixpoint right_col (f : Forest) (code deadline announced : list Z) : res (list Z * list Z * list Z) :=
  match f with
  | Leaf => Ok (code, deadline, announced)
  | Tree type txt kids rest =>
      if bool_decide (type = HtmlTag) then
        let c := MkHtml type txt kids in
        let it := html_text c in
        if strstr (cstr it) (lit "kodas:") then right_col rest (after_colon it) deadline announced
        else if strstr (cstr it) (lit "terminas:") then
          d ← child (Some c) 0;
          deadline ← text d;
          right_col rest code deadline announced
        else if strstr (cstr it) (lit "Paskelbimo data:") then right_col rest code deadline (after_colon it)
        else right_col rest code deadline announced
      else right_col rest code deadline announced
  end.

(** The link with the title, if it is the second or the third element of the header. *)
Definition find_title (header : option Html) : res (option Html) :=
  n ← len header;
  second ← (if 1 <? n then c ← child header 1; title_a c else Ok false);
  if (second : bool) then child header 1
  else
    third ← (if 2 <? n then c ← child header 2; title_a c else Ok false);
    if (third : bool) then child header 2 else Ok None.

(** Proponent, type and number. *)
Definition left_fields (left_col : option Html) : res (list Z * list Z * list Z) :=
  c0 ← child left_col 0;
  n0 ← len c0;
  proponent ← (if 0 <? n0 then c ← child left_col 0; c ← child c 0; text c else Ok []);
  c1 ← child left_col 1; c1 ← child c1 0; type ← text c1;
  c2 ← child left_col 2; c2 ← child c2 0; number ← text c2;
  Ok (proponent, type, number).

Definition tender_title (html : Html) (tenderList : list Tender) : res (list Tender) :=
  let html := Some html in
  n ← len html;
  if 0 <? n then
    header ← child html 0;
    title ← find_title header;
    match title with
    | None => Ok tenderList
    | Some _ =>
        title_t ← text title;
        left_col ← child html 1;
        '(proponent, type, number) ← left_fields left_col;
        right ← child html 2;
        right ← deref right;
        '(code, deadline, announced) ← right_col (h_children right) [] [] [];
        Ok (tenderList ++ [MkTender code title_t proponent type number announced deadline])
    end
  else Ok tenderList.

(** MatchCvpp::match, on the children of the node. *)
Fixpoint match_cvpp (f : Forest) (tenders : list Tender) : res (list Tender) :=
  match f with
  | Leaf => Ok tenders
  | Tree type txt kids rest =>
      tenders ← (if bool_decide (type = HtmlTag) && bool_decide (txt = lit "div") then tender_title (MkHtml type txt kids) tenders else Ok tenders);
      match_cvpp rest tenders
  end.

(** The pattern: node 0 is the [div], 1 its attribute [class], 2 the value, whose function
    is called for the node two levels up. *)
Definition consPatCvpp (n : nat) : PatNode :=
  match n with
  | O => MkPatNode None HtmlTag (lit "div") (Some 1%nat) None None None 0 false false
  | S O => MkPatNode (Some 0%nat) HtmlAttr (lit "class") (Some 2%nat) None None None 0 false false
  | _ => MkPatNode (Some 1%nat) HtmlVal ([34] ++ lit "notice-search-result" ++ [34]) None None (Some 0%nat) None 2 false false
  end.

(** ** A page *)

(** The result for a tender, as the code expects it: a header with a picture and a link, a
    column with the proponent, type and number, and one with the rest. *)
Definition cell (t : list Z) (rest : Forest) : Forest := Tree HtmlTag (lit "span") (Tree HtmlText t Leaf Leaf) rest.
Definition boxed (t : list Z) (rest : Forest) : Forest := Tree HtmlTag (lit "div") (cell t Leaf) rest.

Definition header_of (t : Tender) (link : list Z) : Forest :=
  Tree HtmlTag (lit "img") Leaf
    (Tree HtmlTag (lit "a") (Tree HtmlAttr (lit "href") (Tree HtmlVal link Leaf Leaf) (Tree HtmlText (td_title t) Leaf Leaf)) Leaf).

Definition left_of (t : Tender) : Forest := boxed (td_proponent t) (boxed (td_type t) (boxed (td_number t) Leaf)).

Definition right_of (t : Tender) : Forest :=
  cell (lit "Skelbimo kodas: " ++ td_code t)
    (Tree HtmlTag (lit "span") (Tree HtmlText (lit "Pateikimo terminas: ") Leaf (cell (td_deadline t) Leaf))
      (cell (lit "Paskelbimo data: " ++ td_announced t) Leaf)).

Definition result_of (t : Tender) (link : list Z) : Html :=
  MkHtml HtmlTag (lit "div")
    (Tree HtmlTag (lit "div") (header_of t link) (Tree HtmlTag (lit "div") (left_of t) (Tree HtmlTag (lit "div") (right_of t) Leaf))).

Fixpoint page_of (ts : list (Tender * list Z)) : Forest :=
  match ts with
  | [] => Leaf
  | (t, link) :: ts => Tree HtmlTag (lit "div") (h_children (result_of t link)) (page_of ts)
  end.

(** A tender whose fields are not taken for one another. *)
Record readable (t : Tender) (link : list Z) : Prop := Readable {
  re_link : strstr (cstr link) (lit "/Notice/Details/") = true;
  re_code : cstr (td_code t) = td_code t ∧ td_code t ≠ [];
  re_announced : cstr (td_announced t) = td_announced t ∧ td_announced t ≠ [];
  re_deadline : strstr (cstr (lit "Pateikimo terminas: " ++ td_deadline t)) (lit "kodas:") = false;
  re_date : strstr (cstr (lit "Paskelbimo data: " ++ td_announced t)) (lit "kodas:") = false ∧
    strstr (cstr (lit "Paskelbimo data: " ++ td_announced t)) (lit "terminas:") = false;
}.

Lemma strstr_prefix needle b : strstr (needle ++ b) needle = true.
Proof.
  assert (E : ∀ hay, strstr hay needle = bool_decide (take (length needle) hay = needle) || match hay with [] => false | _ :: hay => strstr hay needle end) by (by intros []).
  rewrite E. apply orb_true_iff. left. apply bool_decide_eq_true_2, take_app_length.
Qed.

Lemma strstr_app a needle b : strstr (a ++ needle ++ b) needle = true.
Proof. induction a as [|x a IH]; [exact (strstr_prefix needle b)|]. cbn [app strstr]. by rewrite IH, orb_true_r. Qed.

Lemma cstr_nz s r : Forall (λ c, c ≠ 0) s → cstr (s ++ r) = s ++ cstr r.
Proof. induction 1 as [|c s Hc Hs IH]; [done|]. cbn. destruct (Z.eqb_spec c 0); [done|]. by rewrite IH. Qed.

(** ** Theorems *)

(** The texts that name the fields of the right column. *)
Lemma code_named r : strstr (cstr (lit "Skelbimo kodas: " ++ r)) (lit "kodas:") = true.
Proof. rewrite cstr_nz by (by repeat constructor). apply (strstr_app (lit "Skelbimo ") (lit "kodas:") (lit " " ++ cstr r)). Qed.

Lemma deadline_named r : strstr (cstr (lit "Pateikimo terminas: " ++ r)) (lit "terminas:") = true.
Proof. rewrite cstr_nz by (by repeat constructor). apply (strstr_app (lit "Pateikimo ") (lit "terminas:") (lit " " ++ cstr r)). Qed.

Lemma date_named r : strstr (cstr (lit "Paskelbimo data: " ++ r)) (lit "Paskelbimo data:") = true.
Proof. rewrite cstr_nz by (by repeat constructor). apply (strstr_app [] (lit "Paskelbimo data:") (lit " " ++ cstr r)). Qed.

Lemma after_code r : cstr r = r → r ≠ [] → after_colon (lit "Skelbimo kodas: " ++ r) = r.
Proof. intros E N. unfold after_colon. rewrite cstr_nz, E by (by repeat constructor). by destruct r. Qed.

Lemma after_date r : cstr r = r → r ≠ [] → after_colon (lit "Paskelbimo data: " ++ r) = r.
Proof. intros E N. unfold after_colon. rewrite cstr_nz, E by (by repeat constructor). by destruct r. Qed.

Lemma cell_text t : html_text (MkHtml HtmlTag (lit "span") (Tree HtmlText t Leaf Leaf)) = t.
Proof. apply app_nil_r. Qed.

Lemma right_col_cell t rest code deadline announced : right_col (cell t rest) code deadline announced =
  if strstr (cstr t) (lit "kodas:") then right_col rest (after_colon t) deadline announced
  else if strstr (cstr t) (lit "terminas:") then Ub
  else if strstr (cstr t) (lit "Paskelbimo data:") then right_col rest code deadline (after_colon t)
  else right_col rest code deadline announced.
Proof. cbn [right_col cell]. by rewrite bool_decide_eq_true_2, cell_text by done. Qed.

Lemma right_col_read t link : readable t link → right_col (right_of t) [] [] [] = Ok (td_code t, td_deadline t, td_announced t).
Proof.
  intros [_ [Cc Cn] [Ac An] De [D1 D2]]. unfold right_of. rewrite right_col_cell, code_named, after_code by done.
  cbn [right_col]. rewrite bool_decide_eq_true_2 by done. fold (right_col).
  change (html_text (MkHtml HtmlTag (lit "span") (Tree HtmlText (lit "Pateikimo terminas: ") Leaf (cell (td_deadline t) Leaf)))) with (lit "Pateikimo terminas: " ++ (td_deadline t ++ []) ++ []).
  rewrite !app_nil_r, De, deadline_named.
  change (child (Some (MkHtml HtmlTag (lit "span") (Tree HtmlText (lit "Pateikimo terminas: ") Leaf (cell (td_deadline t) Leaf)))) 0)
    with (Ok (Some (MkHtml HtmlTag (lit "span") (Tree HtmlText (td_deadline t) Leaf Leaf)))).
  rewrite bind_Ok. unfold text. cbn [deref]. rewrite !bind_Ok, cell_text, right_col_cell, D1, D2, date_named, after_date by done. done.
Qed.

Lemma find_title_header t link : strstr (cstr link) (lit "/Notice/Details/") = true →
  ∃ a, find_title (Some (MkHtml HtmlTag (lit "div") (header_of t link))) = Ok (Some a) ∧ html_text a = td_title t.
Proof.
  intros L. unfold find_title. change (len _) with (Ok 2). rewrite bind_Ok.
  change (child (Some (MkHtml HtmlTag (lit "div") (header_of t link))) 1) with
    (Ok (Some (MkHtml HtmlTag (lit "a") (Tree HtmlAttr (lit "href") (Tree HtmlVal link Leaf Leaf) (Tree HtmlText (td_title t) Leaf Leaf))))).
  cbn [Z.ltb Z.compare Pos.compare Pos.compare_cont]. rewrite !bind_Ok.
  change (title_a _) with (if strstr (cstr link) (lit "/Notice/Details/") then Ok true else Ok false). rewrite L, bind_Ok.
  eexists. split; [done|]. apply app_nil_r.
Qed.

Lemma boxed_text t : ∃ c, child (Some (MkHtml HtmlTag (lit "div") (cell t Leaf))) 0 = Ok c ∧ text c = Ok t.
Proof. eexists. split; [done|]. change (text _) with (Ok (html_text (MkHtml HtmlTag (lit "span") (Tree HtmlText t Leaf Leaf)))). by rewrite cell_text. Qed.

Lemma left_read t : left_fields (Some (MkHtml HtmlTag (lit "div") (left_of t))) = Ok (td_proponent t, td_type t, td_number t).
Proof.
  unfold left_fields. set (col := Some _).
  change (child col 0) with (Ok (Some (MkHtml HtmlTag (lit "div") (cell (td_proponent t) Leaf)))).
  change (child col 1) with (Ok (Some (MkHtml HtmlTag (lit "div") (cell (td_type t) Leaf)))).
  change (child col 2) with (Ok (Some (MkHtml HtmlTag (lit "div") (cell (td_number t) Leaf)))). rewrite !bind_Ok.
  change (len _) with (Ok 1). rewrite bind_Ok. cbn [Z.ltb Z.compare].
  destruct (boxed_text (td_proponent t)) as (p & Ep & P). destruct (boxed_text (td_type t)) as (y & Ey & Y). destruct (boxed_text (td_number t)) as (n & En & N).
  rewrite Ep, bind_Ok, P, !bind_Ok, Ey, bind_Ok, Y, !bind_Ok, En, bind_Ok, N. done.
Qed.

Lemma read_result t link ts : readable t link → tender_title (result_of t link) ts = Ok (ts ++ [t]).
Proof.
  intros R. destruct (find_title_header t link (re_link _ _ R)) as (a & Ft & Ta). unfold tender_title, result_of.
  change (len (Some _)) with (Ok 3). rewrite bind_Ok. cbn [Z.ltb Z.compare].
  change (child (Some _) 0) with (Ok (Some (MkHtml HtmlTag (lit "div") (header_of t link)))). rewrite bind_Ok, Ft, bind_Ok. unfold text. cbn [deref]. rewrite !bind_Ok, Ta.
  change (child (Some _) 1) with (Ok (Some (MkHtml HtmlTag (lit "div") (left_of t)))). rewrite bind_Ok, left_read, bind_Ok.
  change (child (Some _) 2) with (Ok (Some (MkHtml HtmlTag (lit "div") (right_of t)))). rewrite bind_Ok. cbn [deref h_children].
  rewrite bind_Ok. cbn [h_children]. rewrite (right_col_read t link R), bind_Ok. by destruct t.
Qed.

(** Every tender of a page of results is found, in the order of the page, with all its
    fields. *)
Theorem tenders_read ts : Forall (λ tl, readable tl.1 tl.2) ts → match_cvpp (page_of ts) [] = Ok (fst <$> ts).
Proof.
  intros R. change (fst <$> ts) with ([] ++ (fst <$> ts)). generalize (@nil Tender) as done.
  induction R as [|[t link] ts Rt R IH]; intros found; cbn [page_of match_cvpp]; [by rewrite app_nil_r|].
  rewrite !bool_decide_eq_true_2 by done. change (MkHtml HtmlTag (lit "div") (h_children (result_of t link))) with (result_of t link). cbn [andb].
  rewrite (read_result t link found Rt), bind_Ok, IH, <- app_assoc. done.
Qed.

(** A result with a title but without a second column makes the search follow a null
    pointer. *)
Theorem missing_column_crashes h ts header a : child_at (h_children h) 0 = Some header → find_title (Some header) = Ok (Some a) →
  child_at (h_children h) 1 = None → tender_title h ts = Ub.
Proof.
  intros E0 Ft E1. unfold tender_title.
  assert (P : 0 < html_len (h_children h)).
  { revert E0. clear. induction (h_children h) as [|type txt kids _ rest IH]; [done|]. cbn.
    assert (0 ≤ html_len rest) by (clear; induction rest as [|? ? ? _ ? IH]; cbn; [done|destruct (bool_decide _); lia]).
    case_bool_decide; [lia|]. intros C. specialize (IH C). lia. }
  unfold len, child. cbn [deref]. rewrite !bind_Ok. destruct (Z.ltb_spec 0 (html_len (h_children h))); [|lia].
  rewrite E0, E1, Ft, !bind_Ok. done.
Qed.

Definition demo_tender : Tender := MkTender (lit "123") (lit "Bridge") (lit "City") (lit "Works") (lit "7") (lit "2020-01-02") (lit "2020-02-03").

Lemma tenders_read_witness : match_cvpp (page_of [(demo_tender, lit "/Notice/Details/9"); (demo_tender, lit "x/Notice/Details/1")]) [] = Ok [demo_tender; demo_tender].
Proof. apply (tenders_read [(demo_tender, lit "/Notice/Details/9"); (demo_tender, lit "x/Notice/Details/1")]). repeat constructor; by vm_compute. Defined.

Lemma missing_column_crashes_witness :
  tender_title (MkHtml HtmlTag (lit "div") (Tree HtmlTag (lit "div") (header_of demo_tender (lit "/Notice/Details/9")) Leaf)) [] = Ub.
Proof. by eapply missing_column_crashes; vm_compute. Defined.

(** ** The pattern at work *)

Definition class_attr (value : list Z) (rest : Forest) : Forest := Tree HtmlAttr (lit "class") (Tree HtmlVal ([34] ++ value ++ [34]) Leaf Leaf) rest.

(** The function is called for the [div] with the class, once. *)
Example cvpp_called : ∃ v, forest_run consPatCvpp (λ _ _ _, MatchFinished) (addPat (new_VPT 0) 0)
    (Tree HtmlTag (lit "p") Leaf (Tree HtmlTag (lit "div") (class_attr (lit "notice-search-result") (cell (lit "x") Leaf)) Leaf)) = Ok v ∧
  v_calls v = [(0%nat, 2%nat)].
Proof. eexists. split; [by vm_compute|done]. Qed.

(** A [div] whose first child is not an attribute makes the code call a missing function. *)
Example cvpp_plain_div_crashes : forest_run consPatCvpp (λ _ _ _, MatchFinished) (addPat (new_VPT 0) 0)
    (Tree HtmlTag (lit "div") (Tree HtmlText (lit "x") Leaf Leaf) Leaf) = Ub.
Proof. by vm_compute. Qed.
