(* ===== verification/VptPairs.v ===== *)
(** * parse/node.cc: pairs of requests and responses

    The parser of requests makes a pair for each request in the list of the parser of
    responses, and a function matched in the request may put a pattern in it, which is
    then looked for in the response. *)

From S2P Require Import Prelude Vpt.

Record NodePair := MkNodePair {
  np_id : Z;
  np_patTransfer : option nat;
}.

(** [pr_pairs]: the pairs that were made; a pointer is the place of a pair.  [pr_send] and
    [pr_other] are of the tree of the requests, [pr_recv] and [pr_vpt] of that of the
    responses.  The constructor does not set [pairSend], which is [None] until it is. *)
Record Pairs := MkPairs {
  pr_pairs : list NodePair;
  pr_id : Z;
  pr_other : bool;
  pr_send : option nat;
  pr_recv : list nat;
  pr_vpt : VPT;
}.

Definition generatePair (s : Pairs) : Pairs :=
  if pr_other s then
    let pair := length (pr_pairs s) in
    MkPairs (pr_pairs s ++ [MkNodePair (pr_id s) None]) (i32 (pr_id s + 1)) (pr_other s) (Some pair) (pr_recv s ++ [pair]) (pr_vpt s)
  else s.

Definition consumePair (s : Pairs) : res Pairs :=
  match pr_recv s with
  | [] => Ok s
  | p :: recv =>
      pair ← deref (pr_pairs s !! p);
      Ok (MkPairs (pr_pairs s) (pr_id s) (pr_other s) (pr_send s) recv
        (match np_patTransfer pair with Some pattern => addPat (pr_vpt s) pattern | None => pr_vpt s end))
  end.

(** Before the first request the pointer has no value. *)
Definition pairPattern (s : Pairs) (pattern : nat) : res Pairs :=
  match pr_send s with
  | None => Ub
  | Some p =>
      pair ← deref (pr_pairs s !! p);
      Ok (MkPairs (<[p := MkNodePair (np_id pair) (Some pattern)]> (pr_pairs s)) (pr_id s) (pr_other s) (pr_send s) (pr_recv s) (pr_vpt s))
  end.

Inductive PairOp := Request | Pattern (pattern : nat) | Response.

Definition pair_step (s : Pairs) (op : PairOp) : res Pairs :=
  match op with
  | Request => Ok (generatePair s)
  | Pattern p => pairPattern s p
  | Response => consumePair s
  end.

Fixpoint pair_run (s : Pairs) (ops : list PairOp) : res Pairs :=
  match ops with
  | [] => Ok s
  | op :: ops => s ← pair_step s op; pair_run s ops
  end.

(** ** Specification *)

(** The patterns of the requests that wait for their responses, and those looked for in
    responses. *)
Record Waiting := MkWaiting {
  wt_waiting : list (option nat);
  wt_found : list nat;
}.

(** A pattern is for the last request, if its response has not come. *)
Definition wait_step (w : Waiting) (op : PairOp) : Waiting :=
  match op with
  | Request => MkWaiting (wt_waiting w ++ [None]) (wt_found w)
  | Pattern p => MkWaiting (match wt_waiting w with [] => [] | _ => <[pred (length (wt_waiting w)) := Some p]> (wt_waiting w) end) (wt_found w)
  | Response => MkWaiting (tail (wt_waiting w)) (wt_found w ++ from_option (λ p, [p]) [] (mjoin (head (wt_waiting w))))
  end.

(** The pairs of the waiting requests are the last ones made. *)
Record pairs_rep (s : Pairs) (w : Waiting) : Prop := PairsRep {
  pp_other : pr_other s = true;
  pp_bound : (length (wt_waiting w) ≤ length (pr_pairs s))%nat;
  pp_recv : pr_recv s = seq (length (pr_pairs s) - length (wt_waiting w)) (length (wt_waiting w));
  pp_waiting : np_patTransfer <$> drop (length (pr_pairs s) - length (wt_waiting w)) (pr_pairs s) = wt_waiting w;
  pp_send : pr_send s = match length (pr_pairs s) with O => None | S n => Some n end;
  pp_found : v_patRoots (pr_vpt s) = wt_found w;
}.

Lemma request_rep s w : pairs_rep s w → pairs_rep (generatePair s) (wait_step w Request).
Proof.
  intros [O B R W Se F]. unfold generatePair. rewrite O. cbn. split; cbn; rewrite ?length_app; cbn; [done|lia| | | |done].
  - rewrite R. replace (length (pr_pairs s) + 1 - (length (wt_waiting w) + 1))%nat with (length (pr_pairs s) - length (wt_waiting w))%nat by lia.
    rewrite seq_app. cbn. do 3 f_equal. lia.
  - replace (length (pr_pairs s) + 1 - (length (wt_waiting w) + 1))%nat with (length (pr_pairs s) - length (wt_waiting w))%nat by lia.
    rewrite drop_app_le, fmap_app, W by lia. done.
  - by rewrite Nat.add_1_r.
Qed.

Lemma response_rep s w : pairs_rep s w → ∃ s', consumePair s = Ok s' ∧ pairs_rep s' (wait_step w Response).
Proof.
  intros [O B R W Se F]. unfold consumePair. rewrite R. destruct (wt_waiting w) as [|o ws] eqn:Ew; cbn in *.
  - eexists. split; [done|]. split; cbn; rewrite ?Ew; cbn; try done; by rewrite app_nil_r.
  - assert (∃ pair, pr_pairs s !! (length (pr_pairs s) - S (length ws))%nat = Some pair) as [pair Ep] by (apply lookup_lt_is_Some; lia).
    rewrite (drop_S _ _ _ Ep) in W. cbn in W. injection W as Eo W. rewrite Ep. cbn. eexists. split; [done|].
    replace (S (length (pr_pairs s) - S (length ws)))%nat with (length (pr_pairs s) - length ws)%nat in * by lia.
    split; cbn; rewrite ?Ew; cbn; try done; [lia|]. rewrite Eo. destruct o; cbn; rewrite F; [done|by rewrite app_nil_r].
Qed.

Lemma pattern_rep s w p : pairs_rep s w → pr_pairs s ≠ [] → ∃ s', pairPattern s p = Ok s' ∧ pairs_rep s' (wait_step w (Pattern p)).
Proof.
  intros [O B R W Se F] N. unfold pairPattern. rewrite Se. destruct (length (pr_pairs s)) as [|n] eqn:L; [by apply nil_length_inv in L|].
  assert (∃ pair, pr_pairs s !! n = Some pair) as [pair Ep] by (apply lookup_lt_is_Some; lia). rewrite Ep. cbn. eexists. split; [done|].
  assert (Lw : length (match wt_waiting w with [] => [] | _ => <[pred (length (wt_waiting w)) := Some p]> (wt_waiting w) end) = length (wt_waiting w)).
  { destruct (wt_waiting w); [done|]. by rewrite length_insert. }
  split; cbn [pr_other pr_pairs pr_recv pr_send pr_vpt wt_waiting wt_found wait_step]; rewrite ?Lw, ?length_insert, ?L; try done.
  destruct (wt_waiting w) as [|o ws] eqn:Ew.
  - cbn. rewrite drop_insert_lt, drop_ge by lia. done.
  - rewrite drop_insert_ge, list_fmap_insert, W by (cbn in *; lia). cbn [np_patTransfer]. f_equal. cbn in *. lia.
Qed.

(** A pattern only after a first request. *)
Fixpoint after_request (ops : list PairOp) : Prop :=
  match ops with Pattern _ :: _ => False | Response :: ops => after_request ops | _ => True end.

Lemma run_rep s w ops : pairs_rep s w → pr_pairs s ≠ [] ∨ after_request ops → ∃ s', pair_run s ops = Ok s' ∧ pairs_rep s' (foldl wait_step w ops).
Proof.
  revert s w. induction ops as [|op ops IH]; intros s w P A; [by exists s|]. cbn [pair_run foldl]. destruct op as [|p|]; cbn [pair_step].
  - rewrite bind_Ok. apply IH; [by apply request_rep|]. left. unfold generatePair. rewrite (pp_other _ _ P). cbn. by destruct (pr_pairs s).
  - destruct A as [A|[]]. destruct (pattern_rep s w p P A) as (s1 & E & P1). rewrite E, bind_Ok. apply IH; [done|]. left.
    unfold pairPattern in E. destruct (pr_send s); [|done]. destruct (pr_pairs s !! _); [|done]. injection E as <-. cbn. intros Z%(f_equal length). rewrite length_insert in Z. by destruct (pr_pairs s).
  - destruct (response_rep s w P) as (s1 & E & P1). rewrite E, bind_Ok. apply IH; [done|]. destruct A as [A|A]; [left|by right].
    unfold consumePair in E. destruct (pr_recv s); [by injection E as <-|]. destruct (pr_pairs s !! _); [|done]. by injection E as <-.
Qed.

(** The patterns that requests put in their pairs are looked for from the responses on that
    answer them, in order: the pairs are a queue of the patterns of the requests that wait. *)
Theorem pairs_refine_queue id top ops : after_request ops →
  ∃ s, pair_run (MkPairs [] id true None [] (new_VPT top)) ops = Ok s ∧
    v_patRoots (pr_vpt s) = wt_found (foldl wait_step (MkWaiting [] []) ops) ∧
    (λ p, np_patTransfer <$> (pr_pairs s !! p)) <$> pr_recv s = Some <$> wt_waiting (foldl wait_step (MkWaiting [] []) ops).
Proof.
  intros A. destruct (run_rep (MkPairs [] id true None [] (new_VPT top)) (MkWaiting [] []) ops) as (s & E & [_ B R W _ F]); [by split|by right|].
  exists s. split_and!; [done|done|]. rewrite R. set (ws := wt_waiting _) in *. set (k := length ws) in *. clearbody k. rewrite <- W. clear -B.
  apply list_eq. intros i. rewrite !list_lookup_fmap, lookup_drop. destruct (decide (i < k)%nat).
  - rewrite lookup_seq_lt by done. cbn. destruct (pr_pairs s !! _) eqn:E; [done|]. apply lookup_ge_None in E. lia.
  - rewrite lookup_seq_ge by lia. cbn. rewrite lookup_ge_None_2 by lia. done.
Qed.

Lemma pairs_refine_queue_witness : ∃ s, pair_run (MkPairs [] 0 true None [] (new_VPT 0)) [Request; Pattern 7; Request; Response; Pattern 8; Response] = Ok s ∧
  v_patRoots (pr_vpt s) = [7%nat; 8%nat].
Proof. destruct (pairs_refine_queue 0 0 [Request; Pattern 7; Request; Response; Pattern 8; Response] I) as (s & E & F & _). exists s. by rewrite F. Defined.

(** A pattern put in a pair before the first request follows a pointer that was not set. *)
Example pattern_before_request : pairPattern (MkPairs [] 0 true None [] (new_VPT 0)) 7 = Ub.
Proof. reflexivity. Qed.
