(* ===== verification/Streams.v ===== *)
(** * parse/parse.h, gzip.cc, brotli.cc, blockexec.cc: the bodies of messages on their way

    A consumer is started, receives pieces and is finished.  Between the parser of HTTP
    and the parser of a body there can be a splitter, a decompressor, and [BlockExec],
    which passes on regions of the packets without looking at their bytes.  zlib and the
    brotli library are classes with the laws the code relies on. *)

From S2P Require Import Prelude.

(** ** Consumer *)

(** A packet that may be null. *)
Abbreviation PacketPtr := (option nat).

(** The calls act on a context [X]; [receive] returns an int. *)
Class Consumer (X C : Type) := {
  c_start : X → C → res (X * C);
  c_receive : X → C → PacketPtr → list Z → res (X * C * Z);
  c_finish : X → C → res (X * C);
}.

(** A call by way of a pointer. *)
Definition via_start {X C} `{Consumer X C} (x : X) (o : option C) : res (X * option C) :=
  c ← deref o; '(x, c) ← c_start x c; Ok (x, Some c).
Definition via_receive {X C} `{Consumer X C} (x : X) (o : option C) (packet : PacketPtr) (data : list Z) : res (X * option C * Z) :=
  c ← deref o; '(x, c, r) ← c_receive x c packet data; Ok (x, Some c, r).
Definition via_finish {X C} `{Consumer X C} (x : X) (o : option C) : res (X * option C) :=
  c ← deref o; '(x, c) ← c_finish x c; Ok (x, Some c).

(** ** Splitter *)

Record Splitter (C1 C2 : Type) := MkSplitter {
  sp_d1 : option C1;
  sp_d2 : option C2;
}.
Arguments MkSplitter {C1 C2} _ _.
Arguments sp_d1 {C1 C2} _.
Arguments sp_d2 {C1 C2} _.

Section Splitter.
Context {X C1 C2 : Type} `{!Consumer X C1} `{!Consumer X C2}.

Definition new_Splitter : Splitter C1 C2 := MkSplitter None None.

Definition setDest (s : Splitter C1 C2) (d1 : option C1) (d2 : option C2) : Splitter C1 C2 := MkSplitter d1 d2.

Definition splitter_start (x : X) (s : Splitter C1 C2) : res (X * Splitter C1 C2) :=
  '(x, d1) ← via_start x (sp_d1 s);
  '(x, d2) ← via_start x (sp_d2 s);
  Ok (x, MkSplitter d1 d2).

Definition splitter_receive (x : X) (s : Splitter C1 C2) (packet : PacketPtr) (data : list Z) : res (X * Splitter C1 C2 * Z) :=
  '(x, d1, _) ← via_receive x (sp_d1 s) packet data;
  '(x, d2, r) ← via_receive x (sp_d2 s) packet data;
  Ok (x, MkSplitter d1 d2, r).

Definition splitter_finish (x : X) (s : Splitter C1 C2) : res (X * Splitter C1 C2) :=
  '(x, d1) ← via_finish x (sp_d1 s);
  '(x, d2) ← via_finish x (sp_d2 s);
  Ok (x, MkSplitter d1 d2).

#[export] Instance splitter_consumer : Consumer X (Splitter C1 C2) := {|
  c_start := splitter_start;
  c_receive := splitter_receive;
  c_finish := splitter_finish;
|}.
End Splitter.

(** ** Gzip *)

Inductive ZResult := Z_OK | Z_STREAM_END | Z_NEED_DICT | Z_ERRNO | Z_STREAM_ERROR | Z_DATA_ERROR | Z_MEM_ERROR | Z_BUF_ERROR | Z_VERSION_ERROR.
Inductive ZFlush := Z_NO_FLUSH | Z_FINISH.

#[export] Instance zresult_eq_dec : EqDecision ZResult.
Proof. solve_decision. Defined.

(** [inflate stream next_in avail_out]: the bytes of the input that were used, and the output. *)
Class Zlib := {
  z_stream : Type;
  inflateInit2 : z_stream;
  inflate : z_stream → ZFlush → list Z → nat → z_stream * nat * list Z * ZResult;
  inflateEnd : z_stream → z_stream * ZResult;
  total_out : z_stream → Z;
}.

(** The stream has no value before [start]. *)
Record Gzip `{Zlib} (C : Type) := MkGzip {
  gz_output : option C;
  gz_destLen : nat;
  gz_stream : option z_stream;
}.
Arguments MkGzip {_} {C} _ _ _.
Arguments gz_output {_} {C} _.
Arguments gz_destLen {_} {C} _.
Arguments gz_stream {_} {C} _.

Section Gzip.
Context `{Zlib} {X C : Type} `{!Consumer X C}.
Implicit Type g : Gzip C.

Definition new_Gzip : Gzip C := MkGzip None (Z.to_nat 8192) None.

Definition gzip_destination g (parser : option C) : Gzip C := MkGzip parser (gz_destLen g) (gz_stream g).

Definition set_stream g (s : z_stream) : Gzip C := MkGzip (gz_output g) (gz_destLen g) (Some s).
Definition set_output g (o : option C) : Gzip C := MkGzip o (gz_destLen g) (gz_stream g).

Definition gzip_start (x : X) g : res (X * Gzip C) :=
  let g := set_stream g inflateInit2 in
  '(x, o) ← via_start x (gz_output g);
  Ok (x, set_output g o).

(** The bytes [inflate] left in [dest], if there are any. *)
Definition gzip_send (x : X) g (packet : PacketPtr) (out : list Z) : res (X * Gzip C) :=
  if (0 <? length out)%nat then
    '(x, o, _) ← via_receive x (gz_output g) packet out;
    Ok (x, set_output g o)
  else Ok (x, g).

Fixpoint decompressBuf (fuel : nat) (x : X) g (packet : PacketPtr) (buf : list Z) : res (X * Gzip C) :=
  match fuel with
  | O => Spin
  | S fuel =>
      stream ← deref (gz_stream g);
      let '(stream, used, out, err) := inflate stream Z_NO_FLUSH buf (gz_destLen g) in
      let g := set_stream g stream in
      match err with
      | Z_OK =>
          '(x, g) ← gzip_send x g packet out;
          if (length out =? gz_destLen g)%nat then decompressBuf fuel x g packet (drop used buf)
          else Ok (x, g)
      | Z_BUF_ERROR => Ok (x, g)
      | Z_STREAM_END => gzip_send x g packet out
      | _ => Ok (x, g)
      end
  end.

Definition gzip_finish (x : X) g : res (X * Gzip C) :=
  '(x, o) ← via_finish x (gz_output g);
  Ok (x, set_output g o).

(** [turns] bounds the loop of [decompressBuf]. *)
Definition gzip_receive (turns : nat) (x : X) g (packet : PacketPtr) (data : list Z) : res (X * Gzip C * Z) :=
  '(x, g) ← decompressBuf turns x g packet data;
  Ok (x, g, 0).

(** Lengths are uLong; [avail_in] and [avail_out] are uInt.  The result, the length stored
    in [destLen] and the bytes in [dest]. *)
Definition uncompress2 g (destLen : Z) (source : list Z) : res (Gzip C * ZResult * Z * list Z) :=
  stream ← deref (gz_stream g);
  let sourceLen := Z.of_nat (length source) in
  if negb (u32 sourceLen =? sourceLen) then Ok (g, Z_BUF_ERROR, destLen, [])
  else if negb (u32 destLen =? destLen) then Ok (g, Z_BUF_ERROR, destLen, [])
  else
    let '(stream, used, out, err) := inflate stream Z_FINISH source (Z.to_nat destLen) in
    if bool_decide (err ≠ Z_STREAM_END) then
      let '(stream, _) := inflateEnd stream in
      let g := set_stream g stream in
      if bool_decide (err = Z_NEED_DICT) || (bool_decide (err = Z_BUF_ERROR) && (length source - used =? 0)%nat) then Ok (g, Z_DATA_ERROR, destLen, out)
      else Ok (g, err, destLen, out)
    else
      let destLen := total_out stream in
      let '(stream, err) := inflateEnd stream in
      Ok (set_stream g stream, err, destLen, out).
End Gzip.

(** ** Brotli *)

Inductive BrotliDecoderResult := RESULT_ERROR | RESULT_SUCCESS | NEEDS_MORE_INPUT | NEEDS_MORE_OUTPUT.

#[export] Instance brotli_result_eq_dec : EqDecision BrotliDecoderResult.
Proof. solve_decision. Defined.

Class BrotliLib := {
  BrotliDecoderState : Type;
  BrotliDecoderCreateInstance : BrotliDecoderState;
  BrotliDecoderDecompressStream : BrotliDecoderState → list Z → nat → BrotliDecoderState * nat * list Z * BrotliDecoderResult;
  BrotliDecoderIsFinished : BrotliDecoderState → bool;
}.

(** [br_stream] is [None] before [start] and after the decoder was destroyed.
    [br_unfinished]: how often the decoder was found not to be finished. *)
Record Brotli `{BrotliLib} (C : Type) := MkBrotli {
  br_destLen : nat;
  br_output : option C;
  br_stream : option BrotliDecoderState;
  br_unfinished : nat;
}.
Arguments MkBrotli {_} {C} _ _ _ _.
Arguments br_destLen {_} {C} _.
Arguments br_output {_} {C} _.
Arguments br_stream {_} {C} _.
Arguments br_unfinished {_} {C} _.

Section Brotli.
Context `{BrotliLib} {X C : Type} `{!Consumer X C}.
Implicit Type b : Brotli C.

Definition new_Brotli : Brotli C := MkBrotli (Z.to_nat 8192) None None 0.

Definition brotli_destination b (parser : option C) : Brotli C := MkBrotli (br_destLen b) parser (br_stream b) (br_unfinished b).
Definition set_decoder b (s : option BrotliDecoderState) : Brotli C := MkBrotli (br_destLen b) (br_output b) s (br_unfinished b).
Definition set_brotli_output b (o : option C) : Brotli C := MkBrotli (br_destLen b) o (br_stream b) (br_unfinished b).

Definition brotli_start (x : X) b : res (X * Brotli C) :=
  let b := set_decoder b (Some BrotliDecoderCreateInstance) in
  '(x, o) ← via_start x (br_output b);
  Ok (x, set_brotli_output b o).

Definition brotli_send (x : X) b (packet : PacketPtr) (out : list Z) : res (X * Brotli C) :=
  if (0 <? length out)%nat then
    '(x, o, _) ← via_receive x (br_output b) packet out;
    Ok (x, set_brotli_output b o)
  else Ok (x, b).

Fixpoint brotli_loop (fuel : nat) (x : X) b (packet : PacketPtr) (data : list Z) : res (X * Brotli C) :=
  match fuel with
  | O => Spin
  | S fuel =>
      stream ← deref (br_stream b);
      let '(stream, used, out, res) := BrotliDecoderDecompressStream stream data (br_destLen b) in
      let b := set_decoder b (Some stream) in
      match res with
      | RESULT_ERROR => Ok (x, b)
      | RESULT_SUCCESS => brotli_send x b packet out
      | _ =>
          '(x, b) ← brotli_send x b packet out;
          if bool_decide (res = NEEDS_MORE_OUTPUT) then brotli_loop fuel x b packet (drop used data)
          else Ok (x, b)
      end
  end.

Definition brotli_receive (turns : nat) (x : X) b (packet : PacketPtr) (data : list Z) : res (X * Brotli C * Z) :=
  '(x, b) ← brotli_loop turns x b packet data;
  Ok (x, b, 0).

Definition brotli_finish (x : X) b : res (X * Brotli C) :=
  stream ← deref (br_stream b);
  let b := if BrotliDecoderIsFinished stream then b else MkBrotli (br_destLen b) (br_output b) (br_stream b) (S (br_unfinished b)) in
  '(x, o) ← via_finish x (br_output b);
  Ok (x, set_decoder (set_brotli_output b o) None).
End Brotli.

(** ** BlockExec *)

(** A pointer into the bytes of a packet; the packets are numbered as they come. *)
Record Cursor := MkCursor {
  cu_packet : nat;
  cu_bytes : list Z;
  cu_off : nat;
}.

(** [be_from] is [None] when it is null or was not set. *)
Record BlockExec (C : Type) := MkBlockExec {
  be_open : bool;
  be_output : option C;
  be_from : option Cursor;
}.
Arguments MkBlockExec {C} _ _ _.
Arguments be_open {C} _.
Arguments be_output {C} _.
Arguments be_from {C} _.

(** The bytes from [from], [data - from] of them: both are in one packet, or it is undefined. *)
Definition region (from : option Cursor) (data : Cursor) : res (list Z) :=
  f ← deref from;
  if decide (cu_packet f = cu_packet data ∧ (cu_off f ≤ cu_off data ≤ length (cu_bytes data))%nat)
  then Ok (take (cu_off data - cu_off f) (drop (cu_off f) (cu_bytes data))) else Ub.

Section BlockExec.
Context {X C : Type} `{!Consumer X C}.
Implicit Type b : BlockExec C.

Definition new_BlockExec : BlockExec C := MkBlockExec false None None.

Definition block_destination b (parser : option C) : BlockExec C := MkBlockExec (be_open b) parser (be_from b).

Definition block_start (x : X) b (data : Cursor) : res (X * BlockExec C) :=
  '(x, o) ← via_start x (be_output b);
  Ok (x, MkBlockExec true o (Some data)).

Definition preExec b (data : Cursor) : BlockExec C :=
  if be_open b then MkBlockExec (be_open b) (be_output b) (Some data) else b.

(** [output->receive( ctx, packet, from, data-from )] *)
Definition ship (x : X) b (packet : PacketPtr) (data : Cursor) : res (X * option C) :=
  bytes ← region (be_from b) data;
  '(x, o, _) ← via_receive x (be_output b) packet bytes;
  Ok (x, o).

Definition postExec (x : X) b (packet : PacketPtr) (data : Cursor) : res (X * BlockExec C) :=
  if be_open b then
    '(x, o) ← ship x b packet data;
    Ok (x, MkBlockExec (be_open b) o None)
  else Ok (x, b).

Definition pause (x : X) b (packet : PacketPtr) (data : Cursor) : res (X * BlockExec C) :=
  '(x, o) ← ship x b packet data;
  Ok (x, MkBlockExec false o (be_from b)).

Definition resume b (data : Cursor) : BlockExec C := MkBlockExec true (be_output b) (Some data).

(** The consumer is given back: [output] is 0 after it. *)
Definition block_close (x : X) b : res (X * BlockExec C * C) :=
  c ← deref (be_output b);
  '(x, c) ← c_finish x c;
  Ok (x, MkBlockExec false None None, c).

Definition block_finish (x : X) b (packet : PacketPtr) (data : Cursor) : res (X * BlockExec C * C) :=
  if be_open b then
    '(x, o) ← ship x b packet data;
    block_close x (MkBlockExec (be_open b) o (be_from b))
  else block_close x b.
End BlockExec.
