(* ===== verification/StreamsProps.v ===== *)
(** * The bodies of messages on their way: theorems

    A [Relay] is a chain of consumers of which it is known what the last one receives:
    a function of all the bytes the first one was given.  Consumers that record what they
    are given, splitters and decompressors over relays are relays. *)

From S2P Require Import Prelude Streams.

(** ** Decompressors *)

(** What a call of a decompressor says: it needs more input, it has filled the output, it
    has come to the end, it has failed. *)
Inductive Verdict := Hungry | Full | Ended | Failed.

(** The laws of a decompressor.  [cd_seen] and [cd_made] are what a state has used and made;
    [cd_dec] is the result for an input that may not be complete, and [cd_valid] holds of
    the beginnings of compressed data with anything behind their end. *)
Class CodecLaws {Dec : Type} (init : Dec) (call : Dec → list Z → nat → Dec * nat * list Z * Verdict) := {
  cd_seen : Dec → list Z;
  cd_made : Dec → list Z;
  cd_ended : Dec → bool;
  cd_dec : list Z → list Z;
  cd_valid : list Z → Prop;
  cd_init : cd_seen init = [] ∧ cd_made init = [] ∧ cd_ended init = false ∧ cd_dec [] = [];
  cd_valid_prefix : ∀ a b, cd_valid (a ++ b) → cd_valid a;
  cd_step : ∀ s inp n s' used out v, (0 < n)%nat → cd_ended s = false → cd_valid (cd_seen s ++ inp) →
    cd_made s `prefix_of` cd_dec (cd_seen s ++ inp) → call s inp n = (s', used, out, v) →
    (used ≤ length inp)%nat ∧ (length out ≤ n)%nat ∧ cd_seen s' = cd_seen s ++ take used inp ∧ cd_made s' = cd_made s ++ out ∧
    match v with
    | Hungry => cd_ended s' = false ∧ used = length inp ∧ cd_made s' = cd_dec (cd_seen s')
    | Full => cd_ended s' = false ∧ length out = n ∧ cd_made s' `prefix_of` cd_dec (cd_seen s ++ inp)
    | Ended => cd_ended s' = true ∧ ∀ more, cd_dec (cd_seen s' ++ more) = cd_made s'
    | Failed => False
    end;
  cd_grows : ∀ a b, cd_valid (a ++ b) → cd_dec a `prefix_of` cd_dec (a ++ b);
  cd_over : ∀ s inp n, cd_ended s = true → call s inp n = (s, O, [], Ended);
}.

Section Codec.
Context {Dec : Type} {init : Dec} {call : Dec → list Z → nat → Dec * nat * list Z * Verdict} `{!CodecLaws init call}.

(** Between calls: all that was given has been used, or the end was reached. *)
Definition codec_at (s : Dec) (inp : list Z) : Prop :=
  if cd_ended s then cd_seen s `prefix_of` inp ∧ ∀ more, cd_dec (cd_seen s ++ more) = cd_made s
  else cd_seen s = inp ∧ cd_made s = cd_dec inp.

Lemma codec_at_init : codec_at init [].
Proof. unfold codec_at. destruct cd_init as (-> & -> & -> & ->). done. Qed.

Lemma codec_at_made s inp : codec_at s inp → cd_made s = cd_dec inp.
Proof. unfold codec_at. destruct (cd_ended s); [|by intros [_ ->]]. intros [[more ->] E]. by rewrite E. Qed.

(** The loop of a decompressor: the pieces it makes of an input. *)
Fixpoint drain (fuel : nat) (n : nat) (s : Dec) (inp : list Z) : res (Dec * list (list Z)) :=
  match fuel with
  | O => Spin
  | S fuel =>
      let '(s, used, out, v) := call s inp n in
      match v with
      | Failed => Ok (s, [])
      | Full => '(s, ps) ← drain fuel n s (drop used inp); Ok (s, (if (0 <? length out)%nat then [out] else []) ++ ps)
      | _ => Ok (s, if (0 <? length out)%nat then [out] else [])
      end
  end.

Lemma piece_concat (out : list Z) : concat (if (0 <? length out)%nat then [out] else []) = out.
Proof. destruct out; [done|]. cbn. by rewrite app_nil_r. Qed.

Lemma piece_bound (out : list Z) n : (length out ≤ n)%nat → Forall (λ p, 0 < length p ≤ n)%nat (if (0 <? length out)%nat then [out] else []).
Proof. destruct out; [constructor|]. constructor; [cbn in *; lia|constructor]. Qed.

Lemma drain_running fuel n s all inp : (0 < n)%nat → cd_ended s = false → cd_seen s ++ inp = all → cd_valid all →
  cd_made s `prefix_of` cd_dec all → (length (cd_dec all) < fuel + length (cd_made s))%nat →
  ∃ s' ps, drain fuel n s inp = Ok (s', ps) ∧ cd_made s ++ concat ps = cd_dec all ∧ codec_at s' all ∧ Forall (λ p, 0 < length p ≤ n)%nat ps.
Proof.
  intros Hn. revert s inp. induction fuel as [|fuel IH]; intros s inp En <- V P F.
  { apply prefix_length in P. lia. }
  cbn [drain]. destruct (call s inp n) as [[[s1 used] out] v] eqn:E.
  destruct (cd_step s inp n s1 used out v Hn En V P E) as (U & L & Se & Ma & C). destruct v.
  - destruct C as (E1 & -> & D). rewrite take_ge in Se by done. eexists _, _. split; [done|]. rewrite piece_concat. split_and!; [by rewrite <- Ma, D, Se| |by apply piece_bound].
    unfold codec_at. rewrite E1. by rewrite D, Se.
  - destruct C as (E1 & D & P1). destruct (IH s1 (drop used inp)) as (s2 & ps & -> & M2 & A2 & B2).
    + done.
    + by rewrite Se, <- app_assoc, take_drop.
    + done.
    + done.
    + rewrite Ma, length_app. lia.
    + eexists _, _. split; [done|]. rewrite concat_app, piece_concat, app_assoc, <- Ma. split_and!; [done|done|]. apply Forall_app_2; [by apply piece_bound|done].
  - destruct C as (E1 & D). eexists _, _. split; [done|]. rewrite piece_concat, <- Ma.
    assert (cd_seen s ++ inp = cd_seen s1 ++ drop used inp) as -> by (by rewrite Se, <- app_assoc, take_drop).
    split_and!; [by rewrite D| |by apply piece_bound]. unfold codec_at. rewrite E1. split; [by eexists|done].
  - done.
Qed.

(** Whatever was given before, the pieces made of an input are all that can be made of it. *)
Lemma drain_spec fuel n s inp data : (0 < n)%nat → codec_at s inp → cd_valid (inp ++ data) → (length (cd_dec (inp ++ data)) < fuel)%nat →
  ∃ s' ps, drain fuel n s data = Ok (s', ps) ∧ cd_dec inp ++ concat ps = cd_dec (inp ++ data) ∧ codec_at s' (inp ++ data) ∧ Forall (λ p, 0 < length p ≤ n)%nat ps.
Proof.
  intros Hn A V F. pose proof (codec_at_made _ _ A) as M. unfold codec_at in A. destruct (cd_ended s) eqn:En.
  - destruct A as [[x ->] D]. destruct fuel; [lia|]. cbn [drain]. rewrite cd_over by done. eexists _, _. split; [done|]. cbn. rewrite app_nil_r.
    split_and!; [by rewrite <- app_assoc, !D| |constructor]. unfold codec_at. rewrite En. split; [|done]. rewrite <- app_assoc. by eexists.
  - destruct A as [Se _]. rewrite <- M. apply drain_running; try done; [by rewrite Se|rewrite M; by apply cd_grows|]. lia.
Qed.
End Codec.

(** ** Relays *)

(** A context that records what is done to it. *)
Abbreviation Trace A := (list A).

Class Relay {A C : Type} `{Consumer (Trace A) C} (f : list Z → list Z) (valid : list Z → Prop) := {
  rl_opening : list A;
  rl_closing : list A;
  rl_sent : list Z → list A;
  rl_idle : C → Prop;
  rl_at : C → list Z → Prop;
  rl_nil : f [] = [];
  rl_valid_prefix : ∀ a b, valid (a ++ b) → valid a;
  rl_start : ∀ t c, rl_idle c → ∃ c', c_start t c = Ok (t ++ rl_opening, c') ∧ rl_at c' [];
  rl_receive : ∀ t c packet inp data, rl_at c inp → valid (inp ++ data) → ∃ c' r ps,
    c_receive t c packet data = Ok (t ++ concat (rl_sent <$> ps), c', r) ∧ f inp ++ concat ps = f (inp ++ data) ∧ rl_at c' (inp ++ data);
  rl_finish : ∀ t c inp, rl_at c inp → ∃ c', c_finish t c = Ok (t ++ rl_closing, c') ∧ rl_idle c';
}.

(** A body given to a consumer piece by piece. *)
Fixpoint receive_all {X C} `{Consumer X C} (x : X) (c : C) (packet : PacketPtr) (pieces : list (list Z)) : res (X * C) :=
  match pieces with
  | [] => Ok (x, c)
  | p :: ps => '(x, c, _) ← c_receive x c packet p; receive_all x c packet ps
  end.

Definition relay {X C} `{Consumer X C} (x : X) (c : C) (packet : PacketPtr) (pieces : list (list Z)) : res (X * C) :=
  '(x, c) ← c_start x c;
  '(x, c) ← receive_all x c packet pieces;
  c_finish x c.

Section Relays.
Context {A C : Type} `{!Consumer (Trace A) C} {f : list Z → list Z} {valid : list Z → Prop} `{R : !Relay (A := A) (C := C) f valid}.

Lemma receive_all_spec t c packet inp pieces : rl_at c inp → valid (inp ++ concat pieces) →
  ∃ c' ps, receive_all t c packet pieces = Ok (t ++ concat (rl_sent <$> ps), c') ∧ f inp ++ concat ps = f (inp ++ concat pieces) ∧ rl_at c' (inp ++ concat pieces).
Proof.
  revert t c inp. induction pieces as [|p pieces IH]; intros t c inp Hat V; cbn in *.
  - exists c, []. cbn. by rewrite !app_nil_r.
  - rewrite app_assoc in V. destruct (rl_receive t c packet inp p Hat) as (c1 & r & ps1 & E & F1 & A1); [by apply rl_valid_prefix in V|].
    rewrite E, bind_Ok. destruct (IH (t ++ concat (rl_sent <$> ps1)) c1 (inp ++ p) A1 V) as (c2 & ps2 & -> & F2 & A2).
    exists c2, (ps1 ++ ps2). rewrite fmap_app, !concat_app, !app_assoc. by rewrite F1.
Qed.

Lemma relay_spec t c packet pieces : rl_idle c → valid (concat pieces) →
  ∃ c' ps, relay t c packet pieces = Ok (t ++ rl_opening ++ concat (rl_sent <$> ps) ++ rl_closing, c') ∧ concat ps = f (concat pieces) ∧ rl_idle c'.
Proof.
  intros I V. unfold relay. destruct (rl_start t c I) as (c1 & -> & A1). cbn [mbind res_bind].
  destruct (receive_all_spec (t ++ rl_opening) c1 packet [] pieces A1 V) as (c2 & ps & -> & F2 & A2). cbn [mbind res_bind].
  destruct (rl_finish ((t ++ rl_opening) ++ concat (rl_sent <$> ps)) c2 _ A2) as (c3 & -> & I3).
  exists c3, ps. rewrite rl_nil in F2. cbn in F2. by rewrite <- !app_assoc.
Qed.
End Relays.

(** *** A consumer that is recorded *)

(** The consumers at the end of the chains, told apart by a name. *)
Inductive Seen := SStart (who : bool) | SReceive (who : bool) (data : list Z) | SFinish (who : bool).

(** A recorded consumer: [Probe who], for a trace that holds what was [Seen]. *)
Record Probe := MkProbe { pb_who : bool }.

Section Probe.
Context {A : Type} (note : Seen → A).

#[local] Instance probe_consumer : Consumer (Trace A) Probe := {|
  c_start t c := Ok (t ++ [note (SStart (pb_who c))], c);
  c_receive t c packet data := Ok (t ++ [note (SReceive (pb_who c) data)], c, 0);
  c_finish t c := Ok (t ++ [note (SFinish (pb_who c))], c);
|}.

#[local] Program Instance probe_relay (who : bool) : Relay (A := A) (C := Probe) (λ b, b) (λ _, True) := {|
  rl_opening := [note (SStart who)];
  rl_closing := [note (SFinish who)];
  rl_sent p := [note (SReceive who p)];
  rl_idle c := pb_who c = who;
  rl_at c _ := pb_who c = who;
|}.
Next Obligation. done. Qed.
Next Obligation. done. Qed.
Next Obligation. intros who t c <-. by eexists. Qed.
Next Obligation. intros who t c packet inp data <- _. eexists _, _, [data]. cbn. by rewrite app_nil_r. Qed.
Next Obligation. intros who t c inp <-. by eexists. Qed.
End Probe.

(** *** Splitters *)

Section SplitRelay.
Context {A C1 C2 : Type} `{!Consumer (Trace A) C1} `{!Consumer (Trace A) C2}.

(** Both get the pieces the splitter gets, the first one first. *)
Context `{R1 : !Relay (A := A) (C := C1) (λ b, b) (λ _, True)} `{R2 : !Relay (A := A) (C := C2) (λ b, b) (λ _, True)}.
Context (One1 : ∀ t c packet inp data, rl_at (Relay := R1) c inp → ∃ c' r, c_receive t c packet data = Ok (t ++ rl_sent (Relay := R1) data, c', r) ∧ rl_at c' (inp ++ data)).
Context (One2 : ∀ t c packet inp data, rl_at (Relay := R2) c inp → ∃ c' r, c_receive t c packet data = Ok (t ++ rl_sent (Relay := R2) data, c', r) ∧ rl_at c' (inp ++ data)).

Definition ends_at (P : C1 → Prop) (Q : C2 → Prop) (s : Splitter C1 C2) : Prop :=
  ∃ c1 c2, s = MkSplitter (Some c1) (Some c2) ∧ P c1 ∧ Q c2.

#[local] Program Instance splitter_relay : Relay (A := A) (C := Splitter C1 C2) (λ b, b) (λ _, True) := {|
  rl_opening := rl_opening (Relay := R1) ++ rl_opening (Relay := R2);
  rl_closing := rl_closing (Relay := R1) ++ rl_closing (Relay := R2);
  rl_sent p := rl_sent (Relay := R1) p ++ rl_sent (Relay := R2) p;
  rl_idle := ends_at rl_idle rl_idle;
  rl_at s inp := ends_at (λ c, rl_at c inp) (λ c, rl_at c inp) s;
|}.
Next Obligation. done. Qed.
Next Obligation. done. Qed.
Next Obligation.
  intros t s (c1 & c2 & -> & I1 & I2). destruct (rl_start (Relay := R1) t c1 I1) as (d1 & E1 & A1).
  cbn. unfold splitter_start. cbn. rewrite E1. cbn. destruct (rl_start (Relay := R2) (t ++ rl_opening (Relay := R1)) c2 I2) as (d2 & -> & A2).
  cbn. rewrite <- app_assoc. eexists. split; [done|]. by exists d1, d2.
Qed.
Next Obligation.
  intros t s packet inp data (c1 & c2 & -> & I1 & I2) _. destruct (One1 t c1 packet inp data I1) as (d1 & r1 & E1 & A1).
  cbn. unfold splitter_receive. cbn. rewrite E1. cbn. destruct (One2 (t ++ rl_sent (Relay := R1) data) c2 packet inp data I2) as (d2 & r2 & -> & A2).
  cbn. eexists _, _, [data]. cbn. rewrite !app_nil_r, <- app_assoc. split; [done|]. split; [done|]. by exists d1, d2.
Qed.
Next Obligation.
  intros t s inp (c1 & c2 & -> & I1 & I2). destruct (rl_finish (Relay := R1) t c1 inp I1) as (d1 & E1 & A1).
  cbn. unfold splitter_finish. cbn. rewrite E1. cbn. destruct (rl_finish (Relay := R2) (t ++ rl_closing (Relay := R1)) c2 inp I2) as (d2 & -> & A2).
  cbn. rewrite <- app_assoc. eexists. split; [done|]. by exists d1, d2.
Qed.
End SplitRelay.

(** *** zlib *)

Definition zverdict (n : nat) (out : list Z) (err : ZResult) : Verdict :=
  match err with
  | Z_OK => if (length out =? n)%nat then Full else Hungry
  | Z_BUF_ERROR => Hungry
  | Z_STREAM_END => Ended
  | _ => Failed
  end.

Definition zcall `{Zlib} (s : z_stream) (inp : list Z) (n : nat) : z_stream * nat * list Z * Verdict :=
  let '(s, used, out, err) := inflate s Z_NO_FLUSH inp n in (s, used, out, zverdict n out err).

(** [Z_BUF_ERROR]: no progress was possible. *)
Class ZlibLaws `{Zlib} := {
  zl_codec :: CodecLaws inflateInit2 zcall;
  zl_buf_error : ∀ s inp n, (inflate s Z_NO_FLUSH inp n).2 = Z_BUF_ERROR → (inflate s Z_NO_FLUSH inp n).1.2 = [];
}.

Lemma receive_all_app {X C} `{Consumer X C} (x : X) (c : C) packet ps qs :
  receive_all x c packet (ps ++ qs) = '(x, c) ← receive_all x c packet ps; receive_all x c packet qs.
Proof. revert x c. induction ps as [|p ps IH]; intros x c; cbn; [done|]. destruct (c_receive x c packet p) as [[[x1 c1] r]| |]; cbn; [apply IH|done..]. Qed.

Section GzipRelay.
Context `{ZlibLaws} {A C : Type} `{!Consumer (Trace A) C} {f : list Z → list Z} {valid : list Z → Prop} `{R : !Relay (A := A) (C := C) f valid}.
Variable turns : nat.

Lemma gzip_send_spec t c n s packet out : gzip_send t (MkGzip (Some c) n (Some s)) packet out =
  '(t, c) ← receive_all t c packet (if (0 <? length out)%nat then [out] else []); Ok (t, MkGzip (C := C) (Some c) n (Some s)).
Proof. unfold gzip_send. destruct (_ <? _)%nat; [|done]. cbn. by destruct (c_receive t c packet out) as [[[? ?] ?]| |]. Qed.

(** The loop of [decompressBuf] hands on the pieces of [drain]. *)
Lemma decompressBuf_drain fuel n t c s packet buf s' ps t' c' : (0 < n)%nat →
  drain (call := zcall) fuel n s buf = Ok (s', ps) → receive_all t c packet ps = Ok (t', c') →
  decompressBuf fuel t (MkGzip (Some c) n (Some s)) packet buf = Ok (t', MkGzip (C := C) (Some c') n (Some s')).
Proof.
  intros Hn. revert t c s buf ps. induction fuel as [|fuel IH]; intros t c s buf ps D Rc; [done|]. cbn [drain decompressBuf] in *. unfold zcall in D at 1.
  cbn [gz_stream deref gz_destLen]. rewrite bind_Ok. pose proof (zl_buf_error s buf n) as B. destruct (inflate s Z_NO_FLUSH buf n) as [[[s1 used] out] err] eqn:E. cbn in B.
  unfold set_stream. cbn [gz_output gz_destLen]. destruct err; cbn [zverdict] in D.
  - destruct (_ =? _)%nat eqn:F.
    + apply bind_Ok_inv in D as ([s2 qs] & D & [= <- <-]). rewrite receive_all_app in Rc. apply bind_Ok_inv in Rc as ([t1 c1] & R1 & R2).
      rewrite gzip_send_spec, R1. cbn. rewrite F. by eapply IH.
    + injection D as <- <-. rewrite gzip_send_spec, Rc. cbn. by rewrite F.
  - injection D as <- <-. by rewrite gzip_send_spec, Rc.
  - by injection D as <- <-; injection Rc as <- <-.
  - by injection D as <- <-; injection Rc as <- <-.
  - by injection D as <- <-; injection Rc as <- <-.
  - by injection D as <- <-; injection Rc as <- <-.
  - by injection D as <- <-; injection Rc as <- <-.
  - rewrite (B eq_refl) in D. by injection D as <- <-; injection Rc as <- <-.
  - by injection D as <- <-; injection Rc as <- <-.
Qed.

#[local] Instance gzip_consumer : Consumer (Trace A) (Gzip C) := {|
  c_start := gzip_start;
  c_receive := gzip_receive turns;
  c_finish := gzip_finish;
|}.

Abbreviation gunzip := (cd_dec (call := zcall)).

Definition gzip_at (g : Gzip C) (inp : list Z) : Prop :=
  ∃ c s, g = MkGzip (Some c) (Z.to_nat 8192) (Some s) ∧ codec_at s inp ∧ rl_at c (gunzip inp).

#[local] Program Instance gzip_relay : Relay (A := A) (C := Gzip C) (λ b, f (gunzip b))
  (λ b, cd_valid (call := zcall) b ∧ (length (gunzip b) < turns)%nat ∧ valid (gunzip b)) := {|
  rl_opening := rl_opening (Relay := R);
  rl_closing := rl_closing (Relay := R);
  rl_sent := rl_sent (Relay := R);
  rl_idle g := ∃ c s, g = MkGzip (Some c) (Z.to_nat 8192) s ∧ rl_idle c;
  rl_at := gzip_at;
|}.
Next Obligation. destruct cd_init as (_ & _ & _ & ->). apply rl_nil. Qed.
Next Obligation.
  intros a b (V & L & W). pose proof (cd_grows a b V) as [x E]. split_and!; [by eapply cd_valid_prefix| |].
  - rewrite E, length_app in L. lia.
  - rewrite E in W. by eapply rl_valid_prefix.
Qed.
Next Obligation.
  intros t g (c & s & -> & I). destruct (rl_start t c I) as (c1 & E & A1). cbn. unfold gzip_start. cbn. rewrite E. cbn.
  eexists. split; [done|]. exists c1, inflateInit2. split_and!; [done|apply codec_at_init|]. by destruct cd_init as (_ & _ & _ & ->).
Qed.
Next Obligation.
  intros t g packet inp data (c & s & -> & Ac & Ar) (V & L & W). destruct (drain_spec turns (Z.to_nat 8192) s inp data) as (s1 & ps & D & M & A1 & _); try done; [lia|].
  destruct (receive_all_spec t c packet (gunzip inp) ps) as (c1 & qs & Rc & F & A2); [done|by rewrite M|]. rewrite M in F, A2.
  exists (MkGzip (Some c1) (Z.to_nat 8192) (Some s1)), 0, qs. cbn. unfold gzip_receive.
  rewrite (decompressBuf_drain turns (Z.to_nat 8192) t c s packet data s1 ps _ c1 ltac:(lia) D Rc). split_and!; [done|done|]. by exists c1, s1.
Qed.
Next Obligation.
  intros t g inp (c & s & -> & Ac & Ar). destruct (rl_finish t c _ Ar) as (c1 & E & I). cbn. unfold gzip_finish. cbn. rewrite E. cbn. eexists. split; [done|]. by exists c1, (Some s).
Qed.
End GzipRelay.

(** *** The brotli library *)

Definition bverdict (r : BrotliDecoderResult) : Verdict :=
  match r with RESULT_ERROR => Failed | RESULT_SUCCESS => Ended | NEEDS_MORE_INPUT => Hungry | NEEDS_MORE_OUTPUT => Full end.

Definition bcall `{BrotliLib} (s : BrotliDecoderState) (inp : list Z) (n : nat) : BrotliDecoderState * nat * list Z * Verdict :=
  let '(s, used, out, r) := BrotliDecoderDecompressStream s inp n in (s, used, out, bverdict r).

Class BrotliLaws `{BrotliLib} := { bl_codec :: CodecLaws BrotliDecoderCreateInstance bcall }.

Section BrotliRelay.
Context `{BrotliLaws} {A C : Type} `{!Consumer (Trace A) C} {f : list Z → list Z} {valid : list Z → Prop} `{R : !Relay (A := A) (C := C) f valid}.
Variable turns : nat.

Lemma brotli_send_spec t c n s packet out u : brotli_send t (MkBrotli n (Some c) (Some s) u) packet out =
  '(t, c) ← receive_all t c packet (if (0 <? length out)%nat then [out] else []); Ok (t, MkBrotli (C := C) n (Some c) (Some s) u).
Proof. unfold brotli_send. destruct (_ <? _)%nat; [|done]. cbn. by destruct (c_receive t c packet out) as [[[? ?] ?]| |]. Qed.

Lemma brotli_loop_drain fuel n t c s packet buf s' ps t' c' u : drain (call := bcall) fuel n s buf = Ok (s', ps) → receive_all t c packet ps = Ok (t', c') →
  brotli_loop fuel t (MkBrotli n (Some c) (Some s) u) packet buf = Ok (t', MkBrotli (C := C) n (Some c') (Some s') u).
Proof.
  revert t c s buf ps. induction fuel as [|fuel IH]; intros t c s buf ps D Rc; [done|]. cbn [drain brotli_loop] in *. unfold bcall in D at 1.
  cbn [br_stream deref br_destLen]. rewrite bind_Ok. destruct (BrotliDecoderDecompressStream s buf n) as [[[s1 used] out] r].
  unfold set_decoder. cbn [br_output br_destLen br_unfinished]. destruct r; cbn [bverdict] in D.
  - by injection D as <- <-; injection Rc as <- <-.
  - injection D as <- <-. by rewrite brotli_send_spec, Rc.
  - injection D as <- <-. rewrite brotli_send_spec, Rc. done.
  - apply bind_Ok_inv in D as ([s2 qs] & D & [= <- <-]). rewrite receive_all_app in Rc. apply bind_Ok_inv in Rc as ([t1 c1] & R1 & R2).
    rewrite brotli_send_spec, R1. cbn. by eapply IH.
Qed.

#[local] Instance brotli_consumer : Consumer (Trace A) (Brotli C) := {|
  c_start := brotli_start;
  c_receive := brotli_receive turns;
  c_finish := brotli_finish;
|}.

Abbreviation unbrotli := (cd_dec (call := bcall)).

Definition brotli_at (b : Brotli C) (inp : list Z) : Prop :=
  ∃ c s u, b = MkBrotli (Z.to_nat 8192) (Some c) (Some s) u ∧ codec_at s inp ∧ rl_at c (unbrotli inp).

#[local] Program Instance brotli_relay : Relay (A := A) (C := Brotli C) (λ b, f (unbrotli b))
  (λ b, cd_valid (call := bcall) b ∧ (length (unbrotli b) < turns)%nat ∧ valid (unbrotli b)) := {|
  rl_opening := rl_opening (Relay := R);
  rl_closing := rl_closing (Relay := R);
  rl_sent := rl_sent (Relay := R);
  rl_idle b := ∃ c s u, b = MkBrotli (Z.to_nat 8192) (Some c) s u ∧ rl_idle c;
  rl_at := brotli_at;
|}.
Next Obligation. destruct cd_init as (_ & _ & _ & ->). apply rl_nil. Qed.
Next Obligation.
  intros a b (V & L & W). pose proof (cd_grows a b V) as [x E]. split_and!; [by eapply cd_valid_prefix| |].
  - rewrite E, length_app in L. lia.
  - rewrite E in W. by eapply rl_valid_prefix.
Qed.
Next Obligation.
  intros t b (c & s & u & -> & I). destruct (rl_start t c I) as (c1 & E & A1). cbn. unfold brotli_start. cbn. rewrite E. cbn.
  eexists. split; [done|]. exists c1, BrotliDecoderCreateInstance, u. split_and!; [done|apply codec_at_init|]. by destruct cd_init as (_ & _ & _ & ->).
Qed.
Next Obligation.
  intros t b packet inp data (c & s & u & -> & Ac & Ar) (V & L & W). destruct (drain_spec turns (Z.to_nat 8192) s inp data) as (s1 & ps & D & M & A1 & _); try done; [lia|].
  destruct (receive_all_spec t c packet (unbrotli inp) ps) as (c1 & qs & Rc & F & A2); [done|by rewrite M|]. rewrite M in F, A2.
  exists (MkBrotli (Z.to_nat 8192) (Some c1) (Some s1) u), 0, qs. cbn. unfold brotli_receive.
  rewrite (brotli_loop_drain turns (Z.to_nat 8192) t c s packet data s1 ps _ c1 u D Rc). split_and!; [done|done|]. by exists c1, s1, u.
Qed.
Next Obligation.
  intros t b inp (c & s & u & -> & Ac & Ar). destruct (rl_finish t c _ Ar) as (c1 & E & I). cbn. unfold brotli_finish. cbn.
  destruct (BrotliDecoderIsFinished s); cbn; rewrite E; cbn; eexists; (split; [done|]); by eexists _, None, _.
Qed.
End BrotliRelay.

(** *** Relays as cases of a larger type *)

Section Embed.
Context {A C C' : Type} `{!Consumer (Trace A) C} `{!Consumer (Trace A) C'} (e : C → C').
Context {f : list Z → list Z} {valid : list Z → Prop} `{R : !Relay (A := A) (C := C) f valid}.
Context (Start : ∀ (t : Trace A) c, c_start t (e c) = '(t, c) ← c_start t c; Ok (t, e c)).
Context (Receive : ∀ (t : Trace A) c packet d, c_receive t (e c) packet d = '(t, c, r) ← c_receive t c packet d; Ok (t, e c, r)).
Context (Finish : ∀ (t : Trace A) c, c_finish t (e c) = '(t, c) ← c_finish t c; Ok (t, e c)).

#[local] Program Instance embed_relay : Relay (A := A) (C := C') f valid := {|
  rl_opening := rl_opening (Relay := R);
  rl_closing := rl_closing (Relay := R);
  rl_sent := rl_sent (Relay := R);
  rl_idle c' := ∃ c, c' = e c ∧ rl_idle c;
  rl_at c' inp := ∃ c, c' = e c ∧ rl_at c inp;
|}.
Next Obligation. apply rl_nil. Qed.
Next Obligation. intros a b. apply rl_valid_prefix. Qed.
Next Obligation. intros t c' (c & -> & I). rewrite Start. destruct (rl_start t c I) as (d & -> & Hd). cbn. eexists. split; [done|]. by exists d. Qed.
Next Obligation.
  intros t c' packet inp data (c & -> & I) V. rewrite Receive. destruct (rl_receive t c packet inp data I V) as (d & r & ps & -> & F & Hd). cbn.
  eexists _, _, ps. split; [done|]. split; [done|]. by exists d.
Qed.
Next Obligation. intros t c' inp (c & -> & I). rewrite Finish. destruct (rl_finish t c inp I) as (d & -> & Hd). cbn. eexists. split; [done|]. by exists d. Qed.
End Embed.
