(* ===== verification/HttpRsp.v ===== *)
(** * parse/httprsp.rl, httpreq.rl: the parsers of HTTP

    The machines are written out state by state; the actions on a byte change what the
    parser keeps and make calls, which are listed as commands in the order they are made:
    what a parser keeps does not depend on the calls.  [receive] runs the commands on the
    tree, on the source of requests and on the block of the body. *)

From Stdlib Require Import String.
From S2P Require Import Prelude ConnState Vpt Tender Streams.

(** ** Strings *)

(** [strncasecmp( a, b, length of b ) == 0] for a literal. *)
Definition starts_nocase (a b : list Z) : bool := bool_decide (lower <$> take (length b) (cstr a) = lower <$> b).
Definition starts_with (a b : list Z) : bool := bool_decide (take (length b) a = b).

(** [strchr( s, c )] as an offset. *)
Fixpoint chr_at (s : list Z) (c : Z) : option nat :=
  match s with
  | [] => None
  | x :: s => if x =? c then Some O else if x =? 0 then None else S <$> chr_at s c
  end.

Definition is_digit (c : Z) : bool := (48 <=? c) && (c <=? 57).
Definition is_space (c : Z) : bool := (c =? 32) || ((9 <=? c) && (c <=? 13)).
Definition is_hex (c : Z) : bool := is_digit c || ((65 <=? c) && (c <=? 70)) || ((97 <=? c) && (c <=? 102)).
Definition hex_val (c : Z) : Z := if is_digit c then c - 48 else lower c - 87.

Fixpoint digits (acc : Z) (s : list Z) : Z :=
  match s with
  | c :: s => if is_digit c then digits (acc * 10 + (c - 48)) s else acc
  | [] => acc
  end.
Fixpoint skip_space (s : list Z) : list Z :=
  match s with c :: s' => if is_space c then skip_space s' else s | [] => [] end.

(** [atoi]: the value of strtol, which stops at the ends of a long, as an int. *)
Definition to_long (z : Z) : Z := Z.max (- 2 ^ 63) (Z.min (2 ^ 63 - 1) z).
Definition atoi (s : list Z) : Z :=
  match skip_space s with
  | c :: s' => if c =? 45 then i32 (to_long (- digits 0 s')) else if c =? 43 then i32 (to_long (digits 0 s')) else i32 (to_long (digits 0 (c :: s')))
  | [] => 0
  end.
(** [strtol( s, 0, 16 )] of hexadecimal digits, as an int. *)
Definition strtol16 (s : list Z) : Z := i32 (to_long (foldl (λ acc c, acc * 16 + hex_val c) 0 s)).

(** ** The parser of responses *)

Inductive ContentType := Unspecified | Other | ApplicationJson.

(** The states of the machine: of the status line, of headers, of the empty line, of the
    bodies with a length, with no end, in chunks, and of the lines between chunks. *)
Inductive RspState :=
  | RError
  | RMain | RWord1 | RSpace1 | RWord2 | RSpace2 | RReason | RReasonCr | RStatus
  | RName | RColon | RValue | RValueCr | RHeader | REmptyCr
  | RLength0 | RLength | RAll0 | RAll
  | RFirst0 | RFirst | RNext0 | RNext
  | RChunk0 | RChunkCr | RChunkHex | RChunkSemi | RChunkExt | RChunkExtCr.

#[export] Instance rsp_state_eq_dec : EqDecision RspState.
Proof. solve_decision. Defined.

(** What the parser keeps apart from what it calls. *)
Record Rsp := MkRsp {
  rp_cs : RspState;
  rp_buf : list Z;
  rp_buf1 : list Z;
  rp_buf2 : list Z;
  rp_contentLength : Z;
  rp_chunkLength : Z;
  rp_isGzipped : bool;
  rp_isBrotli : bool;
  rp_isChunked : bool;
  rp_isConnectionClose : bool;
  rp_chunks : Z;
  rp_wantCookies : bool;
  rp_cookies : gmap (list Z) (list Z);
  rp_wantLocation : bool;
  rp_location : list Z;
}.

(** The calls, in the order they are made. [CGenerate]: [generatePair]; [CConsumer]:
    [setConsumer( this )]; [CPair]: [consumePair]; [CFinish after]: [bodyBlock.finish] with [p], or
    with [p + 1]; [CDest]: [bodyBlock.destination( destination() )]. *)
Inductive Cmd :=
  | CGenerate
  | CConsumer
  | CPair
  | CPush (type : NodeType)
  | CPop (type : NodeType)
  | CText (text : list Z)
  | CType (type : ContentType)
  | CDest (gzip brotli : bool)
  | CStart
  | CPause
  | CResume
  | CPreFinish
  | CFinish (after : bool)
  | CComplete.

Section Response.
Implicit Type s : Rsp.

Definition goto s (cs : RspState) : Rsp :=
  MkRsp cs (rp_buf s) (rp_buf1 s) (rp_buf2 s) (rp_contentLength s) (rp_chunkLength s) (rp_isGzipped s) (rp_isBrotli s) (rp_isChunked s) (rp_isConnectionClose s) (rp_chunks s)
    (rp_wantCookies s) (rp_cookies s) (rp_wantLocation s) (rp_location s).
Definition set_bufs s (b b1 b2 : list Z) : Rsp :=
  MkRsp (rp_cs s) b b1 b2 (rp_contentLength s) (rp_chunkLength s) (rp_isGzipped s) (rp_isBrotli s) (rp_isChunked s) (rp_isConnectionClose s) (rp_chunks s)
    (rp_wantCookies s) (rp_cookies s) (rp_wantLocation s) (rp_location s).
Definition set_lengths s (content chunk : Z) (chunks : Z) : Rsp :=
  MkRsp (rp_cs s) (rp_buf s) (rp_buf1 s) (rp_buf2 s) content chunk (rp_isGzipped s) (rp_isBrotli s) (rp_isChunked s) (rp_isConnectionClose s) chunks
    (rp_wantCookies s) (rp_cookies s) (rp_wantLocation s) (rp_location s).
Definition set_flags s (gzip brotli chunked close : bool) : Rsp :=
  MkRsp (rp_cs s) (rp_buf s) (rp_buf1 s) (rp_buf2 s) (rp_contentLength s) (rp_chunkLength s) gzip brotli chunked close (rp_chunks s)
    (rp_wantCookies s) (rp_cookies s) (rp_wantLocation s) (rp_location s).
Definition set_found s (cookies : gmap (list Z) (list Z)) (location : list Z) : Rsp :=
  MkRsp (rp_cs s) (rp_buf s) (rp_buf1 s) (rp_buf2 s) (rp_contentLength s) (rp_chunkLength s) (rp_isGzipped s) (rp_isBrotli s) (rp_isChunked s) (rp_isConnectionClose s) (rp_chunks s)
    (rp_wantCookies s) cookies (rp_wantLocation s) location.

Definition clear s : Rsp := set_bufs s [] (rp_buf1 s) (rp_buf2 s).
Definition clear1 s : Rsp := set_bufs s (rp_buf s) [] (rp_buf2 s).
Definition clear2 s : Rsp := set_bufs s (rp_buf s) (rp_buf1 s) [].
Definition buf s (c : Z) : Rsp := set_bufs s (rp_buf s ++ [c]) (rp_buf1 s) (rp_buf2 s).
Definition buf1 s (c : Z) : Rsp := set_bufs s (rp_buf s) (rp_buf1 s ++ [c]) (rp_buf2 s).
Definition buf2 s (c : Z) : Rsp := set_bufs s (rp_buf s) (rp_buf1 s) (rp_buf2 s ++ [c]).

(** *** Actions *)

(** At the end of the status line. *)
Definition uri s : Rsp * list Cmd :=
  let s := set_lengths s (-1) (rp_chunkLength s) 0 in
  let s := set_flags s false false false false in
  let s := buf s 0 in
  (clear s, [CPair; CType Unspecified; CPush HttpResponse; CPush HttpHead]).

(** A cookie: its name is before the first equals sign of the text up to a semicolon. *)
Definition cookie s : res Rsp :=
  match chr_at (rp_buf s) 59 with
  | None => Ok s
  | Some p =>
      if (p <? 12)%nat then Ub
      else
        let c := take (p - 12) (drop 12 (rp_buf s)) in
        match chr_at c 61 with
        | None => Ok s
        | Some e => Ok (set_found s (<[cstr (take e c) := cstr c]> (rp_cookies s)) (rp_location s))
        end
  end.

(** A redirection: the path, from the first slash behind the scheme up to the return.  A
    line without a return, or a pointer behind the buffer, is undefined. *)
Definition find_location s : res Rsp :=
  match chr_at (drop 10 (rp_buf s)) 58 with
  | None => Ok s
  | Some p =>
      let rest := drop (10 + p) (rp_buf s) in
      if (length rest <=? 3)%nat then Ub
      else match chr_at (drop 3 rest) 47 with
      | None => Ok s
      | Some q =>
          match chr_at (drop (3 + q) rest) 13 with
          | None => Ub
          | Some e => Ok (set_found s (rp_cookies s) (take e (drop (3 + q) rest)))
          end
      end
  end.

(** The tests of a header [b], one by one. *)
Definition named (b name : list Z) : bool := (Z.of_nat (length name) <=? Z.of_nat (length b)) && starts_nocase b name.

Definition content_length s (b : list Z) : Rsp :=
  if named b (lit "Content-Length:") then set_lengths s (atoi (cstr (drop 15 b))) (rp_chunkLength s) (rp_chunks s) else s.
Definition connection s (b : list Z) : Rsp :=
  if named b (lit "Connection:") then if strstr (cstr b) (lit "close") then set_flags s (rp_isGzipped s) (rp_isBrotli s) (rp_isChunked s) true else s else s.
Definition content_encoding s (b : list Z) : Rsp :=
  if named b (lit "Content-Encoding:") then
    let s := if strstr (cstr b) (lit "gzip") then set_flags s true (rp_isBrotli s) (rp_isChunked s) (rp_isConnectionClose s) else s in
    if strstr (cstr b) (lit "br") then set_flags s (rp_isGzipped s) true (rp_isChunked s) (rp_isConnectionClose s) else s
  else s.
Definition transfer_encoding s (b : list Z) : Rsp :=
  if named b (lit "Transfer-Encoding:") then if strstr (cstr b) (lit "chunked") then set_flags s (rp_isGzipped s) (rp_isBrotli s) true (rp_isConnectionClose s) else s else s.
Definition set_cookie s (b : list Z) : res Rsp :=
  if rp_wantCookies s && named b (lit "Set-Cookie:") then cookie s else Ok s.
Definition set_location s (b : list Z) : res Rsp :=
  if rp_wantLocation s && ((9 <=? Z.of_nat (length b)) && starts_with b (lit "Location:")) then find_location s else Ok s.
Definition content_type (b : list Z) : list Cmd :=
  if (15 <=? Z.of_nat (length b)) && starts_with b (lit "Content-Type:") then
    [CType (if strstr (cstr (drop 13 b)) (lit "application/json") then ApplicationJson else Other)]
  else [].

(** The nodes of a header. *)
Definition header_nodes (name value : list Z) : list Cmd :=
  [CPush HttpHeader; CPush HttpHeaderName; CText name; CPop HttpHeaderName; CPush HttpHeaderValue; CText value; CPop HttpHeaderValue; CPop HttpHeader].

(** At the end of a header. *)
Definition header s : res (Rsp * list Cmd) :=
  let s := buf (buf2 (buf1 s 0) 0) 0 in
  let b := rp_buf s in
  s ← set_cookie (transfer_encoding (content_encoding (connection (content_length s b) b) b) b) b;
  s ← set_location s b;
  Ok (clear s, content_type b ++ header_nodes (cstr (rp_buf1 s)) (cstr (rp_buf2 s))).

(** At the end of the head: where to go, unless it stays in [main]. *)
Definition fin s : Rsp * list Cmd :=
  if rp_contentLength s =? 0 then
    (goto (set_flags s false false (rp_isChunked s) (rp_isConnectionClose s)) RMain,
      [CPop HttpHead; CDest false false; CStart; CFinish false; CPop HttpResponse])
  else if 0 <? rp_contentLength s then (goto s RLength0, [CPop HttpHead])
  else if rp_isChunked s then (goto s RChunk0, [CPop HttpHead])
  else if rp_isConnectionClose s then (goto s RAll0, [CPop HttpHead])
  else (goto s RMain, [CPop HttpHead; CPop HttpResponse]).

Definition dest s : Cmd := CDest (rp_isGzipped s) (rp_isBrotli s).
Definition bodyBlockFinish : list Cmd := [CPreFinish; CFinish true; CComplete].

(** Arithmetic on an int that leaves its range is undefined. *)
Definition in_int (n : Z) : res Z := if (- 2 ^ 31 <=? n) && (n <? 2 ^ 31) then Ok n else Ub.

Lemma in_int_inv n m : in_int n = Ok m → m = n ∧ - 2 ^ 31 ≤ n < 2 ^ 31.
Proof. unfold in_int. destruct (Z.leb_spec (- 2 ^ 31) n), (Z.ltb_spec n (2 ^ 31)); cbn; intros [= <-]; lia. Qed.

Lemma in_int_ok n : - 2 ^ 31 ≤ n < 2 ^ 31 → in_int n = Ok n.
Proof. intros []. unfold in_int. by rewrite (proj2 (Z.leb_le _ _)), (proj2 (Z.ltb_lt _ _)) by lia. Qed.

(** A byte of a body with a length, or of one that ends with the connection. *)
Definition consume s (here : RspState) (enter : list Cmd) : res (Rsp * list Cmd) :=
  n ← in_int (rp_contentLength s - 1);
  let s := set_lengths s n (rp_chunkLength s) (rp_chunks s) in
  Ok (if n <=? 0 then (goto s RMain, enter ++ bodyBlockFinish ++ [CPop HttpResponse]) else (goto s here, enter)).

Definition consume_chunk s (here : RspState) (enter : list Cmd) : res (Rsp * list Cmd) :=
  n ← in_int (rp_chunkLength s - 1);
  let s := set_lengths s (rp_contentLength s) n (rp_chunks s) in
  Ok (if n =? 0 then (goto s RChunk0, enter ++ [CPause]) else (goto s here, enter)).

(** At the end of the line before a chunk. *)
Definition chunk_line s : res (Rsp * list Cmd) :=
  let s := set_lengths s (rp_contentLength s) (strtol16 (rp_buf s)) (rp_chunks s) in
  let s := buf s 0 in
  if rp_chunkLength s =? 0 then Ok (goto s RMain, bodyBlockFinish ++ [CPop HttpResponse])
  else
    n ← in_int (rp_chunks s + 1);
    let s' := set_lengths s (rp_contentLength s) (rp_chunkLength s) n in
    Ok (if rp_chunks s =? 0 then (goto s' RFirst0, []) else (goto s' RNext0, [])).

(** *** The machine *)

Definition is_name (c : Z) : bool := is_digit c || ((65 <=? c) && (c <=? 90)) || ((97 <=? c) && (c <=? 122)) || (c =? 95) || (c =? 45).
Definition cr : Z := 13.
Definition lf : Z := 10.

(** Behind the status line or a header: another header, or the empty line. *)
Definition after_line s (cmds : list Cmd) (c : Z) : Rsp * list Cmd :=
  if is_name c then (goto (buf (buf1 (clear1 s) c) c) RName, cmds)
  else if c =? cr then (goto s REmptyCr, cmds)
  else if c =? lf then let '(s, cs) := fin s in (s, cmds ++ cs)
  else (goto s RError, []).

(** Whether a byte can follow there: the actions are only on such bytes. *)
Definition follows (c : Z) : bool := is_name c || (c =? cr) || (c =? lf).

Definition rsp_step s (c : Z) : res (Rsp * list Cmd) :=
  let stay s cs := Ok (goto s cs, []) in
  let fail := Ok (goto s RError, []) in
  match rp_cs s with
  | RError => Ok (s, [])
  | RMain => if negb (c =? 32) then stay (buf s c) RWord1 else fail
  | RWord1 => if c =? 32 then stay (buf s c) RSpace1 else stay (buf s c) RWord1
  | RSpace1 => if negb (c =? 32) then stay (buf s c) RWord2 else fail
  | RWord2 => if c =? 32 then stay (buf s c) RSpace2 else stay (buf s c) RWord2
  | RSpace2 => if (c =? cr) || (c =? lf) then fail else stay (buf s c) RReason
  | RReason => if c =? cr then stay (buf s c) RReasonCr else if c =? lf then stay (buf s c) RStatus else stay (buf s c) RReason
  | RReasonCr => if c =? lf then stay (buf s c) RStatus else fail
  | RStatus => if follows c then let '(s, cmds) := uri s in Ok (after_line s cmds c) else fail
  | RName => if is_name c then stay (buf (buf1 s c) c) RName else if c =? 58 then stay (buf s c) RColon else fail
  | RColon =>
      let s := buf (buf2 (clear2 s) c) c in
      if c =? cr then stay s RValueCr else if c =? lf then stay s RHeader else stay s RValue
  | RValue =>
      let s := buf (buf2 s c) c in
      if c =? cr then stay s RValueCr else if c =? lf then stay s RHeader else stay s RValue
  | RValueCr => if c =? lf then stay (buf (buf2 s c) c) RHeader else fail
  | RHeader =>
      if (c =? 32) || (c =? 9) then stay (buf (buf2 s c) c) RValue
      else if follows c then '(s, cmds) ← header s; Ok (after_line s cmds c) else fail
  | REmptyCr => if c =? lf then Ok (fin s) else fail
  | RLength0 => consume s RLength [dest s; CStart]
  | RLength => consume s RLength []
  | RAll0 => consume s RAll [dest s; CStart]
  | RAll => consume s RAll []
  | RFirst0 => consume_chunk s RFirst [dest s; CStart]
  | RFirst => consume_chunk s RFirst []
  | RNext0 => consume_chunk s RNext [CResume]
  | RNext => consume_chunk s RNext []
  | RChunk0 => if c =? cr then stay s RChunkCr else if c =? lf then stay s RChunk0 else if is_hex c then stay (buf (clear s) c) RChunkHex else fail
  | RChunkCr => if c =? lf then stay s RChunk0 else fail
  | RChunkHex =>
      if is_hex c then stay (buf s c) RChunkHex else if c =? 59 then stay s RChunkSemi
      else if c =? cr then stay s RChunkExtCr else if c =? lf then chunk_line s else fail
  | RChunkSemi => if (c =? cr) || (c =? lf) then fail else stay s RChunkExt
  | RChunkExt => if c =? cr then stay s RChunkExtCr else if c =? lf then chunk_line s else stay s RChunkExt
  | RChunkExtCr => if c =? lf then chunk_line s else fail
  end.
End Response.

(** ** The parser of requests *)

Inductive ReqState :=
  | QError
  | QMain | QMethod | QSpace1 | QUri | QSpace2 | QProtocol | QProtocolCr | QLine
  | QName | QColon | QValue | QValueCr | QHeader | QEmptyCr
  | QConsume0 | QConsume.

#[export] Instance req_state_eq_dec : EqDecision ReqState.
Proof. solve_decision. Defined.

Record Req := MkReq {
  rq_cs : ReqState;
  rq_buf1 : list Z;
  rq_buf2 : list Z;
  rq_contentLength : Z;
}.

Module Rq.
Section Request.
Implicit Type s : Req.

Definition goto s (cs : ReqState) : Req := MkReq cs (rq_buf1 s) (rq_buf2 s) (rq_contentLength s).
Definition buf1 s (c : Z) : Req := MkReq (rq_cs s) (rq_buf1 s ++ [c]) (rq_buf2 s) (rq_contentLength s).
Definition buf2 s (c : Z) : Req := MkReq (rq_cs s) (rq_buf1 s) (rq_buf2 s ++ [c]) (rq_contentLength s).
Definition clear1 s : Req := MkReq (rq_cs s) [] (rq_buf2 s) (rq_contentLength s).
Definition clear2 s : Req := MkReq (rq_cs s) (rq_buf1 s) [] (rq_contentLength s).
Definition set_length s (n : Z) : Req := MkReq (rq_cs s) (rq_buf1 s) (rq_buf2 s) n.

(** A node with a text: pushed, set, popped. *)
Definition leaf (type : NodeType) (text : list Z) : list Cmd := [CPush type; CText text; CPop type].

Definition request_line s : Req * list Cmd := (set_length s (-1), [CType Unspecified]).

(** The line end of a value, at the end of a buffer with a terminator, is overwritten. *)
Definition chomp_value (b : list Z) : list Z :=
  let n := length b in
  if (2 <=? n)%nat && bool_decide (b !! (n - 2)%nat = Some 10) then
    let b := <[(n - 2)%nat := 0]> b in
    if (3 <=? n)%nat && bool_decide (b !! (n - 3)%nat = Some 13) then <[(n - 3)%nat := 0]> b else b
  else b.

Fixpoint skip_blank (b : list Z) : list Z :=
  match b with c :: b' => if (c =? 9) || (c =? 32) then skip_blank b' else b | [] => [] end.

Definition header s : Req * list Cmd :=
  let s := buf2 (buf1 s 0) 0 in
  let b2 := chomp_value (rq_buf2 s) in
  let hd := skip_blank b2 in
  let n := if caseeq (cstr (rq_buf1 s)) (lit "Content-Length") then atoi (cstr hd) else rq_contentLength s in
  (MkReq (rq_cs s) [] [] n,
    [CPush HttpHeader] ++ leaf HttpHeaderName (cstr (rq_buf1 s)) ++ leaf HttpHeaderValue (cstr b2) ++ [CPop HttpHeader]).

Definition fin s : Req * list Cmd :=
  if 0 <? rq_contentLength s then (goto s QConsume0, [CPop HttpHead])
  else (goto s QMain, [CPop HttpHead; CPop HttpRequest]).

Definition consume s (enter : list Cmd) : Req * list Cmd :=
  let n := i32 (rq_contentLength s - 1) in
  let s := set_length s n in
  if n <=? 0 then (goto s QMain, enter ++ [CFinish true; CPop HttpRequest]) else (goto s QConsume, enter).

(** The actions at the ends of the parts of the request line. *)
Definition method s : Req * list Cmd :=
  let s := buf1 s 0 in
  (s, [CGenerate; CPush HttpRequest; CConsumer; CPush HttpHead] ++ leaf HttpMethod (cstr (rq_buf1 s))).
Definition uri s : Req * list Cmd := let s := buf1 s 0 in (s, leaf HttpUri (cstr (rq_buf1 s))).
Definition protocol s : Req * list Cmd := let s := buf1 s 0 in (s, leaf HttpProtocol (cstr (rq_buf1 s))).

Definition after_line (sc : Req * list Cmd) (c : Z) : Req * list Cmd :=
  let '(s, cmds) := sc in
  if is_name c then (goto (buf1 (clear1 s) c) QName, cmds)
  else if c =? cr then (goto s QEmptyCr, cmds)
  else if c =? lf then let '(s, cs) := fin s in (s, cmds ++ cs)
  else (goto s QError, []).

Definition is_upper (c : Z) : bool := (65 <=? c) && (c <=? 90).

Definition step s (c : Z) : Req * list Cmd :=
  let stay s cs := (goto s cs, []) in
  let fail := (goto s QError, []) in
  match rq_cs s with
  | QError => (s, [])
  | QMain => if is_upper c then stay (buf1 (clear1 s) c) QMethod else fail
  | QMethod => if is_upper c then stay (buf1 s c) QMethod else if c =? 32 then let '(s, cmds) := method s in (goto s QSpace1, cmds) else fail
  | QSpace1 => if negb (c =? 32) then stay (buf1 (clear1 s) c) QUri else fail
  | QUri => if c =? 32 then let '(s, cmds) := uri s in (goto s QSpace2, cmds) else stay (buf1 s c) QUri
  | QSpace2 => if (c =? cr) || (c =? lf) then fail else stay (buf1 (clear1 s) c) QProtocol
  | QProtocol =>
      if c =? cr then let '(s, cmds) := protocol s in (goto s QProtocolCr, cmds)
      else if c =? lf then let '(s, cmds) := protocol s in (goto s QLine, cmds)
      else stay (buf1 s c) QProtocol
  | QProtocolCr => if c =? lf then stay s QLine else fail
  | QLine => if follows c then after_line (request_line s) c else fail
  | QName => if is_name c then stay (buf1 s c) QName else if c =? 58 then stay s QColon else fail
  | QColon =>
      let s := buf2 (clear2 s) c in
      if c =? cr then stay s QValueCr else if c =? lf then stay s QHeader else stay s QValue
  | QValue =>
      let s := buf2 s c in
      if c =? cr then stay s QValueCr else if c =? lf then stay s QHeader else stay s QValue
  | QValueCr => if c =? lf then stay (buf2 s c) QHeader else fail
  | QHeader =>
      if (c =? 32) || (c =? 9) then stay (buf2 s c) QValue
      else if follows c then after_line (header s) c else fail
  | QEmptyCr => if c =? lf then fin s else fail
  | QConsume0 => consume s [CDest false false; CStart]
  | QConsume => consume s []
  end.
End Request.
End Rq.

(** ** Running a parser *)

(** A parser with its machine: what both parsers have. *)
Class Machine (M : Type) := {
  m_step : M → Z → res (M * list Cmd);
  m_error : M → bool;
}.

#[export] Instance rsp_machine : Machine Rsp := {| m_step := rsp_step; m_error s := bool_decide (rp_cs s = RError) |}.
#[export] Instance req_machine : Machine Req := {| m_step s c := Ok (Rq.step s c); m_error s := bool_decide (rq_cs s = QError) |}.

(** The context of a parser, and the source that a parser of responses may have. *)
Class World (X : Type) := {
  w_generatePair : X → res X;
  w_setConsumer : X → res X;
  w_consumePair : X → res X;
  w_push : X → NodeType → res X;
  w_pop : X → NodeType → res X;
  w_setText : X → list Z → res X;
  w_preFinish : X → res X;
  w_responseComplete : X → res X;
}.

(** The members a body goes through: [destination], where bodies go; [set_type], the type of
    the content; [put_back] after [finish]. *)
Class Parts (X P D : Type) := {
  p_destination : X → P → bool → bool → bool → res (X * D);
  p_set_type : P → ContentType → P;
  p_put_back : P → D → P;
}.

(** [hp_source]: whether there is a source. *)
Record HttpParser (M P D : Type) := MkHttpParser {
  hp_machine : M;
  hp_parts : P;
  hp_block : BlockExec D;
  hp_source : bool;
}.
Arguments MkHttpParser {M P D} _ _ _ _.
Arguments hp_machine {M P D} _.
Arguments hp_parts {M P D} _.
Arguments hp_block {M P D} _.
Arguments hp_source {M P D} _.

Section Run.
Context {M P D X : Type} `{!Machine M} `{!World X} `{!Consumer X D} `{!Parts X P D}.
Implicit Types (h : HttpParser M P D) (x : X).

Definition set_block h (b : BlockExec D) : HttpParser M P D := MkHttpParser (hp_machine h) (hp_parts h) b (hp_source h).
Definition set_parts h (p : P) : HttpParser M P D := MkHttpParser (hp_machine h) p (hp_block h) (hp_source h).
Definition set_machine h (m : M) : HttpParser M P D := MkHttpParser m (hp_parts h) (hp_block h) (hp_source h).

Definition next (p : Cursor) : Cursor := MkCursor (cu_packet p) (cu_bytes p) (S (cu_off p)).

(** A call; [p] is the byte the machine is on. *)
Definition run_cmd x h (packet : PacketPtr) (p : Cursor) (cmd : Cmd) : res (X * HttpParser M P D) :=
  let on_world (r : res X) := x ← r; Ok (x, h) in
  match cmd with
  | CGenerate => on_world (w_generatePair x)
  | CConsumer => on_world (w_setConsumer x)
  | CPair => on_world (w_consumePair x)
  | CPush type => on_world (w_push x type)
  | CPop type => on_world (w_pop x type)
  | CText text => on_world (w_setText x text)
  | CType type => Ok (x, set_parts h (p_set_type (hp_parts h) type))
  | CDest gzip brotli =>
      '(x, d) ← p_destination x (hp_parts h) (hp_source h) gzip brotli;
      Ok (x, set_block h (block_destination (hp_block h) (Some d)))
  | CStart => '(x, b) ← block_start x (hp_block h) p; Ok (x, set_block h b)
  | CPause => '(x, b) ← pause x (hp_block h) packet (next p); Ok (x, set_block h b)
  | CResume => Ok (x, set_block h (resume (hp_block h) p))
  | CPreFinish => on_world (if hp_source h then w_preFinish x else Ok x)
  | CFinish after =>
      '(x, b, d) ← block_finish x (hp_block h) packet (if after then next p else p);
      Ok (x, set_parts (set_block h b) (p_put_back (hp_parts h) d))
  | CComplete => on_world (if hp_source h then w_responseComplete x else Ok x)
  end.

Fixpoint run_cmds x h (packet : PacketPtr) (p : Cursor) (cmds : list Cmd) : res (X * HttpParser M P D) :=
  match cmds with
  | [] => Ok (x, h)
  | cmd :: cmds => '(x, h) ← run_cmd x h packet p cmd; run_cmds x h packet p cmds
  end.

(** The machine on the bytes from [p] on; [rest] are those bytes. *)
Fixpoint exec x h (packet : PacketPtr) (p : Cursor) (rest : list Z) : res (X * HttpParser M P D) :=
  match rest with
  | [] => Ok (x, h)
  | c :: rest =>
      '(m, cmds) ← m_step (hp_machine h) c;
      '(x, h) ← run_cmds x h packet p cmds;
      let h := set_machine h m in
      if m_error m then Ok (x, h) else exec x h packet (next p) rest
  end.

(** [receive] of a parser.  [n] is the number of the packet. *)
Definition http_receive x h (n : nat) (data : list Z) : res (X * HttpParser M P D) :=
  if m_error (hp_machine h) then Ok (x, h)
  else
    let h := set_block h (preExec (hp_block h) (MkCursor n data 0)) in
    '(x, h) ← exec x h (Some n) (MkCursor n data 0) data;
    if m_error (hp_machine h) then Ok (x, h)
    else
      '(x, b) ← postExec x (hp_block h) (Some n) (MkCursor n data (length data));
      Ok (x, set_block h b).

Fixpoint feed x h (n : nat) (packets : list (list Z)) : res (X * HttpParser M P D) :=
  match packets with
  | [] => Ok (x, h)
  | d :: ds => '(x, h) ← http_receive x h n d; feed x h (S n) ds
  end.
End Run.

(** [start] of the parser of responses, and what is kept when it is made. *)
Definition http_response_start {X} `{World X} (x : X) (s : Rsp) : res (X * Rsp) :=
  x ← w_push x LangHttp; Ok (x, goto s RMain).

(** [finish]: nothing of the program calls it. *)
Definition http_response_finish {P D X} `{World X} `{Consumer X D} (x : X) (h : HttpParser Rsp P D) : res (X * HttpParser Rsp P D) :=
  '(x, h) ← (if rp_isConnectionClose (hp_machine h) then '(x, b, _) ← block_close x (hp_block h); Ok (x, set_block h b) else Ok (x, h));
  x ← w_pop x LangHttp; Ok (x, h).

(** ** The members of the parser of responses *)

Inductive Route B N := RBody (b : B) | RSplit (s : Splitter B N).
Arguments RBody {B N} _.
Arguments RSplit {B N} _.

Inductive Dest `{Zlib} `{BrotliLib} B N := DRoute (r : Route B N) | DGzip (g : Gzip (Route B N)) | DBrotli (b : Brotli (Route B N)).
Arguments DRoute {_ _ B N} _.
Arguments DGzip {_ _ B N} _.
Arguments DBrotli {_ _ B N} _.

Section Members.
Context `{Zlib} `{BrotliLib} {X B N : Type} `{!Consumer X B} `{!Consumer X N}.

#[export] Instance route_consumer : Consumer X (Route B N) := {|
  c_start x c := match c with RBody b => '(x, b) ← c_start x b; Ok (x, RBody b) | RSplit s => '(x, s) ← splitter_start x s; Ok (x, RSplit s) end;
  c_receive x c packet data := match c with
    | RBody b => '(x, b, r) ← c_receive x b packet data; Ok (x, RBody b, r)
    | RSplit s => '(x, s, r) ← splitter_receive x s packet data; Ok (x, RSplit s, r)
    end;
  c_finish x c := match c with RBody b => '(x, b) ← c_finish x b; Ok (x, RBody b) | RSplit s => '(x, s) ← splitter_finish x s; Ok (x, RSplit s) end;
|}.

(** [turns] bounds the loops of the decompressors. *)
Variable turns : nat.

#[export] Instance dest_consumer : Consumer X (Dest B N) := {|
  c_start x c := match c with
    | DRoute r => '(x, r) ← c_start x r; Ok (x, DRoute r)
    | DGzip g => '(x, g) ← gzip_start x g; Ok (x, DGzip g)
    | DBrotli b => '(x, b) ← brotli_start x b; Ok (x, DBrotli b)
    end;
  c_receive x c packet data := match c with
    | DRoute r => '(x, r, z) ← c_receive x r packet data; Ok (x, DRoute r, z)
    | DGzip g => '(x, g, z) ← gzip_receive turns x g packet data; Ok (x, DGzip g, z)
    | DBrotli b => '(x, b, z) ← brotli_receive turns x b packet data; Ok (x, DBrotli b, z)
    end;
  c_finish x c := match c with
    | DRoute r => '(x, r) ← c_finish x r; Ok (x, DRoute r)
    | DGzip g => '(x, g) ← gzip_finish x g; Ok (x, DGzip g)
    | DBrotli b => '(x, b) ← brotli_finish x b; Ok (x, DBrotli b)
    end;
|}.

Record Members := MkMembers {
  mb_gzip : Gzip (Route B N);
  mb_brotli : Brotli (Route B N);
  mb_bodyParser : B;
}.

Context (set_type : B → ContentType → B) (nextConsumer : X → res (X * N)).

Definition destination (x : X) (m : Members) (source isGzipped isBrotli : bool) : res (X * Dest B N) :=
  '(x, dest) ← (if source then '(x, n) ← nextConsumer x; Ok (x, RSplit (setDest new_Splitter (Some (mb_bodyParser m)) (Some n))) else Ok (x, RBody (mb_bodyParser m)));
  Ok (x, if isGzipped then DGzip (gzip_destination (mb_gzip m) (Some dest))
         else if isBrotli then DBrotli (brotli_destination (mb_brotli m) (Some dest)) else DRoute dest).

(** The body parser at the end of a route. *)
Definition body_of (old : B) (r : option (Route B N)) : B :=
  match r with Some (RBody b) => b | Some (RSplit s) => default old (sp_d1 s) | None => old end.

Definition put_back (m : Members) (d : Dest B N) : Members :=
  match d with
  | DRoute r => MkMembers (mb_gzip m) (mb_brotli m) (body_of (mb_bodyParser m) (Some r))
  | DGzip g => MkMembers g (mb_brotli m) (body_of (mb_bodyParser m) (gz_output g))
  | DBrotli b => MkMembers (mb_gzip m) b (body_of (mb_bodyParser m) (br_output b))
  end.

#[export] Instance members_parts : Parts X Members (Dest B N) := {|
  p_destination := destination;
  p_set_type m t := MkMembers (mb_gzip m) (mb_brotli m) (set_type (mb_bodyParser m) t);
  p_put_back := put_back;
|}.
End Members.

(** ** The parser of bodies *)

Inductive FileType := FtWorking | FtHTML | FtPNG | FtJPG | FtGIF | FtBZ | FtZ | FtGZ | FtZIP | FtPE | FtUnknown.

#[export] Instance file_type_eq_dec : EqDecision FileType.
Proof. solve_decision. Defined.

#[export] Instance content_type_eq_dec : EqDecision ContentType.
Proof. solve_decision. Defined.

(** The identifier of files, FileIdent. *)
Class FileIdent (I : Type) := {
  fi_start : I → I;
  fi_receive : I → list Z → I;
  fi_type : I → FileType;
}.

(** [P] are the parsers of HTML and JSON. *)
Record HttpBodyParser (I P : Type) := MkHttpBodyParser {
  hb_identifier : I;
  hb_parser : option P;
  hb_contentType : ContentType;
}.
Arguments MkHttpBodyParser {I P} _ _ _.
Arguments hb_identifier {I P} _.
Arguments hb_parser {I P} _.
Arguments hb_contentType {I P} _.

Section Body.
Context {X I P : Type} `{!FileIdent I} `{!World X} `{!Consumer X P} (new_html new_json : P).
Implicit Types (x : X) (b : HttpBodyParser I P).

Definition set_parser b (p : option P) : HttpBodyParser I P := MkHttpBodyParser (hb_identifier b) p (hb_contentType b).
Definition set_content_type b (t : ContentType) : HttpBodyParser I P := MkHttpBodyParser (hb_identifier b) (hb_parser b) t.

Definition body_start x b : res (X * HttpBodyParser I P) :=
  Ok (x, MkHttpBodyParser (fi_start (hb_identifier b)) None (hb_contentType b)).

(** The parser of a type is made and started. *)
Definition begin_parser x b (p : P) : res (X * HttpBodyParser I P) := '(x, p) ← c_start x p; Ok (x, set_parser b (Some p)).

(** A type without a parser is a node. *)
Definition type_node x b (t : NodeType) : res (X * HttpBodyParser I P) := x ← w_push x t; x ← w_pop x t; Ok (x, b).

Definition decidedType x b (packet : PacketPtr) (t : FileType) : res (X * HttpBodyParser I P) :=
  if bool_decide (t = FtHTML) then begin_parser x b new_html
  else if bool_decide (hb_contentType b = ApplicationJson) then begin_parser x b new_json
  else if bool_decide (packet ≠ None) && bool_decide (t = FtPE) then type_node x b FileTypePe
  else type_node x b FileTypeUnknown.

Definition body_identify x b (packet : PacketPtr) (data : list Z) : res (X * HttpBodyParser I P) :=
  if bool_decide (fi_type (hb_identifier b) = FtWorking) then
    let i := fi_receive (hb_identifier b) data in
    let b := MkHttpBodyParser i (hb_parser b) (hb_contentType b) in
    if bool_decide (fi_type i ≠ FtWorking) then decidedType x b packet (fi_type i) else Ok (x, b)
  else Ok (x, b).

Definition body_receive x b (packet : PacketPtr) (data : list Z) : res (X * HttpBodyParser I P * Z) :=
  '(x, b) ← body_identify x b packet data;
  match hb_parser b with
  | Some p => '(x, p, _) ← c_receive x p packet data; Ok (x, set_parser b (Some p), 0)
  | None => Ok (x, b, 0)
  end.

Definition body_finish x b : res (X * HttpBodyParser I P) :=
  match hb_parser b with
  | Some p => '(x, _) ← c_finish x p; Ok (x, set_parser b None)
  | None => Ok (x, b)
  end.

#[export] Instance body_consumer : Consumer X (HttpBodyParser I P) := {|
  c_start := body_start;
  c_receive := body_receive;
  c_finish := body_finish;
|}.
End Body.
