(* ===== verification/HttpRspProps.v ===== *)
(** * The parsers of HTTP: theorems

    What a parser does is determined by the bytes of the stream, not by the packets they
    come in.  The specification has no packets: [script] is what the machine does on the
    bytes, [ideal] is what becomes of the bodies when every byte is looked at on its own. *)

From S2P Require Import Prelude Vpt Streams StreamsProps HttpRsp.

(** ** What is recorded *)

Inductive Act :=
  | AGenerate | AConsumer | APair | APush (type : NodeType) | APop (type : NodeType) | AText (text : list Z)
  | ANext | APreFinish | AComplete
  | ASeen (s : Seen).

Definition is_data (a : Act) : bool := match a with ASeen (SReceive _ _) => true | _ => false end.

Definition quiet (t : Trace Act) : Trace Act := filter (λ a, is_data a = false) t.

Definition payload (who : bool) (a : Act) : list Z :=
  match a with ASeen (SReceive w d) => if bool_decide (w = who) then d else [] | _ => [] end.

(** All bytes an end of the chain was given. *)
Definition heard (who : bool) (t : Trace Act) : list Z := concat (payload who <$> t).

Lemma quiet_app t u : quiet (t ++ u) = quiet t ++ quiet u.
Proof. apply filter_app. Qed.

Lemma heard_app who t u : heard who (t ++ u) = heard who t ++ heard who u.
Proof. unfold heard. by rewrite fmap_app, concat_app. Qed.

#[export] Instance trace_world : World (Trace Act) := {|
  w_generatePair t := Ok (t ++ [AGenerate]);
  w_setConsumer t := Ok (t ++ [AConsumer]);
  w_consumePair t := Ok (t ++ [APair]);
  w_push t type := Ok (t ++ [APush type]);
  w_pop t type := Ok (t ++ [APop type]);
  w_setText t text := Ok (t ++ [AText text]);
  w_preFinish t := Ok (t ++ [APreFinish]);
  w_responseComplete t := Ok (t ++ [AComplete]);
|}.

(** ** The specification *)

(** What the machine does on the bytes of a stream, until it fails. *)
Fixpoint script {M} `{Machine M} (m : M) (bs : list Z) : res (M * list (Z * list Cmd)) :=
  match bs with
  | [] => Ok (m, [])
  | c :: bs =>
      if m_error m then Ok (m, [])
      else '(m, cmds) ← m_step m c; '(m, l) ← script m bs; Ok (m, (c, cmds) :: l)
  end.

(** A body: not begun, with a destination, being received, between two chunks; with whether
    it is compressed, and its bytes. *)
Inductive Body := Nowhere | Ready (gzip brotli : bool) | Open (gzip brotli : bool) (b : list Z) | Paused (gzip brotli : bool) (b : list Z).

Record Ideal := MkIdeal {
  id_body : Body;
  id_quiet : Trace Act;
  id_done : list (bool * bool * list Z);
}.

(** A body that is open, with one more byte. *)
Definition open_more (c : Z) (b : Body) : Body := match b with Open gz br b => Open gz br (b ++ [c]) | b => b end.

Section Ideal.
(** What is recorded when a body begins and ends. *)
Context (source : bool) (opening closing : Trace Act).

Definition note (i : Ideal) (t : Trace Act) : option Ideal := Some (MkIdeal (id_body i) (id_quiet i ++ t) (id_done i)).
Definition if_source (t : Trace Act) : Trace Act := if source then t else [].

Definition ideal_cmd (c : Z) (i : Ideal) (cmd : Cmd) : option Ideal :=
  match cmd with
  | CGenerate => note i [AGenerate]
  | CConsumer => note i [AConsumer]
  | CPair => note i [APair]
  | CPush type => note i [APush type]
  | CPop type => note i [APop type]
  | CText text => note i [AText text]
  | CType _ => Some i
  | CPreFinish => note i (if_source [APreFinish])
  | CComplete => note i (if_source [AComplete])
  | CDest gz br => match id_body i with Nowhere => Some (MkIdeal (Ready gz br) (id_quiet i ++ if_source [ANext]) (id_done i)) | _ => None end
  | CStart => match id_body i with Ready gz br => Some (MkIdeal (Open gz br []) (id_quiet i ++ opening) (id_done i)) | _ => None end
  | CPause => match id_body i with Open gz br b => Some (MkIdeal (Paused gz br (b ++ [c])) (id_quiet i) (id_done i)) | _ => None end
  | CResume => match id_body i with Paused gz br b => Some (MkIdeal (Open gz br b) (id_quiet i) (id_done i)) | _ => None end
  | CFinish after =>
      match id_body i with
      | Open gz br b => Some (MkIdeal Nowhere (id_quiet i ++ closing) (id_done i ++ [(gz, br, b ++ if after then [c] else [])]))
      | Paused gz br b => Some (MkIdeal Nowhere (id_quiet i ++ closing) (id_done i ++ [(gz, br, b)]))
      | _ => None
      end
  end.

Fixpoint ideal_cmds (c : Z) (i : Ideal) (cmds : list Cmd) : option Ideal :=
  match cmds with [] => Some i | cmd :: cmds => i ← ideal_cmd c i cmd; ideal_cmds c i cmds end.

(** A byte that comes while a body is received belongs to it. *)
Definition ideal_byte (i : Ideal) (s : Z * list Cmd) : option Ideal :=
  i ← ideal_cmds s.1 i s.2;
  Some (MkIdeal (open_more s.1 (id_body i)) (id_quiet i) (id_done i)).

Fixpoint ideal_run (i : Ideal) (l : list (Z * list Cmd)) : option Ideal :=
  match l with [] => Some i | s :: l => i ← ideal_byte i s; ideal_run i l end.
End Ideal.

(** The bodies, complete or not. *)
Definition id_bodies (i : Ideal) : list (bool * bool * list Z) :=
  id_done i ++ match id_body i with Open gz br b => [(gz, br, b)] | Paused gz br b => [(gz, br, b)] | _ => [] end.

Definition is_open (i : Ideal) : bool := match id_body i with Open _ _ _ => true | _ => false end.

(** A machine is in the bytes of a body exactly when the body is open. *)
Class MachineLaws (M : Type) `{Machine M} := {
  m_body : M → bool;
  m_body_error : ∀ m, m_error m = true → m_body m = false;
  m_body_step : ∀ source op cl m c m' cmds i i', m_error m = false → m_step m c = Ok (m', cmds) → is_open i = m_body m →
    ideal_byte source op cl i (c, cmds) = Some i' → is_open i' = m_body m';
}.

Lemma if_source_quiet source who t : quiet t = t → heard who t = [] → quiet (if_source source t) = if_source source t ∧ heard who (if_source source t) = [].
Proof. by destruct source. Qed.

(** ** A parser whose bodies go through relays *)

Section Simulation.
Context {M P D : Type} `{MachineLaws M} `{!Consumer (Trace Act) D} `{!Parts (Trace Act) P D}.
Context {f : bool → bool → list Z → list Z} {valid : bool → bool → list Z → Prop} (R : ∀ gz br, Relay (A := Act) (C := D) (f gz br) (valid gz br)).
Context (source : bool) (opening closing : Trace Act) (who : bool) (parts_ok : P → Prop).

(** The relays differ in what they do with the bytes, not in how a body begins and ends. *)
Context (Opening : ∀ gz br, rl_opening (Relay := R gz br) = opening ∧ quiet opening = opening ∧ heard who opening = []).
Context (Closing : ∀ gz br, rl_closing (Relay := R gz br) = closing ∧ quiet closing = closing ∧ heard who closing = []).
Context (Sent : ∀ gz br p, quiet (rl_sent (Relay := R gz br) p) = [] ∧ heard who (rl_sent (Relay := R gz br) p) = p).
Context (Destination : ∀ t p gz br, parts_ok p → ∃ d, p_destination t p source gz br = Ok (t ++ if_source source [ANext], d) ∧ rl_idle (Relay := R gz br) d).
Context (PutBack : ∀ p d gz br, parts_ok p → rl_idle (Relay := R gz br) d → parts_ok (p_put_back p d)).
Context (SetType : ∀ p ty, parts_ok p → parts_ok (p_set_type p ty)).

Implicit Types (h : HttpParser M P D) (t : Trace Act) (i : Ideal).

Abbreviation pass := (λ b : bool * bool * list Z, f b.1.1 b.1.2 b.2).
Abbreviation valid_body := (λ b : bool * bool * list Z, valid b.1.1 b.1.2 b.2).

Definition passed i (given : list Z) : list Z := concat (pass <$> id_done i) ++ given.

(** The block of the body, on byte [p] of a packet; [inp] is what the relay was given. *)
Inductive block_at (p : Cursor) : Body → list Z → BlockExec D → Prop :=
| block_nowhere from : block_at p Nowhere [] (MkBlockExec false None from)
| block_ready gz br d from : rl_idle (Relay := R gz br) d → block_at p (Ready gz br) [] (MkBlockExec false (Some d) from)
| block_open gz br d inp fr b : rl_at (Relay := R gz br) d inp → region (Some fr) p = Ok b →
    block_at p (Open gz br (inp ++ b)) (f gz br inp) (MkBlockExec true (Some d) (Some fr))
| block_paused gz br d b from : rl_at (Relay := R gz br) d b → block_at p (Paused gz br b) (f gz br b) (MkBlockExec false (Some d) from).

Record sim (p : Cursor) i t h : Prop := Sim {
  sim_parts : parts_ok (hp_parts h);
  sim_source : hp_source h = source;
  sim_quiet : quiet t = id_quiet i;
  sim_given : ∃ given, block_at p (id_body i) given (hp_block h) ∧ heard who t = passed i given;
}.

Definition ok_bodies i : Prop := Forall valid_body (id_bodies i).

Lemma sent_all gz br ps : quiet (concat (rl_sent (Relay := R gz br) <$> ps)) = [] ∧ heard who (concat (rl_sent (Relay := R gz br) <$> ps)) = concat ps.
Proof.
  induction ps as [|p ps [IHq IHh]]; [done|]. rewrite !fmap_cons. cbn [concat]. rewrite quiet_app, heard_app, IHq, IHh. by destruct (Sent gz br p) as [-> ->].
Qed.

(** Shipping what is pending. *)
Lemma ship_spec p gz br d inp fr b t packet : rl_at (Relay := R gz br) d inp → region (Some fr) p = Ok b → valid gz br (inp ++ b) →
  ∃ t' d', ship t (MkBlockExec true (Some d) (Some fr)) packet p = Ok (t', Some d') ∧ rl_at (Relay := R gz br) d' (inp ++ b) ∧ quiet t' = quiet t ∧
    ∃ x, heard who t' = heard who t ++ x ∧ f gz br inp ++ x = f gz br (inp ++ b).
Proof.
  intros Hat Reg V. destruct (rl_receive (Relay := R gz br) t d packet inp b Hat V) as (d' & r & ps & E & F & A'). unfold ship. cbn [be_from be_output].
  rewrite Reg, bind_Ok. unfold via_receive. cbn [deref]. rewrite bind_Ok, E. cbn. destruct (sent_all gz br ps) as [Q Hd].
  eexists _, d'. split; [done|]. split_and!; [done|by rewrite quiet_app, Q, app_nil_r|]. exists (concat ps). by rewrite heard_app, Hd.
Qed.

Lemma region_next fr p b c : region (Some fr) p = Ok b → cu_bytes p !! cu_off p = Some c → region (Some fr) (next p) = Ok (b ++ [c]).
Proof.
  unfold region. cbn. case_decide as Hd; [|done]. intros [= <-] Hc. pose proof (lookup_lt_Some _ _ _ Hc). rewrite decide_True by lia. f_equal.
  replace (S (cu_off p) - cu_off fr)%nat with (S (cu_off p - cu_off fr)) by lia. apply take_S_r. rewrite lookup_drop. rewrite <- Hc. f_equal. lia.
Qed.

Lemma region_self p : (cu_off p ≤ length (cu_bytes p))%nat → region (Some p) p = Ok [].
Proof. intros. unfold region. cbn. rewrite decide_True by lia. by rewrite Nat.sub_diag. Qed.
Lemma block_at_next p body given b c : block_at p body given b → cu_bytes p !! cu_off p = Some c → block_at (next p) (open_more c body) given b.
Proof.
  intros B Hc. destruct B; cbn; try by constructor. rewrite <- app_assoc. constructor; [done|]. by apply region_next.
Qed.

Lemma ok_bodies_cmd op cl c i i' cmd : ideal_cmd source op cl c i cmd = Some i' → ok_bodies i' → ok_bodies i.
Proof.
  unfold ok_bodies, id_bodies. rewrite !Forall_app. intros E [Fd Fb]. destruct cmd; cbn in E; try (by injection E as <-); destruct (id_body i) as [|gz br|gz br b|gz br b];
    try discriminate; injection E as <-; cbn in *; try (by split); rewrite ?Forall_app, ?Forall_singleton in *; cbn in *.
  - split; [done|]. by eapply (rl_valid_prefix (Relay := R gz br)).
  - destruct Fd as [Fd V]. split; [done|]. by eapply (rl_valid_prefix (Relay := R gz br)).
  - destruct Fd as [Fd V]. by split.
Qed.

(** Finishing a body of which all was shipped. *)
Lemma close_sim p i t h gz br d bb from op : rl_at (Relay := R gz br) d bb → parts_ok (hp_parts h) → hp_source h = source → quiet t = id_quiet i → heard who t = passed i (f gz br bb) →
  ∃ t' d', block_close t (MkBlockExec op (Some d) from) = Ok (t', MkBlockExec false None None, d') ∧
    sim p (MkIdeal Nowhere (id_quiet i ++ closing) (id_done i ++ [(gz, br, bb)])) t' (set_parts (set_block h (MkBlockExec false None None)) (p_put_back (hp_parts h) d')).
Proof.
  intros Ha Pp Ps Q Hh. destruct (rl_finish (Relay := R gz br) t d bb Ha) as (d' & E & I). unfold block_close. cbn. rewrite E. cbn.
  destruct (Closing gz br) as (-> & Qc & Hc). eexists _, d'. split; [reflexivity|]. split; cbn; [by eapply PutBack|done|by rewrite quiet_app, Q, Qc|].
  exists []. split; [constructor|]. rewrite heard_app, Hc, Hh. unfold passed. cbn [id_done]. rewrite fmap_app, concat_app. cbn. by rewrite !app_nil_r.
Qed.

(** A call does what it ideally does. *)
Lemma run_cmd_sim p i t h packet cmd c i' : sim p i t h → cu_bytes p !! cu_off p = Some c → ideal_cmd source opening closing c i cmd = Some i' → ok_bodies i' →
  ∃ t' h', run_cmd t h packet p cmd = Ok (t', h') ∧ hp_machine h' = hp_machine h ∧ sim p i' t' h'.
Proof.
  intros [Pp Ps Q (given & B & Hh)] Hc E V.
  assert (∀ a, quiet a = a → heard who a = [] → note i a = Some i' → sim p i' (t ++ a) h) as Note.
  { intros a Qa Ha [= <-]. split; [done|done|by rewrite quiet_app, Q, Qa|]. exists given. split; [done|]. rewrite heard_app, Ha, app_nil_r. exact Hh. }
  pose proof (lookup_lt_Some _ _ _ Hc) as Lp.
  destruct cmd; cbn [run_cmd ideal_cmd] in *; try (eexists _, h; split; [reflexivity|]; split; [done|]; by apply Note).
  - injection E as <-. eexists _, _. split; [reflexivity|]. split; [done|]. split; [by apply SetType|done|done|by exists given].
  - destruct (id_body i) eqn:Eb; [|done..]. injection E as <-. destruct (Destination t (hp_parts h) gzip brotli Pp) as (d & E1 & I).
    rewrite Ps, E1. cbn. eexists _, _. split; [reflexivity|]. split; [done|]. inversion B; subst.
    destruct (if_source_quiet source who [ANext]) as [Qn Hn]; [done..|].
    split; cbn; [done|done|by rewrite quiet_app, Q, Qn|]. exists []. split; [by constructor|]. by rewrite heard_app, Hh, Hn, app_nil_r.
  - destruct (id_body i) eqn:Eb; try done. injection E as <-. inversion B as [|? ? d from I Eb' Eg Ebl| |]; subst. destruct (rl_start (Relay := R gzip brotli) t d I) as (d' & E1 & A1).
    unfold block_start, via_start. cbn. rewrite E1. cbn. destruct (Opening gzip brotli) as (-> & Qo & Ho). eexists _, _. split; [reflexivity|]. split; [done|].
    split; cbn; [done|done|by rewrite quiet_app, Q, Qo|]. exists (f gzip brotli []). split.
    + change (@nil Z) with (@nil Z ++ []) at 1. constructor; [done|]. apply region_self. lia.
    + rewrite heard_app, Ho, Hh. unfold passed. by rewrite (rl_nil (Relay := R gzip brotli)), !app_nil_r.
  - destruct (id_body i) as [| |gz br bb|] eqn:Eb; try done. injection E as <-. inversion B as [| |? ? d inp fr b Ha Hr Eb' Eg Ebl|]; subst.
    unfold ok_bodies, id_bodies in V. cbn in V. rewrite Forall_app, Forall_singleton in V. destruct V as [_ V]. cbn in V.
    destruct (ship_spec (next p) gz br d inp fr (b ++ [c]) t packet Ha) as (t' & d' & E1 & A1 & Q1 & y & H1 & F1); [by apply region_next|by rewrite app_assoc|].
    unfold pause. rewrite E1. cbn. eexists _, _. split; [reflexivity|]. split; [done|]. split; cbn; [done|done|congruence|].
    exists (f gz br (inp ++ b ++ [c])). rewrite <- app_assoc. split; [by constructor|]. rewrite H1, Hh. unfold passed. cbn. by rewrite <- app_assoc, F1.
  - destruct (id_body i) as [| | |gz br bb] eqn:Eb; try done. injection E as <-. inversion B as [| | |? ? d b0 from Ha Eb' Eg Ebl]; subst.
    eexists _, _. split; [reflexivity|]. split; [done|]. split; cbn; [done|done|done|]. exists (f gz br bb). split; [|done]. unfold resume. cbn.
    rewrite <- (app_nil_r bb) at 1. constructor; [done|]. apply region_self. lia.
  - destruct (if_source_quiet source who [APreFinish]) as [Qn Hn]; [done..|]. exists (t ++ if_source source [APreFinish]), h. split_and!; [|done|by apply Note].
    rewrite Ps. unfold if_source. destruct (source); cbn; by rewrite ?app_nil_r.
  - destruct (id_body i) as [| |gz br bb|gz br bb] eqn:Eb; try done; injection E as <-.
    + inversion B as [| |? ? d inp fr b Ha Hr Eb' Eg Ebl|]; subst. assert (region (Some fr) (if after then next p else p) = Ok (b ++ if after then [c] else [])) as Hr'.
      { destruct after; [by apply region_next|by rewrite app_nil_r]. }
      unfold ok_bodies, id_bodies in V. cbn in V. rewrite !Forall_app, Forall_singleton in V. destruct V as [[_ V] _]. cbn in V.
      destruct (ship_spec _ gz br d inp fr _ t packet Ha Hr') as (t1 & d1 & E1 & A1 & Q1 & y & H1 & F1); [by rewrite app_assoc|]. rewrite app_assoc in A1, F1.
      destruct (close_sim p i t1 h gz br d1 _ (Some fr) true A1) as (t2 & d2 & E2 & S2); [done|done|congruence|rewrite H1, Hh; unfold passed; by rewrite <- app_assoc, F1|].
      unfold block_finish. cbn [be_open be_from]. rewrite E1. cbn [mbind res_bind]. rewrite E2. eexists _, _. split; [reflexivity|]. by split.
    + inversion B as [| | |? ? d b0 from Ha Eb' Eg Ebl]; subst. destruct (close_sim p i t h gz br d bb from false Ha) as (t2 & d2 & E2 & S2); [done..|].
      unfold block_finish. cbn [be_open]. rewrite E2. eexists _, _. split; [reflexivity|]. by split.
  - destruct (if_source_quiet source who [AComplete]) as [Qn Hn]; [done..|]. exists (t ++ if_source source [AComplete]), h. split_and!; [|done|by apply Note].
    rewrite Ps. unfold if_source. destruct (source); cbn; by rewrite ?app_nil_r.
Qed.

Lemma ok_bodies_cmds op cl c i i' cmds : ideal_cmds source op cl c i cmds = Some i' → ok_bodies i' → ok_bodies i.
Proof.
  revert i. induction cmds as [|cmd cmds IH]; intros i E V; cbn in E; [congruence|]. apply bind_Some in E as (i2 & E2 & E). eapply ok_bodies_cmd; [exact E2|]. by apply IH.
Qed.

Lemma run_cmds_sim p i t h packet cmds c i' : sim p i t h → cu_bytes p !! cu_off p = Some c → ideal_cmds source opening closing c i cmds = Some i' → ok_bodies i' →
  ∃ t' h', run_cmds t h packet p cmds = Ok (t', h') ∧ hp_machine h' = hp_machine h ∧ sim p i' t' h'.
Proof.
  revert i t h. induction cmds as [|cmd cmds IH]; intros i t h S Hc E V; cbn in *.
  - injection E as <-. eexists _, _. by split.
  - apply bind_Some in E as (i1 & E1 & E). destruct (run_cmd_sim p i t h packet cmd c i1 S Hc E1) as (t1 & h1 & -> & M1 & S1).
    { by eapply ok_bodies_cmds. }
    cbn [mbind res_bind]. destruct (IH i1 t1 h1 S1 Hc E V) as (t2 & h2 & -> & M2 & S2). eexists _, _. split_and!; [done|congruence|done].
Qed.

Lemma ok_bodies_byte i s i' : ideal_byte source opening closing i s = Some i' → ok_bodies i' → ok_bodies i.
Proof.
  unfold ideal_byte. intros (i1 & E & [= <-])%bind_Some V. assert (ok_bodies i1) as V1.
  { revert V. unfold ok_bodies, id_bodies. cbn. destruct (id_body i1) as [| |gz br b|]; cbn; try done. rewrite !Forall_app, !Forall_singleton. cbn. intros [? V]. split; [done|]. by eapply (rl_valid_prefix (Relay := R gz br)). }
  by eapply ok_bodies_cmds.
Qed.

Lemma ok_bodies_run i l i' : ideal_run source opening closing i l = Some i' → ok_bodies i' → ok_bodies i.
Proof.
  revert i. induction l as [|s l IH]; intros i E V; cbn in E; [congruence|]. apply bind_Some in E as (i1 & E1 & E). eapply ok_bodies_byte; [exact E1|]. by apply IH.
Qed.

(** The machine on the rest of a packet. *)
Lemma exec_sim packet p rest i t h m' l i' : sim p i t h → (cu_off p ≤ length (cu_bytes p))%nat → drop (cu_off p) (cu_bytes p) = rest → m_error (hp_machine h) = false →
  is_open i = m_body (hp_machine h) → script (hp_machine h) rest = Ok (m', l) → ideal_run source opening closing i l = Some i' → ok_bodies i' →
  ∃ t' h' p', exec t h packet p rest = Ok (t', h') ∧ hp_machine h' = m' ∧ is_open i' = m_body m' ∧ sim p' i' t' h' ∧
    (m_error m' = false → p' = MkCursor (cu_packet p) (cu_bytes p) (length (cu_bytes p))).
Proof.
  revert p i t h l. induction rest as [|c rest IH]; intros p i t h l S Lp Dr Er Op E Ei V; cbn [exec script] in *.
  - injection E as <- <-. cbn in Ei. injection Ei as <-. apply (f_equal length) in Dr. rewrite length_drop in Dr. cbn in Dr.
    exists t, h, p. split_and!; [done..|]. intros _. destruct p. cbn in *. f_equal. lia.
  - rewrite Er in E. apply bind_Ok_inv in E as ([m1 cmds] & Es & E). apply bind_Ok_inv in E as ([m2 l2] & Ec & [= <- <-]).
    assert (cu_bytes p !! cu_off p = Some c) as Hc. { rewrite <- (Nat.add_0_r (cu_off p)), <- lookup_drop, Dr. done. }
    cbn in Ei. apply bind_Some in Ei as (i1 & E1 & Ei). pose proof (m_body_step _ _ _ _ _ _ _ _ _ Er Es Op E1) as Op1.
    pose proof (ok_bodies_run _ _ _ Ei V) as V1. rewrite Es. cbn [mbind res_bind].
    unfold ideal_byte in E1. apply bind_Some in E1 as (j & Ej & [= <-]). cbn [fst snd] in *.
    destruct (run_cmds_sim p i t h packet cmds c j S Hc Ej) as (t1 & h1 & -> & M1 & [Pp Ps Q (given & B & Hh)]). { by apply (ok_bodies_byte j (c, []) _ eq_refl). }
    cbn [mbind res_bind]. apply (fun B => block_at_next _ _ _ _ _ B Hc) in B.
    assert (sim (next p) (MkIdeal (open_more c (id_body j)) (id_quiet j) (id_done j)) t1 (set_machine h1 m1)) as S1 by (split; [done..|by exists given]).
    destruct (m_error m1) eqn:E1.
    + assert (l2 = [] ∧ m2 = m1) as [-> ->]. { destruct rest; cbn in Ec; [|rewrite E1 in Ec]; by injection Ec as <- <-. }
      cbn in Ei. injection Ei as <-. eexists _, _, _. split; [done|]. split_and!; [done|done|exact S1|by rewrite E1].
    + destruct (IH (next p) _ t1 (set_machine h1 m1) l2 S1) as (t2 & h2 & p2 & E2 & M2 & O2 & S2 & P2); cbn [next cu_off cu_bytes cu_packet hp_machine set_machine]; try done.
      * apply lookup_lt_Some in Hc. lia.
      * by apply drop_S in Hc; rewrite Dr in Hc; injection Hc as <-.
      * eexists _, _, _. by split_and!.
Qed.

(** Between two packets: all that came was shipped. *)
Definition at_rest n i t h : Prop := ∀ d, sim (MkCursor n d 0) i t (set_block h (preExec (hp_block h) (MkCursor n d 0))).

Lemma at_rest_intro p n i t h : sim p i t h → is_open i = false → at_rest n i t h.
Proof.
  intros [Pp Ps Q (given & B & Hh)] Op d. split; [done..|]. exists given. split; [|done]. unfold is_open in Op. cbn. unfold preExec. destruct B; cbn; try done; by constructor.
Qed.

Lemma post_sim n d i t h m : sim (MkCursor n d (length d)) i t h → hp_machine h = m → ok_bodies i →
  ∃ t' b, postExec t (hp_block h) (Some n) (MkCursor n d (length d)) = Ok (t', b) ∧ at_rest (S n) i t' (set_block h b) ∧ heard who t' = concat (pass <$> id_bodies i) ∧ quiet t' = id_quiet i.
Proof.
  intros S Em V. pose proof S as [Pp Ps Q (given & B & Hh)]. unfold id_bodies. rewrite fmap_app, concat_app. destruct (is_open i) eqn:Op.
  - unfold is_open in Op. destruct (id_body i) as [| |gz br bb|] eqn:Eb; try done. inversion B as [| |? ? dd inp fr b Ha Hr Eb' Eg Ebl|]; subst.
    unfold ok_bodies, id_bodies in V. rewrite Eb, Forall_app, Forall_singleton in V. destruct V as [_ V]. cbn in V.
    destruct (ship_spec _ gz br dd inp fr b t (Some n) Ha Hr V) as (t' & d' & E1 & A1 & Q1 & y & H1 & F1). unfold postExec. cbn [be_open]. rewrite E1. cbn [mbind res_bind].
    assert (heard who t' = passed i (f gz br (inp ++ b))) as Hp. { rewrite H1, Hh. unfold passed. by rewrite <- app_assoc, F1. }
    eexists _, _. split; [done|]. split_and!; [|rewrite Hp; cbn; by rewrite app_nil_r|congruence].
    intros d2. split; cbn; [done|done|congruence|]. exists (f gz br (inp ++ b)). split; [|done]. rewrite Eb. rewrite <- (app_nil_r (inp ++ b)) at 1. constructor; [done|]. apply region_self; cbn; lia.
  - assert (be_open (hp_block h) = false) as Bo. { unfold is_open in Op. by destruct B. }
    unfold postExec. rewrite Bo. eexists _, _. split; [done|]. split_and!; [apply (at_rest_intro (MkCursor n d (length d))); [|done]; by destruct h| |done].
    rewrite Hh. unfold passed. f_equal. unfold is_open in Op. destruct B; cbn; by rewrite ?app_nil_r.
Qed.

Lemma script_app m a b : script m (a ++ b) = '(m, l) ← script m a; '(m, k) ← script m b; Ok (m, l ++ k).
Proof.
  revert m. induction a as [|c a IH]; intros m; cbn [app script]; [cbn; by destruct (script m b) as [[? ?]| |]|]. destruct (m_error m) eqn:E.
  - cbn. destruct b; cbn; [done|by rewrite E].
  - destruct (m_step m c) as [[m1 cmds]| |]; cbn [mbind res_bind]; [|done..]. rewrite IH. destruct (script m1 a) as [[m2 l]| |]; cbn [mbind res_bind]; [|done..].
    by destruct (script m2 b) as [[? ?]| |].
Qed.

Lemma ideal_run_app source' op cl i a b : ideal_run source' op cl i (a ++ b) = i ← ideal_run source' op cl i a; ideal_run source' op cl i b.
Proof. revert i. induction a as [|s a IH]; intros i; cbn; [done|]. destruct (ideal_byte source' op cl i s); cbn; [apply IH|done]. Qed.

(** One packet. *)
Lemma receive_sim n d i t h m' l i' : at_rest n i t h → is_open i = m_body (hp_machine h) → heard who t = concat (pass <$> id_bodies i) →
  script (hp_machine h) d = Ok (m', l) → ideal_run source opening closing i l = Some i' → ok_bodies i' →
  ∃ t' h', http_receive t h n d = Ok (t', h') ∧ hp_machine h' = m' ∧ is_open i' = m_body m' ∧ at_rest (S n) i' t' h' ∧ heard who t' = concat (pass <$> id_bodies i') ∧ quiet t' = id_quiet i'.
Proof.
  intros A Op Hh E Ei V. unfold http_receive. destruct (m_error (hp_machine h)) eqn:Er.
  - assert (l = [] ∧ m' = hp_machine h) as [-> ->]. { destruct d; cbn in E; [|rewrite Er in E]; by injection E as <- <-. }
    cbn in Ei. injection Ei as <-. eexists _, _. split; [done|]. split_and!; [done|done| |done|by destruct (A [])].
    destruct (A []) as [Pp Ps Q (given & B & Hg)]. rewrite (m_body_error _ Er) in Op. intros d2. split; [done..|]. exists given. split; [|done].
    cbn in B |- *. unfold preExec in *. unfold is_open in Op. destruct (id_body i) as [| |gz br bb|]; [..|done|]; destruct (be_open (hp_block h)) eqn:Bo; inversion B; subst; try congruence; by constructor.
  - destruct (exec_sim (Some n) _ d i t _ m' l i' (A d)) as (t1 & h1 & p1 & E1 & M1 & O1 & S1 & P1); cbn [cu_off cu_bytes hp_machine set_block]; try done; [lia|].
    rewrite E1. cbn [mbind res_bind]. rewrite M1. destruct (m_error m') eqn:Em.
    + rewrite (m_body_error _ Em) in O1. eexists _, _. split; [done|]. split_and!; [done|by rewrite O1, m_body_error|by eapply at_rest_intro| |by destruct S1].
      destruct S1 as [Pp Ps Q (given & B & Hg)]. rewrite Hg. unfold passed, id_bodies. rewrite fmap_app, concat_app. f_equal. unfold is_open in O1. destruct B; cbn; by rewrite ?app_nil_r.
    + rewrite (P1 eq_refl) in S1. destruct (post_sim _ _ _ _ _ _ S1 M1 V) as (t2 & b & E2 & A2 & H2 & Q2). cbn in E2. rewrite E2. cbn. eexists _, _. split; [done|]. by split_and!.
Qed.

(** Packets. *)
Lemma feed_sim n ds i t h m' l i' : at_rest n i t h → is_open i = m_body (hp_machine h) → heard who t = concat (pass <$> id_bodies i) →
  script (hp_machine h) (concat ds) = Ok (m', l) → ideal_run source opening closing i l = Some i' → ok_bodies i' →
  ∃ t' h', feed t h n ds = Ok (t', h') ∧ hp_machine h' = m' ∧ quiet t' = id_quiet i' ∧ heard who t' = concat (pass <$> id_bodies i').
Proof.
  revert n i t h l. induction ds as [|d ds IH]; intros n i t h l A Op Hh E Ei V; cbn [feed concat] in *.
  - injection E as <- <-. cbn in Ei. injection Ei as <-. eexists _, _. split; [done|]. split_and!; [done| |done]. by destruct (A []).
  - rewrite script_app in E. apply bind_Ok_inv in E as ([m1 l1] & E1 & E). apply bind_Ok_inv in E as ([m2 l2] & E2 & [= <- <-]).
    rewrite ideal_run_app in Ei. apply bind_Some in Ei as (i1 & Ei1 & Ei2). destruct (receive_sim n d i t h m1 l1 i1 A Op Hh E1 Ei1) as (t1 & h1 & -> & M1 & O1 & A1 & H1 & Q1); [by eapply ok_bodies_run|].
    cbn [mbind res_bind]. rewrite <- M1 in E2, O1. by eapply IH.
Qed.
End Simulation.

(** ** The machines *)

(** Commands that do not concern the body. *)
Definition plain (c : Cmd) : bool := match c with CDest _ _ | CStart | CPause | CResume | CFinish _ => false | _ => true end.

Section Plain.
Context (source : bool) (op cl : Trace Act).

Lemma plain_cmds c i i' cmds : forallb plain cmds = true → ideal_cmds source op cl c i cmds = Some i' → id_body i' = id_body i ∧ id_done i' = id_done i.
Proof.
  revert i. induction cmds as [|cmd cmds IH]; intros i F E; cbn in *; [by injection E as <-|]. apply andb_true_iff in F as [Fc F]. apply bind_Some in E as (i1 & E1 & E).
  destruct (IH i1 F E) as [-> ->]. by destruct cmd; try done; injection E1 as <-.
Qed.

Lemma ideal_cmds_app c i a b : ideal_cmds source op cl c i (a ++ b) = i ← ideal_cmds source op cl c i a; ideal_cmds source op cl c i b.
Proof. revert i. induction a as [|cmd a IH]; intros i; cbn; [done|]. destruct (ideal_cmd source op cl c i cmd); cbn; [apply IH|done]. Qed.

Lemma plain_byte c i i' cmds : forallb plain cmds = true → ideal_byte source op cl i (c, cmds) = Some i' → is_open i' = is_open i.
Proof.
  intros F (i1 & E & [= <-])%bind_Some. cbn in *. apply plain_cmds in E as [E _]; [|done]. unfold is_open. cbn. rewrite E. by destruct (id_body i).
Qed.

(** A byte with commands that leave no body open behind it. *)
Definition closes (cmds : list Cmd) : Prop := ∀ c i i', ideal_cmds source op cl c i cmds = Some i' → is_open i' = false.

Lemma closes_byte c i i' cmds : closes cmds → ideal_byte source op cl i (c, cmds) = Some i' → is_open i' = false.
Proof. intros F (i1 & E & [= <-])%bind_Some. cbn in *. apply F in E. unfold is_open in *. cbn. by destruct (id_body i1). Qed.

Lemma closes_snoc cmds more : closes cmds → forallb plain more = true → closes (cmds ++ more).
Proof.
  intros F G c i i' E. rewrite ideal_cmds_app in E. apply bind_Some in E as (i1 & E1 & E). apply F in E1. unfold is_open in *. by apply plain_cmds in E as [-> _].
Qed.

Lemma closes_cons cmd cmds : closes cmds → closes (cmd :: cmds).
Proof. intros F c i i' (i1 & _ & E)%bind_Some. by apply F in E. Qed.

Lemma closes_app more cmds : closes cmds → closes (more ++ cmds).
Proof. intros F. induction more; [done|]. by apply closes_cons. Qed.

Lemma closes_pause : closes [CPause].
Proof. intros c i i' E. cbn in E. unfold is_open. destruct (id_body i); try done. by injection E as <-. Qed.

Lemma closes_finish after : closes [CFinish after].
Proof. intros c i i' E. cbn in E. unfold is_open. destruct (id_body i); try done; by injection E as <-. Qed.

(** A byte with commands that open a body. *)
Lemma start_byte c i i' gz br : ideal_byte source op cl i (c, [CDest gz br; CStart]) = Some i' → is_open i' = true.
Proof. intros (i1 & E & [= <-])%bind_Some. cbn in E. destruct (id_body i); try done. by injection E as <-. Qed.

Lemma resume_byte c i i' : ideal_byte source op cl i (c, [CResume]) = Some i' → is_open i' = true.
Proof. intros (i1 & E & [= <-])%bind_Some. cbn in E. destruct (id_body i); try done. by injection E as <-. Qed.
End Plain.

Lemma header_plain s s' cmds : header s = Ok (s', cmds) → forallb plain cmds = true.
Proof.
  unfold header. intros E. apply bind_Ok_inv in E as (s1 & _ & E). apply bind_Ok_inv in E as (s2 & _ & E). injection E as _ <-. unfold content_type. by destruct (_ && _).
Qed.

Definition rsp_body (s : Rsp) : bool := match rp_cs s with RLength | RAll | RFirst | RNext => true | _ => false end.

Lemma fin_body source op cl pre s s' cmds c i i' : fin s = (s', cmds) → is_open i = false → forallb plain pre = true →
  ideal_byte source op cl i (c, pre ++ cmds) = Some i' → is_open i' = rsp_body s'.
Proof.
  unfold fin. intros E O F B. destruct (_ =? _).
  - injection E as <- <-. cbn. eapply closes_byte; [|exact B]. apply closes_app, closes_cons, closes_cons, closes_cons, (closes_snoc _ _ _ [CFinish false]); [apply closes_finish|done].
  - destruct (_ <? _); [|destruct (rp_isChunked s); [|destruct (rp_isConnectionClose s)]]; injection E as <- <-; cbn; rewrite <- O; (eapply plain_byte; [|exact B]); by rewrite forallb_app, F.
Qed.

Lemma after_line_body source op cl pre s s' cmds c i i' : after_line s pre c = (s', cmds) → is_open i = false → forallb plain pre = true →
  ideal_byte source op cl i (c, cmds) = Some i' → is_open i' = rsp_body s'.
Proof.
  unfold after_line. intros E O F B. destruct (is_name c); [|destruct (c =? cr); [|destruct (c =? lf)]].
  - injection E as <- <-. cbn. rewrite <- O. eapply plain_byte; [|exact B]; done.
  - injection E as <- <-. cbn. rewrite <- O. eapply plain_byte; [|exact B]; done.
  - destruct (fin s) as [s1 cs] eqn:Ef. injection E as <- <-. by eapply fin_body; [exact Ef|exact O|exact F|exact B].
  - injection E as <- <-. cbn. rewrite <- O. eapply plain_byte; [|exact B]; done.
Qed.

Lemma consume_body source op cl s s' here cmds enter c i i' : consume s here enter = Ok (s', cmds) → rsp_body (goto s here) = true →
  (∀ i', ideal_byte source op cl i (c, enter) = Some i' → is_open i' = true) → ideal_byte source op cl i (c, cmds) = Some i' → is_open i' = rsp_body s'.
Proof.
  intros (n & _ & E)%bind_Ok_inv Hh F B. destruct (_ <=? _); injection E as <- <-.
  - eapply closes_byte; [|exact B]. apply closes_app, (closes_snoc _ _ _ [CPreFinish; CFinish true] [CComplete; CPop HttpResponse]); [|done]. apply closes_cons, closes_finish.
  - rewrite (F _ B). done.
Qed.

Lemma consume_chunk_body source op cl s s' here cmds enter c i i' : consume_chunk s here enter = Ok (s', cmds) → rsp_body (goto s here) = true →
  (∀ i', ideal_byte source op cl i (c, enter) = Some i' → is_open i' = true) → ideal_byte source op cl i (c, cmds) = Some i' → is_open i' = rsp_body s'.
Proof.
  intros (n & _ & E)%bind_Ok_inv Hh F B. destruct (_ =? _); injection E as <- <-.
  - eapply closes_byte; [|exact B]. apply closes_app, closes_pause.
  - rewrite (F _ B). done.
Qed.

Lemma chunk_line_body source op cl s s' cmds c i i' : chunk_line s = Ok (s', cmds) → is_open i = false → ideal_byte source op cl i (c, cmds) = Some i' → is_open i' = rsp_body s'.
Proof.
  unfold chunk_line. intros E O B. destruct (_ =? _); [|apply bind_Ok_inv in E as (n & _ & E); destruct (_ =? _)]; injection E as <- <-.
  - eapply closes_byte; [|exact B]. apply (closes_snoc _ _ _ [CPreFinish; CFinish true] [CComplete; CPop HttpResponse]); [|done]. apply closes_cons, closes_finish.
  - rewrite (plain_byte _ _ _ c i i' [] eq_refl B). done.
  - rewrite (plain_byte _ _ _ c i i' [] eq_refl B). done.
Qed.

#[export] Program Instance rsp_laws : MachineLaws Rsp := {| m_body := rsp_body |}.
Next Obligation. intros s Es%bool_decide_eq_true. unfold rsp_body. by rewrite Es. Qed.
Next Obligation.
  intros source op cl s c s' cmds i i' Er%bool_decide_eq_false E O B. cbn [m_step rsp_machine] in E. unfold rsp_step in E. unfold rsp_body in O.
  assert (∀ b : bool, is_open i = b → cmds = [] → is_open i' = b) as Stay by (intros b <- ->; eapply plain_byte; [|exact B]; done).
  destruct (rp_cs s) eqn:Es; cbn in O;
    repeat match type of E with
    | (if ?b then _ else _) = _ => destruct b
    | Ok (goto _ _, []) = _ => injection E as <- <-; by apply Stay
    end; try done.
  - cbn in E. injection E as E. by eapply after_line_body; [exact E| | |exact B].
  - apply bind_Ok_inv in E as ([s1 pre] & Eh & E). injection E as E. apply header_plain in Eh. by eapply after_line_body; [exact E| | |exact B].
  - injection E as E. by eapply (fin_body _ _ _ []); [exact E|done|done|exact B].
  - eapply consume_body; [exact E|done| |exact B]. intros j. apply start_byte.
  - eapply consume_body; [exact E|done| |exact B]. intros j. rewrite <- O; by apply plain_byte.
  - eapply consume_body; [exact E|done| |exact B]. intros j. apply start_byte.
  - eapply consume_body; [exact E|done| |exact B]. intros j. rewrite <- O; by apply plain_byte.
  - eapply consume_chunk_body; [exact E|done| |exact B]. intros j. apply start_byte.
  - eapply consume_chunk_body; [exact E|done| |exact B]. intros j. rewrite <- O; by apply plain_byte.
  - eapply consume_chunk_body; [exact E|done| |exact B]. intros j. apply resume_byte.
  - eapply consume_chunk_body; [exact E|done| |exact B]. intros j. rewrite <- O; by apply plain_byte.
  - by eapply chunk_line_body; [exact E| |exact B].
  - by eapply chunk_line_body; [exact E| |exact B].
  - by eapply chunk_line_body; [exact E| |exact B].
Qed.

Definition req_body (s : Req) : bool := match rq_cs s with QConsume => true | _ => false end.

Lemma req_fin_plain s s' cmds : Rq.fin s = (s', cmds) → req_body s' = false ∧ forallb plain cmds = true.
Proof. unfold Rq.fin. by destruct (_ <? _); intros [= <- <-]. Qed.

Lemma req_after_line_plain sc c s' cmds : forallb plain sc.2 = true → Rq.after_line sc c = (s', cmds) → req_body s' = false ∧ forallb plain cmds = true.
Proof.
  destruct sc as [s pre]. unfold Rq.after_line. cbn. intros F E. destruct (is_name c); [by injection E as <- <-|]. destruct (c =? cr); [by injection E as <- <-|].
  destruct (c =? lf); [|by injection E as <- <-]. destruct (Rq.fin s) as [s1 cs] eqn:Ef. apply req_fin_plain in Ef as [Bf Pf]. injection E as <- <-. by rewrite forallb_app, F.
Qed.

Lemma req_consume_body source op cl s s' cmds enter c i i' : Rq.consume s enter = (s', cmds) →
  (∀ i', ideal_byte source op cl i (c, enter) = Some i' → is_open i' = true) → ideal_byte source op cl i (c, cmds) = Some i' → is_open i' = req_body s'.
Proof.
  unfold Rq.consume. intros E F B. destruct (_ <=? _); injection E as <- <-.
  - eapply closes_byte; [|exact B]. apply closes_app, (closes_snoc _ _ _ [CFinish true] [CPop HttpRequest]); [apply closes_finish|done].
  - rewrite (F _ B). done.
Qed.

#[export] Program Instance req_laws : MachineLaws Req := {| m_body := req_body |}.
Next Obligation. intros s Es%bool_decide_eq_true. unfold req_body. by rewrite Es. Qed.
Next Obligation.
  intros source op cl s c s' cmds i i' Er%bool_decide_eq_false [= E] O B.
  assert (is_open i = false → req_body s' = false ∧ forallb plain cmds = true → is_open i' = req_body s') as Plain.
  { intros Oi [-> F]. rewrite <- Oi. by eapply plain_byte; [exact F|exact B]. }
  unfold Rq.step in E. unfold req_body in O. destruct (rq_cs s) eqn:Es; cbn in O;
    repeat match type of E with
    | (if ?b then _ else _) = _ => destruct b
    | (Rq.goto _ _, []) = _ => injection E as <- <-; by apply Plain
    end; try done.
  - injection E as <- <-. by apply Plain.
  - injection E as <- <-. by apply Plain.
  - injection E as <- <-. by apply Plain.
  - injection E as <- <-. by apply Plain.
  - apply Plain; [done|]. by eapply req_after_line_plain; [|exact E].
  - apply Plain; [done|]. by eapply req_after_line_plain; [|exact E].
  - apply Plain; [done|]. by eapply req_fin_plain.
  - eapply req_consume_body; [exact E| |exact B]. intros j. apply start_byte.
  - eapply req_consume_body; [exact E| |exact B]. intros j. rewrite <- O. by apply plain_byte.
Qed.

(** ** The members of the parser of responses *)

Section Bodies.
Context `{ZlibLaws} `{BrotliLaws}.
Variable turns : nat.

(** The parser of bodies and the consumer a source gives are recorded. *)
#[local] Instance body_probe : Consumer (Trace Act) Probe := probe_consumer ASeen.

Abbreviation TRoute := (Route Probe Probe).
Abbreviation TDest := (Dest Probe Probe).
#[local] Instance tdest_consumer : Consumer (Trace Act) TDest := dest_consumer turns.

Definition next_probe (t : Trace Act) : res (Trace Act * Probe) := Ok (t ++ [ANext], MkProbe true).

#[local] Instance probe_members : Parts (Trace Act) Members TDest := members_parts (λ b _, b) next_probe.

Definition route_relay (source : bool) : Relay (A := Act) (C := TRoute) (λ b, b) (λ _, True).
Proof.
  destruct source.
  - unshelve eapply (embed_relay RSplit (R := splitter_relay (R1 := probe_relay ASeen false) (R2 := probe_relay ASeen true) _ _)); try done.
    + intros t c packet inp data <-. by eexists _, _.
    + intros t c packet inp data <-. by eexists _, _.
  - by unshelve eapply (embed_relay RBody (R := probe_relay ASeen false)).
Defined.

(** What becomes of a body, by how it is compressed. *)
Definition decoded (gz br : bool) (b : list Z) : list Z :=
  if gz then cd_dec (call := zcall) b else if br then cd_dec (call := bcall) b else b.

Definition decodable (gz br : bool) (b : list Z) : Prop :=
  if gz then cd_valid (call := zcall) b ∧ (length (cd_dec (call := zcall) b) < turns)%nat ∧ True
  else if br then cd_valid (call := bcall) b ∧ (length (cd_dec (call := bcall) b) < turns)%nat ∧ True else True.

Definition dest_relay (source gz br : bool) : Relay (A := Act) (C := TDest) (decoded gz br) (decodable gz br).
Proof.
  destruct gz; [|destruct br].
  - by unshelve eapply (embed_relay (Consumer0 := gzip_consumer turns) DGzip (R := gzip_relay (R := route_relay source) turns)).
  - by unshelve eapply (embed_relay (Consumer0 := brotli_consumer turns) DBrotli (R := brotli_relay (R := route_relay source) turns)).
  - by unshelve eapply (embed_relay DRoute (R := route_relay source)).
Defined.

(** What is recorded when a body begins and when it ends. *)
Definition body_opening (source : bool) : Trace Act := ASeen (SStart false) :: if_source source [ASeen (SStart true)].
Definition body_closing (source : bool) : Trace Act := ASeen (SFinish false) :: if_source source [ASeen (SFinish true)].

Definition members_ok (m : Members (B := Probe) (N := Probe)) : Prop :=
  gz_destLen (mb_gzip m) = Z.to_nat 8192 ∧ br_destLen (mb_brotli m) = Z.to_nat 8192 ∧ mb_bodyParser m = MkProbe false.

Lemma route_idle source (r : TRoute) : rl_idle (Relay := route_relay source) r ↔
  r = if source then RSplit (MkSplitter (Some (MkProbe false)) (Some (MkProbe true))) else RBody (MkProbe false).
Proof.
  destruct source; cbn; split.
  - intros (? & -> & [w] & [w'] & -> & E & E'). cbn in *. congruence.
  - intros ->. eexists. split; [done|]. by eexists _, _.
  - intros ([w] & -> & E). cbn in *. congruence.
  - intros ->. by eexists.
Qed.

Lemma destination_idle source t m gz br : members_ok m → ∃ d, p_destination t m source gz br = Ok (t ++ if_source source [ANext], d) ∧ rl_idle (Relay := dest_relay source gz br) d.
Proof.
  destruct m as [[go gl gs] [bl bo bs bu] bp]. intros (Lg & Lb & Eb). cbn in Lg, Lb, Eb. subst.
  set (r := if source then RSplit (MkSplitter (Some (MkProbe false)) (Some (MkProbe true))) else RBody (MkProbe false) : TRoute).
  assert (rl_idle (Relay := route_relay source) r) as I by by apply route_idle.
  exists (if gz then DGzip (MkGzip (Some r) (Z.to_nat 8192) gs) else if br then DBrotli (MkBrotli (Z.to_nat 8192) (Some r) bs bu) else DRoute r). split.
  { destruct source; cbn -[Z.to_nat]; [reflexivity|by rewrite app_nil_r]. }
  clearbody r. destruct gz; [|destruct br]; eexists; (split; [done|]); [by eexists _, _|by eexists _, _, _|done].
Qed.

Lemma put_back_ok source m d gz br : members_ok m → rl_idle (Relay := dest_relay source gz br) d → members_ok (p_put_back m d).
Proof.
  intros (Lg & Lb & Eb) I. destruct gz; [|destruct br].
  - destruct I as (g & -> & r & st & -> & I). apply route_idle in I as ->. cbn. by destruct source.
  - destruct I as (g & -> & r & st & u & -> & I). apply route_idle in I as ->. cbn. by destruct source.
  - destruct I as (r & -> & I). apply route_idle in I as ->. cbn. by destruct source.
Qed.

(** A new parser, in a state of its machine. *)
Definition new_Members : Members (B := Probe) (N := Probe) := MkMembers new_Gzip new_Brotli (MkProbe false).
Definition new_parser {M} (m : M) (source : bool) : HttpParser M Members TDest := MkHttpParser m new_Members new_BlockExec source.

(** What should be delivered: the bodies, without their compression. *)
Abbreviation delivered i := (concat ((λ b : bool * bool * list Z, decoded b.1.1 b.1.2 b.2) <$> id_bodies i)).
Abbreviation all_decodable i := (Forall (λ b : bool * bool * list Z, decodable b.1.1 b.1.2 b.2) (id_bodies i)).

Abbreviation the_ideal source l := (ideal_run source (body_opening source) (body_closing source) (MkIdeal Nowhere [] []) l).

(** The parser may have made calls [q] before, as it was started. *)
Lemma feed_ideal_from {M} `{MachineLaws M} (m m' : M) source who packets l i q : m_body m = false → (who = true → source = true) → quiet q = q → heard who q = [] →
  script m (concat packets) = Ok (m', l) → ideal_run source (body_opening source) (body_closing source) (MkIdeal Nowhere q []) l = Some i → all_decodable i →
  ∃ t h, feed q (new_parser m source) 0 packets = Ok (t, h) ∧ hp_machine h = m' ∧ quiet t = id_quiet i ∧ heard who t = delivered i.
Proof.
  intros Bm Ws Qq Hq E Ei V.
  assert (quiet (body_opening source) = body_opening source ∧ heard who (body_opening source) = []) as Op by by destruct source.
  assert (quiet (body_closing source) = body_closing source ∧ heard who (body_closing source) = []) as Cl by by destruct source.
  eapply (feed_sim (dest_relay source) source (body_opening source) (body_closing source) who members_ok) with (i := MkIdeal Nowhere q []); try done.
  - intros gz br. split; [|exact Op]. by destruct gz, br, source.
  - intros gz br. split; [|exact Cl]. by destruct gz, br, source.
  - intros gz br p. destruct gz, br, source, who; cbn; try (by rewrite app_nil_r); by specialize (Ws eq_refl).
  - intros t p gz br. apply destination_idle.
  - intros p d gz br. apply put_back_ok.
  - intros d. split; [done..|]. exists []. split; [by constructor|done].
Qed.

Lemma feed_ideal {M} `{MachineLaws M} (m m' : M) source who packets l i : m_body m = false → (who = true → source = true) →
  script m (concat packets) = Ok (m', l) → the_ideal source l = Some i → all_decodable i →
  ∃ t h, feed [] (new_parser m source) 0 packets = Ok (t, h) ∧ hp_machine h = m' ∧ quiet t = id_quiet i ∧ heard who t = delivered i.
Proof. intros Bm Ws. by apply feed_ideal_from. Qed.
End Bodies.
