(* ===== verification/HttpTypes.v ===== *)
(** * The parser of responses: types

    What the machine keeps stays in the types of its members, whatever bytes come: bytes in
    its buffers, ints in its lengths, C strings in cookies, location and tree.  Bytes are
    left of a body that is read by its length, and the length of a chunk that is being read
    is not zero; it is negative when the line before the chunk says more than an int holds.
    What is undefined is said exactly. *)

From Stdlib Require Import String.
From S2P Require Import Prelude ConnState Vpt Tender Streams HttpRsp HttpRspProps.

Definition byte (c : Z) : Prop := 0 ≤ c < 256.
Definition int (z : Z) : Prop := - 2 ^ 31 ≤ z < 2 ^ 31.
Definition c_string (l : list Z) : Prop := Forall (λ c, 0 < c < 256) l.

Record fields_typed (s : Rsp) : Prop := {
  ft_buf : Forall byte (rp_buf s);
  ft_buf1 : Forall byte (rp_buf1 s);
  ft_buf2 : Forall byte (rp_buf2 s);
  ft_content : int (rp_contentLength s);
  ft_chunk : int (rp_chunkLength s);
  ft_chunks : int (rp_chunks s);
  ft_cookies : map_Forall (λ k v, c_string k ∧ c_string v) (rp_cookies s);
  ft_location : c_string (rp_location s);
}.

(** While a body is read by its length, bytes of it are left; the length of a chunk is not zero. *)
Definition state_typed (s : Rsp) : Prop :=
  match rp_cs s with
  | RLength0 | RLength => 0 < rp_contentLength s
  | RFirst0 | RFirst | RNext0 | RNext => rp_chunkLength s ≠ 0
  | _ => True
  end.

Definition rsp_typed (s : Rsp) : Prop := fields_typed s ∧ state_typed s.

Definition cmd_typed (c : Cmd) : Prop := match c with CText t => c_string t | _ => True end.

(** ** Values *)

Lemma i32_int z : int (i32 z).
Proof. unfold int, wraps. change (32 - 1) with 31. pose proof (Z.mod_pos_bound (z + 2 ^ 31) (2 ^ 32)). lia. Qed.

Lemma atoi_int s : int (atoi s).
Proof. unfold atoi. destruct (skip_space s) as [|c l]; [unfold int; lia|]. repeat case_match; apply i32_int. Qed.

Lemma strtol16_int l : int (strtol16 l).
Proof. apply i32_int. Qed.

Lemma cstr_string l : Forall byte l → c_string (cstr l).
Proof.
  induction 1 as [|c l B F IH]; cbn; [constructor|]. destruct (Z.eqb_spec c 0); [constructor|]. constructor; [unfold byte in B; lia|done].
Qed.

(** What is before a byte that strchr finds has no end of a string. *)
Lemma chr_at_string l c n : Forall byte l → c ≠ 0 → chr_at l c = Some n → c_string (take n l).
Proof.
  intros F N. revert n. induction F as [|x l B F IH]; intros n; cbn; [done|]. destruct (x =? c); [intros [= <-]; constructor|]. destruct (Z.eqb_spec x 0) as [|Nx]; [done|].
  destruct (chr_at l c) as [m|] eqn:E; [|done]. intros [= <-]. cbn. constructor; [unfold byte in B; lia|by apply IH].
Qed.

(** ** Members *)

Create HintDb typed.
#[local] Hint Resolve i32_int atoi_int strtol16_int cstr_string ft_buf ft_buf1 ft_buf2 ft_content ft_chunk ft_chunks ft_cookies ft_location : typed.

Lemma typed_goto s cs : fields_typed s → fields_typed (goto s cs).
Proof. intros []. by split. Qed.

Lemma typed_bufs s b b1 b2 : fields_typed s → Forall byte b → Forall byte b1 → Forall byte b2 → fields_typed (set_bufs s b b1 b2).
Proof. intros []. by split. Qed.

Lemma typed_lengths s n m k : fields_typed s → int n → int m → int k → fields_typed (set_lengths s n m k).
Proof. intros []. by split. Qed.

Lemma typed_flags s a b c d : fields_typed s → fields_typed (set_flags s a b c d).
Proof. intros []. by split. Qed.

Lemma typed_found s m l : fields_typed s → map_Forall (λ k v, c_string k ∧ c_string v) m → c_string l → fields_typed (set_found s m l).
Proof. intros []. by split. Qed.

Lemma typed_clear s : fields_typed s → fields_typed (clear s) ∧ fields_typed (clear1 s) ∧ fields_typed (clear2 s).
Proof. intros F. split_and!; apply typed_bufs; auto with typed. Qed.

Lemma typed_buf s c : fields_typed s → byte c → fields_typed (buf s c) ∧ fields_typed (buf1 s c) ∧ fields_typed (buf2 s c).
Proof. intros F B. split_and!; apply typed_bufs; auto with typed; apply Forall_app; split; auto with typed. Qed.

#[local] Hint Resolve typed_goto typed_flags : typed.
#[local] Hint Extern 1 (fields_typed (clear _)) => eapply typed_clear : typed.
#[local] Hint Extern 1 (fields_typed (clear1 _)) => eapply typed_clear : typed.
#[local] Hint Extern 1 (fields_typed (clear2 _)) => eapply typed_clear : typed.
#[local] Hint Extern 1 (fields_typed (buf _ _)) => eapply typed_buf : typed.
#[local] Hint Extern 1 (fields_typed (buf1 _ _)) => eapply typed_buf : typed.
#[local] Hint Extern 1 (fields_typed (buf2 _ _)) => eapply typed_buf : typed.

Lemma byte_zero : byte 0.
Proof. unfold byte. lia. Qed.
#[local] Hint Resolve byte_zero : typed.

(** ** Actions *)

Lemma cookie_typed s s' : fields_typed s → cookie s = Ok s' → fields_typed s'.
Proof.
  intros F. unfold cookie. destruct (chr_at (rp_buf s) 59) as [p|]; [|by intros [= <-]]. destruct (p <? 12)%nat; [done|]. set (c := take _ _).
  assert (Forall byte c) as Fc by (apply Forall_take, Forall_drop, F). destruct (chr_at c 61) as [e|] eqn:E; [|by intros [= <-]]. intros [= <-].
  apply typed_found; [done| |apply F]. apply map_Forall_insert_2; [|apply F]. split; apply cstr_string; [by apply Forall_take|done].
Qed.

Lemma location_typed s s' : fields_typed s → find_location s = Ok s' → fields_typed s'.
Proof.
  intros F. unfold find_location. destruct (chr_at _ 58) as [p|]; [|by intros [= <-]]. set (rest := drop _ _). destruct (_ <=? _)%nat; [done|].
  destruct (chr_at (drop 3 rest) 47) as [q|]; [|by intros [= <-]]. destruct (chr_at (drop (3 + q) rest) 13) as [e|] eqn:E; [|done]. intros [= <-].
  apply typed_found; [done|apply F|]. refine (chr_at_string _ _ _ _ _ E); [|done]. do 2 apply Forall_drop. apply F.
Qed.

(** The tests that change only flags and lengths. *)
Lemma tests_typed s b : fields_typed s → fields_typed (transfer_encoding (content_encoding (connection (content_length s b) b) b) b).
Proof.
  intros F. assert (fields_typed (content_length s b)) as F1 by (unfold content_length; case_match; [apply typed_lengths; auto with typed|done]).
  unfold transfer_encoding, content_encoding, connection. repeat case_match; auto with typed.
Qed.

Lemma header_typed s s' cmds : fields_typed s → header s = Ok (s', cmds) → fields_typed s' ∧ Forall cmd_typed cmds.
Proof.
  intros F. unfold header. set (t := buf (buf2 (buf1 s 0) 0) 0). assert (fields_typed t) as Ft by (unfold t; auto 10 with typed). cbn zeta.
  pose proof (tests_typed t (rp_buf t) Ft) as F1. set (u := transfer_encoding _ _) in *. destruct (set_cookie u (rp_buf t)) as [v| |] eqn:E1; try done.
  assert (fields_typed v) as F2 by (revert E1; unfold set_cookie; case_match; [by apply cookie_typed|by intros [= <-]]). rewrite bind_Ok.
  destruct (set_location v (rp_buf t)) as [w| |] eqn:E2; try done. assert (fields_typed w) as F3 by (revert E2; unfold set_location; case_match; [by apply location_typed|by intros [= <-]]).
  rewrite bind_Ok. intros [= <- <-]. split; [auto with typed|]. apply Forall_app. split; [unfold content_type; case_match; by repeat constructor|].
  unfold header_nodes. repeat constructor; cbn; auto with typed.
Qed.

Lemma uri_typed s s' cmds : fields_typed s → uri s = (s', cmds) → fields_typed s' ∧ Forall cmd_typed cmds.
Proof.
  intros F [= <- <-]. split; [|by repeat constructor]. apply typed_clear, typed_buf; [|apply byte_zero]. apply typed_flags, typed_lengths; auto with typed; unfold int; lia.
Qed.

Lemma fin_typed s s' cmds : fields_typed s → fin s = (s', cmds) → rsp_typed s' ∧ Forall cmd_typed cmds.
Proof.
  intros F. unfold fin. destruct (Z.eqb_spec (rp_contentLength s) 0); [intros [= <- <-]; split; [split; [auto with typed|done]|by repeat constructor]|].
  destruct (Z.ltb_spec 0 (rp_contentLength s)); [intros [= <- <-]; split; [split; [auto with typed|done]|by repeat constructor]|].
  repeat case_match; intros [= <- <-]; (split; [split; [auto with typed|done]|by repeat constructor]).
Qed.

Lemma after_line_typed s cmds c s' cmds' : fields_typed s → Forall cmd_typed cmds → byte c → after_line s cmds c = (s', cmds') → rsp_typed s' ∧ Forall cmd_typed cmds'.
Proof.
  intros F C B. unfold after_line. destruct (is_name c); [intros [= <- <-]; split; [split; [auto 10 with typed|done]|done]|].
  destruct (c =? cr); [intros [= <- <-]; split; [split; [auto with typed|done]|done]|]. destruct (c =? lf); [|intros [= <- <-]; split; [split; [auto with typed|done]|constructor]].
  destruct (fin s) as [t cs] eqn:E. intros [= <- <-]. destruct (fin_typed _ _ _ F E) as [T Cs]. split; [done|]. by apply Forall_app.
Qed.

Lemma consume_typed s here enter s' cmds : fields_typed s → here = RLength ∨ here = RAll → Forall cmd_typed enter → consume s here enter = Ok (s', cmds) → rsp_typed s' ∧ Forall cmd_typed cmds.
Proof.
  intros F Hh C (n & [-> I]%in_int_inv & E)%bind_Ok_inv. revert E. destruct (Z.leb_spec (rp_contentLength s - 1) 0); intros [= <- <-].
  - split; [split; [apply typed_goto, typed_lengths; auto with typed|done]|]. rewrite !Forall_app. split_and!; by repeat constructor.
  - split; [split; [apply typed_goto, typed_lengths; auto with typed|]|done]. unfold state_typed. by destruct Hh as [->| ->]; cbn.
Qed.

Lemma chunk_typed s here enter s' cmds : fields_typed s → here = RFirst ∨ here = RNext → Forall cmd_typed enter → consume_chunk s here enter = Ok (s', cmds) → rsp_typed s' ∧ Forall cmd_typed cmds.
Proof.
  intros F Hh C (n & [-> I]%in_int_inv & E)%bind_Ok_inv. revert E. destruct (Z.eqb_spec (rp_chunkLength s - 1) 0); intros [= <- <-].
  - split; [split; [apply typed_goto, typed_lengths; auto with typed|done]|]. rewrite !Forall_app. split_and!; by repeat constructor.
  - split; [split; [apply typed_goto, typed_lengths; auto with typed|]|done]. unfold state_typed. by destruct Hh as [->| ->]; cbn.
Qed.

Lemma chunk_line_typed s s' cmds : fields_typed s → chunk_line s = Ok (s', cmds) → rsp_typed s' ∧ Forall cmd_typed cmds.
Proof.
  intros F. unfold chunk_line. set (t := buf _ _). assert (fields_typed t) as Ft by (apply typed_buf; [apply typed_lengths; auto with typed; apply i32_int|apply byte_zero]). cbn zeta.
  destruct (Z.eqb_spec (rp_chunkLength t) 0) as [|N]; [intros [= <- <-]; split; [split; [auto with typed|done]|by repeat constructor]|].
  intros (n & [-> I]%in_int_inv & E)%bind_Ok_inv. revert E. destruct (rp_chunks t =? 0); intros [= <- <-]; (split; [split; [apply typed_goto, typed_lengths; auto with typed|exact N]|constructor]).
Qed.

(** A state in which only the buffers changed. *)
Lemma stay_typed s cs : fields_typed s → state_typed (goto s cs) → rsp_typed (goto s cs) ∧ Forall cmd_typed [].
Proof. intros F S. split; [split; [by apply typed_goto|done]|constructor]. Qed.

(** The byte goes to a buffer at most. *)
Ltac stays := intros [= <- <-]; apply stay_typed; by auto 10 with typed.

(** Or it ends the line before a chunk. *)
Ltac line_ends := by apply chunk_line_typed.

(** A byte keeps what the parser has within its types. *)
Lemma step_typed s c s' cmds : rsp_typed s → byte c → rsp_step s c = Ok (s', cmds) → rsp_typed s' ∧ Forall cmd_typed cmds.
Proof.
  intros [F S] B. unfold rsp_step. destruct (rp_cs s) eqn:Cs;
    try (repeat case_match; stays).
  - intros [= <- <-]. by split.
  - destruct (follows c); [|stays]. destruct (uri s) as [t cs] eqn:E. destruct (uri_typed _ _ _ F E) as [Ft C]. intros [= E']. by eapply after_line_typed.
  - destruct (_ || _); [stays|]. destruct (follows c); [|stays].
    destruct (header s) as [[t cs]| |] eqn:E; try done. destruct (header_typed _ _ _ F E) as [Ft C]. rewrite bind_Ok. intros [= E']. by eapply after_line_typed.
  - destruct (c =? lf); [intros [= E]; by eapply fin_typed|stays].
  - apply consume_typed; [done|by left|by repeat constructor].
  - apply consume_typed; [done|by left|done].
  - apply consume_typed; [done|by right|by repeat constructor].
  - apply consume_typed; [done|by right|done].
  - apply chunk_typed; [done|by left|by repeat constructor].
  - apply chunk_typed; [done|by left|done].
  - apply chunk_typed; [done|by right|by repeat constructor].
  - apply chunk_typed; [done|by right|done].
  - repeat case_match; first [stays|line_ends].
  - repeat case_match; first [stays|line_ends].
  - repeat case_match; first [stays|line_ends].
Qed.

(** ** What is undefined *)

(** A body whose bytes are counted below the least int, a chunk so, one more than the most
    chunks an int counts; and a header with a cookie or a redirection that the parser is
    asked for and cannot take apart. *)
Definition undefined_at (s : Rsp) (c : Z) : Prop :=
  match rp_cs s with
  | RAll0 | RAll => rp_contentLength s = - 2 ^ 31
  | RFirst0 | RFirst | RNext0 | RNext => rp_chunkLength s = - 2 ^ 31
  | RChunkHex | RChunkExt | RChunkExtCr => c = lf ∧ strtol16 (rp_buf s) ≠ 0 ∧ rp_chunks s = 2 ^ 31 - 1
  | RHeader => (rp_wantCookies s = true ∨ rp_wantLocation s = true) ∧ follows c = true ∧ header s = Ub
  | _ => False
  end.

Lemma in_int_ub n : in_int n = Ub ↔ ¬ int n.
Proof. unfold in_int, int. destruct (Z.leb_spec (- 2 ^ 31) n), (Z.ltb_spec n (2 ^ 31)); cbn; split; try done; lia. Qed.

Lemma in_int_bind {A} n (f : Z → A) : ('m ← in_int n; Ok (f m)) = Ub ↔ ¬ int n.
Proof. rewrite <- in_int_ub. by destruct (in_int n). Qed.

Lemma consume_ub s here enter : int (rp_contentLength s) → consume s here enter = Ub ↔ rp_contentLength s = - 2 ^ 31.
Proof. intros I. unfold consume. rewrite in_int_bind. unfold int in *. lia. Qed.

Lemma consume_chunk_ub s here enter : int (rp_chunkLength s) → consume_chunk s here enter = Ub ↔ rp_chunkLength s = - 2 ^ 31.
Proof. intros I. unfold consume_chunk. rewrite in_int_bind. unfold int in *. lia. Qed.

Lemma chunk_line_ub s : int (rp_chunks s) → chunk_line s = Ub ↔ strtol16 (rp_buf s) ≠ 0 ∧ rp_chunks s = 2 ^ 31 - 1.
Proof.
  intros I. unfold chunk_line. cbn [rp_chunkLength buf set_bufs set_lengths rp_chunks]. destruct (Z.eqb_spec (strtol16 (rp_buf s)) 0) as [|N]; [naive_solver|].
  rewrite in_int_bind. unfold int in *. split; [intros; split; [done|lia]|lia].
Qed.

Lemma header_ub s : header s = Ub → rp_wantCookies s = true ∨ rp_wantLocation s = true.
Proof.
  destruct (rp_wantCookies s) eqn:Wc; [by left|]. destruct (rp_wantLocation s) eqn:Wl; [by right|]. unfold header. set (t := buf _ _). cbn zeta.
  assert (∀ u, rp_wantCookies (transfer_encoding (content_encoding (connection (content_length u (rp_buf t)) (rp_buf t)) (rp_buf t)) (rp_buf t)) = rp_wantCookies u ∧
    rp_wantLocation (transfer_encoding (content_encoding (connection (content_length u (rp_buf t)) (rp_buf t)) (rp_buf t)) (rp_buf t)) = rp_wantLocation u) as Same.
  { intros u. unfold transfer_encoding, content_encoding, connection, content_length. by repeat case_match. }
  destruct (Same t) as [Sc Sl]. unfold set_cookie. rewrite Sc. change (rp_wantCookies t) with (rp_wantCookies s). rewrite Wc. cbn [andb]. rewrite bind_Ok.
  unfold set_location. rewrite Sl. change (rp_wantLocation t) with (rp_wantLocation s). by rewrite Wl.
Qed.

Lemma blank_not_follows c : (c =? 32) || (c =? 9) = true → follows c = false.
Proof. intros [->%Z.eqb_eq| ->%Z.eqb_eq]%orb_true_iff; reflexivity. Qed.

(** Of a state within the types exactly these bytes are. *)
Lemma step_ub s c : rsp_typed s → rsp_step s c = Ub ↔ undefined_at s c.
Proof.
  intros [F S]. unfold rsp_step, undefined_at, state_typed in *. destruct (rp_cs s) eqn:Cs; try (repeat case_match; by split).
  - destruct ((c =? 32) || (c =? 9)) eqn:Eb; [apply blank_not_follows in Eb; split; [done|]; intros (_ & Ef & _); congruence|]. destruct (follows c); [|split; [done|]; by intros (_ & [=] & _)].
    pose proof (header_ub s) as Hu. destruct (header s) as [[]| |]; cbn; split; try done; try (intros; split_and!; by auto); by intros (_ & _ & [=]).
  - rewrite consume_ub by apply F. lia.
  - rewrite consume_ub by apply F. lia.
  - apply consume_ub, F.
  - apply consume_ub, F.
  - apply consume_chunk_ub, F.
  - apply consume_chunk_ub, F.
  - apply consume_chunk_ub, F.
  - apply consume_chunk_ub, F.
  - destruct (is_hex c) eqn:Eh; [split; [done|]; intros [-> _]; done|]. destruct (Z.eqb_spec c 59); [split; [done|]; intros [-> _]; done|].
    destruct (Z.eqb_spec c cr); [split; [done|]; intros [-> _]; done|]. destruct (Z.eqb_spec c lf) as [->|]; [|split; [done|]; by intros [? _]]. rewrite chunk_line_ub by apply F. tauto.
  - destruct (Z.eqb_spec c cr); [split; [done|]; intros [-> _]; done|]. destruct (Z.eqb_spec c lf) as [->|]; [|split; [done|]; by intros [? _]]. rewrite chunk_line_ub by apply F. tauto.
  - destruct (Z.eqb_spec c lf) as [->|]; [|split; [done|]; by intros [? _]]. rewrite chunk_line_ub by apply F. tauto.
Qed.

Lemma step_not_spin s c : rsp_step s c ≠ Spin.
Proof.
  assert (∀ n, in_int n ≠ Spin) as I by (intros n; unfold in_int; by case_match).
  assert (∀ here enter, consume s here enter ≠ Spin) as C1 by (intros h e; unfold consume; pose proof (I (rp_contentLength s - 1)); by destruct (in_int _)).
  assert (∀ here enter, consume_chunk s here enter ≠ Spin) as C2 by (intros h e; unfold consume_chunk; pose proof (I (rp_chunkLength s - 1)); by destruct (in_int _)).
  assert (chunk_line s ≠ Spin) as C3 by (unfold chunk_line; case_match; [done|]; match goal with |- context [in_int ?n] => pose proof (I n); by destruct (in_int n) end).
  assert (header s ≠ Spin) as C4.
  { unfold header, set_cookie, set_location, cookie, find_location. cbn zeta. repeat case_match; cbn; repeat case_match; done. }
  unfold rsp_step. destruct (rp_cs s); auto; repeat case_match; auto. by destruct (header s) as [[]| |].
Qed.


(** *** A response with a chunk that is too long *)

Definition typed_start : Rsp := MkRsp RMain [] [] [] 0 0 false false false false 0 true ∅ true [].

Definition long_chunk : list Z :=
  lit "HTTP/1.1 200 OK" ++ [cr; lf] ++ lit "Transfer-Encoding: chunked" ++ [cr; lf] ++ lit "Set-Cookie: a=b; Path=/" ++ [cr; lf] ++ [cr; lf] ++ lit "80000000" ++ [cr; lf].

