(* ===== verification/HttpMessages.v ===== *)
(** * Responses of HTTP, from their bytes to their bodies

    A response as it is written: a status line, headers, and a body of a given length or in
    chunks.  The parser of responses finds the head, and its body is delivered, however the
    bytes come in packets and however it is compressed. *)

From Stdlib Require Import String.
From S2P Require Import Prelude ConnState Vpt Tender Streams StreamsProps HttpRsp HttpRspProps.

(** ** Messages *)

Record Line := MkLine { ln_name : list Z; ln_value : list Z }.

Definition is_word (w : list Z) : Prop := w ≠ [] ∧ Forall (λ c, c ≠ 32) w.
Definition no_crlf (w : list Z) : Prop := Forall (λ c, c ≠ cr ∧ c ≠ lf) w.

Record good_line (l : Line) : Prop := GoodLine {
  gl_name : ln_name l ≠ [] ∧ Forall (λ c, is_name c = true) (ln_name l);
  gl_value : no_crlf (ln_value l);
}.

Definition line_bytes (l : Line) : list Z := ln_name l ++ [58] ++ ln_value l ++ [cr; lf].

Record Head := MkHead { hd_version : list Z; hd_code : list Z; hd_reason : list Z; hd_lines : list Line }.

Record good_head (h : Head) : Prop := GoodHead {
  gh_version : is_word (hd_version h);
  gh_code : is_word (hd_code h);
  gh_reason : hd_reason h ≠ [] ∧ no_crlf (hd_reason h);
  gh_lines : Forall good_line (hd_lines h);
}.

Definition status_bytes (h : Head) : list Z := hd_version h ++ [32] ++ hd_code h ++ [32] ++ hd_reason h ++ [cr; lf].
Definition head_bytes (h : Head) : list Z := status_bytes h ++ concat (line_bytes <$> hd_lines h) ++ [cr; lf].

(** A chunk: the digits of its length, in either case and with zeros before them, and what
    follows the length on its line. *)
Record Chunk := MkChunk { ck_digits : list Z; ck_ext : list Z; ck_data : list Z }.

Record good_chunk (k : Chunk) : Prop := GoodChunk {
  gc_digits : ck_digits k ≠ [] ∧ Forall (λ c, is_hex c = true) (ck_digits k);
  gc_value : foldl (λ acc c, acc * 16 + hex_val c) 0 (ck_digits k) = Z.of_nat (length (ck_data k));
  gc_ext : no_crlf (ck_ext k) ∧ match ck_ext k with [] => True | c :: e => c = 59 ∧ e ≠ [] end;
  gc_size : Z.of_nat (length (ck_data k)) < 2 ^ 31;
}.

Definition chunk_line_bytes (k : Chunk) : list Z := ck_digits k ++ ck_ext k ++ [cr; lf].
Definition chunk_bytes (k : Chunk) : list Z := chunk_line_bytes k ++ ck_data k ++ [cr; lf].

(** ** What the machine keeps *)

(** After a header was read, before its action. *)
Definition read_line (s : Rsp) (l : Line) : Rsp :=
  set_bufs (goto s RHeader) (line_bytes l) (ln_name l) (ln_value l ++ [cr; lf]).

(** The actions of headers, one after the other. *)
Fixpoint head_lines (s : Rsp) (ls : list Line) : res (Rsp * list Cmd) :=
  match ls with
  | [] => Ok (s, [])
  | l :: ls => '(s, cmds) ← header (read_line s l); '(s, cmds') ← head_lines s ls; Ok (s, cmds ++ cmds')
  end.

(** What plain commands record. *)
Definition cmd_acts (source : bool) (cmd : Cmd) : Trace Act :=
  match cmd with
  | CGenerate => [AGenerate]
  | CConsumer => [AConsumer]
  | CPair => [APair]
  | CPush type => [APush type]
  | CPop type => [APop type]
  | CText text => [AText text]
  | CPreFinish => if_source source [APreFinish]
  | CComplete => if_source source [AComplete]
  | _ => []
  end.

Definition acts (source : bool) (cmds : list Cmd) : Trace Act := concat (cmd_acts source <$> cmds).

Lemma acts_app source a b : acts source (a ++ b) = acts source a ++ acts source b.
Proof. unfold acts. by rewrite fmap_app, concat_app. Qed.

Section Messages.
Context (source : bool) (op cl : Trace Act).
Implicit Types (s : Rsp) (i : Ideal).

(** The machine on some bytes: where it goes, and what becomes of the body. *)
Definition runs s (bs : list Z) s' i i' : Prop :=
  ∃ l, script s bs = Ok (s', l) ∧ ideal_run source op cl i l = Some i'.

Lemma runs_nil s i : runs s [] s i i.
Proof. by exists []. Qed.

Lemma runs_app s a s1 i i1 b s2 i2 : runs s a s1 i i1 → runs s1 b s2 i1 i2 → runs s (a ++ b) s2 i i2.
Proof.
  intros (l & E & F) (k & E' & F'). exists (l ++ k). rewrite script_app, E, bind_Ok, E', bind_Ok, ideal_run_app, F. done.
Qed.

Lemma runs_step s c s' cmds i i' : rp_cs s ≠ RError → rsp_step s c = Ok (s', cmds) → ideal_byte source op cl i (c, cmds) = Some i' → runs s [c] s' i i'.
Proof.
  intros N E F. exists [(c, cmds)]. cbn [script]. cbn [m_error rsp_machine m_step]. rewrite bool_decide_eq_false_2 by done. rewrite E. cbn [mbind res_bind].
  split; [done|]. cbn [ideal_run]. by rewrite F.
Qed.

Lemma runs_cons s c s' cmds i i' bs s2 i2 : rp_cs s ≠ RError → rsp_step s c = Ok (s', cmds) → ideal_byte source op cl i (c, cmds) = Some i' → runs s' bs s2 i' i2 → runs s (c :: bs) s2 i i2.
Proof. intros N E F Rn. apply (runs_app _ [c] s' _ i'); [by eapply runs_step|done]. Qed.

(** While there is no body. *)
Definition outside i (t : Trace Act) : Ideal := MkIdeal (id_body i) (id_quiet i ++ t) (id_done i).

Lemma outside_app i t u : outside (outside i t) u = outside i (t ++ u).
Proof. unfold outside. cbn. by rewrite app_assoc. Qed.

Lemma outside_nil i : outside i [] = i.
Proof. unfold outside. rewrite app_nil_r. by destruct i. Qed.

Lemma plain_outside c i cmds : forallb plain cmds = true → ideal_cmds source op cl c i cmds = Some (outside i (acts source cmds)).
Proof.
  revert i. induction cmds as [|cmd cmds IH]; intros i F; cbn in F |- *; [by rewrite outside_nil|]. apply andb_true_iff in F as [Fc F].
  assert (ideal_cmd source op cl c i cmd = Some (outside i (cmd_acts source cmd))) as ->. { destruct cmd; try done. cbn. by rewrite outside_nil. }
  cbn. rewrite IH by done. by rewrite outside_app.
Qed.

Lemma plain_outside_byte c i cmds : forallb plain cmds = true → is_open i = false → ideal_byte source op cl i (c, cmds) = Some (outside i (acts source cmds)).
Proof. intros F O. unfold ideal_byte. cbn [fst snd]. rewrite plain_outside by done. cbn. unfold is_open in O. unfold outside. by destruct (id_body i). Qed.

(** A step without calls. *)
Lemma runs_silent s c s' i : is_open i = false → rp_cs s ≠ RError → rsp_step s c = Ok (s', []) → runs s [c] s' i i.
Proof. intros O N E. eapply runs_step; [done|exact E|]. rewrite plain_outside_byte by done. by rewrite outside_nil. Qed.

(** A loop without calls. *)
Lemma runs_loop (Q : Z → Prop) (Inv : Rsp → Prop) (add : Rsp → Z → Rsp) s w i : is_open i = false →
  (∀ s c, Inv s → Q c → rp_cs s ≠ RError ∧ rsp_step s c = Ok (add s c, []) ∧ Inv (add s c)) → Inv s → Forall Q w → runs s w (foldl add s w) i i.
Proof.
  intros O Hs. revert s. induction w as [|c w IH]; intros s Hi F; [apply runs_nil|]. apply Forall_cons in F as [Fc F]. destruct (Hs s c Hi Fc) as (N & E & Hi').
  cbn. apply (runs_app _ [c] (add s c) _ i); [by apply runs_silent|by apply IH].
Qed.

Lemma goto_goto s a b : goto (goto s a) b = goto s b.
Proof. done. Qed.

Lemma rsp_eta s : MkRsp (rp_cs s) (rp_buf s) (rp_buf1 s) (rp_buf2 s) (rp_contentLength s) (rp_chunkLength s) (rp_isGzipped s) (rp_isBrotli s) (rp_isChunked s) (rp_isConnectionClose s) (rp_chunks s)
  (rp_wantCookies s) (rp_cookies s) (rp_wantLocation s) (rp_location s) = s.
Proof. by destruct s. Qed.

(** Where the bytes go that are buffered: each in its buffer. *)
Definition add_bufs s cs (b b1 b2 : list Z) : Rsp := set_bufs (goto s cs) (rp_buf s ++ b) (rp_buf1 s ++ b1) (rp_buf2 s ++ b2).

Lemma add_bufs_add s cs cs' a b a1 b1 a2 b2 : add_bufs (add_bufs s cs a a1 a2) cs' b b1 b2 = add_bufs s cs' (a ++ b) (a1 ++ b1) (a2 ++ b2).
Proof. unfold add_bufs, set_bufs, goto. cbn. by rewrite !app_assoc. Qed.

Lemma add_bufs_nil s cs : rp_cs s = cs → add_bufs s cs [] [] [] = s.
Proof. intros <-. unfold add_bufs, set_bufs, goto. cbn. rewrite !app_nil_r. by destruct s. Qed.

(** A loop in a state that puts the bytes in buffers. *)
Lemma buffer_loop cs (Q : Z → Prop) (one two : bool) s w i : is_open i = false → cs ≠ RError → rp_cs s = cs →
  (∀ s c, rp_cs s = cs → Q c → rsp_step s c = Ok (add_bufs s cs [c] (if one then [c] else []) (if two then [c] else []), [])) → Forall Q w →
  runs s w (add_bufs s cs w (if one then w else []) (if two then w else [])) i i.
Proof.
  intros O N Es Hs. revert s Es. induction w as [|c w IH]; intros s Es F.
  - destruct one, two; rewrite add_bufs_nil by done; apply runs_nil.
  - apply Forall_cons in F as [Fc F]. apply (runs_app _ [c] (add_bufs s cs [c] (if one then [c] else []) (if two then [c] else [])) _ i).
    + apply runs_silent; [done|congruence|by apply Hs].
    + replace (add_bufs s cs (c :: w) _ _) with (add_bufs (add_bufs s cs [c] (if one then [c] else []) (if two then [c] else [])) cs w (if one then w else []) (if two then w else [])).
      { by apply IH. }
      rewrite add_bufs_add. by destruct one, two.
Qed.

Lemma buf_add s c cs : goto (buf s c) cs = add_bufs s cs [c] [] [].
Proof. unfold add_bufs, goto, buf, set_bufs. cbn. by rewrite !app_nil_r. Qed.

Ltac zcase := repeat match goal with |- context [Z.eqb ?a ?b] => destruct (Z.eqb_spec a b); try (exfalso; cbn in *; congruence) end.

Lemma runs_version s w i : is_open i = false → rp_cs s = RMain → is_word w → runs s (w ++ [32]) (add_bufs s RSpace1 (w ++ [32]) [] []) i i.
Proof.
  intros O Es [Nw Fw]. destruct w as [|c w]; [done|]. apply Forall_cons in Fw as [Fc Fw]. eapply (runs_app _ [c] _ _ i).
  { apply runs_silent; [done|by rewrite Es|]. unfold rsp_step. rewrite Es. zcase. cbn -[goto buf]. by rewrite buf_add. }
  eapply (runs_app _ w _ _ i).
  { apply (buffer_loop RWord1 (λ c, c ≠ 32) false false); [done|done|done| |done]. intros s' c' Es' Hc. unfold rsp_step. rewrite Es'. zcase. by rewrite buf_add. }
  rewrite add_bufs_add. replace (add_bufs s RSpace1 _ _ _) with (add_bufs (add_bufs s RWord1 ([c] ++ w) [] []) RSpace1 [32] [] []) by by rewrite add_bufs_add.
  apply runs_silent; [done|done|]. unfold rsp_step. cbn [rp_cs add_bufs goto set_bufs]. by rewrite buf_add.
Qed.

Lemma runs_code s w i : is_open i = false → rp_cs s = RSpace1 → is_word w → runs s (w ++ [32]) (add_bufs s RSpace2 (w ++ [32]) [] []) i i.
Proof.
  intros O Es [Nw Fw]. destruct w as [|c w]; [done|]. apply Forall_cons in Fw as [Fc Fw]. eapply (runs_app _ [c] _ _ i).
  { apply runs_silent; [done|by rewrite Es|]. unfold rsp_step. rewrite Es. zcase. cbn -[goto buf]. by rewrite buf_add. }
  eapply (runs_app _ w _ _ i).
  { apply (buffer_loop RWord2 (λ c, c ≠ 32) false false); [done|done|done| |done]. intros s' c' Es' Hc. unfold rsp_step. rewrite Es'. zcase. by rewrite buf_add. }
  rewrite add_bufs_add. replace (add_bufs s RSpace2 _ _ _) with (add_bufs (add_bufs s RWord2 ([c] ++ w) [] []) RSpace2 [32] [] []) by by rewrite add_bufs_add.
  apply runs_silent; [done|done|]. unfold rsp_step. cbn [rp_cs add_bufs goto set_bufs]. by rewrite buf_add.
Qed.

Lemma runs_reason s w i : is_open i = false → rp_cs s = RSpace2 → w ≠ [] → no_crlf w → runs s (w ++ [cr; lf]) (add_bufs s RStatus (w ++ [cr; lf]) [] []) i i.
Proof.
  intros O Es Nw Fw. destruct w as [|c w]; [done|]. apply Forall_cons in Fw as [[Fc Fl] Fw]. eapply (runs_app _ [c] _ _ i).
  { apply runs_silent; [done|by rewrite Es|]. unfold rsp_step. rewrite Es. zcase. cbn -[goto buf]. by rewrite buf_add. }
  eapply (runs_app _ w _ _ i).
  { apply (buffer_loop RReason (λ c, c ≠ cr ∧ c ≠ lf) false false); [done|done|done| |done]. intros s' c' Es' [Hc Hl]. unfold rsp_step. rewrite Es'. zcase. by rewrite buf_add. }
  rewrite add_bufs_add. replace (add_bufs s RStatus _ _ _) with (add_bufs (add_bufs (add_bufs s RReason ([c] ++ w) [] []) RReasonCr [cr] [] []) RStatus [lf] [] []).
  2: { rewrite !add_bufs_add. by rewrite <- app_assoc. }
  apply (runs_app _ [cr] (add_bufs (add_bufs s RReason ([c] ++ w) [] []) RReasonCr [cr] [] []) _ i); (apply runs_silent; [done|done|]); unfold rsp_step; cbn [rp_cs add_bufs goto set_bufs]; by rewrite buf_add.
Qed.

Lemma runs_status s h i : is_open i = false → rp_cs s = RMain → good_head h → runs s (status_bytes h) (add_bufs s RStatus (status_bytes h) [] []) i i.
Proof.
  intros O Es [Gv Gc [Gr Gn] _]. unfold status_bytes. rewrite !(app_assoc _ [32]).
  eapply runs_app; [by apply runs_version|]. rewrite (app_assoc (hd_version h ++ [32])). replace (add_bufs s RStatus _ [] []) with
    (add_bufs (add_bufs (add_bufs s RSpace1 (hd_version h ++ [32]) [] []) RSpace2 (hd_code h ++ [32]) [] []) RStatus (hd_reason h ++ [cr; lf]) [] []).
  2: { rewrite !add_bufs_add. f_equal. by rewrite <- !app_assoc. }
  eapply runs_app; [by apply runs_code|]. by apply runs_reason.
Qed.

(** *** Headers *)

(** A state behind a line, whose action is still to come. *)
Record pending p s (pre : list Cmd) : Prop := Pending {
  pd_cs : rp_cs p ≠ RError;
  pd_step : ∀ c, follows c = true → rsp_step p c = Ok (after_line s pre c);
  pd_plain : forallb plain pre = true;
  pd_buf : rp_buf s = [];
}.

Lemma follows_name c : is_name c = true → follows c = true.
Proof. unfold follows. by intros ->. Qed.

Lemma follows_not_blank c : follows c = true → c ≠ 32 ∧ c ≠ 9.
Proof. intros F. split; intros ->; by vm_compute in F. Qed.

Lemma pending_status p : rp_cs p = RStatus → pending p (uri p).1 (uri p).2.
Proof. intros Es. split; [by rewrite Es| |done|done]. intros c F. unfold rsp_step. by rewrite Es, F. Qed.

Lemma header_step p c : rp_cs p = RHeader → follows c = true → rsp_step p c = '(s, cmds) ← header p; Ok (after_line s cmds c).
Proof.
  intros Es F. pose proof (follows_not_blank c F) as [N1 N2]. unfold rsp_step. rewrite Es, F. apply Z.eqb_neq in N1, N2. rewrite N1, N2. reflexivity.
Qed.

Lemma header_buf p s cmds : header p = Ok (s, cmds) → rp_buf s = [].
Proof.
  unfold header. intros E. apply bind_Ok_inv in E as (s1 & _ & E). apply bind_Ok_inv in E as (s2 & _ & E). injection E as <- _. reflexivity.
Qed.

Lemma pending_header p s cmds : rp_cs p = RHeader → header p = Ok (s, cmds) → pending p s cmds.
Proof.
  intros Es E. split; [by rewrite Es| |by eapply header_plain|by eapply header_buf].
  intros c F. rewrite header_step by done. by rewrite E.
Qed.

Lemma buf12_add s c cs : goto (buf (buf1 s c) c) cs = add_bufs s cs [c] [c] [] ∧ goto (buf (buf2 s c) c) cs = add_bufs s cs [c] [] [c].
Proof. unfold add_bufs, goto, buf, buf1, buf2, set_bufs. cbn. by rewrite !app_nil_r. Qed.

(** The value of a header, with the end of its line. *)
Lemma runs_value s v i : is_open i = false → rp_cs s = RColon → no_crlf v →
  runs s (v ++ [cr; lf]) (set_bufs (goto s RHeader) (rp_buf s ++ v ++ [cr; lf]) (rp_buf1 s) (v ++ [cr; lf])) i i.
Proof.
  intros O Es Fv. set (s0 := clear2 s).
  assert (∀ s' w, no_crlf w → rp_cs s' = RValue → runs s' (w ++ [cr; lf]) (add_bufs s' RHeader (w ++ [cr; lf]) [] (w ++ [cr; lf])) i i) as Tail.
  { intros s' w Fw Es'. eapply (runs_app _ w _ _ i).
    { apply (buffer_loop RValue (λ c, c ≠ cr ∧ c ≠ lf) false true); [done|done|done| |done]. intros s1 c1 E1 [Hc Hl]. unfold rsp_step. rewrite E1. zcase. by rewrite (proj2 (buf12_add _ _ _)). }
    replace (add_bufs s' RHeader _ _ _) with (add_bufs (add_bufs (add_bufs s' RValue w [] w) RValueCr [cr] [] [cr]) RHeader [lf] [] [lf]).
    2: { by rewrite !add_bufs_add. }
    apply (runs_app _ [cr] (add_bufs (add_bufs s' RValue w [] w) RValueCr [cr] [] [cr]) _ i); (apply runs_silent; [done|done|]); unfold rsp_step; cbn [rp_cs add_bufs goto set_bufs]; by rewrite (proj2 (buf12_add _ _ _)). }
  destruct v as [|c v].
  - apply (runs_app _ [cr] (add_bufs s0 RValueCr [cr] [] [cr]) _ i).
    + apply runs_silent; [done|by rewrite Es|]. unfold rsp_step. rewrite Es. by rewrite (proj2 (buf12_add _ _ _)).
    + replace (set_bufs _ _ _ _) with (add_bufs (add_bufs s0 RValueCr [cr] [] [cr]) RHeader [lf] [] [lf]) by (rewrite add_bufs_add; unfold add_bufs, set_bufs, goto; cbn; by rewrite app_nil_r).
      apply runs_silent; [done|done|]. unfold rsp_step; cbn [rp_cs add_bufs goto set_bufs]; by rewrite (proj2 (buf12_add _ _ _)).
  - apply Forall_cons in Fv as [[Hc Hl] Fv]. apply (runs_app _ [c] (add_bufs s0 RValue [c] [] [c]) _ i).
    + apply runs_silent; [done|by rewrite Es|]. unfold rsp_step. rewrite Es. zcase. by rewrite (proj2 (buf12_add _ _ _)).
    + replace (set_bufs _ _ _ _) with (add_bufs (add_bufs s0 RValue [c] [] [c]) RHeader (v ++ [cr; lf]) [] (v ++ [cr; lf])) by (rewrite add_bufs_add; unfold add_bufs, set_bufs, goto; cbn; by rewrite app_nil_r).
      by apply Tail.
Qed.

Lemma runs_line p s pre l i : is_open i = false → pending p s pre → good_line l → runs p (line_bytes l) (read_line s l) i (outside i (acts source pre)).
Proof.
  intros O [Np St Pl Bf] [[Nn Fn] Fv]. unfold line_bytes, read_line. destruct (ln_name l) as [|c n] eqn:En; [done|]. apply Forall_cons in Fn as [Fc Fn].
  assert (is_open (outside i (acts source pre)) = false) as O' by done. set (s0 := clear1 s).
  apply (runs_app _ [c] (add_bufs s0 RName [c] [c] []) _ (outside i (acts source pre))).
  { apply (runs_step _ _ _ pre); [done| |by apply plain_outside_byte]. rewrite St by by apply follows_name. unfold after_line. rewrite Fc. by rewrite (proj1 (buf12_add _ _ _)). }
  eapply runs_app.
  { apply (buffer_loop RName (λ c, is_name c = true) true false); [done|done|done| |exact Fn]. intros s1 c1 E1 Hc. unfold rsp_step. rewrite E1, Hc. by rewrite (proj1 (buf12_add _ _ _)). }
  rewrite add_bufs_add. eapply (runs_app _ [58]).
  { apply runs_silent; [done|done|]. unfold rsp_step. cbn [rp_cs add_bufs goto set_bufs]. cbn -[goto buf add_bufs]. by rewrite buf_add. }
  rewrite add_bufs_add. match goal with |- runs ?a _ _ _ _ => set (sc := a) end.
  replace (set_bufs _ _ _ _) with (set_bufs (goto sc RHeader) (rp_buf sc ++ ln_value l ++ [cr; lf]) (rp_buf1 sc) (ln_value l ++ [cr; lf])); [by apply runs_value|].
  unfold sc, add_bufs, set_bufs, goto, s0. cbn. unfold line_bytes. rewrite Bf, En, app_nil_r. cbn. by rewrite <- app_assoc.
Qed.

(** Headers up to the empty line. *)
Lemma runs_lines ls p s pre s' cmds i : is_open i = false → pending p s pre → Forall good_line ls → head_lines s ls = Ok (s', cmds) →
  runs p (concat (line_bytes <$> ls) ++ [cr]) (goto s' REmptyCr) i (outside i (acts source (pre ++ cmds))).
Proof.
  revert p s pre cmds i. induction ls as [|l ls IH]; intros p s pre cmds i O Pd F E; cbn [head_lines] in E.
  - injection E as <- <-. rewrite app_nil_r. cbn [fmap list_fmap concat app]. destruct Pd as [Np St Pl Bf]. apply (runs_step _ _ _ pre); [done| |by apply plain_outside_byte].
    by rewrite St.
  - apply Forall_cons in F as [Fl F]. apply bind_Ok_inv in E as ([s1 c1] & E1 & E). apply bind_Ok_inv in E as ([s2 c2] & E2 & [= <- <-]).
    rewrite fmap_cons. cbn [concat]. rewrite <- app_assoc. eapply runs_app; [by apply (runs_line p s pre)|].
    rewrite acts_app, <- outside_app. apply (IH _ s1); [done|by apply pending_header|done|done].
Qed.

(** The head up to the last byte: what it says is kept, and recorded. *)
Lemma runs_head h s s' cmds i : is_open i = false → rp_cs s = RMain → good_head h → head_lines (uri (goto s RStatus)).1 (hd_lines h) = Ok (s', cmds) →
  runs s (status_bytes h ++ concat (line_bytes <$> hd_lines h) ++ [cr]) (goto s' REmptyCr) i (outside i (acts source ((uri s).2 ++ cmds))).
Proof.
  intros O Es G E. eapply runs_app; [by apply runs_status|]. set (p := add_bufs _ _ _ _ _).
  assert (uri p = uri (goto s RStatus)) as Eu. { unfold p, uri, add_bufs, set_bufs, clear, set_bufs, goto, set_lengths, set_flags. cbn. by rewrite !app_nil_r. }
  change (uri s).2 with (uri p).2. apply (runs_lines _ p (uri p).1); [done|by apply pending_status|by destruct G|by rewrite Eu].
Qed.

(** *** Bodies *)

(** What is recorded around a body. *)
Definition before_body : Trace Act := if_source source [ANext] ++ op.
Definition after_body : Trace Act := if_source source [APreFinish] ++ cl ++ if_source source [AComplete] ++ [APop HttpResponse].

Definition body_done i (gz br : bool) (b : list Z) (t : Trace Act) : Ideal := MkIdeal Nowhere (id_quiet i ++ t) (id_done i ++ [(gz, br, b)]).

Lemma in_int_pred n : 0 < n < 2 ^ 31 → in_int (n - 1) = Ok (n - 1).
Proof. intros. apply in_int_ok; lia. Qed.

(** A body with a length. *)
Lemma sized_rest s gz br b0 b q d : rp_cs s = RLength → b ≠ [] → rp_contentLength s = Z.of_nat (length b) → Z.of_nat (length b) < 2 ^ 31 →
  ∃ s', rp_cs s' = RMain ∧ runs s b s' (MkIdeal (Open gz br b0) q d) (MkIdeal Nowhere (q ++ after_body) (d ++ [(gz, br, b0 ++ b)])).
Proof.
  revert s b0. induction b as [|c b IH]; intros s b0 Es N L S; [done|]. cbn in L, S.
  assert (rsp_step s c = consume s RLength []) as St by by (unfold rsp_step; rewrite Es). unfold consume in St. rewrite L, in_int_pred, bind_Ok in St by lia.
  destruct b as [|c' b].
  - cbn in St. eexists. split; [|eapply runs_step; [by rewrite Es|exact St|]]; [done|]. cbn. unfold after_body, if_source. destruct source; cbn; by rewrite <- ?app_assoc.
  - rewrite (proj2 (Z.leb_gt _ _)) in St by (cbn in *; lia). replace (Z.of_nat (Datatypes.S (length (c' :: b))) - 1) with (Z.of_nat (length (c' :: b))) in St by (cbn; lia). destruct (IH (goto (set_lengths s (Z.of_nat (length (c' :: b))) (rp_chunkLength s) (rp_chunks s)) RLength) (b0 ++ [c])) as (s' & E' & Rn); [done..|cbn in *; lia|].
    exists s'. split; [done|]. eapply runs_cons; [by rewrite Es|exact St|done|]. rewrite <- app_assoc in Rn. exact Rn.
Qed.

Lemma sized_body s b i : id_body i = Nowhere → rp_cs s = RLength0 → b ≠ [] → rp_contentLength s = Z.of_nat (length b) → Z.of_nat (length b) < 2 ^ 31 →
  ∃ s', rp_cs s' = RMain ∧ runs s b s' i (body_done i (rp_isGzipped s) (rp_isBrotli s) b (before_body ++ after_body)).
Proof.
  intros Ei Es N L S. destruct b as [|c b]; [done|]. cbn in L, S.
  assert (rsp_step s c = consume s RLength [dest s; CStart]) as St by by (unfold rsp_step; rewrite Es). unfold consume in St. rewrite L, in_int_pred, bind_Ok in St by lia.
  unfold body_done. destruct b as [|c' b].
  - cbn in St. eexists. split; [|eapply runs_step; [by rewrite Es|exact St|]]; [done|]. unfold ideal_byte. cbn. rewrite Ei. cbn. unfold before_body, after_body, if_source. destruct source; cbn; by rewrite <- ?app_assoc.
  - rewrite (proj2 (Z.leb_gt _ _)) in St by (cbn in *; lia). replace (Z.of_nat (Datatypes.S (length (c' :: b))) - 1) with (Z.of_nat (length (c' :: b))) in St by (cbn; lia).
    destruct (sized_rest (goto (set_lengths s (Z.of_nat (length (c' :: b))) (rp_chunkLength s) (rp_chunks s)) RLength) (rp_isGzipped s) (rp_isBrotli s) [c] (c' :: b) (id_quiet i ++ before_body) (id_done i)) as (s' & E' & Rn); [done..|cbn in *; lia|].
    exists s'. split; [done|]. eapply runs_cons; [by rewrite Es|exact St| |]; last first.
    + rewrite <- app_assoc in Rn. exact Rn.
    + unfold ideal_byte. cbn. rewrite Ei. cbn. unfold before_body. by rewrite app_assoc.
Qed.

(** *** Bodies in chunks *)

Lemma strtol16_chunk k : good_chunk k → strtol16 (ck_digits k) = Z.of_nat (length (ck_data k)).
Proof.
  intros [_ V _ S]. unfold strtol16. rewrite V. assert (to_long (Z.of_nat (length (ck_data k))) = Z.of_nat (length (ck_data k))) as -> by (unfold to_long; lia). apply wraps_small; lia.
Qed.

(** A hexadecimal digit is none of the bytes that end or separate lines. *)
Lemma hex_not c : is_hex c = true → c ≠ cr ∧ c ≠ lf ∧ c ≠ 59.
Proof. intros F. split_and!; intros ->; by vm_compute in F. Qed.

(** The line before a chunk, up to the last byte. *)
Lemma runs_chunk_line s k i : is_open i = false → rp_cs s = RChunk0 → good_chunk k →
  runs s (ck_digits k ++ ck_ext k ++ [cr]) (set_bufs (goto s RChunkExtCr) (ck_digits k) (rp_buf1 s) (rp_buf2 s)) i i.
Proof.
  intros O Es [[Nd Fd] _ [Fe He] _]. destruct (ck_digits k) as [|c d]; [done|]. apply Forall_cons in Fd as [Fc Fd]. set (s0 := clear s).
  assert (∀ s', rp_cs s' = RChunkHex ∨ rp_cs s' = RChunkExt → runs s' [cr] (goto s' RChunkExtCr) i i) as Last.
  { intros s' Hc. apply runs_silent; [done|destruct Hc; congruence|]. unfold rsp_step. by destruct Hc as [-> | ->]. }
  apply (runs_app _ [c] (add_bufs s0 RChunkHex [c] [] []) _ i).
  { apply runs_silent; [done|by rewrite Es|]. unfold rsp_step. rewrite Es. destruct (hex_not c Fc) as (N1 & N2 & _). zcase. rewrite Fc. by rewrite buf_add. }
  eapply runs_app.
  { apply (buffer_loop RChunkHex (λ c, is_hex c = true) false false); [done|done|done| |exact Fd]. intros s1 c1 E1 Hc. unfold rsp_step. rewrite E1, Hc. by rewrite buf_add. }
  rewrite add_bufs_add. replace (set_bufs _ _ _ _) with (goto (add_bufs s0 RChunkHex ([c] ++ d) [] []) RChunkExtCr) by (unfold add_bufs, set_bufs, goto; cbn; by rewrite !app_nil_r).
  set (sh := add_bufs s0 RChunkHex ([c] ++ d) [] []). destruct (ck_ext k) as [|e ext]; [by apply Last; left|]. destruct He as [-> Ne]. destruct ext as [|e ext]; [done|].
  apply Forall_cons in Fe as [_ Fe]. apply Forall_cons in Fe as [[E1 E2] Fe]. apply (runs_app _ [59] (goto sh RChunkSemi) _ i); [by apply runs_silent|].
  apply (runs_app _ [e] (goto sh RChunkExt) _ i). { apply runs_silent; [done|done|]. unfold rsp_step. cbn [rp_cs goto]. by zcase. }
  apply (runs_app _ ext (goto sh RChunkExt) _ i); [|by apply (Last (goto sh RChunkExt)); right]. clear Last Ne. induction ext as [|e' ext IH]; [apply runs_nil|].
  apply Forall_cons in Fe as [[E3 E4] Fe]. apply (runs_app _ [e'] (goto sh RChunkExt) _ i); [|by apply IH]. apply runs_silent; [done|done|]. unfold rsp_step. cbn [rp_cs goto]. by zcase.
Qed.

(** The rest of the data of a chunk. *)
Lemma chunk_rest s here gz br b0 b q d : here = RFirst ∨ here = RNext → rp_cs s = here → b ≠ [] → rp_chunkLength s = Z.of_nat (length b) → Z.of_nat (length b) < 2 ^ 31 →
  runs s b (goto (set_lengths s (rp_contentLength s) 0 (rp_chunks s)) RChunk0) (MkIdeal (Open gz br b0) q d) (MkIdeal (Paused gz br (b0 ++ b)) q d).
Proof.
  intros Hh. revert s b0. induction b as [|c b IH]; intros s b0 Es N L S; [done|]. cbn in L, S.
  assert (rsp_step s c = consume_chunk s here []) as St by by (unfold rsp_step; rewrite Es; destruct Hh as [-> | ->]). unfold consume_chunk in St. rewrite L, in_int_pred, bind_Ok in St by lia.
  destruct b as [|c' b].
  - eapply runs_step; [destruct Hh; congruence|exact St|]. done.
  - rewrite (proj2 (Z.eqb_neq _ _)) in St by (cbn in *; lia). replace (Z.of_nat (Datatypes.S (length (c' :: b))) - 1) with (Z.of_nat (length (c' :: b))) in St by (cbn; lia).
    eapply runs_cons; [destruct Hh; congruence|exact St|done|]. pose proof (IH (goto (set_lengths s (rp_contentLength s) (Z.of_nat (length (c' :: b))) (rp_chunks s)) here) (b0 ++ [c]) eq_refl) as Rn.
    rewrite <- app_assoc in Rn. apply Rn; [done|done|cbn in *; lia].
Qed.

(** The data of a chunk, in the state it begins in. *)
Lemma chunk_first s here0 here enter gz br b0 b i q d : (here0, here, enter) = (RFirst0, RFirst, [dest s; CStart]) ∨ (here0, here, enter) = (RNext0, RNext, [CResume]) →
  rp_cs s = here0 → b ≠ [] → rp_chunkLength s = Z.of_nat (length b) → Z.of_nat (length b) < 2 ^ 31 →
  (∀ c, ideal_cmds source op cl c i enter = Some (MkIdeal (Open gz br b0) q d)) →
  runs s b (goto (set_lengths s (rp_contentLength s) 0 (rp_chunks s)) RChunk0) i (MkIdeal (Paused gz br (b0 ++ b)) q d).
Proof.
  intros Hh Es N L S Hi. destruct b as [|c b]; [done|]. cbn in L, S.
  assert (rsp_step s c = consume_chunk s here enter) as St by by (unfold rsp_step; rewrite Es; destruct Hh as [[= -> -> ->]|[= -> -> ->]]). unfold consume_chunk in St. rewrite L, in_int_pred, bind_Ok in St by lia.
  assert (rp_cs s ≠ RError) as Ne by (rewrite Es; destruct Hh as [[= -> -> ->]|[= -> -> ->]]; done). destruct b as [|c' b].
  - eapply runs_step; [done|exact St|]. unfold ideal_byte. cbn [fst snd]. by rewrite ideal_cmds_app, Hi.
  - rewrite (proj2 (Z.eqb_neq _ _)) in St by (cbn in *; lia). replace (Z.of_nat (Datatypes.S (length (c' :: b))) - 1) with (Z.of_nat (length (c' :: b))) in St by (cbn; lia).
    eapply runs_cons; [done|exact St|unfold ideal_byte; cbn [fst snd]; by rewrite Hi|]. pose proof (chunk_rest (goto (set_lengths s (rp_contentLength s) (Z.of_nat (length (c' :: b))) (rp_chunks s)) here) here gz br (b0 ++ [c]) (c' :: b) q d) as Rn.
    rewrite <- app_assoc in Rn. apply Rn; [destruct Hh as [[= -> -> ->]|[= -> -> ->]]; [by left|by right]|done|done|done|cbn in *; lia].
Qed.

(** A chunk with its line and the end of line behind it. *)
Lemma runs_chunk s k i gz br b0 q d n : is_open i = false → rp_cs s = RChunk0 → good_chunk k → ck_data k ≠ [] → rp_chunks s = Z.of_nat n → Z.of_nat n < 2 ^ 31 - 1 →
  (∀ c, ideal_cmds source op cl c i (if decide (n = 0%nat) then [CDest (rp_isGzipped s) (rp_isBrotli s); CStart] else [CResume]) = Some (MkIdeal (Open gz br b0) q d)) →
  ∃ s', rp_cs s' = RChunk0 ∧ rp_chunks s' = Z.of_nat (S n) ∧ rp_isGzipped s' = rp_isGzipped s ∧ rp_isBrotli s' = rp_isBrotli s ∧
    runs s (chunk_bytes k) s' i (MkIdeal (Paused gz br (b0 ++ ck_data k)) q d).
Proof.
  intros O Es G Nd En Ln Hi. pose proof (strtol16_chunk k G) as V. pose proof (gc_size k G) as Sz.
  assert (0 < Z.of_nat (length (ck_data k))) as Lp by (destruct (ck_data k); [done|cbn; lia]).
  set (s1 := set_bufs (goto s RChunkExtCr) (ck_digits k) (rp_buf1 s) (rp_buf2 s)).
  set (s2 := goto (set_lengths (buf (set_lengths s1 (rp_contentLength s) (Z.of_nat (length (ck_data k))) (rp_chunks s)) 0) (rp_contentLength s) (Z.of_nat (length (ck_data k))) (Z.of_nat (S n))) (if decide (n = 0%nat) then RFirst0 else RNext0)).
  assert (rsp_step s1 lf = Ok (s2, [])) as St.
  { unfold rsp_step. cbn [rp_cs s1 set_bufs goto]. rewrite Z.eqb_refl. unfold chunk_line. replace (strtol16 (rp_buf s1)) with (Z.of_nat (length (ck_data k))) by (symmetry; exact V).
    cbn [rp_chunkLength set_lengths buf set_bufs rp_chunks rp_contentLength s1 goto]. rewrite (proj2 (Z.eqb_neq _ _)) by lia. rewrite En.
    rewrite in_int_ok, bind_Ok by lia. unfold s2. replace (Z.of_nat n + 1) with (Z.of_nat (S n)) by lia. rewrite En. destruct (decide (n = 0%nat)); [subst n|rewrite (proj2 (Z.eqb_neq _ _)) by lia]; reflexivity. }
  set (s3 := goto (set_lengths s2 (rp_contentLength s2) 0 (rp_chunks s2)) RChunk0). exists s3. split_and!; [done..|].
  unfold chunk_bytes, chunk_line_bytes. replace ((ck_digits k ++ ck_ext k ++ [cr; lf]) ++ ck_data k ++ [cr; lf]) with ((ck_digits k ++ ck_ext k ++ [cr]) ++ [lf] ++ ck_data k ++ [cr; lf]) by by rewrite <- !app_assoc.
  eapply runs_app; [by apply runs_chunk_line|]. fold s1. apply (runs_app _ [lf] s2 _ i); [by apply runs_silent|].
  apply (runs_app _ _ s3 _ (MkIdeal (Paused gz br (b0 ++ ck_data k)) q d)).
  - destruct (decide (n = 0%nat)) as [Ez|Nz].
    + apply (chunk_first s2 RFirst0 RFirst [dest s2; CStart]); [by left|unfold s2; by destruct (decide (n = 0%nat))|done..].
    + apply (chunk_first s2 RNext0 RNext [CResume]); [by right|unfold s2; by destruct (decide (n = 0%nat))|done..].
  - apply (runs_app _ [cr] (goto s3 RChunkCr) _ (MkIdeal (Paused gz br (b0 ++ ck_data k)) q d)); by apply runs_silent.
Qed.

(** The chunks behind the first one. *)
Lemma runs_chunks ks s gz br b0 q d n : rp_cs s = RChunk0 → Forall (λ k, good_chunk k ∧ ck_data k ≠ []) ks → rp_chunks s = Z.of_nat n → (0 < n)%nat → Z.of_nat (n + length ks) < 2 ^ 31 - 1 →
  ∃ s', rp_cs s' = RChunk0 ∧ runs s (concat (chunk_bytes <$> ks)) s' (MkIdeal (Paused gz br b0) q d) (MkIdeal (Paused gz br (b0 ++ concat (ck_data <$> ks))) q d).
Proof.
  revert s b0 n. induction ks as [|k ks IH]; intros s b0 n Es F En Hn Ln; cbn in Ln.
  - exists s. split; [done|]. cbn. rewrite app_nil_r. apply runs_nil.
  - apply Forall_cons in F as [[G Nd] F]. destruct (runs_chunk s k (MkIdeal (Paused gz br b0) q d) gz br b0 q d n) as (s1 & E1 & N1 & _ & _ & R1); try done; [lia|by rewrite decide_False by lia|].
    destruct (IH s1 (b0 ++ ck_data k) (S n)) as (s2 & E2 & R2); try done; [lia|lia|]. exists s2. split; [done|]. rewrite !fmap_cons. cbn [concat]. rewrite app_assoc. by eapply runs_app.
Qed.

Lemma chunked_body s ks last i : id_body i = Nowhere → rp_cs s = RChunk0 → rp_chunks s = 0 → ks ≠ [] → Z.of_nat (length ks) < 2 ^ 31 - 1 →
  Forall (λ k, good_chunk k ∧ ck_data k ≠ []) ks → good_chunk last → ck_data last = [] →
  ∃ s', rp_cs s' = RMain ∧ runs s (concat (chunk_bytes <$> ks) ++ chunk_line_bytes last) s' i
    (body_done i (rp_isGzipped s) (rp_isBrotli s) (concat (ck_data <$> ks)) (before_body ++ after_body)).
Proof.
  intros Ei Es En Nk Ln F Gl Dl. destruct ks as [|k ks]; [done|]. apply Forall_cons in F as [[G Nd] F]. cbn [length] in Ln.
  destruct (runs_chunk s k i (rp_isGzipped s) (rp_isBrotli s) [] (id_quiet i ++ before_body) (id_done i) 0) as (s1 & E1 & N1 & _ & _ & R1); try done; [unfold is_open; by rewrite Ei| |].
  { intros c. rewrite decide_True by done. cbn. rewrite Ei. cbn. unfold before_body. by rewrite app_assoc. }
  destruct (runs_chunks ks s1 (rp_isGzipped s) (rp_isBrotli s) (ck_data k) (id_quiet i ++ before_body) (id_done i) 1) as (s2 & E2 & R2); [done|done|done|lia|lia|].
  pose proof (strtol16_chunk last Gl) as V. rewrite Dl in V. pose proof (runs_chunk_line s2 last (MkIdeal (Paused (rp_isGzipped s) (rp_isBrotli s) (ck_data k ++ concat (ck_data <$> ks))) (id_quiet i ++ before_body) (id_done i)) eq_refl E2 Gl) as R3.
  set (s3 := set_bufs _ _ _ _) in R3. assert (rsp_step s3 lf = Ok (goto (buf (set_lengths s3 (rp_contentLength s3) 0 (rp_chunks s3)) 0) RMain, bodyBlockFinish ++ [CPop HttpResponse])) as St.
  { unfold rsp_step. cbn [rp_cs s3 set_bufs goto]. rewrite Z.eqb_refl. unfold chunk_line. replace (strtol16 (rp_buf s3)) with 0 by (symmetry; exact V). reflexivity. }
  eexists. split; [|rewrite !fmap_cons; cbn [concat]; rewrite <- app_assoc; eapply runs_app; [exact R1|]; eapply runs_app; [exact R2|]; unfold chunk_line_bytes;
    rewrite (app_assoc _ _ [cr; lf]); change [cr; lf] with ([cr] ++ [lf]); rewrite !app_assoc; eapply runs_app; [rewrite <- app_assoc; exact R3|]; eapply runs_step; [done|exact St|]].
  - done.
  - unfold body_done, after_body, if_source. destruct source; cbn; by rewrite <- ?app_assoc.
Qed.
End Messages.

(** ** What a head says *)

Record Info := MkInfo {
  in_length : Z;
  in_gzip : bool;
  in_brotli : bool;
  in_chunked : bool;
  in_close : bool;
}.

Definition no_info : Info := MkInfo (-1) false false false false.

(** One header: the last length counts, the rest is found or not. *)
Definition line_info (n : Info) (l : Line) : Info :=
  let b := line_bytes l ++ [0] in
  MkInfo (if named b (lit "Content-Length:") then atoi (cstr (drop 15 b)) else in_length n)
    (in_gzip n || named b (lit "Content-Encoding:") && strstr (cstr b) (lit "gzip"))
    (in_brotli n || named b (lit "Content-Encoding:") && strstr (cstr b) (lit "br"))
    (in_chunked n || named b (lit "Transfer-Encoding:") && strstr (cstr b) (lit "chunked"))
    (in_close n || named b (lit "Connection:") && strstr (cstr b) (lit "close")).

Definition head_info (h : Head) : Info := foldl line_info no_info (hd_lines h).

Definition info_of (s : Rsp) : Info := MkInfo (rp_contentLength s) (rp_isGzipped s) (rp_isBrotli s) (rp_isChunked s) (rp_isConnectionClose s).

(** The nodes of a header in the tree: its value keeps the end of the line. *)
Definition line_cmds (l : Line) : list Cmd :=
  content_type (line_bytes l ++ [0]) ++ header_nodes (cstr (ln_name l ++ [0])) (cstr ((ln_value l ++ [cr; lf]) ++ [0])).

(** A header that a parser that is asked for cookies, or for redirections, can take apart: a
    cookie does not begin with a semicolon, and there is no zero byte in a redirection. *)
Definition line_fine (cookies location : bool) (l : Line) : Prop :=
  (cookies = true → named (line_bytes l ++ [0]) (lit "Set-Cookie:") = true → head (ln_value l) ≠ Some 59) ∧
  (location = true → starts_with (line_bytes l ++ [0]) (lit "Location:") = true → 0 ∉ ln_value l).

Definition lines_fine (s : Rsp) (ls : list Line) : Prop := Forall (line_fine (rp_wantCookies s) (rp_wantLocation s)) ls.

(** A parser that is not asked for either takes every header. *)
Lemma lines_fine_nothing s ls : rp_wantCookies s = false → rp_wantLocation s = false → lines_fine s ls.
Proof. intros Wc Wl. apply Forall_forall. intros l _. rewrite Wc, Wl. by split. Qed.

(** What a parser is asked for. *)
Definition asked (s s' : Rsp) : Prop := rp_wantCookies s' = rp_wantCookies s ∧ rp_wantLocation s' = rp_wantLocation s.

Lemma asked_fine s s' ls : asked s s' → lines_fine s ls → lines_fine s' ls.
Proof. intros [Wc Wl]. unfold lines_fine. by rewrite Wc, Wl. Qed.

(** What the tests of headers do not touch. *)
Definition kept (s s' : Rsp) : Prop :=
  asked s s' ∧ rp_chunks s' = rp_chunks s ∧ rp_buf s' = rp_buf s ∧ rp_buf1 s' = rp_buf1 s ∧ rp_buf2 s' = rp_buf2 s.

Lemma kept_trans s s1 s2 : kept s s1 → kept s1 s2 → kept s s2.
Proof. unfold kept, asked. intuition congruence. Qed.

Lemma content_length_info s b n : info_of s = n → kept s (content_length s b) ∧
  info_of (content_length s b) = MkInfo (if named b (lit "Content-Length:") then atoi (cstr (drop 15 b)) else in_length n) (in_gzip n) (in_brotli n) (in_chunked n) (in_close n).
Proof. intros <-. unfold content_length. by destruct (named _ _). Qed.

Lemma connection_info s b n : info_of s = n → kept s (connection s b) ∧
  info_of (connection s b) = MkInfo (in_length n) (in_gzip n) (in_brotli n) (in_chunked n) (in_close n || named b (lit "Connection:") && strstr (cstr b) (lit "close")).
Proof. intros <-. unfold connection, info_of. destruct (named _ _), (strstr _ _); cbn; rewrite ?orb_false_r, ?orb_true_r; done. Qed.

Lemma content_encoding_info s b n : info_of s = n → kept s (content_encoding s b) ∧
  info_of (content_encoding s b) = MkInfo (in_length n) (in_gzip n || named b (lit "Content-Encoding:") && strstr (cstr b) (lit "gzip"))
    (in_brotli n || named b (lit "Content-Encoding:") && strstr (cstr b) (lit "br")) (in_chunked n) (in_close n).
Proof. intros <-. unfold content_encoding, info_of. destruct (named _ _), (strstr _ (lit "gzip")), (strstr _ (lit "br")); cbn; rewrite ?orb_false_r, ?orb_true_r; done. Qed.

Lemma transfer_encoding_info s b n : info_of s = n → kept s (transfer_encoding s b) ∧
  info_of (transfer_encoding s b) = MkInfo (in_length n) (in_gzip n) (in_brotli n) (in_chunked n || named b (lit "Transfer-Encoding:") && strstr (cstr b) (lit "chunked")) (in_close n).
Proof. intros <-. unfold transfer_encoding, info_of. destruct (named _ _), (strstr _ _); cbn; rewrite ?orb_false_r, ?orb_true_r; done. Qed.

Lemma chr_at_lookup l c n : chr_at l c = Some n → l !! n = Some c.
Proof.
  revert n. induction l as [|x l IH]; intros n; cbn; [done|]. destruct (Z.eqb_spec x c) as [->|]; [by intros [= <-]|]. destruct (x =? 0); [done|].
  destruct (chr_at l c) as [m|] eqn:E; [|done]. intros [= <-]. by apply IH.
Qed.

Lemma chr_at_found l c r : 0 ∉ l → is_Some (chr_at (l ++ c :: r) c).
Proof.
  induction l as [|x l IH]; intros N; cbn; [rewrite Z.eqb_refl; by eexists|]. apply not_elem_of_cons in N as [Nx N]. destruct (x =? c); [by eexists|].
  rewrite (proj2 (Z.eqb_neq x 0)) by congruence. destruct (IH N) as [m ->]. by eexists.
Qed.

Lemma cstr_prefix l : cstr l `prefix_of` l.
Proof. induction l as [|c l IH]; cbn; [done|]. destruct (c =? 0); [apply prefix_nil|by apply prefix_cons]. Qed.

(** The bytes of a name that [strncasecmp] found, one by one. *)
Lemma nocase_lookup b name i c : starts_nocase b name = true → name !! i = Some c → ∃ x, b !! i = Some x ∧ lower x = lower c.
Proof.
  intros E%bool_decide_eq_true Hi. apply (f_equal (lookup i)) in E. rewrite !list_lookup_fmap, Hi in E. cbn in E. destruct (take (length name) (cstr b) !! i) as [x|] eqn:Ex; [|done].
  injection E as E. apply lookup_take_Some in Ex as [Ex _]. exists x. split; [|done]. eapply prefix_lookup_Some; [exact Ex|apply cstr_prefix].
Qed.

Lemma lower_mark x c : (c < 65 → lower x = c → x = c).
Proof. unfold lower. repeat case_match; lia. Qed.

(** A name ends at its colon. *)
Lemma name_found l name i : good_line l → starts_nocase (line_bytes l ++ [0]) (name ++ [58]) = true → Forall (λ c, lower c ≠ 58) name → i = length name → length (ln_name l) = i.
Proof.
  intros [[_ Fn] _] E Nn ->. unfold line_bytes in E. rewrite <- !app_assoc in E. destruct (nocase_lookup _ _ (length name) 58 E) as (x & Ex & Lx); [by rewrite lookup_app_r, Nat.sub_diag by lia|].
  apply (lower_mark x 58) in Lx as ->; [|done]. destruct (decide (length (ln_name l) < length name)%nat) as [Lt|].
  - destruct (lookup_lt_is_Some_2 name _ Lt) as [y Ey]. destruct (nocase_lookup _ _ (length (ln_name l)) y E) as (z & Ez & Lz); [by apply lookup_app_l_Some|].
    rewrite lookup_app_r, Nat.sub_diag in Ez by lia. injection Ez as <-. apply Forall_lookup_1 with (i := length (ln_name l)) (x := y) in Nn; [|done]. by destruct Nn.
  - destruct (decide (length name < length (ln_name l))%nat) as [Lt|]; [|lia]. rewrite lookup_app_l in Ex by done. apply (Forall_lookup_1 _ _ _ _ Fn) in Ex. by vm_compute in Ex.
Qed.

(** The first semicolon of a cookie that does not begin with one is behind its first byte. *)
Lemma cookie_semicolon l p : good_line l → named (line_bytes l ++ [0]) (lit "Set-Cookie:") = true → head (ln_value l) ≠ Some 59 → chr_at (line_bytes l ++ [0]) 59 = Some p → (12 ≤ p)%nat.
Proof.
  intros G N Hv E%chr_at_lookup. apply andb_true_iff in N as [_ N]. change (lit "Set-Cookie:") with (lit "Set-Cookie" ++ [58]) in N.
  assert (length (ln_name l) = 10%nat) as Ln by (apply (name_found l (lit "Set-Cookie")); [done|done| |done]; apply (bool_decide_unpack _); by vm_compute).
  unfold line_bytes in E. rewrite <- !app_assoc in E. destruct (decide (p < 10)%nat).
  - rewrite lookup_app_l in E by lia. destruct G as [[_ Fn] _]. apply (Forall_lookup_1 _ _ _ _ Fn) in E. by vm_compute in E.
  - rewrite lookup_app_r, Ln in E by lia. destruct (p - 10)%nat as [|[|k]] eqn:Ek; [done| |lia]. cbn in E. by destruct (ln_value l) as [|c v].
Qed.

(** A redirection without a zero byte is found or not. *)
Lemma location_found s l : good_line l → rp_buf s = line_bytes l ++ [0] → 0 ∉ ln_value l → ∃ loc, find_location s = Ok (set_found s (rp_cookies s) loc).
Proof.
  intros [[_ Fn] _] Eb Nv. unfold find_location. rewrite Eb. set (body := ln_name l ++ [58] ++ ln_value l).
  assert (line_bytes l ++ [0] = body ++ [13; 10; 0]) as Es by (unfold line_bytes, body; by rewrite <- !app_assoc).
  assert (0 ∉ body) as Nb. { unfold body. rewrite !not_elem_of_app, list_elem_of_singleton. split_and!; [|lia|done]. intros H0. by apply (proj1 (Forall_forall _ _) Fn) in H0. }
  assert (∀ i c, c ≠ 13 → c ≠ 10 → c ≠ 0 → (line_bytes l ++ [0]) !! i = Some c → (i < length body)%nat) as Inside.
  { intros i c N1 N2 N3 Hi. rewrite Es in Hi. destruct (decide (i < length body)%nat); [done|]. rewrite lookup_app_r in Hi by lia. destruct (i - length body)%nat as [|[|[|k]]]; cbn in Hi; try congruence; by destruct k. }
  assert (∀ t : Rsp, t = set_found t (rp_cookies t) (rp_location t)) as Eta by by intros [].
  destruct (chr_at (drop 10 _) 58) as [p|] eqn:Ep; [|exists (rp_location s); f_equal; apply Eta]. apply chr_at_lookup in Ep. rewrite lookup_drop in Ep. apply Inside in Ep; [|done..].
  destruct (Nat.leb_spec (length (drop (10 + p) (line_bytes l ++ [0]))) 3) as [Hs|_]; [rewrite length_drop, Es, length_app in Hs; cbn in Hs; lia|].
  destruct (chr_at (drop 3 _) 47) as [q|] eqn:Eq; [|exists (rp_location s); f_equal; apply Eta]. apply chr_at_lookup in Eq. rewrite !lookup_drop in Eq. apply Inside in Eq; [|done..].
  rewrite drop_drop, Es, drop_app_le by lia. destruct (chr_at_found (drop (10 + p + (3 + q)) body) 13 [10; 0]) as [e ->]; [|by eexists].
  intros H0. apply Nb. apply list_elem_of_lookup in H0 as [i Hi]. rewrite lookup_drop in Hi. by eapply list_elem_of_lookup_2.
Qed.

Lemma set_cookie_info s l b : good_line l → line_fine (rp_wantCookies s) (rp_wantLocation s) l → rp_buf s = b → b = line_bytes l ++ [0] →
  ∃ s', set_cookie s b = Ok s' ∧ kept s s' ∧ info_of s' = info_of s.
Proof.
  intros G [Hc _] Eb El. unfold set_cookie. destruct (rp_wantCookies s) eqn:Wc; [|by exists s]. cbn [andb]. destruct (named b _) eqn:N; [|by exists s]. rewrite El in N. specialize (Hc eq_refl N).
  unfold cookie. rewrite Eb, El. destruct (chr_at _ 59) as [p|] eqn:Ep; [|by exists s]. pose proof (cookie_semicolon l p G N Hc Ep). destruct (Nat.ltb_spec p 12); [lia|].
  destruct (chr_at _ 61); by eexists.
Qed.

Lemma set_location_info s l b : good_line l → line_fine (rp_wantCookies s) (rp_wantLocation s) l → rp_buf s = b → b = line_bytes l ++ [0] →
  ∃ s', set_location s b = Ok s' ∧ kept s s' ∧ info_of s' = info_of s.
Proof.
  intros G [_ Hl] Eb El. unfold set_location. destruct (rp_wantLocation s) eqn:Wl; [|by exists s]. cbn [andb]. destruct (_ && _) eqn:N; [|by exists s]. apply andb_true_iff in N as [_ N]. rewrite El in N.
  destruct (location_found s l G) as [loc ->]; [congruence|by apply Hl|]. by eexists.
Qed.

Lemma header_info s l : good_line l → line_fine (rp_wantCookies s) (rp_wantLocation s) l →
  ∃ s', header (read_line s l) = Ok (s', line_cmds l) ∧ info_of s' = line_info (info_of s) l ∧ asked s s' ∧ rp_chunks s' = rp_chunks s.
Proof.
  intros G Fl. unfold header, line_cmds. set (s0 := buf (buf2 (buf1 (read_line s l) 0) 0) 0). change (rp_buf s0) with (line_bytes l ++ [0]).
  unfold line_info. set (b := line_bytes l ++ [0]).
  destruct (content_length_info s0 b _ eq_refl) as [K1 I1]. destruct (connection_info _ b _ I1) as [K2 I2].
  destruct (content_encoding_info _ b _ I2) as [K3 I3]. destruct (transfer_encoding_info _ b _ I3) as [K4 I4].
  pose proof (kept_trans _ _ _ (kept_trans _ _ _ (kept_trans _ _ _ K1 K2) K3) K4) as K. cbn [in_length in_gzip in_brotli in_chunked in_close] in I4.
  revert I4 K. set (s1 := transfer_encoding _ _). clearbody s1. clear K1 I1 K2 I2 K3 I3 K4. intros I4 K.
  assert (asked s s1) as [Wc Wl] by apply K. assert (rp_buf s1 = b) as Eb by apply K.
  destruct (set_cookie_info s1 l b) as (s2 & -> & K2 & I2); [done|by rewrite Wc, Wl|done|done|]. rewrite bind_Ok. assert (asked s1 s2) as [Wc2 Wl2] by apply K2. assert (rp_buf s2 = b) as Eb2 by (rewrite <- Eb; apply K2).
  destruct (set_location_info s2 l b) as (s3 & -> & K3 & I3); [done|by rewrite Wc2, Wl2, Wc, Wl|done|done|]. rewrite bind_Ok.
  destruct (kept_trans _ _ _ (kept_trans _ _ _ K K2) K3) as (A & Hc & _ & B1 & B2). rewrite B1, B2. rewrite I2, I4 in I3.
  eexists. split; [reflexivity|]. split_and!; [exact I3|exact A|exact Hc].
Qed.

Lemma head_lines_info ls s : Forall good_line ls → lines_fine s ls →
  ∃ s', head_lines s ls = Ok (s', concat (line_cmds <$> ls)) ∧ info_of s' = foldl line_info (info_of s) ls ∧ rp_chunks s' = rp_chunks s.
Proof.
  revert s. induction ls as [|l ls IH]; intros s G W; [by exists s|]. apply Forall_cons in G as [Gl G]. apply Forall_cons in W as [Wl W].
  destruct (header_info s l Gl Wl) as (s1 & E1 & I1 & A1 & C1). destruct (IH s1 G (asked_fine _ _ _ A1 W)) as (s2 & E2 & I2 & C2).
  exists s2. cbn [head_lines]. rewrite E1, bind_Ok, E2, bind_Ok. split; [done|]. split_and!; [by rewrite I2, I1|congruence].
Qed.

(** ** Whole responses *)

(** How a body can be on the wire, by what the head says: with a length, zero included, in
    chunks, of which there is one at least, or none. *)
Inductive framed (n : Info) : list Z → list Z → Prop :=
| framed_sized b : in_length n = Z.of_nat (length b) → b ≠ [] → Z.of_nat (length b) < 2 ^ 31 → framed n b b
| framed_empty : in_length n = 0 → framed n [] []
| framed_chunks ks last : in_length n < 0 → in_chunked n = true → ks ≠ [] → Z.of_nat (length ks) < 2 ^ 31 - 1 →
    Forall (λ k, good_chunk k ∧ ck_data k ≠ []) ks → good_chunk last → ck_data last = [] →
    framed n (concat (chunk_bytes <$> ks) ++ chunk_line_bytes last) (concat (ck_data <$> ks))
| framed_none : in_length n < 0 → in_chunked n = false → in_close n = false → framed n [] [].

Record Message := MkMessage { ms_head : Head; ms_wire : list Z; ms_body : list Z }.

Definition message_bytes (m : Message) : list Z := head_bytes (ms_head m) ++ ms_wire m.

Record good_message (m : Message) : Prop := GoodMessage {
  gm_head : good_head (ms_head m);
  gm_body : framed (head_info (ms_head m)) (ms_wire m) (ms_body m);
}.

(** What is recorded of a body: a body of length zero is begun and ended without a word to
    the source, and where there is none nothing is. *)
Definition body_acts (source : bool) (n : Info) : Trace Act :=
  if in_length n =? 0 then before_body source (body_opening source) ++ body_closing source ++ [APop HttpResponse]
  else if (0 <? in_length n) || in_chunked n then before_body source (body_opening source) ++ after_body source (body_closing source)
  else [APop HttpResponse].

(** What is recorded of a response. *)
Definition message_acts (source : bool) (m : Message) : Trace Act :=
  [APair; APush HttpResponse; APush HttpHead] ++ acts source (concat (line_cmds <$> hd_lines (ms_head m))) ++ [APop HttpHead] ++ body_acts source (head_info (ms_head m)).

(** The body of a response, if there is one, with how it is compressed. *)
Definition coding (m : Message) : list (bool * bool * list Z) :=
  let n := head_info (ms_head m) in
  if in_length n =? 0 then [(false, false, [])]
  else if (0 <? in_length n) || in_chunked n then [(in_gzip n, in_brotli n, ms_body m)]
  else [].

(** What a parser is asked for does not change. *)
Lemma fin_asked s : asked s (fin s).1.
Proof. unfold fin. by repeat case_match. Qed.

Lemma after_line_asked s pre c : asked s (after_line s pre c).1.
Proof. unfold after_line. repeat case_match; [done|done| |done]. cbn. match goal with H : fin s = _ |- _ => pose proof (fin_asked s) as F; by rewrite H in F end. Qed.

Lemma asked_trans s s1 s2 : asked s s1 → asked s1 s2 → asked s s2.
Proof. unfold asked. intuition congruence. Qed.

Lemma cookie_asked s b s' : set_cookie s b = Ok s' → asked s s'.
Proof. unfold set_cookie, cookie. repeat case_match; try done; by intros [= <-]. Qed.

Lemma location_asked s b s' : set_location s b = Ok s' → asked s s'.
Proof. unfold set_location, find_location. repeat case_match; try done; by intros [= <-]. Qed.

Lemma header_asked s s' cmds : header s = Ok (s', cmds) → asked s s'.
Proof.
  unfold header. set (s0 := buf _ _). intros E. set (b := rp_buf s0) in E.
  destruct (content_length_info s0 b _ eq_refl) as [K1 I1]. destruct (connection_info _ b _ I1) as [K2 I2].
  destruct (content_encoding_info _ b _ I2) as [K3 I3]. destruct (transfer_encoding_info _ b _ I3) as [K4 _].
  pose proof (kept_trans _ _ _ (kept_trans _ _ _ (kept_trans _ _ _ K1 K2) K3) K4) as [A _].
  apply bind_Ok_inv in E as (s1 & E1%cookie_asked & E). apply bind_Ok_inv in E as (s2 & E2%location_asked & E). injection E as <- _.
  exact (asked_trans _ _ _ A (asked_trans _ _ _ E1 E2)).
Qed.

Lemma step_asked s c s' cmds : rsp_step s c = Ok (s', cmds) → asked s s'.
Proof.
  intros E. unfold rsp_step in E. destruct (rp_cs s);
    repeat match type of E with
    | (if ?b then _ else _) = _ => destruct b
    | Ok (goto _ _, []) = _ => by injection E as <- _
    | Ok (s, []) = _ => by injection E as <- _
    end.
  - unfold uri in E. injection E as E. pose proof (after_line_asked (uri s).1 (uri s).2 c) as A. unfold uri in A. cbn [fst snd] in A. by rewrite E in A.
  - apply bind_Ok_inv in E as ([s1 pre] & E1%header_asked & E). injection E as E. pose proof (after_line_asked s1 pre c) as A. rewrite E in A. by eapply asked_trans.
  - injection E as E. pose proof (fin_asked s) as A. by rewrite E in A.
  - apply bind_Ok_inv in E as (n & _ & E). case_match; by injection E as <- _.
  - apply bind_Ok_inv in E as (n & _ & E). case_match; by injection E as <- _.
  - apply bind_Ok_inv in E as (n & _ & E). case_match; by injection E as <- _.
  - apply bind_Ok_inv in E as (n & _ & E). case_match; by injection E as <- _.
  - apply bind_Ok_inv in E as (n & _ & E). case_match; by injection E as <- _.
  - apply bind_Ok_inv in E as (n & _ & E). case_match; by injection E as <- _.
  - apply bind_Ok_inv in E as (n & _ & E). case_match; by injection E as <- _.
  - apply bind_Ok_inv in E as (n & _ & E). case_match; by injection E as <- _.
  - unfold chunk_line in E. case_match; [by injection E as <- _|]. apply bind_Ok_inv in E as (n & _ & E). case_match; by injection E as <- _.
  - unfold chunk_line in E. case_match; [by injection E as <- _|]. apply bind_Ok_inv in E as (n & _ & E). case_match; by injection E as <- _.
  - unfold chunk_line in E. case_match; [by injection E as <- _|]. apply bind_Ok_inv in E as (n & _ & E). case_match; by injection E as <- _.
Qed.

Section Responses.
Variable source : bool.
Abbreviation op := (body_opening source).
Abbreviation cl := (body_closing source).

Lemma runs_asked s bs s' i i' : runs source op cl s bs s' i i' → asked s s'.
Proof.
  intros (l & E & _). revert s l E. induction bs as [|c bs IH]; intros s l E; cbn [script] in E; [by injection E as <- _|].
  destruct (m_error s); [by injection E as <- _|]. apply bind_Ok_inv in E as ([s1 cmds] & E1%step_asked & E). apply bind_Ok_inv in E as ([s2 k] & E2 & E). injection E as <- _.
  eapply asked_trans; [exact E1|]. by apply (IH s1 k E2).
Qed.

(** From the empty line on, by what the head says. *)
Lemma runs_end m s i : id_body i = Nowhere → rp_chunks s = 0 → info_of s = head_info (ms_head m) → framed (head_info (ms_head m)) (ms_wire m) (ms_body m) →
  ∃ s', rp_cs s' = RMain ∧ runs source op cl (goto s REmptyCr) ([lf] ++ ms_wire m) s' i
    (MkIdeal Nowhere (id_quiet i ++ [APop HttpHead] ++ body_acts source (head_info (ms_head m))) (id_done i ++ coding m)).
Proof.
  intros Ei C I1 Gb. unfold coding. assert (is_open i = false) as O by (unfold is_open; by rewrite Ei).
  assert (∀ cmds s2 i2, fin (goto s REmptyCr) = (s2, cmds) → ideal_byte source op cl i (lf, cmds) = Some i2 → runs source op cl (goto s REmptyCr) [lf] s2 i i2) as Rf.
  { intros cmds s2 i2 E Hi. eapply runs_step; [done| |exact Hi]. unfold rsp_step. cbn [rp_cs goto]. by rewrite Z.eqb_refl, E. }
  assert (∀ cs, fin (goto s REmptyCr) = (goto s cs, [CPop HttpHead]) → runs source op cl (goto s REmptyCr) [lf] (goto s cs) i (outside i [APop HttpHead])) as Rb.
  { intros cs E. eapply Rf; [exact E|]. by apply plain_outside_byte. }
  rewrite <- I1 in *. unfold fin, body_acts in *. cbn [goto rp_contentLength rp_isChunked rp_isConnectionClose info_of in_length in_chunked in_close in_gzip in_brotli] in *.
  destruct Gb as [b L N S|L|ks last L K N S F Gl Dl|L K Cc]; cbn [info_of in_length in_chunked in_close] in *.
  - rewrite (proj2 (Z.eqb_neq _ _)), (proj2 (Z.ltb_lt _ _)) in * by (destruct b; [done|cbn in *; lia]). destruct (sized_body source op cl (goto s RLength0) b (outside i [APop HttpHead])) as (s' & Es' & R2); [done..|].
    exists s'. split; [done|]. eapply runs_app; [by apply Rb|]. cbn [orb]. unfold body_done, outside in R2. cbn [id_quiet id_done] in R2. rewrite <- app_assoc in R2. exact R2.
  - rewrite L in *. eexists. split; [|rewrite app_nil_r; eapply Rf; [reflexivity|]]; [done|]. unfold ideal_byte. cbn. rewrite Ei. cbn. unfold before_body, if_source. destruct source; cbn; by rewrite <- ?app_assoc.
  - rewrite (proj2 (Z.eqb_neq _ _)), (proj2 (Z.ltb_ge _ _)), K in * by lia. destruct (chunked_body source op cl (goto s RChunk0) ks last (outside i [APop HttpHead])) as (s' & Es' & R2); [done..|].
    exists s'. split; [done|]. eapply runs_app; [by apply Rb|]. cbn [orb]. unfold body_done, outside in R2. cbn [id_quiet id_done] in R2. rewrite <- app_assoc in R2. exact R2.
  - rewrite (proj2 (Z.eqb_neq _ _)), (proj2 (Z.ltb_ge _ _)), K, Cc in * by lia. eexists. split; [|rewrite app_nil_r; eapply Rf; [reflexivity|]]; [done|].
    rewrite plain_outside_byte by done. unfold outside. rewrite Ei. cbn. by rewrite !app_nil_r.
Qed.

Lemma runs_message s m i : id_body i = Nowhere → rp_cs s = RMain → lines_fine s (hd_lines (ms_head m)) → good_message m →
  ∃ s', rp_cs s' = RMain ∧ runs source op cl s (message_bytes m) s' i (MkIdeal Nowhere (id_quiet i ++ message_acts source m) (id_done i ++ coding m)).
Proof.
  intros Ei Es W [Gh Gb]. destruct (head_lines_info (hd_lines (ms_head m)) (uri (goto s RStatus)).1 (gh_lines _ Gh) W) as (s1 & E1 & I1 & C1).
  change (info_of (uri (goto s RStatus)).1) with no_info in I1. fold (head_info (ms_head m)) in I1. change (rp_chunks (uri (goto s RStatus)).1) with 0 in C1.
  assert (is_open i = false) as O by (unfold is_open; by rewrite Ei).
  pose proof (runs_head source op cl (ms_head m) s s1 _ i O Es Gh E1) as R1. set (i1 := outside i _) in R1.
  destruct (runs_end m s1 i1) as (s' & Es' & R2); [done..|]. exists s'. split; [done|].
  replace (message_bytes m) with ((status_bytes (ms_head m) ++ concat (line_bytes <$> hd_lines (ms_head m)) ++ [cr]) ++ [lf] ++ ms_wire m) by (unfold message_bytes, head_bytes; by rewrite <- !app_assoc).
  eapply runs_app; [exact R1|]. unfold i1, outside in R2 |- *. cbn [id_quiet id_done] in R2. unfold message_acts. rewrite acts_app in R2 |- *. rewrite <- !app_assoc in *. exact R2.
Qed.

Lemma runs_messages ms s i : id_body i = Nowhere → rp_cs s = RMain → Forall (λ m, lines_fine s (hd_lines (ms_head m))) ms → Forall good_message ms →
  ∃ s', rp_cs s' = RMain ∧ runs source op cl s (concat (message_bytes <$> ms)) s' i (MkIdeal Nowhere (id_quiet i ++ concat (message_acts source <$> ms)) (id_done i ++ concat (coding <$> ms))).
Proof.
  revert s i. induction ms as [|m ms IH]; intros s i Ei Es W F.
  - exists s. split; [done|]. cbn. rewrite !app_nil_r, <- Ei. destruct i. apply runs_nil.
  - apply Forall_cons in F as [G F]. apply Forall_cons in W as [Wm W]. destruct (runs_message s m i Ei Es Wm G) as (s1 & E1 & R1).
    destruct (IH s1 _ (eq_refl : id_body (MkIdeal Nowhere (id_quiet i ++ message_acts source m) (id_done i ++ coding m)) = Nowhere) E1) as (s2 & E2 & R2); [|done|].
    { eapply Forall_impl; [exact W|]. intros x Wx. eapply asked_fine; [by eapply runs_asked|exact Wx]. }
    exists s2. split; [done|]. rewrite !fmap_cons. cbn [concat]. cbn [id_quiet id_done] in R2. rewrite <- !app_assoc in R2. by eapply runs_app.
Qed.
End Responses.
