(* ===== verification/HttpProps.v ===== *)
(** * HTTP: the theorems, with decompressors that can be run

    The laws of the decompressors are shown to hold for one that writes every byte twice
    and ends at the byte 255; the theorems are applied to it. *)

From Stdlib Require Import String.
From S2P Require Import Prelude Vpt Tender Streams StreamsProps HttpRsp HttpRspProps HttpMessages.

(** ** A decompressor *)

Fixpoint twice (bs : list Z) : list Z :=
  match bs with [] => [] | b :: bs => if b =? 255 then [] else b :: b :: twice bs end.

Record Twice := MkTwice { tw_seen : list Z; tw_made : list Z; tw_ended : bool }.

Definition twice_call (s : Twice) (inp : list Z) (n : nat) : Twice * nat * list Z * Verdict :=
  if tw_ended s then (s, O, [], Ended)
  else
    let all := tw_seen s ++ inp in
    let out := take n (drop (length (tw_made s)) (twice all)) in
    let s' e := MkTwice all (tw_made s ++ out) e in
    if (length out =? n)%nat then (s' false, length inp, out, Full)
    else if bool_decide (255 ∈ all) then (s' true, length inp, out, Ended) else (s' false, length inp, out, Hungry).

Lemma twice_app a b : twice (a ++ b) = twice a ++ if bool_decide (255 ∈ a) then [] else twice b.
Proof.
  induction a as [|c a IH]; cbn; [done|]. destruct (Z.eqb_spec c 255) as [->|N].
  - rewrite bool_decide_eq_true_2 by apply list_elem_of_here. done.
  - rewrite IH. cbn. do 3 f_equal. destruct (bool_decide (255 ∈ a)) eqn:E.
    + apply bool_decide_eq_true in E. rewrite bool_decide_eq_true_2 by by right. done.
    + apply bool_decide_eq_false in E. rewrite bool_decide_eq_false_2; [done|]. intros [|]%elem_of_cons; [congruence|done].
Qed.

#[export] Program Instance twice_laws : CodecLaws (MkTwice [] [] false) twice_call := {|
  cd_seen := tw_seen;
  cd_made := tw_made;
  cd_ended := tw_ended;
  cd_dec := twice;
  cd_valid _ := True;
|}.
Next Obligation. done. Qed.
Next Obligation. done. Qed.
Next Obligation.
  intros s inp n s' used out v Hn En _ [rest P] E. unfold twice_call in E. rewrite En in E. rewrite P, drop_app_length in E.
  destruct (length (take n rest) =? n)%nat eqn:F; [|destruct (bool_decide (255 ∈ tw_seen s ++ inp)) eqn:G]; injection E as <- <- <- <-; cbn.
  - apply Nat.eqb_eq in F. rewrite (take_ge inp) by done. split_and!; [done|lia|done|done|done|done|]. rewrite P. exists (drop n rest). by rewrite <- app_assoc, take_drop.
  - apply Nat.eqb_neq in F. rewrite length_take in F. rewrite !take_ge by lia. split_and!; [done|lia|done|done|done|]. intros more. by rewrite twice_app, G, app_nil_r.
  - apply Nat.eqb_neq in F. rewrite length_take in F. rewrite !take_ge by lia. by split_and!; [done|lia|..].
Qed.
Next Obligation. intros a b _. cbn. rewrite twice_app. by eexists. Qed.
Next Obligation. intros s inp n E. unfold twice_call. cbn in E. by rewrite E. Qed.

(** As zlib and as the brotli library. *)
#[export] Instance twice_zlib : Zlib := {|
  z_stream := Twice;
  inflateInit2 := MkTwice [] [] false;
  inflate s flush inp n :=
    let '(s, used, out, v) := twice_call s inp n in
    (s, used, out, match v with Ended => Z_STREAM_END | Failed => Z_DATA_ERROR | _ => match inp, out with [], [] => Z_BUF_ERROR | _, _ => Z_OK end end);
  inflateEnd s := (s, Z_OK);
  total_out s := Z.of_nat (length (tw_made s));
|}.

#[export] Instance twice_brotli : BrotliLib := {|
  BrotliDecoderState := Twice;
  BrotliDecoderCreateInstance := MkTwice [] [] false;
  BrotliDecoderDecompressStream s inp n :=
    let '(s, used, out, v) := twice_call s inp n in
    (s, used, out, match v with Ended => RESULT_SUCCESS | Failed => RESULT_ERROR | Full => NEEDS_MORE_OUTPUT | Hungry => NEEDS_MORE_INPUT end);
  BrotliDecoderIsFinished := tw_ended;
|}.

Lemma zcall_twice (s : Twice) inp n : (0 < n)%nat → zcall s inp n = twice_call s inp n.
Proof.
  intros Hn. unfold zcall. cbn. destruct (twice_call s inp n) as [[[s' used] out] v] eqn:E. unfold zverdict. f_equal.
  unfold twice_call in E. destruct (tw_ended s); [by injection E as <- <- <- <-|].
  destruct (_ =? n)%nat eqn:F in E; [|destruct (bool_decide _) in E]; injection E as _ _ <- <-; [|done|].
  - rewrite F. apply Nat.eqb_eq in F. destruct (take n _); [cbn in F; lia|]. by destruct inp.
  - rewrite F. by destruct inp, (take n _).
Qed.

(** A call that is another one where it matters has the laws too. *)
Lemma codec_ext {D} (init : D) call call' `{!CodecLaws init call} :
  (∀ s inp n, (0 < n)%nat → call' s inp n = call s inp n) → (∀ s inp n, cd_ended (call := call) s = true → call' s inp n = (s, O, [], Ended)) → CodecLaws init call'.
Proof.
  intros Same Over. refine {| cd_seen := cd_seen (call := call); cd_made := cd_made (call := call); cd_ended := cd_ended (call := call); cd_dec := cd_dec (call := call); cd_valid := cd_valid (call := call) |}.
  - apply cd_init.
  - apply cd_valid_prefix.
  - intros s inp n s' used out v Hn En V P E. rewrite Same in E by done. by apply (cd_step s inp n).
  - apply cd_grows.
  - exact Over.
Defined.

#[export] Instance twice_zlib_laws : ZlibLaws.
Proof.
  unshelve econstructor.
  - apply (codec_ext _ twice_call _); [apply zcall_twice|]. intros s inp n E. unfold zcall, inflate. cbn in *. unfold twice_call. by rewrite E.
  - intros s inp n E. cbn in *. destruct (twice_call s inp n) as [[[s' used] out] v]. cbn in *. destruct v; try done; by destruct inp, out.
Defined.

#[export] Instance twice_brotli_laws : BrotliLaws.
Proof.
  constructor. apply (codec_ext _ twice_call _).
  - intros s inp n Hn. unfold bcall. cbn. by destruct (twice_call s inp n) as [[[s' used] out] []].
  - intros s inp n E. unfold bcall. cbn in *. unfold twice_call. by rewrite E.
Defined.

(** ** The theorems *)

Section Theorems.
Context `{ZlibLaws} `{BrotliLaws}.
Variable turns : nat.
Abbreviation ok_body := (λ b : bool * bool * list Z, decodable turns b.1.1 b.1.2 b.2).
Abbreviation plain_body := (λ b : bool * bool * list Z, decoded b.1.1 b.1.2 b.2).

(** Responses one after the other, for a parser that has made the calls [q] before. *)
Lemma responses_from q s source who ms packets : rp_cs s = RMain → Forall (λ m, lines_fine s (hd_lines (ms_head m))) ms → Forall good_message ms → Forall ok_body (concat (coding <$> ms)) → (who = true → source = true) →
  quiet q = q → heard who q = [] → concat packets = concat (message_bytes <$> ms) →
  ∃ t h, feed (Consumer0 := tdest_consumer turns) (Parts0 := probe_members) q (new_parser s source) 0 packets = Ok (t, h) ∧ rp_cs (hp_machine h) = RMain ∧
    quiet t = q ++ concat (message_acts source <$> ms) ∧ heard who t = concat (plain_body <$> (concat (coding <$> ms))).
Proof.
  intros Es W F V Ws Qq Hq E. destruct (runs_messages source ms s (MkIdeal Nowhere q []) eq_refl Es W F) as (s' & Es' & l & El & Ei). rewrite <- E in El. cbn [id_quiet id_done app] in Ei.
  assert (m_body s = false) as Bs by (change (rsp_body s = false); unfold rsp_body; by rewrite Es).
  destruct (feed_ideal_from turns s s' source who packets l _ q Bs Ws Qq Hq El Ei) as (t & h & Ef & Em & Q & Hd).
  { unfold id_bodies. cbn. by rewrite app_nil_r. }
  exists t, h. split; [done|]. unfold id_bodies in Hd. cbn in Hd, Q. rewrite app_nil_r in Hd. by rewrite Em.
Qed.

(** C9: Responses one after the other are parsed and their bodies delivered whatever the
    packets the bytes come in.  The responses are any with a well-formed head and a body
    with a length, zero included, a body in one or more chunks, or none, and content that
    the decompressors accept; a parser that is asked for cookies and redirections can take
    those of the headers apart.  The tree has the nodes of the heads; the parser of bodies, and the consumer of the
    source if there is one, are started, given exactly the uncompressed bodies and
    finished; and the parser is ready for the next response. *)
Theorem responses_delivered s source who ms packets : rp_cs s = RMain → Forall (λ m, lines_fine s (hd_lines (ms_head m))) ms → Forall good_message ms → Forall ok_body (concat (coding <$> ms)) → (who = true → source = true) →
  concat packets = concat (message_bytes <$> ms) →
  ∃ t h, feed (Consumer0 := tdest_consumer turns) (Parts0 := probe_members) [] (new_parser s source) 0 packets = Ok (t, h) ∧ rp_cs (hp_machine h) = RMain ∧
    quiet t = concat (message_acts source <$> ms) ∧ heard who t = concat (plain_body <$> (concat (coding <$> ms))).
Proof. intros Es W F V Ws. by apply (responses_from []). Qed.

(** C24: What a parser of requests or of responses does is a function of the bytes of the
    stream: cut into packets in two ways, the stream leaves the machine in the same state,
    the same calls are made on the tree and on the source in the same order, and the same
    bytes of bodies are delivered.  The stream is any on which the machine is defined and
    begins and ends bodies in turn, with content the decompressors accept. *)
Theorem packets_immaterial {M} `{MachineLaws M} (m m' : M) source who ds ds' l i : m_body m = false → (who = true → source = true) → concat ds = concat ds' →
  script m (concat ds) = Ok (m', l) → ideal_run source (body_opening source) (body_closing source) (MkIdeal Nowhere [] []) l = Some i → Forall ok_body (id_bodies i) →
  ∃ t h t' h', feed (Consumer0 := tdest_consumer turns) (Parts0 := probe_members) [] (new_parser m source) 0 ds = Ok (t, h) ∧
    feed (Consumer0 := tdest_consumer turns) (Parts0 := probe_members) [] (new_parser m source) 0 ds' = Ok (t', h') ∧
    hp_machine h = m' ∧ hp_machine h' = m' ∧ quiet t = quiet t' ∧ heard who t = heard who t' ∧ heard who t = concat (plain_body <$> id_bodies i).
Proof.
  intros Bm Ws Ed E Ei V. destruct (feed_ideal turns m m' source who ds l i Bm Ws E Ei V) as (t & h & F & Mh & Q & Hd). rewrite Ed in E.
  destruct (feed_ideal turns m m' source who ds' l i Bm Ws E Ei V) as (t' & h' & F' & Mh' & Q' & Hd'). exists t, h, t', h'. split_and!; [done..|congruence|congruence|done].
Qed.

(** *** Where bodies are lost *)

(** A run of the machine, with the packets the bytes come in. *)
Lemma feed_runs s s' source who packets bs i : rsp_body s = false → (who = true → source = true) → concat packets = bs →
  runs source (body_opening source) (body_closing source) s bs s' (MkIdeal Nowhere [] []) i → Forall ok_body (id_bodies i) →
  ∃ t h, feed (Consumer0 := tdest_consumer turns) (Parts0 := probe_members) [] (new_parser s source) 0 packets = Ok (t, h) ∧ hp_machine h = s' ∧
    quiet t = id_quiet i ∧ heard who t = concat (plain_body <$> id_bodies i).
Proof. intros Bs Ws <- (l & E & Ei) V. by apply (feed_ideal turns s s' source who packets l i). Qed.

(** The state behind the headers. *)
Lemma head_known source h s : rp_cs s = RMain → lines_fine s (hd_lines h) → good_head h →
  ∃ s1, info_of s1 = head_info h ∧ runs source (body_opening source) (body_closing source) s (status_bytes h ++ concat (line_bytes <$> hd_lines h) ++ [cr]) (goto s1 REmptyCr) (MkIdeal Nowhere [] [])
    (MkIdeal Nowhere ([APair; APush HttpResponse; APush HttpHead] ++ acts source (concat (line_cmds <$> hd_lines h))) []).
Proof.
  intros Es W G. destruct (head_lines_info (hd_lines h) (uri (goto s RStatus)).1 (gh_lines _ G) W) as (s1 & E1 & I1 & _). exists s1. split; [done|].
  pose proof (runs_head source (body_opening source) (body_closing source) h s s1 _ (MkIdeal Nowhere [] []) eq_refl Es G E1) as R1. unfold outside in R1. by rewrite acts_app in R1.
Qed.

(** A response whose body ends with the connection loses it: for a head that says that
    the connection is closed and has neither a length nor chunks, the first byte of the
    body is delivered as the whole body, and the parser then waits for a status line.  The
    counter of the length, which is not set, is tested in this state as in that for bodies
    with a length. *)
Theorem close_cuts_body s source who h c packets : rp_cs s = RMain → lines_fine s (hd_lines h) → good_head h → (who = true → source = true) →
  in_length (head_info h) = -1 → in_chunked (head_info h) = false → in_close (head_info h) = true → decodable turns (in_gzip (head_info h)) (in_brotli (head_info h)) [c] →
  concat packets = head_bytes h ++ [c] →
  ∃ t p, feed (Consumer0 := tdest_consumer turns) (Parts0 := probe_members) [] (new_parser s source) 0 packets = Ok (t, p) ∧ rp_cs (hp_machine p) = RMain ∧
    heard who t = decoded (in_gzip (head_info h)) (in_brotli (head_info h)) [c] ∧ last (quiet t) = Some (APop HttpResponse).
Proof.
  intros Es W G Ws L K C V E. destruct (head_known source h s Es W G) as (s1 & I1 & R1). unfold head_bytes in E.
  replace ((status_bytes h ++ concat (line_bytes <$> hd_lines h) ++ [cr; lf]) ++ [c]) with ((status_bytes h ++ concat (line_bytes <$> hd_lines h) ++ [cr]) ++ [lf] ++ [c]) in E by by rewrite <- !app_assoc.
  rewrite <- I1 in *. cbn [info_of in_length in_chunked in_close in_gzip in_brotli] in *. set (q := _ ++ acts source _) in R1.
  assert (runs source (body_opening source) (body_closing source) (goto s1 REmptyCr) [lf] (goto s1 RAll0) (MkIdeal Nowhere q []) (MkIdeal Nowhere (q ++ [APop HttpHead]) [])) as R2.
  { eapply runs_step; [done| |by apply (plain_outside_byte _ _ _ lf (MkIdeal Nowhere q []) [CPop HttpHead])]. unfold rsp_step. cbn [rp_cs goto]. unfold fin. cbn. by rewrite L, K, C. }
  assert (∃ s2, rp_cs s2 = RMain ∧ runs source (body_opening source) (body_closing source) (goto s1 RAll0) [c] s2 (MkIdeal Nowhere (q ++ [APop HttpHead]) [])
    (body_done (MkIdeal Nowhere (q ++ [APop HttpHead]) []) (rp_isGzipped s1) (rp_isBrotli s1) [c] (before_body source (body_opening source) ++ after_body source (body_closing source)))) as (s2 & E2 & R3).
  { eexists. split; [|eapply runs_step; [done|unfold rsp_step; cbn [rp_cs goto]; unfold consume; cbn [rp_contentLength goto]; by rewrite L, in_int_ok by lia|]]; [done|].
    unfold ideal_byte, body_done. cbn. unfold before_body, after_body, if_source. destruct source; cbn; by rewrite <- !app_assoc. }
  pose proof (runs_app _ _ _ _ _ _ _ _ _ _ _ R1 (runs_app _ _ _ _ _ _ _ _ _ _ _ R2 R3)) as Rn.
  destruct (feed_runs _ _ source who packets _ _ ltac:(unfold rsp_body; by rewrite Es) Ws E Rn) as (t & p & F & Mp & Q & Hd). { unfold id_bodies. cbn. by repeat constructor. }
  exists t, p. rewrite Mp. split_and!; [done|done|rewrite Hd; cbn; by rewrite app_nil_r|]. rewrite Q. unfold body_done, after_body. cbn [id_quiet]. rewrite !app_assoc. by rewrite last_snoc.
Qed.

Lemma quiet_elem a t : is_data a = false → (a ∈ t ↔ a ∈ quiet t).
Proof. intros D. unfold quiet. rewrite list_elem_of_filter. naive_solver. Qed.

(** No call on the source is recorded for headers. *)
Lemma lines_silent source ls : Forall (λ a, a ≠ APreFinish ∧ a ≠ AComplete) (acts source (concat (line_cmds <$> ls))).
Proof.
  induction ls as [|l ls IH]; [constructor|]. rewrite fmap_cons. cbn [concat]. rewrite acts_app. apply Forall_app_2; [|done]. unfold line_cmds. rewrite acts_app. apply Forall_app_2.
  - unfold content_type. destruct (_ && _); constructor.
  - by repeat constructor.
Qed.

(** A response with the length 0 is not reported to the source: the consumer of the source
    is started and finished, but neither [preFinish] nor [responseComplete] is called, so
    that a connection that waits for its response goes on waiting. *)
Theorem empty_never_completes s h packets : rp_cs s = RMain → lines_fine s (hd_lines h) → good_head h → in_length (head_info h) = 0 → concat packets = head_bytes h →
  ∃ t p, feed (Consumer0 := tdest_consumer turns) (Parts0 := probe_members) [] (new_parser s true) 0 packets = Ok (t, p) ∧ rp_cs (hp_machine p) = RMain ∧
    ANext ∈ t ∧ ASeen (SFinish true) ∈ t ∧ (APreFinish ∉ t) ∧ AComplete ∉ t.
Proof.
  intros Es W G L E. destruct (head_known true h s Es W G) as (s1 & I1 & R1). unfold head_bytes in E.
  change [cr; lf] with ([cr] ++ [lf]) in E. rewrite (app_assoc (concat _)), (app_assoc (status_bytes h)) in E. rewrite <- I1 in L. cbn in L. pose proof (lines_silent true (hd_lines h)) as Sl. set (k := acts true _) in *.
  assert (∃ s2, rp_cs s2 = RMain ∧ runs true (body_opening true) (body_closing true) (goto s1 REmptyCr) [lf] s2 (MkIdeal Nowhere ([APair; APush HttpResponse; APush HttpHead] ++ k) [])
    (MkIdeal Nowhere (([APair; APush HttpResponse; APush HttpHead] ++ k) ++ [APop HttpHead; ANext] ++ body_opening true ++ body_closing true ++ [APop HttpResponse]) [(false, false, [])])) as (s2 & E2 & R2).
  { eexists. split; [|eapply runs_step; [done|unfold rsp_step; cbn [rp_cs goto]; unfold fin; cbn; by rewrite L|]]; [done|]. unfold ideal_byte. cbn. by rewrite <- !app_assoc. }
  pose proof (runs_app _ _ _ _ _ _ _ _ _ _ _ R1 R2) as Rn.
  destruct (feed_runs _ _ true true packets _ _ ltac:(unfold rsp_body; by rewrite Es) ltac:(done) E Rn) as (t & p & F & Mp & Q & _). { unfold id_bodies. cbn. by repeat constructor. }
  exists t, p. rewrite Mp. cbn [id_quiet] in Q. rewrite !(quiet_elem _ t) by done. rewrite Q. split_and!; [done|done|set_solver|set_solver|..];
    rewrite !elem_of_app; intros [[Hin|Hin]|Hin]; try (by apply (proj1 (Forall_forall _ _) Sl) in Hin as [? ?]); set_solver.
Qed.
End Theorems.

(** ** Runs *)

Definition rsp0 : Rsp := MkRsp RMain [] [] [] 0 0 false false false false 0 false ∅ false [].

Definition ok_head (lines : list Line) : Head := MkHead (lit "HTTP/1.1") (lit "200") (lit "OK") lines.

Lemma ok_head_good lines : Forall good_line lines → good_head (ok_head lines).
Proof. intros F. split; [split; [done|]|split; [done|]|split; [done|]|done]; by apply (bool_decide_unpack _); vm_compute. Qed.

Definition chunked_head : Head := ok_head [MkLine (lit "Content-Encoding") (lit " gzip"); MkLine (lit "Transfer-Encoding") (lit " chunked")].

Lemma chunked_head_good : good_head chunked_head.
Proof. apply ok_head_good. repeat constructor; try done; by apply (bool_decide_unpack _); vm_compute. Qed.

(** Two chunks, the second one with the end of the compressed data, and an extension. *)
Definition two_chunks : list Chunk := [MkChunk (lit "2") [] (lit "ab"); MkChunk (lit "01") (lit ";x=y") [255]].
Definition last_chunk : Chunk := MkChunk (lit "0") [] [].

Lemma last_chunk_good : good_chunk last_chunk.
Proof. split; [split; [done|]|done|split; [constructor|done]|done]. by apply (bool_decide_unpack _); vm_compute. Qed.

Lemma two_chunks_good : Forall (λ k, good_chunk k ∧ ck_data k ≠ []) two_chunks.
Proof. repeat constructor; try done; by apply (bool_decide_unpack _); vm_compute. Qed.

Definition gzip_message : Message := MkMessage chunked_head (concat (chunk_bytes <$> two_chunks) ++ chunk_line_bytes last_chunk) (concat (ck_data <$> two_chunks)).

Lemma gzip_message_good : good_message gzip_message.
Proof.
  split; [apply chunked_head_good|]. apply framed_chunks; [done|by vm_compute|done|done|apply two_chunks_good|apply last_chunk_good|done].
Qed.

(** Bytes in packets of [n]. *)
Fixpoint cut (fuel n : nat) (bs : list Z) : list (list Z) :=
  match fuel with O => [bs] | S fuel => take n bs :: cut fuel n (drop n bs) end.

Lemma cut_concat fuel n bs : concat (cut fuel n bs) = bs.
Proof. revert bs. induction fuel as [|fuel IH]; intros bs; cbn; [by rewrite app_nil_r|]. by rewrite IH, take_drop. Qed.

(** A redirection with a cookie and an empty body. *)
Definition moved_head : Head := MkHead (lit "HTTP/1.1") (lit "302") (lit "Found")
  [MkLine (lit "Set-Cookie") (lit " id=7; Path=/"); MkLine (lit "Location") (lit " http://h/next"); MkLine (lit "Content-Length") (lit " 0")].
Definition moved_message : Message := MkMessage moved_head [] [].

Lemma moved_message_good : good_message moved_message.
Proof.
  split; [|by apply framed_empty]. split; [split; [done|]|split; [done|]|split; [done|]|]; try (by apply (bool_decide_unpack _); vm_compute).
  repeat constructor; try done; by apply (bool_decide_unpack _); vm_compute.
Qed.

(** The parser of a connection that fetches is asked for cookies and for redirections. *)
Definition asked_rsp : Rsp := MkRsp RMain [] [] [] 0 0 false false false false 0 true ∅ true [].
Definition three_messages : list Message := [gzip_message; moved_message; gzip_message].

Lemma responses_delivered_witness : ∃ t h,
  feed (Consumer0 := tdest_consumer 100) (Parts0 := probe_members) [] (new_parser asked_rsp true) 0 (cut 60 7 (concat (message_bytes <$> three_messages))) = Ok (t, h) ∧
  rp_cs (hp_machine h) = RMain ∧ quiet t = concat (message_acts true <$> three_messages) ∧ heard true t = lit "aabbaabb".
Proof.
  destruct (responses_delivered 100 asked_rsp true true three_messages (cut 60 7 (concat (message_bytes <$> three_messages)))) as (t & h & E & M & Q & Hd); [done| | | |done|apply cut_concat|].
  - apply (bool_decide_unpack _). vm_compute. exact I.
  - apply Forall_cons_2; [apply gzip_message_good|]. apply Forall_cons_2; [apply moved_message_good|]. apply Forall_cons_2; [apply gzip_message_good|constructor].
  - repeat constructor; vm_compute; lia.
  - exists t, h. split; [exact E|]. split; [exact M|]. split; [exact Q|]. rewrite Hd. clear. vm_compute. reflexivity.
Defined.

(** A response in chunks with none but the last, empty, one is followed through a null
    pointer: the destination of a body is only set by its first chunk, and the block of the
    body is finished without one. *)
Theorem no_chunks_crash (packets : list (list Z)) : packets = [head_bytes chunked_head ++ chunk_line_bytes last_chunk] ∨ packets = cut 20 5 (head_bytes chunked_head ++ chunk_line_bytes last_chunk) →
  feed (Consumer0 := tdest_consumer 100) (Parts0 := probe_members) [] (new_parser rsp0 false) 0 packets = Ub.
Proof. by intros [-> | ->]; vm_compute. Qed.

(** A request with a body, in one packet and in many. *)
Definition req0 : Req := MkReq QMain [] [] 0.
Definition post_bytes : list Z := lit "POST /x HTTP/1.1" ++ [cr; lf] ++ lit "Content-Length: 3" ++ [cr; lf] ++ [cr; lf] ++ lit "abc".
Definition post_script : Req * list (Z * list Cmd) := match script req0 post_bytes with Ok r => r | _ => (req0, []) end.
Definition post_ideal : Ideal :=
  default (MkIdeal Nowhere [] []) (ideal_run false (body_opening false) (body_closing false) (MkIdeal Nowhere [] []) post_script.2).

Lemma post_body : id_bodies post_ideal = [(false, false, lit "abc")].
Proof. by vm_compute. Qed.

Lemma packets_immaterial_witness : ∃ t h t' h',
  feed (Consumer0 := tdest_consumer 100) (Parts0 := probe_members) [] (new_parser req0 false) 0 [post_bytes] = Ok (t, h) ∧
  feed (Consumer0 := tdest_consumer 100) (Parts0 := probe_members) [] (new_parser req0 false) 0 (cut 30 2 post_bytes) = Ok (t', h') ∧
  quiet t = quiet t' ∧ heard false t = lit "abc" ∧ heard false t' = lit "abc".
Proof.
  destruct (packets_immaterial 100 req0 post_script.1 false false [post_bytes] (cut 30 2 post_bytes) post_script.2 post_ideal) as (t & h & t' & h' & E & E' & _ & _ & Q & Hh & Hd).
  - done.
  - done.
  - by vm_compute.
  - by vm_compute.
  - by vm_compute.
  - rewrite post_body. by repeat constructor.
  - exists t, h, t', h'. split; [exact E|]. split; [exact E'|]. split; [exact Q|]. rewrite <- Hh, Hd, post_body. clear. split; vm_compute; reflexivity.
Defined.

(** A response that ends with the connection. *)
Definition close_head : Head := ok_head [MkLine (lit "Connection") (lit " close")].

Lemma close_head_good : good_head close_head.
Proof. apply ok_head_good. repeat constructor; try done; by apply (bool_decide_unpack _); vm_compute. Qed.

Lemma close_cuts_body_witness : ∃ t p,
  feed (Consumer0 := tdest_consumer 100) (Parts0 := probe_members) [] (new_parser rsp0 false) 0 (cut 10 9 (head_bytes close_head ++ [60])) = Ok (t, p) ∧
  rp_cs (hp_machine p) = RMain ∧ heard false t = [60].
Proof.
  destruct (close_cuts_body 100 rsp0 false false close_head 60 (cut 10 9 (head_bytes close_head ++ [60]))) as (t & p & E & M & Hd & _);
    [done|by apply lines_fine_nothing|apply close_head_good|done|by vm_compute|by vm_compute|by vm_compute|done|apply cut_concat|].
  exists t, p. split; [exact E|]. split; [exact M|]. rewrite Hd. clear. vm_compute. reflexivity.
Defined.

(** The rest of the body is taken for a status line. *)
Example close_loses : ∃ t p,
  feed (Consumer0 := tdest_consumer 100) (Parts0 := probe_members) [] (new_parser rsp0 false) 0 [head_bytes close_head ++ lit "<p>1</p>"] = Ok (t, p) ∧ heard false t = lit "<" ∧ rp_cs (hp_machine p) = RWord1.
Proof. eexists _, _. split; [by vm_compute|]. by vm_compute. Qed.

(** ** The parser of bodies *)

Section BodyParser.
Context {X I P : Type} `{!FileIdent I} `{!World X} `{!Consumer X P} (new_html new_json : P).
#[local] Existing Instance body_consumer.
Implicit Types (x : X) (b : HttpBodyParser I P).

(** The identifier after some pieces. *)
Definition idents (i : I) (ds : list (list Z)) : I := foldl fi_receive i ds.

(** Before a type is decided nothing is done with what comes. *)
Lemma body_waits x i ct packet ds : (∀ es, es `prefix_of` ds → fi_type (idents i es) = FtWorking) →
  receive_all (H := body_consumer new_html new_json) x (MkHttpBodyParser i None ct) packet ds = Ok (x, MkHttpBodyParser (idents i ds) None ct).
Proof.
  revert i. induction ds as [|d ds IH]; intros i W; [done|]. cbn [receive_all c_receive body_consumer]. unfold body_receive, body_identify. cbn [hb_identifier hb_parser hb_contentType].
  rewrite bool_decide_eq_true_2 by (apply (W []), prefix_nil). pose proof (W [d] ltac:(by exists ds)) as W1. cbn in W1. rewrite bool_decide_eq_false_2 by (rewrite W1; tauto). cbn.
  apply IH. intros es Pre. apply (W (d :: es)). by apply prefix_cons.
Qed.

(** After it the parser gets every piece. *)
Lemma body_parses x i ct p packet ds : fi_type i ≠ FtWorking →
  receive_all (H := body_consumer new_html new_json) x (MkHttpBodyParser i (Some p) ct) packet ds = ('(x, p) ← receive_all x p packet ds; Ok (x, MkHttpBodyParser i (Some p) ct)).
Proof.
  intros N. revert x p. induction ds as [|d ds IH]; intros x p; [done|]. cbn [receive_all c_receive body_consumer]. unfold body_receive, body_identify. cbn [hb_identifier hb_parser].
  rewrite bool_decide_eq_false_2 by done. cbn. destruct (c_receive x p packet d) as [[[x' p'] r]| |]; cbn; [apply IH|done..].
Qed.

(** The parser of a type of file and a type of content. *)
Definition parser_of (t : FileType) (ct : ContentType) : option P :=
  if bool_decide (t = FtHTML) then Some new_html else if bool_decide (ct = ApplicationJson) then Some new_json else None.

(** A body goes to the parser of its type from the piece on in which the type was decided:
    what came before that piece the parser does not get. *)
Theorem body_from_decision x b packet ds d es p : let i := fi_start (hb_identifier b) in
  (∀ cs, cs `prefix_of` ds → fi_type (idents i cs) = FtWorking) → fi_type (idents i (ds ++ [d])) ≠ FtWorking → parser_of (fi_type (idents i (ds ++ [d]))) (hb_contentType b) = Some p →
  relay (H := body_consumer new_html new_json) x b packet (ds ++ d :: es) =
    ('(x, _) ← relay x p packet (d :: es); Ok (x, MkHttpBodyParser (idents i (ds ++ [d])) None (hb_contentType b))).
Proof.
  intros i W N Hp. unfold relay. cbn [c_start body_consumer]. unfold body_start. rewrite bind_Ok. fold i. rewrite receive_all_app, body_waits by done. rewrite bind_Ok.
  cbn [receive_all c_receive body_consumer]. unfold body_receive, body_identify. cbn [hb_identifier hb_parser hb_contentType].
  rewrite bool_decide_eq_true_2 by (by apply W). assert (fi_receive (idents i ds) d = idents i (ds ++ [d])) as -> by (unfold idents; by rewrite foldl_app).
  set (j := idents i (ds ++ [d])) in *. rewrite bool_decide_eq_true_2 by done.
  assert (decidedType new_html new_json x (MkHttpBodyParser j None (hb_contentType b)) packet (fi_type j) = begin_parser x (MkHttpBodyParser j None (hb_contentType b)) p) as ->.
  { unfold decidedType, parser_of in *. cbn [hb_contentType]. repeat case_bool_decide; congruence. }
  unfold begin_parser. destruct (c_start x p) as [[x1 p1]| |]; [|done..]. rewrite !bind_Ok. cbn [hb_parser set_parser]. destruct (c_receive x1 p1 packet d) as [[[x2 p2] r]| |]; [|done..].
  rewrite !bind_Ok. unfold set_parser. cbn [hb_identifier hb_contentType]. rewrite body_parses by done. destruct (receive_all x2 p2 packet es) as [[x3 p3]| |]; [|done..]. rewrite !bind_Ok.
  cbn [c_finish body_consumer]. unfold body_finish. cbn [hb_parser]. by destruct (c_finish x3 p3) as [[x4 p4]| |].
Qed.
End BodyParser.
