(* ===== verification/Fetch.v ===== *)
(** * parse/connection.cc, fetch.h: the connection of the fetch client

    Requests wait in a list; one at a time is written to the connection, and the parser
    of the responses calls back when it needs the consumer of a body and when a response
    is complete.  The connection is written over an interface of the parsers,
    [HttpParsers], which work on the trees of their contexts and may be undefined on what
    they are given; [machine_parsers] are those of httpreq.rl and httprsp.rl. *)

From S2P Require Import Prelude Rope Conn ConnState Vpt Tender Streams HttpRsp.

Record Request := MkRequest {
  rq_consumer : Z;
  rq_content : list Z;
}.

Module Ft.
Inductive State := Disconnected | Connecting | Sent | Idle.
End Ft.

#[export] Instance fetch_state_eq_dec : EqDecision Ft.State.
Proof. solve_decision. Defined.

(** Source: what the parser of responses calls. *)
Inductive Callback := NextConsumer | PreFinish | ResponseComplete.

(** [rs_receive]: the calls made for the bytes, in order. *)
Class HttpParsers := {
  RequestParser : Type;
  ResponseParser : Type;
  rq_start : RequestParser → VPT → res (RequestParser * VPT);
  rq_receive : RequestParser → VPT → list Z → res (RequestParser * VPT);
  rs_start : ResponseParser → VPT → res (ResponseParser * VPT);
  rs_receive : ResponseParser → VPT → list Z → res (ResponseParser * VPT * list Callback);
}.

(** ** The machines as parsers *)

Section Machines.
Variable pat : nat → PatNode.
Variable on_match : nat → list Node → nat → MatchResult.

(** What a call of a machine does to the tree. *)
Definition tree_cmd (v : VPT) (cmd : Cmd) : res VPT :=
  match cmd with
  | CPush type => push pat v type
  | CPop type => '(v, _) ← pop pat on_match v type; Ok v
  | CText text => setText pat v text
  | _ => Ok v
  end.

(** And on the source. *)
Definition source_cmd (cmd : Cmd) : list Callback :=
  match cmd with
  | CDest _ _ => [NextConsumer]
  | CPreFinish => [PreFinish]
  | CComplete => [ResponseComplete]
  | _ => []
  end.

(** Of the block of a body its destination is kept, up to [finish], which without one follows a null
    pointer. *)
Definition dest_cmd (dest : bool) (cmd : Cmd) : res bool :=
  match cmd with
  | CDest _ _ => Ok true
  | CFinish _ => if dest then Ok false else Ub
  | _ => Ok dest
  end.

Fixpoint machine_cmds (dest : bool) (v : VPT) (cmds : list Cmd) : res (bool * VPT * list Callback) :=
  match cmds with
  | [] => Ok (dest, v, [])
  | cmd :: cmds =>
      v ← tree_cmd v cmd;
      dest ← dest_cmd dest cmd;
      '(dest, v, cbs) ← machine_cmds dest v cmds;
      Ok (dest, v, source_cmd cmd ++ cbs)
  end.

Fixpoint machine_receive {M} `{Machine M} (m : M) (dest : bool) (v : VPT) (bytes : list Z) : res (M * bool * VPT * list Callback) :=
  match bytes with
  | [] => Ok (m, dest, v, [])
  | c :: bytes =>
      if m_error m then Ok (m, dest, v, [])
      else
        '(m, cmds) ← m_step m c;
        '(dest, v, cbs) ← machine_cmds dest v cmds;
        '(m, dest, v, cbs') ← machine_receive m dest v bytes;
        Ok (m, dest, v, cbs ++ cbs')
  end.

(** The parser of requests has no source. *)
#[export] Instance machine_parsers : HttpParsers := {|
  RequestParser := Req * bool;
  ResponseParser := Rsp * bool;
  rq_start p v := Ok ((Rq.goto p.1 QMain, p.2), v);
  rq_receive p v d := '(m, dest, v, _) ← machine_receive p.1 p.2 v d; Ok ((m, dest), v);
  rs_start p v := v ← push pat v LangHttp; Ok ((goto p.1 RMain, p.2), v);
  rs_receive p v d := '(m, dest, v, cbs) ← machine_receive p.1 p.2 v d; Ok ((m, dest), v, cbs);
|}.
End Machines.

Section Fetch.
Context `{HttpParsers}.
Variable pat : nat → PatNode.
Variable on_match : nat → list Node → nat → MatchResult.
(** The results of time( 0 ). *)
Variable clock : nat → Z.

(** The last fields are not in the code: the calls of time, the requests taken off the list,
    those sent on the current connection, those answered on it, the consumers handed to the
    parser, each with the number of responses completed on it before. *)
Record FetchConnection := MkFetch {
  fc_conn : Connection;
  fc_state : Ft.State;
  fc_lastSend : Z;
  fc_requestParser : RequestParser;
  fc_responseParser : ResponseParser;
  fc_throttleDelay : Z;
  fc_requestVpt : VPT;
  fc_responseVpt : VPT;
  fc_fetchHost : list Z;
  fc_requestList : list Request;
  fc_ticks : nat;
  fc_done : list Request;
  fc_sent : list Request;
  fc_answered : list Request;
  fc_handed : list (Z * nat);
}.

Implicit Type s : FetchConnection.

Definition set_conn s (c : Connection) : FetchConnection :=
  MkFetch c (fc_state s) (fc_lastSend s) (fc_requestParser s) (fc_responseParser s) (fc_throttleDelay s) (fc_requestVpt s) (fc_responseVpt s)
    (fc_fetchHost s) (fc_requestList s) (fc_ticks s) (fc_done s) (fc_sent s) (fc_answered s) (fc_handed s).
Definition set_fstate s (st : Ft.State) : FetchConnection :=
  MkFetch (fc_conn s) st (fc_lastSend s) (fc_requestParser s) (fc_responseParser s) (fc_throttleDelay s) (fc_requestVpt s) (fc_responseVpt s)
    (fc_fetchHost s) (fc_requestList s) (fc_ticks s) (fc_done s) (fc_sent s) (fc_answered s) (fc_handed s).
Definition set_lastSend s (t : Z) : FetchConnection :=
  MkFetch (fc_conn s) (fc_state s) t (fc_requestParser s) (fc_responseParser s) (fc_throttleDelay s) (fc_requestVpt s) (fc_responseVpt s)
    (fc_fetchHost s) (fc_requestList s) (fc_ticks s) (fc_done s) (fc_sent s) (fc_answered s) (fc_handed s).
Definition set_request s (p : RequestParser) (v : VPT) : FetchConnection :=
  MkFetch (fc_conn s) (fc_state s) (fc_lastSend s) p (fc_responseParser s) (fc_throttleDelay s) v (fc_responseVpt s)
    (fc_fetchHost s) (fc_requestList s) (fc_ticks s) (fc_done s) (fc_sent s) (fc_answered s) (fc_handed s).
Definition set_response s (p : ResponseParser) (v : VPT) : FetchConnection :=
  MkFetch (fc_conn s) (fc_state s) (fc_lastSend s) (fc_requestParser s) p (fc_throttleDelay s) (fc_requestVpt s) v
    (fc_fetchHost s) (fc_requestList s) (fc_ticks s) (fc_done s) (fc_sent s) (fc_answered s) (fc_handed s).
Definition set_host s (h : list Z) : FetchConnection :=
  MkFetch (fc_conn s) (fc_state s) (fc_lastSend s) (fc_requestParser s) (fc_responseParser s) (fc_throttleDelay s) (fc_requestVpt s) (fc_responseVpt s)
    h (fc_requestList s) (fc_ticks s) (fc_done s) (fc_sent s) (fc_answered s) (fc_handed s).
Definition set_requests s (l : list Request) (done : list Request) : FetchConnection :=
  MkFetch (fc_conn s) (fc_state s) (fc_lastSend s) (fc_requestParser s) (fc_responseParser s) (fc_throttleDelay s) (fc_requestVpt s) (fc_responseVpt s)
    (fc_fetchHost s) l (fc_ticks s) done (fc_sent s) (fc_answered s) (fc_handed s).
Definition set_traffic s (sent answered : list Request) (handed : list (Z * nat)) : FetchConnection :=
  MkFetch (fc_conn s) (fc_state s) (fc_lastSend s) (fc_requestParser s) (fc_responseParser s) (fc_throttleDelay s) (fc_requestVpt s) (fc_responseVpt s)
    (fc_fetchHost s) (fc_requestList s) (fc_ticks s) (fc_done s) sent answered handed.

Definition time0 s : Z * FetchConnection :=
  (clock (fc_ticks s),
   MkFetch (fc_conn s) (fc_state s) (fc_lastSend s) (fc_requestParser s) (fc_responseParser s) (fc_throttleDelay s) (fc_requestVpt s) (fc_responseVpt s)
     (fc_fetchHost s) (fc_requestList s) (S (fc_ticks s)) (fc_done s) (fc_sent s) (fc_answered s) (fc_handed s)).

(** [requestList.detachFirst()]: of an empty list it follows a null pointer. *)
Definition detachFirst s : res (Request * FetchConnection) :=
  match fc_requestList s with
  | [] => Ub
  | r :: rs => Ok (r, set_requests s rs (fc_done s ++ [r]))
  end.

(** Writing the request at the head. *)
Definition send_request s (r : Request) : res FetchConnection :=
  '(p, v) ← rq_receive (fc_requestParser s) (fc_requestVpt s) (rq_content r);
  let s := set_request s p v in
  '(nbytes, c) ← conn_write (fc_conn s) (rq_content r);
  let s := set_conn s c in
  let s := if negb (nbytes =? Z.of_nat (length (rq_content r))) then set_fstate (set_conn s (conn_close c)) Ft.Disconnected
           else set_traffic s (fc_sent s ++ [r]) (fc_answered s) (fc_handed s) in
  let s := set_fstate s Ft.Sent in
  let '(t, s) := time0 s in
  Ok (set_lastSend s t).

Definition maybeSend s : res FetchConnection :=
  if bool_decide (fc_state s = Ft.Idle) then
    match fc_requestList s with
    | [] => Ok s
    | r :: _ => let '(t, s) := time0 s in if fc_throttleDelay s <? t - fc_lastSend s then send_request s r else Ok s
    end
  else Ok s.

Definition nextConsumer s : res FetchConnection :=
  match fc_requestList s with
  | [] => Ub
  | r :: _ => Ok (set_traffic s (fc_sent s) (fc_answered s) (fc_handed s ++ [(rq_consumer r, length (fc_answered s))]))
  end.

Definition preFinish s : res FetchConnection :=
  '(r, s) ← detachFirst s;
  let s := set_traffic s (fc_sent s) (fc_answered s ++ [r]) (fc_handed s) in
  Ok (set_fstate s Ft.Idle).

Definition callback s (cb : Callback) : res FetchConnection :=
  match cb with
  | NextConsumer => nextConsumer s
  | PreFinish => preFinish s
  | ResponseComplete => maybeSend s
  end.

Fixpoint callbacks s (cbs : list Callback) : res FetchConnection :=
  match cbs with
  | [] => Ok s
  | cb :: cbs => s ← callback s cb; callbacks s cbs
  end.

Definition dataAvail s (bytes : list Z) : res FetchConnection :=
  '(p, v, cbs) ← rs_receive (fc_responseParser s) (fc_responseVpt s) bytes;
  callbacks (set_response s p v) cbs.

Fixpoint fetch_readReady (fuel : nat) s : res FetchConnection :=
  match fuel with
  | O => Spin
  | S fuel =>
      '(bytes, nbytes, c) ← conn_read (fc_conn s) 16384;
      let s := set_conn s c in
      if nbytes <? 0 then Ok (set_fstate (set_conn s (conn_close c)) Ft.Disconnected)
      else if 0 <? nbytes then
        s ← dataAvail s bytes;
        if c_closed (fc_conn s) then Ok s else fetch_readReady fuel s
      else Ok s
  end.

(** The nodes of the connection in the tree of a context. *)
Definition host_nodes (v : VPT) (host : list Z) : res VPT :=
  v ← push pat v ConnTls;
  v ← push pat v ConnHost;
  v ← setText pat v host;
  '(v, _) ← pop pat on_match v ConnHost;
  Ok v.

Definition fetch_connectComplete s : res FetchConnection :=
  '(p, v) ← rq_start (fc_requestParser s) (fc_requestVpt s);
  let s := set_request s p v in
  '(p, v) ← rs_start (fc_responseParser s) (fc_responseVpt s);
  let s := set_response s p v in
  v ← host_nodes (fc_responseVpt s) (fc_fetchHost s);
  let s := set_response s (fc_responseParser s) v in
  v ← host_nodes (fc_requestVpt s) (fc_fetchHost s);
  let s := set_request s (fc_requestParser s) v in
  let s := set_lastSend (set_fstate s Ft.Idle) 0 in
  maybeSend s.

(** Connection::initiate does not reset [closed]. *)
Definition initiate s (io : Peer) : FetchConnection :=
  set_conn s (MkConnection (new_SelectFd (-1) Fd.Lookup) true true (c_closed (fc_conn s)) io).

Definition getGoing s (host : list Z) (io : Peer) : FetchConnection :=
  let s := set_host s host in
  if bool_decide (fc_requestList s ≠ []) && bool_decide (fc_state s = Ft.Disconnected) then set_fstate (initiate s io) Ft.Connecting else s.

Definition queueRequest s (r : Request) : res FetchConnection := maybeSend (set_requests s (fc_requestList s ++ [r]) (fc_done s)).

Definition disconnect s : res FetchConnection :=
  let s := set_conn s (conn_close (fc_conn s)) in
  s ← (if bool_decide (fc_state s = Ft.Sent) then '(_, s) ← detachFirst s; Ok s else Ok s);
  Ok (set_fstate s Ft.Disconnected).

Definition new_FetchConnection (p : RequestParser) (q : ResponseParser) (delay lastSend : Z) (v w : VPT) : FetchConnection :=
  MkFetch (MkConnection (new_SelectFd (-1) Fd.Lookup) false false false (MkPeer false [] [] [] [] [])) Ft.Disconnected lastSend p q delay v w
    [] [] 0 [] [] [] [].

(** ** Runs *)

(** What the program and the event loop do.  [Connected fd]: the descriptor of the
    connection, and the handshake has succeeded; [ConnectFailed]: the connection or its
    verification failed, and the loop closes it. *)
Inductive FetchOp :=
  | GetGoing (host : list Z) (io : Peer)
  | Connected (fd : Z)
  | ConnectFailed
  | ReadReady
  | Timer
  | Queue (r : Request)
  | Disconnect.

Definition established (f : SelectFd) (fd : Z) : SelectFd :=
  set_established (set_wants (set_state (startTlsClient (set_wants (start_connect f fd) false false)) Fd.TlsConnect) false true) true.

(** The event loop knows open descriptors only. *)
Definition fetch_step s (op : FetchOp) : res FetchConnection :=
  match op with
  | GetGoing host io => Ok (getGoing s host io)
  | Connected fd =>
      if c_selectFd (fc_conn s) && bool_decide (sf_state (c_fd (fc_conn s)) = Fd.Lookup) then
        fetch_connectComplete (set_traffic (set_conn s (c_set_fd (fc_conn s) (established (c_fd (fc_conn s)) fd))) [] [] [])
      else Ok s
  | ConnectFailed =>
      if c_selectFd (fc_conn s) && bool_decide (sf_state (c_fd (fc_conn s)) = Fd.Lookup) then Ok (set_conn s (conn_close (fc_conn s)))
      else Ok s
  | ReadReady =>
      if c_selectFd (fc_conn s) && bool_decide (sf_state (c_fd (fc_conn s)) = Fd.TlsEstablished) then
        fetch_readReady (length (io_reads (c_peer (fc_conn s))) + 2) s
      else Ok s
  | Timer => maybeSend s
  | Queue r => queueRequest s r
  | Disconnect => disconnect s
  end.

Fixpoint fetch_run s (ops : list FetchOp) : res FetchConnection :=
  match ops with
  | [] => Ok s
  | op :: ops => s ← fetch_step s op; fetch_run s ops
  end.
End Fetch.
