(* ===== verification/FetchProps.v ===== *)
(** * The fetch client's connection: what is sent, in which order, and what goes wrong *)

From Stdlib Require Import String.
From S2P Require Import Prelude Rope Conn ConnState Vpt VptStack Tender Streams HttpRsp Fetch.

(** ** Reading and writing an established connection *)

(** An established connection with [out] sent on it. *)
Record live (c : Connection) (out : list Z) : Prop := Live {
  lv_open : c_selectFd c = true;
  lv_tls : c_tlsConnect c = true;
  lv_state : sf_state (c_fd c) = Fd.TlsEstablished;
  lv_ssl : sf_ssl (c_fd c) = true;
  lv_out : io_tls (c_peer c) = out;
}.

Lemma live_write c out data : live c out → ∃ n c', conn_write c data = Ok (n, c') ∧ (n = Z.of_nat (length data) → live c' (out ++ data)) ∧
  length (io_reads (c_peer c')) = length (io_reads (c_peer c)).
Proof.
  intros L. destruct L as [Op Tl St Ss Ou]. unfold conn_write, tlsWrite. rewrite Tl.
  destruct (Z.leb_spec (Z.of_nat (length data)) 0) as [Le|Gt].
  { eexists _, _. split; [done|]. split; [|done]. intros _. destruct data; [|cbn in *; lia]. rewrite app_nil_r. done. }
  unfold selectFd, the_ssl. rewrite Op, bind_Ok. cbn [set_tlsWriteWantsRead sf_ssl]. rewrite Ss, bind_Ok. unfold SSL_write, next_write.
  destruct (io_open (c_peer c)); [destruct (io_writes (c_peer c)) as [|e rest]; [|destruct (io_n e <=? 0) eqn:En]|]; cbn.
  - eexists _, _. split; [done|]. cbn. split; [lia|done].
  - destruct (io_n e <=? 0); [|done]. repeat case_match; eexists _, _; (split; [done|]); cbn; split; lia || done.
  - destruct (Z.leb_spec (Z.min (io_n e) (Z.of_nat (length data))) 0); [lia|]. eexists _, _. split; [done|]. cbn. split; [|done].
    intros E. split; try done. cbn. rewrite Ou, take_ge by lia. done.
  - repeat case_match; eexists _, _; (split; [done|]); cbn; split; lia || done.
Qed.

Lemma live_read c out len : live c out → ∃ data n c', conn_read c len = Ok (data, n, c') ∧ live c' out ∧ c_closed c' = c_closed c ∧
  (0 < n → (length (io_reads (c_peer c')) < length (io_reads (c_peer c)))%nat).
Proof.
  intros L. destruct L as [Op Tl St Ss Ou]. unfold conn_read, tlsRead. rewrite Tl. unfold selectFd, the_ssl. rewrite Op, bind_Ok.
  cbn [set_tlsReadWantsWrite sf_ssl]. rewrite Ss, bind_Ok. unfold sys_read.
  destruct (io_open (c_peer c)); [destruct (io_reads (c_peer c)) as [|e rest] eqn:Er; [|destruct (Z.leb_spec (io_n e) 0); [|set (m := Z.min _ _); destruct (Z.leb_spec m 0)]]|]; cbn;
    repeat case_match; (eexists _, _, _; split; [done|]; split; [by split|]; split; [done|]; cbn; lia).
Qed.

(** ** Trees that can be pushed to *)

Section Trees.
Context (pat : nat → PatNode) (on_match : nat → list Node → nat → MatchResult) (Pats : pats_ok pat).

(** A tree without barriers: the nodes on the stack are there, and as many can be popped as
    were pushed. *)
Record vpt_ok (v : VPT) : Prop := VptOk {
  vo_active : active_ok pat v;
  vo_spine : ∃ l, spine v = (Some <$> l) ++ [None] ∧ Forall (λ i, is_Some (v_nodes v !! i)) l ∧ Z.of_nat (length l) = v_topBarrier v + 1 ∧ 0 ≤ v_topBarrier v;
}.

Lemma vpt_top v : vpt_ok v → ∃ i n l, spine v = Some i :: (Some <$> l) ++ [None] ∧ sn_node (v_vt v) = Some i ∧ v_nodes v !! i = Some n ∧
  Forall (λ i, is_Some (v_nodes v !! i)) l ∧ Z.of_nat (length l) = v_topBarrier v ∧ 0 ≤ v_topBarrier v.
Proof.
  intros [_ (l & Es & F & Hl & H0)]. destruct l as [|i l]; [cbn in Hl; lia|]. apply Forall_cons in F as [[n En] F]. exists i, n, l. split_and!; [done| |done|done|cbn in Hl; lia|done].
  unfold spine in Es. by injection Es.
Qed.

Lemma vpt_push v type : vpt_ok v → ∃ v', push pat v type = Ok v' ∧ vpt_ok v'.
Proof.
  intros V. destruct (vpt_top v V) as (i & n & l & Es & Et & En & F & Hl & H0). destruct (push_ok pat Pats v type i n (vo_active v V) Et En) as (v' & E & A & Nd & Sp & Tb & _).
  exists v'. split; [done|]. split; [done|]. assert (∀ j, is_Some (v_nodes v !! j) → is_Some (v_nodes v' !! j)) as Mono.
  { intros j [m Ej]. pose proof (lookup_lt_Some _ _ _ Ej). apply lookup_lt_is_Some. rewrite Nd, length_app, length_insert. cbn. lia. }
  exists (length (v_nodes v) :: i :: l). rewrite Sp, Es, Tb. split_and!; [done| |cbn; lia|lia].
  constructor; [apply lookup_lt_is_Some; rewrite Nd, length_app, length_insert; cbn; lia|]. constructor; [by apply Mono|]. eapply Forall_impl; [exact F|]. auto.
Qed.

Lemma vpt_text v text : vpt_ok v → ∃ v', setText pat v text = Ok v' ∧ vpt_ok v'.
Proof.
  intros V. destruct (vpt_top v V) as (i & n & l & Es & Et & En & F & Hl & H0). destruct (setText_ok pat v text i n (vo_active v V) Et En) as (v' & E & A & Nd & Sp & Tb & _).
  exists v'. split; [done|]. split; [done|]. assert (∀ j, is_Some (v_nodes v !! j) → is_Some (v_nodes v' !! j)) as Mono by (intros j; rewrite !lookup_lt_is_Some, Nd, length_insert; done).
  exists (i :: l). rewrite Sp, Es, Tb. split_and!; [done| |cbn; lia|lia]. constructor; [apply Mono; by exists n|]. eapply Forall_impl; [exact F|]. auto.
Qed.

Lemma vpt_pop v type : vpt_ok v → ∃ v' b, pop pat on_match v type = Ok (v', b) ∧ vpt_ok v'.
Proof.
  intros V. destruct (vpt_top v V) as (i & n & l & Es & Et & En & F & Hl & H0). destruct (decide (nd_type n = type)) as [<-|N]; [destruct (decide (v_topBarrier v = 0)) as [Z0|Nz]|].
  - exists (set_error v), false. split; [by apply (pop_refused pat on_match v _ i n); auto|]. destruct V. by split.
  - destruct l as [|j l]; [cbn in Hl; lia|]. destruct (pop_ok pat on_match Pats v i n (Some j) _ (vo_active v V) Es En Nz) as (v' & E & A & Nd & Sp & Tb & _).
    exists v', true. split; [done|]. split; [done|]. exists (j :: l). rewrite Sp, Nd, Tb. split_and!; [done|done|cbn in *; lia|cbn in *; lia].
  - exists (set_error v), false. split; [apply (pop_refused pat on_match v _ i n); auto|]. destruct V. by split.
Qed.

(** The nodes of the connection are added. *)
Lemma host_nodes_ok v host : vpt_ok v → ∃ v', host_nodes pat on_match v host = Ok v' ∧ vpt_ok v'.
Proof.
  intros V. unfold host_nodes. destruct (vpt_push v ConnTls V) as (v1 & -> & V1). rewrite bind_Ok. destruct (vpt_push v1 ConnHost V1) as (v2 & -> & V2). rewrite bind_Ok.
  destruct (vpt_text v2 host V2) as (v3 & -> & V3). rewrite bind_Ok. destruct (vpt_pop v3 ConnHost V3) as (v4 & b & -> & V4). rewrite bind_Ok. by exists v4.
Qed.

(** ** The machines *)

Lemma tree_cmd_ok v cmd : vpt_ok v → ∃ v', tree_cmd pat on_match v cmd = Ok v' ∧ vpt_ok v'.
Proof.
  intros V. destruct cmd; cbn; try (by exists v); [by apply vpt_push| |by apply vpt_text]. destruct (vpt_pop v type V) as (v' & b & -> & V'). by exists v'.
Qed.

Lemma machine_cmds_vpt cmds dest v dest' v' cbs : vpt_ok v → machine_cmds pat on_match dest v cmds = Ok (dest', v', cbs) → vpt_ok v'.
Proof.
  revert dest v cbs. induction cmds as [|cmd cmds IH]; intros dest v cbs V E; cbn in E; [by injection E as <- <- <-|]. destruct (tree_cmd_ok v cmd V) as (v1 & E1 & V1). rewrite E1, bind_Ok in E.
  apply bind_Ok_inv in E as (d1 & _ & E). apply bind_Ok_inv in E as ([[d2 v2] cb2] & E2 & E). injection E as <- <- <-. by eapply IH.
Qed.

Lemma machine_vpt {M} `{Machine M} (m : M) dest v bytes m' dest' v' cbs : vpt_ok v → machine_receive pat on_match m dest v bytes = Ok (m', dest', v', cbs) → vpt_ok v'.
Proof.
  revert m dest v cbs. induction bytes as [|c bytes IH]; intros m dest v cbs V E; cbn in E; [by injection E as <- <- <- <-|]. destruct (m_error m); [by injection E as <- <- <- <-|].
  apply bind_Ok_inv in E as ([m1 cmds] & _ & E). apply bind_Ok_inv in E as ([[d1 v1] cb1] & E1 & E). apply bind_Ok_inv in E as ([[[m2 d2] v2] cb2] & E2 & E). injection E as <- <- <- <-.
  eapply IH; [|exact E2]. by eapply machine_cmds_vpt.
Qed.

(** Calls that leave the block of the body alone return. *)
Definition no_finish (cmd : Cmd) : bool := match cmd with CDest _ _ | CFinish _ => false | _ => true end.

Lemma machine_cmds_app a b dest v : machine_cmds pat on_match dest v (a ++ b) =
  ('(dest, v, x) ← machine_cmds pat on_match dest v a; '(dest, v, y) ← machine_cmds pat on_match dest v b; Ok (dest, v, x ++ y)).
Proof.
  revert dest v. induction a as [|cmd a IH]; intros dest v; cbn; [by destruct (machine_cmds _ _ _ _ _) as [[[]]| |]|]. destruct (tree_cmd _ _ v cmd) as [v1| |]; cbn; [|done..].
  destruct (dest_cmd dest cmd) as [d1| |]; cbn; [|done..]. rewrite IH. destruct (machine_cmds _ _ d1 v1 a) as [[[d2 v2] x]| |]; cbn; [|done..].
  destruct (machine_cmds _ _ d2 v2 b) as [[[d3 v3] y]| |]; cbn; [|done..]. by rewrite app_assoc.
Qed.

Lemma plain_cmds_ok cmds dest v : vpt_ok v → forallb no_finish cmds = true → ∃ v' cbs, machine_cmds pat on_match dest v cmds = Ok (dest, v', cbs) ∧ vpt_ok v'.
Proof.
  revert v. induction cmds as [|cmd cmds IH]; intros v V F; cbn in *; [by eexists _, _|]. apply andb_true_iff in F as [Fc F]. destruct (tree_cmd_ok v cmd V) as (v1 & -> & V1). rewrite bind_Ok.
  assert (dest_cmd dest cmd = Ok dest) as -> by by destruct cmd. rewrite bind_Ok. destruct (IH v1 V1 F) as (v2 & cbs & -> & V2). cbn. by eexists _, _.
Qed.

(** While the parser of requests is in a body its block has a destination. *)
Definition req_ok (p : Req * bool) : Prop := rq_cs p.1 = QConsume → p.2 = true.

Lemma consume_cmds_ok dest v enter s : vpt_ok v → enter = [CDest false false; CStart] ∨ enter = [] ∧ dest = true →
  ∃ dest' v' cbs, machine_cmds pat on_match dest v (Rq.consume s enter).2 = Ok (dest', v', cbs) ∧ vpt_ok v' ∧ req_ok ((Rq.consume s enter).1, dest').
Proof.
  intros V Hd. unfold Rq.consume. destruct (_ <=? _); cbn [fst snd].
  - destruct (tree_cmd_ok v (CPop HttpRequest) V) as (v' & E & V'). cbn in E. exists false, v'. destruct Hd as [-> |[-> ->]]; cbn; rewrite E; cbn; by eexists.
  - destruct Hd as [-> |[-> ->]]; cbn; by eexists _, _, _.
Qed.

Lemma req_step_ok s dest v c : vpt_ok v → req_ok (s, dest) → let '(s', cmds) := Rq.step s c in
  ∃ dest' v' cbs, machine_cmds pat on_match dest v cmds = Ok (dest', v', cbs) ∧ vpt_ok v' ∧ req_ok (s', dest').
Proof.
  intros V R. destruct (Rq.step s c) as [s' cmds] eqn:E.
  assert (forallb no_finish cmds = true → rq_cs s' ≠ QConsume → ∃ dest' v' cbs, machine_cmds pat on_match dest v cmds = Ok (dest', v', cbs) ∧ vpt_ok v' ∧ req_ok (s', dest')) as Plain.
  { intros F N. destruct (plain_cmds_ok cmds dest v V F) as (v' & cbs & Em & V'). exists dest, v', cbs. split_and!; [done|done|]. intros Q. by destruct N. }
  assert (∀ sc, forallb no_finish sc.2 = true → let r := Rq.after_line sc c in forallb no_finish r.2 = true ∧ rq_cs r.1 ≠ QConsume) as After.
  { intros [t pre] F. unfold Rq.after_line, Rq.fin. cbn in F. repeat case_match; cbn; simplify_eq; rewrite ?forallb_app, ?F; done. }
  destruct (rq_cs s) eqn:Es; unfold Rq.step in E; rewrite Es in E;
    repeat match type of E with (if ?b then _ else _) = _ => destruct b end; try (injection E as <- <-; by apply Plain).
  - injection E as <- <-. apply Plain; [done|]. by rewrite Es.
  - pose proof (After (Rq.request_line s) eq_refl) as A. rewrite E in A. apply Plain; apply A.
  - pose proof (After (Rq.header s) eq_refl) as A. rewrite E in A. apply Plain; apply A.
  - unfold Rq.fin in E. destruct (_ <? _); injection E as <- <-; by apply Plain.
  - pose proof (consume_cmds_ok dest v [CDest false false; CStart] s V (or_introl eq_refl)) as A. by rewrite E in A.
  - pose proof (consume_cmds_ok dest v [] s V (or_intror (conj eq_refl (R Es)))) as A. by rewrite E in A.
Qed.

(** The parser of requests always returns. *)
Lemma req_machine_ok bytes s dest v : vpt_ok v → req_ok (s, dest) →
  ∃ s' dest' v' cbs, machine_receive pat on_match s dest v bytes = Ok (s', dest', v', cbs) ∧ vpt_ok v' ∧ req_ok (s', dest').
Proof.
  revert s dest v. induction bytes as [|c bytes IH]; intros s dest v V R; cbn [machine_receive]; [by eexists _, _, _, _|]. destruct (m_error s); [by eexists _, _, _, _|].
  cbn [m_step req_machine]. rewrite bind_Ok. pose proof (req_step_ok s dest v c V R) as St. destruct (Rq.step s c) as [s1 cmds]. destruct St as (d1 & v1 & cb1 & -> & V1 & R1). rewrite bind_Ok.
  destruct (IH s1 d1 v1 V1 R1) as (s2 & d2 & v2 & cb2 & -> & V2 & R2). cbn. by eexists _, _, _, _.
Qed.
End Trees.

(** ** What the parsers promise *)

(** The parser of requests returns; that of responses leaves a tree that can be pushed to if
    it does. *)
Class HttpParserLaws (pat : nat → PatNode) `{HttpParsers} := {
  rq_ok : RequestParser → Prop;
  law_rq_start p v : vpt_ok pat v → ∃ p' v', rq_start p v = Ok (p', v') ∧ rq_ok p' ∧ vpt_ok pat v';
  law_rq_receive p v d : rq_ok p → vpt_ok pat v → ∃ p' v', rq_receive p v d = Ok (p', v') ∧ rq_ok p' ∧ vpt_ok pat v';
  law_rs_start p v : vpt_ok pat v → ∃ p' v', rs_start p v = Ok (p', v') ∧ vpt_ok pat v';
  law_rs_receive p v d p' v' cbs : vpt_ok pat v → rs_receive p v d = Ok (p', v', cbs) → vpt_ok pat v';
}.

Lemma machine_laws pat on_match : pats_ok pat → HttpParserLaws pat (H := machine_parsers pat on_match).
Proof.
  intros Pats. refine {| rq_ok := req_ok : RequestParser (HttpParsers := machine_parsers pat on_match) → Prop |}.
  - intros [s dest] v V. by eexists _, _.
  - intros [s dest] v d R V. destruct (req_machine_ok pat on_match Pats d s dest v V R) as (s' & d' & v' & cbs & E & V' & R'). exists (s', d'), v'. cbn. by rewrite E.
  - intros [s dest] v V. cbn. destruct (vpt_push pat Pats v LangHttp V) as (v' & -> & V'). by eexists _, _.
  - intros [s dest] v d p' v' cbs V E. cbn in E. apply bind_Ok_inv in E as ([[[s1 d1] v1] cb1] & E1 & E). injection E as <- <- <-. exact (machine_vpt pat on_match Pats _ _ _ _ _ _ _ _ V E1).
Qed.

Section Props.
Context (pat : nat → PatNode) (on_match : nat → list Node → nat → MatchResult) (clock : nat → Z).
Context `{HttpParsers} {Laws : HttpParserLaws pat} (Pats : pats_ok pat).

(** ** The invariant *)

Abbreviation vpt_ok := (vpt_ok pat).
Abbreviation FetchConnection := (FetchConnection (H := H)).
Abbreviation maybeSend := (maybeSend clock).
Abbreviation callback := (callback clock).
Abbreviation callbacks := (callbacks clock).

Definition contents (l : list Request) : list Z := concat (rq_content <$> l).
Arguments contents : simpl never.

(** By the state: a connection that is closed; one that is being made; one that is
    established, on which every request sent was answered; one on which the request at the
    head is the only one that was not, or a closed one. *)
Definition state_inv (s : FetchConnection) : Prop :=
  let c := fc_conn s in
  match fc_state s with
  | Ft.Disconnected => c_selectFd c = false
  | Ft.Connecting => c_selectFd c = false ∨ c_tlsConnect c = true ∧ sf_state (c_fd c) = Fd.Lookup ∧ io_tls (c_peer c) = []
  | Ft.Idle => live c (contents (fc_sent s)) ∧ fc_sent s = fc_answered s ∧ fc_answered s `suffix_of` fc_done s
  | Ft.Sent => ∃ r rs, fc_requestList s = r :: rs ∧
      (c_selectFd c = false ∧ c_closed c = true ∨ live c (contents (fc_sent s)) ∧ fc_sent s = fc_answered s ++ [r] ∧ fc_answered s `suffix_of` fc_done s)
  end.

Definition active (s : FetchConnection) : Prop := fc_state s = Ft.Idle ∨ fc_state s = Ft.Sent.

Record fetch_ok (s : FetchConnection) : Prop := FetchOk {
  fo_state : state_inv s;
  fo_handed : ∀ c i, (c, i) ∈ fc_handed s → ∃ r, fc_sent s !! i = Some r ∧ rq_consumer r = c;
  fo_request : vpt_ok (fc_requestVpt s);
  fo_response : vpt_ok (fc_responseVpt s);
  fo_parser : active s → rq_ok (pat := pat) (fc_requestParser s);
}.

(** The requests that were queued, and the reads to come. *)
Definition queued (s : FetchConnection) : list Request := fc_done s ++ fc_requestList s.
Definition reads (s : FetchConnection) : nat := length (io_reads (c_peer (fc_conn s))).

(** From [s] to [s'] with the same requests queued. *)
Definition fetch_goes (s s' : FetchConnection) : Prop := fetch_ok s' ∧ queued s' = queued s ∧ (reads s' ≤ reads s)%nat ∧ (active s → active s').

Lemma close_reads c : length (io_reads (c_peer (conn_close c))) = length (io_reads (c_peer c)).
Proof. unfold conn_close. by destruct (c_selectFd c). Qed.

Lemma close_closed c : c_selectFd (conn_close c) = false ∧ c_closed (conn_close c) = true.
Proof. unfold conn_close. by destruct (c_selectFd c). Qed.

Lemma contents_snoc l r : contents (l ++ [r]) = contents l ++ rq_content r.
Proof. unfold contents. rewrite fmap_app, concat_app. cbn. by rewrite app_nil_r. Qed.

Lemma send_request_ok s r rs : fetch_ok s → fc_state s = Ft.Idle → fc_requestList s = r :: rs → ∃ s', send_request clock s r = Ok s' ∧ fetch_goes s s'.
Proof.
  intros [St Ha Vq Vs Pa] Id Rl. unfold state_inv in St. rewrite Id in St. destruct St as (Lv & Eq & Su). unfold send_request.
  destruct (law_rq_receive (fc_requestParser s) (fc_requestVpt s) (rq_content r) (Pa (or_introl Id)) Vq) as (p & v & -> & Pa' & Vq'). rewrite bind_Ok.
  destruct (live_write _ _ (rq_content r) Lv) as (n & c & E & Full & Re). cbn [fc_conn set_request]. rewrite E, bind_Ok.
  destruct (Z.eqb_spec n (Z.of_nat (length (rq_content r)))) as [En|Ne]; cbn.
  - eexists. split; [done|]. split_and!; [split; cbn|done|unfold reads; cbn; lia|by right].
    + exists r, rs. split; [done|]. right. rewrite contents_snoc. split_and!; [by apply Full|by rewrite Eq|done].
    + intros c0 i I. destruct (Ha c0 i I) as (q & Q & C). exists q. split; [by apply lookup_app_l_Some|done].
    + done.
    + done.
    + done.
  - eexists. split; [done|]. split_and!; [split; cbn|done|unfold reads; cbn; rewrite close_reads; lia|by right].
    + exists r, rs. split; [done|]. left. apply close_closed.
    + done.
    + done.
    + done.
    + done.
Qed.

Lemma fetch_ok_time s : fetch_ok s → fetch_ok (time0 clock s).2.
Proof. intros [? ? ? ? ?]. by split. Qed.

Lemma maybeSend_ok s : fetch_ok s → ∃ s', maybeSend s = Ok s' ∧ fetch_goes s s'.
Proof.
  intros O. unfold Fetch.maybeSend. case_bool_decide as Id; [|by exists s]. destruct (fc_requestList s) as [|r rs] eqn:Rl; [by exists s|].
  cbn. pose proof (fetch_ok_time s O) as O1. set (s1 := (time0 clock s).2) in *. change (fetch_goes s) with (fetch_goes s1).
  fold s1. destruct (_ <? _); [|by exists s1]. by apply (send_request_ok s1 r rs).
Qed.

(** A response nobody asked for on the connection is not one the parser should see. *)
Definition solicited (s : FetchConnection) (cb : Callback) : bool :=
  match cb with ResponseComplete => true | _ => bool_decide (fc_state s = Ft.Sent) && c_selectFd (fc_conn s) end.

Lemma callback_ok s cb : fetch_ok s → solicited s cb = true → ∃ s', callback s cb = Ok s' ∧ fetch_goes s s'.
Proof.
  intros O So. destruct cb; [| |by apply maybeSend_ok]; cbn in So; apply andb_true_iff in So as [Es Eo]; apply bool_decide_eq_true in Es;
    destruct O as [St Ha Vq Vs Pa]; unfold state_inv in St; rewrite Es in St; destruct St as (r & rs & Rl & [[Cl _]|(Lv & Eq & Su)]); try congruence.
  - unfold Fetch.callback, nextConsumer. rewrite Rl. eexists. split; [done|]. split_and!; [split; cbn|done|done|done].
    + unfold state_inv. cbn. rewrite Es. eauto 10.
    + intros c i [I|I%list_elem_of_singleton]%elem_of_app; [eauto|]. simplify_eq. exists r. split; [|done]. rewrite Eq. by apply list_lookup_middle.
    + done.
    + done.
    + done.
  - unfold Fetch.callback, preFinish, detachFirst. rewrite Rl, bind_Ok. eexists. split; [done|].
    split_and!; [split; cbn|unfold queued; cbn; by rewrite Rl, <- app_assoc|done|by left]; done || (split_and!; [done|by rewrite Eq|by apply suffix_app]) || (intros _; apply Pa; by right).
Qed.

Fixpoint polite_cbs (s : FetchConnection) (cbs : list Callback) : bool :=
  match cbs with
  | [] => true
  | cb :: cbs => solicited s cb && match callback s cb with Ok s => polite_cbs s cbs | _ => true end
  end.

Lemma goes_refl s : fetch_ok s → fetch_goes s s.
Proof. intros O. unfold fetch_goes. by split_and!. Qed.

Lemma goes_trans s s' s'' : fetch_goes s s' → fetch_goes s' s'' → fetch_goes s s''.
Proof. intros (A & B & C & D) (A' & B' & C' & D'). unfold fetch_goes. split_and!; [done|congruence|lia|auto]. Qed.

Lemma callbacks_ok s cbs : fetch_ok s → polite_cbs s cbs = true → ∃ s', callbacks s cbs = Ok s' ∧ fetch_goes s s'.
Proof.
  revert s. induction cbs as [|cb cbs IH]; intros s O P; cbn in *; [eauto using goes_refl|].
  apply andb_true_iff in P as [So P]. destruct (callback_ok s cb O So) as (s1 & E & G1). rewrite E in *. rewrite bind_Ok.
  destruct (IH s1 (proj1 G1) P) as (s2 & -> & G2). eauto using goes_trans.
Qed.

Fixpoint polite_read (fuel : nat) (s : FetchConnection) : bool :=
  match fuel with
  | O => true
  | S fuel =>
      match conn_read (fc_conn s) 16384 with
      | Ok (bytes, nbytes, c) =>
          if 0 <? nbytes then
            match rs_receive (fc_responseParser s) (fc_responseVpt s) bytes with
            | Ok (p, v, cbs) =>
                let s := set_response (set_conn s c) p v in
                polite_cbs s cbs && match callbacks s cbs with Ok s => polite_read fuel s | _ => true end
            | _ => false
            end
          else true
      | _ => true
      end
  end.

(** An open connection that is active is established. *)
Lemma active_live s : fetch_ok s → active s → c_selectFd (fc_conn s) = true ∨ c_closed (fc_conn s) = false →
  live (fc_conn s) (contents (fc_sent s)).
Proof.
  intros [St _ _ _ _] A Op. unfold state_inv in St. destruct A as [E|E]; rewrite E in St; [apply St|].
  destruct St as (r & rs & _ & [[C1 C2]|[L _]]); [destruct Op; congruence|done].
Qed.

(** Reading changes the connection only. *)
Lemma set_conn_ok s c : fetch_ok s → active s → live (fc_conn s) (contents (fc_sent s)) → live c (contents (fc_sent s)) → fetch_ok (set_conn s c).
Proof.
  intros [St Ha Vq Vs Pa] A L L'. split; try done. unfold state_inv in *. cbn. destruct A as [E|E]; rewrite E in *; [by split; [|apply St]|].
  destruct St as (r & rs & Rl & [[C _]|(_ & Eq & Su)]); [destruct L; congruence|eauto 10].
Qed.

Lemma fetch_readReady_ok fuel s : fetch_ok s → active s → live (fc_conn s) (contents (fc_sent s)) → (reads s < fuel)%nat → polite_read fuel s = true →
  ∃ s', fetch_readReady clock fuel s = Ok s' ∧ fetch_ok s' ∧ queued s' = queued s.
Proof.
  revert s. induction fuel as [|fuel IH]; intros s O A L F P; [lia|]. cbn in *.
  destruct (live_read _ _ 16384 L) as (bytes & n & c & E & L' & Cl & Rd). rewrite E in *. rewrite bind_Ok.
  pose proof (set_conn_ok s c O A L L') as O1. destruct (Z.ltb_spec n 0) as [Neg|NN].
  - eexists. split; [done|]. destruct O as [St Ha Vq Vs Pa]. split; [|done]. split; cbn; try done; [apply close_closed|]. by intros [|].
  - destruct (Z.ltb_spec 0 n) as [Pos|]; [|exists (set_conn s c); done]. specialize (Rd Pos). unfold dataAvail. cbn [fc_responseParser fc_responseVpt set_conn].
    destruct (rs_receive (fc_responseParser s) (fc_responseVpt s) bytes) as [[[p v] cbs]| |] eqn:Rs; try done. rewrite bind_Ok. apply andb_true_iff in P as [P1 P2].
    pose proof (law_rs_receive _ _ _ _ _ _ (fo_response s O) Rs) as Vs.
    set (s1 := set_response (set_conn s c) p v) in *. assert (O2 : fetch_ok s1) by (destruct O1; by split).
    destruct (callbacks_ok s1 cbs O2 P1) as (s2 & E2 & O3 & Q2 & R2 & A2). rewrite E2 in *. rewrite bind_Ok.
    destruct (c_closed (fc_conn s2)) eqn:Ec; [exists s2; done|]. specialize (A2 A).
    destruct (IH s2 O3 A2) as (s3 & E3 & O4 & Q3); [by apply active_live; auto|unfold reads in *; cbn in *; lia|done|].
    exists s3. split_and!; [done|done|]. by rewrite Q3, Q2.
Qed.

(** ** Runs *)

(** New connections have nothing written to them. *)
Definition op_ok (op : FetchOp) : Prop := match op with GetGoing _ io => io_tls io = [] | _ => True end.

Definition polite_step (s : FetchConnection) (op : FetchOp) : bool :=
  match op with
  | ReadReady =>
      if c_selectFd (fc_conn s) && bool_decide (sf_state (c_fd (fc_conn s)) = Fd.TlsEstablished) then polite_read (length (io_reads (c_peer (fc_conn s))) + 2) s
      else true
  | _ => true
  end.

Definition queued_by (op : FetchOp) : list Request := match op with Queue r => [r] | _ => [] end.

Lemma connectComplete_ok s : live (fc_conn s) [] → fc_sent s = [] → fc_answered s = [] → fc_handed s = [] → vpt_ok (fc_requestVpt s) → vpt_ok (fc_responseVpt s) →
  ∃ s', fetch_connectComplete pat on_match clock s = Ok s' ∧ fetch_ok s' ∧ queued s' = queued s.
Proof.
  intros L Se An Ha Vq Vs. unfold fetch_connectComplete. destruct (law_rq_start (fc_requestParser s) _ Vq) as (p & vq & -> & Pp & Vq'). rewrite bind_Ok. cbn.
  destruct (law_rs_start (fc_responseParser s) _ Vs) as (p' & vs & -> & Vs'). rewrite bind_Ok. cbn.
  destruct (host_nodes_ok pat on_match Pats _ (fc_fetchHost s) Vs') as (v & -> & V). rewrite bind_Ok. cbn.
  destruct (host_nodes_ok pat on_match Pats _ (fc_fetchHost s) Vq') as (w & -> & W). rewrite bind_Ok.
  edestruct maybeSend_ok as (s' & E & G); [|rewrite E; exists s'; split; [done|]; split; [apply G|apply G]].
  split; cbn; [unfold state_inv; cbn; rewrite Se, An; split_and!; [done|done|apply suffix_nil]|by rewrite Ha; set_solver|done|done|done].
Qed.

Lemma step_ok s op : fetch_ok s → op_ok op → polite_step s op = true →
  ∃ s', fetch_step pat on_match clock s op = Ok s' ∧ fetch_ok s' ∧ queued s' = queued s ++ queued_by op.
Proof.
  intros O Op P. destruct op as [host io|fd| | | |r|]; cbn [queued_by]; rewrite ?app_nil_r.
  - eexists. split; [done|]. unfold getGoing. destruct O as [St Ha Vq Vs Pa]. cbn.
    destruct (bool_decide (fc_requestList s ≠ []) && bool_decide (fc_state s = Ft.Disconnected)); (split; [split|]; try done); cbn; [auto|]. by intros [|].
  - unfold fetch_step. destruct (c_selectFd (fc_conn s)) eqn:Es; [|by exists s]. cbn [andb]. case_bool_decide as El; [|by exists s].
    destruct O as [St Ha Vq Vs Pa]. unfold state_inv in St.
    edestruct connectComplete_ok as (s' & E & O' & Q); [| | | | | |rewrite E; exists s'; split; [done|]; split; [done|exact Q]]; cbn; try done.
    destruct (fc_state s); try congruence.
    + destruct St as [?|(T & _ & I)]; [congruence|]. by split.
    + destruct St as (r & rs & _ & [[? _]|[L _]]); [congruence|]. destruct L. congruence.
    + destruct St as [L _]. destruct L. congruence.
  - unfold fetch_step. destruct (c_selectFd (fc_conn s)) eqn:Es; [|by exists s]. cbn [andb]. case_bool_decide as El; [|by exists s].
    eexists. split; [done|]. split; [|done]. destruct O as [St Ha Vq Vs Pa]. split; try done. unfold state_inv in *. cbn.
    destruct (fc_state s); [apply close_closed|left; apply close_closed|destruct St as (r & rs & Rl & _); exists r, rs; split; [done|]; left; apply close_closed|].
    destruct St as [L _]. destruct L. congruence.
  - cbn in *. destruct (c_selectFd (fc_conn s) && bool_decide (sf_state (c_fd (fc_conn s)) = Fd.TlsEstablished)) eqn:G; [|by exists s].
    apply andb_true_iff in G as [Es El]. apply bool_decide_eq_true in El.
    assert (A : active s).
    { destruct O as [St _ _ _ _]. unfold state_inv in St. destruct (fc_state s) eqn:E; [congruence|destruct St as [?|(_ & ? & _)]; congruence|by right|by left]. }
    apply fetch_readReady_ok; [done|done|by apply active_live; auto|unfold reads; lia|done].
  - destruct (maybeSend_ok s O) as (s' & E & G). exists s'. split; [done|]. split; apply G.
  - edestruct (maybeSend_ok (set_requests s (fc_requestList s ++ [r]) (fc_done s))) as (s' & E & G).
    { destruct O as [St Ha Vq Vs Pa]. split; try done. unfold state_inv in *. cbn. destruct (fc_state s); try done.
      destruct St as (q & rs & Rl & St). exists q, (rs ++ [r]). by rewrite Rl. }
    exists s'. split; [done|]. split; [apply G|]. destruct G as (_ & -> & _). unfold queued. cbn. by rewrite app_assoc.
  - unfold fetch_step, disconnect, detachFirst. destruct O as [St Ha Vq Vs Pa]. cbn. case_bool_decide as Es.
    + unfold state_inv in St. rewrite Es in St. destruct St as (r & rs & Rl & _). rewrite Rl, !bind_Ok. eexists. split; [done|].
      split; [split; try done; [apply close_closed|by intros [|]]|]. unfold queued. cbn. by rewrite Rl, <- app_assoc.
    + rewrite bind_Ok. eexists. split; [done|]. split; [split; try done; [apply close_closed|by intros [|]]|done].
Qed.

Fixpoint polite_run (s : FetchConnection) (ops : list FetchOp) : bool :=
  match ops with
  | [] => true
  | op :: ops => polite_step s op && match fetch_step pat on_match clock s op with Ok s => polite_run s ops | _ => true end
  end.

Lemma run_ok s ops : fetch_ok s → Forall op_ok ops → polite_run s ops = true →
  ∃ s', fetch_run pat on_match clock s ops = Ok s' ∧ fetch_ok s' ∧ queued s' = queued s ++ concat (queued_by <$> ops).
Proof.
  intros O Op. revert s O. induction Op as [|op ops Ho Hs IH]; intros s O P; cbn in *; [exists s; by rewrite app_nil_r|].
  apply andb_true_iff in P as [P1 P2]. destruct (step_ok s op O Ho P1) as (s1 & E & O1 & Q1). rewrite E in *. rewrite bind_Ok.
  destruct (IH s1 O1 P2) as (s2 & E2 & O2 & Q2). exists s2. split_and!; [done|done|]. by rewrite Q2, Q1, app_assoc.
Qed.

(** ** Theorems *)

(** What holds of every run, over the interface of the parsers. *)
Lemma run_in_order p q delay lastSend v w ops :
  vpt_ok v → vpt_ok w → Forall op_ok ops → polite_run (new_FetchConnection p q delay lastSend v w) ops = true →
  ∃ s, fetch_run pat on_match clock (new_FetchConnection p q delay lastSend v w) ops = Ok s ∧
    (c_selectFd (fc_conn s) = true → sf_state (c_fd (fc_conn s)) = Fd.TlsEstablished →
      io_tls (c_peer (fc_conn s)) = contents (fc_sent s) ∧
      (∃ before after, concat (queued_by <$> ops) = before ++ fc_sent s ++ after) ∧
      (fc_sent s = fc_answered s ∨ ∃ r, fc_sent s = fc_answered s ++ [r])) ∧
    ∀ c i, (c, i) ∈ fc_handed s → ∃ r, fc_sent s !! i = Some r ∧ rq_consumer r = c.
Proof.
  intros V W Op P. destruct (run_ok (new_FetchConnection p q delay lastSend v w) ops) as (s & E & [St Ha _ _ _] & Q); [by split; cbn; try done; [set_solver|intros [|]]|done|done|].
  exists s. split; [done|]. split; [|done]. intros Es El. unfold state_inv in St. unfold queued in Q. cbn in Q. rewrite <- Q.
  destruct (fc_state s); try congruence.
  - destruct St as [?|(_ & ? & _)]; congruence.
  - destruct St as (r & rs & Rl & [[? _]|(L & Eq & [k Su])]); [congruence|]. split_and!; [apply L| |eauto].
    exists k, rs. rewrite Su, Rl, Eq. by rewrite <- !app_assoc.
  - destruct St as (L & Eq & [k Su]). split_and!; [apply L| |auto]. exists k, (fc_requestList s). by rewrite Su, Eq, <- app_assoc.
Qed.

(** A connection that failed while a request was written. *)
Definition stuck (c : Connection) (r : Request) (s : FetchConnection) : Prop :=
  fc_state s = Ft.Sent ∧ fc_conn s = c ∧ c_selectFd c = false ∧ head (fc_requestList s) = Some r.

Lemma stuck_step c r s op : stuck c r s → op ≠ Disconnect → ∃ s', fetch_step pat on_match clock s op = Ok s' ∧ stuck c r s'.
Proof.
  intros (Es & Ec & Eo & Er) N. assert (Ms : ∀ s, fc_state s = Ft.Sent → maybeSend s = Ok s) by (intros s0 E0; unfold Fetch.maybeSend; by rewrite E0).
  destruct op; cbn; rewrite ?Ec, ?Eo; try (by exists s); try done.
  - eexists. split; [done|]. unfold getGoing. cbn. rewrite Es. cbn. rewrite andb_false_r. by split.
  - exists s. by rewrite Ms.
  - unfold queueRequest. rewrite Ms by done. eexists. split; [done|]. unfold stuck in *. cbn. split_and!; try done. destruct (fc_requestList s); done.
Qed.

(** When a request cannot be written as a whole the connection is closed but left in the state
    in which a response is waited for: until the client is disconnected it makes no new
    connection and sends nothing, whatever it is asked to do. *)
Theorem failed_send_stuck s r rs n c ops :
  fc_state s = Ft.Idle → fc_requestList s = r :: rs → fc_throttleDelay s < clock (fc_ticks s) - fc_lastSend s →
  is_ok (rq_receive (fc_requestParser s) (fc_requestVpt s) (rq_content r)) = true → conn_write (fc_conn s) (rq_content r) = Ok (n, c) → n ≠ Z.of_nat (length (rq_content r)) → Disconnect ∉ ops →
  ∃ s1 s2, maybeSend s = Ok s1 ∧ fetch_run pat on_match clock s1 ops = Ok s2 ∧
    fc_state s2 = Ft.Sent ∧ fc_conn s2 = conn_close c ∧ head (fc_requestList s2) = Some r.
Proof.
  intros Es Er Du Rq Ew Ne Nd. unfold Fetch.maybeSend. rewrite Es, Er. cbn. destruct (Z.ltb_spec (fc_throttleDelay s) (clock (fc_ticks s) - fc_lastSend s)); [|lia].
  unfold send_request. destruct (rq_receive _ _ _) as [[p v]| |]; try done. cbn. rewrite Ew, bind_Ok. rewrite (proj2 (Z.eqb_neq _ _)) by done. cbn.
  eexists. enough (∀ s1, stuck (conn_close c) r s1 → ∃ s2, fetch_run pat on_match clock s1 ops = Ok s2 ∧ stuck (conn_close c) r s2) as G.
  { edestruct G as (s2 & E & (A & B & _ & D)); [|exists s2; split; [done|]; split; [exact E|done]]. split_and!; try done; cbn; [apply close_closed|by rewrite Er]. }
  clear -Nd. induction ops as [|op ops IH]; intros s1 St; cbn; [eauto|].
  apply not_elem_of_cons in Nd as [N1 N2]. destruct (stuck_step _ _ _ op St) as (s2 & -> & St2); [done|]. rewrite bind_Ok. auto.
Qed.

(** A response that was not asked for takes the request at the head off the list, which is not
    sent; when the list is empty the client dereferences null. *)
Theorem unsolicited_response s : fc_state s = Ft.Idle →
  match fc_requestList s with
  | [] => callback s PreFinish = Ub ∧ callback s NextConsumer = Ub
  | r :: rs => ∃ s', callback s PreFinish = Ok s' ∧ fc_requestList s' = rs ∧ fc_sent s' = fc_sent s ∧ fc_answered s' = fc_answered s ++ [r]
  end.
Proof.
  intros E. unfold Fetch.callback, preFinish, nextConsumer, detachFirst. destruct (fc_requestList s) as [|r rs]; [done|]. cbn. by eexists.
Qed.
End Props.

(** C30: However requests are queued, the connection made, lost and made again, and responses
    read, when no response comes that was not asked for and the parser of responses is
    defined on what is read: the client's functions return; on an
    open connection what was written is requests one after the other as they were queued, all
    but at most the last of them answered; and the consumer given to the parser for a response
    is the one of the request it answers.  The parsers are the machines of requests and
    responses, on trees without barriers. *)
Theorem requests_in_order pat on_match clock p q delay lastSend v w ops : pats_ok pat → vpt_ok pat v → vpt_ok pat w → Forall op_ok ops →
  let start := new_FetchConnection (H := machine_parsers pat on_match) p q delay lastSend v w in
  polite_run pat on_match clock start ops = true →
  ∃ s, fetch_run pat on_match clock start ops = Ok s ∧
    (c_selectFd (fc_conn s) = true → sf_state (c_fd (fc_conn s)) = Fd.TlsEstablished →
      io_tls (c_peer (fc_conn s)) = contents (fc_sent s) ∧
      (∃ before after, concat (queued_by <$> ops) = before ++ fc_sent s ++ after) ∧
      (fc_sent s = fc_answered s ∨ ∃ r, fc_sent s = fc_answered s ++ [r])) ∧
    ∀ c i, (c, i) ∈ fc_handed s → ∃ r, fc_sent s !! i = Some r ∧ rq_consumer r = c.
Proof. intros Pats V W Op start P. exact (run_in_order pat on_match clock (Laws := machine_laws pat on_match Pats) Pats p q delay lastSend v w ops V W Op P). Qed.

(** ** Runs of the machines *)

Definition no_pat : nat → PatNode := λ _, MkPatNode None Root [] None None None None 0 true false.
Definition no_match : nat → list Node → nat → MatchResult := λ _ _ _, MatchContinue.
Abbreviation MP := (machine_parsers no_pat no_match).

Lemma no_pats_ok : pats_ok no_pat.
Proof. by split. Qed.

Lemma new_vpt_ok : vpt_ok no_pat (new_VPT 0).
Proof. split; [by repeat constructor|]. exists [0%nat]. split_and!; [done|by repeat constructor; eexists|done|done]. Qed.

Definition a_request (n : Z) : Request := MkRequest n (lit "GET / HTTP/1.1" ++ [13; 10; 13; 10]).
Definition a_response : list Z :=
  lit "HTTP/1.1 200 OK" ++ [13; 10] ++ lit "Set-Cookie: a=b; c" ++ [13; 10] ++ lit "Content-Length: 2" ++ [13; 10] ++ [13; 10] ++ lit "hi".

(** Asked for cookies and redirections, as fetch.h has it. *)
Definition fetch_rsp : Rsp := MkRsp RMain [] [] [] 0 0 false false false false 0 true ∅ true [].
Definition fetch_req : Req := MkReq QMain [] [] 0.

(** Two requests, the first response in two reads. *)
Definition two_requests : list FetchOp :=
  let io := MkPeer true (a_response ++ a_response) [] [] [MkIo 30 0; MkIo 30 0; MkIo (-1) SSL_ERROR_WANT_READ; MkIo 60 0] [MkIo 99 0; MkIo 99 0] in
  [Queue (a_request 7); GetGoing [97] io; Connected 4; ReadReady; Queue (a_request 8); ReadReady].

Definition fresh_client : FetchConnection (H := MP) := new_FetchConnection (H := MP) (fetch_req, false) (fetch_rsp, false) 0 0 (new_VPT 0) (new_VPT 0).

Lemma requests_in_order_witness : ∃ s, fetch_run no_pat no_match (λ n, Z.of_nat (S n)) fresh_client two_requests = Ok s ∧
  fc_handed s = [(7, 0%nat); (8, 1%nat)] ∧ ∀ c i, (c, i) ∈ fc_handed s → ∃ r, fc_sent s !! i = Some r ∧ rq_consumer r = c.
Proof.
  destruct (requests_in_order no_pat no_match (λ n, Z.of_nat (S n)) (fetch_req, false) (fetch_rsp, false) 0 0 (new_VPT 0) (new_VPT 0) two_requests no_pats_ok new_vpt_ok new_vpt_ok)
    as (s & E & _ & Ha); [by repeat constructor|vm_compute; reflexivity|].
  exists s. split; [exact E|]. split; [|exact Ha].
  assert (match fetch_run no_pat no_match (λ n, Z.of_nat (S n)) fresh_client two_requests with Ok s => fc_handed s | _ => [] end = [(7, 0%nat); (8, 1%nat)]) as X by (clear; vm_compute; reflexivity).
  unfold fresh_client in X. rewrite E in X. exact X.
Defined.

(** A client that has one request to send, and a connection that takes one byte of it. *)
Definition about_to_send : FetchConnection (H := MP) :=
  MkFetch (H := MP) (MkConnection (established (new_SelectFd (-1) Fd.Lookup) 4) true true false (MkPeer true [] [] [] [] [MkIo 1 0])) Ft.Idle 0 (fetch_req, false) (fetch_rsp, false) 0 (new_VPT 0) (new_VPT 0)
    [97] [MkRequest 7 [10; 11]] 0 [] [] [] [].

Lemma failed_send_stuck_witness : ∃ s1 s2, maybeSend (λ _, 100) about_to_send = Ok s1 ∧
  fetch_run no_pat no_match (λ _, 100) s1 [Timer; GetGoing [98] (MkPeer true [] [] [] [] [])] = Ok s2 ∧ fc_state s2 = Ft.Sent ∧ c_selectFd (fc_conn s2) = false.
Proof.
  destruct (failed_send_stuck no_pat no_match (λ _, 100) about_to_send (MkRequest 7 [10; 11]) [] 1
    (MkConnection (established (new_SelectFd (-1) Fd.Lookup) 4) true true false (MkPeer true [] [] [10] [] []))
    [Timer; GetGoing [98] (MkPeer true [] [] [] [] [])]) as (s1 & s2 & E1 & E2 & St & Co & _); [done|done|cbn; lia|by vm_compute|by vm_compute|cbn; lia|set_solver|].
  exists s1, s2. split_and!; [done|done|done|]. by rewrite Co.
Defined.

Lemma unsolicited_response_witness : ∃ s', callback (λ _, 100) about_to_send PreFinish = Ok s' ∧ fc_requestList s' = [] ∧ fc_sent s' = [].
Proof. destruct (unsolicited_response (λ _, 100) about_to_send ltac:(done)) as (s' & E & R & S & _). by exists s'. Defined.

(** A connection that could not be made is not tried again: the client stays in the state in
    which it is being made. *)
Example failed_connect_stuck :
  match fetch_run no_pat no_match (λ _, 100) fresh_client
    [Queue (MkRequest 7 [10]); GetGoing [97] (MkPeer true [] [] [] [] []); ConnectFailed; Timer; GetGoing [97] (MkPeer true [] [] [] [] [])] with
  | Ok s => fc_state s = Ft.Connecting ∧ c_selectFd (fc_conn s) = false
  | _ => False
  end.
Proof. vm_compute. by split. Qed.
