(* ===== verification/Report.v ===== *)
(** * parse/report.cc: reports of parses

    A report keeps what a parser was given, and writes it to a file with the tree of the
    parse, after a failure with a mark where it was. *)

From Stdlib Require Import String.
From S2P Require Import Prelude Rope Influx Vpt VptStack VptProps Tender.

(** ** Trees in a report *)

Definition nodeText (type : NodeType) : list Z :=
  lit match type with
  | Root => "root"
  | LangHttp => "lang-http"
  | LangJson => "lang-json"
  | LangHtml => "lang-html"
  | ConnTls => "conn-tls"
  | ConnHost => "conn-host"
  | HttpRequest => "http-request"
  | HttpHead => "http-head"
  | HttpResponse => "http-response"
  | HttpConnHost => "http-conn-host"
  | HttpMethod => "http-method"
  | HttpUri => "http-uri"
  | HttpProtocol => "http-protocol"
  | HttpHeader => "http-header"
  | HttpHeaderName => "http-header-name"
  | HttpHeaderValue => "http-header-value"
  | JsonObject => "json-object"
  | JsonArray => "json-array"
  | JsonField => "json-field"
  | JsonString => "json-string"
  | JsonNumber => "json-number"
  | JsonNull => "json-null"
  | JsonFalse => "json-false"
  | JsonTrue => "json-true"
  | JsonNaN => "json-nan"
  | JsonInfinity => "json-infinity"
  | HtmlTag => "html-tag"
  | HtmlText => "html-text"
  | HtmlAttr => "html-attr"
  | HtmlVal => "html-val"
  | DnsPacket => "dns-packet"
  | DnsQuestion => "dns-question"
  | DnsAnswer => "dns-answer"
  | DnsAuthority => "dns-authority"
  | DnsAdditional => "dns-additional"
  | DnsRrA => "dns-rr-a"
  | DnsRrAAAA => "dns-rr-aaaa"
  | DnsRrCname => "dns-rr-cname"
  | DnsName => "dns-name"
  | DnsAddr => "dns-addr"
  | FileTypePe => "file-type-pe"
  | FileTypeUnknown => "file-type-unknown"
  end%string.

Definition comma : list Z := lit ",".

(** The loop over children: a comma behind each but the last. *)
Fixpoint dump_children (dump : nat → res (list Z)) (ids : list nat) : res (list Z) :=
  match ids with
  | [] => Ok []
  | [i] => dump i
  | i :: ids => s ← dump i; rest ← dump_children dump ids; Ok (s ++ comma ++ rest)
  end.

(** [fuel] bounds the depth of the tree. *)
Fixpoint dumpTree (fuel : nat) (ns : list Node) (i : nat) : res (list Z) :=
  match fuel with
  | O => Spin
  | S fuel =>
      node ← deref (ns !! i);
      let text := if (0 <? length (nd_text node))%nat then lit ":" ++ nd_text node else [] in
      kids ← (if (0 <? length (nd_children node))%nat then s ← dump_children (dumpTree fuel ns) (nd_children node); Ok (lit "{" ++ s ++ lit "}") else Ok []);
      Ok (nodeText (nd_type node) ++ text ++ kids)
  end.

Definition dumpRoot (fuel : nat) (ns : list Node) (i : nat) : res (list Z) :=
  node ← deref (ns !! i);
  dump_children (dumpTree fuel ns) (nd_children node).

(** ** Reports *)

(** Files written, with their names; [pr_id] is the static counter. *)
Record ParseReport := MkParseReport {
  pr_rope : Rope;
  pr_conn : list Z;
  pr_size : Z;
  pr_errorReported : bool;
  pr_id : Z;
  pr_files : list (list Z * list Z);
}.

Definition new_ParseReport (id : Z) (files : list (list Z * list Z)) : ParseReport := MkParseReport rope_none [] 0 false id files.

Definition nl : list Z := [10].

Section Report.
Context `{RopeLib}.
Implicit Type r : ParseReport.

(** "report-" and the number, filled with zeros to four places. *)
Definition report_name (id : Z) : list Z :=
  let d := decimal id in lit "report-" ++ replicate (4 - length d) 48 ++ d.

Definition write_file r (out : list Z) : ParseReport :=
  MkParseReport (pr_rope r) (pr_conn r) (pr_size r) (pr_errorReported r) (i32 (pr_id r + 1)) (pr_files r ++ [(report_name (pr_id r), out)]).

Definition report_start r : ParseReport := MkParseReport (pr_rope r) (pr_conn r) 0 false (pr_id r) (pr_files r).

(** [connection] is the pointer to the connection of the packet, as it is printed, if there is a packet. *)
Definition report_receive r (connection : option (list Z)) (data : list Z) : ParseReport :=
  let conn := match connection with Some c => if (length (pr_conn r) =? 0)%nat then c else pr_conn r | None => pr_conn r end in
  MkParseReport (rope_append (pr_rope r) data) conn (pr_size r + Z.of_nat (length data)) (pr_errorReported r) (pr_id r) (pr_files r).

(** [root] may be null. *)
Definition dump_root (fuel : nat) (ns : list Node) (root : option nat) : res (list Z) :=
  match root with Some i => dumpRoot fuel ns i | None => Ok [] end.

Definition successReport (fuel : nat) r (ns : list Node) (root : option nat) : res (list Z) :=
  tree ← dump_root fuel ns root;
  Ok (lit "connection: " ++ pr_conn r ++ nl ++ lit "tree: " ++ tree ++ nl ++ lit "input:" ++ nl ++ concat (rb_data <$> r_blocks (pr_rope r))).

Definition report_finish (fuel : nat) r (ns : list Node) (root : option nat) : res ParseReport :=
  if pr_errorReported r then Ok r
  else out ← successReport fuel r ns root; Ok (write_file r out).

Definition failure_mark : list Z := nl ++ lit "failure at:" ++ nl.

(** The input, block by block, with the mark in the block the failure is in. *)
Fixpoint error_input (errat sofar : Z) (blocks : list RopeBlock) : list Z :=
  match blocks with
  | [] => []
  | rb :: blocks =>
      let lower := sofar in
      let upper := sofar + rb_length rb in
      (if (lower <? errat) && (errat <=? upper) then
         let local := Z.to_nat (errat - sofar) in
         take local (rb_data rb) ++ failure_mark ++ drop local (rb_data rb)
       else rb_data rb) ++ error_input errat (sofar + rb_length rb) blocks
  end.

Definition errorReport (fuel : nat) r (ns : list Node) (root : option nat) (offset pc : Z) : res (list Z * ParseReport) :=
  let errat := pr_size r - offset in
  tree ← dump_root fuel ns root;
  Ok (lit "connection: " ++ pr_conn r ++ nl ++ lit "offset: " ++ decimal errat ++ nl ++ lit "tree: " ++ tree ++ nl ++
      lit "error on char: " ++ decimal pc ++ nl ++ lit "input:" ++ nl ++ error_input errat 0 (r_blocks (pr_rope r)) ++ nl,
      MkParseReport (pr_rope r) (pr_conn r) (pr_size r) true (pr_id r) (pr_files r)).

Definition report_error (fuel : nat) r (ns : list Node) (root : option nat) (offset pc : Z) : res ParseReport :=
  '(out, r) ← errorReport fuel r ns root offset pc;
  Ok (write_file r out).
End Report.

(** * Theorems

    The mark of a report is where the parse failed; the tree of a report is that of the
    parse, and can be read back from it. *)

(** ** The input *)

Lemma error_input_spec errat sofar blocks : 0 ≤ sofar →
  error_input errat sofar blocks =
    let bs := concat (rb_data <$> blocks) in
    if decide (sofar < errat ≤ sofar + Z.of_nat (length bs)) then take (Z.to_nat (errat - sofar)) bs ++ failure_mark ++ drop (Z.to_nat (errat - sofar)) bs else bs.
Proof.
  revert sofar. induction blocks as [|[d a] blocks IH]; intros sofar Hs; [cbn; by rewrite decide_False by lia|].
  cbn [error_input rb_length rb_data]. unfold rb_length. cbn [rb_data]. rewrite IH by lia. rewrite fmap_cons. cbn [concat rb_data]. cbv zeta. set (bs := concat (rb_data <$> blocks)). rewrite length_app.
  destruct (Z.ltb_spec sofar errat) as [L|L]; cbn [andb].
  - destruct (Z.leb_spec errat (sofar + Z.of_nat (length d))) as [U|U].
    + rewrite decide_False by lia. rewrite decide_True by lia. rewrite take_app_le, drop_app_le by lia. by rewrite <- !app_assoc.
    + case_decide; [rewrite decide_True by lia|by rewrite decide_False by lia]. replace (Z.to_nat (errat - sofar)) with (length d + Z.to_nat (errat - (sofar + Z.of_nat (length d))))%nat by lia.
      by rewrite take_app_add, drop_app_add, <- app_assoc.
  - by rewrite !decide_False by lia.
Qed.

Section Reports.
Context `{RopeLib}.
Implicit Type r : ParseReport.

Definition receive_pieces r (conn : option (list Z)) (ds : list (list Z)) : ParseReport := foldl (λ r d, report_receive r conn d) r ds.

Lemma receive_pieces_spec r conn ds : let r' := receive_pieces r conn ds in
  rope_bytes (pr_rope r') = rope_bytes (pr_rope r) ++ concat ds ∧ pr_size r' = pr_size r + Z.of_nat (length (concat ds)) ∧
  pr_errorReported r' = pr_errorReported r ∧ pr_id r' = pr_id r ∧ pr_files r' = pr_files r.
Proof.
  revert r. induction ds as [|d ds IH]; intros r; cbn; [by rewrite app_nil_r, Z.add_0_r|]. destruct (IH (report_receive r conn d)) as (E & S & E3 & E4 & E5).
  unfold receive_pieces in *. rewrite E, S, E3, E4, E5. cbn. rewrite rope_append_bytes, length_app, <- app_assoc. split_and!; [done|lia|done..].
Qed.

(** What a report of a failure says of the input. *)
Definition marked (k : Z) (bs : list Z) : list Z := take (Z.to_nat k) bs ++ failure_mark ++ drop (Z.to_nat k) bs.

Definition error_text (conn tree : list Z) (k pc : Z) (input : list Z) : list Z :=
  lit "connection: " ++ conn ++ nl ++ lit "offset: " ++ decimal k ++ nl ++ lit "tree: " ++ tree ++ nl ++ lit "error on char: " ++ decimal pc ++ nl ++ lit "input:" ++ nl ++ input ++ nl.

Lemma report_error_spec fuel r ns root offset pc tree : dump_root fuel ns root = Ok tree →
  let k := pr_size r - offset in let bs := rope_bytes (pr_rope r) in
  ∃ r', report_error fuel r ns root offset pc = Ok r' ∧ pr_errorReported r' = true ∧ pr_rope r' = pr_rope r ∧
    pr_files r' = pr_files r ++ [(report_name (pr_id r), error_text (pr_conn r) tree k pc (if decide (0 < k ≤ Z.of_nat (length bs)) then marked k bs else bs))].
Proof.
  intros E k bs. unfold report_error, errorReport. rewrite E, bind_Ok. rewrite error_input_spec by lia. cbv zeta. rewrite Z.add_0_l, Z.sub_0_r, bind_Ok. by eexists.
Qed.

(** A report of a failure has all of the input, and where it is not at the very
    beginning a mark that splits it: what the parser had been given, whatever the pieces,
    up to the place of the failure, the mark, and the rest; the offset it names is that
    place.  The report is in a file of its own, and none is written for the parse later. *)
Theorem failure_marked fuel ns root tree id files conn ds offset pc : dump_root fuel ns root = Ok tree → 0 ≤ offset < Z.of_nat (length (concat ds)) →
  let k := Z.of_nat (length (concat ds)) - offset in
  let r := receive_pieces (report_start (new_ParseReport id files)) conn ds in
  ∃ r', report_error fuel r ns root offset pc = Ok r' ∧
    pr_files r' = files ++ [(report_name id, error_text (pr_conn r) tree k pc (take (Z.to_nat k) (concat ds) ++ failure_mark ++ drop (Z.to_nat k) (concat ds)))] ∧
    report_finish fuel r' ns root = Ok r'.
Proof.
  intros E O k r. destruct (receive_pieces_spec (report_start (new_ParseReport id files)) conn ds) as (B & S & Er & I & F). fold r in B, S, Er, I, F. cbn in B, S, Er, I, F.
  destruct (report_error_spec fuel r ns root offset pc tree E) as (r' & E' & Er' & Ro & F'). exists r'. split; [done|]. rewrite B, S, I, F in F'. rewrite Z.add_0_l in F'. fold k in F'. rewrite decide_True in F' by lia.
  split; [exact F'|]. unfold report_finish. by rewrite Er'.
Qed.

(** A failure on the first byte is not marked. *)
Theorem first_byte_unmarked fuel ns root tree id files conn ds pc : dump_root fuel ns root = Ok tree →
  let r := receive_pieces (report_start (new_ParseReport id files)) conn ds in
  ∃ r', report_error fuel r ns root (Z.of_nat (length (concat ds))) pc = Ok r' ∧
    pr_files r' = files ++ [(report_name id, error_text (pr_conn r) tree 0 pc (concat ds))].
Proof.
  intros E r. destruct (receive_pieces_spec (report_start (new_ParseReport id files)) conn ds) as (B & S & Er & I & F). fold r in B, S, Er, I, F. cbn in B, S, Er, I, F.
  destruct (report_error_spec fuel r ns root (Z.of_nat (length (concat ds))) pc tree E) as (r' & E' & Er' & Ro & F'). exists r'. split; [done|]. rewrite B, S, I, F, Z.add_0_l, Z.sub_diag in F'. by rewrite decide_False in F' by lia.
Qed.

(** A report that is started again counts from the beginning, but keeps the old input: a
    mark is then put into the input of the parse before. *)
Theorem old_input_marked fuel ns root tree r conn ds offset pc : dump_root fuel ns root = Ok tree → 0 ≤ offset < Z.of_nat (length (concat ds)) →
  let k := Z.of_nat (length (concat ds)) - offset in let all := rope_bytes (pr_rope r) ++ concat ds in
  ∃ r', report_error fuel (receive_pieces (report_start r) conn ds) ns root offset pc = Ok r' ∧
    pr_files r' = pr_files r ++ [(report_name (pr_id r), error_text (pr_conn (receive_pieces (report_start r) conn ds)) tree k pc (marked k all))].
Proof.
  intros E O k all. destruct (receive_pieces_spec (report_start r) conn ds) as (B & S & Er & I & F). cbn in B, S, I, F. fold all in B. rewrite Z.add_0_l in S.
  destruct (report_error_spec fuel (receive_pieces (report_start r) conn ds) ns root offset pc tree E) as (r' & E' & _ & _ & F'). exists r'. split; [done|]. rewrite B, S, I, F in F'. fold k in F'.
  rewrite decide_True in F' by (unfold all; rewrite length_app; lia). exact F'.
Qed.
End Reports.

(** ** The tree *)

Definition node_text (type : NodeType) (text : list Z) : list Z :=
  nodeText type ++ if (0 <? length text)%nat then lit ":" ++ text else [].

(** A document as it is in a report. *)
Fixpoint dump_forest (f : Forest) : list Z :=
  match f with
  | Leaf => []
  | Tree type text kids rest =>
      node_text type text ++ match kids with Leaf => [] | _ => lit "{" ++ dump_forest kids ++ lit "}" end ++
      match rest with Leaf => [] | _ => comma ++ dump_forest rest end
  end.

Fixpoint depth_of (f : Forest) : nat :=
  match f with Leaf => O | Tree _ _ kids rest => Nat.max (S (depth_of kids)) (depth_of rest) end.

Lemma dump_children_cons dump i ids : ids ≠ [] → dump_children dump (i :: ids) = s ← dump i; rest ← dump_children dump ids; Ok (s ++ comma ++ rest).
Proof. by destruct ids. Qed.

Lemma stands_length ns lo ids f : stands ns lo ids f → (length ids = 0)%nat ↔ f = Leaf.
Proof. by destruct 1. Qed.

Lemma dump_stands ns lo ids f fuel : stands ns lo ids f → (depth_of f ≤ fuel)%nat → dump_children (dumpTree fuel ns) ids = Ok (dump_forest f).
Proof.
  intros S. revert fuel. induction S as [|i ids cs type text kids rest L E S1 IH1 S2 IH2]; intros fuel D; [done|]. cbn [depth_of] in D. destruct fuel as [|fuel]; [lia|].
  assert (dumpTree (Datatypes.S fuel) ns i = Ok (node_text type text ++ match kids with Leaf => [] | _ => lit "{" ++ dump_forest kids ++ lit "}" end)) as Ei.
  { cbn [dumpTree]. rewrite E. cbn [deref]. rewrite bind_Ok. cbn [nd_children nd_text nd_type]. unfold node_text. pose proof (stands_length _ _ _ _ S1) as Lk. destruct cs as [|c cs].
    - destruct Lk as [Lk _]. rewrite (Lk eq_refl). cbn [length Nat.ltb Nat.leb]. rewrite bind_Ok. by rewrite !app_nil_r.
    - cbn [length Nat.ltb Nat.leb]. rewrite (IH1 fuel) by lia. destruct kids; [by destruct Lk as [_ Lk]; discriminate (Lk eq_refl)|]. cbn [mbind res_bind]. by rewrite <- app_assoc. }
  pose proof (stands_length _ _ _ _ S2) as Lr. destruct ids as [|i2 ids].
  - destruct Lr as [Lr _]. rewrite (Lr eq_refl). cbn [dump_children dump_forest]. rewrite Ei. by rewrite app_nil_r.
  - rewrite dump_children_cons by done. rewrite Ei, bind_Ok, (IH2 (Datatypes.S fuel)) by lia. rewrite bind_Ok. destruct rest; [by destruct Lr as [_ Lr]; discriminate (Lr eq_refl)|].
    cbn [dump_forest]. by rewrite <- !app_assoc.
Qed.

(** *** Reading it back *)

Definition delimiter (c : Z) : bool := (c =? 44) || (c =? 123) || (c =? 125).

(** Texts without the bytes that structure a report. *)
Fixpoint clean (f : Forest) : Prop :=
  match f with Leaf => True | Tree _ text kids rest => Forall (λ c, delimiter c = false) text ∧ clean kids ∧ clean rest end.

Definition stops (P : Z → bool) (r : list Z) : Prop := match r with [] => True | c :: _ => P c = true end.

(** Two words up to where each stops. *)
Lemma words_eq P a b r r' : Forall (λ c, P c = false) a → Forall (λ c, P c = false) b → stops P r → stops P r' → a ++ r = b ++ r' → a = b ∧ r = r'.
Proof.
  revert b. induction a as [|c a IH]; intros b Fa Fb Sr Sr' E.
  - destruct b as [|d b]; [done|]. cbn in E. apply Forall_cons in Fb as [Fd _]. subst r. cbn in Sr. congruence.
  - apply Forall_cons in Fa as [Fc Fa]. destruct b as [|d b]; cbn in E; [subst r'; cbn in Sr'; congruence|]. apply Forall_cons in Fb as [Fd Fb]. injection E as -> E.
    by destruct (IH b Fa Fb Sr Sr' E) as [-> ->].
Qed.

Definition all_types : list NodeType :=
  [Root; LangHttp; LangJson; LangHtml; ConnTls; ConnHost; HttpRequest; HttpHead; HttpResponse; HttpConnHost; HttpMethod; HttpUri; HttpProtocol; HttpHeader; HttpHeaderName; HttpHeaderValue;
   HtmlTag; HtmlText; HtmlAttr; HtmlVal; JsonObject; JsonField; JsonArray; JsonString; JsonNumber; JsonNull; JsonFalse; JsonTrue; JsonNaN; JsonInfinity;
   DnsPacket; DnsQuestion; DnsAnswer; DnsAuthority; DnsAdditional; DnsRrA; DnsRrAAAA; DnsRrCname; DnsName; DnsAddr; FileTypePe; FileTypeUnknown].

Lemma all_types_all a : a ∈ all_types.
Proof. apply (bool_decide_unpack _). destruct a; vm_compute; exact I. Qed.

Lemma nodeText_inj a b : nodeText a = nodeText b → a = b.
Proof.
  assert (Forall (λ a, Forall (λ b, nodeText a = nodeText b → a = b) all_types) all_types) as F by (apply (bool_decide_unpack _); by vm_compute).
  rewrite Forall_forall in F. specialize (F a (all_types_all a)). rewrite Forall_forall in F. exact (F b (all_types_all b)).
Qed.

Lemma nodeText_word a : nodeText a ≠ [] ∧ Forall (λ c, delimiter c = false) (nodeText a) ∧ Forall (λ c, (c =? 58) = false) (nodeText a).
Proof. split_and!; [by destruct a|..]; apply (bool_decide_unpack _); destruct a; vm_compute; exact I. Qed.

Lemma node_text_inj t x t' x' : node_text t x = node_text t' x' → t = t' ∧ x = x'.
Proof.
  unfold node_text. intros E. destruct (nodeText_word t) as (_ & _ & W), (nodeText_word t') as (_ & _ & W').
  apply (words_eq (λ c, c =? 58)) in E as [E1 E2]; [|done|done|by destruct x|by destruct x']. apply nodeText_inj in E1. split; [done|]. destruct x, x'; cbn in E2; congruence.
Qed.

Lemma node_text_word t x : Forall (λ c, delimiter c = false) x → Forall (λ c, delimiter c = false) (node_text t x).
Proof. intros F. unfold node_text. destruct (nodeText_word t) as (_ & W & _). apply Forall_app_2; [done|]. destruct x; [constructor|]. cbn [length Nat.ltb Nat.leb]. by constructor. Qed.

Lemma node_text_head t x : ∃ c w, node_text t x = c :: w ∧ delimiter c = false.
Proof.
  unfold node_text. destruct (nodeText_word t) as (N & W & _). destruct (nodeText t) as [|c w]; [done|]. apply Forall_cons in W as [Wc _]. by exists c, (w ++ if (0 <? length x)%nat then lit ":" ++ x else []).
Qed.

Definition closed (r : list Z) : Prop := match r with [] => True | c :: _ => c = 125 end.

Lemma dump_parts kids rest r : closed r → stops delimiter (match kids with Leaf => [] | _ => lit "{" ++ dump_forest kids ++ lit "}" end ++ match rest with Leaf => [] | _ => comma ++ dump_forest rest end ++ r).
Proof. intros C. destruct kids; [|done]. destruct rest; [|done]. cbn. destruct r; [done|]. cbn in C. by subst z. Qed.

Lemma dump_inj f g r r' : clean f → clean g → closed r → closed r' → dump_forest f ++ r = dump_forest g ++ r' → f = g ∧ r = r'.
Proof.
  revert g r r'. induction f as [|t x k IHk s IHs]; intros g r r' Cf Cg Hr Hr' E.
  - destruct g as [|t' x' k' s']; [done|]. exfalso. cbn in E. destruct (node_text_head t' x') as (c & w & Ew & D). rewrite Ew in E. subst r. cbn in Hr. subst c. done.
  - destruct g as [|t' x' k' s'].
    { exfalso. cbn in E. destruct (node_text_head t x) as (c & w & Ew & D). rewrite Ew in E. subst r'. cbn in Hr'. subst c. done. }
    cbn [clean] in Cf, Cg. destruct Cf as (Cx & Ck & Cs), Cg as (Cx' & Ck' & Cs'). cbn [dump_forest] in E. rewrite <- !app_assoc in E.
    apply (words_eq delimiter) in E as [E1 E]; [|by apply node_text_word|by apply node_text_word|by apply dump_parts|by apply dump_parts]. apply node_text_inj in E1 as [-> ->].
    assert (k = k' ∧ match s with Leaf => [] | _ => comma ++ dump_forest s end ++ r = match s' with Leaf => [] | _ => comma ++ dump_forest s' end ++ r') as [-> Es].
    { destruct k as [|kt kx kk ks], k' as [|kt' kx' kk' ks'].
      - done.
      - exfalso. destruct s; [cbn in E; destruct r; [done|]; cbn in Hr; subst z; discriminate|discriminate].
      - exfalso. destruct s'; [cbn in E; destruct r'; [done|]; cbn in Hr'; subst z; discriminate|discriminate].
      - rewrite <- !app_assoc in E. apply app_inj_1 in E as [_ E]; [|done]. apply IHk in E as [-> E]; [|done..]. by apply app_inj_1 in E as [_ E]. }
    destruct s as [|st sx sk ss], s' as [|st' sx' sk' ss'].
    + by split.
    + exfalso. cbn in Es. subst r. done.
    + exfalso. cbn in Es. subst r'. done.
    + rewrite <- !app_assoc in Es. apply app_inj_1 in Es as [_ Es]; [|done]. by apply IHs in Es as [-> ->].
Qed.

Section Trees.
Context (pat : nat → PatNode) (on_match : nat → list Node → nat → MatchResult) (Pats : pats_ok pat).

(** C37: The tree of a report is that of the parse, whatever patterns were looked for while
    it grew, and the parse can be read back from it: two documents, whose texts do not
    contain the braces and commas of a report, with the same report are the same. *)
Theorem report_tree_read_back pats pats' f g fuel fuel' : clean f → clean g → (depth_of f ≤ fuel)%nat → (depth_of g ≤ fuel')%nat →
  ∃ v v', forest_run pat on_match (with_pats 0 pats) f = Ok v ∧ forest_run pat on_match (with_pats 0 pats') g = Ok v' ∧
    dumpRoot fuel (v_nodes v) 0 = Ok (dump_forest f) ∧ (dumpRoot fuel (v_nodes v) 0 = dumpRoot fuel' (v_nodes v') 0 → f = g).
Proof.
  intros Cf Cg Df Dg. destruct (document_made pat on_match Pats 0 pats f ltac:(done)) as (v & E & ids & N & S & _). destruct (document_made pat on_match Pats 0 pats' g ltac:(done)) as (v' & E' & ids' & N' & S' & _).
  exists v, v'. unfold dumpRoot. rewrite N, N'. cbn [deref]. rewrite !bind_Ok. cbn [nd_children]. rewrite (dump_stands _ _ _ _ _ S Df), (dump_stands _ _ _ _ _ S' Dg). split_and!; [done..|].
  intros [= Ed]. rewrite <- (app_nil_r (dump_forest f)), <- (app_nil_r (dump_forest g)) in Ed. by destruct (dump_inj f g [] [] Cf Cg I I Ed).
Qed.
End Trees.

(** ** Runs *)

Definition demo_forest : Forest := Tree HttpHeader [] (Tree HttpHeaderName (lit "Host") Leaf (Tree HttpHeaderValue (lit "a.b:80") Leaf Leaf)) (Tree HtmlText (lit "x") Leaf Leaf).

Example demo_dump : dump_forest demo_forest = lit "http-header{http-header-name:Host,http-header-value:a.b:80},html-text:x".
Proof. reflexivity. Qed.

Definition no_pats_here : nat → PatNode := λ _, MkPatNode None Root [] None None None None 0 true false.

Lemma report_tree_read_back_witness : ∃ v v', forest_run no_pats_here (λ _ _ _, MatchContinue) (with_pats 0 []) demo_forest = Ok v ∧ forest_run no_pats_here (λ _ _ _, MatchContinue) (with_pats 0 []) Leaf = Ok v' ∧
  dumpRoot 2 (v_nodes v) 0 = Ok (dump_forest demo_forest) ∧ dumpRoot 2 (v_nodes v) 0 ≠ dumpRoot 2 (v_nodes v') 0.
Proof.
  destruct (report_tree_read_back no_pats_here (λ _ _ _, MatchContinue) ltac:(by split) [] [] demo_forest Leaf 2 2) as (v & v' & E & E' & D & I); [|done|done|cbn; lia|].
  { cbn. split_and!; try done; by repeat constructor. }
  exists v, v'. split; [exact E|]. split; [exact E'|]. split; [exact D|]. intros Ed. by specialize (I Ed).
Defined.

Lemma failure_marked_witness : ∃ r', report_error 1 (receive_pieces (report_start (new_ParseReport 0 [])) None [lit "GET"; lit " x"]) [] None 1 120 = Ok r' ∧
  pr_files r' = [(lit "report-0000", error_text [] [] 4 120 (lit "GET " ++ failure_mark ++ lit "x"))].
Proof.
  destruct (failure_marked 1 [] None [] 0 [] None [lit "GET"; lit " x"] 1 120) as (r' & E & F & _); [done|done|]. exists r'. split; [exact E|]. exact F.
Defined.
