(* ===== verification/System.v ===== *)
(** * genf/inet.cc, lookup.cc, process.cc, connection.cc, tlsproxy/listen.cc: descriptors

    Sockets that are opened to listen and to connect, pipes to child processes, namespaces
    that are entered and left.  The kernel's answers are given in the order of the calls;
    the table of a process says what each open descriptor is. *)

From S2P Require Import Prelude ItQueue Rope Conn Packet ConnState ConnStateProps.

(** ** Descriptors *)

(** What a descriptor refers to: a socket, an end of a pipe, a namespace, something else. *)
Inductive End := ESocket | ERead (pipe : nat) | EWrite (pipe : nat) | ENamespace (ns : nat) | EOther.

#[export] Instance end_eq_dec : EqDecision End.
Proof. solve_decision. Defined.

Definition EINPROGRESS : Z := 115.

(** [os_answers]: for each call that can fail, 0 or a positive number, or the error as a
    negative one.  [os_pipes] counts the pipes, [os_ns] is the namespace of the thread. *)
Record Os := MkOs {
  os_table : gmap Z End;
  os_nonblock : gset Z;
  os_answers : list Z;
  os_pipes : nat;
  os_ns : nat;
}.

(** The descriptor the kernel gives: one that is not in use. *)
Class NewFd := {
  new_fd : gmap Z End → Z;
  new_fd_fresh : ∀ t, t !! new_fd t = None ∧ 0 ≤ new_fd t;
}.

Section Descriptors.
Context `{NewFd}.
Implicit Type o : Os.

Definition set_table o (t : gmap Z End) : Os := MkOs t (os_nonblock o) (os_answers o) (os_pipes o) (os_ns o).

(** The next answer; a call nothing is said about fails. *)
Definition answer o : Z * Os :=
  match os_answers o with
  | [] => (-1, o)
  | a :: l => (a, MkOs (os_table o) (os_nonblock o) l (os_pipes o) (os_ns o))
  end.

Definition open_fd o (e : End) : Z * Os :=
  let '(a, o) := answer o in
  if a <? 0 then (-1, o) else let fd := new_fd (os_table o) in (fd, set_table o (<[fd := e]> (os_table o))).

Definition os_close o (fd : Z) : Os := MkOs (delete fd (os_table o)) (os_nonblock o ∖ {[fd]}) (os_answers o) (os_pipes o) (os_ns o).

(** [dup2( fd, to )] *)
Definition dup2 o (fd to : Z) : Os :=
  match os_table o !! fd with Some e => set_table o (<[to := e]> (os_table o)) | None => o end.

(** *** inet.cc *)

Definition makeNonBlocking o (fd : Z) : bool * Os :=
  let '(flags, o) := answer o in
  if flags <? 0 then (false, o)
  else
    let '(r, o) := answer o in
    if r <? 0 then (false, o) else (true, MkOs (os_table o) ({[fd]} ∪ os_nonblock o) (os_answers o) (os_pipes o) (os_ns o)).

(** The answers of setsockopt are only logged. *)
Definition inetListen o : Z * Os :=
  let '(listenFd, o) := open_fd o ESocket in
  if listenFd <? 0 then (-1, o)
  else
    let '(r, o) := answer o in
    if r <? 0 then (-1, os_close o listenFd)
    else
      let '(r, o) := answer o in
      if r <? 0 then (-1, os_close o listenFd) else (listenFd, o).

Definition inetConnect o (nonBlocking : bool) : Z * Os :=
  let '(fd, o) := open_fd o ESocket in
  if fd <? 0 then (-1, o)
  else
    let o := if nonBlocking then (makeNonBlocking o fd).2 else o in
    let '(connectRes, o) := answer o in
    if (connectRes <? 0) && negb (connectRes =? - EINPROGRESS) then (-1, os_close o fd) else (fd, o).

(** *** connection.cc: listening *)

(** A SelectFd that is put on the list of the thread, whether or not there is a socket. *)
Definition startListenOnFd (fds : list SelectFd) (fd : Z) : list SelectFd :=
  fds ++ [set_wants (new_SelectFd fd Fd.Lookup) true false].

Definition startListen o (fds : list SelectFd) : Os * list SelectFd :=
  let '(fd, o) := inetListen o in (o, startListenOnFd fds fd).

(** *** lookup.cc *)

(** A connection whose name is looked up: its SelectFd, whether that is on the list of the
    thread, and whether [failure] was called. *)
Record Looking := MkLooking {
  lk_fd : SelectFd;
  lk_onSelectList : bool;
  lk_failed : bool;
}.

(** The socket is put on the list whether or not it could be opened. *)
Definition lookup_connect o (fds : list SelectFd) (c : Looking) : Os * list SelectFd * Looking :=
  let '(connFd, o) := inetConnect o true in
  let fd := start_connect (lk_fd c) connFd in
  (o, fds ++ [fd], MkLooking fd true (lk_failed c)).

Definition lookup_failed o (fds : list SelectFd) (c : Looking) : Os * list SelectFd * Looking :=
  (o, fds, MkLooking (lk_fd c) (lk_onSelectList c) true).

(** [naddrttls] addresses are in the reply. *)
Definition lookupCallbackQuery o fds (c : Looking) (success : bool) (naddrttls : Z) : Os * list SelectFd * Looking :=
  if success then if 0 <? naddrttls then lookup_connect o fds c else (o, fds, c)
  else lookup_failed o fds c.

Definition lookupCallbackHost o fds (c : Looking) (success : bool) : Os * list SelectFd * Looking :=
  if success then lookup_connect o fds c else lookup_failed o fds c.

(** *** process.cc *)

Definition pipe o : option (Z * Z * Os) :=
  let '(a, o) := answer o in
  if a <? 0 then None
  else
    let p := os_pipes o in
    let r := new_fd (os_table o) in
    let t := <[r := ERead p]> (os_table o) in
    let w := new_fd t in
    Some (r, w, MkOs (<[w := EWrite p]> t) (os_nonblock o) (os_answers o) (S p) (os_ns o)).

(** A process that runs: its number, the descriptors to its input and from its output, and
    the table it has when it runs the command. *)
Record Spawned := MkSpawned {
  sp_pid : Z;
  sp_to : Z;
  sp_from : Z;
  sp_child : gmap Z End;
}.

(** The branch of the child, up to execl: no descriptor is closed on exec. *)
Definition child_table o (in0 in1 out0 out1 : Z) : gmap Z End :=
  os_table (dup2 (os_close (dup2 (os_close o in1) in0 0) out0) out1 1).

(** The SelectFds of a process want nothing yet. *)
Definition process_fds (to from : Z) : list SelectFd := [new_SelectFd to Fd.Lookup; new_SelectFd from Fd.Lookup].

(** The result, the list of the thread, and the process when the result is 0. *)
Definition createProcess o (fds : list SelectFd) : Z * Os * list SelectFd * option Spawned :=
  match pipe o with
  | None => (-1, (answer o).2, fds, None)
  | Some (in0, in1, o) =>
      match pipe o with
      | None => (-1, os_close (os_close (answer o).2 in0) in1, fds, None)
      | Some (out0, out1, o) =>
          let '(p, o) := answer o in
          if p <? 0 then (p, os_close (os_close (os_close (os_close o in0) in1) out0) out1, fds, None)
          else
            let child := child_table o in0 in1 out0 out1 in
            (0, os_close (os_close o in0) out1, fds ++ process_fds in1 out0, Some (MkSpawned p in1 out0 child))
      end
  end.

(** *** tlsproxy/listen.cc *)

(** The descriptors of the two namespaces; the process ends when one cannot be opened. *)
Definition setns o (fd : Z) : Os :=
  let '(r, o) := answer o in
  match os_table o !! fd with
  | Some (ENamespace ns) => if r =? 0 then MkOs (os_table o) (os_nonblock o) (os_answers o) (os_pipes o) ns else o
  | _ => o
  end.

(** [netns]: whether the proxy works in a namespace of its own.  Else there are no
    descriptors. *)
Definition enterInlineNamespace o (netns : bool) (target : nat) : option (Z * Z * Os) :=
  if netns then
    let '(origNsFd, o) := open_fd o (ENamespace (os_ns o)) in
    let '(enterNsFd, o) := open_fd o (ENamespace target) in
    if (origNsFd <? 0) || (enterNsFd <? 0) then None else Some (origNsFd, enterNsFd, setns o enterNsFd)
  else Some (-1, -1, o).

Definition leaveInlineNamespace o (netns : bool) (origNsFd enterNsFd : Z) : Os :=
  if netns then os_close (os_close (setns o origNsFd) origNsFd) enterNsFd else o.

(** The socket that the proxy threads accept from, made in the inline namespace. *)
Definition listen_inline o (netns : bool) (target : nat) : option (Z * Os) :=
  match enterInlineNamespace o netns target with
  | None => None
  | Some (orig, enter, o) =>
      let '(fd, o) := inetListen o in
      let o := (makeNonBlocking o fd).2 in
      Some (fd, leaveInlineNamespace o netns orig enter)
  end.
End Descriptors.

(** * Theorems

    Every descriptor that is opened is kept or closed, whatever fails; what child processes
    get of the descriptors of others. *)

Section Props.
Context `{NewFd}.
Implicit Type o : Os.

(** The tables differ in one new descriptor, or not at all. *)
Definition one_more o o' (e : End) (fd : Z) : Prop :=
  fd = -1 ∧ os_table o' = os_table o ∨ 0 ≤ fd ∧ os_table o !! fd = None ∧ os_table o' = <[fd := e]> (os_table o).

Lemma answer_table o : os_table (answer o).2 = os_table o.
Proof. unfold answer. by destruct (os_answers o). Qed.

Lemma answer_keeps o a o' : answer o = (a, o') → os_table o' = os_table o ∧ os_ns o' = os_ns o ∧ os_nonblock o' = os_nonblock o ∧ os_pipes o' = os_pipes o.
Proof. unfold answer. by destruct (os_answers o); intros [= <- <-]. Qed.

Lemma open_fd_spec o e fd o' : open_fd o e = (fd, o') → one_more o o' e fd ∧ os_ns o' = os_ns o ∧ os_pipes o' = os_pipes o.
Proof.
  unfold open_fd. destruct (answer o) as [a o1] eqn:Ea. apply answer_keeps in Ea as (Et & En & _ & Ep). destruct (a <? 0).
  - intros [= <- <-]. split_and!; [by left|done|done].
  - intros [= <- <-]. destruct (new_fd_fresh (os_table o1)) as [Fr P]. rewrite Et in *. split_and!; [right|done|done]. by split_and!.
Qed.

(** Closing a descriptor that was just opened. *)
Lemma close_opened o o1 e fd : one_more o o1 e fd → 0 ≤ fd → ∀ o2, os_table o2 = os_table o1 → os_table (os_close o2 fd) = os_table o.
Proof. intros [[-> _]|(P & Fr & Et)] Hf o2 E2; [lia|]. cbn. rewrite E2, Et. by apply delete_insert_id. Qed.

Lemma one_more_table o o1 o2 e fd : one_more o o1 e fd → os_table o2 = os_table o1 → one_more o o2 e fd.
Proof. intros [[-> E]|(P & Fr & E)] E2; [left|right]; split_and!; congruence. Qed.

Lemma one_more_pos o o1 e fd : one_more o o1 e fd → (fd <? 0) = false → 0 ≤ fd.
Proof. intros _ L. by apply Z.ltb_ge in L. Qed.

Lemma one_more_neg o o1 e fd : one_more o o1 e fd → (fd <? 0) = true → fd = -1 ∧ os_table o1 = os_table o.
Proof. intros [?|(P & _)] L; [done|]. apply Z.ltb_lt in L. lia. Qed.

Lemma makeNonBlocking_keeps o fd : os_table (makeNonBlocking o fd).2 = os_table o ∧ os_ns (makeNonBlocking o fd).2 = os_ns o ∧ os_pipes (makeNonBlocking o fd).2 = os_pipes o.
Proof.
  unfold makeNonBlocking. destruct (answer o) as [a o1] eqn:Ea. apply answer_keeps in Ea as (<- & <- & _ & <-). destruct (a <? 0); [done|].
  destruct (answer o1) as [b o2] eqn:Eb. apply answer_keeps in Eb as (<- & <- & _ & <-). by destruct (b <? 0).
Qed.

Lemma inetListen_spec o fd o' : inetListen o = (fd, o') → one_more o o' ESocket fd ∧ os_ns o' = os_ns o.
Proof.
  unfold inetListen. destruct (open_fd o ESocket) as [s o1] eqn:Eo. apply open_fd_spec in Eo as (M & N1 & _). destruct (s <? 0) eqn:L.
  { destruct (one_more_neg _ _ _ _ M L) as [-> Et]. intros [= <- <-]. split; [by left|done]. }
  pose proof (one_more_pos _ _ _ _ M L) as P. destruct (answer o1) as [r o2] eqn:E2. apply answer_keeps in E2 as (T2 & N2 & _). destruct (r <? 0).
  { intros [= <- <-]. split; [left; split; [done|]|cbn; congruence]. by eapply close_opened. }
  destruct (answer o2) as [r' o3] eqn:E3. apply answer_keeps in E3 as (T3 & N3 & _). rewrite T2 in T3. destruct (r' <? 0).
  - intros [= <- <-]. split; [left; split; [done|]|cbn; congruence]. by eapply close_opened.
  - intros [= <- <-]. split; [by eapply one_more_table|congruence].
Qed.

Lemma inetConnect_spec o nb fd o' : inetConnect o nb = (fd, o') → one_more o o' ESocket fd.
Proof.
  unfold inetConnect. destruct (open_fd o ESocket) as [s o1] eqn:Eo. apply open_fd_spec in Eo as (M & _ & _). destruct (s <? 0) eqn:L.
  { destruct (one_more_neg _ _ _ _ M L) as [-> Et]. intros [= <- <-]. by left. }
  pose proof (one_more_pos _ _ _ _ M L) as P. set (o2 := if nb then _ else _). assert (os_table o2 = os_table o1) as T2 by (unfold o2; destruct nb; [apply makeNonBlocking_keeps|done]).
  destruct (answer o2) as [r o3] eqn:E3. apply answer_keeps in E3 as (T3 & _). rewrite T2 in T3. destruct (_ && _); intros [= <- <-]; [left; split; [done|]; by eapply close_opened|by eapply one_more_table].
Qed.

(** A pipe is two new descriptors. *)
Lemma pipe_spec o r w o' : pipe o = Some (r, w, o') → os_table o !! r = None ∧ os_table o !! w = None ∧ r ≠ w ∧ 0 ≤ r ∧ 0 ≤ w ∧
  os_table o' = <[w := EWrite (os_pipes o)]> (<[r := ERead (os_pipes o)]> (os_table o)) ∧ os_pipes o' = S (os_pipes o) ∧ os_ns o' = os_ns o.
Proof.
  unfold pipe. destruct (answer o) as [a o1] eqn:Ea. apply answer_keeps in Ea as (Et & En & _ & Ep). destruct (a <? 0); [done|]. intros [= <- <- <-]. cbn.
  destruct (new_fd_fresh (os_table o1)) as [Fr Pr]. set (r := new_fd (os_table o1)) in *. destruct (new_fd_fresh (<[r := ERead (os_pipes o1)]> (os_table o1))) as [Fw Pw]. set (w := new_fd _) in *.
  apply lookup_insert_None in Fw as [Fw Nw]. rewrite Et, Ep in *. by split_and!.
Qed.

(** A process whose pipes were made: the parent has one end of each, the child the others. *)
Lemma createProcess_spec o fds r o' fds' sp : createProcess o fds = (r, o', fds', sp) →
  match sp with
  | None => r ≠ 0 ∧ os_table o' = os_table o ∧ fds' = fds
  | Some s => r = 0 ∧ fds' = fds ++ process_fds (sp_to s) (sp_from s) ∧ sp_to s ≠ sp_from s ∧ os_table o !! sp_to s = None ∧ os_table o !! sp_from s = None ∧ 0 ≤ sp_to s ∧ 0 ≤ sp_from s ∧
      os_table o' = <[sp_from s := ERead (S (os_pipes o))]> (<[sp_to s := EWrite (os_pipes o)]> (os_table o)) ∧ os_pipes o' = S (S (os_pipes o))
  end.
Proof.
  unfold createProcess. destruct (pipe o) as [[[in0 in1] o1]|] eqn:E1; [|intros [= <- <- <- <-]; by rewrite answer_table].
  apply pipe_spec in E1 as (F0 & F1 & N01 & P0 & P1 & T1 & C1 & _). destruct (pipe o1) as [[[out0 out1] o2]|] eqn:E2.
  2: { intros [= <- <- <- <-]. split_and!; [done| |done]. cbn. rewrite answer_table, T1. rewrite (insert_insert_ne _ in1 in0) by done. rewrite delete_insert_id by (by rewrite lookup_insert_ne by done). by rewrite delete_insert_id. }
  apply pipe_spec in E2 as (G0 & G1 & N & Q0 & Q1 & T2 & C2 & _). rewrite C1 in T2, C2. rewrite T1 in G0, G1. apply lookup_insert_None in G0 as [G0 A0], G1 as [G1 A1]. apply lookup_insert_None in G0 as [G0 B0], G1 as [G1 B1].
  destruct (answer o2) as [p o3] eqn:E3. apply answer_keeps in E3 as (T3 & _ & _ & C3). destruct (p <? 0) eqn:L.
  - intros [= <- <- <- <-]. split_and!; [apply Z.ltb_lt in L; lia| |done]. cbn. rewrite T3, T2, T1. apply map_eq. intros k.
    rewrite !lookup_delete_Some || idtac. repeat (destruct (decide (k = in0)) as [->|]; [by simplify_map_eq|]; destruct (decide (k = in1)) as [->|]; [by simplify_map_eq|]; destruct (decide (k = out0)) as [->|]; [by simplify_map_eq|]; destruct (decide (k = out1)) as [->|]; [by simplify_map_eq|]; by simplify_map_eq).
  - intros [= <- <- <- <-]. cbn. split_and!; try done; [|congruence]. rewrite T3, T2, T1. apply map_eq. intros k.
    destruct (decide (k = in0)) as [->|]; [by simplify_map_eq|]. destruct (decide (k = in1)) as [->|]; [by simplify_map_eq|]. destruct (decide (k = out0)) as [->|]; [by simplify_map_eq|]. destruct (decide (k = out1)) as [->|]; [by simplify_map_eq|]. by simplify_map_eq.
Qed.

(** The table of a child: the ends of its pipes as its input and output, and every other
    descriptor its parent had. *)
Lemma createProcess_child o fds r o' fds' s : createProcess o fds = (r, o', fds', Some s) → is_Some (os_table o !! 0) → is_Some (os_table o !! 1) →
  sp_child s !! 0 = Some (ERead (os_pipes o)) ∧ sp_child s !! 1 = Some (EWrite (S (os_pipes o))) ∧ sp_child s !! sp_to s = None ∧ sp_child s !! sp_from s = None ∧
  (∀ k e, k ≠ 0 → k ≠ 1 → os_table o !! k = Some e → sp_child s !! k = Some e) ∧
  (∀ k, sp_child s !! k = Some (EWrite (os_pipes o)) → os_table o !! k = Some (EWrite (os_pipes o))).
Proof.
  unfold createProcess. destruct (pipe o) as [[[in0 in1] o1]|] eqn:E1; [|done]. apply pipe_spec in E1 as (F0 & F1 & N01 & P0 & P1 & T1 & C1 & _).
  destruct (pipe o1) as [[[out0 out1] o2]|] eqn:E2; [|done]. apply pipe_spec in E2 as (G0 & G1 & N & Q0 & Q1 & T2 & C2 & _). rewrite C1 in T2, C2.
  rewrite T1 in G0, G1. apply lookup_insert_None in G0 as [G0 A0], G1 as [G1 A1]. apply lookup_insert_None in G0 as [G0 B0], G1 as [G1 B1].
  destruct (answer o2) as [p o3] eqn:E3. apply answer_keeps in E3 as (T3 & _ & _ & C3). destruct (p <? 0) eqn:L; [done|]. intros [= <- <- <- <-] [x0 I0] [x1 I1]. cbn [sp_child sp_to sp_from].
  assert (∀ k, k ∈ [in0; in1; out0; out1] → k ≠ 0 ∧ k ≠ 1) as Out by (intros k K; split; intros ->; set_unfold; naive_solver congruence).
  assert (os_table o3 = <[out1 := EWrite (S (os_pipes o))]> (<[out0 := ERead (S (os_pipes o))]> (<[in1 := EWrite (os_pipes o)]> (<[in0 := ERead (os_pipes o)]> (os_table o))))) as T by congruence.
  assert (child_table o3 in0 in1 out0 out1 = <[1 := EWrite (S (os_pipes o))]> (delete out0 (<[0 := ERead (os_pipes o)]> (delete in1 (os_table o3))))) as ->.
  { unfold child_table, dup2 at 2. cbn. rewrite T. rewrite lookup_delete_ne by done. rewrite !lookup_insert_ne by done. rewrite lookup_insert_eq. cbn.
    unfold dup2. cbn. destruct (Out out1) as [? ?]; [set_solver|]. simplify_map_eq. done. }
  rewrite T. destruct (Out in0) as [? ?]; [set_solver|]. destruct (Out in1) as [? ?]; [set_solver|]. destruct (Out out0) as [? ?]; [set_solver|]. destruct (Out out1) as [? ?]; [set_solver|].
  split_and!; [by simplify_map_eq..| |].
  - intros k e K0 K1 Ke. assert (k ≠ in0 ∧ k ≠ in1 ∧ k ≠ out0 ∧ k ≠ out1) as (? & ? & ? & ?) by naive_solver congruence. by simplify_map_eq.
  - intros k K. destruct (decide (k = 1)) as [->|]; [simplify_map_eq; lia|]. destruct (decide (k = out0)) as [->|]; [by simplify_map_eq|]. destruct (decide (k = 0)) as [->|]; [by simplify_map_eq|].
    destruct (decide (k = in1)) as [->|]; [by simplify_map_eq|]. destruct (decide (k = out1)) as [->|]; [simplify_map_eq; lia|]. destruct (decide (k = in0)) as [->|]; by simplify_map_eq.
Qed.

Lemma setns_keeps o fd : os_table (setns o fd) = os_table o ∧ os_pipes (setns o fd) = os_pipes o.
Proof.
  unfold setns. destruct (answer o) as [r o1] eqn:E. apply answer_keeps in E as (<- & _ & _ & <-). destruct (os_table o1 !! fd) as [[]|]; try done. by destruct (r =? 0).
Qed.

(** Two descriptors opened before another and closed after it. *)
Lemma one_more_around o o1 o2 o3 e1 e2 e a b fd : one_more o o1 e1 a → 0 ≤ a → one_more o1 o2 e2 b → 0 ≤ b → one_more o2 o3 e fd →
  ∀ o4, os_table o4 = os_table o3 → one_more o (os_close (os_close o4 a) b) e fd.
Proof.
  intros [[-> _]|(_ & Fa & Ta)] Pa; [lia|]. intros [[-> _]|(_ & Fb & Tb)] Pb; [lia|]. rewrite Ta in Fb. apply lookup_insert_None in Fb as [Fb Nab].
  assert (delete b (delete a (os_table o2)) = os_table o) as D.
  { rewrite Tb, Ta, (delete_insert_ne _ a b) by done. rewrite delete_insert_id by (by rewrite lookup_delete_ne, lookup_insert_ne by done). by apply delete_insert_id. }
  intros [[-> T3]|(P & F & T3)] o4 E4; cbn; [left|right].
  - split; [done|]. cbn. congruence.
  - rewrite Tb, Ta in F. apply lookup_insert_None in F as [F Nb]. apply lookup_insert_None in F as [F Na]. split_and!; [done|done|]. cbn. rewrite E4, T3, !delete_insert_ne by done. by f_equal.
Qed.

Lemma listen_inline_spec o netns target fd o' : listen_inline o netns target = Some (fd, o') → one_more o o' ESocket fd.
Proof.
  unfold listen_inline, enterInlineNamespace, leaveInlineNamespace. destruct netns.
  - destruct (open_fd o _) as [a o1] eqn:E1. destruct (open_fd o1 _) as [b o2] eqn:E2. apply open_fd_spec in E1 as (M1 & _), E2 as (M2 & _).
    destruct (_ || _) eqn:L; [done|]. apply orb_false_iff in L as [La Lb]. destruct (inetListen (setns o2 b)) as [s o3] eqn:E3. apply inetListen_spec in E3 as [M3 _].
    intros [= <- <-]. eapply one_more_around; [exact M1|by eapply one_more_pos|exact M2|by eapply one_more_pos| |].
    + unfold one_more in *. by rewrite (proj1 (setns_keeps o2 b)) in M3.
    + rewrite (proj1 (setns_keeps _ _)). apply makeNonBlocking_keeps.
  - destruct (inetListen o) as [s o3] eqn:E3. apply inetListen_spec in E3 as [M3 _]. intros [= <- <-]. eapply one_more_table; [exact M3|]. apply makeNonBlocking_keeps.
Qed.

(** C33: Whatever the kernel answers, no descriptor is lost: opening a socket to listen or
    to connect, also in another namespace, leaves the table of the process as it was and
    the result -1, or with one new descriptor, the one returned; a process that cannot be
    started leaves the table as it was, and one that is started leaves the ends of its two
    pipes that its SelectFds hold. *)
Theorem descriptors_accounted o (fds : list SelectFd) (nonBlocking netns : bool) (target : nat) :
  (let '(fd, o') := inetListen o in one_more o o' ESocket fd) ∧
  (let '(fd, o') := inetConnect o nonBlocking in one_more o o' ESocket fd) ∧
  match listen_inline o netns target with Some (fd, o') => one_more o o' ESocket fd | None => True end ∧
  (let '(r, o', fds', sp) := createProcess o fds in
   match sp with
   | None => r ≠ 0 ∧ os_table o' = os_table o ∧ fds' = fds
   | Some s => r = 0 ∧ map sf_fd fds' = map sf_fd fds ++ [sp_to s; sp_from s] ∧ os_table o !! sp_to s = None ∧ os_table o !! sp_from s = None ∧
       os_table o' = <[sp_from s := ERead (S (os_pipes o))]> (<[sp_to s := EWrite (os_pipes o)]> (os_table o))
   end).
Proof.
  split_and!.
  - destruct (inetListen o) as [fd o'] eqn:E. by apply inetListen_spec in E as [? _].
  - destruct (inetConnect o nonBlocking) as [fd o'] eqn:E. by apply inetConnect_spec in E.
  - destruct (listen_inline o netns target) as [[fd o']|] eqn:E; [|done]. by eapply listen_inline_spec.
  - destruct (createProcess o fds) as [[[r o'] fds'] sp] eqn:E. apply createProcess_spec in E. destruct sp as [s|]; [|done].
    destruct E as (-> & -> & _ & F1 & F2 & _ & _ & T & _). split_and!; try done. rewrite map_app. reflexivity.
Qed.

(** A process does not get the end of its input once another was started after it:
    the other holds the writing end of its pipe, which is not closed on exec, so that
    when the parent closes its own, one is left. *)
Theorem input_never_ends o fds r1 o1 fds1 a r2 o2 fds2 b :
  is_Some (os_table o !! 0) → is_Some (os_table o !! 1) → (∀ k, os_table o !! k ≠ Some (EWrite (os_pipes o))) →
  createProcess o fds = (r1, o1, fds1, Some a) → createProcess o1 fds1 = (r2, o2, fds2, Some b) →
  sp_child a !! 0 = Some (ERead (os_pipes o)) ∧ (∀ k, sp_child a !! k ≠ Some (EWrite (os_pipes o))) ∧
  (∀ k, os_table (os_close o2 (sp_to a)) !! k ≠ Some (EWrite (os_pipes o))) ∧ sp_child b !! sp_to a = Some (EWrite (os_pipes o)).
Proof.
  intros I0 I1 No E1 E2. destruct (createProcess_child _ _ _ _ _ _ E1 I0 I1) as (A0 & _ & _ & _ & _ & Aw).
  apply createProcess_spec in E1 as (_ & _ & Naf & Fa & Fb & Pa & Pb & T1 & C1).
  assert (∀ k, is_Some (os_table o !! k) → k ≠ sp_to a ∧ k ≠ sp_from a ∧ os_table o1 !! k = os_table o !! k) as Old.
  { intros k [x K]. assert (k ≠ sp_to a) by congruence. assert (k ≠ sp_from a) by congruence. split_and!; [done..|]. rewrite T1. by simplify_map_eq. }
  destruct (Old 0 I0) as (N0 & _ & J0), (Old 1 I1) as (N1 & _ & J1). rewrite <- J0 in I0. rewrite <- J1 in I1.
  destruct (createProcess_child _ _ _ _ _ _ E2 I0 I1) as (_ & _ & _ & _ & Inh & _).
  apply createProcess_spec in E2 as (_ & _ & _ & _ & _ & _ & _ & T2 & _). rewrite C1 in T2. split_and!.
  - done.
  - intros k K. by apply (No k), Aw.
  - intros k. cbn. rewrite T2, T1. destruct (decide (k = sp_to a)) as [->|]; [by simplify_map_eq|].
    rewrite lookup_delete_ne by done. destruct (decide (k = sp_from b)) as [->|]; [by simplify_map_eq|]. destruct (decide (k = sp_to b)) as [->|]; [simplify_map_eq; intros [= E]; lia|].
    destruct (decide (k = sp_from a)) as [->|]; [by simplify_map_eq|]. simplify_map_eq. apply No.
  - apply Inh; [done|done|]. rewrite T1. by simplify_map_eq.
Qed.

(** A listener whose socket could not be opened is on the list with the descriptor -1, and
    the next round of the thread's loop sets the bit of that in a set. *)
Theorem listener_unopened o fds nfds rs ws : (inetListen o).1 = -1 → event_sets (startListen o fds).2 nfds rs ws = Ub.
Proof.
  intros E. unfold startListen. destruct (inetListen o) as [fd o']. cbn in E. subst fd. cbn [snd]. rewrite event_sets_spec.
  unfold startListenOnFd, readers, open_fds. rewrite !filter_app, map_app, !forallb_app. cbn. by rewrite andb_false_r.
Qed.

(** A name without an address: the connection is told nothing and is not on the list. *)
Theorem no_address_hangs o fds c n : n ≤ 0 → lookupCallbackQuery o fds c true n = (o, fds, c).
Proof. intros L. unfold lookupCallbackQuery. by rewrite (proj2 (Z.ltb_ge 0 n)). Qed.
End Props.

(** ** A concrete table *)

(** One more than the largest descriptor in use. *)
Definition above (t : gmap Z End) : Z := foldr Z.max (-1) (map_to_list t).*1 + 1.

Lemma foldr_max_le (l : list Z) x : x ∈ l → x ≤ foldr Z.max (-1) l.
Proof. induction 1; cbn; lia. Qed.

Lemma foldr_max_low (l : list Z) : -1 ≤ foldr Z.max (-1) l.
Proof. induction l; cbn; lia. Qed.

#[local] Instance new_above : NewFd.
Proof.
  refine {| new_fd := above |}. intros t. split; [|unfold above; pose proof (foldr_max_low (map_to_list t).*1); lia].
  destruct (t !! above t) eqn:E; [|done]. apply elem_of_map_to_list in E. apply (list_elem_of_fmap_2 fst) in E. apply foldr_max_le in E. cbn in E. unfold above in E. lia.
Defined.

Definition three : gmap Z End := {[0 := EOther; 1 := EOther; 2 := EOther]}.
Definition os0 (answers : list Z) : Os := MkOs three ∅ answers 0 7.

Lemma three_no_pipe k p : three !! k ≠ Some (EWrite p).
Proof. unfold three. rewrite !lookup_insert_Some, lookup_singleton_Some. naive_solver. Qed.

(** Two processes are started: the pipes of the first are 3 to 6, and of the second 4 and on. *)
Lemma input_never_ends_witness : ∃ a b o2, sp_child a !! 0 = Some (ERead 0) ∧
  (∀ k, os_table (os_close o2 (sp_to a)) !! k ≠ Some (EWrite 0)) ∧ sp_child b !! sp_to a = Some (EWrite 0).
Proof.
  destruct (createProcess (os0 [0; 0; 100; 0; 0; 101]) []) as [[[r1 o1] fds1] sa] eqn:E1. destruct sa as [a|]; [|vm_compute in E1; discriminate].
  destruct (createProcess o1 fds1) as [[[r2 o2] fds2] sb] eqn:E2. destruct sb as [b|].
  2: { vm_compute in E1. injection E1 as <- <- <- <-. vm_compute in E2. discriminate. }
  destruct (input_never_ends (os0 [0; 0; 100; 0; 0; 101]) [] r1 o1 fds1 a r2 o2 fds2 b) as (H1 & _ & H2 & H3); [by exists EOther|by exists EOther|intros k; apply three_no_pipe|exact E1|exact E2|].
  exists a, b, o2. split_and!; [exact H1|exact H2|exact H3].
Defined.

(** A port in use: the socket is closed again and the result is -1. *)
Example port_in_use : let '(fd, o) := inetListen (os0 [0; -98]) in fd = -1 ∧ os_table o = three.
Proof. vm_compute. split; reflexivity. Qed.

Lemma listener_unopened_witness : event_sets (startListen (os0 [0; -98]) []).2 0 [] [] = Ub.
Proof. apply listener_unopened. vm_compute. reflexivity. Defined.

(** The listening socket is made in the namespace 9 and the thread is back in its own; when
    the last call of setns fails it stays in the other, which is only logged. *)
Example inline_and_back : option_map (λ p, (p.1, os_ns p.2)) (listen_inline (os0 [0; 0; 0; 0; 0; 0; 0; 0; 0]) true 9) = Some (5, 7%nat).
Proof. vm_compute. reflexivity. Qed.

Example stays_inline : option_map (λ p, (p.1, os_ns p.2)) (listen_inline (os0 [0; 0; 0; 0; 0; 0; 0; 0; -1]) true 9) = Some (5, 9%nat).
Proof. vm_compute. reflexivity. Qed.
