(* ===== verification/Log.v ===== *)
(** * genf/thread.h, thread.cc: the log

    Every thread writes to one stream, whose buffer is written to the descriptor line by
    line; a statement holds the lock of the stream from its first piece to its newline. *)

From Stdlib Require Import String.
From S2P Require Import Prelude Tender.

(** ** The buffer of the stream *)

Definition NEWLINE : Z := 10.
Definition EOF : Z := -1.

(** [fb_writes]: what the calls of write were given, the first call first. *)
Record fdoutbuf := MkFdoutbuf {
  fb_buffer : list Z;
  fb_writes : list (list Z);
}.

(** The loop of [send]: where the first newline is. *)
Fixpoint newline_index (s : list Z) : option nat :=
  match s with
  | [] => None
  | c :: s => if c =? NEWLINE then Some O else S <$> newline_index s
  end.

(** Only the first newline is looked for: what follows it stays in the buffer. *)
Definition send (b : fdoutbuf) (s : list Z) : fdoutbuf :=
  match newline_index s with
  | Some i => MkFdoutbuf (drop (S i) s) (fb_writes b ++ [fb_buffer b ++ take (S i) s])
  | None => MkFdoutbuf (fb_buffer b ++ s) (fb_writes b)
  end.

Definition overflow (b : fdoutbuf) (c : Z) : fdoutbuf := if c =? EOF then b else send b [c mod 256].

Definition xsputn (b : fdoutbuf) (s : list Z) : Z * fdoutbuf := (Z.of_nat (length s), send b s).

(** ** Statements *)

Inductive Level := FATAL | ERROR | message | WARNING | debug.

Definition level_text (l : Level) : list Z :=
  lit match l with
  | FATAL => "FATAL:   "
  | ERROR => "ERROR:   "
  | message => "message: "
  | WARNING => "WARNING: "
  | debug => "debug: "
  end.

(** [log_time() << ": "] and, in a thread, its program, type and number. *)
Definition log_prefix (time : list Z) (thread : option (list Z * list Z * list Z)) : list (list Z) :=
  match thread with
  | Some (program, type, tid) => [time; lit ": "; program; lit "-"; type; lit "("; tid; lit "): "]
  | None => [time; lit ": "]
  end.

(** A statement: the pieces its message hands to the stream, one after the other. *)
Record Statement := MkStatement {
  st_level : Level;
  st_prefix : list (list Z);
  st_msg : list (list Z);
}.

Definition pieces (s : Statement) : list (list Z) := level_text (st_level s) :: st_prefix s ++ st_msg s ++ [[NEWLINE]].

(** *** Realms *)

Definition DBG_SHIFT : Z := 56.
Definition DBG_LOW_MASK : Z := 0xfffffff.
Definition NUM_APP_ID : nat := 64.

Definition DBG_APP_ID (realm : Z) : Z := Z.shiftr realm DBG_SHIFT.
Definition DBG_REALM (realm : Z) : Z := Z.land realm DBG_LOW_MASK.

Definition log_enabled (enabledRealms : list Z) (realm : Z) : res bool :=
  match enabledRealms !! Z.to_nat (DBG_APP_ID realm) with
  | Some e => Ok (negb (Z.land e (DBG_REALM realm) =? 0))
  | None => Ub
  end.

(** *** Bytes in messages *)

Definition isprint (c : Z) : bool := (32 <=? c) && (c <=? 126).
Definition RUN : nat := 80.
Definition DOT : Z := 46.

Definition shown (c : Z) : Z := if isprint c then c else DOT.

(** [fuel]: at least the number of bytes. *)
Fixpoint binary_lines (fuel : nat) (data : list Z) : list (list Z) :=
  match fuel, data with
  | S fuel, _ :: _ => [NEWLINE] :: lit "    " :: (shown <$> take RUN data) :: binary_lines fuel (drop RUN data)
  | _, _ => []
  end.

Definition log_binary (data : list Z) : list (list Z) := binary_lines (length data) data.

Definition hex_digit (d : Z) : Z := if d <? 10 then 48 + d else 87 + d.

Definition BLANK : Z := 32.

Fixpoint hex_bytes (off : nat) (data : list Z) : list (list Z) :=
  match data with
  | [] => []
  | d :: data =>
      [BLANK] :: [hex_digit (d / 16); hex_digit (d mod 16)] ::
      (if (S off `mod` 16 =? 0)%nat then [[NEWLINE]] else []) ++ hex_bytes (S off) data
  end.

Definition log_hex (data : list Z) : list (list Z) := [NEWLINE] :: hex_bytes 0 data.

(** ** Threads that log *)

(** What a thread does: statements, and leaving the process after a fatal one. *)
Inductive Action := Say (s : Statement) | Exit.

(** [lf_holder]: the thread that holds the lock, the level of its statement and the pieces
    it has still to send. *)
Record Stream := MkStream {
  lf_buf : fdoutbuf;
  lf_holder : option (nat * Level * list (list Z));
  lf_todo : list (list Action);
  lf_exited : bool;
}.

(** [endp]: the process exits, whatever the other threads do. *)
Definition leave (lf : Stream) (t : nat) : Stream :=
  match lf_todo lf !! t with
  | Some (Exit :: _) => MkStream (lf_buf lf) (lf_holder lf) (lf_todo lf) true
  | _ => lf
  end.

(** Taking the lock, sending a piece, giving the lock back or leaving, by the thread [t]; a
    thread that has to wait for the lock does nothing. *)
Definition log_step (lf : Stream) (t : nat) : Stream :=
  if lf_exited lf then lf
  else
    match lf_holder lf with
    | Some (h, level, rest) =>
        if decide (h = t) then
          match rest with
          | p :: ps => MkStream (send (lf_buf lf) p) (Some (h, level, ps)) (lf_todo lf) false
          | [] => MkStream (lf_buf lf) None (match level with FATAL => alter (cons Exit) t (lf_todo lf) | _ => lf_todo lf end) false
          end
        else leave lf t
    | None =>
        match lf_todo lf !! t with
        | Some (Say s :: l) => MkStream (lf_buf lf) (Some (t, st_level s, pieces s)) (<[t := l]> (lf_todo lf)) false
        | _ => leave lf t
        end
    end.

Definition log_run (lf : Stream) (sched : list nat) : Stream := foldl log_step lf sched.

Definition new_stream (programs : list (list Statement)) : Stream :=
  MkStream (MkFdoutbuf [] []) None (map (map Say) programs) false.

(** * Theorems

    Lines reach the descriptor whole and in the order in which the lock was taken. *)

(** ** Lines *)

(** The lines of a text, each with its newline, and what comes after the last. *)
Fixpoint split_lines (s : list Z) : list (list Z) * list Z :=
  match s with
  | [] => ([], [])
  | c :: s =>
      let '(ls, r) := split_lines s in
      if c =? NEWLINE then ([c] :: ls, r)
      else match ls with [] => ([], c :: r) | l :: ls => ((c :: l) :: ls, r) end
  end.

Definition lines (s : list Z) : list (list Z) := (split_lines s).1.

(** A piece whose only newline is its last byte, if there is one. *)
Definition tidy (p : list Z) : Prop := (NEWLINE ∉ p) ∨ ∃ q, (NEWLINE ∉ q) ∧ (p = q ++ [NEWLINE]).

Definition text (s : Statement) : list Z := concat (pieces s).

Definition send_all (b : fdoutbuf) (ps : list (list Z)) : fdoutbuf := foldl send b ps.

Lemma split_plain q s : NEWLINE ∉ q → split_lines (q ++ s) = match split_lines s with ([], r) => ([], q ++ r) | (l :: ls, r) => ((q ++ l) :: ls, r) end.
Proof.
  induction q as [|c q IH]; intros N; cbn; [by destruct (split_lines s) as [[] ?]|]. rewrite not_elem_of_cons in N. destruct N as [Nc N]. rewrite IH by done.
  rewrite (proj2 (Z.eqb_neq c NEWLINE)) by congruence. by destruct (split_lines s) as [[] ?].
Qed.

Lemma split_line q s : NEWLINE ∉ q → split_lines (q ++ NEWLINE :: s) = ((q ++ [NEWLINE]) :: (split_lines s).1, (split_lines s).2).
Proof. intros N. rewrite split_plain by done. cbn. by destruct (split_lines s). Qed.

Lemma split_none q : NEWLINE ∉ q → split_lines q = ([], q).
Proof. intros N. rewrite <- (app_nil_r q) at 1. rewrite split_plain by done. cbn. by rewrite app_nil_r. Qed.

Lemma split_whole s ls r : split_lines s = (ls, r) → s = concat ls ++ r ∧ NEWLINE ∉ r.
Proof.
  revert ls r. induction s as [|c s IH]; cbn; intros ls r; [intros [= <- <-]; split; [done|apply not_elem_of_nil]|].
  destruct (split_lines s) as [ls' r']. destruct (IH _ _ eq_refl) as [-> N]. destruct (Z.eqb_spec c NEWLINE).
  - by intros [= <- <-].
  - destruct ls'; intros [= <- <-]; [split; [done|]; rewrite not_elem_of_cons; split; congruence|done].
Qed.

Lemma newline_none p : NEWLINE ∉ p → newline_index p = None.
Proof. induction p as [|c p IH]; cbn; [done|]. rewrite not_elem_of_cons. intros [Nc N]. by rewrite (proj2 (Z.eqb_neq c NEWLINE)), IH by congruence. Qed.

Lemma newline_last q s : NEWLINE ∉ q → newline_index (q ++ NEWLINE :: s) = Some (length q).
Proof. induction q as [|c q IH]; cbn; [done|]. rewrite not_elem_of_cons. intros [Nc N]. by rewrite (proj2 (Z.eqb_neq c NEWLINE)), IH by congruence. Qed.

Lemma newline_split p i : newline_index p = Some i → ∃ q s, (p = q ++ NEWLINE :: s) ∧ (NEWLINE ∉ q) ∧ i = length q.
Proof.
  revert i. induction p as [|c p IH]; cbn; intros i; [done|]. destruct (Z.eqb_spec c NEWLINE) as [->|Nc].
  - intros [= <-]. exists [], p. split_and!; [done|apply not_elem_of_nil|done].
  - destruct (newline_index p) as [j|] eqn:E; [|done]. intros [= <-]. destruct (IH j eq_refl) as (q & s & -> & N & ->).
    exists (c :: q), s. split_and!; [done| |done]. rewrite not_elem_of_cons. split; congruence.
Qed.

(** Bytes are written or in the buffer, in their order. *)
Lemma send_kept b s : concat (fb_writes (send b s)) ++ fb_buffer (send b s) = concat (fb_writes b) ++ fb_buffer b ++ s.
Proof.
  unfold send. destruct (newline_index s) as [i|]; cbn; [|done]. rewrite concat_app. cbn. rewrite app_nil_r, <- !app_assoc. do 2 f_equal. apply take_drop.
Qed.

(** A tidy piece: the lines that end in it are written. *)
Lemma send_tidy b p : NEWLINE ∉ fb_buffer b → tidy p →
  send b p = MkFdoutbuf (split_lines (fb_buffer b ++ p)).2 (fb_writes b ++ (split_lines (fb_buffer b ++ p)).1).
Proof.
  intros Nb [N|(q & N & ->)]; unfold send.
  - rewrite newline_none by done. rewrite split_none by (rewrite elem_of_app; tauto). cbn. by rewrite app_nil_r.
  - rewrite newline_last by done. rewrite app_assoc, split_line by (rewrite elem_of_app; tauto). cbn.
    rewrite take_ge, drop_ge by (rewrite length_app; cbn; lia). by rewrite <- app_assoc.
Qed.

Lemma split_app a s : split_lines (a ++ s) = ((split_lines a).1 ++ (split_lines ((split_lines a).2 ++ s)).1, (split_lines ((split_lines a).2 ++ s)).2).
Proof.
  induction a as [|c a IH]; cbn; [by destruct (split_lines s)|]. destruct (split_lines a) as [ls r]. cbn in IH. rewrite IH. destruct (c =? NEWLINE) eqn:Ec; cbn; [done|].
  destruct ls as [|l ls]; cbn; [rewrite Ec|]; destruct (split_lines (r ++ s)) as [[] ?]; reflexivity.
Qed.

Lemma send_all_tidy b ps : NEWLINE ∉ fb_buffer b → Forall tidy ps →
  send_all b ps = MkFdoutbuf (split_lines (fb_buffer b ++ concat ps)).2 (fb_writes b ++ (split_lines (fb_buffer b ++ concat ps)).1).
Proof.
  intros Nb F. revert b Nb. induction F as [|p ps T F IH]; intros [b w] Nb; cbn in Nb |- *.
  - rewrite app_nil_r, split_none by done. cbn. by rewrite app_nil_r.
  - rewrite send_tidy by done. cbn. rewrite IH; cbn.
    + rewrite (app_assoc b p), (split_app (b ++ p)). cbn. by rewrite <- app_assoc.
    + destruct (split_lines (b ++ p)) as [ls r] eqn:E. by apply split_whole in E as [_ ?].
Qed.

(** A statement with tidy pieces is written line by line and leaves nothing behind. *)
Lemma send_statement s w : Forall tidy (pieces s) → send_all (MkFdoutbuf [] w) (pieces s) = MkFdoutbuf [] (w ++ lines (text s)).
Proof.
  intros F. rewrite send_all_tidy; [|apply not_elem_of_nil|done]. cbn [fb_buffer fb_writes app]. unfold lines, text. f_equal.
  unfold pieces. cbn [concat]. rewrite !concat_app. cbn [concat]. rewrite app_nil_r, !app_assoc.
  rewrite split_app. cbn [fst snd]. rewrite split_line; [done|]. eapply split_whole, surjective_pairing.
Qed.

(** ** Threads *)

Definition says (l : list Action) : list Statement := omap (λ a, match a with Say s => Some s | Exit => None end) l.

(** The statements of a thread in a list of statements with their threads. *)
Definition of_thread (t : nat) (order : list (nat * Statement)) : list Statement := snd <$> filter (λ x, x.1 = t) order.

Definition written (order : list (nat * Statement)) : list (list Z) := concat ((λ x, lines (text x.2)) <$> order).

Definition all_tidy (programs : list (list Statement)) : Prop := ∀ p s, p ∈ programs → s ∈ p → Forall tidy (pieces s).

Lemma of_thread_snoc t order t' s : of_thread t (order ++ [(t', s)]) = of_thread t order ++ (if decide (t' = t) then [s] else []).
Proof. unfold of_thread. rewrite filter_app, fmap_app. f_equal. rewrite filter_cons, filter_nil. cbn. by destruct (decide (t' = t)). Qed.

Lemma written_snoc order x : written (order ++ [x]) = written order ++ lines (text x.2).
Proof. unfold written. rewrite fmap_app, concat_app. cbn. by rewrite app_nil_r. Qed.

(** What the statements say, one after the other. *)
Definition texts (order : list (nat * Statement)) : list Z := concat ((λ x, text x.2) <$> order).

Lemma texts_snoc order x : texts (order ++ [x]) = texts order ++ text x.2.
Proof. unfold texts. rewrite fmap_app, concat_app. cbn. by rewrite app_nil_r. Qed.

Lemma send_all_kept b ps : concat (fb_writes (send_all b ps)) ++ fb_buffer (send_all b ps) = concat (fb_writes b) ++ fb_buffer b ++ concat ps.
Proof.
  revert b. induction ps as [|p ps IH]; intros b; cbn; [by rewrite app_nil_r|].
  unfold send_all in IH. rewrite IH, app_assoc, send_kept. by rewrite <- !app_assoc.
Qed.

(** The newline of a statement is a piece of its own, after which nothing is in the buffer. *)
Lemma send_statement_empty s w : fb_buffer (send_all (MkFdoutbuf [] w) (pieces s)) = [] ∧
  concat (fb_writes (send_all (MkFdoutbuf [] w) (pieces s))) = concat w ++ text s.
Proof.
  assert (fb_buffer (send_all (MkFdoutbuf [] w) (pieces s)) = []) as E.
  { unfold pieces, send_all. rewrite !app_assoc, app_comm_cons, foldl_app. done. }
  split; [done|]. pose proof (send_all_kept (MkFdoutbuf [] w) (pieces s)) as K. rewrite E, app_nil_r in K. exact K.
Qed.

Section Threads.
Context (programs : list (list Statement)).

(** What was written while [order] took the lock, all of them done. *)
Definition wrote (order : list (nat * Statement)) (w : list (list Z)) : Prop :=
  concat w = texts order ∧ (all_tidy programs → w = written order).

(** [order] are the statements that took the lock, of which the last is under way when
    there is a holder. *)
Record inv (lf : Stream) (order : list (nat * Statement)) : Prop := {
  inv_todo : ∀ t p, programs !! t = Some p → ∃ q, lf_todo lf !! t = Some q ∧ p = of_thread t order ++ says q;
  inv_len : length (lf_todo lf) = length programs;
  inv_buf : match lf_holder lf with
            | None => ∃ w, lf_buf lf = MkFdoutbuf [] w ∧ wrote order w
            | Some (t, _, rest) => ∃ order0 s sent w, order = order0 ++ [(t, s)] ∧ (all_tidy programs → Forall tidy (pieces s)) ∧
                pieces s = sent ++ rest ∧ lf_buf lf = send_all (MkFdoutbuf [] w) sent ∧ wrote order0 w
            end;
}.

Lemma inv_new : inv (new_stream programs) [].
Proof.
  split; [|cbn; by rewrite length_map|by exists []]. intros t p E. exists (map Say p). split; [cbn; by rewrite list_lookup_fmap, E|].
  unfold of_thread. cbn. clear E. induction p as [|s p IH]; cbn; [done|]. by f_equal.
Qed.

Lemma inv_leave lf order t : inv lf order → inv (leave lf t) order.
Proof. intros [A L B]. unfold leave. destruct (lf_todo lf !! t) as [[|[]]|]; by split. Qed.

(** What a thread may still say is tidy. *)
Lemma inv_tidy lf order t s l : inv lf order → lf_todo lf !! t = Some (Say s :: l) → all_tidy programs → Forall tidy (pieces s).
Proof.
  intros [A L B] E T. destruct (programs !! t) as [p|] eqn:P.
  - destruct (A _ _ P) as (q & Q & ->). rewrite E in Q. injection Q as <-. eapply T; [by eapply list_elem_of_lookup_2|]. cbn. set_solver.
  - apply lookup_ge_None in P. apply lookup_lt_Some in E. lia.
Qed.

Lemma wrote_snoc order w t s : wrote order w → (all_tidy programs → Forall tidy (pieces s)) →
  ∃ w', send_all (MkFdoutbuf [] w) (pieces s) = MkFdoutbuf [] w' ∧ wrote (order ++ [(t, s)]) w'.
Proof.
  intros [C W] F. destruct (send_statement_empty s w) as [Eb Ew]. exists (fb_writes (send_all (MkFdoutbuf [] w) (pieces s))).
  split; [destruct (send_all _ _); cbn in *; by rewrite Eb|]. split; [by rewrite Ew, C, texts_snoc|].
  intros T. rewrite send_statement by auto. cbn. by rewrite (W T), written_snoc.
Qed.

Lemma inv_step lf order t : inv lf order → ∃ more, inv (log_step lf t) (order ++ more).
Proof.
  intros I. unfold log_step. destruct (lf_exited lf); [exists []; by rewrite app_nil_r|]. destruct (lf_holder lf) as [[[h level] rest]|] eqn:H.
  - exists []. rewrite app_nil_r. destruct (decide (h = t)) as [->|]; [|by apply inv_leave]. destruct I as [A L B]. rewrite H in B. destruct B as (order0 & s & sent & w & -> & F & P & Eb & Wr). destruct rest as [|p ps].
    + rewrite app_nil_r in P. subst sent. split; cbn [lf_todo lf_holder lf_buf].
      * intros t' q Q. destruct (A _ _ Q) as (l & El & ->). destruct level; [|eauto..]. destruct (decide (t = t')) as [->|N].
        -- exists (Exit :: l). by rewrite list_lookup_alter, decide_True, El by done.
        -- exists l. by rewrite list_lookup_alter, decide_False by done.
      * destruct level; rewrite ?length_alter; done.
      * rewrite Eb. by apply wrote_snoc.
    + split; cbn [lf_todo lf_holder lf_buf]; [exact A|exact L|]. exists order0, s, (sent ++ [p]), w. split_and!; [done|done|by rewrite <- app_assoc| |done]. rewrite Eb. unfold send_all. by rewrite foldl_app.
  - destruct (lf_todo lf !! t) as [[|[s|] l]|] eqn:E; try (exists []; rewrite app_nil_r; by apply inv_leave).
    pose proof (inv_tidy _ _ _ _ _ I E) as F. destruct I as [A L B]. rewrite H in B. exists [(t, s)]. split; cbn [lf_todo lf_holder lf_buf].
    + intros t' q Q. destruct (A _ _ Q) as (l' & El & ->). rewrite of_thread_snoc. destruct (decide (t = t')) as [->|N].
      * rewrite E in El. injection El as <-. exists l. rewrite list_lookup_insert_eq by (by eapply lookup_lt_Some). by rewrite <- app_assoc.
      * exists l'. rewrite list_lookup_insert_ne by done. by rewrite app_nil_r.
    + by rewrite length_insert.
    + destruct B as (w & Eb & Wr). exists order, s, [], w. split_and!; done.
Qed.

Lemma inv_run sched : ∃ order, inv (log_run (new_stream programs) sched) order.
Proof.
  induction sched as [|t sched IH] using rev_ind; [exists []; apply inv_new|]. unfold log_run in *. rewrite foldl_app. cbn. destruct IH as [order I].
  destruct (inv_step _ _ t I) as [more M]. eauto.
Qed.

(** A statement under way has sent a beginning of what it says. *)
Lemma inv_prefix lf order : inv lf order → concat (fb_writes (lf_buf lf)) ++ fb_buffer (lf_buf lf) `prefix_of` texts order.
Proof.
  intros [_ _ B]. destruct (lf_holder lf) as [[[h level] rest]|].
  - destruct B as (order0 & s & sent & w & -> & _ & P & -> & C & _). rewrite send_all_kept, texts_snoc. cbn [fb_writes fb_buffer app snd]. rewrite C. apply prefix_app.
    unfold text. cbn [snd]. rewrite P, concat_app. by apply prefix_app_r.
  - destruct B as (w & -> & C & _). cbn. by rewrite app_nil_r, C.
Qed.

Lemma inv_lines lf order : inv lf order → all_tidy programs → fb_writes (lf_buf lf) `prefix_of` written order.
Proof.
  intros [_ _ B] T. destruct (lf_holder lf) as [[[h level] rest]|].
  - destruct B as (order0 & s & sent & w & -> & F & P & -> & _ & W). specialize (F T). rewrite P in F. apply Forall_app in F as [F _].
    rewrite send_all_tidy by (done || apply not_elem_of_nil). cbn [fb_writes fb_buffer app]. rewrite written_snoc, (W T). apply prefix_app.
    unfold lines, text. cbn [fst snd]. rewrite P, concat_app, split_app. by apply prefix_app_r.
  - destruct B as (w & -> & _ & W). by rewrite (W T).
Qed.
End Threads.

(** C31: Whatever the threads log and however their steps interleave, what reaches the
    descriptor, with what is in the buffer, is a beginning of the statements one after the
    other, whole, in the order in which they took the lock and each thread's in its own
    order; when none is under way it is all of them, and nothing is in the buffer.  When
    moreover the pieces of the messages have newlines only at their ends, every line is
    in a write of its own. *)
Theorem log_lines_whole programs sched :
  let lf := log_run (new_stream programs) sched in
  ∃ order, (∀ t p, programs !! t = Some p → of_thread t order `prefix_of` p ∧ (lf_todo lf !! t = Some [] → of_thread t order = p)) ∧
    concat (fb_writes (lf_buf lf)) ++ fb_buffer (lf_buf lf) `prefix_of` texts order ∧
    (lf_holder lf = None → fb_buffer (lf_buf lf) = [] ∧ concat (fb_writes (lf_buf lf)) = texts order) ∧
    (all_tidy programs → fb_writes (lf_buf lf) `prefix_of` written order ∧ (lf_holder lf = None → fb_writes (lf_buf lf) = written order)).
Proof.
  intros lf. destruct (inv_run programs sched) as [order I]. fold lf in I. pose proof I as [A _ B]. exists order. split_and!.
  - intros t p P. destruct (A _ _ P) as (q & Q & ->). split; [by apply prefix_app_r|]. rewrite Q. intros [= ->]. by rewrite app_nil_r.
  - by apply (inv_prefix programs).
  - intros H. rewrite H in B. by destruct B as (w & -> & C & _).
  - intros T. split; [by apply (inv_lines programs)|]. intros H. rewrite H in B. destruct B as (w & -> & _ & W). by apply W.
Qed.

(** *** Bytes in messages *)

Lemma shown_print c : isprint (shown c) = true.
Proof. unfold shown. by destruct (isprint c) eqn:E. Qed.

Lemma print_no_newline l : Forall (λ c, isprint c = true) l → NEWLINE ∉ l.
Proof. intros F E. rewrite Forall_forall in F. by specialize (F _ E). Qed.

(** The dump of bytes has them in lines of at most 80, those that are not printable as dots. *)
Theorem log_binary_spec data : ∃ runs, concat runs = data ∧ Forall (λ l, 0 < length l ≤ RUN)%nat runs ∧
  log_binary data = concat ((λ l, [[NEWLINE]; lit "    "; shown <$> l]) <$> runs) ∧ Forall tidy (log_binary data).
Proof.
  unfold log_binary. assert (length data ≤ length data)%nat as Hf by done. revert Hf. generalize (length data) at 2 3 4 as fuel. intros fuel. revert data. induction fuel as [|fuel IH]; intros data Hf.
  - destruct data; [|cbn in Hf; lia]. by exists [].
  - destruct data as [|c data]; [by exists []|]. destruct (IH (drop RUN (c :: data))) as (runs & E & F & P & T); [rewrite length_drop; unfold RUN; cbn [length] in *; lia|].
    exists (take RUN (c :: data) :: runs). cbn [binary_lines concat fmap list_fmap]. rewrite E, take_drop. split_and!; [done| |cbn [app]; by rewrite P|].
    + constructor; [|done]. rewrite length_take. unfold RUN. cbn [length]. lia.
    + constructor; [right; exists []; split; [apply not_elem_of_nil|done]|]. constructor; [left; apply print_no_newline; by repeat constructor|]. constructor; [|done].
      left. apply print_no_newline, Forall_fmap, Forall_true. intros x. apply shown_print.
Qed.

Definition unhex_digit (c : Z) : option Z :=
  if (48 <=? c) && (c <=? 57) then Some (c - 48) else if (97 <=? c) && (c <=? 102) then Some (c - 87) else None.

(** Reading back what [log_hex] writes. *)
Fixpoint unhex (s : list Z) : option (list Z) :=
  match s with
  | [] => Some []
  | c :: s =>
      if (c =? BLANK) || (c =? NEWLINE) then unhex s
      else match s with
           | d :: s => h ← unhex_digit c; l ← unhex_digit d; cons (16 * h + l) <$> unhex s
           | [] => None
           end
  end.

Lemma unhex_hex d : 0 ≤ d < 16 → unhex_digit (hex_digit d) = Some d ∧ hex_digit d ≠ BLANK ∧ hex_digit d ≠ NEWLINE.
Proof. intros H. assert (∃ k, (k < 16)%nat ∧ d = Z.of_nat k) as (k & K & ->) by (exists (Z.to_nat d); lia). do 16 (destruct k as [|k]; [by vm_compute|]). lia. Qed.

Lemma hex_bytes_read off data : Forall (λ d, 0 ≤ d < 256) data → unhex (concat (hex_bytes off data)) = Some data.
Proof.
  intros F. revert off. induction F as [|d data D F IH]; intros off; [done|]. cbn [hex_bytes concat app unhex].
  replace ((BLANK =? BLANK) || (BLANK =? NEWLINE)) with true by done.
  destruct (unhex_hex (d / 16)) as (H1 & H2 & H3); [split; [apply Z.div_pos|apply Z.div_lt_upper_bound]; lia|]. destruct (unhex_hex (d mod 16)) as (L1 & _); [by apply Z.mod_pos_bound|].
  rewrite (proj2 (Z.eqb_neq _ _) H2), (proj2 (Z.eqb_neq _ _) H3). cbn [orb]. rewrite H1, L1. cbn [mbind option_bind].
  replace (16 * (d / 16) + d mod 16) with d by (apply Z.div_mod; lia). destruct (_ =? _)%nat; cbn [app concat]; [|by rewrite IH].
  cbn [unhex]. replace ((NEWLINE =? BLANK) || (NEWLINE =? NEWLINE)) with true by done. by rewrite IH.
Qed.

(** The hexadecimal dump of bytes says what they are. *)
Theorem log_hex_roundtrip data : Forall (λ d, 0 ≤ d < 256) data → unhex (concat (log_hex data)) = Some data.
Proof. intros F. unfold log_hex. cbn [concat app unhex]. by apply hex_bytes_read. Qed.

(** *** Concrete threads *)

Definition say (l : Level) (m : string) : Statement := MkStatement l [lit "t: "] [lit m].

Lemma say_tidy l m : Forall (λ c, isprint c = true) (lit m) → Forall tidy (pieces (say l m)).
Proof.
  intros F. constructor; [left; apply print_no_newline; destruct l; by repeat constructor|]. constructor; [left; apply print_no_newline; by repeat constructor|].
  constructor; [left; by apply print_no_newline|]. constructor; [|done]. right. exists []. split; [apply not_elem_of_nil|done].
Qed.

(** Two threads whose pieces are sent in turn, as far as the lock allows. *)
Lemma log_lines_whole_witness : let lf := log_run (new_stream [[say ERROR "a"]; [say WARNING "b"]]) [0; 1; 0; 1; 0; 0; 1; 0; 1; 0; 1; 1; 1; 1; 1]%nat in
  ∃ order, fb_writes (lf_buf lf) `prefix_of` written order ∧ fb_writes (lf_buf lf) = [lit "ERROR:   t: a" ++ [NEWLINE]; lit "WARNING: t: b" ++ [NEWLINE]].
Proof.
  intros lf. destruct (log_lines_whole [[say ERROR "a"]; [say WARNING "b"]] [0; 1; 0; 1; 0; 0; 1; 0; 1; 0; 1; 1; 1; 1; 1]%nat) as (order & _ & _ & _ & P).
  exists order. split; [|vm_compute; reflexivity]. apply P.
  intros p s Hp Hs. rewrite !elem_of_cons in Hp. destruct Hp as [->|[->|Hp]]; [| |by apply elem_of_nil in Hp].
  all: apply list_elem_of_singleton in Hs; subst s; apply say_tidy; by repeat constructor.
Defined.

(** Two lines in one piece: the second is held back and written with the next piece. *)
Example two_lines_in_one_piece : send_all (MkFdoutbuf [] []) [lit "a" ++ [NEWLINE] ++ lit "b" ++ [NEWLINE]; lit "c" ++ [NEWLINE]] =
  MkFdoutbuf [] [lit "a" ++ [NEWLINE]; lit "b" ++ [NEWLINE] ++ lit "c" ++ [NEWLINE]].
Proof. vm_compute. reflexivity. Qed.
