(* ===== verification/Background.v ===== *)
(** * genf/background.cc: the pid file

    Programs that are started, at the same time perhaps, create the pid file or find that
    it exists and look whether the process it names runs.  Every call on the file system is
    a step of its own; the steps of the programs interleave. *)

From S2P Require Import Prelude.

(** ** Files *)

(** [fs_pidfile]: the inode the name refers to.  The content of an inode is the number that
    was written last at its beginning, with a newline, or nothing. *)
Record Fs := MkFs {
  fs_pidfile : option nat;
  fs_inodes : gmap nat (option Z);
  fs_next : nat;
}.

Definition fs_create (f : Fs) : nat * Fs := (fs_next f, MkFs (Some (fs_next f)) (<[fs_next f := None]> (fs_inodes f)) (S (fs_next f))).

(** fopen with mode w *)
Definition fs_truncate (f : Fs) : nat * Fs :=
  match fs_pidfile f with
  | Some i => (i, MkFs (Some i) (<[i := None]> (fs_inodes f)) (fs_next f))
  | None => fs_create f
  end.

Definition fs_write (f : Fs) (i : nat) (pid : Z) : Fs := MkFs (fs_pidfile f) (<[i := Some pid]> (fs_inodes f)) (fs_next f).

Definition fs_unlink (f : Fs) : Fs := MkFs None (fs_inodes f) (fs_next f).

(** ** Programs *)

Record Config := MkConfig {
  cf_background : bool;
  cf_usePid : bool;
}.

(** Where a program is: before a call, with what it got from the calls before. *)
Inductive Phase :=
  | Entering                      (* maybeBackground *)
  | Creating                      (* fopen( _PIDFILE, wx ) *)
  | Investigating                 (* fopen( _PIDFILE, r ) of pidExists *)
  | Reading (ino : nat)           (* fscanf *)
  | Checking (pid : Z)            (* fopen( /proc/pid/comm ) *)
  | Overwriting                   (* fopen( _PIDFILE, w ) *)
  | Opened (ino : nat)            (* openPidFile has returned: daemon() or writePidFile *)
  | Daemonized (ino : nat)        (* writePidFile *)
  | Running (file : option nat)   (* maybeBackground has returned *)
  | Exiting                       (* exit with on_exit registered *)
  | Unlinked                      (* on_exit has run *)
  | Gone                          (* the process has ended *)
  | Refused.                      (* log_FATAL before on_exit was registered *)

#[export] Instance phase_eq_dec : EqDecision Phase.
Proof. solve_decision. Defined.

Record Program := MkProgram {
  pg_pid : Z;
  pg_config : Config;
  pg_phase : Phase;
}.

Record System := MkSystem {
  sy_fs : Fs;
  sy_programs : list Program;
}.

Definition ended (p : Phase) : bool := match p with Gone | Refused => true | _ => false end.

(** Whether there is a /proc/pid. *)
Definition pid_running (s : System) (pid : Z) : bool :=
  existsb (λ p, (pg_pid p =? pid) && negb (ended (pg_phase p))) (sy_programs s).

(** *** pidExists *)

(** [ok]: whether the call succeeds as far as this depends on nothing that is modelled. *)
Definition pidExists_step (s : System) (ok : bool) (ph : Phase) : Phase :=
  match ph with
  | Investigating => match fs_pidfile (sy_fs s) with Some i => if ok then Reading i else Refused | None => Refused end
  | Reading i => match fs_inodes (sy_fs s) !! i with Some (Some pid) => Checking pid | _ => Refused end
  | Checking pid => if pid_running s pid then Refused else if ok then Overwriting else Refused
  | ph => ph
  end.

(** *** openPidFile *)

Definition openPidFile_step (s : System) (ok : bool) (ph : Phase) : Phase * Fs :=
  match ph with
  | Creating =>
      match fs_pidfile (sy_fs s) with
      | Some _ => (Investigating, sy_fs s)
      | None => if ok then let '(i, f) := fs_create (sy_fs s) in (Opened i, f) else (Refused, sy_fs s)
      end
  | Overwriting => if ok then let '(i, f) := fs_truncate (sy_fs s) in (Opened i, f) else (Refused, sy_fs s)
  | ph => (pidExists_step s ok ph, sy_fs s)
  end.

(** *** maybeBackground *)

Definition writePidFile (f : Fs) (i : nat) (pid : Z) : Fs := fs_write f i pid.

(** [ok] of the first step: whether /dev/null and the log file could be opened. *)
Definition maybeBackground_step (s : System) (ok : bool) (p : Program) : Phase * Fs :=
  let f := sy_fs s in
  match pg_phase p with
  | Entering =>
      if cf_background (pg_config p) && negb (cf_usePid (pg_config p)) then (Refused, f)
      else if cf_background (pg_config p) then (if ok then Creating else Refused, f)
      else (if cf_usePid (pg_config p) then Creating else Running None, f)
  | Opened i =>
      if cf_background (pg_config p) then (if ok then Daemonized i else Exiting, f)
      else (Running (Some i), writePidFile f i (pg_pid p))
  | Daemonized i => (Running (Some i), writePidFile f i (pg_pid p))
  | Running file => (match file with Some _ => Exiting | None => Gone end, f)
  | Exiting => (Unlinked, fs_unlink f)
  | Unlinked => (Gone, f)
  | ph => openPidFile_step s ok ph
  end.

(** The next call of the program [i], which for one that runs is its exit. *)
Definition bg_step (s : System) (e : nat * bool) : System :=
  match sy_programs s !! e.1 with
  | Some p =>
      let '(ph, f) := maybeBackground_step s e.2 p in
      MkSystem f (<[e.1 := MkProgram (pg_pid p) (pg_config p) ph]> (sy_programs s))
  | None => s
  end.

Definition bg_run (s : System) (l : list (nat * bool)) : System := foldl bg_step s l.

(** * Theorems

    One program owns the file while none that wrote it has ended; then two may. *)

(** The programs between the return of openPidFile and the end of on_exit. *)
Definition owner (p : Phase) : bool := match p with Opened _ | Daemonized _ | Running (Some _) | Exiting => true | _ => false end.

Definition phase (s : System) (k : nat) : option Phase := pg_phase <$> sy_programs s !! k.

(** No program exits that returned from maybeBackground. *)
Fixpoint stays (s : System) (l : list (nat * bool)) : bool :=
  match l with
  | [] => true
  | e :: l => match phase s e.1 with Some (Running _) => false | _ => stays (bg_step s e) l end
  end.

Definition starting (p : Z * Config) : Program := MkProgram p.1 p.2 Entering.

(** Programs that are all started, and no file. *)
Definition fresh_system (programs : list (Z * Config)) : System := MkSystem (MkFs None ∅ 0) (starting <$> programs).

(** A file that is there before them: without a number in it, or with that of a process
    that runs, one that wrote it or one that has nothing to do with it. *)
Inductive Before :=
  | NoFile
  | NoNumber
  | Names (pid : Z) (config : Config) (wrote : bool).

Definition first_system (b : Before) (programs : list (Z * Config)) : System :=
  match b with
  | NoFile => fresh_system programs
  | NoNumber => MkSystem (MkFs (Some 0%nat) {[0%nat := None]} 1) (starting <$> programs)
  | Names pid config wrote =>
      MkSystem (MkFs (Some 0%nat) {[0%nat := Some pid]} 1)
        (MkProgram pid config (Running (if wrote then Some 0%nat else None)) :: (starting <$> programs))
  end.

(** The pid of a program that has it from maybeBackground to run with. *)
Definition wrote (s : System) (pid : Z) : Prop := ∃ k p file, sy_programs s !! k = Some p ∧ pg_pid p = pid ∧ pg_phase p = Running file.

(** What a phase says of the files. *)
Definition phase_ok (s : System) (p : Program) : Prop :=
  match pg_phase p with
  | Checking pid => wrote s pid
  | Overwriting => False
  | Opened i | Daemonized i => fs_pidfile (sy_fs s) = Some i
  | Running (Some i) => fs_pidfile (sy_fs s) = Some i ∧ fs_inodes (sy_fs s) !! i = Some (Some (pg_pid p))
  | Exiting => is_Some (fs_pidfile (sy_fs s))
  | _ => True
  end.

Record bg_inv (s : System) : Prop := {
  bi_phase : ∀ k p, sy_programs s !! k = Some p → phase_ok s p;
  bi_one : ∀ k k' p p', sy_programs s !! k = Some p → sy_programs s !! k' = Some p' → owner (pg_phase p) = true → owner (pg_phase p') = true → k = k';
  bi_pids : ∀ i pid, fs_inodes (sy_fs s) !! i = Some (Some pid) → wrote s pid;
  bi_file : ∀ i, fs_pidfile (sy_fs s) = Some i → (i < fs_next (sy_fs s))%nat;
}.

Lemma owner_file s p : phase_ok s p → owner (pg_phase p) = true → is_Some (fs_pidfile (sy_fs s)).
Proof. unfold phase_ok, owner. destruct (pg_phase p) as [| | | | | |?|?|[?|]| | | |]; try done; by intros [-> _]. Qed.

Lemma wrote_running s pid : wrote s pid → pid_running s pid = true.
Proof.
  intros (k & p & i & K & <- & P). unfold pid_running. apply existsb_exists. exists p. split; [apply list_elem_of_In; by eapply list_elem_of_lookup_2|]. by rewrite Z.eqb_refl, P.
Qed.

(** A step of a program that does not run leaves those that run, and what they wrote. *)
Lemma wrote_step s k p ph f pid : sy_programs s !! k = Some p → (∀ file, pg_phase p ≠ Running file) → wrote s pid →
  wrote (MkSystem f (<[k := MkProgram (pg_pid p) (pg_config p) ph]> (sy_programs s))) pid.
Proof.
  intros K N (k' & p' & i & K' & E & P). exists k', p', i. split_and!; [|done|done]. cbn. rewrite list_lookup_insert_ne; [done|]. intros ->. rewrite K in K'. injection K' as <-. by eapply N.
Qed.

(** The cases of a step: the files stay, or the file is created, written or removed. *)
Lemma step_cases s ok k p : bg_inv s → sy_programs s !! k = Some p → (∀ file, pg_phase p ≠ Running file) →
  let '(ph, f) := maybeBackground_step s ok p in
  (f = sy_fs s ∧ (owner ph = true → owner (pg_phase p) = true) ∧ phase_ok s (MkProgram (pg_pid p) (pg_config p) ph)) ∨
  (fs_pidfile (sy_fs s) = None ∧ f = (fs_create (sy_fs s)).2 ∧ ph = Opened (fs_next (sy_fs s))) ∨
  (∃ i, fs_pidfile (sy_fs s) = Some i ∧ owner (pg_phase p) = true ∧ f = fs_write (sy_fs s) i (pg_pid p) ∧ ph = Running (Some i)) ∨
  (owner (pg_phase p) = true ∧ f = fs_unlink (sy_fs s) ∧ ph = Unlinked).
Proof.
  intros I K N. pose proof (bi_phase s I _ _ K) as P. unfold phase_ok in P. unfold maybeBackground_step. destruct (pg_phase p) as [| | |i|pid| |i|i|file| | | |] eqn:E; cbn.
  - destruct (cf_background _), (cf_usePid _), ok; cbn; left; done.
  - destruct (fs_pidfile (sy_fs s)) eqn:F; [by left|]. destruct ok; [right; left|left]; done.
  - left. destruct (fs_pidfile (sy_fs s)), ok; done.
  - left. destruct (fs_inodes (sy_fs s) !! i) as [[pid|]|] eqn:F; [|done..]. split_and!; [done..|]. by eapply bi_pids.
  - left. by rewrite wrote_running.
  - done.
  - destruct (cf_background _), ok; cbn; [left|left|right; right; left|right; right; left]; cbn; try (by eexists); split_and!; done.
  - right. right. left. by exists i.
  - by destruct (N file).
  - right. right. right. done.
  - by left.
  - by left.
  - by left.
Qed.

Lemma lookup_step s k (q : Program) k' p' : <[k := q]> (sy_programs s) !! k' = Some p' → is_Some (sy_programs s !! k) → k' = k ∧ p' = q ∨ k' ≠ k ∧ sy_programs s !! k' = Some p'.
Proof.
  intros E [x X]. destruct (decide (k' = k)) as [->|N]; [left|right; by rewrite list_lookup_insert_ne in E].
  rewrite list_lookup_insert_eq in E by (by eapply lookup_lt_Some). by injection E as <-.
Qed.

(** When a step makes no second owner and keeps what the phases of the others say, what is
    left to show is said by its own phase and the files. *)
Lemma inv_after s k p ph f : bg_inv s → sy_programs s !! k = Some p → (∀ file, pg_phase p ≠ Running file) →
  let s' := MkSystem f (<[k := MkProgram (pg_pid p) (pg_config p) ph]> (sy_programs s)) in
  (owner ph = true → ∀ k' p', k' ≠ k → sy_programs s !! k' = Some p' → owner (pg_phase p') = false) →
  (∀ k' p', k' ≠ k → sy_programs s !! k' = Some p' → owner (pg_phase p') = true → phase_ok (MkSystem f (sy_programs s)) p') →
  phase_ok s' (MkProgram (pg_pid p) (pg_config p) ph) →
  (∀ i pid, fs_inodes f !! i = Some (Some pid) → wrote s' pid) →
  (∀ i, fs_pidfile f = Some i → (i < fs_next f)%nat) → bg_inv s'.
Proof.
  intros I K N s' One Others Own Pids File. assert (is_Some (sy_programs s !! k)) as Sk by (by exists p). split; [| |exact Pids|exact File].
  - intros k' p' E. apply lookup_step in E as [[-> ->]|[Nk E]]; [done| |done]. pose proof (bi_phase s I _ _ E) as P. specialize (Others _ _ Nk E).
    unfold phase_ok in *. destruct (pg_phase p') as [| | | | | | | |[]| | | |]; try done; try (by apply Others). by eapply wrote_step.
  - intros k1 k2 p1 p2 E1 E2 O1 O2. apply lookup_step in E1 as [[-> ->]|[N1 E1]]; [| |done]; apply lookup_step in E2 as [[-> ->]|[N2 E2]]; [done| |done| | |done].
    + cbn in O1. by rewrite (One O1 _ _ N2 E2) in O2.
    + cbn in O2. by rewrite (One O2 _ _ N1 E1) in O1.
    + by eapply bi_one.
Qed.

Lemma step_inv s k ok : bg_inv s → (∀ file, phase s k ≠ Some (Running file)) → bg_inv (bg_step s (k, ok)).
Proof.
  intros I N. unfold bg_step. cbn [fst snd]. destruct (sy_programs s !! k) as [p|] eqn:K; [|done].
  assert (∀ file, pg_phase p ≠ Running file) as Np by (intros file E; apply (N file); unfold phase; rewrite K; cbn; congruence).
  assert (owner (pg_phase p) = true → ∀ k' p', k' ≠ k → sy_programs s !! k' = Some p' → owner (pg_phase p') = false) as Only.
  { intros O k' p' Nk E. destruct (owner (pg_phase p')) eqn:O'; [|done]. destruct Nk. by eapply (bi_one s I). }
  pose proof (step_cases s ok k p I K Np) as C. destruct (maybeBackground_step s ok p) as [ph f].
  destruct C as [(-> & O & P)|[(F & -> & ->)|[(i & F & O & -> & ->)|(O & -> & ->)]]]; apply inv_after; try done.
  - intros Ho. apply Only, O, Ho.
  - intros k' p' _ E _. eapply (bi_phase s I); exact E.
  - unfold phase_ok in *. cbn [pg_phase pg_pid sy_fs] in *. destruct ph as [| | | | | | | |[]| | | |]; try done. by eapply wrote_step.
  - intros i pid E. eapply wrote_step; [done..|]. by eapply bi_pids.
  - by apply (bi_file s I).
  - intros _ k' p' _ E. destruct (owner (pg_phase p')) eqn:O; [|done]. apply (owner_file s) in O; [|by eapply bi_phase]. rewrite F in O. by destruct O.
  - intros k' p' _ E O. apply (owner_file s) in O; [|by eapply bi_phase]. rewrite F in O. by destruct O.
  - intros i pid E. cbn in E. rewrite lookup_insert_Some in E. destruct E as [[_ [=]]|[_ E]]. eapply wrote_step; [done..|]. by eapply bi_pids.
  - intros i [= <-]. cbn. lia.
  - intros _. by apply Only.
  - intros k' p' Nk E O'. by rewrite (Only O _ _ Nk E) in O'.
  - unfold phase_ok. cbn. split; [done|]. apply lookup_insert_eq.
  - intros j pid E. cbn in E. rewrite lookup_insert_Some in E. destruct E as [[_ [= <-]]|[_ E]]; [|eapply wrote_step; [done..|]; by eapply bi_pids].
    exists k, (MkProgram (pg_pid p) (pg_config p) (Running (Some i))), (Some i). split_and!; [|done|done]. cbn. apply list_lookup_insert_eq. by eapply lookup_lt_Some.
  - by apply (bi_file s I).
  - intros k' p' Nk E O'. by rewrite (Only O _ _ Nk E) in O'.
  - intros i pid E. eapply wrote_step; [done..|]. by eapply bi_pids.
Qed.

Lemma bg_run_inv s l : bg_inv s → stays s l = true → bg_inv (bg_run s l).
Proof.
  revert s. induction l as [|[k ok] l IH]; intros s I S; [done|]. cbn in *. apply IH; [|by destruct (phase s k) as [[]|]]. apply step_inv; [done|]. intros file E. by rewrite E in S.
Qed.

Lemma starting_at (programs : list (Z * Config)) (k : nat) p : (starting <$> programs) !! k = Some p → pg_phase p = Entering.
Proof. intros E. by apply list_lookup_fmap_Some in E as (x & -> & _). Qed.

(** The programs of a first system: those that start, and the one that runs. *)
Lemma first_at b programs k p : sy_programs (first_system b programs) !! k = Some p →
  pg_phase p = Entering ∨ k = 0%nat ∧ ∃ pid config w, b = Names pid config w ∧ p = MkProgram pid config (Running (if w then Some 0%nat else None)).
Proof.
  destruct b as [| |pid config w]; cbn; [intros E; left; by eapply starting_at..|]. destruct k as [|k]; cbn.
  - intros [= <-]. right. split; [done|]. by exists pid, config, w.
  - intros E. left. by eapply starting_at.
Qed.

Lemma first_inv b programs : bg_inv (first_system b programs).
Proof.
  split.
  - intros k p [E|(_ & pid & config & w & -> & ->)]%first_at; unfold phase_ok; [by rewrite E|]. by destruct w.
  - intros k k' p p' [E|(-> & _)]%first_at [E'|(-> & _)]%first_at O O'; [by rewrite E in O|by rewrite E in O|by rewrite E' in O'|done].
  - intros i pid. destruct b as [| |pid' config w]; cbn; [done|..]; intros [<- [=]]%lookup_singleton_Some. subst.
    by exists 0%nat, (MkProgram pid config (Running (if w then Some 0%nat else None))), (if w then Some 0%nat else None).
  - intros i. destruct b; cbn; [done|intros [= <-]; lia..].
Qed.

(** C32: However the calls of programs that are started together interleave, and whichever of
    them fail, when there was no pid file, or one without a number or with that of a
    process that runs: at most one of them owns the pid file, as long as none that has
    written it ends and the process it named runs; and when one that wrote it runs, the
    file names it. *)
Theorem one_owner b programs l : stays (first_system b programs) l = true →
  let s := bg_run (first_system b programs) l in
  (∀ k k' p p', sy_programs s !! k = Some p → sy_programs s !! k' = Some p' → owner (pg_phase p) = true → owner (pg_phase p') = true → k = k') ∧
  (∀ k p i, sy_programs s !! k = Some p → pg_phase p = Running (Some i) → fs_pidfile (sy_fs s) = Some i ∧ fs_inodes (sy_fs s) !! i = Some (Some (pg_pid p))).
Proof.
  intros S s. pose proof (bg_run_inv _ _ (first_inv b programs) S) as I. fold s in I. split; [apply (bi_one s I)|].
  intros k p i K P. pose proof (bi_phase s I _ _ K) as Q. unfold phase_ok in Q. by rewrite P in Q.
Qed.

(** A program that ends with an error before it opened the file has not changed it. *)
Theorem refused_keeps_file s ok p f : maybeBackground_step s ok p = (Refused, f) → f = sy_fs s.
Proof.
  unfold maybeBackground_step, openPidFile_step. destruct (pg_phase p) as [| | | | | | | |[]| | | |]; repeat case_match; naive_solver.
Qed.

Definition foreground : Config := MkConfig false true.
Definition daemonized : Config := MkConfig true true.

(** Two programs are started at the same time: the second finds the file of the first,
    before and after the pid is in it, and gives up. *)
Definition together : list (nat * bool) := [(0, true); (1, true); (0, true); (1, true); (0, true); (1, true); (1, true); (1, true)]%nat.

Lemma one_owner_witness : let s := bg_run (fresh_system [(100, foreground); (200, daemonized)]) together in
  (∀ k p i, sy_programs s !! k = Some p → pg_phase p = Running (Some i) → fs_pidfile (sy_fs s) = Some i ∧ fs_inodes (sy_fs s) !! i = Some (Some (pg_pid p))) ∧
  pg_phase <$> sy_programs s = [Running (Some 0%nat); Refused].
Proof.
  intros s. destruct (one_owner NoFile [(100, foreground); (200, daemonized)] together) as [_ H]; [vm_compute; reflexivity|]. split; [exact H|vm_compute; reflexivity].
Defined.

(** A dangling file that two programs find at the same time: both check the process that
    ended, both open the file for writing, and both run. *)
Definition dangling (programs : list (Z * Config)) : System := MkSystem (MkFs (Some 0%nat) {[0%nat := Some 50]} 1) (starting <$> programs).

Theorem two_running : let s := bg_run (dangling [(100, foreground); (200, foreground)]) (flat_map (λ _, [(0, true); (1, true)]%nat) (seq 0 7)) in
  pg_phase <$> sy_programs s = [Running (Some 0%nat); Running (Some 0%nat)] ∧ fs_inodes (sy_fs s) !! 0%nat = Some (Some 200).
Proof. vm_compute. split; reflexivity. Qed.

(** And when the first of the two exits it removes the file the other relies on: a third
    start finds none. *)
Theorem third_running : let s := bg_run (dangling [(100, foreground); (200, foreground); (300, foreground)])
    (flat_map (λ _, [(0, true); (1, true)]%nat) (seq 0 7) ++ [(0, true); (0, true); (0, true); (2, true); (2, true); (2, true)]%nat) in
  pg_phase <$> sy_programs s = [Gone; Running (Some 0%nat); Running (Some 1%nat)].
Proof. vm_compute. reflexivity. Qed.

(** Also without a file that was left behind: the process whose pid was read exits, and
    another is started, before the check. *)
Theorem two_running_after_exit :
  let s := bg_run (fresh_system [(100, foreground); (200, foreground); (300, foreground)])
    (replicate 3 (0, true) ++ replicate 4 (1, true) ++ replicate 3 (0, true) ++ replicate 3 (2, true) ++ replicate 3 (1, true))%nat in
  pg_phase <$> sy_programs s = [Gone; Running (Some 1%nat); Running (Some 1%nat)].
Proof. vm_compute. reflexivity. Qed.
