(* ===== verification/Ident.v ===== *)
(** * parse/ident.rl: what protocol a connection speaks

    The machine that looks at the first line of each half of a connection, translated from
    its regular expressions; the interface the TCP connections use it by. *)

From Stdlib Require Import String.
From S2P Require Import Prelude Vpt Streams StreamsProps HttpRsp HttpRspProps HttpMessages HttpProps.
From S2P Require Import Rope Tcp TcpFlow TcpProps Tender.

(** ** The machine *)

(** The states: in a literal after its first [k] bytes, in a word, behind the return at the
    end of the line, and at the end.  A word begins with a state of its own since it is
    not empty. *)
Inductive IdState :=
  | IError
  | IStart
  | IGet (k : nat) | IUri0 | IUri | IVersion (k : nat) | IReqCr
  | IHttp (k : nat) | ICode0 | ICode | IReason0 | IReason | IRspCr
  | IEnd.

#[export] Instance id_state_eq_dec : EqDecision IdState.
Proof. solve_decision. Defined.

Definition GET_ : list Z := lit "GET ".
Definition VERSION : list Z := lit "HTTP/1.1".
Definition HTTP_ : list Z := lit "HTTP/1.1 ".

(** [^ \r\n] *)
Definition is_word (c : Z) : bool := negb ((c =? 32) || (c =? 13) || (c =? 10)).

(** The byte behind the first [k] of a literal: [inside], or [after] with the last. *)
Definition literal (l : list Z) (k : nat) (c : Z) (inside : nat → IdState) (after : IdState) : IdState :=
  if bool_decide (l !! k = Some c) then if (S k =? length l)%nat then after else inside (S k) else IError.

(** A word, and the space behind it. *)
Definition word0 (c : Z) (word : IdState) : IdState := if is_word c then word else IError.
Definition word_or (c : Z) (word after : IdState) : IdState := if is_word c then word else if c =? 32 then after else IError.

(** The end of a line, with or without a return. *)
Definition line_feed (c : Z) (proto : IdProto) : IdState * option IdProto := if c =? 10 then (IEnd, Some proto) else (IError, None).
Definition line_end (c : Z) (cr : IdState) (proto : IdProto) : IdState * option IdProto := if c =? 13 then (cr, None) else line_feed c proto.

(** The next state, and the protocol when an action sets it and breaks. *)
Definition id_step (s : IdState) (c : Z) : IdState * option IdProto :=
  match s with
  | IError | IEnd => (IError, None)
  | IStart => (if c =? 71 then IGet 1 else if c =? 72 then IHttp 1 else IError, None)
  | IGet k => (literal GET_ k c IGet IUri0, None)
  | IUri0 => (word0 c IUri, None)
  | IUri => (word_or c IUri (IVersion 0), None)
  | IVersion k =>
      if (k =? length VERSION)%nat then line_end c IReqCr HTTP_REQ
      else (literal VERSION k c IVersion (IVersion (length VERSION)), None)
  | IReqCr => line_feed c HTTP_REQ
  | IHttp k => (literal HTTP_ k c IHttp ICode0, None)
  | ICode0 => (word0 c ICode, None)
  | ICode => (word_or c ICode IReason0, None)
  | IReason0 => (word0 c IReason, None)
  | IReason => if is_word c then (IReason, None) else line_end c IRspCr HTTP_RSP
  | IRspCr => line_feed c HTTP_RSP
  end.

(** ** Identifier *)

Record Identifier := MkIdentifier {
  id_cs : IdState;
  id_proto : IdProto;
}.

Definition identifier_start : Identifier := MkIdentifier IStart IdWorking.

(** The bytes up to a break or an error; an action breaks after it set the protocol. *)
Fixpoint id_exec (i : Identifier) (data : list Z) : Identifier :=
  match data with
  | [] => i
  | c :: data =>
      let '(cs, proto) := id_step (id_cs i) c in
      match proto with
      | Some p => MkIdentifier cs p
      | None => if decide (cs = IError) then MkIdentifier IError (id_proto i) else id_exec (MkIdentifier cs (id_proto i)) data
      end
  end.

Definition is_working (p : IdProto) : bool := match p with IdWorking => true | _ => false end.

Definition identifier_receive (i : Identifier) (data : list Z) : Identifier :=
  if bool_decide (id_cs i = IError) || negb (is_working (id_proto i)) then i
  else
    let i := id_exec i data in
    if decide (id_cs i = IError) then MkIdentifier (id_cs i) IdUnknown else i.

(** * Theorems

    It recognises the first lines of requests and responses, in whatever pieces they come;
    with it, what a TCP connection takes for HTTP. *)

(** ** The lines *)

Definition word (w : list Z) : Prop := w ≠ [] ∧ Forall (λ c, is_word c = true) w.
Definition eol (e : list Z) : Prop := e = [10] ∨ e = [13; 10].

Definition request_line (l : list Z) : Prop := ∃ w e, word w ∧ eol e ∧ l = GET_ ++ w ++ [32] ++ VERSION ++ e.
Definition response_line (l : list Z) : Prop := ∃ a b e, word a ∧ word b ∧ eol e ∧ l = HTTP_ ++ a ++ [32] ++ b ++ e.

Definition begins (P : list Z → Prop) (d : list Z) : Prop := ∃ l r, P l ∧ d = l ++ r.

(** What was read when the machine is in a state. *)
Definition reads (s : IdState) (d : list Z) : Prop :=
  match s with
  | IError | IEnd => False
  | IStart => d = []
  | IGet k => (0 < k < length GET_)%nat ∧ d = take k GET_
  | IUri0 => d = GET_
  | IUri => ∃ w, word w ∧ d = GET_ ++ w
  | IVersion k => ∃ w, word w ∧ (k ≤ length VERSION)%nat ∧ d = GET_ ++ w ++ [32] ++ take k VERSION
  | IReqCr => ∃ w, word w ∧ d = GET_ ++ w ++ [32] ++ VERSION ++ [13]
  | IHttp k => (0 < k < length HTTP_)%nat ∧ d = take k HTTP_
  | ICode0 => d = HTTP_
  | ICode => ∃ a, word a ∧ d = HTTP_ ++ a
  | IReason0 => ∃ a, word a ∧ d = HTTP_ ++ a ++ [32]
  | IReason => ∃ a b, word a ∧ word b ∧ d = HTTP_ ++ a ++ [32] ++ b
  | IRspCr => ∃ a b, word a ∧ word b ∧ d = HTTP_ ++ a ++ [32] ++ b ++ [13]
  end.

Definition line_of (p : IdProto) (l : list Z) : Prop :=
  match p with HTTP_REQ => request_line l | HTTP_RSP => response_line l | _ => False end.

Lemma word_snoc w c : word w → is_word c = true → word (w ++ [c]).
Proof. intros [N F] C. split; [by destruct w|]. apply Forall_app. split; [done|by constructor]. Qed.

Lemma word_one c : is_word c = true → word [c].
Proof. intros C. split; [done|by constructor]. Qed.

Lemma literal_reads l k c inside after : literal l k c inside after ≠ IError →
  l !! k = Some c ∧ (S k ≤ length l)%nat ∧ (literal l k c inside after = if (S k =? length l)%nat then after else inside (S k)) ∧ take (S k) l = take k l ++ [c].
Proof.
  unfold literal. case_bool_decide as E; [|done]. intros _. split_and!; [done|by apply lookup_lt_Some in E|done|by apply take_S_r].
Qed.

(** A step reads a byte. *)
Lemma step_reads s d c : reads s d →
  match id_step s c with
  | (s', Some p) => line_of p (d ++ [c])
  | (s', None) => s' = IError ∨ reads s' (d ++ [c])
  end.
Proof.
  destruct s as [| |k| | |k| |k| | | | | |]; cbn [reads id_step]; try done.
  - intros ->. destruct (Z.eqb_spec c 71) as [->|]; [by right; cbn; split; [lia|]|]. destruct (Z.eqb_spec c 72) as [->|]; [by right; cbn; split; [lia|]|by left].
  - intros [K ->]. destruct (decide (literal GET_ k c IGet IUri0 = IError)) as [E|E]; [by left|right]. apply literal_reads in E as (_ & L & -> & <-).
    destruct (Nat.eqb_spec (S k) (length GET_)) as [->|]; cbn [reads]; [by rewrite firstn_all|]. split; [lia|done].
  - intros ->. unfold word0. destruct (is_word c) eqn:C; [right|by left]. exists [c]. split; [by apply word_one|done].
  - intros (w & W & ->). unfold word_or. destruct (is_word c) eqn:C; [right|].
    + exists (w ++ [c]). split; [by apply word_snoc|by rewrite <- app_assoc].
    + destruct (Z.eqb_spec c 32) as [->|]; [right|by left]. exists w. split_and!; [done|lia|by rewrite <- app_assoc].
  - intros (w & W & K & ->). destruct (Nat.eqb_spec k (length VERSION)) as [->|N].
    + rewrite firstn_all. unfold line_end, line_feed. destruct (Z.eqb_spec c 13) as [->|]; [right; exists w; split; [done|by rewrite <- !app_assoc]|].
      destruct (Z.eqb_spec c 10) as [->|]; [|by left]. exists w, [10]. split_and!; [done|by left|by rewrite <- !app_assoc].
    + destruct (decide (literal VERSION k c IVersion (IVersion (length VERSION)) = IError)) as [E|E]; [by left|right]. apply literal_reads in E as (_ & L & -> & T).
      destruct (Nat.eqb_spec (S k) (length VERSION)) as [E|]; cbn [reads]; exists w; (split_and!; [done|lia|]); rewrite <- ?E, T; by rewrite <- !app_assoc.
  - intros (w & W & ->). unfold line_feed. destruct (Z.eqb_spec c 10) as [->|]; [|by left]. exists w, [13; 10]. split_and!; [done|by right|by rewrite <- !app_assoc].
  - intros [K ->]. destruct (decide (literal HTTP_ k c IHttp ICode0 = IError)) as [E|E]; [by left|right]. apply literal_reads in E as (_ & L & -> & <-).
    destruct (Nat.eqb_spec (S k) (length HTTP_)) as [->|]; cbn [reads]; [by rewrite firstn_all|]. split; [lia|done].
  - intros ->. unfold word0. destruct (is_word c) eqn:C; [right|by left]. exists [c]. split; [by apply word_one|done].
  - intros (a & A & ->). unfold word_or. destruct (is_word c) eqn:C; [right|].
    + exists (a ++ [c]). split; [by apply word_snoc|by rewrite <- app_assoc].
    + destruct (Z.eqb_spec c 32) as [->|]; [right|by left]. exists a. split; [done|by rewrite <- app_assoc].
  - intros (a & A & ->). unfold word0. destruct (is_word c) eqn:C; [right|by left]. exists a, [c]. split_and!; [done|by apply word_one|by rewrite <- !app_assoc].
  - intros (a & b & A & B & ->). destruct (is_word c) eqn:C.
    + right. exists a, (b ++ [c]). split_and!; [done|by apply word_snoc|by rewrite <- !app_assoc].
    + unfold line_end, line_feed. destruct (Z.eqb_spec c 13) as [->|]; [right; exists a, b; split_and!; [done..|by rewrite <- !app_assoc]|].
      destruct (Z.eqb_spec c 10) as [->|]; [|by left]. exists a, b, [10]. split_and!; [done|done|by left|by rewrite <- !app_assoc].
  - intros (a & b & A & B & ->). unfold line_feed. destruct (Z.eqb_spec c 10) as [->|]; [|by left]. exists a, b, [13; 10]. split_and!; [done|done|by right|by rewrite <- !app_assoc].
Qed.

Lemma exec_reads s d data : reads s d →
  let i := id_exec (MkIdentifier s IdWorking) data in
  i = MkIdentifier IError IdWorking ∨ (id_proto i = IdWorking ∧ reads (id_cs i) (d ++ data)) ∨
  ∃ p l r, i = MkIdentifier IEnd p ∧ line_of p l ∧ (d ++ data = l ++ r).
Proof.
  revert s d. induction data as [|c data IH]; intros s d R i; [right; left; by rewrite app_nil_r|]. unfold i. cbn [id_exec id_cs id_proto].
  pose proof (step_reads s d c R) as C. assert (∀ s' p, id_step s c = (s', Some p) → s' = IEnd) as End.
  { intros s' p. destruct s as [| |k| | |k| |k| | | | | |]; cbn; unfold line_end, line_feed; repeat case_match; naive_solver. }
  destruct (id_step s c) as [s' [p|]].
  - right. right. exists p, (d ++ [c]), data. split_and!; [by rewrite (End _ _ eq_refl)|done|by rewrite <- app_assoc].
  - destruct (decide (s' = IError)) as [->|N]; [by left|]. destruct C as [?|C]; [done|]. specialize (IH s' _ C). cbn in IH. by rewrite <- app_assoc in IH.
Qed.

(** The bytes [d] take the machine from one state to another. *)
Definition takes (s : IdState) (d : list Z) (s' : IdState) : Prop := ∀ r, id_exec (MkIdentifier s IdWorking) (d ++ r) = id_exec (MkIdentifier s' IdWorking) r.

Lemma takes_app s1 d1 s2 d2 s3 : takes s1 d1 s2 → takes s2 d2 s3 → takes s1 (d1 ++ d2) s3.
Proof. intros T1 T2 r. by rewrite <- app_assoc, T1. Qed.

Lemma takes_word s0 s w : (∀ c, is_word c = true → id_step s0 c = (s, None)) → (∀ c, is_word c = true → id_step s c = (s, None)) → s ≠ IError → word w → takes s0 w s.
Proof.
  intros S0 S N [Nw F] r. destruct w as [|c w]; [done|]. clear Nw. apply Forall_cons in F as [C F]. cbn [app id_exec id_cs id_proto]. rewrite S0, decide_False by done.
  induction F as [|c' w C' F IH]; [done|]. cbn [app id_exec id_cs id_proto]. by rewrite S, decide_False by done.
Qed.

Lemma takes_uri w : word w → takes IUri0 w IUri.
Proof. apply takes_word; [intros c C; cbn; unfold word0; by rewrite C|intros c C; cbn; unfold word_or; by rewrite C|done]. Qed.

Lemma takes_code a : word a → takes ICode0 a ICode.
Proof. apply takes_word; [intros c C; cbn; unfold word0; by rewrite C|intros c C; cbn; unfold word_or; by rewrite C|done]. Qed.

Lemma takes_reason b : word b → takes IReason0 b IReason.
Proof. apply takes_word; [intros c C; cbn; unfold word0; by rewrite C|intros c C; cbn; by rewrite C|done]. Qed.

(** A whole line, and whatever follows it. *)
Lemma exec_line p l r : line_of p l → id_exec identifier_start (l ++ r) = MkIdentifier IEnd p.
Proof.
  destruct p; try done; cbn [line_of].
  - intros (w & e & W & E & ->). assert (takes IStart (GET_ ++ w ++ [32] ++ VERSION) (IVersion 8)) as T.
    { eapply takes_app; [by intros ?|]. eapply takes_app; [by apply takes_uri|]. by intros ?. }
    replace ((GET_ ++ w ++ [32] ++ VERSION ++ e) ++ r) with ((GET_ ++ w ++ [32] ++ VERSION) ++ e ++ r) by (by rewrite <- !app_assoc).
    unfold identifier_start. rewrite T. by destruct E as [->| ->].
  - intros (a & b & e & A & B & E & ->). assert (takes IStart (HTTP_ ++ a ++ [32] ++ b) IReason) as T.
    { eapply takes_app; [by intros ?|]. eapply takes_app; [by apply takes_code|]. eapply takes_app; [by intros ?|by apply takes_reason]. }
    replace ((HTTP_ ++ a ++ [32] ++ b ++ e) ++ r) with ((HTTP_ ++ a ++ [32] ++ b) ++ e ++ r) by (by rewrite <- !app_assoc).
    unfold identifier_start. rewrite T. by destruct E as [->| ->].
Qed.

(** *** Pieces *)

Lemma exec_app i a b : id_proto i = IdWorking → id_exec i (a ++ b) =
  let j := id_exec i a in if bool_decide (id_cs j = IError) || negb (is_working (id_proto j)) then j else id_exec j b.
Proof.
  revert i. induction a as [|c a IH]; intros [s p] W; cbn in W; subst p; cbn [app id_exec id_cs id_proto]; cbn zeta.
  - cbn [is_working negb]. rewrite orb_false_r. case_bool_decide as E; [|done]. cbn in E. subst s. by destruct b.
  - destruct (id_step s c) as [s' [p|]] eqn:St.
    + assert (is_working p = false) as Nw. { destruct s as [| |k| | |k| |k| | | | | |]; cbn in St; unfold line_end, line_feed in St; repeat case_match; naive_solver. }
      cbn [id_proto id_cs]. by rewrite Nw, orb_true_r.
    + destruct (decide (s' = IError)); [done|]. by apply IH.
Qed.

Lemma receive_app d b : identifier_receive (identifier_receive identifier_start d) b = identifier_receive identifier_start (d ++ b).
Proof.
  unfold identifier_receive at 2 3. cbn [identifier_start id_cs id_proto is_working negb]. rewrite bool_decide_eq_false_2 by done. cbn [orb]. fold identifier_start.
  rewrite exec_app by done. set (j := id_exec identifier_start d). cbn zeta. destruct (decide (id_cs j = IError)) as [E|E].
  - rewrite bool_decide_eq_true_2 by done. cbn [orb]. rewrite decide_True by done. unfold identifier_receive. cbn [id_cs]. by rewrite bool_decide_eq_true_2.
  - rewrite (bool_decide_eq_false_2 (id_cs j = IError)) by done. cbn [orb]. unfold identifier_receive. rewrite bool_decide_eq_false_2 by done. cbn [orb].
    destruct (negb (is_working (id_proto j))); [by rewrite decide_False|done].
Qed.

Definition identified (pieces : list (list Z)) : IdProto := id_proto (foldl identifier_receive identifier_start pieces).

Lemma identified_concat pieces : foldl identifier_receive identifier_start pieces = identifier_receive identifier_start (concat pieces).
Proof.
  induction pieces as [|d pieces IH] using rev_ind; [done|]. rewrite foldl_app, concat_app. cbn. rewrite IH, app_nil_r. apply receive_app.
Qed.

Lemma receive_start d : identifier_receive identifier_start d = let i := id_exec identifier_start d in if decide (id_cs i = IError) then MkIdentifier (id_cs i) IdUnknown else i.
Proof. unfold identifier_receive. cbn [identifier_start id_cs id_proto is_working negb]. by rewrite bool_decide_eq_false_2. Qed.

Lemma receive_cases d : let i := identifier_receive identifier_start d in
  i = MkIdentifier IError IdUnknown ∨ (id_proto i = IdWorking ∧ reads (id_cs i) d) ∨ ∃ p l r, i = MkIdentifier IEnd p ∧ line_of p l ∧ d = l ++ r.
Proof.
  intros i. unfold i. rewrite receive_start. destruct (exec_reads IStart [] d eq_refl) as [E|[[W R]|(p & l & r & E & L & D)]]; fold identifier_start in *; cbn zeta.
  - left. by rewrite E.
  - right. left. rewrite decide_False; [done|]. intros E. by rewrite E in R.
  - right. right. exists p, l, r. by rewrite E.
Qed.

Lemma receive_line p l r : line_of p l → id_proto (identifier_receive identifier_start (l ++ r)) = p.
Proof. intros L. rewrite receive_start, (exec_line p) by done. done. Qed.

(** From any state on the way a line can be finished. *)
Lemma reads_extends s d : reads s d → ∃ p more, line_of p (d ++ more).
Proof.
  assert (request_line (GET_ ++ [47] ++ [32] ++ VERSION ++ [10])) as Rq by (exists [47], [10]; split_and!; [by apply word_one|by left|done]).
  assert (response_line (HTTP_ ++ [50] ++ [32] ++ [79] ++ [10])) as Rs by (exists [50], [79], [10]; split_and!; [by apply word_one|by apply word_one|by left|done]).
  destruct s as [| |k| | |k| |k| | | | | |]; cbn [reads]; try done.
  - intros ->. by exists HTTP_REQ, (GET_ ++ [47] ++ [32] ++ VERSION ++ [10]).
  - intros [_ ->]. exists HTTP_REQ, (drop k GET_ ++ [47] ++ [32] ++ VERSION ++ [10]). by rewrite app_assoc, take_drop.
  - intros ->. by exists HTTP_REQ, ([47] ++ [32] ++ VERSION ++ [10]).
  - intros (w & W & ->). exists HTTP_REQ, ([32] ++ VERSION ++ [10]), w, [10]. split_and!; [done|by left|by rewrite <- !app_assoc].
  - intros (w & W & _ & ->). exists HTTP_REQ, (drop k VERSION ++ [10]), w, [10]. split_and!; [done|by left|]. rewrite <- !app_assoc. do 3 f_equal. by rewrite app_assoc, take_drop.
  - intros (w & W & ->). exists HTTP_REQ, [10], w, [13; 10]. split_and!; [done|by right|by rewrite <- !app_assoc].
  - intros [_ ->]. exists HTTP_RSP, (drop k HTTP_ ++ [50] ++ [32] ++ [79] ++ [10]). by rewrite app_assoc, take_drop.
  - intros ->. by exists HTTP_RSP, ([50] ++ [32] ++ [79] ++ [10]).
  - intros (a & A & ->). exists HTTP_RSP, ([32] ++ [79] ++ [10]), a, [79], [10]. split_and!; [done|by apply word_one|by left|by rewrite <- !app_assoc].
  - intros (a & A & ->). exists HTTP_RSP, ([79] ++ [10]), a, [79], [10]. split_and!; [done|by apply word_one|by left|by rewrite <- !app_assoc].
  - intros (a & b & A & B & ->). exists HTTP_RSP, [10], a, b, [10]. split_and!; [done|done|by left|by rewrite <- !app_assoc].
  - intros (a & b & A & B & ->). exists HTTP_RSP, [10], a, b, [13; 10]. split_and!; [done|done|by right|by rewrite <- !app_assoc].
Qed.

Lemma receive_proto d p : p = HTTP_REQ ∨ p = HTTP_RSP → id_proto (identifier_receive identifier_start d) = p ↔ begins (line_of p) d.
Proof.
  intros Hp. split.
  - intros E. destruct (receive_cases d) as [C|[[C _]|(p' & l & r & C & L & ->)]]; [rewrite C in E; subst p; by destruct Hp|rewrite C in E; subst p; by destruct Hp|].
    rewrite C in E. cbn in E. subst p'. by exists l, r.
  - intros (l & r & L & ->). by apply receive_line.
Qed.

(** C25: In whatever pieces the bytes of a half come, the identifier has decided for a
    request exactly when they begin with a line of the form GET, a word, HTTP/1.1, for a
    response exactly when they begin with HTTP/1.1 and two words, and has given up exactly
    when no bytes that follow could make such a line of them. *)
Theorem identified_spec pieces : let d := concat pieces in
  (identified pieces = HTTP_REQ ↔ begins request_line d) ∧ (identified pieces = HTTP_RSP ↔ begins response_line d) ∧
  (identified pieces = IdUnknown ↔ ∀ more, ¬ begins request_line (d ++ more) ∧ ¬ begins response_line (d ++ more)).
Proof.
  intros d. unfold identified. rewrite identified_concat. fold d. split_and!; [apply (receive_proto d HTTP_REQ); by left|apply (receive_proto d HTTP_RSP); by right|]. split.
  - intros E more. rewrite <- (receive_proto (d ++ more) HTTP_REQ), <- (receive_proto (d ++ more) HTTP_RSP) by tauto. rewrite <- receive_app.
    unfold identifier_receive at 1 3. rewrite E. cbn [is_working negb]. rewrite orb_true_r, E. done.
  - intros N. destruct (receive_cases d) as [C|[[_ R]|(p & l & r & C & L & Ed)]]; [by rewrite C| |].
    + apply reads_extends in R as (p & more & L). destruct (N more) as [N1 N2]. destruct p; try done; [destruct N1|destruct N2]; exists (d ++ more), []; by rewrite app_nil_r.
    + destruct (N []) as [N1 N2]. rewrite app_nil_r in N1, N2. destruct p; try done; [destruct N1|destruct N2]; by exists l, r.
Qed.

(** A reason of two words, or a method other than GET, is not recognised. *)
Theorem not_found_unknown : identified [lit "HTTP/1.1 404 Not Found"] = IdUnknown.
Proof. vm_compute. reflexivity. Qed.

Theorem post_unknown : identified [lit "POST"] = IdUnknown.
Proof. vm_compute. reflexivity. Qed.

(** ** Connections *)

Section Connections.
Context {B : Type} (made : B) (receive : B → HalfId → list Z → B).

(** The identifier for the TCP connections, with parsers of any kind. *)
#[local, refine] Instance identifier_parsers : Parsers := {|
  Ident := Identifier;
  ident_made := identifier_start;
  ident_start _ := identifier_start;
  ident_receive := identifier_receive;
  ident_proto := id_proto;
  Http := B;
  http_new := made;
  http_receive := receive;
|}.
Proof. done. Defined.

(** What a half sent, in pieces. *)
Definition half_pieces (s : HalfId) (l : list (HalfId * list Z)) : list (list Z) := snd <$> filter (λ x, x.1 = s) l.

Definition speaks_http (d : list Z) : Prop := begins request_line d ∨ begins response_line d.

Lemma half_pieces_snoc s l t d : half_pieces s (l ++ [(t, d)]) = half_pieces s l ++ (if decide (t = s) then [d] else []).
Proof. unfold half_pieces. rewrite filter_app, fmap_app. f_equal. rewrite filter_cons, filter_nil. cbn. by destruct (decide (t = s)). Qed.

Lemma decides d : (match id_proto (identifier_receive identifier_start d) with HTTP_REQ | HTTP_RSP => true | _ => false end) = true ↔ speaks_http d.
Proof.
  unfold speaks_http. rewrite <- (receive_proto d HTTP_REQ), <- (receive_proto d HTTP_RSP) by tauto. destruct (id_proto _); naive_solver.
Qed.

Lemma prefix_snoc_cases {A} (l1 l : list A) x : l1 `prefix_of` l ++ [x] → l1 `prefix_of` l ∨ l1 = l ++ [x].
Proof.
  intros [k E]. destruct k as [|y k _] using rev_ind; [right; by rewrite app_nil_r in E|]. left. rewrite app_assoc in E. apply app_inj_tail in E as [-> _]. by apply prefix_app_r.
Qed.

(** The identifiers of a flow have what the halves sent until it is taken for HTTP. *)
Lemma flow_http l : let f := foldl feed fresh_flow l in
  (fl_proto f = Cn.HTTP ∧ ∃ l1 s, l1 `prefix_of` l ∧ speaks_http (concat (half_pieces s l1))) ∨
  (fl_proto f = Cn.Working ∧ fl_id1 f = identifier_receive identifier_start (concat (half_pieces H1 l)) ∧ fl_id2 f = identifier_receive identifier_start (concat (half_pieces H2 l)) ∧
   ∀ l1 s, l1 `prefix_of` l → ¬ speaks_http (concat (half_pieces s l1))).
Proof.
  induction l as [|[t d] l IH] using rev_ind.
  - right. split_and!; [done..|]. intros l1 s P. apply prefix_nil_inv in P as ->. rewrite <- decides. cbn. by destruct s.
  - cbn zeta in *. rewrite foldl_app. cbn [foldl]. set (f := foldl feed fresh_flow l) in *. destruct IH as [[P (l1 & s & Pre & Sp)]|(P & I1 & I2 & No)].
    { left. unfold feed. rewrite P. cbn. split; [done|]. exists l1, s. split; [by apply prefix_app_r|done]. }
    assert (ident_receive (match t with H1 => fl_id1 f | H2 => fl_id2 f end) d = identifier_receive identifier_start (concat (half_pieces t (l ++ [(t, d)])))) as Er.
    { rewrite half_pieces_snoc, decide_True, concat_app by done. cbn. rewrite app_nil_r. destruct t; [rewrite I1|rewrite I2]; apply receive_app. }
    unfold feed. rewrite P. cbn [fl_proto fl_id1 fl_id2 fl_http]. rewrite Er. cbn [ident_proto identifier_parsers].
    destruct (match id_proto _ with HTTP_REQ | HTTP_RSP => true | _ => false end) eqn:D.
    + left. split; [done|]. apply decides in D. by exists (l ++ [(t, d)]), t.
    + right. split; [done|]. assert (¬ speaks_http (concat (half_pieces t (l ++ [(t, d)])))) as Nt by (by rewrite <- decides, D).
      assert (∀ s, s ≠ t → half_pieces s (l ++ [(t, d)]) = half_pieces s l) as Oth by (intros s Ns; by rewrite half_pieces_snoc, decide_False, app_nil_r by congruence).
      split_and!; [destruct t; [done|by rewrite Oth]|destruct t; [by rewrite Oth|done]|].
      intros l1 s Pre. apply prefix_snoc_cases in Pre as [Pre| ->]; [by apply No|]. destruct (decide (s = t)) as [->|Ns]; [done|]. rewrite Oth by done. by apply No.
Qed.

(** C12: After a handshake, among whatever packets of other connections, where every packet
    was captured whole, not cut at the end of a page, a connection is taken for HTTP exactly when, at some point of what came, all that one of its ends had
    sent by then begins with a line of a request or a response, however it was cut into
    packets. *)
Theorem http_recognised `{HalfDictLib} ps k p1 p2 p3 ds : Forall whole ps → filter (between k) ps = p1 :: p2 :: p3 :: ds → packet_key p1 = k →
  synAckBits (pk_th p1) = SA_SYN → synAckBits (pk_th p2) = SA_SYN_ACK → pk_dir p2 ≠ pk_dir p1 → synAckBits (pk_th p3) = SA_ACK → pk_dir p3 = pk_dir p1 →
  ∃ h c, tcp_run new_Handler ps = Ok h ∧ view h k = Some c ∧
    (cn_proto c = Cn.HTTP ↔ ∃ l s, l `prefix_of` (sent k <$> ds) ∧ speaks_http (concat (half_pieces s l))).
Proof.
  intros Wh Ef Ek B1 B2 N2 B3 D3. destruct (handshake_then_data ps k p1 p2 p3 ds Wh Ef Ek B1 B2 N2 B3 D3) as (h & c & E & V & _ & _ & _ & F & _).
  exists h, c. split_and!; [done..|]. apply (f_equal fl_proto) in F. cbn [flow_of fl_proto] in F. rewrite F.
  destruct (flow_http (sent k <$> ds)) as [[P X]|(P & _ & _ & No)]; rewrite P; [done|]. split; [done|]. intros (l & s & Pre & Sp). by destruct (No l s Pre).
Qed.
End Connections.

(** A request in two packets after a handshake, with the packets of another connection. *)
Definition get_in_two : list Packet :=
  three_way 3 4 ++ three_way 1 2 ++ [px_packet 1 2 Egress 101 false true (lit "GET / HT"); px_packet 3 4 Egress 101 false true (lit "x");
    px_packet 1 2 Egress 109 false true (lit "TP/1.1" ++ [10])].

Lemma http_recognised_witness : ∃ h c, tcp_run (H0 := identifier_parsers [] (λ l s d, l ++ [(s, d)])) new_Handler get_in_two = Ok h ∧
  view h (MkKey 1 2 80 80) = Some c ∧ cn_proto c = Cn.HTTP.
Proof.
  destruct (http_recognised [] (λ l s d, l ++ [(s, d)]) get_in_two (MkKey 1 2 80 80) (px_packet 1 2 Egress 100 true false []) (px_packet 2 1 Ingress 200 true true [])
    (px_packet 1 2 Egress 101 false true []) [px_packet 1 2 Egress 101 false true (lit "GET / HT"); px_packet 1 2 Egress 109 false true (lit "TP/1.1" ++ [10])]) as (h & c & E & V & Hh).
  - repeat constructor; cbn; lia.
  - vm_compute. reflexivity.
  - reflexivity.
  - reflexivity.
  - reflexivity.
  - discriminate.
  - reflexivity.
  - reflexivity.
  - exists h, c. split_and!; [exact E|exact V|]. apply Hh. exists [(H1, lit "GET / HT"); (H1, lit "TP/1.1" ++ [10])], H1.
    split; [exists []; vm_compute; reflexivity|]. left. exists (lit "GET / HTTP/1.1" ++ [10]), []. split; [|vm_compute; reflexivity].
    exists [47], [10]. split_and!; [by apply word_one|by left|vm_compute; reflexivity].
Defined.

(** ** From packets to bodies *)

Section Exchange.
Context `{HalfDictLib} `{ZlibLaws} `{BrotliLaws}.
Variable turns : nat.

#[local] Instance exchange_dest : Consumer (Trace Act) (Dest Probe Probe) := tdest_consumer turns.
#[local] Existing Instance probe_members.

(** The two parsers of a connection with what they called, and the numbers of the packets
    their halves sent. *)
Record Exchange := MkExchange {
  ex_req : res (Trace Act * HttpParser Req (Members (B := Probe) (N := Probe)) (Dest Probe Probe));
  ex_rsp : res (Trace Act * HttpParser Rsp (Members (B := Probe) (N := Probe)) (Dest Probe Probe));
  ex_nreq : nat;
  ex_nrsp : nat;
}.

(** As flowData makes and starts them: the parser of responses with no source, and looking
    for neither cookies nor a location. *)
Definition req_made : Req := MkReq QMain [] [] 0.
Definition rsp_made : Rsp := MkRsp RMain [] [] [] 0 0 false false false false 0 false ∅ false [].

Definition exchange_new : Exchange :=
  MkExchange (Ok ([], new_parser req_made false)) ('(t, s) ← http_response_start [] rsp_made; Ok (t, new_parser s false)) 0 0.

Definition exchange_receive (e : Exchange) (s : HalfId) (data : list Z) : Exchange :=
  match s with
  | H1 => MkExchange ('(t, h) ← ex_req e; HttpRsp.http_receive t h (ex_nreq e) data) (ex_rsp e) (S (ex_nreq e)) (ex_nrsp e)
  | H2 => MkExchange (ex_req e) ('(t, h) ← ex_rsp e; HttpRsp.http_receive t h (ex_nrsp e) data) (ex_nreq e) (S (ex_nrsp e))
  end.

Lemma half_pieces_cons s t d l : half_pieces s ((t, d) :: l) = (if decide (t = s) then [d] else []) ++ half_pieces s l.
Proof. unfold half_pieces. rewrite filter_cons. cbn. by destruct (decide (t = s)). Qed.

(** Each parser is fed the pieces of its half. *)
Lemma exchange_fed l e : let e' := foldl (λ e x, exchange_receive e x.1 x.2) e l in
  ex_req e' = ('(t, h) ← ex_req e; HttpRsp.feed t h (ex_nreq e) (half_pieces H1 l)) ∧ ex_rsp e' = ('(t, h) ← ex_rsp e; HttpRsp.feed t h (ex_nrsp e) (half_pieces H2 l)).
Proof.
  cbn zeta. revert e. induction l as [|[s d] l IH]; intros e; cbn [foldl fst snd].
  - cbn. split; [by destruct (ex_req e) as [[]| |]|by destruct (ex_rsp e) as [[]| |]].
  - destruct (IH (exchange_receive e s d)) as [E1 E2]. rewrite E1, E2, !half_pieces_cons. destruct s; cbn [exchange_receive ex_req ex_rsp ex_nreq ex_nrsp]; split.
    + destruct (ex_req e) as [[t h]| |]; [|done..]. rewrite decide_True, !bind_Ok by done. cbn [app HttpRsp.feed]. done.
    + by rewrite decide_False.
    + by rewrite decide_False.
    + destruct (ex_rsp e) as [[t h]| |]; [|done..]. rewrite decide_True, !bind_Ok by done. cbn [app HttpRsp.feed]. done.
Qed.

#[local] Instance exchange_parsers : Parsers := identifier_parsers exchange_new exchange_receive.
Abbreviation ok_body := (λ b : bool * bool * list Z, decodable turns b.1.1 b.1.2 b.2).
Abbreviation plain_body := (λ b : bool * bool * list Z, decoded b.1.1 b.1.2 b.2).

(** C11: The responses of a server reach the parser of bodies through TCP, the identifier, the
    parser of responses and the decompressors: after a handshake, when the first packet
    with data has the whole line of a request and what the other end sends are responses as in
    [HttpMessages] whose content the decompressors accept, in whatever packets and among
    whatever packets of other connections, all captured whole, the parser of
    responses has made the calls for their heads, and the parser of bodies was given
    exactly the uncompressed bodies; the parser of requests was fed all the client sent. *)
Theorem exchange_end_to_end ps k p1 p2 p3 ds d0 rest ms : Forall whole ps → filter (between k) ps = p1 :: p2 :: p3 :: ds → packet_key p1 = k →
  synAckBits (pk_th p1) = SA_SYN → synAckBits (pk_th p2) = SA_SYN_ACK → pk_dir p2 ≠ pk_dir p1 → synAckBits (pk_th p3) = SA_ACK → pk_dir p3 = pk_dir p1 →
  sent k <$> ds = (H1, d0) :: rest → begins request_line d0 →
  Forall good_message ms → Forall ok_body (concat (coding <$> ms)) → concat (half_pieces H2 rest) = concat (message_bytes <$> ms) →
  ∃ h c e t q, tcp_run new_Handler ps = Ok h ∧ view h k = Some c ∧ cn_proto c = Cn.HTTP ∧ cn_http c = Some e ∧
    ex_req e = HttpRsp.feed [] (new_parser req_made false) 0 (d0 :: half_pieces H1 rest) ∧
    ex_rsp e = Ok (t, q) ∧ quiet t = APush LangHttp :: concat (message_acts false <$> ms) ∧ heard false t = concat (plain_body <$> (concat (coding <$> ms))).
Proof.
  intros Wh Ef Ek B1 B2 N2 B3 D3 Es Rq G V Em. destruct (handshake_then_data ps k p1 p2 p3 ds Wh Ef Ek B1 B2 N2 B3 D3) as (h & c & E & Vw & _ & _ & _ & F & _).
  rewrite Es in F. cbn [foldl] in F. set (f1 := feed fresh_flow (H1, d0)) in F.
  assert (fl_proto f1 = Cn.HTTP ∧ fl_http f1 = Some (exchange_receive exchange_new H1 d0)) as [P1 E1].
  { assert (id_proto (identifier_receive identifier_start d0) = HTTP_REQ) as Id by (apply (receive_proto d0 HTTP_REQ); [by left|done]).
    unfold f1, feed. cbn [fresh_flow fl_proto fl_id1 fl_http ident_receive ident_start ident_proto exchange_parsers identifier_parsers]. by rewrite Id. }
  pose proof (http_kept f1 rest _ P1 E1) as Hk. pose proof (f_equal fl_http F) as F1. cbn [flow_of fl_http] in F1. rewrite Hk in F1.
  set (e := foldl _ _ rest) in F1. destruct (exchange_fed rest (exchange_receive exchange_new H1 d0)) as [X1 X2]. 
  destruct (responses_from turns [APush LangHttp] rsp_made false false ms (half_pieces H2 rest)) as (t & q & Fd & _ & Q & Hd); try done.
  { apply Forall_forall. intros m _. by apply lines_fine_nothing. }
  exists h, c, e, t, q. split_and!; try done.
  - pose proof (f_equal fl_proto F) as Fp. cbn [flow_of fl_proto] in Fp. rewrite Fp. destruct (flow_http exchange_new exchange_receive (sent k <$> ds)) as [[P _]|(_ & _ & _ & No)].
    + rewrite Es in P. exact P.
    + rewrite Es in No. destruct (No [(H1, d0)] H1); [by exists rest|]. left. rewrite half_pieces_cons, decide_True by done. cbn [app concat half_pieces]. unfold half_pieces. rewrite filter_nil. cbn. by rewrite app_nil_r.
  - refine (eq_trans X2 _). exact Fd.
Qed.
End Exchange.

(** A request, and a compressed response in chunks, cut into packets of seven bytes, with
    the packets of another connection. *)
Definition rsp_packets : list Packet := (λ d, px_packet 2 1 Ingress 201 false true d) <$> cut 25 7 (message_bytes gzip_message).
Definition get_line : list Z := lit "GET / HTTP/1.1" ++ [13; 10; 13; 10].

Definition an_exchange : list Packet :=
  three_way 3 4 ++ three_way 1 2 ++ [px_packet 1 2 Egress 101 false true get_line; px_packet 3 4 Egress 101 false true (lit "x")] ++ rsp_packets.

Lemma exchange_end_to_end_witness : ∃ h c e t q,
  tcp_run (H0 := exchange_parsers 100) new_Handler an_exchange = Ok h ∧ view h (MkKey 1 2 80 80) = Some c ∧ cn_http c = Some e ∧ ex_rsp e = Ok (t, q) ∧ heard false t = lit "aabb".
Proof.
  destruct (exchange_end_to_end 100 an_exchange (MkKey 1 2 80 80) (px_packet 1 2 Egress 100 true false []) (px_packet 2 1 Ingress 200 true true [])
    (px_packet 1 2 Egress 101 false true []) (px_packet 1 2 Egress 101 false true get_line :: rsp_packets) get_line (pair H2 <$> cut 25 7 (message_bytes gzip_message)) [gzip_message])
    as (h & c & e & t & q & E & V & _ & Ce & _ & Er & _ & Hd).
  - apply (bool_decide_unpack _). vm_compute. exact I.
  - vm_compute. reflexivity.
  - reflexivity.
  - reflexivity.
  - reflexivity.
  - discriminate.
  - reflexivity.
  - reflexivity.
  - vm_compute. reflexivity.
  - exists (lit "GET / HTTP/1.1" ++ [13; 10]), [13; 10]. split; [|vm_compute; reflexivity]. exists [47], [13; 10]. split_and!; [by apply word_one|by right|vm_compute; reflexivity].
  - constructor; [apply gzip_message_good|constructor].
  - constructor; [|constructor]. vm_compute. by repeat constructor.
  - vm_compute. reflexivity.
  - exists h, c, e, t, q. split_and!; [exact E|exact V|exact Ce|exact Er|]. rewrite Hd. clear. vm_compute. reflexivity.
Defined.
